(* ===== verification/_CoqProject ===== *)
-Q . S2P
Prelude.v
Types.v
SatCounter.v
ReplPolicy.v
AssocCache.v
AssocCacheInit.v
BtbEntry.v
Btb.v
SimpleBtb.v
MultiLevelBtb.v
MultiLevelWp.v
MultiLevelHit.v
MultiLevelInv.v
MultiLevelOps.v
MultiLevelSafe.v
MultiLevelChain.v
MultiLevelSpec.v
Ras.v
Ftq.v
Fdp.v
FdpInv.v
FdpSpec.v
CondPred.v
BiMode.v
Gshare.v
Tournament.v
TageHist.v
Tage.v
TageInv.v
TageBaseOk.v
TageSafe.v
TageRun.v
TageTags.v
TageGen.v
TageSpec.v
TageScl.v
TageSclSizes.v
TageSclOk.v
TageSclSizesOk.v
TageSclSpec.v
StatCorr.v
StatCorrHist.v
StatCorrOk.v
StatCorrSpec.v
LoopPred.v
LoopSpec.v
LTage.v
SclPredictor.v
SclSpec.v
Indirect.v
Ittage.v
IttageOk.v
IttageRun.v
IttageSpec.v
BPredUnit.v
BPredUnitInv.v
BPredUnitSpec.v
Bac.v
BacBpu.v
BacInv.v
BacOps.v
BacFetch.v
BacSpec.v
Fetch.v
FetchInv.v
BacFront.v
FetchOps.v
FetchLoop.v
FetchTick.v
FetchSpec.v
FetchDemo.v
