(* ===== verification/Prelude.v ===== *)
(** * BTB-Ferret: a verification development of the modified gem5 front end

    The repository is gem5 with a new instruction-delivery front end: a
    three-level branch target buffer with a prefetcher driven by prefetch bits
    (BTB-Ferret), a decoupled branch prediction stage, a fetch target queue and
    a fetch-directed instruction prefetcher.  All paths below are relative to
    [src/gem5/src/].

    ** How the program's parts interact

    The BAC stage ([cpu/o3/bac.cc]) runs ahead of fetch.  Each cycle it
    handles the squashes of the later stages, then searches the BTB from the
    current PC for the next branch, asks the branch prediction unit
    ([cpu/pred/bpred_unit.cc]) for its direction and target, and appends a
    fetch target to the fetch target queue ([cpu/o3/ftq.cc]).  The queue
    announces insertions and removals; the fetch-directed prefetcher
    ([mem/cache/prefetch/fdp.cc]) listens and prefetches the cache blocks of
    the targets.  The fetch stage ([cpu/o3/fetch.cc]) reads the targets at
    the head of the queue, requests the cache lines they cover from the MMU
    and the instruction cache, decodes the bytes, asks the BAC stage for the
    PC after each instruction and queues the instructions for decode; when
    the path and the targets disagree it resteers the BAC stage.  The unit
    combines a BTB ([simple_btb.cc] or [multilevel_btb.cc]), one or two
    direction predictors ([conditional.hh]: local, gshare, bi-mode,
    tournament, TAGE, L-TAGE, TAGE-SC-L), an indirect target predictor
    ([simple_indirect.cc] or [it_tage.cc]) and the return address stack
    ([ras.cc]), and keeps a history object per branch in flight to repair
    all of them.  The multi-level BTB is built from the generic associative
    container ([base/cache/associative_cache.hh]), BTB entries
    ([btb_entry.hh]) and replacement policies.

    ** Files

    - [Prelude]: faults and the error monad of the C++ code, a state monad with
      its rules, shared lemmas and automation.
    - [Types]: [base/types.hh], [base/intmath.hh], [base/bitfield.hh],
      [arch/generic/pcstate.hh], [cpu/pred/branch_type.hh].
    - [SatCounter]: [base/sat_counter.hh].
    - [ReplPolicy]: [mem/cache/replacement_policies/], class
      [ReplacementPolicy] with the instances LRU and FIFO.
    - [AssocCache], [AssocCacheInit]: [base/cache/associative_cache.hh] and
      [indexing_policies/base.hh], generic in the entry ([CacheEntryOps]), the
      indexing policy ([Indexing]) and the replacement policy.
    - [BtbEntry]: [cpu/pred/btb_entry.hh], [tags/tagged_entry.hh], the instances
      of those classes.
    - [Btb]: [cpu/pred/btb.hh], class [BranchTargetBuffer]; [SimpleBtb]:
      [simple_btb.cc].
    - [MultiLevelBtb]: [multilevel_btb.cc], one definition per member function;
      [MultiLevelWp] and [MultiLevelHit] the rule of each function,
      [MultiLevelInv] the invariant, [MultiLevelOps] the abstract lookup
      [resolve], [MultiLevelSafe] the reachable states, [MultiLevelChain]
      the prefetches of a chain, [MultiLevelSpec] the theorems.
    - [Ras]: [ras.cc]; [Ftq]: [ftq.cc]; [Fdp], [FdpInv], [FdpSpec]: [fdp.cc].
    - [CondPred]: [conditional.hh] as class [ConditionalPredictor] with its
      contracts, [2bit_local.cc]; [BiMode]: [bi_mode.cc]; [Gshare]:
      [gshare.cc]; [Tournament]: [tournament.cc]; [Indirect]: [indirect.hh] and
      [simple_indirect.cc].
    - [TageHist]: the history buffer and the folded registers of
      [tage_base.cc], with the reference fold; [Tage]: the rest of [TAGEBase],
      its virtual functions as class [TageVirtual], and [tage.cc].  [TageInv]
      states the invariant and the contract of the virtual functions
      ([VirtualOk]), [TageBaseOk] discharges it for [TAGEBase], [TageSafe] and
      [TageRun] prove the operations against the contract (a prediction, the
      placeholder of an undetected branch, squash, correction, commit),
      [TageTags] the widths of the tags, [TageGen] the theorems that hold for
      every instance, [TageSpec] those of TAGE.
    - [TageScl], [TageSclSizes]: [TAGE_SC_L_TAGE] of [tage_sc_l.cc] and its two
      sizes ([tage_sc_l_64KB.cc], [tage_sc_l_8KB.cc]); [TageSclOk] and
      [TageSclSizesOk] discharge the contract, [TageSclSpec] has the calls
      [TAGE_SC_L] makes on it and the theorems.
    - [StatCorr]: [statistical_corrector.cc] and its two sizes; [StatCorrHist]
      the histories, [StatCorrOk] the tables, [StatCorrSpec] the runs and the
      theorems.
    - [LoopPred], [LoopSpec]: [loop_predictor.cc]; [LTage]: [ltage.cc].
    - [SclPredictor], [SclSpec]: [TAGE_SC_L] of [tage_sc_l.cc], over the three
      parts.
    - [Ittage]: [it_tage.cc], the indirect predictor and its [TAGEBase] with
      targets; [IttageOk] discharges the contract of the virtual functions,
      [IttageRun] has the invariant and the runs, [IttageSpec] the theorems.
    - [BPredUnit], [BPredUnitInv], [BPredUnitSpec]: [bpred_unit.cc], over the
      interfaces of its parts.
    - [Bac], [BacBpu], [BacInv], [BacOps], [BacFetch], [BacSpec]: [bac.cc], the
      stage with its unit, its queue and the heap of history objects.
    - [Fetch]: [fetch.cc], over the interfaces [FrontEnd] and [InstDecoder].
      [FetchInv] states the contracts of the two and the invariant; [BacFront]
      discharges the first for the BAC stage; [FetchOps], [FetchLoop] and
      [FetchTick] have the rules of the operations, [FetchSpec] the runs and
      the theorems, [FetchDemo] a stage on the BAC stage that witnesses them.

    ** Conventions

    An object is a [Record] of its members; a member function is a definition
    that takes the object and returns it, in [Res] when it can stop, or in the
    state monad of [Prelude] in the multi-level BTB.  Every [assert], [panic],
    exception, null pointer and index that the source has is a value of
    [Fault], so that "no fault" is a theorem, not a convention.  Machine
    integers are [Z] with their wrap-around written out.  Counters of the
    statistics are logs or fields where a claim needs them, and left out
    elsewhere.  Virtual classes are type classes; what a client relies on is a
    second class of laws, which the implementations discharge.  Code outside
    the modelled parts (the MMU, the cache, the ISA's [advancePC] and
    [buildRetPC], the decoders, the random numbers) is a parameter.

    ** What the theorems show

    Each "no fault" theorem covers the configurations of its configuration record
    ([ferretConfig], [fetch_cfg], [tage_cfg] with [base_cfg], [scl_cfg], [it_cfg],
    [sc_cfg], [loop_cfg]) and the operations its [..._enabled] predicate allows.
    What these leave out is stated in the theorem's comment; in several cases a
    further theorem shows how the code fails there.

    - Multi-level BTB ([ml_...]): no reachable operation faults; prefetches are
      conserved; a lookup refines the abstract lookup [resolve] of the
      hierarchy; an updated branch is found; evictions are written back; the
      scan of the deferred queue equals the filter by due time; a chain issues at
      most its depth;
      the Markov successor lists are bounded; and two faults of the code (the
      lateness histogram and the write-back under the wrong thread).
    - Return address stack ([ras_...]): refinement of a list, exact recovery.
    - Queue and prefetcher ([ftq_...], [fdp_...]): accounting of the
      targets announced since the last reset, sound queues, exact block splitting, no faults under
      the conditions their callers establish.
    - Direction and indirect predictors: speculative histories are restored by
      squashing in reverse order, and the predictors learn.
    - TAGE ([tage_...], [scl_tage_...]): no operation faults; the circular history
      and the incrementally folded registers equal the fold of the branches
      that were not squashed; a squash restores; the tables keep their widths,
      the tags those of their table.  A placeholder that commits uncorrected is
      undefined behaviour.
      The theorems hold for every instance of the virtual functions.
    - Statistical corrector ([sc_...]): for one thread no operation faults and the
      speculative histories are those of the branches that were not squashed; a squash
      restores all but the path history.
    - Loop predictor ([loop_...]): a loop with a constant trip count of at least
      three is learned.
    - ITTAGE ([it_...]): no operation faults; the history it hashes is the path
      of the branches that were not squashed; a target it returns is one an
      indirect branch was committed with; and the branch type and the default
      configuration it cannot handle.
    - TAGE-SC-L ([scl_...]): a prediction returns, is late exactly when it
      corrects the first level, and [predictNoUpdate] agrees with it; where the
      configurations of the repository leave the defined operations of C++.
    - Branch prediction unit ([bpu_...]): for any parts that keep their contracts
      no operation faults, and predict, update, squash and correction change
      the histories exactly as documented.
    - BAC stage ([bac_...]): no cycle and no call of fetch faults, but for
      undetected branches inside micro-coded instructions and clearing a filled
      queue; the queue
      always holds one contiguous predicted path; every history has exactly one
      owner; a squash of a later stage leaves the stage where the signal says;
      the stage produces a fetch target in the cycle after a squash; a direction
      predictor without first-level prediction stops it.
    - Fetch stage ([fetch_...]): for any front end and decoder that keep their
      contracts no operation faults; decode receives one contiguous path in
      order, whatever the MMU, the cache and the later stages do; a squash
      empties the stage at the new PC and makes late answers harmless; a drain
      ends; and a squash of a thread that waits for a retry leaves its request
      behind, which breaks an assertion of a later drain.

    ** Bounds and fuel

    [Fdp.blocksFrom] runs with fuel 4: the loop of [notifyFTQInsert] visits at
    most four blocks ([fdp_blocks_exact]).  [Bac.searchBTB] runs with fuel
    [fetchTargetWidth] and [generateFetchTargets] with [maxFTPerCycle];
    running out is the fault [Hang], which [bac_no_fault] excludes.  The
    allocation loops of TAGE run with fuel [nHistoryTables + 1], and
    [tage_no_fault] and [scl_tage_no_fault] exclude [Hang].  The loops of
    [Fetch.fetch] run with fuel [loopFuel] and [fetchWidth]: each round of the
    outer loop builds an instruction or moves to the next block of bytes in the
    buffer, and [fetch_no_fault] excludes [Hang].  Loops over
    histories recur on the list or on its length.  Reachable states carry a
    bound on the number of operations (below 2^64 with the constants stated in
    the theorems) so that 64-bit identifiers and sequence counters do not wrap.
    The decoupled front end has one thread because the constructors of [BAC]
    and [Fetch] refuse more.  The theorems on fetch ask for one fetch target
    per cycle, or for targets that fit the instructions ([continuous]).

    ** Not modelled

    The overflow of the [int64_t] [tCounter] of TAGE, debug output, the registration of
    statistics, and the statistics no theorem
    is about.  The perceptron predictors are behind the interface of
    [CondPred].
    The rest of gem5 (the stages of the out-of-order CPU after fetch, the memory
    system, the instruction sets, the Python configuration) and the vendored
    libraries are called by the front end or call it, and enter the model as
    parameters and as arbitrary sequences of calls. *)

From Stdlib Require Import ZArith Lia.
From stdpp Require Import base list gmap numbers.

Declare Scope ferret_scope.
Delimit Scope ferret_scope with ferret.
Open Scope Z_scope.
Open Scope ferret_scope.

(** ** Faults and results

    The C++ code stops in several ways; each is a value of [Fault]:
    [AssertFail] an [assert] that does not hold, [Panic] a call of [panic()],
    [Fatal] a call of [fatal()], [InvalidArgument] the
    [std::invalid_argument] thrown by [Cycles::operator-], [NullDeref] the
    use of a null pointer, [OutOfRange] the use of a vector position that
    does not exist, [DivByZero] an integer division by zero, [Hang] a loop that
    has not ended within the bound given to it, [Undefined] a value or an
    operation the language leaves undefined (an indeterminate variable, a shift
    by a negative amount or by the width of the operand and more). *)
Inductive Fault :=
| AssertFail
| Panic
| Fatal
| InvalidArgument
| NullDeref
| OutOfRange
| DivByZero
| Hang
| Undefined.

#[export] Instance Fault_eq_dec : EqDecision Fault.
Proof. solve_decision. Defined.

Inductive Res (A : Type) :=
| Ok (a : A)
| Err (f : Fault).
Arguments Ok {A} _.
Arguments Err {A} _.

Definition isOk {A} (r : Res A) : bool :=
  match r with Ok _ => true | Err _ => false end.

Definition resMap {A B} (f : A -> B) (r : Res A) : Res B :=
  match r with Ok a => Ok (f a) | Err e => Err e end.

#[export] Instance Res_ret : MRet Res := fun A a => Ok a.
#[export] Instance Res_bind : MBind Res := fun A B f r =>
  match r with Ok a => f a | Err e => Err e end.

Lemma res_bind_ok {A B} (r : Res A) (f : A -> Res B) b :
  r ≫= f = Ok b -> exists a, r = Ok a /\ f a = Ok b.
Proof. destruct r as [a|]; [|done]. intros H. by exists a. Qed.

(** ** The state and fault monad the operations are written in *)

Definition M (S A : Type) : Type := S -> Res (A * S).

#[export] Instance M_ret {S} : MRet (M S) := fun A a s => Ok (a, s).
#[export] Instance M_bind {S} : MBind (M S) := fun A B f m s =>
  match m s with
  | Ok (a, s') => f a s'
  | Err e => Err e
  end.

#[global] Arguments mret : simpl never.
#[global] Arguments mbind : simpl never.

Definition fault {S A} (f : Fault) : M S A := fun _ => Err f.
Definition gets {S A} (f : S -> A) : M S A := fun s => Ok (f s, s).
Definition modify {S} (f : S -> S) : M S unit := fun s => Ok (tt, f s).
(** [assert(b)] of the source. *)
Definition massert {S} (b : bool) : M S unit :=
  if b then mret tt else fault AssertFail.
Definition when {S} (b : bool) (m : M S unit) : M S unit :=
  if b then m else mret tt.
Definition lift {S A} (r : Res A) : M S A := fun s =>
  match r with Ok a => Ok (a, s) | Err e => Err e end.
(** The dereference of a pointer: a null pointer is [None]. *)
Definition deref {S A} (o : option A) : M S A :=
  match o with Some a => mret a | None => fault NullDeref end.
(** [v[i]] on a vector. *)
Definition at_index {S A} (o : option A) : M S A :=
  match o with Some a => mret a | None => fault OutOfRange end.

(** A value that is indeterminate until it is assigned. *)
Definition assigned {S A} (o : option A) : M S A :=
  match o with Some a => mret a | None => fault Undefined end.

Fixpoint mfor {S A} (l : list A) (f : A -> M S unit) : M S unit :=
  match l with
  | [] => mret tt
  | x :: l' => f x ;; mfor l' f
  end.

(** A loop that threads a local variable. *)
Fixpoint mfold {S A B} (l : list A) (f : B -> A -> M S B) (b : B) : M S B :=
  match l with
  | [] => mret b
  | x :: l' => b' ← f b x; mfold l' f b'
  end.

(** ** Record update

    [s <| p := v |>] is [s] with the field [p] replaced; an instance of
    [Settable] per record gives its eta expansion, from which the setter of
    every field is derived. *)
Class Settable (R : Type) := eta_of : R -> R.
Class Setter {R T : Type} (proj : R -> T) := setf : (T -> T) -> R -> R.
Arguments setf {R T} proj {_} _ _.

Ltac solve_setter :=
  match goal with
  | |- @Setter ?R ?T ?proj =>
      let inst := constr:(_ : Settable R) in
      let e := eval red in inst in
      let e' := eval pattern proj in e in
      match e' with
      | ?g proj =>
          let r := eval cbv beta in
            (fun (upd : T -> T) (s : R) => g (fun r => upd (proj r)) s) in
          exact r
      end
  end.
#[export] Hint Extern 1 (Setter _) => solve_setter : typeclass_instances.

Notation "s <| p := v |>" := (setf p (fun _ => v) s)
  (at level 1, left associativity) : ferret_scope.
Notation "s <| p ::= f |>" := (setf p f s)
  (at level 1, f at level 99, left associativity) : ferret_scope.

(** Run an operation of a component on the part of the state it owns. *)
Definition zoom {S T A} (p : S -> T) `{!Setter p} (m : M T A) : M S A := fun s =>
  match m (p s) with
  | Ok (a, t) => Ok (a, setf p (fun _ => t) s)
  | Err e => Err e
  end.

(** ** Weakest preconditions

    [wp m Q s]: running [m] in [s] ends without a fault, in a result and a
    state that satisfy [Q].  A proof of [wp] is a proof that the code
    returns. *)
Definition wp {S A} (m : M S A) (Q : A -> S -> Prop) (s : S) : Prop :=
  match m s with
  | Ok (a, s') => Q a s'
  | Err _ => False
  end.

#[global] Arguments wp : simpl never.

Section Wp.
Context {S : Type}.

Lemma wp_ok {A} (m : M S A) Q s a s' :
  m s = Ok (a, s') -> Q a s' -> wp m Q s.
Proof. intros H HQ. unfold wp. by rewrite H. Qed.

Lemma wp_inv {A} (m : M S A) Q s :
  wp m Q s -> exists a s', m s = Ok (a, s') /\ Q a s'.
Proof. unfold wp. destruct (m s) as [[a s']|]; [eauto | done]. Qed.

Lemma wp_result {A} (m : M S A) Q s a s' :
  wp m Q s -> m s = Ok (a, s') -> Q a s'.
Proof. unfold wp. intros H E. by rewrite E in H. Qed.

Lemma wp_isOk {A} (m : M S A) Q s : wp m Q s -> isOk (m s) = true.
Proof. unfold wp, isOk. by destruct (m s) as [[]|]. Qed.

Lemma wp_ret {A} (a : A) (Q : A -> S -> Prop) s : Q a s -> wp (mret a : M S A) Q s.
Proof. done. Qed.

Lemma wp_bind {A B} (m : M S A) (f : A -> M S B) Q s :
  wp m (fun a s' => wp (f a) Q s') s -> wp (m ≫= f) Q s.
Proof.
  unfold wp, mbind, M_bind. by destruct (m s) as [[a s']|].
Qed.

Lemma wp_bind_inv {A B} (m : M S A) (f : A -> M S B) Q s :
  wp (m ≫= f) Q s -> wp m (fun a s' => wp (f a) Q s') s.
Proof. unfold wp, mbind, M_bind. by destruct (m s) as [[a s']|]. Qed.

Lemma wp_mono {A} (m : M S A) (P Q : A -> S -> Prop) s :
  wp m P s -> (forall a s', P a s' -> Q a s') -> wp m Q s.
Proof. unfold wp. destruct (m s) as [[a s']|]; auto. Qed.

Lemma wp_and {A} (m : M S A) (P Q : A -> S -> Prop) s :
  wp m P s -> wp m Q s -> wp m (fun a s' => P a s' /\ Q a s') s.
Proof. unfold wp. destruct (m s) as [[a s']|]; auto. Qed.

Lemma wp_gets {A} (f : S -> A) Q s : Q (f s) s -> wp (gets f) Q s.
Proof. done. Qed.

Lemma wp_modify (f : S -> S) Q s : Q tt (f s) -> wp (modify f) Q s.
Proof. done. Qed.

Lemma wp_massert b Q (s : S) : b = true -> Q tt s -> wp (massert b) Q s.
Proof. by intros ->. Qed.

Lemma wp_when b (m : M S unit) Q s :
  (b = true -> wp m Q s) -> (b = false -> Q tt s) -> wp (when b m) Q s.
Proof. intros H1 H2. unfold when. destruct b; [auto | apply wp_ret; auto]. Qed.

Lemma wp_if {A} (b : bool) (m1 m2 : M S A) Q s :
  (b = true -> wp m1 Q s) -> (b = false -> wp m2 Q s) ->
  wp (if b then m1 else m2) Q s.
Proof. destruct b; auto. Qed.

Lemma wp_lift {A} (r : Res A) a Q (s : S) : r = Ok a -> Q a s -> wp (lift r) Q s.
Proof. by intros ->. Qed.

Lemma wp_deref {A} (o : option A) a Q (s : S) :
  o = Some a -> Q a s -> wp (deref o) Q s.
Proof. by intros ->. Qed.

Lemma wp_at_index {A} (o : option A) a Q (s : S) :
  o = Some a -> Q a s -> wp (at_index o) Q s.
Proof. by intros ->. Qed.

Lemma wp_assigned {A} (o : option A) a Q (s : S) :
  o = Some a -> Q a s -> wp (assigned o) Q s.
Proof. by intros ->. Qed.

(** The invariant rule of a [for] loop over a list. *)
Lemma wp_mfor {A} (I : S -> Prop) (l : list A) (f : A -> M S unit) s :
  I s ->
  (forall x s, x ∈ l -> I s -> wp (f x) (fun _ s' => I s') s) ->
  wp (mfor l f) (fun _ s' => I s') s.
Proof.
  revert s. induction l as [|x l IH]; intros s Hs Hf; cbn [mfor].
  - by apply wp_ret.
  - apply wp_bind. eapply wp_mono.
    + apply Hf; [apply list_elem_of_here | done].
    + intros [] s' Hs'. apply IH; [done|].
      intros y s'' Hy. apply Hf. by apply list_elem_of_further.
Qed.

Lemma wp_mfold {A B} (I : nat -> B -> S -> Prop) (l : list A) (f : B -> A -> M S B) b s :
  I 0%nat b s ->
  (forall k x b s, l !! k = Some x -> I k b s -> wp (f b x) (I (Datatypes.S k)) s) ->
  wp (mfold l f b) (I (length l)) s.
Proof.
  revert I b s. induction l as [|x l IH]; intros I b s Hs Hf; cbn [mfold].
  - by apply wp_ret.
  - apply wp_bind. eapply wp_mono; [by apply (Hf 0%nat)|]. intros b' s' Hb.
    apply (IH (fun k => I (Datatypes.S k))); [done|].
    intros k y b'' s'' Hy. by apply Hf.
Qed.

(** The invariant rule of a [for] loop with the number of its rounds. *)
Lemma wp_mfor_count {A} (I : nat -> S -> Prop) (l : list A) (f : A -> M S unit) s :
  I 0%nat s ->
  (forall k x s, l !! k = Some x -> I k s -> wp (f x) (fun _ => I (Datatypes.S k)) s) ->
  wp (mfor l f) (fun _ => I (length l)) s.
Proof.
  revert I s. induction l as [|x l IH]; intros I s Hs Hf; cbn [mfor].
  - by apply wp_ret.
  - apply wp_bind. eapply wp_mono; [by apply (Hf 0%nat)|]. intros [] s' Hb.
    apply (IH (fun k => I (Datatypes.S k))); [done|].
    intros k y s'' Hy. by apply Hf.
Qed.
End Wp.

Lemma wp_zoom {S T A} (p : S -> T) `{!Setter p} (m : M T A) Q s :
  wp m (fun a t => Q a (setf p (fun _ => t) s)) (p s) -> wp (zoom p m) Q s.
Proof. unfold wp, zoom. by destruct (m (p s)) as [[a t]|]. Qed.

(** Partial correctness, for operations whose configuration allows a fault:
    if the operation returns, the result satisfies [Q]. *)
Definition wlp {S A} (m : M S A) (Q : A -> S -> Prop) (s : S) : Prop :=
  forall a s', m s = Ok (a, s') -> Q a s'.

Lemma wp_wlp {S A} (m : M S A) Q s : wp m Q s -> wlp m Q s.
Proof. intros H a s'. by apply wp_result. Qed.

Lemma wlp_bind {S A B} (m : M S A) (f : A -> M S B) Q s :
  wlp m (fun a s' => wlp (f a) Q s') s -> wlp (m ≫= f) Q s.
Proof.
  intros H b s'' E. unfold mbind, M_bind in E. destruct (m s) as [[a s']|] eqn:Em; [|done].
  exact (H a s' Em b s'' E).
Qed.

Lemma wlp_true {S A} (m : M S A) (Q : A -> S -> Prop) s : (forall a s', Q a s') -> wlp m Q s.
Proof. intros H a s' _. apply H. Qed.

Lemma wlp_ret {S A} (a : A) (Q : A -> S -> Prop) (s : S) : Q a s -> wlp (mret a : M S A) Q s.
Proof. intros H b s' [= <- <-]. exact H. Qed.

Lemma wlp_mono {S A} (m : M S A) (P Q : A -> S -> Prop) s :
  wlp m P s -> (forall a s', P a s' -> Q a s') -> wlp m Q s.
Proof. intros H HPQ a s' E. by apply HPQ, H. Qed.

Lemma bind_eq {S A B} (m : M S A) (f : A -> M S B) s :
  (m ≫= f) s = match m s with Ok (a, s') => f a s' | Err e => Err e end.
Proof. reflexivity. Qed.

Lemma assigned_some {S A} (a : A) (s : S) : assigned (Some a) s = Ok (a, s).
Proof. reflexivity. Qed.

(** An operation keeps an invariant when it returns. *)
Definition keeps {S A} (P : S -> Prop) (m : M S A) : Prop := forall s, P s -> wlp m (fun _ s' => P s') s.

Section Keeps.
Context {S : Type} (P : S -> Prop).

Lemma keeps_bind {A B} (m : M S A) (f : A -> M S B) :
  keeps P m -> (forall a, keeps P (f a)) -> keeps P (m ≫= f).
Proof. intros Hm Hf s Hs. apply wlp_bind. intros a s' E. apply Hf. exact (Hm s Hs a s' E). Qed.

Lemma keeps_ret {A} (a : A) : keeps P (mret a : M S A).
Proof. intros s Hs. by apply wlp_ret. Qed.

Lemma keeps_gets {A} (f : S -> A) : keeps P (gets f).
Proof. by intros s Hs a s' [= <- <-]. Qed.

Lemma keeps_modify (f : S -> S) : (forall s, P s -> P (f s)) -> keeps P (modify f).
Proof. intros Hf s Hs a s' [= <- <-]. by apply Hf. Qed.

Lemma keeps_at_index {A} (o : option A) : keeps P (at_index o).
Proof. intros s Hs a s' E. destruct o; [|done]. by injection E as <- <-. Qed.

Lemma keeps_deref {A} (o : option A) : keeps P (deref o).
Proof. intros s Hs a s' E. destruct o; [|done]. by injection E as <- <-. Qed.

Lemma keeps_assigned {A} (o : option A) : keeps P (assigned o).
Proof. intros s Hs a s' E. destruct o; [|done]. by injection E as <- <-. Qed.

Lemma keeps_massert b : keeps P (massert b).
Proof. intros s Hs a s' E. destruct b; [|done]. by injection E as <- <-. Qed.

Lemma keeps_fault {A} e : keeps P (fault e : M S A).
Proof. by intros s Hs a s' E. Qed.

Lemma keeps_when b (m : M S unit) : keeps P m -> keeps P (when b m).
Proof. intros Hm. destruct b; [done|]. apply keeps_ret. Qed.

Lemma keeps_mfold {A B} (l : list A) (f : B -> A -> M S B) : forall b,
  (forall b x, x ∈ l -> keeps P (f b x)) -> keeps P (mfold l f b).
Proof.
  induction l as [|x l IH]; intros b Hf; cbn [mfold]; [apply keeps_ret|].
  apply keeps_bind; [apply Hf; left|]. intros b'. apply IH. intros b1 y Hy. apply Hf. by right.
Qed.

Lemma keeps_mfor {A} (l : list A) (f : A -> M S unit) :
  (forall x, x ∈ l -> keeps P (f x)) -> keeps P (mfor l f).
Proof.
  induction l as [|x l IH]; intros Hf; cbn [mfor]; [apply keeps_ret|].
  apply keeps_bind; [apply Hf; left|]. intros _. apply IH. intros y Hy. apply Hf. by right.
Qed.
End Keeps.

Lemma keeps_zoom {S T A} (pr : S -> T) `{!Setter pr} (P : T -> Prop) (PS : S -> Prop) (m : M T A) :
  (forall s, PS s -> P (pr s)) -> (forall s t, PS s -> P t -> PS (setf pr (fun _ => t) s)) ->
  keeps P m -> keeps PS (zoom pr m).
Proof.
  intros H1 H2 Hm s Hs a s' E. unfold zoom in E. destruct (m (pr s)) as [[a0 t]|] eqn:Em; [|done].
  injection E as <- <-. apply H2; [done|]. exact (Hm _ (H1 s Hs) _ _ Em).
Qed.

Create HintDb keeps.
#[export] Hint Resolve keeps_ret keeps_gets keeps_at_index keeps_deref keeps_assigned keeps_massert keeps_fault : keeps.

(** One step of a proof that an operation keeps an invariant *)
Ltac keeps_step :=
  first [ solve [eauto 2 with keeps] | apply keeps_bind; [|intros ?] | apply keeps_when
        | apply keeps_mfold; intros ? ? ? | apply keeps_mfor; intros ? ?
        | match goal with |- keeps _ (match ?x with _ => _ end) => destruct x eqn:? end ].
Ltac keeps_steps := repeat keeps_step.

(** ** Failing operations and concrete results *)

Lemma wp_then_err {S A B} (m : M S A) (f : A -> M S B) s e :
  wp m (fun a s' => f a s' = Err e) s -> (m ≫= f) s = Err e.
Proof. unfold wp, mbind, M_bind. by destruct (m s) as [[a s']|]. Qed.

(** A loop that fails in one of its rounds fails. *)
Lemma mfold_fails {S A B} (l : list A) (f : B -> A -> M S B) x :
  x ∈ l -> (forall b s, isOk (f b x s) = false) -> forall b s, isOk (mfold l f b s) = false.
Proof.
  intros Hin Hf. induction l as [|y l IH]; [by apply not_elem_of_nil in Hin|]. intros b s.
  cbn [mfold]. unfold mbind, M_bind. destruct (f b y s) as [[b' s']|] eqn:E; [|done].
  apply elem_of_cons in Hin as [->|Hin].
  - specialize (Hf b s). by rewrite E in Hf.
  - by apply IH.
Qed.

Lemma bind_fails {S A B} (m : M S A) (f : A -> M S B) s :
  isOk (m s) = false -> isOk ((m ≫= f) s) = false.
Proof. unfold mbind, M_bind. by destruct (m s) as [[a s']|]. Qed.

Lemma bind_fails_r {S A B} (m : M S A) (f : A -> M S B) s :
  (forall a s, isOk (f a s) = false) -> isOk ((m ≫= f) s) = false.
Proof. intros Hf. unfold mbind, M_bind. by destruct (m s) as [[a s']|]. Qed.

Definition okOr {A} (d : A) (r : Res A) : A := match r with Ok a => a | Err _ => d end.

Lemma ok_of {A} (r : Res A) (d : A) : isOk r = true -> r = Ok (okOr d r).
Proof. by destruct r. Qed.

Lemma zoom_fails {S T A} (f : S -> T) `{!Setter f} (m : M T A) s :
  isOk (m (f s)) = false -> isOk (zoom f m s) = false.
Proof. unfold zoom. by destruct (m (f s)) as [[a t]|]. Qed.

(** A result and a test of it, evaluated together *)
Lemma ok_facts {A} (r : Res A) (d : A) (test : A -> bool) :
  match r with Ok a => test a | Err _ => false end = true -> r = Ok (okOr d r) /\ test (okOr d r) = true.
Proof. by destruct r. Qed.

(** One step of symbolic execution. *)
Ltac wp_step :=
  lazymatch goal with
  | |- wp (mbind _ _) _ _ => apply wp_bind
  | |- wp (mret _) _ _ => apply wp_ret
  | |- wp (gets _) _ _ => apply wp_gets
  | |- wp (modify _) _ _ => apply wp_modify
  | |- wp (zoom _ _) _ _ => apply wp_zoom
  | |- wp (when ?b _) _ _ => apply wp_when; intros ?
  | |- wp (if ?b then _ else _) _ _ => apply wp_if; intros ?
  end.
Ltac wp_steps := repeat (wp_step; cbn beta).

(** ** Integers at their width *)

Definition u64 (z : Z) : Z := z mod 2 ^ 64.
Definition u32 (z : Z) : Z := z mod 2 ^ 32.
Definition u8 (z : Z) : Z := z mod 2 ^ 8.

Lemma u64_small z : 0 <= z < 2 ^ 64 -> u64 z = z.
Proof. apply Z.mod_small. Qed.
Lemma u64_range z : 0 <= u64 z < 2 ^ 64.
Proof. apply Z.mod_pos_bound. lia. Qed.
Lemma u32_small z : 0 <= z < 2 ^ 32 -> u32 z = z.
Proof. apply Z.mod_small. Qed.
Lemma u32_range z : 0 <= u32 z < 2 ^ 32.
Proof. apply Z.mod_pos_bound. lia. Qed.

(** Signed integers wrap around as two's complement numbers. *)
Definition i32 (z : Z) : Z := (z + 2 ^ 31) mod 2 ^ 32 - 2 ^ 31.
Definition u16 (z : Z) : Z := z mod 2 ^ 16.

Lemma i32_small z : - 2 ^ 31 <= z < 2 ^ 31 -> i32 z = z.
Proof. intros H. unfold i32. rewrite Z.mod_small; lia. Qed.
Lemma i32_range z : - 2 ^ 31 <= i32 z < 2 ^ 31.
Proof. unfold i32. pose proof (Z.mod_pos_bound (z + 2 ^ 31) (2 ^ 32)). lia. Qed.

(** A mask with [2^k] values keeps a number below [2^k]. *)
Lemma land_mask_bound x k :
  0 <= k -> 0 <= Z.land x (2 ^ k - 1) < 2 ^ k.
Proof.
  intros Hk. replace (2 ^ k - 1) with (Z.ones k)
    by (rewrite Z.ones_equiv; lia).
  rewrite Z.land_ones by done. apply Z.mod_pos_bound. by apply Z.pow_pos_nonneg.
Qed.

(** ** Lists *)

(** [std::find_if] on a vector: the first position whose element satisfies
    [p]. *)
Fixpoint find_index {A} (p : A -> bool) (l : list A) : option nat :=
  match l with
  | [] => None
  | x :: l' => if p x then Some 0%nat else S <$> find_index p l'
  end.

Lemma find_index_Some {A} (p : A -> bool) l i :
  find_index p l = Some i -> exists x, l !! i = Some x /\ p x = true.
Proof.
  revert i. induction l as [|x l IH]; intros i; cbn; [done|].
  destruct (p x) eqn:Hp.
  - intros [= <-]. by exists x.
  - destruct (find_index p l) as [j|]; cbn; [|done]. intros [= <-].
    destruct (IH j eq_refl) as (y & ? & ?). by exists y.
Qed.

Lemma find_index_None {A} (p : A -> bool) l :
  find_index p l = None -> Forall (fun x => p x = false) l.
Proof.
  induction l as [|x l IH]; cbn; [constructor|].
  destruct (p x) eqn:Hp; [done|].
  destruct (find_index p l); cbn; [done|]. auto.
Qed.

#[export] Hint Resolve u64_range u32_range : core.

Create HintDb ferret.
#[export] Hint Resolve wp_ret wp_gets wp_modify : ferret.
