(* ===== verification/Types.v ===== *)
(** * Base types and arithmetic

    [base/types.hh] (Addr, Tick, ThreadID, Cycles), [base/intmath.hh],
    [base/bitfield.hh], the guaranteed interface of [PCStateBase]
    ([arch/generic/pcstate.hh]), the flags of [StaticInst] the predictors read,
    and [cpu/pred/branch_type.hh].  Machine integers are [Z] with their
    wrap-around written out. *)

From Stdlib Require Import ZArith Lia.
From stdpp Require Import base list gmap numbers.
From S2P Require Import Prelude.

(** ** base/types.hh *)

Abbreviation Addr := Z (only parsing).
Abbreviation Tick := Z (only parsing).
Abbreviation ThreadID := Z (only parsing).
Abbreviation Cycles := Z (only parsing).

Definition MaxAddr : Addr := u64 (-1).
Definition MaxTick : Tick := 2 ^ 64 - 1.

(** [Cycles::operator+] wraps, [Cycles::operator-] throws when the
    right-hand side is larger. *)
Module Cyc.
Definition add (a b : Cycles) : Cycles := u64 (a + b).
Definition sub (a b : Cycles) : Res Cycles :=
  if b <=? a then Ok (u64 (a - b)) else Err InvalidArgument.
Definition gt (a b : Cycles) : bool := b <? a.
Definition incr (a : Cycles) : Cycles := u64 (a + 1).
Definition decr (a : Cycles) : Res Cycles :=
  if a =? 0 then Err AssertFail else Ok (u64 (a - 1)).
End Cyc.

(** ** base/intmath.hh and base/bitfield.hh *)

(** One conditional step of [floorLog2]: [if (ux & m) { y += k; ux >>= k; }]. *)
Definition log2_step (m k : Z) (p : Z * Z) : Z * Z :=
  let '(y, ux) := p in
  if Z.land ux m =? 0 then (y, ux) else (y + k, Z.shiftr ux k).

(** [ts] is [sizeof(T)]. *)
Definition floorLog2 (ts : Z) (x : Z) : Res Z :=
  if x <=? 0 then Err AssertFail else
  let p := (0, x mod 2 ^ (8 * ts)) in
  let p := if 8 <=? ts then log2_step 0xffffffff00000000 32 p else p in
  let p := if 4 <=? ts then log2_step 0x00000000ffff0000 16 p else p in
  let p := if 2 <=? ts then log2_step 0x000000000000ff00 8 p else p in
  let p := log2_step 0x00000000000000f0 4 p in
  let p := log2_step 0x000000000000000c 2 p in
  let p := log2_step 0x0000000000000002 1 p in
  Ok (fst p).

Definition isPowerOf2 (n : Z) : bool :=
  negb (n =? 0) && (Z.land n (n - 1) =? 0).

Definition ceilLog2 (ts n : Z) : Res Z :=
  if n <=? 0 then Err AssertFail else
  if n =? 1 then Ok 0 else resMap (fun l => l + 1) (floorLog2 ts (n - 1)).

Definition divCeil (a b : Z) : Z := (a + b - 1) / b.

(** [__builtin_ctz] by searching the lowest set bit. *)
Fixpoint ctz_from (fuel : nat) (i : Z) (v : Z) : Z :=
  match fuel with
  | O => i
  | S f => if Z.testbit v i then i else ctz_from f (i + 1) v
  end.
Definition ctz32 (value : Z) : Z := if value =? 0 then 32 else ctz_from 32 0 value.

Definition log2i (value : Z) : Res Z :=
  if isPowerOf2 value && (0 <? value) then Ok (ctz32 value) else Err AssertFail.

Definition mask (nbits : Z) : Z :=
  if 64 <=? nbits then u64 (-1) else u64 (Z.shiftl 1 nbits - 1).

Definition bits (val first last : Z) : Res Z :=
  if last <=? first then Ok (Z.land (Z.shiftr val last) (mask (first - last + 1)))
  else Err AssertFail.

(** ** arch/generic/pcstate.hh

    The guaranteed interface: the instruction address and the micro-PC.
    Pointers and [unique_ptr]s to it are [option PCStateBase]; [set] copies
    the contents. *)
Record PCStateBase := mkPC { instAddr : Addr; microPC : Z }.

#[export] Instance PCStateBase_eq_dec : EqDecision PCStateBase.
Proof. solve_decision. Defined.

Module PCS.
(** [PCStateBase::set(Addr)] *)
Definition setAddr (val : Addr) (p : PCStateBase) : PCStateBase := mkPC val 0.
(** [set(unique_ptr &dest, const PCStateBase *src)] *)
Definition set (dest src : option PCStateBase) : option PCStateBase :=
  match dest, src with
  | Some d, Some s => Some (mkPC (instAddr s) (microPC s))
  | Some _, None => None
  | None, Some s => Some s
  | None, None => None
  end.
Definition equals (a b : PCStateBase) : bool :=
  (instAddr a =? instAddr b) && (microPC a =? microPC b).
End PCS.

(** ** cpu/static_inst.hh: the flags read by the front end *)
Record StaticInst := mkInst {
  isControl : bool;
  isCall : bool;
  isReturn : bool;
  isDirectCtrl : bool;
  isIndirectCtrl : bool;
  isCondCtrl : bool;
  isUncondCtrl : bool;
  isMicroop : bool;
  isLastMicroop : bool;
  inst_size : Z
}.

#[export] Instance StaticInst_eq_dec : EqDecision StaticInst.
Proof. solve_decision. Defined.

(** ** cpu/pred/branch_type.hh *)
Inductive BranchType :=
| NoBranch
| Return
| CallDirect
| CallIndirect
| DirectCond
| DirectUncond
| IndirectCond
| IndirectUncond.

#[export] Instance BranchType_eq_dec : EqDecision BranchType.
Proof. solve_decision. Defined.

Definition getBranchType (inst : StaticInst) : BranchType :=
  if isReturn inst then Return
  else if isCall inst then
    (if isDirectCtrl inst then CallDirect else CallIndirect)
  else if isDirectCtrl inst then
    (if isCondCtrl inst then DirectCond else DirectUncond)
  else if isIndirectCtrl inst then
    (if isCondCtrl inst then IndirectCond else IndirectUncond)
  else NoBranch.

(** [struct Prediction] *)
Record Prediction := mkPrediction { pred_taken : bool; pred_latency : Cycles }.

(** ** Facts *)

Lemma Cyc_sub_ok a b : 0 <= b <= a -> a < 2 ^ 64 -> Cyc.sub a b = Ok (a - b).
Proof.
  intros ? ?. unfold Cyc.sub. destruct (Z.leb_spec b a); [|lia].
  by rewrite u64_small by lia.
Qed.

Lemma Cyc_sub_err a b : a < b -> Cyc.sub a b = Err InvalidArgument.
Proof. intros. unfold Cyc.sub. destruct (Z.leb_spec b a); [lia|done]. Qed.

(** Masking the upper half of a [2k]-bit number tests whether it reaches
    [2^k]. *)
Lemma land_high_zero ux k :
  0 <= k -> 0 <= ux < 2 ^ (2 * k) ->
  Z.land ux (Z.shiftl (Z.ones k) k) = 0 <-> ux < 2 ^ k.
Proof.
  intros Hk Hux.
  assert (Hs : Z.land ux (Z.shiftl (Z.ones k) k) = Z.shiftl (Z.shiftr ux k) k).
  { apply Z.bits_inj'. intros n Hn.
    rewrite Z.land_spec, !Z.shiftl_spec by done.
    destruct (Z.leb_spec k n).
    - rewrite Z.shiftr_spec by lia. replace (n - k + k) with n by lia.
      destruct (Z.ltb_spec (n - k) k).
      + rewrite Z.ones_spec_low by lia. by rewrite andb_true_r.
      + rewrite Z.ones_spec_high by lia. rewrite andb_false_r.
        symmetry. destruct (decide (ux = 0)) as [->|]; [apply Z.bits_0|].
        apply Z.bits_above_log2; [lia|].
        apply Z.log2_lt_pow2; [lia|].
        eapply Z.lt_le_trans; [apply Hux|]. apply Z.pow_le_mono_r; lia.
    - rewrite !(Z.testbit_neg_r _ (n - k)) by lia. by rewrite andb_false_r. }
  rewrite Hs, Z.shiftl_eq_0_iff by done.
  rewrite Z.shiftr_div_pow2 by done.
  assert (0 < 2 ^ k) by (apply Z.pow_pos_nonneg; lia).
  rewrite Z.div_small_iff by lia. lia.
Qed.

Lemma log2_step_inv k y ux :
  0 < k -> 0 < ux < 2 ^ (2 * k) ->
  let '(y', ux') := log2_step (Z.shiftl (Z.ones k) k) k (y, ux) in
  y' + Z.log2 ux' = y + Z.log2 ux /\ 0 < ux' < 2 ^ k.
Proof.
  intros Hk Hux. unfold log2_step.
  pose proof (land_high_zero ux k ltac:(lia) ltac:(lia)) as Hz.
  assert (0 < 2 ^ k) by (apply Z.pow_pos_nonneg; lia).
  destruct (Z.eqb_spec (Z.land ux (Z.shiftl (Z.ones k) k)) 0) as [E|E].
  - apply Hz in E. split; [done | lia].
  - assert (2 ^ k <= ux) by (apply Z.nlt_ge; intros ?; apply E; by apply Hz).
    assert (k <= Z.log2 ux) by (apply Z.log2_le_pow2; lia).
    rewrite Z.log2_shiftr by lia. split; [lia|].
    rewrite Z.shiftr_div_pow2 by lia. split.
    + apply Z.div_str_pos. lia.
    + apply Z.div_lt_upper_bound; [lia|]. rewrite <- Z.pow_add_r by lia.
      replace (k + k) with (2 * k) by lia. lia.
Qed.

(** [floorLog2] computes the integer logarithm at every width it is used at. *)
Lemma floorLog2_correct ts x :
  ts = 1 \/ ts = 2 \/ ts = 4 \/ ts = 8 -> 0 < x < 2 ^ (8 * ts) ->
  floorLog2 ts x = Ok (Z.log2 x).
Proof.
  intros Hts Hx. unfold floorLog2.
  destruct (Z.leb_spec x 0); [lia|]. rewrite Z.mod_small by lia.
  change 0xffffffff00000000 with (Z.shiftl (Z.ones 32) 32).
  change 0x00000000ffff0000 with (Z.shiftl (Z.ones 16) 16).
  change 0x000000000000ff00 with (Z.shiftl (Z.ones 8) 8).
  change 0x00000000000000f0 with (Z.shiftl (Z.ones 4) 4).
  change 0x000000000000000c with (Z.shiftl (Z.ones 2) 2).
  change 0x0000000000000002 with (Z.shiftl (Z.ones 1) 1).
  assert (Hstep : forall (c : bool) k p,
    0 < k -> fst p + Z.log2 (snd p) = Z.log2 x ->
    (if c then 0 < snd p < 2 ^ (2 * k) else 0 < snd p < 2 ^ k) ->
    let p' := if c then log2_step (Z.shiftl (Z.ones k) k) k p else p in
    fst p' + Z.log2 (snd p') = Z.log2 x /\ 0 < snd p' < 2 ^ k).
  { intros c k [y ux] Hk Hl Hr. destruct c; [|done].
    pose proof (log2_step_inv k y ux Hk Hr) as Hi. cbn zeta.
    destruct (log2_step _ _ _) as [y' ux']. cbn in *. lia. }
  set (p0 := (0, x)).
  destruct (Hstep (8 <=? ts) 32 p0) as [H1 R1]; [lia|done| |].
  { cbn. destruct Hts as [->|[->|[->| ->]]]; cbn in *; lia. }
  cbn zeta in H1, R1. set (p1 := if 8 <=? ts then _ else p0) in *.
  destruct (Hstep (4 <=? ts) 16 p1) as [H2 R2]; [lia|done| |].
  { destruct Hts as [->|[->|[->| ->]]]; cbn in *; lia. }
  cbn zeta in H2, R2. set (p2 := if 4 <=? ts then _ else p1) in *.
  destruct (Hstep (2 <=? ts) 8 p2) as [H3 R3]; [lia|done| |].
  { destruct Hts as [->|[->|[->| ->]]]; cbn in *; lia. }
  cbn zeta in H3, R3. set (p3 := if 2 <=? ts then _ else p2) in *.
  destruct (Hstep true 4 p3 ltac:(lia) H3 R3) as [H4 R4].
  destruct (Hstep true 2 _ ltac:(lia) H4 R4) as [H5 R5].
  destruct (Hstep true 1 _ ltac:(lia) H5 R5) as [H6 R6].
  f_equal. cbn zeta in *.
  assert (E1 : forall z, 0 < z < 2 ^ 1 -> Z.log2 z = 0).
  { intros z Hz. assert (z = 1) as -> by lia. done. }
  rewrite (E1 _ R6), Z.add_0_r in H6. done.
Qed.

Lemma isPowerOf2_log2 n :
  0 < n -> isPowerOf2 n = true -> n = 2 ^ Z.log2 n.
Proof.
  intros Hn H. unfold isPowerOf2 in H.
  apply andb_prop in H as [_ H]. apply Z.eqb_eq in H.
  pose proof (Z.log2_spec n Hn) as [Hlo Hhi].
  pose proof (Z.log2_nonneg n).
  destruct (decide (n = 2 ^ Z.log2 n)) as [|Hne]; [done|exfalso].
  assert (Hb : Z.testbit (Z.land n (n - 1)) (Z.log2 n) = true).
  { rewrite Z.land_spec, Z.bit_log2 by done.
    replace (Z.log2 n) with (Z.log2 (n - 1)).
    - apply Z.bit_log2. assert (0 < 2 ^ Z.log2 n); [|lia].
      apply Z.pow_pos_nonneg; lia.
    - apply Z.log2_unique; [done|]. lia. }
  rewrite H, Z.bits_0 in Hb. done.
Qed.

Lemma isPowerOf2_pow k : 0 <= k -> isPowerOf2 (2 ^ k) = true.
Proof.
  intros Hk. unfold isPowerOf2.
  assert (0 < 2 ^ k) by (apply Z.pow_pos_nonneg; lia).
  apply andb_true_intro. split; [apply negb_true_iff, Z.eqb_neq; lia|].
  apply Z.eqb_eq. replace (2 ^ k - 1) with (Z.ones k) by (rewrite Z.ones_equiv; lia).
  rewrite Z.land_ones by done. by apply Z.mod_same; lia.
Qed.

Lemma isPowerOf2_spec n : 0 < n -> isPowerOf2 n = true <-> exists k, 0 <= k /\ n = 2 ^ k.
Proof.
  intros Hn. split.
  - intros H. exists (Z.log2 n). split; [apply Z.log2_nonneg | by apply isPowerOf2_log2].
  - intros (k & Hk & ->). by apply isPowerOf2_pow.
Qed.

Lemma mask_64 n : 64 <= n -> mask n = 2 ^ 64 - 1.
Proof. intros. unfold mask. destruct (Z.leb_spec 64 n); [reflexivity|lia]. Qed.

Lemma mask_ones n : 0 <= n < 64 -> mask n = Z.ones n.
Proof.
  intros. unfold mask. destruct (Z.leb_spec 64 n); [lia|].
  rewrite Z.ones_equiv, Z.shiftl_1_l.
  assert (0 < 2 ^ n < 2 ^ 64).
  { split; [apply Z.pow_pos_nonneg; lia | apply Z.pow_lt_mono_r; lia]. }
  rewrite u64_small; lia.
Qed.
