(* ===== verification/SatCounter.v ===== *)
(** * Saturating counters

    [GenericSatCounter<T>] of [base/sat_counter.hh].  [width] is
    [8*sizeof(T)]; the three members are unsigned integers of that width.
    The invariant of the class is [wf]; every operation keeps the counter in
    [0, maxVal]. *)

From Stdlib Require Import ZArith Lia.
From stdpp Require Import base list numbers.
From S2P Require Import Prelude Types.

Record SatCounter := mkSat {
  sc_width : Z;
  initialVal : Z;
  maxVal : Z;
  counter : Z
}.

#[export] Instance eta_SatCounter : Settable SatCounter := fun s =>
  mkSat (sc_width s) (initialVal s) (maxVal s) (counter s).

#[export] Instance SatCounter_eq_dec : EqDecision SatCounter.
Proof. solve_decision. Defined.

Module Sat.

(** Reduction to the container type [T]. *)
Definition toT (c : SatCounter) (z : Z) : Z := z mod 2 ^ sc_width c.

(** The constructor [GenericSatCounter(bits, initial_val)]. *)
Definition make (width bits initial_val : Z) : Res SatCounter :=
  let maxv := u64 (Z.shiftl 1 bits - 1) mod 2 ^ width in
  if width <? bits then Err Fatal else
  if maxv <? initial_val then Err Fatal else
  Ok (mkSat width initial_val maxv initial_val).

Definition swap (a b : SatCounter) : SatCounter * SatCounter := (b, a).

(** Copy assignment goes through a temporary and [swap]. *)
Definition assign (this other : SatCounter) : SatCounter :=
  let temp := other in fst (swap this temp).

Definition preIncr (c : SatCounter) : SatCounter :=
  if counter c <? maxVal c then c <| counter := toT c (counter c + 1) |> else c.

Definition postIncr (c : SatCounter) : SatCounter * SatCounter := (c, preIncr c).

Definition preDecr (c : SatCounter) : SatCounter :=
  if 0 <? counter c then c <| counter := toT c (counter c - 1) |> else c.

Definition postDecr (c : SatCounter) : SatCounter * SatCounter := (c, preDecr c).

Definition shiftRight (c : SatCounter) (shift : Z) : Res SatCounter :=
  if shift <? 0 then Err AssertFail
  else Ok (c <| counter := Z.shiftr (counter c) shift |>).

Definition shiftLeft (c : SatCounter) (shift : Z) : Res SatCounter :=
  if shift <? 0 then Err AssertFail else
  let c := c <| counter := toT c (Z.shiftl (counter c) shift) |> in
  Ok (if maxVal c <? counter c then c <| counter := maxVal c |> else c).

Definition addNonneg (c : SatCounter) (value : Z) : SatCounter :=
  if value <=? maxVal c - counter c
  then c <| counter := toT c (counter c + value) |>
  else c <| counter := maxVal c |>.

Definition subNonneg (c : SatCounter) (value : Z) : SatCounter :=
  if value <? counter c
  then c <| counter := toT c (counter c - value) |>
  else c <| counter := 0 |>.

(** [operator+=] and [operator-=] call each other on a negative argument. *)
Definition addAssign (c : SatCounter) (value : Z) : SatCounter :=
  if 0 <=? value then addNonneg c value else subNonneg c (- value).

Definition subAssign (c : SatCounter) (value : Z) : SatCounter :=
  if 0 <=? value then subNonneg c value else addNonneg c (- value).

Definition reset (c : SatCounter) : SatCounter := c <| counter := initialVal c |>.

Definition isSaturated (c : SatCounter) : bool := counter c =? maxVal c.

Definition saturate (c : SatCounter) : Z * SatCounter :=
  (toT c (maxVal c - counter c), c <| counter := maxVal c |>).

(** ** The class invariant *)
Definition wf (c : SatCounter) : Prop :=
  0 < sc_width c /\ 0 <= initialVal c <= maxVal c /\
  maxVal c < 2 ^ sc_width c /\ 0 <= counter c <= maxVal c.

Lemma toT_small c z : wf c -> 0 <= z <= maxVal c -> toT c z = z.
Proof. intros (?&?&?&?) ?. apply Z.mod_small. lia. Qed.

Lemma sat_make_wf width bits initial_val c :
  0 < width <= 64 -> 0 <= bits -> 0 <= initial_val ->
  make width bits initial_val = Ok c ->
  wf c /\ maxVal c = 2 ^ bits - 1 /\ counter c = initial_val.
Proof.
  intros Hw Hb Hi. unfold make.
  destruct (Z.ltb_spec width bits); [done|].
  assert (0 < 2 ^ bits <= 2 ^ width).
  { split; [apply Z.pow_pos_nonneg; lia | apply Z.pow_le_mono_r; lia]. }
  assert (2 ^ width <= 2 ^ 64) by (apply Z.pow_le_mono_r; lia).
  rewrite Z.shiftl_1_l, u64_small, Z.mod_small by lia.
  destruct (Z.ltb_spec (2 ^ bits - 1) initial_val); [done|].
  intros [= <-]. unfold wf; cbn. lia.
Qed.

Ltac sat_solve :=
  unfold wf in *; cbn in *; repeat split; try lia.

Lemma preIncr_spec c : wf c ->
  wf (preIncr c) /\ counter (preIncr c) = Z.min (counter c + 1) (maxVal c).
Proof.
  intros H. unfold preIncr. destruct (Z.ltb_spec (counter c) (maxVal c)).
  - rewrite toT_small by (try done; destruct H; lia). sat_solve.
  - sat_solve.
Qed.

Lemma preDecr_spec c : wf c ->
  wf (preDecr c) /\ counter (preDecr c) = Z.max (counter c - 1) 0.
Proof.
  intros H. unfold preDecr. destruct (Z.ltb_spec 0 (counter c)).
  - rewrite toT_small by (try done; destruct H; lia). sat_solve.
  - sat_solve.
Qed.

Lemma addNonneg_spec c v : wf c -> 0 <= v ->
  wf (addNonneg c v) /\ counter (addNonneg c v) = Z.min (counter c + v) (maxVal c).
Proof.
  intros H Hv. unfold addNonneg. destruct (Z.leb_spec v (maxVal c - counter c)).
  - rewrite toT_small by (try done; destruct H; lia). sat_solve.
  - sat_solve.
Qed.

Lemma subNonneg_spec c v : wf c -> 0 <= v ->
  wf (subNonneg c v) /\ counter (subNonneg c v) = Z.max (counter c - v) 0.
Proof.
  intros H Hv. unfold subNonneg. destruct (Z.ltb_spec v (counter c)).
  - rewrite toT_small by (try done; destruct H; lia). sat_solve.
  - sat_solve.
Qed.

(** Both compound assignments clamp the exact sum to [0, maxVal]. *)
Lemma addAssign_clamps c v : wf c ->
  wf (addAssign c v) /\
  counter (addAssign c v) = Z.max 0 (Z.min (counter c + v) (maxVal c)).
Proof.
  intros H. unfold addAssign. destruct (Z.leb_spec 0 v).
  - destruct (addNonneg_spec c v H) as [? ->]; [done|]. sat_solve.
  - destruct (subNonneg_spec c (- v) H) as [? ->]; [lia|]. sat_solve.
Qed.

Lemma subAssign_clamps c v : wf c ->
  wf (subAssign c v) /\
  counter (subAssign c v) = Z.max 0 (Z.min (counter c - v) (maxVal c)).
Proof.
  intros H. unfold subAssign. destruct (Z.leb_spec 0 v).
  - destruct (subNonneg_spec c v H) as [? ->]; [done|]. sat_solve.
  - destruct (addNonneg_spec c (- v) H) as [? ->]; [lia|]. sat_solve.
Qed.

Lemma reset_wf c : wf c -> wf (reset c).
Proof. sat_solve. Qed.

Lemma shiftRight_wf c n c' : wf c -> shiftRight c n = Ok c' -> wf c'.
Proof.
  intros H. unfold shiftRight. destruct (Z.ltb_spec n 0); [done|].
  intros [= <-]. assert (0 <= Z.shiftr (counter c) n <= counter c).
  { destruct H as (?&?&?&?). rewrite Z.shiftr_div_pow2 by done.
    assert (0 < 2 ^ n) by (apply Z.pow_pos_nonneg; lia). split.
    - apply Z.div_pos; lia.
    - apply Z.div_le_upper_bound; nia. }
  sat_solve.
Qed.

Lemma shiftLeft_wf c n c' : wf c -> shiftLeft c n = Ok c' -> wf c'.
Proof.
  intros H. unfold shiftLeft. destruct (Z.ltb_spec n 0); [done|].
  intros [= <-]. cbn.
  assert (0 <= toT c (Z.shiftl (counter c) n)).
  { apply Z.mod_pos_bound. destruct H. apply Z.pow_pos_nonneg; lia. }
  destruct (Z.ltb_spec (maxVal c) (toT c (Z.shiftl (counter c) n))); sat_solve.
Qed.

Lemma saturate_spec c : wf c ->
  isSaturated (snd (saturate c)) = true /\
  counter c + fst (saturate c) = counter (snd (saturate c)).
Proof.
  intros H. unfold saturate, isSaturated; cbn.
  rewrite toT_small by (try done; destruct H; lia). rewrite Z.eqb_refl. lia.
Qed.

#[export] Hint Resolve reset_wf : ferret.

End Sat.
