(* ===== verification/ReplPolicy.v ===== *)
(** * Replacement policies

    [mem/cache/replacement_policies/{base,lru_rp,fifo_rp}]: the abstract
    interface as a type class, the two policies the BTB hierarchy uses as
    instances, and [Base], the dynamic dispatch over them (the caches hold a
    [BaseReplacementPolicy *]).  The client, [AssocCache], is proved against
    the interface laws only. *)

From Stdlib Require Import ZArith Lia.
From stdpp Require Import base list numbers.
From S2P Require Import Prelude Types.

(** [replacement_policy::Base].  [P] is the state of the policy object, [R]
    the per-entry [ReplacementData]; [curTick()] is an argument.
    [getVictim] gets the data of the candidates and returns the position of
    the victim among them. *)
Class ReplacementPolicy (P R : Type) := {
  rp_instantiateEntry : R;
  rp_invalidate : P -> R -> P * R;
  rp_touch : Tick -> P -> R -> P * R;
  rp_reset : Tick -> P -> R -> P * R;
  rp_getVictim : P -> list R -> Res nat
}.

(** What a policy promises to a cache: a victim is one of the candidates. *)
Class ReplacementPolicyLaws (P R : Type) `{!ReplacementPolicy P R} :=
  rp_getVictim_ok : forall (p : P) (l : list R),
    l <> [] -> exists i, rp_getVictim p l = Ok i /\ (i < length l)%nat.

(** The loop of [getVictim]: [best] and [bestv] are the victim so far, [i]
    the position of the next candidate. *)
Fixpoint scan_min (l : list Tick) (i best : nat) (bestv : Tick) : nat :=
  match l with
  | [] => best
  | x :: l' =>
      if x <? bestv then scan_min l' (S i) i x else scan_min l' (S i) best bestv
  end.

Definition first_min (l : list Tick) : Res nat :=
  match l with
  | [] => Err AssertFail
  | x :: _ => Ok (scan_min l 0 0 x)
  end.

Module LRU.
(** [LRUReplData::lastTouchTick] *)
Definition instantiateEntry : Tick := 0.
Definition invalidate (r : Tick) : Tick := 0.
Definition touch (curTick : Tick) (r : Tick) : Tick := curTick.
Definition reset (curTick : Tick) (r : Tick) : Tick := curTick.
Definition getVictim (candidates : list Tick) : Res nat := first_min candidates.
End LRU.

Module FIFO.
(** The state is [timeTicks]; the data is [FIFOReplData::tickInserted]. *)
Definition instantiateEntry : Tick := 0.
Definition invalidate (r : Tick) : Tick := 0.
Definition touch (r : Tick) : Tick := r.
Definition reset (timeTicks : Tick) (r : Tick) : Tick * Tick :=
  let t := u64 (timeTicks + 1) in (t, t).
Definition getVictim (candidates : list Tick) : Res nat := first_min candidates.
End FIFO.

#[export] Instance LRU_policy : ReplacementPolicy unit Tick := {|
  rp_instantiateEntry := LRU.instantiateEntry;
  rp_invalidate := fun p r => (p, LRU.invalidate r);
  rp_touch := fun t p r => (p, LRU.touch t r);
  rp_reset := fun t p r => (p, LRU.reset t r);
  rp_getVictim := fun _ l => LRU.getVictim l
|}.

#[export] Instance FIFO_policy : ReplacementPolicy Tick Tick := {|
  rp_instantiateEntry := FIFO.instantiateEntry;
  rp_invalidate := fun p r => (p, FIFO.invalidate r);
  rp_touch := fun _ p r => (p, FIFO.touch r);
  rp_reset := fun _ p r => FIFO.reset p r;
  rp_getVictim := fun _ l => FIFO.getVictim l
|}.

(** The policy object behind a [BaseReplacementPolicy *]. *)
Inductive BasePolicy :=
| PolicyLRU
| PolicyFIFO (timeTicks : Tick).

#[export] Instance Base_policy : ReplacementPolicy BasePolicy Tick := {|
  rp_instantiateEntry := 0;
  rp_invalidate := fun p r => (p, 0);
  rp_touch := fun t p r =>
    match p with
    | PolicyLRU => (p, LRU.touch t r)
    | PolicyFIFO _ => (p, FIFO.touch r)
    end;
  rp_reset := fun t p r =>
    match p with
    | PolicyLRU => (p, LRU.reset t r)
    | PolicyFIFO ticks => let '(ticks', r') := FIFO.reset ticks r in (PolicyFIFO ticks', r')
    end;
  rp_getVictim := fun p l =>
    match p with
    | PolicyLRU => LRU.getVictim l
    | PolicyFIFO _ => FIFO.getVictim l
    end
|}.

(** ** Facts *)

Lemma scan_min_spec l i best bestv full :
  full !! best = Some bestv ->
  (forall j x, full !! j = Some x -> (j < i)%nat -> bestv <= x) ->
  (forall j x, full !! j = Some x -> (j < best)%nat -> bestv < x) ->
  (best <= i)%nat ->
  drop i full = l ->
  let v := scan_min l i best bestv in
  exists m, full !! v = Some m /\
    (forall j x, full !! j = Some x -> m <= x) /\
    (forall j x, full !! j = Some x -> (j < v)%nat -> m < x).
Proof.
  revert i best bestv. induction l as [|y l IH]; intros i best bestv Hb Hle Hlt Hbi Hd; cbn.
  - exists bestv. split; [done|]. split; [|done].
    intros j x Hj. apply (Hle j x Hj).
    apply lookup_lt_Some in Hj.
    assert (length full <= i)%nat; [|lia].
    apply (f_equal length) in Hd. rewrite length_drop in Hd. cbn in Hd. lia.
  - assert (Hy : full !! i = Some y).
    { rewrite <- (Nat.add_0_r i), <- lookup_drop, Hd. done. }
    assert (Hd' : drop (S i) full = l).
    { rewrite <- Nat.add_1_r, <- drop_drop, Hd. done. }
    destruct (Z.ltb_spec y bestv).
    + apply IH; try done.
      * intros j x Hj Hji. destruct (decide (j = i)) as [->|]; [simplify_eq; lia|].
        specialize (Hle j x Hj). lia.
      * intros j x Hj Hji. specialize (Hle j x Hj). lia.
      * lia.
    + apply IH; try done; [|lia].
      intros j x Hj Hji. destruct (decide (j = i)) as [->|]; [simplify_eq; lia|].
      apply (Hle j x Hj). lia.
Qed.

(** The victim is the first candidate whose tick is minimal. *)
Lemma first_min_spec (l : list Tick) :
  l <> [] -> exists v m, first_min l = Ok v /\ l !! v = Some m /\
    (forall j x, l !! j = Some x -> m <= x) /\
    (forall j x, l !! j = Some x -> (j < v)%nat -> m < x).
Proof.
  destruct l as [|x l]; [done|]. intros _. unfold first_min.
  destruct (scan_min_spec (x :: l) 0 0 x (x :: l)) as (m & ? & ? & ?);
    try done; try lia; eauto 10.
Qed.

Lemma first_min_bound l :
  l <> [] -> exists i, first_min l = Ok i /\ (i < length l)%nat.
Proof.
  intros H. destruct (first_min_spec l H) as (v & m & E & Hv & _).
  exists v. split; [done|]. by eapply lookup_lt_Some.
Qed.

#[export] Instance LRU_laws : ReplacementPolicyLaws unit Tick.
Proof. intros p l H. by apply first_min_bound. Qed.
#[export] Instance FIFO_laws : ReplacementPolicyLaws Tick Tick.
Proof. intros p l H. by apply first_min_bound. Qed.
#[export] Instance Base_laws : ReplacementPolicyLaws BasePolicy Tick.
Proof. intros [|t] l H; by apply first_min_bound. Qed.
