(* ===== verification/AssocCache.v ===== *)
(** * Indexing policies and the associative container

    [IndexingPolicyTemplate] ([mem/cache/tags/indexing_policies/base.hh]) and
    [AssociativeCache<Entry>] ([base/cache/associative_cache.hh]).  The
    container is generic over three interfaces, as in the source: the entry
    ([CacheEntryOps]), the indexing policy ([Indexing]) and the replacement
    policy ([ReplacementPolicy]).  An [Entry *] is the position of the entry in
    [entries]; the null pointer is [None]. *)

From Stdlib Require Import ZArith Lia.
From stdpp Require Import base list numbers.
From S2P Require Import Prelude Types ReplPolicy.

(** ** IndexingPolicyTemplate *)

Record IndexingPolicy := mkIndexing {
  ip_assoc : Z;
  numSets : Z;
  setShift : Z;
  setMask : Z;
  sets : list (list (option nat));
  tagShift : Z
}.

#[export] Instance eta_IndexingPolicy : Settable IndexingPolicy := fun s =>
  mkIndexing (ip_assoc s) (numSets s) (setShift s) (setMask s) (sets s) (tagShift s).

Module Index.

(** The constructor.  [numSets] is computed, and [floorLog2] asserts, before
    the two [fatal_if] of the body are reached. *)
Definition make (assoc num_entries set_shift : Z) : Res IndexingPolicy :=
  if assoc =? 0 then Err DivByZero else
  let num_sets := u32 (num_entries / assoc) in
  match floorLog2 4 num_sets with
  | Err e => Err e
  | Ok l =>
      if negb (isPowerOf2 num_sets) then Err Fatal else
      if assoc <=? 0 then Err Fatal else
      Ok (mkIndexing assoc num_sets set_shift (u32 (num_sets - 1))
            (replicate (Z.to_nat num_sets) (replicate (Z.to_nat assoc) None))
            (set_shift + l))
  end.

(** [setEntry]: the entry with unique index [index] gets its set and way; the
    position is returned for [entry->setPosition]. *)
Definition setEntry (ip : IndexingPolicy) (entry : nat) (index : Z)
  : Res (IndexingPolicy * (Z * Z)) :=
  let set := u32 (index / ip_assoc ip) in
  let way := u32 (index mod ip_assoc ip) in
  if numSets ip <=? set then Err AssertFail else
  match sets ip !! Z.to_nat set with
  | None => Err OutOfRange
  | Some row =>
      if Z.of_nat (length row) <=? way then Err OutOfRange else
      Ok (ip <| sets := <[Z.to_nat set := <[Z.to_nat way := Some entry]> row]> (sets ip) |>,
          (set, way))
  end.

Definition getEntry (ip : IndexingPolicy) (set way : Z) : Res (option nat) :=
  match sets ip !! Z.to_nat set with
  | None => Err OutOfRange
  | Some row => match row !! Z.to_nat way with
                | None => Err OutOfRange
                | Some p => Ok p
                end
  end.

(** The default [extractTag]. *)
Definition extractTag (ip : IndexingPolicy) (addr : Addr) : Addr :=
  Z.shiftr addr (tagShift ip).

End Index.

(** What the container needs of an indexing policy for keys [K]. *)
Class Indexing (I K : Type) := {
  ix_policy : I -> IndexingPolicy;
  ix_withPolicy : IndexingPolicy -> I -> I;
  ix_getPossibleEntries : I -> K -> Res (list (option nat));
  ix_extractTag : I -> Addr -> Addr
}.

(** What the container needs of an entry. The tag extractor registered in the
    entries of a container is the one of its indexing policy. *)
Class CacheEntryOps (K E : Type) := {
  ce_isValid : E -> bool;
  ce_match : (Addr -> Addr) -> K -> E -> bool;
  ce_insert : (Addr -> Addr) -> K -> E -> Res E;
  ce_invalidate : E -> E
}.

(** The contract of an entry: only valid entries match, an invalidated entry
    is invalid, an invalid entry can be inserted and then matches its key. *)
Class CacheEntryLaws (K E : Type) `{!CacheEntryOps K E} := {
  ce_match_valid : forall ext k e, ce_match ext k e = true -> ce_isValid e = true;
  ce_invalidate_valid : forall e, ce_isValid (ce_invalidate e) = false;
  ce_insert_ok : forall ext k e, ce_isValid e = false ->
    exists e', ce_insert ext k e = Ok e' /\ ce_isValid e' = true /\ ce_match ext k e' = true
}.

Record Cache (I E P R : Type) := mkCache {
  associativity : Z;
  replPolicy : P;
  indexingPolicy : I;
  entries : list E;
  replData : list R;
  positions : list (Z * Z)
}.
Arguments mkCache {I E P R} _ _ _ _ _ _.
Arguments associativity {I E P R} _.
Arguments replPolicy {I E P R} _.
Arguments indexingPolicy {I E P R} _.
Arguments entries {I E P R} _.
Arguments replData {I E P R} _.
Arguments positions {I E P R} _.

#[export] Instance eta_Cache {I E P R} : Settable (Cache I E P R) := fun c =>
  mkCache (associativity c) (replPolicy c) (indexingPolicy c) (entries c)
    (replData c) (positions c).

Module AC.
Section AssociativeCache.
Context {K I E P R : Type}.
Context `{!Indexing I K} `{!CacheEntryOps K E} `{!ReplacementPolicy P R}.

Abbreviation cache := (Cache I E P R) (only parsing).

(** *** Construction *)

(** The loop of [initParams]. *)
Fixpoint initLoop (n : nat) (entry_idx : nat) (i : I) (pos : list (Z * Z))
  : Res (I * list (Z * Z)) :=
  match n with
  | O => Ok (i, pos)
  | S n' =>
      match Index.setEntry (ix_policy i) entry_idx (Z.of_nat entry_idx) with
      | Err e => Err e
      | Ok (ip, p) => initLoop n' (S entry_idx) (ix_withPolicy ip i) (pos ++ [p])
      end
  end.

Definition make (num_entries assoc : Z) (repl_policy : P) (indexing_policy : I)
    (init_val : E) : Res cache :=
  if assoc =? 0 then Err DivByZero else
  if negb (num_entries mod assoc =? 0) then Err Fatal else
  match initLoop (Z.to_nat num_entries) 0 indexing_policy [] with
  | Err e => Err e
  | Ok (ip, pos) =>
      Ok (mkCache assoc repl_policy ip
            (replicate (Z.to_nat num_entries) init_val)
            (replicate (Z.to_nat num_entries) rp_instantiateEntry) pos)
  end.

(** *** Operations *)

Definition extractTag (c : cache) : Addr -> Addr := ix_extractTag (indexingPolicy c).

(** Read an entry through a pointer, and write one back. *)
Definition readEntry (i : nat) : M cache E :=
  o ← gets (fun c => entries c !! i); at_index o.
Definition modifyEntry (i : nat) (f : E -> E) : M cache unit :=
  e ← readEntry i;
  modify (fun c => c <| entries ::= <[i := f e]> |>).

Definition updateReplData (i : nat) (f : P -> R -> P * R) : M cache unit :=
  o ← gets (fun c => replData c !! i);
  r ← at_index o;
  modify (fun c =>
    let '(p', r') := f (replPolicy c) r in
    c <| replPolicy := p' |> <| replData ::= <[i := r']> |>).

Definition accessEntry (curTick : Tick) (entry : nat) : M cache unit :=
  updateReplData entry (rp_touch curTick).

(** The loop of [findEntry]. *)
Fixpoint findLoop (key : K) (candidates : list (option nat)) : M cache (option nat) :=
  match candidates with
  | [] => mret None
  | candidate :: rest =>
      i ← deref candidate;
      e ← readEntry i;
      ext ← gets extractTag;
      if ce_match ext key e then mret (Some i) else findLoop key rest
  end.

Definition findEntry (key : K) : M cache (option nat) :=
  r ← gets (fun c => ix_getPossibleEntries (indexingPolicy c) key);
  candidates ← lift r;
  findLoop key candidates.

Definition accessEntryByKey (curTick : Tick) (key : K) : M cache (option nat) :=
  entry ← findEntry key;
  match entry with
  | Some i => accessEntry curTick i ;; mret entry
  | None => mret entry
  end.

Definition invalidate (entry : nat) : M cache unit :=
  modifyEntry entry ce_invalidate ;;
  updateReplData entry rp_invalidate.

(** The replacement data of the candidates, in order. *)
Fixpoint candidateData (candidates : list (option nat)) : M cache (list R) :=
  match candidates with
  | [] => mret []
  | candidate :: rest =>
      i ← deref candidate;
      o ← gets (fun c => replData c !! i);
      d ← at_index o;
      ds ← candidateData rest;
      mret (d :: ds)
  end.

Definition findVictim (key : K) (do_invalidate : bool) : M cache nat :=
  r ← gets (fun c => ix_getPossibleEntries (indexingPolicy c) key);
  candidates ← lift r;
  data ← candidateData candidates;
  v ← gets (fun c => rp_getVictim (replPolicy c) data);
  pos ← lift v;
  candidate ← at_index (candidates !! pos);
  victim ← deref candidate;
  when do_invalidate (invalidate victim) ;;
  mret victim.

Definition insertEntry (curTick : Tick) (key : K) (entry : nat) : M cache unit :=
  e ← readEntry entry;
  ext ← gets extractTag;
  e' ← lift (ce_insert ext key e);
  modify (fun c => c <| entries ::= <[entry := e']> |>) ;;
  updateReplData entry (rp_reset curTick).

Definition clear : M cache unit :=
  n ← gets (fun c => length (entries c));
  mfor (seq 0 n) invalidate.

End AssociativeCache.

(** ** Specification

    [candidates] and [find] are the pure content of [getPossibleEntries] and
    [findEntry]; [wf] is the well-formedness of a constructed container. *)
Section Spec.
Context {K I E P R : Type}.
Context `{!Indexing I K} `{!CacheEntryOps K E} `{!ReplacementPolicy P R}.
Abbreviation cache := (Cache I E P R) (only parsing).

Definition candidates (i : I) (key : K) : list nat :=
  match ix_getPossibleEntries i key with
  | Ok l => omap id l
  | Err _ => []
  end.

Fixpoint find_in (p : E -> bool) (es : list E) (l : list nat) : option nat :=
  match l with
  | [] => None
  | i :: l' =>
      match es !! i with
      | Some e => if p e then Some i else find_in p es l'
      | None => find_in p es l'
      end
  end.

Definition find (c : cache) (key : K) : option nat :=
  find_in (ce_match (extractTag (K:=K) c) key) (entries c)
    (candidates (indexingPolicy c) key).

(** The entry stored under a key: the abstract map the container is. *)
Definition get (c : cache) (key : K) : option E :=
  match find c key with Some i => entries c !! i | None => None end.

Record wf (c : cache) : Prop := {
  wf_repl : length (replData c) = length (entries c);
  wf_cands : forall key : K, exists l,
    ix_getPossibleEntries (indexingPolicy c) key = Ok (Some <$> l) /\
    l <> [] /\ Forall (fun i => (i < length (entries c))%nat) l
}.

(** [c'] differs from [c] at most in entries and replacement data. *)
Definition same_shape (c c' : cache) : Prop :=
  indexingPolicy c' = indexingPolicy c /\
  length (entries c') = length (entries c) /\
  length (replData c') = length (replData c).

#[global] Instance same_shape_preorder : PreOrder same_shape.
Proof.
  split; unfold same_shape.
  - intros c. done.
  - intros a b c (?&?&?) (?&?&?). repeat split; congruence.
Qed.

Lemma same_shape_insert (c : cache) i e : same_shape c (c <| entries ::= <[i := e]> |>).
Proof. unfold same_shape; cbn. by rewrite length_insert. Qed.

Lemma wf_shape c c' : wf c -> same_shape c c' -> wf c'.
Proof.
  intros [Hr Hc] (Hi & He & Hd). split; [congruence|].
  intros key. rewrite Hi, He. apply Hc.
Qed.

Lemma omap_id_Some {A} (l : list A) : omap id (Some <$> l) = l.
Proof. induction l; cbn; congruence. Qed.

Lemma wf_candidates c key : wf c ->
  ix_getPossibleEntries (indexingPolicy c) key
    = Ok (Some <$> candidates (indexingPolicy c) key) /\
  candidates (indexingPolicy c) key <> [] /\
  Forall (fun i => (i < length (entries c))%nat) (candidates (indexingPolicy c) key).
Proof.
  intros [_ Hc]. destruct (Hc key) as (l & E1 & ? & ?).
  unfold candidates. rewrite E1, omap_id_Some. done.
Qed.

Lemma candidates_bound c key i :
  wf c -> i ∈ candidates (indexingPolicy c) key -> is_Some (entries c !! i).
Proof.
  intros Hwf Hi. apply lookup_lt_is_Some_2.
  destruct (wf_candidates c key Hwf) as (_ & _ & HF).
  by apply (proj1 (list.Forall_forall _ _) HF).
Qed.

(** *** find_in *)

Lemma find_in_Some p es l i :
  find_in p es l = Some i ->
  i ∈ l /\ exists e, es !! i = Some e /\ p e = true.
Proof.
  induction l as [|j l IH]; cbn; [done|].
  destruct (es !! j) as [e|] eqn:Ej.
  - destruct (p e) eqn:Ep.
    + intros [= <-]. split; [left|]. eauto.
    + intros H. destruct (IH H). split; [by right|done].
  - intros H. destruct (IH H). split; [by right|done].
Qed.

Lemma find_in_None p es l :
  find_in p es l = None <->
  (forall i e, i ∈ l -> es !! i = Some e -> p e = false).
Proof.
  induction l as [|j l IH]; cbn.
  { split; [intros _ i e Hi; by apply not_elem_of_nil in Hi | done]. }
  destruct (es !! j) as [e|] eqn:Ej.
  - destruct (p e) eqn:Ep.
    + split; [done|]. intros H. rewrite (H j e) in Ep; [done|left|done].
    + rewrite IH. split.
      * intros H i e' Hi He'. apply elem_of_cons in Hi as [->|Hi]; [congruence|].
        by eapply H.
      * intros H i e' Hi He'. eapply H; [by right|done].
  - rewrite IH. split.
    + intros H i e' Hi He'. apply elem_of_cons in Hi as [->|Hi]; [congruence|].
      by eapply H.
    + intros H i e' Hi He'. eapply H; [by right|done].
Qed.

(** Writing a matching entry where nothing matched, or over the match,
    makes it the one that is found. *)
Lemma find_in_insert p es l i e :
  (find_in p es l = None \/ find_in p es l = Some i) ->
  i ∈ l -> is_Some (es !! i) -> p e = true ->
  find_in p (<[i := e]> es) l = Some i.
Proof.
  intros Hf Hi Hs Hp. apply lookup_lt_is_Some_1 in Hs.
  induction l as [|j l IH]; [by apply not_elem_of_nil in Hi|]. cbn in *.
  destruct (decide (j = i)) as [->|Hne].
  - rewrite list_lookup_insert_eq by done. by rewrite Hp.
  - rewrite list_lookup_insert_ne by done.
    apply elem_of_cons in Hi as [?|Hi]; [congruence|].
    destruct (es !! j) as [ej|]; [|by apply IH].
    destruct (p ej); [destruct Hf; congruence|]. by apply IH.
Qed.

(** Writing an entry that does not match leaves the search of the others. *)
Lemma find_in_insert_other p es l i e e0 :
  es !! i = Some e0 -> p e0 = p e ->
  find_in p (<[i := e]> es) l = find_in p es l.
Proof.
  intros He0 Hp. induction l as [|j l IH]; cbn; [done|].
  destruct (decide (j = i)) as [->|Hne].
  - rewrite list_lookup_insert_eq by (by eapply lookup_lt_Some).
    rewrite He0, Hp, IH. done.
  - rewrite list_lookup_insert_ne by done. rewrite IH. done.
Qed.

Lemma find_in_invalidate p es l i e e0 j :
  es !! i = Some e0 -> p e = false ->
  find_in p es l = Some j -> j <> i ->
  find_in p (<[i := e]> es) l = Some j.
Proof.
  intros He0 Hp Hf Hne. induction l as [|k l IH]; cbn in *; [done|].
  destruct (decide (k = i)) as [->|Hk].
  - rewrite list_lookup_insert_eq by (by eapply lookup_lt_Some). rewrite Hp.
    rewrite He0 in Hf. destruct (p e0); [congruence|]. by apply IH.
  - rewrite list_lookup_insert_ne by done.
    destruct (es !! k) as [ek|]; [|by apply IH]. destruct (p ek); [done|]. by apply IH.
Qed.

Lemma find_in_None_insert p es l i e :
  find_in p es l = None -> p e = false -> find_in p (<[i := e]> es) l = None.
Proof.
  rewrite !find_in_None. intros H Hp j ej Hj Hl.
  destruct (decide (i = j)) as [->|Hne].
  - rewrite list_lookup_insert in Hl. case_decide; [|by eapply H].
    by simplify_eq.
  - rewrite list_lookup_insert_ne in Hl by done. by eapply H.
Qed.

(** *** find *)

Lemma find_Some c key i :
  find c key = Some i ->
  i ∈ candidates (indexingPolicy c) key /\
  exists e, entries c !! i = Some e /\ ce_match (extractTag (K:=K) c) key e = true.
Proof. apply find_in_Some. Qed.

Lemma get_Some c key e :
  get c key = Some e <-> exists i, find c key = Some i /\ entries c !! i = Some e.
Proof.
  unfold get. destruct (find c key) as [i|]; cbn.
  - split; [eauto | by intros (? & [= <-] & ?)].
  - split; [done | by intros (? & ? & ?)].
Qed.

Lemma find_None_get c key : find c key = None <-> get c key = None.
Proof.
  unfold get. destruct (find c key) as [i|] eqn:Ef; cbn; [|done].
  destruct (find_Some _ _ _ Ef) as (_ & e & -> & _). done.
Qed.

Lemma find_get c key i e :
  find c key = Some i -> entries c !! i = Some e -> get c key = Some e.
Proof. intros Hf He. apply get_Some. eauto. Qed.

(** *** Operations *)

Lemma wp_readEntry c i e Q :
  entries c !! i = Some e -> Q e c -> wp (readEntry i : M cache E) Q c.
Proof.
  intros He HQ. unfold readEntry. wp_steps. by apply (wp_at_index _ e).
Qed.

Lemma wp_modifyEntry c i e f (Q : unit -> cache -> Prop) :
  entries c !! i = Some e ->
  Q tt (c <| entries ::= <[i := f e]> |>) ->
  wp (modifyEntry i f) Q c.
Proof.
  intros He HQ. unfold modifyEntry. apply wp_bind.
  eapply wp_readEntry; [done|]. by apply wp_modify.
Qed.

Lemma wp_updateReplData c i f (Q : unit -> cache -> Prop) :
  (i < length (replData c))%nat ->
  (forall c', same_shape c c' -> entries c' = entries c -> Q tt c') ->
  wp (updateReplData i f) Q c.
Proof.
  intros Hi HQ. apply lookup_lt_is_Some_2 in Hi as [r Hr].
  unfold updateReplData. wp_steps. apply (wp_at_index _ r); [done|].
  apply wp_modify. destruct (f (replPolicy c) r) as [p' r'].
  apply HQ; [|done]. unfold same_shape; cbn. by rewrite length_insert.
Qed.

Lemma wp_accessEntry c t i (Q : unit -> cache -> Prop) :
  wf c -> is_Some (entries c !! i) ->
  (forall c', same_shape c c' -> entries c' = entries c -> Q tt c') ->
  wp (accessEntry t i) Q c.
Proof.
  intros Hwf Hi HQ. apply wp_updateReplData; [|done].
  rewrite wf_repl by done. by apply lookup_lt_is_Some_1.
Qed.

Lemma findLoop_eq (c : cache) key l :
  Forall (fun i => (i < length (entries c))%nat) l ->
  findLoop key (Some <$> l) c =
    Ok (find_in (ce_match (extractTag (K:=K) c) key) (entries c) l, c).
Proof.
  induction 1 as [|i l Hi Hl IH]; [done|].
  apply lookup_lt_is_Some_2 in Hi as [e He].
  cbn [fmap list_fmap findLoop find_in]. rewrite He.
  unfold readEntry, mbind, M_bind, deref, gets, at_index, mret, M_ret. cbn.
  rewrite He. cbn.
  destruct (ce_match _ key e); [done|]. apply IH.
Qed.

(** [findEntry] is [find]: it returns, and leaves the container as it is. *)
Lemma findEntry_eq c key : wf c -> findEntry key c = Ok (find c key, c).
Proof.
  intros Hwf. destruct (wf_candidates c key Hwf) as (Eq & _ & HF).
  unfold findEntry, mbind, M_bind, gets, lift. rewrite Eq. cbn.
  by rewrite findLoop_eq.
Qed.

Lemma wp_findEntry c key (Q : option nat -> cache -> Prop) :
  wf c -> Q (find c key) c -> wp (findEntry key) Q c.
Proof. intros Hwf HQ. eapply wp_ok; [by apply findEntry_eq | done]. Qed.

Lemma wp_accessEntryByKey c t key (Q : option nat -> cache -> Prop) :
  wf c ->
  (forall c', same_shape c c' -> entries c' = entries c -> Q (find c key) c') ->
  wp (accessEntryByKey t key) Q c.
Proof.
  intros Hwf HQ. unfold accessEntryByKey. apply wp_bind.
  apply wp_findEntry; [done|].
  destruct (find c key) as [i|] eqn:Ef.
  - apply wp_bind. destruct (find_Some _ _ _ Ef) as (_ & e & He & _).
    apply wp_accessEntry; [done| |]; [by rewrite He|].
    intros c' Hs He'. apply wp_ret. by apply HQ.
  - apply wp_ret. apply HQ; [done|done].
Qed.

Lemma wp_invalidate c i e (Q : unit -> cache -> Prop) :
  wf c -> entries c !! i = Some e ->
  (forall c', same_shape c c' ->
     entries c' = <[i := ce_invalidate e]> (entries c) -> Q tt c') ->
  wp (invalidate i) Q c.
Proof.
  intros Hwf He HQ. unfold invalidate. apply wp_bind.
  eapply wp_modifyEntry; [done|].
  apply wp_updateReplData.
  - cbn. rewrite wf_repl by done. by eapply lookup_lt_Some.
  - intros c' (H1 & H2 & H3) H4. cbn in *. apply HQ; [|done].
    unfold same_shape. rewrite H1, H2, H3, length_insert. done.
Qed.

Lemma candidateData_ok (c : cache) l :
  Forall (fun i => (i < length (replData c))%nat) l ->
  exists ds, candidateData (Some <$> l) c = Ok (ds, c) /\ length ds = length l.
Proof.
  induction 1 as [|i l Hi Hl (ds & IH & Hlen)]; [by exists []|].
  apply lookup_lt_is_Some_2 in Hi as [r Hr].
  exists (r :: ds). split; [|cbn; congruence].
  cbn [fmap list_fmap candidateData].
  unfold mbind, M_bind, deref, gets, at_index, mret, M_ret. cbn. rewrite Hr. cbn.
  change (list_fmap nat (option nat) Some l) with (Some <$> l). by rewrite IH.
Qed.

Context `{!ReplacementPolicyLaws P R} `{!CacheEntryLaws K E}.

Lemma wp_findVictim (c : cache) (key : K) (do_inv : bool) (Q : nat -> cache -> Prop) :
  wf c ->
  (forall (i : nat) (e : E) (c' : cache), i ∈ candidates (indexingPolicy c) key ->
     entries c !! i = Some e -> same_shape c c' ->
     entries c' = (if do_inv then <[i := ce_invalidate e]> (entries c) else entries c) ->
     Q i c') ->
  wp (findVictim key do_inv) Q c.
Proof.
  intros Hwf HQ. destruct (wf_candidates c key Hwf) as (Eq & Hne & HF).
  unfold findVictim. wp_steps. eapply wp_lift; [exact Eq|].
  apply wp_bind.
  set (l := candidates (indexingPolicy c) key) in *.
  destruct (candidateData_ok c l) as (ds & Ed & Hlen).
  { rewrite wf_repl by done. done. }
  eapply wp_ok; [exact Ed|]. wp_steps.
  destruct (rp_getVictim_ok (replPolicy c) ds) as (pos & Ep & Hpos).
  { intros ->. destruct l; done. }
  eapply wp_lift; [exact Ep|]. apply wp_bind.
  rewrite Hlen in Hpos. apply lookup_lt_is_Some_2 in Hpos as [v Hv].
  eapply wp_at_index; [by rewrite list_lookup_fmap, Hv|]. apply wp_bind.
  eapply wp_deref; [done|].
  assert (Hin : v ∈ l) by (by eapply list_elem_of_lookup_2).
  destruct (candidates_bound c key v Hwf Hin) as [e He].
  apply wp_bind, wp_when; intros Hb; rewrite Hb in HQ.
  - eapply wp_invalidate; [done..|]. intros c' Hs He'. apply wp_ret. by eapply HQ.
  - apply wp_ret. by eapply (HQ v e).
Qed.

Lemma wp_insertEntry (c : cache) t (key : K) i e e' (Q : unit -> cache -> Prop) :
  wf c -> entries c !! i = Some e ->
  ce_insert (extractTag (K:=K) c) key e = Ok e' ->
  (forall c', same_shape c c' -> entries c' = <[i := e']> (entries c) -> Q tt c') ->
  wp (insertEntry t key i) Q c.
Proof.
  intros Hwf He Hins HQ. unfold insertEntry. apply wp_bind.
  eapply wp_readEntry; [done|]. wp_steps. eapply wp_lift; [done|].
  wp_steps. apply wp_updateReplData.
  - cbn. rewrite wf_repl by done. by eapply lookup_lt_Some.
  - intros c' (H1 & H2 & H3) H4. cbn in *. apply HQ; [|done].
    unfold same_shape. rewrite H1, H2, H3, length_insert. done.
Qed.

(** [clear] leaves no valid entry. *)
Lemma wp_clear c (Q : unit -> cache -> Prop) :
  wf c ->
  (forall c', same_shape c c' -> entries c' = ce_invalidate <$> entries c -> Q tt c') ->
  wp clear Q c.
Proof.
  intros Hwf HQ. unfold clear. wp_steps.
  assert (Hgen : forall n k c0, wf c0 -> same_shape c c0 ->
    (k + n = length (entries c))%nat ->
    (forall j, entries c0 !! j =
       (if decide (j < k)%nat then ce_invalidate <$> entries c !! j else entries c !! j)) ->
    wp (mfor (seq k n) invalidate) Q c0).
  { induction n as [|n IH]; intros k c0 Hwf0 Hs Hk He; cbn [seq mfor].
    - apply wp_ret. apply HQ; [done|]. apply list_eq. intros j.
      rewrite list_lookup_fmap, He. case_decide; [done|].
      rewrite (lookup_ge_None_2 (entries c)) by lia. done.
    - apply wp_bind.
      destruct (lookup_lt_is_Some_2 (entries c) k) as [e Hek]; [lia|].
      assert (Hk0 : entries c0 !! k = Some e).
      { rewrite He. case_decide; [lia|done]. }
      eapply wp_invalidate; [done|done|]. intros c1 Hs1 He1.
      assert (Hs01 : same_shape c c1) by (by etransitivity).
      apply IH; [by eapply wf_shape|done|lia|].
      intros j. rewrite He1. destruct (decide (j = k)) as [->|Hjk].
      + rewrite list_lookup_insert_eq by (by eapply lookup_lt_Some).
        case_decide; [|lia]. by rewrite Hek.
      + rewrite list_lookup_insert_ne by done. rewrite He.
        case_decide; case_decide; try done; lia. }
  by apply (Hgen _ 0%nat c).
Qed.

End Spec.
End AC.
