(* ===== verification/AssocCacheInit.v ===== *)
(** * Construction of the associative container

    The constructor of [IndexingPolicyTemplate] and the [initParams] loop of
    [AssociativeCache] place entry [j] at set [j / assoc], way [j mod assoc];
    a container built with a matching policy is well formed ([AC.wf]). *)

From Stdlib Require Import ZArith Lia.
From stdpp Require Import base list numbers.
From S2P Require Import Prelude Types ReplPolicy AssocCache.

Module Geometry.

(** The shape the constructor of the policy establishes. *)
Record shaped (ip : IndexingPolicy) : Prop := {
  sh_pow : exists k, 0 <= k < 32 /\ numSets ip = 2 ^ k;
  sh_mask : setMask ip = numSets ip - 1;
  sh_assoc : 0 < ip_assoc ip;
  sh_len : length (sets ip) = Z.to_nat (numSets ip);
  sh_rows : Forall (fun row => length row = Z.to_nat (ip_assoc ip)) (sets ip)
}.

Lemma numSets_pos ip : shaped ip -> 0 < numSets ip < 2 ^ 32.
Proof.
  intros [(k & Hk & ->) _ _ _ _].
  split; [apply Z.pow_pos_nonneg; lia | apply Z.pow_lt_mono_r; lia].
Qed.

Definition slot (ip : IndexingPolicy) (s w : nat) : option (option nat) :=
  match sets ip !! s with Some row => row !! w | None => None end.

(** The policies differ only in their pointers. *)
Definition same_params (a b : IndexingPolicy) : Prop :=
  ip_assoc b = ip_assoc a /\ numSets b = numSets a /\ setShift b = setShift a /\
  setMask b = setMask a /\ tagShift b = tagShift a.

(** Entry [j] is at its set and way, for every [j < n]. *)
Definition placed (ip : IndexingPolicy) (n : nat) : Prop :=
  forall j, (j < n)%nat ->
    slot ip (j / Z.to_nat (ip_assoc ip)) (j mod Z.to_nat (ip_assoc ip)) = Some (Some j).

Lemma make_shaped assoc num_entries set_shift ip :
  0 < assoc < 2 ^ 31 -> 0 <= num_entries < 2 ^ 32 ->
  Index.make assoc num_entries set_shift = Ok ip ->
  shaped ip /\ ip_assoc ip = assoc /\ numSets ip = num_entries / assoc /\
  setShift ip = set_shift /\ tagShift ip = set_shift + Z.log2 (num_entries / assoc).
Proof.
  intros Ha Hn. unfold Index.make.
  destruct (Z.eqb_spec assoc 0); [lia|].
  assert (Hq : 0 <= num_entries / assoc < 2 ^ 32).
  { split; [apply Z.div_pos; lia|]. apply Z.div_lt_upper_bound; nia. }
  rewrite u32_small by done. set (q := num_entries / assoc) in *.
  destruct (decide (q = 0)) as [E0|].
  { rewrite E0. done. }
  rewrite floorLog2_correct by (try lia; right; right; by left).
  destruct (isPowerOf2 q) eqn:Ep; cbn; [|done].
  destruct (Z.leb_spec assoc 0); [lia|]. intros [= <-]. cbn.
  split; [|done]. split; cbn.
  - exists (Z.log2 q). split; [|apply isPowerOf2_log2; [lia|done]].
    split; [apply Z.log2_nonneg|]. apply Z.log2_lt_pow2; lia.
  - by rewrite u32_small by lia.
  - lia.
  - apply length_replicate.
  - apply Forall_replicate. apply length_replicate.
Qed.

Lemma slot_insert ip s w s0 w0 row e :
  sets ip !! s0 = Some row -> (w0 < length row)%nat ->
  slot (ip <| sets := <[s0 := <[w0 := e]> row]> (sets ip) |>) s w =
  if decide (s = s0 /\ w = w0) then Some e else slot ip s w.
Proof.
  intros Hrow Hw. unfold slot; cbn. apply lookup_lt_Some in Hrow as Hlen.
  destruct (decide (s = s0)) as [->|Hs].
  - rewrite list_lookup_insert_eq by done. rewrite Hrow.
    destruct (decide (w = w0)) as [->|Hw'].
    + rewrite list_lookup_insert_eq by done. by rewrite decide_True.
    + rewrite list_lookup_insert_ne by done. rewrite decide_False by (intros [? ?]; congruence). done.
  - rewrite list_lookup_insert_ne by done. rewrite decide_False by (intros [? ?]; congruence). done.
Qed.

Lemma setEntry_ok ip e (j : nat) :
  shaped ip -> Z.of_nat j < numSets ip * ip_assoc ip -> Z.of_nat j < 2 ^ 32 ->
  exists ip' pos, Index.setEntry ip e (Z.of_nat j) = Ok (ip', pos) /\
    shaped ip' /\ same_params ip ip' /\
    forall s w, slot ip' s w =
      if decide (s = (j / Z.to_nat (ip_assoc ip))%nat /\
                 w = (j mod Z.to_nat (ip_assoc ip))%nat)
      then Some (Some e) else slot ip s w.
Proof.
  intros [Hp Hm Ha Hl Hr] Hj Hj32. unfold Index.setEntry.
  set (a := ip_assoc ip) in *.
  assert (Hd : 0 <= Z.of_nat j / a < numSets ip).
  { split; [apply Z.div_pos; lia|]. apply Z.div_lt_upper_bound; nia. }
  assert (Hmod : 0 <= Z.of_nat j mod a < a) by (apply Z.mod_pos_bound; lia).
  assert (Hd32 : Z.of_nat j / a < 2 ^ 32).
  { apply Z.div_lt_upper_bound; nia. }
  assert (Hm32 : Z.of_nat j mod a < 2 ^ 32).
  { pose proof (Z.mod_le (Z.of_nat j) a). lia. }
  rewrite (u32_small (Z.of_nat j / a)), (u32_small (Z.of_nat j mod a)) by lia.
  destruct (Z.leb_spec (numSets ip) (Z.of_nat j / a)); [lia|].
  destruct (lookup_lt_is_Some_2 (sets ip) (Z.to_nat (Z.of_nat j / a))) as [row Hrow]; [lia|].
  rewrite Hrow.
  assert (Hrl : length row = Z.to_nat a).
  { eapply (proj1 (list.Forall_forall _ _) Hr). by eapply list_elem_of_lookup_2. }
  destruct (Z.leb_spec (Z.of_nat (length row)) (Z.of_nat j mod a)); [lia|].
  do 2 eexists. split; [reflexivity|]. split; [|split; [done|]].
  - split; cbn; try done.
    + by rewrite length_insert.
    + apply Forall_insert; [done|]. by rewrite length_insert.
  - intros s w. rewrite slot_insert by (try done; lia).
    replace (Z.to_nat (Z.of_nat j / a)) with (j / Z.to_nat a)%nat.
    2: { rewrite <- (Nat2Z.id (j / Z.to_nat a)), Nat2Z.inj_div, Z2Nat.id by lia. done. }
    replace (Z.to_nat (Z.of_nat j mod a)) with (j mod Z.to_nat a)%nat.
    2: { rewrite <- (Nat2Z.id (j mod Z.to_nat a)), Nat2Z.inj_mod, Z2Nat.id by lia. done. }
    done.
Qed.

(** The laws an indexing policy of a container obeys. *)
Class IndexingLaws (I K : Type) `{!Indexing I K} := {
  ix_policy_with : forall ip i, ix_policy (ix_withPolicy ip i) = ip;
  ix_with_with : forall a b i, ix_withPolicy a (ix_withPolicy b i) = ix_withPolicy a i;
  ix_with_id : forall i, ix_withPolicy (ix_policy i) i = i;
  (** a well-shaped policy selects one of its sets *)
  ix_possible_set : forall i (key : K), shaped (ix_policy i) ->
    exists s row, sets (ix_policy i) !! s = Some row /\
      ix_getPossibleEntries i key = Ok row
}.

Section Init.
Context {K I E P R : Type}.
Context `{!Indexing I K} `{!IndexingLaws I K}.
Context `{!CacheEntryOps K E} `{!ReplacementPolicy P R}.

Lemma initLoop_ok n k (i : I) pos :
  shaped (ix_policy i) ->
  Z.of_nat (k + n) <= numSets (ix_policy i) * ip_assoc (ix_policy i) ->
  Z.of_nat (k + n) < 2 ^ 32 ->
  placed (ix_policy i) k ->
  exists ip' pos', AC.initLoop (K:=K) n k i pos = Ok (ix_withPolicy ip' i, pos') /\
    shaped ip' /\ same_params (ix_policy i) ip' /\ placed ip' (k + n).
Proof.
  revert k i pos. induction n as [|n IH]; intros k i pos Hs Hb H32 Hpl; cbn.
  - exists (ix_policy i), pos. rewrite ix_with_id, Nat.add_0_r. done.
  - destruct (setEntry_ok (ix_policy i) k k Hs) as (ip1 & p1 & -> & Hs1 & Hsp & Hslot);
      [lia|lia|].
    destruct Hsp as (Ea & En & Esh & Em & Et).
    destruct (IH (S k) (ix_withPolicy ip1 i) (pos ++ [p1])) as (ip2 & pos2 & -> & Hs2 & Hsp2 & Hpl2).
    + by rewrite ix_policy_with.
    + rewrite ix_policy_with, Ea, En. lia.
    + lia.
    + rewrite ix_policy_with. intros j Hj. rewrite Ea, Hslot.
      destruct (decide (j = k)) as [->|]; [by rewrite decide_True|].
      case_decide as Hjk; [|apply Hpl; lia]. exfalso.
      pose proof (Nat.div_mod_eq j (Z.to_nat (ip_assoc (ix_policy i)))).
      pose proof (Nat.div_mod_eq k (Z.to_nat (ip_assoc (ix_policy i)))).
      destruct Hjk as [Hq Hr]. rewrite Hq, Hr in *. lia.
    + exists ip2, pos2. rewrite ix_with_with. split; [done|]. split; [done|].
      rewrite ix_policy_with in Hsp2. split.
      * destruct Hsp2 as (?&?&?&?&?). repeat split; congruence.
      * by rewrite Nat.add_succ_r.
Qed.

Lemma placed_row ip s row :
  shaped ip -> placed ip (Z.to_nat (numSets ip * ip_assoc ip)) ->
  sets ip !! s = Some row ->
  row = (fun w => Some (s * Z.to_nat (ip_assoc ip) + w)%nat) <$> seq 0 (Z.to_nat (ip_assoc ip)).
Proof.
  intros Hs0 Hpl Hrow. pose proof (numSets_pos ip Hs0) as Hpos.
  destruct Hs0 as [Hp Hm Ha Hl Hr].
  assert (Hrl : length row = Z.to_nat (ip_assoc ip)).
  { eapply (proj1 (list.Forall_forall _ _) Hr). by eapply list_elem_of_lookup_2. }
  assert (Hs : (s < Z.to_nat (numSets ip))%nat).
  { rewrite <- Hl. by eapply lookup_lt_Some. }
  set (a := Z.to_nat (ip_assoc ip)) in *.
  apply list_eq. intros w. rewrite list_lookup_fmap.
  destruct (decide (w < a)%nat) as [Hw|Hw].
  - rewrite lookup_seq_lt by done. cbn.
    assert (Hj : (s * a + w < Z.to_nat (numSets ip * ip_assoc ip))%nat).
    { rewrite Z2Nat.inj_mul by lia. fold a. nia. }
    specialize (Hpl _ Hj). unfold slot in Hpl. fold a in Hpl.
    rewrite Nat.add_comm, Nat.div_add, Nat.div_small, Nat.add_0_l in Hpl by lia.
    rewrite Hrow in Hpl. rewrite Nat.Div0.mod_add, Nat.mod_small in Hpl by lia.
    rewrite Hpl. do 2 f_equal. lia.
  - rewrite lookup_seq_ge, lookup_ge_None_2 by lia. done.
Qed.

(** A container built on a policy with [num_entries = numSets * assoc] is
    well formed, and all its entries are the initial value. *)
Lemma cache_make_wf num_entries assoc (p : P) (i : I) (init_val : E) c :
  shaped (ix_policy i) ->
  num_entries = numSets (ix_policy i) * ip_assoc (ix_policy i) ->
  num_entries < 2 ^ 32 ->
  AC.make (K:=K) num_entries assoc p i init_val = Ok c ->
  AC.wf (K:=K) c /\ entries c = replicate (Z.to_nat num_entries) init_val.
Proof.
  intros Hs Hn H32. unfold AC.make.
  destruct (assoc =? 0); [done|]. destruct (negb _); [done|].
  assert (0 <= num_entries).
  { pose proof (numSets_pos _ Hs). pose proof (sh_assoc _ Hs). nia. }
  destruct (initLoop_ok (Z.to_nat num_entries) 0 i []) as (ip & pos & -> & Hs' & Hsp & Hpl);
    [done|lia|lia| |].
  { intros j Hj. lia. }
  intros [= <-]. cbn. split; [|done]. split; cbn.
  - by rewrite !length_replicate.
  - intros key. destruct (ix_possible_set (ix_withPolicy ip i) key) as (s & row & Hrow & Hget).
    { by rewrite ix_policy_with. }
    rewrite ix_policy_with in Hrow.
    destruct Hsp as (Ea & En & _).
    rewrite Nat.add_0_l, Hn, <- Ea, <- En in Hpl.
    pose proof (placed_row ip s row Hs' Hpl Hrow) as Erow.
    exists ((fun w => (s * Z.to_nat (ip_assoc ip) + w)%nat) <$> seq 0 (Z.to_nat (ip_assoc ip))).
    rewrite Hget, Erow, <- list_fmap_compose. split; [done|].
    pose proof (sh_assoc _ Hs') as Ha. split.
    + intros Hnil. apply (f_equal length) in Hnil.
      rewrite length_fmap, length_seq in Hnil. cbn in Hnil. lia.
    + rewrite length_replicate. apply Forall_fmap, list.Forall_forall.
      intros w Hw. apply elem_of_seq in Hw. cbn.
      assert (Hsl : (s < Z.to_nat (numSets ip))%nat).
      { rewrite <- (sh_len _ Hs'). by eapply lookup_lt_Some. }
      pose proof (numSets_pos _ Hs').
      rewrite Hn, <- Ea, <- En, Z2Nat.inj_mul by lia.
      nia.
Qed.
End Init.
End Geometry.
