(* ===== verification/BtbEntry.v ===== *)
(** * BTB entries and their indexing

    [cpu/pred/btb_entry.hh]: the key, [BTBSetAssociative], [BTBEntry]; and the
    tagged entries of [mem/cache/tags/tagged_entry.hh] that the Markov table
    stores.  Both kinds of entry discharge the [CacheEntryOps] contract of the
    container, both indexing policies discharge [Indexing]. *)

From Stdlib Require Import ZArith Lia.
From stdpp Require Import base list numbers.
From S2P Require Import Prelude Types SatCounter ReplPolicy AssocCache AssocCacheInit.

(** ** BTBTagType::KeyType *)
Record BTBKey := mkKey { key_address : Addr; key_tid : ThreadID }.

#[export] Instance BTBKey_eq_dec : EqDecision BTBKey.
Proof. solve_decision. Defined.

(** ** BTBSetAssociative *)
Record BTBSetAssociative := mkBTBSA {
  bsa_policy : IndexingPolicy;
  tagMask : Z;
  log2NumThreads : Z
}.

Module BSA.
Definition make (assoc num_entries set_shift tag_bits num_threads : Z)
  : Res BTBSetAssociative :=
  match Index.make assoc num_entries set_shift with
  | Err e => Err e
  | Ok ip =>
      match log2i num_threads with
      | Err e => Err e
      | Ok l => Ok (mkBTBSA ip (mask tag_bits) l)
      end
  end.

(** The set index, truncated to [uint32_t]; [tagShift - setShift -
    log2NumThreads] is unsigned. *)
Definition extractSet (b : BTBSetAssociative) (key : BTBKey) : Z :=
  let ip := bsa_policy b in
  u32 (Z.land
    (Z.lxor (Z.shiftr (key_address key) (setShift ip))
       (u64 (Z.shiftl (key_tid key)
          (u32 (tagShift ip - setShift ip - log2NumThreads b)))))
    (setMask ip)).

Definition getPossibleEntries (b : BTBSetAssociative) (key : BTBKey)
  : Res (list (option nat)) :=
  let set_idx := extractSet b key in
  if Z.of_nat (length (sets (bsa_policy b))) <=? set_idx then Err AssertFail else
  match sets (bsa_policy b) !! Z.to_nat set_idx with
  | Some row => Ok row
  | None => Err OutOfRange
  end.

Definition extractTag (b : BTBSetAssociative) (addr : Addr) : Addr :=
  Z.land (Z.shiftr addr (tagShift (bsa_policy b))) (tagMask b).

Definition regenerateAddr (b : BTBSetAssociative) (key : BTBKey) : Res Addr := Err Panic.
End BSA.

#[export] Instance BSA_indexing : Indexing BTBSetAssociative BTBKey := {|
  ix_policy := bsa_policy;
  ix_withPolicy := fun ip b => mkBTBSA ip (tagMask b) (log2NumThreads b);
  ix_getPossibleEntries := BSA.getPossibleEntries;
  ix_extractTag := BSA.extractTag
|}.

(** ** BTBEntry *)
Record BTBEntry := mkBTBEntry {
  target : option PCStateBase;
  inst : option StaticInst;
  valid : bool;
  tag : BTBKey;
  branchAddr : Addr;
  prefetched : bool;
  takenPrefetched : bool;
  triggeredByPBHit : bool;
  prefetchedFromL3 : bool;
  timestamp : Cycles;
  prefetchDistance : Z;
  predTaken : bool;
  fromPBuffer : bool;
  markovPredType : Z;
  prefetchThrough : bool;
  prefetchTarget : bool;
  toL1 : bool;
  prefetchTriggerType : BranchType;
  dir : SatCounter
}.

#[export] Instance eta_BTBEntry : Settable BTBEntry := fun e =>
  mkBTBEntry (target e) (inst e) (valid e) (tag e) (branchAddr e) (prefetched e)
    (takenPrefetched e) (triggeredByPBHit e) (prefetchedFromL3 e) (timestamp e)
    (prefetchDistance e) (predTaken e) (fromPBuffer e) (markovPredType e)
    (prefetchThrough e) (prefetchTarget e) (toL1 e) (prefetchTriggerType e) (dir e).

Module Entry.

(** [SatCounter8 dir(2, 1)]: two bits, weakly not taken. *)
Definition initDir : SatCounter := mkSat 8 1 3 1.

(** The tag [{MaxAddr, -1}] of an invalid entry. *)
Definition noTag : BTBKey := mkKey MaxAddr (-1).

(** The constructor [BTBEntry(TagExtractor)]. *)
Definition init : BTBEntry := {|
  target := None; inst := None; valid := false; tag := noTag; branchAddr := 0;
  prefetched := false; takenPrefetched := false; triggeredByPBHit := false;
  prefetchedFromL3 := false; timestamp := 0; prefetchDistance := 0;
  predTaken := false; fromPBuffer := false; markovPredType := -1;
  prefetchThrough := false; prefetchTarget := false; toL1 := false;
  prefetchTriggerType := NoBranch; dir := initDir |}.

(** [update(const PCStateBase &, StaticInstPtr)] *)
Definition update (_target : PCStateBase) (_inst : option StaticInst) (e : BTBEntry)
  : BTBEntry :=
  e <| target := PCS.set (target e) (Some _target) |> <| inst := _inst |>.

(** [update(const BTBEntry &other)] *)
Definition updateFrom (other e : BTBEntry) : BTBEntry :=
  e <| inst := inst other |>
    <| branchAddr := branchAddr other |>
    <| target := PCS.set (target e) (target other) |>
    <| prefetchThrough := prefetchThrough e || prefetchThrough other |>
    <| prefetchTarget := prefetchTarget other |>
    <| dir := Sat.assign (dir e) (dir other) |>.

Definition isValid (e : BTBEntry) : bool := valid e.

Definition matches (extractTag : Addr -> Addr) (key : BTBKey) (e : BTBEntry) : bool :=
  isValid e && (key_address (tag e) =? extractTag (key_address key))
    && (key_tid (tag e) =? key_tid key).

(** [setValid] asserts that the entry is invalid. *)
Definition insert (extractTag : Addr -> Addr) (key : BTBKey) (e : BTBEntry) : Res BTBEntry :=
  if isValid e then Err AssertFail else
  Ok (e <| valid := true |>
        <| tag := mkKey (extractTag (key_address key)) (key_tid key) |>
        <| branchAddr := key_address key |>
        <| prefetched := false |>
        <| takenPrefetched := false |>
        <| triggeredByPBHit := false |>
        <| prefetchedFromL3 := false |>
        <| timestamp := 0 |>
        <| prefetchDistance := 0 |>
        <| predTaken := false |>
        <| fromPBuffer := false |>
        <| markovPredType := -1 |>
        <| prefetchThrough := false |>
        <| prefetchTarget := false |>
        <| toL1 := false |>
        <| prefetchTriggerType := NoBranch |>
        <| dir ::= Sat.reset |>).

(** The copy constructor does not initialise [prefetchedFromL3]: its value in
    the copy is the argument [garbage]. *)
Definition copy (garbage : bool) (other : BTBEntry) : BTBEntry := {|
  target := PCS.set None (target other); inst := inst other; valid := valid other;
  tag := tag other; branchAddr := branchAddr other; prefetched := prefetched other;
  takenPrefetched := takenPrefetched other; triggeredByPBHit := triggeredByPBHit other;
  prefetchedFromL3 := garbage; timestamp := timestamp other;
  prefetchDistance := prefetchDistance other; predTaken := predTaken other;
  fromPBuffer := fromPBuffer other; markovPredType := markovPredType other;
  prefetchThrough := prefetchThrough other; prefetchTarget := prefetchTarget other;
  toL1 := toL1 other; prefetchTriggerType := prefetchTriggerType other;
  dir := dir other |}.

(** [operator=] keeps the [prefetchedFromL3] of the left-hand side. *)
Definition assign (this other : BTBEntry) : BTBEntry := {|
  target := PCS.set (target this) (target other); inst := inst other; valid := valid other;
  tag := tag other; branchAddr := branchAddr other; prefetched := prefetched other;
  takenPrefetched := takenPrefetched other; triggeredByPBHit := triggeredByPBHit other;
  prefetchedFromL3 := prefetchedFromL3 this; timestamp := timestamp other;
  prefetchDistance := prefetchDistance other; predTaken := predTaken other;
  fromPBuffer := fromPBuffer other; markovPredType := markovPredType other;
  prefetchThrough := prefetchThrough other; prefetchTarget := prefetchTarget other;
  toL1 := toL1 other; prefetchTriggerType := prefetchTriggerType other;
  dir := Sat.assign (dir this) (dir other) |}.

Definition copyState (other e : BTBEntry) : BTBEntry :=
  e <| prefetched := prefetched other |>
    <| takenPrefetched := takenPrefetched other |>
    <| triggeredByPBHit := triggeredByPBHit other |>
    <| timestamp := timestamp other |>
    <| prefetchDistance := prefetchDistance other |>
    <| predTaken := predTaken other |>
    <| fromPBuffer := fromPBuffer other |>
    <| markovPredType := markovPredType other |>
    <| prefetchThrough := prefetchThrough other |>
    <| prefetchTarget := prefetchTarget other |>
    <| toL1 := toL1 other |>
    <| prefetchTriggerType := prefetchTriggerType other |>
    <| dir := Sat.assign (dir e) (dir other) |>.

Definition invalidate (e : BTBEntry) : BTBEntry :=
  e <| valid := false |> <| tag := noTag |>.

(** [getDir]: the counter reads as taken above 1. *)
Definition getDir (e : BTBEntry) : bool := 1 <? counter (dir e).

Definition updateDir (taken : bool) (e : BTBEntry) : BTBEntry :=
  e <| dir ::= fun d => Sat.addAssign d (if taken then 1 else -1) |>.

Definition copyDir (other e : BTBEntry) : BTBEntry :=
  e <| dir := Sat.assign (dir e) (dir other) |>.

End Entry.

#[export] Instance BTBEntry_ops : CacheEntryOps BTBKey BTBEntry := {|
  ce_isValid := Entry.isValid;
  ce_match := Entry.matches;
  ce_insert := Entry.insert;
  ce_invalidate := Entry.invalidate
|}.

Abbreviation BTBCache := (Cache BTBSetAssociative BTBEntry BasePolicy Tick).

(** ** TaggedTypes::KeyType, TaggedSetAssociative, TaggedEntry *)
Record TaggedKey := mkTKey { tkey_address : Addr; tkey_secure : bool }.

Module TSA.
Definition make (assoc size entry_size : Z) : Res IndexingPolicy :=
  if entry_size =? 0 then Err DivByZero else
  match floorLog2 8 entry_size with
  | Err e => Err e
  | Ok l => Index.make assoc (u32 (size / entry_size)) (u32 l)
  end.

Definition extractSet (ip : IndexingPolicy) (key : TaggedKey) : Z :=
  u32 (Z.land (Z.shiftr (tkey_address key) (setShift ip)) (setMask ip)).

Definition getPossibleEntries (ip : IndexingPolicy) (key : TaggedKey)
  : Res (list (option nat)) :=
  match sets ip !! Z.to_nat (extractSet ip key) with
  | Some row => Ok row
  | None => Err OutOfRange
  end.

(** [regenerateAddr]: [set] is [entry->getSet()]. *)
Definition regenerateAddr (ip : IndexingPolicy) (tag set : Z) : Addr :=
  Z.lor (u64 (Z.shiftl tag (tagShift ip))) (u32 (Z.shiftl set (setShift ip))).
End TSA.

#[export] Instance TSA_indexing : Indexing IndexingPolicy TaggedKey := {|
  ix_policy := id;
  ix_withPolicy := fun ip _ => ip;
  ix_getPossibleEntries := TSA.getPossibleEntries;
  ix_extractTag := Index.extractTag
|}.

Record TaggedEntry := mkTagged { t_valid : bool; t_secure : bool; t_tag : Addr }.

#[export] Instance eta_TaggedEntry : Settable TaggedEntry := fun e =>
  mkTagged (t_valid e) (t_secure e) (t_tag e).

Module Tagged.
Definition init : TaggedEntry := mkTagged false false MaxAddr.
Definition isValid (e : TaggedEntry) : bool := t_valid e.
Definition matches (extractTag : Addr -> Addr) (key : TaggedKey) (e : TaggedEntry) : bool :=
  isValid e && (t_tag e =? extractTag (tkey_address key))
    && Bool.eqb (t_secure e) (tkey_secure key).
Definition insert (extractTag : Addr -> Addr) (key : TaggedKey) (e : TaggedEntry)
  : Res TaggedEntry :=
  if isValid e then Err AssertFail else
  let e := e <| t_valid := true |> in
  let e := e <| t_tag := extractTag (tkey_address key) |> in
  Ok (if tkey_secure key then e <| t_secure := true |> else e).
Definition invalidate (e : TaggedEntry) : TaggedEntry :=
  e <| t_valid := false |> <| t_tag := MaxAddr |> <| t_secure := false |>.
End Tagged.

(** ** Facts *)

#[export] Instance BTBEntry_laws : CacheEntryLaws BTBKey BTBEntry.
Proof.
  split.
  - intros ext k e. cbn. unfold Entry.matches. intros H.
    apply andb_prop in H as [H _]. by apply andb_prop in H as [H _].
  - done.
  - intros ext k e H. cbn in *. unfold Entry.insert, Entry.isValid in *. rewrite H.
    eexists. split; [done|]. split; [done|].
    unfold Entry.matches; cbn. by rewrite !Z.eqb_refl.
Qed.

#[export] Instance BSA_laws : Geometry.IndexingLaws BTBSetAssociative BTBKey.
Proof.
  split; [done|done|by intros []|].
  intros b key Hs. cbn in *.
  pose proof (Geometry.numSets_pos _ Hs) as Hpos.
  destruct Hs as [(k & Hk & Hn) Hm Ha Hl Hr].
  set (x := Z.lxor (Z.shiftr (key_address key) (setShift (bsa_policy b)))
       (u64 (Z.shiftl (key_tid key)
          (u32 (tagShift (bsa_policy b) - setShift (bsa_policy b) - log2NumThreads b))))).
  assert (Hb : 0 <= BSA.extractSet b key < numSets (bsa_policy b)).
  { unfold BSA.extractSet. fold x. rewrite Hm, Hn.
    pose proof (land_mask_bound x k ltac:(lia)).
    rewrite u32_small; lia. }
  unfold BSA.getPossibleEntries.
  destruct (Z.leb_spec (Z.of_nat (length (sets (bsa_policy b)))) (BSA.extractSet b key)); [lia|].
  destruct (lookup_lt_is_Some_2 (sets (bsa_policy b)) (Z.to_nat (BSA.extractSet b key)))
    as [row Hrow]; [lia|].
  exists (Z.to_nat (BSA.extractSet b key)), row. by rewrite Hrow.
Qed.

#[export] Instance TSA_laws : Geometry.IndexingLaws IndexingPolicy TaggedKey.
Proof.
  split; [done|done|done|].
  intros ip key Hs. cbn in *.
  pose proof (Geometry.numSets_pos _ Hs) as Hpos.
  destruct Hs as [(k & Hk & Hn) Hm Ha Hl Hr].
  assert (Hb : 0 <= TSA.extractSet ip key < numSets ip).
  { unfold TSA.extractSet. rewrite Hm, Hn.
    pose proof (land_mask_bound (Z.shiftr (tkey_address key) (setShift ip)) k ltac:(lia)).
    rewrite u32_small; unfold id in *; lia. }
  unfold TSA.getPossibleEntries.
  destruct (lookup_lt_is_Some_2 (sets ip) (Z.to_nat (TSA.extractSet ip key)))
    as [row Hrow]; [unfold id in *; lia|].
  exists (Z.to_nat (TSA.extractSet ip key)), row. by rewrite Hrow.
Qed.

(** Matching looks at the valid bit and the tag only. *)
Lemma matches_ext ext key e e' :
  valid e' = valid e -> tag e' = tag e ->
  Entry.matches ext key e' = Entry.matches ext key e.
Proof. intros Hv Ht. unfold Entry.matches, Entry.isValid. by rewrite Hv, Ht. Qed.

Lemma matches_valid ext key e : Entry.matches ext key e = true -> valid e = true.
Proof. unfold Entry.matches, Entry.isValid. by destruct (valid e). Qed.

Lemma matches_insert ext key key' e e' :
  Entry.insert ext key e = Ok e' ->
  Entry.matches ext key' e' =
    (ext (key_address key) =? ext (key_address key')) && (key_tid key =? key_tid key').
Proof.
  unfold Entry.insert, Entry.isValid. destruct (valid e) eqn:E; [done|]. by intros [= <-].
Qed.

Lemma matches_invalidate ext key e : Entry.matches ext key (Entry.invalidate e) = false.
Proof. done. Qed.

(** The direction counter keeps its two bits through every update. *)
Lemma updateDir_wf taken e : Sat.wf (dir e) -> Sat.wf (dir (Entry.updateDir taken e)).
Proof. intros H. cbn. by apply Sat.addAssign_clamps. Qed.

(** [make] of a policy used with the same number of entries gives a
    well-formed BTB whose entries are all invalid. *)
Lemma BTB_make_wf assoc num_entries shift tag_bits threads b cassoc pol c :
  0 < assoc < 2 ^ 31 -> 0 <= num_entries < 2 ^ 32 ->
  num_entries mod assoc = 0 ->
  BSA.make assoc num_entries shift tag_bits threads = Ok b ->
  AC.make num_entries cassoc pol b Entry.init = Ok (c : BTBCache) ->
  AC.wf (K:=BTBKey) c /\ Forall (fun e => e = Entry.init) (entries c).
Proof.
  intros Ha Hn Hd Hb Hc. unfold BSA.make in Hb.
  destruct (Index.make assoc num_entries shift) as [ip|] eqn:Ei; [|done].
  destruct (log2i threads); [|done]. injection Hb as <-.
  destruct (Geometry.make_shaped _ _ _ _ Ha Hn Ei) as (Hs & E1 & E2 & _).
  destruct (Geometry.cache_make_wf num_entries cassoc pol (mkBTBSA ip (mask tag_bits) a) Entry.init c)
    as [Hwf He]; try done.
  - cbn. rewrite E1, E2, Z.mul_comm. apply Z_div_exact_full_2; [lia|done].
  - lia.
  - split; [done|]. rewrite He. by apply Forall_replicate.
Qed.

#[export] Hint Resolve updateDir_wf : ferret.
