(* ===== verification/Btb.v ===== *)
(** * The branch target buffer interface

    [cpu/pred/btb.hh] and [btb.cc]: the lookup result, the access levels and
    reasons, the base statistics, and the abstract class [BranchTargetBuffer]
    as a type class.  [SimpleBtb] and [MultiLevelBtb] are its instances,
    [BPredUnit] its client. *)

From Stdlib Require Import ZArith Lia.
From stdpp Require Import base list numbers.
From S2P Require Import Prelude Types BtbEntry.

(** [struct BTBLookupResult]; [target] is a pointer. *)
Record BTBLookupResult := mkLookup {
  res_target : option PCStateBase;
  res_latency : Cycles;
  res_l1Hit : bool;
  res_pBufferHit : bool;
  res_l2Hit : bool;
  res_l3Hit : bool;
  res_prefetchHit : bool;
  res_predMatch : bool;
  res_taken : bool;
  res_prefetchTriggerType : BranchType
}.

#[export] Instance BTBLookupResult_eq_dec : EqDecision BTBLookupResult.
Proof. solve_decision. Defined.

(** The default arguments of its constructor. *)
Definition lookupResult (t : option PCStateBase) (latency : Cycles) : BTBLookupResult :=
  mkLookup t latency false false false false false false false NoBranch.

Inductive BTBAccessLevel := L1 | L2 | L3.
Definition levelNum (l : BTBAccessLevel) : Z :=
  match l with L1 => 1 | L2 => 2 | L3 => 3 end.

Inductive BTBAccessReason :=
| NoReason | BTBMiss | NonEntry | PrefetchReason | NormalL2Hit | OverrideL1Miss.

#[export] Instance BTBAccessReason_eq_dec : EqDecision BTBAccessReason.
Proof. solve_decision. Defined.

(** [BranchTargetBufferStats], one constructor per counter; a vector counter
    carries its index.  A statistics object is the list of increments made, the
    latest first; the value of a counter is [stat_count]. *)
Inductive BaseStat :=
| BS_lookups (t : BranchType)
| BS_misses (t : BranchType)
| BS_updates (t : BranchType)
| BS_mispredict (t : BranchType)
| BS_evictions.

#[export] Instance BaseStat_eq_dec : EqDecision BaseStat.
Proof. solve_decision. Defined.

Fixpoint stat_count {A} (p : A -> bool) (log : list A) : Z :=
  match log with
  | [] => 0
  | x :: l => (if p x then 1 else 0) + stat_count p l
  end.

Lemma stat_count_nonneg {A} (p : A -> bool) log : 0 <= stat_count p log.
Proof. induction log as [|x l IH]; cbn; [done|]. destruct (p x); lia. Qed.

Lemma stat_count_app {A} (p : A -> bool) l1 l2 :
  stat_count p (l1 ++ l2) = stat_count p l1 + stat_count p l2.
Proof. induction l1 as [|x l IH]; cbn; [done|]. rewrite IH. lia. Qed.

(** The virtual interface, for a BTB whose state is [S]. *)
Class BranchTargetBuffer (S : Type) := {
  btb_memInvalidate : M S unit;
  btb_valid : ThreadID -> Addr -> M S bool;
  btb_lookup : ThreadID -> Addr -> BranchType -> M S (option PCStateBase);
  btb_lookupWithLatency :
    ThreadID -> Addr -> BranchType -> bool -> Addr -> bool -> M S BTBLookupResult;
  btb_getInst : ThreadID -> Addr -> M S (option StaticInst);
  btb_update :
    ThreadID -> Addr -> PCStateBase -> BranchType -> option StaticInst -> M S unit;
  btb_incorrectTarget : Addr -> BranchType -> M S unit;
  btb_updateDirection : ThreadID -> Addr -> bool -> M S unit;
  btb_lookupL1 : ThreadID -> Addr -> M S Addr;
  btb_recordBTBAccess : BTBAccessLevel -> BTBAccessReason -> M S unit
}.
