(* ===== verification/SimpleBtb.v ===== *)
(** * SimpleBTB

    [cpu/pred/simple_btb.cc]: one set-associative BTB.  [update] always takes a
    victim, also when the branch is already present; the theorems say what
    that means for later lookups. *)

From Stdlib Require Import ZArith Lia.
From stdpp Require Import base list numbers.
From S2P Require Import Prelude Types SatCounter ReplPolicy AssocCache AssocCacheInit BtbEntry Btb.

Record SimpleBTB := mkSimpleBTB {
  btb : BTBCache;
  latency : Cycles;
  sb_stats : list BaseStat;
  sb_curTick : Tick
}.

#[export] Instance eta_SimpleBTB : Settable SimpleBTB := fun s =>
  mkSimpleBTB (btb s) (latency s) (sb_stats s) (sb_curTick s).

(** [SimpleBTBParams]; the replacement policy object is given. *)
Record SimpleBTBParams := mkSimpleBTBParams {
  sp_numEntries : Z;
  sp_associativity : Z;
  sp_tagBits : Z;
  sp_instShiftAmt : Z;
  sp_replPolicy : BasePolicy;
  sp_latency : Cycles
}.

Module Simple.

Definition make (p : SimpleBTBParams) : Res SimpleBTB :=
  match BSA.make (sp_associativity p) (sp_numEntries p) (sp_instShiftAmt p) (sp_tagBits p) 1 with
  | Err e => Err e
  | Ok ip =>
      match AC.make (sp_numEntries p) (sp_associativity p) (sp_replPolicy p) ip Entry.init with
      | Err e => Err e
      | Ok c => if negb (isPowerOf2 (sp_numEntries p)) then Err Fatal
                else Ok (mkSimpleBTB c (sp_latency p) [] 0)
      end
  end.

Definition stat (x : BaseStat) : M SimpleBTB unit :=
  modify (fun s => s <| sb_stats ::= cons x |>).

Definition memInvalidate : M SimpleBTB unit := zoom btb AC.clear.

Definition findEntry (instPC : Addr) (tid : ThreadID) : M SimpleBTB (option nat) :=
  zoom btb (AC.findEntry (mkKey instPC tid)).

Definition isSome {A} (o : option A) : bool :=
  match o with Some _ => true | None => false end.

Definition valid (tid : ThreadID) (instPC : Addr) : M SimpleBTB bool :=
  entry ← zoom btb (AC.findEntry (mkKey instPC tid));
  mret (isSome entry).

Definition lookup (tid : ThreadID) (instPC : Addr) (type : BranchType)
  : M SimpleBTB (option PCStateBase) :=
  stat (BS_lookups type) ;;
  now ← gets sb_curTick;
  entry ← zoom btb (AC.accessEntryByKey now (mkKey instPC tid));
  match entry with
  | Some i => e ← zoom btb (AC.readEntry i); mret (target e)
  | None => stat (BS_misses type) ;; mret None
  end.

Definition lookupWithLatency (tid : ThreadID) (instPC : Addr) (type : BranchType)
    (taken : bool) (blockStartAddr : Addr) (basePrediction : bool)
  : M SimpleBTB BTBLookupResult :=
  t ← lookup tid instPC type;
  l ← gets latency;
  mret (lookupResult t l).

Definition lookupL1 (tid : ThreadID) (inst_pc : Addr) : M SimpleBTB Addr :=
  entry ← zoom btb (AC.findEntry (mkKey inst_pc tid));
  match entry with
  | Some i => e ← zoom btb (AC.readEntry i); t ← deref (target e); mret (instAddr t)
  | None => mret MaxAddr
  end.

Definition getInst (tid : ThreadID) (instPC : Addr) : M SimpleBTB (option StaticInst) :=
  entry ← zoom btb (AC.findEntry (mkKey instPC tid));
  match entry with
  | Some i => e ← zoom btb (AC.readEntry i); mret (inst e)
  | None => mret None
  end.

Definition update (tid : ThreadID) (instPC : Addr) (tgt : PCStateBase)
    (type : BranchType) (i : option StaticInst) : M SimpleBTB unit :=
  stat (BS_updates type) ;;
  victim ← zoom btb (AC.findVictim (mkKey instPC tid) true);
  now ← gets sb_curTick;
  zoom btb (AC.insertEntry now (mkKey instPC tid) victim) ;;
  zoom btb (AC.modifyEntry victim (Entry.update tgt i)).

Definition incorrectTarget (inst_pc : Addr) (type : BranchType) : M SimpleBTB unit :=
  stat (BS_mispredict type).

(** ** Invariant: the container is well formed and valid entries have a
    target *)
Definition hasTarget (e : BTBEntry) : Prop :=
  BtbEntry.valid e = true -> is_Some (target e).

Definition inv (s : SimpleBTB) : Prop :=
  AC.wf (K:=BTBKey) (btb s) /\ Forall hasTarget (entries (btb s)).

Lemma simple_make_inv p s :
  0 < sp_associativity p < 2 ^ 31 -> 0 <= sp_numEntries p < 2 ^ 32 ->
  sp_numEntries p mod sp_associativity p = 0 -> make p = Ok s -> inv s.
Proof.
  intros Ha Hn Hd. unfold make.
  destruct (BSA.make _ _ _ _ _) as [ip|] eqn:Ei; [|done].
  destruct (AC.make _ _ _ _ _) as [c|] eqn:Ec; [|done].
  destruct (negb _); [done|]. intros [= <-].
  destruct (BTB_make_wf _ _ _ _ _ _ _ _ _ Ha Hn Hd Ei Ec) as [Hwf He].
  split; [done|]. cbn. eapply Forall_impl; [|exact He]. by intros e ->.
Qed.

Lemma hasTarget_at s i e :
  inv s -> entries (btb s) !! i = Some e -> hasTarget e.
Proof.
  intros [_ H] He. eapply (proj1 (list.Forall_forall _ _) H).
  by eapply list_elem_of_lookup_2.
Qed.

(** [valid] and [lookup] answer from the entry stored under the key. *)
Lemma wp_sb_lookup s tid pc type (Q : option PCStateBase -> SimpleBTB -> Prop) :
  inv s ->
  (forall s', inv s' -> entries (btb s') = entries (btb s) ->
     indexingPolicy (btb s') = indexingPolicy (btb s) ->
     Q (match AC.get (btb s) (mkKey pc tid) with Some e => target e | None => None end) s') ->
  wp (lookup tid pc type) Q s.
Proof.
  intros [Hwf Ht] HQ. unfold lookup, stat. wp_steps. cbn.
  apply AC.wp_accessEntryByKey; [done|]. intros c' Hs He. cbn.
  assert (Hinv' : inv (s <| sb_stats ::= cons (BS_lookups type) |> <| btb := c' |>)).
  { split; cbn; [by eapply AC.wf_shape | by rewrite He]. }
  unfold AC.get in HQ. destruct (AC.find (btb s) (mkKey pc tid)) as [i|] eqn:Ef.
  - destruct (AC.find_Some _ _ _ Ef) as (_ & e & Hi & _). wp_steps.
    eapply AC.wp_readEntry; [cbn; by rewrite He, Hi|]. wp_steps.
    rewrite Hi in HQ. apply HQ; [done|done|]. cbn. apply Hs.
  - wp_steps. apply HQ; [done|done|]. cbn. apply Hs.
Qed.

(** [update] writes the new target into a way of the set of the branch. *)
Lemma wp_sb_update s tid pc tgt type i (Q : unit -> SimpleBTB -> Prop) :
  inv s ->
  (forall s' v e, inv s' -> v ∈ AC.candidates (indexingPolicy (btb s)) (mkKey pc tid) ->
     is_Some (entries (btb s) !! v) ->
     indexingPolicy (btb s') = indexingPolicy (btb s) ->
     entries (btb s') = <[v := e]> (entries (btb s)) ->
     target e = Some tgt -> inst e = i -> BtbEntry.valid e = true ->
     Entry.matches (AC.extractTag (K:=BTBKey) (btb s)) (mkKey pc tid) e = true ->
     Q tt s') ->
  wp (update tid pc tgt type i) Q s.
Proof.
  intros [Hwf Ht] HQ. unfold update, stat. wp_steps. cbn.
  apply AC.wp_findVictim; [done|]. intros v e0 c1 Hv He0 Hs1 He1. wp_steps. cbn.
  assert (Hwf1 : AC.wf (K:=BTBKey) c1) by (by eapply AC.wf_shape).
  assert (Hv1 : entries c1 !! v = Some (Entry.invalidate e0)).
  { rewrite He1. apply list_lookup_insert_eq. by eapply lookup_lt_Some. }
  destruct (ce_insert_ok (AC.extractTag (K:=BTBKey) c1) (mkKey pc tid) (Entry.invalidate e0))
    as (e1 & Hins & Hval & Hm); [done|].
  eapply AC.wp_insertEntry; [done|exact Hv1|exact Hins|]. intros c2 Hs2 He2. wp_steps. cbn.
  assert (Hwf2 : AC.wf (K:=BTBKey) c2) by (by eapply AC.wf_shape).
  assert (Hv2 : entries c2 !! v = Some e1).
  { rewrite He2. apply list_lookup_insert_eq. by eapply lookup_lt_Some. }
  eapply AC.wp_modifyEntry; [exact Hv2|]. cbn.
  destruct Hs1 as (Hi1 & _), Hs2 as (Hi2 & _).
  assert (Htgt : target (Entry.update tgt i e1) = Some tgt).
  { cbn. unfold PCS.set. destruct (target e1); [by destruct tgt|done]. }
  eapply HQ; [|exact Hv|by rewrite He0| | |exact Htgt|done|exact Hval|]; cbn.
  - split; cbn.
    + eapply AC.wf_shape; [exact Hwf2|]. apply AC.same_shape_insert.
    + rewrite He2, He1, !list_insert_insert_eq. apply Forall_insert; [done|].
      intros _. rewrite Htgt. done.
  - congruence.
  - by rewrite He2, He1, !list_insert_insert_eq.
  - unfold AC.extractTag in *. rewrite <- Hi1.
    rewrite <- Hm. by apply matches_ext.
Qed.

(** After [update] the branch is found in the way that was written, unless an
    older copy sits in another way of the set. *)
Lemma find_after_update (c c' : BTBCache) key v e :
  indexingPolicy c' = indexingPolicy c ->
  entries c' = <[v := e]> (entries c) ->
  v ∈ AC.candidates (indexingPolicy c) key -> is_Some (entries c !! v) ->
  Entry.matches (AC.extractTag (K:=BTBKey) c) key e = true ->
  AC.get c key = None \/ AC.candidates (indexingPolicy c) key = [v] ->
  AC.get c' key = Some e.
Proof.
  intros Hi He Hv Hs Hm Hcase. apply AC.get_Some. exists v.
  assert (Hlook : entries c' !! v = Some e).
  { rewrite He. apply list_lookup_insert_eq. by apply lookup_lt_is_Some_1. }
  split; [|done]. unfold AC.find. rewrite He, Hi.
  unfold AC.extractTag in *. rewrite Hi.
  destruct Hcase as [Hn|Hone].
  - apply AC.find_None_get in Hn. apply AC.find_in_insert; [by left|done|done|done].
  - rewrite Hone. cbn [AC.find_in]. rewrite <- He, Hlook. cbn in *. by rewrite Hm.
Qed.

(** The hit predicate of [valid]. *)
Definition present (s : SimpleBTB) (tid : ThreadID) (pc : Addr) : Prop :=
  is_Some (AC.get (btb s) (mkKey pc tid)).

End Simple.

(** Install then predict: after [SimpleBTB::update(tid, pc, t)] the next
    [SimpleBTB::lookup(tid, pc)] returns [t], provided the branch was not in
    the BTB or its set has a single way (the default, direct-mapped
    configuration).  Both calls return without a fault. *)
Theorem simple_update_lookup (s : SimpleBTB) tid pc tgt type ty' i :
  Simple.inv s ->
  AC.get (btb s) (mkKey pc tid) = None \/
    length (AC.candidates (indexingPolicy (btb s)) (mkKey pc tid)) = 1%nat ->
  wp (Simple.update tid pc tgt type i ;; Simple.lookup tid pc ty')
     (fun r s' => r = Some tgt /\ Simple.inv s') s.
Proof.
  intros Hinv Hcase. apply wp_bind, Simple.wp_sb_update; [done|].
  intros s' v e Hinv' Hv Hs Hi He Ht _ _ Hm.
  assert (Hget : AC.get (btb s') (mkKey pc tid) = Some e).
  { eapply Simple.find_after_update; try done.
    destruct Hcase as [?|Hlen]; [by left|right].
    destruct (AC.candidates _ _) as [|w [|]]; try done.
    apply list_elem_of_singleton in Hv. by subst. }
  apply Simple.wp_sb_lookup; [done|]. intros s'' Hinv'' _ _. rewrite Hget. done.
Qed.

(** The virtual functions that [SimpleBTB] inherits do nothing. *)
#[export] Instance SimpleBTB_btb : BranchTargetBuffer SimpleBTB := {|
  btb_memInvalidate := Simple.memInvalidate;
  btb_valid := Simple.valid;
  btb_lookup := Simple.lookup;
  btb_lookupWithLatency := Simple.lookupWithLatency;
  btb_getInst := Simple.getInst;
  btb_update := Simple.update;
  btb_incorrectTarget := Simple.incorrectTarget;
  btb_updateDirection := fun _ _ _ => mret tt;
  btb_lookupL1 := Simple.lookupL1;
  btb_recordBTBAccess := fun _ _ => mret tt
|}.

Definition demoParams (assoc : Z) : SimpleBTBParams :=
  mkSimpleBTBParams 16 assoc 16 2 PolicyLRU 1.
Definition demoSimple (assoc : Z) : Res SimpleBTB := Simple.make (demoParams assoc).

(** The simulated time reaches [t]. *)
Definition setTick (t : Tick) : M SimpleBTB unit := modify (fun s => s <| sb_curTick := t |>).

Lemma simple_update_lookup_witness :
  exists s, demoSimple 2 = Ok s /\
    wp (Simple.update 0 0x400 (mkPC 0x800 0) DirectUncond None ;; Simple.lookup 0 0x400 DirectUncond)
       (fun r s' => r = Some (mkPC 0x800 0) /\ Simple.inv s') s.
Proof.
  eexists. split; [vm_compute; reflexivity|].
  apply (simple_update_lookup _ 0 0x400 (mkPC 0x800 0) DirectUncond DirectUncond None).
  - apply (Simple.simple_make_inv (demoParams 2)); [by vm_compute..|vm_compute; reflexivity].
  - left. vm_compute. reflexivity.
Defined.

(** The proviso of [simple_update_lookup] is needed: in a two-way BTB the
    second [update] of a branch goes to another way of the set, and [lookup]
    still returns the first, stale target. *)
Theorem simple_update_stale_target :
  resMap fst (match demoSimple 2 with
   | Ok s => (setTick 1000 ;; Simple.update 0 0x400 (mkPC 0x800 0) DirectUncond None ;;
              setTick 2000 ;; Simple.update 0 0x400 (mkPC 0x900 0) DirectUncond None ;;
              Simple.lookup 0 0x400 DirectUncond) s
   | Err e => Err e
   end) = Ok (Some (mkPC 0x800 0)).
Proof. vm_compute. reflexivity. Qed.
