(* ===== verification/MultiLevelBtb.v ===== *)
(** * MultiLevelBTB and the BTB-Ferret prefetcher: the model

    [cpu/pred/multilevel_btb.hh] and [multilevel_btb.cc], one definition per
    member function, in the order of the source.  The configuration is
    [MLParams], the object is [MLBTB].  [curTick]/[curCycle] are the clock the
    functions read; [bbMap_] is the block map owned by [BPredUnit], reached
    through a pointer ([None] is the null pointer).  Statistics are a log of
    increments. *)

From Stdlib Require Import ZArith Lia.
From stdpp Require Import base list gmap numbers.
From S2P Require Import Prelude Types SatCounter ReplPolicy AssocCache AssocCacheInit BtbEntry Btb.

(** ** Configuration *)
Record MLParams := mkMLParams {
  l1Latency : Cycles;
  l2Latency : Cycles;
  l3Latency : Cycles;
  enableL3 : bool;
  minInstSize : Z;
  trainBitsOnLookup : bool;
  trainBitsOnCommit : bool;
  prefetchOnPrefetchHit : bool;
  cleanBitsOnL1Promotion : bool;
  noPrefetchLatency : bool;
  prefetchDepth : Z;
  maxChainTrackerEntries : Z;
  depthOnlyCall : bool;
  limitRet : bool;
  markovUseRecency : bool;
  nonexclusive : bool;
  newPBits : bool;
  onlyCall : bool;
  onlyCallAndBackward : bool;
  callFallthrough : bool;
  forwardLoopExit : bool;
  backwardLoopExit : bool;
  allConditional : bool;
  prefetchFwExitOnL1Hit : bool;
  useCompressedTagFilter : bool;
  indirectAltBit : bool;
  limitedMarkov : bool;
  markovOnlyMisses : bool;
  maxMarkovSuccessors : Z
}.

#[export] Instance eta_MLParams : Settable MLParams := fun p =>
  mkMLParams (l1Latency p) (l2Latency p) (l3Latency p) (enableL3 p) (minInstSize p)
    (trainBitsOnLookup p) (trainBitsOnCommit p) (prefetchOnPrefetchHit p)
    (cleanBitsOnL1Promotion p) (noPrefetchLatency p) (prefetchDepth p)
    (maxChainTrackerEntries p) (depthOnlyCall p) (limitRet p) (markovUseRecency p)
    (nonexclusive p) (newPBits p) (onlyCall p) (onlyCallAndBackward p)
    (callFallthrough p) (forwardLoopExit p) (backwardLoopExit p) (allConditional p)
    (prefetchFwExitOnL1Hit p) (useCompressedTagFilter p) (indirectAltBit p)
    (limitedMarkov p) (markovOnlyMisses p) (maxMarkovSuccessors p).

(** Sizes of the tables, used by the constructor. *)
Record MLGeometry := mkMLGeometry {
  g_l1NumEntries : Z; g_l1Associativity : Z;
  g_l2NumEntries : Z; g_l2Associativity : Z;
  g_l3NumEntries : Z; g_l3Associativity : Z;
  g_pBufferSize : Z;
  g_instShiftAmt : Z;
  g_tagBits : Z;
  g_compressedTagBits : Z;
  g_markov_entries : Z; g_markov_assoc : Z;
  g_numThreads : Z
}.

(** ** Statistics *)
Inductive MLStat :=
| S_base (b : BaseStat)
| S_successorCountDist (n : Z)
| S_markovDist (n : Z)
| S_l1MissL2Hits
| S_l1Hits
| S_normalL1Hits
| S_l1Accesses
| S_l2Accesses
| S_l2AccessesByReason (r : BTBAccessReason)
| S_l1HitInOverriding
| S_l1MissInOverriding
| S_pbHits
| S_l3Hits
| S_uselessPrefetches (t : BranchType)
| S_totalPrefetches
| S_prefetchQueueFull
| S_prefetchHits (t : BranchType)
| S_latePrefetchByPBHit (i : Z)
| S_latePrefetchByL2Hit (i : Z)
| S_l1InstalledEvicted
| S_l1Installed
| S_predMatches (i : Z)
| S_predChecks (i : Z)
| S_compressedTagChecks
| S_compressedTagFalsePositives
| S_compressedTagFalseNegatives
| S_compressedTagAliases
| S_takenPathPrefetches
| S_notTakenPathPrefetches
| S_prefetchHitsFromTaken (t : BranchType)
| S_prefetchHitsFromNotTaken (t : BranchType)
| S_callL2OrPrefetchHits
| S_callFallThroughL2Only
| S_updatesL1hits
| S_updatesL2hits
| S_updatesL2miss
| S_updatesL3hits
| S_updatesL3miss
| S_pfIssued
| S_pfL2LookupHit
| S_pfL2LookupMiss
| S_pfL3LookupHit
| S_pfL3LookupMiss
| S_mkHits
| S_pfTriggerCall
| S_pfTriggerBwExit
| S_pfTriggerFwExit
| S_pfTriggerCondAlt
| S_pfInserted
| S_skipDuetoDemand
| S_skipDuetoPresence
| S_enqueueDeferred
| S_chainEndEvicted
| S_chainEndDemand
| S_chainEndPresence
| S_chainEndL2Miss
| S_chainEndL3Miss
| S_chainEndRetFilter
| S_chainEndNonEntry
| S_chainEndDepthExhaust
| S_prefetchesPerTrigger (n : Z)
| S_parallelChains (n : Z).

#[export] Instance MLStat_eq_dec : EqDecision MLStat.
Proof. solve_decision. Defined.

(** The sizes given to [init] by the constructor of the statistics:
    [Vector::operator[]] asserts that the index is below the size.  Vectors
    indexed by [BranchType] or [BTBAccessReason] have one element per value. *)
Definition stat_index_ok (x : MLStat) : bool :=
  match x with
  | S_latePrefetchByPBHit i | S_latePrefetchByL2Hit i => i <? 5
  | S_predMatches i | S_predChecks i => i <? 15
  | _ => true
  end.

(** ** Data *)

(** [struct MarkovEntry : TaggedEntry] *)
Record MarkovEntry := mkMarkov {
  me_tagged : TaggedEntry;
  successors : list (Addr * Z)
}.

#[export] Instance eta_MarkovEntry : Settable MarkovEntry := fun e =>
  mkMarkov (me_tagged e) (successors e).

Module MkEntry.
Definition init : MarkovEntry := mkMarkov Tagged.init [].
Definition matches (ext : Addr -> Addr) (key : TaggedKey) (e : MarkovEntry) : bool :=
  Tagged.matches ext key (me_tagged e).
Definition insert (ext : Addr -> Addr) (key : TaggedKey) (e : MarkovEntry) : Res MarkovEntry :=
  resMap (fun t => e <| me_tagged := t |>) (Tagged.insert ext key (me_tagged e)).
(** [MarkovEntry::invalidate] also clears the successors. *)
Definition invalidate (e : MarkovEntry) : MarkovEntry :=
  e <| me_tagged ::= Tagged.invalidate |> <| successors := [] |>.
End MkEntry.

#[export] Instance MarkovEntry_ops : CacheEntryOps TaggedKey MarkovEntry := {|
  ce_isValid := fun e => Tagged.isValid (me_tagged e);
  ce_match := MkEntry.matches;
  ce_insert := MkEntry.insert;
  ce_invalidate := MkEntry.invalidate
|}.

Abbreviation MarkovCache := (Cache IndexingPolicy MarkovEntry BasePolicy Tick).

(** [struct PrevBlockInfo] *)
Record PrevBlockInfo := mkPrevBlock {
  pb_branchPC : Addr;
  pb_target : Addr;
  pb_fallThrough : Addr;
  pb_valid : bool
}.

(** [struct DeferredPrefetchEntry] *)
Record DeferredPrefetchEntry := mkDeferred {
  df_pc : Addr;
  df_tid : ThreadID;
  df_issueTime : Cycles;
  df_toL1 : bool;
  df_triggeredByPBHit : bool;
  df_takenPrefetched : bool;
  df_triggerType : BranchType;
  df_chainId : Z;
  df_allocateChain : bool;
  df_depth : Z
}.

(** [enum class ChainEndReason] *)
Inductive ChainEndReason :=
| CE_None | CE_Evicted | CE_Demand | CE_Presence | CE_L2Miss | CE_L3Miss
| CE_RetFilter | CE_DepthExhaust.

(** [struct ActiveChainEntry] *)
Record ActiveChainEntry := mkChain {
  ch_chainId : Z;
  ch_remainingPrefetches : Z;
  ch_lastEndReason : ChainEndReason
}.

#[export] Instance eta_ActiveChainEntry : Settable ActiveChainEntry := fun c =>
  mkChain (ch_chainId c) (ch_remainingPrefetches c) (ch_lastEndReason c).

(** [struct PrevBrInfo] *)
Record PrevBrInfo := mkPrevBr { is_bw : bool; is_l1_miss : bool }.

Inductive TriggerLocation := L1Hit | L2Hit | L3Hit | PBHit.
Inductive TagAction := TA_Hit | TA_Insert | TA_Invalidate.

(** ** The object *)
Record MLBTB := mkML {
  l1btb : BTBCache;
  pBuffer : BTBCache;
  l2btb : BTBCache;
  l3btb : BTBCache;
  l1CompressedTags : BTBCache;
  pbCompressedTags : BTBCache;
  markov : MarkovCache;
  markovSuccessors : list (Addr * list (Addr * Z));
  prevBranches : list (Addr * bool);
  prevBranchPC : list Addr;
  prevBlockInfo : list PrevBlockInfo;
  deferredPrefetchQueue : list DeferredPrefetchEntry;
  nextChainId : Z;
  chainTable : list ActiveChainEntry;
  currentCycleDemand : gset Z;
  prevBwBranch : PrevBrInfo;
  bbMap_ : option (gmap Z Z);
  mlstats : list MLStat;
  curTick : Tick;
  curCycle : Cycles;
  pfqEvent : option Cycles
}.

#[export] Instance eta_MLBTB : Settable MLBTB := fun s =>
  mkML (l1btb s) (pBuffer s) (l2btb s) (l3btb s) (l1CompressedTags s)
    (pbCompressedTags s) (markov s) (markovSuccessors s) (prevBranches s)
    (prevBranchPC s) (prevBlockInfo s) (deferredPrefetchQueue s) (nextChainId s)
    (chainTable s) (currentCycleDemand s) (prevBwBranch s) (bbMap_ s) (mlstats s)
    (curTick s) (curCycle s) (pfqEvent s).

Definition isSome {A} (o : option A) : bool :=
  match o with Some _ => true | None => false end.

Definition isCallType (type : BranchType) : bool :=
  match type with CallDirect | CallIndirect => true | _ => false end.

Definition isIndirectType (type : BranchType) : bool :=
  match type with CallIndirect | IndirectUncond | IndirectCond => true | _ => false end.

(** ** std::lower_bound and std::sort as used here *)

(** The partition point of the queue for an issue time. *)
Fixpoint insertByIssueTime (e : DeferredPrefetchEntry) (q : list DeferredPrefetchEntry)
  : list DeferredPrefetchEntry :=
  match q with
  | [] => [e]
  | x :: q' =>
      if df_issueTime x <? df_issueTime e then x :: insertByIssueTime e q' else e :: q
  end.

(** Insertion sort by descending frequency, the order [std::sort] gives to
    the short successor vectors. *)
Fixpoint insertByFreq (x : Addr * Z) (l : list (Addr * Z)) : list (Addr * Z) :=
  match l with
  | [] => [x]
  | y :: l' => if snd y <? snd x then x :: l else y :: insertByFreq x l'
  end.
Definition sortByFreq (l : list (Addr * Z)) : list (Addr * Z) :=
  foldl (fun acc x => insertByFreq x acc) [] l.

Module ML.
Section Ops.
Context (p : MLParams).

(** *** Statistics *)
Definition stat (x : MLStat) : M MLBTB unit :=
  if stat_index_ok x then modify (fun s => s <| mlstats ::= cons x |>)
  else fault AssertFail.

Definition recordBTBAccess (level : BTBAccessLevel) (reason : BTBAccessReason)
  : M MLBTB unit :=
  when (1 <=? levelNum level) (stat S_l1Accesses) ;;
  when ((levelNum level =? 1) && bool_decide (reason = NoReason)) (stat S_normalL1Hits) ;;
  when (2 <=? levelNum level)
    (stat S_l2Accesses ;;
     when (negb (bool_decide (reason = NoReason))) (stat (S_l2AccessesByReason reason))).

(** *** Small helpers of the class *)
Definition usesPrefetchBitPolicy : bool := trainBitsOnLookup p || trainBitsOnCommit p.

Definition recordDemandLookup (pc : Addr) : M MLBTB unit :=
  modify (fun s => s <| currentCycleDemand ::= fun d => {[pc]} ∪ d |>).

Definition isDemandAccess (pc : Addr) : M MLBTB bool :=
  gets (fun s => bool_decide (pc ∈ currentCycleDemand s)).

Definition recordPrevBlockInfo (tid : ThreadID) (instPC targetAddr : Addr) : M MLBTB unit :=
  o ← gets (fun s => prevBlockInfo s !! Z.to_nat tid);
  _ ← at_index o;
  modify (fun s => s <| prevBlockInfo ::=
    <[Z.to_nat tid := mkPrevBlock instPC targetAddr (u64 (instPC + minInstSize p)) true]> |>).

Definition isChainDead (chainId : Z) : M MLBTB bool :=
  gets (fun s =>
    forallb (fun e => negb (df_chainId e =? chainId)) (deferredPrefetchQueue s)).

(** [recordChainEnd(chainTable[i])] *)
Definition chainEndStat (r : ChainEndReason) : MLStat :=
  match r with
  | CE_Evicted => S_chainEndEvicted
  | CE_Demand => S_chainEndDemand
  | CE_Presence => S_chainEndPresence
  | CE_L2Miss => S_chainEndL2Miss
  | CE_L3Miss => S_chainEndL3Miss
  | CE_RetFilter => S_chainEndRetFilter
  | CE_DepthExhaust => S_chainEndDepthExhaust
  | CE_None => S_chainEndNonEntry
  end.

Definition readChain (i : nat) : M MLBTB ActiveChainEntry :=
  o ← gets (fun s => chainTable s !! i); at_index o.
Definition writeChain (i : nat) (f : ActiveChainEntry -> ActiveChainEntry) : M MLBTB unit :=
  c ← readChain i;
  modify (fun s => s <| chainTable ::= <[i := f c]> |>).
Definition setEndReason (i : nat) (r : ChainEndReason) : M MLBTB unit :=
  writeChain i (fun c => c <| ch_lastEndReason := r |>).

Definition recordChainEnd (i : nat) : M MLBTB unit :=
  chain ← readChain i;
  stat (chainEndStat (ch_lastEndReason chain)) ;;
  setEndReason i CE_None.

(** *** Compressed tag arrays *)

(** The body shared by [l1ApproxContains] and [pbApproxContains]:
    [comp] is the compressed tag array, [full] the exact one. *)
Definition approxContains (comp full : MLBTB -> BTBCache)
    `{!Setter comp} `{!Setter full} (pc : Addr) (tid : ThreadID) : M MLBTB bool :=
  if negb (useCompressedTagFilter p) then
    r ← zoom full (AC.findEntry (mkKey pc tid)); mret (isSome r)
  else
    a ← zoom comp (AC.findEntry (mkKey pc tid));
    let approxHit := isSome a in
    e ← zoom full (AC.findEntry (mkKey pc tid));
    let exactHit := isSome e in
    stat S_compressedTagChecks ;;
    (if approxHit && negb exactHit then stat S_compressedTagFalsePositives
     else if negb approxHit && exactHit then stat S_compressedTagFalseNegatives
     else mret tt) ;;
    comp_entry ← zoom comp (AC.findEntry (mkKey pc tid));
    full_entry ← zoom full (AC.findEntry (mkKey pc tid));
    match comp_entry, full_entry with
    | Some i, Some j =>
        c ← zoom comp (AC.readEntry i);
        f ← zoom full (AC.readEntry j);
        when (negb (branchAddr c =? branchAddr f)) (stat S_compressedTagAliases)
    | _, _ => mret tt
    end ;;
    mret approxHit.

Definition l1ApproxContains (pc : Addr) (tid : ThreadID) : M MLBTB bool :=
  approxContains l1CompressedTags l1btb pc tid.
Definition pbApproxContains (pc : Addr) (tid : ThreadID) : M MLBTB bool :=
  approxContains pbCompressedTags pBuffer pc tid.

Definition l1CompressedTagSync (pc : Addr) (tid : ThreadID) (action : TagAction)
  : M MLBTB unit :=
  if negb (useCompressedTagFilter p) then mret tt else
  now ← gets curTick;
  match action with
  | TA_Hit => _ ← zoom l1CompressedTags (AC.accessEntryByKey now (mkKey pc tid)); mret tt
  | TA_Insert =>
      entry ← zoom l1CompressedTags (AC.findEntry (mkKey pc tid));
      match entry with
      | Some i => zoom l1CompressedTags (AC.accessEntry now i)
      | None =>
          v ← zoom l1CompressedTags (AC.findVictim (mkKey pc tid) true);
          zoom l1CompressedTags (AC.insertEntry now (mkKey pc tid) v)
      end
  | TA_Invalidate => mret tt
  end.

Definition pbCompressedTagSync (pc : Addr) (tid : ThreadID) (action : TagAction)
  : M MLBTB unit :=
  if negb (useCompressedTagFilter p) then mret tt else
  now ← gets curTick;
  match action with
  | TA_Insert =>
      v ← zoom pbCompressedTags (AC.findVictim (mkKey pc tid) true);
      zoom pbCompressedTags (AC.insertEntry now (mkKey pc tid) v)
  | TA_Invalidate =>
      entry ← zoom pbCompressedTags (AC.findEntry (mkKey pc tid));
      match entry with
      | Some i => zoom pbCompressedTags (AC.invalidate i)
      | None => mret tt
      end
  | TA_Hit => mret tt
  end.

(** *** Prefetch buffer fill *)

(** The setters applied to the victim at the end of [enqueuePrefetch]. *)
Definition fillPrefetched (src : BTBEntry) (t : PCStateBase) (arrivalCycle : Cycles)
    (byPBHit fromL3 : bool) (pfDistance : Z) (takenPf : bool) (triggerType : BranchType)
    (v : BTBEntry) : BTBEntry :=
  let v := Entry.update t (inst src) v in
  let v := Entry.copyDir src v in
  let v := v <| timestamp := arrivalCycle |> in
  let v := v <| prefetched := true |> in
  let v := v <| triggeredByPBHit := byPBHit |> in
  let v := v <| prefetchedFromL3 := fromL3 |> in
  let v := v <| prefetchTarget := prefetchTarget src |> in
  let v := v <| prefetchThrough := prefetchThrough src |> in
  let v := v <| prefetchDistance := u8 pfDistance |> in
  let v := v <| prefetchTriggerType := triggerType |> in
  if usesPrefetchBitPolicy && takenPf then v <| takenPrefetched := true |> else v.

(** [enqueuePrefetch]; [src] is [*l2_entry], an entry of the L2 or L3 BTB,
    which the function does not modify. *)
Definition enqueuePrefetch (pc : Addr) (tid : ThreadID) (src : BTBEntry)
    (arrivalCycle : Cycles) (toL1 : bool) (byPBHit : bool) (pfDistance : Z)
    (takenPf : bool) (triggerType : BranchType) (fromL3 : bool) : M MLBTB unit :=
  inL1 ← l1ApproxContains pc tid;
  inPB ← (if (inL1 : bool) then (mret true : M MLBTB bool) else pbApproxContains pc tid);
  if (inPB : bool) then mret tt else
  stat S_pfIssued ;;
  stat S_totalPrefetches ;;
  recordBTBAccess L2 PrefetchReason ;;
  when usesPrefetchBitPolicy
    (if takenPf then stat S_takenPathPrefetches else stat S_notTakenPathPrefetches) ;;
  now ← gets curTick;
  victim ← zoom pBuffer (AC.findVictim (mkKey pc tid) true);
  v ← zoom pBuffer (AC.readEntry victim);
  when (prefetched v) (stat (S_uselessPrefetches (prefetchTriggerType v))) ;;
  zoom pBuffer (AC.insertEntry now (mkKey pc tid) victim) ;;
  pbCompressedTagSync pc tid TA_Insert ;;
  t ← deref (target src);
  zoom pBuffer (AC.modifyEntry victim
    (fillPrefetched src t arrivalCycle byPBHit fromL3 pfDistance takenPf triggerType)).

(** *** Queries *)

Definition valid (tid : ThreadID) (instPC : Addr) : M MLBTB bool :=
  l1_entry ← zoom l1btb (AC.findEntry (mkKey instPC tid));
  if isSome l1_entry then mret true else
  pB_entry ← zoom pBuffer (AC.findEntry (mkKey instPC tid));
  if isSome pB_entry then mret true else
  l2_entry ← zoom l2btb (AC.findEntry (mkKey instPC tid));
  if isSome l2_entry then mret true else
  if enableL3 p then
    l3_entry ← zoom l3btb (AC.findEntry (mkKey instPC tid));
    mret (isSome l3_entry)
  else mret false.

Definition getInst (tid : ThreadID) (instPC : Addr) : M MLBTB (option StaticInst) :=
  l1_entry ← zoom l1btb (AC.findEntry (mkKey instPC tid));
  match l1_entry with
  | Some i => e ← zoom l1btb (AC.readEntry i); mret (inst e)
  | None =>
  pB_entry ← zoom pBuffer (AC.findEntry (mkKey instPC tid));
  match pB_entry with
  | Some i => e ← zoom pBuffer (AC.readEntry i); mret (inst e)
  | None =>
  l2_entry ← zoom l2btb (AC.findEntry (mkKey instPC tid));
  match l2_entry with
  | Some i => e ← zoom l2btb (AC.readEntry i); mret (inst e)
  | None =>
  if enableL3 p then
    l3_entry ← zoom l3btb (AC.findEntry (mkKey instPC tid));
    match l3_entry with
    | Some i => e ← zoom l3btb (AC.readEntry i); mret (inst e)
    | None => mret None
    end
  else mret None
  end end end.

Definition lookupL1 (tid : ThreadID) (inst_pc : Addr) : M MLBTB Addr :=
  l1_entry ← zoom l1btb (AC.findEntry (mkKey inst_pc tid));
  match l1_entry with
  | Some i =>
      recordBTBAccess L1 NoReason ;;
      stat S_l1HitInOverriding ;;
      e ← zoom l1btb (AC.readEntry i);
      t ← deref (target e);
      mret (instAddr t)
  | None =>
      stat S_l1MissInOverriding ;;
      recordBTBAccess L2 OverrideL1Miss ;;
      mret MaxAddr
  end.

Definition updateDirection (tid : ThreadID) (inst_pc : Addr) (taken : bool) : M MLBTB unit :=
  entry ← zoom l1btb (AC.findEntry (mkKey inst_pc tid));
  match entry with
  | Some i => zoom l1btb (AC.modifyEntry i (Entry.updateDir taken))
  | None => mret tt
  end.

(** *** Prefetch triggers *)

(** [applyNewPBitsLogic]: the two reference arguments are returned. *)
Definition applyNewPBitsLogic (type : BranchType) (taken isBackward : bool)
    (doPfTarget doPfThrough : bool) (triggerLoc : TriggerLocation)
  : M MLBTB (bool * bool) :=
  if match triggerLoc with
     | L1Hit => negb (prefetchFwExitOnL1Hit p)
     | L2Hit => negb usesPrefetchBitPolicy
     | L3Hit => negb usesPrefetchBitPolicy
     | PBHit => negb (prefetchOnPrefetchHit p)
     end
  then mret (false, false) else
  if negb (newPBits p) then mret (doPfTarget, doPfThrough) else
  prev ← gets prevBwBranch;
  let isForwardExit :=
    is_bw prev && doPfTarget && doPfThrough && negb taken && is_l1_miss prev in
  if forwardLoopExit p && isForwardExit then
    stat S_pfTriggerFwExit ;; mret (true, false)
  else if (match triggerLoc with L1Hit => true | _ => false end) then mret (false, false)
  else
  let isCall := isCallType type in
  if onlyCall p && negb isCall then mret (false, false)
  else if onlyCallAndBackward p && negb isCall &&
          (negb isBackward || negb doPfTarget || negb doPfThrough) then mret (false, false)
  else if callFallthrough p && isCall then
    stat S_pfTriggerCall ;; mret (false, true)
  else if backwardLoopExit p && isBackward && taken && doPfTarget && doPfThrough then
    stat S_pfTriggerBwExit ;; mret (false, true)
  else if negb (allConditional p) then mret (false, false)
  else if doPfTarget && doPfThrough then
    stat S_pfTriggerCondAlt ;;
    mret (if taken then (false, true) else (true, false))
  else mret (false, false).

(** [prefetchViaBBMap] *)
Definition prefetchViaBBMap (tid : ThreadID) (lookupAddr : Addr) (isTakenPath : bool)
    (byPBHit : bool) (depth : Z) (baseLatency : Cycles) (triggerType : BranchType)
    (chainId : Z) (allocateChain : bool) : M MLBTB unit :=
  bb ← gets bbMap_;
  m ← deref bb;
  match m !! lookupAddr with
  | None => mret tt
  | Some pfPC =>
      l2_pf ← zoom l2btb (AC.findEntry (mkKey pfPC tid));
      l3_pf ← (if enableL3 p then zoom l3btb (AC.findEntry (mkKey pfPC tid))
               else (mret None : M MLBTB (option nat)));
      if negb (isSome l2_pf || isSome l3_pf) && allocateChain then mret tt
      else if limitRet p && bool_decide (triggerType = Return) then mret tt
      else
      let baseLatency := Cyc.add baseLatency 1 in
      now ← gets curCycle;
      let dfEntry := {|
        df_pc := pfPC; df_tid := tid; df_issueTime := Cyc.add now baseLatency;
        df_toL1 := false; df_triggeredByPBHit := byPBHit;
        df_takenPrefetched := isTakenPath; df_triggerType := triggerType;
        df_chainId := chainId; df_allocateChain := allocateChain;
        df_depth := u32 depth |} in
      modify (fun s => s <| deferredPrefetchQueue ::= insertByIssueTime dfEntry |>)
  end.

(** [tryInitialTrigger] *)
Definition tryInitialTrigger (tid : ThreadID) (instPC : Addr) (type : BranchType)
    (targetAddr : Addr) (doPfTarget doPfThrough taken : bool)
    (triggerLoc : TriggerLocation) (baseLatency : Cycles) (byPBHit isL1Miss : bool)
  : M MLBTB unit :=
  bb ← gets bbMap_;
  if negb (isSome bb) then mret tt else
  let fallThrough := u64 (instPC + minInstSize p) in
  let isBackward := targetAddr <? instPC in
  if indirectAltBit p && newPBits p && doPfTarget && doPfThrough && isIndirectType type
  then mret tt else
  '(doPfTarget, doPfThrough) ←
    applyNewPBitsLogic type taken isBackward doPfTarget doPfThrough triggerLoc;
  let effectiveDepth := if depthOnlyCall p && negb (isCallType type) then 1
                        else prefetchDepth p in
  modify (fun s => s <| prevBwBranch := mkPrevBr isBackward isL1Miss |>) ;;
  if doPfTarget || doPfThrough then
    currentChainId ← gets nextChainId;
    modify (fun s => s <| nextChainId := u64 (currentChainId + 1) |>) ;;
    when doPfTarget
      (prefetchViaBBMap tid targetAddr true byPBHit effectiveDepth baseLatency type
         currentChainId true) ;;
    let baseLatency := if doPfTarget then Cyc.add baseLatency 1 else baseLatency in
    when doPfThrough
      (prefetchViaBBMap tid fallThrough false byPBHit effectiveDepth baseLatency type
         currentChainId true)
  else mret tt.

(** *** Eviction and write-back *)

(** Write an evicted entry [e] into the L3 BTB, over its copy or over a
    victim. *)
Definition installInL3 (tid : ThreadID) (e : BTBEntry) : M MLBTB unit :=
  now ← gets curTick;
  let key := mkKey (branchAddr e) tid in
  found ← zoom l3btb (AC.findEntry key);
  i ← match found with
      | Some i => zoom l3btb (AC.accessEntry now i) ;; stat S_updatesL3hits ;; mret i
      | None =>
          v ← zoom l3btb (AC.findVictim key true);
          zoom l3btb (AC.insertEntry now key v) ;;
          stat S_updatesL3miss ;;
          mret v
      end;
  zoom l3btb (AC.modifyEntry i (Entry.updateFrom e)).

(** The part of [freeUpL1Entry] that makes room in the L2 BTB for the L1
    victim [e], moving a valid L2 victim to the L3 BTB. *)
Definition allocateInL2 (tid : ThreadID) (e : BTBEntry) : M MLBTB nat :=
  now ← gets curTick;
  let key := mkKey (branchAddr e) tid in
  v ← zoom l2btb (AC.findVictim key false);
  ve ← zoom l2btb (AC.readEntry v);
  when (Entry.isValid ve) (when (enableL3 p) (installInL3 tid ve)) ;;
  zoom l2btb (AC.modifyEntry v Entry.invalidate) ;;
  zoom l2btb (AC.insertEntry now key v) ;;
  stat S_updatesL2miss ;;
  mret v.

(** The write-back of a valid L1 victim [e]. *)
Definition writebackL1Victim (tid : ThreadID) (e : BTBEntry) : M MLBTB unit :=
  now ← gets curTick;
  found ← zoom l2btb (AC.findEntry (mkKey (branchAddr e) tid));
  i ← match found with
      | Some i => zoom l2btb (AC.accessEntry now i) ;; stat S_updatesL2hits ;; mret i
      | None => allocateInL2 tid e
      end;
  zoom l2btb (AC.modifyEntry i (Entry.updateFrom e)) ;;
  when (nonexclusive p && enableL3 p) (installInL3 tid e).

Definition freeUpL1Entry (tid : ThreadID) (instPC : Addr) : M MLBTB nat :=
  now ← gets curTick;
  f ← zoom l1btb (AC.findEntry (mkKey instPC tid));
  massert (negb (isSome f)) ;;
  l1_victim ← zoom l1btb (AC.findVictim (mkKey instPC tid) false);
  e ← zoom l1btb (AC.readEntry l1_victim);
  when (Entry.isValid e) (writebackL1Victim tid e) ;;
  zoom l1btb (AC.modifyEntry l1_victim Entry.invalidate) ;;
  zoom l1btb (AC.insertEntry now (mkKey instPC tid) l1_victim) ;;
  mret l1_victim.

(** [writebackToL2] starts with [assert(false)]. *)
Definition writebackToL2 (tid : ThreadID) (victim : BTBEntry) : M MLBTB unit :=
  massert false ;;
  if negb (isSome (target victim)) then mret tt else
  now ← gets curTick;
  let key := mkKey (branchAddr victim) tid in
  v ← zoom l2btb (AC.findVictim key true);
  zoom l2btb (AC.insertEntry now key v) ;;
  t ← deref (target victim);
  zoom l2btb (AC.modifyEntry v (fun e =>
    let e := Entry.copyDir victim (Entry.update t (inst victim) e) in
    if usesPrefetchBitPolicy
    then e <| prefetchThrough := prefetchThrough victim |>
           <| prefetchTarget := prefetchTarget victim |>
    else e)) ;;
  stat S_updatesL2miss.

(** *** Update at commit *)

Definition setPfBits (tgt thr : bool) (e : BTBEntry) : BTBEntry :=
  e <| prefetchTarget := tgt |> <| prefetchThrough := thr |>.

Definition update (tid : ThreadID) (instPC : Addr) (tgt : PCStateBase)
    (type : BranchType) (ins : option StaticInst) : M MLBTB unit :=
  stat (S_base (BS_updates type)) ;;
  found ← zoom l1btb (AC.findEntry (mkKey instPC tid));
  entry ← match found with
    | None =>
        v ← freeUpL1Entry tid instPC;
        when usesPrefetchBitPolicy (zoom l1btb (AC.modifyEntry v (setPfBits true false))) ;;
        mret v
    | Some i =>
        when (usesPrefetchBitPolicy && indirectAltBit p && isIndirectType type)
          (e ← zoom l1btb (AC.readEntry i);
           t ← deref (target e);
           when (negb (instAddr t =? instAddr tgt))
             (zoom l1btb (AC.modifyEntry i (setPfBits true true)))) ;;
        mret i
    end;
  l1CompressedTagSync instPC tid TA_Insert ;;
  zoom l1btb (AC.modifyEntry entry (Entry.update tgt ins)) ;;
  now ← gets curTick;
  zoom l1btb (AC.accessEntry now entry).

(** *** Markov prefetcher *)

(** The loop over the successors in [prefetchMarkovSuccessor]; [next] is the
    recursive call, present when [depth > 2]. *)
Fixpoint markovLoop (next : option (Addr -> Cycles -> BranchType -> M MLBTB unit))
    (tid : ThreadID) (toL1 : bool) (numSuccessors : Z) (byPBHit : bool)
    (triggerType : BranchType) (succs : list (Addr * Z)) (arrival : Cycles)
    (prefetched : Z) : M MLBTB unit :=
  match succs with
  | [] => mret tt
  | (successor, _) :: rest =>
      let continue := markovLoop next tid toL1 numSuccessors byPBHit triggerType rest in
      if numSuccessors <=? prefetched then mret tt else
      if successor =? 0 then continue arrival prefetched else
      inL1 ← l1ApproxContains successor tid;
      if (inL1 : bool) then continue (Cyc.add arrival 1) prefetched else
      l2_entry ← zoom l2btb (AC.findEntry (mkKey successor tid));
      match l2_entry with
      | None => stat S_pfL2LookupMiss ;; continue arrival prefetched
      | Some i =>
          stat S_pfL2LookupHit ;;
          e ← zoom l2btb (AC.readEntry i);
          inPB ← (if negb toL1 then pbApproxContains successor tid
                  else (mret false : M MLBTB bool));
          if (inPB : bool) then continue (Cyc.add arrival 1) prefetched else
          enqueuePrefetch successor tid e arrival toL1 byPBHit 0 false triggerType false ;;
          match next with
          | Some rec =>
              ins ← deref (inst e);
              now ← gets curCycle;
              nextBaseLatency ← lift (if now <? arrival then Cyc.sub arrival now else Ok 0);
              rec successor nextBaseLatency (getBranchType ins)
          | None => mret tt
          end ;;
          continue (Cyc.add arrival 1) (prefetched + 1)
      end
  end.

Fixpoint prefetchMarkovSuccessor (depth : nat) (tid : ThreadID) (pc : Addr) (toL1 : bool)
    (numSuccessors : Z) (byPBHit : bool) (baseLatency : Cycles) (triggerType : BranchType)
  : M MLBTB unit :=
  o ← (if limitedMarkov p then
         entry ← zoom markov (AC.findEntry (mkTKey pc true));
         match entry with
         | None => mret None
         | Some i =>
             t ← gets curTick;
             zoom markov (AC.accessEntry t i) ;;
             e ← zoom markov (AC.readEntry i);
             mret (Some (successors e))
         end
       else
         gets (fun s =>
           match find_index (fun kv => fst kv =? pc) (markovSuccessors s) with
           | None => None
           | Some i => match markovSuccessors s !! i with
                       | None | Some (_, []) => None
                       | Some (_, l) => Some l
                       end
           end) : M MLBTB (option (list (Addr * Z))));
  match o with
  | None => mret tt
  | Some succs =>
      stat S_mkHits ;;
      now ← gets curCycle;
      let arrival := Cyc.add (Cyc.add now (l2Latency p)) baseLatency in
      let next :=
        match depth with
        | S ((S (S _)) as depth') => Some (fun successor lat ty =>
            prefetchMarkovSuccessor depth' tid successor toL1 numSuccessors byPBHit lat ty)
        | _ => None
        end in
      markovLoop next tid toL1 numSuccessors byPBHit triggerType succs arrival 0
  end.

(** The successor update at the end of [trainMarkovOnCommit]; a [pop_back] of
    an empty vector is out of range. *)
Definition addSuccessor (dest : Addr) (l : list (Addr * Z)) : Res (list (Addr * Z)) :=
  match find_index (fun a => fst a =? dest) l with
  | Some i => Ok (alter (fun a => (fst a, u64 (snd a + 1))) i l)
  | None =>
      l' ← (if u64 (maxMarkovSuccessors p) <=? Z.of_nat (length l) then
              let s := sortByFreq l in
              if bool_decide (s = []) then Err OutOfRange else Ok (take (length s - 1) s)
            else Ok l);
      if Z.of_nat (length l') <? u64 (maxMarkovSuccessors p) then Ok (l' ++ [(dest, 1)])
      else Err AssertFail
  end.

Definition trainMarkovOnCommit (tid : ThreadID) (pc : Addr) (wasL2Hit : bool)
  : M MLBTB unit :=
  if negb (limitedMarkov p) then mret tt else
  if markovOnlyMisses p && negb wasL2Hit then mret tt else
  front ← gets (fun s => head (prevBranches s));
  src ← at_index front;
  modify (fun s => s <| prevBranches ::= tail |>) ;;
  old ← gets (fun s => prevBranchPC s !! Z.to_nat tid);
  _ ← at_index old;
  modify (fun s => s <| prevBranchPC ::= <[Z.to_nat tid := pc]> |>) ;;
  modify (fun s => s <| prevBranches ::= fun q => q ++ [(pc, wasL2Hit)] |>) ;;
  now ← gets curTick;
  let key := mkTKey (fst src) true in
  found ← zoom markov (AC.findEntry key);
  i ← match found with
      | Some i => zoom markov (AC.accessEntry now i) ;; mret i
      | None =>
          v ← zoom markov (AC.findVictim key true);
          zoom markov (AC.insertEntry now key v) ;;
          mret v
      end;
  e ← zoom markov (AC.readEntry i);
  l ← lift (addSuccessor pc (successors e));
  zoom markov (AC.modifyEntry i (fun e => e <| successors := l |>)).

Definition trainPrefetchBitsOnCommit (tid : ThreadID) (pc : Addr) (actuallyTaken : bool)
    (type : BranchType) : M MLBTB unit :=
  if negb (trainBitsOnCommit p) then mret tt else
  l1_entry ← zoom l1btb (AC.findEntry (mkKey pc tid));
  match l1_entry with
  | None => mret tt
  | Some i =>
      zoom l1btb (AC.modifyEntry i (fun e =>
        if negb (cleanBitsOnL1Promotion p) then
          if actuallyTaken then e <| prefetchTarget := true |>
          else e <| prefetchThrough := true |>
        else setPfBits actuallyTaken (negb actuallyTaken) e))
  end.

(** *** The deferred prefetch queue *)

Definition chainIdx (chainId : Z) : nat :=
  Z.to_nat (chainId mod maxChainTrackerEntries p).

(** [schedule(pfqEvent, clockEdge(Cycles(1)))]: scheduling an event that is
    already scheduled is an assertion failure. *)
Definition schedulePfq : M MLBTB unit :=
  e ← gets pfqEvent;
  massert (negb (isSome e)) ;;
  modify (fun s => s <| pfqEvent := Some (Cyc.add (curCycle s) 1) |>).

Definition startup : M MLBTB unit := schedulePfq.

(** The loop that collects the distinct tracked chains of the queue. *)
Fixpoint activeChains (q : list DeferredPrefetchEntry) (active : list Z)
  : M MLBTB (list Z) :=
  match q with
  | [] => mret active
  | entry :: q' =>
      if negb (df_chainId entry =? 0) && negb (bool_decide (df_chainId entry ∈ active)) then
        if 0 <? maxChainTrackerEntries p then
          c ← readChain (chainIdx (df_chainId entry));
          if negb (ch_chainId c =? df_chainId entry) then activeChains q' active
          else activeChains q' (active ++ [df_chainId entry])
        else activeChains q' (active ++ [df_chainId entry])
      else activeChains q' active
  end.

(** The entries before [readyEnd], and the rest of the queue. *)
Fixpoint splitReady (now : Cycles) (q : list DeferredPrefetchEntry)
  : list DeferredPrefetchEntry * list DeferredPrefetchEntry :=
  match q with
  | [] => ([], [])
  | entry :: q' =>
      if negb (noPrefetchLatency p) && (now <? df_issueTime entry) then ([], q)
      else let '(ready, rest) := splitReady now q' in (entry :: ready, rest)
  end.

(** Give the chain of [entry] its slot of the chain table, recording the end
    of the chain that held it. *)
Definition allocateChainSlot (entry : DeferredPrefetchEntry) : M MLBTB nat :=
  let tableIdx := chainIdx (df_chainId entry) in
  oldChain ← readChain tableIdx;
  when (negb (ch_chainId oldChain =? df_chainId entry))
    (when (negb (ch_chainId oldChain =? 0))
       (dead ← isChainDead (ch_chainId oldChain);
        (if (dead : bool) || (ch_remainingPrefetches oldChain =? 0)
         then recordChainEnd tableIdx
         else stat S_chainEndEvicted) ;;
        stat (S_prefetchesPerTrigger
                (u32 (df_depth entry - ch_remainingPrefetches oldChain)))) ;;
     writeChain tableIdx (fun _ => mkChain (df_chainId entry) (df_depth entry) CE_None)) ;;
  mret tableIdx.

(** Advance the chain in slot [i] after the prefetch of [pf]: the follow-up
    prefetches along the paths whose prefetch bits are set. *)
Definition advanceChain (i : nat) (entry : DeferredPrefetchEntry) (pf : BTBEntry)
    (arrival : Cycles) : M MLBTB unit :=
  chain ← readChain i;
  if negb (0 <? ch_remainingPrefetches chain) then mret tt else
  writeChain i (fun c => c <| ch_remainingPrefetches ::= fun r => u32 (r - 1) |>) ;;
  chain ← readChain i;
  let completedChain := ch_remainingPrefetches chain =? 0 in
  when completedChain (setEndReason i CE_DepthExhaust) ;;
  t ← deref (target pf);
  let targetAddr := instAddr t in
  let fallThrough := u64 (df_pc entry + minInstSize p) in
  now ← gets curCycle;
  nextBaseLatency ← lift (if now <? arrival then Cyc.sub arrival now else Ok 0);
  ins ← deref (inst pf);
  let pfType := getBranchType ins in
  let isIndirectAlt :=
    indirectAltBit p && isIndirectType pfType && prefetchTarget pf && prefetchThrough pf in
  let doTarget := prefetchTarget pf && negb completedChain && negb isIndirectAlt in
  when doTarget
    (prefetchViaBBMap (df_tid entry) targetAddr true (df_triggeredByPBHit entry) 1
       nextBaseLatency pfType (df_chainId entry) false ;;
     when (limitRet p && bool_decide (pfType = Return)) (setEndReason i CE_RetFilter)) ;;
  let nextBaseLatency := if doTarget then Cyc.add nextBaseLatency 1 else nextBaseLatency in
  when (prefetchThrough pf && negb completedChain && negb isIndirectAlt)
    (prefetchViaBBMap (df_tid entry) fallThrough false (df_triggeredByPBHit entry) 1
       nextBaseLatency pfType (df_chainId entry) false).

(** The prefetch of an entry [pf] found in the L2 or L3 BTB. *)
Definition issuePrefetch (entry : DeferredPrefetchEntry) (chainEntry : option nat)
    (pf : BTBEntry) (pfLatency : Cycles) (fromL3 : bool) : M MLBTB unit :=
  let arrival := Cyc.add (df_issueTime entry) pfLatency in
  enqueuePrefetch (df_pc entry) (df_tid entry) pf arrival (df_toL1 entry)
    (df_triggeredByPBHit entry) 0 (df_takenPrefetched entry) (df_triggerType entry) fromL3 ;;
  chainEntry ← (if df_allocateChain entry && (0 <? maxChainTrackerEntries p)
                then i ← allocateChainSlot entry; mret (Some i)
                else (mret chainEntry : M MLBTB (option nat)));
  match chainEntry with
  | Some i => advanceChain i entry pf arrival
  | None => mret tt
  end.

(** Set the end reason of the chain of a follow-up entry. *)
Definition noteEnd (entry : DeferredPrefetchEntry) (chainEntry : option nat)
    (r : ChainEndReason) : M MLBTB unit :=
  match chainEntry with
  | Some i => when (negb (df_allocateChain entry)) (setEndReason i r)
  | None => mret tt
  end.

(** The lookup of the chain of an entry: whether the entry is to be
    processed, and its slot. *)
Definition checkChain (entry : DeferredPrefetchEntry) : M MLBTB (bool * option nat) :=
  if negb (df_chainId entry =? 0) && (0 <? maxChainTrackerEntries p) then
    let tableIdx := chainIdx (df_chainId entry) in
    c ← readChain tableIdx;
    mret (if negb (ch_chainId c =? df_chainId entry) then df_allocateChain entry
          else negb (ch_remainingPrefetches c =? 0), Some tableIdx)
  else mret (true, None).

(** The body of the loop over the ready entries. *)
Definition processEntry (entry : DeferredPrefetchEntry) : M MLBTB unit :=
  let pc := df_pc entry in
  let tid := df_tid entry in
  vc ← checkChain entry;
  let chainEntry := snd vc in
  if negb (fst vc) then mret tt else
  stat S_enqueueDeferred ;;
  demand ← isDemandAccess pc;
  if (demand : bool) then
    stat S_skipDuetoDemand ;;
    when (negb (df_allocateChain entry)) (i ← deref chainEntry; setEndReason i CE_Demand)
  else
  inL1 ← l1ApproxContains pc tid;
  hit ← (if (inL1 : bool) then (mret true : M MLBTB bool) else pbApproxContains pc tid);
  if (hit : bool) then noteEnd entry chainEntry CE_Presence ;; stat S_skipDuetoPresence else
  l2_pf ← zoom l2btb (AC.findEntry (mkKey pc tid));
  l3_pf ← (if enableL3 p then zoom l3btb (AC.findEntry (mkKey pc tid))
           else (mret None : M MLBTB (option nat)));
  match l2_pf, l3_pf with
  | Some i, _ =>
      stat S_pfL2LookupHit ;;
      pf ← zoom l2btb (AC.readEntry i);
      issuePrefetch entry chainEntry pf (l2Latency p) false
  | None, Some i =>
      stat S_pfL3LookupHit ;;
      pf ← zoom l3btb (AC.readEntry i);
      issuePrefetch entry chainEntry pf (l3Latency p) true
  | None, None =>
      if enableL3 p then stat S_pfL3LookupMiss ;; noteEnd entry chainEntry CE_L3Miss
      else stat S_pfL2LookupMiss ;; noteEnd entry chainEntry CE_L2Miss
  end.

Definition processDeferredPrefetchQueue : M MLBTB unit :=
  schedulePfq ;;
  q ← gets deferredPrefetchQueue;
  when (negb (bool_decide (length q = 0%nat)))
    (active ← activeChains q [];
     stat (S_parallelChains (Z.of_nat (length active)))) ;;
  now ← gets curCycle;
  let '(readyEntries, rest) := splitReady now q in
  modify (fun s => s <| deferredPrefetchQueue := rest |>) ;;
  mfor readyEntries processEntry ;;
  modify (fun s => s <| currentCycleDemand := ∅ |>).

(** *** Lookup *)

(** The statistics on the fall-through branch of a call, in the handlers of
    prefetch buffer and L2 hits. *)
Definition callFallThroughStats (tid : ThreadID) (instPC : Addr) (type : BranchType)
  : M MLBTB unit :=
  bb ← gets bbMap_;
  match bb with
  | None => mret tt
  | Some m =>
      when (isCallType type)
        (stat S_callL2OrPrefetchHits ;;
         match m !! u64 (instPC + minInstSize p) with
         | None => mret tt
         | Some ftPC =>
             a ← zoom l1btb (AC.findEntry (mkKey ftPC tid));
             if isSome a then mret tt else
             b ← zoom pBuffer (AC.findEntry (mkKey ftPC tid));
             if isSome b then mret tt else
             c ← zoom l2btb (AC.findEntry (mkKey ftPC tid));
             when (isSome c) (stat S_callFallThroughL2Only)
         end)
  end.

(** The prefetch bits an entry gets when it is promoted to the L1 BTB. *)
Definition promoteBits (from e : BTBEntry) : BTBEntry :=
  if negb (cleanBitsOnL1Promotion p)
  then setPfBits (prefetchTarget from) (prefetchThrough from) e
  else setPfBits false false e.

Definition handleL1Hit (tid : ThreadID) (instPC : Addr) (l1_entry : nat)
    (type : BranchType) (taken basePrediction : bool) : M MLBTB BTBLookupResult :=
  stat S_l1Hits ;;
  e ← zoom l1btb (AC.readEntry l1_entry);
  let isPrefetchHit := prefetched e in
  (if isPrefetchHit then
     stat (S_prefetchHits (prefetchTriggerType e)) ;;
     zoom l1btb (AC.modifyEntry l1_entry (fun e => e <| prefetched := false |>))
   else
     when (fromPBuffer e)
       (zoom l1btb (AC.modifyEntry l1_entry (fun e => e <| fromPBuffer := false |>)))) ;;
  t ← deref (target e);
  tryInitialTrigger tid instPC type (instAddr t) (prefetchTarget e) (prefetchThrough e)
    basePrediction L1Hit 0 true false ;;
  e ← zoom l1btb (AC.readEntry l1_entry);
  mret (mkLookup (target e) (l1Latency p) true false false false isPrefetchHit false
          (Entry.getDir e) (prefetchTriggerType e)).

(** The promotion of an entry [src] of a lower level to the L1 BTB:
    [freeUpL1Entry], [l1_victim->update(src)] and the tag synchronisation. *)
Definition promote (tid : ThreadID) (instPC : Addr) (src : BTBEntry) : M MLBTB nat :=
  l1_victim ← freeUpL1Entry tid instPC;
  zoom l1btb (AC.modifyEntry l1_victim (Entry.updateFrom src)) ;;
  l1CompressedTagSync instPC tid TA_Insert ;;
  mret l1_victim.

(** The counters of the first use of a prefetched entry. *)
Definition notePrefetchHit (pB_entry : nat) (isInFlight : bool) (coveredCycle : Cycles)
  : M MLBTB unit :=
  e ← zoom pBuffer (AC.readEntry pB_entry);
  when (prefetched e)
    (stat (S_prefetchHits (prefetchTriggerType e)) ;;
     when usesPrefetchBitPolicy
       (if takenPrefetched e then stat (S_prefetchHitsFromTaken (prefetchTriggerType e))
        else stat (S_prefetchHitsFromNotTaken (prefetchTriggerType e))) ;;
     zoom pBuffer (AC.modifyEntry pB_entry (fun e =>
       e <| prefetched := false |> <| takenPrefetched := false |>)) ;;
     let bucket := if isInFlight then coveredCycle else 4 in
     (if triggeredByPBHit e then stat (S_latePrefetchByPBHit bucket)
      else stat (S_latePrefetchByL2Hit bucket)) ;;
     zoom pBuffer (AC.modifyEntry pB_entry (fun e => e <| triggeredByPBHit := false |>))).

Definition handlePBufferHit (tid : ThreadID) (instPC : Addr) (pB_entry : nat)
    (type : BranchType) (taken basePrediction : bool) : M MLBTB BTBLookupResult :=
  e ← zoom pBuffer (AC.readEntry pB_entry);
  now ← gets curCycle;
  let isInFlight := negb (noPrefetchLatency p) && (0 <? timestamp e) && (now <? timestamp e) in
  remainingTime ← lift (if isInFlight then Cyc.sub (timestamp e) now else Ok 0);
  let totalLatency := if prefetchedFromL3 e then l3Latency p else l2Latency p in
  coveredCycle ← lift (if isInFlight then Cyc.sub totalLatency remainingTime else Ok 0);
  let triggerType := prefetchTriggerType e in
  notePrefetchHit pB_entry isInFlight coveredCycle ;;
  e ← zoom pBuffer (AC.readEntry pB_entry);
  l1_victim ← promote tid instPC e;
  zoom l1btb (AC.modifyEntry l1_victim (fun v =>
    promoteBits e (v <| predTaken := predTaken e |> <| prefetched := false |>))) ;;
  stat S_l1Installed ;;
  stat S_pbHits ;;
  callFallThroughStats tid instPC type ;;
  t ← deref (target e);
  tryInitialTrigger tid instPC type (instAddr t) (prefetchTarget e) (prefetchThrough e)
    basePrediction PBHit remainingTime (negb isInFlight || (0 <? coveredCycle)) true ;;
  zoom pBuffer (AC.invalidate (K:=BTBKey) pB_entry) ;;
  pbCompressedTagSync instPC tid TA_Invalidate ;;
  when (limitedMarkov p)
    (prefetchMarkovSuccessor (Z.to_nat (prefetchDepth p)) tid instPC false 1 true
       remainingTime type) ;;
  v ← zoom l1btb (AC.readEntry l1_victim);
  mret (mkLookup (target v) remainingTime false true false false true false
          (Entry.getDir v) triggerType).

(** [update] does not read [prefetchedFromL3], which the copy constructor of
    the snapshot leaves uninitialised. *)
Definition handleL2Hit (tid : ThreadID) (instPC : Addr) (l2_entry : nat)
    (type : BranchType) (taken : bool) : M MLBTB BTBLookupResult :=
  stat S_l1MissL2Hits ;;
  callFallThroughStats tid instPC type ;;
  t ← gets curTick;
  when (nonexclusive p) (zoom l2btb (AC.accessEntry t l2_entry)) ;;
  e ← zoom l2btb (AC.readEntry l2_entry);
  let l2_snapshot := Entry.copy false e in
  when (negb (nonexclusive p)) (zoom l2btb (AC.invalidate (K:=BTBKey) l2_entry)) ;;
  l1_victim ← promote tid instPC l2_snapshot;
  zoom l1btb (AC.modifyEntry l1_victim (promoteBits l2_snapshot)) ;;
  when (limitedMarkov p)
    (prefetchMarkovSuccessor (Z.to_nat (prefetchDepth p)) tid instPC false 1 false
       (l2Latency p) type) ;;
  tgt ← deref (target l2_snapshot);
  tryInitialTrigger tid instPC type (instAddr tgt) (prefetchTarget l2_snapshot)
    (prefetchThrough l2_snapshot) taken L2Hit (l2Latency p) false true ;;
  v ← zoom l1btb (AC.readEntry l1_victim);
  mret (mkLookup (target v) (l2Latency p) false false true false false false
          (Entry.getDir v) NoBranch).

Definition handleL3Hit (tid : ThreadID) (instPC : Addr) (l3_entry : nat)
    (type : BranchType) (taken : bool) : M MLBTB BTBLookupResult :=
  stat S_l3Hits ;;
  t ← gets curTick;
  when (nonexclusive p) (zoom l3btb (AC.accessEntry t l3_entry)) ;;
  e ← zoom l3btb (AC.readEntry l3_entry);
  let l3_snapshot := Entry.copy false e in
  when (negb (nonexclusive p)) (zoom l3btb (AC.invalidate (K:=BTBKey) l3_entry)) ;;
  l1_entry ← promote tid instPC l3_snapshot;
  tgt ← deref (target l3_snapshot);
  tryInitialTrigger tid instPC type (instAddr tgt) (prefetchTarget l3_snapshot)
    (prefetchThrough l3_snapshot) taken L3Hit (l3Latency p) false true ;;
  v ← zoom l1btb (AC.readEntry l1_entry);
  mret (mkLookup (target v) (l3Latency p) false false false true false false
          (Entry.getDir v) NoBranch).

(** The training at the start of a lookup when [trainBitsOnLookup] is set. *)
Definition trainOnLookup (tid : ThreadID) (blockStartAddr : Addr) : M MLBTB unit :=
  o ← gets (fun s => prevBlockInfo s !! Z.to_nat tid);
  prev ← at_index o;
  when (pb_valid prev)
    (prevL1 ← zoom l1btb (AC.findEntry (mkKey (pb_branchPC prev) tid));
     match prevL1 with
     | None => mret tt
     | Some i =>
         zoom l1btb (AC.modifyEntry i (fun e =>
           let e := if blockStartAddr =? pb_target prev
                    then e <| prefetchTarget := true |> else e in
           if blockStartAddr =? pb_fallThrough prev
           then e <| prefetchThrough := true |> else e))
     end).

(** Record the block of the entry [i] of [lvl] that the lookup found. *)
Definition recordBlock (lvl : MLBTB -> BTBCache) `{!Setter lvl} (tid : ThreadID)
    (instPC blockStartAddr : Addr) (i : nat) : M MLBTB unit :=
  when (trainBitsOnLookup p && negb (blockStartAddr =? 0))
    (e ← zoom lvl (AC.readEntry i);
     t ← deref (target e);
     recordPrevBlockInfo tid instPC (instAddr t)).

Definition lookupWithLatency (tid : ThreadID) (instPC : Addr) (type : BranchType)
    (taken : bool) (blockStartAddr : Addr) (basePrediction : bool)
  : M MLBTB BTBLookupResult :=
  recordDemandLookup instPC ;;
  stat (S_base (BS_lookups type)) ;;
  when (trainBitsOnLookup p && negb (blockStartAddr =? 0)) (trainOnLookup tid blockStartAddr) ;;
  t ← gets curTick;
  l1_entry ← zoom l1btb (AC.accessEntryByKey t (mkKey instPC tid));
  l1CompressedTagSync instPC tid TA_Hit ;;
  match l1_entry with
  | Some i =>
      recordBlock l1btb tid instPC blockStartAddr i ;;
      handleL1Hit tid instPC i type taken basePrediction
  | None =>
  pB_entry ← (if limitedMarkov p || trainBitsOnLookup p || trainBitsOnCommit p
              then zoom pBuffer (AC.accessEntryByKey t (mkKey instPC tid))
              else (mret None : M MLBTB (option nat)));
  match pB_entry with
  | Some i =>
      recordBlock pBuffer tid instPC blockStartAddr i ;;
      handlePBufferHit tid instPC i type taken basePrediction
  | None =>
  l2_entry ← zoom l2btb (AC.accessEntryByKey t (mkKey instPC tid));
  match l2_entry with
  | Some i =>
      recordBTBAccess L2 NormalL2Hit ;;
      recordBlock l2btb tid instPC blockStartAddr i ;;
      handleL2Hit tid instPC i type taken
  | None =>
  l3_entry ← (if enableL3 p then zoom l3btb (AC.accessEntryByKey t (mkKey instPC tid))
              else (mret None : M MLBTB (option nat)));
  match l3_entry with
  | Some i =>
      recordBlock l3btb tid instPC blockStartAddr i ;;
      handleL3Hit tid instPC i type taken
  | None => fault Panic
  end end end end.

Definition lookup (tid : ThreadID) (instPC : Addr) (type : BranchType)
  : M MLBTB (option PCStateBase) :=
  result ← lookupWithLatency tid instPC type true 0 true;
  mret (res_target result).

(** *** Life cycle *)

Definition clearChain (_ : ActiveChainEntry) : ActiveChainEntry := mkChain 0 0 CE_None.

Definition memInvalidate : M MLBTB unit :=
  zoom l1btb (AC.clear (K:=BTBKey)) ;;
  zoom l2btb (AC.clear (K:=BTBKey)) ;;
  when (enableL3 p) (zoom l3btb (AC.clear (K:=BTBKey))) ;;
  zoom pBuffer (AC.clear (K:=BTBKey)) ;;
  zoom l1CompressedTags (AC.clear (K:=BTBKey)) ;;
  zoom pbCompressedTags (AC.clear (K:=BTBKey)) ;;
  modify (fun s => s <| deferredPrefetchQueue := [] |>) ;;
  modify (fun s => s <| chainTable ::= fmap clearChain |>).

Definition setBBMap (m : option (gmap Z Z)) : M MLBTB unit :=
  modify (fun s => s <| bbMap_ := m |>).

(** [BranchTargetBuffer::incorrectTarget] *)
Definition incorrectTarget (inst_pc : Addr) (type : BranchType) : M MLBTB unit :=
  stat (S_base (BS_mispredict type)).

Definition preDumpStats : M MLBTB unit :=
  succs ← gets markovSuccessors;
  mfor succs (fun kv => stat (S_successorCountDist (Z.of_nat (length (snd kv))))) ;;
  modify (fun s => s <| markovSuccessors := [] |>) ;;
  modify (fun s => s <| prevBranchPC ::= fmap (fun _ => 0) |>).
End Ops.

(** *** The constructor

    The indexing policies are built as the parameter class configures them.
    [FIFO::timeTicks] and [prevBwBranch] are not initialised by the code:
    their values are the arguments [pbTicks], [ctTicks] and [garbage]. *)
Definition make (p : MLParams) (g : MLGeometry) (pbTicks ctTicks : Tick) (garbage : PrevBrInfo)
  : Res MLBTB :=
  let shift := g_instShiftAmt g in
  let build num assoc idxAssoc tagBits pol :=
    ip ← BSA.make idxAssoc num shift tagBits 1;
    AC.make num assoc pol ip Entry.init in
  l1 ← build (g_l1NumEntries g) (g_l1Associativity g) (g_l1Associativity g) (g_tagBits g) PolicyLRU;
  pb ← build (g_pBufferSize g) 1 8 (g_tagBits g) (PolicyFIFO pbTicks);
  l2 ← build (g_l2NumEntries g) (g_l2Associativity g) (g_l2Associativity g) (g_tagBits g) PolicyLRU;
  l3 ← build (g_l3NumEntries g) (g_l3Associativity g) (g_l3Associativity g) (g_tagBits g) PolicyLRU;
  mip ← TSA.make (g_markov_assoc g) (g_markov_entries g) 1;
  mk ← AC.make (K:=TaggedKey) (g_markov_entries g) (g_markov_assoc g) PolicyLRU mip MkEntry.init;
  ct ← build (g_l1NumEntries g) (g_l1Associativity g) (g_l1Associativity g)
         (g_compressedTagBits g) PolicyLRU;
  pct ← build (g_pBufferSize g) 8 8 (g_compressedTagBits g) (PolicyFIFO ctTicks);
  Ok {| l1btb := l1; pBuffer := pb; l2btb := l2; l3btb := l3;
        l1CompressedTags := ct; pbCompressedTags := pct; markov := mk;
        markovSuccessors := [];
        prevBranches := (fun i => (Z.of_nat i, false)) <$> seq 0 4;
        prevBranchPC := replicate (Z.to_nat (g_numThreads g)) 0;
        prevBlockInfo := replicate (Z.to_nat (g_numThreads g)) (mkPrevBlock 0 0 0 false);
        deferredPrefetchQueue := []; nextChainId := 1;
        chainTable := replicate (Z.to_nat (maxChainTrackerEntries p)) (mkChain 0 0 CE_None);
        currentCycleDemand := ∅; prevBwBranch := garbage; bbMap_ := None;
        mlstats := []; curTick := 0; curCycle := 0; pfqEvent := None |}.
End ML.

(** The multi-level BTB behind the interface of the branch predictor. *)
#[export] Instance MultiLevelBTB_btb (p : MLParams) : BranchTargetBuffer MLBTB := {|
  btb_memInvalidate := ML.memInvalidate p;
  btb_valid := ML.valid p;
  btb_lookup := ML.lookup p;
  btb_lookupWithLatency := ML.lookupWithLatency p;
  btb_getInst := ML.getInst p;
  btb_update := ML.update p;
  btb_incorrectTarget := ML.incorrectTarget;
  btb_updateDirection := ML.updateDirection;
  btb_lookupL1 := ML.lookupL1;
  btb_recordBTBAccess := ML.recordBTBAccess
|}.

