(* ===== verification/MultiLevelWp.v ===== *)
(** * MultiLevelBTB: symbolic execution rules

    One rule per member function of [MultiLevelBTB]: the function returns, and
    the state it leaves is described by what it may change.  The invariants
    ([MultiLevelInv]) and the functional theorems ([MultiLevelSpec]) are proved
    from these rules. *)

From Stdlib Require Import ZArith Lia.
From stdpp Require Import base list gmap numbers.
From S2P Require Import Prelude Types SatCounter ReplPolicy AssocCache AssocCacheInit BtbEntry Btb MultiLevelBtb.

#[global] Arguments ML.stat : simpl never.
#[global] Arguments ML.recordBTBAccess : simpl never.

(** ** Fields that behave like fields *)
Class LawfulSetter {S T} (f : S -> T) `{!Setter f} := {
  setf_id : forall s, setf f (fun _ => f s) s = s;
  get_setf : forall g s, f (setf f g s) = g (f s)
}.

#[export] Instance lawful_l1 : LawfulSetter l1btb.
Proof. split; [by intros [] | by intros]. Qed.
#[export] Instance lawful_pb : LawfulSetter pBuffer.
Proof. split; [by intros [] | by intros]. Qed.
#[export] Instance lawful_l2 : LawfulSetter l2btb.
Proof. split; [by intros [] | by intros]. Qed.
#[export] Instance lawful_l3 : LawfulSetter l3btb.
Proof. split; [by intros [] | by intros]. Qed.
#[export] Instance lawful_ct : LawfulSetter l1CompressedTags.
Proof. split; [by intros [] | by intros]. Qed.
#[export] Instance lawful_pct : LawfulSetter pbCompressedTags.
Proof. split; [by intros [] | by intros]. Qed.

Section Zoomed.
Context (lvl : MLBTB -> BTBCache) `{!Setter lvl} `{!LawfulSetter lvl}.

Lemma wp_zfind s (key : BTBKey) (Q : option nat -> MLBTB -> Prop) :
  AC.wf (K:=BTBKey) (lvl s) -> Q (AC.find (lvl s) key) s ->
  wp (zoom lvl (AC.findEntry key)) Q s.
Proof.
  intros Hwf HQ. apply wp_zoom. apply AC.wp_findEntry; [done|]. by rewrite setf_id.
Qed.

Lemma wp_zread s i e (Q : BTBEntry -> MLBTB -> Prop) :
  entries (lvl s) !! i = Some e -> Q e s -> wp (zoom lvl (AC.readEntry i)) Q s.
Proof.
  intros He HQ. apply wp_zoom. eapply AC.wp_readEntry; [done|]. by rewrite setf_id.
Qed.
End Zoomed.

(** ** Counting *)

Lemma stat_count_insert {A} (f : A -> bool) l i x y :
  l !! i = Some x ->
  stat_count f (<[i := y]> l) =
    stat_count f l - (if f x then 1 else 0) + (if f y then 1 else 0).
Proof.
  revert i. induction l as [|z l IH]; intros i Hi; [done|].
  destruct i as [|i]; cbn [lookup list_lookup] in Hi.
  - injection Hi as ->. cbn. lia.
  - change (<[S i := y]> (z :: l)) with (z :: <[i := y]> l). cbn [stat_count].
    rewrite (IH i Hi). lia.
Qed.

Definition isHitStat (x : MLStat) : bool :=
  match x with S_prefetchHits _ => true | _ => false end.
Definition isUselessStat (x : MLStat) : bool :=
  match x with S_uselessPrefetches _ => true | _ => false end.
Definition isTotalStat (x : MLStat) : bool :=
  match x with S_totalPrefetches => true | _ => false end.

(** Prefetches accounted for, minus prefetches issued. *)
Definition balance (st : list MLStat) : Z :=
  stat_count isHitStat st + stat_count isUselessStat st - stat_count isTotalStat st.

(** A counter that takes no part in the accounting of prefetches. *)
Definition neutral (x : MLStat) : bool :=
  negb (isHitStat x) && negb (isUselessStat x) && negb (isTotalStat x).

Lemma balance_neutral x st : neutral x = true -> balance (x :: st) = balance st.
Proof. destruct x; done || (intros _; unfold balance; cbn; lia). Qed.

(** Prefetched entries of the buffer that no lookup has used. *)
Definition pending (c : BTBCache) : Z := stat_count prefetched (entries c).

(** ** Levels *)

(** A valid entry has a target and an instruction. *)
Definition complete (e : BTBEntry) : Prop :=
  BtbEntry.valid e = true -> is_Some (target e) /\ is_Some (inst e).

Record level_ok (c : BTBCache) : Prop := {
  lv_wf : AC.wf (K:=BTBKey) c;
  lv_complete : Forall complete (entries c)
}.

Lemma level_at c i e : level_ok c -> entries c !! i = Some e -> complete e.
Proof.
  intros [_ H] He. eapply (proj1 (list.Forall_forall _ _) H).
  by eapply list_elem_of_lookup_2.
Qed.

Lemma level_same c c' :
  level_ok c -> AC.same_shape c c' -> entries c' = entries c -> level_ok c'.
Proof. intros [H1 H2] Hs He. split; [by eapply AC.wf_shape | by rewrite He]. Qed.

Lemma level_write c c' i e :
  level_ok c -> AC.same_shape c c' -> entries c' = <[i := e]> (entries c) ->
  complete e -> level_ok c'.
Proof.
  intros [H1 H2] Hs He Hc. split; [by eapply AC.wf_shape|]. rewrite He.
  by apply Forall_insert.
Qed.

Lemma level_find c key i :
  level_ok c -> AC.find c key = Some i ->
  exists e, entries c !! i = Some e /\ BtbEntry.valid e = true /\
    Entry.matches (AC.extractTag (K:=BTBKey) c) key e = true /\
    is_Some (target e) /\ is_Some (inst e).
Proof.
  intros Hl Hf. destruct (AC.find_Some _ _ _ Hf) as (_ & e & He & Hm).
  pose proof (ce_match_valid (K:=BTBKey) _ _ _ Hm) as Hv. cbn in Hv.
  exists e. repeat split; try done; by apply (level_at c i e).
Qed.

(** The lookup of a key after its entry was written where the key is found or
    could be found. *)
Lemma find_write (c c' : BTBCache) key v e :
  AC.wf (K:=BTBKey) c ->
  indexingPolicy c' = indexingPolicy c -> entries c' = <[v := e]> (entries c) ->
  v ∈ AC.candidates (indexingPolicy c) key ->
  AC.find c key = None \/ AC.find c key = Some v ->
  Entry.matches (AC.extractTag (K:=BTBKey) c) key e = true ->
  AC.find c' key = Some v /\ AC.get c' key = Some e.
Proof.
  intros Hwf Hi He Hv Hf Hm.
  destruct (AC.candidates_bound c key v Hwf Hv) as [e0 He0].
  assert (Hf' : AC.find c' key = Some v).
  { unfold AC.find, AC.extractTag in *. rewrite Hi, He.
    apply AC.find_in_insert; done. }
  split; [done|]. eapply AC.find_get; [done|]. rewrite He.
  apply list_lookup_insert_eq. by eapply lookup_lt_Some.
Qed.

(** ** The rules *)
Lemma wp_stat x s (Q : unit -> MLBTB -> Prop) :
  stat_index_ok x = true -> Q tt (s <| mlstats := x :: mlstats s |>) -> wp (ML.stat x) Q s.
Proof. intros H HQ. unfold ML.stat. rewrite H. by apply wp_modify. Qed.

Lemma wp_neutral x s (Q : unit -> MLBTB -> Prop) :
  stat_index_ok x && neutral x = true ->
  (forall st, balance st = balance (mlstats s) -> Q tt (s <| mlstats := st |>)) ->
  wp (ML.stat x) Q s.
Proof.
  intros [H1 H2]%andb_prop HQ. apply wp_stat; [done|]. apply HQ. by apply balance_neutral.
Qed.

Lemma wp_recordBTBAccess level reason s (Q : unit -> MLBTB -> Prop) :
  (forall st, balance st = balance (mlstats s) -> Q tt (s <| mlstats := st |>)) ->
  wp (ML.recordBTBAccess level reason) Q s.
Proof.
  intros HQ. unfold ML.recordBTBAccess.
  repeat first [ progress wp_steps
               | match goal with |- wp (ML.stat _) _ _ => apply wp_neutral; [done|]; intros ? ? end ];
    first [ by destruct level | destruct s; apply HQ; cbn in *; congruence ].
Qed.

(** [stat_step] passes over counters outside the accounting. *)
Ltac stat_step :=
  lazymatch goal with
  | |- wp (ML.stat _) _ _ => apply wp_neutral; [done|]
  | |- wp (ML.recordBTBAccess _ _) _ _ => apply wp_recordBTBAccess
  end;
  let st := fresh "st" in let H := fresh "Hbal" in intros st H; cbn in H.

Section Rules.
Context (p : MLParams).

(** *** Compressed tags *)

Lemma wp_approxContains (comp full : MLBTB -> BTBCache)
    `{!Setter comp} `{!Setter full} `{!LawfulSetter comp} `{!LawfulSetter full}
    pc tid s (Q : bool -> MLBTB -> Prop) :
  AC.wf (K:=BTBKey) (comp s) -> AC.wf (K:=BTBKey) (full s) ->
  (forall st, comp (s <| mlstats := st |>) = comp s) ->
  (forall st, full (s <| mlstats := st |>) = full s) ->
  (forall b st, balance st = balance (mlstats s) ->
     (useCompressedTagFilter p = false -> b = isSome (AC.find (full s) (mkKey pc tid))) ->
     Q b (s <| mlstats := st |>)) ->
  wp (ML.approxContains p comp full pc tid) Q s.
Proof.
  intros Hc Hf Ec Ef HQ. unfold ML.approxContains. apply wp_if; intros Hu.
  - apply wp_bind, wp_zfind; [done|done|]. apply wp_ret.
    destruct s; by apply (HQ _ _ eq_refl).
  - apply negb_false_iff in Hu.
    apply wp_bind, wp_zfind; [done|done|]. apply wp_bind, wp_zfind; [done|done|].
    apply wp_bind. stat_step. apply wp_bind.
    set (a := AC.find (comp s) (mkKey pc tid)). set (e := AC.find (full s) (mkKey pc tid)).
    eapply (wp_mono _ (fun _ s1 => exists st, balance st = balance (mlstats s) /\
                                     s1 = s <| mlstats := st |>)).
    { repeat first [ progress wp_steps | stat_step ];
        first [ by eexists | eexists; split; [|reflexivity]; cbn in *; congruence ]. }
    intros [] s1 (st1 & Hb1 & ->).
    apply wp_bind, wp_zfind; [done|by rewrite Ec|]. apply wp_bind, wp_zfind; [done|by rewrite Ef|].
    rewrite Ec, Ef. fold a e. apply wp_bind.
    eapply (wp_mono _ (fun _ s1 => exists st, balance st = balance (mlstats s) /\
                                     s1 = s <| mlstats := st |>)).
    { destruct a as [i|] eqn:Ea; [|by apply wp_ret; eexists].
      destruct e as [j|] eqn:Ee; [|by apply wp_ret; eexists].
      destruct (AC.find_Some _ _ _ Ea) as (_ & e1 & He1 & _).
      destruct (AC.find_Some _ _ _ Ee) as (_ & e2 & He2 & _).
      apply wp_bind. eapply wp_zread; [done|by rewrite Ec|].
      apply wp_bind. eapply wp_zread; [done|by rewrite Ef|].
      wp_step; [|by eexists]. stat_step. eexists; split; [|reflexivity]; cbn in *; congruence. }
    intros [] s2 (st2 & Hb2 & ->). apply wp_ret. apply HQ; [done|congruence].
Qed.

Lemma wp_l1ApproxContains pc tid s (Q : bool -> MLBTB -> Prop) :
  AC.wf (K:=BTBKey) (l1CompressedTags s) -> AC.wf (K:=BTBKey) (l1btb s) ->
  (forall b st, balance st = balance (mlstats s) ->
     (useCompressedTagFilter p = false -> b = isSome (AC.find (l1btb s) (mkKey pc tid))) ->
     Q b (s <| mlstats := st |>)) ->
  wp (ML.l1ApproxContains p pc tid) Q s.
Proof. intros. by apply wp_approxContains; try apply _. Qed.

Lemma wp_pbApproxContains pc tid s (Q : bool -> MLBTB -> Prop) :
  AC.wf (K:=BTBKey) (pbCompressedTags s) -> AC.wf (K:=BTBKey) (pBuffer s) ->
  (forall b st, balance st = balance (mlstats s) ->
     (useCompressedTagFilter p = false -> b = isSome (AC.find (pBuffer s) (mkKey pc tid))) ->
     Q b (s <| mlstats := st |>)) ->
  wp (ML.pbApproxContains p pc tid) Q s.
Proof. intros. by apply wp_approxContains; try apply _. Qed.

(** An invalid entry can be inserted; the result is complete once it has a
    target and an instruction. *)
Lemma insert_invalidated ext key e :
  exists e1, Entry.insert ext key (Entry.invalidate e) = Ok e1 /\
    BtbEntry.valid e1 = true /\ Entry.matches ext key e1 = true /\
    prefetched e1 = false /\ branchAddr e1 = key_address key /\ timestamp e1 = 0.
Proof.
  eexists. split; [reflexivity|]. unfold Entry.matches. cbn. by rewrite !Z.eqb_refl.
Qed.

Lemma lookup_written (c c' : BTBCache) i e0 e :
  entries c !! i = Some e0 -> entries c' = <[i := e]> (entries c) -> entries c' !! i = Some e.
Proof. intros H ->. apply list_lookup_insert_eq. by eapply lookup_lt_Some. Qed.

Lemma wp_l1CompressedTagSync pc tid a s (Q : unit -> MLBTB -> Prop) :
  AC.wf (K:=BTBKey) (l1CompressedTags s) ->
  (forall ct, AC.wf (K:=BTBKey) ct -> Q tt (s <| l1CompressedTags := ct |>)) ->
  wp (ML.l1CompressedTagSync p pc tid a) Q s.
Proof.
  intros Hwf HQ. assert (Hs : Q tt s) by (destruct s; by apply HQ).
  unfold ML.l1CompressedTagSync. wp_step; [done|]. wp_steps. destruct a.
  - wp_steps. apply AC.wp_accessEntryByKey; [done|]. intros c' Hsh _. wp_steps.
    apply HQ. by eapply AC.wf_shape.
  - apply wp_bind, wp_zfind; [apply _|done|].
    destruct (AC.find _ _) as [i|] eqn:Ef.
    + destruct (AC.find_Some _ _ _ Ef) as (_ & e & He & _). wp_steps.
      apply AC.wp_accessEntry; [done|by rewrite He|]. intros c' Hsh _.
      apply HQ. by eapply AC.wf_shape.
    + wp_steps. apply AC.wp_findVictim; [done|]. intros v e c1 _ He Hs1 He1.
      assert (Hwf1 : AC.wf (K:=BTBKey) c1) by (by eapply AC.wf_shape).
      destruct (insert_invalidated (AC.extractTag (K:=BTBKey) c1) (mkKey pc tid) e)
        as (e1 & Hins & _).
      wp_steps. eapply AC.wp_insertEntry; [done|by eapply lookup_written|exact Hins|].
      intros c2 Hs2 _. apply HQ. by eapply AC.wf_shape.
  - by apply wp_ret.
Qed.

Lemma wp_pbCompressedTagSync pc tid a s (Q : unit -> MLBTB -> Prop) :
  AC.wf (K:=BTBKey) (pbCompressedTags s) ->
  (forall ct, AC.wf (K:=BTBKey) ct -> Q tt (s <| pbCompressedTags := ct |>)) ->
  wp (ML.pbCompressedTagSync p pc tid a) Q s.
Proof.
  intros Hwf HQ. assert (Hs : Q tt s) by (destruct s; by apply HQ).
  unfold ML.pbCompressedTagSync. wp_step; [done|]. wp_steps. destruct a.
  - by apply wp_ret.
  - wp_steps. apply AC.wp_findVictim; [done|]. intros v e c1 _ He Hs1 He1.
    assert (Hwf1 : AC.wf (K:=BTBKey) c1) by (by eapply AC.wf_shape).
    destruct (insert_invalidated (AC.extractTag (K:=BTBKey) c1) (mkKey pc tid) e)
      as (e1 & Hins & _).
    wp_steps. eapply AC.wp_insertEntry; [done|by eapply lookup_written|exact Hins|].
    intros c2 Hs2 _. apply HQ. by eapply AC.wf_shape.
  - apply wp_bind, wp_zfind; [apply _|done|].
    destruct (AC.find _ _) as [i|] eqn:Ef; [|by apply wp_ret].
    destruct (AC.find_Some _ _ _ Ef) as (_ & e & He & _). wp_steps.
    eapply AC.wp_invalidate; [done|done|]. intros c' Hsh _.
    apply HQ. by eapply AC.wf_shape.
Qed.

(** *** enqueuePrefetch *)

(** [pb'] is [pb] with the prefetch of [src] for [key] written into one of the
    ways of the key. *)
Definition filled (key : BTBKey) (src : BTBEntry) (arrival : Cycles) (fromL3 : bool)
    (pb pb' : BTBCache) : Prop :=
  exists v e, v ∈ AC.candidates (indexingPolicy pb) key /\
    entries pb' = <[v := e]> (entries pb) /\
    Entry.matches (AC.extractTag (K:=BTBKey) pb) key e = true /\
    BtbEntry.valid e = true /\ prefetched e = true /\ target e = target src /\
    inst e = inst src /\ timestamp e = arrival /\ prefetchedFromL3 e = fromL3 /\
    prefetchTarget e = prefetchTarget src /\ prefetchThrough e = prefetchThrough src.

Lemma set_Some d t : PCS.set d (Some t) = Some t.
Proof. destruct d, t; done. Qed.

Lemma fillPrefetched_fields src t arrival byPB fromL3 dist taken ty e :
  target src = Some t ->
  let e' := ML.fillPrefetched p src t arrival byPB fromL3 dist taken ty e in
  BtbEntry.valid e' = BtbEntry.valid e /\ tag e' = tag e /\ prefetched e' = true /\
  target e' = target src /\ inst e' = inst src /\ timestamp e' = arrival /\
  prefetchedFromL3 e' = fromL3 /\ prefetchTarget e' = prefetchTarget src /\
  prefetchThrough e' = prefetchThrough src.
Proof.
  intros Ht. unfold ML.fillPrefetched. rewrite Ht.
  destruct (_ && taken); cbn; by rewrite set_Some.
Qed.

(** The victim is replaced: one prefetch issued, and one useless if the
    victim had not been used. *)
Lemma wp_enqueuePrefetch pc tid src arrival toL1 byPB dist taken ty fromL3 s
    (Q : unit -> MLBTB -> Prop) :
  AC.wf (K:=BTBKey) (l1CompressedTags s) -> AC.wf (K:=BTBKey) (l1btb s) ->
  AC.wf (K:=BTBKey) (pbCompressedTags s) -> AC.wf (K:=BTBKey) (pBuffer s) ->
  is_Some (target src) ->
  (forall pb pct st, AC.wf (K:=BTBKey) pct -> AC.same_shape (pBuffer s) pb ->
     balance st + pending pb = balance (mlstats s) + pending (pBuffer s) ->
     entries pb = entries (pBuffer s) /\
       (useCompressedTagFilter p = false ->
        isSome (AC.find (l1btb s) (mkKey pc tid)) || isSome (AC.find (pBuffer s) (mkKey pc tid))
          = true) \/
     filled (mkKey pc tid) src arrival fromL3 (pBuffer s) pb ->
     Q tt (s <| pBuffer := pb |> <| pbCompressedTags := pct |> <| mlstats := st |>)) ->
  wp (ML.enqueuePrefetch p pc tid src arrival toL1 byPB dist taken ty fromL3) Q s.
Proof.
  intros Hct Hl1 Hpct Hpb [t Ht] HQ. unfold ML.enqueuePrefetch. apply wp_bind.
  apply wp_l1ApproxContains; [done..|]. intros b1 st1 Hb1 E1. apply wp_bind.
  apply (wp_mono _ (fun b s1 => exists st, balance st = balance (mlstats s) /\
    s1 = s <| mlstats := st |> /\
    (useCompressedTagFilter p = false -> b = true ->
     isSome (AC.find (l1btb s) (mkKey pc tid)) || isSome (AC.find (pBuffer s) (mkKey pc tid))
       = true))).
  { destruct b1.
    - apply wp_ret. exists st1. split; [done|]. split; [done|]. intros Hu _.
      by rewrite <- E1.
    - apply wp_pbApproxContains; [done..|]. intros b2 st2 Hb2 E2. cbn in *.
      exists st2. split; [congruence|]. split; [done|]. intros Hu ->.
      rewrite <- E2 by done. apply orb_true_r. }
  intros b s1 (st2 & Hb2 & -> & E2). destruct b.
  { apply wp_ret. destruct s as [? pb0 ? ? ? pct0]. apply (HQ pb0 pct0 st2); try done.
    - cbn in *. congruence.
    - left. auto. }
  apply wp_bind. stat_step. apply wp_bind, wp_stat; [done|]. apply wp_bind. stat_step.
  apply wp_bind. apply (wp_mono _ (fun _ s1 => exists st,
    balance st = balance (mlstats s) - 1 /\ s1 = s <| mlstats := st |>)).
  { assert (Hb3 : balance st0 = balance (mlstats s) - 1).
    { rewrite Hbal0. unfold balance in *. cbn. lia. }
    repeat first [ progress wp_steps | stat_step ];
      eexists; (split; [|reflexivity]); cbn in *; congruence. }
  intros [] s2 (st3 & Hb3 & ->). wp_steps. cbn.
  apply AC.wp_findVictim; [done|]. intros v e0 pb1 Hv He0 Hs1 He1. cbn in *.
  assert (Hwf1 : AC.wf (K:=BTBKey) pb1) by (by eapply AC.wf_shape).
  assert (Hv1 : entries pb1 !! v = Some (Entry.invalidate e0)) by (by eapply lookup_written).
  apply wp_bind, wp_zoom. eapply AC.wp_readEntry; [exact Hv1|]. apply wp_bind.
  apply (wp_mono _ (fun _ s1 => exists st, balance st =
    balance (mlstats s) - 1 + (if prefetched e0 then 1 else 0) /\
    s1 = s <| pBuffer := pb1 |> <| mlstats := st |>)).
  { cbn. destruct (prefetched e0); cbn.
    - apply wp_stat; [done|]. eexists. split; [|reflexivity].
      unfold balance in *. cbn in *. lia.
    - apply wp_ret. exists st3. split; [lia|done]. }
  intros [] s3 (st4 & Hb4 & ->). wp_steps. cbn.
  destruct (insert_invalidated (AC.extractTag (K:=BTBKey) pb1) (mkKey pc tid) e0)
    as (e1 & Hins & Hval & Hm & _).
  eapply AC.wp_insertEntry; [done|exact Hv1|exact Hins|]. intros pb2 Hs2 He2. cbn.
  apply wp_bind, wp_pbCompressedTagSync; [done|]. intros pct Hpct'.
  apply wp_bind. eapply wp_deref; [exact Ht|]. wp_steps. cbn.
  assert (Hv2 : entries pb2 !! v = Some e1) by (by eapply lookup_written).
  eapply AC.wp_modifyEntry; [exact Hv2|]. cbn.
  destruct (fillPrefetched_fields src t arrival byPB fromL3 dist taken ty e1 Ht)
    as (F1 & F2 & F3 & F4 & F5 & F6 & F7 & F8 & F9).
  set (e2 := ML.fillPrefetched _ _ _ _ _ _ _ _ _ _) in *.
  assert (Hent : <[v := e2]> (entries pb2) = <[v := e2]> (entries (pBuffer s))).
  { by rewrite He2, He1, !list_insert_insert_eq. }
  assert (Hsh : AC.same_shape (pBuffer s) (pb2 <| entries ::= <[v := e2]> |>)).
  { etransitivity; [exact Hs1|]. etransitivity; [exact Hs2|].
    apply AC.same_shape_insert. }
  eapply (HQ (pb2 <| entries ::= <[v := e2]> |>) pct st4); [done|exact Hsh| |].
  - unfold pending. cbn. rewrite Hent, (stat_count_insert _ _ _ _ _ He0), F3.
    lia.
  - right. exists v, e2. repeat split; try done.
    + rewrite (matches_ext _ _ e1) by done.
      destruct Hs1 as [Hi _]. unfold AC.extractTag in *. by rewrite Hi in Hm.
    + by rewrite F1.
Qed.

(** *** Triggers *)

(** The configuration switches that close a trigger location. *)
Definition closed (loc : TriggerLocation) : bool :=
  match loc with
  | L1Hit => negb (prefetchFwExitOnL1Hit p)
  | L2Hit => negb (ML.usesPrefetchBitPolicy p)
  | L3Hit => negb (ML.usesPrefetchBitPolicy p)
  | PBHit => negb (prefetchOnPrefetchHit p)
  end.

Lemma wp_applyNewPBitsLogic type taken bw t thr loc s (Q : bool * bool -> MLBTB -> Prop) :
  (forall r st, balance st = balance (mlstats s) ->
     (closed loc = true -> r = (false, false)) -> Q r (s <| mlstats := st |>)) ->
  wp (ML.applyNewPBitsLogic p type taken bw t thr loc) Q s.
Proof.
  intros HQ. assert (HQ0 : forall r, (closed loc = true -> r = (false, false)) -> Q r s).
  { intros r Hr. destruct s. by apply HQ. }
  unfold ML.applyNewPBitsLogic. fold (closed loc).
  wp_step; [by apply HQ0|]. assert (Hc : forall r, closed loc = true -> r = (false, false)).
  { congruence. }
  repeat first [ progress wp_steps | stat_step ]; first [ by apply HQ0; auto | by apply HQ; auto ].
Qed.

(** [q'] is [q] with [l] inserted in issue order. *)
Definition enqueued (l q q' : list DeferredPrefetchEntry) : Prop :=
  q' = foldl (fun q d => insertByIssueTime d q) q l.

(** What [prefetchViaBBMap] puts in the queue. *)
Definition viaMap (now : Cycles) (tid : ThreadID) (depth : Z) (base : Cycles) (chainId : Z)
    (alloc : bool) (d : DeferredPrefetchEntry) : Prop :=
  df_tid d = tid /\ df_issueTime d = Cyc.add now (Cyc.add base 1) /\
  df_chainId d = chainId /\ df_allocateChain d = alloc /\ df_depth d = u32 depth.

Lemma wp_prefetchViaBBMap tid addr isTaken byPB depth base ty chainId alloc s
    (Q : unit -> MLBTB -> Prop) :
  AC.wf (K:=BTBKey) (l2btb s) -> AC.wf (K:=BTBKey) (l3btb s) -> is_Some (bbMap_ s) ->
  (forall q, (q = deferredPrefetchQueue s \/
       exists d, viaMap (curCycle s) tid depth base chainId alloc d /\
         q = insertByIssueTime d (deferredPrefetchQueue s)) ->
     Q tt (s <| deferredPrefetchQueue := q |>)) ->
  wp (ML.prefetchViaBBMap p tid addr isTaken byPB depth base ty chainId alloc) Q s.
Proof.
  intros Hl2 Hl3 [m Hm] HQ. assert (HQ0 : Q tt s) by (destruct s; apply HQ; by left).
  unfold ML.prefetchViaBBMap. wp_steps. eapply wp_deref; [exact Hm|].
  destruct (m !! addr) as [pc|]; [|by apply wp_ret].
  apply wp_bind, wp_zfind; [apply _|done|]. apply wp_bind.
  apply (wp_mono _ (fun _ s' => s' = s)).
  { wp_step; [by apply wp_zfind; [apply _|..] | by apply wp_ret]. }
  intros l3 _ ->. repeat (wp_step; try done).
  apply HQ. right. eexists. split; [|reflexivity]. by repeat split.
Qed.

(** What a trigger of [loc] does to the queue and the chain counter: up to two
    prefetches of a new chain. *)
Definition triggered (s : MLBTB) (loc : TriggerLocation) (tid : ThreadID) (base : Cycles)
    (q : list DeferredPrefetchEntry) (nc : Z) : Prop :=
  exists l, enqueued l (deferredPrefetchQueue s) q /\
    Forall (fun d => exists b depth, (b = base \/ b = Cyc.add base 1) /\
       viaMap (curCycle s) tid depth b (nextChainId s) true d) l /\
    (nc = nextChainId s /\ l = [] \/ nc = u64 (nextChainId s + 1)) /\
    (closed loc = true -> l = []) /\ (l = [] \/ is_Some (bbMap_ s)).

Lemma wp_tryInitialTrigger tid pc ty tgt t thr taken loc base byPB l1miss s
    (Q : unit -> MLBTB -> Prop) :
  AC.wf (K:=BTBKey) (l2btb s) -> AC.wf (K:=BTBKey) (l3btb s) ->
  (forall q nc bw st, balance st = balance (mlstats s) -> triggered s loc tid base q nc ->
     Q tt (s <| deferredPrefetchQueue := q |> <| nextChainId := nc |>
             <| prevBwBranch := bw |> <| mlstats := st |>)) ->
  wp (ML.tryInitialTrigger p tid pc ty tgt t thr taken loc base byPB l1miss) Q s.
Proof.
  intros Hl2 Hl3 HQ.
  assert (Hnone : forall q, q = deferredPrefetchQueue s ->
            triggered s loc tid base q (nextChainId s)).
  { intros q ->. exists []. by split_and!; auto. }
  assert (HQ0 : Q tt s) by (destruct s; by apply HQ; auto).
  unfold ML.tryInitialTrigger. wp_steps; try done.
  apply wp_applyNewPBitsLogic. intros [t' thr'] st Hb Hcl.
  apply wp_bind, wp_modify, wp_if; intros H1.
  2: { apply (HQ _ _ _ _ Hb); auto. }
  apply orb_true_iff in H1. apply wp_bind, wp_gets, wp_bind, wp_modify, wp_bind.
  assert (Hbb : is_Some (bbMap_ s)) by (destruct (bbMap_ s); done).
  assert (Hop : closed loc = false).
  { destruct (closed loc); [|done]. specialize (Hcl eq_refl). injection Hcl as -> ->. by destruct H1. }
  set (s1 := setf nextChainId _ _).
  apply (wp_mono _ (fun _ s2 => exists l q, enqueued l (deferredPrefetchQueue s) q /\
    Forall (viaMap (curCycle s) tid (if depthOnlyCall p && negb (isCallType ty) then 1
        else prefetchDepth p) base (nextChainId s) true) l /\
    s2 = s1 <| deferredPrefetchQueue := q |>)).
  { wp_step; [|by exists [], (deferredPrefetchQueue s)].
    apply wp_prefetchViaBBMap; [done..|]. intros q [->|(d & Hd & ->)].
    - by exists [], (deferredPrefetchQueue s).
    - eexists [d], _. split; [done|]. split; [|done]. by constructor. }
  intros [] s2 (l & q & Hq & Hl & ->).
  assert (Hl' : Forall (fun d => exists b depth, (b = base \/ b = Cyc.add base 1) /\
       viaMap (curCycle s) tid depth b (nextChainId s) true d) l).
  { eapply Forall_impl; [|exact Hl]. intros d Hd. by do 2 eexists; split; [left|]. }
  wp_step.
  - apply wp_prefetchViaBBMap; [done..|]. intros q' [->|(d & Hd & ->)].
    + apply (HQ q); [done|]. exists l. split_and!; try done; [by right|congruence|by right].
    + apply HQ; [done|]. exists (l ++ [d]). split_and!; [| |by right|congruence|by right].
      * unfold enqueued in *. rewrite foldl_app, <- Hq. done.
      * apply Forall_app. split; [done|]. constructor; [|done].
        do 2 eexists. split; [|exact Hd]. destruct t'; [by right|by left].
  - apply (HQ q); [done|]. exists l. split_and!; try done; [by right|congruence|by right].
Qed.

(** *** Eviction and write-back *)

(** [c'] is [c] with the content of [src] stored under [key], in one way of
    the set of the key, where a lookup finds it. *)
Definition stored (key : BTBKey) (src : BTBEntry) (c c' : BTBCache) : Prop :=
  AC.same_shape c c' /\
  exists v e, v ∈ AC.candidates (indexingPolicy c) key /\
    entries c' = <[v := e]> (entries c) /\ AC.find c' key = Some v /\
    AC.get c' key = Some e /\ BtbEntry.valid e = true /\
    target e = target src /\ inst e = inst src.

Lemma stored_level key src c c' :
  level_ok c -> stored key src c c' -> is_Some (target src) -> is_Some (inst src) ->
  level_ok c'.
Proof.
  intros Hc (Hs & v & e & _ & He & _ & _ & _ & Ht & Hi) [t Et] [i Ei].
  eapply level_write; [done..|]. intros _. by rewrite Ht, Hi, Et, Ei.
Qed.

(** Writing the content of [src] over an entry that matches [key]. *)
Lemma stored_intro key src c v e e' c' :
  AC.wf (K:=BTBKey) c -> is_Some (target src) ->
  AC.same_shape c c' -> v ∈ AC.candidates (indexingPolicy c) key ->
  AC.find c key = None \/ AC.find c key = Some v ->
  Entry.matches (AC.extractTag (K:=BTBKey) c) key e = true ->
  BtbEntry.valid e' = BtbEntry.valid e -> tag e' = tag e ->
  target e' = target src -> inst e' = inst src ->
  entries c' = <[v := e']> (entries c) ->
  stored key src c c'.
Proof.
  intros Hwf Ht Hs Hv Hf Hm Hval Htag Htgt Hinst He.
  assert (Hm' : Entry.matches (AC.extractTag (K:=BTBKey) c) key e' = true).
  { by rewrite (matches_ext _ _ e). }
  destruct (find_write c c' key v e') as [Hf' Hg']; try done; [by destruct Hs|].
  split; [done|]. exists v, e'. repeat split; try done.
  rewrite Hval. by eapply matches_valid.
Qed.

Lemma updateFrom_fields src e t :
  target src = Some t ->
  BtbEntry.valid (Entry.updateFrom src e) = BtbEntry.valid e /\
  tag (Entry.updateFrom src e) = tag e /\
  target (Entry.updateFrom src e) = target src /\ inst (Entry.updateFrom src e) = inst src.
Proof. intros Ht. cbn. rewrite Ht, set_Some. done. Qed.

Lemma wp_installInL3 tid e s (Q : unit -> MLBTB -> Prop) :
  level_ok (l3btb s) -> is_Some (target e) -> is_Some (inst e) ->
  (forall l3 st, level_ok l3 -> balance st = balance (mlstats s) ->
     stored (mkKey (branchAddr e) tid) e (l3btb s) l3 ->
     Q tt (s <| l3btb := l3 |> <| mlstats := st |>)) ->
  wp (ML.installInL3 tid e) Q s.
Proof.
  intros Hl3 Ht Hi HQ. pose proof (lv_wf _ Hl3) as Hwf.
  destruct Ht as [t Ht]. set (key := mkKey (branchAddr e) tid) in *.
  unfold ML.installInL3. fold key. apply wp_bind, wp_gets.
  apply wp_bind, wp_zfind; [apply _|done|]. apply wp_bind.
  apply (wp_mono _ (fun v s1 => exists l3 st e0, balance st = balance (mlstats s) /\
    s1 = s <| l3btb := l3 |> <| mlstats := st |> /\ AC.same_shape (l3btb s) l3 /\
    v ∈ AC.candidates (indexingPolicy (l3btb s)) key /\
    (AC.find (l3btb s) key = None \/ AC.find (l3btb s) key = Some v) /\
    entries l3 = <[v := e0]> (entries (l3btb s)) /\ is_Some (entries (l3btb s) !! v) /\
    Entry.matches (AC.extractTag (K:=BTBKey) (l3btb s)) key e0 = true)).
  { destruct (AC.find (l3btb s) key) as [v|] eqn:Ef; wp_steps; cbn.
    - destruct (AC.find_Some _ _ _ Ef) as (Hv & e0 & He0 & Hm).
      apply AC.wp_accessEntry; [done|by rewrite He0|]. intros c' Hs He. wp_steps.
      stat_step. wp_steps. exists c', st, e0. split_and!; first [done | by right | by rewrite He0 | by rewrite He, list_insert_id].
    - apply AC.wp_findVictim; [done|]. intros v e0 c1 Hv He0 Hs1 He1. cbn in *. wp_steps. cbn.
      destruct (insert_invalidated (AC.extractTag (K:=BTBKey) c1) key e0)
        as (e1 & Hins & Hval & Hm & _).
      eapply AC.wp_insertEntry; [by eapply AC.wf_shape|by eapply lookup_written|exact Hins|].
      intros c2 Hs2 He2. wp_steps. stat_step. wp_steps.
      exists c2, st, e1.
      split_and!; try first [done | by etransitivity | by left | by rewrite He0
                            | by rewrite He2, He1, list_insert_insert_eq].
      destruct Hs1 as [Hix _].
      unfold AC.extractTag in *. by rewrite Hix in Hm. }
  intros v s1 (l3 & st & e0 & Hb & -> & Hs & Hv & Hf & He & Hv0 & Hm). wp_steps. cbn.
  destruct Hv0 as [ev Hev].
  eapply AC.wp_modifyEntry; [by eapply lookup_written|].
  destruct (updateFrom_fields e e0 t Ht) as (F1 & F2 & F3 & F4).
  assert (Hst : stored key e (l3btb s) (l3 <| entries ::= <[v := Entry.updateFrom e e0]> |>)).
  { eapply (stored_intro _ _ _ v e0); try done.
    - etransitivity; [exact Hs|]. apply AC.same_shape_insert.
    - cbn. by rewrite He, list_insert_insert_eq. }
  apply (HQ (l3 <| entries ::= <[v := Entry.updateFrom e e0]> |>) st); [|done|done].
  by eapply stored_level.
Qed.

(** The L2 victim [ve] is moved to the L3 BTB before its way is reused. *)
Lemma wp_allocateInL2 tid e s (Q : nat -> MLBTB -> Prop) :
  level_ok (l2btb s) -> level_ok (l3btb s) ->
  (forall v ve e1 l2 l3 st, let key := mkKey (branchAddr e) tid in
     level_ok l3 -> balance st = balance (mlstats s) ->
     v ∈ AC.candidates (indexingPolicy (l2btb s)) key -> entries (l2btb s) !! v = Some ve ->
     AC.same_shape (l2btb s) l2 -> entries l2 = <[v := e1]> (entries (l2btb s)) ->
     BtbEntry.valid e1 = true ->
     Entry.matches (AC.extractTag (K:=BTBKey) (l2btb s)) key e1 = true ->
     (BtbEntry.valid ve && enableL3 p = true /\
        stored (mkKey (branchAddr ve) tid) ve (l3btb s) l3 \/
      BtbEntry.valid ve && enableL3 p = false /\ l3 = l3btb s) ->
     Q v (s <| l2btb := l2 |> <| l3btb := l3 |> <| mlstats := st |>)) ->
  wp (ML.allocateInL2 p tid e) Q s.
Proof.
  intros Hl2 Hl3 HQ. pose proof (lv_wf _ Hl2) as Hwf.
  set (key := mkKey (branchAddr e) tid) in *. unfold ML.allocateInL2. fold key.
  apply wp_bind, wp_gets, wp_bind, wp_zoom, AC.wp_findVictim; [done|].
  intros v ve l2a Hv Hve Hsa Hea. apply wp_bind, wp_zoom.
  eapply AC.wp_readEntry; [cbn; by rewrite Hea|]. apply wp_bind.
  apply (wp_mono _ (fun _ s1 => exists l3 st, level_ok l3 /\ balance st = balance (mlstats s) /\
    s1 = s <| l2btb := l2a |> <| l3btb := l3 |> <| mlstats := st |> /\
    (BtbEntry.valid ve && enableL3 p = true /\
        stored (mkKey (branchAddr ve) tid) ve (l3btb s) l3 \/
      BtbEntry.valid ve && enableL3 p = false /\ l3 = l3btb s))).
  { unfold Entry.isValid in *. wp_step; [wp_step|].
    - destruct (level_at _ _ _ Hl2 Hve H) as [? ?].
      apply wp_installInL3; [done..|]. intros l3 st Hl3' Hb Hst.
      exists l3, st. split_and!; try done. left. by rewrite H, H0.
    - exists (l3btb s), (mlstats s). split_and!; try done. right. by rewrite H, H0.
    - exists (l3btb s), (mlstats s). split_and!; try done. right. by rewrite H. }
  intros [] s1 (l3 & st & Hl3' & Hb & -> & Hcase). apply wp_bind, wp_zoom. cbn in *.
  eapply AC.wp_modifyEntry; [by rewrite Hea|]. cbn.
  apply wp_bind, wp_zoom.
  destruct (insert_invalidated (AC.extractTag (K:=BTBKey) l2a) key ve)
    as (e1 & Hins & Hval & Hm & _).
  set (l2b := setf entries _ l2a).
  assert (Hsb : AC.same_shape (l2btb s) l2b).
  { etransitivity; [exact Hsa|]. apply AC.same_shape_insert. }
  assert (Heb : entries l2b = <[v := Entry.invalidate ve]> (entries (l2btb s))).
  { cbn. by rewrite Hea. }
  eapply (AC.wp_insertEntry l2b _ _ _ (Entry.invalidate ve)); [by eapply AC.wf_shape| |exact Hins|].
  { by eapply lookup_written. }
  intros l2c Hsc Hec. apply wp_bind. stat_step. apply wp_ret.
  eapply (HQ v ve e1 l2c l3 st0); try done.
  - congruence.
  - by etransitivity.
  - by rewrite Hec, Heb, list_insert_insert_eq.
  - destruct Hsa as [Hix _]. unfold AC.extractTag in *. by rewrite Hix in Hm.
Qed.

(** A valid L1 victim is stored in the L2 BTB under its branch address. *)
Lemma wp_writebackL1Victim tid e s (Q : unit -> MLBTB -> Prop) :
  level_ok (l2btb s) -> level_ok (l3btb s) -> is_Some (target e) -> is_Some (inst e) ->
  (forall l2 l3 st, level_ok l2 -> level_ok l3 -> balance st = balance (mlstats s) ->
     stored (mkKey (branchAddr e) tid) e (l2btb s) l2 ->
     (nonexclusive p && enableL3 p = true -> exists l3a,
        stored (mkKey (branchAddr e) tid) e l3a l3) ->
     Q tt (s <| l2btb := l2 |> <| l3btb := l3 |> <| mlstats := st |>)) ->
  wp (ML.writebackL1Victim p tid e) Q s.
Proof.
  intros Hl2 Hl3 Ht Hi HQ. pose proof (lv_wf _ Hl2) as Hwf. destruct Ht as [t Ht].
  set (key := mkKey (branchAddr e) tid) in *.
  unfold ML.writebackL1Victim. fold key. apply wp_bind, wp_gets.
  apply wp_bind, wp_zfind; [apply _|done|]. apply wp_bind.
  apply (wp_mono _ (fun v s1 => exists l2 l3 st e0, level_ok l3 /\
    balance st = balance (mlstats s) /\
    s1 = s <| l2btb := l2 |> <| l3btb := l3 |> <| mlstats := st |> /\
    AC.same_shape (l2btb s) l2 /\ v ∈ AC.candidates (indexingPolicy (l2btb s)) key /\
    (AC.find (l2btb s) key = None \/ AC.find (l2btb s) key = Some v) /\
    entries l2 = <[v := e0]> (entries (l2btb s)) /\ is_Some (entries (l2btb s) !! v) /\
    Entry.matches (AC.extractTag (K:=BTBKey) (l2btb s)) key e0 = true)).
  { destruct (AC.find (l2btb s) key) as [v|] eqn:Ef.
    - destruct (AC.find_Some _ _ _ Ef) as (Hv & e0 & He0 & Hm). wp_steps.
      apply AC.wp_accessEntry; [done|by rewrite He0|]. intros c' Hs He. wp_steps.
      stat_step. wp_steps. exists c', (l3btb s), st, e0.
      split_and!; first [done | by right | by rewrite He0 | by rewrite He, list_insert_id].
    - apply wp_allocateInL2; [done..|].
      intros v ve e1 l2 l3 st key' Hl3' Hb Hv Hve Hs He Hval Hm _.
      exists l2, l3, st, e1. split_and!; first [done | by left | by rewrite Hve]. }
  intros v s1 (l2 & l3 & st & e0 & Hl3' & Hb & -> & Hs & Hv & Hf & He & [ev Hev] & Hm).
  apply wp_bind, wp_zoom. cbn. eapply AC.wp_modifyEntry; [by eapply lookup_written|].
  destruct (updateFrom_fields e e0 t Ht) as (F1 & F2 & F3 & F4).
  set (l2' := setf entries _ l2).
  assert (Hst : stored key e (l2btb s) l2').
  { eapply (stored_intro _ _ _ v e0); try done.
    - etransitivity; [exact Hs|]. apply AC.same_shape_insert.
    - cbn. by rewrite He, list_insert_insert_eq. }
  assert (Hl2' : level_ok l2') by (by eapply (stored_level key e (l2btb s))).
  apply wp_when; intros Hn.
  - apply wp_installInL3; [done..|by rewrite Ht|done|]. intros l3' st' Hl3'' Hb' Hst3.
    apply (HQ l2' l3' st'); try done; [cbn in *; congruence|]. intros _. by eexists.
  - apply (HQ l2' l3 st); try done. congruence.
Qed.

(** [freeUpL1Entry] makes the way [v] of the set of the branch hold a fresh
    valid entry for it; a valid victim [ve] is found in the L2 BTB under its
    own address afterwards. *)
Lemma wp_freeUpL1Entry tid pc s (Q : nat -> MLBTB -> Prop) :
  level_ok (l1btb s) -> level_ok (l2btb s) -> level_ok (l3btb s) ->
  AC.find (l1btb s) (mkKey pc tid) = None ->
  (forall v ve e1 l1 l2 l3 st, level_ok l2 -> level_ok l3 ->
     balance st = balance (mlstats s) ->
     v ∈ AC.candidates (indexingPolicy (l1btb s)) (mkKey pc tid) ->
     entries (l1btb s) !! v = Some ve ->
     AC.same_shape (l1btb s) l1 -> entries l1 = <[v := e1]> (entries (l1btb s)) ->
     Entry.matches (AC.extractTag (K:=BTBKey) (l1btb s)) (mkKey pc tid) e1 = true ->
     prefetched e1 = false -> branchAddr e1 = pc ->
     AC.same_shape (l2btb s) l2 ->
     (BtbEntry.valid ve = true ->
      stored (mkKey (branchAddr ve) tid) ve (l2btb s) l2) ->
     (BtbEntry.valid ve = false -> l2 = l2btb s /\ l3 = l3btb s) ->
     Q v (s <| l1btb := l1 |> <| l2btb := l2 |> <| l3btb := l3 |> <| mlstats := st |>)) ->
  wp (ML.freeUpL1Entry p tid pc) Q s.
Proof.
  intros Hl1 Hl2 Hl3 Hf HQ. pose proof (lv_wf _ Hl1) as Hwf.
  set (key := mkKey pc tid) in *. unfold ML.freeUpL1Entry. fold key.
  apply wp_bind, wp_gets, wp_bind, wp_zfind; [apply _|done|].
  apply wp_bind, wp_massert; [by rewrite Hf|].
  apply wp_bind, wp_zoom, AC.wp_findVictim; [done|]. intros v ve l1a Hv Hve Hsa Hea.
  apply wp_bind, wp_zoom. eapply AC.wp_readEntry; [cbn; by rewrite Hea|].
  apply wp_bind.
  apply (wp_mono _ (fun _ s1 => exists l2 l3 st, level_ok l2 /\ level_ok l3 /\
    balance st = balance (mlstats s) /\ AC.same_shape (l2btb s) l2 /\
    (BtbEntry.valid ve = true -> stored (mkKey (branchAddr ve) tid) ve (l2btb s) l2) /\
    (BtbEntry.valid ve = false -> l2 = l2btb s /\ l3 = l3btb s) /\
    s1 = s <| l1btb := l1a |> <| l2btb := l2 |> <| l3btb := l3 |> <| mlstats := st |>)).
  { unfold Entry.isValid. wp_step.
    - destruct (level_at _ _ _ Hl1 Hve H) as [? ?].
      apply wp_writebackL1Victim; [done..|]. intros l2 l3 st Hl2' Hl3' Hb Hst _.
      exists l2, l3, st. split_and!; try done; [apply Hst|congruence].
    - exists (l2btb s), (l3btb s), (mlstats s). split_and!; try done. congruence. }
  intros [] s1 (l2 & l3 & st & Hl2' & Hl3' & Hb & Hs2 & Hst & Hno & ->).
  apply wp_bind, wp_zoom. cbn in *. eapply AC.wp_modifyEntry; [by rewrite Hea|].
  apply wp_bind, wp_zoom.
  destruct (insert_invalidated (AC.extractTag (K:=BTBKey) l1a) key ve)
    as (e1 & Hins & Hval & Hm & Hpf & Hba & _).
  set (l1b := setf entries _ l1a).
  assert (Hsb : AC.same_shape (l1btb s) l1b).
  { etransitivity; [exact Hsa|]. apply AC.same_shape_insert. }
  assert (Heb : entries l1b = <[v := Entry.invalidate ve]> (entries (l1btb s))).
  { cbn. by rewrite Hea. }
  eapply (AC.wp_insertEntry l1b _ _ _ (Entry.invalidate ve)); [by eapply AC.wf_shape| |exact Hins|].
  { by eapply lookup_written. }
  intros l1c Hsc Hec. apply wp_ret.
  eapply (HQ v ve e1 l1c l2 l3 st); try done.
  - by etransitivity.
  - by rewrite Hec, Heb, list_insert_insert_eq.
  - destruct Hsa as [Hix _]. unfold AC.extractTag in *. by rewrite Hix in Hm.
Qed.

(** *** Promotion *)

(** As [stored], with the way and the entry made explicit. *)
Record storedAt (key : BTBKey) (src : BTBEntry) (v : nat) (e : BTBEntry) (c c' : BTBCache)
  : Prop := {
  st_shape : AC.same_shape c c';
  st_way : v ∈ AC.candidates (indexingPolicy c) key;
  st_free : AC.find c key = None \/ AC.find c key = Some v;
  st_entries : entries c' = <[v := e]> (entries c);
  st_match : Entry.matches (AC.extractTag (K:=BTBKey) c) key e = true;
  st_target : target e = target src;
  st_inst : inst e = inst src;
  st_prefetched : prefetched e = false
}.

Lemma storedAt_lookup key src v e c c' :
  AC.wf (K:=BTBKey) c -> storedAt key src v e c c' -> entries c' !! v = Some e.
Proof.
  intros Hwf [_ Hv _ He _ _ _ _]. destruct (AC.candidates_bound c key v Hwf Hv) as [e0 He0].
  by eapply lookup_written.
Qed.

Lemma storedAt_get key src v e c c' :
  AC.wf (K:=BTBKey) c -> storedAt key src v e c c' ->
  AC.find c' key = Some v /\ AC.get c' key = Some e.
Proof. intros Hwf [Hs Hv Hf He Hm _ _ _]. eapply find_write; try done. apply Hs. Qed.

Lemma storedAt_level key src v e c c' :
  level_ok c -> storedAt key src v e c c' -> is_Some (target src) -> is_Some (inst src) ->
  level_ok c'.
Proof.
  intros Hc [Hs _ _ He _ Ht Hi _] [t Et] [i Ei]. eapply level_write; [done..|].
  intros _. by rewrite Ht, Hi, Et, Ei.
Qed.

(** Setters that do not touch what a lookup reads keep the entry stored. *)
Lemma storedAt_modify key src v e e' c c' c'' :
  storedAt key src v e c c' ->
  BtbEntry.valid e' = BtbEntry.valid e -> tag e' = tag e -> target e' = target e ->
  inst e' = inst e -> prefetched e' = false ->
  AC.same_shape c' c'' -> entries c'' = <[v := e']> (entries c') ->
  storedAt key src v e' c c''.
Proof.
  intros [Hs Hv Hf He Hm Ht Hi _] E1 E2 E3 E4 E5 Hs' He'. split; try done.
  - by etransitivity.
  - by rewrite He', He, list_insert_insert_eq.
  - by rewrite (matches_ext _ _ e).
  - congruence.
  - congruence.
Qed.

Lemma wp_promote tid pc src s (Q : nat -> MLBTB -> Prop) :
  level_ok (l1btb s) -> level_ok (l2btb s) -> level_ok (l3btb s) ->
  AC.wf (K:=BTBKey) (l1CompressedTags s) ->
  AC.find (l1btb s) (mkKey pc tid) = None -> is_Some (target src) ->
  (forall v ve e l1 l2 l3 ct st, level_ok l2 -> level_ok l3 -> AC.wf (K:=BTBKey) ct ->
     balance st = balance (mlstats s) ->
     storedAt (mkKey pc tid) src v e (l1btb s) l1 ->
     entries (l1btb s) !! v = Some ve -> AC.same_shape (l2btb s) l2 ->
     (BtbEntry.valid ve = true ->
      stored (mkKey (branchAddr ve) tid) ve (l2btb s) l2) ->
     (BtbEntry.valid ve = false -> l2 = l2btb s /\ l3 = l3btb s) ->
     Q v (s <| l1btb := l1 |> <| l2btb := l2 |> <| l3btb := l3 |>
            <| l1CompressedTags := ct |> <| mlstats := st |>)) ->
  wp (ML.promote p tid pc src) Q s.
Proof.
  intros Hl1 Hl2 Hl3 Hct Hf [t Ht] HQ. unfold ML.promote. apply wp_bind.
  apply wp_freeUpL1Entry; [done..|].
  intros v ve e1 l1 l2 l3 st Hl2' Hl3' Hb Hv Hve Hs He Hm Hpf _ Hs2 Hst Hno.
  apply wp_bind, wp_zoom. cbn. eapply AC.wp_modifyEntry; [by eapply lookup_written|].
  apply wp_bind, wp_l1CompressedTagSync; [done|]. intros ct Hct'. apply wp_ret.
  destruct (updateFrom_fields src e1 t Ht) as (F1 & F2 & F3 & F4).
  eapply (HQ v ve (Entry.updateFrom src e1)); try done. split; try done.
  - etransitivity; [exact Hs|]. apply AC.same_shape_insert.
  - by left.
  - cbn. by rewrite He, list_insert_insert_eq.
Qed.
End Rules.
