(* ===== verification/MultiLevelHit.v ===== *)
(** * MultiLevelBTB: rules for hits and updates

    The handlers of the four hit levels and [update], on top of
    [MultiLevelWp].  Each rule says which target and latency are returned, and
    that the branch is in the L1 BTB afterwards. *)

From Stdlib Require Import ZArith Lia.
From stdpp Require Import base list gmap numbers.
From S2P Require Import Prelude Types SatCounter ReplPolicy AssocCache AssocCacheInit BtbEntry Btb MultiLevelBtb MultiLevelWp.

Section Rules.
Context (p : MLParams).

(** What the levels of a state must satisfy for the handlers. *)
Record levels_ok (s : MLBTB) : Prop := {
  lo_l1 : level_ok (l1btb s);
  lo_l2 : level_ok (l2btb s);
  lo_l3 : level_ok (l3btb s);
  lo_pb : level_ok (pBuffer s);
  lo_ct : AC.wf (K:=BTBKey) (l1CompressedTags s);
  lo_pct : AC.wf (K:=BTBKey) (pbCompressedTags s);
  lo_l1pf : Forall (fun e => prefetched e = false) (entries (l1btb s))
}.

Lemma wp_callFallThroughStats tid pc ty s (Q : unit -> MLBTB -> Prop) :
  AC.wf (K:=BTBKey) (l1btb s) -> AC.wf (K:=BTBKey) (pBuffer s) -> AC.wf (K:=BTBKey) (l2btb s) ->
  (forall st, balance st = balance (mlstats s) -> Q tt (s <| mlstats := st |>)) ->
  wp (ML.callFallThroughStats p tid pc ty) Q s.
Proof.
  intros H1 H2 H3 HQ. assert (HQ0 : Q tt s) by (destruct s; by apply HQ).
  unfold ML.callFallThroughStats. apply wp_bind, wp_gets.
  destruct (bbMap_ s) as [m|]; [|by apply wp_ret].
  wp_step; [|done]. apply wp_bind. stat_step.
  destruct (m !! _) as [ft|]; [|by apply wp_ret, HQ].
  apply wp_bind, wp_zfind; [apply _|done|]. wp_step; [by apply wp_ret, HQ|].
  apply wp_bind, wp_zfind; [apply _|done|]. wp_step; [by apply wp_ret, HQ|].
  apply wp_bind, wp_zfind; [apply _|done|]. wp_step; [|by apply HQ].
  stat_step. apply HQ. congruence.
Qed.

Lemma unprefetched_at s i e :
  levels_ok s -> entries (l1btb s) !! i = Some e -> prefetched e = false.
Proof.
  intros Hs He. eapply (proj1 (list.Forall_forall _ _) (lo_l1pf _ Hs)).
  by eapply list_elem_of_lookup_2.
Qed.

Lemma wp_handleL1Hit tid pc i e ty taken base s (Q : BTBLookupResult -> MLBTB -> Prop) :
  levels_ok s -> entries (l1btb s) !! i = Some e -> is_Some (target e) ->
  (forall e' l1 q nc bw st, AC.same_shape (l1btb s) l1 ->
     entries l1 = <[i := e']> (entries (l1btb s)) ->
     e' = e \/ e' = e <| fromPBuffer := false |> ->
     balance st = balance (mlstats s) -> triggered p s L1Hit tid 0 q nc ->
     Q (mkLookup (target e) (l1Latency p) true false false false false false
          (Entry.getDir e) (prefetchTriggerType e))
       (s <| l1btb := l1 |> <| deferredPrefetchQueue := q |> <| nextChainId := nc |>
          <| prevBwBranch := bw |> <| mlstats := st |>)) ->
  wp (ML.handleL1Hit p tid pc i ty taken base) Q s.
Proof.
  intros Hs He [t Ht] HQ. pose proof (unprefetched_at _ _ _ Hs He) as Hpf.
  unfold ML.handleL1Hit. apply wp_bind. stat_step. apply wp_bind.
  eapply wp_zread; [apply _|done|]. rewrite Hpf. apply wp_bind.
  apply (wp_mono _ (fun _ s1 => exists e' l1, AC.same_shape (l1btb s) l1 /\
     entries l1 = <[i := e']> (entries (l1btb s)) /\
     (e' = e \/ e' = e <| fromPBuffer := false |>) /\
     s1 = s <| l1btb := l1 |> <| mlstats := st |>)).
  { wp_step.
    - apply wp_zoom. eapply AC.wp_modifyEntry; [exact He|].
      eexists _, _. split; [apply AC.same_shape_insert|]. by split_and!; [|right|].
    - exists e, (l1btb s). split; [done|]. rewrite list_insert_id by done.
      by split_and!; [|left|]. }
  intros [] s1 (e' & l1 & Hsh & He1 & Hor & ->). apply wp_bind.
  eapply wp_deref; [exact Ht|]. apply wp_bind.
  apply wp_tryInitialTrigger; [apply Hs..|]. intros q nc bw st' Hb Htr. apply wp_bind.
  eapply wp_zread; [apply _|cbn; by eapply lookup_written|]. apply wp_ret.
  assert (E : target e' = target e /\ Entry.getDir e' = Entry.getDir e /\
              prefetchTriggerType e' = prefetchTriggerType e) by (by destruct Hor as [->| ->]).
  destruct E as (E1 & E2 & E3). rewrite E1, E2, E3.
  apply (HQ e' l1 q nc bw st'); try done. cbn in *. congruence.
Qed.

Lemma copy_target garbage e : target (Entry.copy garbage e) = target e.
Proof. cbn. by destruct (target e). Qed.

Lemma promoteBits_fields from e :
  let e' := ML.promoteBits p from e in
  BtbEntry.valid e' = BtbEntry.valid e /\ tag e' = tag e /\ target e' = target e /\
  inst e' = inst e /\ prefetched e' = prefetched e /\ dir e' = dir e.
Proof. unfold ML.promoteBits. by destruct (negb _). Qed.

(** The state after a hit below the L1 BTB: the branch is in the L1 BTB. *)
Definition migrated (s : MLBTB) (key : BTBKey) (src : BTBEntry) (e : BTBEntry)
    (l1 : BTBCache) : Prop :=
  exists v, storedAt key src v e (l1btb s) l1.

Lemma storedAt_copy key garbage src v e c c' :
  storedAt key (Entry.copy garbage src) v e c c' -> storedAt key src v e c c'.
Proof. intros []. split; try done. etransitivity; [eassumption | apply copy_target]. Qed.

(** The handler of an L2 hit returns the target of the entry found, after the
    L2 latency; the branch is in the L1 BTB afterwards. *)
Lemma wp_handleL2Hit tid pc i e ty taken s (Q : BTBLookupResult -> MLBTB -> Prop) :
  levels_ok s -> limitedMarkov p = false ->
  AC.find (l1btb s) (mkKey pc tid) = None ->
  entries (l2btb s) !! i = Some e -> is_Some (target e) -> is_Some (inst e) ->
  (forall v e1 l1 l2 l3 ct q nc bw st,
     storedAt (mkKey pc tid) e v e1 (l1btb s) l1 ->
     level_ok l2 -> level_ok l3 -> AC.wf (K:=BTBKey) ct ->
     balance st = balance (mlstats s) -> triggered p s L2Hit tid (l2Latency p) q nc ->
     Q (mkLookup (target e) (l2Latency p) false false true false false false
          (Entry.getDir e1) NoBranch)
       (s <| l1btb := l1 |> <| l2btb := l2 |> <| l3btb := l3 |> <| l1CompressedTags := ct |>
          <| deferredPrefetchQueue := q |> <| nextChainId := nc |>
          <| prevBwBranch := bw |> <| mlstats := st |>)) ->
  wp (ML.handleL2Hit p tid pc i ty taken) Q s.
Proof.
  intros Hs Hmk Hf He Ht Hi HQ. unfold ML.handleL2Hit.
  apply wp_bind. stat_step. apply wp_bind.
  apply wp_callFallThroughStats; [apply Hs..|]. intros st1 Hb1. cbn in Hb1.
  apply wp_bind, wp_gets, wp_bind.
  apply (wp_mono _ (fun _ s1 => exists l2, level_ok l2 /\ entries l2 = entries (l2btb s) /\
    s1 = s <| l2btb := l2 |> <| mlstats := st1 |>)).
  { wp_step; [|by exists (l2btb s); split; [apply Hs|]]. apply wp_zoom.
    apply AC.wp_accessEntry; [apply Hs|cbn; by rewrite He|]. intros c' Hsh Hent.
    exists c'. split; [|done]. eapply (level_same (l2btb s)); [apply Hs|done..]. }
  intros [] s1 (l2a & Hl2a & Ha & ->). apply wp_bind.
  eapply wp_zread; [apply _|cbn; by rewrite Ha|]. apply wp_bind.
  apply (wp_mono _ (fun _ s1 => exists l2, level_ok l2 /\
    s1 = s <| l2btb := l2 |> <| mlstats := st1 |>)).
  { wp_step; [|by exists l2a]. apply wp_zoom.
    eapply AC.wp_invalidate; [apply Hl2a|cbn; by rewrite Ha|]. intros c' Hsh Hent.
    exists c'. split; [|done]. by eapply level_write. }
  intros [] s2 (l2b & Hl2b & ->). apply wp_bind.
  destruct Ht as [t Ht].
  apply wp_promote; [apply Hs|done|apply Hs|apply Hs|done|by rewrite copy_target, Ht|].
  intros v ve e1 l1 l2 l3 ct st2 Hl2 Hl3 Hct Hb2 Hst Hve Hsh Hwb Hno. cbn in Hb2.
  apply storedAt_copy in Hst.
  assert (Hat : entries l1 !! v = Some e1) by (eapply storedAt_lookup; [apply Hs|done]).
  apply wp_bind, wp_zoom. eapply AC.wp_modifyEntry; [exact Hat|].
  destruct (promoteBits_fields (Entry.copy false e) e1) as (F1 & F2 & F3 & F4 & F5 & F6).
  set (e2 := ML.promoteBits _ _ _) in *.
  assert (Hst2 : storedAt (mkKey pc tid) e v e2 (l1btb s) (l1 <| entries ::= <[v := e2]> |>)).
  { eapply storedAt_modify; try done.
    - rewrite F5. apply Hst.
    - apply AC.same_shape_insert. }
  apply wp_bind. rewrite Hmk. apply wp_ret. apply wp_bind.
  eapply wp_deref; [by rewrite copy_target|]. apply wp_bind.
  apply wp_tryInitialTrigger; [apply Hl2|apply Hl3|]. intros q nc bw st3 Hb3 Htr. cbn in Hb3.
  apply wp_bind. eapply wp_zread; [apply _| |].
  { cbn. apply list_lookup_insert_eq. by eapply lookup_lt_Some. }
  apply wp_ret.
  replace (target e2) with (target e) by (symmetry; apply Hst2).
  refine (HQ v e2 _ l2 l3 ct q nc bw st3 Hst2 Hl2 Hl3 Hct _ _); [congruence|done].
Qed.

(** The handler of an L3 hit, likewise. *)
Lemma wp_handleL3Hit tid pc i e ty taken s (Q : BTBLookupResult -> MLBTB -> Prop) :
  levels_ok s -> AC.find (l1btb s) (mkKey pc tid) = None ->
  entries (l3btb s) !! i = Some e -> is_Some (target e) -> is_Some (inst e) ->
  (forall v e1 l1 l2 l3 ct q nc bw st,
     storedAt (mkKey pc tid) e v e1 (l1btb s) l1 ->
     level_ok l2 -> level_ok l3 -> AC.wf (K:=BTBKey) ct ->
     balance st = balance (mlstats s) -> triggered p s L3Hit tid (l3Latency p) q nc ->
     Q (mkLookup (target e) (l3Latency p) false false false true false false
          (Entry.getDir e1) NoBranch)
       (s <| l1btb := l1 |> <| l2btb := l2 |> <| l3btb := l3 |> <| l1CompressedTags := ct |>
          <| deferredPrefetchQueue := q |> <| nextChainId := nc |>
          <| prevBwBranch := bw |> <| mlstats := st |>)) ->
  wp (ML.handleL3Hit p tid pc i ty taken) Q s.
Proof.
  intros Hs Hf He Ht Hi HQ. unfold ML.handleL3Hit.
  apply wp_bind. stat_step. apply wp_bind, wp_gets, wp_bind.
  apply (wp_mono _ (fun _ s1 => exists l3, level_ok l3 /\ entries l3 = entries (l3btb s) /\
    s1 = s <| l3btb := l3 |> <| mlstats := st |>)).
  { wp_step; [|by exists (l3btb s); split; [apply Hs|]]. apply wp_zoom.
    apply AC.wp_accessEntry; [apply Hs|cbn; by rewrite He|]. intros c' Hsh Hent.
    exists c'. split; [|done]. eapply (level_same (l3btb s)); [apply Hs|done..]. }
  intros [] s1 (l3a & Hl3a & Ha & ->). apply wp_bind.
  eapply wp_zread; [apply _|cbn; by rewrite Ha|]. apply wp_bind.
  apply (wp_mono _ (fun _ s1 => exists l3, level_ok l3 /\
    s1 = s <| l3btb := l3 |> <| mlstats := st |>)).
  { wp_step; [|by exists l3a]. apply wp_zoom.
    eapply AC.wp_invalidate; [apply Hl3a|cbn; by rewrite Ha|]. intros c' Hsh Hent.
    exists c'. split; [|done]. by eapply level_write. }
  intros [] s2 (l3b & Hl3b & ->). apply wp_bind.
  destruct Ht as [t Ht].
  apply wp_promote; [apply Hs|apply Hs|done|apply Hs|done|by rewrite copy_target, Ht|].
  intros v ve e1 l1 l2 l3 ct st2 Hl2 Hl3 Hct Hb2 Hst Hve Hsh Hwb Hno. cbn in Hb2.
  apply storedAt_copy in Hst. apply wp_bind.
  eapply wp_deref; [by rewrite copy_target|]. apply wp_bind.
  apply wp_tryInitialTrigger; [apply Hl2|apply Hl3|]. intros q nc bw st3 Hb3 Htr. cbn in Hb3.
  apply wp_bind. eapply wp_zread; [apply _| |].
  { cbn. eapply storedAt_lookup; [apply Hs|done]. }
  apply wp_ret.
  replace (target e1) with (target e) by (symmetry; apply Hst).
  refine (HQ v e1 _ l2 l3 ct q nc bw st3 Hst Hl2 Hl3 Hct _ _); [congruence|done].
Qed.

(** *** Prefetch buffer hits *)

Definition used (e e' : BTBEntry) : Prop :=
  e' = (if prefetched e
        then e <| prefetched := false |> <| takenPrefetched := false |>
               <| triggeredByPBHit := false |>
        else e).

(** The first use of a prefetched entry is counted once. *)
Lemma wp_notePrefetchHit i e inFlight covered s (Q : unit -> MLBTB -> Prop) :
  entries (pBuffer s) !! i = Some e ->
  (inFlight = true -> covered < 5) ->
  (forall e' pb st, used e e' -> AC.same_shape (pBuffer s) pb ->
     entries pb = <[i := e']> (entries (pBuffer s)) ->
     balance st + pending pb = balance (mlstats s) + pending (pBuffer s) ->
     Q tt (s <| pBuffer := pb |> <| mlstats := st |>)) ->
  wp (ML.notePrefetchHit p i inFlight covered) Q s.
Proof.
  intros He Hc HQ. unfold ML.notePrefetchHit. apply wp_bind.
  eapply wp_zread; [apply _|done|]. wp_step.
  2: { destruct s. apply (HQ e); try done.
       - unfold used. by rewrite H.
       - by rewrite list_insert_id. }
  apply wp_bind, wp_stat; [done|]. apply wp_bind.
  set (st1 := _ :: mlstats s).
  apply (wp_mono _ (fun _ s1 => exists st, balance st = balance (mlstats s) + 1 /\
    s1 = s <| mlstats := st |>)).
  { assert (E : balance st1 = balance (mlstats s) + 1) by (unfold balance; cbn; lia).
    repeat first [ progress wp_steps | stat_step ];
      (eexists; split; [|reflexivity]; cbn in *; congruence). }
  intros [] s1 (st2 & Hb2 & ->). apply wp_bind, wp_zoom.
  eapply AC.wp_modifyEntry; [exact He|]. set (e1 := setf takenPrefetched _ _).
  set (bucket := if inFlight then covered else 4).
  assert (Hbk : (bucket <? 5) = true) by (apply Z.ltb_lt; destruct inFlight; [auto|done]).
  apply wp_bind.
  apply (wp_mono _ (fun _ s1 => exists st, balance st = balance (mlstats s) + 1 /\
    s1 = s <| pBuffer ::= fun c => c <| entries ::= <[i := e1]> |> |> <| mlstats := st |>)).
  { wp_step; (apply wp_neutral; [cbn; by rewrite Hbk|]); intros st3 Hb3; exists st3;
      (split; [cbn in Hb3; congruence | done]). }
  intros [] s2 (st3 & Hb3 & ->). apply wp_zoom.
  eapply AC.wp_modifyEntry; [by eapply lookup_written|].
  set (e2 := setf triggeredByPBHit _ e1).
  set (pb := (pBuffer s) <| entries ::= fun es => <[i := e2]> (<[i := e1]> es) |>).
  match goal with |- Q tt ?s' =>
    replace s' with (s <| pBuffer := pb |> <| mlstats := st3 |>) by reflexivity end.
  apply (HQ e2 pb st3).
  - unfold used. by rewrite H.
  - unfold AC.same_shape; cbn. by rewrite !length_insert.
  - cbn. by rewrite list_insert_insert_eq.
  - unfold pending. cbn. rewrite list_insert_insert_eq, (stat_count_insert _ _ _ _ _ He), H.
    cbn. lia.
Qed.

(** Latency of the level a prefetch came from. *)
Definition pfLatency (e : BTBEntry) : Cycles :=
  if prefetchedFromL3 e then l3Latency p else l2Latency p.

(** The prefetch is still on its way. *)
Definition inFlight (now : Cycles) (e : BTBEntry) : bool :=
  negb (noPrefetchLatency p) && (0 <? timestamp e) && (now <? timestamp e).

Definition remaining (now : Cycles) (e : BTBEntry) : Cycles :=
  if inFlight now e then timestamp e - now else 0.

(** The cycle arithmetic of [handlePBufferHit] does not throw, and the number
    of covered cycles is a bucket of the histogram. *)
Lemma covered_ok now e :
  0 <= now -> 0 <= pfLatency e <= 5 ->
  (noPrefetchLatency p = false -> timestamp e <= now + pfLatency e) ->
  (if inFlight now e then Cyc.sub (timestamp e) now else Ok 0) = Ok (remaining now e) /\
  0 <= remaining now e <= pfLatency e /\
  exists c, (if inFlight now e then Cyc.sub (pfLatency e) (remaining now e) else Ok 0) = Ok c /\
    (inFlight now e = true -> 0 <= c < 5).
Proof.
  intros Hn Hl Ht. unfold remaining. destruct (inFlight now e) eqn:E.
  - unfold inFlight in E. apply andb_prop in E as [E E3]. apply andb_prop in E as [E1 E2].
    apply negb_true_iff in E1. apply Z.ltb_lt in E2, E3. specialize (Ht E1).
    unfold Cyc.sub. destruct (Z.leb_spec now (timestamp e)); [|lia].
    destruct (Z.leb_spec (timestamp e - now) (pfLatency e)); [|lia].
    rewrite !u64_small by lia. split; [done|]. split; [lia|]. eexists. split; [done|]. lia.
  - split; [done|]. split; [lia|]. by exists 0.
Qed.

Lemma used_fields e e' : used e e' ->
  prefetched e' = false /\ BtbEntry.valid e' = BtbEntry.valid e /\ tag e' = tag e /\
  target e' = target e /\ inst e' = inst e /\ predTaken e' = predTaken e.
Proof. unfold used. destruct (prefetched e) eqn:E; by intros ->. Qed.

(** A prefetch buffer hit returns the target of the prefetched entry after
    the time the prefetch still needs; the entry moves to the L1 BTB. *)
Lemma wp_handlePBufferHit tid pc i e ty taken base s (Q : BTBLookupResult -> MLBTB -> Prop) :
  levels_ok s -> limitedMarkov p = false ->
  AC.find (l1btb s) (mkKey pc tid) = None ->
  entries (pBuffer s) !! i = Some e -> is_Some (target e) -> is_Some (inst e) ->
  0 <= curCycle s -> 0 <= pfLatency e <= 5 ->
  (noPrefetchLatency p = false -> timestamp e <= curCycle s + pfLatency e) ->
  (forall v e1 e2 l1 l2 l3 ct pb pct q nc bw st,
     storedAt (mkKey pc tid) e v e1 (l1btb s) l1 ->
     level_ok l2 -> level_ok l3 -> AC.wf (K:=BTBKey) ct -> AC.wf (K:=BTBKey) pct ->
     AC.same_shape (pBuffer s) pb -> entries pb = <[i := e2]> (entries (pBuffer s)) ->
     BtbEntry.valid e2 = false ->
     balance st + pending pb = balance (mlstats s) + pending (pBuffer s) ->
     triggered p s PBHit tid (remaining (curCycle s) e) q nc ->
     Q (mkLookup (target e) (remaining (curCycle s) e) false true false false true false
          (Entry.getDir e1) (prefetchTriggerType e))
       (s <| l1btb := l1 |> <| l2btb := l2 |> <| l3btb := l3 |> <| l1CompressedTags := ct |>
          <| pBuffer := pb |> <| pbCompressedTags := pct |>
          <| deferredPrefetchQueue := q |> <| nextChainId := nc |>
          <| prevBwBranch := bw |> <| mlstats := st |>)) ->
  wp (ML.handlePBufferHit p tid pc i ty taken base) Q s.
Proof.
  intros Hs Hmk Hf He Ht Hi Hn Hl Htime HQ.
  destruct (covered_ok (curCycle s) e Hn Hl Htime) as (Er & Hr & c & Ec & Hc).
  unfold ML.handlePBufferHit. apply wp_bind. eapply wp_zread; [apply _|done|].
  apply wp_bind, wp_gets. fold (inFlight (curCycle s) e). fold (pfLatency e).
  apply wp_bind. eapply wp_lift; [exact Er|]. apply wp_bind. eapply wp_lift; [exact Ec|].
  apply wp_bind. eapply wp_notePrefetchHit; [done|intros; by apply Hc|].
  intros e' pb1 st1 Hu Hsh1 He1 Hb1.
  destruct (used_fields e e' Hu) as (U1 & U2 & U3 & U4 & U5 & U6).
  assert (Hat1 : entries pb1 !! i = Some e') by (by eapply lookup_written).
  apply wp_bind. eapply wp_zread; [apply _|exact Hat1|]. apply wp_bind.
  destruct Ht as [t Ht].
  apply wp_promote; [apply Hs..|done|by rewrite U4, Ht|].
  intros v ve e1 l1 l2 l3 ct st2 Hl2 Hl3 Hct Hb2 Hst _ _ _ _. cbn in Hb2.
  assert (Hst' : storedAt (mkKey pc tid) e v e1 (l1btb s) l1).
  { destruct Hst. split; try done; cbn in *; congruence. }
  clear Hst. assert (Hat : entries l1 !! v = Some e1) by (eapply storedAt_lookup; [apply Hs|done]).
  apply wp_bind, wp_zoom. eapply AC.wp_modifyEntry; [exact Hat|].
  set (e2a := e1 <| predTaken := predTaken e' |> <| prefetched := false |>).
  destruct (promoteBits_fields e' e2a) as (F1 & F2 & F3 & F4 & F5 & F6).
  set (e2 := ML.promoteBits _ _ _) in *. set (l1' := setf entries _ (l1btb _)).
  assert (Hst2 : storedAt (mkKey pc tid) e v e2 (l1btb s) l1').
  { eapply storedAt_modify; [exact Hst'|done..| |]; [apply AC.same_shape_insert|done]. }
  apply wp_bind. stat_step. apply wp_bind. stat_step. apply wp_bind.
  apply wp_callFallThroughStats.
  { eapply (AC.wf_shape (l1btb s)); [apply Hs|apply Hst2]. }
  { eapply (AC.wf_shape (pBuffer s)); [apply Hs|exact Hsh1]. }
  { apply Hl2. }
  intros st3 Hb3. cbn in Hb3. apply wp_bind. eapply wp_deref; [by rewrite U4, Ht|].
  apply wp_bind, wp_tryInitialTrigger; [apply Hl2|apply Hl3|].
  intros q nc bw st4 Hb4 Htr. cbn in Hb4. apply wp_bind, wp_zoom.
  eapply (AC.wp_invalidate pb1); [eapply (AC.wf_shape (pBuffer s)); [apply Hs|exact Hsh1]|exact Hat1|].
  intros pb2 Hsh2 He2. apply wp_bind, wp_pbCompressedTagSync; [apply Hs|]. intros pct Hpct.
  apply wp_bind. rewrite Hmk. apply wp_ret. apply wp_bind.
  eapply wp_zread; [apply _| |].
  { eapply storedAt_lookup; [apply Hs|exact Hst2]. }
  apply wp_ret. replace (target e2) with (target e) by (symmetry; apply Hst2).
  refine (HQ v e2 (Entry.invalidate e') _ l2 l3 ct pb2 pct q nc bw st4 Hst2 Hl2 Hl3 Hct Hpct
            _ _ _ _ _); [by etransitivity| |done| |done].
  - by rewrite He2, He1, list_insert_insert_eq.
  - assert (Hp : pending pb2 = pending pb1).
    { unfold pending. rewrite He2, (stat_count_insert _ _ _ _ _ Hat1). cbn. lia. }
    rewrite Hp. congruence.
Qed.

(** *** update *)

(** Overwriting the content of the stored entry. *)
Lemma storedAt_overwrite key src v e e' c c' :
  storedAt key src v e c c' ->
  BtbEntry.valid e' = BtbEntry.valid e -> tag e' = tag e -> prefetched e' = false ->
  storedAt key e' v e' c (c' <| entries ::= <[v := e']> |>).
Proof.
  intros [A1 A2 A3 A4 A5 A6 A7 A8] E1 E2 E3. split; try done.
  - etransitivity; [exact A1|]. apply AC.same_shape_insert.
  - cbn. by rewrite A4, list_insert_insert_eq.
  - by rewrite (matches_ext _ _ e).
Qed.

(** After [update] the branch is in the L1 BTB with the new target. *)
Lemma wp_ml_update tid pc tgt ty i s (Q : unit -> MLBTB -> Prop) :
  levels_ok s ->
  (forall v e ve src l1 l2 l3 ct st,
     storedAt (mkKey pc tid) src v e (l1btb s) l1 -> target src = Some tgt -> inst src = Some i ->
     entries (l1btb s) !! v = Some ve -> level_ok l2 -> level_ok l3 ->
     AC.wf (K:=BTBKey) ct -> balance st = balance (mlstats s) ->
     (AC.find (l1btb s) (mkKey pc tid) = None -> BtbEntry.valid ve = true ->
      stored (mkKey (branchAddr ve) tid) ve (l2btb s) l2) ->
     (AC.find (l1btb s) (mkKey pc tid) = None -> BtbEntry.valid ve = false -> l2 = l2btb s) ->
     (AC.find (l1btb s) (mkKey pc tid) <> None -> l2 = l2btb s) ->
     Q tt (s <| l1btb := l1 |> <| l2btb := l2 |> <| l3btb := l3 |>
             <| l1CompressedTags := ct |> <| mlstats := st |>)) ->
  wp (ML.update p tid pc tgt ty (Some i)) Q s.
Proof.
  intros Hs HQ. unfold ML.update. pose proof (lv_wf _ (lo_l1 _ Hs)) as Hwf.
  apply wp_bind. stat_step.
  apply wp_bind, wp_zfind; [apply _|done|]. cbn [l1btb]. apply wp_bind.
  change (l1btb (s <| mlstats := st |>)) with (l1btb s). set (key := mkKey pc tid) in *.
  apply (wp_mono _ (fun v s1 => exists e ve l1 l2 l3 st', level_ok l2 /\ level_ok l3 /\
     balance st' = balance (mlstats s) /\ entries (l1btb s) !! v = Some ve /\
     storedAt key e v e (l1btb s) l1 /\
     (AC.find (l1btb s) key = None -> BtbEntry.valid ve = true ->
      stored (mkKey (branchAddr ve) tid) ve (l2btb s) l2) /\
     (AC.find (l1btb s) key = None -> BtbEntry.valid ve = false -> l2 = l2btb s) /\
     (AC.find (l1btb s) key <> None -> l2 = l2btb s) /\
     s1 = s <| l1btb := l1 |> <| l2btb := l2 |> <| l3btb := l3 |> <| mlstats := st' |>)).
  { destruct (AC.find (l1btb s) key) as [v|] eqn:Ef.
    - destruct (level_find _ _ _ (lo_l1 _ Hs) Ef) as (e & He & Hval & Hm & [t Ht] & Hi).
      pose proof (unprefetched_at _ _ _ Hs He) as Hpf.
      destruct (AC.find_Some _ _ _ Ef) as (Hv & _).
      assert (H0 : storedAt key e v e (l1btb s) (l1btb s)).
      { split; try done; [by right|by rewrite list_insert_id]. }
      apply wp_bind, (wp_mono _ (fun _ s1 => exists e' l1,
        storedAt key e' v e' (l1btb s) l1 /\ s1 = s <| l1btb := l1 |> <| mlstats := st |>)).
      { wp_step; [|by exists e, (l1btb s)]. apply wp_bind. eapply wp_zread; [apply _|done|].
        apply wp_bind. eapply wp_deref; [exact Ht|]. wp_step; [|by exists e, (l1btb s)].
        apply wp_zoom. eapply AC.wp_modifyEntry; [exact He|].
        eexists _, _. split; [|reflexivity]. by eapply storedAt_overwrite. }
      intros [] s1 (e' & l1 & Hst & ->). apply wp_ret.
      exists e', e, l1, (l2btb s), (l3btb s), st.
      split_and!; try done; apply Hs.
    - apply wp_bind, wp_freeUpL1Entry; [apply Hs..|done|].
      intros v ve e1 l1 l2 l3 st1 Hl2 Hl3 Hb1 Hv Hve Hsh He1 Hm Hpf _ _ Hwb Hno. cbn in *.
      assert (H0 : storedAt key e1 v e1 (l1btb s) l1) by (split; try done; by left).
      apply wp_bind, (wp_mono _ (fun _ s1 => exists e' l1,
        storedAt key e' v e' (l1btb s) l1 /\
        s1 = s <| l1btb := l1 |> <| l2btb := l2 |> <| l3btb := l3 |> <| mlstats := st1 |>)).
      { wp_step; [|by exists e1, l1]. apply wp_zoom.
        eapply AC.wp_modifyEntry; [by eapply (storedAt_lookup _ _ _ _ (l1btb s))|].
        eexists _, _. split; [|reflexivity]. by eapply storedAt_overwrite. }
      intros [] s1 (e' & l1' & Hst & ->). apply wp_ret.
      exists e', ve, l1', l2, l3, st1.
      split_and!; try done; [congruence|intros _ Hv0; by apply Hno]. }
  intros v s1 (e & ve & l1 & l2 & l3 & st' & Hl2 & Hl3 & Hb & Hve & Hst & W1 & W2 & W3 & ->).
  apply wp_bind, wp_l1CompressedTagSync; [apply Hs|]. intros ct Hct.
  apply wp_bind, wp_zoom. eapply AC.wp_modifyEntry.
  { exact (storedAt_lookup _ _ _ _ _ _ Hwf Hst). }
  set (e' := Entry.update _ _ _). set (l1' := setf entries _ (l1btb _)).
  assert (Hst' : storedAt key e' v e' (l1btb s) l1').
  { eapply storedAt_overwrite; [exact Hst|done|done|apply Hst]. }
  apply wp_bind, wp_gets, wp_zoom.
  apply AC.wp_accessEntry.
  { eapply AC.wf_shape; [exact Hwf|apply Hst']. }
  { change (is_Some (entries l1' !! v)). by rewrite (storedAt_lookup _ _ _ _ _ _ Hwf Hst'). }
  intros l1c Hsh He. refine (HQ v e' ve e' l1c l2 l3 ct st' _ _ _ Hve Hl2 Hl3 Hct Hb W1 W2 W3).
  - destruct Hst' as [A1 A2 A3 A4 A5 A6 A7 A8]. split; try done.
    + by etransitivity.
    + rewrite He. exact A4.
  - cbn. apply set_Some.
  - done.
Qed.
End Rules.
