(* ===== verification/MultiLevelInv.v ===== *)
(** * MultiLevelBTB: the invariant

    [inv] is the invariant of a [MultiLevelBTB] in use: every level is well
    formed and holds complete entries, prefetches in the buffer arrive in
    time, the chain table and the deferred queue are consistent, and the
    prefetch counters account for every prefetch.  Every operation keeps it. *)

From Stdlib Require Import ZArith Lia Sorted.
From stdpp Require Import base list gmap numbers.
From S2P Require Import Prelude Types SatCounter ReplPolicy AssocCache AssocCacheInit BtbEntry Btb MultiLevelBtb MultiLevelWp MultiLevelHit.

(** ** Configurations

    The configurations the invariant is about: the Markov prefetcher is off,
    the L2 and L3 latencies fit the five buckets of the lateness histograms,
    and, when no prefetch bits are trained, L1 hits trigger nothing. *)
Record ferretConfig (p : MLParams) : Prop := {
  fc_markov : limitedMarkov p = false;
  fc_l2 : 0 <= l2Latency p <= 5;
  fc_l3 : 0 <= l3Latency p <= 5;
  fc_chains : 0 <= maxChainTrackerEntries p < 2 ^ 31;
  fc_off : ML.usesPrefetchBitPolicy p = true \/ prefetchFwExitOnL1Hit p = false
}.

(** ** Queue facts *)

Lemma insertByIssueTime_perm d q : insertByIssueTime d q ≡ₚ d :: q.
Proof.
  induction q as [|x q IH]; cbn; [done|]. destruct (_ <? _); [|done].
  rewrite IH. apply Permutation_swap.
Qed.

Lemma enqueued_perm l q q' : enqueued l q q' -> q' ≡ₚ l ++ q.
Proof.
  unfold enqueued. intros ->. revert q. induction l as [|d l IH]; intros q; cbn; [done|].
  rewrite IH, insertByIssueTime_perm. symmetry. apply Permutation_middle.
Qed.

Lemma enqueued_Forall P l q q' :
  enqueued l q q' -> Forall P l -> Forall P q -> Forall P q'.
Proof. intros ->%enqueued_perm Hl Hq. by apply Forall_app. Qed.

(** The queue is ordered by issue time. *)
Abbreviation ordered :=
  (StronglySorted (fun a b : DeferredPrefetchEntry => df_issueTime a <= df_issueTime b)).

Lemma insertByIssueTime_ordered d q : ordered q -> ordered (insertByIssueTime d q).
Proof.
  induction 1 as [|x q Hq IH Hx]; cbn; [by repeat constructor|].
  destruct (Z.ltb_spec (df_issueTime x) (df_issueTime d)).
  - constructor; [done|]. rewrite insertByIssueTime_perm. constructor; [lia|done].
  - constructor; [by constructor|]. constructor; [lia|].
    eapply Forall_impl; [|exact Hx]. cbn. lia.
Qed.

Lemma enqueued_ordered l q q' : enqueued l q q' -> ordered q -> ordered q'.
Proof.
  unfold enqueued. intros ->. revert q. induction l as [|d l IH]; intros q Hq; cbn; [done|].
  by apply IH, insertByIssueTime_ordered.
Qed.

Lemma ordered_suffix l q : ordered (l ++ q) -> ordered q.
Proof. induction l as [|d l IH]; [done|]. intros [H _]%StronglySorted_inv. auto. Qed.

Section Inv.
Context (p : MLParams) (nthreads : nat).

(** An entry of the deferred queue belongs to a chain; a follow-up entry only
    exists when chains are tracked. *)
Definition chained (d : DeferredPrefetchEntry) : Prop :=
  df_chainId d <> 0 /\ (df_allocateChain d = false -> 0 < maxChainTrackerEntries p) /\
  0 <= df_issueTime d.

(** A prefetch arrives within the latency of the level it comes from. *)
Definition arrives (now : Cycles) (e : BTBEntry) : Prop :=
  BtbEntry.valid e = true -> timestamp e <= now + pfLatency p e.

(** [k] bounds the number of chains started. *)
Record inv (k : Z) (s : MLBTB) : Prop := {
  i_levels : levels_ok s;
  i_time : noPrefetchLatency p = false -> Forall (arrives (curCycle s)) (entries (pBuffer s));
  i_chain : length (chainTable s) = Z.to_nat (maxChainTrackerEntries p);
  i_queue : Forall chained (deferredPrefetchQueue s);
  i_map : deferredPrefetchQueue s = [] \/ is_Some (bbMap_ s);
  i_next : 1 <= nextChainId s <= 1 + k;
  i_now : 0 <= curCycle s;
  i_balance : balance (mlstats s) + pending (pBuffer s) = 0;
  i_off : ML.usesPrefetchBitPolicy p = false ->
    deferredPrefetchQueue s = [] /\
    Forall (fun e => BtbEntry.valid e = false) (entries (pBuffer s));
  i_blocks : length (prevBlockInfo s) = nthreads;
  i_ordered : ordered (deferredPrefetchQueue s)
}.

Context (Hcfg : ferretConfig p).

(** *** The invariant after parts of the state changed *)

Lemma inv_stats k s st :
  inv k s -> balance st = balance (mlstats s) -> inv k (s <| mlstats := st |>).
Proof.
  intros [[] ? ? ? ? ? ? Hb ? ? ?] E. constructor; cbn in *; try done. by rewrite E.
Qed.

Lemma inv_mono k k' s : inv k s -> k <= k' -> inv k' s.
Proof. intros [] H. constructor; try done. lia. Qed.

(** A trigger keeps the queue consistent. *)
Lemma triggered_ok k s loc tid base q nc :
  inv k s -> 1 + k < 2 ^ 64 - 1 -> triggered p s loc tid base q nc ->
  (ML.usesPrefetchBitPolicy p = false -> closed p loc = true) ->
  Forall chained q /\ (q = [] \/ is_Some (bbMap_ s)) /\ 1 <= nc <= 2 + k /\
  (ML.usesPrefetchBitPolicy p = false -> q = []) /\ ordered q.
Proof.
  intros Hinv Hk (l & Hq & Hl & Hnc & Hcl & Hbb) Hoff. pose proof (i_next _ _ Hinv).
  split; [|split; [|split; [|split]]].
  - eapply enqueued_Forall; [exact Hq| |apply Hinv].
    eapply Forall_impl; [|exact Hl]. intros d (b & dep & _ & _ & Ht & Hc & Ha & _).
    unfold chained. rewrite Hc, Ha, Ht. split; [lia|]. split; [done|].
    unfold Cyc.add. apply u64_range.
  - destruct Hbb as [->|?]; [|by right]. unfold enqueued in Hq. cbn in Hq. subst q.
    apply Hinv.
  - destruct Hnc as [[-> _]| ->]; [lia|]. rewrite u64_small; lia.
  - intros Hp. destruct (i_off _ _ Hinv Hp) as [E _].
    rewrite (Hcl (Hoff Hp)) in Hq. unfold enqueued in Hq. cbn in Hq. congruence.
  - eapply enqueued_ordered; [exact Hq|apply Hinv].
Qed.

Lemma closed_L1 : ML.usesPrefetchBitPolicy p = false -> closed p L1Hit = true.
Proof.
  intros H. destruct (fc_off _ Hcfg) as [?|E]; [congruence|]. cbn. by rewrite E.
Qed.
Lemma closed_below loc : loc = L2Hit \/ loc = L3Hit ->
  ML.usesPrefetchBitPolicy p = false -> closed p loc = true.
Proof. intros [-> | ->] H; cbn; by rewrite H. Qed.

Lemma pfLatency_bound e : 0 <= pfLatency p e <= 5.
Proof. unfold pfLatency. destruct (prefetchedFromL3 e); [apply (fc_l3 _ Hcfg)|apply (fc_l2 _ Hcfg)]. Qed.

(** Writing an unprefetched complete entry keeps the L1 BTB as it must be. *)
Lemma storedAt_levels key src v e s l1 :
  levels_ok s -> storedAt key src v e (l1btb s) l1 -> is_Some (target src) ->
  is_Some (inst src) ->
  level_ok l1 /\ Forall (fun e => prefetched e = false) (entries l1).
Proof.
  intros Hs Hst Ht Hi. split; [by eapply storedAt_level; [apply Hs|..]|].
  rewrite (st_entries _ _ _ _ _ _ Hst). apply Forall_insert; [apply Hs|apply Hst].
Qed.

(** *** The chain table *)

Lemma wp_writeChain i f s (Q : unit -> MLBTB -> Prop) :
  (i < length (chainTable s))%nat ->
  (forall c, chainTable s !! i = Some c ->
     Q tt (s <| chainTable := <[i := f c]> (chainTable s) |>)) ->
  wp (ML.writeChain i f) Q s.
Proof.
  intros [c Hc]%lookup_lt_is_Some_2 HQ. unfold ML.writeChain, ML.readChain. wp_steps.
  eapply wp_at_index; [exact Hc|]. wp_steps. by apply HQ.
Qed.

Lemma wp_readChain i s (Q : ActiveChainEntry -> MLBTB -> Prop) :
  (i < length (chainTable s))%nat ->
  (forall c, chainTable s !! i = Some c -> Q c s) -> wp (ML.readChain i) Q s.
Proof.
  intros [c Hc]%lookup_lt_is_Some_2 HQ. unfold ML.readChain. wp_steps.
  eapply wp_at_index; [exact Hc|]. by apply HQ.
Qed.

Lemma inv_table k s t :
  inv k s -> length t = length (chainTable s) -> inv k (s <| chainTable := t |>).
Proof. intros [[] ? ? ? ? ? ? ? ? ? ?] E. constructor; cbn in *; try done. by rewrite E. Qed.

(** Processing an entry of the queue changes the invariant's state and leaves
    the block map and the clock. *)
Definition kept (k : Z) (s s' : MLBTB) : Prop :=
  inv k s' /\ bbMap_ s' = bbMap_ s /\ curCycle s' = curCycle s /\
  pfqEvent s' = pfqEvent s.

Lemma kept_trans k s1 s2 s3 : kept k s1 s2 -> kept k s2 s3 -> kept k s1 s3.
Proof. intros (? & ? & ? & ?) (? & ? & ? & ?). split_and!; try done; congruence. Qed.

Lemma kept_stat x k s : inv k s -> stat_index_ok x && neutral x = true ->
  wp (ML.stat x) (fun _ => kept k s) s.
Proof.
  intros Hi Hx. apply wp_neutral; [done|]. intros st Hb. split; [|done]. by apply inv_stats.
Qed.

Lemma kept_writeChain i f k s :
  inv k s -> (i < length (chainTable s))%nat ->
  wp (ML.writeChain i f) (fun _ => kept k s) s.
Proof.
  intros Hi Hl. apply wp_writeChain; [done|]. intros c Hc. split; [|done].
  apply inv_table; [done|]. by rewrite length_insert.
Qed.

(** Sequencing of operations that keep the invariant. *)
Lemma kept_bind {A} (m : M MLBTB A) (f : A -> M MLBTB unit) k s :
  wp m (fun _ => kept k s) s ->
  (forall a s', kept k s s' -> wp (f a) (fun _ => kept k s') s') ->
  wp (m ≫= f) (fun _ => kept k s) s.
Proof.
  intros Hm Hf. apply wp_bind. eapply wp_mono; [exact Hm|]. intros a s' Hs'.
  cbn beta in Hs'. eapply wp_mono; [by apply Hf|]. intros [] s'' Hs''. by eauto using kept_trans.
Qed.

Lemma kept_refl k s : inv k s -> kept k s s.
Proof. done. Qed.

Lemma kept_noteEnd entry o r k s :
  inv k s -> (forall i, o = Some i -> (i < length (chainTable s))%nat) ->
  wp (ML.noteEnd entry o r) (fun _ => kept k s) s.
Proof.
  intros Hi Ho. unfold ML.noteEnd. destruct o as [i|]; [|by apply wp_ret].
  wp_step; [|done]. apply kept_writeChain; auto.
Qed.

Lemma chainIdx_bound id k s :
  inv k s -> 0 < maxChainTrackerEntries p -> (ML.chainIdx p id < length (chainTable s))%nat.
Proof.
  intros Hi Hm. rewrite (i_chain _ _ Hi). unfold ML.chainIdx.
  pose proof (Z.mod_pos_bound id _ Hm). lia.
Qed.

Lemma kept_prefetchViaBBMap tid addr isTaken byPB depth base ty id k s :
  inv k s -> is_Some (bbMap_ s) -> ML.usesPrefetchBitPolicy p = true ->
  id <> 0 -> 0 < maxChainTrackerEntries p ->
  wp (ML.prefetchViaBBMap p tid addr isTaken byPB depth base ty id false)
     (fun _ s' => kept k s s' /\ chainTable s' = chainTable s) s.
Proof.
  intros Hi Hm Hp Hid Hmax. apply wp_prefetchViaBBMap; [apply Hi|apply Hi|done|].
  intros q Hq. split; [|done]. split; [|done].
  assert (Hch : Forall chained q).
  { destruct Hq as [->|(d & (_ & Ht & Hc & Ha & _) & ->)]; [apply Hi|].
    rewrite insertByIssueTime_perm. constructor; [|apply Hi].
    unfold chained. rewrite Hc, Ht. split; [done|]. split; [done|]. apply u64_range. }
  assert (Hord : ordered q).
  { destruct Hq as [->|(d & _ & ->)]; [apply Hi|]. apply insertByIssueTime_ordered, Hi. }
  destruct Hi as [[] ? ? ? ? ? ? ? ? ? ?]. constructor; cbn in *; try done; [by right|congruence].
Qed.

Lemma kept_allocateChainSlot entry k s :
  inv k s -> 0 < maxChainTrackerEntries p ->
  wp (ML.allocateChainSlot p entry)
     (fun i s' => kept k s s' /\ (i < length (chainTable s'))%nat) s.
Proof.
  intros Hi Hmax. unfold ML.allocateChainSlot. set (i := ML.chainIdx p _).
  assert (Hlen : forall s', inv k s' -> (i < length (chainTable s'))%nat).
  { intros s' Hi'. by eapply chainIdx_bound. }
  apply wp_bind, wp_readChain; [by apply Hlen|]. intros c Hc.
  apply wp_bind. apply (wp_mono _ (fun _ => kept k s)).
  2: { intros [] s' Hs'. apply wp_ret. split; [done|]. apply Hlen, Hs'. }
  wp_step; [|done]. apply kept_bind.
  2: { intros [] s' Hs'. apply kept_writeChain; [apply Hs'|apply Hlen, Hs']. }
  wp_step; [|done]. apply kept_bind.
  { unfold ML.isChainDead. apply wp_gets. done. }
  intros dead s1 Hs1. apply kept_bind; [|intros [] s2 Hs2; by apply kept_stat; [apply Hs2|]].
  wp_step; [|apply kept_stat; [apply Hs1|done]].
  unfold ML.recordChainEnd. apply wp_bind, wp_readChain; [apply Hlen, Hs1|]. intros c' Hc'.
  apply kept_bind; [apply kept_stat; [apply Hs1|by destruct (ch_lastEndReason c')]|].
  intros [] s2 Hs2. apply kept_writeChain; [apply Hs2|apply Hlen, Hs2].
Qed.

Lemma kept_advanceChain i entry pf arrival k s :
  inv k s -> is_Some (bbMap_ s) -> ML.usesPrefetchBitPolicy p = true ->
  df_chainId entry <> 0 -> 0 < maxChainTrackerEntries p ->
  (i < length (chainTable s))%nat -> is_Some (target pf) -> is_Some (inst pf) ->
  wp (ML.advanceChain p i entry pf arrival) (fun _ => kept k s) s.
Proof.
  intros Hi Hm Hp Hid Hmax Hlen [t Ht] [ins Hins]. unfold ML.advanceChain.
  assert (Hlen' : forall s', kept k s s' -> (i < length (chainTable s'))%nat).
  { intros s' [Hs' _]. rewrite (i_chain _ _ Hs'), <- (i_chain _ _ Hi). done. }
  apply wp_bind, wp_readChain; [done|]. intros c0 _. wp_step; [done|].
  apply wp_bind. eapply wp_mono; [by apply kept_writeChain|]. intros [] s1 K1.
  apply wp_bind, wp_readChain; [by apply Hlen'|]. intros c1 _.
  apply wp_bind. apply (wp_mono _ (fun _ => kept k s)).
  { wp_step; [|done]. eapply wp_mono; [by apply kept_writeChain; [apply K1|apply Hlen']|].
    intros [] s2 K2. by eauto using kept_trans. }
  intros [] s2 K2. apply wp_bind. eapply wp_deref; [exact Ht|]. apply wp_bind, wp_gets, wp_bind.
  apply (wp_mono _ (fun _ s3 => s3 = s2)).
  { apply wp_lift with (a := if curCycle s2 <? arrival then u64 (arrival - curCycle s2) else 0);
      [|done].
    unfold Cyc.sub. destruct (Z.ltb_spec (curCycle s2) arrival); [|done].
    by destruct (Z.leb_spec (curCycle s2) arrival); [|lia]. }
  intros lat _ ->. apply wp_bind. eapply wp_deref; [exact Hins|].
  assert (Hmap : forall s', kept k s s' -> is_Some (bbMap_ s')).
  { intros s' (_ & -> & _). done. }
  apply wp_bind. apply (wp_mono _ (fun _ => kept k s)).
  { wp_step; [|done]. apply wp_bind. eapply wp_mono.
    { apply kept_prefetchViaBBMap; [apply K2|by apply Hmap|done..]. }
    intros [] s3 [K3 _]. assert (K3' : kept k s s3) by (by eauto using kept_trans).
    wp_step; [|done]. eapply wp_mono; [by apply kept_writeChain; [apply K3'|apply Hlen']|].
    intros [] s4 K4. by eauto using kept_trans. }
  intros [] s3 K3. wp_step; [|done]. eapply wp_mono.
  { apply kept_prefetchViaBBMap; [apply K3|by apply Hmap|done..]. }
  intros [] s4 [K4 _]. by eauto using kept_trans.
Qed.

(** *** Filling the prefetch buffer *)

Lemma kept_enqueuePrefetch pc tid src arrival toL1 byPB dist taken ty (fromL3 : bool) k s :
  inv k s -> ML.usesPrefetchBitPolicy p = true -> is_Some (target src) -> is_Some (inst src) ->
  (noPrefetchLatency p = false ->
   arrival <= curCycle s + (if fromL3 then l3Latency p else l2Latency p)) ->
  wp (ML.enqueuePrefetch p pc tid src arrival toL1 byPB dist taken ty fromL3)
     (fun _ => kept k s) s.
Proof.
  intros Hi Hp [t Ht] [ins Hins] Harr. pose proof (i_levels _ _ Hi) as Hlv.
  apply wp_enqueuePrefetch; [apply Hlv..|by rewrite Ht|].
  intros pb pct st Hpct Hsh Hbal Hcase. split; [|done].
  assert (Hpb : level_ok pb /\
    (noPrefetchLatency p = false -> Forall (arrives (curCycle s)) (entries pb))).
  { destruct Hcase as [[E _]|(v & e & _ & He & _ & _ & _ & Et & Ei & Etm & Efr & _)].
    - split; [eapply (level_same (pBuffer s)); [apply Hlv|done..]|].
      rewrite E. apply Hi.
    - split.
      + eapply (level_write (pBuffer s)); [apply Hlv|done..|].
        intros _. by rewrite Et, Ei, Ht, Hins.
      + intros Hn. rewrite He. apply Forall_insert; [by apply Hi|].
        intros _. unfold pfLatency. rewrite Etm, Efr. auto. }
  destruct Hpb as [Hpb Htime].
  destruct Hi as [[] ? ? ? ? ? ? ? ? ? ?].
  constructor; cbn in *; first [done | by constructor | lia | congruence].
Qed.

Lemma kept_approx k s m :
  (forall Q : bool -> MLBTB -> Prop,
     (forall b st, balance st = balance (mlstats s) -> Q b (s <| mlstats := st |>)) ->
     wp m Q s) ->
  inv k s -> wp m (fun _ => kept k s) s.
Proof. intros Hm Hi. apply Hm. intros b st Hb. split; [|done]. by apply inv_stats. Qed.

(** A ready entry: an entry of the queue whose issue time has come. *)
Definition ready (now : Cycles) (d : DeferredPrefetchEntry) : Prop :=
  chained d /\ (noPrefetchLatency p = false -> df_issueTime d <= now).

Lemma arrival_bound now d lat : ready now d -> 0 <= lat ->
  noPrefetchLatency p = false -> Cyc.add (df_issueTime d) lat <= now + lat.
Proof.
  intros [(_ & _ & H0) H1] Hl Hn. specialize (H1 Hn). unfold Cyc.add, u64.
  pose proof (Z.mod_le (df_issueTime d + lat) (2 ^ 64)). lia.
Qed.

Lemma kept_issuePrefetch entry o pf lat (fromL3 : bool) k s :
  inv k s -> is_Some (bbMap_ s) -> ML.usesPrefetchBitPolicy p = true ->
  ready (curCycle s) entry ->
  (forall i, o = Some i -> (i < length (chainTable s))%nat /\ 0 < maxChainTrackerEntries p) ->
  is_Some (target pf) -> is_Some (inst pf) ->
  lat = (if fromL3 then l3Latency p else l2Latency p) ->
  wp (ML.issuePrefetch p entry o pf lat fromL3) (fun _ => kept k s) s.
Proof.
  intros Hi Hm Hp Hr Ho Ht Hins ->. unfold ML.issuePrefetch.
  apply kept_bind.
  { apply kept_enqueuePrefetch; try done. apply arrival_bound; [done|].
    pose proof (fc_l2 _ Hcfg). pose proof (fc_l3 _ Hcfg). destruct fromL3; lia. }
  intros [] s1 K1. apply wp_bind.
  apply (wp_mono _ (fun o s2 => kept k s1 s2 /\
    (forall i, o = Some i -> (i < length (chainTable s2))%nat /\ 0 < maxChainTrackerEntries p))).
  { wp_step.
    - apply andb_prop in H as [_ Hmax]. apply Z.ltb_lt in Hmax.
      apply wp_bind. eapply wp_mono; [by apply kept_allocateChainSlot; [apply K1|]|].
      intros i s2 [K2 Hlen]. apply wp_ret. split; [done|]. by intros ? [= <-].
    - apply wp_ret. split; [by apply kept_refl, K1|]. intros i E. destruct (Ho i E) as [Hlt ?].
      split; [|done]. destruct K1 as [K1 _]. by rewrite (i_chain _ _ K1), <- (i_chain _ _ Hi). }
  intros [i|] s2 [K2 Ho2]; [|by apply wp_ret].
  destruct (Ho2 i eq_refl) as [Hlen Hmax].
  assert (Hmap2 : is_Some (bbMap_ s2)).
  { destruct K1 as (_ & E1 & _), K2 as (_ & E2 & _). by rewrite E2, E1. }
  eapply wp_mono.
  { apply kept_advanceChain; try done; [apply K2|apply Hr]. }
  intros [] s3 K3. by eauto using kept_trans.
Qed.

Lemma kept_checkChain entry k s :
  inv k s ->
  wp (ML.checkChain p entry)
     (fun r s' => s' = s /\ (forall i, snd r = Some i ->
        (i < length (chainTable s))%nat /\ 0 < maxChainTrackerEntries p) /\
      (df_chainId entry <> 0 -> 0 < maxChainTrackerEntries p -> is_Some (snd r))) s.
Proof.
  intros Hi. unfold ML.checkChain. wp_step.
  - apply andb_prop in H as [_ Hmax]. apply Z.ltb_lt in Hmax.
    pose proof (chainIdx_bound (df_chainId entry) _ _ Hi Hmax) as Hlen.
    apply wp_bind, wp_readChain; [done|]. intros c _. apply wp_ret.
    split; [done|]. split; [by intros i [= <-]|done].
  - apply wp_ret. split; [done|]. split; [done|]. intros H1 H2.
    apply andb_false_iff in H as [H|H]; [by apply negb_false_iff, Z.eqb_eq in H|].
    apply Z.ltb_ge in H. lia.
Qed.

(** *** Processing the queue *)

Lemma kept_processEntry entry k s :
  inv k s -> is_Some (bbMap_ s) -> ML.usesPrefetchBitPolicy p = true ->
  ready (curCycle s) entry ->
  wp (ML.processEntry p entry) (fun _ => kept k s) s.
Proof.
  intros Hi Hm Hp Hr. unfold ML.processEntry. apply wp_bind.
  eapply wp_mono; [by apply (kept_checkChain entry k)|].
  intros [v o] s0 (-> & Ho & Hsome). cbn [snd fst] in *. wp_step; [done|].
  apply kept_bind; [by apply kept_stat|]. intros [] s1 K1.
  assert (Hlen : forall s', kept k s s' -> forall i, o = Some i -> (i < length (chainTable s'))%nat).
  { intros s' [K _] i E. rewrite (i_chain _ _ K), <- (i_chain _ _ Hi). by apply Ho. }
  pose proof (kept_refl _ _ (proj1 K1)) as R1.
  apply wp_bind, wp_gets, wp_if; intros Hd.
  { apply kept_bind; [by apply kept_stat; [apply K1|]|]. intros [] s2 K2.
    assert (K2' : kept k s s2) by (by eauto using kept_trans).
    wp_step; [|by apply kept_refl, K2]. apply negb_true_iff in H0.
    destruct Hr as [(Hid & Hal & _) _]. destruct (Hsome Hid (Hal H0)) as [i ->].
    apply wp_bind. eapply wp_deref; [done|].
    apply kept_writeChain; [apply K2|by apply Hlen]. }
  assert (Hlv : forall s', kept k s s' -> levels_ok s') by (intros s' [K _]; apply K).
  apply kept_bind.
  { apply kept_approx; [|apply K1]. intros Q HQ.
    apply wp_l1ApproxContains; [by apply Hlv..|]. eauto. }
  intros inL1 s2 K2. assert (K2' : kept k s s2) by (by eauto using kept_trans).
  apply kept_bind.
  { wp_step; [by apply wp_ret, kept_refl, K2|]. apply kept_approx; [|apply K2]. intros Q HQ.
    apply wp_pbApproxContains; [by apply Hlv..|]. eauto. }
  intros hit s3 K3. assert (K3' : kept k s s3) by (by eauto using kept_trans).
  wp_step.
  { apply kept_bind; [by apply kept_noteEnd; [apply K3|apply Hlen]|].
    intros [] s4 K4. by apply kept_stat; [apply K4|]. }
  apply wp_bind, wp_zfind; [apply _|by apply Hlv|].
  set (f2 := AC.find (l2btb s3) _).
  apply wp_bind. apply (wp_mono _ (fun o s' => s' = s3 /\
    (o = None \/ enableL3 p = true /\ o = AC.find (l3btb s3) (mkKey (df_pc entry) (df_tid entry))))).
  { wp_step; [|by apply wp_ret; auto]. apply wp_zfind; [apply _|by apply Hlv|]. auto. }
  intros f3 _ [-> Hf3].
  assert (Hiss : forall pf lat (fromL3 : bool) s4, kept k s s4 ->
    is_Some (target pf) -> is_Some (inst pf) ->
    lat = (if fromL3 then l3Latency p else l2Latency p) ->
    wp (ML.issuePrefetch p entry o pf lat fromL3) (fun _ => kept k s4) s4).
  { intros pf lat fromL3 s4 K4 Ht Hins El.
    apply kept_issuePrefetch; try done; [apply K4| | |].
    - destruct K4 as (_ & E & _). by rewrite E.
    - destruct K4 as (_ & _ & E & _). by rewrite E.
    - intros i E. split; [by apply Hlen|]. by apply (Ho i). }
  assert (Hst : forall st, balance st = balance (mlstats s3) ->
            kept k s3 (s3 <| mlstats := st |>)).
  { intros st Hb. split; [by apply inv_stats; [apply K3|]|done]. }
  destruct f2 as [i|] eqn:Ef2; [|destruct f3 as [i|]].
  - destruct (level_find _ _ _ (lo_l2 _ (Hlv _ K3')) Ef2) as (e & He & _ & _ & Ht & Hins).
    apply wp_bind, wp_neutral; [done|]. intros st Hb. apply wp_bind.
    eapply wp_zread; [apply _|exact He|]. eapply wp_mono.
    { apply (Hiss _ _ false); [by eauto using kept_trans|done..]. }
    intros [] s5 K5. by eauto using kept_trans.
  - destruct Hf3 as [?|[_ Ef3]]; [done|]. symmetry in Ef3.
    destruct (level_find _ _ _ (lo_l3 _ (Hlv _ K3')) Ef3) as (e & He & _ & _ & Ht & Hins).
    apply wp_bind, wp_neutral; [done|]. intros st Hb. apply wp_bind.
    eapply wp_zread; [apply _|exact He|]. eapply wp_mono.
    { apply (Hiss _ _ true); [by eauto using kept_trans|done..]. }
    intros [] s5 K5. by eauto using kept_trans.
  - wp_step; (apply kept_bind; [by apply kept_stat; [apply K3|]|]); intros [] s4 K4;
      apply kept_noteEnd; [apply K4|apply Hlen|apply K4|apply Hlen]; by eauto using kept_trans.
Qed.

Lemma splitReady_spec now q r rest :
  ML.splitReady p now q = (r, rest) ->
  q = r ++ rest /\
  (noPrefetchLatency p = false -> Forall (fun d => df_issueTime d <= now) r) /\
  (forall d rest', rest = d :: rest' -> noPrefetchLatency p = false /\ now < df_issueTime d).
Proof.
  revert r rest. induction q as [|d q IH]; intros r rest; cbn.
  { intros [= <- <-]. split_and!; done. }
  destruct (negb (noPrefetchLatency p) && (now <? df_issueTime d)) eqn:E.
  - intros [= <- <-]. split_and!; [done|done|]. intros d' rest' [= <- <-].
    apply andb_prop in E as [E1 E2]. apply negb_true_iff in E1. by apply Z.ltb_lt in E2.
  - destruct (ML.splitReady p now q) as [r0 rest0]. intros [= <- <-].
    destruct (IH r0 rest0 eq_refl) as (-> & H2 & H3). split_and!; [done| |done].
    intros Hn. constructor; [|by apply H2]. rewrite Hn in E. cbn in E.
    by apply Z.ltb_ge in E.
Qed.

Lemma wp_activeChains q active k s :
  inv k s -> wp (ML.activeChains p q active) (fun _ s' => s' = s) s.
Proof.
  intros Hi. revert active. induction q as [|d q IH]; intros active; cbn [ML.activeChains].
  { by apply wp_ret. }
  wp_step; [|apply IH]. wp_step; [|apply IH].
  apply Z.ltb_lt in H0. apply wp_bind, wp_readChain; [by eapply chainIdx_bound|].
  intros c _. wp_step; apply IH.
Qed.

(** The event handler keeps the invariant and reschedules itself for the next
    cycle. *)
Lemma wp_processQueue k s :
  inv k s -> pfqEvent s = None ->
  wp (ML.processDeferredPrefetchQueue p)
     (fun _ s' => inv k s' /\ bbMap_ s' = bbMap_ s /\ curCycle s' = curCycle s /\
        pfqEvent s' = Some (Cyc.add (curCycle s) 1)) s.
Proof.
  intros Hi Hpf. unfold ML.processDeferredPrefetchQueue, ML.schedulePfq.
  apply wp_bind, wp_bind, wp_gets, wp_bind, wp_massert; [by rewrite Hpf|]. apply wp_modify.
  set (s0 := setf pfqEvent _ s).
  assert (Hi0 : inv k s0) by (destruct Hi as [[] ? ? ? ? ? ? ? ? ? ?]; by constructor).
  apply wp_bind, wp_gets, wp_bind.
  apply (wp_mono _ (fun _ => kept k s0)).
  { wp_step; [|done]. apply wp_bind. eapply wp_mono; [by apply (wp_activeChains _ _ k)|].
    intros act s1 ->. by apply kept_stat. }
  intros [] s1 K1. apply wp_bind, wp_gets.
  destruct (ML.splitReady p (curCycle s1) (deferredPrefetchQueue s0)) as [r rest] eqn:Esp.
  destruct (splitReady_spec _ _ _ _ Esp) as (Hq & Hr & _).
  apply wp_bind, wp_modify. set (s2 := setf deferredPrefetchQueue _ s1).
  pose proof (i_queue _ _ Hi0) as Hqc. rewrite Hq in Hqc. apply Forall_app in Hqc as [Hrc Hrestc].
  assert (Hmap : r ++ rest = [] \/ is_Some (bbMap_ s1)).
  { rewrite <- Hq. destruct K1 as (_ & -> & _). apply Hi0. }
  assert (Hempty : ML.usesPrefetchBitPolicy p = false -> r = [] /\ rest = []).
  { intros Hp. destruct (i_off _ _ Hi0 Hp) as [E _]. rewrite Hq in E. by apply app_eq_nil. }
  assert (K2 : kept k s1 s2).
  { destruct K1 as (Hi1 & _). split; [|done].
    destruct Hi1 as [[] ? ? ? ? ? ? ? Hoff ? ?]. constructor; cbn in *; try done.
    - destruct Hmap as [E|?]; [|by right]. left. by apply app_eq_nil in E as [_ ->].
    - intros Hp. split; [by apply Hempty|by apply Hoff].
    - apply (ordered_suffix r). rewrite <- Hq. apply Hi0. }
  apply wp_bind. apply (wp_mono _ (fun _ => kept k s2)).
  { apply wp_mfor; [by apply kept_refl, K2|]. intros d s3 Hd K3.
    assert (Hp : ML.usesPrefetchBitPolicy p = true).
    { destruct (ML.usesPrefetchBitPolicy p) eqn:Ep; [done|].
      destruct (Hempty eq_refl) as [-> _]. by apply not_elem_of_nil in Hd. }
    eapply wp_mono.
    { apply kept_processEntry; [apply K3| |done|].
      - destruct K3 as (_ & -> & _), K2 as (_ & -> & _). destruct Hmap as [E|?]; [|done].
        apply app_eq_nil in E as [-> _]. by apply not_elem_of_nil in Hd.
      - destruct K3 as (_ & _ & E & _). rewrite E. cbn. split.
        + by eapply (proj1 (list.Forall_forall _ _) Hrc).
        + intros Hn. specialize (Hr Hn). by eapply (proj1 (list.Forall_forall _ _) Hr). }
    intros [] s4 K4. by eauto using kept_trans. }
  intros [] s3 K3. apply wp_modify.
  assert (K : kept k s0 s3) by (by eauto using kept_trans).
  destruct K as ([[] ? ? ? ? ? ? ? ? ? ?] & E1 & E2 & E3).
  split; [|by cbn; rewrite E1, E2, E3]. by constructor.
Qed.
End Inv.
