(* ===== verification/MultiLevelOps.v ===== *)
(** * MultiLevelBTB: the operations of the interface

    What [lookupWithLatency], [update], the training functions and
    [memInvalidate] do to a state that satisfies the invariant.  [resolve] is
    the abstract lookup of the hierarchy that [lookupWithLatency] refines. *)

From Stdlib Require Import ZArith Lia.
From stdpp Require Import base list gmap numbers.
From S2P Require Import Prelude Types SatCounter ReplPolicy AssocCache AssocCacheInit BtbEntry Btb MultiLevelBtb MultiLevelWp MultiLevelHit MultiLevelInv.

(** ** Levels that look the same to a lookup *)

(** The part of an entry that lookups and write-backs use; the prefetch bits,
    the direction counter and the bookkeeping flags are left out. *)
Definition view (e : BTBEntry) :=
  (BtbEntry.valid e, tag e, target e, inst e, prefetched e, branchAddr e).

Definition same_view (c c' : BTBCache) : Prop :=
  AC.same_shape c c' /\ view <$> entries c' = view <$> entries c.

#[export] Instance same_view_preorder : PreOrder same_view.
Proof.
  split; unfold same_view.
  - intros c. done.
  - intros a b c [? ?] [? ?]. split; [by etransitivity|congruence].
Qed.

Lemma same_view_lookup c c' i e' :
  same_view c c' -> entries c' !! i = Some e' ->
  exists e, entries c !! i = Some e /\ view e = view e'.
Proof.
  intros [_ Hv] He. assert (Hi : (view <$> entries c') !! i = Some (view e')).
  { by rewrite list_lookup_fmap, He. }
  rewrite Hv, list_lookup_fmap in Hi. destruct (entries c !! i) as [e|]; cbn in Hi; [|done].
  exists e. split; [done|congruence].
Qed.

Lemma same_view_find c c' key : same_view c c' -> AC.find c' key = AC.find c key.
Proof.
  intros [(Hi & _) Hv]. unfold AC.find, AC.extractTag. rewrite Hi.
  set (ext := ix_extractTag _). clearbody ext.
  change (ce_match ext key) with (Entry.matches ext key).
  induction (AC.candidates (indexingPolicy c) key) as [|j l IH]; cbn; [done|].
  assert (E : view <$> (entries c' !! j) = view <$> (entries c !! j)).
  { by rewrite <- !list_lookup_fmap, Hv. }
  destruct (entries c' !! j) as [e'|], (entries c !! j) as [e|]; cbn in E; try done.
  injection E as E1 E2 _ _ _ _. rewrite (matches_ext ext key e e') by done. by rewrite IH.
Qed.

Lemma same_view_level c c' : level_ok c -> same_view c c' -> level_ok c'.
Proof.
  intros Hc Hv. split; [eapply AC.wf_shape; [apply Hc|apply Hv]|].
  apply list.Forall_forall. intros e' [i Hi]%list_elem_of_lookup.
  destruct (same_view_lookup _ _ _ _ Hv Hi) as (e & He & E).
  pose proof (level_at _ _ _ Hc He) as Hcomp. injection E as E1 _ E3 E4 _ _.
  unfold complete in *. by rewrite <- E1, <- E3, <- E4.
Qed.

Lemma same_view_unprefetched c c' :
  Forall (fun e => prefetched e = false) (entries c) -> same_view c c' ->
  Forall (fun e => prefetched e = false) (entries c').
Proof.
  intros Hc Hv. apply list.Forall_forall. intros e' [i Hi]%list_elem_of_lookup.
  destruct (same_view_lookup _ _ _ _ Hv Hi) as (e & He & E).
  injection E as _ _ _ _ E _. rewrite <- E.
  eapply (proj1 (list.Forall_forall _ _) Hc). by eapply list_elem_of_lookup_2.
Qed.

(** Entries that keep their view can be written anywhere. *)
Lemma same_view_write (c c' : BTBCache) i e e' :
  entries c !! i = Some e -> view e' = view e ->
  AC.same_shape c c' -> entries c' = <[i := e']> (entries c) -> same_view c c'.
Proof.
  intros He Hv Hs E. split; [done|]. rewrite E, list_fmap_insert, Hv.
  apply list_insert_id. by rewrite list_lookup_fmap, He.
Qed.

Lemma same_view_same (c c' : BTBCache) :
  AC.same_shape c c' -> entries c' = entries c -> same_view c c'.
Proof. intros Hs E. split; [done|]. by rewrite E. Qed.

Inductive Level := InL1 | InPB | InL2 | InL3.

#[export] Instance Level_eq_dec : EqDecision Level.
Proof. solve_decision. Defined.

Section Ops.
Context (p : MLParams) (nthreads : nat) (Hcfg : ferretConfig p).

(** ** The abstract lookup *)



(** The first level that holds the branch, and the entry there. *)
Definition resolve (s : MLBTB) (key : BTBKey) : option (Level * BTBEntry) :=
  match AC.get (l1btb s) key with
  | Some e => Some (InL1, e)
  | None =>
  match (if ML.usesPrefetchBitPolicy p then AC.get (pBuffer s) key else None) with
  | Some e => Some (InPB, e)
  | None =>
  match AC.get (l2btb s) key with
  | Some e => Some (InL2, e)
  | None =>
  match (if enableL3 p then AC.get (l3btb s) key else None) with
  | Some e => Some (InL3, e)
  | None => None
  end end end end.

(** The latency a lookup pays at a level. *)
Definition levelLatency (s : MLBTB) (l : Level) (e : BTBEntry) : Cycles :=
  match l with
  | InL1 => l1Latency p
  | InPB => remaining p (curCycle s) e
  | InL2 => l2Latency p
  | InL3 => l3Latency p
  end.

Definition answers (s : MLBTB) (l : Level) (e : BTBEntry) (r : BTBLookupResult) : Prop :=
  res_target r = target e /\ res_latency r = levelLatency s l e /\
  res_l1Hit r = bool_decide (l = InL1) /\ res_pBufferHit r = bool_decide (l = InPB) /\
  res_l2Hit r = bool_decide (l = InL2) /\ res_l3Hit r = bool_decide (l = InL3).

Abbreviation Inv := (inv p nthreads).

(** ** Assembling the invariant after a hit *)
Lemma inv_assemble k k' s s' :
  Inv k s -> k <= k' ->
  levels_ok s' -> chainTable s' = chainTable s -> bbMap_ s' = bbMap_ s ->
  curCycle s' = curCycle s -> length (prevBlockInfo s') = length (prevBlockInfo s) ->
  (entries (pBuffer s') = entries (pBuffer s) \/
   exists i e, entries (pBuffer s') = <[i := e]> (entries (pBuffer s)) /\
     BtbEntry.valid e = false) ->
  balance (mlstats s') + pending (pBuffer s') = balance (mlstats s) + pending (pBuffer s) ->
  (deferredPrefetchQueue s' = deferredPrefetchQueue s /\ nextChainId s' = nextChainId s \/
   k < k' /\ k' < 2 ^ 64 - 1 /\
   exists loc tid base, triggered p s loc tid base (deferredPrefetchQueue s') (nextChainId s') /\
     (ML.usesPrefetchBitPolicy p = false -> closed p loc = true)) ->
  Inv k' s'.
Proof.
  intros Hi Hk Hlv Ec Em Et Eb Hpb Hbal Hq. rewrite (i_balance _ _ _ _ Hi) in Hbal.
  assert (Hq' : Forall (chained p) (deferredPrefetchQueue s') /\
    (deferredPrefetchQueue s' = [] \/ is_Some (bbMap_ s')) /\ 1 <= nextChainId s' <= 1 + k' /\
    (ML.usesPrefetchBitPolicy p = false -> deferredPrefetchQueue s' = []) /\
    ordered (deferredPrefetchQueue s')).
  { rewrite Em. destruct Hq as [[-> ->]|(Hlt & Hb & loc & tid & base & Htr & Hcl)].
    - pose proof (i_next _ _ _ _ Hi). split_and!; first [apply Hi | lia | intros; by apply Hi].
    - destruct (triggered_ok p nthreads k s loc tid base _ _ Hi ltac:(lia) Htr Hcl)
        as (? & ? & ? & ? & ?). split_and!; try done; lia. }
  destruct Hq' as (Q1 & Q2 & Q3 & Q4 & Q5).
  constructor; try done.
  - rewrite Et. intros Hn. pose proof (i_time _ _ _ _ Hi Hn) as Ht.
    destruct Hpb as [-> |(i & e & -> & Hv)]; [done|]. apply Forall_insert; [done|].
    intros Hv'. congruence.
  - rewrite Ec. apply Hi.
  - rewrite Et. apply Hi.
  - intros Hoff. split; [by apply Q4|]. destruct (i_off _ _ _ _ Hi Hoff) as [_ Hinv].
    destruct Hpb as [-> |(i & e & -> & Hv)]; [done|]. by apply Forall_insert.
  - rewrite Eb. apply Hi.
Qed.

(** ** Training on a lookup *)

Lemma wp_trainOnLookup tid start s (Q : unit -> MLBTB -> Prop) :
  (Z.to_nat tid < length (prevBlockInfo s))%nat -> AC.wf (K:=BTBKey) (l1btb s) ->
  (forall l1, same_view (l1btb s) l1 -> Q tt (s <| l1btb := l1 |>)) ->
  wp (ML.trainOnLookup tid start) Q s.
Proof.
  intros [b Hb]%lookup_lt_is_Some_2 Hwf HQ.
  assert (HQ0 : Q tt s) by (destruct s; by apply HQ).
  unfold ML.trainOnLookup. apply wp_bind, wp_gets, wp_bind.
  eapply wp_at_index; [exact Hb|]. wp_step; [|done].
  apply wp_bind, wp_zfind; [apply _|done|].
  destruct (AC.find _ _) as [i|] eqn:Ef; [|by apply wp_ret].
  destruct (AC.find_Some _ _ _ Ef) as (_ & e & He & _).
  apply wp_zoom. eapply AC.wp_modifyEntry; [exact He|]. apply HQ.
  eapply same_view_write; [exact He| |apply AC.same_shape_insert|done].
  by destruct (_ =? pb_target b), (_ =? pb_fallThrough b).
Qed.

Lemma wp_recordBlock (lvl : MLBTB -> BTBCache) `{!Setter lvl} `{!LawfulSetter lvl}
    tid pc start i e s (Q : unit -> MLBTB -> Prop) :
  (Z.to_nat tid < length (prevBlockInfo s))%nat ->
  entries (lvl s) !! i = Some e -> is_Some (target e) ->
  (forall b, length b = length (prevBlockInfo s) -> Q tt (s <| prevBlockInfo := b |>)) ->
  wp (ML.recordBlock p lvl tid pc start i) Q s.
Proof.
  intros Hl He [t Ht] HQ. assert (HQ0 : Q tt s) by (destruct s; by apply HQ).
  unfold ML.recordBlock. wp_step; [|done]. apply wp_bind.
  eapply wp_zread; [done|exact He|]. apply wp_bind. eapply wp_deref; [exact Ht|].
  unfold ML.recordPrevBlockInfo. apply wp_bind, wp_gets, wp_bind.
  apply lookup_lt_is_Some_2 in Hl as [b Hb]. eapply wp_at_index; [exact Hb|].
  apply wp_modify, HQ. by rewrite length_insert.
Qed.

(** The state of a lookup after the L1 BTB was accessed. *)
Definition accessed (s s' : MLBTB) : Prop :=
  exists l1 ct d st, same_view (l1btb s) l1 /\ AC.wf (K:=BTBKey) ct /\
    balance st = balance (mlstats s) /\
    s' = s <| l1btb := l1 |> <| l1CompressedTags := ct |> <| currentCycleDemand := d |>
           <| mlstats := st |>.

Lemma accessed_inv k s s' : Inv k s -> accessed s s' -> Inv k s'.
Proof.
  intros Hi (l1 & ct & d & st & Hv & Hct & Hb & ->).
  eapply inv_assemble; [exact Hi|lia| |done..| | |by left]; [|by left|cbn; lia].
  destruct (i_levels _ _ _ _ Hi). split; cbn; try done.
  - by eapply (same_view_level (l1btb s)).
  - by eapply (same_view_unprefetched (l1btb s)).
Qed.

(** ** Lookups *)

(** The answer of a lookup that found [e] at level [l] of [s], and the state
    it leaves: the branch is in the L1 BTB. *)
Definition found (k : Z) (s : MLBTB) (key : BTBKey) (l : Level) (e : BTBEntry)
    (r : BTBLookupResult) (s' : MLBTB) : Prop :=
  Inv (k + 1) s' /\ answers s l e r /\
  exists e', AC.get (l1btb s') key = Some e' /\ target e' = target e /\ inst e' = inst e.

Lemma found_migrated k s key l src v e r s' :
  levels_ok s -> Inv (k + 1) s' -> answers s l src r ->
  storedAt key src v e (l1btb s) (l1btb s') -> found k s key l src r s'.
Proof.
  intros Hs Hi Ha Hst. split; [done|]. split; [done|].
  destruct (storedAt_get _ _ _ _ _ _ (lv_wf _ (lo_l1 _ Hs)) Hst) as [_ Hg].
  exists e. split; [done|]. split; apply Hst.
Qed.

Context (k : Z) (Hk : k + 1 < 2 ^ 64 - 1).

Section Hits.
Context (tid : ThreadID) (pc start : Addr) (ty : BranchType) (taken base : bool).
Context (Htid : (Z.to_nat tid < nthreads)%nat).
Abbreviation key := (mkKey pc tid).

Lemma lookup_l1 s i e :
  Inv k s -> AC.find (l1btb s) key = Some i -> entries (l1btb s) !! i = Some e ->
  wp (ML.recordBlock p l1btb tid pc start i ;; ML.handleL1Hit p tid pc i ty taken base)
     (found k s key InL1 e) s.
Proof.
  intros Hi Hf He. pose proof (i_levels _ _ _ _ Hi) as Hlv.
  destruct (level_find _ _ _ (lo_l1 _ Hlv) Hf) as (e0 & He0 & _ & Hm & Ht & _).
  simplify_eq. apply wp_bind. eapply wp_recordBlock; [apply _| |done..|].
  { by rewrite (i_blocks _ _ _ _ Hi). }
  intros b Hb. eapply wp_handleL1Hit; [by destruct Hlv|done..|].
  intros e' l1 q nc bw st Hsh He' Hor Hbal Htr.
  assert (Hv : view e' = view e) by (by destruct Hor as [->| ->]).
  assert (Hsv : same_view (l1btb s) l1) by (by eapply same_view_write).
  split; [|split].
  - eapply inv_assemble; [exact Hi|lia| |done..| | |].
    + destruct Hlv. split; cbn; try done.
      * by eapply (same_view_level (l1btb s)).
      * by eapply (same_view_unprefetched (l1btb s)).
    + by left.
    + cbn in *. lia.
    + right. split; [lia|]. split; [lia|]. exists L1Hit, tid, 0.
      split; [done|]. by apply closed_L1.
  - by repeat split.
  - exists e'. injection Hv as _ _ Et Ei _ _. split; [|done].
    eapply AC.find_get; [by rewrite (same_view_find _ _ _ Hsv)|].
    cbn. rewrite He'. apply list_lookup_insert_eq. by eapply lookup_lt_Some.
Qed.

Lemma lookup_pb s i e :
  Inv k s -> ML.usesPrefetchBitPolicy p = true ->
  AC.find (l1btb s) key = None -> AC.find (pBuffer s) key = Some i ->
  entries (pBuffer s) !! i = Some e ->
  wp (ML.recordBlock p pBuffer tid pc start i ;; ML.handlePBufferHit p tid pc i ty taken base)
     (found k s key InPB e) s.
Proof.
  intros Hi Hp Hf1 Hf He. pose proof (i_levels _ _ _ _ Hi) as Hlv.
  destruct (level_find _ _ _ (lo_pb _ Hlv) Hf) as (e0 & He0 & Hval & Hm & Ht & Hins).
  simplify_eq. apply wp_bind. eapply wp_recordBlock; [apply _| |done..|].
  { by rewrite (i_blocks _ _ _ _ Hi). }
  intros b Hb. eapply wp_handlePBufferHit.
  { by destruct Hlv. } { apply Hcfg. } { done. } { done. } { done. } { done. }
  { apply (i_now _ _ _ _ Hi). } { by apply pfLatency_bound. }
  { intros Hn. eapply (proj1 (list.Forall_forall _ _) (i_time _ _ _ _ Hi Hn)); [|done].
    by eapply list_elem_of_lookup_2. }
  intros v e1 e2 l1 l2 l3 ct pb pct q nc bw st Hst Hl2 Hl3 Hct Hpct Hsh Hpb Hv2 Hbal Htr.
  destruct (storedAt_levels _ _ _ _ s _ Hlv Hst Ht Hins) as [Hl1 Hpf].
  eapply found_migrated; [done| |by repeat split|exact Hst].
  eapply inv_assemble; [exact Hi|lia| |done..| | |].
  - split; cbn; try done; try apply Hlv.
    eapply (level_write (pBuffer s)); [apply Hlv|done..|]. intros Hv'. congruence.
  - right. by exists i, e2.
  - done.
  - right. split; [lia|]. split; [lia|]. do 3 eexists. split; [exact Htr|congruence].
Qed.

Lemma lookup_l2 s i e :
  Inv k s -> AC.find (l1btb s) key = None -> AC.find (l2btb s) key = Some i ->
  entries (l2btb s) !! i = Some e ->
  wp (ML.recordBTBAccess L2 NormalL2Hit ;; ML.recordBlock p l2btb tid pc start i ;;
      ML.handleL2Hit p tid pc i ty taken)
     (found k s key InL2 e) s.
Proof.
  intros Hi Hf1 Hf He. pose proof (i_levels _ _ _ _ Hi) as Hlv.
  destruct (level_find _ _ _ (lo_l2 _ Hlv) Hf) as (e0 & He0 & Hval & Hm & Ht & Hins).
  simplify_eq. apply wp_bind. stat_step. apply wp_bind.
  eapply wp_recordBlock; [apply _| |done..|].
  { cbn. by rewrite (i_blocks _ _ _ _ Hi). }
  intros b Hb. eapply wp_handleL2Hit; [by destruct Hlv|apply Hcfg|done..|].
  intros v e1 l1 l2 l3 ct q nc bw st' Hst Hl2 Hl3 Hct Hbal' Htr.
  destruct (storedAt_levels _ _ _ _ s _ Hlv Hst Ht Hins) as [Hl1 Hpf].
  eapply found_migrated; [done| |by repeat split|exact Hst].
  eapply inv_assemble; [exact Hi|lia| |done..| | |].
  - split; cbn; try done; apply Hlv.
  - by left.
  - cbn in *. lia.
  - right. split; [lia|]. split; [lia|]. exists L2Hit, tid, (l2Latency p).
    split; [done|]. apply closed_below. by left.
Qed.

Lemma lookup_l3 s i e :
  Inv k s -> AC.find (l1btb s) key = None -> AC.find (l3btb s) key = Some i ->
  entries (l3btb s) !! i = Some e ->
  wp (ML.recordBlock p l3btb tid pc start i ;; ML.handleL3Hit p tid pc i ty taken)
     (found k s key InL3 e) s.
Proof.
  intros Hi Hf1 Hf He. pose proof (i_levels _ _ _ _ Hi) as Hlv.
  destruct (level_find _ _ _ (lo_l3 _ Hlv) Hf) as (e0 & He0 & Hval & Hm & Ht & Hins).
  simplify_eq. apply wp_bind. eapply wp_recordBlock; [apply _| |done..|].
  { by rewrite (i_blocks _ _ _ _ Hi). }
  intros b Hb. eapply wp_handleL3Hit; [by destruct Hlv|done..|].
  intros v e1 l1 l2 l3 ct q nc bw st' Hst Hl2 Hl3 Hct Hbal' Htr.
  destruct (storedAt_levels _ _ _ _ s _ Hlv Hst Ht Hins) as [Hl1 Hpf].
  eapply found_migrated; [done| |by repeat split|exact Hst].
  eapply inv_assemble; [exact Hi|lia| |done..| | |].
  - split; cbn; try done; apply Hlv.
  - by left.
  - cbn in *. lia.
  - right. split; [lia|]. split; [lia|]. exists L3Hit, tid, (l3Latency p).
    split; [done|]. apply closed_below. by right.
Qed.
End Hits.

Lemma get_find (c : BTBCache) key :
  AC.get c key = match AC.find c key with Some i => entries c !! i | None => None end.
Proof. done. Qed.

Lemma found_view s s' key l e e' r s'' :
  target e' = target e -> inst e' = inst e -> levelLatency s' l e' = levelLatency s l e ->
  found k s' key l e' r s'' -> found k s key l e r s''.
Proof.
  intros Et Ei El (H1 & (A1 & A2 & A3) & x & Hx & T & I). split; [done|]. split.
  - split; [congruence|]. split; [congruence|done].
  - exists x. split; [done|]. split; congruence.
Qed.

(** Touching a level on the way down leaves what the lookup sees. *)
Lemma inv_touch_pb s c :
  Inv k s -> AC.same_shape (pBuffer s) c -> entries c = entries (pBuffer s) ->
  Inv k (s <| pBuffer := c |>).
Proof.
  intros Hi Hs He. eapply inv_assemble; [exact Hi|lia| |done..| | |by left].
  - destruct (i_levels _ _ _ _ Hi). split; cbn; try done. by eapply (level_same (pBuffer s)).
  - by left.
  - cbn. unfold pending. by rewrite He.
Qed.

Lemma inv_touch_l2 s c :
  Inv k s -> AC.same_shape (l2btb s) c -> entries c = entries (l2btb s) ->
  Inv k (s <| l2btb := c |>).
Proof.
  intros Hi Hs He. eapply inv_assemble; [exact Hi|lia| |done..| |done|by left]; [|by left].
  destruct (i_levels _ _ _ _ Hi). split; cbn; try done. by eapply (level_same (l2btb s)).
Qed.

Lemma inv_touch_l3 s c :
  Inv k s -> AC.same_shape (l3btb s) c -> entries c = entries (l3btb s) ->
  Inv k (s <| l3btb := c |>).
Proof.
  intros Hi Hs He. eapply inv_assemble; [exact Hi|lia| |done..| |done|by left]; [|by left].
  destruct (i_levels _ _ _ _ Hi). split; cbn; try done. by eapply (level_same (l3btb s)).
Qed.

(** The levels below the L1 BTB, after an L1 miss. *)
Lemma lookup_below tid pc start ty taken base s l e :
  Inv k s -> (Z.to_nat tid < nthreads)%nat ->
  AC.find (l1btb s) (mkKey pc tid) = None -> resolve s (mkKey pc tid) = Some (l, e) ->
  wp (pB_entry ← (if limitedMarkov p || trainBitsOnLookup p || trainBitsOnCommit p
              then zoom pBuffer (AC.accessEntryByKey (curTick s) (mkKey pc tid))
              else (mret None : M MLBTB (option nat)));
      match pB_entry with
      | Some i =>
          ML.recordBlock p pBuffer tid pc start i ;;
          ML.handlePBufferHit p tid pc i ty taken base
      | None =>
      l2_entry ← zoom l2btb (AC.accessEntryByKey (curTick s) (mkKey pc tid));
      match l2_entry with
      | Some i =>
          ML.recordBTBAccess L2 NormalL2Hit ;;
          ML.recordBlock p l2btb tid pc start i ;;
          ML.handleL2Hit p tid pc i ty taken
      | None =>
      l3_entry ← (if enableL3 p then zoom l3btb (AC.accessEntryByKey (curTick s) (mkKey pc tid))
                  else (mret None : M MLBTB (option nat)));
      match l3_entry with
      | Some i =>
          ML.recordBlock p l3btb tid pc start i ;;
          ML.handleL3Hit p tid pc i ty taken
      | None => fault Panic
      end end end)
     (found k s (mkKey pc tid) l e) s.
Proof.
  intros Hi Htid Hf1 Hres. pose proof (i_levels _ _ _ _ Hi) as Hlv.
  set (key := mkKey pc tid) in *. unfold resolve in Hres.
  rewrite !get_find, Hf1 in Hres. rewrite (fc_markov _ Hcfg), orb_false_l.
  change (trainBitsOnLookup p || trainBitsOnCommit p) with (ML.usesPrefetchBitPolicy p).
  apply wp_bind.
  apply (wp_mono _ (fun o s1 => exists c, AC.same_shape (pBuffer s) c /\
    entries c = entries (pBuffer s) /\ s1 = s <| pBuffer := c |> /\
    o = (if ML.usesPrefetchBitPolicy p then AC.find (pBuffer s) key else None))).
  { destruct (ML.usesPrefetchBitPolicy p) eqn:Ep.
    - apply wp_zoom, AC.wp_accessEntryByKey; [apply Hlv|]. intros c Hsh He. by exists c.
    - apply wp_ret. exists (pBuffer s). by destruct s. }
  intros o s1 (cpb & Hsh & He & -> & ->).
  assert (Hi1 : Inv k (s <| pBuffer := cpb |>)) by (by apply inv_touch_pb).
  assert (Hv1 : same_view (pBuffer s) cpb) by (by apply same_view_same).
  destruct (if ML.usesPrefetchBitPolicy p then AC.find (pBuffer s) key else None) as [i|] eqn:Epb.
  { destruct (ML.usesPrefetchBitPolicy p) eqn:Ep; [|done]. rewrite Epb in Hres.
    destruct (AC.find_Some _ _ _ Epb) as (_ & e0 & He0 & _). rewrite He0 in Hres. simplify_eq.
    eapply wp_mono.
    { eapply lookup_pb; [done|exact Hi1|done|exact Hf1| |cbn; by rewrite He].
      cbn. by rewrite (same_view_find _ _ _ Hv1). }
    intros r s' Hfd. by eapply found_view; [..|exact Hfd]. }
  replace (if ML.usesPrefetchBitPolicy p
           then match AC.find (pBuffer s) key with Some i => entries (pBuffer s) !! i | None => None end
           else None) with (@None BTBEntry) in Hres.
  2: { destruct (ML.usesPrefetchBitPolicy p); [by rewrite Epb|done]. }
  apply wp_bind, wp_zoom, AC.wp_accessEntryByKey; [apply Hlv|]. intros c2 Hsh2 He2. cbn in *.
  assert (Hi2 := inv_touch_l2 _ _ Hi1 Hsh2 He2).
  assert (Hv2 : same_view (l2btb s) c2) by (by apply same_view_same).
  destruct (AC.find (l2btb s) key) as [i|] eqn:E2.
  { destruct (AC.find_Some _ _ _ E2) as (_ & e0 & He0 & _). rewrite He0 in Hres. simplify_eq.
    eapply wp_mono.
    { eapply lookup_l2; [done|exact Hi2|exact Hf1| |cbn; by rewrite He2].
      cbn. by rewrite (same_view_find _ _ _ Hv2). }
    intros r s' Hfd. by eapply found_view; [..|exact Hfd]. }
  destruct (enableL3 p) eqn:E3; [|done].
  destruct (AC.find (l3btb s) key) as [i|] eqn:Ef3; [|done].
  destruct (AC.find_Some _ _ _ Ef3) as (_ & e0 & He0 & _). rewrite He0 in Hres. simplify_eq.
  apply wp_bind, wp_zoom, AC.wp_accessEntryByKey; [apply Hlv|]. intros c3 Hsh3 He3. cbn in *.
  assert (Hi3 := inv_touch_l3 _ _ Hi2 Hsh3 He3).
  assert (Hv3 : same_view (l3btb s) c3) by (by apply same_view_same).
  rewrite Ef3. eapply wp_mono.
  { eapply lookup_l3; [done|exact Hi3|exact Hf1| |cbn; by rewrite He3].
    cbn. by rewrite (same_view_find _ _ _ Hv3). }
  intros r s' Hfd. by eapply found_view; [..|exact Hfd].
Qed.

(** [lookupWithLatency] answers what [resolve] says, and never panics on a
    branch that [resolve] finds. *)
Lemma wp_lookupWithLatency tid pc ty taken start base s l e :
  Inv k s -> (Z.to_nat tid < nthreads)%nat ->
  resolve s (mkKey pc tid) = Some (l, e) ->
  wp (ML.lookupWithLatency p tid pc ty taken start base) (found k s (mkKey pc tid) l e) s.
Proof.
  intros Hi Htid Hres. pose proof (i_levels _ _ _ _ Hi) as Hlv.
  set (key := mkKey pc tid) in *. unfold ML.lookupWithLatency, ML.recordDemandLookup. fold key.
  apply wp_bind, wp_modify, wp_bind. stat_step. apply wp_bind.
  apply (wp_mono _ (fun _ s1 => exists l1, same_view (l1btb s) l1 /\
    s1 = s <| currentCycleDemand ::= fun d => {[pc]} ∪ d |> <| mlstats := st |>
           <| l1btb := l1 |>)).
  { wp_step; [|by exists (l1btb s); destruct s]. apply wp_trainOnLookup.
    - cbn. by rewrite (i_blocks _ _ _ _ Hi).
    - apply Hlv.
    - intros l1 Hv. by exists l1. }
  intros [] s1 (l1 & Hv & ->). apply wp_bind, wp_gets, wp_bind, wp_zoom.
  assert (Hl1 : level_ok l1) by (by eapply same_view_level; [apply Hlv|]).
  apply AC.wp_accessEntryByKey; [apply Hl1|]. intros l1c Hsh He.
  apply wp_bind, wp_l1CompressedTagSync; [apply Hlv|]. intros ct Hct.
  assert (Hvc : same_view (l1btb s) l1c).
  { etransitivity; [exact Hv|]. by apply same_view_same. }
  set (s2 := setf l1CompressedTags _ _).
  assert (Hacc : accessed s s2) by (by exists l1c, ct, (currentCycleDemand s2), st).
  assert (Hi2 : Inv k s2) by (by eapply accessed_inv).
  change (AC.find (l1btb _) key) with (AC.find l1 key).
  rewrite (same_view_find _ _ _ Hv).
  unfold resolve in Hres. rewrite (get_find (l1btb s)) in Hres.
  destruct (AC.find (l1btb s) key) as [i|] eqn:Ef.
  - destruct (AC.find_Some _ _ _ Ef) as (_ & e0 & He0 & _). rewrite He0 in Hres. simplify_eq.
    assert (Hfc : AC.find (l1btb s2) key = Some i) by (cbn; by rewrite (same_view_find _ _ _ Hvc)).
    destruct (AC.find_Some _ _ _ Hfc) as (_ & e1 & He1 & _).
    destruct (same_view_lookup _ _ _ _ Hvc He1) as (e2 & He2 & Ev).
    assert (e2 = e) as -> by congruence. injection Ev as _ _ Et Ei _ _.
    eapply wp_mono; [by eapply lookup_l1|].
    intros r s' Hfd. by eapply found_view; [..|exact Hfd].
  - assert (Hfc : AC.find (l1btb s2) key = None) by (cbn; by rewrite (same_view_find _ _ _ Hvc)).
    eapply wp_mono.
    { apply (lookup_below tid pc start ty taken base s2 l e); [done..|].
      unfold resolve. rewrite (get_find (l1btb s2)). fold key. by rewrite Hfc. }
    intros r s' Hfd. by eapply found_view; [..|exact Hfd].
Qed.
End Ops.
