(* ===== verification/MultiLevelSafe.v ===== *)
(** * MultiLevelBTB: reachable states

    The operations a front end performs on the BTB, the states reachable by
    them from the constructor, and the theorems about all reachable states:
    no operation faults, and the prefetch counters balance. *)

From Stdlib Require Import ZArith Lia.
From stdpp Require Import base list gmap numbers.
From S2P Require Import Prelude Types SatCounter ReplPolicy AssocCache AssocCacheInit BtbEntry Btb MultiLevelBtb MultiLevelWp MultiLevelHit MultiLevelInv MultiLevelOps.

(** ** Operations *)
Inductive Op :=
| OpLookup (tid : ThreadID) (pc : Addr) (ty : BranchType) (taken : bool) (start : Addr)
    (base : bool)
| OpUpdate (tid : ThreadID) (pc : Addr) (tgt : PCStateBase) (ty : BranchType) (i : StaticInst)
| OpValid (tid : ThreadID) (pc : Addr)
| OpGetInst (tid : ThreadID) (pc : Addr)
| OpLookupL1 (tid : ThreadID) (pc : Addr)
| OpUpdateDirection (tid : ThreadID) (pc : Addr) (taken : bool)
| OpTrainBits (tid : ThreadID) (pc : Addr) (taken : bool) (ty : BranchType)
| OpTrainMarkov (tid : ThreadID) (pc : Addr) (wasL2Hit : bool)
| OpRecordAccess (level : BTBAccessLevel) (reason : BTBAccessReason)
| OpIncorrectTarget (pc : Addr) (ty : BranchType)
| OpMemInvalidate
| OpSetBBMap (m : gmap Z Z)
| OpEndCycle (period : Tick).

Section Safe.
Context (p : MLParams).

(** The end of a cycle: the event of the deferred queue runs if it is due
    ([CPU_Tick_Pri + 1]: after the CPU), then the clock advances. *)
Definition endCycle (period : Tick) : M MLBTB unit :=
  due ← gets (fun s => bool_decide (pfqEvent s = Some (curCycle s)));
  when due
    (modify (fun s => s <| pfqEvent := None |>) ;;
     ML.processDeferredPrefetchQueue p) ;;
  modify (fun s => s <| curCycle ::= Z.succ |> <| curTick ::= Z.add period |>).

Definition ignore {A} (m : M MLBTB A) : M MLBTB unit := m ≫= fun _ => mret tt.

Definition exec (o : Op) : M MLBTB unit :=
  match o with
  | OpLookup tid pc ty taken start base =>
      ignore (ML.lookupWithLatency p tid pc ty taken start base)
  | OpUpdate tid pc tgt ty i => ML.update p tid pc tgt ty (Some i)
  | OpValid tid pc => ignore (ML.valid p tid pc)
  | OpGetInst tid pc => ignore (ML.getInst p tid pc)
  | OpLookupL1 tid pc => ignore (ML.lookupL1 tid pc)
  | OpUpdateDirection tid pc taken => ML.updateDirection tid pc taken
  | OpTrainBits tid pc taken ty => ML.trainPrefetchBitsOnCommit p tid pc taken ty
  | OpTrainMarkov tid pc l2 => ML.trainMarkovOnCommit p tid pc l2
  | OpRecordAccess level reason => ML.recordBTBAccess level reason
  | OpIncorrectTarget pc ty => ML.incorrectTarget pc ty
  | OpMemInvalidate => ML.memInvalidate p
  | OpSetBBMap m => ML.setBBMap (Some m)
  | OpEndCycle period => endCycle period
  end.

(** The contract of the callers: a lookup follows a [valid] that said yes, and
    thread identifiers are below the number of threads. *)
Definition enabled (nthreads : nat) (o : Op) (s : MLBTB) : Prop :=
  match o with
  | OpLookup tid pc _ _ _ _ =>
      (Z.to_nat tid < nthreads)%nat /\ resMap fst (ML.valid p tid pc s) = Ok true
  | _ => True
  end.

(** States reachable in [n] operations from [startup]. *)
Inductive reach (g : MLGeometry) : nat -> MLBTB -> Prop :=
| reach_init pbTicks ctTicks garbage s0 s :
    ML.make p g pbTicks ctTicks garbage = Ok s0 -> ML.startup s0 = Ok (tt, s) ->
    reach g 0 s
| reach_step n o s s' :
    reach g n s -> enabled (Z.to_nat (g_numThreads g)) o s -> exec o s = Ok (tt, s') ->
    reach g (S n) s'.

Context (nthreads : nat) (Hcfg : ferretConfig p).
Abbreviation Inv := (inv p nthreads).

(** ** Queries *)

Lemma get_pb_off k s key :
  Inv k s -> ML.usesPrefetchBitPolicy p = false -> AC.find (pBuffer s) key = None.
Proof.
  intros Hi Hp. destruct (i_off _ _ _ _ Hi Hp) as [_ Hv].
  destruct (AC.find (pBuffer s) key) as [i|] eqn:Ef; [|done].
  destruct (level_find _ _ _ (lo_pb _ (i_levels _ _ _ _ Hi)) Ef) as (e & He & Hval & _).
  rewrite (proj1 (list.Forall_forall _ _) Hv e) in Hval; [done|].
  by eapply list_elem_of_lookup_2.
Qed.

Lemma isSome_find (c : BTBCache) key : isSome (AC.find c key) = isSome (AC.get c key).
Proof.
  unfold AC.get. destruct (AC.find c key) as [i|] eqn:E; [|done].
  by destruct (AC.find_Some _ _ _ E) as (_ & e & -> & _).
Qed.

(** [valid] says whether [resolve] finds the branch. *)
Lemma wp_valid k tid pc s (Q : bool -> MLBTB -> Prop) :
  Inv k s -> Q (isSome (resolve p s (mkKey pc tid))) s -> wp (ML.valid p tid pc) Q s.
Proof.
  intros Hi HQ. pose proof (i_levels _ _ _ _ Hi) as Hlv. unfold ML.valid.
  unfold resolve in HQ.
  apply wp_bind, wp_zfind; [apply _|apply Hlv|]. rewrite isSome_find.
  destruct (AC.get (l1btb s) _); [by apply wp_ret|]. cbn [isSome].
  apply wp_bind, wp_zfind; [apply _|apply Hlv|]. rewrite isSome_find.
  destruct (ML.usesPrefetchBitPolicy p) eqn:Ep; cycle 1.
  { unfold AC.get. rewrite (get_pb_off _ _ _ Hi Ep). cbn [isSome].
    apply wp_bind, wp_zfind; [apply _|apply Hlv|]. rewrite isSome_find.
    destruct (AC.get (l2btb s) _); [by apply wp_ret|]. cbn [isSome]. wp_step; rewrite H in HQ.
    - apply wp_bind, wp_zfind; [apply _|apply Hlv|]. apply wp_ret. rewrite isSome_find.
      by destruct (AC.get (l3btb s) _).
    - by apply wp_ret. }
  destruct (AC.get (pBuffer s) _); [by apply wp_ret|]. cbn [isSome].
  apply wp_bind, wp_zfind; [apply _|apply Hlv|]. rewrite isSome_find.
  destruct (AC.get (l2btb s) _); [by apply wp_ret|]. cbn [isSome]. wp_step; rewrite H in HQ.
  - apply wp_bind, wp_zfind; [apply _|apply Hlv|]. apply wp_ret. rewrite isSome_find.
    by destruct (AC.get (l3btb s) _).
  - by apply wp_ret.
Qed.

Lemma wp_getInst k tid pc s (Q : option StaticInst -> MLBTB -> Prop) :
  Inv k s -> (forall r, Q r s) -> wp (ML.getInst p tid pc) Q s.
Proof.
  intros Hi HQ. pose proof (i_levels _ _ _ _ Hi) as Hlv. unfold ML.getInst.
  repeat first
    [ apply wp_ret, HQ
    | wp_step; [|apply wp_ret, HQ]
    | apply wp_bind, wp_zfind; [apply _|apply Hlv|];
      match goal with |- context [AC.find ?c ?key] =>
        destruct (AC.find c key) as [i|] eqn:Ef;
        [ destruct (AC.find_Some _ _ _ Ef) as (_ & e & He & _);
          apply wp_bind; eapply wp_zread; [apply _|exact He|]; apply wp_ret, HQ | clear Ef ] end ].
Qed.

Lemma inv_l1_view k s l1 st :
  Inv k s -> same_view (l1btb s) l1 -> balance st = balance (mlstats s) ->
  Inv k (s <| l1btb := l1 |> <| mlstats := st |>).
Proof.
  intros Hi Hv Hb. eapply inv_assemble; [exact Hi|lia| |done..| | |by left].
  - destruct (i_levels _ _ _ _ Hi). split; cbn; try done.
    + by eapply (same_view_level (l1btb s)).
    + by eapply (same_view_unprefetched (l1btb s)).
  - by left.
  - cbn. lia.
Qed.

Lemma wp_lookupL1 k tid pc s : Inv k s -> wp (ML.lookupL1 tid pc) (fun _ => Inv k) s.
Proof.
  intros Hi. pose proof (i_levels _ _ _ _ Hi) as Hlv. unfold ML.lookupL1.
  apply wp_bind, wp_zfind; [apply _|apply Hlv|].
  destruct (AC.find _ _) as [i|] eqn:Ef.
  - destruct (level_find _ _ _ (lo_l1 _ Hlv) Ef) as (e & He & _ & _ & [t Ht] & _).
    apply wp_bind. stat_step. apply wp_bind. stat_step. apply wp_bind.
    eapply wp_zread; [apply _|exact He|]. apply wp_bind. eapply wp_deref; [exact Ht|].
    apply wp_ret. apply (inv_stats _ _ _ _ _ Hi). cbn in *. congruence.
  - apply wp_bind. stat_step. apply wp_bind. stat_step. apply wp_ret.
    apply (inv_stats _ _ _ _ _ Hi). cbn in *. congruence.
Qed.

(** Changing an L1 entry outside its view keeps the invariant. *)
Lemma wp_modifyL1 k key f s :
  Inv k s -> (forall e, view (f e) = view e) ->
  wp (o ← zoom l1btb (AC.findEntry key);
      match o with Some i => zoom l1btb (AC.modifyEntry i f) | None => mret tt end)
     (fun _ => Inv k) s.
Proof.
  intros Hi Hf. pose proof (i_levels _ _ _ _ Hi) as Hlv.
  apply wp_bind, wp_zfind; [apply _|apply Hlv|].
  destruct (AC.find _ _) as [i|] eqn:Ef; [|by apply wp_ret].
  destruct (AC.find_Some _ _ _ Ef) as (_ & e & He & _).
  apply wp_zoom. eapply AC.wp_modifyEntry; [exact He|].
  eapply (inv_l1_view k s _ (mlstats s)); [done| |done].
  eapply (same_view_write _ _ i e (f e)); [exact He|apply Hf|apply AC.same_shape_insert|done].
Qed.

(** ** Clearing *)

Lemma stat_count_fmap {A B} (f : A -> B) (q : B -> bool) (r : A -> bool) l :
  (forall x, q (f x) = r x) -> stat_count q (f <$> l) = stat_count r l.
Proof.
  intros H. induction l as [|x l IH]; [done|].
  change (f <$> x :: l) with (f x :: (f <$> l)). cbn [stat_count]. by rewrite H, IH.
Qed.

Lemma cleared_level (c c' : BTBCache) :
  level_ok c -> AC.same_shape c c' -> entries c' = Entry.invalidate <$> entries c -> level_ok c'.
Proof.
  intros [Hwf Hc] Hs He. split; [by eapply AC.wf_shape|]. rewrite He.
  apply Forall_fmap. eapply Forall_impl; [|exact Hc]. by intros e _.
Qed.

Lemma wp_memInvalidate k s :
  Inv k s ->
  wp (ML.memInvalidate p)
     (fun _ s' => Inv k s' /\ deferredPrefetchQueue s' = [] /\
        forall key, resolve p s' key = None) s.
Proof.
  intros Hi. pose proof (i_levels _ _ _ _ Hi) as Hlv. unfold ML.memInvalidate.
  apply wp_bind, wp_zoom, AC.wp_clear; [apply Hlv|]. intros l1 S1 E1.
  apply wp_bind, wp_zoom, AC.wp_clear; [apply Hlv|]. intros l2 S2 E2. cbn in *.
  apply wp_bind. apply (wp_mono _ (fun _ s' => exists l3, level_ok l3 /\
    (enableL3 p = true -> entries l3 = Entry.invalidate <$> entries (l3btb s)) /\
    s' = s <| l1btb := l1 |> <| l2btb := l2 |> <| l3btb := l3 |>)).
  { wp_step.
    - apply wp_zoom, AC.wp_clear; [apply Hlv|]. intros l3 S3 E3. exists l3.
      split; [|done]. eapply (cleared_level (l3btb s)); [apply Hlv|done..].
    - exists (l3btb s). split; [apply Hlv|]. split; [congruence|done]. }
  intros [] s1 (l3 & Hl3 & E3 & ->).
  apply wp_bind, wp_zoom, AC.wp_clear; [apply Hlv|]. intros pb S4 E4. cbn in *.
  apply wp_bind, wp_zoom, AC.wp_clear; [apply Hlv|]. intros ct S5 _.
  apply wp_bind, wp_zoom, AC.wp_clear; [apply Hlv|]. intros pct S6 _.
  apply wp_bind, wp_modify, wp_modify. cbn.
  assert (Hnone : forall c c' : BTBCache, entries c' = Entry.invalidate <$> entries c ->
    forall key : BTBKey, AC.get c' key = None).
  { intros c c' E key. apply AC.find_None_get, AC.find_in_None. intros i e _ He.
    rewrite E, list_lookup_fmap in He. destruct (entries c !! i); [|done]. by injection He as <-. }
  split; [|split; [done|]].
  - destruct Hi as [_ ? Hch ? ? ? ? Hbal ? ? ?].
    constructor; cbn; try done.
    + split; cbn; try done.
      * eapply (cleared_level (l1btb s)); [apply Hlv|done..].
      * eapply (cleared_level (l2btb s)); [apply Hlv|done..].
      * eapply (cleared_level (pBuffer s)); [apply Hlv|done..].
      * eapply (AC.wf_shape (l1CompressedTags s)); [apply Hlv|done].
      * eapply (AC.wf_shape (pbCompressedTags s)); [apply Hlv|done].
      * rewrite E1. apply Forall_fmap. apply Hlv.
    + intros _. rewrite E4. apply Forall_fmap, list.Forall_forall. by intros e _.
    + by rewrite length_fmap.
    + by left.
    + unfold pending. rewrite E4, (stat_count_fmap _ _ prefetched); done.
    + intros _. split; [done|]. rewrite E4. apply Forall_fmap, list.Forall_forall. by intros e _.
    + constructor.
  - intros key.
    assert (R : forall s', l1btb s' = l1 -> pBuffer s' = pb -> l2btb s' = l2 ->
      l3btb s' = l3 -> resolve p s' key = None); [|by apply R].
    intros s' H1 H2 H3 H4. unfold resolve. rewrite H1, H2, H3, H4.
    rewrite (Hnone _ _ E1), (Hnone _ _ E4), (Hnone _ _ E2).
    destruct (ML.usesPrefetchBitPolicy p), (enableL3 p) eqn:E; try done;
      by rewrite (Hnone _ _ (E3 eq_refl)).
Qed.

(** ** Time *)

Lemma inv_tick k s period :
  Inv k s -> Inv k (s <| curCycle ::= Z.succ |> <| curTick ::= Z.add period |>).
Proof.
  intros [[] Ht ? ? ? ? Hn ? ? ? ?]. constructor; cbn; try done; [|lia].
  intros Hno. eapply Forall_impl; [|by apply Ht]. intros e He Hv. specialize (He Hv). lia.
Qed.

Lemma wp_endCycle k s period : Inv k s -> wp (endCycle period) (fun _ => Inv k) s.
Proof.
  intros Hi. unfold endCycle. apply wp_bind, wp_gets, wp_bind.
  apply (wp_mono _ (fun _ => Inv k)); [|intros [] s' Hs'; by apply wp_modify, inv_tick].
  wp_step; [|done]. apply wp_bind, wp_modify.
  eapply wp_mono; [apply (wp_processQueue p nthreads Hcfg k); [|done]|by intros [] s' []].
  destruct Hi as [[] ? ? ? ? ? ? ? ? ? ?]. by constructor.
Qed.

(** ** One step *)

Lemma wp_update_inv k tid pc tgt ty i s :
  Inv k s ->
  wp (ML.update p tid pc tgt ty (Some i))
     (fun _ s' => Inv k s' /\ exists e, AC.get (l1btb s') (mkKey pc tid) = Some e /\
        target e = Some tgt /\ inst e = Some i) s.
Proof.
  intros Hi. pose proof (i_levels _ _ _ _ Hi) as Hlv. apply wp_ml_update; [done|].
  intros v e ve src l1 l2 l3 ct st Hst Ht Hin Hve Hl2 Hl3 Hct Hb _ _ _.
  destruct (storedAt_levels _ _ _ _ s _ Hlv Hst) as [Hl1 Hpf]; [by rewrite Ht|by rewrite Hin|].
  split.
  - eapply inv_assemble; [exact Hi|lia| |done..| | |by left]; [|by left|cbn; lia].
    split; cbn; try done; apply Hlv.
  - destruct (storedAt_get _ _ _ _ _ _ (lv_wf _ (lo_l1 _ Hlv)) Hst) as [_ Hg].
    exists e. split; [exact Hg|]. split; [rewrite <- Ht|rewrite <- Hin]; apply Hst.
Qed.

(** Every enabled operation returns and keeps the invariant. *)
Lemma wp_exec k o s :
  Inv k s -> k + 1 < 2 ^ 64 - 1 -> enabled nthreads o s ->
  wp (exec o) (fun _ => Inv (k + 1)) s.
Proof.
  intros Hi Hk Hen.
  assert (Hm : forall s', Inv k s' -> Inv (k + 1) s') by (intros s' H; eapply inv_mono; [done|lia]).
  destruct o; cbn [exec enabled] in *; unfold ignore.
  - destruct Hen as [Ht Hv].
    assert (Hr : isSome (resolve p s (mkKey pc tid)) = true).
    { destruct (ML.valid p tid pc s) as [[b s']|] eqn:Ev; [|done]. injection Hv as ->.
      eapply (wp_result _ (fun b _ => isSome (resolve p s (mkKey pc tid)) = b) s); [|exact Ev].
      by eapply wp_valid. }
    destruct (resolve p s (mkKey pc tid)) as [[l e]|] eqn:Er; [|done].
    apply wp_bind. eapply wp_mono; [by apply (wp_lookupWithLatency p nthreads Hcfg k Hk _ _ _ _ _ _ _ l e)|].
    intros r s' [Hs' _]. by apply wp_ret.
  - eapply wp_mono; [by apply (wp_update_inv k)|]. intros [] s' [Hs' _]. auto.
  - apply wp_bind. eapply wp_valid; [done|]. apply wp_ret. auto.
  - apply wp_bind. eapply wp_getInst; [done|]. intros r. apply wp_ret. auto.
  - apply wp_bind. eapply wp_mono; [by apply (wp_lookupL1 k)|]. intros r s' Hs'. apply wp_ret. auto.
  - eapply wp_mono; [by apply (wp_modifyL1 k)|]. auto.
  - unfold ML.trainPrefetchBitsOnCommit. wp_step; [apply wp_ret; auto|].
    eapply wp_mono; [apply (wp_modifyL1 k); [done|]|auto].
    intros e. by destruct (cleanBitsOnL1Promotion p), taken.
  - unfold ML.trainMarkovOnCommit. rewrite (fc_markov _ Hcfg). apply wp_ret. auto.
  - apply wp_recordBTBAccess. intros st Hb. apply Hm. by apply inv_stats.
  - apply wp_neutral; [done|]. intros st Hb. apply Hm. by apply inv_stats.
  - eapply wp_mono; [by apply (wp_memInvalidate k)|]. intros [] s' [Hs' _]. auto.
  - apply wp_modify, Hm. destruct Hi as [[] ? ? ? ? ? ? ? ? ? ?]. constructor; try done. by right.
  - eapply wp_mono; [by apply (wp_endCycle k)|]. auto.
Qed.
End Safe.

(** ** Geometries *)

(** A table of [num] entries in sets of [assoc]. *)
Definition tableOk (num assoc : Z) : Prop :=
  0 < assoc < 2 ^ 31 /\ 0 <= num < 2 ^ 32 /\ num mod assoc = 0.

Record goodGeometry (g : MLGeometry) : Prop := {
  gg_l1 : tableOk (g_l1NumEntries g) (g_l1Associativity g);
  gg_l2 : tableOk (g_l2NumEntries g) (g_l2Associativity g);
  gg_l3 : tableOk (g_l3NumEntries g) (g_l3Associativity g);
  gg_pb : tableOk (g_pBufferSize g) 8
}.

Lemma build_ok num assoc idxAssoc shift tagBits pol (c : BTBCache) :
  tableOk num idxAssoc ->
  (ip ← BSA.make idxAssoc num shift tagBits 1; AC.make num assoc pol ip Entry.init) = Ok c ->
  level_ok c /\ Forall (fun e => e = Entry.init) (entries c).
Proof.
  intros (Ha & Hn & Hd) (ip & E1 & E2)%res_bind_ok.
  destruct (BTB_make_wf _ _ _ _ _ _ _ _ _ Ha Hn Hd E1 E2) as [Hwf He].
  split; [|done]. split; [done|]. eapply Forall_impl; [|exact He]. by intros e ->.
Qed.

Lemma pending_init (c : BTBCache) :
  Forall (fun e => e = Entry.init) (entries c) -> pending c = 0.
Proof. unfold pending. induction 1 as [|e l -> _ IH]; [done|]. cbn. by rewrite IH. Qed.

Lemma ml_make_inv p g t1 t2 garbage s :
  goodGeometry g -> ferretConfig p -> ML.make p g t1 t2 garbage = Ok s ->
  inv p (Z.to_nat (g_numThreads g)) 0 s /\ pfqEvent s = None /\ curCycle s = 0.
Proof.
  intros [G1 G2 G3 G4] Hcfg H. unfold ML.make in H.
  apply res_bind_ok in H as (l1 & B1 & H). apply res_bind_ok in H as (pb & Bp & H).
  apply res_bind_ok in H as (l2 & B2 & H). apply res_bind_ok in H as (l3 & B3 & H).
  apply res_bind_ok in H as (mip & _ & H). apply res_bind_ok in H as (mk & _ & H).
  apply res_bind_ok in H as (ct & Bc & H). apply res_bind_ok in H as (pct & Bq & H).
  injection H as <-.
  apply build_ok in B1 as [L1 I1]; [|done]. apply build_ok in Bp as [Lp Ip]; [|done].
  apply build_ok in B2 as [L2 _]; [|done]. apply build_ok in B3 as [L3 _]; [|done].
  apply build_ok in Bc as [Lc _]; [|done]. apply build_ok in Bq as [Lq _]; [|done].
  split; [|done]. constructor; cbn; try done.
  - split; cbn; try done; [apply Lc|apply Lq|].
    eapply Forall_impl; [|exact I1]. by intros e ->.
  - intros _. eapply Forall_impl; [|exact Ip]. by intros e ->.
  - by rewrite length_replicate.
  - by left.
  - by rewrite (pending_init _ Ip).
  - intros _. split; [done|]. eapply Forall_impl; [|exact Ip]. by intros e ->.
  - by rewrite length_replicate.
  - constructor.
Qed.

(** The invariant holds in every reachable state. *)
Lemma reach_inv p g n s :
  goodGeometry g -> ferretConfig p -> Z.of_nat n < 2 ^ 64 - 2 -> reach p g n s ->
  inv p (Z.to_nat (g_numThreads g)) (Z.of_nat n) s.
Proof.
  intros Hg Hcfg Hn Hr. induction Hr as [t1 t2 garbage s0 s Hmk Hst|n o s s' Hr IH Hen Hex].
  - destruct (ml_make_inv _ _ _ _ _ _ Hg Hcfg Hmk) as (Hi & Hpf & Hc).
    unfold ML.startup, ML.schedulePfq in Hst. unfold mbind, M_bind, gets, massert in Hst.
    rewrite Hpf in Hst. cbn in Hst. injection Hst as <-.
    destruct Hi as [[] ? ? ? ? ? ? ? ? ? ?]. by constructor.
  - rewrite Nat2Z.inj_succ in *. eapply (wp_result _ (fun _ => inv p _ (Z.succ (Z.of_nat n)))); [|exact Hex].
    apply (wp_exec p); [done|apply IH; lia|lia|done].
Qed.
