(* ===== verification/MultiLevelChain.v ===== *)
(** * BTB-Ferret: the length of a prefetch chain

    A chain has an identity and a slot of the chain table; [issuePrefetch]
    enters a branch into the prefetch buffer and takes one off the remaining
    count of its chain.  [chainRun] processes deferred entries and counts what
    one chain issues; [budget] is what the chain may still issue. *)

From Stdlib Require Import ZArith Lia.
From stdpp Require Import base list numbers gmap.
From S2P Require Import Prelude Types ReplPolicy AssocCache BtbEntry Btb MultiLevelBtb MultiLevelWp MultiLevelInv.

(** The prefetches counted as issued *)
Definition issued (s : MLBTB) : Z :=
  stat_count (fun x => match x with S_pfIssued => true | _ => false end) (mlstats s).

(** Process deferred entries in order; the result is the number of prefetches
    issued for the entries of chain [c]. *)
Fixpoint chainRun (p : MLParams) (c : Z) (l : list DeferredPrefetchEntry) : M MLBTB Z :=
  match l with
  | [] => mret 0
  | e :: l' =>
      before ← gets issued;
      ML.processEntry p e ;;
      after ← gets issued;
      n ← chainRun p c l';
      mret ((if df_chainId e =? c then after - before else 0) + n)
  end.

Section Chain.
Context (p : MLParams) (c d : Z).
#[local] Abbreviation slot := (ML.chainIdx p c).

(** The slot of the chain: who holds it and how many prefetches remain *)
Definition view (s : MLBTB) : option (Z * Z) :=
  (fun ch => (ch_chainId ch, ch_remainingPrefetches ch)) <$> chainTable s !! slot.

(** What the chain may still issue: its remaining count while it holds its slot,
    and its depth [d] before it got one *)
Definition budgetOf (v : option (Z * Z)) : Z :=
  match v with Some (id, r) => if id =? c then r else d | None => d end.
Definition budget (s : MLBTB) : Z := budgetOf (view s).

Definition seen (v : option (Z * Z)) (m : Z) (s : MLBTB) : Prop := view s = v /\ issued s = m.

(** ** What leaves the slot and the count alone *)

Section Frame.
Context (v : option (Z * Z)) (m : Z).
#[local] Abbreviation kp := (keeps (seen v m)).

(** A change of another field *)
Definition elsewhere (f : MLBTB -> MLBTB) : Prop :=
  forall s, chainTable (f s) = chainTable s /\ mlstats (f s) = mlstats s.

Lemma seen_elsewhere f s : elsewhere f -> seen v m s -> seen v m (f s).
Proof. intros Hf [H1 H2]. destruct (Hf s) as [E1 E2]. unfold seen, view, issued. by rewrite E1, E2. Qed.

Lemma keeps_elsewhere f : elsewhere f -> kp (modify f).
Proof. intros Hf. apply keeps_modify. intros s. by apply seen_elsewhere. Qed.

Lemma keeps_part {T A} (pr : MLBTB -> T) `{!Setter pr} (x : M T A) :
  (forall t, elsewhere (setf pr (fun _ => t))) -> kp (zoom pr x).
Proof.
  intros Hf s Hs a s' E. unfold zoom in E. destruct (x (pr s)) as [[a0 t]|]; [|done].
  injection E as <- <-. by apply seen_elsewhere.
Qed.

Lemma keeps_stat x : x <> S_pfIssued -> kp (ML.stat x).
Proof.
  intros Hx. unfold ML.stat. destruct (stat_index_ok x); [|apply keeps_fault].
  apply keeps_modify. intros s [H1 H2]. split; [done|]. unfold issued in *. cbn. by destruct x.
Qed.

Lemma keeps_lift {A} (r : Res A) : kp (lift r).
Proof. intros s Hs a s' E. unfold lift in E. destruct r; [|done]. by injection E as <- <-. Qed.
End Frame.

#[local] Hint Extern 2 (keeps _ (modify _)) => apply keeps_elsewhere; by intros [] : keeps.
#[local] Hint Extern 2 (keeps _ (zoom _ _)) => apply keeps_part; intros ?; by intros [] : keeps.
#[local] Hint Extern 2 (keeps _ (ML.stat _)) => apply keeps_stat; done : keeps.
#[local] Hint Resolve keeps_lift : keeps.

Lemma keeps_readChain v m i : keeps (seen v m) (ML.readChain i).
Proof. unfold ML.readChain. keeps_steps. Qed.
#[local] Hint Resolve keeps_readChain : keeps.

(** A write to another slot *)
Lemma keeps_writeOther v m i f : i <> slot -> keeps (seen v m) (ML.writeChain i f).
Proof.
  intros Hi. unfold ML.writeChain. keeps_step; [keeps_step|]. apply keeps_modify. intros s [H1 H2].
  split; [|done]. unfold view in *. cbn. by rewrite list_lookup_insert_ne.
Qed.

(** A write that keeps the chain and its count *)
Lemma keeps_writeSame v m i f :
  (forall ch, ch_chainId (f ch) = ch_chainId ch /\ ch_remainingPrefetches (f ch) = ch_remainingPrefetches ch) ->
  keeps (seen v m) (ML.writeChain i f).
Proof.
  intros Hf s [H1 H2]. unfold ML.writeChain, ML.readChain. apply wlp_bind, wlp_bind.
  intros o s0 [= <- <-]. intros ch s1 E. destruct (chainTable s !! i) as [ch0|] eqn:Ec; [|done].
  injection E as <- <-. intros [] s2 [= <-]. split; [|done]. rewrite <- H1. unfold view. cbn.
  destruct (decide (i = slot)) as [->|]; [|by rewrite list_lookup_insert_ne].
  rewrite list_lookup_insert_eq by (by eapply lookup_lt_Some). rewrite Ec. cbn.
  by destruct (Hf ch0) as [-> ->].
Qed.

Lemma keeps_setEndReason v m i r : keeps (seen v m) (ML.setEndReason i r).
Proof. unfold ML.setEndReason. by apply keeps_writeSame. Qed.
#[local] Hint Resolve keeps_setEndReason : keeps.

Lemma keeps_recordChainEnd v m i : keeps (seen v m) (ML.recordChainEnd i).
Proof.
  unfold ML.recordChainEnd. keeps_step; [keeps_step|]. keeps_step; [|keeps_step].
  apply keeps_stat. by destruct (ch_lastEndReason a).
Qed.
#[local] Hint Resolve keeps_recordChainEnd : keeps.

Lemma keeps_approx v m pc tid :
  keeps (seen v m) (ML.l1ApproxContains p pc tid) /\ keeps (seen v m) (ML.pbApproxContains p pc tid).
Proof. unfold ML.l1ApproxContains, ML.pbApproxContains, ML.approxContains. split; keeps_steps. Qed.

Lemma keeps_l1Approx v m pc tid : keeps (seen v m) (ML.l1ApproxContains p pc tid).
Proof. apply keeps_approx. Qed.
Lemma keeps_pbApprox v m pc tid : keeps (seen v m) (ML.pbApproxContains p pc tid).
Proof. apply keeps_approx. Qed.
#[local] Hint Resolve keeps_l1Approx keeps_pbApprox : keeps.

Lemma keeps_via v m tid a tk pb dep lat ty id al :
  keeps (seen v m) (ML.prefetchViaBBMap p tid a tk pb dep lat ty id al).
Proof. unfold ML.prefetchViaBBMap. keeps_steps. Qed.
#[local] Hint Resolve keeps_via : keeps.

Lemma keeps_isChainDead v m id : keeps (seen v m) (ML.isChainDead id).
Proof. unfold ML.isChainDead. keeps_steps. Qed.
#[local] Hint Resolve keeps_isChainDead : keeps.

(** ** The issue of a prefetch *)

(** At most one prefetch more *)
Definition oneMore (v : option (Z * Z)) (m : Z) (s : MLBTB) : Prop := seen v m s \/ seen v (m + 1) s.

Lemma wlp_enqueue v m pc tid src arr l1 pb dist tk ty l3 s :
  seen v m s ->
  wlp (ML.enqueuePrefetch p pc tid src arr l1 pb dist tk ty l3) (fun _ => oneMore v m) s.
Proof.
  intros Hs. unfold ML.enqueuePrefetch. apply wlp_bind. intros inL1 s1 E1.
  apply (keeps_l1Approx v m) in E1; [|done]. apply wlp_bind. intros inPB s2 E2.
  assert (H2 : seen v m s2).
  { revert E2. destruct inL1; [by intros [= _ <-]|]. by apply keeps_pbApprox. }
  destruct inPB; [apply wlp_ret; by left|]. apply wlp_bind. intros [] s3 E3.
  change (Ok (tt, setf mlstats (cons S_pfIssued) s2) = Ok (tt, s3)) in E3. injection E3 as <-.
  assert (H3 : seen v (m + 1) (setf mlstats (cons S_pfIssued) s2)).
  { destruct H2 as [Hv Hm]. split; [done|]. rewrite <- Hm. unfold issued. cbn. lia. }
  eapply wlp_mono; [|intros a s' H; by right; exact H]. revert H3. generalize (setf mlstats (cons S_pfIssued) s2).
  match goal with |- forall s, _ -> wlp ?x _ _ => change (keeps (seen v (m + 1)) x) end.
  unfold ML.recordBTBAccess, ML.pbCompressedTagSync. keeps_steps.
Qed.

(** ** The slot of the chain *)

Lemma wlp_writeSlot v m f s :
  seen v m s ->
  wlp (ML.writeChain slot f) (fun _ s' => exists ch, chainTable s !! slot = Some ch /\
    seen (Some (ch_chainId (f ch), ch_remainingPrefetches (f ch))) m s') s.
Proof.
  intros [_ Hm]. unfold ML.writeChain, ML.readChain. apply wlp_bind, wlp_bind.
  intros o s0 [= <- <-]. intros ch s1 E. destruct (chainTable s !! slot) as [ch0|] eqn:Ec; [|done].
  injection E as <- <-. intros [] s2 [= <-]. exists ch0. split; [done|]. split; [|done]. unfold view. cbn.
  by rewrite list_lookup_insert_eq by (by eapply lookup_lt_Some).
Qed.

Lemma wlp_readSlot v m s :
  seen v m s ->
  wlp (ML.readChain slot) (fun ch s' => s' = s /\ v = Some (ch_chainId ch, ch_remainingPrefetches ch)) s.
Proof.
  intros [Hv _]. unfold ML.readChain. apply wlp_bind. intros o s0 [= <- <-]. intros ch s1 E.
  unfold view in Hv. destruct (chainTable s !! slot); [|done]. by injection E as <- <-.
Qed.

(** The slot after the chain has got it *)
Definition owned (v : option (Z * Z)) : option (Z * Z) := Some (c, budgetOf v).

Lemma wlp_allocate v m e s :
  seen v m s -> df_chainId e = c -> df_depth e = d ->
  wlp (ML.allocateChainSlot p e) (fun i s' => i = slot /\ seen (owned v) m s') s.
Proof.
  intros Hs Hid Hdep. unfold ML.allocateChainSlot. rewrite Hid. apply wlp_bind.
  eapply wlp_mono; [by apply (wlp_readSlot v m)|]. intros ch s1 [-> Ev].
  assert (Eb : budgetOf v = if ch_chainId ch =? c then ch_remainingPrefetches ch else d) by (by rewrite Ev).
  apply wlp_bind. apply (wlp_mono _ (fun _ => seen (owned v) m)).
  2:{ intros [] s2 H2. by apply wlp_ret. }
  unfold owned. rewrite Eb. destruct (Z.eqb_spec (ch_chainId ch) c) as [<-|Hne]; cbn [negb when].
  - apply wlp_ret. by rewrite <- Ev.
  - apply wlp_bind. apply (wlp_mono _ (fun _ => seen v m)).
    + revert s Hs. match goal with |- forall s, _ -> wlp ?x _ _ => change (keeps (seen v m) x) end. keeps_steps.
    + intros [] s2 H2. eapply wlp_mono; [by apply (wlp_writeSlot v m)|].
      intros [] s3 (ch' & _ & H3). cbn in H3. by rewrite Hdep in H3.
Qed.

Lemma wlp_advance r m e pf arr s :
  seen (Some (c, r)) m s -> 0 < r < 2 ^ 32 ->
  wlp (ML.advanceChain p slot e pf arr) (fun _ => seen (Some (c, r - 1)) m) s.
Proof.
  intros Hs Hr. unfold ML.advanceChain. apply wlp_bind.
  eapply wlp_mono; [by apply (wlp_readSlot (Some (c, r)) m)|]. intros ch s1 [-> [= Ec Er]].
  rewrite <- Er. destruct (Z.ltb_spec 0 r); [|lia]. cbn [negb]. apply wlp_bind.
  eapply wlp_mono; [by apply (wlp_writeSlot (Some (c, r)) m)|]. intros [] s2 (ch' & Hc' & H2).
  assert (Ev : Some (ch_chainId ch', ch_remainingPrefetches ch') = Some (c, r)).
  { destruct Hs as [Hv _]. unfold view in Hv. by rewrite Hc' in Hv. }
  injection Ev as Ec' Er'. cbn in H2. rewrite Ec', Er', u32_small in H2 by lia. revert s2 H2.
  match goal with |- forall s, _ -> wlp ?x _ _ => change (keeps (seen (Some (c, r - 1)) m) x) end.
  keeps_steps.
Qed.

(** ** The entries of the queue *)

(** [m] prefetches were issued and the chain could issue [b] more; now it has
    spent what it has issued since. *)
Definition spent (b m : Z) (s : MLBTB) : Prop :=
  exists v m', seen v m' s /\ m <= m' /\ m' + budgetOf v <= m + b /\ 0 <= budgetOf v < 2 ^ 32.

Lemma spent_same v m s : seen v m s -> 0 <= budgetOf v < 2 ^ 32 -> spent (budgetOf v) m s.
Proof. intros Hs Hb. exists v, m. split; [done|]. lia. Qed.

Lemma keeps_spent {A} (x : M MLBTB A) b m : (forall v m', keeps (seen v m') x) -> keeps (spent b m) x.
Proof. intros Hx s (v & m' & Hs & H) a s' E. exists v, m'. split; [by eapply Hx|done]. Qed.

Lemma wlp_issue v m e pf lat l3 s :
  seen v m s -> 0 < budgetOf v < 2 ^ 32 -> df_chainId e = c -> (df_allocateChain e = true -> df_depth e = d) ->
  0 < maxChainTrackerEntries p -> (owned v = v \/ df_allocateChain e = true) ->
  wlp (ML.issuePrefetch p e (Some slot) pf lat l3) (fun _ => spent (budgetOf v) m) s.
Proof.
  intros Hs Hb Hid Hdep Hmax Hown. unfold ML.issuePrefetch. apply wlp_bind.
  eapply wlp_mono; [by apply wlp_enqueue|]. intros [] s1 H1. apply wlp_bind.
  apply (wlp_mono _ (fun o s' => o = Some slot /\ oneMore (owned v) m s')).
  - assert (Emax : (0 <? maxChainTrackerEntries p) = true) by (by apply Z.ltb_lt).
    destruct (df_allocateChain e); rewrite ?Emax; cbn [andb].
    + apply wlp_bind. apply (wlp_mono _ (fun i s' => i = slot /\ oneMore (owned v) m s')).
      * intros i s2 E. destruct H1 as [H1|H1]; apply (wlp_allocate _ _ _ _ H1 Hid (Hdep eq_refl)) in E as [-> E];
          split; try done; [by left|by right].
      * intros i s2 [-> H2]. by apply wlp_ret.
    + apply wlp_ret. split; [done|]. by destruct Hown as [->|].
  - intros o s2 [-> H2]. unfold owned in H2. intros [] s3 E.
    destruct H2 as [H2|H2]; apply (wlp_advance _ _ _ _ _ _ H2) in E; try done;
      (eexists _, _; split; [exact E|]); change (budgetOf (Some (c, budgetOf v - 1)))
        with (if c =? c then budgetOf v - 1 else d); rewrite Z.eqb_refl; lia.
Qed.

Lemma keeps_noteEnd v m e o r : keeps (seen v m) (ML.noteEnd e o r).
Proof. unfold ML.noteEnd. keeps_steps. Qed.
#[local] Hint Resolve keeps_noteEnd : keeps.

(** A part of an operation that leaves the slot and the count alone *)
Ltac frame :=
  cbv beta in *;
  match goal with
  | H : seen ?v ?m ?s |- wlp ?x _ ?s =>
      let K := fresh in assert (K : keeps (seen v m) x) by keeps_steps; exact (K s H)
  end.

(** An entry of the chain *)
Lemma wlp_processOwn v m e s :
  seen v m s -> 0 <= budgetOf v < 2 ^ 32 -> 1 <= d < 2 ^ 32 -> c <> 0 -> df_chainId e = c ->
  (df_allocateChain e = true -> df_depth e = d) -> 0 < maxChainTrackerEntries p ->
  wlp (ML.processEntry p e) (fun _ => spent (budgetOf v) m) s.
Proof.
  intros Hs Hb Hd Hc Hid Hdep Hmax. unfold ML.processEntry. apply wlp_bind.
  apply (wlp_mono _ (fun vc s' => s' = s /\ snd vc = Some slot /\
    (fst vc = true -> 0 < budgetOf v /\ (owned v = v \/ df_allocateChain e = true)))).
  - unfold ML.checkChain. rewrite Hid. destruct (Z.eqb_spec c 0); [done|].
    destruct (Z.ltb_spec 0 (maxChainTrackerEntries p)); [|lia]. cbn [negb andb]. apply wlp_bind.
    eapply wlp_mono; [by apply (wlp_readSlot v m)|]. intros ch s1 [-> Ev]. apply wlp_ret. split_and!; [done..|].
    cbn [fst]. rewrite Ev. unfold budgetOf, owned, budgetOf. rewrite Ev in Hb. cbn in Hb.
    destruct (Z.eqb_spec (ch_chainId ch) c) as [E|]; cbn [negb]; [|intros ->; split; [lia|by right]].
    intros Hr%negb_true_iff%Z.eqb_neq. split; [lia|]. left. by rewrite E.
  - intros [ok o] s1 (-> & -> & Hok). cbn [fst snd] in *.
    destruct ok; cbn [negb]; [|by apply wlp_ret, spent_same]. specialize (Hok eq_refl) as [Hpos Hown].
    pose proof (spent_same v m s Hs Hb) as Hsp.
    assert (Hk : forall (A : Type) (x : M MLBTB A) s0, seen v m s0 -> (forall v m, keeps (seen v m) x) ->
      wlp x (fun _ => spent (budgetOf v) m) s0).
    { intros A x s0 H0 Hx. apply (keeps_spent x); [done|]. by apply spent_same. }
    apply wlp_bind. eapply wlp_mono; [by apply (keeps_stat v m)|]. intros [] s2 H2. apply wlp_bind.
    intros dem s3 [= <- <-]. destruct (bool_decide _); [apply Hk; [done|intros; keeps_steps]|].
    apply wlp_bind. eapply wlp_mono; [by apply (keeps_l1Approx v m)|]. intros inL1 s4 H4.
    apply wlp_bind. apply (wlp_mono _ (fun _ => seen v m)).
    { frame. }
    intros hit s5 H5. destruct hit; [apply Hk; [done|intros; keeps_steps]|].
    apply wlp_bind. apply (wlp_mono _ (fun _ => seen v m)).
    { frame. }
    intros l2 s6 H6. apply wlp_bind. apply (wlp_mono _ (fun _ => seen v m)).
    { frame. }
    intros l3 s7 H7.
    assert (Hiss : forall pf lat fl3 s0, seen v m s0 ->
      wlp (ML.issuePrefetch p e (Some slot) pf lat fl3) (fun _ => spent (budgetOf v) m) s0).
    { intros pf lat fl3 s0 H0. apply wlp_issue; [done|lia|done..]. }
    destruct l2 as [i|]; [|destruct l3 as [i|]]; [| |apply Hk; [done|intros; keeps_steps]];
      (apply wlp_bind; eapply wlp_mono; [by apply (keeps_stat v m)|]; intros [] s8 H8; apply wlp_bind;
       apply (wlp_mono _ (fun _ => seen v m)); [frame|]; intros pf s9 H9; by apply Hiss).
Qed.

(** ** The entries of other chains *)

#[local] Hint Resolve keeps_writeOther : keeps.

Definition sees (v : option (Z * Z)) (s : MLBTB) : Prop := view s = v.

Lemma keeps_sees {A} v (x : M MLBTB A) : (forall m, keeps (seen v m) x) -> keeps (sees v) x.
Proof. intros Hx s Hs a s' E. by destruct (Hx (issued s) s (conj Hs eq_refl) a s' E). Qed.

Lemma sees_enqueue v pc tid src arr l1 pb dist tk ty l3 :
  keeps (sees v) (ML.enqueuePrefetch p pc tid src arr l1 pb dist tk ty l3).
Proof.
  intros s Hs a s' E. by destruct (wlp_enqueue v (issued s) _ _ _ _ _ _ _ _ _ _ s (conj Hs eq_refl) a s' E) as [[]|[]].
Qed.

Lemma sees_allocate v e :
  ML.chainIdx p (df_chainId e) <> slot -> keeps (sees v) (ML.allocateChainSlot p e).
Proof.
  intros Hne. apply keeps_sees. intros m. unfold ML.allocateChainSlot. keeps_steps.
Qed.

Lemma sees_advance v i e pf arr : i <> slot -> keeps (sees v) (ML.advanceChain p i e pf arr).
Proof.
  intros Hne. apply keeps_sees. intros m. unfold ML.advanceChain. keeps_steps.
Qed.

Lemma sees_issue v e o pf lat l3 :
  ML.chainIdx p (df_chainId e) <> slot -> (forall i, o = Some i -> i <> slot) ->
  keeps (sees v) (ML.issuePrefetch p e o pf lat l3).
Proof.
  intros Hne Ho. unfold ML.issuePrefetch. apply keeps_bind; [apply sees_enqueue|]. intros [] s Hs.
  apply wlp_bind. apply (wlp_mono _ (fun o' s' => sees v s' /\ forall i, o' = Some i -> i <> slot)).
  - destruct (_ && _); [|by apply wlp_ret]. apply wlp_bind. intros i s1 E.
    assert (Ei : i = ML.chainIdx p (df_chainId e)).
    { unfold ML.allocateChainSlot in E. rewrite !bind_eq in E. destruct (ML.readChain _ s) as [[? ?]|]; [|done].
      rewrite bind_eq in E. destruct (when _ _ _) as [[? ?]|]; [|done]. by injection E as <- _. }
    apply (sees_allocate v) in E; [|done|done]. apply wlp_ret. split; [done|]. intros j [= <-]. by rewrite Ei.
  - intros [i|] s1 [H1 H2]; [|by apply wlp_ret]. apply sees_advance; [by apply H2|done].
Qed.

(** An entry of another chain, in another slot *)
Lemma sees_processOther v e :
  ML.chainIdx p (df_chainId e) <> slot -> keeps (sees v) (ML.processEntry p e).
Proof.
  intros Hne s Hs. unfold ML.processEntry. apply wlp_bind.
  apply (wlp_mono _ (fun vc s' => sees v s' /\ forall i, snd vc = Some i -> i <> slot)).
  - unfold ML.checkChain. destruct (_ && _); [|by apply wlp_ret]. apply wlp_bind. intros ch s1 E.
    apply (keeps_sees v) in E; [|intros; keeps_step|done]. apply wlp_ret. split; [done|]. by intros i [= <-].
  - intros [ok o] s1 [H1 Ho]. cbn [fst snd] in *. revert s1 H1.
    match goal with |- forall s, _ -> wlp ?x _ _ => change (keeps (sees v) x) end.
    assert (Hk : forall A (x : M MLBTB A), (forall m, keeps (seen v m) x) -> keeps (sees v) x) by (intros; by apply keeps_sees).
    assert (Hi : forall pf lat l3, keeps (sees v) (ML.issuePrefetch p e o pf lat l3)) by (intros; by apply sees_issue).
    repeat first [ apply Hi | solve [apply Hk; intros; unfold ML.isDemandAccess; keeps_steps] | apply keeps_bind; [|intros ?]
      | match goal with |- keeps _ (match ?x with _ => _ end) => destruct x end ].
Qed.
End Chain.

(** ** Runs *)

Section Runs.
Context (p : MLParams) (Hcfg : ferretConfig p) (nthreads : nat) (c d : Z).

(** An entry of the queue that is ready, and leaves the slot of chain [c] to it *)
Record chainEntry (now : Cycles) (e : DeferredPrefetchEntry) : Prop := {
  ce_ready : ready p now e;
  ce_depth : df_chainId e = c -> df_allocateChain e = true -> df_depth e = d;
  ce_slot : df_chainId e <> c -> ML.chainIdx p (df_chainId e) <> ML.chainIdx p c
}.

Lemma wp_wlp_and {S A} (m : M S A) (P Q : A -> S -> Prop) s :
  wp m P s -> wlp m Q s -> wp m (fun a s' => P a s' /\ Q a s') s.
Proof. unfold wp, wlp. destruct (m s) as [[a s']|]; [|done]. auto. Qed.

Lemma wp_chainRun k l : forall s,
  inv p nthreads k s -> is_Some (bbMap_ s) -> ML.usesPrefetchBitPolicy p = true ->
  0 < maxChainTrackerEntries p -> c <> 0 -> 1 <= d < 2 ^ 32 -> 0 <= budget p c d s < 2 ^ 32 ->
  Forall (chainEntry (curCycle s)) l ->
  wp (chainRun p c l) (fun n s' => 0 <= n /\ 0 <= budget p c d s' /\ n + budget p c d s' <= budget p c d s) s.
Proof.
  induction l as [|e l IH]; intros s Hi Hm Hp Hmax Hc Hd Hb Hl; cbn [chainRun].
  { apply wp_ret. lia. }
  apply list.Forall_cons in Hl as [[Hr Hdep Hslot] Hl]. apply wp_bind, wp_gets, wp_bind.
  set (Q := fun s' => if df_chainId e =? c then spent p c d (budget p c d s) (issued s) s' else view p c s' = view p c s).
  assert (Hw : wlp (ML.processEntry p e) (fun _ => Q) s).
  { unfold Q. destruct (Z.eqb_spec (df_chainId e) c) as [E|E].
    - apply (wlp_processOwn p c d (view p c s)); try done. by apply Hdep.
    - by apply (sees_processOther p c (view p c s)); [apply Hslot|]. }
  eapply wp_mono; [apply (wp_wlp_and _ _ _ s (kept_processEntry p nthreads Hcfg e k s Hi Hm Hp Hr) Hw)|].
  intros [] s1 [(Hi1 & Em1 & Ec1 & _) Hq]. apply wp_bind, wp_gets, wp_bind.
  assert (Hs : 0 <= budget p c d s1 < 2 ^ 32 /\
    let x := (if df_chainId e =? c then issued s1 - issued s else 0) in 0 <= x /\ x + budget p c d s1 <= budget p c d s).
  { unfold Q in Hq. destruct (df_chainId e =? c).
    - destruct Hq as (v & m' & [Hv Hm'] & H1 & H2 & H3). unfold budget at 1 2 3. rewrite Hv. cbn zeta. lia.
    - unfold budget at 1 2 3. rewrite Hq. cbn zeta. unfold budget in *. lia. }
  destruct Hs as (Hb1 & Hx). eapply wp_mono; [apply (IH s1); try done; [by rewrite Em1|by rewrite Ec1]|].
  intros n s2 (H1 & H2 & H3). apply wp_ret. cbn zeta in Hx. lia.
Qed.
End Runs.
