(* ===== verification/MultiLevelSpec.v ===== *)
(** * MultiLevelBTB: theorems

    The properties of [MultiLevelBTB] in its reachable states, and the
    concrete runs that witness them. *)

From Stdlib Require Import ZArith Lia Sorted.
From stdpp Require Import base list gmap numbers.
From S2P Require Import Prelude Types SatCounter ReplPolicy AssocCache AssocCacheInit BtbEntry Btb MultiLevelBtb MultiLevelWp MultiLevelHit MultiLevelInv MultiLevelOps MultiLevelSafe MultiLevelChain.

(** ** Running sequences of operations *)

Definition enabledb (p : MLParams) (nthreads : nat) (o : Op) (s : MLBTB) : bool :=
  match o with
  | OpLookup tid pc _ _ _ _ =>
      (Z.to_nat tid <? nthreads)%nat &&
      match ML.valid p tid pc s with Ok (b, _) => b | Err _ => false end
  | _ => true
  end.

(** [None]: an operation was not enabled. *)
Fixpoint run (p : MLParams) (nthreads : nat) (ops : list Op) (s : MLBTB) : option (Res MLBTB) :=
  match ops with
  | [] => Some (Ok s)
  | o :: ops' =>
      if enabledb p nthreads o s then
        match exec p o s with
        | Ok (_, s') => run p nthreads ops' s'
        | Err f => Some (Err f)
        end
      else None
  end.

(** A new BTB after [startup]. *)
Definition boot (p : MLParams) (g : MLGeometry) (pbTicks ctTicks : Tick) (garbage : PrevBrInfo)
  : Res MLBTB :=
  s ← ML.make p g pbTicks ctTicks garbage;
  resMap snd (ML.startup s).

Definition bootRun (p : MLParams) (g : MLGeometry) (ops : list Op) : option (Res MLBTB) :=
  match boot p g 0 0 (mkPrevBr false false) with
  | Ok s => run p (Z.to_nat (g_numThreads g)) ops s
  | Err f => Some (Err f)
  end.

Lemma boot_reach p g t1 t2 garbage s : boot p g t1 t2 garbage = Ok s -> reach p g 0 s.
Proof.
  intros (s0 & E0 & E1)%res_bind_ok. destruct (ML.startup s0) as [[[] s1]|] eqn:E; [|done].
  injection E1 as <-. by eapply reach_init.
Qed.

Lemma enabledb_ok p n o s : enabledb p n o s = true -> enabled p n o s.
Proof.
  destruct o; cbn; try done. intros [H1 H2]%andb_prop. apply Nat.ltb_lt in H1.
  split; [done|]. destruct (ML.valid p tid pc s) as [[b ?]|]; [|done]. cbn. by rewrite H2.
Qed.

Lemma run_reach p g ops : forall n s s',
  reach p g n s -> run p (Z.to_nat (g_numThreads g)) ops s = Some (Ok s') ->
  reach p g (length ops + n) s'.
Proof.
  induction ops as [|o ops IH]; intros n s s' Hr; cbn [run length].
  { by intros [= <-]. }
  destruct (enabledb p _ o s) eqn:Een; [|done].
  destruct (exec p o s) as [[[] s1]|] eqn:Eex; [|done]. intros Hrun.
  replace (S (length ops) + n)%nat with (length ops + S n)%nat by lia.
  eapply IH; [|exact Hrun]. eapply reach_step; [done| |done]. by apply enabledb_ok.
Qed.

Lemma bootRun_reach p g ops s :
  bootRun p g ops = Some (Ok s) -> reach p g (length ops) s.
Proof.
  unfold bootRun. destruct (boot p g 0 0 _) as [s0|] eqn:E; [|done]. intros Hr.
  replace (length ops) with (length ops + 0)%nat by lia.
  eapply run_reach; [by eapply boot_reach|done].
Qed.

(** ** A small configuration *)

(** The BTB-Ferret prefetcher on a two-entry L1 BTB with an L3 BTB. *)
Definition demoCfg : MLParams := {|
  l1Latency := 0; l2Latency := 3; l3Latency := 5; enableL3 := true; minInstSize := 4;
  trainBitsOnLookup := true; trainBitsOnCommit := false; prefetchOnPrefetchHit := true;
  cleanBitsOnL1Promotion := false; noPrefetchLatency := false; prefetchDepth := 2;
  maxChainTrackerEntries := 4; depthOnlyCall := false; limitRet := false;
  markovUseRecency := false; nonexclusive := true; newPBits := false; onlyCall := false;
  onlyCallAndBackward := false; callFallthrough := true; forwardLoopExit := false;
  backwardLoopExit := true; allConditional := true; prefetchFwExitOnL1Hit := false;
  useCompressedTagFilter := false; indirectAltBit := false; limitedMarkov := false;
  markovOnlyMisses := false; maxMarkovSuccessors := 4 |}.

Definition demoGeo : MLGeometry := {|
  g_l1NumEntries := 2; g_l1Associativity := 2; g_l2NumEntries := 4; g_l2Associativity := 2;
  g_l3NumEntries := 8; g_l3Associativity := 2; g_pBufferSize := 8; g_instShiftAmt := 2;
  g_tagBits := 16; g_compressedTagBits := 4; g_markov_entries := 8; g_markov_assoc := 2;
  g_numThreads := 2 |}.

Lemma demoCfg_ok : ferretConfig demoCfg.
Proof. by split; cbn; try lia; auto. Qed.

Lemma demoGeo_ok : goodGeometry demoGeo.
Proof. split; (split; [cbn; lia|split; [cbn; lia|reflexivity]]). Qed.

Definition callInst : StaticInst := mkInst true true false true false false true false false 4.
Definition condInst : StaticInst := mkInst true false false true false true false false false 4.

Definition upd (tid pc tgt : Z) : Op := OpUpdate tid pc (mkPC tgt 0) DirectCond condInst.
Definition look (tid pc : Z) : Op := OpLookup tid pc DirectCond true 0 true.
Definition tick : Op := OpEndCycle 1.

(** A run that prefetches: branch 0x1000 jumps to the block at 0x2000, which
    ends in branch 0x104; both have left the L1 BTB when 0x1000 is looked up
    again, and the prefetch of 0x104 is two cycles under way at the end. *)
Definition demoOps : list Op :=
  [OpSetBBMap {[ 0x2000 := 0x104 ]}; tick; upd 0 0x1000 0x2000; tick; upd 0 0x104 0x3000; tick;
   upd 0 0x108 0x3000; tick; upd 0 0x10c 0x3000; tick; look 0 0x1000;
   tick; tick; tick; tick; tick; tick].

Section Reachable.
Context (p : MLParams) (g : MLGeometry) (n : nat) (s : MLBTB).
Context (Hcfg : ferretConfig p) (Hgeo : goodGeometry g).
Context (Hn : Z.of_nat n < 2 ^ 64 - 3) (Hreach : reach p g n s).

Lemma reachable_inv : inv p (Z.to_nat (g_numThreads g)) (Z.of_nat n) s.
Proof. apply reach_inv; [done|done|lia|done]. Qed.
End Reachable.

(** [C1] In every state of the BTB-Ferret multi-level BTB reachable from construction, in every
    configuration without the Markov prefetcher whose L2/L3 latencies are at most five and that has
    fewer than 2^31 chain-tracker entries and either the prefetch bit policy or no early exit of the
    forward walk on an L1 hit (ferretConfig), with well-formed table geometries (goodGeometry) and in
    fewer than 2^64 - 3 operations, every operation its callers may perform succeeds: no assertion,
    panic, null pointer, exception or index out of range. *)
Theorem ml_no_fault p g n s o :
  ferretConfig p -> goodGeometry g -> Z.of_nat n < 2 ^ 64 - 3 -> reach p g n s ->
  enabled p (Z.to_nat (g_numThreads g)) o s ->
  isOk (exec p o s) = true.
Proof.
  intros Hcfg Hgeo Hn Hr Hen. eapply wp_isOk.
  apply (wp_exec p (Z.to_nat (g_numThreads g)) Hcfg (Z.of_nat n)); [|lia|done].
  by apply reachable_inv.
Qed.

Lemma ml_no_fault_witness :
  exists s, bootRun demoCfg demoGeo demoOps = Some (Ok s) /\
    isOk (exec demoCfg (look 0 0x104) s) = true.
Proof.
  eexists. split; [vm_compute; reflexivity|].
  apply (ml_no_fault demoCfg demoGeo (length demoOps)).
  - exact demoCfg_ok.
  - exact demoGeo_ok.
  - cbn. lia.
  - apply bootRun_reach. vm_compute. reflexivity.
  - apply enabledb_ok. vm_compute. reflexivity.
Defined.

(** [C2] Prefetches are conserved, in every reachable state of a ferretConfig configuration: those
    counted as issued are those counted as useful or useless plus those still waiting in the prefetch
    buffer. *)
Theorem ml_prefetch_conservation p g n s :
  ferretConfig p -> goodGeometry g -> Z.of_nat n < 2 ^ 64 - 3 -> reach p g n s ->
  stat_count isTotalStat (mlstats s) =
    stat_count isHitStat (mlstats s) + stat_count isUselessStat (mlstats s) +
    pending (pBuffer s).
Proof.
  intros Hcfg Hgeo Hn Hr. pose proof (i_balance _ _ _ _ (reachable_inv p g n s Hcfg Hgeo Hn Hr)) as H.
  unfold balance in H. lia.
Qed.

Lemma ml_prefetch_conservation_witness :
  exists s, bootRun demoCfg demoGeo (demoOps ++ [look 0 0x104]) = Some (Ok s) /\
    1 = stat_count isHitStat (mlstats s) + stat_count isUselessStat (mlstats s) +
        pending (pBuffer s).
Proof.
  eexists. split; [vm_compute; reflexivity|].
  rewrite <- (ml_prefetch_conservation demoCfg demoGeo (length (demoOps ++ [look 0 0x104]))).
  - vm_compute. reflexivity.
  - exact demoCfg_ok.
  - exact demoGeo_ok.
  - cbn. lia.
  - apply bootRun_reach. vm_compute. reflexivity.
Defined.

(** [C3] lookupWithLatency refines the abstract lookup, in every reachable state of a ferretConfig
    configuration: the highest level that holds the branch answers, with its target, its hit flags and
    its latency. *)
Theorem ml_lookup_refines_resolve p g n s tid pc ty taken start base l e :
  ferretConfig p -> goodGeometry g -> Z.of_nat n < 2 ^ 64 - 3 -> reach p g n s ->
  (Z.to_nat tid < Z.to_nat (g_numThreads g))%nat ->
  resolve p s (mkKey pc tid) = Some (l, e) ->
  exists r s', ML.lookupWithLatency p tid pc ty taken start base s = Ok (r, s') /\
    answers p s l e r /\
    exists e', AC.get (l1btb s') (mkKey pc tid) = Some e' /\ target e' = target e /\
      inst e' = inst e.
Proof.
  intros Hcfg Hgeo Hn Hr Htid Hres.
  pose proof (reachable_inv p g n s Hcfg Hgeo Hn Hr) as Hi.
  destruct (wp_inv _ _ _ (wp_lookupWithLatency p _ Hcfg (Z.of_nat n) ltac:(lia)
    tid pc ty taken start base s l e Hi Htid Hres)) as (r & s' & E & _ & Ha & He).
  by exists r, s'.
Qed.

Lemma ml_lookup_refines_resolve_witness :
  exists s e, bootRun demoCfg demoGeo demoOps = Some (Ok s) /\
    resolve demoCfg s (mkKey 0x104 0) = Some (InPB, e) /\
    levelLatency demoCfg s InPB e = 1 /\
    exists r s', ML.lookupWithLatency demoCfg 0 0x104 DirectCond true 0 true s = Ok (r, s') /\
      answers demoCfg s InPB e r.
Proof.
  eexists _, _. split; [vm_compute; reflexivity|]. split; [vm_compute; reflexivity|].
  split; [vm_compute; reflexivity|].
  match goal with |- exists r s', ML.lookupWithLatency _ _ _ _ _ _ _ ?s = _ /\ answers _ _ _ ?e _ =>
    destruct (ml_lookup_refines_resolve demoCfg demoGeo (length demoOps) s 0 0x104 DirectCond
      true 0 true InPB e) as (r & s' & E & Ha & _) end.
  - exact demoCfg_ok.
  - exact demoGeo_ok.
  - cbn. lia.
  - apply bootRun_reach. vm_compute. reflexivity.
  - cbn. lia.
  - vm_compute. reflexivity.
  - exists r, s'. split; [exact E|exact Ha].
Defined.

(** [valid] is exact: in a reachable state [valid] returns [true] exactly
    when [resolve] finds the branch, and changes nothing; so the [panic] at
    the end of [lookupWithLatency] is unreachable for callers that check
    [valid] first. *)
Theorem ml_valid_exact p g n s tid pc :
  ferretConfig p -> goodGeometry g -> Z.of_nat n < 2 ^ 64 - 3 -> reach p g n s ->
  ML.valid p tid pc s = Ok (isSome (resolve p s (mkKey pc tid)), s).
Proof.
  intros Hcfg Hgeo Hn Hr. pose proof (reachable_inv p g n s Hcfg Hgeo Hn Hr) as Hi.
  destruct (wp_inv _ (fun b s' => b = isSome (resolve p s (mkKey pc tid)) /\ s' = s) _
    (wp_valid p _ _ tid pc s _ Hi (conj eq_refl eq_refl))) as (b & s' & -> & -> & ->).
  done.
Qed.

Lemma ml_valid_exact_witness :
  exists s, bootRun demoCfg demoGeo demoOps = Some (Ok s) /\
    ML.valid demoCfg 0 0x104 s = Ok (true, s) /\ ML.valid demoCfg 0 0x200 s = Ok (false, s).
Proof.
  eexists. split; [vm_compute; reflexivity|].
  split; (etransitivity; [apply (ml_valid_exact demoCfg demoGeo (length demoOps))|]);
    first [ exact demoCfg_ok | exact demoGeo_ok | (cbn; lia)
          | (apply bootRun_reach; vm_compute; reflexivity) | (vm_compute; reflexivity) ].
Defined.

(** [C32] A branch that was just updated is found by the next lookup in the L1 BTB, with the target that
    was stored, in every reachable state of a ferretConfig configuration. *)
Theorem ml_update_then_lookup p g n s tid pc tgt ty i ty' taken start base :
  ferretConfig p -> goodGeometry g -> Z.of_nat n < 2 ^ 64 - 3 -> reach p g n s ->
  (Z.to_nat tid < Z.to_nat (g_numThreads g))%nat ->
  wp (ML.update p tid pc tgt ty (Some i) ;;
      ML.lookupWithLatency p tid pc ty' taken start base)
     (fun r _ => res_target r = Some tgt /\ res_latency r = l1Latency p /\ res_l1Hit r = true) s.
Proof.
  intros Hcfg Hgeo Hn Hr Htid. pose proof (reachable_inv p g n s Hcfg Hgeo Hn Hr) as Hi.
  apply wp_bind. eapply wp_mono; [by eapply (wp_update_inv p _ (Z.of_nat n))|].
  intros [] s' (Hi' & e & Hg & Ht & _).
  eapply wp_mono.
  { apply (wp_lookupWithLatency p _ Hcfg (Z.of_nat n) ltac:(lia) _ _ _ _ _ _ _ InL1 e Hi' Htid).
    unfold resolve. by rewrite Hg. }
  intros r s'' (_ & (A1 & A2 & A3 & _) & _). by rewrite A1, A2, A3, Ht.
Qed.

Lemma ml_update_then_lookup_witness :
  exists s, bootRun demoCfg demoGeo demoOps = Some (Ok s) /\
    wp (ML.update demoCfg 0 0x104 (mkPC 0x5000 0) DirectCond (Some condInst) ;;
        ML.lookupWithLatency demoCfg 0 0x104 DirectCond true 0 true)
       (fun r _ => res_target r = Some (mkPC 0x5000 0) /\ res_latency r = 0 /\
                   res_l1Hit r = true) s.
Proof.
  eexists. split; [vm_compute; reflexivity|].
  apply (ml_update_then_lookup demoCfg demoGeo (length demoOps)).
  - exact demoCfg_ok.
  - exact demoGeo_ok.
  - cbn. lia.
  - apply bootRun_reach. vm_compute. reflexivity.
  - cbn. lia.
Defined.

(** [C10] An eviction from the L1 BTB writes the victim back: in every reachable state of a ferretConfig
    configuration an update of a branch that is not in the L1 BTB replaces one way and leaves the
    others, and if the entry in that way was valid, the L2 BTB afterwards holds its target and
    instruction under its own branch address and the thread of the update. When the victim belongs to
    that thread this is the key it was inserted with and nothing is lost; when it belongs to another
    thread, the owner can lose it. *)
Theorem ml_eviction_writes_back p g n s tid pc tgt ty i :
  ferretConfig p -> goodGeometry g -> Z.of_nat n < 2 ^ 64 - 3 -> reach p g n s ->
  AC.get (l1btb s) (mkKey pc tid) = None ->
  wp (ML.update p tid pc tgt ty (Some i))
     (fun _ s' => exists v ve e,
        entries (l1btb s) !! v = Some ve /\
        entries (l1btb s') = <[v := e]> (entries (l1btb s)) /\ target e = Some tgt /\
        (BtbEntry.valid ve = true ->
         exists e2, AC.get (l2btb s') (mkKey (branchAddr ve) tid) = Some e2 /\
           target e2 = target ve /\ inst e2 = inst ve)) s.
Proof.
  intros Hcfg Hgeo Hn Hr Hmiss. pose proof (reachable_inv p g n s Hcfg Hgeo Hn Hr) as Hi.
  apply AC.find_None_get in Hmiss. apply wp_ml_update; [apply Hi|].
  intros v e ve src l1 l2 l3 ct st Hst Ht Hin Hve _ _ _ _ Hwb _ _.
  exists v, ve, e. split; [done|]. split; [apply Hst|].
  split; [rewrite <- Ht; apply Hst|]. intros Hval.
  destruct (Hwb Hmiss Hval) as (_ & v2 & e2 & _ & _ & _ & Hg & _ & Et & Ei). by exists e2.
Qed.

Lemma ml_eviction_writes_back_witness :
  exists s, bootRun demoCfg demoGeo demoOps = Some (Ok s) /\
    wp (ML.update demoCfg 0 0x140 (mkPC 0x5000 0) DirectCond (Some condInst))
     (fun _ s' => exists v ve e,
        entries (l1btb s) !! v = Some ve /\
        entries (l1btb s') = <[v := e]> (entries (l1btb s)) /\ target e = Some (mkPC 0x5000 0) /\
        (BtbEntry.valid ve = true ->
         exists e2, AC.get (l2btb s') (mkKey (branchAddr ve) 0) = Some e2 /\
           target e2 = target ve /\ inst e2 = inst ve)) s.
Proof.
  eexists. split; [vm_compute; reflexivity|].
  apply (ml_eviction_writes_back demoCfg demoGeo (length demoOps)).
  - exact demoCfg_ok.
  - exact demoGeo_ok.
  - cbn. lia.
  - apply bootRun_reach. vm_compute. reflexivity.
  - vm_compute. reflexivity.
Defined.

(** Invalidation is complete: after [memInvalidate] no branch of any
    thread is found at any level and no prefetch is queued. *)
Theorem ml_memInvalidate_empties p g n s :
  ferretConfig p -> goodGeometry g -> Z.of_nat n < 2 ^ 64 - 3 -> reach p g n s ->
  wp (ML.memInvalidate p)
     (fun _ s' => deferredPrefetchQueue s' = [] /\ forall key, resolve p s' key = None) s.
Proof.
  intros Hcfg Hgeo Hn Hr. eapply wp_mono.
  - eapply (wp_memInvalidate p _ (Z.of_nat n)), (reachable_inv p g n s Hcfg Hgeo Hn Hr).
  - by intros [] s' (_ & ? & ?).
Qed.

Lemma ml_memInvalidate_empties_witness :
  exists s, bootRun demoCfg demoGeo demoOps = Some (Ok s) /\
    wp (ML.memInvalidate demoCfg)
     (fun _ s' => deferredPrefetchQueue s' = [] /\ forall key, resolve demoCfg s' key = None) s.
Proof.
  eexists. split; [vm_compute; reflexivity|].
  apply (ml_memInvalidate_empties demoCfg demoGeo (length demoOps)).
  - exact demoCfg_ok.
  - exact demoGeo_ok.
  - cbn. lia.
  - apply bootRun_reach. vm_compute. reflexivity.
Defined.

(** ** The deferred queue *)

Definition due (p : MLParams) (now : Cycles) (d : DeferredPrefetchEntry) : bool :=
  noPrefetchLatency p || (df_issueTime d <=? now).

Fixpoint keep {A} (f : A -> bool) (l : list A) : list A :=
  match l with [] => [] | x :: l' => if f x then x :: keep f l' else keep f l' end.

Lemma keep_all {A} (f : A -> bool) l : Forall (fun x => f x = true) l -> keep f l = l.
Proof. induction 1 as [|x l Hx _ IH]; cbn; [done|]. by rewrite Hx, IH. Qed.
Lemma keep_none {A} (f : A -> bool) l : Forall (fun x => f x = false) l -> keep f l = [].
Proof. induction 1 as [|x l Hx _ IH]; cbn; [done|]. by rewrite Hx. Qed.

Lemma splitReady_due p now q :
  ordered q -> ML.splitReady p now q = (keep (due p now) q, keep (fun d => negb (due p now d)) q).
Proof.
  induction 1 as [|d q Hq IH Hd]; [done|]. cbn [ML.splitReady keep].
  assert (E : negb (noPrefetchLatency p) && (now <? df_issueTime d) = negb (due p now d)).
  { unfold due. rewrite Z.ltb_antisym. by destruct (noPrefetchLatency p). }
  rewrite E. destruct (due p now d) eqn:Ed; cbn [negb]; [by rewrite IH|].
  unfold due in Ed. apply orb_false_iff in Ed as [En Ed]. apply Z.leb_gt in Ed.
  assert (Hlater : Forall (fun d' => due p now d' = false) q).
  { eapply Forall_impl; [|exact Hd]. intros d' Hd'. unfold due. rewrite En. cbn in *.
    apply Z.leb_gt. lia. }
  rewrite (keep_none (due p now)), (keep_all (fun d => negb (due p now d))); [done| |done].
  eapply Forall_impl; [|exact Hlater]. cbn. by intros d' ->.
Qed.

(** The scan of the deferred queue is exact: because every reachable
    state keeps the queue ordered by issue time, stopping at the first entry
    that is not due splits the queue into all the entries that are due, in
    order, and all those that are not. *)
Theorem ml_ready_scan_exact p g n s :
  ferretConfig p -> goodGeometry g -> Z.of_nat n < 2 ^ 64 - 3 -> reach p g n s ->
  ML.splitReady p (curCycle s) (deferredPrefetchQueue s) =
    (keep (due p (curCycle s)) (deferredPrefetchQueue s),
     keep (fun d => negb (due p (curCycle s) d)) (deferredPrefetchQueue s)).
Proof.
  intros Hcfg Hgeo Hn Hr. apply splitReady_due.
  apply (reachable_inv p g n s Hcfg Hgeo Hn Hr).
Qed.

Lemma ml_ready_scan_exact_witness :
  exists s, bootRun demoCfg demoGeo (take 12 demoOps) = Some (Ok s) /\
    length (deferredPrefetchQueue s) = 1%nat /\
    ML.splitReady demoCfg (curCycle s) (deferredPrefetchQueue s) =
      ([], deferredPrefetchQueue s).
Proof.
  eexists. split; [vm_compute; reflexivity|]. split; [vm_compute; reflexivity|].
  etransitivity; [apply (ml_ready_scan_exact demoCfg demoGeo (length (take 12 demoOps)))|].
  - exact demoCfg_ok.
  - exact demoGeo_ok.
  - cbn. lia.
  - apply bootRun_reach. vm_compute. reflexivity.
  - vm_compute. reflexivity.
Defined.

(** ** Which path is prefetched *)

(** With [newPBits], [applyNewPBitsLogic] never selects both paths.  It
    selects a path only for a branch seen in both directions, and then the one
    the predictor did not choose (the fall-through when taken, the target when
    not taken), or the fall-through of a call. *)
Theorem ml_pbits_alternate_path p type taken isBackward t thr loc s :
  newPBits p = true ->
  wp (ML.applyNewPBitsLogic p type taken isBackward t thr loc)
     (fun r _ => r = (false, false) \/
        (t = true /\ thr = true /\ r = (negb taken, taken)) \/
        (isCallType type = true /\ r = (false, true))) s.
Proof.
  intros Hnew. unfold ML.applyNewPBitsLogic. rewrite Hnew.
  assert (Hnone : forall s' : MLBTB, (fun (r : bool * bool) (_ : MLBTB) => r = (false, false) \/
        (t = true /\ thr = true /\ r = (negb taken, taken)) \/
        (isCallType type = true /\ r = (false, true))) (false, false) s') by auto.
  repeat first [ progress wp_steps | stat_step ]; try apply Hnone; cbn beta in *;
    repeat match goal with
           | H : _ && _ = true |- _ => apply andb_prop in H as [? ?]
           | H : negb _ = true |- _ => apply negb_true_iff in H
           | H : negb _ = false |- _ => apply negb_false_iff in H
           end; subst; try destruct taken; first [discriminate | auto].
Qed.

Lemma ml_pbits_alternate_path_witness :
  exists s, bootRun (demoCfg <| newPBits := true |>) demoGeo demoOps = Some (Ok s) /\
    wp (ML.applyNewPBitsLogic (demoCfg <| newPBits := true |>) DirectCond true false true true L2Hit)
     (fun r _ => r = (false, false) \/
        (true = true /\ true = true /\ r = (negb true, true)) \/
        (isCallType DirectCond = true /\ r = (false, true))) s.
Proof.
  eexists. split; [vm_compute; reflexivity|].
  apply (ml_pbits_alternate_path (demoCfg <| newPBits := true |>)). reflexivity.
Defined.

(** ** Chains end *)

(** A finished or replaced chain stops: an entry of the deferred queue
    whose chain has used its prefetches, or a follow-up entry whose slot of
    the chain table was given to another chain, is dropped without any
    effect. *)
Theorem ml_dead_chain_dropped p s entry c :
  df_chainId entry <> 0 -> 0 < maxChainTrackerEntries p ->
  chainTable s !! ML.chainIdx p (df_chainId entry) = Some c ->
  (ch_chainId c = df_chainId entry /\ ch_remainingPrefetches c = 0) \/
  (ch_chainId c <> df_chainId entry /\ df_allocateChain entry = false) ->
  ML.processEntry p entry s = Ok (tt, s).
Proof.
  intros Hid Hmax Hc Hdead.
  assert (H : wp (ML.processEntry p entry) (fun _ s' => s' = s) s).
  { unfold ML.processEntry, ML.checkChain. apply wp_bind.
    apply Z.eqb_neq in Hid. apply Z.ltb_lt in Hmax. rewrite Hid, Hmax. cbn [negb andb].
    apply wp_bind. unfold ML.readChain. apply wp_bind, wp_gets.
    eapply wp_at_index; [exact Hc|]. apply wp_ret. cbn [fst snd].
    destruct Hdead as [[E ->]|[E ->]].
    - rewrite E, Z.eqb_refl. cbn. by apply wp_ret.
    - apply Z.eqb_neq in E. rewrite E. cbn. by apply wp_ret. }
  destruct (wp_inv _ _ _ H) as ([] & s' & -> & ->). done.
Qed.

Lemma ml_dead_chain_dropped_witness :
  exists s e, bootRun demoCfg demoGeo demoOps = Some (Ok s) /\
    ML.processEntry demoCfg e s = Ok (tt, s).
Proof.
  eexists _, (mkDeferred 0x108 0 0 false false true DirectCond 5 false 1).
  split; [vm_compute; reflexivity|].
  eapply (ml_dead_chain_dropped demoCfg).
  - cbn. lia.
  - cbn. lia.
  - vm_compute. reflexivity.
  - right. split; [|reflexivity]. vm_compute. discriminate.
Defined.

(** A step of a chain: when the chain in slot [i] is advanced, its remaining count
    drops by exactly one and its identity stays; the step that brings it to zero
    queues no further prefetch. *)
Theorem ml_chain_decreases p g n s i c entry pf arrival :
  ferretConfig p -> goodGeometry g -> Z.of_nat n < 2 ^ 64 - 3 -> reach p g n s ->
  chainTable s !! i = Some c -> 0 < ch_remainingPrefetches c < 2 ^ 32 ->
  is_Some (bbMap_ s) -> is_Some (target pf) -> is_Some (inst pf) ->
  wp (ML.advanceChain p i entry pf arrival)
     (fun _ s' => exists c', chainTable s' !! i = Some c' /\ ch_chainId c' = ch_chainId c /\
        ch_remainingPrefetches c' = ch_remainingPrefetches c - 1 /\
        (ch_remainingPrefetches c' = 0 -> deferredPrefetchQueue s' = deferredPrefetchQueue s)) s.
Proof.
  intros Hcfg Hgeo Hn Hr Hc Hrem Hm [t Ht] [ins Hins].
  pose proof (i_levels _ _ _ _ (reachable_inv p g n s Hcfg Hgeo Hn Hr)) as Hlv.
  assert (Hlen : (i < length (chainTable s))%nat) by (by eapply lookup_lt_Some).
  unfold ML.advanceChain. apply wp_bind, wp_readChain; [done|]. intros c0 Hc0. simplify_eq.
  assert (E : (0 <? ch_remainingPrefetches c) = true) by (apply Z.ltb_lt; lia).
  rewrite E. cbn [negb]. apply wp_bind, wp_writeChain; [done|]. intros c0 Hc0. simplify_eq.
  set (c1 := setf ch_remainingPrefetches _ c).
  assert (E1 : ch_remainingPrefetches c1 = ch_remainingPrefetches c - 1).
  { cbn. apply u32_small. lia. }
  (* the states of the rest of the function *)
  set (P := fun s' : MLBTB => exists c', chainTable s' !! i = Some c' /\
    ch_chainId c' = ch_chainId c /\ ch_remainingPrefetches c' = ch_remainingPrefetches c - 1 /\
    (ch_remainingPrefetches c' = 0 -> deferredPrefetchQueue s' = deferredPrefetchQueue s) /\
    l2btb s' = l2btb s /\ l3btb s' = l3btb s /\ bbMap_ s' = bbMap_ s).
  assert (Pset : forall r s', P s' -> wp (ML.setEndReason i r) (fun _ => P) s').
  { intros r s' (c' & Hc' & K). apply wp_writeChain; [by eapply lookup_lt_Some|].
    intros c2 Hc2. simplify_eq. eexists.
    split; [cbn; apply list_lookup_insert_eq; by eapply lookup_lt_Some|done]. }
  assert (Pvia : forall addr isT byPB lat ty id s', ch_remainingPrefetches c - 1 <> 0 ->
    P s' -> wp (ML.prefetchViaBBMap p (df_tid entry) addr isT byPB 1 lat ty id false)
              (fun _ => P) s').
  { intros addr isT byPB lat ty id s' Hne (c' & Hc' & K1 & K2 & _ & K4 & K5 & K6).
    apply wp_prefetchViaBBMap; [rewrite K4; apply Hlv|rewrite K5; apply Hlv|by rewrite K6|].
    intros q _. exists c'. split_and!; try done. lia. }
  apply wp_bind, wp_readChain; [cbn; by rewrite length_insert|]. intros c2 Hc2.
  cbn [chainTable] in Hc2.
  assert (c2 = c1) as ->.
  { change (<[i:=c1]> (chainTable s) !! i = Some c2) in Hc2.
    rewrite list_lookup_insert_eq in Hc2 by done. congruence. }
  rewrite E1.
  assert (P0 : P (s <| chainTable := <[i := c1]> (chainTable s) |>)).
  { exists c1. split; [by apply list_lookup_insert_eq|]. done. }
  apply wp_bind. apply (wp_mono _ (fun _ => P)); [wp_step; [by apply Pset|done]|].
  intros [] s1 P1. apply wp_bind. eapply wp_deref; [exact Ht|].
  apply wp_bind, wp_gets, wp_bind. apply (wp_mono _ (fun _ => P)).
  { unfold lift. apply wp_lift with
      (a := if curCycle s1 <? arrival then u64 (arrival - curCycle s1) else 0); [|done].
    unfold Cyc.sub. destruct (Z.ltb_spec (curCycle s1) arrival); [|done].
    by destruct (Z.leb_spec (curCycle s1) arrival); [|lia]. }
  intros lat s2 P2. apply wp_bind. eapply wp_deref; [exact Hins|]. apply wp_bind.
  assert (Hne : forall b b', b && negb (ch_remainingPrefetches c - 1 =? 0) && b' = true ->
            ch_remainingPrefetches c - 1 <> 0).
  { intros b b' H. apply andb_prop in H as [H _]. apply andb_prop in H as [_ H].
    by apply negb_true_iff, Z.eqb_neq in H. }
  apply (wp_mono _ (fun _ => P)).
  { wp_step; [|done]. apply wp_bind. eapply wp_mono; [by eapply Pvia; eauto|].
    intros [] s3 P3. wp_step; [by apply Pset|done]. }
  intros [] s3 P3. apply (wp_mono _ (fun _ => P)).
  { wp_step; [|done]. by eapply Pvia; eauto. }
  intros [] s4 (c' & ? & ? & ? & ? & _). by exists c'.
Qed.

Definition demoPf : BTBEntry :=
  Entry.init <| target := Some (mkPC 0x3000 0) |> <| inst := Some condInst |>.

Lemma ml_chain_decreases_witness :
  exists s c, bootRun demoCfg demoGeo demoOps = Some (Ok s) /\
    chainTable s !! 1%nat = Some c /\ ch_remainingPrefetches c = 1 /\
    wp (ML.advanceChain demoCfg 1 (mkDeferred 0x104 0 9 false false true DirectCond 1 false 1)
          demoPf 12)
     (fun _ s' => exists c', chainTable s' !! 1%nat = Some c' /\ ch_chainId c' = ch_chainId c /\
        ch_remainingPrefetches c' = ch_remainingPrefetches c - 1 /\
        (ch_remainingPrefetches c' = 0 -> deferredPrefetchQueue s' = deferredPrefetchQueue s)) s.
Proof.
  eexists _, _. split; [vm_compute; reflexivity|]. split; [vm_compute; reflexivity|].
  split; [vm_compute; reflexivity|].
  apply (ml_chain_decreases demoCfg demoGeo (length demoOps)).
  - exact demoCfg_ok.
  - exact demoGeo_ok.
  - cbn. lia.
  - apply bootRun_reach. vm_compute. reflexivity.
  - vm_compute. reflexivity.
  - cbn. lia.
  - by eexists.
  - by eexists.
  - by eexists.
Defined.

(** [C36] A prefetch chain issues at most its depth, in a ferretConfig configuration with the prefetch
    bit policy, a basic-block map and at least one chain-tracker entry, whose slot for the chain has a
    32-bit count: take any sequence of ready entries of the deferred queue, of chain c (started with
    depth d >= 1) and of chains in other slots of the chain table, in any order; in every reachable
    state processing them succeeds, and the number of prefetches issued for the entries of c together
    with what c may still issue afterwards is at most what it might issue before: its remaining count if
    it holds its slot, and d if it has none yet. *)
Theorem ml_chain_bounded p g n s c d l :
  ferretConfig p -> goodGeometry g -> Z.of_nat n < 2 ^ 64 - 3 -> reach p g n s ->
  ML.usesPrefetchBitPolicy p = true -> 0 < maxChainTrackerEntries p -> is_Some (bbMap_ s) ->
  c <> 0 -> 1 <= d < 2 ^ 32 ->
  (forall ch, chainTable s !! ML.chainIdx p c = Some ch -> 0 <= ch_remainingPrefetches ch < 2 ^ 32) ->
  Forall (chainEntry p c d (curCycle s)) l ->
  wp (chainRun p c l)
     (fun k s' => 0 <= k /\ 0 <= budget p c d s' /\ k + budget p c d s' <= budget p c d s) s.
Proof.
  intros Hcfg Hgeo Hn Hr Hp Hmax Hm Hc Hd Hrem Hl.
  eapply (wp_chainRun p Hcfg _ c d (Z.of_nat n)); try done; [exact (reachable_inv p g n s Hcfg Hgeo Hn Hr)|].
  unfold budget, budgetOf, view. destruct (chainTable s !! ML.chainIdx p c) as [ch|]; [|cbn; lia].
  cbn. specialize (Hrem ch eq_refl). destruct (_ =? _); lia.
Qed.

(** A chain that starts with depth 2, and a follow-up entry *)
Definition demoChain : list DeferredPrefetchEntry :=
  [mkDeferred 0x108 0 0 false false true DirectCond 6 true 2;
   mkDeferred 0x104 0 0 false false true DirectCond 6 false 1].

Lemma ml_chain_bounded_witness :
  exists s, bootRun demoCfg demoGeo demoOps = Some (Ok s) /\ budget demoCfg 6 2 s = 2 /\
    wp (chainRun demoCfg 6 demoChain)
     (fun k s' => 0 <= k /\ 0 <= budget demoCfg 6 2 s' /\ k + budget demoCfg 6 2 s' <= budget demoCfg 6 2 s) s.
Proof.
  eexists. split; [vm_compute; reflexivity|]. split; [vm_compute; reflexivity|].
  apply (ml_chain_bounded demoCfg demoGeo (length demoOps)).
  - exact demoCfg_ok.
  - exact demoGeo_ok.
  - cbn. lia.
  - apply bootRun_reach. vm_compute. reflexivity.
  - reflexivity.
  - reflexivity.
  - by eexists.
  - done.
  - done.
  - intros ch E.
    assert (E' : Some (mkChain 0 0 CE_None) = Some ch) by exact E. by injection E' as <-.
  - constructor; [|constructor; [|constructor]]; (constructor; [split; [split_and!|]| |]; cbn; try done; vm_compute; congruence).
Defined.

(** ** The Markov table *)

Lemma insertByFreq_perm x l : insertByFreq x l ≡ₚ x :: l.
Proof.
  induction l as [|y l IH]; cbn; [done|]. destruct (_ <? _); [done|].
  rewrite IH. apply Permutation_swap.
Qed.

Lemma sortByFreq_perm l : sortByFreq l ≡ₚ l.
Proof.
  unfold sortByFreq. enough (H : forall acc, foldl (fun acc x => insertByFreq x acc) acc l ≡ₚ l ++ acc).
  { rewrite H. by rewrite app_nil_r. }
  induction l as [|x l IH]; intros acc; cbn; [done|].
  rewrite IH, insertByFreq_perm. symmetry. apply Permutation_middle.
Qed.

(** The successors of a Markov entry stay within
    [maxMarkovSuccessors]: training a successor succeeds (the [assert] and
    [pop_back] are safe) whenever the list is within the bound and the bound
    is positive; the new successor is then in the list, a successor already
    there is counted once more, and the list is within the bound again. *)
Theorem ml_markov_successors_bounded p dest l :
  0 < maxMarkovSuccessors p < 2 ^ 31 ->
  Z.of_nat (length l) <= maxMarkovSuccessors p ->
  exists l', ML.addSuccessor p dest l = Ok l' /\
    Z.of_nat (length l') <= maxMarkovSuccessors p /\ dest ∈ l'.*1.
Proof.
  intros Hmax Hl. unfold ML.addSuccessor. rewrite u64_small by lia.
  destruct (find_index (fun a => fst a =? dest) l) as [i|] eqn:Ef.
  - destruct (find_index_Some _ _ _ Ef) as (x & Hx & E). apply Z.eqb_eq in E.
    eexists. split; [done|]. rewrite length_alter. split; [done|].
    apply list_elem_of_fmap. exists (fst x, u64 (snd x + 1)). split; [done|].
    apply list_elem_of_lookup. exists i. by rewrite list_lookup_alter_eq, Hx.
  - assert (Hin : forall k : list (Addr * Z), dest ∈ (k ++ [(dest, 1)]).*1).
    { intros k. rewrite fmap_app. apply elem_of_app. right. by apply list_elem_of_singleton. }
    destruct (Z.leb_spec (maxMarkovSuccessors p) (Z.of_nat (length l))).
    + pose proof (Permutation_length (sortByFreq_perm l)) as Hlen.
      rewrite bool_decide_false by (intros E; rewrite E in Hlen; cbn in Hlen; lia).
      unfold mbind, Res_bind.
      assert (Ht : length (take (length (sortByFreq l) - 1) (sortByFreq l)) = (length l - 1)%nat).
      { rewrite length_take. lia. }
      rewrite Ht. destruct (Z.ltb_spec (Z.of_nat (length l - 1)) (maxMarkovSuccessors p)); [|lia].
      eexists. split; [done|]. rewrite length_app, Ht. cbn. split; [lia|]. apply Hin.
    + unfold mbind, Res_bind.
      destruct (Z.ltb_spec (Z.of_nat (length l)) (maxMarkovSuccessors p)); [|lia].
      eexists. split; [done|]. rewrite length_app. cbn. split; [lia|]. apply Hin.
Qed.

Lemma ml_markov_successors_bounded_witness :
  exists l', ML.addSuccessor demoCfg 0x40 [(1, 3); (2, 1); (3, 7); (4, 2)] = Ok l' /\
    Z.of_nat (length l') <= 4 /\ 0x40 ∈ l'.*1.
Proof. apply (ml_markov_successors_bounded demoCfg); cbn; lia. Defined.

(** ** Runs that fault or mislead *)

(** The configuration [l3Latency = 8] of the experiments. *)
Definition lateCfg : MLParams := demoCfg <| l3Latency := 8 |>.
Definition lateOps : list Op :=
  [OpSetBBMap {[ 0x2000 := 0x104 ]}; tick; upd 0 0x104 0x3000; tick; upd 0 0x1000 0x2000; tick;
   upd 0 0x10c 0x3000; tick; upd 0 0x114 0x3000; tick; upd 0 0x11c 0x3000; tick;
   upd 0 0x108 0x3000; tick; upd 0 0x118 0x3000; tick; look 0 0x1000;
   tick; tick; tick; tick; tick; tick; tick; tick; tick; look 0 0x104].

(** The bound of five cycles in [ml_no_fault] is needed: with
    [l3Latency = 8], a branch prefetched from the L3 BTB and looked up when
    five or more of the eight cycles are covered indexes the five-bucket
    lateness histogram out of range, and the simulator stops on an assertion. *)
Theorem ml_l3_lateness_out_of_range :
  bootRun lateCfg demoGeo lateOps = Some (Err AssertFail).
Proof. vm_compute. reflexivity. Qed.

(** The same geometry with the Markov prefetcher. *)
Definition markovCfg : MLParams := demoCfg <| limitedMarkov := true |>.
Definition markovOps : list Op :=
  [tick; upd 0 0x1000 0x2000; tick; upd 0 0x104 0x3000; tick; upd 0 0x108 0x3000; tick;
   upd 0 0x10c 0x3000; tick; OpTrainMarkov 0 0x1000 true; OpTrainMarkov 0 0x108 true;
   OpTrainMarkov 0 0x10c true; OpTrainMarkov 0 0x110 true; OpTrainMarkov 0 0x104 true; tick;
   look 0 0x1000; look 0 0x104].

(** With the Markov prefetcher the cycle arithmetic of a prefetch buffer
    hit can throw: a Markov prefetch arrives [l2Latency + baseLatency] cycles
    after its trigger, so a lookup in the first [baseLatency] cycles computes
    [l2Latency - remainingTime] with the larger number on the right. *)
Theorem ml_markov_lateness_throws :
  bootRun markovCfg demoGeo markovOps = Some (Err InvalidArgument).
Proof. vm_compute. reflexivity. Qed.

(** Way [v] of the L1 BTB is the only place of the first two levels that can
    answer for [key]. *)
Definition only_copy (s : MLBTB) (v : nat) (key : BTBKey) : Prop :=
  (forall w e, entries (l1btb s) !! w = Some e -> w <> v ->
     Entry.matches (AC.extractTag (K:=BTBKey) (l1btb s)) key e = false) /\
  AC.get (l2btb s) key = None.

(** A way is overwritten by a branch of another thread: it no longer answers. *)
Lemma get_lost (c c' : BTBCache) v e key :
  AC.same_shape c c' -> entries c' = <[v := e]> (entries c) ->
  (forall w ew, w ∈ AC.candidates (indexingPolicy c) key -> entries c !! w = Some ew -> w <> v ->
     Entry.matches (AC.extractTag (K:=BTBKey) c) key ew = false) ->
  key_tid (tag e) <> key_tid key -> AC.get c' key = None.
Proof.
  intros Hs He Hother Ht. apply AC.find_None_get, AC.find_in_None. intros w ew Hc Hw. rewrite He in Hw.
  destruct Hs as (Ei & _). rewrite Ei in Hc. rewrite list_lookup_insert in Hw. case_decide.
  - injection Hw as <-. cbn. unfold Entry.matches. by rewrite (proj2 (Z.eqb_neq _ _) Ht), andb_false_r.
  - cbn. unfold AC.extractTag. rewrite Ei. apply (Hother w); [done..|].
    intros ->. apply H. split; [done|]. by eapply lookup_lt_Some.
Qed.


Definition threadOps : list Op :=
  [tick; upd 1 0x1000 0x2000; tick; upd 1 0x104 0x2000; tick; upd 0 0x108 0x3000].

(** A run of that kind: thread 0's update evicts a branch of thread 1 *)
Theorem ml_cross_thread_run :
  exists s, bootRun demoCfg demoGeo threadOps = Some (Ok s) /\
    resMap fst (ML.valid demoCfg 0 0x1000 s) = Ok true /\
    resMap fst (ML.valid demoCfg 1 0x1000 s) = Ok false.
Proof. eexists. split; [vm_compute; reflexivity|]. split; vm_compute; reflexivity. Qed.

