(* ===== verification/Ras.v ===== *)
(** * The return address stack

    [cpu/pred/ras.hh] and [ras.cc]: the circular [AddrStack] of a thread, the
    history object of a branch, and the operations of [ReturnAddrStack].  The
    abstract stack [contents] is the list of the used entries, the top first;
    [push], [pop] and [squash] refine the stack operations on it. *)

From Stdlib Require Import ZArith Lia.
From stdpp Require Import base list numbers.
From S2P Require Import Prelude Types.

(** ** AddrStack *)
Record AddrStack := mkAddrStack {
  addrStack : list (option PCStateBase);
  as_numEntries : Z;
  usedEntries : Z;
  tos : Z
}.

#[export] Instance eta_AddrStack : Settable AddrStack := fun s =>
  mkAddrStack (addrStack s) (as_numEntries s) (usedEntries s) (tos s).

Module Stack.
Definition reset (s : AddrStack) : AddrStack :=
  s <| usedEntries := 0 |> <| tos := 0 |>.

Definition init (_numEntries : Z) : AddrStack :=
  reset (mkAddrStack (replicate (Z.to_nat _numEntries) None) _numEntries 0 0).

Definition top : M AddrStack (option PCStateBase) :=
  o ← gets (fun s => addrStack s !! Z.to_nat (tos s)); at_index o.

Definition incrTos : M AddrStack unit :=
  modify (fun s =>
    let t := u32 (tos s + 1) in
    s <| tos := if t =? as_numEntries s then 0 else t |>).

Definition decrTos : M AddrStack unit :=
  modify (fun s =>
    s <| tos := if tos s =? 0 then u32 (as_numEntries s - 1) else tos s - 1 |>).

(** [set(addrStack[tos], v)] *)
Definition setTop (v : option PCStateBase) : M AddrStack unit :=
  old ← top;
  modify (fun s => s <| addrStack ::= <[Z.to_nat (tos s) := PCS.set old v]> |>).

Definition push (return_addr : PCStateBase) : M AddrStack unit :=
  incrTos ;;
  setTop (Some return_addr) ;;
  modify (fun s =>
    if usedEntries s =? as_numEntries s then s else s <| usedEntries ::= fun u => u32 (u + 1) |>).

Definition pop : M AddrStack unit :=
  modify (fun s =>
    if 0 <? usedEntries s then s <| usedEntries ::= fun u => u - 1 |> else s) ;;
  decrTos.

Definition restore (_tos : Z) (restored : option PCStateBase) : M AddrStack unit :=
  modify (fun s => s <| tos := _tos |>) ;;
  setTop restored ;;
  modify (fun s =>
    if usedEntries s =? as_numEntries s then s else s <| usedEntries ::= fun u => u32 (u + 1) |>).

Definition empty (s : AddrStack) : bool := usedEntries s =? 0.
Definition full (s : AddrStack) : bool := as_numEntries s <=? usedEntries s.
End Stack.

(** ** ReturnAddrStack *)

(** [class RASHistory]; [None] is the null pointer. *)
Record RASHistory := mkRASHistory {
  pushed : bool;
  poped : bool;
  wasReturn : bool;
  wasCall : bool;
  ras_entry : option PCStateBase;
  rh_tos : Z
}.

#[export] Instance eta_RASHistory : Settable RASHistory := fun h =>
  mkRASHistory (pushed h) (poped h) (wasReturn h) (wasCall h) (ras_entry h) (rh_tos h).

Inductive RASStat := RS_pushes | RS_pops | RS_squashes | RS_used | RS_correct | RS_incorrect.

Record ReturnAddrStack := mkRAS {
  addrStacks : list AddrStack;
  ras_numEntries : Z;
  ras_numThreads : Z;
  ras_stats : list RASStat
}.

#[export] Instance eta_ReturnAddrStack : Settable ReturnAddrStack := fun s =>
  mkRAS (addrStacks s) (ras_numEntries s) (ras_numThreads s) (ras_stats s).

Module RAS.
Definition make (numEntries numThreads : Z) : ReturnAddrStack :=
  mkRAS (replicate (Z.to_nat numThreads) (Stack.init numEntries)) numEntries numThreads [].

Definition reset : M ReturnAddrStack unit :=
  modify (fun s => s <| addrStacks ::= fmap Stack.reset |>).

Definition stat (x : RASStat) : M ReturnAddrStack unit :=
  modify (fun s => s <| ras_stats ::= cons x |>).

Definition makeRASHistory : RASHistory := mkRASHistory false false false false None 0.

(** The history object of the branch, made if there is none. *)
Definition history (h : option RASHistory) : RASHistory :=
  match h with Some h => h | None => makeRASHistory end.

(** [addrStacks[tid]] *)
Definition onStack {A} (tid : ThreadID) (m : M AddrStack A) : M ReturnAddrStack A :=
  o ← gets (fun s => addrStacks s !! Z.to_nat tid);
  st ← at_index o;
  r ← lift (m st);
  modify (fun s => s <| addrStacks ::= <[Z.to_nat tid := snd r]> |>) ;;
  mret (fst r).

Definition push (tid : ThreadID) (pc : PCStateBase) (ras_history : option RASHistory)
  : M ReturnAddrStack (option RASHistory) :=
  let h := history ras_history in
  stat RS_pushes ;;
  onStack tid (Stack.push pc) ;;
  mret (Some (h <| pushed := true |>)).

(** The popped address is returned with the history. *)
Definition pop (tid : ThreadID) (ras_history : option RASHistory)
  : M ReturnAddrStack (option PCStateBase * option RASHistory) :=
  let h := history ras_history in
  stat RS_pops ;;
  t ← onStack tid (gets tos);
  top ← onStack tid Stack.top;
  let h := h <| poped := true |> <| rh_tos := t |> <| ras_entry ::= fun e => PCS.set e top |> in
  onStack tid Stack.pop ;;
  mret (ras_entry h, Some h).

Definition squash (tid : ThreadID) (ras_history : option RASHistory)
  : M ReturnAddrStack (option RASHistory) :=
  match ras_history with
  | None => mret None
  | Some h =>
      stat RS_squashes ;;
      when (pushed h) (stat RS_pops ;; onStack tid Stack.pop) ;;
      when (poped h) (stat RS_pushes ;; onStack tid (Stack.restore (rh_tos h) (ras_entry h))) ;;
      mret None
  end.

Definition commit (tid : ThreadID) (misp : bool) (brType : BranchType)
    (ras_history : option RASHistory) : M ReturnAddrStack (option RASHistory) :=
  if negb (bool_decide (brType = Return) || bool_decide (brType = CallDirect) ||
           bool_decide (brType = CallIndirect)) then
    match ras_history with
    | None => mret None
    | Some _ => fault AssertFail
    end
  else
  match ras_history with
  | None => mret None
  | Some h =>
      when (poped h)
        (stat RS_used ;; if misp then stat RS_incorrect else stat RS_correct) ;;
      mret None
  end.
End RAS.

(** ** The abstract stack *)

Module StackSpec.
(** A stack of at least one entry, with its indices in range. *)
Record wf (s : AddrStack) : Prop := {
  wf_len : length (addrStack s) = Z.to_nat (as_numEntries s);
  wf_num : 0 < as_numEntries s < 2 ^ 32;
  wf_used : 0 <= usedEntries s <= as_numEntries s;
  wf_tos : 0 <= tos s < as_numEntries s
}.

(** The index [k] entries below the top. *)
Definition below (s : AddrStack) (k : nat) : nat :=
  Z.to_nat ((tos s - Z.of_nat k) mod as_numEntries s).

(** The entry [k] below the top. *)
Definition nth (s : AddrStack) (k : nat) : option PCStateBase :=
  default None (addrStack s !! below s k).

(** The used entries, the top first. *)
Definition contents (s : AddrStack) : list (option PCStateBase) :=
  nth s <$> seq 0 (Z.to_nat (usedEntries s)).

Lemma below_lt s k : wf s -> (below s k < length (addrStack s))%nat.
Proof.
  intros Hs. rewrite (wf_len _ Hs). unfold below.
  pose proof (Z.mod_pos_bound (tos s - Z.of_nat k) _ (proj1 (wf_num _ Hs))). lia.
Qed.

Lemma below_0 s : wf s -> below s 0 = Z.to_nat (tos s).
Proof.
  intros Hs. unfold below. pose proof (wf_tos _ Hs). rewrite Z.sub_0_r, Z.mod_small by done. done.
Qed.

(** Distinct depths up to the capacity are distinct slots. *)
Lemma below_inj s j k :
  wf s -> (j < length (addrStack s))%nat -> (k < length (addrStack s))%nat ->
  below s j = below s k -> j = k.
Proof.
  intros Hs Hj Hk. rewrite (wf_len _ Hs) in *. unfold below. intros E.
  pose proof (wf_num _ Hs) as Hn.
  pose proof (Z.mod_pos_bound (tos s - Z.of_nat j) _ (proj1 Hn)).
  pose proof (Z.mod_pos_bound (tos s - Z.of_nat k) _ (proj1 Hn)).
  assert (Em : (tos s - Z.of_nat j) mod as_numEntries s = (tos s - Z.of_nat k) mod as_numEntries s)
    by lia.
  pose proof (Z.div_mod (tos s - Z.of_nat j) (as_numEntries s)).
  pose proof (Z.div_mod (tos s - Z.of_nat k) (as_numEntries s)).
  assert (Hd : as_numEntries s * ((tos s - Z.of_nat j) / as_numEntries s
             - (tos s - Z.of_nat k) / as_numEntries s) = Z.of_nat k - Z.of_nat j) by lia.
  set (q := (tos s - Z.of_nat j) / as_numEntries s - (tos s - Z.of_nat k) / as_numEntries s) in *.
  assert (q = 0) by nia. lia.
Qed.

(** *** Writing the top *)

Lemma wp_setTop v s (Q : unit -> AddrStack -> Prop) :
  wf s ->
  Q tt (s <| addrStack ::= <[Z.to_nat (tos s) := v]> |>) -> wp (Stack.setTop v) Q s.
Proof.
  intros Hs HQ. unfold Stack.setTop, Stack.top.
  destruct (lookup_lt_is_Some_2 (addrStack s) (Z.to_nat (tos s))) as [old Hold].
  { rewrite <- below_0 by done. by apply below_lt. }
  wp_steps. eapply wp_at_index; [exact Hold|]. wp_steps.
  assert (E : PCS.set old v = v) by (by destruct old as [[]|], v as [[]|]).
  by rewrite E.
Qed.

(** The new top over the entries below it. *)
Lemma contents_write s v u :
  wf s -> 0 <= u < as_numEntries s ->
  nth (s <| addrStack ::= <[Z.to_nat (tos s) := v]> |> <| usedEntries := u + 1 |>) <$>
      seq 0 (Z.to_nat (u + 1)) =
    v :: (nth s <$> seq 1 (Z.to_nat u)).
Proof.
  intros Hs Hu. replace (Z.to_nat (u + 1)) with (S (Z.to_nat u)) by lia.
  cbn [seq fmap list_fmap]. f_equal.
  - unfold nth. cbn [addrStack]. unfold setf. cbn.
    change (below _ 0) with (below s 0). rewrite below_0 by done.
    rewrite list_lookup_insert_eq; [done|]. rewrite <- below_0 by done. by apply below_lt.
  - apply list_fmap_ext. intros i k Hk. apply lookup_seq in Hk as [-> Hi].
    unfold nth. cbn. rewrite list_lookup_insert_ne; [done|].
    rewrite <- below_0 by done. intros E. change (below s 0 = below s (S i)) in E.
    pose proof (wf_len _ Hs). apply below_inj in E; [done|done|lia|lia].
Qed.

(** *** Moving the top *)

Definition next (s : AddrStack) : Z := (tos s + 1) mod as_numEntries s.
Definition prev (s : AddrStack) : Z := (tos s - 1) mod as_numEntries s.

Lemma incr_next s : wf s ->
  (if u32 (tos s + 1) =? as_numEntries s then 0 else u32 (tos s + 1)) = next s.
Proof.
  intros Hs. pose proof (wf_tos _ Hs). pose proof (wf_num _ Hs). unfold next.
  destruct (Z.eq_dec (tos s + 1) (as_numEntries s)) as [E|E].
  - rewrite E, Z_mod_same_full. unfold u32.
    by rewrite Z.mod_small, Z.eqb_refl by lia.
  - rewrite u32_small, Z.mod_small by lia. destruct (Z.eqb_spec (tos s + 1) (as_numEntries s)); lia.
Qed.

Lemma decr_prev s : wf s ->
  (if tos s =? 0 then u32 (as_numEntries s - 1) else tos s - 1) = prev s.
Proof.
  intros Hs. pose proof (wf_tos _ Hs). pose proof (wf_num _ Hs). unfold prev.
  destruct (Z.eqb_spec (tos s) 0) as [->|].
  - rewrite u32_small by lia. replace (0 - 1) with (as_numEntries s - 1 + (-1) * as_numEntries s) by lia.
    rewrite Z_mod_plus_full, Z.mod_small by lia. done.
  - by rewrite Z.mod_small by lia.
Qed.

Lemma next_range s : wf s -> 0 <= next s < as_numEntries s.
Proof. intros Hs. apply Z.mod_pos_bound, (wf_num _ Hs). Qed.
Lemma prev_range s : wf s -> 0 <= prev s < as_numEntries s.
Proof. intros Hs. apply Z.mod_pos_bound, (wf_num _ Hs). Qed.

Lemma next_prev s : wf s -> (prev s + 1) mod as_numEntries s = tos s.
Proof.
  intros Hs. unfold prev. rewrite Zplus_mod_idemp_l. rewrite Z.sub_add.
  apply Z.mod_small, (wf_tos _ Hs).
Qed.

Lemma prev_next s : wf s -> (next s - 1) mod as_numEntries s = tos s.
Proof.
  intros Hs. unfold next. rewrite Zminus_mod_idemp_l. rewrite Z.add_simpl_r.
  apply Z.mod_small, (wf_tos _ Hs).
Qed.

Lemma nth_next s k : nth (s <| tos := next s |>) (S k) = nth s k.
Proof.
  unfold nth, below, next. cbn. do 3 f_equal. rewrite Zminus_mod_idemp_l. f_equal. lia.
Qed.
Lemma nth_prev s k : nth (s <| tos := prev s |>) k = nth s (S k).
Proof.
  unfold nth, below, prev. cbn. do 3 f_equal. rewrite Zminus_mod_idemp_l. f_equal. lia.
Qed.

Lemma nth_next_seq s m : nth (s <| tos := next s |>) <$> seq 1 m = nth s <$> seq 0 m.
Proof.
  rewrite <- seq_shift, <- list_fmap_compose. apply list_fmap_ext.
  intros i k _. apply nth_next.
Qed.

(** *** The operations *)

(** The common end of [push] and [restore], from the new top of the stack. *)
Lemma wp_grow v s (Q : unit -> AddrStack -> Prop) :
  wf s ->
  (forall s', wf s' -> as_numEntries s' = as_numEntries s -> tos s' = next s ->
     contents s' = take (Z.to_nat (as_numEntries s)) (v :: contents s) -> Q tt s') ->
  wp (Stack.setTop v ;;
      modify (fun s => if usedEntries s =? as_numEntries s then s
                       else s <| usedEntries ::= fun u => u32 (u + 1) |>)) Q
     (s <| tos := next s |>).
Proof.
  intros Hs HQ. set (s1 := s <| tos := next s |>).
  pose proof (next_range s Hs) as Hnx.
  assert (Hs1 : wf s1) by (destruct Hs; by split).
  pose proof (wf_num _ Hs) as Hn. pose proof (wf_used _ Hs) as Hu.
  apply wp_bind, wp_setTop; [done|]. apply wp_modify. cbn [usedEntries as_numEntries].
  set (s2 := setf addrStack _ s1).
  change (usedEntries s2) with (usedEntries s). change (as_numEntries s2) with (as_numEntries s).
  set (u := Z.min (usedEntries s) (as_numEntries s - 1)).
  assert (E2 : (if usedEntries s =? as_numEntries s then s2
                else s2 <| usedEntries ::= fun u => u32 (u + 1) |>) =
               s2 <| usedEntries := u + 1 |>).
  { destruct (Z.eqb_spec (usedEntries s) (as_numEntries s)) as [E|E].
    - replace (u + 1) with (usedEntries s2); [by destruct s|]. cbn. lia.
    - rewrite <- (u32_small (u + 1)) by lia. by replace u with (usedEntries s) by lia. }
  rewrite E2. apply HQ; [|done|done|].
  - destruct Hs1. split; cbn in *; try done; [by rewrite length_insert|lia].
  - etransitivity; [apply (contents_write s1 v u Hs1); cbn; lia|].
    unfold s1. rewrite nth_next_seq.
    destruct (Z.to_nat (as_numEntries s)) as [|m] eqn:Em; [lia|]. cbn [take]. f_equal.
    unfold contents. rewrite <- fmap_take, take_seq. do 2 f_equal. lia.
Qed.

Lemma wp_push a s (Q : unit -> AddrStack -> Prop) :
  wf s ->
  (forall s', wf s' -> as_numEntries s' = as_numEntries s -> tos s' = next s ->
     contents s' = take (Z.to_nat (as_numEntries s)) (Some a :: contents s) -> Q tt s') ->
  wp (Stack.push a) Q s.
Proof.
  intros Hs HQ. unfold Stack.push, Stack.incrTos. apply wp_bind, wp_modify.
  rewrite (incr_next s Hs). by apply wp_grow.
Qed.

Lemma wp_restore v s (Q : unit -> AddrStack -> Prop) :
  wf s ->
  (forall s', wf s' -> as_numEntries s' = as_numEntries s -> tos s' = next s ->
     contents s' = take (Z.to_nat (as_numEntries s)) (v :: contents s) -> Q tt s') ->
  wp (Stack.restore (next s) v) Q s.
Proof.
  intros Hs HQ. unfold Stack.restore. apply wp_bind, wp_modify. by apply wp_grow.
Qed.

Lemma wp_pop s (Q : unit -> AddrStack -> Prop) :
  wf s ->
  (forall s', wf s' -> as_numEntries s' = as_numEntries s -> tos s' = prev s ->
     contents s' = tail (contents s) -> Q tt s') ->
  wp Stack.pop Q s.
Proof.
  intros Hs HQ. unfold Stack.pop, Stack.decrTos. apply wp_bind, wp_modify, wp_modify.
  set (s1 := if 0 <? usedEntries s then _ else _).
  pose proof (wf_used _ Hs) as Hu.
  assert (E1 : s1 = s <| usedEntries := Z.max 0 (usedEntries s - 1) |>).
  { unfold s1. destruct (Z.ltb_spec 0 (usedEntries s)).
    - unfold setf. f_equal. lia.
    - replace (Z.max 0 (usedEntries s - 1)) with (usedEntries s) by lia. by destruct s. }
  rewrite E1. cbn [tos as_numEntries]. unfold setf at 1. cbn.
  change (if tos s =? 0 then _ else _)
    with (if tos s =? 0 then u32 (as_numEntries s - 1) else tos s - 1).
  rewrite (decr_prev s Hs). apply HQ; [|done|done|].
  - pose proof (prev_range s Hs). destruct Hs. split; cbn; try done. lia.
  - unfold contents. cbn.
    transitivity (nth (s <| tos := prev s |>) <$> seq 0 (Z.to_nat (Z.max 0 (usedEntries s - 1)))).
    { done. }
    replace (Z.to_nat (Z.max 0 (usedEntries s - 1))) with (Z.to_nat (usedEntries s) - 1)%nat by lia.
    destruct (Z.to_nat (usedEntries s)) as [|m]; [done|]. cbn [seq fmap list_fmap tail].
    rewrite Nat.sub_succ, Nat.sub_0_r, <- seq_shift, <- list_fmap_compose.
    apply list_fmap_ext. intros i k _. apply nth_prev.
Qed.

Lemma wp_top s (Q : option PCStateBase -> AddrStack -> Prop) :
  wf s -> (forall v, (0 < usedEntries s -> head (contents s) = Some v) -> Q v s) ->
  wp Stack.top Q s.
Proof.
  intros Hs HQ. unfold Stack.top. apply wp_bind, wp_gets.
  destruct (lookup_lt_is_Some_2 (addrStack s) (Z.to_nat (tos s))) as [v Hv].
  { rewrite <- below_0 by done. by apply below_lt. }
  eapply wp_at_index; [exact Hv|]. apply HQ. intros Hu. unfold contents.
  destruct (Z.to_nat (usedEntries s)) as [|m] eqn:E; [lia|]. cbn.
  unfold nth. by rewrite below_0, Hv by done.
Qed.
End StackSpec.

(** ** The return address stack of a thread *)

Module RasSpec.
Import StackSpec.

Record inv (s : ReturnAddrStack) : Prop := {
  inv_stacks : Forall wf (addrStacks s)
}.

Lemma ras_make_inv n threads : 0 < n < 2 ^ 32 -> inv (RAS.make n threads).
Proof.
  intros Hn. split. cbn. apply Forall_replicate.
  split; cbn; [by rewrite length_replicate|lia|lia|lia].
Qed.

Lemma wp_onStack {A} tid (m : M AddrStack A) s st (Q : A -> ReturnAddrStack -> Prop) :
  addrStacks s !! Z.to_nat tid = Some st ->
  wp m (fun a st' => Q a (s <| addrStacks ::= <[Z.to_nat tid := st']> |>)) st ->
  wp (RAS.onStack tid m) Q s.
Proof.
  intros Hst Hm. destruct (wp_inv _ _ _ Hm) as (a & st' & E & HQ).
  unfold RAS.onStack. wp_steps. eapply wp_at_index; [exact Hst|]. apply wp_bind.
  eapply wp_lift; [exact E|]. wp_steps. exact HQ.
Qed.

(** The state in which thread [tid] has the stack [st]. *)
Definition holds (tid : ThreadID) (s : ReturnAddrStack) (st : AddrStack) : Prop :=
  addrStacks s !! Z.to_nat tid = Some st /\ wf st.

(** [s'] differs from [s] in the stack of [tid] and the counters only. *)
Definition frame (tid : ThreadID) (s s' : ReturnAddrStack) : Prop :=
  forall t, t <> Z.to_nat tid -> addrStacks s' !! t = addrStacks s !! t.

Lemma holds_set tid s st st' :
  holds tid s st -> wf st' -> holds tid (s <| addrStacks ::= <[Z.to_nat tid := st']> |>) st'.
Proof.
  intros [H _] Hw. split; [|done]. apply list_lookup_insert_eq. by eapply lookup_lt_Some.
Qed.

Lemma frame_set tid s st' : frame tid s (s <| addrStacks ::= <[Z.to_nat tid := st']> |>).
Proof. intros t Ht. by apply list_lookup_insert_ne. Qed.

Lemma frame_trans tid s1 s2 s3 : frame tid s1 s2 -> frame tid s2 s3 -> frame tid s1 s3.
Proof. intros H1 H2 t Ht. by rewrite H2, H1. Qed.

(** A stack operation with its rule, on the stack of a thread. *)
Lemma wp_thread {A} tid (m : M AddrStack A) s st (P : A -> AddrStack -> Prop) :
  holds tid s st -> wp m (fun a st' => wf st' /\ P a st') st ->
  wp (RAS.onStack tid m)
     (fun a s' => exists st', holds tid s' st' /\ frame tid s s' /\ P a st') s.
Proof.
  intros Hh Hm. eapply wp_onStack; [apply Hh|]. eapply wp_mono; [exact Hm|].
  intros a st' [Hw HP]. exists st'. split; [by eapply holds_set|]. split; [apply frame_set|done].
Qed.

(** *** Calls and returns *)
Inductive RasOp := Call (pc : PCStateBase) | Ret.

Definition perform (tid : ThreadID) (o : RasOp)
  : M ReturnAddrStack (option PCStateBase * option RASHistory) :=
  match o with
  | Call pc => h ← RAS.push tid pc None; mret (None, h)
  | Ret => RAS.pop tid None
  end.

(** The effect of an operation on the abstract stack of capacity [n]. *)
Definition absStep (n : nat) (o : RasOp) (l : list (option PCStateBase))
  : list (option PCStateBase) :=
  match o with
  | Call pc => take n (Some pc :: l)
  | Ret => tail l
  end.

Definition isRet (o : RasOp) : bool := match o with Ret => true | Call _ => false end.

(** One operation: its effect on the abstract stack, the address a return
    gets, and a history that records how to undo it. *)
Lemma wp_perform tid o s st :
  holds tid s st ->
  wp (perform tid o)
     (fun r s' => exists st' h, holds tid s' st' /\ frame tid s s' /\ snd r = Some h /\
        as_numEntries st' = as_numEntries st /\
        contents st' = absStep (Z.to_nat (as_numEntries st)) o (contents st) /\
        tos st' = (if isRet o then prev st else next st) /\
        pushed h = negb (isRet o) /\ poped h = isRet o /\
        (isRet o = true -> rh_tos h = tos st /\
           (0 < usedEntries st -> head (contents st) = Some (ras_entry h)) /\
           fst r = ras_entry h)) s.
Proof.
  intros Hh. destruct o as [pc|]; cbn [perform].
  - unfold RAS.push, RAS.stat. apply wp_bind, wp_bind, wp_modify, wp_bind.
    eapply wp_mono.
    { apply (wp_thread tid _ _ st (fun _ st' => as_numEntries st' = as_numEntries st /\
        tos st' = next st /\
        contents st' = take (Z.to_nat (as_numEntries st)) (Some pc :: contents st))); [done|].
      apply wp_push; [apply Hh|]. intros. by split_and!. }
    intros [] s' (st' & Hh' & Hf & E1 & E2 & E3). apply wp_ret, wp_ret.
    exists st', (RAS.makeRASHistory <| pushed := true |>). by split_and!.
  - unfold RAS.pop, RAS.stat. apply wp_bind, wp_modify, wp_bind.
    eapply wp_onStack; [apply Hh|]. apply wp_gets. apply wp_bind.
    eapply wp_onStack; [by eapply holds_set; [|apply Hh]|].
    apply wp_top; [apply Hh|]. intros v Hv. apply wp_bind.
    set (s1 := setf addrStacks _ _).
    assert (Hh1 : holds tid s1 st).
    { apply (holds_set _ _ st); [|apply Hh]. eapply holds_set; [|apply Hh]. apply Hh. }
    assert (Hf1 : frame tid s s1).
    { intros t Ht. cbn. by rewrite !list_lookup_insert_ne. }
    eapply wp_mono.
    { apply (wp_thread tid _ _ st (fun _ st' => as_numEntries st' = as_numEntries st /\
        tos st' = prev st /\ contents st' = tail (contents st))); [exact Hh1|].
      apply wp_pop; [apply Hh|]. intros. by split_and!. }
    intros [] s' (st' & Hh' & Hf & E1 & E2 & E3). apply wp_ret.
    eexists st', _. split; [done|]. split; [by eapply frame_trans|].
    split; [reflexivity|]. cbn. split_and!; try done. intros _.
    by destruct v.
Qed.

Lemma wp_ras_squash tid h s st :
  holds tid s st ->
  (pushed h = true -> poped h = false) ->
  (poped h = true -> rh_tos h = next st) ->
  wp (RAS.squash tid (Some h))
     (fun r s' => r = None /\ exists st', holds tid s' st' /\ frame tid s s' /\
        as_numEntries st' = as_numEntries st /\
        tos st' = (if pushed h then prev st else if poped h then next st else tos st) /\
        contents st' =
          (if pushed h then tail (contents st)
           else if poped h then take (Z.to_nat (as_numEntries st)) (ras_entry h :: contents st)
           else contents st)) s.
Proof.
  intros Hh Hex Ht. unfold RAS.squash, RAS.stat. apply wp_bind, wp_modify, wp_bind.
  set (s0 := setf ras_stats _ s). assert (Hh0 : holds tid s0 st) by done.
  destruct (pushed h) eqn:Ep.
  - rewrite (Hex eq_refl). apply wp_when; [intros _|done]. apply wp_bind, wp_modify.
    eapply wp_mono.
    { apply (wp_thread tid _ _ st (fun _ st' => as_numEntries st' = as_numEntries st /\
        tos st' = prev st /\ contents st' = tail (contents st))); [exact Hh0|].
      apply wp_pop; [apply Hh|]. intros. by split_and!. }
    intros [] s' (st' & Hh' & Hf & E1 & E2 & E3). apply wp_bind, wp_ret, wp_ret.
    split; [done|]. exists st'. by split_and!.
  - apply wp_when; [done|intros _]. apply wp_bind. destruct (poped h) eqn:Eo.
    + rewrite (Ht eq_refl). apply wp_when; [intros _|done]. apply wp_bind, wp_modify.
      eapply wp_mono.
      { apply (wp_thread tid _ _ st (fun _ st' => as_numEntries st' = as_numEntries st /\
          tos st' = next st /\
          contents st' = take (Z.to_nat (as_numEntries st)) (ras_entry h :: contents st)));
          [exact Hh0|].
        apply wp_restore; [apply Hh|]. intros. by split_and!. }
      intros [] s' (st' & Hh' & Hf & E1 & E2 & E3). apply wp_ret.
      split; [done|]. exists st'. by split_and!.
    + apply wp_when; [done|intros _]. apply wp_ret. split; [done|]. exists st. by split_and!.
Qed.

(** *** Sequences *)

(** The calls and returns of a correct path: the addresses the returns get. *)
Fixpoint performAll (tid : ThreadID) (ops : list RasOp)
  : M ReturnAddrStack (list (option PCStateBase)) :=
  match ops with
  | [] => mret []
  | o :: ops' =>
      r ← perform tid o;
      rs ← performAll tid ops';
      mret (if isRet o then fst r :: rs else rs)
  end.

(** The same on a list of capacity [n]; [None]: a return found it empty. *)
Fixpoint absAll (n : nat) (ops : list RasOp) (l : list (option PCStateBase))
  : option (list (option PCStateBase) * list (option PCStateBase)) :=
  match ops with
  | [] => Some ([], l)
  | Call pc :: ops' => absAll n ops' (absStep n (Call pc) l)
  | Ret :: ops' =>
      match l with
      | [] => None
      | a :: _ =>
          match absAll n ops' (absStep n Ret l) with
          | Some (rs, l') => Some (a :: rs, l')
          | None => None
          end
      end
  end.

Lemma contents_used st : length (contents st) = Z.to_nat (usedEntries st).
Proof. unfold contents. by rewrite length_fmap, length_seq. Qed.

Lemma performAll_refines tid ops : forall s st preds l',
  holds tid s st ->
  absAll (Z.to_nat (as_numEntries st)) ops (contents st) = Some (preds, l') ->
  wp (performAll tid ops)
     (fun r s' => r = preds /\ frame tid s s' /\
        exists st', holds tid s' st' /\ contents st' = l') s.
Proof.
  induction ops as [|o ops IH]; intros s st preds l' Hh Habs; cbn [performAll absAll] in *.
  { apply wp_ret. injection Habs as <- <-. split; [done|]. split; [done|]. by exists st. }
  apply wp_bind. eapply wp_mono; [by apply wp_perform|].
  intros r s1 (st1 & h & Hh1 & Hf1 & _ & En & Ec & _ & _ & _ & Hret). apply wp_bind.
  assert (Hgo : forall preds0, absAll (Z.to_nat (as_numEntries st)) ops
      (absStep (Z.to_nat (as_numEntries st)) o (contents st)) = Some (preds0, l') ->
    wp (performAll tid ops) (fun rs s' =>
      wp (mret (if isRet o then fst r :: rs else rs)) (fun r' s'' =>
        r' = (if isRet o then fst r :: preds0 else preds0) /\ frame tid s s'' /\
        exists st', holds tid s'' st' /\ contents st' = l') s') s1).
  { intros preds0 E0. eapply wp_mono; [eapply (IH s1 st1 preds0 l'); [done|by rewrite En, Ec]|].
    intros rs s2 (-> & Hf2 & Hend). apply wp_ret. split; [done|].
    split; [by eapply frame_trans|done]. }
  destruct o as [pc|]; [by apply Hgo|].
  destruct (contents st) as [|a l] eqn:El; [done|].
  destruct (absAll _ ops _) as [[rs l0]|] eqn:Ea; [|done]. injection Habs as <- <-.
  destruct (Hret eq_refl) as (_ & Hhd & Er). rewrite Er in Hgo |- *.
  assert (Hu : 0 < usedEntries st).
  { pose proof (contents_used st) as Hlen. rewrite El in Hlen. cbn in Hlen. lia. }
  specialize (Hhd Hu). injection Hhd as ->. by apply Hgo.
Qed.

(** Speculation: the histories of the branches in flight, the youngest
    first. *)
Fixpoint speculate (tid : ThreadID) (ops : list RasOp) (hs : list (option RASHistory))
  : M ReturnAddrStack (list (option RASHistory)) :=
  match ops with
  | [] => mret hs
  | o :: ops' => r ← perform tid o; speculate tid ops' (snd r :: hs)
  end.

(** The squash of the branches in flight, the youngest first. *)
Definition rollback (tid : ThreadID) (hs : list (option RASHistory)) : M ReturnAddrStack unit :=
  mfor hs (fun h => _ ← RAS.squash tid h; mret tt).

(** The sequence neither overflows a stack of capacity [n] that holds [len]
    entries nor empties it. *)
Fixpoint fits (n : nat) (ops : list RasOp) (len : nat) : bool :=
  match ops with
  | [] => true
  | Call _ :: ops' => (len <? n)%nat && fits n ops' (S len)
  | Ret :: ops' => (0 <? len)%nat && fits n ops' (len - 1)
  end.

(** Undoing one operation from a state with its resulting stack. *)
Lemma undo_one tid o s st st1 h :
  wf st -> holds tid s st1 -> as_numEntries st1 = as_numEntries st ->
  contents st1 = absStep (Z.to_nat (as_numEntries st)) o (contents st) ->
  tos st1 = (if isRet o then prev st else next st) ->
  pushed h = negb (isRet o) -> poped h = isRet o ->
  (isRet o = true -> rh_tos h = tos st /\ head (contents st) = Some (ras_entry h)) ->
  (isRet o = false -> (length (contents st) < Z.to_nat (as_numEntries st))%nat) ->
  wp (RAS.squash tid (Some h))
     (fun _ s' => exists st', holds tid s' st' /\ frame tid s s' /\
        as_numEntries st' = as_numEntries st /\ tos st' = tos st /\
        contents st' = contents st) s.
Proof.
  intros Hw Hh En Ec Et Ep Eo Hret Hcall. eapply wp_mono.
  { apply (wp_ras_squash tid h s st1); [done| |].
    - rewrite Ep, Eo. by destruct (isRet o).
    - rewrite Eo. intros E. destruct (Hret E) as [-> _]. unfold next. rewrite En, Et, E.
      symmetry. by apply next_prev. }
  intros _ s' (_ & st' & Hh' & Hf & En' & Et' & Ec'). exists st'. rewrite Ep, Eo in *.
  split; [done|]. split; [done|]. split; [congruence|].
  destruct (isRet o) eqn:Eret; cbn [negb] in *.
  - destruct (Hret eq_refl) as [_ Hhd].
    destruct o as [|]; [done|]. cbn in Ec. split.
    + rewrite Et'. unfold next. rewrite En, Et. by apply next_prev.
    + rewrite Ec', Ec, En. destruct (contents st) as [|a l] eqn:El; [done|].
      injection Hhd as ->. cbn [tail]. rewrite take_ge; [done|].
      rewrite <- El, contents_used. pose proof (wf_used _ Hw). lia.
  - destruct o as [pc|]; [|done]. split.
    + rewrite Et'. unfold prev. rewrite En, Et. by apply prev_next.
    + rewrite Ec', Ec. unfold absStep. rewrite take_ge; [done|].
      cbn. specialize (Hcall eq_refl). lia.
Qed.

Lemma ras_rollback_restores tid ops : forall s st hs,
  holds tid s st ->
  fits (Z.to_nat (as_numEntries st)) ops (length (contents st)) = true ->
  wp (speculate tid ops hs)
     (fun hs' s1 => exists new, hs' = new ++ hs /\
        wp (rollback tid new)
           (fun _ s2 => frame tid s s2 /\ exists st2, holds tid s2 st2 /\
              as_numEntries st2 = as_numEntries st /\ tos st2 = tos st /\
              contents st2 = contents st) s1) s.
Proof.
  induction ops as [|o ops IH]; intros s st hs Hh Hfit; cbn [speculate fits] in *.
  { apply wp_ret. exists []. split; [done|]. apply wp_ret. split; [done|]. by exists st. }
  apply wp_bind. eapply wp_mono; [by apply wp_perform|].
  intros r s1 (st1 & h & Hh1 & Hf1 & Er & En & Ec & Et & Ep & Eo & Hret). rewrite Er.
  assert (Hlen : (isRet o = true -> (0 < length (contents st))%nat) /\
    (isRet o = false -> (length (contents st) < Z.to_nat (as_numEntries st))%nat) /\
    fits (Z.to_nat (as_numEntries st)) ops (length (contents st1)) = true).
  { rewrite Ec. destruct o as [pc|]; cbn [isRet absStep] in *.
    - apply andb_prop in Hfit as [H1 H2]. apply Nat.ltb_lt in H1. split; [done|].
      split; [done|]. rewrite length_take. cbn [length].
      by replace (Z.to_nat (as_numEntries st) `min` S (length (contents st)))%nat
        with (S (length (contents st))) by lia.
    - apply andb_prop in Hfit as [H1 H2]. apply Nat.ltb_lt in H1. split; [done|].
      split; [done|]. replace (length (tail (contents st))) with (length (contents st) - 1)%nat;
        [done|]. destruct (contents st); cbn; lia. }
  destruct Hlen as (L1 & L2 & L3).
  eapply wp_mono; [apply (IH s1 st1 (Some h :: hs) Hh1); by rewrite En|].
  intros hs' s2 (new & -> & Hroll). exists (new ++ [Some h]).
  split; [by rewrite <- app_assoc|].
  unfold rollback in *. clear -Hroll Hf1 Hh Hh1 En Ec Et Ep Eo Hret L1 L2.
  revert s2 Hroll. induction new as [|x new IHn]; intros s2 Hroll; cbn [mfor app] in *.
  - destruct Hroll as (Hf2 & st2 & Hh2 & En2 & Et2 & Ec2). apply wp_bind, wp_bind.
    eapply wp_mono.
    { apply (undo_one tid o s2 st st2 h); try done; try congruence; [apply Hh|].
      intros E. destruct (Hret E) as (-> & Hhd & _). split; [done|]. apply Hhd.
      pose proof (contents_used st). specialize (L1 E). lia. }
    intros _ s3 (st3 & Hh3 & Hf3 & E3). apply wp_ret, wp_ret.
    split; [by eapply frame_trans; [|eapply frame_trans]|]. by exists st3.
  - apply wp_bind. unfold wp at 1 in Hroll. unfold mbind, M_bind in Hroll.
    unfold wp. unfold mbind, M_bind.
    destruct (RAS.squash tid x s2) as [[a s3]|]; [|done]. by apply IHn.
Qed.
End RasSpec.

Import StackSpec RasSpec.

(** ** Safety of arbitrary use

    What [BPredUnit] needs: with histories made by the stack itself no operation
    fails, whatever the order of the calls. *)
Module RasSafe.
Import StackSpec RasSpec.
Section Safe.
Context (cap n : Z).

Definition stack_ok (st : AddrStack) : Prop := wf st /\ as_numEntries st = cap.
Definition ok (r : ReturnAddrStack) : Prop :=
  length (addrStacks r) = Z.to_nat n /\ Forall stack_ok (addrStacks r).
Definition hist_ok (h : option RASHistory) : Prop :=
  forall x, h = Some x -> poped x = true -> 0 <= rh_tos x < cap.

Lemma ras_make_ok : 0 < cap < 2 ^ 32 -> ok (RAS.make cap n).
Proof.
  intros Hc. split; cbn; [by rewrite length_replicate|]. apply list.Forall_replicate.
  split; [|done]. split; cbn; [by rewrite length_replicate|lia|lia|lia].
Qed.

Lemma ok_stat r x : ok r -> ok (r <| ras_stats ::= cons x |>).
Proof. done. Qed.

Context (tid : ThreadID) (Ht : 0 <= tid < n).

Lemma safe_onStack {A} (m : M AddrStack A) (P : A -> Prop) r (Q : A -> ReturnAddrStack -> Prop) :
  ok r -> (forall st, stack_ok st -> wp m (fun a st' => stack_ok st' /\ P a) st) ->
  (forall a r', ok r' -> P a -> Q a r') -> wp (RAS.onStack tid m) Q r.
Proof.
  intros [Hl Hf] Hm HQ. destruct (lookup_lt_is_Some_2 (addrStacks r) (Z.to_nat tid)) as [st Hst];
    [lia|]. eapply wp_onStack; [exact Hst|].
  eapply wp_mono; [apply Hm|].
  - apply (proj1 (list.Forall_forall _ _) Hf). by eapply list_elem_of_lookup_2.
  - intros a st' [Hst' HP]. apply HQ; [|done]. split; cbn; [by rewrite length_insert|].
    by apply Forall_insert.
Qed.

Lemma safe_restore t v st : stack_ok st -> 0 <= t < cap ->
  wp (Stack.restore t v) (fun _ st' => stack_ok st' /\ True) st.
Proof.
  intros [Hw Hc] Hr. unfold Stack.restore. apply wp_bind, wp_modify.
  set (st1 := st <| tos := t |>).
  assert (Hw1 : wf st1) by (destruct Hw; split; cbn in *; try done; lia).
  apply wp_bind, wp_setTop; [done|]. apply wp_modify. split; [|done].
  pose proof (wf_num _ Hw1) as Hn. pose proof (wf_used _ Hw1) as Hu.
  destruct Hw1 as [L1 L2 L3 L4]. cbn in *.
  destruct (Z.eqb_spec (usedEntries st) (as_numEntries st)); (split; [split|]); cbn in *;
    rewrite ?length_insert; try done. rewrite u32_small; lia.
Qed.

Lemma safe_push pc h r :
  ok r -> hist_ok h ->
  wp (RAS.push tid pc h) (fun h' r' => ok r' /\ hist_ok h' /\ h' <> None) r.
Proof.
  intros Hok Hh. unfold RAS.push, RAS.stat. wp_steps.
  apply (safe_onStack _ (fun _ => True)); [done| |].
  - intros st [Hw Hc]. apply wp_push; [done|]. intros st' Hw' Hc' _ _. split; [|done]. split; [done|lia].
  - intros [] r' Hr' _. wp_steps. split_and!; [done| |done]. intros x [= <-]. cbn.
    destruct h as [x|]; [by apply (Hh x)|done].
Qed.

Lemma safe_pop h r :
  ok r -> hist_ok h ->
  wp (RAS.pop tid h) (fun o r' => ok r' /\ hist_ok (snd o) /\ snd o <> None) r.
Proof.
  intros Hok Hh. unfold RAS.pop, RAS.stat. wp_steps.
  apply (safe_onStack _ (fun t => 0 <= t < cap)); [done| |].
  { intros st [Hw Hc]. apply wp_gets. split; [done|]. pose proof (wf_tos _ Hw). lia. }
  intros t r1 Hr1 Ht1. wp_steps. apply (safe_onStack _ (fun _ => True)); [done| |].
  { intros st [Hw Hc]. apply wp_top; [done|]. by intros v _. }
  intros v r2 Hr2 _. wp_steps. apply (safe_onStack _ (fun _ => True)); [done| |].
  { intros st [Hw Hc]. apply wp_pop; [done|]. intros st' Hw' Hc' _ _. split; [|done].
    split; [done|lia]. }
  intros [] r3 Hr3 _. wp_steps. split_and!; [done| |done]. by intros x [= <-] _.
Qed.

Lemma safe_squash h r :
  ok r -> hist_ok h -> wp (RAS.squash tid h) (fun h' r' => ok r' /\ h' = None) r.
Proof.
  intros Hok Hh. unfold RAS.squash, RAS.stat. destruct h as [h|]; [|by apply wp_ret].
  assert (Hpop : forall st, stack_ok st -> wp Stack.pop (fun _ st' => stack_ok st' /\ True) st).
  { intros st [Hw Hc]. apply wp_pop; [done|]. intros st' Hw' Hc' _ _. split; [|done].
    split; [done|lia]. }
  wp_steps.
  - eapply (safe_onStack _ (fun _ => True)); [done|exact Hpop|]. intros [] r1 Hr1 _. wp_steps; [|done].
    apply (safe_onStack _ (fun _ => True)); [done|intros st Hst; by apply safe_restore; [|apply Hh]|].
    intros [] r2 Hr2 _. by wp_steps.
  - apply (safe_onStack _ (fun _ => True)); [done|intros st Hst; by apply safe_restore; [|apply Hh]|].
    intros [] r2 Hr2 _. by wp_steps.
  - done.
Qed.

Definition ras_type (ty : BranchType) : bool :=
  match ty with Return | CallDirect | CallIndirect => true | _ => false end.

Lemma safe_commit misp ty h r :
  ok r -> (h <> None -> ras_type ty = true) ->
  wp (RAS.commit tid misp ty h) (fun h' r' => ok r' /\ h' = None) r.
Proof.
  intros Hok Hty. unfold RAS.commit, RAS.stat. destruct h as [h|].
  - specialize (Hty ltac:(done)). destruct ty; try done; cbn; wp_steps; done.
  - destruct ty; cbn; by apply wp_ret.
Qed.
End Safe.
End RasSafe.

(** [C12] The return address stack is a bounded LIFO stack: for any sequence
    of calls and returns of a thread in which no return finds the stack empty,
    the address every return gets is the one the abstract stack gives (calls
    push, dropping the oldest entry beyond the capacity; returns pop), the
    final contents agree, and the stacks of other threads are untouched. *)
Theorem ras_refines_lifo tid ops s st preds l' :
  inv s -> addrStacks s !! Z.to_nat tid = Some st ->
  absAll (Z.to_nat (as_numEntries st)) ops (contents st) = Some (preds, l') ->
  wp (performAll tid ops)
     (fun r s' => r = preds /\
        (forall t, t <> Z.to_nat tid -> addrStacks s' !! t = addrStacks s !! t) /\
        exists st', addrStacks s' !! Z.to_nat tid = Some st' /\ contents st' = l') s.
Proof.
  intros [Hi] Hst Habs.
  assert (Hh : holds tid s st).
  { split; [done|]. eapply (proj1 (list.Forall_forall _ _) Hi). by eapply list_elem_of_lookup_2. }
  eapply wp_mono; [by apply (performAll_refines tid ops s st preds l')|].
  intros r s' (-> & Hf & st' & [Hh' _] & Ec). split; [done|]. split; [done|]. by exists st'.
Qed.

(** Three calls on a stack of two entries: the oldest is lost. *)
Lemma ras_refines_lifo_witness :
  wp (performAll 0 [Call (mkPC 1 0); Call (mkPC 2 0); Call (mkPC 3 0); Ret; Ret])
     (fun r s' => r = [Some (mkPC 3 0); Some (mkPC 2 0)] /\
        (forall t, t <> Z.to_nat 0 -> addrStacks s' !! t = addrStacks (RAS.make 2 1) !! t) /\
        exists st', addrStacks s' !! Z.to_nat 0 = Some st' /\ contents st' = [])
     (RAS.make 2 1).
Proof.
  apply (ras_refines_lifo 0 _ (RAS.make 2 1) (Stack.init 2)).
  - apply ras_make_inv. lia.
  - reflexivity.
  - vm_compute. reflexivity.
Defined.

(** [C13] Squashing undoes speculation: if a thread performs a sequence of speculative calls and returns
    that fits its stack (it never holds more than numEntries addresses and no return finds it empty) and
    then squashes these branches, the youngest first, the top-of-stack index and the contents of its
    stack are what they were before, and other threads are untouched. *)
Theorem ras_squash_restores tid ops s st :
  inv s -> addrStacks s !! Z.to_nat tid = Some st ->
  fits (Z.to_nat (as_numEntries st)) ops (length (contents st)) = true ->
  wp (hs ← speculate tid ops []; rollback tid hs)
     (fun _ s' =>
        (forall t, t <> Z.to_nat tid -> addrStacks s' !! t = addrStacks s !! t) /\
        exists st', addrStacks s' !! Z.to_nat tid = Some st' /\ tos st' = tos st /\
          contents st' = contents st) s.
Proof.
  intros [Hi] Hst Hfit.
  assert (Hh : holds tid s st).
  { split; [done|]. eapply (proj1 (list.Forall_forall _ _) Hi). by eapply list_elem_of_lookup_2. }
  apply wp_bind. eapply wp_mono; [by apply (ras_rollback_restores tid ops s st [])|].
  intros hs s1 (new & -> & Hroll). rewrite app_nil_r. eapply wp_mono; [exact Hroll|].
  intros [] s2 (Hf & st2 & [Hh2 _] & _ & Et & Ec). split; [done|]. by exists st2.
Qed.

Lemma ras_squash_restores_witness :
  wp (hs ← speculate 0 [Call (mkPC 1 0); Call (mkPC 2 0); Ret; Call (mkPC 3 0)] [];
      rollback 0 hs)
     (fun _ s' =>
        (forall t, t <> Z.to_nat 0 -> addrStacks s' !! t = addrStacks (RAS.make 4 1) !! t) /\
        exists st', addrStacks s' !! Z.to_nat 0 = Some st' /\ tos st' = 0 /\
          contents st' = [])
     (RAS.make 4 1).
Proof.
  apply (ras_squash_restores 0 _ (RAS.make 4 1) (Stack.init 4)).
  - apply ras_make_inv. lia.
  - reflexivity.
  - vm_compute. reflexivity.
Defined.
