(* ===== verification/Ftq.v ===== *)
(** * The fetch target queue

    [cpu/o3/ftq.hh] and [ftq.cc]: fetch targets and the per-thread queue
    between the decoupled branch predictor and the fetch stage, with its
    status.  Probe notifications ([FTQInsert], [FTQRemove]), to which the FDP
    prefetcher listens, are a log.  A [bpuHistory] pointer is an [option] of the
    identity of the history object; the queue only tests it for null. *)

From Stdlib Require Import ZArith Lia.
From stdpp Require Import base list numbers.
From S2P Require Import Prelude Types Btb.

(** ** FetchTarget *)
Record FetchTarget := mkFT {
  startPC : PCStateBase;
  endPC : option PCStateBase;
  predPC : option PCStateBase;
  ftSeqNum : Z;
  ft_tid : ThreadID;
  is_branch : bool;
  ft_taken : bool;
  is_override_ft : bool;
  bpuHistory : option Z
}.

#[export] Instance eta_FetchTarget : Settable FetchTarget := fun f =>
  mkFT (startPC f) (endPC f) (predPC f) (ftSeqNum f) (ft_tid f) (is_branch f) (ft_taken f)
    (is_override_ft f) (bpuHistory f).

Module FT.
(** The two constructors. *)
Definition make (_tid : ThreadID) (_start_pc : PCStateBase) (_seqNum : Z) : FetchTarget :=
  mkFT _start_pc None None _seqNum _tid false false false None.
Definition makeOverride (_tid : ThreadID) (_start_pc _end_pc : PCStateBase) (_seqNum : Z)
  : FetchTarget :=
  mkFT _start_pc (Some _end_pc) None _seqNum _tid false false true None.

Definition startAddress (f : FetchTarget) : Addr := instAddr (startPC f).
Definition endAddress (f : FetchTarget) : Addr :=
  match endPC f with Some e => instAddr e | None => MaxAddr end.
Definition size (f : FetchTarget) : Z := u32 (endAddress f - startAddress f).
Definition inRange (addr : Addr) (f : FetchTarget) : bool :=
  (startAddress f <=? addr) && (addr <=? endAddress f).
Definition isExitInst (addr : Addr) (f : FetchTarget) : bool := addr =? endAddress f.
Definition isExitBranch (addr : Addr) (f : FetchTarget) : bool :=
  (addr =? endAddress f) && is_branch f.
Definition hasExceeded (addr : Addr) (f : FetchTarget) : bool := endAddress f <? addr.
Definition setPredTarg (pred_pc : PCStateBase) (f : FetchTarget) : FetchTarget :=
  f <| predPC := PCS.set (predPC f) (Some pred_pc) |>.
Definition readPredTarg (f : FetchTarget) : Res PCStateBase :=
  match predPC f with Some t => Ok t | None => Err AssertFail end.
Definition readEndPC (f : FetchTarget) : Res PCStateBase :=
  match endPC f with Some t => Ok t | None => Err AssertFail end.

Definition finalize (exit_pc : PCStateBase) (_is_branch pred_taken : bool)
    (pred_pc : PCStateBase) (f : FetchTarget) : FetchTarget :=
  f <| endPC := PCS.set (endPC f) (Some exit_pc) |>
    <| predPC := PCS.set (predPC f) (Some pred_pc) |>
    <| ft_taken := pred_taken |> <| is_branch := _is_branch |>.
End FT.

(** ** FTQ *)

Inductive Status := Invalid | Valid | Full | Locked.

#[export] Instance Status_eq_dec : EqDecision Status.
Proof. solve_decision. Defined.

Inductive FTQStat := FS_inserts | FS_removals | FS_squashes | FS_locks | FS_occupancy (n : Z).

Inductive Probe := FTQInsert (ft : FetchTarget) | FTQRemove (ft : FetchTarget).

(** The part of the queue of one thread, the statistics and the probe log (in
    the order of the notifications). *)
Record FTQ := mkFTQ {
  ftqStatus : list Status;
  ftq_numEntries : Z;
  ftq : list (list FetchTarget);
  ftq_stats : list FTQStat;
  probes : list Probe
}.

#[export] Instance eta_FTQ : Settable FTQ := fun s =>
  mkFTQ (ftqStatus s) (ftq_numEntries s) (ftq s) (ftq_stats s) (probes s).

Definition MaxThreads : nat := 4.

Module Ftq.
Definition stat (x : FTQStat) : M FTQ unit := modify (fun s => s <| ftq_stats ::= cons x |>).
Definition notify (x : Probe) : M FTQ unit := modify (fun s => s <| probes ::= fun l => l ++ [x] |>).

(** [ftq[tid]] and [ftqStatus[tid]] *)
Definition queue (tid : ThreadID) : M FTQ (list FetchTarget) :=
  o ← gets (fun s => ftq s !! Z.to_nat tid); at_index o.
Definition setQueue (tid : ThreadID) (q : list FetchTarget) : M FTQ unit :=
  queue tid ;; modify (fun s => s <| ftq ::= <[Z.to_nat tid := q]> |>).
Definition status (tid : ThreadID) : M FTQ Status :=
  o ← gets (fun s => ftqStatus s !! Z.to_nat tid); at_index o.
Definition setStatus (tid : ThreadID) (x : Status) : M FTQ unit :=
  status tid ;; modify (fun s => s <| ftqStatus ::= <[Z.to_nat tid := x]> |>).

Definition resetState (tid : ThreadID) : M FTQ unit :=
  setQueue tid [] ;; setStatus tid Valid.

Definition make (numEntries : Z) : FTQ :=
  mkFTQ (replicate MaxThreads Valid) numEntries (replicate MaxThreads []) [] [].

Definition numFreeEntries (tid : ThreadID) : M FTQ Z :=
  q ← queue tid; n ← gets ftq_numEntries; mret (u32 (n - Z.of_nat (length q))).
Definition size (tid : ThreadID) : M FTQ Z :=
  q ← queue tid; mret (Z.of_nat (length q)).
Definition isFull (tid : ThreadID) : M FTQ bool :=
  q ← queue tid; n ← gets ftq_numEntries; mret (n <=? Z.of_nat (length q)).
Definition isEmpty (tid : ThreadID) : M FTQ bool :=
  q ← queue tid; mret (bool_decide (length q = 0%nat)).

Definition invalidate (tid : ThreadID) : M FTQ unit :=
  q ← queue tid;
  when (negb (bool_decide (length q = 0%nat))) (setStatus tid Invalid).

Definition isReady (tid : ThreadID) : M FTQ bool :=
  st ← status tid; mret (negb (bool_decide (st = Invalid))).
Definition lock (tid : ThreadID) : M FTQ unit := setStatus tid Locked.
Definition isLocked (tid : ThreadID) : M FTQ bool :=
  st ← status tid; mret (bool_decide (st = Locked)).

(** The function given may change the target it gets. *)
Definition forAllForward (tid : ThreadID) (f : FetchTarget -> FetchTarget) : M FTQ unit :=
  q ← queue tid; setQueue tid (f <$> q).
Definition forAllBackward (tid : ThreadID) (f : FetchTarget -> FetchTarget) : M FTQ unit :=
  q ← queue tid; setQueue tid (reverse (f <$> reverse q)).

Definition insert (tid : ThreadID) (fetchTarget : FetchTarget) : M FTQ unit :=
  q ← queue tid;
  n ← gets ftq_numEntries;
  massert (Z.of_nat (length q) <? n) ;;
  if is_override_ft fetchTarget then notify (FTQInsert fetchTarget) else
  setQueue tid (q ++ [fetchTarget]) ;;
  notify (FTQInsert fetchTarget) ;;
  stat FS_inserts ;;
  stat (FS_occupancy (Z.of_nat (length q) + 1)).

Definition squash (tid : ThreadID) : M FTQ unit :=
  q ← queue tid;
  mfor q (fun ft =>
    massert (bool_decide (bpuHistory ft = None)) ;; notify (FTQRemove ft)) ;;
  setQueue tid [] ;;
  setStatus tid Valid ;;
  stat FS_squashes.

Definition squashSanityCheck (tid : ThreadID) : M FTQ unit :=
  q ← queue tid;
  mfor q (fun ft => massert (bool_decide (bpuHistory ft = None))).

Definition isHeadReady (tid : ThreadID) : M FTQ bool :=
  st ← status tid; q ← queue tid;
  mret (negb (bool_decide (st = Invalid)) && (0 <? Z.of_nat (length q))).

Definition readHead (tid : ThreadID) : M FTQ (option FetchTarget) :=
  st ← status tid;
  if bool_decide (st = Invalid) then mret None else
  q ← queue tid; mret (head q).

Definition popHead (tid : ThreadID) : M FTQ bool :=
  q ← queue tid;
  match q with
  | [] => fault AssertFail
  | front :: rest =>
      if negb (bool_decide (bpuHistory front = None)) then
        setStatus tid Invalid ;; mret false
      else
      st ← status tid;
      when (bool_decide (st = Locked)) (setStatus tid Invalid) ;;
      notify (FTQRemove front) ;;
      setQueue tid rest ;;
      stat FS_removals ;;
      mret (negb (bool_decide (st = Locked)))
  end.
End Ftq.

(** ** Execution rules *)

Section Rules.
Context (tid : ThreadID).
Abbreviation t := (Z.to_nat tid).

Lemma wp_queue q Q s : ftq s !! t = Some q -> Q q s -> wp (Ftq.queue tid) Q s.
Proof. intros H HQ. unfold Ftq.queue. wp_steps. by eapply wp_at_index. Qed.

Lemma wp_status st Q s : ftqStatus s !! t = Some st -> Q st s -> wp (Ftq.status tid) Q s.
Proof. intros H HQ. unfold Ftq.status. wp_steps. by eapply wp_at_index. Qed.

Lemma wp_setQueue q (Q : unit -> FTQ -> Prop) s :
  is_Some (ftq s !! t) -> Q tt (s <| ftq ::= <[t := q]> |>) -> wp (Ftq.setQueue tid q) Q s.
Proof. intros [q0 H] HQ. unfold Ftq.setQueue. wp_steps. by eapply wp_queue. Qed.

Lemma wp_setStatus x (Q : unit -> FTQ -> Prop) s :
  is_Some (ftqStatus s !! t) -> Q tt (s <| ftqStatus ::= <[t := x]> |>) ->
  wp (Ftq.setStatus tid x) Q s.
Proof. intros [st H] HQ. unfold Ftq.setStatus. wp_steps. by eapply wp_status. Qed.
End Rules.

Lemma wp_ftq_squashLoop q (Q : unit -> FTQ -> Prop) s :
  Forall (fun ft => bpuHistory ft = None) q ->
  Q tt (s <| probes ::= fun l => l ++ (FTQRemove <$> q) |>) ->
  wp (mfor q (fun ft => massert (bool_decide (bpuHistory ft = None)) ;;
                        Ftq.notify (FTQRemove ft))) Q s.
Proof.
  intros HF. revert s. induction HF as [|ft q Hft HF IH]; intros s HQ; cbn [mfor].
  - apply wp_ret. destruct s. cbv [setf fmap list_fmap] in HQ. cbn in HQ. by rewrite app_nil_r in HQ.
  - wp_steps. apply wp_massert; [by apply bool_decide_eq_true|].
    unfold Ftq.notify. wp_steps. apply IH. destruct s. unfold setf in *. cbn in *. by rewrite <- app_assoc.
Qed.

(** ** What the queue promises *)

(** The operations of the stages that use the queue.  [FForAll] is a pass over
    the queue by either iterator, such as the one that detaches the histories
    before a squash. *)
Inductive FtqOp :=
| FInsert (tid : ThreadID) (ft : FetchTarget)
| FPopHead (tid : ThreadID)
| FSquash (tid : ThreadID)
| FInvalidate (tid : ThreadID)
| FLock (tid : ThreadID)
| FReset (tid : ThreadID)
| FForAll (tid : ThreadID) (backward : bool) (f : FetchTarget -> FetchTarget).

Definition op_tid (o : FtqOp) : ThreadID :=
  match o with
  | FInsert t _ | FPopHead t | FSquash t | FInvalidate t | FLock t | FReset t | FForAll t _ _ => t
  end.

Definition ftq_exec (o : FtqOp) : M FTQ unit :=
  match o with
  | FInsert tid ft => Ftq.insert tid ft
  | FPopHead tid => Ftq.popHead tid ;; mret tt
  | FSquash tid => Ftq.squash tid
  | FInvalidate tid => Ftq.invalidate tid
  | FLock tid => Ftq.lock tid
  | FReset tid => Ftq.resetState tid
  | FForAll tid false f => Ftq.forAllForward tid f
  | FForAll tid true f => Ftq.forAllBackward tid f
  end.

Definition queueOf (s : FTQ) (tid : ThreadID) : list FetchTarget :=
  default [] (ftq s !! Z.to_nat tid).

(** A pass leaves the identity of a target alone. *)
Definition keeps_id (f : FetchTarget -> FetchTarget) : Prop :=
  forall ft, ftSeqNum (f ft) = ftSeqNum ft /\ ft_tid (f ft) = ft_tid ft /\
             is_override_ft (f ft) = is_override_ft ft.

(** What the callers check before the call: there is room (the [isFull] test of
    the BAC stage), the queue has a head, the histories are detached. *)
Definition ftq_enabled (s : FTQ) (o : FtqOp) : Prop :=
  0 <= op_tid o < Z.of_nat MaxThreads /\
  match o with
  | FInsert tid ft => Z.of_nat (length (queueOf s tid)) < ftq_numEntries s /\ ft_tid ft = tid
  | FPopHead tid => queueOf s tid <> []
  | FSquash tid => Forall (fun ft => bpuHistory ft = None) (queueOf s tid)
  | FForAll _ _ f => keeps_id f
  | _ => True
  end.

(** [resetState] drops the targets of a thread without telling the listeners.
    [since tid] is the length of the log of notifications when it was last called
    for the thread. *)
Definition afterReset (o : FtqOp) (s : FTQ) (since : ThreadID -> nat) : ThreadID -> nat :=
  match o with
  | FReset tid => fun t => if t =? tid then length (probes s) else since t
  | _ => since
  end.

Definition noReset : ThreadID -> nat := fun _ => 0%nat.

(** Reachable states, with the positions of the last resets *)
Inductive ftq_reach (n : Z) : (ThreadID -> nat) -> FTQ -> Prop :=
| ftq_reach_make : ftq_reach n noReset (Ftq.make n)
| ftq_reach_step since s o s' :
    ftq_reach n since s -> ftq_enabled s o -> ftq_exec o s = Ok (tt, s') ->
    ftq_reach n (afterReset o s' since) s'.

(** The numbers of the targets of a thread that the listeners were told to have
    entered the queue and to have left it.  An override target is announced as
    inserted and dropped ([overridden]). *)
Definition entered (tid : ThreadID) (l : list Probe) : list Z :=
  omap (fun p => match p with
    | FTQInsert ft => if negb (is_override_ft ft) && (ft_tid ft =? tid)
                      then Some (ftSeqNum ft) else None
    | _ => None end) l.
Definition left_ (tid : ThreadID) (l : list Probe) : list Z :=
  omap (fun p => match p with
    | FTQRemove ft => if ft_tid ft =? tid then Some (ftSeqNum ft) else None
    | _ => None end) l.

Definition overridden (ft : FetchTarget) (l : list Probe) : Prop :=
  is_override_ft ft = true /\ FTQInsert ft ∈ l.

#[global] Arguments entered : simpl never.
#[global] Arguments left_ : simpl never.

Definition accounted (tid : ThreadID) (n : Z) (q : list FetchTarget) (l : list Probe) : Prop :=
  Z.of_nat (length q) <= n /\
  Forall (fun ft => ft_tid ft = tid /\ is_override_ft ft = false) q /\
  entered tid l = left_ tid l ++ (ftSeqNum <$> q).

(** The notifications since the last reset of a thread *)
Definition recent (since : ThreadID -> nat) (tid : ThreadID) (s : FTQ) : list Probe :=
  drop (since tid) (probes s).

Record ftq_inv (n : Z) (since : ThreadID -> nat) (s : FTQ) : Prop := {
  fi_entries : ftq_numEntries s = n;
  fi_queues : length (ftq s) = MaxThreads;
  fi_status : length (ftqStatus s) = MaxThreads;
  fi_acc : forall i q, ftq s !! i = Some q ->
             accounted (Z.of_nat i) n q (recent since (Z.of_nat i) s);
  fi_since : forall tid, (since tid <= length (probes s))%nat;
  fi_removed : forall ft, FTQRemove ft ∈ probes s -> is_override_ft ft = false
}.

Lemma ftq_inv_queue n k s tid :
  ftq_inv n k s -> 0 <= tid < Z.of_nat MaxThreads ->
  ftq s !! Z.to_nat tid = Some (queueOf s tid) /\ is_Some (ftqStatus s !! Z.to_nat tid) /\
  accounted tid n (queueOf s tid) (recent k tid s).
Proof.
  intros [Hn Hq Hs Ha _ _] Ht. destruct (lookup_lt_is_Some_2 (ftq s) (Z.to_nat tid)) as [q Eq].
  { rewrite Hq. lia. }
  unfold queueOf. rewrite Eq. cbn. split_and!; [done| |].
  - apply lookup_lt_is_Some_2. rewrite Hs. lia.
  - specialize (Ha _ _ Eq). by rewrite Z2Nat.id in Ha by lia.
Qed.

(** A log that grows by notifications of thread [tid] only. *)
Definition about (tid : ThreadID) (l : list Probe) : Prop :=
  Forall (fun p => match p with
    | FTQInsert ft => ft_tid ft = tid
    | FTQRemove ft => ft_tid ft = tid end) l.

Lemma accounted_other tid tid' n q l l' :
  about tid l' -> tid <> tid' -> accounted tid' n q l -> accounted tid' n q (l ++ l').
Proof.
  intros Hl' Hne (H1 & H2 & H3). split_and!; [done..|].
  unfold entered, left_ in *. rewrite !omap_app, H3.
  assert (omap (fun p => match p with
    | FTQInsert ft => if negb (is_override_ft ft) && (ft_tid ft =? tid')
                      then Some (ftSeqNum ft) else None | _ => None end) l' = []) as ->.
  { induction Hl' as [|[ft|ft] l' Hp _ IH]; cbn; [done| |done].
    rewrite Hp, (proj2 (Z.eqb_neq tid tid')) by done. by rewrite andb_false_r. }
  assert (omap (fun p => match p with
    | FTQRemove ft => if ft_tid ft =? tid' then Some (ftSeqNum ft) else None
    | _ => None end) l' = []) as ->.
  { induction Hl' as [|[ft|ft] l' Hp _ IH]; cbn; [done|done|].
    by rewrite Hp, (proj2 (Z.eqb_neq tid tid')). }
  by rewrite !app_nil_r.
Qed.

(** The step of the invariant: one thread's queue and status change, and the
    log grows by notifications of that thread. *)
Lemma ftq_inv_update n k s s' tid q' l' :
  ftq_inv n k s -> 0 <= tid < Z.of_nat MaxThreads -> about tid l' ->
  accounted tid n q' (recent k tid s ++ l') -> (forall ft, FTQRemove ft ∈ l' -> is_override_ft ft = false) ->
  ftq_numEntries s' = ftq_numEntries s -> length (ftqStatus s') = length (ftqStatus s) ->
  ftq s' = <[Z.to_nat tid := q']> (ftq s) -> probes s' = probes s ++ l' ->
  ftq_inv n k s'.
Proof.
  intros [Hn Hq Hs Ha Hk Hrm] Ht Hl Hacc Hov En Est Eq Ep.
  assert (Er : forall t, recent k t s' = recent k t s ++ l').
  { intros t. unfold recent. by rewrite Ep, drop_app_le. }
  constructor; rewrite ?En, ?Est, ?Eq; [done|by rewrite length_insert|done| | |].
  - intros i q Hi. rewrite Er. destruct (decide (i = Z.to_nat tid)) as [->|Hne].
    + rewrite list_lookup_insert_eq in Hi by (rewrite Hq; lia). injection Hi as <-.
      by rewrite Z2Nat.id by lia.
    + rewrite list_lookup_insert_ne in Hi by done.
      apply (accounted_other tid); [done| |by apply Ha]. lia.
  - intros t. rewrite Ep, length_app. specialize (Hk t). lia.
  - intros ft. rewrite Ep, elem_of_app. intros [?|?]; auto.
Qed.

Lemma ftq_inv_sameQueue n k s s' :
  ftq_inv n k s -> ftq_numEntries s' = ftq_numEntries s ->
  length (ftqStatus s') = length (ftqStatus s) ->
  ftq s' = ftq s -> probes s' = probes s -> ftq_inv n k s'.
Proof.
  intros [Hn Hq Hs Ha Hk Hrm] En Est Eq Ep. constructor; unfold recent in *; rewrite ?En, ?Est, ?Eq, ?Ep; done.
Qed.

Ltac ftq_no_removal := intros ? ?%list_elem_of_singleton.
Ltac ftq_same := unfold setf; cbn; rewrite ?length_insert; reflexivity.

Lemma entered_app tid l l' : entered tid (l ++ l') = entered tid l ++ entered tid l'.
Proof. apply omap_app. Qed.
Lemma left_app tid l l' : left_ tid (l ++ l') = left_ tid l ++ left_ tid l'.
Proof. apply omap_app. Qed.

Lemma removed_all tid q :
  Forall (fun ft => ft_tid ft = tid /\ is_override_ft ft = false) q ->
  (forall ft, FTQRemove ft ∈ FTQRemove <$> q -> is_override_ft ft = false) /\
  about tid (FTQRemove <$> q) /\ entered tid (FTQRemove <$> q) = [] /\
  left_ tid (FTQRemove <$> q) = ftSeqNum <$> q.
Proof.
  intros HF. split.
  { intros ft (ft' & [= <-] & Hin)%list_elem_of_fmap. rewrite list.Forall_forall in HF. by apply HF. }
  revert HF. unfold about. induction 1 as [|ft q [H1 H2] _ (IH1 & IH2 & IH3)]; [by split_and!|].
  unfold left_, entered in *. cbn. rewrite H1, Z.eqb_refl.
  split_and!; [by constructor|done|]. f_equal. exact IH3.
Qed.

Lemma ftq_popHead_cases s tid st q :
  ftq s !! Z.to_nat tid = Some q -> ftqStatus s !! Z.to_nat tid = Some st ->
  match q with
  | [] => Ftq.popHead tid s = Err AssertFail
  | ft :: rest =>
      exists b s', Ftq.popHead tid s = Ok (b, s') /\
      match bpuHistory ft with
      | Some _ => b = false /\ ftq s' = ftq s /\ probes s' = probes s /\
                  ftqStatus s' = <[Z.to_nat tid := Invalid]> (ftqStatus s)
      | None => b = negb (bool_decide (st = Locked)) /\
                ftq s' = <[Z.to_nat tid := rest]> (ftq s) /\
                probes s' = probes s ++ [FTQRemove ft] /\
                ftqStatus s' = <[Z.to_nat tid := if bool_decide (st = Locked) then Invalid
                                                 else st]> (ftqStatus s)
      end
  end.
Proof.
  intros Eq Est. destruct q as [|ft rest].
  - unfold Ftq.popHead, Ftq.queue, mbind, M_bind, gets. by rewrite Eq.
  - apply wp_inv. unfold Ftq.popHead. wp_steps. eapply wp_queue; [exact Eq|].
    destruct (bpuHistory ft) as [h|] eqn:Eh.
    + rewrite bool_decide_false by (rewrite Eh; done). cbn [negb]. cbv iota. wp_steps. eapply wp_setStatus; [eauto|]. by wp_steps.
    + rewrite bool_decide_true by done. cbn [negb]. cbv iota.
      unfold Ftq.notify, Ftq.stat. wp_steps. eapply wp_status; [exact Est|].
      destruct (bool_decide (st = Locked)) eqn:El; wp_steps; try done.
      * eapply wp_setStatus; [eauto|]. wp_steps. eapply wp_setQueue; [cbn; by rewrite Eq|].
        by wp_steps.
      * eapply wp_setQueue; [cbn; by rewrite Eq|]. wp_steps.
        split_and!; [done..|]. symmetry. by apply list_insert_id.
Qed.

Lemma kept_insert n k tid ft s :
  ftq_inv n k s -> ftq_enabled s (FInsert tid ft) ->
  wp (Ftq.insert tid ft) (fun _ s' => ftq_inv n k s') s.
Proof.
  intros Hinv (Ht & Hroom & Htid). cbn in Ht.
  destruct (ftq_inv_queue n k s tid Hinv Ht) as (Eq & Est & Hlen & Hall & Hlog).
  unfold Ftq.insert. wp_steps. eapply wp_queue; [exact Eq|]. wp_steps.
  apply wp_massert; [by apply Z.ltb_lt|]. wp_steps.
  - unfold Ftq.notify. wp_steps.
    apply (ftq_inv_update n k s _ tid (queueOf s tid) [FTQInsert ft] Hinv Ht);
      [by repeat constructor| |by ftq_no_removal| | |by rewrite (list_insert_id _ _ _ Eq)|]; try ftq_same.
    split_and!; [done..|]. rewrite entered_app, left_app, Hlog. unfold entered, left_. cbn.
    by rewrite H, !app_nil_r.
  - eapply wp_setQueue; [by rewrite Eq|]. unfold Ftq.notify, Ftq.stat. wp_steps.
    apply (ftq_inv_update n k s _ tid (queueOf s tid ++ [ft]) [FTQInsert ft] Hinv Ht);
      [by repeat constructor| |by ftq_no_removal|ftq_same..].
    split_and!.
    + rewrite length_app. cbn. rewrite (fi_entries _ _ _ Hinv) in Hroom. lia.
    + apply Forall_app. by repeat constructor.
    + rewrite entered_app, left_app, Hlog. unfold entered, left_. cbn.
      rewrite H, Htid, Z.eqb_refl. cbn. by rewrite fmap_app, app_nil_r, app_assoc.
Qed.

Lemma kept_squash n k tid s :
  ftq_inv n k s -> ftq_enabled s (FSquash tid) ->
  wp (Ftq.squash tid) (fun _ s' => ftq_inv n k s') s.
Proof.
  intros Hinv (Ht & Hhist). cbn in Ht.
  destruct (ftq_inv_queue n k s tid Hinv Ht) as (Eq & Est & Hlen & Hall & Hlog).
  destruct (removed_all _ _ Hall) as (Hrm & Hab & He & Hl).
  unfold Ftq.squash. wp_steps. eapply wp_queue; [exact Eq|]. wp_steps.
  apply wp_ftq_squashLoop; [done|]. wp_steps. eapply wp_setQueue; [cbn; by rewrite Eq|].
  wp_steps. eapply wp_setStatus; [done|]. unfold Ftq.stat. wp_steps.
  apply (ftq_inv_update n k s _ tid [] (FTQRemove <$> queueOf s tid) Hinv Ht Hab);
    [|exact Hrm|ftq_same..].
  split_and!; [cbn; lia|constructor|].
  rewrite entered_app, left_app, Hlog, He, Hl. by rewrite !app_nil_r.
Qed.

Lemma kept_popHead n k tid s :
  ftq_inv n k s -> ftq_enabled s (FPopHead tid) ->
  wp (Ftq.popHead tid) (fun _ s' => ftq_inv n k s') s.
Proof.
  intros Hinv (Ht & Hne). cbn in Ht.
  destruct (ftq_inv_queue n k s tid Hinv Ht) as (Eq & [st0 Est] & Hlen & Hall & Hlog).
  unfold Ftq.popHead. wp_steps. eapply wp_queue; [exact Eq|].
  destruct (queueOf s tid) as [|ft q] eqn:Eqq; [done|].
  apply list.Forall_cons in Hall as [[Hft Hov] Hall].
  assert (Hacc : accounted tid n q (recent k tid s ++ [FTQRemove ft])).
  { split_and!; [cbn in Hlen; lia|done|].
    rewrite entered_app, left_app, Hlog. unfold entered, left_. cbn. rewrite Hft, Z.eqb_refl. cbn.
    by rewrite app_nil_r, <- app_assoc. }
  assert (Hab : about tid [FTQRemove ft]) by (by repeat constructor).
  assert (Hrm : forall ft', FTQRemove ft' ∈ [FTQRemove ft] -> is_override_ft ft' = false).
  { intros ft' [= ->]%list_elem_of_singleton. done. }
  wp_steps.
  - eapply wp_setStatus; [done|]. wp_steps.
    apply (ftq_inv_sameQueue n k s _ Hinv); ftq_same.
  - eapply wp_status; [exact Est|]. wp_steps.
    + eapply wp_setStatus; [done|]. unfold Ftq.notify, Ftq.stat. wp_steps.
      eapply wp_setQueue; [cbn; by rewrite Eq|]. wp_steps.
      apply (ftq_inv_update n k s _ tid q [FTQRemove ft] Hinv Ht Hab Hacc Hrm); ftq_same.
    + unfold Ftq.notify, Ftq.stat. wp_steps.
      eapply wp_setQueue; [cbn; by rewrite Eq|]. wp_steps.
      apply (ftq_inv_update n k s _ tid q [FTQRemove ft] Hinv Ht Hab Hacc Hrm); ftq_same.
Qed.

Lemma accounted_map tid n q l f :
  keeps_id f -> accounted tid n q l -> accounted tid n (f <$> q) l.
Proof.
  intros Hf (H1 & H2 & H3). split_and!.
  - by rewrite length_fmap.
  - apply Forall_fmap. eapply list.Forall_impl; [exact H2|].
    intros ft [? ?]. cbn. destruct (Hf ft) as (_ & -> & ->). done.
  - rewrite H3, <- list_fmap_compose. f_equal. apply list_fmap_ext. intros i ft _.
    symmetry. apply Hf.
Qed.

Lemma kept_forAll n k tid f (q' : list FetchTarget -> list FetchTarget) s :
  ftq_inv n k s -> 0 <= tid < Z.of_nat MaxThreads -> keeps_id f ->
  (forall q, q' q = f <$> q) ->
  wp (q ← Ftq.queue tid; Ftq.setQueue tid (q' q)) (fun _ s' => ftq_inv n k s') s.
Proof.
  intros Hinv Ht Hf Hq'.
  destruct (ftq_inv_queue n k s tid Hinv Ht) as (Eq & Est & Hacc).
  wp_steps. eapply wp_queue; [exact Eq|]. eapply wp_setQueue; [by rewrite Eq|].
  rewrite Hq'.  apply (ftq_inv_update n k s _ tid (f <$> queueOf s tid) [] Hinv Ht);
    [constructor| |by intros ? ?%not_elem_of_nil|try ftq_same..|]; rewrite app_nil_r; [|done].
  by apply accounted_map.
Qed.

Lemma kept_reset n k tid s :
  0 <= n -> ftq_inv n k s -> 0 <= tid < Z.of_nat MaxThreads ->
  wp (Ftq.resetState tid) (fun _ s' => ftq_inv n (afterReset (FReset tid) s' k) s') s.
Proof.
  intros Hn0 Hinv Ht. destruct (ftq_inv_queue n k s tid Hinv Ht) as (Eq & Est & _).
  unfold Ftq.resetState. wp_steps. eapply wp_setQueue; [by rewrite Eq|]. eapply wp_setStatus; [done|].
  destruct Hinv as [Hn Hq Hs Ha Hk Hrm]. unfold afterReset, recent in *. cbn.
  constructor; cbn; rewrite ?length_insert; try done.
  - intros i q Hi. unfold recent. cbn. destruct (Z.eqb_spec (Z.of_nat i) tid) as [<-|Hne].
    + rewrite Nat2Z.id, list_lookup_insert_eq in Hi by (rewrite Hq; lia). injection Hi as <-.
      rewrite drop_ge by done. split_and!; [done|constructor|done].
    + rewrite list_lookup_insert_ne in Hi by lia. by apply Ha.
  - intros t. by destruct (t =? tid).
Qed.

Lemma kept_exec n k o s :
  0 <= n -> ftq_inv n k s -> ftq_enabled s o ->
  wp (ftq_exec o) (fun _ s' => ftq_inv n (afterReset o s' k) s') s.
Proof.
  intros Hn Hinv Hen. destruct o as [tid ft|tid|tid|tid|tid|tid|tid [] f]; cbn [ftq_exec afterReset].
  - by apply kept_insert.
  - wp_steps. eapply wp_mono; [by apply kept_popHead|]. intros b s' H. by wp_steps.
  - by apply kept_squash.
  - destruct Hen as [Ht _]. cbn in Ht.
    destruct (ftq_inv_queue n k s tid Hinv Ht) as (Eq & Est & _).
    unfold Ftq.invalidate. wp_steps. eapply wp_queue; [exact Eq|]. wp_steps; [|done].
    eapply wp_setStatus; [done|]. apply (ftq_inv_sameQueue n k s _ Hinv); ftq_same.
  - destruct Hen as [Ht _]. cbn in Ht.
    destruct (ftq_inv_queue n k s tid Hinv Ht) as (Eq & Est & _).
    unfold Ftq.lock. eapply wp_setStatus; [done|]. apply (ftq_inv_sameQueue n k s _ Hinv); ftq_same.
  - apply kept_reset; [done|done|apply Hen].
  - destruct Hen as [Ht Hf]. apply (kept_forAll n k _ f); [done..|].
    intros q. by rewrite fmap_reverse, reverse_involutive.
  - destruct Hen as [Ht Hf]. by apply (kept_forAll n k _ f).
Qed.

Lemma ftq_make_inv n : 0 <= n -> ftq_inv n noReset (Ftq.make n).
Proof.
  intros Hn. constructor; try done.
  - intros i q Hi. apply lookup_replicate in Hi as [-> _]. split_and!; [cbn; lia|constructor|done].
  - by intros ft ?%not_elem_of_nil.
Qed.

Lemma ftq_reach_inv n k s : 0 <= n -> ftq_reach n k s -> ftq_inv n k s.
Proof.
  intros Hn. induction 1 as [|k s o s' _ IH Hen E]; [by apply ftq_make_inv|].
  exact (wp_result _ _ _ _ _ (kept_exec n k o s Hn IH Hen) E).
Qed.

Lemma ftq_exec_status o s s' :
  match o with FLock _ | FSquash _ | FReset _ => False | _ => True end ->
  ftq_exec o s = Ok (tt, s') ->
  ftqStatus s' = ftqStatus s \/
  ftqStatus s' = <[Z.to_nat (op_tid o) := Invalid]> (ftqStatus s).
Proof.
  intros Ho E. destruct o as [tid ft|tid|tid|tid|tid|tid|tid b f]; try done; cbn [op_tid].
  1: unfold ftq_exec, Ftq.insert in E.
  2: unfold ftq_exec, Ftq.popHead in E.
  3: unfold ftq_exec, Ftq.invalidate in E.
  4: destruct b; unfold ftq_exec, Ftq.forAllForward, Ftq.forAllBackward in E.
  all: unfold Ftq.setQueue, Ftq.setStatus, Ftq.queue, Ftq.status, Ftq.notify, Ftq.stat, massert,
    when, at_index, fault, modify, gets, mret, M_ret, mbind, M_bind in E.
  all: repeat case_match; simplify_eq; cbn; auto.
Qed.

(** ** Properties *)

Definition ftq_run (os : list FtqOp) (s : FTQ) : Res FTQ :=
  foldl (fun r o => r ≫= fun s => resMap snd (ftq_exec o s)) (Ok s) os.

Definition demoPC (a : Addr) : PCStateBase := mkPC a 0.
Definition demoFT (n : Z) : FetchTarget := FT.make 0 (demoPC (0x1000 + 16 * n)) n.
Definition detach (ft : FetchTarget) : FetchTarget := ft <| bpuHistory := None |>.

(** The state of a two-entry queue after some operations. *)
Definition demoAt (os : list FtqOp) : FTQ :=
  match ftq_run os (Ftq.make 2) with Ok s => s | Err _ => Ftq.make 2 end.
(** Before the first target the thread is reset, which drops target 6; an override
    target is announced and dropped. *)
Definition demoOps : list FtqOp :=
  [FInsert 0 (demoFT 6); FReset 0; FInsert 0 (demoFT 7); FInsert 0 ((demoFT 8) <| is_override_ft := true |>);
   FInsert 0 (demoFT 9); FPopHead 0].
Definition demoQueue : FTQ := demoAt demoOps.
Definition demoSince : ThreadID -> nat := afterReset (FReset 0) (demoAt (take 2 demoOps)) noReset.

Lemma demoQueue_reach : ftq_reach 2 demoSince demoQueue.
Proof.
  apply (ftq_reach_step 2 demoSince (demoAt (take 5 demoOps)) (FPopHead 0)); [|by vm_compute..].
  apply (ftq_reach_step 2 demoSince (demoAt (take 4 demoOps)) (FInsert 0 (demoFT 9))); [|by vm_compute..].
  apply (ftq_reach_step 2 demoSince (demoAt (take 3 demoOps))
    (FInsert 0 ((demoFT 8) <| is_override_ft := true |>))); [|by vm_compute..].
  apply (ftq_reach_step 2 demoSince (demoAt (take 2 demoOps)) (FInsert 0 (demoFT 7))); [|by vm_compute..].
  apply (ftq_reach_step 2 noReset (demoAt (take 1 demoOps)) (FReset 0)); [|by vm_compute..].
  apply (ftq_reach_step 2 noReset (demoAt []) (FInsert 0 (demoFT 6))); [|by vm_compute..].
  apply ftq_reach_make.
Defined.

(** [C33] The fetch target queue accounts for its targets: after any sequence of insertions, pops,
    squashes, invalidations, locks, resets and passes the stages are allowed to issue, the queue of a
    thread holds at most numFTQEntries targets, and since the last resetState of the thread (which drops
    its targets without announcing it) the targets announced as inserted are, in order, those announced
    as removed followed by those in the queue, except override targets, which are announced as inserted
    but are neither in the queue nor ever announced as removed. *)
Theorem ftq_accounting n since s tid :
  0 <= n -> ftq_reach n since s -> 0 <= tid < Z.of_nat MaxThreads ->
  Z.of_nat (length (queueOf s tid)) <= n /\
  entered tid (recent since tid s) = left_ tid (recent since tid s) ++ (ftSeqNum <$> queueOf s tid) /\
  forall ft, overridden ft (probes s) -> (ft ∉ queueOf s tid) /\ (FTQRemove ft ∉ probes s).
Proof.
  intros Hn Hr Ht. pose proof (ftq_reach_inv n since s Hn Hr) as Hinv.
  destruct (ftq_inv_queue n since s tid Hinv Ht) as (_ & _ & H1 & H2 & H3). split_and!; [done..|].
  intros ft [Hov _]. split.
  - intros Hin. rewrite list.Forall_forall in H2. destruct (H2 ft Hin) as [_ ?]. congruence.
  - intros Hin. apply (fi_removed _ _ _ Hinv) in Hin. congruence.
Qed.

Lemma ftq_accounting_witness :
  entered 0 (recent demoSince 0 demoQueue) = [7; 9] /\
  entered 0 (recent demoSince 0 demoQueue) =
    left_ 0 (recent demoSince 0 demoQueue) ++ (ftSeqNum <$> queueOf demoQueue 0).
Proof.
  split; [vm_compute; reflexivity|].
  apply (ftq_accounting 2 demoSince demoQueue 0); [lia|exact demoQueue_reach|by vm_compute].
Defined.

(** No operation that the stages are allowed to issue on a reachable
    queue fails an assertion or leaves the arrays. *)
Theorem ftq_no_fault n since s o :
  0 <= n -> ftq_reach n since s -> ftq_enabled s o -> isOk (ftq_exec o s) = true.
Proof.
  intros Hn Hr He. eapply wp_isOk, (kept_exec n since); [done| |done]. by apply ftq_reach_inv.
Qed.

Lemma ftq_no_fault_witness :
  queueOf demoQueue 0 = [demoFT 9] /\ isOk (ftq_exec (FSquash 0) demoQueue) = true.
Proof.
  split; [vm_compute; reflexivity|].
  apply (ftq_no_fault 2 demoSince demoQueue (FSquash 0)); [lia|exact demoQueue_reach|].
  split; [by vm_compute|]. vm_compute. by repeat constructor.
Defined.

(** [popHead] on every branch.  On an empty queue its assertion fails.
    A head that still carries a branch history stays in the queue, no removal
    is announced, the queue becomes invalid and the call fails.  Otherwise the
    head leaves the queue and is announced, exactly once; the call succeeds
    and keeps the status unless the queue was locked, in which case the queue
    is invalid afterwards and the call reports that a squash is needed. *)
Theorem ftq_popHead_branches s tid st q :
  ftq s !! Z.to_nat tid = Some q -> ftqStatus s !! Z.to_nat tid = Some st ->
  match q with
  | [] => Ftq.popHead tid s = Err AssertFail
  | ft :: rest =>
      exists b s', Ftq.popHead tid s = Ok (b, s') /\
      match bpuHistory ft with
      | Some _ => b = false /\ ftq s' = ftq s /\ probes s' = probes s /\
                  ftqStatus s' = <[Z.to_nat tid := Invalid]> (ftqStatus s)
      | None => b = negb (bool_decide (st = Locked)) /\
                ftq s' = <[Z.to_nat tid := rest]> (ftq s) /\
                probes s' = probes s ++ [FTQRemove ft] /\
                ftqStatus s' = <[Z.to_nat tid := if bool_decide (st = Locked) then Invalid
                                                 else st]> (ftqStatus s)
      end
  end.
Proof. apply ftq_popHead_cases. Qed.

Lemma ftq_popHead_branches_witness :
  exists b s', Ftq.popHead 0 demoQueue = Ok (b, s') /\
    b = true /\ probes s' = probes demoQueue ++ [FTQRemove (demoFT 9)].
Proof.
  destruct (ftq_popHead_branches demoQueue 0 Valid [demoFT 9]) as (b & s' & E & H);
    [vm_compute; reflexivity..|].
  cbn in H. destruct H as (Hb & _ & Hp & _). exists b, s'. split; [exact E|].
  split; [exact Hb|exact Hp].
Defined.

(** Recovery from an invalid queue needs a squash.  As long as a
    thread's queue is invalid [readHead] delivers nothing, and no operation of
    the thread other than [squash], [lock] and [resetState] makes it ready again. *)
Theorem ftq_invalid_until_squash s o s' tid :
  ftqStatus s !! Z.to_nat tid = Some Invalid -> op_tid o = tid ->
  match o with FLock _ | FSquash _ | FReset _ => False | _ => True end ->
  ftq_exec o s = Ok (tt, s') ->
  ftqStatus s' !! Z.to_nat tid = Some Invalid /\ Ftq.readHead tid s' = Ok (None, s').
Proof.
  intros Hst Ht Ho E.
  assert (H : ftqStatus s' !! Z.to_nat tid = Some Invalid).
  { apply ftq_exec_status in E; [|done]. rewrite Ht in E.
    destruct E as [-> | ->]; [done|].
    apply list_lookup_insert_eq. by apply lookup_lt_is_Some_1. }
  split; [done|]. unfold Ftq.readHead, Ftq.status, mbind, M_bind, gets. by rewrite H.
Qed.

Definition demoInvalid : FTQ := demoAt (demoOps ++ [FInvalidate 0]).

Lemma ftq_invalid_until_squash_witness :
  exists s', ftq_exec (FPopHead 0) demoInvalid = Ok (tt, s') /\
    ftqStatus s' !! 0%nat = Some Invalid /\ Ftq.readHead 0 s' = Ok (None, s').
Proof.
  eexists. split; [vm_compute; reflexivity|].
  apply (ftq_invalid_until_squash demoInvalid (FPopHead 0) _ 0);
    [vm_compute; reflexivity|reflexivity|exact I|vm_compute; reflexivity].
Defined.

(** The exception: [lock] overwrites the invalid status without looking at
    it, so that locking an invalid queue makes its head readable again without
    the squash that the interface asks for. *)
Theorem ftq_lock_revives_invalid :
  exists s', Ftq.readHead 0 demoInvalid = Ok (None, demoInvalid) /\
    ftq_exec (FLock 0) demoInvalid = Ok (tt, s') /\
    Ftq.readHead 0 s' = Ok (Some (demoFT 9), s').
Proof. eexists. split_and!; vm_compute; reflexivity. Qed.
