(* ===== verification/Fdp.v ===== *)
(** * The fetch-directed prefetcher

    [mem/cache/prefetch/fdp.hh] and [fdp.cc], with [Base::blockAddress] of
    [mem/cache/prefetch/base.cc].  The prefetcher listens to the notifications
    of the fetch target queue ([Ftq]): an insertion starts an address
    translation per cache block of the target, a finished translation puts a
    packet into the prefetch queue, the cache takes packets from it, and a
    removal drops what is left of the target.

    The MMU and the cache are parameters ([FdpEnv]): the MMU may finish a
    translation inside [translateTiming], in which case [translationComplete]
    runs while [notifyFTQInsert] is still in its loop, or later.  An entry of
    the translation queue is identified by the address of its list node, here
    a number that is never reused. *)

From Stdlib Require Import ZArith Lia Sorted.
From stdpp Require Import base list numbers.
From S2P Require Import Prelude Types Btb Ftq.

(** ** Parameters and environment *)
Record FdpParams := mkFdpParams {
  blkSize : Z;
  markReqAsPrefetch : bool;
  squashPrefetches : bool;
  fdp_latency : Tick;
  pfqSize : Z;
  tqSize : Z;
  cacheSnoop : bool
}.

(** What a finished translation tells: the fault and the translated request. *)
Record TransResult := mkTrans {
  tr_failed : bool;
  tr_paddr : Addr;
  tr_uncacheable : bool;
  tr_secure : bool
}.

(** [translateTiming] answers at once with [Some]; [cache] is null with
    [None], otherwise the two probes [inCache] and [inMissQueue]. *)
Record FdpEnv := mkFdpEnv {
  translateTiming : Tick -> Addr -> ThreadID -> option TransResult;
  cacheProbes : option ((Tick -> Addr -> bool -> bool) * (Tick -> Addr -> bool -> bool))
}.

(** ** PrefetchRequest *)
Record Packet := mkPacket { pkt_addr : Addr; pkt_vaddr : Addr; pkt_isPrefetch : bool }.

Record PrefetchRequest := mkPfReq {
  pr_id : Z;
  pr_addr : Addr;
  pr_tid : ThreadID;
  pr_ftn : Z;
  pr_isPrefetch : bool;
  pr_paddr : option Addr;
  pr_pkt : option Packet;
  readyTime : Tick;
  canceled : bool
}.

#[export] Instance eta_PrefetchRequest : Settable PrefetchRequest := fun r =>
  mkPfReq (pr_id r) (pr_addr r) (pr_tid r) (pr_ftn r) (pr_isPrefetch r) (pr_paddr r) (pr_pkt r)
    (readyTime r) (canceled r).

Inductive FdpStat :=
| PS_pfIdentified | PS_pfSquashed | PS_pfInPFQ | PS_pfInTQ | PS_pfInCache
| PS_pfPacketsCreated | PS_pfCandidatesAdded
| PS_translationFail | PS_translationSuccess
| PS_pfqSizeDistAtNotify (n : Z) | PS_tqSizeDistAtNotify (n : Z)
| PS_pfqInserts | PS_pfqPops | PS_pfqDrops | PS_tqInserts | PS_tqPops | PS_tqDrops
| PS_pfIssued.

#[export] Instance FdpStat_eq_dec : EqDecision FdpStat.
Proof. solve_decision. Defined.

Record FDP := mkFDP {
  pfq : list PrefetchRequest;
  translationq : list PrefetchRequest;
  nextId : Z;
  fdp_curTick : Tick;
  fdp_stats : list FdpStat
}.

#[export] Instance eta_FDP : Settable FDP := fun s =>
  mkFDP (pfq s) (translationq s) (nextId s) (fdp_curTick s) (fdp_stats s).

(** The conversion of an [Addr] to the [const int &] that
    [PrefetchRequest::operator==] takes. *)
Definition int_of (z : Z) : Z :=
  let w := u32 z in if w <? 2 ^ 31 then w else w - 2 ^ 32.

Module Req.
Definition make (p : FdpParams) (id : Z) (_addr : Addr) (tid : ThreadID) (_ftn : Z)
  : PrefetchRequest :=
  mkPfReq id _addr tid _ftn (markReqAsPrefetch p) None None MaxTick false.
(** [operator==(const int &a)]: [this->addr == a] compares as [uint64_t]. *)
Definition eqAddr (r : PrefetchRequest) (blk : Addr) : bool := pr_addr r =? u64 (int_of blk).
Definition createPkt (r : PrefetchRequest) : PrefetchRequest :=
  r <| pr_pkt := Some (mkPacket (default 0 (pr_paddr r)) (pr_addr r) (pr_isPrefetch r)) |>.
Definition markCanceled (r : PrefetchRequest) : PrefetchRequest := r <| canceled := true |>.
Definition isCanceled (r : PrefetchRequest) : bool := canceled r.
End Req.

Module Fdp.
Section Operations.
Context (p : FdpParams) (env : FdpEnv).

Definition make : FDP := mkFDP [] [] 0 0 [].

Definition stat (x : FdpStat) : M FDP unit := modify (fun s => s <| fdp_stats ::= cons x |>).

(** [Base::blockAddress] *)
Definition blockAddress (a : Addr) : Addr := Z.land a (u64 (Z.lnot (u64 (blkSize p - 1)))).

Definition nextPrefetchReadyTime (s : FDP) : Tick :=
  match pfq s with [] => MaxTick | r :: _ => readyTime r end.

Definition sizeOf (q : list PrefetchRequest) : Z := Z.of_nat (length q).

(** The condition under which a successful translation is dropped because of
    the cache. *)
Definition snoopHit (now : Tick) (t : TransResult) : bool :=
  cacheSnoop p &&
  match cacheProbes env with
  | None => false
  | Some (inCache, inMissQueue) =>
      inCache now (tr_paddr t) (tr_secure t) || inMissQueue now (tr_paddr t) (tr_secure t)
  end.

Definition translationComplete (pfr : Z) (t : TransResult) : M FDP unit :=
  tq ← gets translationq;
  match find_index (fun r => pr_id r =? pfr) tq with
  | None => fault AssertFail
  | Some k =>
      it ← at_index (tq !! k);
      let it := it <| pr_paddr := Some (tr_paddr t) |> in
      now ← gets fdp_curTick;
      (if tr_failed t then stat PS_translationFail else
       stat PS_translationSuccess ;;
       if Req.isCanceled it then mret tt
       else if tr_uncacheable t then mret tt
       else if snoopHit now t then stat PS_pfInCache
       else
         q ← gets pfq;
         if sizeOf q <? pfqSize p then
           let it := (Req.createPkt it) <| readyTime := u64 (now + fdp_latency p) |> in
           stat PS_pfPacketsCreated ;;
           stat PS_pfCandidatesAdded ;;
           modify (fun s => s <| pfq ::= fun q => q ++ [it] |>) ;;
           stat PS_pfqInserts
         else stat PS_pfqDrops) ;;
      modify (fun s => s <| translationq ::= delete k |>) ;;
      stat PS_tqPops
  end.

(** [PrefetchRequest::startTranslation] of the last entry, and [finish] when
    the MMU answers at once. *)
Definition startTranslation (r : PrefetchRequest) : M FDP unit :=
  now ← gets fdp_curTick;
  match translateTiming env now (pr_addr r) (pr_tid r) with
  | Some t => translationComplete (pr_id r) t
  | None => mret tt
  end.

(** The loop body of [notifyFTQInsert]. *)
Definition prefetchBlock (tid : ThreadID) (ftn : Z) (blk_addr : Addr) : M FDP unit :=
  q ← gets pfq;
  if existsb (fun r => Req.eqAddr r blk_addr) q then stat PS_pfInPFQ else
  tq ← gets translationq;
  if existsb (fun r => Req.eqAddr r blk_addr) tq then stat PS_pfInTQ else
  stat PS_pfIdentified ;;
  if tqSize p <=? sizeOf tq then stat PS_tqDrops else
  id ← gets nextId;
  let r := Req.make p id blk_addr tid ftn in
  modify (fun s => s <| translationq ::= fun q => q ++ [r] |> <| nextId := id + 1 |>) ;;
  startTranslation r ;;
  stat PS_tqInserts ;;
  n ← gets (fun s => sizeOf (translationq s)); stat (PS_tqSizeDistAtNotify n) ;;
  n ← gets (fun s => sizeOf (pfq s)); stat (PS_pfqSizeDistAtNotify n).

(** The block addresses the [for] loop visits; [None] when the fuel does not
    suffice. *)
Fixpoint blocksFrom (fuel : nat) (blk_addr end_blk_addr : Addr) : option (list Addr) :=
  match fuel with
  | O => None
  | S f =>
      if negb (blk_addr <=? end_blk_addr) then Some [] else
      if u32 (2 * blkSize p) <? u64 (end_blk_addr - blk_addr) then Some [] else
      cons blk_addr <$> blocksFrom f (u64 (blk_addr + blkSize p)) end_blk_addr
  end.

Definition blocks (ft : FetchTarget) : option (list Addr) :=
  blocksFrom 4 (blockAddress (FT.startAddress ft)) (blockAddress (FT.endAddress ft)).

Definition notifyFTQInsert (ft : FetchTarget) : M FDP unit :=
  l ← at_index (blocks ft);
  mfor l (prefetchBlock (ft_tid ft) (ftSeqNum ft)).

Definition notifyFTQRemove (ft : FetchTarget) : M FDP unit :=
  if negb (squashPrefetches p) then mret tt else
  tq ← gets translationq;
  mfor (filter (fun r => pr_ftn r = ftSeqNum ft) tq) (fun _ => stat PS_pfSquashed) ;;
  modify (fun s => s <| translationq ::=
    fmap (fun r => if pr_ftn r =? ftSeqNum ft then Req.markCanceled r else r) |>) ;;
  q ← gets pfq;
  mfor (filter (fun r => pr_ftn r = ftSeqNum ft) q) (fun _ => stat PS_pfSquashed) ;;
  modify (fun s => s <| pfq ::= filter (fun r => pr_ftn r <> ftSeqNum ft) |>).

Definition getPacket : M FDP (option Packet) :=
  q ← gets pfq;
  match q with
  | [] => mret None
  | r :: q' =>
      modify (fun s => s <| pfq := q' |>) ;;
      stat PS_pfqPops ;;
      stat PS_pfIssued ;;
      mret (pr_pkt r)
  end.

(** The listeners of [regProbeListeners]. *)
Definition onProbe (x : Probe) : M FDP unit :=
  match x with
  | FTQInsert ft => notifyFTQInsert ft
  | FTQRemove ft => notifyFTQRemove ft
  end.
End Operations.
End Fdp.
