(* ===== verification/FdpInv.v ===== *)
(** * Invariants of the fetch-directed prefetcher

    The blocks a fetch target is split into, and the invariant of the two
    queues under every interleaving of notifications, finished translations,
    packet requests and time. *)

From Stdlib Require Import ZArith Lia Sorted.
From stdpp Require Import base list numbers sorting.
From S2P Require Import Prelude Types Btb Ftq Fdp.

(** ** Blocks *)

Definition goodBlk (p : FdpParams) : Prop := exists k, 0 <= k <= 30 /\ blkSize p = 2 ^ k.

Lemma goodBlk_range p : goodBlk p -> 1 <= blkSize p <= 2 ^ 30.
Proof.
  intros (k & Hk & ->). split.
  - pose proof (Z.pow_pos_nonneg 2 k). lia.
  - apply Z.pow_le_mono_r; lia.
Qed.

Lemma blockAddress_mod p a :
  goodBlk p -> 0 <= a < 2 ^ 64 -> Fdp.blockAddress p a = a - a mod blkSize p.
Proof.
  intros Hg Ha. pose proof (goodBlk_range p Hg) as Hr. destruct Hg as (k & Hk & E).
  unfold Fdp.blockAddress. rewrite (u64_small (blkSize p - 1)) by lia.
  unfold u64. rewrite <- Z.land_ones by lia.
  rewrite (Z.land_comm (Z.lnot _)), Z.land_assoc, Z.land_ones, Z.mod_small by lia.
  rewrite <- Z.ldiff_land, E.
  replace (2 ^ k - 1) with (Z.ones k) by (rewrite Z.ones_equiv; lia).
  rewrite Z.ldiff_ones_r by lia. rewrite Z.shiftl_mul_pow2, Z.shiftr_div_pow2 by lia.
  pose proof (Z.div_mod a (2 ^ k)). lia.
Qed.

Section Blocks.
Context (p : FdpParams) (Hg : goodBlk p) (e : Z) (He : 0 <= e < 2 ^ 64).
Abbreviation B := (blkSize p).

Lemma blocksFrom_step f b :
  0 <= b <= e -> e - b <= 2 * B ->
  Fdp.blocksFrom p (S f) b e = cons b <$> Fdp.blocksFrom p f (u64 (b + B)) e.
Proof.
  intros Hb Hd. pose proof (goodBlk_range p Hg). cbn [Fdp.blocksFrom].
  rewrite (proj2 (Z.leb_le b e)) by lia. cbn [negb].
  rewrite u32_small, u64_small by lia. by rewrite (proj2 (Z.ltb_ge (2 * B) (e - b))) by lia.
Qed.

Lemma blocksFrom_long f b :
  0 <= b <= e -> 2 * B < e - b -> Fdp.blocksFrom p (S f) b e = Some [].
Proof.
  intros Hb Hd. pose proof (goodBlk_range p Hg). cbn [Fdp.blocksFrom].
  rewrite (proj2 (Z.leb_le b e)) by lia. cbn [negb].
  rewrite u32_small, u64_small by lia. by rewrite (proj2 (Z.ltb_lt (2 * B) (e - b))) by lia.
Qed.

(** Past the end the loop stops, also when the addition wraps around. *)
Lemma blocksFrom_past f b :
  0 <= b <= e -> e < b + B -> Fdp.blocksFrom p (S f) (u64 (b + B)) e = Some [].
Proof.
  intros Hb Hd. pose proof (goodBlk_range p Hg).
  destruct (Z_lt_ge_dec (b + B) (2 ^ 64)).
  - rewrite u64_small by lia. cbn [Fdp.blocksFrom].
    by rewrite (proj2 (Z.leb_gt (b + B) e)) by lia.
  - assert (u64 (b + B) = b + B - 2 ^ 64) as ->.
    { unfold u64. symmetry. apply (Z.mod_unique_pos _ _ 1); lia. }
    apply blocksFrom_long; lia.
Qed.

(** The loop visits at most three blocks: four units of fuel are enough. *)
Lemma blocksFrom_spec b :
  0 <= b <= e ->
  Fdp.blocksFrom p 4 b e =
  Some (if 2 * B <? e - b then [] else
        if e <? b + B then [b] else
        if e <? b + 2 * B then [b; b + B] else [b; b + B; b + 2 * B]).
Proof.
  intros Hb. pose proof (goodBlk_range p Hg).
  destruct (Z.ltb_spec (2 * B) (e - b)); [apply blocksFrom_long; lia|].
  rewrite blocksFrom_step by lia.
  destruct (Z.ltb_spec e (b + B)); [by rewrite blocksFrom_past by lia|].
  rewrite (u64_small (b + B)), blocksFrom_step by lia.
  replace (b + 2 * B) with (b + B + B) by lia.
  destruct (Z.ltb_spec e (b + B + B)); [by rewrite blocksFrom_past by lia|].
  rewrite (u64_small (b + B + B)), blocksFrom_step by lia.
  by rewrite blocksFrom_past by lia.
Qed.

Lemma blocksFrom_empty f b : e < b -> Fdp.blocksFrom p (S f) b e = Some [].
Proof. intros H. cbn [Fdp.blocksFrom]. by rewrite (proj2 (Z.leb_gt b e)). Qed.
End Blocks.

Definition goodFT (ft : FetchTarget) : Prop :=
  0 <= FT.startAddress ft < 2 ^ 64 /\ 0 <= FT.endAddress ft < 2 ^ 64.

Lemma blocks_ok p ft : goodBlk p -> goodFT ft -> is_Some (Fdp.blocks p ft).
Proof.
  intros Hg [Hs He]. pose proof (goodBlk_range p Hg).
  unfold Fdp.blocks. rewrite !blockAddress_mod by done.
  pose proof (Z.mod_pos_bound (FT.startAddress ft) (blkSize p)).
  pose proof (Z.mod_pos_bound (FT.endAddress ft) (blkSize p)).
  pose proof (Z.mod_le (FT.startAddress ft) (blkSize p)).
  pose proof (Z.mod_le (FT.endAddress ft) (blkSize p)).
  destruct (Z_le_gt_dec (FT.startAddress ft - FT.startAddress ft mod blkSize p)
              (FT.endAddress ft - FT.endAddress ft mod blkSize p)).
  - rewrite blocksFrom_spec by (done || lia). eauto.
  - rewrite blocksFrom_empty by lia. eauto.
Qed.

(** Blocks of a target whose blocks span at most three. *)
Lemma blocks_exact p ft :
  goodBlk p -> goodFT ft -> FT.startAddress ft <= FT.endAddress ft ->
  let s := FT.startAddress ft in
  let e := FT.endAddress ft in
  exists l, Fdp.blocks p ft = Some l /\
    if 2 * blkSize p <? Fdp.blockAddress p e - Fdp.blockAddress p s then l = []
    else NoDup l /\ forall b, b ∈ l <-> exists a, s <= a <= e /\ b = Fdp.blockAddress p a.
Proof.
  intros Hg [Hs He] Hle s e. pose proof (goodBlk_range p Hg) as Hr.
  assert (Hba : forall a, 0 <= a < 2 ^ 64 -> Fdp.blockAddress p a = blkSize p * (a / blkSize p)).
  { intros a Ha. rewrite blockAddress_mod by done.
    pose proof (Z.div_mod a (blkSize p)). lia. }
  fold s e in Hs, He, Hle. set (B := blkSize p) in *.
  assert (Hse : 0 <= s / B <= e / B) by (split; [apply Z.div_pos|apply Z.div_le_mono]; lia).
  assert (Hmul : B * (e / B) <= e) by (apply Z.mul_div_le; lia).
  unfold Fdp.blocks. fold s e. rewrite !Hba by done.
  rewrite blocksFrom_spec by (done || nia).
  eexists. split; [reflexivity|]. fold B.
  destruct (Z.ltb_spec (2 * B) (B * (e / B) - B * (s / B))); [done|].
  assert (Hall : forall b, (exists a, s <= a <= e /\ b = Fdp.blockAddress p a) <->
                           exists q, s / B <= q <= e / B /\ b = B * q).
  { intros b. split.
    - intros (a & Ha & ->). exists (a / B). rewrite Hba by lia.
      split; [split; apply Z.div_le_mono; lia|done].
    - intros (q & Hq & ->). exists (Z.max s (B * q)).
      pose proof (Z.mul_div_le s B). assert (B * q <= e) by nia.
      split; [lia|]. rewrite Hba by lia. f_equal.
      apply Z.div_unique with (r := Z.max s (B * q) - B * q); [|lia].
      left. pose proof (Z.mod_pos_bound s B). pose proof (Z.div_mod s B). nia. }
  setoid_rewrite Hall. clear Hall Hba.
  set (sq := s / B) in *. set (eq0 := e / B) in *. clearbody sq eq0.
  destruct (Z.ltb_spec (B * (eq0)) (B * (sq) + B)) as [H1|H1].
  { split; [apply NoDup_singleton|]. intros b. rewrite list_elem_of_singleton.
    split; [intros ->; exists (sq); lia|intros (q & Hq & ->)]. assert (q = sq) by nia. by subst. }
  destruct (Z.ltb_spec (B * (eq0)) (B * (sq) + 2 * B)) as [H2|H2].
  { assert (eq0 = sq + 1) by nia. split.
    - apply list.NoDup_cons. rewrite list_elem_of_singleton. split; [lia|apply NoDup_singleton].
    - intros b. rewrite !elem_of_cons. split.
      + intros [->|[->|[]%list.not_elem_of_nil]]; [exists (sq)|exists (sq + 1)]; lia.
      + intros (q & Hq & ->). assert (q = sq \/ q = sq + 1) as [-> | ->] by lia; [by left|].
        right; left. lia. }
  assert (eq0 = sq + 2) by nia. split.
  - repeat (apply list.NoDup_cons; split; [rewrite ?elem_of_cons, list.elem_of_nil; lia|]).
    by apply list.NoDup_nil.
  - intros b. rewrite !elem_of_cons. split.
    + intros [->|[->|[->|[]%list.not_elem_of_nil]]];
        [exists (sq)|exists (sq + 1)|exists (sq + 2)]; lia.
    + intros (q & Hq & ->).
      assert (q = sq \/ q = sq + 1 \/ q = sq + 2) as [-> | [-> | ->]] by lia;
        [by left|right; left; lia|right; right; left; lia].
Qed.

(** ** The interleavings *)

Inductive FdpOp :=
| PProbe (x : Probe)
| PComplete (id : Z) (t : TransResult)
| PGetPacket
| PTick (t : Tick).

Definition fdp_exec (p : FdpParams) (env : FdpEnv) (o : FdpOp) : M FDP unit :=
  match o with
  | PProbe x => Fdp.onProbe p env x
  | PComplete id t => Fdp.translationComplete p env id t
  | PGetPacket => Fdp.getPacket ;; mret tt
  | PTick t => modify (fun s => s <| fdp_curTick := t |>)
  end.

(** The fetch targets announced as removed so far. *)
Definition fdp_removed (o : FdpOp) (R : list Z) : list Z :=
  match o with PProbe (FTQRemove ft) => ftSeqNum ft :: R | _ => R end.

(** What the environment guarantees: an inserted target has a number that was
    not removed before (the numbers are fresh), the MMU finishes translations
    it was given, and time does not go back. *)
Definition fdp_enabled (p : FdpParams) (s : FDP) (R : list Z) (o : FdpOp) : Prop :=
  match o with
  | PProbe (FTQInsert ft) => goodFT ft /\ ftSeqNum ft ∉ R
  | PProbe (FTQRemove _) => True
  | PComplete id _ => id ∈ pr_id <$> translationq s
  | PGetPacket => True
  | PTick t => fdp_curTick s <= t /\ t + fdp_latency p < 2 ^ 64
  end.

Inductive fdp_reach (p : FdpParams) (env : FdpEnv) : FDP -> list Z -> Prop :=
| fdp_reach_make : fdp_reach p env Fdp.make []
| fdp_reach_step s R o s' :
    fdp_reach p env s R -> fdp_enabled p s R o -> fdp_exec p env o s = Ok (tt, s') ->
    fdp_reach p env s' (fdp_removed o R).

(** ** The invariant *)

Definition cnt (x : FdpStat) (s : FDP) : Z :=
  stat_count (fun y => bool_decide (y = x)) (fdp_stats s).
#[global] Arguments cnt : simpl never.

(** An entry of the prefetch queue: it has its packet, it was not cancelled. *)
Definition pfq_entry (p : FdpParams) (R : list Z) (r : PrefetchRequest) : Prop :=
  canceled r = false /\ (exists k, pr_pkt r = Some k /\ pkt_vaddr k = pr_addr r) /\
  (squashPrefetches p = true -> pr_ftn r ∉ R).

Definition tq_entry (p : FdpParams) (R : list Z) (n : Z) (r : PrefetchRequest) : Prop :=
  pr_id r < n /\ (squashPrefetches p = true -> pr_ftn r ∈ R -> canceled r = true).

(** [off] is 1 between the insertion into the translation queue and the
    increment of [tqInserts]. *)
Record fdp_inv (p : FdpParams) (R : list Z) (off : Z) (s : FDP) : Prop := {
  fv_pfq : Fdp.sizeOf (pfq s) <= pfqSize p;
  fv_tq : Fdp.sizeOf (translationq s) <= tqSize p;
  fv_ids : NoDup (pr_id <$> translationq s);
  fv_pf : Forall (pfq_entry p R) (pfq s);
  fv_tr : Forall (tq_entry p R (nextId s)) (translationq s);
  fv_ready : StronglySorted Z.le (readyTime <$> pfq s);
  fv_due : Forall (fun r => readyTime r <= fdp_curTick s + fdp_latency p) (pfq s);
  fv_now : 0 <= fdp_curTick s /\ fdp_curTick s + fdp_latency p < 2 ^ 64;
  fv_inserts : cnt PS_tqInserts s + off = cnt PS_tqPops s + Fdp.sizeOf (translationq s);
  fv_pops : cnt PS_tqPops s = cnt PS_translationFail s + cnt PS_translationSuccess s;
  fv_identified : cnt PS_pfIdentified s = cnt PS_tqInserts s + off + cnt PS_tqDrops s;
  fv_created : cnt PS_pfqInserts s = cnt PS_pfPacketsCreated s;
  fv_issued : cnt PS_pfqPops s = cnt PS_pfIssued s
}.

Lemma cnt_cons x y s :
  cnt x (s <| fdp_stats ::= cons y |>) = (if bool_decide (y = x) then 1 else 0) + cnt x s.
Proof. reflexivity. Qed.

(** A statistic outside the balances. *)
Lemma fdp_inv_stat p R off x s :
  match x with
  | PS_pfSquashed | PS_pfInPFQ | PS_pfInTQ | PS_pfInCache | PS_pfCandidatesAdded
  | PS_pfqSizeDistAtNotify _ | PS_tqSizeDistAtNotify _ | PS_pfqDrops => True
  | _ => False
  end ->
  fdp_inv p R off s -> fdp_inv p R off (s <| fdp_stats ::= cons x |>).
Proof.
  intros Hx [? ? ? ? ? ? ? ? H1 H2 H3 H4 H5].
  constructor; cbn; try assumption; rewrite !cnt_cons;
    destruct x; try done; exact H1 || exact H2 || exact H3 || exact H4 || exact H5.
Qed.

(** What an operation preserves while the numbers of the removed targets stay
    the same. *)
Section Kept.
Context (p : FdpParams) (env : FdpEnv).
Context (Hlat : 0 <= fdp_latency p).

(** The queues after a request left the translation queue. *)
Lemma fdp_inv_drop R off s k (st : list FdpStat) :
  fdp_inv p R off s -> (k < length (translationq s))%nat ->
  cnt PS_tqInserts (s <| fdp_stats := st |>) = cnt PS_tqInserts s ->
  cnt PS_tqPops (s <| fdp_stats := st |>) = cnt PS_tqPops s + 1 ->
  cnt PS_translationFail (s <| fdp_stats := st |>)
    + cnt PS_translationSuccess (s <| fdp_stats := st |>) =
    cnt PS_translationFail s + cnt PS_translationSuccess s + 1 ->
  cnt PS_pfIdentified (s <| fdp_stats := st |>) = cnt PS_pfIdentified s ->
  cnt PS_tqDrops (s <| fdp_stats := st |>) = cnt PS_tqDrops s ->
  cnt PS_pfqInserts (s <| fdp_stats := st |>) - cnt PS_pfPacketsCreated (s <| fdp_stats := st |>) =
    cnt PS_pfqInserts s - cnt PS_pfPacketsCreated s ->
  cnt PS_pfqPops (s <| fdp_stats := st |>) = cnt PS_pfqPops s ->
  cnt PS_pfIssued (s <| fdp_stats := st |>) = cnt PS_pfIssued s ->
  fdp_inv p R off (s <| fdp_stats := st |> <| translationq ::= delete k |>).
Proof.
  intros [H1 H2 H3 H4 H5 H6 H7 H8 B1 B2 B3 B4 B5] Hk C1 C2 C3 C4 C5 C6 C7 C8.
  assert (Hlen : Fdp.sizeOf (delete k (translationq s)) = Fdp.sizeOf (translationq s) - 1).
  { unfold Fdp.sizeOf. rewrite length_delete by (by apply lookup_lt_is_Some_2). lia. }
  constructor; try (unfold cnt in *; cbn in *; rewrite ?Hlen; lia || assumption).
  - cbn. rewrite list_fmap_delete. by eapply sublist_NoDup, sublist_delete.
  - cbn. by apply Forall_delete.
Qed.

Lemma fdp_inv_push R off s it :
  fdp_inv p R off s -> Fdp.sizeOf (pfq s) < pfqSize p -> pfq_entry p R it ->
  readyTime it = fdp_curTick s + fdp_latency p ->
  fdp_inv p R off (s <| pfq ::= fun q => q ++ [it] |>).
Proof.
  intros [H1 H2 H3 H4 H5 H6 H7 H8 B1 B2 B3 B4 B5] Hsz Hit Hr.
  constructor; try assumption; cbn.
  - unfold Fdp.sizeOf in *. rewrite length_app. cbn. lia.
  - apply Forall_app. split; [done|by apply list.Forall_singleton].
  - rewrite fmap_app. cbn. apply StronglySorted_app_2; [|done|repeat constructor].
    intros x1 x2 Hx1 ->%list_elem_of_singleton. apply list_elem_of_fmap in Hx1 as (r & -> & Hin).
    rewrite Hr. exact (proj1 (list.Forall_forall _ _) H7 r Hin).
  - apply Forall_app. split; [done|]. apply list.Forall_singleton. lia.
Qed.

Lemma find_id_Some pfr (tq : list PrefetchRequest) :
  pfr ∈ pr_id <$> tq ->
  exists k it, find_index (fun r => pr_id r =? pfr) tq = Some k /\ tq !! k = Some it /\
               pr_id it = pfr.
Proof.
  intros (r & -> & Hin)%list_elem_of_fmap.
  destruct (find_index (fun r0 => pr_id r0 =? pr_id r) tq) as [k|] eqn:Ef.
  - destruct (find_index_Some _ _ _ Ef) as (it & Hk & Hid). exists k, it.
    split_and!; [done..|]. by apply Z.eqb_eq.
  - apply find_index_None in Ef.
    apply (proj1 (list.Forall_forall _ _) Ef) in Hin. by rewrite Z.eqb_refl in Hin.
Qed.

Ltac cnt_solve :=
  unfold cnt; cbn; repeat (case_bool_decide; try congruence); lia.
Ltac drop_with st :=
  lazymatch goal with
  | H : fdp_inv _ ?R ?off ?s, Hk : translationq ?s !! ?k = Some _ |- _ =>
      refine (fdp_inv_drop R off s k (st ++ fdp_stats s) H _ _ _ _ _ _ _ _ _);
      [by eapply lookup_lt_Some|cnt_solve..]
  end.

Lemma kept_translationComplete R off pfr t s :
  fdp_inv p R off s -> pfr ∈ pr_id <$> translationq s ->
  wp (Fdp.translationComplete p env pfr t)
     (fun _ s' => fdp_inv p R off s' /\ nextId s' = nextId s /\
                  exists k, translationq s' = delete k (translationq s)) s.
Proof.
  intros Hinv Hin. destruct (find_id_Some _ _ Hin) as (k & it & Ef & Hk & Hid).
  assert (Hit : tq_entry p R (nextId s) it).
  { apply (proj1 (list.Forall_forall _ _) (fv_tr _ _ _ _ Hinv)).
    by eapply list_elem_of_lookup_2. }
  unfold Fdp.translationComplete. wp_steps. rewrite Ef. wp_steps.
  eapply wp_at_index; [exact Hk|]. unfold Fdp.stat. wp_steps;
    (split; [|cbn; split; [done|by exists k]]).
  - drop_with [PS_tqPops; PS_translationFail].
  - drop_with [PS_tqPops; PS_translationSuccess].
  - drop_with [PS_tqPops; PS_translationSuccess].
  - drop_with [PS_tqPops; PS_pfInCache; PS_translationSuccess].
  - set (it' := _ <| readyTime := _ |>).
    assert (Hinv' : fdp_inv p R off (s <| pfq ::= fun q => q ++ [it'] |>)).
    { pose proof (fv_now _ _ _ _ Hinv) as Hnow.
      apply fdp_inv_push; [done|by apply Z.ltb_lt| |].
      - split_and!; [done|eexists; split; reflexivity|].
        intros Hsq HR. destruct Hit as [_ Hc]. specialize (Hc Hsq HR).
        unfold Req.isCanceled in *. cbn in *. congruence.
      - cbn. apply u64_small. lia. }
    assert (Hk' : translationq (s <| pfq ::= fun q => q ++ [it'] |>) !! k = Some it) by done.
    clear Hinv Hk. set (s1 := s <| pfq ::= _ |>) in *.
    drop_with [PS_tqPops; PS_pfqInserts; PS_pfCandidatesAdded; PS_pfPacketsCreated;
               PS_translationSuccess].
  - drop_with [PS_tqPops; PS_pfqDrops; PS_translationSuccess].
Qed.
(** A fresh request at the end of the translation queue, not yet counted by
    [tqInserts]. *)
Lemma fdp_inv_enqueue R s r :
  fdp_inv p R 0 s -> Fdp.sizeOf (translationq s) < tqSize p ->
  pr_id r = nextId s -> pr_ftn r ∉ R ->
  fdp_inv p R 1 (s <| fdp_stats ::= cons PS_pfIdentified |>
                   <| translationq ::= fun q => q ++ [r] |> <| nextId := nextId s + 1 |>).
Proof.
  intros [H1 H2 H3 H4 H5 H6 H7 H8 B1 B2 B3 B4 B5] Hsz Hid Hftn.
  assert (Hlt : Forall (fun r0 => pr_id r0 < nextId s) (translationq s)).
  { eapply list.Forall_impl; [exact H5|]. by intros r0 [? _]. }
  assert (Hlen : Fdp.sizeOf (translationq s ++ [r]) = Fdp.sizeOf (translationq s) + 1).
  { unfold Fdp.sizeOf. rewrite length_app. cbn. lia. }
  constructor; try assumption.
  - cbn. lia.
  - cbn. rewrite fmap_app. apply NoDup_app. split_and!; [done| |apply NoDup_singleton].
    intros x Hx ->%list_elem_of_singleton. apply list_elem_of_fmap in Hx as (r0 & Hr0 & Hin).
    apply (proj1 (list.Forall_forall _ _) Hlt) in Hin. lia.
  - cbn. apply Forall_app. split.
    + eapply list.Forall_impl; [exact H5|]. intros r0 [? ?]. split; [lia|done].
    + apply list.Forall_singleton. split; [lia|done].
  - cbn [translationq]. unfold setf. cbn [translationq]. rewrite Hlen.
    unfold cnt in *. cbn. repeat (case_bool_decide; try congruence). lia.
  - unfold cnt in *. cbn. repeat (case_bool_decide; try congruence). lia.
Qed.

Lemma fdp_inv_counted R s :
  fdp_inv p R 1 s -> fdp_inv p R 0 (s <| fdp_stats ::= cons PS_tqInserts |>).
Proof.
  intros [H1 H2 H3 H4 H5 H6 H7 H8 B1 B2 B3 B4 B5].
  constructor; try assumption; unfold cnt in *; cbn;
    repeat (case_bool_decide; try congruence); lia.
Qed.

Lemma fdp_inv_dropped R s :
  fdp_inv p R 0 s ->
  fdp_inv p R 0 (s <| fdp_stats ::= cons PS_pfIdentified |> <| fdp_stats ::= cons PS_tqDrops |>).
Proof.
  intros [H1 H2 H3 H4 H5 H6 H7 H8 B1 B2 B3 B4 B5].
  constructor; try assumption; unfold cnt in *; cbn;
    repeat (case_bool_decide; try congruence); lia.
Qed.

Lemma kept_prefetchBlock R tid ftn blk s :
  fdp_inv p R 0 s -> ftn ∉ R ->
  wp (Fdp.prefetchBlock p env tid ftn blk) (fun _ s' => fdp_inv p R 0 s') s.
Proof.
  intros Hinv Hftn. unfold Fdp.prefetchBlock, Fdp.stat. wp_steps.
  - by apply fdp_inv_stat.
  - by apply fdp_inv_stat.
  - by apply fdp_inv_dropped.
  - set (r := Req.make _ _ _ _ _).
    assert (Hinv1 := fdp_inv_enqueue R s r Hinv).
    match type of Hinv1 with ?A -> _ => assert (HA : A) by (apply Z.leb_gt in H1; exact H1) end.
    specialize (Hinv1 HA eq_refl Hftn).
    assert (Hcase : wp (Fdp.startTranslation p env r) (fun _ s' => fdp_inv p R 1 s')
      (s <| fdp_stats ::= cons PS_pfIdentified |>
         <| translationq ::= fun q => q ++ [r] |> <| nextId := nextId s + 1 |>)).
    { unfold Fdp.startTranslation. wp_steps.
      destruct (translateTiming env _ _ _) as [t|]; [|by apply wp_ret].
      eapply wp_mono; [apply (kept_translationComplete R 1); [exact Hinv1|]|].
      - cbn. rewrite fmap_app. apply elem_of_app. right. by apply list_elem_of_singleton.
      - by intros _ s' [? _]. }
    eapply wp_mono; [exact Hcase|]. intros ? s' Hs'. wp_steps.
    apply fdp_inv_stat; [done|]. apply fdp_inv_stat; [done|]. by apply fdp_inv_counted.
Qed.

Lemma kept_notifyFTQInsert R ft s :
  goodBlk p -> goodFT ft -> ftSeqNum ft ∉ R -> fdp_inv p R 0 s ->
  wp (Fdp.notifyFTQInsert p env ft) (fun _ s' => fdp_inv p R 0 s') s.
Proof.
  intros Hg Hft HR Hinv. destruct (blocks_ok p ft Hg Hft) as [l Hl].
  unfold Fdp.notifyFTQInsert. wp_steps. eapply wp_at_index; [exact Hl|].
  apply wp_mfor; [done|]. intros b s' _ Hs'. by apply kept_prefetchBlock.
Qed.

Lemma sorted_filter (P : PrefetchRequest -> Prop) `{!forall r, Decision (P r)} q :
  StronglySorted Z.le (readyTime <$> q) -> StronglySorted Z.le (readyTime <$> filter P q).
Proof.
  induction q as [|r q IH]; intros Hq; [constructor|].
  apply StronglySorted_inv in Hq as [Hs Hf]. rewrite filter_cons.
  case_decide; [|auto]. constructor; [by apply IH|].
  apply Forall_fmap, list.Forall_forall. intros x [_ Hx]%list_elem_of_filter.
  apply (proj1 (Forall_fmap readyTime (Z.le (readyTime r)) q)) in Hf.
  exact (proj1 (list.Forall_forall _ _) Hf x Hx).
Qed.

(** The passes of [notifyFTQRemove] over the two queues. *)
Lemma fdp_inv_cancel R ftn s :
  fdp_inv p R 0 s ->
  fdp_inv p (ftn :: R) 0
    (s <| translationq ::=
            fmap (fun r => if pr_ftn r =? ftn then Req.markCanceled r else r) |>
       <| pfq ::= filter (fun r => pr_ftn r <> ftn) |>).
Proof.
  intros [H1 H2 H3 H4 H5 H6 H7 H8 B1 B2 B3 B4 B5].
  constructor; try (exact H8 || assumption || unfold Fdp.sizeOf in *; cbn in *;
                    rewrite ?length_fmap; assumption).
  - cbn. unfold Fdp.sizeOf in *. pose proof (length_filter (fun r => pr_ftn r <> ftn) (pfq s)).
    lia.
  - cbn. rewrite <- list_fmap_compose. erewrite list_fmap_ext; [exact H3|].
    intros i r _. cbn. by destruct (pr_ftn r =? ftn).
  - cbn. apply list.Forall_forall. intros r [Hne Hin]%list_elem_of_filter.
    apply (proj1 (list.Forall_forall _ _) H4) in Hin as (Hc & Hk & HR).
    split_and!; [done..|]. intros Hsq. apply not_elem_of_cons. auto.
  - cbn. apply Forall_fmap. eapply list.Forall_impl; [exact H5|].
    intros r [Hid Hc]. unfold compose. cbn. destruct (Z.eqb_spec (pr_ftn r) ftn) as [E|E].
    + by split.
    + split; [done|]. intros Hsq [?|?]%elem_of_cons; [done|auto].
  - by apply sorted_filter.
  - cbn. apply list.Forall_forall. intros r [_ Hin]%list_elem_of_filter.
    exact (proj1 (list.Forall_forall _ _) H7 r Hin).
Qed.
Lemma wp_squashStats (l : list PrefetchRequest) R s (Q : unit -> FDP -> Prop) :
  fdp_inv p R 0 s ->
  (forall st, fdp_inv p R 0 (s <| fdp_stats := st |>) -> Q tt (s <| fdp_stats := st |>)) ->
  wp (mfor l (fun _ => Fdp.stat PS_pfSquashed)) Q s.
Proof.
  intros Hinv HQ. eapply wp_mono.
  - apply (wp_mfor (fun s' => fdp_inv p R 0 s' /\ s' = s <| fdp_stats := fdp_stats s' |>)).
    + by destruct s.
    + intros x s' _ [H E]. unfold Fdp.stat. wp_steps. split; [by apply fdp_inv_stat|].
      rewrite E at 1. reflexivity.
  - intros [] s' [H E]. rewrite E in *. auto.
Qed.

Lemma kept_notifyFTQRemove R ft s :
  fdp_inv p R 0 s ->
  wp (Fdp.notifyFTQRemove p ft) (fun _ s' => fdp_inv p (ftSeqNum ft :: R) 0 s') s.
Proof.
  intros Hinv. unfold Fdp.notifyFTQRemove. wp_steps.
  - apply negb_true_iff in H. destruct Hinv as [H1 H2 H3 H4 H5 H6 H7 H8 B1 B2 B3 B4 B5].
    constructor; try assumption.
    + eapply list.Forall_impl; [exact H4|]. intros r (? & ? & _). split_and!; [done..|].
      by rewrite H.
    + eapply list.Forall_impl; [exact H5|]. intros r (? & _). split; [done|]. by rewrite H.
  - apply (wp_squashStats _ R); [done|]. intros st Hst. wp_steps.
    assert (Hc := fdp_inv_cancel R (ftSeqNum ft) _ Hst).
    eapply wp_mono.
    + apply (wp_mfor (fun s' => fdp_inv p (ftSeqNum ft :: R) 0
        (s' <| pfq ::= filter (fun r => pr_ftn r <> ftSeqNum ft) |>))).
      * exact Hc.
      * intros x s' _ Hs'. unfold Fdp.stat. wp_steps.
        exact (fdp_inv_stat p _ 0 PS_pfSquashed _ I Hs').
    + intros ? s' Hs'. by wp_steps.
Qed.

Lemma kept_getPacket R s :
  fdp_inv p R 0 s ->
  wp Fdp.getPacket (fun k s' => fdp_inv p R 0 s' /\ (k = None <-> pfq s = [])) s.
Proof.
  intros Hinv. unfold Fdp.getPacket. wp_steps.
  destruct (pfq s) as [|r q] eqn:Eq; [by apply wp_ret|].
  unfold Fdp.stat. wp_steps.
  destruct Hinv as [H1 H2 H3 H4 H5 H6 H7 H8 B1 B2 B3 B4 B5].
  rewrite Eq in H1, H4, H6, H7.
  apply list.Forall_cons in H4 as [(_ & (k & Hk & _) & _) H4].
  apply list.Forall_cons in H7 as [_ H7].
  split; [|rewrite Hk; naive_solver].
  constructor; try assumption; try (unfold cnt in *; cbn;
    repeat (case_bool_decide; try congruence); lia).
  - unfold Fdp.sizeOf in *. cbn in *. lia.
  - by apply StronglySorted_inv in H6 as [? _].
Qed.

Lemma kept_fdp_exec R o s :
  goodBlk p -> fdp_inv p R 0 s -> fdp_enabled p s R o ->
  wp (fdp_exec p env o) (fun _ s' => fdp_inv p (fdp_removed o R) 0 s') s.
Proof.
  intros Hg Hinv Hen. destruct o as [[ft|ft]|id t| |t]; cbn [fdp_exec fdp_removed Fdp.onProbe].
  - destruct Hen. by apply kept_notifyFTQInsert.
  - by apply kept_notifyFTQRemove.
  - eapply wp_mono; [by apply (kept_translationComplete R 0)|]. by intros ? s' [? _].
  - wp_steps. eapply wp_mono; [by apply (kept_getPacket R)|]. intros ? s' [? _]. by wp_steps.
  - wp_steps. destruct Hen as [Ht Ht'].
    destruct Hinv as [H1 H2 H3 H4 H5 H6 H7 H8 B1 B2 B3 B4 B5].
    constructor; try assumption; [|cbn; lia].
    cbn. eapply list.Forall_impl; [exact H7|]. cbn. intros r Hr. lia.
Qed.

Lemma fdp_make_inv :
  0 <= pfqSize p -> 0 <= tqSize p -> fdp_latency p < 2 ^ 64 -> fdp_inv p [] 0 Fdp.make.
Proof. intros. constructor; try constructor; done. Qed.
End Kept.

(** ** A configuration *)
Definition goodFdp (p : FdpParams) : Prop :=
  goodBlk p /\ 0 <= fdp_latency p < 2 ^ 64 /\ 0 <= pfqSize p /\ 0 <= tqSize p.

Lemma fdp_reach_inv p env s R : goodFdp p -> fdp_reach p env s R -> fdp_inv p R 0 s.
Proof.
  intros (Hg & Hl & Hq & Ht). induction 1 as [|s R o s' _ IH Hen E].
  - apply fdp_make_inv; lia.
  - eapply (wp_result _ _ _ _ _ (kept_fdp_exec p env (proj1 Hl) R o s Hg IH Hen) E).
Qed.
