(* ===== verification/FdpSpec.v ===== *)
(** * What the fetch-directed prefetcher promises

    Properties of [Fdp] over every interleaving of [FdpInv.FdpOp], and the
    behaviour of its duplicate check. *)

From Stdlib Require Import ZArith Lia Sorted.
From stdpp Require Import base list numbers sorting.
From S2P Require Import Prelude Types Btb Ftq Fdp FdpInv.

(** A prefetcher with 64-byte blocks and four-entry queues, behind an MMU
    that answers later and without a cache to snoop. *)
Definition demoFdp : FdpParams := mkFdpParams 64 true true 500 4 4 true.
Definition demoEnv : FdpEnv := mkFdpEnv (fun _ _ _ => None) None.
Definition demoTrans : TransResult := mkTrans false 0x7000 false false.
Definition demoTarget (n a b : Z) : FetchTarget :=
  FT.finalize (mkPC b 0) true true (mkPC 0x2000 0) (FT.make 0 (mkPC a 0) n).

Lemma demoFdp_good : goodFdp demoFdp.
Proof. split; [exists 6; by vm_compute|]. by vm_compute. Defined.

Definition fdp_run (p : FdpParams) (env : FdpEnv) (os : list FdpOp) : FDP :=
  foldl (fun s o => match fdp_exec p env o s with Ok (_, s') => s' | Err _ => s end) Fdp.make os.

(** Target 1 covers the blocks 0x1000 and 0x1040; the translation of the first
    is done. *)
Definition demoFdpOps : list FdpOp :=
  [PTick 1000; PProbe (FTQInsert (demoTarget 1 0x1010 0x1044)); PComplete 0 demoTrans].
Definition demoFdpState (n : nat) : FDP := fdp_run demoFdp demoEnv (take n demoFdpOps).

Lemma demoFdp_reach : fdp_reach demoFdp demoEnv (demoFdpState 3) [].
Proof.
  apply (fdp_reach_step _ _ (demoFdpState 2) [] (PComplete 0 demoTrans));
    [|vm_compute; repeat constructor|by vm_compute].
  apply (fdp_reach_step _ _ (demoFdpState 1) [] (PProbe (FTQInsert (demoTarget 1 0x1010 0x1044))));
    [|split; [by vm_compute|apply not_elem_of_nil]|by vm_compute].
  apply (fdp_reach_step _ _ (demoFdpState 0) [] (PTick 1000)); [|by vm_compute..].
  apply fdp_reach_make.
Defined.

(** The prefetcher never fails: in any reachable state the notification
    of an inserted or removed target, the end of a pending translation and a
    request for a packet return, whatever the MMU and the cache answer, and
    whether the MMU answers at once or later. *)
Theorem fdp_no_fault p env s R o :
  goodFdp p -> fdp_reach p env s R -> fdp_enabled p s R o ->
  isOk (fdp_exec p env o s) = true.
Proof.
  intros Hg Hr Hen. pose proof (fdp_reach_inv p env s R Hg Hr) as Hinv.
  destruct Hg as (Hb & Hl & _). eapply wp_isOk, (kept_fdp_exec p env (proj1 Hl) R); done.
Qed.

Lemma fdp_no_fault_witness :
  pr_addr <$> translationq (demoFdpState 3) = [0x1040] /\
  isOk (fdp_exec demoFdp demoEnv (PComplete 1 demoTrans) (demoFdpState 3)) = true.
Proof.
  split; [vm_compute; reflexivity|].
  apply (fdp_no_fault demoFdp demoEnv (demoFdpState 3) [] (PComplete 1 demoTrans));
    [exact demoFdp_good|exact demoFdp_reach|vm_compute; repeat constructor].
Defined.

(** [C11] In any reachable state, for parameters with goodFdp, both queues of the fetch directed
    prefetcher respect their sizes, every queued prefetch has a packet for its own block,
    nextPrefetchReadyTime is the earliest ready time, and, with the parameter squashPrefetches on, none
    belongs to a fetch target announced as removed, also when its translation ended after the removal. *)
Theorem fdp_queue_sound p env s R :
  goodFdp p -> fdp_reach p env s R ->
  Fdp.sizeOf (pfq s) <= pfqSize p /\ Fdp.sizeOf (translationq s) <= tqSize p /\
  forall r, r ∈ pfq s ->
    (exists k, pr_pkt r = Some k /\ pkt_vaddr k = pr_addr r) /\
    (squashPrefetches p = true -> pr_ftn r ∉ R) /\
    Fdp.nextPrefetchReadyTime s <= readyTime r.
Proof.
  intros Hg Hr. destruct (fdp_reach_inv p env s R Hg Hr) as [H1 H2 _ H4 _ H6 _ _ _ _ _ _ _].
  split_and!; [done..|]. intros r Hin.
  destruct (proj1 (list.Forall_forall _ _) H4 r Hin) as (_ & Hk & HR).
  split_and!; [done..|]. unfold Fdp.nextPrefetchReadyTime.
  destruct (pfq s) as [|r0 q]; [by apply not_elem_of_nil in Hin|].
  apply StronglySorted_inv in H6 as [_ H6]. apply elem_of_cons in Hin as [->|Hin]; [lia|].
  apply (proj1 (Forall_fmap readyTime (Z.le (readyTime r0)) q)) in H6.
  exact (proj1 (list.Forall_forall _ _) H6 r Hin).
Qed.

Lemma fdp_queue_sound_witness :
  pr_addr <$> pfq (demoFdpState 3) = [0x1000] /\ Fdp.sizeOf (pfq (demoFdpState 3)) <= 4.
Proof.
  split; [vm_compute; reflexivity|].
  apply (fdp_queue_sound demoFdp demoEnv (demoFdpState 3) []);
    [exact demoFdp_good|exact demoFdp_reach].
Defined.

(** The statistics of the prefetcher account for every candidate: each
    identified block was either dropped or inserted into the translation
    queue; each insertion is still in the queue or was popped; each pop is a
    failed or a successful translation; each insertion into the prefetch
    queue is a created packet and each pop from it an issued prefetch. *)
Theorem fdp_accounting p env s R :
  goodFdp p -> fdp_reach p env s R ->
  cnt PS_pfIdentified s = cnt PS_tqInserts s + cnt PS_tqDrops s /\
  cnt PS_tqInserts s = cnt PS_tqPops s + Fdp.sizeOf (translationq s) /\
  cnt PS_tqPops s = cnt PS_translationFail s + cnt PS_translationSuccess s /\
  cnt PS_pfqInserts s = cnt PS_pfPacketsCreated s /\
  cnt PS_pfqPops s = cnt PS_pfIssued s.
Proof.
  intros Hg Hr. destruct (fdp_reach_inv p env s R Hg Hr) as [_ _ _ _ _ _ _ _ B1 B2 B3 B4 B5].
  split_and!; lia.
Qed.

Lemma fdp_accounting_witness :
  cnt PS_tqInserts (demoFdpState 3) = 2 /\
  cnt PS_pfIdentified (demoFdpState 3) =
    cnt PS_tqInserts (demoFdpState 3) + cnt PS_tqDrops (demoFdpState 3).
Proof.
  split; [vm_compute; reflexivity|].
  apply (fdp_accounting demoFdp demoEnv (demoFdpState 3) []);
    [exact demoFdp_good|exact demoFdp_reach].
Defined.

(** [C35] The blocks [notifyFTQInsert] visits for a fetch target are exactly the
    cache blocks that contain an address of the target, each once, when the
    last is at most two blocks after the first; for a longer target no block
    is visited.  The loop ends also when the block address wraps around the
    address space. *)
Theorem fdp_blocks_exact p ft :
  goodBlk p -> goodFT ft -> FT.startAddress ft <= FT.endAddress ft ->
  exists l, Fdp.blocks p ft = Some l /\
    if 2 * blkSize p <?
       Fdp.blockAddress p (FT.endAddress ft) - Fdp.blockAddress p (FT.startAddress ft)
    then l = []
    else NoDup l /\
         forall b, b ∈ l <-> exists a, FT.startAddress ft <= a <= FT.endAddress ft /\
                                       b = Fdp.blockAddress p a.
Proof. apply blocks_exact. Qed.

Lemma fdp_blocks_exact_witness :
  Fdp.blocks demoFdp (demoTarget 1 0x1010 0x1044) = Some [0x1000; 0x1040] /\
  exists l, Fdp.blocks demoFdp (demoTarget 1 0x1010 0x1044) = Some l /\
    (NoDup l /\ forall b, b ∈ l <-> exists a, 0x1010 <= a <= 0x1044 /\
                                              b = Fdp.blockAddress demoFdp a).
Proof.
  split; [vm_compute; reflexivity|].
  apply (fdp_blocks_exact demoFdp (demoTarget 1 0x1010 0x1044));
    [apply demoFdp_good|by vm_compute|by vm_compute].
Defined.

(** ** Duplicates *)

Definition addrs (s : FDP) : list Addr := (pr_addr <$> pfq s) ++ (pr_addr <$> translationq s).

Lemma eqAddr_low r b : 0 <= b < 2 ^ 31 -> Req.eqAddr r b = (pr_addr r =? b).
Proof.
  intros Hb. unfold Req.eqAddr, int_of. rewrite u32_small by lia.
  rewrite (proj2 (Z.ltb_lt b (2 ^ 31))) by lia. by rewrite u64_small by lia.
Qed.

Lemma existsb_eqAddr b q :
  0 <= b < 2 ^ 31 -> existsb (fun r => Req.eqAddr r b) q = false -> b ∉ pr_addr <$> q.
Proof.
  intros Hb. induction q as [|r q IH]; cbn; [intros _; apply not_elem_of_nil|].
  rewrite eqAddr_low by done. intros [H1 H2]%orb_false_iff.
  apply not_elem_of_cons. split; [|auto]. apply Z.eqb_neq in H1. congruence.
Qed.

(** A finished translation moves its request or drops it. *)
Lemma translationComplete_addrs p env pfr t s :
  pfr ∈ pr_id <$> translationq s ->
  wp (Fdp.translationComplete p env pfr t) (fun _ s' => addrs s' ⊆+ addrs s) s.
Proof.
  intros Hin. destruct (find_id_Some _ _ Hin) as (k & it & Ef & Hk & Hid).
  assert (Hperm : translationq s ≡ₚ it :: delete k (translationq s)) by (by apply delete_Permutation).
  assert (Hdrop : (pr_addr <$> pfq s) ++ (pr_addr <$> delete k (translationq s)) ⊆+ addrs s).
  { unfold addrs. rewrite Hperm at 2. apply submseteq_skips_l. by apply submseteq_cons. }
  unfold Fdp.translationComplete. wp_steps. rewrite Ef. wp_steps.
  eapply wp_at_index; [exact Hk|]. unfold Fdp.stat. wp_steps; try exact Hdrop.
  unfold addrs. cbn. rewrite Hperm at 2. rewrite fmap_app. cbn.
  rewrite <- app_assoc. reflexivity.
Qed.

Lemma prefetchBlock_distinct p env tid ftn blk s :
  0 <= blk < 2 ^ 31 -> NoDup (addrs s) ->
  wp (Fdp.prefetchBlock p env tid ftn blk) (fun _ s' => NoDup (addrs s')) s.
Proof.
  intros Hb Hnd. unfold Fdp.prefetchBlock, Fdp.stat. wp_steps; try exact Hnd.
  set (r := Req.make _ _ _ _ _).
  set (s1 := _ <| nextId := _ |>).
  assert (Hnd1 : NoDup (addrs s1)).
  { unfold addrs. cbn. rewrite fmap_app, app_assoc. apply NoDup_app. split_and!; [exact Hnd| |].
    - intros x Hx ->%list_elem_of_singleton. apply elem_of_app in Hx as [Hx|Hx];
        [by apply (existsb_eqAddr blk (pfq s))|by apply (existsb_eqAddr blk (translationq s))].
    - apply NoDup_singleton. }
  assert (Hst : wp (Fdp.startTranslation p env r) (fun _ s' => NoDup (addrs s')) s1).
  { unfold Fdp.startTranslation. wp_steps.
    destruct (translateTiming env _ _ _) as [t|]; [|by apply wp_ret].
    eapply wp_mono; [apply translationComplete_addrs|].
    - cbn. rewrite fmap_app. apply elem_of_app. right. by apply list_elem_of_singleton.
    - intros ? s' [l Hl]%submseteq_Permutation. rewrite Hl in Hnd1.
      by apply NoDup_app in Hnd1 as [? _]. }
  eapply wp_mono; [exact Hst|]. intros ? s' Hs'. by wp_steps.
Qed.

(** Below 2 GiB a block is prefetched once: if no two requests of the two
    queues are for the same block, the same holds after a fetch target that
    ends below address 2^31 was announced. *)
Theorem fdp_no_duplicates_low p env ft s :
  goodBlk p -> 0 <= FT.startAddress ft <= FT.endAddress ft -> FT.endAddress ft < 2 ^ 31 ->
  NoDup (addrs s) ->
  wp (Fdp.notifyFTQInsert p env ft) (fun _ s' => NoDup (addrs s')) s.
Proof.
  intros Hg Hs He Hnd. assert (Hft : goodFT ft) by (split; lia).
  destruct (blocks_exact p ft Hg Hft (proj2 Hs)) as (l & Hl & Hspec).
  unfold Fdp.notifyFTQInsert. wp_steps. eapply wp_at_index; [exact Hl|].
  apply (wp_mfor (fun s => NoDup (addrs s))); [done|]. intros b s' Hb Hs'.
  apply prefetchBlock_distinct; [|done].
  destruct (_ <? _); [subst l; by apply not_elem_of_nil in Hb|].
  apply Hspec in Hb as (a & Ha & ->). pose proof (goodBlk_range p Hg).
  rewrite blockAddress_mod by (done || lia). pose proof (Z.mod_pos_bound a (blkSize p)).
  pose proof (Z.mod_le a (blkSize p)). lia.
Qed.

Lemma fdp_no_duplicates_low_witness :
  addrs (demoFdpState 3) = [0x1000; 0x1040] /\
  wp (Fdp.notifyFTQInsert demoFdp demoEnv (demoTarget 2 0x1020 0x1090))
     (fun _ s' => NoDup (addrs s')) (demoFdpState 3).
Proof.
  split; [vm_compute; reflexivity|].
  apply (fdp_no_duplicates_low demoFdp demoEnv (demoTarget 2 0x1020 0x1090) (demoFdpState 3));
    [apply demoFdp_good|by vm_compute|by vm_compute|].
  apply (bool_decide_unpack _). vm_compute. exact I.
Defined.

(** Above 2 GiB the duplicate check does not work: [operator==] takes the
    block address as an [int], so a request for 0x80001000 is not recognised
    and the same block is translated twice, while for 0x1000 the second
    target adds nothing. *)
Theorem fdp_duplicates_high :
  let twice a := fdp_run demoFdp demoEnv
    [PProbe (FTQInsert (demoTarget 1 a (a + 16))); PProbe (FTQInsert (demoTarget 2 a (a + 16)))] in
  addrs (twice 0x1000) = [0x1000] /\ addrs (twice 0x80001000) = [0x80001000; 0x80001000].
Proof. vm_compute. split; reflexivity. Qed.
