(* ===== verification/CondPred.v ===== *)
(** * Conditional branch predictors

    [cpu/pred/conditional.hh]: the abstract class [ConditionalPredictor] as a
    type class of operations, and the contract under which [BPredUnit] uses it
    as a second class.  [cpu/pred/2bit_local.cc] ([LocalBP]) is an instance;
    [BiMode] and [Tournament] hold two more.

    A [void *&bp_history] argument is an [option] of the history type: the
    operation gets the current value and returns the new one. *)

From Stdlib Require Import ZArith Lia.
From stdpp Require Import base list numbers.
From S2P Require Import Prelude Types SatCounter.

Class ConditionalPredictor (C H : Type) := {
  cp_lookup : ThreadID -> Addr -> option H -> M C (Prediction * option H);
  cp_updateHistories :
    ThreadID -> Addr -> bool -> bool -> Addr -> StaticInst -> option H -> M C (option H);
  cp_squash : ThreadID -> option H -> M C (option H);
  cp_update :
    ThreadID -> Addr -> bool -> option H -> bool -> StaticInst -> Addr -> M C (option H);
  cp_branchPlaceholder : ThreadID -> Addr -> bool -> option H -> M C (option H);
  cp_predictL1NoUpdate : ThreadID -> Addr -> M C bool;
  cp_getStaticLatency : C -> Cycles
}.

(** The contract.  A predictor has a configuration that does not change, its
    number of threads included; [cp_ok k] is the invariant of a predictor of
    configuration [k].  The history of a branch is null, then [cp_looked] after
    a lookup, then [cp_live] from [updateHistories] on until [squash] or the
    final [update] deletes it. *)
Class ConditionalContract (C H K : Type) `{!ConditionalPredictor C H} := {
  cp_threads : K -> Z;
  cp_ok : K -> C -> Prop;
  cp_looked : K -> option H -> Prop;
  cp_live : K -> option H -> Prop;
  cp_lookup_ok k c tid pc :
    cp_ok k c -> 0 <= tid < cp_threads k ->
    wp (cp_lookup tid pc None) (fun r c' => cp_ok k c' /\ cp_looked k (snd r)) c;
  cp_updateHistories_ok k c tid pc (uncond taken : bool) tgt i h :
    cp_ok k c -> 0 <= tid < cp_threads k -> (if uncond then h = None else cp_looked k h) ->
    wp (cp_updateHistories tid pc uncond taken tgt i h)
       (fun h' c' => cp_ok k c' /\ cp_live k h') c;
  cp_squash_ok k c tid h :
    cp_ok k c -> 0 <= tid < cp_threads k -> cp_live k h ->
    wp (cp_squash tid h) (fun h' c' => cp_ok k c' /\ h' = None) c;
  cp_update_ok k c tid pc taken h (squashed : bool) i tgt :
    cp_ok k c -> 0 <= tid < cp_threads k -> cp_live k h ->
    wp (cp_update tid pc taken h squashed i tgt)
       (fun h' c' => cp_ok k c' /\ if squashed then cp_live k h' else h' = None) c
}.

(** ** Speculation and recovery

    What [BPredUnit] does with a direction predictor between the prediction of
    a branch and its squash. *)
Record SpecBranch := mkSpec {
  sb_pc : Addr;
  sb_uncond : bool;
  sb_taken : bool;
  sb_target : Addr;
  sb_inst : StaticInst
}.

Section Speculation.
Context {C H : Type} `{!ConditionalPredictor C H}.

Definition speculate (tid : ThreadID) (b : SpecBranch) : M C (option H) :=
  h ← (if sb_uncond b then mret None
       else r ← cp_lookup tid (sb_pc b) None; mret (snd r));
  cp_updateHistories tid (sb_pc b) (sb_uncond b) (sb_taken b) (sb_target b) (sb_inst b) h.

(** The histories, the youngest first. *)
Fixpoint speculateAll (tid : ThreadID) (bs : list SpecBranch) : M C (list (option H)) :=
  match bs with
  | [] => mret []
  | b :: bs' => h ← speculate tid b; hs ← speculateAll tid bs'; mret (hs ++ [h])
  end.

Definition rollback (tid : ThreadID) (hs : list (option H)) : M C unit :=
  mfor hs (fun h => cp_squash tid h ;; mret tt).
End Speculation.

(** A predictor that can undo its last speculation up to an equivalence. *)
Class Recoverable (C H K : Type) `{!ConditionalPredictor C H} `{!ConditionalContract C H K} := {
  cp_equiv : relation C;
  cp_equiv_equivalence :: Equivalence cp_equiv;
  cp_undo (k : K) c tid b :
    cp_ok k c -> 0 <= tid < cp_threads k ->
    wp (speculate tid b) (fun h c1 => cp_ok k c1 /\ cp_live k h /\
      forall c1', cp_ok k c1' -> cp_equiv c1' c1 ->
        wp (cp_squash tid h) (fun _ c' => cp_ok k c' /\ cp_equiv c' c) c1') c
}.

Lemma wp_mfor_app {S A} (l1 l2 : list A) (f : A -> M S unit) (Q : unit -> S -> Prop) s :
  wp (mfor l1 f) (fun _ s' => wp (mfor l2 f) Q s') s -> wp (mfor (l1 ++ l2) f) Q s.
Proof.
  revert s. induction l1 as [|x l1 IH]; intros s HQ; cbn [mfor app] in *; [done|].
  unfold wp, mbind, M_bind in *. destruct (f x s) as [[u s1]|]; [|done]. by apply IH.
Qed.

Section Recovery.
Context {C H K : Type} `{Recoverable C H K}.

(** Squashing a sequence of predictions, the youngest first, undoes it. *)
Lemma rollback_restores (k : K) tid bs : forall c,
  cp_ok k c -> 0 <= tid < cp_threads k ->
  wp (speculateAll tid bs) (fun hs c1 => cp_ok k c1 /\
    forall c1', cp_ok k c1' -> cp_equiv c1' c1 ->
      wp (rollback tid hs) (fun _ c' => cp_ok k c' /\ cp_equiv c' c) c1') c.
Proof.
  induction bs as [|b bs IH]; intros c Hok Ht; cbn [speculateAll].
  { apply wp_ret. split; [done|]. intros c1' Hok' He. by apply wp_ret. }
  wp_steps. eapply wp_mono; [by apply (cp_undo k c tid b)|].
  intros h c1 (Hok1 & _ & Hundo). wp_steps. eapply wp_mono; [by apply IH|].
  intros hs c2 (Hok2 & Hroll). wp_steps. split; [done|]. intros c2' Hok2' He2.
  unfold rollback. apply wp_mfor_app.
  eapply wp_mono; [by apply Hroll|]. intros [] c1' [Hok1' He1']. cbn [mfor]. wp_steps.
  eapply wp_mono; [by apply Hundo|]. intros h' c' Hc'. by wp_steps.
Qed.

Lemma speculate_rollback (k : K) tid bs c :
  cp_ok k c -> 0 <= tid < cp_threads k ->
  wp (hs ← speculateAll tid bs; rollback tid hs) (fun _ c' => cp_ok k c' /\ cp_equiv c' c) c.
Proof.
  intros Hok Ht. wp_steps. eapply wp_mono; [by apply (rollback_restores k)|].
  intros hs c1 [Hok1 Hroll]. by apply Hroll.
Qed.
End Recovery.

(** [SatCounter8] tables *)
Definition ctrs_ok (l : list SatCounter) : Prop := Forall Sat.wf l.

(** [ctr[i]++] and [ctr[i]--] *)
Definition bump (taken : bool) (c : SatCounter) : SatCounter :=
  if taken then Sat.preIncr c else Sat.preDecr c.

Lemma bump_wf taken c : Sat.wf c -> Sat.wf (bump taken c).
Proof.
  intros H. destruct taken; [apply (Sat.preIncr_spec c H)|apply (Sat.preDecr_spec c H)].
Qed.

Lemma ctrs_ok_bump l i taken : ctrs_ok l -> ctrs_ok (alter (bump taken) i l).
Proof. intros H. apply Forall_alter; [done|]. intros c _ Hc. by apply bump_wf. Qed.

Lemma ctrs_ok_replicate n bits c :
  0 <= bits -> Sat.make 8 bits 0 = Ok c -> ctrs_ok (replicate n c).
Proof.
  intros Hb E. apply list.Forall_replicate. by apply (Sat.sat_make_wf 8 bits 0 c).
Qed.

(** The index mask of a table whose size is a power of two stays inside. *)
Lemma mask_index x n : isPowerOf2 n = true -> 0 < n -> 0 <= Z.land x (n - 1) < n.
Proof.
  intros Hp Hn. apply isPowerOf2_spec in Hp as (k & Hk & ->); [|done].
  by apply land_mask_bound.
Qed.

Lemma at_table {A} (l : list A) i n :
  length l = Z.to_nat n -> 0 <= i < n -> exists x, l !! Z.to_nat i = Some x.
Proof. intros Hl Hi. apply lookup_lt_is_Some_2. lia. Qed.

(** ** LocalBP *)
Record LocalBP := mkLocalBP {
  lb_localPredictorSets : Z;
  lb_localCtrBits : Z;
  lb_localCtrs : list SatCounter;
  lb_indexMask : Z;
  lb_instShiftAmt : Z;
  lb_staticLatency : Cycles
}.

#[export] Instance eta_LocalBP : Settable LocalBP := fun s =>
  mkLocalBP (lb_localPredictorSets s) (lb_localCtrBits s) (lb_localCtrs s) (lb_indexMask s)
    (lb_instShiftAmt s) (lb_staticLatency s).

Module LocalPred.
Definition make (localPredictorSize localCtrBits instShiftAmt : Z) (latency : Cycles)
  : Res LocalBP :=
  if localCtrBits =? 0 then Err DivByZero else
  let sets := localPredictorSize / localCtrBits in
  c ← Sat.make 8 localCtrBits 0;
  if negb (isPowerOf2 localPredictorSize) then Err Fatal else
  if negb (isPowerOf2 sets) then Err Fatal else
  Ok (mkLocalBP sets localCtrBits (replicate (Z.to_nat sets) c) (u32 (sets - 1))
        instShiftAmt latency).

Definition getLocalIndex (s : LocalBP) (branch_addr : Addr) : Z :=
  Z.land (u32 (Z.shiftr branch_addr (lb_instShiftAmt s))) (lb_indexMask s).

Definition getPrediction (s : LocalBP) (count : Z) : bool :=
  negb (Z.shiftr count (lb_localCtrBits s - 1) =? 0).

Definition lookup (tid : ThreadID) (branch_addr : Addr) (bp_history : option unit)
  : M LocalBP (Prediction * option unit) :=
  s ← gets (fun s => s);
  c ← at_index (lb_localCtrs s !! Z.to_nat (getLocalIndex s branch_addr));
  mret (mkPrediction (getPrediction s (counter c)) (lb_staticLatency s), bp_history).

Definition update (tid : ThreadID) (branch_addr : Addr) (taken : bool) (bp_history : option unit)
    (squashed : bool) (inst : StaticInst) (target : Addr) : M LocalBP (option unit) :=
  massert (bool_decide (bp_history = None)) ;;
  if squashed then mret bp_history else
  s ← gets (fun s => s);
  let i := Z.to_nat (getLocalIndex s branch_addr) in
  at_index (lb_localCtrs s !! i) ;;
  modify (fun s => s <| lb_localCtrs ::= alter (bump taken) i |>) ;;
  mret bp_history.

Definition squash (tid : ThreadID) (bp_history : option unit) : M LocalBP (option unit) :=
  massert (bool_decide (bp_history = None)) ;; mret bp_history.

(** ** Invariant *)
Record ok (s : LocalBP) : Prop := {
  lo_ctrs : ctrs_ok (lb_localCtrs s);
  lo_len : length (lb_localCtrs s) = Z.to_nat (lb_localPredictorSets s);
  lo_pow : isPowerOf2 (lb_localPredictorSets s) = true;
  lo_pos : 0 < lb_localPredictorSets s;
  lo_mask : lb_indexMask s = lb_localPredictorSets s - 1;
  lo_bits : 0 < lb_localCtrBits s <= 8;
  lo_max : Forall (fun c => maxVal c = 2 ^ lb_localCtrBits s - 1) (lb_localCtrs s)
}.

Lemma local_make_ok size bits shift lat s :
  0 < size < 2 ^ 32 -> 0 < bits -> make size bits shift lat = Ok s -> ok s.
Proof.
  intros Hs Hb. unfold make. destruct (Z.eqb_spec bits 0); [lia|].
  intros (c & Ec & E)%res_bind_ok. pose proof Ec as Ec0.
  destruct (isPowerOf2 size) eqn:E1; [|done]. cbn in E.
  destruct (isPowerOf2 (size / bits)) eqn:E2; [|done]. cbn in E. injection E as <-.
  assert (Hb8 : bits <= 8).
  { unfold Sat.make in Ec. by destruct (Z.ltb_spec 8 bits). }
  assert (Hd : 0 <= size / bits <= size).
  { split; [apply Z.div_pos; lia|]. apply Z.div_le_upper_bound; nia. }
  assert (Hnz : size / bits <> 0) by (intros E; by rewrite E in E2).
  destruct (Sat.sat_make_wf 8 bits 0 c) as (Hwf & Hm & _); [lia..|done|].
  constructor; cbn.
  - apply list.Forall_replicate, Hwf.
  - by rewrite length_replicate.
  - done.
  - lia.
  - apply u32_small. lia.
  - lia.
  - apply list.Forall_replicate, Hm.
Qed.

Lemma at_local s pc : ok s -> exists c,
  lb_localCtrs s !! Z.to_nat (getLocalIndex s pc) = Some c /\ Sat.wf c /\
  maxVal c = 2 ^ lb_localCtrBits s - 1.
Proof.
  intros Hok. destruct (at_table (lb_localCtrs s) (getLocalIndex s pc) (lb_localPredictorSets s))
    as [c Hc]; [apply Hok| |].
  - unfold getLocalIndex. rewrite (lo_mask _ Hok). apply mask_index; apply Hok.
  - exists c. apply list_elem_of_lookup_2 in Hc as Hin. split_and!; [done| |].
    + exact (proj1 (list.Forall_forall _ _) (lo_ctrs _ Hok) _ Hin).
    + exact (proj1 (list.Forall_forall _ _) (lo_max _ Hok) _ Hin).
Qed.

Lemma bump_max taken c : maxVal (bump taken c) = maxVal c.
Proof. unfold bump, Sat.preIncr, Sat.preDecr. by repeat case_match. Qed.

Lemma update_ok_state s i taken :
  ok s -> ok (s <| lb_localCtrs ::= alter (bump taken) i |>).
Proof.
  intros [H1 H2 H3 H4 H5 H6 H7]. constructor; try assumption; cbn.
  - by apply ctrs_ok_bump.
  - by rewrite length_alter.
  - apply Forall_alter; [done|]. intros c _ Hc. by rewrite bump_max.
Qed.
End LocalPred.

#[export] Instance LocalBP_cp : ConditionalPredictor LocalBP unit := {|
  cp_lookup := LocalPred.lookup;
  cp_updateHistories := fun _ _ _ _ _ _ h => mret h;
  cp_squash := LocalPred.squash;
  cp_update := LocalPred.update;
  cp_branchPlaceholder := fun _ _ _ h => mret h;
  cp_predictL1NoUpdate := fun _ _ => fault Panic;
  cp_getStaticLatency := lb_staticLatency
|}.

#[export, refine] Instance LocalBP_contract : ConditionalContract LocalBP unit Z := {|
  cp_threads := id;
  cp_ok := fun _ => LocalPred.ok;
  cp_looked := fun _ h => h = None;
  cp_live := fun _ h => h = None
|}.
Proof.
  - intros n s tid pc Hok _. cbn. unfold LocalPred.lookup. wp_steps.
    destruct (LocalPred.at_local s pc Hok) as (c & Hc & _).
    eapply wp_at_index; [exact Hc|]. by wp_steps.
  - intros n s tid pc [] taken tgt i h Hok _ Hh; by apply wp_ret.
  - intros n s tid h Hok _ ->. cbn. unfold LocalPred.squash. wp_steps.
    by apply wp_massert.
  - intros n s tid pc taken h squashed i tgt Hok _ ->. cbn. unfold LocalPred.update. wp_steps.
    apply wp_massert; [done|]. wp_steps; subst; [done|].
    destruct (LocalPred.at_local s pc Hok) as (c & Hc & _).
    eapply wp_at_index; [exact Hc|]. wp_steps. split; [|done]. by apply LocalPred.update_ok_state.
Defined.

(** ** Learning *)

Fixpoint bumps (n : nat) (taken : bool) (c : SatCounter) : SatCounter :=
  match n with O => c | S m => bump taken (bumps m taken c) end.

Lemma bumps_comm n taken c : bumps n taken (bump taken c) = bump taken (bumps n taken c).
Proof. induction n as [|n IH]; cbn; [done|]. by rewrite IH. Qed.

Lemma bump_iter taken n c :
  Sat.wf c ->
  Sat.wf (bumps n taken c) /\
  counter (bumps n taken c) =
    (if taken then Z.min (counter c + Z.of_nat n) (maxVal c)
     else Z.max (counter c - Z.of_nat n) 0).
Proof.
  intros Hc. assert (Hr := Hc). destruct Hr as (_ & _ & _ & Hr).
  induction n as [|n [IHw IHc]]; cbn [bumps]; [split; [done|destruct taken; lia]|].
  assert (Hm : maxVal (bumps n taken c) = maxVal c).
  { clear. induction n as [|n IH]; cbn; [done|]. by rewrite LocalPred.bump_max. }
  destruct taken.
  - destruct (Sat.preIncr_spec _ IHw) as [? E]. split; [done|].
    unfold bump at 1. rewrite E, IHc, Hm. lia.
  - destruct (Sat.preDecr_spec _ IHw) as [? E]. split; [done|].
    unfold bump at 1. rewrite E, IHc. lia.
Qed.

Fixpoint localTrain (n : nat) (tid : ThreadID) (pc : Addr) (taken : bool) (i : StaticInst)
  : M LocalBP unit :=
  match n with
  | O => mret tt
  | S m => LocalPred.update tid pc taken None false i 0 ;; localTrain m tid pc taken i
  end.

Lemma wp_localTrain n tid pc taken i s (Q : unit -> LocalBP -> Prop) :
  LocalPred.ok s ->
  (forall s', LocalPred.ok s' -> s' = s <| lb_localCtrs ::=
     alter (bumps n taken) (Z.to_nat (LocalPred.getLocalIndex s pc)) |> -> Q tt s') ->
  wp (localTrain n tid pc taken i) Q s.
Proof.
  revert s. induction n as [|n IH]; intros s Hok HQ; cbn [localTrain].
  - apply wp_ret. apply HQ; [done|]. destruct s as [a b l c d e]. unfold setf. cbn. f_equal.
    symmetry. by apply list_alter_id.
  - wp_steps. unfold LocalPred.update. wp_steps. apply wp_massert; [done|]. wp_steps.
    destruct (LocalPred.at_local s pc Hok) as (c & Hc & _).
    eapply wp_at_index; [exact Hc|]. wp_steps. apply IH; [by apply LocalPred.update_ok_state|].
    intros s' Hok' ->. apply HQ; [done|]. destruct s as [a b l c0 d e]. unfold setf. cbn. f_equal.
    unfold LocalPred.getLocalIndex. cbn. rewrite list_alter_alter_eq. apply list_alter_ext; [|done]. intros x _. cbn.
    apply bumps_comm.
Qed.

(** The two-bit predictor learns a biased branch: whatever the counters
    hold, after [2^(localCtrBits-1)] committed outcomes in one direction
    (branches that share the index included) the next lookup of the branch
    predicts that direction. *)
Theorem local_learns tid tid' pc taken i s :
  LocalPred.ok s ->
  wp (localTrain (Z.to_nat (2 ^ (lb_localCtrBits s - 1))) tid pc taken i ;;
      LocalPred.lookup tid' pc None)
     (fun r _ => pred_taken (fst r) = taken) s.
Proof.
  intros Hok. wp_steps. apply wp_localTrain; [done|]. intros s' Hok' Es'.
  destruct (LocalPred.at_local s pc Hok) as (c & Hc & Hwf & Hmax).
  pose proof (LocalPred.lo_bits _ Hok) as Hbits.
  set (b := lb_localCtrBits s) in *.
  assert (Hp : 0 < 2 ^ (b - 1)) by (apply Z.pow_pos_nonneg; lia).
  assert (Hb : 2 ^ b = 2 * 2 ^ (b - 1)).
  { rewrite <- Z.pow_succ_r by lia. f_equal. lia. }
  destruct (bump_iter taken (Z.to_nat (2 ^ (b - 1))) c Hwf) as [_ Hcount].
  rewrite Z2Nat.id in Hcount by lia.
  destruct Hwf as (_ & _ & _ & Hr).
  unfold LocalPred.lookup. wp_steps. eapply wp_at_index.
  { rewrite Es'. cbn. unfold LocalPred.getLocalIndex in *. cbn.
    rewrite list_lookup_alter_eq, Hc. reflexivity. }
  wp_steps. cbn. unfold LocalPred.getPrediction. rewrite Hcount, Es'. cbn. fold b.
  rewrite Z.shiftr_div_pow2 by lia. destruct taken.
  - apply negb_true_iff, Z.eqb_neq. intros E.
    apply Z.div_small_iff in E; lia.
  - apply negb_false_iff, Z.eqb_eq. apply Z.div_small. lia.
Qed.

Definition demoInst : StaticInst := mkInst true false false true false true false false false 4.

Lemma local_learns_witness :
  exists s, LocalPred.make 64 2 2 1 = Ok s /\
    wp (localTrain (Z.to_nat (2 ^ (lb_localCtrBits s - 1))) 0 0x400 true demoInst ;;
        LocalPred.lookup 0 0x400 None)
       (fun r _ => pred_taken (fst r) = true) s.
Proof.
  eexists. split; [vm_compute; reflexivity|].
  apply (local_learns 0 0 0x400 true demoInst).
  apply (LocalPred.local_make_ok 64 2 2 1); [lia|lia|vm_compute; reflexivity].
Defined.
