(* ===== verification/BiMode.v ===== *)
(** * The bi-mode predictor

    [cpu/pred/bi_mode.hh] and [bi_mode.cc]: choice, taken and not-taken tables
    of saturating counters and a speculative global history per thread, as an
    instance of the contract of [CondPred]. *)

From Stdlib Require Import ZArith Lia.
From stdpp Require Import base list numbers.
From S2P Require Import Prelude Types SatCounter CondPred.

(** [BiModeBP::BPHistory] *)
Record BiModeHistory := mkBMHist {
  bh_globalHistoryReg : Z;
  takenUsed : bool;
  takenPred : bool;
  notTakenPred : bool;
  finalPred : bool
}.

Record BiModeBP := mkBiMode {
  globalHistoryReg : list Z;
  bm_historyRegisterMask : Z;
  bm_choicePredictorSize : Z;
  bm_choiceHistoryMask : Z;
  bm_globalPredictorSize : Z;
  bm_globalHistoryMask : Z;
  choiceCounters : list SatCounter;
  takenCounters : list SatCounter;
  notTakenCounters : list SatCounter;
  bm_choiceThreshold : Z;
  takenThreshold : Z;
  notTakenThreshold : Z;
  bm_instShiftAmt : Z;
  bm_staticLatency : Cycles
}.

#[export] Instance eta_BiModeBP : Settable BiModeBP := fun s =>
  mkBiMode (globalHistoryReg s) (bm_historyRegisterMask s) (bm_choicePredictorSize s)
    (bm_choiceHistoryMask s) (bm_globalPredictorSize s) (bm_globalHistoryMask s)
    (choiceCounters s) (takenCounters s) (notTakenCounters s) (bm_choiceThreshold s)
    (takenThreshold s) (notTakenThreshold s) (bm_instShiftAmt s) (bm_staticLatency s).

Record BiModeParams := mkBiModeParams {
  bp_numThreads : Z;
  bp_choicePredictorSize : Z;
  bp_choiceCtrBits : Z;
  bp_globalPredictorSize : Z;
  bp_globalCtrBits : Z;
  bp_instShiftAmt : Z;
  bp_latency : Cycles
}.

(** [b] as the integer of an arithmetic expression *)
Definition bitOf (b : bool) : Z := if b then 1 else 0.

Module BiMode.
Definition make (p : BiModeParams) : Res BiModeBP :=
  globalHistoryBits ← ceilLog2 4 (bp_globalPredictorSize p);
  cc ← Sat.make 8 (bp_choiceCtrBits p) 0;
  gc ← Sat.make 8 (bp_globalCtrBits p) 0;
  if negb (isPowerOf2 (bp_choicePredictorSize p)) then Err Fatal else
  if negb (isPowerOf2 (bp_globalPredictorSize p)) then Err Fatal else
  let threshold bits := u32 (Z.shiftl 1 (bits - 1) - 1) in
  Ok (mkBiMode (replicate (Z.to_nat (bp_numThreads p)) 0)
        (u32 (mask globalHistoryBits))
        (bp_choicePredictorSize p) (u32 (bp_choicePredictorSize p - 1))
        (bp_globalPredictorSize p) (u32 (bp_globalPredictorSize p - 1))
        (replicate (Z.to_nat (bp_choicePredictorSize p)) cc)
        (replicate (Z.to_nat (bp_globalPredictorSize p)) gc)
        (replicate (Z.to_nat (bp_globalPredictorSize p)) gc)
        (threshold (bp_choiceCtrBits p)) (threshold (bp_globalCtrBits p))
        (threshold (bp_globalCtrBits p)) (bp_instShiftAmt p) (bp_latency p)).

(** [globalHistoryReg[tid]] *)
Definition reg (tid : ThreadID) : M BiModeBP Z :=
  o ← gets (fun s => globalHistoryReg s !! Z.to_nat tid); at_index o.
Definition setReg (tid : ThreadID) (v : Z) : M BiModeBP unit :=
  reg tid ;; modify (fun s => s <| globalHistoryReg ::= <[Z.to_nat tid := v]> |>).

Definition choiceIdx (s : BiModeBP) (branchAddr : Addr) : Z :=
  u32 (Z.land (Z.shiftr branchAddr (bm_instShiftAmt s)) (bm_choiceHistoryMask s)).
Definition globalIdx (s : BiModeBP) (branchAddr : Addr) (ghr : Z) : Z :=
  u32 (Z.land (Z.lxor (Z.shiftr branchAddr (bm_instShiftAmt s)) ghr) (bm_globalHistoryMask s)).

Definition uncondBranch (tid : ThreadID) (pc : Addr) : M BiModeBP (option BiModeHistory) :=
  r ← reg tid; mret (Some (mkBMHist r true true true true)).

Definition updateGlobalHistReg (tid : ThreadID) (taken : bool) : M BiModeBP unit :=
  r ← reg tid;
  m ← gets bm_historyRegisterMask;
  setReg tid (Z.land (if taken then Z.lor (u32 (Z.shiftl r 1)) 1 else u32 (Z.shiftl r 1)) m).

Definition updateHistories (tid : ThreadID) (pc : Addr) (uncond taken : bool) (target : Addr)
    (inst : StaticInst) (bp_history : option BiModeHistory) : M BiModeBP (option BiModeHistory) :=
  massert (uncond || bool_decide (bp_history <> None)) ;;
  h ← (if uncond then uncondBranch tid pc else mret bp_history);
  updateGlobalHistReg tid taken ;;
  mret h.

Definition squash (tid : ThreadID) (bp_history : option BiModeHistory)
  : M BiModeBP (option BiModeHistory) :=
  h ← deref bp_history;
  setReg tid (bh_globalHistoryReg h) ;;
  mret None.

Definition lookup (tid : ThreadID) (branchAddr : Addr) (bp_history : option BiModeHistory)
  : M BiModeBP (Prediction * option BiModeHistory) :=
  s ← gets (fun s => s);
  r ← reg tid;
  let ci := choiceIdx s branchAddr in
  let gi := globalIdx s branchAddr r in
  massert (ci <? bm_choicePredictorSize s) ;;
  massert (gi <? bm_globalPredictorSize s) ;;
  cc ← at_index (choiceCounters s !! Z.to_nat ci);
  tc ← at_index (takenCounters s !! Z.to_nat gi);
  nc ← at_index (notTakenCounters s !! Z.to_nat gi);
  let choicePrediction := bm_choiceThreshold s <? counter cc in
  let takenGHBPrediction := takenThreshold s <? counter tc in
  let notTakenGHBPrediction := notTakenThreshold s <? counter nc in
  let finalPrediction := if choicePrediction then takenGHBPrediction else notTakenGHBPrediction in
  mret (mkPrediction finalPrediction (bm_staticLatency s),
        Some (mkBMHist r choicePrediction takenGHBPrediction notTakenGHBPrediction
                finalPrediction)).

Definition update (tid : ThreadID) (branchAddr : Addr) (taken : bool)
    (bp_history : option BiModeHistory) (squashed : bool) (inst : StaticInst) (target : Addr)
  : M BiModeBP (option BiModeHistory) :=
  massert (bool_decide (bp_history <> None)) ;;
  history ← deref bp_history;
  if squashed then
    setReg tid (Z.lor (u32 (Z.shiftl (bh_globalHistoryReg history) 1)) (bitOf taken)) ;;
    mret bp_history
  else
  s ← gets (fun s => s);
  let ci := choiceIdx s branchAddr in
  let gi := globalIdx s branchAddr (bh_globalHistoryReg history) in
  massert (ci <? bm_choicePredictorSize s) ;;
  massert (gi <? bm_globalPredictorSize s) ;;
  (if takenUsed history then
     modify (fun s => s <| takenCounters ::= alter (bump taken) (Z.to_nat gi) |>)
   else
     modify (fun s => s <| notTakenCounters ::= alter (bump taken) (Z.to_nat gi) |>)) ;;
  (if eqb (finalPred history) taken then
     when (eqb (finalPred history) (takenUsed history))
       (modify (fun s => s <| choiceCounters ::= alter (bump taken) (Z.to_nat ci) |>))
   else
     modify (fun s => s <| choiceCounters ::= alter (bump taken) (Z.to_nat ci) |>)) ;;
  mret None.

(** ** Invariant *)
Record ok (n : Z) (s : BiModeBP) : Prop := {
  bo_reg : length (globalHistoryReg s) = Z.to_nat n;
  bo_choice : ctrs_ok (choiceCounters s);
  bo_taken : ctrs_ok (takenCounters s);
  bo_notTaken : ctrs_ok (notTakenCounters s);
  bo_choiceLen : length (choiceCounters s) = Z.to_nat (bm_choicePredictorSize s);
  bo_takenLen : length (takenCounters s) = Z.to_nat (bm_globalPredictorSize s);
  bo_notTakenLen : length (notTakenCounters s) = Z.to_nat (bm_globalPredictorSize s);
  bo_cpow : isPowerOf2 (bm_choicePredictorSize s) = true;
  bo_gpow : isPowerOf2 (bm_globalPredictorSize s) = true;
  bo_cpos : 0 < bm_choicePredictorSize s < 2 ^ 32;
  bo_gpos : 0 < bm_globalPredictorSize s < 2 ^ 32;
  bo_cmask : bm_choiceHistoryMask s = bm_choicePredictorSize s - 1;
  bo_gmask : bm_globalHistoryMask s = bm_globalPredictorSize s - 1
}.

Lemma bimode_make_ok p s :
  0 < bp_choicePredictorSize p < 2 ^ 32 -> 0 < bp_globalPredictorSize p < 2 ^ 32 ->
  0 <= bp_choiceCtrBits p -> 0 <= bp_globalCtrBits p ->
  make p = Ok s -> ok (bp_numThreads p) s.
Proof.
  intros Hc Hg Hcb Hgb. unfold make.
  intros (k & Ek & (cc & Ecc & (gc & Egc & E)%res_bind_ok)%res_bind_ok)%res_bind_ok.
  destruct (isPowerOf2 (bp_choicePredictorSize p)) eqn:E1; [|done].
  destruct (isPowerOf2 (bp_globalPredictorSize p)) eqn:E2; [|done].
  cbn in E. injection E as <-.
  constructor; cbn; rewrite ?length_replicate; try done; try (apply u32_small; lia).
  all: eapply ctrs_ok_replicate; [|exact Ecc || exact Egc]; done.
Qed.

Lemma choiceIdx_range n s pc : ok n s -> 0 <= choiceIdx s pc < bm_choicePredictorSize s.
Proof.
  intros H. unfold choiceIdx. rewrite (bo_cmask _ _ H).
  pose proof (mask_index (Z.shiftr pc (bm_instShiftAmt s)) _ (bo_cpow _ _ H)) as Hm.
  pose proof (bo_cpos _ _ H). rewrite u32_small; lia.
Qed.

Lemma globalIdx_range n s pc r : ok n s -> 0 <= globalIdx s pc r < bm_globalPredictorSize s.
Proof.
  intros H. unfold globalIdx. rewrite (bo_gmask _ _ H).
  pose proof (mask_index (Z.lxor (Z.shiftr pc (bm_instShiftAmt s)) r) _ (bo_gpow _ _ H)) as Hm.
  pose proof (bo_gpos _ _ H). rewrite u32_small; lia.
Qed.

Lemma ok_setReg n s i v : ok n s -> ok n (s <| globalHistoryReg ::= <[i := v]> |>).
Proof. intros []. constructor; try assumption. cbn. by rewrite length_insert. Qed.

Lemma wp_reg n tid s (Q : Z -> BiModeBP -> Prop) :
  ok n s -> 0 <= tid < n ->
  (forall r, globalHistoryReg s !! Z.to_nat tid = Some r -> Q r s) -> wp (reg tid) Q s.
Proof.
  intros H Ht HQ. destruct (at_table (globalHistoryReg s) tid n) as [r Hr]; [apply H|done|].
  unfold reg. wp_steps. eapply wp_at_index; [exact Hr|]. by apply HQ.
Qed.

Lemma wp_setReg n tid v s (Q : unit -> BiModeBP -> Prop) :
  ok n s -> 0 <= tid < n -> Q tt (s <| globalHistoryReg ::= <[Z.to_nat tid := v]> |>) ->
  wp (setReg tid v) Q s.
Proof.
  intros H Ht HQ. unfold setReg. wp_steps. apply (wp_reg n); [done..|]. intros r _. by wp_steps.
Qed.

(** [lookup] changes nothing and records the history register. *)
Lemma wp_bm_lookup n tid pc h s (Q : Prediction * option BiModeHistory -> BiModeBP -> Prop) :
  ok n s -> 0 <= tid < n ->
  (forall pr hist, globalHistoryReg s !! Z.to_nat tid = Some (bh_globalHistoryReg hist) ->
     Q (pr, Some hist) s) ->
  wp (lookup tid pc h) Q s.
Proof.
  intros H Ht HQ. unfold lookup. wp_steps. apply (wp_reg n); [done..|]. intros r Hr. wp_steps.
  pose proof (choiceIdx_range n s pc H) as Hci. pose proof (globalIdx_range n s pc r H) as Hgi.
  destruct (at_table (choiceCounters s) _ _ (bo_choiceLen _ _ H) Hci) as [cc Hcc].
  destruct (at_table (takenCounters s) _ _ (bo_takenLen _ _ H) Hgi) as [tc Htc].
  destruct (at_table (notTakenCounters s) _ _ (bo_notTakenLen _ _ H) Hgi) as [nc Hnc].
  apply wp_massert; [apply Z.ltb_lt; lia|]. wp_steps.
  apply wp_massert; [apply Z.ltb_lt; lia|]. wp_steps.
  eapply wp_at_index; [exact Hcc|]. wp_steps. eapply wp_at_index; [exact Htc|]. wp_steps.
  eapply wp_at_index; [exact Hnc|]. wp_steps. by apply HQ.
Qed.

(** [updateHistories] shifts the history register and keeps its old value in
    the history. *)
Lemma wp_bm_updateHistories n tid pc (uncond taken : bool) tgt i h s
    (Q : option BiModeHistory -> BiModeBP -> Prop) :
  ok n s -> 0 <= tid < n ->
  (uncond = true \/ h <> None) ->
  (forall hist v, (if uncond then globalHistoryReg s !! Z.to_nat tid = Some (bh_globalHistoryReg hist)
                   else h = Some hist) ->
     Q (Some hist) (s <| globalHistoryReg ::= <[Z.to_nat tid := v]> |>)) ->
  wp (updateHistories tid pc uncond taken tgt i h) Q s.
Proof.
  intros H Ht Hh HQ. unfold updateHistories, updateGlobalHistReg, uncondBranch. wp_steps.
  apply wp_massert.
  { destruct Hh as [->|Hh]; [done|]. apply orb_true_iff. right. by apply bool_decide_eq_true. }
  destruct uncond.
  - wp_steps. apply (wp_reg n); [done..|]. intros r Hr. wp_steps.
    apply (wp_reg n); [done..|]. intros r' _. wp_steps. apply (wp_setReg n); [done..|]. wp_steps.
    by apply HQ.
  - destruct Hh as [|Hh]; [done|]. destruct h as [hist|]; [|done]. wp_steps.
    apply (wp_reg n); [done..|]. intros r' _. wp_steps. apply (wp_setReg n); [done..|]. wp_steps.
    by apply HQ.
Qed.

Lemma wp_bm_squash n tid hist s (Q : option BiModeHistory -> BiModeBP -> Prop) :
  ok n s -> 0 <= tid < n ->
  Q None (s <| globalHistoryReg ::= <[Z.to_nat tid := bh_globalHistoryReg hist]> |>) ->
  wp (squash tid (Some hist)) Q s.
Proof.
  intros H Ht HQ. unfold squash. wp_steps. eapply wp_deref; [done|]. wp_steps.
  apply (wp_setReg n); [done..|]. by wp_steps.
Qed.

Lemma ok_counters n s i taken :
  ok n s -> ok n (s <| choiceCounters ::= alter (bump taken) i |>) /\
            ok n (s <| takenCounters ::= alter (bump taken) i |>) /\
            ok n (s <| notTakenCounters ::= alter (bump taken) i |>).
Proof.
  intros []. split_and!; constructor; try assumption; cbn;
    rewrite ?length_alter; try assumption; by apply ctrs_ok_bump.
Qed.

Lemma wp_bm_update n tid pc taken hist squashed i tgt s :
  ok n s -> 0 <= tid < n ->
  wp (update tid pc taken (Some hist) squashed i tgt)
     (fun h' s' => ok n s' /\ h' = if squashed then Some hist else None) s.
Proof.
  intros H Ht. unfold update. wp_steps. apply wp_massert; [done|]. wp_steps.
  eapply wp_deref; [done|]. destruct squashed.
  - wp_steps. apply (wp_setReg n); [done..|]. wp_steps. split; [by apply ok_setReg|done].
  - pose proof (choiceIdx_range n s pc H). pose proof (globalIdx_range n s pc (bh_globalHistoryReg hist) H).
    wp_steps. apply wp_massert; [apply Z.ltb_lt; lia|]. wp_steps.
    apply wp_massert; [apply Z.ltb_lt; lia|]. wp_steps;
      (split; [|done]); repeat (done || apply ok_counters).
Qed.
End BiMode.

#[export] Instance BiModeBP_cp : ConditionalPredictor BiModeBP BiModeHistory := {|
  cp_lookup := BiMode.lookup;
  cp_updateHistories := BiMode.updateHistories;
  cp_squash := BiMode.squash;
  cp_update := BiMode.update;
  cp_branchPlaceholder := fun _ _ _ _ => fault Panic;
  cp_predictL1NoUpdate := fun _ _ => fault Panic;
  cp_getStaticLatency := bm_staticLatency
|}.

#[export, refine] Instance BiModeBP_contract : ConditionalContract BiModeBP BiModeHistory Z := {|
  cp_threads := id;
  cp_ok := BiMode.ok;
  cp_looked := fun _ h => h <> None;
  cp_live := fun _ h => h <> None
|}.
Proof.
  - intros n s tid pc H Ht. by apply (BiMode.wp_bm_lookup n).
  - intros n s tid pc uncond taken tgt i h H Ht Hh. apply (BiMode.wp_bm_updateHistories n); [done..| |].
    + destruct uncond; auto.
    + intros hist v _. split; [by apply BiMode.ok_setReg|done].
  - intros n s tid [hist|] H Ht Hh; [|done]. apply (BiMode.wp_bm_squash n); [done..|].
    split; [by apply BiMode.ok_setReg|done].
  - intros n s tid pc taken [hist|] squashed i tgt H Ht Hh; [|done].
    eapply wp_mono; [by apply (BiMode.wp_bm_update n)|]. intros h' s' [? ->].
    split; [done|]. by destruct squashed.
Defined.

#[export, refine] Instance BiModeBP_recoverable : Recoverable BiModeBP BiModeHistory Z := {|
  cp_equiv := eq
|}.
Proof.
  intros n s tid b Hok Ht. unfold speculate. apply wp_bind.
  assert (Hsq : forall hist v,
    globalHistoryReg s !! Z.to_nat tid = Some (bh_globalHistoryReg hist) ->
    let s1 := s <| globalHistoryReg ::= <[Z.to_nat tid := v]> |> in
    cp_ok n s1 /\ cp_live n (Some hist) /\
    forall s1', cp_ok n s1' -> s1' = s1 ->
      wp (cp_squash tid (Some hist)) (fun _ s' => cp_ok n s' /\ s' = s) s1').
  { intros hist v Hr s1. split_and!; [by apply BiMode.ok_setReg|done|].
    intros s1' Hok1 ->. apply (BiMode.wp_bm_squash n); [done..|]. split; [by apply BiMode.ok_setReg|].
    subst s1. destruct s. unfold setf. cbn in *. f_equal.
    rewrite list_insert_insert_eq. by apply list_insert_id. }
  destruct b as [pc [] taken tgt i]; cbn [sb_uncond sb_pc sb_taken sb_target sb_inst].
  - wp_steps. apply (BiMode.wp_bm_updateHistories n); [done..|by left|]. intros hist v Hr. by apply Hsq.
  - wp_steps. apply (BiMode.wp_bm_lookup n); [done..|]. intros pr hist Hr. wp_steps. cbn [snd].
    apply (BiMode.wp_bm_updateHistories n); [done..|by right|]. intros hist' v [= <-]. by apply Hsq.
Defined.

(** The bi-mode predictor recovers from any wrong path: predicting a
    sequence of branches speculatively and squashing them, the youngest first,
    gives back the predictor as it was, the global history included. *)
Theorem bimode_squash_restores n tid bs (s : BiModeBP) :
  BiMode.ok n s -> 0 <= tid < n ->
  wp (hs ← speculateAll tid bs; rollback tid hs) (fun _ s' => s' = s) s.
Proof.
  intros Hok Ht. eapply wp_mono; [by apply (speculate_rollback n tid bs s)|].
  by intros ? s' [_ Hs'].
Qed.

Definition demoBiMode : BiModeParams := mkBiModeParams 2 64 2 64 2 2 1.
Definition demoBranches : list SpecBranch :=
  [mkSpec 0x400 false true 0x800 demoInst; mkSpec 0x800 true true 0x900 demoInst;
   mkSpec 0x904 false false 0x908 demoInst].

Lemma bimode_squash_restores_witness :
  exists s, BiMode.make demoBiMode = Ok s /\
    wp (hs ← speculateAll 1 demoBranches; rollback 1 hs) (fun _ s' => s' = s) s.
Proof.
  eexists. split; [vm_compute; reflexivity|].
  apply (bimode_squash_restores 2); [|lia].
  apply (BiMode.bimode_make_ok demoBiMode); [by vm_compute..|vm_compute; reflexivity].
Defined.
