(* ===== verification/Gshare.v ===== *)
(** * The gshare predictor

    [cpu/pred/gshare.hh] and [gshare.cc]: one table of saturating counters, indexed by the
    branch address and a speculative global history per thread.  The class derives from
    [BPredUnit], whose functions are not virtual, and not from [ConditionalPredictor]: nothing
    calls the operations below, and they are no instance of the contract of [CondPred]. *)

From Stdlib Require Import ZArith Lia.
From stdpp Require Import base list numbers.
From S2P Require Import Prelude Types SatCounter CondPred BiMode.

(** [GshareBP::BPHistory] *)
Record GshareHistory := mkGSHist { gh_globalHistoryReg : Z; gh_finalPred : bool }.

Record GshareBP := mkGshare {
  gs_globalHistoryReg : list Z;
  gs_historyRegisterMask : Z;
  gs_globalPredictorSize : Z;
  gs_globalHistoryMask : Z;
  globalCtrs : list SatCounter;
  gs_takenThreshold : Z;
  gs_instShiftAmt : Z
}.

#[export] Instance eta_GshareBP : Settable GshareBP := fun s =>
  mkGshare (gs_globalHistoryReg s) (gs_historyRegisterMask s) (gs_globalPredictorSize s)
    (gs_globalHistoryMask s) (globalCtrs s) (gs_takenThreshold s) (gs_instShiftAmt s).

Record GshareParams := mkGshareParams {
  gp_numThreads : Z;
  gp_globalPredictorSize : Z;
  gp_globalCtrBits : Z;
  gp_instShiftAmt : Z
}.

Module Gshare.
Definition make (p : GshareParams) : Res GshareBP :=
  globalHistoryBits ← ceilLog2 4 (gp_globalPredictorSize p);
  c ← Sat.make 8 (gp_globalCtrBits p) 0;
  if negb (isPowerOf2 (gp_globalPredictorSize p)) then Err Fatal else
  Ok (mkGshare (replicate (Z.to_nat (gp_numThreads p)) 0) (u32 (mask globalHistoryBits))
        (gp_globalPredictorSize p) (u32 (gp_globalPredictorSize p - 1))
        (replicate (Z.to_nat (gp_globalPredictorSize p)) c)
        (u32 (Z.shiftl 1 (gp_globalCtrBits p - 1) - 1)) (gp_instShiftAmt p)).

(** [globalHistoryReg[tid]] *)
Definition reg (tid : ThreadID) : M GshareBP Z :=
  o ← gets (fun s => gs_globalHistoryReg s !! Z.to_nat tid); at_index o.
Definition setReg (tid : ThreadID) (v : Z) : M GshareBP unit :=
  reg tid ;; modify (fun s => s <| gs_globalHistoryReg ::= <[Z.to_nat tid := v]> |>).

Definition globalHistoryIdx (s : GshareBP) (branchAddr : Addr) (ghr : Z) : Z :=
  u32 (Z.land (Z.lxor (Z.shiftr branchAddr (gs_instShiftAmt s)) ghr) (gs_globalHistoryMask s)).

Definition uncondBranch (tid : ThreadID) (pc : Addr) : M GshareBP (option GshareHistory) :=
  r ← reg tid; mret (Some (mkGSHist r true)).

Definition updateGlobalHistReg (tid : ThreadID) (taken : bool) : M GshareBP unit :=
  r ← reg tid;
  setReg tid (if taken then Z.lor (u32 (Z.shiftl r 1)) 1 else u32 (Z.shiftl r 1)) ;;
  r ← reg tid;
  m ← gets gs_historyRegisterMask;
  setReg tid (Z.land r m).

Definition updateHistories (tid : ThreadID) (pc : Addr) (uncond taken : bool)
    (bp_history : option GshareHistory) : M GshareBP (option GshareHistory) :=
  massert (uncond || bool_decide (bp_history <> None)) ;;
  h ← (if uncond then uncondBranch tid pc else mret bp_history);
  updateGlobalHistReg tid taken ;;
  mret h.

Definition squash (tid : ThreadID) (bp_history : option GshareHistory) : M GshareBP (option GshareHistory) :=
  h ← deref bp_history;
  setReg tid (gh_globalHistoryReg h) ;;
  mret None.

Definition lookup (tid : ThreadID) (branchAddr : Addr) : M GshareBP (bool * option GshareHistory) :=
  s ← gets (fun s => s);
  r ← reg tid;
  let i := globalHistoryIdx s branchAddr r in
  massert (i <? gs_globalPredictorSize s) ;;
  c ← at_index (globalCtrs s !! Z.to_nat i);
  let final_prediction := gs_takenThreshold s <? counter c in
  mret (final_prediction, Some (mkGSHist r final_prediction)).

(** On a squash the register is set without [historyRegisterMask]. *)
Definition update (tid : ThreadID) (branchAddr : Addr) (taken : bool) (bp_history : option GshareHistory)
    (squashed : bool) : M GshareBP (option GshareHistory) :=
  massert (bool_decide (bp_history <> None)) ;;
  history ← deref bp_history;
  if squashed then
    setReg tid (Z.lor (u32 (Z.shiftl (gh_globalHistoryReg history) 1)) (bitOf taken)) ;;
    mret bp_history
  else
  s ← gets (fun s => s);
  let i := globalHistoryIdx s branchAddr (gh_globalHistoryReg history) in
  massert (i <? gs_globalPredictorSize s) ;;
  at_index (globalCtrs s !! Z.to_nat i) ;;
  modify (fun s => s <| globalCtrs ::= alter (bump taken) (Z.to_nat i) |>) ;;
  mret None.

(** ** Invariant *)
Record ok (n : Z) (s : GshareBP) : Prop := {
  go_reg : length (gs_globalHistoryReg s) = Z.to_nat n;
  go_ctrs : ctrs_ok (globalCtrs s);
  go_len : length (globalCtrs s) = Z.to_nat (gs_globalPredictorSize s);
  go_pow : isPowerOf2 (gs_globalPredictorSize s) = true;
  go_pos : 0 < gs_globalPredictorSize s < 2 ^ 32;
  go_mask : gs_globalHistoryMask s = gs_globalPredictorSize s - 1
}.

Lemma gshare_make_ok p s :
  0 < gp_globalPredictorSize p < 2 ^ 32 -> 0 <= gp_globalCtrBits p -> make p = Ok s -> ok (gp_numThreads p) s.
Proof.
  intros Hg Hb. unfold make. intros (k & Ek & (c & Ec & E)%res_bind_ok)%res_bind_ok.
  destruct (isPowerOf2 (gp_globalPredictorSize p)) eqn:E1; [|done]. cbn in E. injection E as <-.
  constructor; cbn; rewrite ?length_replicate; try done; [by eapply ctrs_ok_replicate|apply u32_small; lia].
Qed.

Lemma gs_idx_range n s pc r : ok n s -> 0 <= globalHistoryIdx s pc r < gs_globalPredictorSize s.
Proof.
  intros H. unfold globalHistoryIdx. rewrite (go_mask _ _ H).
  pose proof (mask_index (Z.lxor (Z.shiftr pc (gs_instShiftAmt s)) r) _ (go_pow _ _ H)).
  pose proof (go_pos _ _ H). rewrite u32_small; lia.
Qed.

Lemma gs_ok_setReg n s i v : ok n s -> ok n (s <| gs_globalHistoryReg ::= <[i := v]> |>).
Proof. intros []. constructor; try assumption. cbn. by rewrite length_insert. Qed.

Lemma wp_gs_reg n tid s (Q : Z -> GshareBP -> Prop) :
  ok n s -> 0 <= tid < n -> (forall r, gs_globalHistoryReg s !! Z.to_nat tid = Some r -> Q r s) -> wp (reg tid) Q s.
Proof.
  intros H Ht HQ. destruct (at_table (gs_globalHistoryReg s) tid n) as [r Hr]; [apply H|done|].
  unfold reg. wp_steps. eapply wp_at_index; [exact Hr|]. by apply HQ.
Qed.

Lemma wp_gs_setReg n tid v s (Q : unit -> GshareBP -> Prop) :
  ok n s -> 0 <= tid < n -> Q tt (s <| gs_globalHistoryReg ::= <[Z.to_nat tid := v]> |>) -> wp (setReg tid v) Q s.
Proof. intros H Ht HQ. unfold setReg. wp_steps. apply (wp_gs_reg n); [done..|]. intros r _. by wp_steps. Qed.

(** [lookup] changes nothing and records the register. *)
Lemma wp_gs_lookup n tid pc s (Q : bool * option GshareHistory -> GshareBP -> Prop) :
  ok n s -> 0 <= tid < n ->
  (forall b r, gs_globalHistoryReg s !! Z.to_nat tid = Some r -> Q (b, Some (mkGSHist r b)) s) -> wp (lookup tid pc) Q s.
Proof.
  intros H Ht HQ. unfold lookup. wp_steps. apply (wp_gs_reg n); [done..|]. intros r Hr. wp_steps.
  pose proof (gs_idx_range n s pc r H) as Hi. destruct (at_table (globalCtrs s) _ _ (go_len _ _ H) Hi) as [c Hc].
  apply wp_massert; [apply Z.ltb_lt; lia|]. wp_steps. eapply wp_at_index; [exact Hc|]. wp_steps. by apply HQ.
Qed.

(** [updateHistories] changes the register of the thread only. *)
Lemma wp_gs_updateHistories n tid pc (uncond taken : bool) h s (Q : option GshareHistory -> GshareBP -> Prop) :
  ok n s -> 0 <= tid < n -> (uncond = true \/ h <> None) ->
  (forall hist v, (if uncond then gs_globalHistoryReg s !! Z.to_nat tid = Some (gh_globalHistoryReg hist) else h = Some hist) ->
     Q (Some hist) (s <| gs_globalHistoryReg ::= <[Z.to_nat tid := v]> |>)) ->
  wp (updateHistories tid pc uncond taken h) Q s.
Proof.
  intros H Ht Hh HQ. unfold updateHistories, updateGlobalHistReg, uncondBranch. wp_steps.
  assert (Hend : forall hist, (if uncond then gs_globalHistoryReg s !! Z.to_nat tid = Some (gh_globalHistoryReg hist) else h = Some hist) ->
    wp (r ← reg tid; setReg tid (if taken then Z.lor (u32 (Z.shiftl r 1)) 1 else u32 (Z.shiftl r 1)) ;;
        r ← reg tid; m ← gets gs_historyRegisterMask; setReg tid (Z.land r m))
      (fun _ s' => Q (Some hist) s') s).
  { intros hist Hx. apply wp_bind, (wp_gs_reg n); [done..|]. intros r _. apply wp_bind, (wp_gs_setReg n); [done..|].
    assert (H1 := gs_ok_setReg n s (Z.to_nat tid) (if taken then Z.lor (u32 (Z.shiftl r 1)) 1 else u32 (Z.shiftl r 1)) H).
    apply wp_bind, (wp_gs_reg n); [done..|]. intros r' _. apply wp_bind, wp_gets, (wp_gs_setReg n); [done..|].
    match goal with |- Q _ ?x => assert (x = s <| gs_globalHistoryReg ::= <[Z.to_nat tid := Z.land r' (gs_historyRegisterMask s)]> |>) as -> end.
    { destruct s. unfold setf. cbn. by rewrite list_insert_insert_eq. }
    by apply HQ. }
  apply wp_massert.
  { destruct Hh as [->|Hh]; [done|]. apply orb_true_iff. right. by apply bool_decide_eq_true. }
  apply wp_bind. destruct uncond.
  - apply wp_bind, (wp_gs_reg n); [done..|]. intros r Hr. apply wp_ret, wp_bind. eapply wp_mono; [by apply (Hend (mkGSHist r true))|].
    intros [] s' HQ'. by apply wp_ret.
  - destruct Hh as [|Hh]; [done|]. destruct h as [hist|]; [|done]. apply wp_ret, wp_bind. eapply wp_mono; [by apply (Hend hist)|].
    intros [] s' HQ'. by apply wp_ret.
Qed.

Lemma wp_gs_squash n tid hist s (Q : option GshareHistory -> GshareBP -> Prop) :
  ok n s -> 0 <= tid < n -> Q None (s <| gs_globalHistoryReg ::= <[Z.to_nat tid := gh_globalHistoryReg hist]> |>) ->
  wp (squash tid (Some hist)) Q s.
Proof.
  intros H Ht HQ. unfold squash. wp_steps. eapply wp_deref; [done|]. wp_steps. apply (wp_gs_setReg n); [done..|]. by wp_steps.
Qed.

(** A commit trains one counter, the one the prediction was read from. *)
Theorem gshare_update_trains n tid pc taken hist s :
  ok n s -> 0 <= tid < n ->
  wp (update tid pc taken (Some hist) false) (fun h' s' => ok n s' /\ h' = None /\
    s' = s <| globalCtrs ::= alter (bump taken) (Z.to_nat (globalHistoryIdx s pc (gh_globalHistoryReg hist))) |>) s.
Proof.
  intros H Ht. pose proof (gs_idx_range n s pc (gh_globalHistoryReg hist) H) as Hi.
  destruct (at_table (globalCtrs s) _ _ (go_len _ _ H) Hi) as [c Hc].
  unfold update. wp_steps. apply wp_massert; [done|]. wp_steps. eapply wp_deref; [done|]. wp_steps.
  apply wp_massert; [apply Z.ltb_lt; lia|]. wp_steps. eapply wp_at_index; [exact Hc|]. wp_steps.
  split_and!; [|done..]. destruct H. constructor; cbn; rewrite ?length_alter; try assumption. by apply ctrs_ok_bump.
Qed.

(** Predicting a branch, shifting its outcome into the history and squashing it gives the predictor back. *)
Theorem gshare_squash_restores n tid pc taken s :
  ok n s -> 0 <= tid < n ->
  wp (r ← lookup tid pc; h ← updateHistories tid pc false taken (snd r); squash tid h) (fun _ s' => s' = s) s.
Proof.
  intros H Ht. apply wp_bind, (wp_gs_lookup n); [done..|]. intros b r Hr. cbn [snd]. apply wp_bind.
  apply (wp_gs_updateHistories n); [done|done|by right|]. intros hist v [= <-]. apply (wp_gs_squash n); [by apply gs_ok_setReg|done|].
  destruct s. unfold setf. cbn in *. f_equal. rewrite list_insert_insert_eq. by apply list_insert_id.
Qed.
End Gshare.
