(* ===== verification/Tournament.v ===== *)
(** * The tournament predictor

    [cpu/pred/tournament.hh] and [tournament.cc]: a local predictor with a
    history table, a global predictor and a choice predictor, both histories
    updated speculatively.  A squash restores them up to the bits the tables
    are not indexed with. *)

From Stdlib Require Import ZArith Lia.
From stdpp Require Import base list numbers.
From S2P Require Import Prelude Types SatCounter CondPred BiMode.

(** [TournamentBP::BPHistory]; the two unsigned indices hold
    [invalidPredictorIndex] for an unconditional branch. *)
Record TourHistory := mkTH {
  th_globalHistory : Z;
  localHistoryIdx : Z;
  localHistory : Z;
  localPredTaken : bool;
  globalPredTaken : bool;
  globalUsed : bool
}.

Record TournamentBP := mkTour {
  localPredictorSize : Z;
  localPredictorMask : Z;
  localCtrs : list SatCounter;
  localHistoryTable : list Z;
  localHistoryTableSize : Z;
  globalPredictorSize : Z;
  globalCtrs : list SatCounter;
  globalHistory : list Z;
  globalHistoryMask : Z;
  choiceHistoryMask : Z;
  historyRegisterMask : Z;
  choicePredictorSize : Z;
  choiceCtrs : list SatCounter;
  localThreshold : Z;
  globalThreshold : Z;
  choiceThreshold : Z;
  tp_instShiftAmt : Z;
  tp_staticLatency : Cycles
}.

#[export] Instance eta_TournamentBP : Settable TournamentBP := fun s =>
  mkTour (localPredictorSize s) (localPredictorMask s) (localCtrs s) (localHistoryTable s)
    (localHistoryTableSize s) (globalPredictorSize s) (globalCtrs s) (globalHistory s)
    (globalHistoryMask s) (choiceHistoryMask s) (historyRegisterMask s) (choicePredictorSize s)
    (choiceCtrs s) (localThreshold s) (globalThreshold s) (choiceThreshold s)
    (tp_instShiftAmt s) (tp_staticLatency s).

Record TournamentParams := mkTourParams {
  tq_numThreads : Z;
  tq_localPredictorSize : Z;
  tq_localCtrBits : Z;
  tq_localHistoryTableSize : Z;
  tq_globalPredictorSize : Z;
  tq_globalCtrBits : Z;
  tq_choicePredictorSize : Z;
  tq_choiceCtrBits : Z;
  tq_instShiftAmt : Z;
  tq_latency : Cycles
}.

(** [static const int invalidPredictorIndex = -1], as an [unsigned]. *)
Definition invalidPredictorIndex : Z := u32 (-1).

Module Tour.
Definition make (p : TournamentParams) : Res TournamentBP :=
  lc ← Sat.make 8 (tq_localCtrBits p) 0;
  localHistoryBits ← ceilLog2 4 (tq_localPredictorSize p);
  gc ← Sat.make 8 (tq_globalCtrBits p) 0;
  gb ← ceilLog2 4 (tq_globalPredictorSize p);
  cb ← ceilLog2 4 (tq_choicePredictorSize p);
  let globalHistoryBits := if cb <? gb then gb else cb in
  cc ← Sat.make 8 (tq_choiceCtrBits p) 0;
  if negb (isPowerOf2 (tq_localPredictorSize p)) then Err Fatal else
  if negb (isPowerOf2 (tq_globalPredictorSize p)) then Err Fatal else
  let localPredictorMask := u32 (mask localHistoryBits) in
  if negb (isPowerOf2 (tq_localHistoryTableSize p)) then Err Fatal else
  let globalHistoryMask := u32 (tq_globalPredictorSize p - 1) in
  if negb (isPowerOf2 (tq_choicePredictorSize p)) then Err Fatal else
  let choiceHistoryMask := u32 (tq_choicePredictorSize p - 1) in
  let historyRegisterMask := u32 (mask globalHistoryBits) in
  if historyRegisterMask <? globalHistoryMask then Err Fatal else
  if historyRegisterMask <? choiceHistoryMask then Err Fatal else
  let threshold bits := u32 (Z.shiftl 1 (bits - 1) - 1) in
  Ok (mkTour (tq_localPredictorSize p) localPredictorMask
        (replicate (Z.to_nat (tq_localPredictorSize p)) lc)
        (replicate (Z.to_nat (tq_localHistoryTableSize p)) 0) (tq_localHistoryTableSize p)
        (tq_globalPredictorSize p) (replicate (Z.to_nat (tq_globalPredictorSize p)) gc)
        (replicate (Z.to_nat (tq_numThreads p)) 0)
        globalHistoryMask choiceHistoryMask historyRegisterMask
        (tq_choicePredictorSize p) (replicate (Z.to_nat (tq_choicePredictorSize p)) cc)
        (threshold (tq_localCtrBits p)) (threshold (tq_globalCtrBits p))
        (threshold (tq_choiceCtrBits p)) (tq_instShiftAmt p) (tq_latency p)).

Definition calcLocHistIdx (s : TournamentBP) (branch_addr : Addr) : Z :=
  u32 (Z.land (Z.shiftr branch_addr (tp_instShiftAmt s)) (u32 (localHistoryTableSize s - 1))).

(** [globalHistory[tid]] and [localHistoryTable[i]] *)
Definition ghist (tid : ThreadID) : M TournamentBP Z :=
  o ← gets (fun s => globalHistory s !! Z.to_nat tid); at_index o.
Definition setGhist (tid : ThreadID) (v : Z) : M TournamentBP unit :=
  ghist tid ;; modify (fun s => s <| globalHistory ::= <[Z.to_nat tid := v]> |>).
Definition lhist (i : Z) : M TournamentBP Z :=
  o ← gets (fun s => localHistoryTable s !! Z.to_nat i); at_index o.
Definition setLhist (i : Z) (v : Z) : M TournamentBP unit :=
  lhist i ;; modify (fun s => s <| localHistoryTable ::= <[Z.to_nat i := v]> |>).

Definition shiftIn (h : Z) (taken : bool) : Z := Z.lor (u32 (Z.shiftl h 1)) (bitOf taken).

Definition updateGlobalHist (tid : ThreadID) (taken : bool) : M TournamentBP unit :=
  g ← ghist tid;
  m ← gets historyRegisterMask;
  setGhist tid (Z.land (shiftIn g taken) m).

Definition updateLocalHist (local_history_idx : Z) (taken : bool) : M TournamentBP unit :=
  l ← lhist local_history_idx;
  setLhist local_history_idx (shiftIn l taken).

Definition lookup (tid : ThreadID) (pc : Addr) (bp_history : option TourHistory)
  : M TournamentBP (Prediction * option TourHistory) :=
  s ← gets (fun s => s);
  let local_history_idx := calcLocHistIdx s pc in
  l ← lhist local_history_idx;
  let local_predictor_idx := Z.land l (localPredictorMask s) in
  lc ← at_index (localCtrs s !! Z.to_nat local_predictor_idx);
  let local_prediction := localThreshold s <? counter lc in
  g ← ghist tid;
  gc ← at_index (globalCtrs s !! Z.to_nat (Z.land g (globalHistoryMask s)));
  let global_prediction := globalThreshold s <? counter gc in
  cc ← at_index (choiceCtrs s !! Z.to_nat (Z.land g (choiceHistoryMask s)));
  let choice_prediction := choiceThreshold s <? counter cc in
  massert (local_history_idx <? localHistoryTableSize s) ;;
  mret (mkPrediction (if choice_prediction then global_prediction else local_prediction)
          (tp_staticLatency s),
        Some (mkTH g local_history_idx local_predictor_idx local_prediction global_prediction
                choice_prediction)).

Definition updateHistories (tid : ThreadID) (pc : Addr) (uncond taken : bool) (target : Addr)
    (inst : StaticInst) (bp_history : option TourHistory) : M TournamentBP (option TourHistory) :=
  massert (uncond || bool_decide (bp_history <> None)) ;;
  h ← (if uncond then
         g ← ghist tid;
         mret (Some (mkTH g invalidPredictorIndex invalidPredictorIndex true true true))
       else mret bp_history);
  updateGlobalHist tid taken ;;
  when (negb uncond) (history ← deref h; updateLocalHist (localHistoryIdx history) taken) ;;
  mret h.

Definition update (tid : ThreadID) (pc : Addr) (taken : bool) (bp_history : option TourHistory)
    (squashed : bool) (inst : StaticInst) (target : Addr) : M TournamentBP (option TourHistory) :=
  massert (bool_decide (bp_history <> None)) ;;
  history ← deref bp_history;
  s ← gets (fun s => s);
  let local_history_idx := calcLocHistIdx s pc in
  massert (local_history_idx <? localHistoryTableSize s) ;;
  let old_local_pred_valid := negb (localHistory history =? invalidPredictorIndex) in
  if squashed then
    setGhist tid (Z.land (shiftIn (th_globalHistory history) taken) (historyRegisterMask s)) ;;
    when old_local_pred_valid
      (setLhist local_history_idx (shiftIn (localHistory history) taken)) ;;
    mret bp_history
  else
  let old_local_pred_index := Z.land (localHistory history) (localPredictorMask s) in
  massert (old_local_pred_index <? localPredictorSize s) ;;
  when (negb (eqb (localPredTaken history) (globalPredTaken history)) && old_local_pred_valid)
    (let choice_predictor_idx := Z.to_nat (Z.land (th_globalHistory history) (choiceHistoryMask s)) in
     if eqb (localPredTaken history) taken then
       modify (fun s => s <| choiceCtrs ::= alter (bump false) choice_predictor_idx |>)
     else when (eqb (globalPredTaken history) taken)
       (modify (fun s => s <| choiceCtrs ::= alter (bump true) choice_predictor_idx |>))) ;;
  let global_predictor_idx := Z.to_nat (Z.land (th_globalHistory history) (globalHistoryMask s)) in
  modify (fun s => s <| globalCtrs ::= alter (bump taken) global_predictor_idx |>) ;;
  when old_local_pred_valid
    (modify (fun s => s <| localCtrs ::= alter (bump taken) (Z.to_nat old_local_pred_index) |>)) ;;
  mret None.

Definition squash (tid : ThreadID) (bp_history : option TourHistory)
  : M TournamentBP (option TourHistory) :=
  history ← deref bp_history;
  setGhist tid (th_globalHistory history) ;;
  when (negb (localHistoryIdx history =? invalidPredictorIndex))
    (setLhist (localHistoryIdx history) (localHistory history)) ;;
  mret None.

(** ** Invariant *)
Record ok (n : Z) (s : TournamentBP) : Prop := {
  to_ghist : length (globalHistory s) = Z.to_nat n;
  to_lhist : length (localHistoryTable s) = Z.to_nat (localHistoryTableSize s);
  to_local : length (localCtrs s) = Z.to_nat (localPredictorSize s);
  to_global : length (globalCtrs s) = Z.to_nat (globalPredictorSize s);
  to_choice : length (choiceCtrs s) = Z.to_nat (choicePredictorSize s);
  to_lwf : ctrs_ok (localCtrs s);
  to_gwf : ctrs_ok (globalCtrs s);
  to_cwf : ctrs_ok (choiceCtrs s);
  to_lpow : isPowerOf2 (localPredictorSize s) = true;
  to_tpow : isPowerOf2 (localHistoryTableSize s) = true;
  to_gpow : isPowerOf2 (globalPredictorSize s) = true;
  to_cpow : isPowerOf2 (choicePredictorSize s) = true;
  to_lpos : 0 < localPredictorSize s < 2 ^ 32;
  to_tpos : 0 < localHistoryTableSize s < 2 ^ 32;
  to_gpos : 0 < globalPredictorSize s < 2 ^ 32;
  to_cpos : 0 < choicePredictorSize s < 2 ^ 32;
  to_lmask : localPredictorMask s = localPredictorSize s - 1;
  to_gmask : globalHistoryMask s = globalPredictorSize s - 1;
  to_cmask : choiceHistoryMask s = choicePredictorSize s - 1
}.

Lemma ceilLog2_pow2 k : 0 <= k < 32 -> ceilLog2 4 (2 ^ k) = Ok k.
Proof.
  intros Hk. assert (0 < 2 ^ k < 2 ^ 32).
  { split; [apply Z.pow_pos_nonneg; lia|apply Z.pow_lt_mono_r; lia]. }
  unfold ceilLog2. destruct (Z.leb_spec (2 ^ k) 0); [lia|].
  destruct (Z.eqb_spec (2 ^ k) 1) as [E|E].
  - destruct (decide (k = 0)) as [->|]; [done|].
    assert (2 ^ 1 <= 2 ^ k) by (apply Z.pow_le_mono_r; lia). lia.
  - assert (0 < k) by (destruct (decide (k = 0)) as [->|]; [done|lia]).
    rewrite floorLog2_correct; [|auto|lia]. cbn [resMap].
    rewrite Z.sub_1_r, Z.log2_pred_pow2 by lia. f_equal. lia.
Qed.

(** The mask of a table whose size is a power of two. *)
Lemma table_mask sz b :
  isPowerOf2 sz = true -> 0 < sz < 2 ^ 32 -> ceilLog2 4 sz = Ok b -> u32 (mask b) = sz - 1.
Proof.
  intros Hp Hs. apply isPowerOf2_spec in Hp as (k & Hk & ->); [|lia].
  assert (k < 32) by (apply (Z.pow_lt_mono_r_iff 2); lia).
  rewrite ceilLog2_pow2 by lia. intros [= <-]. rewrite mask_ones by lia.
  rewrite Z.ones_equiv, <- Z.sub_1_r. apply u32_small. lia.
Qed.

Lemma tour_make_ok p s :
  0 < tq_localPredictorSize p < 2 ^ 32 -> 0 < tq_localHistoryTableSize p < 2 ^ 32 ->
  0 < tq_globalPredictorSize p < 2 ^ 32 -> 0 < tq_choicePredictorSize p < 2 ^ 32 ->
  0 <= tq_localCtrBits p -> 0 <= tq_globalCtrBits p -> 0 <= tq_choiceCtrBits p ->
  make p = Ok s -> ok (tq_numThreads p) s.
Proof.
  intros Hl Ht Hg Hc Hlb Hgb Hcb. unfold make.
  intros (lc & Elc & (lb & Elb & (gc & Egc & (gb & Egb & (cb & Ecb & (cc & Ecc & E)
    %res_bind_ok)%res_bind_ok)%res_bind_ok)%res_bind_ok)%res_bind_ok)%res_bind_ok.
  destruct (isPowerOf2 (tq_localPredictorSize p)) eqn:E1; [|done].
  destruct (isPowerOf2 (tq_globalPredictorSize p)) eqn:E2; [|done].
  destruct (isPowerOf2 (tq_localHistoryTableSize p)) eqn:E3; [|done].
  destruct (isPowerOf2 (tq_choicePredictorSize p)) eqn:E4; [|done]. cbn [negb] in E.
  destruct (_ <? u32 (tq_globalPredictorSize p - 1)); [done|].
  destruct (_ <? u32 (tq_choicePredictorSize p - 1)); [done|]. injection E as <-.
  constructor; cbn; rewrite ?length_replicate; try done;
    try (apply u32_small; lia); try (by eapply table_mask).
  all: eapply ctrs_ok_replicate; [|exact Elc || exact Egc || exact Ecc]; done.
Qed.

(** A history of a branch in flight: its local index is the invalid one or a
    position of the table. *)
Definition hist_ok (sz : Z) (h : TourHistory) : Prop :=
  localHistoryIdx h = invalidPredictorIndex \/ 0 <= localHistoryIdx h < sz.

Section Rules.
Context (n : Z) (tid : ThreadID) (Ht : 0 <= tid < n).

Lemma wp_ghist s (Q : Z -> TournamentBP -> Prop) :
  ok n s -> (forall g, globalHistory s !! Z.to_nat tid = Some g -> Q g s) -> wp (ghist tid) Q s.
Proof.
  intros H HQ. destruct (at_table (globalHistory s) tid n) as [g Hg]; [apply H|done|].
  unfold ghist. wp_steps. eapply wp_at_index; [exact Hg|]. by apply HQ.
Qed.

Lemma wp_setGhist v s (Q : unit -> TournamentBP -> Prop) :
  ok n s -> Q tt (s <| globalHistory ::= <[Z.to_nat tid := v]> |>) -> wp (setGhist tid v) Q s.
Proof. intros H HQ. unfold setGhist. wp_steps. apply wp_ghist; [done|]. intros g _. by wp_steps. Qed.

Lemma wp_lhist i s (Q : Z -> TournamentBP -> Prop) :
  ok n s -> 0 <= i < localHistoryTableSize s ->
  (forall l, localHistoryTable s !! Z.to_nat i = Some l -> Q l s) -> wp (lhist i) Q s.
Proof.
  intros H Hi HQ. destruct (at_table (localHistoryTable s) i _ (to_lhist _ _ H) Hi) as [l Hl].
  unfold lhist. wp_steps. eapply wp_at_index; [exact Hl|]. by apply HQ.
Qed.

Lemma wp_setLhist i v s (Q : unit -> TournamentBP -> Prop) :
  ok n s -> 0 <= i < localHistoryTableSize s ->
  Q tt (s <| localHistoryTable ::= <[Z.to_nat i := v]> |>) -> wp (setLhist i v) Q s.
Proof.
  intros H Hi HQ. unfold setLhist. wp_steps. apply wp_lhist; [done..|]. intros l _. by wp_steps.
Qed.

Lemma ok_ghist s i v : ok n s -> ok n (s <| globalHistory ::= <[i := v]> |>).
Proof. intros []. constructor; try assumption. cbn. by rewrite length_insert. Qed.
Lemma ok_lhist s i v : ok n s -> ok n (s <| localHistoryTable ::= <[i := v]> |>).
Proof. intros []. constructor; try assumption. cbn. by rewrite length_insert. Qed.

Lemma calcLocHistIdx_range s pc : ok n s -> 0 <= calcLocHistIdx s pc < localHistoryTableSize s.
Proof.
  intros H. unfold calcLocHistIdx. pose proof (to_tpos _ _ H).
  rewrite (u32_small (localHistoryTableSize s - 1)) by lia.
  pose proof (mask_index (Z.shiftr pc (tp_instShiftAmt s)) _ (to_tpow _ _ H)) as Hm.
  rewrite u32_small; lia.
Qed.

Lemma at_masked {A} (l : list A) m sz x :
  length l = Z.to_nat sz -> isPowerOf2 sz = true -> 0 < sz < 2 ^ 32 -> m = sz - 1 ->
  exists c, l !! Z.to_nat (Z.land x m) = Some c.
Proof.
  intros Hl Hp Hs ->. apply (at_table l _ sz Hl). apply mask_index; [done|lia].
Qed.

(** [lookup] changes nothing and records both histories. *)
Definition records (s : TournamentBP) (h : TourHistory) : Prop :=
  globalHistory s !! Z.to_nat tid = Some (th_globalHistory h) /\
  0 <= localHistoryIdx h < localHistoryTableSize s /\
  exists l, localHistoryTable s !! Z.to_nat (localHistoryIdx h) = Some l /\
            localHistory h = Z.land l (localPredictorMask s).

Lemma wp_tour_lookup pc h0 s (Q : Prediction * option TourHistory -> TournamentBP -> Prop) :
  ok n s -> (forall pr h, records s h -> Q (pr, Some h) s) -> wp (lookup tid pc h0) Q s.
Proof.
  intros H HQ. pose proof (calcLocHistIdx_range s pc H) as Hi.
  unfold lookup. wp_steps. apply wp_lhist; [done..|]. intros l Hl. wp_steps.
  destruct (at_masked (localCtrs s) _ _ l (to_local _ _ H) (to_lpow _ _ H) (to_lpos _ _ H)
    (to_lmask _ _ H)) as [lc Hlc].
  eapply wp_at_index; [exact Hlc|]. wp_steps. apply wp_ghist; [done|]. intros g Hg. wp_steps.
  destruct (at_masked (globalCtrs s) _ _ g (to_global _ _ H) (to_gpow _ _ H) (to_gpos _ _ H)
    (to_gmask _ _ H)) as [gc Hgc].
  destruct (at_masked (choiceCtrs s) _ _ g (to_choice _ _ H) (to_cpow _ _ H) (to_cpos _ _ H)
    (to_cmask _ _ H)) as [cc Hcc].
  eapply wp_at_index; [exact Hgc|]. wp_steps. eapply wp_at_index; [exact Hcc|]. wp_steps.
  apply wp_massert; [apply Z.ltb_lt; lia|]. wp_steps. apply HQ.
  split_and!; [done|cbn; lia|cbn; lia|]. by exists l.
Qed.

(** [updateHistories] of a conditional branch writes both histories, of an
    unconditional branch the global one. *)
Lemma wp_tour_updateHistories pc (uncond taken : bool) tgt i h s
    (Q : option TourHistory -> TournamentBP -> Prop) :
  ok n s ->
  (uncond = true \/ exists hist, h = Some hist /\ 0 <= localHistoryIdx hist < localHistoryTableSize s) ->
  (forall g v, uncond = true -> globalHistory s !! Z.to_nat tid = Some g ->
     Q (Some (mkTH g invalidPredictorIndex invalidPredictorIndex true true true))
       (s <| globalHistory ::= <[Z.to_nat tid := v]> |>)) ->
  (forall hist v w, uncond = false -> h = Some hist ->
     Q (Some hist) (s <| globalHistory ::= <[Z.to_nat tid := v]> |>
       <| localHistoryTable ::= <[Z.to_nat (localHistoryIdx hist) := w]> |>)) ->
  wp (updateHistories tid pc uncond taken tgt i h) Q s.
Proof.
  intros H Hh HQ1 HQ2. unfold updateHistories, updateGlobalHist, updateLocalHist. wp_steps.
  apply wp_massert.
  { destruct Hh as [->|(hist & -> & _)]; [done|]. apply orb_true_iff. by right. }
  destruct uncond; cbn [negb].
  - apply wp_bind. wp_steps. apply wp_ghist; [done|]. intros g Hg. wp_steps.
    apply wp_ghist; [done|]. intros g' _. wp_steps. apply wp_setGhist; [done|].
    unfold when. wp_steps. by apply HQ1.
  - destruct Hh as [|(hist & -> & Hi)]; [done|]. apply wp_bind, wp_ret. wp_steps.
    apply wp_ghist; [done|]. intros g' _. wp_steps. apply wp_setGhist; [done|].
    unfold when. wp_steps. eapply wp_deref; [done|]. wp_steps.
    apply wp_lhist; [by apply ok_ghist|done|]. intros l _. wp_steps.
    apply wp_setLhist; [by apply ok_ghist|done|]. wp_steps. by apply HQ2.
Qed.

Lemma invalid_not_index s x : ok n s -> 0 <= x < localHistoryTableSize s -> x <> invalidPredictorIndex.
Proof.
  intros H Hx ->. pose proof (to_tpos _ _ H) as Ht'.
  destruct (proj1 (isPowerOf2_spec (localHistoryTableSize s) (proj1 Ht')) (to_tpow _ _ H))
    as (k & Hk & E).
  assert (k < 32) by (apply (Z.pow_lt_mono_r_iff 2); lia).
  assert (2 ^ k <= 2 ^ 31) by (apply Z.pow_le_mono_r; lia).
  change invalidPredictorIndex with (2 ^ 32 - 1) in Hx. lia.
Qed.

Lemma wp_tour_squash hist s (Q : option TourHistory -> TournamentBP -> Prop) :
  ok n s -> hist_ok (localHistoryTableSize s) hist ->
  (localHistoryIdx hist = invalidPredictorIndex ->
     Q None (s <| globalHistory ::= <[Z.to_nat tid := th_globalHistory hist]> |>)) ->
  (localHistoryIdx hist <> invalidPredictorIndex ->
     Q None (s <| globalHistory ::= <[Z.to_nat tid := th_globalHistory hist]> |>
               <| localHistoryTable ::= <[Z.to_nat (localHistoryIdx hist) := localHistory hist]> |>)) ->
  wp (squash tid (Some hist)) Q s.
Proof.
  intros H Hh HQ1 HQ2. unfold squash. wp_steps. eapply wp_deref; [done|]. wp_steps.
  apply wp_setGhist; [done|]. wp_steps.
  - apply negb_true_iff, Z.eqb_neq in H0. destruct Hh as [Hh|Hh]; [done|].
    apply wp_setLhist; [by apply ok_ghist|done|]. wp_steps. by apply HQ2.
  - apply negb_false_iff, Z.eqb_eq in H0. by apply HQ1.
Qed.

Lemma ok_ctrs s i b :
  ok n s -> ok n (s <| choiceCtrs ::= alter (bump b) i |>) /\
            ok n (s <| globalCtrs ::= alter (bump b) i |>) /\
            ok n (s <| localCtrs ::= alter (bump b) i |>).
Proof.
  intros []. split_and!; constructor; try assumption; cbn;
    rewrite ?length_alter; try assumption; by apply ctrs_ok_bump.
Qed.

Lemma wp_tour_update pc taken hist squashed i tgt s :
  ok n s ->
  wp (update tid pc taken (Some hist) squashed i tgt)
     (fun h' s' => ok n s' /\ localHistoryTableSize s' = localHistoryTableSize s /\
                   h' = if squashed then Some hist else None) s.
Proof.
  intros H. unfold update. wp_steps. apply wp_massert; [done|]. wp_steps.
  eapply wp_deref; [done|]. wp_steps. pose proof (calcLocHistIdx_range s pc H) as Hi.
  apply wp_massert; [apply Z.ltb_lt; lia|]. destruct squashed.
  - wp_steps. apply wp_setGhist; [done|]. wp_steps.
    + apply wp_setLhist; [by apply ok_ghist|done|]. wp_steps.
      split_and!; [by apply ok_lhist, ok_ghist|done|done].
    + split_and!; [by apply ok_ghist|done|done].
  - wp_steps. apply wp_massert.
    { apply Z.ltb_lt. rewrite (to_lmask _ _ H). apply mask_index; apply H. }
    wp_steps; (split_and!; [|done|done]); repeat (done || apply ok_ctrs).
Qed.
End Rules.
End Tour.

#[export] Instance TournamentBP_cp : ConditionalPredictor TournamentBP TourHistory := {|
  cp_lookup := Tour.lookup;
  cp_updateHistories := Tour.updateHistories;
  cp_squash := Tour.squash;
  cp_update := Tour.update;
  cp_branchPlaceholder := fun _ _ _ _ => fault Panic;
  cp_predictL1NoUpdate := fun _ _ => fault Panic;
  cp_getStaticLatency := tp_staticLatency
|}.

(** The configuration: threads and size of the local history table. *)
Definition TourConf : Type := Z * Z.

#[export, refine] Instance TournamentBP_contract
  : ConditionalContract TournamentBP TourHistory TourConf := {|
  cp_threads := fst;
  cp_ok := fun k s => Tour.ok (fst k) s /\ localHistoryTableSize s = snd k;
  cp_looked := fun k h => exists hist, h = Some hist /\ 0 <= localHistoryIdx hist < snd k;
  cp_live := fun k h => exists hist, h = Some hist /\ Tour.hist_ok (snd k) hist
|}.
Proof.
  - intros [n sz] s tid pc [H <-] Ht. apply (Tour.wp_tour_lookup n tid); [done..|].
    intros pr h (_ & Hi & _). split; [done|]. by exists h.
  - intros [n sz] s tid pc uncond taken tgt i h [H <-] Ht Hh.
    apply (Tour.wp_tour_updateHistories n tid); [done..| | |].
    + destruct uncond; [by left|]. right. destruct Hh as (hist & -> & Hi). by exists hist.
    + intros g v -> Hg. split; [split; [by apply Tour.ok_ghist|done]|]. eexists. split; [done|].
      by left.
    + intros hist v w -> ->. destruct Hh as (hist' & [= <-] & Hi).
      split; [split; [by apply Tour.ok_lhist, Tour.ok_ghist|done]|]. exists hist. split; [done|].
      by right.
  - intros [n sz] s tid h [H <-] Ht (hist & -> & Hi).
    apply (Tour.wp_tour_squash n tid); [done..| |]; intros _.
    + split; [split; [by apply Tour.ok_ghist|done]|done].
    + split; [split; [by apply Tour.ok_lhist, Tour.ok_ghist|done]|done].
  - intros [n sz] s tid pc taken h squashed i tgt [H <-] Ht (hist & -> & Hi).
    eapply wp_mono; [by apply (Tour.wp_tour_update n tid)|]. intros h' s' (Hok & Hsz & ->).
    split; [done|]. destruct squashed; [|done]. exists hist. by split.
Defined.

(** ** Recovery

    The bits of a local history above the index mask are not restored; no
    lookup reads them. *)
Definition canon (s : TournamentBP) : TournamentBP :=
  s <| localHistoryTable ::= fmap (fun l => Z.land l (localPredictorMask s)) |>.
Definition tour_equiv (s1 s2 : TournamentBP) : Prop := canon s1 = canon s2.

#[export] Instance tour_equiv_equivalence : Equivalence tour_equiv.
Proof.
  unfold tour_equiv. split; [done|intros s1 s2 H; congruence|intros s1 s2 s3 H1 H2; congruence].
Qed.

Lemma land_idem_r l m : Z.land (Z.land l m) m = Z.land l m.
Proof. by rewrite <- Z.land_assoc, Z.land_diag. Qed.

(** The table after the write and the restoring write, seen through the mask. *)
Lemma table_restored (m : Z -> Z) (t t1 : list Z) i l w :
  (forall x, m (m x) = m x) -> t !! i = Some l -> m <$> t1 = m <$> <[i := w]> t ->
  m <$> <[i := m l]> t1 = m <$> t.
Proof.
  intros Hm Hi E. rewrite list_fmap_insert, E, list_fmap_insert, list_insert_insert_eq, Hm.
  rewrite <- list_fmap_insert. by rewrite list_insert_id.
Qed.

Lemma squash_uncond_equiv tid s s1 g v :
  globalHistory s !! Z.to_nat tid = Some g ->
  tour_equiv s1 (s <| globalHistory ::= <[Z.to_nat tid := v]> |>) ->
  tour_equiv (s1 <| globalHistory ::= <[Z.to_nat tid := g]> |>) s.
Proof.
  unfold tour_equiv, canon. destruct s, s1. unfold setf. cbn. intros Hg E.
  injection E as -> -> -> E -> -> -> -> -> -> -> -> -> -> -> -> -> ->.
  rewrite E. f_equal. rewrite list_insert_insert_eq. by apply list_insert_id.
Qed.

Lemma squash_cond_equiv tid s s1 hist v w :
  Tour.records tid s hist ->
  tour_equiv s1 (s <| globalHistory ::= <[Z.to_nat tid := v]> |>
                   <| localHistoryTable ::= <[Z.to_nat (localHistoryIdx hist) := w]> |>) ->
  tour_equiv (s1 <| globalHistory ::= <[Z.to_nat tid := th_globalHistory hist]> |>
                 <| localHistoryTable ::= <[Z.to_nat (localHistoryIdx hist) := localHistory hist]> |>) s.
Proof.
  unfold tour_equiv, canon, Tour.records. destruct s, s1. unfold setf. cbn.
  intros (Hg & _ & l & Hl & ->) E.
  injection E as -> -> -> E -> -> -> -> -> -> -> -> -> -> -> -> -> ->. f_equal.
  - apply (table_restored (fun l => Z.land l _) _ _ _ _ w); [intros x; apply land_idem_r|done|done].
  - rewrite list_insert_insert_eq. by apply list_insert_id.
Qed.

#[export, refine] Instance TournamentBP_recoverable
  : Recoverable TournamentBP TourHistory TourConf := {| cp_equiv := tour_equiv |}.
Proof.
  intros [n sz] s tid b [H E] Ht. cbn in E. subst sz. unfold speculate. apply wp_bind.
  destruct b as [pc [] taken tgt i]; cbn [sb_uncond sb_pc sb_taken sb_target sb_inst].
  - apply wp_ret. apply (Tour.wp_tour_updateHistories n tid); [done..|by left| |done].
    intros g v _ Hg. split; [split; [by apply Tour.ok_ghist|done]|].
    split; [eexists; split; [done|by left]|].
    intros s1 [Hok1 Hsz] He. apply (Tour.wp_tour_squash n tid); [done..|by left| |done].
    intros _. split; [split; [by apply Tour.ok_ghist|done]|]. by eapply squash_uncond_equiv.
  - apply wp_bind. apply (Tour.wp_tour_lookup n tid); [done..|]. intros pr hist Hrec. apply wp_ret.
    assert (Hi := proj1 (proj2 Hrec)). cbn [snd].
    apply (Tour.wp_tour_updateHistories n tid); [done..|right; by exists hist|done|].
    intros hist' v w _ [= <-].
    split; [split; [by apply Tour.ok_lhist, Tour.ok_ghist|done]|].
    split; [exists hist; split; [done|by right]|].
    intros s1 [Hok1 Hsz] He. cbn in Hsz.
    apply (Tour.wp_tour_squash n tid); [done..|right; by rewrite Hsz| |].
    + intros E. exfalso. by eapply (Tour.invalid_not_index n s).
    + intros _. split; [split; [by apply Tour.ok_lhist, Tour.ok_ghist|done]|].
      by eapply squash_cond_equiv.
Defined.

(** The tournament predictor recovers from any wrong path: predicting a
    sequence of branches speculatively and squashing them, the youngest first,
    restores the global history of the thread, all counters and the local
    histories up to the bits above the index mask, which no lookup reads. *)
Theorem tournament_squash_restores n tid bs (s : TournamentBP) :
  Tour.ok n s -> 0 <= tid < n ->
  wp (hs ← speculateAll tid bs; rollback tid hs) (fun _ s' => tour_equiv s' s) s.
Proof.
  intros Hok Ht.
  eapply wp_mono; [by apply (speculate_rollback (n, localHistoryTableSize s) tid bs s)|].
  by intros ? s' [_ Hs'].
Qed.

Definition demoTour : TournamentParams := mkTourParams 1 16 2 16 32 2 32 2 2 1.

Lemma tournament_squash_restores_witness :
  exists s, Tour.make demoTour = Ok s /\
    wp (hs ← speculateAll 0 demoBranches; rollback 0 hs) (fun _ s' => tour_equiv s' s) s.
Proof.
  eexists. split; [vm_compute; reflexivity|].
  apply (tournament_squash_restores 1); [|lia].
  apply (Tour.tour_make_ok demoTour); [by vm_compute..|vm_compute; reflexivity].
Defined.
