(* ===== verification/TageHist.v ===== *)
(** * The global history of TAGE

    [FoldedHistory], [ThreadHistory] and [updateGHist] of
    [cpu/pred/tage_base.hh] and [tage_base.cc], and the loop of
    [restoreHistState] that shifts bits out.  The history of a thread is a
    buffer that grows downwards from its end and is copied back to the end when
    it is full; the folded histories are registers that follow it bit by bit.

    The abstract history is a list of bits without bound, the last one first.
    [th_repr] says that a thread represents it: the buffer holds its beginning
    and every register holds the exclusive or of its slices ([foldRef]).
    Shifting bits in and out refines [app] and [drop]. *)

From Stdlib Require Import ZArith Lia.
From stdpp Require Import base list numbers.
From S2P Require Import Prelude Types.

(** [v[i]] for a signed index *)
Definition vat {A} (l : list A) (i : Z) : option A :=
  if 0 <=? i then l !! Z.to_nat i else None.

Record FoldedHistory := mkFH {
  comp : Z;
  compLength : Z;
  origLength : Z;
  outpoint : Z
}.

#[export] Instance eta_FoldedHistory : Settable FoldedHistory := fun s =>
  mkFH (comp s) (compLength s) (origLength s) (outpoint s).

Module Folded.
Definition init (original_length compressed_length : Z) : Res FoldedHistory :=
  if compressed_length =? 0 then Err DivByZero else
  Ok (mkFH 0 compressed_length original_length (Z.rem original_length compressed_length)).

(** [h0] and [hO] are [h[0]] and [h[origLength]]. *)
Definition update (h0 hO : Z) (f : FoldedHistory) : FoldedHistory :=
  let c := Z.lor (u32 (Z.shiftl (comp f) 1)) h0 in
  let c := Z.lxor c (u32 (Z.shiftl hO (outpoint f))) in
  let c := Z.lxor c (Z.shiftr c (compLength f)) in
  f <| comp := Z.land c (Z.shiftl 1 (compLength f) - 1) |>.

Definition restore (h0 hO : Z) (f : FoldedHistory) : FoldedHistory :=
  let c := Z.lxor (comp f) (u32 (Z.shiftl hO (outpoint f))) in
  let tmp := Z.lxor (Z.land c 1) h0 in
  f <| comp := Z.lor (u32 (Z.shiftl tmp (compLength f - 1))) (Z.shiftr c 1) |>.
End Folded.

Record ThreadHistory := mkTH {
  pathHist : Z;
  nonSpecPathHist : Z;
  globalHist : list Z;
  ptGhist : Z;
  computeIndices : list FoldedHistory;
  computeTags0 : list FoldedHistory;
  computeTags1 : list FoldedHistory
}.

#[export] Instance eta_ThreadHistory : Settable ThreadHistory := fun s =>
  mkTH (pathHist s) (nonSpecPathHist s) (globalHist s) (ptGhist s) (computeIndices s)
    (computeTags0 s) (computeTags1 s).

(** The sizes the history code reads, and the lengths (compressed, original) its
    registers are initialised with. *)
Record HistParams := mkHistParams {
  hp_nHistoryTables : Z;
  hp_maxHist : Z;
  hp_histBufferSize : Z;
  hp_ci : list (Z * Z);
  hp_ct0 : list (Z * Z);
  hp_ct1 : list (Z * Z)
}.

Definition rollbackBuffer : Z := 2000.

Module History.
Section Operations.
Context (p : HistParams).

(** [computeX[i].update(gh_ptr)] or [.restore(gh_ptr)] for one of the vectors *)
Definition stepVec (vec : ThreadHistory -> list FoldedHistory) `{!Setter vec}
    (op : Z -> Z -> FoldedHistory -> FoldedHistory) (i : Z) : M ThreadHistory unit :=
  h ← gets (fun h => h);
  f ← at_index (vat (vec h) i);
  h0 ← at_index (vat (globalHist h) (ptGhist h));
  hO ← at_index (vat (globalHist h) (ptGhist h + origLength f));
  modify (fun h => h <| vec ::= alter (op h0 hO) (Z.to_nat i) |>).

Definition stepFolded (op : Z -> Z -> FoldedHistory -> FoldedHistory) : M ThreadHistory unit :=
  mfor (seqZ 1 (hp_nHistoryTables p)) (fun i =>
    stepVec computeIndices op i ;; stepVec computeTags0 op i ;; stepVec computeTags1 op i).

(** The rollover at the beginning of [updateGHist] *)
Definition rollover : M ThreadHistory unit :=
  let base := u32 (hp_histBufferSize p - hp_maxHist p - rollbackBuffer) in
  mfor (seqZ 0 (hp_maxHist p + rollbackBuffer)) (fun i =>
    h ← gets (fun h => h);
    x ← at_index (vat (globalHist h) (ptGhist h + i));
    at_index (vat (globalHist h) (u32 (base + i))) ;;
    modify (fun h => h <| globalHist ::= <[Z.to_nat (u32 (base + i)) := x]> |>)) ;;
  modify (fun h => h <| ptGhist := i32 base |>).

(** One round of the loop of [updateGHist] *)
Definition shiftIn (b : Z) : M ThreadHistory unit :=
  modify (fun h => h <| ptGhist ::= Z.pred |>) ;;
  h ← gets (fun h => h);
  at_index (vat (globalHist h) (ptGhist h)) ;;
  modify (fun h => h <| globalHist ::= <[Z.to_nat (ptGhist h) := b]> |>) ;;
  stepFolded Folded.update.

Fixpoint shiftInBits (n : nat) (bv : Z) : M ThreadHistory unit :=
  match n with
  | O => mret tt
  | S n' => shiftIn (Z.land bv 1) ;; shiftInBits n' (Z.shiftr bv 1)
  end.

Definition updateGHist (bv n : Z) : M ThreadHistory unit :=
  if n =? 0 then mret tt else
  pt ← gets ptGhist;
  when (pt <? n) rollover ;;
  shiftInBits (Z.to_nat n) bv.

(** One round of the loop of [restoreHistState] *)
Definition shiftOut : M ThreadHistory unit :=
  stepFolded Folded.restore ;;
  modify (fun h => h <| ptGhist ::= Z.succ |>) ;;
  h ← gets (fun h => h);
  massert (ptGhist h + hp_maxHist p <? Z.of_nat (length (globalHist h))).

Fixpoint shiftOutBits (n : nat) : M ThreadHistory unit :=
  match n with
  | O => mret tt
  | S n' => shiftOut ;; shiftOutBits n'
  end.
End Operations.
End History.

(** ** The reference: a history folded to [L] bits *)

Definition isBit (z : Z) : Prop := z = 0 \/ z = 1.

(** Bit [i] of a history that is zero beyond its end *)
Definition bitAt (hist : list Z) (i : nat) : Z := default 0 (hist !! i).

(** The exclusive or of the slices of length [L] of the first [O] bits *)
Fixpoint foldRef (L : Z) (O : nat) (hist : list Z) : Z :=
  match O with
  | 0%nat => 0
  | S o => Z.lxor (foldRef L o hist) (Z.shiftl (bitAt hist o) (Z.of_nat o mod L))
  end.

Definition bits_ok (hist : list Z) : Prop := Forall isBit hist.

Lemma bitAt_bit hist i : bits_ok hist -> isBit (bitAt hist i).
Proof.
  intros H. unfold bitAt. destruct (hist !! i) as [x|] eqn:E; cbn; [|by left].
  exact (proj1 (list.Forall_forall _ _) H x (list_elem_of_lookup_2 _ _ _ E)).
Qed.

Lemma bit_testbit b k : isBit b -> 0 <= k -> Z.testbit b k = (Z.odd b && (k =? 0)).
Proof.
  intros [->| ->] Hk; [by rewrite Z.testbit_0_l|].
  destruct (Z.eqb_spec k 0) as [->|]; [done|]. rewrite andb_false_r.
  apply (Z.pow2_bits_false 0). lia.
Qed.

Lemma shiftl_bit_testbit b j k :
  isBit b -> 0 <= j -> 0 <= k -> Z.testbit (Z.shiftl b j) k = (Z.odd b && (k =? j)).
Proof.
  intros Hb Hj Hk. destruct (Z.lt_ge_cases k j).
  - rewrite Z.shiftl_spec_low by done. destruct (Z.eqb_spec k j); [lia|]. by rewrite andb_false_r.
  - rewrite Z.shiftl_spec_high, bit_testbit by (done || lia). f_equal.
    destruct (Z.eqb_spec (k - j) 0), (Z.eqb_spec k j); (done || lia).
Qed.

(** A number below [2^n] has no bits from [n] on, and conversely. *)
Lemma testbit_above z n k : 0 <= z < 2 ^ n -> n <= k -> Z.testbit z k = false.
Proof.
  intros Hz Hk. destruct (Z.eq_dec z 0) as [->|]; [apply Z.testbit_0_l|].
  apply Z.bits_above_log2; [lia|]. apply Z.log2_lt_pow2; [lia|].
  eapply Z.lt_le_trans; [apply Hz|]. apply Z.pow_le_mono_r; lia.
Qed.

Lemma below_of_testbit z n :
  0 <= z -> 0 <= n -> (forall k, n <= k -> Z.testbit z k = false) -> 0 <= z < 2 ^ n.
Proof.
  intros Hz Hn H. split; [done|].
  assert (E : z = z mod 2 ^ n).
  { apply Z.bits_inj'. intros k Hk. destruct (Z.lt_ge_cases k n).
    - by rewrite Z.mod_pow2_bits_low.
    - rewrite Z.mod_pow2_bits_high by lia. by apply H. }
  rewrite E. apply Z.mod_pos_bound. by apply Z.pow_pos_nonneg.
Qed.

Lemma lxor_below a b n :
  0 <= n -> 0 <= a < 2 ^ n -> 0 <= b < 2 ^ n -> 0 <= Z.lxor a b < 2 ^ n.
Proof.
  intros Hn Ha Hb. apply below_of_testbit; [apply Z.lxor_nonneg; lia|done|].
  intros k Hk. rewrite Z.lxor_spec, !(testbit_above _ n) by done. done.
Qed.

Lemma shiftl_bit_below b j n : isBit b -> 0 <= j < n -> 0 <= Z.shiftl b j < 2 ^ n.
Proof.
  intros Hb Hj. apply below_of_testbit; [|lia|].
  - apply Z.shiftl_nonneg. destruct Hb; lia.
  - intros k Hk. rewrite shiftl_bit_testbit by (done || lia).
    destruct (Z.eqb_spec k j); [lia|]. by rewrite andb_false_r.
Qed.

Lemma foldRef_below L O hist : 0 < L -> bits_ok hist -> 0 <= foldRef L O hist < 2 ^ L.
Proof.
  intros HL Hh. induction O as [|o IH]; cbn [foldRef].
  - split; [done|]. by apply Z.pow_pos_nonneg; [|lia].
  - apply lxor_below; [lia|done|]. apply shiftl_bit_below; [by apply bitAt_bit|].
    by apply Z.mod_pos_bound.
Qed.

(** Rotation of an [L]-bit register by one place *)
Definition rotl (L c : Z) : Z :=
  Z.land (Z.lxor (Z.shiftl c 1) (Z.shiftr c (L - 1))) (Z.ones L).

Lemma rotl_testbit L c k :
  0 < L -> 0 <= c < 2 ^ L -> 0 <= k ->
  Z.testbit (rotl L c) k =
    (if k =? 0 then Z.testbit c (L - 1) else (k <? L) && Z.testbit c (k - 1)).
Proof.
  intros HL Hc Hk. unfold rotl.
  rewrite Z.land_spec, Z.lxor_spec, Z.shiftr_spec, Z.testbit_ones_nonneg by lia.
  destruct (Z.eqb_spec k 0) as [->|].
  - rewrite Z.shiftl_spec_low by lia. destruct (Z.ltb_spec 0 L); [|lia].
    rewrite xorb_false_l, andb_true_r. f_equal.
  - rewrite Z.shiftl_spec by lia. rewrite (testbit_above c L (k + (L - 1))) by lia.
    by rewrite xorb_false_r, andb_comm.
Qed.

Lemma rotl_lxor L a b : rotl L (Z.lxor a b) = Z.lxor (rotl L a) (rotl L b).
Proof.
  apply Z.bits_inj'. intros k Hk. unfold rotl.
  rewrite Z.shiftl_lxor, Z.shiftr_lxor, !Z.land_spec, !Z.lxor_spec, !Z.land_spec, !Z.lxor_spec.
  by destruct (Z.testbit (Z.shiftl a 1) k), (Z.testbit (Z.shiftl b 1) k),
    (Z.testbit (Z.shiftr a (L - 1)) k), (Z.testbit (Z.shiftr b (L - 1)) k),
    (Z.testbit (Z.ones L) k).
Qed.

Lemma rotl_bit L b j :
  isBit b -> 0 < L -> 0 <= j < L ->
  rotl L (Z.shiftl b j) = Z.shiftl b ((j + 1) mod L).
Proof.
  intros Hb HL Hj. apply Z.bits_inj'. intros k Hk.
  pose proof (Z.mod_pos_bound (j + 1) L HL) as Hm.
  rewrite rotl_testbit by (done || by apply shiftl_bit_below).
  rewrite (shiftl_bit_testbit b ((j + 1) mod L)) by (done || lia).
  destruct (Z.eq_dec j (L - 1)) as [->|].
  - replace (L - 1 + 1) with L by lia. rewrite Z.mod_same by lia.
    destruct (Z.eqb_spec k 0) as [->|].
    + rewrite shiftl_bit_testbit by (done || lia). by rewrite Z.eqb_refl.
    + rewrite shiftl_bit_testbit by (done || lia).
      destruct (Z.ltb_spec k L), (Z.eqb_spec (k - 1) (L - 1)); try lia;
        by rewrite ?andb_false_r.
  - rewrite Z.mod_small by lia. destruct (Z.eqb_spec k 0) as [->|].
    + rewrite shiftl_bit_testbit by (done || lia).
      destruct (Z.eqb_spec (L - 1) j), (Z.eqb_spec 0 (j + 1)); try lia.
    + rewrite shiftl_bit_testbit by (done || lia).
      destruct (Z.ltb_spec k L), (Z.eqb_spec (k - 1) j), (Z.eqb_spec k (j + 1)); try lia;
        by rewrite ?andb_false_r.
Qed.

(** A new bit at the front rotates the fold; the bit that leaves the window is
    taken out where it arrives. *)
Lemma foldRef_cons L o x hist :
  0 < L -> bits_ok (x :: hist) ->
  foldRef L (S o) (x :: hist) =
    Z.lxor x (Z.lxor (rotl L (foldRef L (S o) hist))
                     (Z.shiftl (bitAt hist o) (Z.of_nat (S o) mod L))).
Proof.
  intros HL Hx. assert (Hh : bits_ok hist) by (by apply list.Forall_cons in Hx as [_ ?]).
  assert (Hrot : forall o', foldRef L (S o') (x :: hist) = Z.lxor x (rotl L (foldRef L o' hist))).
  { induction o' as [|o' IH]; [cbn [foldRef]|].
    - rewrite Z.lxor_0_l. change (Z.of_nat 0) with 0. rewrite Z.mod_0_l by lia.
      rewrite Z.shiftl_0_r. unfold rotl. rewrite Z.shiftl_0_l, Z.shiftr_0_l. cbn.
      by rewrite Z.lxor_0_r.
    - change (foldRef L (S (S o')) (x :: hist)) with
        (Z.lxor (foldRef L (S o') (x :: hist))
                (Z.shiftl (bitAt hist o') (Z.of_nat (S o') mod L))).
      rewrite IH. cbn [foldRef]. rewrite rotl_lxor, Z.lxor_assoc. do 2 f_equal.
      rewrite rotl_bit by (done || by (apply bitAt_bit || apply Z.mod_pos_bound)).
      f_equal. rewrite Nat2Z.inj_succ, <- Z.add_1_r. by rewrite Z.add_mod_idemp_l by lia. }
  rewrite Hrot. f_equal. cbn [foldRef]. rewrite rotl_lxor.
  rewrite rotl_bit by (done || by (apply bitAt_bit || apply Z.mod_pos_bound)).
  rewrite Z.add_mod_idemp_l, Nat2Z.inj_succ, <- Z.add_1_r by lia.
  by rewrite Z.lxor_assoc, Z.lxor_nilpotent, Z.lxor_0_r.
Qed.

(** ** The registers follow the reference *)

Record fh_ok (f : FoldedHistory) : Prop := {
  fo_len : 0 < compLength f <= 31;
  fo_orig : 0 < origLength f;
  fo_out : outpoint f = origLength f mod compLength f
}.

Lemma fh_out f : fh_ok f -> 0 <= outpoint f < compLength f.
Proof. intros [? ? ->]. apply Z.mod_pos_bound. lia. Qed.

Lemma below_u32 z n : 0 <= z < 2 ^ n -> n <= 32 -> u32 z = z.
Proof.
  intros Hz Hn. apply u32_small. split; [lia|]. eapply Z.lt_le_trans; [apply Hz|].
  apply Z.pow_le_mono_r; lia.
Qed.

(** The shifts of [update] stay within 32 bits. *)
Lemma fh_shifts f hO :
  fh_ok f -> isBit hO -> 0 <= comp f < 2 ^ compLength f ->
  u32 (Z.shiftl (comp f) 1) = Z.shiftl (comp f) 1 /\
  u32 (Z.shiftl hO (outpoint f)) = Z.shiftl hO (outpoint f).
Proof.
  intros Hf HO Hc. pose proof (fh_out f Hf) as Hout. pose proof (fo_len f Hf) as HL. split.
  - apply (below_u32 _ (compLength f + 1)); [|lia]. rewrite Z.shiftl_mul_pow2 by lia.
    rewrite Z.pow_add_r by lia. lia.
  - apply (below_u32 _ (compLength f)); [|lia]. by apply shiftl_bit_below.
Qed.

Lemma update_rotates f h0 hO :
  fh_ok f -> isBit h0 -> isBit hO -> 0 <= comp f < 2 ^ compLength f ->
  comp (Folded.update h0 hO f) =
    Z.lxor h0 (Z.lxor (rotl (compLength f) (comp f)) (Z.shiftl hO (outpoint f))).
Proof.
  intros Hf H0 HO Hc. pose proof (fh_out f Hf) as Hout. pose proof (fo_len f Hf) as HL.
  destruct (fh_shifts f hO Hf HO Hc) as [E1 E2]. unfold Folded.update, setf. cbn.
  rewrite E1, E2. set (L := compLength f) in *. set (c := comp f) in *.
  apply Z.bits_inj'. intros k Hk.
  replace (Z.shiftl 1 L - 1) with (Z.ones L)
    by (rewrite Z.ones_equiv, Z.shiftl_mul_pow2 by lia; lia).
  rewrite Z.land_spec, Z.testbit_ones_nonneg, !Z.lxor_spec by lia.
  rewrite Z.shiftr_spec, !Z.lxor_spec, !Z.lor_spec by lia.
  rewrite rotl_testbit, !(shiftl_bit_testbit hO), !(bit_testbit h0) by (done || lia).
  rewrite (Z.shiftl_spec c 1 (k + L)), !(Z.shiftl_spec c 1 k) by lia.
  destruct (Z.eqb_spec (k + L) 0), (Z.eqb_spec (k + L) (outpoint f)); try lia.
  rewrite !andb_false_r, orb_false_r, xorb_false_r.
  destruct (Z.eqb_spec k 0) as [->|].
  - rewrite Z.testbit_neg_r by lia. destruct (Z.ltb_spec 0 L); [|lia].
    rewrite !andb_true_r, orb_false_l. replace (0 + L - 1) with (L - 1) by lia.
    by destruct (Z.odd h0), (Z.odd hO && (0 =? outpoint f)), (Z.testbit c (L - 1)).
  - rewrite (testbit_above c L (k + L - 1)) by lia.
    rewrite !andb_false_r, orb_false_r, xorb_false_r, xorb_false_l.
    destruct (Z.ltb_spec k L); [by rewrite andb_true_r|].
    destruct (Z.eqb_spec k (outpoint f)); [lia|]. by rewrite !andb_false_r.
Qed.

(** [restore] undoes [update]. *)
Lemma restore_update f h0 hO :
  fh_ok f -> isBit h0 -> isBit hO -> 0 <= comp f < 2 ^ compLength f ->
  Folded.restore h0 hO (Folded.update h0 hO f) = f.
Proof.
  intros Hf H0 HO Hc. pose proof (fh_out f Hf) as Hout. pose proof (fo_len f Hf) as HL.
  pose proof (update_rotates f h0 hO Hf H0 HO Hc) as Hu.
  destruct (fh_shifts f hO Hf HO Hc) as [_ E2].
  assert (Hk : Folded.update h0 hO f = f <| comp := comp (Folded.update h0 hO f) |>)
    by (unfold Folded.update, setf; by destruct f).
  rewrite Hk, Hu. clear Hk Hu. unfold Folded.restore, setf. cbn. rewrite E2.
  destruct f as [c L O out]. cbn in *. f_equal.
  rewrite Z.lxor_assoc, (Z.lxor_assoc _ (Z.shiftl hO out)), Z.lxor_nilpotent, Z.lxor_0_r.
  set (r := Z.lxor h0 (rotl L c)).
  assert (Hr0 : Z.lxor (Z.land r 1) h0 = (if Z.testbit c (L - 1) then 1 else 0)).
  { apply Z.bits_inj'. intros k Hk. change 1 with (Z.ones 1) at 1. unfold r.
    rewrite Z.lxor_spec, Z.land_spec, Z.lxor_spec, Z.testbit_ones_nonneg by lia.
    rewrite rotl_testbit, !bit_testbit by (done || lia).
    destruct (Z.eqb_spec k 0) as [->|].
    - cbn. by destruct (Z.odd h0), (Z.testbit c (L - 1)).
    - destruct (Z.ltb_spec k 1); [lia|]. rewrite !andb_false_r. cbn.
      destruct (Z.testbit c (L - 1)); [|by rewrite Z.testbit_0_l].
      symmetry. apply (Z.pow2_bits_false 0). lia. }
  rewrite Hr0.
  assert (Hb : isBit (if Z.testbit c (L - 1) then 1 else 0))
    by (destruct (Z.testbit c (L - 1)); [by right|by left]).
  rewrite (below_u32 _ L) by (lia || (apply shiftl_bit_below; [done|lia])).
  apply Z.bits_inj'. intros k Hk.
  rewrite Z.lor_spec, Z.shiftr_spec, shiftl_bit_testbit by (exact Hb || lia). unfold r.
  rewrite Z.lxor_spec, rotl_testbit, (bit_testbit h0) by (assumption || lia).
  destruct (Z.eqb_spec (k + 1) 0); [lia|]. rewrite andb_false_r, xorb_false_l.
  replace (k + 1 - 1) with k by lia. destruct (Z.ltb_spec (k + 1) L).
  - destruct (Z.eqb_spec k (L - 1)); [lia|]. by rewrite andb_false_r.
  - cbn. rewrite orb_false_r. destruct (Z.eqb_spec k (L - 1)) as [->|].
    + by destruct (Z.testbit c (L - 1)).
    + rewrite andb_false_r. symmetry. apply (testbit_above c L); [done|lia].
Qed.

(** ** A thread represents an abstract history *)

Record reg_ok (p : HistParams) (sh : Z * Z) (hist : list Z) (f : FoldedHistory) : Prop := {
  ro_shape : (compLength f, origLength f) = sh;
  ro_fh : fh_ok f;
  ro_orig : origLength f <= hp_maxHist p;
  ro_comp : comp f = foldRef (compLength f) (Z.to_nat (origLength f)) hist
}.

(** Position 0 of a vector of registers belongs to the bimodal table and is not
    used. *)
Definition regs_ok (p : HistParams) (shl : list (Z * Z)) (hist : list Z)
    (l : list FoldedHistory) : Prop :=
  length l = S (Z.to_nat (hp_nHistoryTables p)) /\
  forall j f, (1 <= j)%nat -> l !! j = Some f ->
    exists sh, shl !! j = Some sh /\ reg_ok p sh hist f.

(** The history determines the registers. *)
Lemma regs_unique p shl hist l l' j :
  regs_ok p shl hist l -> regs_ok p shl hist l' -> (1 <= j)%nat -> l !! j = l' !! j.
Proof.
  intros [Hl H] [Hl' H'] Hj. destruct (l !! j) as [f|] eqn:E.
  - destruct (lookup_lt_is_Some_2 l' j) as [f' E'].
    { rewrite Hl', <- Hl. by eapply lookup_lt_Some. }
    rewrite E'. f_equal. destruct (H j f Hj E) as (sh & Hs & [S1 F1 _ C1]).
    destruct (H' j f' Hj E') as (sh' & Hs' & [S2 F2 _ C2]).
    rewrite Hs in Hs'. injection Hs' as <-. rewrite <- S2 in S1. injection S1 as EL EO.
    destruct F1 as [_ _ O1], F2 as [_ _ O2]. destruct f as [c L O o], f' as [c' L' O' o'].
    cbn in *. congruence.
  - symmetry. apply lookup_ge_None. rewrite Hl', <- Hl. by apply lookup_ge_None.
Qed.

Record th_repr (p : HistParams) (hist : list Z) (h : ThreadHistory) : Prop := {
  tr_bits : bits_ok hist;
  tr_len : Z.of_nat (length (globalHist h)) = hp_histBufferSize p;
  tr_pt : 0 <= ptGhist h /\ ptGhist h + hp_maxHist p < hp_histBufferSize p;
  tr_buf : forall i, 0 <= i < hp_histBufferSize p - ptGhist h ->
    vat (globalHist h) (ptGhist h + i) = Some (bitAt hist (Z.to_nat i));
  tr_ci : regs_ok p (hp_ci p) hist (computeIndices h);
  tr_ct0 : regs_ok p (hp_ct0 p) hist (computeTags0 h);
  tr_ct1 : regs_ok p (hp_ct1 p) hist (computeTags1 h)
}.

(** The bits that can be shifted out before the buffer ends *)
Definition window (p : HistParams) (h : ThreadHistory) : Z :=
  hp_histBufferSize p - hp_maxHist p - 1 - ptGhist h.

(** The sizes under which the code works: [init] asserts less, see
    [tage_small_buffer]. *)
Record hist_sizes (p : HistParams) : Prop := {
  hs_n : 0 < hp_nHistoryTables p;
  hs_max : 0 < hp_maxHist p;
  hs_buf : 2 * (hp_maxHist p + rollbackBuffer) + 256 <= hp_histBufferSize p < 2 ^ 31
}.

Section Stepping.
Context (p : HistParams).

Definition stepped (g : FoldedHistory -> FoldedHistory) (k : nat) (l l' : list FoldedHistory) :=
  forall j, l' !! j = if decide (1 <= j <= k)%nat then g <$> l !! j else l !! j.

Lemma stepped_0 g l : stepped g 0 l l.
Proof. intros j. by destruct (decide _); [lia|]. Qed.

Lemma stepped_S g k l l' :
  stepped g k l l' -> stepped g (S k) l (alter g (S k) l') /\ l' !! S k = l !! S k.
Proof.
  intros H. assert (E : l' !! S k = l !! S k) by (rewrite H; by destruct (decide _); [lia|]).
  split; [|done]. intros j. destruct (decide (j = S k)) as [->|].
  - rewrite list_lookup_alter_eq, E. by destruct (decide _); [|lia].
  - rewrite list_lookup_alter_ne, H by done. by do 2 destruct (decide _); [|lia|lia|].
Qed.

Lemma vat_nat {A} (l : list A) i : 0 <= i -> vat l i = l !! Z.to_nat i.
Proof. intros H. unfold vat. by destruct (Z.leb_spec 0 i); [|lia]. Qed.

Lemma wp_stepVec (vec : ThreadHistory -> list FoldedHistory) `{!Setter vec} op i f h0 hO h
    (Q : unit -> ThreadHistory -> Prop) :
  vat (vec h) i = Some f -> vat (globalHist h) (ptGhist h) = Some h0 ->
  vat (globalHist h) (ptGhist h + origLength f) = Some hO ->
  Q tt (h <| vec ::= alter (op h0 hO) (Z.to_nat i) |>) ->
  wp (History.stepVec vec op i) Q h.
Proof.
  intros Hf H0 HO HQ. unfold History.stepVec. wp_steps.
  eapply wp_at_index; [exact Hf|]. wp_steps. eapply wp_at_index; [exact H0|]. wp_steps.
  eapply wp_at_index; [exact HO|]. by wp_steps.
Qed.

Definition withRegs (vi v0 v1 : list FoldedHistory) (h : ThreadHistory) : ThreadHistory :=
  h <| computeIndices := vi |> <| computeTags0 := v0 |> <| computeTags1 := v1 |>.

(** The registers of a vector, with the bit that leaves their window *)
Definition readable (h : ThreadHistory) (l : list FoldedHistory) : Prop :=
  length l = S (Z.to_nat (hp_nHistoryTables p)) /\
  forall j f, (1 <= j)%nat -> l !! j = Some f ->
    exists hO, vat (globalHist h) (ptGhist h + origLength f) = Some hO.

Definition outBit (h : ThreadHistory) (f : FoldedHistory) : Z :=
  default 0 (vat (globalHist h) (ptGhist h + origLength f)).

Lemma stepped_alter (op : Z -> Z -> FoldedHistory -> FoldedHistory) h0 h l l' k f hO :
  stepped (fun f => op h0 (outBit h f) f) k l l' -> l !! S k = Some f ->
  vat (globalHist h) (ptGhist h + origLength f) = Some hO ->
  l' !! S k = Some f /\
  stepped (fun f => op h0 (outBit h f) f) (S k) l (alter (op h0 hO) (S k) l').
Proof.
  intros Hs Hf HO. apply stepped_S in Hs as [Hs E]. rewrite Hf in E. split; [done|].
  intros j. rewrite <- Hs. destruct (decide (j = S k)) as [->|].
  - rewrite !list_lookup_alter_eq, E. cbn. unfold outBit. by rewrite HO.
  - by rewrite !list_lookup_alter_ne.
Qed.

Lemma wp_stepFolded op h0 h (Q : unit -> ThreadHistory -> Prop) :
  vat (globalHist h) (ptGhist h) = Some h0 ->
  readable h (computeIndices h) -> readable h (computeTags0 h) -> readable h (computeTags1 h) ->
  (forall vi v0 v1,
     let g := fun f => op h0 (outBit h f) f in
     let n := Z.to_nat (hp_nHistoryTables p) in
     stepped g n (computeIndices h) vi -> stepped g n (computeTags0 h) v0 ->
     stepped g n (computeTags1 h) v1 -> Q tt (withRegs vi v0 v1 h)) ->
  wp (History.stepFolded p op) Q h.
Proof.
  intros H0 [Li Ri] [L0 R0] [L1 R1] HQ. unfold History.stepFolded.
  set (g := fun f => op h0 (outBit h f) f).
  eapply wp_mono with (P := fun _ h' => exists vi v0 v1, h' = withRegs vi v0 v1 h /\
    stepped g (Z.to_nat (hp_nHistoryTables p)) (computeIndices h) vi /\
    stepped g (Z.to_nat (hp_nHistoryTables p)) (computeTags0 h) v0 /\
    stepped g (Z.to_nat (hp_nHistoryTables p)) (computeTags1 h) v1).
  2: { intros [] h' (vi & v0 & v1 & -> & ? & ? & ?). by apply HQ. }
  rewrite <- (length_seqZ 1 (hp_nHistoryTables p)).
  apply (wp_mfor_count (fun k h' => exists vi v0 v1, h' = withRegs vi v0 v1 h /\
    stepped g k (computeIndices h) vi /\ stepped g k (computeTags0 h) v0 /\
    stepped g k (computeTags1 h) v1)).
  { exists (computeIndices h), (computeTags0 h), (computeTags1 h).
    split_and!; [by destruct h|apply stepped_0..]. }
  intros k x h' Hx (vi & v0 & v1 & -> & Hi & Ht0 & Ht1).
  apply lookup_seqZ in Hx as [-> Hk].
  assert (Hget : forall l, length l = S (Z.to_nat (hp_nHistoryTables p)) ->
    exists f : FoldedHistory, l !! S k = Some f).
  { intros l Hl. apply lookup_lt_is_Some_2. lia. }
  destruct (Hget _ Li) as [fi Ei], (Hget _ L0) as [f0 E0], (Hget _ L1) as [f1 E1].
  destruct (Ri (S k) _ ltac:(lia) Ei) as [oi Oi], (R0 (S k) _ ltac:(lia) E0) as [o0 O0],
    (R1 (S k) _ ltac:(lia) E1) as [o1 O1].
  destruct (stepped_alter op h0 h _ _ _ _ _ Hi Ei Oi) as [Gi Hi'],
    (stepped_alter op h0 h _ _ _ _ _ Ht0 E0 O0) as [G0 Ht0'],
    (stepped_alter op h0 h _ _ _ _ _ Ht1 E1 O1) as [G1 Ht1'].
  assert (Ek : Z.to_nat (1 + Z.of_nat k) = S k) by lia.
  wp_steps. eapply wp_stepVec; [rewrite vat_nat by lia; rewrite Ek; exact Gi|exact H0|exact Oi|].
  wp_steps. eapply wp_stepVec; [rewrite vat_nat by lia; rewrite Ek; exact G0|exact H0|exact O0|].
  wp_steps. eapply wp_stepVec; [rewrite vat_nat by lia; rewrite Ek; exact G1|exact H0|exact O1|].
  rewrite Ek. eexists _, _, _. split; [reflexivity|done].
Qed.
End Stepping.

(** ** Shifting in and out refines the list operations *)

Definition samePaths (h h' : ThreadHistory) : Prop :=
  pathHist h' = pathHist h /\ nonSpecPathHist h' = nonSpecPathHist h.

(** The history after [updateGHist(bv, n)] *)
Fixpoint pushed (n : nat) (bv : Z) (hist : list Z) : list Z :=
  match n with
  | O => hist
  | S n' => pushed n' (Z.shiftr bv 1) (Z.land bv 1 :: hist)
  end.

Lemma land_1_bit z : isBit (Z.land z 1).
Proof.
  change 1 with (Z.ones 1). rewrite Z.land_ones by lia.
  pose proof (Z.mod_pos_bound z (2 ^ 1)). unfold isBit. lia.
Qed.

Lemma pushed_app n bv hist : exists l, pushed n bv hist = l ++ hist /\ length l = n.
Proof.
  revert bv hist. induction n as [|n IH]; intros bv hist; cbn [pushed]; [by exists []|].
  destruct (IH (Z.shiftr bv 1) (Z.land bv 1 :: hist)) as (l & -> & <-).
  exists (l ++ [Z.land bv 1]). rewrite <- app_assoc, length_app. cbn. split; [done|lia].
Qed.

Section Refinement.
Context (p : HistParams) (Hp : hist_sizes p).

Lemma reg_push sh hist b f :
  bits_ok (b :: hist) -> reg_ok p sh hist f ->
  reg_ok p sh (b :: hist) (Folded.update b (bitAt (b :: hist) (Z.to_nat (origLength f))) f).
Proof.
  intros Hb [Hsh Hf Ho Hc]. pose proof Hb as [Hb0 Hh]%list.Forall_cons.
  pose proof (fo_orig _ Hf) as HO. pose proof (fo_len _ Hf) as HL.
  constructor; [done|by destruct Hf|done|].
  change (compLength (Folded.update _ _ _)) with (compLength f).
  change (origLength (Folded.update _ _ _)) with (origLength f).
  replace (Z.to_nat (origLength f)) with (S (Z.to_nat (origLength f - 1))) by lia.
  rewrite update_rotates; [|done|done|by apply bitAt_bit|rewrite Hc; apply foldRef_below; [lia|done]].
  rewrite foldRef_cons, Hc, (fo_out _ Hf) by (done || lia).
  replace (S (Z.to_nat (origLength f - 1))) with (Z.to_nat (origLength f)) by lia.
  rewrite Z2Nat.id by lia. do 3 f_equal. unfold bitAt.
  replace (Z.to_nat (origLength f)) with (S (Z.to_nat (origLength f - 1))) by lia. done.
Qed.

Lemma reg_pop sh hist b f :
  bits_ok (b :: hist) -> reg_ok p sh (b :: hist) f ->
  reg_ok p sh hist (Folded.restore b (bitAt (b :: hist) (Z.to_nat (origLength f))) f).
Proof.
  intros Hb [Hsh Hf Ho Hc]. pose proof Hb as [Hb0 Hh]%list.Forall_cons.
  pose proof (fo_len _ Hf) as HL.
  set (f0 := f <| comp := foldRef (compLength f) (Z.to_nat (origLength f)) hist |>).
  assert (Hf0 : reg_ok p sh hist f0) by (constructor; [done|by destruct Hf|done|done]).
  destruct (reg_push sh hist b f0 Hb Hf0) as [_ _ _ E].
  assert (Ef : Folded.update b (bitAt (b :: hist) (Z.to_nat (origLength f))) f0 = f).
  { transitivity (f0 <| comp := comp f |>); [|by destruct f].
    rewrite Hc. transitivity (f0 <| comp := comp (Folded.update b
      (bitAt (b :: hist) (Z.to_nat (origLength f))) f0) |>); [by destruct f|].
    exact (f_equal (fun c => f0 <| comp := c |>) E). }
  rewrite <- Ef at 2. rewrite restore_update; [done|by destruct Hf|done|by apply bitAt_bit|].
  cbn. apply foldRef_below; [lia|done].
Qed.

Lemma regs_step shl hist hist' (op : Z -> Z -> FoldedHistory -> FoldedHistory) b h l l' :
  regs_ok p shl hist l -> stepped (fun f => op b (outBit h f) f) (Z.to_nat (hp_nHistoryTables p)) l l' ->
  (forall sh f, reg_ok p sh hist f -> reg_ok p sh hist' (op b (outBit h f) f)) ->
  regs_ok p shl hist' l'.
Proof.
  intros [Hl Hr] Hs Hop. split.
  - apply Nat.le_antisymm.
    + apply lookup_ge_None. rewrite Hs. destruct (decide _); [lia|].
      apply lookup_ge_None. lia.
    + rewrite <- Hl. destruct (decide (length l <= length l')%nat) as [|Hn]; [done|].
      destruct (lookup_lt_is_Some_2 l (length l')) as [x Hx]; [lia|].
      specialize (Hs (length l')). rewrite (proj2 (lookup_ge_None l' (length l'))), Hx in Hs by lia.
      by destruct (decide _).
  - intros j f Hj Hf. rewrite Hs in Hf. destruct (decide _) as [Hd|Hd].
    + apply fmap_Some in Hf as (f1 & Hf1 & ->). destruct (Hr j f1 Hj Hf1) as (sh & ? & ?).
      exists sh. split; [done|]. by apply Hop.
    + apply lookup_lt_Some in Hf. lia.
Qed.

(** The registers of a thread read inside the buffer. *)
Lemma regs_readable shl hist h l :
  (forall i, 0 <= i <= hp_maxHist p -> is_Some (vat (globalHist h) (ptGhist h + i))) ->
  regs_ok p shl hist l -> readable p h l.
Proof.
  intros Hv [Hl Hr]. split; [done|]. intros j f Hj Hf.
  destruct (Hr _ _ Hj Hf) as (sh & _ & [_ Hf1 Ho _]).
  apply Hv. pose proof (fo_orig _ Hf1). lia.
Qed.

(** Registers between two histories whose buffer holds [hist0]: the bits they
    read are those of [hist0]. *)
Lemma wp_step_regs hist hist' hist0 op h (Q : unit -> ThreadHistory -> Prop) :
  (forall i, 0 <= i <= hp_maxHist p ->
     vat (globalHist h) (ptGhist h + i) = Some (bitAt hist0 (Z.to_nat i))) ->
  regs_ok p (hp_ci p) hist (computeIndices h) -> regs_ok p (hp_ct0 p) hist (computeTags0 h) ->
  regs_ok p (hp_ct1 p) hist (computeTags1 h) ->
  (forall sh f, reg_ok p sh hist f ->
     reg_ok p sh hist' (op (bitAt hist0 0) (bitAt hist0 (Z.to_nat (origLength f))) f)) ->
  (forall vi v0 v1, regs_ok p (hp_ci p) hist' vi -> regs_ok p (hp_ct0 p) hist' v0 ->
     regs_ok p (hp_ct1 p) hist' v1 -> Q tt (withRegs vi v0 v1 h)) ->
  wp (History.stepFolded p op) Q h.
Proof.
  intros Hb Hi H0 H1 Hop HQ. pose proof (hs_max _ Hp) as HM.
  assert (Hread : forall shl l, regs_ok p shl hist l -> readable p h l).
  { intros shl l. apply regs_readable. intros i Hr. rewrite Hb by done. by eexists. }
  assert (Hout : forall sh f, reg_ok p sh hist f ->
    reg_ok p sh hist' (op (bitAt hist0 0) (outBit h f) f)).
  { intros sh f Hf. unfold outBit. pose proof (fo_orig _ (ro_fh _ _ _ _ Hf)).
    rewrite Hb by (pose proof (ro_orig _ _ _ _ Hf); lia). by apply Hop. }
  eapply (wp_stepFolded p op (bitAt hist0 0)).
  - specialize (Hb 0). rewrite Z.add_0_r in Hb. apply Hb. lia.
  - by eapply Hread.
  - by eapply Hread.
  - by eapply Hread.
  - intros vi v0 v1 g n Si S0 S1. subst g n.
    apply HQ; (eapply (regs_step _ hist hist' op); [| |exact Hout]; [|eassumption]; assumption).
Qed.

Lemma wp_shiftIn hist b h (Q : unit -> ThreadHistory -> Prop) :
  th_repr p hist h -> isBit b -> 0 < ptGhist h ->
  (forall h', th_repr p (b :: hist) h' -> ptGhist h' = ptGhist h - 1 -> samePaths h h' ->
     Q tt h') ->
  wp (History.shiftIn p b) Q h.
Proof.
  intros [Hbits Hlen [Hp0 Hp1] Hbuf Hi H0 H1] Hb Hpt HQ. pose proof (hs_max _ Hp) as HM.
  unfold History.shiftIn. wp_steps. cbn.
  assert (Hin : exists x, vat (globalHist h) (Z.pred (ptGhist h)) = Some x).
  { rewrite vat_nat by lia. apply lookup_lt_is_Some_2. lia. }
  destruct Hin as [x Hx]. eapply wp_at_index; [exact Hx|]. wp_steps. cbn.
  set (h1 := setf globalHist _ _).
  assert (Hb1 : forall i, 0 <= i < hp_histBufferSize p - (ptGhist h - 1) ->
    vat (globalHist h1) (ptGhist h1 + i) = Some (bitAt (b :: hist) (Z.to_nat i))).
  { intros i Hr. unfold h1, setf. cbn. rewrite vat_nat by lia.
    destruct (Z.eq_dec i 0) as [->|].
    - rewrite Z.add_0_r, list_lookup_insert_eq by lia. done.
    - rewrite list_lookup_insert_ne by lia. specialize (Hbuf (i - 1) ltac:(lia)).
      replace (ptGhist h + (i - 1)) with (Z.pred (ptGhist h) + i) in Hbuf by lia.
      rewrite vat_nat in Hbuf by lia. rewrite Hbuf.
      replace (Z.to_nat i) with (S (Z.to_nat (i - 1))) by lia. done. }
  eapply (wp_step_regs hist (b :: hist) (b :: hist)); [|done..| |].
  - intros i Hr. apply Hb1. lia.
  - intros sh f Hf. apply reg_push; [by constructor|done].
  - intros vi v0 v1 Ri R0 R1. apply HQ; [|cbn; lia|done].
    constructor; [by constructor|cbn; by rewrite length_insert|cbn; lia| |done..].
    intros i Hr. apply (Hb1 i). cbn in Hr. lia.
Qed.

Lemma wp_shiftOut hist b h (Q : unit -> ThreadHistory -> Prop) :
  th_repr p (b :: hist) h -> 0 < window p h ->
  (forall h', th_repr p hist h' -> ptGhist h' = ptGhist h + 1 -> samePaths h h' -> Q tt h') ->
  wp (History.shiftOut p) Q h.
Proof.
  intros [Hbits Hlen [Hp0 Hp1] Hbuf Hi H0 H1] Hw HQ. pose proof (hs_max _ Hp) as HM.
  unfold window in Hw. unfold History.shiftOut. wp_steps. eapply (wp_step_regs (b :: hist) hist (b :: hist)); [|done..| |].
  - intros i Hr. apply Hbuf. lia.
  - intros sh f Hf. by apply reg_pop.
  - intros vi v0 v1 Ri R0 R1. wp_steps. cbn. apply wp_massert; [apply Z.ltb_lt; lia|].
    apply HQ; [|cbn; lia|done]. constructor; cbn; try done; try lia.
    { by apply list.Forall_cons in Hbits as [_ ?]. }
    intros i Hr. specialize (Hbuf (i + 1) ltac:(lia)).
    replace (Z.succ (ptGhist h) + i) with (ptGhist h + (i + 1)) by lia. rewrite Hbuf.
    by replace (Z.to_nat (i + 1)) with (S (Z.to_nat i)) by lia.
Qed.

(** The rollover copies the beginning of the history to the end of the buffer;
    source and destination do not overlap. *)
Lemma wp_rollover hist h (Q : unit -> ThreadHistory -> Prop) :
  th_repr p hist h -> ptGhist h < 256 ->
  (forall h', th_repr p hist h' ->
     ptGhist h' = hp_histBufferSize p - hp_maxHist p - rollbackBuffer -> samePaths h h' ->
     Q tt h') ->
  wp (History.rollover p) Q h.
Proof.
  intros Hr Hpt HQ. pose proof (hs_max _ Hp) as HM. pose proof (hs_buf _ Hp) as HS.
  pose proof (tr_len _ _ _ Hr) as Hlen. pose proof (tr_pt _ _ _ Hr) as Hpp.
  unfold rollbackBuffer in *.
  unfold History.rollover, rollbackBuffer. rewrite u32_small by lia.
  set (base := hp_histBufferSize p - hp_maxHist p - 2000).
  apply wp_bind. eapply wp_mono with (P := fun _ h' => exists g,
    h' = h <| globalHist := g |> /\ length g = length (globalHist h) /\
    forall j, 0 <= j < hp_histBufferSize p -> vat g j =
      if decide (base <= j) then vat (globalHist h) (ptGhist h + (j - base))
      else vat (globalHist h) j).
  - pose (I := fun k h' => exists g, h' = h <| globalHist := g |> /\
      length g = length (globalHist h) /\
      forall j, 0 <= j < hp_histBufferSize p -> vat g j =
        if decide (base <= j < base + Z.of_nat k) then vat (globalHist h) (ptGhist h + (j - base))
        else vat (globalHist h) j).
    eapply wp_mono; [apply (wp_mfor_count I)|].
    + exists (globalHist h). split_and!; [by destruct h|done|]. intros j _.
      destruct (decide _); [lia|done].
    + intros k x h' Hx (g & -> & Hg & Hlook). apply lookup_seqZ in Hx as [-> Hk].
      rewrite (u32_small (base + _)) by lia. wp_steps. cbn.
      assert (Hsrc : exists y, vat g (ptGhist h + (0 + Z.of_nat k)) = Some y).
      { rewrite vat_nat by lia. apply lookup_lt_is_Some_2. lia. }
      destruct Hsrc as [y Hy]. eapply wp_at_index; [exact Hy|]. wp_steps.
      assert (Hdst : exists z, vat g (base + (0 + Z.of_nat k)) = Some z).
      { rewrite vat_nat by lia. apply lookup_lt_is_Some_2. lia. }
      destruct Hdst as [z Hz]. eapply wp_at_index; [exact Hz|]. wp_steps.
      eexists. split_and!; [reflexivity|cbn; by rewrite length_insert|]. intros j Hj.
      rewrite vat_nat by lia. cbn. destruct (Z.eq_dec j (base + Z.of_nat k)) as [->|].
      * rewrite Z.add_0_l, list_lookup_insert_eq by lia.
        destruct (decide _); [|lia]. rewrite Hlook in Hy by lia.
        destruct (decide _) in Hy; [lia|]. rewrite <- Hy. f_equal. lia.
      * rewrite list_lookup_insert_ne, <- vat_nat, Hlook by lia.
        do 2 destruct (decide _); (done || lia).
    + intros [] h' (g & -> & Hg & Hlook). exists g. split_and!; [done..|]. intros j Hj.
      rewrite Hlook by done. rewrite length_seqZ. do 2 destruct (decide _); (done || lia).
  - intros [] h' (g & -> & Hg & Hlook). wp_steps. rewrite i32_small by lia.
    apply HQ; [|done|done]. destruct Hr as [Hb _ _ Hbuf ? ? ?].
    constructor; cbn; [done|by rewrite Hg|lia| |done..]. intros i Hi.
    rewrite Hlook by lia. destruct (decide _); [|lia].
    replace (base + i - base) with i by lia. apply Hbuf. lia.
Qed.

Lemma wp_shiftInBits n : forall hist bv h (Q : unit -> ThreadHistory -> Prop),
  th_repr p hist h -> Z.of_nat n <= ptGhist h ->
  (forall h', th_repr p (pushed n bv hist) h' -> ptGhist h' = ptGhist h - Z.of_nat n ->
     samePaths h h' -> Q tt h') ->
  wp (History.shiftInBits p n bv) Q h.
Proof.
  induction n as [|n IH]; intros hist bv h Q Hr Hpt HQ; cbn [History.shiftInBits].
  - apply wp_ret. apply HQ; [done|lia|done].
  - wp_steps. eapply wp_shiftIn; [exact Hr|apply land_1_bit|lia|]. intros h1 Hr1 Hp1 Hs1.
    eapply IH; [exact Hr1|lia|]. intros h2 Hr2 Hp2 Hs2. apply HQ; [done|lia|].
    unfold samePaths in *. destruct Hs1 as [<- <-]. done.
Qed.

Lemma wp_updateGHist hist bv n h (Q : unit -> ThreadHistory -> Prop) :
  th_repr p hist h -> 0 <= n < 256 ->
  (forall h', th_repr p (pushed (Z.to_nat n) bv hist) h' -> samePaths h h' ->
     n + Z.min (window p h) (rollbackBuffer - 1) <= window p h' -> Q tt h') ->
  wp (History.updateGHist p bv n) Q h.
Proof.
  intros Hr Hn HQ. unfold History.updateGHist, window in *. wp_step.
  { subst. apply Z.eqb_eq in H as ->. apply wp_ret. apply HQ; [done|done|]. lia. }
  wp_steps.
  - apply Z.ltb_lt in H0. eapply wp_rollover; [exact Hr|lia|]. intros h1 Hr1 Hp1 Hs1.
    pose proof (hs_buf _ Hp) as HS. unfold rollbackBuffer in *. pose proof (hs_max _ Hp).
    eapply wp_shiftInBits; [exact Hr1|lia|]. intros h2 Hr2 Hp2 Hs2.
    apply HQ; [done| |lia]. unfold samePaths in *. destruct Hs1 as [<- <-]. done.
  - apply Z.ltb_ge in H0. eapply wp_shiftInBits; [exact Hr|lia|]. intros h2 Hr2 Hp2 Hs2.
    apply HQ; [done|done|lia].
Qed.

Lemma wp_shiftOutBits l : forall hist h (Q : unit -> ThreadHistory -> Prop),
  th_repr p (l ++ hist) h -> Z.of_nat (length l) <= window p h ->
  (forall h', th_repr p hist h' -> window p h' = window p h - Z.of_nat (length l) ->
     samePaths h h' -> Q tt h') ->
  wp (History.shiftOutBits p (length l)) Q h.
Proof.
  induction l as [|b l IH]; intros hist h Q Hr Hw HQ; cbn [History.shiftOutBits length] in *.
  - apply wp_ret. apply HQ; [done|lia|done].
  - wp_steps. eapply wp_shiftOut; [exact Hr|lia|]. intros h1 Hr1 Hp1 Hs1.
    assert (Hw1 : window p h1 = window p h - 1) by (unfold window in *; lia).
    eapply IH; [exact Hr1|lia|]. intros h2 Hr2 Hw2 Hs2. apply HQ; [done|lia|].
    unfold samePaths in *. destruct Hs1 as [<- <-]. done.
Qed.
End Refinement.
