(* ===== verification/Tage.v ===== *)
(** * TAGE: the model

    [cpu/pred/tage_base.hh], [tage_base.cc]: [TAGEBase], the tables and the
    histories of a TAGE predictor, and [cpu/pred/tage.cc]: [TAGE], the direction
    predictor built on it.  The member functions that derived predictors
    override are a class ([TageVirtual]); [TAGEBase_v] is the base
    implementation.

    [gtable[i]] is a pointer to an array of entries: the number of the array in
    [gstore] (derived predictors share arrays between tables).  The vectors that
    a [BranchInfo] allocates, and its path history, are indeterminate until they
    are assigned: [None].  [histLengths] is part of the configuration; the
    source computes it in double precision, [calculateParameters] with exact
    arithmetic.  So are the compressed lengths that the virtual function
    [initFoldedHistories] gives to the folded registers ([indexFold], [tagFold0]
    and [tagFold1]).  The random numbers that derived predictors draw are a
    sequence ([tb_rands]). *)

From Stdlib Require Import ZArith Lia.
From stdpp Require Import base list numbers.
From S2P Require Import Prelude Types CondPred TageHist.

Record TageParams := mkTageParams {
  tg_numThreads : Z;
  tg_instShiftAmt : Z;
  nHistoryTables : Z;
  minHist : Z;
  maxHist : Z;
  tagTableTagWidths : list Z;
  logTagTableSizes : list Z;
  histLengths : list Z;
  indexFold : list Z;
  tagFold0 : list Z;
  tagFold1 : list Z;
  logRatioBiModalHystEntries : Z;
  tagTableCounterBits : Z;
  tagTableUBits : Z;
  histBufferSize : Z;
  pathHistBits : Z;
  logUResetPeriod : Z;
  numUseAltOnNa : Z;
  initialTCounterValue : Z;
  useAltOnNaBits : Z;
  maxNumAlloc : Z;
  noSkip : list bool;
  speculativeHistUpdate : bool;
  takenOnlyHistory : bool
}.

#[export] Instance eta_TageParams : Settable TageParams := fun s =>
  mkTageParams (tg_numThreads s) (tg_instShiftAmt s) (nHistoryTables s) (minHist s) (maxHist s)
    (tagTableTagWidths s) (logTagTableSizes s) (histLengths s)
    (indexFold s) (tagFold0 s) (tagFold1 s) (logRatioBiModalHystEntries s)
    (tagTableCounterBits s) (tagTableUBits s) (histBufferSize s) (pathHistBits s)
    (logUResetPeriod s) (numUseAltOnNa s) (initialTCounterValue s) (useAltOnNaBits s)
    (maxNumAlloc s) (noSkip s) (speculativeHistUpdate s) (takenOnlyHistory s).

Definition histParams (p : TageParams) : HistParams :=
  mkHistParams (nHistoryTables p) (maxHist p) (histBufferSize p)
    (zip (indexFold p) (histLengths p)) (zip (tagFold0 p) (histLengths p))
    (zip (tagFold1 p) (histLengths p)).

(** [TAGEBase::TageEntry] *)
Record TageEntry := mkTageEntry { te_ctr : Z; te_tag : Z; te_u : Z }.

#[export] Instance eta_TageEntry : Settable TageEntry := fun s =>
  mkTageEntry (te_ctr s) (te_tag s) (te_u s).

(** The provider of a prediction; the initial value is [unsigned(-1)]. *)
Definition BIMODAL_ONLY : Z := 0.
Definition TAGE_LONGEST_MATCH : Z := 1.
Definition BIMODAL_ALT_MATCH : Z := 2.
Definition TAGE_ALT_MATCH : Z := 3.

(** [TAGEBase::BranchInfo], with the confidences that [TAGE_SC_L_TAGE::BranchInfo]
    adds to it *)
Record BranchInfo := mkBranchInfo {
  bi_branchPC : Addr;
  bi_condBranch : bool;
  bi_pathHist : option Z;
  hitBank : Z;
  hitBankIndex : Z;
  altBank : Z;
  altBankIndex : Z;
  bimodalIndex : Z;
  tagePred : bool;
  altTaken : bool;
  longestMatchPred : bool;
  pseudoNewAlloc : bool;
  bi_lowConf : bool;
  bi_highConf : bool;
  bi_altConf : bool;
  bi_medConf : bool;
  bi_tableIndices : list (option Z);
  bi_tableTags : list (option Z);
  bi_ci : list (option Z);
  bi_ct0 : list (option Z);
  bi_ct1 : list (option Z);
  bi_provider : Z;
  bi_ghist : Z;
  bi_nGhist : Z;
  bi_modified : bool;
  bi_valid : bool
}.

#[export] Instance eta_BranchInfo : Settable BranchInfo := fun s =>
  mkBranchInfo (bi_branchPC s) (bi_condBranch s) (bi_pathHist s) (hitBank s) (hitBankIndex s)
    (altBank s) (altBankIndex s) (bimodalIndex s) (tagePred s) (altTaken s) (longestMatchPred s)
    (pseudoNewAlloc s) (bi_lowConf s) (bi_highConf s) (bi_altConf s) (bi_medConf s) (bi_tableIndices s) (bi_tableTags s) (bi_ci s) (bi_ct0 s) (bi_ct1 s)
    (bi_provider s) (bi_ghist s) (bi_nGhist s) (bi_modified s) (bi_valid s).

(** The increments of [TAGEBaseStats] *)
Inductive TageStat :=
| longestMatchProviderCorrect
| altMatchProviderCorrect
| bimodalAltMatchProviderCorrect
| bimodalProviderCorrect
| longestMatchProviderWrong
| altMatchProviderWrong
| bimodalAltMatchProviderWrong
| bimodalProviderWrong
| altMatchProviderWouldHaveHit
| longestMatchProviderWouldHaveHit
| longestMatchProvider (bank : Z)
| altMatchProvider (bank : Z).

(** [tCounter] is an [int64_t]; that it overflows after [2^63] allocations is left
    out. *)
Record TAGEBase := mkTAGEBase {
  btablePrediction : list bool;
  btableHysteresis : list bool;
  gtable : list (option nat);
  gstore : list (list TageEntry);
  threadHistory : list ThreadHistory;
  tableIndices : list Z;
  tableTags : list Z;
  useAltPredForNewlyAllocated : list Z;
  tCounter : Z;
  tb_rands : nat -> Z;
  tb_randPos : nat;
  tb_stats : list TageStat
}.

#[export] Instance eta_TAGEBase : Settable TAGEBase := fun s =>
  mkTAGEBase (btablePrediction s) (btableHysteresis s) (gtable s) (gstore s) (threadHistory s)
    (tableIndices s) (tableTags s) (useAltPredForNewlyAllocated s) (tCounter s)
    (tb_rands s) (tb_randPos s) (tb_stats s).

(** The member functions of [TAGEBase] that [TAGE_SC_L_TAGE] overrides and the
    others call *)
Class TageVirtual := {
  v_calculateIndicesAndTags : ThreadID -> Addr -> BranchInfo -> M TAGEBase BranchInfo;
  v_bindex : Addr -> Z;
  v_getBimodePred : Addr -> BranchInfo -> M TAGEBase (bool * BranchInfo);
  v_extraAltCalc : BranchInfo -> M TAGEBase BranchInfo;
  v_getUseAltIdx : BranchInfo -> Addr -> Z;
  v_adjustAlloc : bool -> bool -> bool -> M TAGEBase bool;
  v_handleAllocAndUReset : bool -> bool -> BranchInfo -> Z -> M TAGEBase unit;
  v_handleTAGEUpdate : Addr -> bool -> BranchInfo -> M TAGEBase unit;
  v_branchTypeExtra : StaticInst -> Z;
  v_calcNewPathHist : Addr -> Z -> bool -> Z -> Addr -> Z;
  v_updatePathAndGlobalHistory :
    ThreadID -> Z -> bool -> Addr -> Addr -> BranchInfo -> M TAGEBase BranchInfo
}.

Module TB.

(** ** Construction *)

(** The largest [k] with [(2k - 1)^d <= a] *)
Fixpoint roundedRoot (k : nat) (d a : Z) : Z :=
  match k with
  | O => 0
  | S k' => if (2 * Z.of_nat k - 1) ^ d <=? a then Z.of_nat k else roundedRoot k' d a
  end.

(** [(int)(min * pow(max / min, (i - 1) / (n - 1)) + 0.5)] *)
Definition geometricLength (mn mx n i : Z) : Z :=
  roundedRoot (Z.to_nat mx) (n - 1) (2 ^ (n - 1) * mn ^ (n - i) * mx ^ (i - 1)).

(** Position 0 belongs to the bimodal table. *)
Definition calculateParameters (p : TageParams) : TageParams :=
  p <| histLengths := 0 :: map (fun i =>
         if i =? 1 then (if nHistoryTables p =? 1 then maxHist p else minHist p)
         else geometricLength (minHist p) (maxHist p) (nHistoryTables p) i)
       (seqZ 1 (nHistoryTables p)) |>.

(** The compressed lengths of [initFoldedHistories] *)
Definition initFoldedHistories (p : TageParams) : TageParams :=
  p <| indexFold := logTagTableSizes p |> <| tagFold0 := tagTableTagWidths p |>
    <| tagFold1 := Z.pred <$> tagTableTagWidths p |>.

(** The constructor: all tables are enabled by default. *)
Definition construct (p : TageParams) : TageParams :=
  match noSkip p with
  | [] => p <| noSkip := replicate (Z.to_nat (nHistoryTables p + 1)) true |>
  | _ => p
  end.

(** The configuration [init] works with *)
Definition configure (p : TageParams) : TageParams :=
  initFoldedHistories (calculateParameters (construct p)).

Section Operations.
Context (p : TageParams).

(** [new FoldedHistory[n+1]] and [initFoldedHistories]: one register per
    table *)
Definition foldedVec (width : Z -> option Z) : Res (list FoldedHistory) :=
  l ← foldr (fun i acc =>
        match vat (histLengths p) i, width i with
        | Some o, Some w => f ← Folded.init o w; fs ← acc; Ok (f :: fs)
        | _, _ => Err OutOfRange
        end) (Ok []) (seqZ 1 (nHistoryTables p));
  Ok (mkFH 0 0 0 0 :: l).

Definition initThread : Res ThreadHistory :=
  ci ← foldedVec (fun i => vat (indexFold p) i);
  c0 ← foldedVec (fun i => vat (tagFold0 p) i);
  c1 ← foldedVec (fun i => vat (tagFold1 p) i);
  Ok (mkTH 0 0 (replicate (Z.to_nat (histBufferSize p)) 0) 0 ci c0 c1).

(** [buildTageTables]: an array per table *)
Definition buildTageTables : list (option nat) * list (list TageEntry) :=
  (None :: (Some <$> seq 0 (Z.to_nat (nHistoryTables p))),
   (fun l => replicate (Z.to_nat (2 ^ l)) (mkTageEntry 0 0 0)) <$>
     take (Z.to_nat (nHistoryTables p)) (drop 1 (logTagTableSizes p))).

Definition rassert (b : bool) : Res unit := if b then Ok tt else Err AssertFail.

(** [TAGEBase::init], after [calculateParameters], with the tables that
    [buildTageTables] allocates *)
Definition initWith (tables : list (option nat) * list (list TageEntry)) (rands : nat -> Z)
  : Res TAGEBase :=
  rassert ((tagTableUBits p <=? 2) && (0 <? tagTableUBits p)) ;;
  rassert (pathHistBits p <=? 32) ;;
  rassert (negb (logUResetPeriod p =? 0)) ;;
  rassert (u32 (maxHist p * 3) <? histBufferSize p) ;;
  rassert (Z.of_nat (length (tagTableTagWidths p)) =? nHistoryTables p + 1) ;;
  rassert (Z.of_nat (length (logTagTableSizes p)) =? nHistoryTables p + 1) ;;
  rassert (bool_decide (vat (tagTableTagWidths p) 0 = Some 0)) ;;
  th ← initThread;
  match vat (logTagTableSizes p) 0 with
  | None => Err OutOfRange
  | Some l0 =>
      let bimodalTableSize := 2 ^ l0 in
      Ok (mkTAGEBase (replicate (Z.to_nat bimodalTableSize) false)
            (replicate (Z.to_nat (Z.shiftr bimodalTableSize (logRatioBiModalHystEntries p))) true)
            (fst tables) (snd tables) (replicate (Z.to_nat (tg_numThreads p)) th)
            (replicate (Z.to_nat (nHistoryTables p + 1)) 0)
            (replicate (Z.to_nat (nHistoryTables p + 1)) 0)
            (replicate (Z.to_nat (numUseAltOnNa p)) 0)
            (initialTCounterValue p) rands 0 [])
  end.

Definition init : Res TAGEBase := initWith buildTageTables (fun _ => 0).

(** [makeBranchInfo] *)
Definition makeBranchInfo (pc : Addr) (conditional : bool) : BranchInfo :=
  let v := replicate (Z.to_nat (nHistoryTables p + 1)) None in
  mkBranchInfo pc conditional None 0 0 0 0 0 false false false false false false false false v v v v v
    (2 ^ 32 - 1) 0 0 false false.

(** ** Access *)

Definition thread (tid : ThreadID) : M TAGEBase ThreadHistory :=
  o ← gets (fun s => vat (threadHistory s) tid); at_index o.

(** Run an operation on [threadHistory[tid]]. *)
Definition onThread {A} (tid : ThreadID) (m : M ThreadHistory A) : M TAGEBase A := fun s =>
  match vat (threadHistory s) tid with
  | None => Err OutOfRange
  | Some h =>
      match m h with
      | Ok (a, h') => Ok (a, s <| threadHistory ::= <[Z.to_nat tid := h']> |>)
      | Err e => Err e
      end
  end.

(** [gtable[bank][idx]] *)
Definition entryAt (bank idx : Z) : M TAGEBase TageEntry :=
  s ← gets (fun s => s);
  o ← at_index (vat (gtable s) bank);
  a ← deref o;
  t ← at_index (gstore s !! a);
  at_index (vat t idx).

Definition setEntry (bank idx : Z) (f : TageEntry -> TageEntry) : M TAGEBase unit :=
  entryAt bank idx ;;
  s ← gets (fun s => s);
  o ← at_index (vat (gtable s) bank);
  a ← deref o;
  modify (fun s => s <| gstore ::= alter (alter f (Z.to_nat idx)) a |>).

(** [bi->tableIndices[i]] and [bi->tableTags[i]] *)
Definition cell {S} (v : list (option Z)) (i : Z) : M S Z :=
  o ← at_index (vat v i); assigned o.

(** ** Indices and tags *)

Definition logSize {S} (bank : Z) : M S Z := at_index (vat (logTagTableSizes p) bank).

Definition bindex (pc_in : Addr) : Z :=
  Z.land (Z.shiftr pc_in (tg_instShiftAmt p))
    (Z.shiftl 1 (default 0 (vat (logTagTableSizes p) 0)) - 1).

(** A shift by an amount outside [0, 32) is undefined for an [int]. *)
Definition shamt {S} (n : Z) : M S Z :=
  if (0 <=? n) && (n <? 32) then mret n else fault Undefined.

Definition F (A size bank : Z) : M TAGEBase Z :=
  log ← logSize bank;
  let mask := Z.shiftl 1 log - 1 in
  let A := i32 (Z.land (u64 A) (Z.shiftl 1 size - 1)) in
  let A1 := i32 (Z.land (u64 A) mask) in
  l ← shamt log;
  let A2 := Z.shiftr A l in
  b ← shamt bank;
  d ← shamt (log - bank);
  let A2 := i32 (Z.land (u64 (i32 (Z.shiftl A2 b))) mask + Z.shiftr A2 d) in
  let A := Z.lxor A1 A2 in
  mret (i32 (Z.land (u64 (i32 (Z.shiftl A b))) mask + Z.shiftr A d)).

Definition gindex (tid : ThreadID) (pc : Addr) (bank : Z) : M TAGEBase Z :=
  hl ← at_index (vat (histLengths p) bank);
  let hlen := if pathHistBits p <? hl then pathHistBits p else hl in
  let shiftedPc := u32 (Z.shiftr pc (tg_instShiftAmt p)) in
  log ← logSize bank;
  th ← thread tid;
  ci ← at_index (vat (computeIndices th) bank);
  f ← F (pathHist th) hlen bank;
  let index := i32 (Z.lxor (Z.lxor (Z.lxor shiftedPc
                 (Z.shiftr shiftedPc (Z.abs (log - bank) + 1))) (comp ci)) (u32 f)) in
  mret (Z.land (u64 index) (Z.shiftl 1 log - 1)).

Definition gtag (tid : ThreadID) (pc : Addr) (bank : Z) : M TAGEBase Z :=
  w ← at_index (vat (tagTableTagWidths p) bank);
  th ← thread tid;
  c0 ← at_index (vat (computeTags0 th) bank);
  c1 ← at_index (vat (computeTags1 th) bank);
  let tag := i32 (Z.lxor (Z.lxor (Z.shiftr pc (tg_instShiftAmt p)) (comp c0))
                   (u32 (Z.shiftl (comp c1) 1))) in
  mret (u16 (Z.land (u64 tag) (Z.shiftl 1 w - 1))).

(** An assignment to a cell of an array with a cell per table *)
Definition setCell {A} (i : Z) (x : A) (l : list A) : list A := <[Z.to_nat i := x]> l.

Definition calculateIndicesAndTags (tid : ThreadID) (branch_pc : Addr) (bi : BranchInfo)
  : M TAGEBase BranchInfo :=
  bi ← mfold (seqZ 1 (nHistoryTables p)) (fun bi i =>
    idx ← gindex tid branch_pc i;
    modify (fun s => s <| tableIndices ::= setCell i idx |>) ;;
    tag ← gtag tid branch_pc i;
    modify (fun s => s <| tableTags ::= setCell i tag |>) ;;
    mret (bi <| bi_tableIndices ::= setCell i (Some idx) |>
             <| bi_tableTags ::= setCell i (Some tag) |>)) bi;
  mret (bi <| bi_valid := true |>).

(** ** Counters *)

Definition ctrUpdate {S} (width : Z) (ctr : Z) (taken : bool) (nbits : Z) : M S Z :=
  massert (nbits <=? width) ;;
  mret (if taken then (if ctr <? 2 ^ (nbits - 1) - 1 then ctr + 1 else ctr)
        else (if - 2 ^ (nbits - 1) <? ctr then ctr - 1 else ctr)).

Definition unsignedCtrUpdate {S} (ctr : Z) (up : bool) (nbits : Z) : M S Z :=
  massert (nbits <=? 8) ;;
  mret (if up then (if ctr <? 2 ^ nbits - 1 then ctr + 1 else ctr)
        else (if ctr =? 0 then ctr else ctr - 1)).

Definition getBimodePred (pc : Addr) (bi : BranchInfo) : M TAGEBase (bool * BranchInfo) :=
  o ← gets (fun s => vat (btablePrediction s) (bimodalIndex bi));
  b ← at_index o;
  mret (b, bi).

Definition baseUpdate (pc : Addr) (taken : bool) (bi : BranchInfo) : M TAGEBase unit :=
  s ← gets (fun s => s);
  let hi := Z.shiftr (bimodalIndex bi) (logRatioBiModalHystEntries p) in
  bp ← at_index (vat (btablePrediction s) (bimodalIndex bi));
  bh ← at_index (vat (btableHysteresis s) hi);
  let inter := 2 * (if (bp : bool) then 1 else 0) + (if (bh : bool) then 1 else 0) in
  let inter := if taken then (if inter <? 3 then inter + 1 else inter)
               else (if 0 <? inter then inter - 1 else inter) in
  modify (fun s => s <| btablePrediction ::= setCell (bimodalIndex bi) (negb (Z.shiftr inter 1 =? 0)) |>
                     <| btableHysteresis ::= setCell hi (Z.odd inter) |>).

(** ** Allocation *)

Definition resetUctr (u : Z) : Z := Z.shiftr u 1.

Definition allocateEntry (idx : Z) (bi : BranchInfo) (taken : bool) : M TAGEBase bool :=
  ti ← cell (bi_tableIndices bi) idx;
  e ← entryAt idx ti;
  if negb (te_u e =? 0) then mret false else
  tag ← cell (bi_tableTags bi) idx;
  setEntry idx ti (fun e => e <| te_tag := u16 tag |> <| te_ctr := if taken then 0 else -1 |>) ;;
  mret true.

(** The arrays of the tables [1 .. nHistoryTables] *)
Definition handleUReset : M TAGEBase unit :=
  t ← gets tCounter;
  when (Z.land (u64 t) (Z.shiftl 1 (logUResetPeriod p) - 1) =? 0)
    (mfor (seqZ 1 (nHistoryTables p)) (fun i =>
       log ← logSize i;
       mfor (seqZ 0 (2 ^ log)) (fun j => setEntry i j (fun e => e <| te_u ::= resetUctr |>)))).

(** The loop that allocates from table [X] on: [n] tables are left *)
Fixpoint allocateFrom (n : nat) (i : Z) (bi : BranchInfo) (taken : bool) (numAllocated : Z)
  : M TAGEBase unit :=
  match n with
  | O => mret tt
  | S n' =>
      b ← allocateEntry i bi taken;
      if (b : bool) then
        if numAllocated + 1 =? maxNumAlloc p then mret tt
        else allocateFrom n' (i + 1) bi taken (numAllocated + 1)
      else allocateFrom n' (i + 1) bi taken numAllocated
  end.

Definition handleAllocAndUReset (alloc taken : bool) (bi : BranchInfo) (nrand : Z)
  : M TAGEBase unit :=
  when alloc (
    mn ← mfold (reverse (seqZ (hitBank bi + 1) (nHistoryTables p - hitBank bi))) (fun mn i =>
           ti ← cell (bi_tableIndices bi) i;
           e ← entryAt i ti;
           mret (if te_u e <? mn then te_u e else mn)) 1;
    let Y := Z.land nrand (Z.shiftl 1 (nHistoryTables p - hitBank bi - 1) - 1) in
    let X := hitBank bi + 1 + (if Z.testbit Y 0 then (if Z.testbit Y 1 then 2 else 1) else 0) in
    when (0 <? mn)
      (ti ← cell (bi_tableIndices bi) X; setEntry X ti (fun e => e <| te_u := 0 |>)) ;;
    allocateFrom (Z.to_nat (nHistoryTables p - X + 1)) X bi taken 0) ;;
  modify (fun s => s <| tCounter ::= Z.succ |>) ;;
  handleUReset.

(** [ctrUpdate(gtable[bank][idx].ctr, taken, tagTableCounterBits)] *)
Definition updateEntryCtr (bank idx : Z) (taken : bool) : M TAGEBase unit :=
  e ← entryAt bank idx;
  c ← ctrUpdate 8 (te_ctr e) taken (tagTableCounterBits p);
  setEntry bank idx (fun e => e <| te_ctr := c |>).

Definition handleTAGEUpdate (branch_pc : Addr) (taken : bool) (bi : BranchInfo) : M TAGEBase unit :=
  if 0 <? hitBank bi then
    updateEntryCtr (hitBank bi) (hitBankIndex bi) taken ;;
    e ← entryAt (hitBank bi) (hitBankIndex bi);
    when (te_u e =? 0)
      (when (0 <? altBank bi) (updateEntryCtr (altBank bi) (altBankIndex bi) taken) ;;
       when (altBank bi =? 0) (baseUpdate branch_pc taken bi)) ;;
    when (negb (eqb (tagePred bi) (altTaken bi)))
      (e ← entryAt (hitBank bi) (hitBankIndex bi);
       u ← unsignedCtrUpdate (te_u e) (eqb (tagePred bi) taken) (tagTableUBits p);
       setEntry (hitBank bi) (hitBankIndex bi) (fun e => e <| te_u := u |>))
  else baseUpdate branch_pc taken bi.

(** ** Path and global history *)

Definition calcNewPathHist (pc : Addr) (cur_phist : Z) (taken : bool) (brtype : Z) (target : Addr)
  : Z :=
  if takenOnlyHistory p && negb taken then cur_phist else
  let pathbit := Z.land (Z.shiftr pc (tg_instShiftAmt p)) 1 in
  i32 (Z.land (u64 (i32 (Z.shiftl cur_phist 1 + pathbit))) (Z.shiftl 1 (pathHistBits p) - 1)).

Definition updateGHist (tid : ThreadID) (bv n : Z) : M TAGEBase unit :=
  if n =? 0 then mret tt else onThread tid (History.updateGHist (histParams p) bv n).

Definition updatePathAndGlobalHistory (tid : ThreadID) (brtype : Z) (taken : bool)
    (branch_pc target : Addr) (bi : BranchInfo) : M TAGEBase BranchInfo :=
  onThread tid (modify (fun h =>
    h <| pathHist := calcNewPathHist branch_pc (pathHist h) taken brtype target |>)) ;;
  let bi :=
    if takenOnlyHistory p then
      if taken then
        bi <| bi_ghist := Z.lxor (Z.shiftr (Z.shiftr branch_pc (tg_instShiftAmt p)) 2)
                                 (Z.shiftr (Z.shiftr target (tg_instShiftAmt p)) 3) |>
           <| bi_nGhist := 2 |>
      else bi
    else bi <| bi_ghist := if taken then 1 else 0 |> <| bi_nGhist := 1 |> in
  updateGHist tid (bi_ghist bi) (bi_nGhist bi) ;;
  mret bi.

Definition comps (l : list FoldedHistory) : list (option Z) := map (fun f => Some (comp f)) l.

(** [bi->ci[i] = ...] for the tables; position 0 stays as it is. *)
Definition recordComps (l : list FoldedHistory) (v : list (option Z)) : list (option Z) :=
  take 1 v ++ drop 1 (comps l).

Definition recordHistState (tid : ThreadID) (bi : BranchInfo) : M TAGEBase BranchInfo :=
  h ← thread tid;
  mret (bi <| bi_pathHist := Some (pathHist h) |>
           <| bi_ci ::= recordComps (computeIndices h) |>
           <| bi_ct0 ::= recordComps (computeTags0 h) |>
           <| bi_ct1 ::= recordComps (computeTags1 h) |>).

Definition restoreHistState (tid : ThreadID) (bi : BranchInfo) : M TAGEBase BranchInfo :=
  if negb (speculativeHistUpdate p) then mret bi else
  if negb (bi_modified bi) then mret bi else
  ph ← assigned (bi_pathHist bi);
  onThread tid (modify (fun h => h <| pathHist := ph |>)) ;;
  if bi_nGhist bi =? 0 then mret bi else
  onThread tid (History.shiftOutBits (histParams p) (Z.to_nat (bi_nGhist bi))) ;;
  mret (bi <| bi_nGhist := 0 |> <| bi_modified := false |>).

(** ** Statistics *)

Definition stat (l : list TageStat) : M TAGEBase unit :=
  modify (fun s => s <| tb_stats ::= fun old => old ++ l |>).

Definition updateStats (taken : bool) (bi : BranchInfo) : M TAGEBase unit :=
  let prov x := bi_provider bi =? x in
  (if eqb taken (tagePred bi) then
     stat (if prov BIMODAL_ONLY then [bimodalProviderCorrect]
           else if prov TAGE_LONGEST_MATCH then [longestMatchProviderCorrect]
           else if prov BIMODAL_ALT_MATCH then [bimodalAltMatchProviderCorrect]
           else if prov TAGE_ALT_MATCH then [altMatchProviderCorrect] else [])
   else
     stat (if prov BIMODAL_ONLY then [bimodalProviderWrong]
           else if prov TAGE_LONGEST_MATCH then
             longestMatchProviderWrong ::
               (if eqb (altTaken bi) taken then [altMatchProviderWouldHaveHit] else [])
           else if prov BIMODAL_ALT_MATCH then [bimodalAltMatchProviderWrong]
           else if prov TAGE_ALT_MATCH then [altMatchProviderWrong] else []) ;;
     stat (if (prov BIMODAL_ALT_MATCH || prov TAGE_ALT_MATCH) && eqb (longestMatchPred bi) taken
           then [longestMatchProviderWouldHaveHit] else [])) ;;
  stat (if prov TAGE_LONGEST_MATCH || prov TAGE_ALT_MATCH
        then [longestMatchProvider (hitBank bi); altMatchProvider (altBank bi)] else []).

(** [getGHR]: the last 16 bits of the history *)
Definition getGHR (tid : ThreadID) : M TAGEBase Z :=
  h ← thread tid;
  mfold (seqZ 0 16) (fun val i =>
    b ← at_index (vat (globalHist h) (ptGhist h + i));
    mret (Z.lor val (Z.shiftl (Z.land b 1) i))) 0.

Definition getSizeInBits : Res Z :=
  match vat (logTagTableSizes p) 0, vat (histLengths p) (nHistoryTables p) with
  | Some l0, Some hl =>
      bits ← foldr (fun i acc =>
        match vat (logTagTableSizes p) i, vat (tagTableTagWidths p) i with
        | Some l, Some w =>
            b ← acc; Ok (b + 2 ^ l * (tagTableCounterBits p + tagTableUBits p + w))
        | _, _ => Err OutOfRange
        end) (Ok 0) (seqZ 1 (nHistoryTables p));
      Ok (bits + numUseAltOnNa p * useAltOnNaBits p + 2 ^ l0
            + Z.shiftr (2 ^ l0) (logRatioBiModalHystEntries p) + hl + pathHistBits p
            + logUResetPeriod p)
  | _, _ => Err OutOfRange
  end.

(** ** The base implementation of the virtual functions *)
Definition TAGEBase_v : TageVirtual := {|
  v_calculateIndicesAndTags := calculateIndicesAndTags;
  v_bindex := bindex;
  v_getBimodePred := getBimodePred;
  v_extraAltCalc := fun bi => mret bi;
  v_getUseAltIdx := fun _ _ => 0;
  v_adjustAlloc := fun alloc _ _ => mret alloc;
  v_handleAllocAndUReset := handleAllocAndUReset;
  v_handleTAGEUpdate := handleTAGEUpdate;
  v_branchTypeExtra := fun _ => 0;
  v_calcNewPathHist := calcNewPathHist;
  v_updatePathAndGlobalHistory := updatePathAndGlobalHistory
|}.

(** ** The functions that use them *)
Context {V : TageVirtual}.

(** [noSkip[i] && gtable[i][tableIndices[i]].tag == tableTags[i]] *)
Definition matches (i : Z) : M TAGEBase bool :=
  ns ← at_index (vat (noSkip p) i);
  if negb ns then mret false else
  s ← gets (fun s => s);
  ti ← at_index (vat (tableIndices s) i);
  tt' ← at_index (vat (tableTags s) i);
  e ← entryAt i ti;
  mret (te_tag e =? tt').

(** The loop over the tables [i, i-1, .., 1]: the first that matches, 0 if none *)
Fixpoint firstMatch (i : nat) : M TAGEBase Z :=
  match i with
  | O => mret 0
  | S i' => b ← matches (Z.of_nat i); if (b : bool) then mret (Z.of_nat i) else firstMatch i'
  end.

Definition scratchIndex (bank : Z) : M TAGEBase Z :=
  s ← gets (fun s => s); at_index (vat (tableIndices s) bank).

Definition tagePredict (tid : ThreadID) (branch_pc : Addr) (cond_branch : bool) (bi : BranchInfo)
  : M TAGEBase (bool * BranchInfo) :=
  if negb cond_branch then
    massert (bi_branchPC bi =? branch_pc) ;; mret (true, bi)
  else
  bi ← v_calculateIndicesAndTags tid branch_pc bi;
  let bi := bi <| bimodalIndex := v_bindex branch_pc |> <| hitBank := 0 |> <| altBank := 0 |> in
  hb ← firstMatch (Z.to_nat (nHistoryTables p));
  bi ← (if hb =? 0 then mret bi
        else ti ← scratchIndex hb; mret (bi <| hitBank := hb |> <| hitBankIndex := ti |>));
  ab ← firstMatch (Z.to_nat (hitBank bi - 1));
  bi ← (if ab =? 0 then mret bi
        else ti ← scratchIndex ab; mret (bi <| altBank := ab |> <| altBankIndex := ti |>));
  if 0 <? hitBank bi then
    bi ← (if 0 <? altBank bi then
            ti ← scratchIndex (altBank bi);
            e ← entryAt (altBank bi) ti;
            v_extraAltCalc (bi <| altTaken := 0 <=? te_ctr e |>)
          else
            r ← v_getBimodePred branch_pc bi; mret ((snd r) <| altTaken := fst r |>));
    ti ← scratchIndex (hitBank bi);
    e ← entryAt (hitBank bi) ti;
    let bi := bi <| longestMatchPred := 0 <=? te_ctr e |> in
    e' ← entryAt (hitBank bi) (hitBankIndex bi);
    let bi := bi <| pseudoNewAlloc := Z.abs (2 * te_ctr e' + 1) <=? 1 |> in
    s ← gets (fun s => s);
    ua ← at_index (vat (useAltPredForNewlyAllocated s) (v_getUseAltIdx bi branch_pc));
    let bi :=
      if (ua <? 0) || negb (pseudoNewAlloc bi)
      then bi <| tagePred := longestMatchPred bi |> <| bi_provider := TAGE_LONGEST_MATCH |>
      else bi <| tagePred := altTaken bi |>
              <| bi_provider := if altBank bi =? 0 then BIMODAL_ALT_MATCH else TAGE_ALT_MATCH |> in
    mret (tagePred bi, bi)
  else
    r ← v_getBimodePred branch_pc bi;
    let bi := (snd r) <| altTaken := fst r |> <| tagePred := fst r |> <| longestMatchPred := fst r |>
                    <| bi_provider := BIMODAL_ONLY |> in
    mret (tagePred bi, bi).

Definition condBranchUpdate (tid : ThreadID) (branch_pc : Addr) (taken : bool) (bi : BranchInfo)
    (nrand : Z) (corrTarget : Addr) (pred : bool) (preAdjustAlloc : bool) : M TAGEBase unit :=
  let alloc := negb (eqb (tagePred bi) taken) && (hitBank bi <? nHistoryTables p) in
  alloc ← (if preAdjustAlloc then v_adjustAlloc alloc taken pred else mret alloc);
  alloc ← (if (0 <? hitBank bi) && pseudoNewAlloc bi then
      when (negb (eqb (longestMatchPred bi) (altTaken bi)))
        (s ← gets (fun s => s);
         let ix := v_getUseAltIdx bi branch_pc in
         ua ← at_index (vat (useAltPredForNewlyAllocated s) ix);
         c ← ctrUpdate 8 ua (eqb (altTaken bi) taken) (useAltOnNaBits p);
         modify (fun s => s <| useAltPredForNewlyAllocated ::= setCell ix c |>)) ;;
      mret (if eqb (longestMatchPred bi) taken then false else alloc)
    else mret alloc);
  alloc ← (if preAdjustAlloc then mret alloc else v_adjustAlloc alloc taken pred);
  v_handleAllocAndUReset alloc taken bi nrand ;;
  v_handleTAGEUpdate branch_pc taken bi.

Definition updateHistories (tid : ThreadID) (branch_pc : Addr) (speculative taken : bool)
    (target : Addr) (inst : StaticInst) (bi : BranchInfo) : M TAGEBase BranchInfo :=
  if negb (eqb speculative (speculativeHistUpdate p)) then
    (if negb speculative then
       ph ← assigned (bi_pathHist bi);
       onThread tid (modify (fun h => h <| nonSpecPathHist :=
         v_calcNewPathHist branch_pc ph taken (v_branchTypeExtra inst) target |>))
     else mret tt) ;;
    mret bi
  else
  bi ← (if speculativeHistUpdate p && negb (bi_modified bi) then recordHistState tid bi
        else mret bi);
  bi ← (if bi_modified bi then restoreHistState tid bi else mret bi);
  bi ← (if negb (bi_valid bi) && bi_condBranch bi then v_calculateIndicesAndTags tid branch_pc bi
        else mret bi);
  massert (bi_nGhist bi =? 0) ;;
  bi ← v_updatePathAndGlobalHistory tid (v_branchTypeExtra inst) taken branch_pc target bi;
  mret (bi <| bi_modified := true |>).

Definition squash (tid : ThreadID) (taken : bool) (target : Addr) (inst : StaticInst)
    (bi : BranchInfo) : M TAGEBase BranchInfo :=
  updateHistories tid (bi_branchPC bi) true taken target inst bi.
End Operations.
End TB.

(** ** TAGE, the direction predictor

    [TageBranchInfo] holds one [BranchInfo].  The values of [rng->random<int>()]
    are a sequence given to the model. *)
Record TAGE := mkTAGE {
  tage : TAGEBase;
  tage_rands : nat -> Z;
  tage_randPos : nat;
  tage_staticLatency : Cycles
}.

#[export] Instance eta_TAGE : Settable TAGE := fun s =>
  mkTAGE (tage s) (tage_rands s) (tage_randPos s) (tage_staticLatency s).

Module Tage.
Section Predictor.
Context (p : TageParams) {V : TageVirtual}.

Definition random : M TAGE Z :=
  r ← gets (fun s => tage_rands s (tage_randPos s));
  modify (fun s => s <| tage_randPos ::= S |>) ;;
  mret r.

Definition staticPrediction (taken : bool) : M TAGE Prediction :=
  l ← gets tage_staticLatency; mret (mkPrediction taken l).

Definition predict (tid : ThreadID) (pc : Addr) (cond_branch : bool)
  : M TAGE (Prediction * option BranchInfo) :=
  r ← zoom tage (TB.tagePredict p tid pc cond_branch (TB.makeBranchInfo p pc cond_branch));
  pr ← staticPrediction (fst r);
  mret (pr, Some (snd r)).

Definition lookup (tid : ThreadID) (pc : Addr) (bp_history : option BranchInfo)
  : M TAGE (Prediction * option BranchInfo) :=
  predict tid pc true.

Definition updateHistories (tid : ThreadID) (pc : Addr) (uncond taken : bool) (target : Addr)
    (inst : StaticInst) (bp_history : option BranchInfo) : M TAGE (option BranchInfo) :=
  h ← (match bp_history with
       | None => massert uncond ;; r ← predict tid pc false; mret (snd r)
       | Some _ => mret bp_history
       end);
  bi ← deref h;
  bi ← zoom tage (TB.updateHistories p tid pc true taken target inst bi);
  mret (Some bi).

Definition update (tid : ThreadID) (pc : Addr) (taken : bool) (bp_history : option BranchInfo)
    (squashed : bool) (inst : StaticInst) (target : Addr) : M TAGE (option BranchInfo) :=
  massert (bool_decide (bp_history <> None)) ;;
  bi ← deref bp_history;
  if squashed then
    bi ← zoom tage (TB.squash p tid taken target inst bi); mret (Some bi)
  else
  r ← random;
  let nrand := Z.land r 3 in
  when (bi_condBranch bi)
    (zoom tage (TB.updateStats taken bi) ;;
     zoom tage (TB.condBranchUpdate p tid pc taken bi nrand target (tagePred bi) false)) ;;
  zoom tage (TB.updateHistories p tid pc false taken target inst bi) ;;
  mret None.

Definition squash (tid : ThreadID) (bp_history : option BranchInfo) : M TAGE (option BranchInfo) :=
  bi ← deref bp_history;
  zoom tage (TB.restoreHistState p tid bi) ;;
  mret None.

Definition branchPlaceholder (tid : ThreadID) (pc : Addr) (uncond : bool)
    (bp_history : option BranchInfo) : M TAGE (option BranchInfo) :=
  mret (Some (TB.makeBranchInfo p pc (negb uncond))).

Definition TAGE_cp : ConditionalPredictor TAGE BranchInfo := {|
  cp_lookup := lookup;
  cp_updateHistories := updateHistories;
  cp_squash := squash;
  cp_update := update;
  cp_branchPlaceholder := branchPlaceholder;
  cp_predictL1NoUpdate := fun _ _ => fault Panic;
  cp_getStaticLatency := tage_staticLatency
|}.
End Predictor.
End Tage.

(** The configurations of [BranchPredictor.py]: [TAGEBase] and [LTAGE_TAGE] *)
Definition TAGEBase_params : TageParams := TB.configure
  (mkTageParams 1 2 7 5 130 [0; 9; 9; 10; 10; 11; 11; 12] [13; 9; 9; 9; 9; 9; 9; 9] [] [] [] []
     2 3 2 2097152 16 18 1 (2 ^ 17) 4 1 [] true true).

Definition LTAGE_TAGE_params : TageParams := TB.configure
  (mkTageParams 1 2 12 4 640 [0; 7; 7; 8; 8; 9; 10; 11; 12; 12; 13; 14; 15]
     [14; 10; 10; 11; 11; 11; 11; 10; 10; 10; 10; 9; 9] [] [] [] []
     2 3 2 2097152 16 19 1 (2 ^ 17) 4 1 [] true true).
