(* ===== verification/TageInv.v ===== *)
(** * Invariant of TAGE

    The configurations under which the code is defined, the invariant of the
    tables and of a [BranchInfo], and the contract of the virtual functions
    ([VirtualOk]), which the base implementation discharges. *)

From Stdlib Require Import ZArith Lia.
From stdpp Require Import base list numbers.
From S2P Require Import Prelude Types CondPred TageHist Tage.

(** The length a folded register is compressed to *)
Definition fold_cfg (widths : list Z) (i : Z) : Prop :=
  exists w, vat widths i = Some w /\ 1 <= w <= 31.

Record bank_cfg (p : TageParams) (i : Z) : Prop := {
  bc_hist : exists o, vat (histLengths p) i = Some o /\ 1 <= o <= maxHist p;
  bc_log : exists l, vat (logTagTableSizes p) i = Some l /\ 0 <= l <= 30;
  bc_index : fold_cfg (indexFold p) i;
  bc_fold0 : fold_cfg (tagFold0 p) i;
  bc_fold1 : fold_cfg (tagFold1 p) i;
  bc_tag : exists w, vat (tagTableTagWidths p) i = Some w /\ 2 <= w <= 16;
  bc_skip : exists b, vat (noSkip p) i = Some b
}.

Record tage_cfg (p : TageParams) : Prop := {
  tc_sizes : hist_sizes (histParams p);
  tc_banks : forall i, 1 <= i <= nHistoryTables p -> bank_cfg p i;
  tc_log0 : exists l0, vat (logTagTableSizes p) 0 = Some l0 /\
    0 <= logRatioBiModalHystEntries p <= l0;
  tc_ctr : 1 <= tagTableCounterBits p <= 8;
  tc_u : 1 <= tagTableUBits p <= 2;
  tc_na : 1 <= useAltOnNaBits p <= 8;
  tc_numna : 1 <= numUseAltOnNa p < 2 ^ 32;
  tc_path : 0 <= pathHistBits p <= 31;
  tc_shift : 0 <= tg_instShiftAmt p;
  tc_spec : speculativeHistUpdate p = true
}.

(** A signed counter of [b] bits *)
Definition sctr_ok (b z : Z) : Prop := - 2 ^ (b - 1) <= z < 2 ^ (b - 1).

Record entry_ok (p : TageParams) (e : TageEntry) : Prop := {
  eo_ctr : sctr_ok (tagTableCounterBits p) (te_ctr e);
  eo_tag : 0 <= te_tag e < 2 ^ 16;
  eo_u : 0 <= te_u e < 2 ^ tagTableUBits p
}.

(** [size i] is the number of entries that table [i] can be indexed with. *)
Record tb_ok (p : TageParams) (size : Z -> Z) (s : TAGEBase) : Prop := {
  to_bimodal : forall l0, vat (logTagTableSizes p) 0 = Some l0 ->
    Z.of_nat (length (btablePrediction s)) = 2 ^ l0 /\
    Z.of_nat (length (btableHysteresis s)) = 2 ^ (l0 - logRatioBiModalHystEntries p);
  to_tables : forall i, 1 <= i <= nHistoryTables p -> exists a t,
    vat (gtable s) i = Some (Some a) /\ gstore s !! a = Some t /\ Z.of_nat (length t) = size i;
  to_entries : Forall (Forall (entry_ok p)) (gstore s);
  to_scratchI : Z.of_nat (length (tableIndices s)) = nHistoryTables p + 1;
  to_scratchT : Z.of_nat (length (tableTags s)) = nHistoryTables p + 1;
  to_na : Z.of_nat (length (useAltPredForNewlyAllocated s)) = numUseAltOnNa p;
  to_nactr : Forall (sctr_ok (useAltOnNaBits p)) (useAltPredForNewlyAllocated s);
  to_threads : Z.of_nat (length (threadHistory s)) = tg_numThreads p;
  to_hists : Forall (fun h => exists hist, th_repr (histParams p) hist h) (threadHistory s)
}.

(** A bank and an index into it: the table that provided a prediction, or none *)
Definition bank_ok (p : TageParams) (size : Z -> Z) (bank idx : Z) : Prop :=
  0 <= bank <= nHistoryTables p /\ (0 < bank -> 0 <= idx < size bank).

Record bi_ok (p : TageParams) (size : Z -> Z) (bi : BranchInfo) : Prop := {
  bk_hit : bank_ok p size (hitBank bi) (hitBankIndex bi);
  bk_alt : bank_ok p size (altBank bi) (altBankIndex bi);
  bk_bim : forall l0, vat (logTagTableSizes p) 0 = Some l0 -> 0 <= bimodalIndex bi < 2 ^ l0;
  bk_ti : Z.of_nat (length (bi_tableIndices bi)) = nHistoryTables p + 1;
  bk_tt : Z.of_nat (length (bi_tableTags bi)) = nHistoryTables p + 1;
  bk_ng : 0 <= bi_nGhist bi <= 3
}.

(** What the tables' code leaves alone in a [BranchInfo] *)
Record bi_same (bi bi' : BranchInfo) : Prop := {
  bs_pc : bi_branchPC bi' = bi_branchPC bi;
  bs_cond : bi_condBranch bi' = bi_condBranch bi;
  bs_path : bi_pathHist bi' = bi_pathHist bi;
  bs_ng : bi_nGhist bi' = bi_nGhist bi;
  bs_mod : bi_modified bi' = bi_modified bi
}.

#[export] Instance bi_same_preorder : PreOrder bi_same.
Proof.
  split; [by constructor|]. intros a b c [] []. constructor; etrans; eauto.
Qed.

(** What [calculateIndicesAndTags] may change in a [BranchInfo] *)
Definition bi_calc (bi bi' : BranchInfo) : Prop :=
  bi' = bi <| bi_tableIndices := bi_tableIndices bi' |> <| bi_tableTags := bi_tableTags bi' |>
           <| bi_valid := bi_valid bi' |>.

#[export] Instance bi_calc_preorder : PreOrder bi_calc.
Proof.
  split; [by intros []|]. unfold bi_calc. intros a b c Hab ->. rewrite Hab. by destruct a, b, c.
Qed.

Lemma bi_calc_same bi bi' : bi_calc bi bi' -> bi_same bi bi'.
Proof. intros ->. by constructor. Qed.

(** Without a hit the alternate prediction is the prediction. *)
Definition no_hit (bi : BranchInfo) : Prop :=
  hitBank bi = 0 -> longestMatchPred bi = altTaken bi.

(** The scratch vectors index every enabled table. *)
Definition scratch_ok (p : TageParams) (size : Z -> Z) (s : TAGEBase) : Prop :=
  forall i, 1 <= i <= nHistoryTables p -> vat (noSkip p) i = Some true ->
    exists x t, vat (tableIndices s) i = Some x /\ 0 <= x < size i /\
      vat (tableTags s) i = Some t.

(** Only the scratch vectors have changed. *)
Definition scratch_only (s s' : TAGEBase) : Prop :=
  s' = s <| tableIndices := tableIndices s' |> <| tableTags := tableTags s' |>.

#[export] Instance scratch_only_preorder : PreOrder scratch_only.
Proof.
  split; [by intros []|]. unfold scratch_only. intros a b c Hab ->. rewrite Hab. by destruct a, b, c.
Qed.

Lemma scratch_only_threads s s' : scratch_only s s' -> threadHistory s' = threadHistory s.
Proof. by intros ->. Qed.

(** ** The contract of the virtual functions *)
Class VirtualOk (p : TageParams) (size : Z -> Z) {V : TageVirtual} := {
  (** The vectors of a branch can be used for an allocation. *)
  vo_indexed : list (option Z) -> list (option Z) -> Prop;
  vo_calc s tid pc bi :
    tb_ok p size s -> 0 <= tid < tg_numThreads p -> bi_ok p size bi ->
    wp (v_calculateIndicesAndTags tid pc bi) (fun bi' s' =>
      tb_ok p size s' /\ scratch_only s s' /\ scratch_ok p size s' /\
      bi_ok p size bi' /\ vo_indexed (bi_tableIndices bi') (bi_tableTags bi') /\
      bi_calc bi bi') s;
  vo_bindex pc l0 :
    vat (logTagTableSizes p) 0 = Some l0 -> 0 <= v_bindex pc < 2 ^ l0;
  vo_bimode s pc bi :
    tb_ok p size s -> bi_ok p size bi ->
    wp (v_getBimodePred pc bi) (fun r s' =>
      s' = s /\ bi_ok p size (snd r) /\ bi_same bi (snd r) /\
      hitBank (snd r) = hitBank bi /\ hitBankIndex (snd r) = hitBankIndex bi /\
      altBank (snd r) = altBank bi /\
      bi_tableIndices (snd r) = bi_tableIndices bi /\ bi_tableTags (snd r) = bi_tableTags bi) s;
  vo_extraAlt s bi :
    tb_ok p size s -> bi_ok p size bi -> 0 < altBank bi ->
    wp (v_extraAltCalc bi) (fun bi' s' =>
      s' = s /\ bi_ok p size bi' /\ bi_same bi bi' /\
      hitBank bi' = hitBank bi /\ hitBankIndex bi' = hitBankIndex bi /\
      altBank bi' = altBank bi /\
      bi_tableIndices bi' = bi_tableIndices bi /\ bi_tableTags bi' = bi_tableTags bi) s;
  vo_useAlt bi pc : 0 < hitBank bi -> 0 <= v_getUseAltIdx bi pc < numUseAltOnNa p;
  vo_adjust s a t pr :
    tb_ok p size s -> wp (v_adjustAlloc a t pr) (fun a' s' => tb_ok p size s' /\
      threadHistory s' = threadHistory s /\ (a' = true -> a = true)) s;
  vo_alloc s (alloc taken : bool) bi nrand :
    tb_ok p size s -> bi_ok p size bi ->
    (alloc = true -> hitBank bi < nHistoryTables p /\
       vo_indexed (bi_tableIndices bi) (bi_tableTags bi)) ->
    wp (v_handleAllocAndUReset alloc taken bi nrand) (fun _ s' =>
      tb_ok p size s' /\ threadHistory s' = threadHistory s) s;
  vo_update s pc taken bi :
    tb_ok p size s -> bi_ok p size bi -> no_hit bi ->
    wp (v_handleTAGEUpdate pc taken bi) (fun _ s' =>
      tb_ok p size s' /\ threadHistory s' = threadHistory s) s;
  vo_history s tid brtype taken pc tgt bi h hist :
    tb_ok p size s -> 0 <= tid -> vat (threadHistory s) tid = Some h ->
    th_repr (histParams p) hist h -> bi_ok p size bi -> bi_nGhist bi = 0 ->
    wp (v_updatePathAndGlobalHistory tid brtype taken pc tgt bi) (fun bi' s' =>
      exists h', s' = s <| threadHistory ::= <[Z.to_nat tid := h']> |> /\
        th_repr (histParams p) (pushed (Z.to_nat (bi_nGhist bi')) (bi_ghist bi') hist) h' /\
        bi' = bi <| bi_ghist := bi_ghist bi' |> <| bi_nGhist := bi_nGhist bi' |> /\
        0 <= bi_nGhist bi' <= 3 /\
        bi_nGhist bi' + Z.min (window (histParams p) h) (rollbackBuffer - 1)
          <= window (histParams p) h' /\
        nonSpecPathHist h' = nonSpecPathHist h) s
}.

(** ** Rules for the tables *)

Lemma vat_lt {A} (l : list A) i : 0 <= i < Z.of_nat (length l) -> exists x, vat l i = Some x.
Proof. intros H. rewrite vat_nat by lia. apply lookup_lt_is_Some_2. lia. Qed.

Lemma vat_some {A} (l : list A) i x : vat l i = Some x -> 0 <= i < Z.of_nat (length l).
Proof.
  unfold vat. destruct (Z.leb_spec 0 i); [|done]. intros H1. apply lookup_lt_Some in H1. lia.
Qed.

Lemma vat_elem {A} (l : list A) i x : vat l i = Some x -> x ∈ l.
Proof.
  unfold vat. destruct (Z.leb_spec 0 i); [|done]. apply list_elem_of_lookup_2.
Qed.

Lemma shiftr_below x k l : 0 <= k <= l -> 0 <= x < 2 ^ l -> 0 <= Z.shiftr x k < 2 ^ (l - k).
Proof.
  intros Hk Hx. rewrite Z.shiftr_div_pow2 by lia. pose proof (Z.pow_pos_nonneg 2 k).
  split; [apply Z.div_pos; lia|]. apply Z.div_lt_upper_bound; [lia|].
  rewrite <- Z.pow_add_r by lia. replace (k + (l - k)) with l by lia. lia.
Qed.

Section Tables.
Context (p : TageParams) (size : Z -> Z) (Hcfg : tage_cfg p).

(** What an operation on the tables leaves *)
Definition tables_kept (s s' : TAGEBase) : Prop :=
  tb_ok p size s' /\ threadHistory s' = threadHistory s.

Lemma tables_kept_trans s1 s2 s3 : tables_kept s1 s2 -> tables_kept s2 s3 -> tables_kept s1 s3.
Proof. intros [? E1] [? E2]. split; [done|]. by rewrite E2. Qed.

Lemma tables_kept_refl s : tb_ok p size s -> tables_kept s s.
Proof. done. Qed.

Lemma wp_entryAt s bank idx (Q : TageEntry -> TAGEBase -> Prop) :
  tb_ok p size s -> 1 <= bank <= nHistoryTables p -> 0 <= idx < size bank ->
  (forall e, entry_ok p e -> Q e s) -> wp (TB.entryAt bank idx) Q s.
Proof.
  intros Hok Hb Hi HQ. destruct (to_tables _ _ _ Hok bank Hb) as (a & t & Ha & Ht & Hl).
  unfold TB.entryAt. wp_steps. eapply wp_at_index; [exact Ha|]. wp_steps.
  eapply wp_deref; [done|]. wp_steps. eapply wp_at_index; [exact Ht|].
  destruct (vat_lt t idx) as [e He]; [lia|]. eapply wp_at_index; [exact He|]. apply HQ.
  pose proof (to_entries _ _ _ Hok) as Hall. rewrite list.Forall_forall in Hall.
  specialize (Hall _ (list_elem_of_lookup_2 _ _ _ Ht)). rewrite list.Forall_forall in Hall.
  by apply Hall, (vat_elem _ idx).
Qed.

Lemma tb_ok_setEntry s a idx f :
  tb_ok p size s -> (forall e, entry_ok p e -> entry_ok p (f e)) ->
  tb_ok p size (s <| gstore ::= alter (alter f idx) a |>).
Proof.
  intros [] Hf. constructor; try assumption; cbn.
  - intros i Hi. destruct (to_tables0 i Hi) as (a' & t & Ha & Ht & Hl).
    exists a'. destruct (decide (a' = a)) as [->|].
    + exists (alter f idx t). by rewrite list_lookup_alter_eq, Ht, length_alter.
    + exists t. by rewrite list_lookup_alter_ne by done.
  - apply Forall_alter; [done|]. intros t _ Ht. apply Forall_alter; [done|]. intros e _. apply Hf.
Qed.

Lemma wp_setEntry s bank idx f (Q : unit -> TAGEBase -> Prop) :
  tb_ok p size s -> 1 <= bank <= nHistoryTables p -> 0 <= idx < size bank ->
  (forall e, entry_ok p e -> entry_ok p (f e)) ->
  (forall s', tables_kept s s' -> Q tt s') -> wp (TB.setEntry bank idx f) Q s.
Proof.
  intros Hok Hb Hi Hf HQ. destruct (to_tables _ _ _ Hok bank Hb) as (a & t & Ha & Ht & Hl).
  unfold TB.setEntry. wp_steps. eapply wp_entryAt; [done..|]. intros e He. wp_steps.
  eapply wp_at_index; [exact Ha|]. wp_steps. eapply wp_deref; [done|]. wp_steps. apply HQ.
  split; [|done]. by apply tb_ok_setEntry.
Qed.

(** ** Counters *)

Lemma wp_ctrUpdate {S} w c taken b (s : S) Q :
  1 <= b <= w -> sctr_ok b c -> (forall c', sctr_ok b c' -> Q c' s) ->
  wp (TB.ctrUpdate w c taken b) Q s.
Proof.
  intros Hb Hc HQ. unfold TB.ctrUpdate. wp_steps. apply wp_massert; [apply Z.leb_le; lia|].
  wp_steps. apply HQ. unfold sctr_ok in *.
  destruct taken; [destruct (Z.ltb_spec c (2 ^ (b - 1) - 1))|
                   destruct (Z.ltb_spec (- 2 ^ (b - 1)) c)]; lia.
Qed.

Lemma wp_unsignedCtrUpdate {S} c up b (s : S) Q :
  1 <= b <= 8 -> 0 <= c < 2 ^ b -> (forall c', 0 <= c' < 2 ^ b -> Q c' s) ->
  wp (TB.unsignedCtrUpdate c up b) Q s.
Proof.
  intros Hb Hc HQ. unfold TB.unsignedCtrUpdate. wp_steps. apply wp_massert; [apply Z.leb_le; lia|].
  wp_steps. apply HQ. destruct up; [destruct (Z.ltb_spec c (2 ^ b - 1))|
                                    destruct (Z.eqb_spec c 0)]; lia.
Qed.

Lemma wp_updateEntryCtr s bank idx taken (Q : unit -> TAGEBase -> Prop) :
  tb_ok p size s -> 1 <= bank <= nHistoryTables p -> 0 <= idx < size bank ->
  (forall s', tables_kept s s' -> Q tt s') -> wp (TB.updateEntryCtr p bank idx taken) Q s.
Proof.
  intros Hok Hb Hi HQ. unfold TB.updateEntryCtr. wp_steps. eapply wp_entryAt; [done..|].
  intros e He. wp_steps. apply wp_ctrUpdate; [apply Hcfg|apply He|]. intros c Hc.
  eapply wp_setEntry; [done..| |done]. intros e' []. by constructor.
Qed.

Lemma tb_ok_setBimodal s i j a b :
  tb_ok p size s ->
  tb_ok p size (s <| btablePrediction ::= TB.setCell i a |> <| btableHysteresis ::= TB.setCell j b |>).
Proof.
  intros []. constructor; try assumption. intros l0 Hl. unfold setf, TB.setCell. cbn.
  rewrite !length_insert. by apply to_bimodal0.
Qed.

Lemma wp_baseUpdate s pc taken bi (Q : unit -> TAGEBase -> Prop) :
  tb_ok p size s -> bi_ok p size bi ->
  (forall s', tables_kept s s' -> Q tt s') -> wp (TB.baseUpdate p pc taken bi) Q s.
Proof.
  intros Hok Hbi HQ. destruct (tc_log0 _ Hcfg) as (l0 & Hl0 & Hr).
  destruct (to_bimodal _ _ _ Hok l0 Hl0) as [Hp Hh]. pose proof (bk_bim _ _ _ Hbi l0 Hl0) as Hx.
  unfold TB.baseUpdate. wp_steps.
  destruct (vat_lt (btablePrediction s) (bimodalIndex bi)) as [bp Hbp]; [lia|].
  eapply wp_at_index; [exact Hbp|]. wp_steps.
  destruct (vat_lt (btableHysteresis s) (Z.shiftr (bimodalIndex bi) (logRatioBiModalHystEntries p)))
    as [bh Hbh].
  { rewrite Hh. apply shiftr_below; lia. }
  eapply wp_at_index; [exact Hbh|]. wp_steps. apply HQ. split; [|done]. by apply tb_ok_setBimodal.
Qed.

Lemma wp_handleTAGEUpdate s pc taken bi (Q : unit -> TAGEBase -> Prop) :
  tb_ok p size s -> bi_ok p size bi ->
  (forall s', tables_kept s s' -> Q tt s') -> wp (TB.handleTAGEUpdate p pc taken bi) Q s.
Proof.
  intros Hok Hbi HQ. destruct (bk_hit _ _ _ Hbi) as [Hh Hhi], (bk_alt _ _ _ Hbi) as [Ha Hai].
  unfold TB.handleTAGEUpdate. destruct (Z.ltb_spec 0 (hitBank bi)) as [Hpos|]; [|by eapply wp_baseUpdate].
  wp_steps. eapply wp_updateEntryCtr; [done|lia|by apply Hhi|]. intros s1 K1. wp_steps.
  eapply wp_entryAt; [apply K1|lia|by apply Hhi|]. intros e He. wp_step.
  apply (wp_mono _ (fun _ s' => tables_kept s s')).
  { apply wp_when; intros Hu; [|done]. wp_step. apply (wp_mono _ (fun _ s' => tables_kept s s')).
    - apply wp_when; intros Hpa; [|done]. apply Z.ltb_lt in Hpa.
      eapply wp_updateEntryCtr; [apply K1|lia|by apply Hai|]. intros s2. by apply tables_kept_trans.
    - intros _ s2 K2. apply wp_when; intros _; [|done]. eapply wp_baseUpdate; [apply K2|done|].
      intros s3. by apply tables_kept_trans. }
  intros _ s2 K2. apply wp_when; intros _; [|by apply HQ]. wp_steps.
  eapply wp_entryAt; [apply K2|lia|by apply Hhi|]. intros e2 He2. wp_steps.
  apply wp_unsignedCtrUpdate; [destruct (tc_u _ Hcfg); lia|apply He2|]. intros u Hu.
  eapply wp_setEntry; [apply K2|lia|by apply Hhi| |].
  - intros e3 []. by constructor.
  - intros s3 K3. apply HQ. by eapply tables_kept_trans.
Qed.
End Tables.

Lemma wp_onThread {A} s tid h (m : M ThreadHistory A) (Q : A -> TAGEBase -> Prop) :
  vat (threadHistory s) tid = Some h ->
  wp m (fun a h' => Q a (s <| threadHistory ::= <[Z.to_nat tid := h']> |>)) h ->
  wp (TB.onThread tid m) Q s.
Proof.
  intros Hh Hm. unfold wp, TB.onThread in *. rewrite Hh. by destruct (m h) as [[a h']|].
Qed.

Lemma vat_insert_eq {A} (l : list A) i x y :
  vat l i = Some y -> vat (<[Z.to_nat i := x]> l) i = Some x.
Proof.
  intros H. pose proof (vat_some _ _ _ H). rewrite vat_nat by lia.
  apply list_lookup_insert_eq. lia.
Qed.

(** Writing a thread twice *)
Lemma set_thread_twice s i h h' :
  (s <| threadHistory ::= <[i := h]> |>) <| threadHistory ::= <[i := h']> |> =
  s <| threadHistory ::= <[i := h']> |>.
Proof. destruct s. unfold setf. cbn. by rewrite list_insert_insert_eq. Qed.

Lemma tb_ok_thread p size s i h hist :
  tb_ok p size s -> th_repr (histParams p) hist h ->
  tb_ok p size (s <| threadHistory ::= <[i := h]> |>).
Proof.
  intros [] Hr. constructor; try assumption; cbn.
  - by rewrite length_insert.
  - apply Forall_insert; [done|]. by exists hist.
Qed.

(** The path histories do not matter for the representation. *)
Lemma th_repr_path p hist h x : th_repr p hist h -> th_repr p hist (h <| pathHist := x |>).
Proof. intros []. by constructor. Qed.

Lemma th_repr_nonSpec p hist h x :
  th_repr p hist h -> th_repr p hist (h <| nonSpecPathHist := x |>).
Proof. intros []. by constructor. Qed.
