(* ===== verification/TageBaseOk.v ===== *)
(** * The base implementation of TAGE keeps the contract

    [TAGEBase_v] discharges [VirtualOk]: the hash functions stay inside the
    tables, allocation and update keep the counters at their width, the history
    update refines the abstract history. *)

From Stdlib Require Import ZArith Lia.
From stdpp Require Import base list numbers.
From S2P Require Import Prelude Types CondPred TageHist Tage TageInv.

(** The shifts of [F] need [bank <= logTagTableSizes[bank]]. *)
Definition base_cfg (p : TageParams) : Prop :=
  forall i, 1 <= i <= nHistoryTables p -> exists l, vat (logTagTableSizes p) i = Some l /\ i <= l <= 30.

(** The number of entries of table [i] *)
Definition baseSize (p : TageParams) (i : Z) : Z := 2 ^ default 0 (vat (logTagTableSizes p) i).

(** A tag of table [i] has the width of its table. *)
Definition tagFits (p : TageParams) (i t : Z) : Prop :=
  forall w, vat (tagTableTagWidths p) i = Some w -> 0 <= t < 2 ^ w.

Definition baseIndexed (p : TageParams) (ti tg : list (option Z)) : Prop :=
  forall i, 1 <= i <= nHistoryTables p -> exists x t,
    vat ti i = Some (Some x) /\ 0 <= x < baseSize p i /\ vat tg i = Some (Some t) /\ tagFits p i t.

Lemma vat_setCell_eq {A} (l : list A) i x :
  0 <= i < Z.of_nat (length l) -> vat (TB.setCell i x l) i = Some x.
Proof.
  intros H. rewrite vat_nat by lia. unfold TB.setCell. apply list_lookup_insert_eq. lia.
Qed.

Lemma vat_setCell_ne {A} (l : list A) i j x :
  0 <= i -> i <> j -> vat (TB.setCell i x l) j = vat l j.
Proof.
  intros Hi Hn. unfold vat, TB.setCell. destruct (Z.leb_spec 0 j); [|done].
  apply list_lookup_insert_ne. lia.
Qed.

Lemma length_setCell {A} i (x : A) l : length (TB.setCell i x l) = length l.
Proof. apply length_insert. Qed.

Lemma masked_below x l : 0 <= l -> 0 <= Z.land x (Z.shiftl 1 l - 1) < 2 ^ l.
Proof. intros Hl. rewrite Z.shiftl_mul_pow2, Z.mul_1_l by done. by apply land_mask_bound. Qed.

Lemma wp_shamt {S} n (s : S) Q : 0 <= n < 32 -> Q n s -> wp (TB.shamt n) Q s.
Proof.
  intros Hn HQ. unfold TB.shamt. destruct (Z.leb_spec 0 n), (Z.ltb_spec n 32); try lia.
  by apply wp_ret.
Qed.

Lemma wp_cell {S} v i x (s : S) (Q : Z -> S -> Prop) :
  vat v i = Some (Some x) -> Q x s -> wp (TB.cell v i) Q s.
Proof.
  intros Hv HQ. unfold TB.cell. wp_steps. eapply wp_at_index; [exact Hv|]. by eapply wp_assigned.
Qed.

(** What the implementations of the virtual functions share *)
Section Common.
Context (p : TageParams) (size : Z -> Z) (Hcfg : tage_cfg p).
#[local] Abbreviation ok := (tb_ok p size).
#[local] Abbreviation hp := (histParams p).

Lemma thread_at s tid :
  ok s -> 0 <= tid < tg_numThreads p ->
  exists h hist, vat (threadHistory s) tid = Some h /\ th_repr hp hist h.
Proof.
  intros Hok Ht. destruct (vat_lt (threadHistory s) tid) as [h Hh].
  { rewrite (to_threads _ _ _ Hok). lia. }
  pose proof (to_hists _ _ _ Hok) as Hall. rewrite list.Forall_forall in Hall.
  destruct (Hall h (vat_elem _ _ _ Hh)) as [hist Hr]. by exists h, hist.
Qed.

Lemma wp_tb_thread s tid h (Q : ThreadHistory -> TAGEBase -> Prop) :
  vat (threadHistory s) tid = Some h -> Q h s -> wp (TB.thread tid) Q s.
Proof. intros Hh HQ. unfold TB.thread. wp_steps. by eapply wp_at_index. Qed.

Lemma regs_at shl hist l i :
  regs_ok hp shl hist l -> 1 <= i <= nHistoryTables p -> exists f, vat l i = Some f.
Proof. intros [Hl _] Hi. apply vat_lt. cbn in Hl. lia. Qed.

Lemma ok_scratch s a b :
  ok s -> length a = length (tableIndices s) -> length b = length (tableTags s) ->
  ok (s <| tableIndices := a |> <| tableTags := b |>).
Proof. intros [] Ha Hb. constructor; try assumption; cbn; congruence. Qed.

Lemma ok_tCounter s f : ok s -> ok (s <| tCounter ::= f |>).
Proof. intros []. by constructor. Qed.

Lemma ctr_weak taken : sctr_ok (tagTableCounterBits p) (if (taken : bool) then 0 else -1).
Proof.
  destruct (tc_ctr _ Hcfg) as [H _].
  pose proof (Z.pow_pos_nonneg 2 (tagTableCounterBits p - 1)). unfold sctr_ok. destruct taken; lia.
Qed.

(** The history of a thread with the bits a branch has recorded in [bi'] *)
Record pushed_history (h : ThreadHistory) (hist : list Z) (bi bi' : BranchInfo) (h' : ThreadHistory)
  : Prop := {
  ph_repr : th_repr hp (pushed (Z.to_nat (bi_nGhist bi')) (bi_ghist bi') hist) h';
  ph_bi : bi' = bi <| bi_ghist := bi_ghist bi' |> <| bi_nGhist := bi_nGhist bi' |>;
  ph_count : 0 <= bi_nGhist bi' <= 3;
  ph_window : bi_nGhist bi' + Z.min (window hp h) (rollbackBuffer - 1) <= window hp h';
  ph_nonSpec : nonSpecPathHist h' = nonSpecPathHist h
}.

Lemma wp_pushHistory s tid h hist bi bi1 (path : ThreadHistory -> Z)
    (Q : BranchInfo -> TAGEBase -> Prop) :
  vat (threadHistory s) tid = Some h -> th_repr hp hist h -> bi_nGhist bi = 0 ->
  (exists g n, bi1 = bi <| bi_ghist := g |> <| bi_nGhist := n |> /\ 0 <= n <= 3) ->
  (forall bi' h', pushed_history h hist bi bi' h' ->
     Q bi' (s <| threadHistory ::= <[Z.to_nat tid := h']> |>)) ->
  wp (TB.onThread tid (modify (fun h => h <| pathHist := path h |>)) ;;
      TB.updateGHist p tid (bi_ghist bi1) (bi_nGhist bi1) ;;
      mret bi1) Q s.
Proof.
  intros Hh Hr Hn (g & n & -> & Hrange) HQ. wp_step. eapply wp_onThread; [exact Hh|]. wp_steps.
  set (h1 := h <| pathHist := path h |>).
  assert (Hr1 : th_repr hp hist h1) by (by apply th_repr_path). cbn.
  unfold TB.updateGHist. destruct (Z.eqb_spec n 0) as [->|Hnz].
  - wp_steps. apply (HQ _ h1). constructor; cbn; [done|by destruct bi|lia| |done].
    unfold window. cbn. lia.
  - eapply wp_onThread; [by eapply (vat_insert_eq _ _ h1)|].
    eapply (wp_updateGHist hp (tc_sizes _ Hcfg)); [done|lia|].
    intros h2 Hr2 [_ Hns] Hw2. wp_steps. rewrite set_thread_twice.
    apply (HQ _ h2). constructor; [done|by destruct bi|done|exact Hw2|exact Hns].
Qed.
End Common.

Section Base.
Context (p : TageParams) (Hcfg : tage_cfg p) (Hbase : base_cfg p).
#[local] Abbreviation size := (baseSize p).
#[local] Abbreviation ok := (tb_ok p (baseSize p)).
#[local] Abbreviation hp := (histParams p).

(** The shifts of [F] are defined. *)
Lemma wp_F s A sz bank (Q : Z -> TAGEBase -> Prop) :
  1 <= bank <= nHistoryTables p -> (forall r, Q r s) -> wp (TB.F p A sz bank) Q s.
Proof.
  intros Hb HQ. destruct (Hbase bank Hb) as (l & Hl & Hr).
  unfold TB.F, TB.logSize. wp_steps. eapply wp_at_index; [exact Hl|]. wp_steps.
  apply wp_shamt; [lia|]. wp_steps. apply wp_shamt; [lia|]. wp_steps. apply wp_shamt; [lia|].
  wp_steps. apply HQ.
Qed.

Lemma wp_gindex s tid pc bank (Q : Z -> TAGEBase -> Prop) :
  ok s -> 0 <= tid < tg_numThreads p -> 1 <= bank <= nHistoryTables p ->
  (forall x, 0 <= x < size bank -> Q x s) -> wp (TB.gindex p tid pc bank) Q s.
Proof.
  intros Hok Ht Hb HQ. destruct (thread_at p size s tid Hok Ht) as (h & hist & Hh & Hr).
  destruct (tc_banks _ Hcfg bank Hb) as [(o & Ho & _) (l & Hl & Hlr) _ _ _ _ _].
  destruct (regs_at p _ hist (computeIndices h) bank (tr_ci _ _ _ Hr) Hb) as [f Hf].
  unfold TB.gindex, TB.logSize. wp_steps. eapply wp_at_index; [exact Ho|]. wp_steps.
  eapply wp_at_index; [exact Hl|]. wp_steps. eapply wp_tb_thread; [exact Hh|]. wp_steps.
  eapply wp_at_index; [exact Hf|]. wp_steps. apply wp_F; [done|]. intros r. wp_steps.
  apply HQ. unfold baseSize. rewrite Hl. cbn. apply masked_below. lia.
Qed.

Lemma wp_gtag s tid pc bank (Q : Z -> TAGEBase -> Prop) :
  ok s -> 0 <= tid < tg_numThreads p -> 1 <= bank <= nHistoryTables p ->
  (forall x, tagFits p bank x -> Q x s) -> wp (TB.gtag p tid pc bank) Q s.
Proof.
  intros Hok Ht Hb HQ. destruct (thread_at p size s tid Hok Ht) as (h & hist & Hh & Hr).
  destruct (tc_banks _ Hcfg bank Hb) as [_ _ _ _ _ (w & Hw & Hwr) _].
  destruct (regs_at p _ hist (computeTags0 h) bank (tr_ct0 _ _ _ Hr) Hb) as [f0 Hf0].
  destruct (regs_at p _ hist (computeTags1 h) bank (tr_ct1 _ _ _ Hr) Hb) as [f1 Hf1].
  unfold TB.gtag. wp_steps. eapply wp_at_index; [exact Hw|]. wp_steps.
  eapply wp_tb_thread; [exact Hh|]. wp_steps. eapply wp_at_index; [exact Hf0|]. wp_steps.
  eapply wp_at_index; [exact Hf1|]. wp_steps. apply HQ. intros w' Hw'. simplify_eq.
  set (x := u64 _). pose proof (masked_below x w ltac:(lia)) as Hm. pose proof (Z.pow_le_mono_r 2 w 16).
  unfold u16. rewrite Z.mod_small; lia.
Qed.

(** A table whose index and tag have been computed, in the predictor and in the
    branch *)
Definition computed (s : TAGEBase) (bi : BranchInfo) (i : Z) : Prop :=
  exists x t, 0 <= x < size i /\ vat (tableIndices s) i = Some x /\ vat (tableTags s) i = Some t /\
    vat (bi_tableIndices bi) i = Some (Some x) /\ vat (bi_tableTags bi) i = Some (Some t) /\
    tagFits p i t.

Record calc_inv (s0 : TAGEBase) (bi0 : BranchInfo) (k : nat) (bi : BranchInfo) (s : TAGEBase) : Prop := {
  ci_ok : ok s;
  ci_only : scratch_only s0 s;
  ci_bi : bi_ok p (baseSize p) bi;
  ci_same : bi_calc bi0 bi;
  ci_done : forall i, 1 <= i <= Z.of_nat k -> computed s bi i
}.

Lemma calc_step s0 bi0 k tid pc bi s :
  calc_inv s0 bi0 k bi s -> 0 <= tid < tg_numThreads p -> 1 + Z.of_nat k <= nHistoryTables p ->
  wp (idx ← TB.gindex p tid pc (1 + Z.of_nat k);
      modify (fun s => s <| tableIndices ::= TB.setCell (1 + Z.of_nat k) idx |>) ;;
      tag ← TB.gtag p tid pc (1 + Z.of_nat k);
      modify (fun s => s <| tableTags ::= TB.setCell (1 + Z.of_nat k) tag |>) ;;
      mret (bi <| bi_tableIndices ::= TB.setCell (1 + Z.of_nat k) (Some idx) |>
               <| bi_tableTags ::= TB.setCell (1 + Z.of_nat k) (Some tag) |>))
     (calc_inv s0 bi0 (S k)) s.
Proof.
  intros [Hok Hth Hbi Hsame Hdone] Ht Hk. wp_steps. apply wp_gindex; [done..|lia|].
  intros x Hx. wp_steps.
  set (s1 := setf tableIndices _ s).
  assert (Hok1 : ok s1).
  { assert (E : s1 = s <| tableIndices := TB.setCell (1 + Z.of_nat k) x (tableIndices s) |>
      <| tableTags := tableTags s |>) by (by destruct s). rewrite E.
    apply ok_scratch; [done|apply length_setCell|done]. }
  apply wp_gtag; [done..|lia|]. intros t Htf. wp_steps.
  pose proof (to_scratchI _ _ _ Hok) as LI. pose proof (to_scratchT _ _ _ Hok) as LT.
  pose proof (bk_ti _ _ _ Hbi) as BI. pose proof (bk_tt _ _ _ Hbi) as BT.
  constructor.
  - assert (E : setf tableTags (TB.setCell (1 + Z.of_nat k) t) s1 =
      s1 <| tableIndices := tableIndices s1 |>
         <| tableTags := TB.setCell (1 + Z.of_nat k) t (tableTags s1) |>) by (by destruct s).
    rewrite E. apply ok_scratch; [done|done|apply length_setCell].
  - etrans; [exact Hth|]. by destruct s.
  - destruct Hbi. constructor; try assumption; cbn; by rewrite length_setCell.
  - etrans; [exact Hsame|]. by destruct bi.
  - intros i Hi. destruct (Z.eq_dec i (1 + Z.of_nat k)) as [->|].
    + exists x, t. cbn. rewrite !vat_setCell_eq by lia. done.
    + destruct (Hdone i) as (x' & t' & ?); [lia|]. exists x', t'. cbn.
      rewrite !vat_setCell_ne by lia. done.
Qed.

Lemma wp_calc s tid pc bi (Q : BranchInfo -> TAGEBase -> Prop) :
  ok s -> 0 <= tid < tg_numThreads p -> bi_ok p (baseSize p) bi ->
  (forall bi' s', ok s' -> scratch_only s s' -> bi_ok p (baseSize p) bi' ->
     bi_calc bi bi' -> (forall i, 1 <= i <= nHistoryTables p -> computed s' bi' i) -> Q bi' s') ->
  wp (TB.calculateIndicesAndTags p tid pc bi) Q s.
Proof.
  intros Hok Ht Hbi HQ. unfold TB.calculateIndicesAndTags. wp_step.
  eapply wp_mono; [apply (wp_mfold (calc_inv s bi))|].
  - constructor; [done..|]. intros i Hi. lia.
  - intros k x bi' s' Hx Hinv. apply lookup_seqZ in Hx as [-> Hk]. apply calc_step; [done..|lia].
  - intros bi' s' [H1 H2 H3 H4 H5]. wp_steps. rewrite length_seqZ in H5.
    apply HQ; [done|done|by destruct H3|etrans; [exact H4|by destruct bi']|].
    intros i Hi. apply H5. pose proof (hs_n _ (tc_sizes _ Hcfg)). cbn in *. lia.
Qed.

(** ** Allocation *)

#[local] Abbreviation kept := (tables_kept p (baseSize p)).

Lemma wp_allocateEntry s i bi taken (Q : bool -> TAGEBase -> Prop) :
  ok s -> baseIndexed p (bi_tableIndices bi) (bi_tableTags bi) -> 1 <= i <= nHistoryTables p ->
  (forall b s', kept s s' -> Q b s') -> wp (TB.allocateEntry i bi taken) Q s.
Proof.
  intros Hok Hix Hi HQ. destruct (Hix i Hi) as (x & t & Hx & Hxr & Ht & _).
  unfold TB.allocateEntry. wp_steps. eapply wp_cell; [exact Hx|]. wp_steps.
  eapply wp_entryAt; [done..|]. intros e He. wp_steps; [by apply HQ|].
  eapply wp_cell; [exact Ht|]. wp_steps. eapply wp_setEntry; [done..| |].
  - intros e' []. constructor; [by apply ctr_weak|cbn; apply Z.mod_pos_bound; lia|done].
  - intros s' K. wp_steps. by apply HQ.
Qed.

Lemma wp_allocateFrom n : forall i s bi taken k (Q : unit -> TAGEBase -> Prop),
  ok s -> baseIndexed p (bi_tableIndices bi) (bi_tableTags bi) ->
  1 <= i -> i + Z.of_nat n <= nHistoryTables p + 1 ->
  (forall s', kept s s' -> Q tt s') -> wp (TB.allocateFrom p n i bi taken k) Q s.
Proof.
  induction n as [|n IH]; intros i s bi taken k Q Hok Hix Hi Hn HQ; cbn [TB.allocateFrom].
  - apply wp_ret. by apply HQ.
  - wp_step. apply wp_allocateEntry; [done|done|lia|]. intros b s1 K1.
    assert (Hrec : forall k', wp (TB.allocateFrom p n (i + 1) bi taken k') Q s1).
    { intros k'. apply IH; [apply K1|done|lia|lia|]. intros s2 K2. apply HQ.
      by eapply tables_kept_trans. }
    destruct b; [|done]. destruct (_ =? _); [|done]. apply wp_ret. by apply HQ.
Qed.

Lemma reset_ok e : entry_ok p e -> entry_ok p (e <| te_u ::= TB.resetUctr |>).
Proof.
  intros [? ? Hu]. constructor; [done|done|]. cbn. unfold TB.resetUctr.
  rewrite Z.shiftr_div_pow2 by lia. change (2 ^ 1) with 2.
  split; [apply Z.div_pos; lia|]. apply Z.div_lt_upper_bound; lia.
Qed.

Lemma wp_handleUReset s (Q : unit -> TAGEBase -> Prop) :
  ok s -> (forall s', kept s s' -> Q tt s') -> wp (TB.handleUReset p) Q s.
Proof.
  intros Hok HQ. unfold TB.handleUReset. wp_step. wp_steps; [|by apply HQ].
  eapply wp_mono; [apply (wp_mfor (kept s))|by intros []; apply HQ]; [done|].
  intros i s1 Hi K1. apply elem_of_seqZ in Hi. assert (Hb : 1 <= i <= nHistoryTables p) by lia.
  destruct (bc_log _ _ (tc_banks _ Hcfg i Hb)) as (l & Hl & _).
  unfold TB.logSize. wp_step. eapply wp_at_index; [exact Hl|].
  apply (wp_mfor (kept s)); [done|]. intros j s2 Hj K2. apply elem_of_seqZ in Hj.
  eapply wp_setEntry; [apply K2|done| |apply reset_ok|].
  - unfold baseSize. rewrite Hl. cbn. lia.
  - intros s3 K3. by eapply tables_kept_trans.
Qed.

(** The first candidate for allocation is a table. *)
Lemma candidate_range hb Y :
  0 <= hb < nHistoryTables p ->
  Y = Z.land Y (Z.shiftl 1 (nHistoryTables p - hb - 1) - 1) ->
  let X := hb + 1 + (if Z.testbit Y 0 then (if Z.testbit Y 1 then 2 else 1) else 0) in
  1 <= X <= nHistoryTables p.
Proof.
  intros Hhb HY. cbn zeta.
  assert (Hb : forall k, Z.testbit Y k = true -> 0 <= k -> k < nHistoryTables p - hb - 1).
  { intros k Hk H0. rewrite HY, Z.land_spec in Hk. apply andb_true_iff in Hk as [_ Hk].
    replace (Z.shiftl 1 _ - 1) with (Z.ones (nHistoryTables p - hb - 1)) in Hk
      by (rewrite Z.ones_equiv, Z.shiftl_mul_pow2 by lia; lia).
    rewrite Z.testbit_ones_nonneg in Hk by lia. by apply Z.ltb_lt in Hk. }
  pose proof (Hb 0). pose proof (Hb 1).
  destruct (Z.testbit Y 0), (Z.testbit Y 1); lia.
Qed.

Lemma wp_handleAlloc s (alloc taken : bool) bi nrand (Q : unit -> TAGEBase -> Prop) :
  ok s -> bi_ok p (baseSize p) bi ->
  (alloc = true -> hitBank bi < nHistoryTables p /\
     baseIndexed p (bi_tableIndices bi) (bi_tableTags bi)) ->
  (forall s', kept s s' -> Q tt s') -> wp (TB.handleAllocAndUReset p alloc taken bi nrand) Q s.
Proof.
  intros Hok Hbi Ha HQ. destruct (bk_hit _ _ _ Hbi) as [Hh _]. unfold TB.handleAllocAndUReset.
  wp_step. apply (wp_mono _ (fun _ s' => kept s s')).
  2: { intros _ s1 K1. wp_steps. apply wp_handleUReset; [apply ok_tCounter, K1|]. intros s2 K2.
       apply HQ. eapply tables_kept_trans; [exact K1|exact K2]. }
  apply wp_when; intros Et; [|by split]. destruct (Ha Et) as [Hlt Hix]. wp_step.
  eapply wp_mono; [apply (wp_mfold (fun _ _ s' => s' = s))|].
  - done.
  - intros k i mn s' Hi ->. apply list_elem_of_lookup_2, elem_of_reverse, elem_of_seqZ in Hi.
    destruct (Hix i) as (x & t & Hx & Hxr & _); [lia|].
    wp_steps. eapply wp_cell; [exact Hx|]. wp_steps. eapply wp_entryAt; [done|lia|done|].
    intros e He. by wp_steps.
  - intros mn s' ->. set (Y := Z.land nrand _).
    assert (EY : Y = Z.land Y (Z.shiftl 1 (nHistoryTables p - hitBank bi - 1) - 1))
      by (unfold Y; by rewrite <- Z.land_assoc, Z.land_diag).
    pose proof (candidate_range (hitBank bi) Y ltac:(lia) EY) as HX. cbn zeta in *.
    set (X := hitBank bi + 1 + _) in *.
    wp_step. apply (wp_mono _ (fun _ s' => kept s s')).
    + apply wp_when; intros _; [|by split]. destruct (Hix X HX) as (x & t & Hx & Hxr & _).
      wp_steps. eapply wp_cell; [exact Hx|]. eapply wp_setEntry; [done..| |done].
      intros e [? ? Hu]. constructor; [done|done|]. cbn. lia.
    + intros _ s1 K1. apply wp_allocateFrom; [apply K1|done|lia|lia|]. intros s2 K2.
      by eapply tables_kept_trans.
Qed.

(** ** Histories *)

Lemma wp_history s tid brtype taken pc tgt bi h hist (Q : BranchInfo -> TAGEBase -> Prop) :
  vat (threadHistory s) tid = Some h -> th_repr hp hist h -> bi_nGhist bi = 0 ->
  (forall bi' h', pushed_history p h hist bi bi' h' ->
     Q bi' (s <| threadHistory ::= <[Z.to_nat tid := h']> |>)) ->
  wp (TB.updatePathAndGlobalHistory p tid brtype taken pc tgt bi) Q s.
Proof.
  intros Hh Hr Hn HQ. unfold TB.updatePathAndGlobalHistory.
  apply (wp_pushHistory p Hcfg s tid h hist bi _ (fun h => TB.calcNewPathHist p pc (pathHist h) taken brtype tgt));
    [done..| |done].
  destruct (takenOnlyHistory p); [destruct taken|]; [by eexists _, _..| |by eexists _, _].
  exists (bi_ghist bi), 0. split; [|lia]. rewrite <- Hn. by destruct bi.
Qed.

#[export] Instance TAGEBase_vok : @VirtualOk p (baseSize p) (TB.TAGEBase_v p).
Proof.
  refine {| vo_indexed := baseIndexed p |}; cbn.
  - intros s tid pc bi Hok Ht Hbi. apply wp_calc; [done..|]. intros bi' s' H1 H2 H3 H4 H5.
    split_and!; try done.
    + intros i Hi _. destruct (H5 i Hi) as (x & t & ? & ? & ? & _). by exists x, t.
    + intros i Hi. destruct (H5 i Hi) as (x & t & ? & ? & ? & ? & ?). by exists x, t.
  - intros pc l0 Hl0. change (vat (logTagTableSizes p) 0 = Some l0) in Hl0.
    unfold TB.bindex. rewrite Hl0. cbn [default].
    destruct (tc_log0 _ Hcfg) as (l & Hl & ?). apply masked_below. simplify_eq. lia.
  - intros s pc bi Hok Hbi. unfold TB.getBimodePred. wp_steps.
    destruct (tc_log0 _ Hcfg) as (l0 & Hl0 & _). destruct (to_bimodal _ _ _ Hok l0 Hl0) as [Hp _].
    destruct (vat_lt (btablePrediction s) (bimodalIndex bi)) as [b Hb].
    { rewrite Hp. by apply (bk_bim _ _ _ Hbi). }
    eapply wp_at_index; [exact Hb|]. by wp_steps.
  - intros s bi Hok Hbi _. by apply wp_ret.
  - intros bi pc _. destruct (tc_numna _ Hcfg). lia.
  - intros s a t pr Hok. by apply wp_ret.
  - intros s alloc taken bi nrand Hok Hbi Ha. by apply wp_handleAlloc.
  - intros s pc taken bi Hok Hbi _. by eapply wp_handleTAGEUpdate.
  - intros s tid brtype taken pc tgt bi h hist Hok Ht Hh Hr Hbi Hn.
    eapply wp_history; [done..|]. intros bi' h' []. by exists h'.
Defined.
End Base.

(** ** Construction *)

Lemma foldRef_nil L O : foldRef L O [] = 0.
Proof.
  induction O as [|o IH]; cbn [foldRef]; [done|]. rewrite IH. unfold bitAt. cbn.
  by rewrite Z.shiftl_0_l.
Qed.

Section Init.
Context (p : TageParams) (Hcfg : tage_cfg p).
#[local] Abbreviation hp := (histParams p).

Lemma foldedVec_inv width l :
  TB.foldedVec p width = Ok l ->
  exists f0 fs, l = f0 :: fs /\
    Forall2 (fun i f => exists o w, vat (histLengths p) i = Some o /\ width i = Some w /\
               Folded.init o w = Ok f) (seqZ 1 (nHistoryTables p)) fs.
Proof.
  unfold TB.foldedVec. intros (fs & E & [= <-])%res_bind_ok. eexists _, fs. split; [done|].
  revert fs E. induction (seqZ 1 (nHistoryTables p)) as [|i xs IH]; intros fs E; cbn in E.
  { injection E as <-. constructor. }
  destruct (vat (histLengths p) i) as [o|] eqn:Eo; [|done].
  destruct (width i) as [w|] eqn:Ew; [|done].
  apply res_bind_ok in E as (f & Ef & E). apply res_bind_ok in E as (fs' & Efs & [= <-]).
  constructor; [by exists o, w|]. by apply IH.
Qed.

Lemma foldedVec_regs shl width l :
  (forall i o, 1 <= i <= nHistoryTables p -> vat (histLengths p) i = Some o ->
     exists w, width i = Some w /\ 1 <= w <= 31 /\ vat shl i = Some (w, o)) ->
  TB.foldedVec p width = Ok l -> regs_ok hp shl [] l.
Proof.
  intros Hw (f0 & fs & -> & H2)%foldedVec_inv.
  pose proof (Forall2_length H2) as Hl. rewrite length_seqZ in Hl.
  split; [cbn; lia|]. intros [|j] f Hj Hf; [lia|]. cbn in Hf.
  destruct (Forall2_lookup_r _ _ _ _ _ H2 Hf) as (i & Hi & o & w & Ho & Hwi & Hinit).
  apply lookup_seqZ in Hi as [-> Hi]. destruct (Hw (1 + Z.of_nat j) o) as (w' & Hw' & Hr & Hs); [lia|done|].
  rewrite Hwi in Hw'. injection Hw' as <-.
  destruct (bc_hist _ _ (tc_banks _ Hcfg (1 + Z.of_nat j) ltac:(lia))) as (o' & Ho' & Hor).
  rewrite Ho in Ho'. injection Ho' as <-.
  exists (w, o). rewrite vat_nat in Hs by lia.
  replace (Z.to_nat (1 + Z.of_nat j)) with (S j) in Hs by lia. split; [done|].
  unfold Folded.init in Hinit. destruct (Z.eqb_spec w 0); [lia|]. injection Hinit as <-.
  constructor; [done| |cbn; lia|cbn; by rewrite foldRef_nil].
  constructor; cbn; [lia|lia|]. by rewrite Z.rem_mod_nonneg by lia.
Qed.

Lemma vat_zip {A B} (l : list A) (k : list B) i a b :
  vat l i = Some a -> vat k i = Some b -> vat (zip l k) i = Some (a, b).
Proof.
  unfold vat. destruct (0 <=? i); [|done]. intros Ha Hb.
  by rewrite lookup_zip_with, Ha, Hb.
Qed.

Lemma vat_fmap {A B} (f : A -> B) l i : vat (f <$> l) i = f <$> vat l i.
Proof. unfold vat. destruct (0 <=? i); [|done]. by rewrite list_lookup_fmap. Qed.

Lemma folded_list l widths :
  (forall i, 1 <= i <= nHistoryTables p -> fold_cfg widths i) ->
  TB.foldedVec p (fun i => vat widths i) = Ok l ->
  regs_ok hp (zip widths (histLengths p)) [] l.
Proof.
  intros Hf E. eapply foldedVec_regs; [|exact E]. intros i o Hi Ho.
  destruct (Hf i Hi) as (w & Hw & ?). exists w. split_and!; [done|lia|lia|]. by apply vat_zip.
Qed.

Lemma initThread_ok th :
  TB.initThread p = Ok th -> th_repr hp [] th /\ pathHist th = 0.
Proof.
  unfold TB.initThread.
  intros (ci & Eci & (c0 & E0 & (c1 & E1 & [= <-])%res_bind_ok)%res_bind_ok)%res_bind_ok.
  split; [|done]. pose proof (tc_sizes _ Hcfg) as [Hn HM HS]. cbn in *.
  unfold rollbackBuffer in *. constructor; cbn.
  - constructor.
  - rewrite length_replicate. lia.
  - lia.
  - intros i Hi. rewrite vat_nat by lia. rewrite lookup_replicate_2 by lia. done.
  - apply folded_list; [|done]. intros i Hi. apply (tc_banks _ Hcfg i Hi).
  - apply folded_list; [|done]. intros i Hi. apply (tc_banks _ Hcfg i Hi).
  - apply folded_list; [|done]. intros i Hi. apply (tc_banks _ Hcfg i Hi).
Qed.

Lemma rassert_ok b u : TB.rassert b = Ok u -> b = true.
Proof. by destruct b. Qed.

(** [init] with tables that fit [size] *)
Lemma initWith_ok size tables rands s :
  0 <= tg_numThreads p ->
  (Z.of_nat (length (logTagTableSizes p)) = nHistoryTables p + 1 ->
   forall i, 1 <= i <= nHistoryTables p -> exists a t,
     vat (fst tables) i = Some (Some a) /\ snd tables !! a = Some t /\ Z.of_nat (length t) = size i) ->
  Forall (Forall (entry_ok p)) (snd tables) ->
  TB.initWith p tables rands = Ok s ->
  tb_ok p size s /\ forall h, h ∈ threadHistory s -> th_repr hp [] h /\ pathHist h = 0.
Proof.
  intros Hth Htab Hent. unfold TB.initWith.
  do 5 (intros E; apply res_bind_ok in E as (? & _ & E); revert E).
  intros (? & HL & (? & _ & (th & Eth & E)%res_bind_ok)%res_bind_ok)%res_bind_ok.
  apply rassert_ok, Z.eqb_eq in HL. destruct (initThread_ok th Eth) as [Hr Hph].
  destruct (tc_log0 _ Hcfg) as (l0 & Hl0 & Hrat). rewrite Hl0 in E.
  assert (Hpow : 0 < 2 ^ l0) by (apply Z.pow_pos_nonneg; lia).
  assert (Hpow' : 0 < 2 ^ (l0 - logRatioBiModalHystEntries p)) by (apply Z.pow_pos_nonneg; lia).
  assert (Hn : 0 < nHistoryTables p) by (exact (hs_n _ (tc_sizes _ Hcfg))).
  injection E as <-. split; [|cbn; intros h [-> _]%elem_of_replicate; done].
  constructor; cbn; rewrite ?length_replicate, ?Z2Nat.id by lia; try done.
  - intros l Hl. change (vat (logTagTableSizes p) 0 = Some l) in Hl. rewrite Hl0 in Hl.
    injection Hl as <-. split; [lia|]. rewrite Z.shiftr_div_pow2 by lia.
    rewrite <- Z.pow_sub_r by lia. lia.
  - intros i Hi. by apply Htab.
  - destruct (tc_numna _ Hcfg). lia.
  - apply list.Forall_replicate. unfold sctr_ok. destruct (tc_na _ Hcfg).
    pose proof (Z.pow_pos_nonneg 2 (useAltOnNaBits p - 1)). lia.
  - apply list.Forall_replicate. by exists [].
Qed.

Lemma initWith_store tables rands s : TB.initWith p tables rands = Ok s -> gstore s = snd tables.
Proof.
  unfold TB.initWith. do 7 (intros E; apply res_bind_ok in E as (? & _ & E); revert E).
  intros (th & _ & E)%res_bind_ok. destruct (vat (logTagTableSizes p) 0); [|done]. by injection E as <-.
Qed.

Lemma new_tables (P : TageEntry -> Prop) :
  P (mkTageEntry 0 0 0) -> Forall (Forall P) (snd (TB.buildTageTables p)).
Proof.
  intros HP. unfold TB.buildTageTables. cbn. apply list.Forall_forall.
  intros t (l & -> & _)%list_elem_of_fmap. by apply list.Forall_replicate.
Qed.

Lemma new_entry_ok : entry_ok p (mkTageEntry 0 0 0).
Proof.
  constructor; cbn; [apply (ctr_weak p Hcfg true)|lia|].
  split; [done|]. apply Z.pow_pos_nonneg; destruct (tc_u _ Hcfg); lia.
Qed.

Lemma build_tables i :
  Z.of_nat (length (logTagTableSizes p)) = nHistoryTables p + 1 -> 1 <= i <= nHistoryTables p ->
  exists a t, vat (fst (TB.buildTageTables p)) i = Some (Some a) /\
    snd (TB.buildTageTables p) !! a = Some t /\ Z.of_nat (length t) = baseSize p i.
Proof.
  intros Hlen Hi. destruct (bc_log _ _ (tc_banks _ Hcfg i Hi)) as (l & Hl & Hlr).
  exists (Z.to_nat (i - 1)), (replicate (Z.to_nat (2 ^ l)) (mkTageEntry 0 0 0)).
  unfold TB.buildTageTables. cbn [fst snd]. split_and!.
  - rewrite vat_nat by lia. replace (Z.to_nat i) with (S (Z.to_nat (i - 1))) by lia.
    rewrite lookup_cons. cbn iota. rewrite list_lookup_fmap, lookup_seq_lt by lia. done.
  - rewrite list_lookup_fmap, lookup_take_lt, lookup_drop by lia.
    replace (1 + Z.to_nat (i - 1))%nat with (Z.to_nat i) by lia.
    rewrite vat_nat in Hl by lia. by rewrite Hl.
  - rewrite length_replicate. unfold baseSize. rewrite Hl. cbn.
    pose proof (Z.pow_pos_nonneg 2 l). lia.
Qed.

Lemma tage_init_ok s :
  0 <= tg_numThreads p -> TB.init p = Ok s ->
  tb_ok p (baseSize p) s /\
  forall h, h ∈ threadHistory s -> th_repr hp [] h /\ pathHist h = 0.
Proof.
  intros Hth. apply initWith_ok; [done| |].
  - intros Hl i Hi. by apply build_tables.
  - apply new_tables, new_entry_ok.
Qed.
End Init.
