(* ===== verification/TageSafe.v ===== *)
(** * TAGE: rules of the predictor

    Under the contract of the virtual functions: prediction and training stay
    inside the tables, and the speculative history of a branch is what its
    [BranchInfo] records.  [flying] describes the [BranchInfo] of a branch in
    flight, [flights] the branches of a thread, the youngest first. *)

From Stdlib Require Import ZArith Lia.
From stdpp Require Import base list numbers.
From S2P Require Import Prelude Types CondPred TageHist Tage TageInv.

Section Safe.
Context (p : TageParams) (size : Z -> Z) (Hcfg : tage_cfg p) {V : TageVirtual}
  {VO : VirtualOk p size}.
#[local] Abbreviation ok := (tb_ok p size).
#[local] Abbreviation hp := (histParams p).

(** ** Prediction *)

Lemma wp_matches s i (Q : bool -> TAGEBase -> Prop) :
  ok s -> scratch_ok p size s -> 1 <= i <= nHistoryTables p ->
  (forall b, (b = true -> vat (noSkip p) i = Some true) -> Q b s) -> wp (TB.matches p i) Q s.
Proof.
  intros Hok Hsc Hi HQ. destruct (bc_skip _ _ (tc_banks _ Hcfg i Hi)) as [ns Hns].
  unfold TB.matches. wp_steps. eapply wp_at_index; [exact Hns|]. destruct ns; cbn.
  - destruct (Hsc i Hi Hns) as (x & t & Hx & Hxr & Ht). wp_steps.
    eapply wp_at_index; [exact Hx|]. wp_steps. eapply wp_at_index; [exact Ht|]. wp_steps.
    eapply wp_entryAt; [done..|]. intros e He. wp_steps. by apply HQ.
  - wp_steps. by apply HQ.
Qed.

Lemma wp_firstMatch n : forall s (Q : Z -> TAGEBase -> Prop),
  ok s -> scratch_ok p size s -> Z.of_nat n <= nHistoryTables p ->
  (forall r, 0 <= r <= Z.of_nat n -> (0 < r -> vat (noSkip p) r = Some true) -> Q r s) ->
  wp (TB.firstMatch p n) Q s.
Proof.
  induction n as [|n IH]; intros s Q Hok Hsc Hn HQ; cbn [TB.firstMatch].
  - apply wp_ret. apply HQ; lia.
  - wp_step. apply wp_matches; [done|done|lia|]. intros b Hb. destruct b.
    + apply wp_ret. apply HQ; [lia|]. intros _. by apply Hb.
    + apply IH; [done|done|lia|]. intros r Hr Hs. apply HQ; [lia|done].
Qed.

(** The bank found by a search, stored in the branch with its index *)
Lemma wp_found s hb bi (upd : Z -> BranchInfo -> BranchInfo) (Q : BranchInfo -> TAGEBase -> Prop) :
  scratch_ok p size s -> 0 <= hb <= nHistoryTables p ->
  (0 < hb -> vat (noSkip p) hb = Some true) ->
  (hb = 0 -> Q bi s) -> (forall x, 0 < hb -> 0 <= x < size hb -> Q (upd x bi) s) ->
  wp (if hb =? 0 then mret bi else ti ← TB.scratchIndex hb; mret (upd ti bi)) Q s.
Proof.
  intros Hsc Hr Hns H0 HQ. destruct (Z.eqb_spec hb 0); [apply wp_ret; auto|].
  destruct (Hsc hb) as (x & t & Hx & Hxr & _); [lia|apply Hns; lia|].
  unfold TB.scratchIndex. wp_steps. eapply wp_at_index; [exact Hx|]. wp_steps. apply HQ; lia.
Qed.

(** [gtable[bank][tableIndices[bank]]] for a bank that a search has found *)
Lemma wp_scratchEntry s bank (Q : TageEntry -> TAGEBase -> Prop) :
  ok s -> scratch_ok p size s -> 1 <= bank <= nHistoryTables p ->
  vat (noSkip p) bank = Some true -> (forall e, entry_ok p e -> Q e s) ->
  wp (ti ← TB.scratchIndex bank; TB.entryAt bank ti) Q s.
Proof.
  intros Hok Hsc Hb Hns HQ. destruct (Hsc bank Hb Hns) as (x & t & Hx & Hxr & _).
  unfold TB.scratchIndex. wp_steps. eapply wp_at_index; [exact Hx|]. by eapply wp_entryAt.
Qed.

Lemma wp_assoc {S A B C} (m : M S A) (f : A -> M S B) (g : B -> M S C) Q s :
  wp (r ← (x ← m; f x); g r) Q s -> wp (x ← m; r ← f x; g r) Q s.
Proof. unfold wp, mbind, M_bind. by destruct (m s) as [[a s']|]. Qed.

(** What a prediction leaves *)
Record predicted_tage (s : TAGEBase) (bi : BranchInfo) (bi' : BranchInfo) (s' : TAGEBase) : Prop := {
  pt_ok : ok s';
  pt_scratch : scratch_only s s';
  pt_bi : bi_ok p size bi';
  pt_same : bi_same bi bi';
  pt_indexed : vo_indexed (bi_tableIndices bi') (bi_tableTags bi')
}.

(** The tables of a prediction under way: the indices are computed and the two
    banks are those of the scratch vectors. *)
Record searching (s0 : TAGEBase) (bi0 : BranchInfo) (s : TAGEBase) (bi : BranchInfo) : Prop := {
  se_pred : predicted_tage s0 bi0 bi s;
  se_hit : 0 < hitBank bi -> vat (noSkip p) (hitBank bi) = Some true;
  se_alt : 0 < altBank bi -> vat (noSkip p) (altBank bi) = Some true
}.

(** The end of a prediction with a hit: [tagePredict] after the two searches *)
Lemma wp_hit s0 bi0 pc bi s (Q : bool * BranchInfo -> TAGEBase -> Prop) :
  searching s0 bi0 s bi -> scratch_ok p size s -> 0 < hitBank bi ->
  (forall b bi', predicted_tage s0 bi0 bi' s -> no_hit bi' -> Q (b, bi') s) ->
  wp (bi ← (if 0 <? altBank bi then
            ti ← TB.scratchIndex (altBank bi);
            e ← TB.entryAt (altBank bi) ti;
            v_extraAltCalc (bi <| altTaken := 0 <=? te_ctr e |>)
          else
            r ← v_getBimodePred pc bi; mret ((snd r) <| altTaken := fst r |>));
    ti ← TB.scratchIndex (hitBank bi);
    e ← TB.entryAt (hitBank bi) ti;
    let bi := bi <| longestMatchPred := 0 <=? te_ctr e |> in
    e' ← TB.entryAt (hitBank bi) (hitBankIndex bi);
    let bi := bi <| pseudoNewAlloc := Z.abs (2 * te_ctr e' + 1) <=? 1 |> in
    s ← gets (fun s => s);
    ua ← at_index (vat (useAltPredForNewlyAllocated s) (v_getUseAltIdx bi pc));
    let bi :=
      if (ua <? 0) || negb (pseudoNewAlloc bi)
      then bi <| tagePred := longestMatchPred bi |> <| bi_provider := TAGE_LONGEST_MATCH |>
      else bi <| tagePred := altTaken bi |>
              <| bi_provider := if altBank bi =? 0 then BIMODAL_ALT_MATCH else TAGE_ALT_MATCH |> in
    mret (tagePred bi, bi)) Q s.
Proof.
  intros [[Hok Hsc0 Hbi Hsame Hix] Hh Ha] Hsc Hpos HQ.
  destruct (bk_hit _ _ _ Hbi) as [Hhr Hhi], (bk_alt _ _ _ Hbi) as [Har _].
  wp_step. apply (wp_mono _ (fun bi1 s1 => s1 = s /\ bi_ok p size bi1 /\ bi_same bi bi1 /\
    hitBank bi1 = hitBank bi /\ hitBankIndex bi1 = hitBankIndex bi /\ altBank bi1 = altBank bi /\
    bi_tableIndices bi1 = bi_tableIndices bi /\ bi_tableTags bi1 = bi_tableTags bi)).
  - destruct (Z.ltb_spec 0 (altBank bi)) as [Hpa|].
    + apply wp_assoc. wp_step. eapply wp_scratchEntry; [done|done|lia|by apply Ha|]. intros e He.
      eapply wp_mono; [apply vo_extraAlt; [done|by destruct Hbi|done]|].
      intros bi1 s1 (-> & H1 & H2 & H3 & H4 & H5 & H6 & H7). destruct H2. by split_and!; [..|constructor| | | | |].
    + wp_step. eapply wp_mono; [by apply vo_bimode|].
      intros r s1 (-> & H1 & H2 & H3 & H4 & H5 & H6 & H7). wp_steps.
      destruct H1, H2. by split_and!; [|constructor|constructor|..].
  - intros bi1 s1 (-> & Hbi1 & Hs1 & E1 & E2 & E3 & E4 & E5). apply wp_assoc. wp_step.
    eapply wp_scratchEntry; [done|done|lia|rewrite E1; by apply Hh|]. intros e He. wp_steps. cbn.
    eapply wp_entryAt; [done|lia|rewrite E1, E2; by apply Hhi|]. intros e' He'. wp_steps.
    set (bi2 := setf pseudoNewAlloc _ _).
    destruct (vat_lt (useAltPredForNewlyAllocated s) (v_getUseAltIdx bi2 pc)) as [ua Hua].
    { rewrite (to_na _ _ _ Hok). apply vo_useAlt. cbn. lia. }
    eapply wp_at_index; [exact Hua|]. wp_steps. apply HQ.
    2: { intros Hz. exfalso. destruct (_ || _); cbn in Hz; lia. }
    assert (Hres : forall b, bi_ok p size b -> bi_same bi1 b ->
      bi_tableIndices b = bi_tableIndices bi1 -> bi_tableTags b = bi_tableTags bi1 ->
      predicted_tage s0 bi0 b s).
    { intros b Hb1 Hb2 Hb3 Hb4. constructor; [done..| |rewrite Hb3, Hb4, E4, E5; done].
      etrans; [exact Hsame|]. by etrans. }
    destruct (_ || _); apply Hres; (by destruct Hbi1) || done || by constructor.
Qed.

Lemma wp_tagePredict s tid pc bi (Q : bool * BranchInfo -> TAGEBase -> Prop) :
  ok s -> 0 <= tid < tg_numThreads p -> bi_ok p size bi ->
  (forall b bi' s', predicted_tage s bi bi' s' -> no_hit bi' -> Q (b, bi') s') ->
  wp (TB.tagePredict p tid pc true bi) Q s.
Proof.
  intros Hok Ht Hbi HQ. unfold TB.tagePredict. cbn [negb]. wp_step.
  eapply wp_mono; [by apply vo_calc|]. intros bi1 s1 (Hok1 & Hso & Hsc & Hbi1 & Hix & Hs1).
  assert (Hn : 0 < nHistoryTables p) by (exact (hs_n _ (tc_sizes _ Hcfg))).
  set (bi2 := setf altBank _ _).
  assert (Hse : searching s bi s1 bi2).
  { constructor; [constructor; try done| |]; cbn.
    - destruct Hbi1. constructor; cbn; try assumption; [split; cbn; lia..|].
      intros l0 Hl0. by apply (vo_bindex (p := p) (size := size)).
    - etrans; [by apply bi_calc_same|]. by constructor.
    - lia.
    - lia. }
  wp_step. apply wp_firstMatch; [done|done|lia|]. intros hb Hhb Hns. wp_step.
  apply (wp_found s1 hb _ (fun ti bi => bi <| hitBank := hb |> <| hitBankIndex := ti |>));
    [done|lia|done| |].
  - intros _. cbn. wp_step. change (Z.to_nat (0 - 1)) with 0%nat. cbn [TB.firstMatch].
    apply wp_ret. wp_step. change (0 =? 0) with true. apply wp_ret.
    change (0 <? hitBank bi2) with false. cbn iota. wp_step.
    eapply wp_mono; [apply vo_bimode; [done|apply Hse]|].
    intros r s2 (-> & H1 & H2 & H3 & H4 & H5 & H6 & H7). wp_steps. apply HQ; [|done].
    destruct Hse as [[? ? ? Hsm ?] _ _]. constructor; [done|done|by destruct H1| |].
    + etrans; [exact Hsm|]. etrans; [exact H2|]. by constructor.
    + cbn. by rewrite H6, H7.
  - intros x Hpos Hx. set (bi3 := bi2 <| hitBank := hb |> <| hitBankIndex := x |>).
    assert (Eh : (0 <? hitBank bi3) = true) by (by apply Z.ltb_lt).
    wp_step. apply wp_firstMatch; [done|done|cbn; lia|]. cbn [bi3]. intros ab Hab Hnsa. wp_step.
    assert (Hse3 : searching s bi s1 bi3).
    { destruct Hse as [[? ? [] Hsm ?] ? ?]. constructor; [constructor; try done| |]; cbn.
      - constructor; cbn; try assumption. split; [lia|done].
      - etrans; [exact Hsm|]. by constructor.
      - done.
      - lia. }
    apply (wp_found s1 ab _ (fun ti bi => bi <| altBank := ab |> <| altBankIndex := ti |>));
      [done|cbn in Hab; lia|done| |].
    + intros ->. rewrite Eh.
      eapply wp_hit; [exact Hse3|done|done|]. intros b bi'. apply HQ.
    + intros y Hposa Hy. set (bi4 := bi3 <| altBank := ab |> <| altBankIndex := y |>).
      assert (Eh4 : (0 <? hitBank bi4) = true) by done. rewrite Eh4.
      eapply wp_hit; [|done|done|intros b bi'; apply HQ].
      destruct Hse3 as [[? ? [] Hsm ?] ? ?]. constructor; [constructor; try done| |]; cbn.
      * constructor; cbn; try assumption. split; [cbn in Hab; lia|done].
      * etrans; [exact Hsm|]. by constructor.
      * done.
      * done.
Qed.

(** ** Training *)
#[local] Abbreviation kept := (tables_kept p size).

Lemma tb_ok_useAlt s ix c :
  ok s -> sctr_ok (useAltOnNaBits p) c ->
  ok (s <| useAltPredForNewlyAllocated ::= TB.setCell ix c |>).
Proof.
  intros [] Hc. constructor; try assumption; cbn; unfold TB.setCell; [by rewrite length_insert|].
  by apply Forall_insert.
Qed.

Lemma wp_condBranchUpdate s tid pc taken bi nrand tgt pred pre (Q : unit -> TAGEBase -> Prop) :
  ok s -> bi_ok p size bi -> no_hit bi ->
  (tagePred bi <> taken -> vo_indexed (bi_tableIndices bi) (bi_tableTags bi)) ->
  (forall s', kept s s' -> Q tt s') ->
  wp (TB.condBranchUpdate p tid pc taken bi nrand tgt pred pre) Q s.
Proof.
  intros Hok Hbi Hno Hix HQ. unfold TB.condBranchUpdate.
  set (a0 := negb (eqb (tagePred bi) taken) && (hitBank bi <? nHistoryTables p)).
  assert (Ha0 : a0 = true -> hitBank bi < nHistoryTables p /\
    vo_indexed (bi_tableIndices bi) (bi_tableTags bi)).
  { unfold a0. intros [H1 H2]%andb_true_iff. apply Z.ltb_lt in H2. split; [done|]. apply Hix.
    intros E. rewrite E, eqb_reflx in H1. done. }
  assert (Hadj : forall (b : bool) a s1, kept s s1 -> (a = true -> a0 = true) ->
    wp (if b then v_adjustAlloc a taken pred else mret a)
       (fun a' s' => kept s s' /\ (a' = true -> a0 = true)) s1).
  { intros b a s1 K Ha. destruct b; [|by apply wp_ret].
    eapply wp_mono; [apply vo_adjust, K|]. intros a' s2 (H1 & H2 & H3).
    split; [by eapply tables_kept_trans|auto]. }
  wp_step. eapply wp_mono; [apply Hadj; [by split|done]|]. intros a1 s1 [K1 Ha1]. wp_step.
  apply (wp_mono _ (fun a' s' => kept s s' /\ (a' = true -> a0 = true))).
  - destruct ((0 <? hitBank bi) && pseudoNewAlloc bi) eqn:Eh; [|by apply wp_ret].
    apply andb_true_iff in Eh as [Hpos%Z.ltb_lt _]. wp_step.
    apply (wp_mono _ (fun _ s' => kept s s')).
    + apply wp_when; intros _; [|done]. wp_steps. destruct K1 as [Hok1 Eth].
      destruct (vat_lt (useAltPredForNewlyAllocated s1) (v_getUseAltIdx bi pc)) as [ua Hua].
      { rewrite (to_na _ _ _ Hok1). by apply vo_useAlt. }
      eapply wp_at_index; [exact Hua|]. wp_steps.
      apply wp_ctrUpdate; [apply Hcfg| |].
      { pose proof (to_nactr _ _ _ Hok1) as Hall. rewrite list.Forall_forall in Hall.
        by apply Hall, (vat_elem _ _ _ Hua). }
      intros c Hc. wp_steps. split; [by apply tb_ok_useAlt|done].
    + intros _ s2 K2. wp_steps. split; [done|]. by destruct (eqb (longestMatchPred bi) taken).
  - intros a2 s2 [K2 Ha2]. wp_step.
    replace (if pre then mret a2 else v_adjustAlloc a2 taken pred)
      with (if negb pre then v_adjustAlloc a2 taken pred else mret a2 : M TAGEBase bool)
      by (by destruct pre).
    eapply wp_mono; [by apply Hadj|]. intros a3 s3 [K3 Ha3]. wp_step.
    eapply wp_mono; [apply vo_alloc; [apply K3|done|auto]|]. intros [] s4 K4.
    assert (K4' : kept s s4) by (by eapply tables_kept_trans).
    eapply wp_mono; [apply vo_update; [apply K4'|done|done]|]. intros [] s5 K5.
    apply HQ. by eapply tables_kept_trans.
Qed.

(** ** Histories *)

(** The [BranchInfo] of a branch whose history update is in place; [ph] is the
    path history before it. *)
Record flying (ph : Z) (bi : BranchInfo) : Prop := {
  fl_ok : bi_ok p size bi;
  fl_mod : bi_modified bi = true;
  fl_path : bi_pathHist bi = Some ph;
  fl_indexed : bi_condBranch bi = true -> vo_indexed (bi_tableIndices bi) (bi_tableTags bi);
  fl_nohit : no_hit bi
}.

(** The history with the bits of a branch *)
Definition withBits (bi : BranchInfo) (hist : list Z) : list Z :=
  pushed (Z.to_nat (bi_nGhist bi)) (bi_ghist bi) hist.

Definition setThread (tid : ThreadID) (h : ThreadHistory) (s : TAGEBase) : TAGEBase :=
  s <| threadHistory ::= <[Z.to_nat tid := h]> |>.

(** [restoreHistState] takes the bits of the branch out of the history. *)
Lemma wp_restoreBits s tid bi ph h hist (Q : BranchInfo -> TAGEBase -> Prop) :
  vat (threadHistory s) tid = Some h -> bi_modified bi = true -> bi_pathHist bi = Some ph ->
  0 <= bi_nGhist bi -> th_repr hp (withBits bi hist) h -> bi_nGhist bi <= window hp h ->
  (forall bi' h', th_repr hp hist h' -> pathHist h' = ph ->
     nonSpecPathHist h' = nonSpecPathHist h -> window hp h' = window hp h - bi_nGhist bi ->
     (bi' = bi /\ bi_nGhist bi = 0 \/ bi' = bi <| bi_nGhist := 0 |> <| bi_modified := false |>) ->
     Q bi' (setThread tid h' s)) ->
  wp (TB.restoreHistState p tid bi) Q s.
Proof.
  intros Hh Hm Hph Hng Hr Hw HQ.
  unfold TB.restoreHistState. rewrite (tc_spec _ Hcfg), Hm. cbn [negb]. wp_step.
  eapply wp_assigned; [exact Hph|]. wp_step. eapply wp_onThread; [exact Hh|]. wp_steps.
  - apply Z.eqb_eq in H. unfold withBits in Hr. rewrite H in Hr.
    apply HQ; [by apply th_repr_path|done|done|unfold window; cbn; lia|by left].
  - set (h1 := h <| pathHist := ph |>).
    eapply wp_onThread; [by eapply (vat_insert_eq _ _ h1)|].
    destruct (pushed_app (Z.to_nat (bi_nGhist bi)) (bi_ghist bi) hist) as (l & El & Hl).
    unfold withBits in Hr. rewrite El in Hr. rewrite <- Hl.
    eapply (wp_shiftOutBits hp (tc_sizes _ Hcfg)); [by apply th_repr_path|change (window hp h1) with (window hp h); lia|].
    intros h2 Hr2 Hw2 [Hp2 Hn2]. wp_steps. rewrite set_thread_twice.
    apply HQ; [done|by rewrite Hp2|by rewrite Hn2| |by right].
    rewrite Hw2. change (window hp h1) with (window hp h). lia.
Qed.

Lemma wp_restoreHistState s tid bi ph h hist (Q : BranchInfo -> TAGEBase -> Prop) :
  vat (threadHistory s) tid = Some h -> flying ph bi ->
  th_repr hp (withBits bi hist) h -> bi_nGhist bi <= window hp h ->
  (forall bi' h', th_repr hp hist h' -> pathHist h' = ph ->
     nonSpecPathHist h' = nonSpecPathHist h -> window hp h' = window hp h - bi_nGhist bi ->
     (bi' = bi /\ bi_nGhist bi = 0 \/ bi' = bi <| bi_nGhist := 0 |> <| bi_modified := false |>) ->
     Q bi' (setThread tid h' s)) ->
  wp (TB.restoreHistState p tid bi) Q s.
Proof.
  intros Hh [Hbi Hm Hph _ _]. apply wp_restoreBits; [done..|]. apply (bk_ng _ _ _ Hbi).
Qed.

(** What a speculative history update leaves: [bi'] flies, its bits are the last
    of the history, the window has grown by them. *)
Record updated (s : TAGEBase) (tid : ThreadID) (hist : list Z) (ph w : Z) (ns : Z)
    (bi' : BranchInfo) (s' : TAGEBase) : Prop := {
  up_flying : flying ph bi';
  up_rest : exists h' s1, s' = setThread tid h' s1 /\ scratch_only s s1 /\
    th_repr hp (withBits bi' hist) h' /\ nonSpecPathHist h' = ns /\
    bi_nGhist bi' + Z.min w (rollbackBuffer - 1) <= window hp h';
  up_ok : ok s'
}.

(** The common end of [updateHistories]: the history is [hist], the branch has no
    bits in it. *)
Lemma wp_applyUpdate s tid pc taken tgt i bi ph h hist (Q : BranchInfo -> TAGEBase -> Prop) :
  ok s -> 0 <= tid < tg_numThreads p -> vat (threadHistory s) tid = Some h ->
  th_repr hp hist h -> bi_ok p size bi -> no_hit bi -> bi_pathHist bi = Some ph ->
  bi_nGhist bi = 0 ->
  (bi_valid bi = true -> bi_condBranch bi = true ->
     vo_indexed (bi_tableIndices bi) (bi_tableTags bi)) ->
  (forall bi' s', updated s tid hist ph (window hp h) (nonSpecPathHist h) bi' s' ->
     bi_condBranch bi' = bi_condBranch bi -> bi_branchPC bi' = bi_branchPC bi -> Q bi' s') ->
  wp (bi ← (if negb (bi_valid bi) && bi_condBranch bi then v_calculateIndicesAndTags tid pc bi
            else mret bi);
      massert (bi_nGhist bi =? 0) ;;
      bi ← v_updatePathAndGlobalHistory tid (v_branchTypeExtra i) taken pc tgt bi;
      mret (bi <| bi_modified := true |>)) Q s.
Proof.
  intros Hok Ht Hh Hr Hbi Hno Hph Hng Hix HQ. wp_step.
  apply (wp_mono _ (fun bi1 s1 => ok s1 /\ scratch_only s s1 /\ bi_ok p size bi1 /\ bi_calc bi bi1 /\
    (bi_condBranch bi = true -> vo_indexed (bi_tableIndices bi1) (bi_tableTags bi1)))).
  - destruct (negb (bi_valid bi) && bi_condBranch bi) eqn:E.
    + eapply wp_mono; [by apply vo_calc|]. by intros bi1 s1 (? & ? & ? & ? & ? & ?).
    + apply wp_ret. split_and!; [done..|]. intros Hc. apply Hix; [|done].
      rewrite Hc, andb_true_r in E. by apply negb_false_iff in E.
  - intros bi1 s1 (Hok1 & Hso & Hbi1 & Hcalc & Hix1). wp_step.
    pose proof (bi_calc_same _ _ Hcalc) as [Epc Ec Ep En Em].
    assert (Hno1 : no_hit bi1) by (by rewrite Hcalc).
    apply wp_massert; [apply Z.eqb_eq; congruence|]. wp_step.
    assert (Hh1 : vat (threadHistory s1) tid = Some h)
      by (by rewrite (scratch_only_threads _ _ Hso)).
    eapply wp_mono; [eapply vo_history; [done|lia|exact Hh1|exact Hr|done|congruence]|].
    intros bi2 s2 (h2 & -> & Hr2 & Ebi & Hng2 & Hw & Hns). wp_steps.
    assert (Hp2 : bi_pathHist bi2 = Some ph) by (rewrite Ebi; cbn; congruence).
    assert (Hc2 : bi_condBranch bi2 = bi_condBranch bi1) by (by rewrite Ebi).
    assert (Hpc2 : bi_branchPC bi2 = bi_branchPC bi1) by (by rewrite Ebi).
    apply HQ; [|cbn; congruence|cbn; congruence].
    constructor.
    + constructor; cbn; [|done|done| |by rewrite Ebi].
      * destruct Hbi1. rewrite Ebi. constructor; cbn; try assumption.
      * intros Hc. rewrite Ebi. cbn. apply Hix1. congruence.
    + exists h2, s1. done.
    + by eapply tb_ok_thread.
Qed.

(** A branch that has not touched the history *)
Record grounded (bi : BranchInfo) : Prop := {
  gr_ok : bi_ok p size bi;
  gr_mod : bi_modified bi = false;
  gr_ng : bi_nGhist bi = 0;
  gr_indexed : bi_valid bi = true -> bi_condBranch bi = true ->
    vo_indexed (bi_tableIndices bi) (bi_tableTags bi);
  gr_nohit : no_hit bi
}.

Lemma wp_updateHistories_first s tid pc taken tgt i bi h hist (Q : BranchInfo -> TAGEBase -> Prop) :
  ok s -> 0 <= tid < tg_numThreads p -> vat (threadHistory s) tid = Some h ->
  th_repr hp hist h -> grounded bi ->
  (forall bi' s', updated s tid hist (pathHist h) (window hp h) (nonSpecPathHist h) bi' s' ->
     bi_condBranch bi' = bi_condBranch bi -> bi_branchPC bi' = bi_branchPC bi -> Q bi' s') ->
  wp (TB.updateHistories p tid pc true taken tgt i bi) Q s.
Proof.
  intros Hok Ht Hh Hr [Hbi Hm Hn Hix Hno] HQ. unfold TB.updateHistories.
  rewrite (tc_spec _ Hcfg), Hm. cbn [eqb negb andb]. wp_step. unfold TB.recordHistState. wp_step.
  unfold TB.thread. wp_steps. eapply wp_at_index; [exact Hh|]. wp_step.
  set (bi1 := setf bi_ct1 _ _). replace (bi_modified bi1) with false by (by rewrite <- Hm).
  wp_step. wp_step. eapply (wp_applyUpdate s tid pc taken tgt i bi1); [done..|by destruct Hbi|done|done|done|done|].
  exact HQ.
Qed.

Lemma wp_updateHistories_again s tid pc taken tgt i bi ph h hist (Q : BranchInfo -> TAGEBase -> Prop) :
  ok s -> 0 <= tid < tg_numThreads p -> vat (threadHistory s) tid = Some h -> flying ph bi ->
  th_repr hp (withBits bi hist) h -> bi_nGhist bi <= window hp h ->
  (forall bi' s', updated s tid hist ph (window hp h - bi_nGhist bi) (nonSpecPathHist h) bi' s' ->
     bi_condBranch bi' = bi_condBranch bi -> bi_branchPC bi' = bi_branchPC bi -> Q bi' s') ->
  wp (TB.updateHistories p tid pc true taken tgt i bi) Q s.
Proof.
  intros Hok Ht Hh Hfl Hr Hw HQ. unfold TB.updateHistories.
  rewrite (tc_spec _ Hcfg), (fl_mod _ _ Hfl). cbn [eqb negb andb]. wp_step. wp_step.
  rewrite (fl_mod _ _ Hfl). wp_step. eapply wp_restoreHistState; [done..|].
  intros bi1 h1 Hr1 Hp1 Hns1 Hw1 Hbi1.
  assert (Hcases : bi_ok p size bi1 /\ no_hit bi1 /\ bi_pathHist bi1 = Some ph /\ bi_nGhist bi1 = 0 /\
    (bi_condBranch bi1 = true -> vo_indexed (bi_tableIndices bi1) (bi_tableTags bi1)) /\
    bi_condBranch bi1 = bi_condBranch bi /\ bi_branchPC bi1 = bi_branchPC bi).
  { destruct Hfl as [Hbi _ Hph Hix Hno]. destruct Hbi1 as [[-> Hz]| ->]; [done|]. split_and!; try done.
    destruct Hbi. constructor; try assumption. cbn. lia. }
  destruct Hcases as (Hb1 & Hno1 & Hp & Hn & Hix & Hc & Hpc).
  eapply (wp_applyUpdate (setThread tid h1 s) tid pc taken tgt i bi1 ph h1 hist);
    [by eapply tb_ok_thread|done|by eapply vat_insert_eq|done..|intros _; exact Hix|].
  intros bi2 s2 [Hfl2 (h2 & s3 & -> & Hso & Hrest) Hok2] Hc2 Hpc2.
  apply HQ; [|congruence|congruence]. rewrite Hw1, Hns1 in Hrest. constructor; [done| |done].
  assert (Hs3 : setThread tid h2 s3 = setThread tid h2 (s <| tableIndices := tableIndices s3 |>
    <| tableTags := tableTags s3 |>)).
  { rewrite Hso. unfold setThread. destruct s. unfold setf. cbn. by rewrite list_insert_insert_eq. }
  rewrite Hs3. eexists h2, _. split; [reflexivity|]. split; [by destruct s|done].
Qed.

(** The update at commit only records the path. *)
Lemma wp_updateHistories_commit s tid pc taken tgt i bi ph h hist (Q : BranchInfo -> TAGEBase -> Prop) :
  vat (threadHistory s) tid = Some h -> th_repr hp hist h -> bi_pathHist bi = Some ph ->
  (forall h', th_repr hp hist h' -> window hp h' = window hp h -> pathHist h' = pathHist h ->
     Q bi (setThread tid h' s)) ->
  wp (TB.updateHistories p tid pc false taken tgt i bi) Q s.
Proof.
  intros Hh Hr Hp HQ. unfold TB.updateHistories. rewrite (tc_spec _ Hcfg). cbn [eqb negb].
  wp_steps. eapply wp_assigned; [exact Hp|]. eapply wp_onThread; [exact Hh|]. wp_steps.
  apply HQ; [by apply th_repr_nonSpec|done|done].
Qed.

(** ** Branches in flight *)

(** A placeholder: a branch that the front end had not detected.  It has not
    touched the history, and its path history is indeterminate. *)
Definition parked (bi : BranchInfo) : Prop := grounded bi /\ bi_pathHist bi = None.

Definition in_flight (bi : BranchInfo) : Prop := (exists ph, flying ph bi) \/ parked bi.

Lemma in_flight_flying bi : in_flight bi -> is_Some (bi_pathHist bi) -> exists ph, flying ph bi.
Proof. intros [?|[_ E]] Hs; [done|]. rewrite E in Hs. by destruct Hs. Qed.

Lemma in_flight_ng bi : in_flight bi -> 0 <= bi_nGhist bi <= 3.
Proof. intros [[ph Hf]|[Hg _]]; [apply Hf|apply Hg]. Qed.

Lemma parked_bits bi hist : parked bi -> withBits bi hist = hist.
Proof. intros [[_ _ Hn _ _] _]. unfold withBits. by rewrite Hn. Qed.

(** The branches of a thread in flight, the youngest first: [hist] is the history
    with their bits, [base] the one before them. *)
Fixpoint flights (bis : list BranchInfo) (hist base : list Z) : Prop :=
  match bis with
  | [] => hist = base
  | bi :: bis' => exists hist', in_flight bi /\ hist = withBits bi hist' /\ flights bis' hist' base
  end.

Definition bitsOf (bis : list BranchInfo) : Z := foldr (fun bi acc => bi_nGhist bi + acc) 0 bis.

Lemma bitsOf_bounds bis hist base :
  flights bis hist base -> 0 <= bitsOf bis <= 3 * Z.of_nat (length bis).
Proof.
  revert hist. induction bis as [|b bis IH]; intros hist H; cbn [bitsOf foldr length]; [lia|].
  destruct H as (hist' & Hf & _ & Hr). specialize (IH _ Hr).
  pose proof (in_flight_ng _ Hf). unfold bitsOf in *. lia.
Qed.

(** The oldest branch leaves; its bits become part of the base. *)
Lemma flights_snoc bis b hist base :
  flights (bis ++ [b]) hist base -> in_flight b /\ flights bis hist (withBits b base).
Proof.
  revert hist. induction bis as [|b' bis IH]; intros hist H; cbn [app flights] in *.
  - destruct H as (hist' & Hf & -> & ->). done.
  - destruct H as (hist' & Hf & -> & Hr). destruct (IH _ Hr) as (? & ?). split; [done|]. by exists hist'.
Qed.

(** A placeholder may enter behind younger branches. *)
Lemma flights_park l1 l2 b hist base :
  parked b -> flights (l1 ++ l2) hist base -> flights (l1 ++ b :: l2) hist base.
Proof.
  intros Hb. revert hist. induction l1 as [|b' l1 IH]; intros hist H; cbn [app flights] in *.
  - exists hist. split; [by right|]. by rewrite parked_bits.
  - destruct H as (hist' & Hf & -> & Hr). exists hist'. split; [done|]. split; [done|]. by apply IH.
Qed.

Lemma bitsOf_app l1 l2 : bitsOf (l1 ++ l2) = bitsOf l1 + bitsOf l2.
Proof. induction l1 as [|b l1 IH]; cbn in *; [done|]. unfold bitsOf in *. lia. Qed.
End Safe.
