(* ===== verification/TageRun.v ===== *)
(** * TAGE: reachable states

    The operations [BPredUnit] performs on a TAGE predictor (speculation, the
    placeholder of an undetected branch, squash, correction and commit), the
    branches in flight, and the invariant of the states they reach.  [tr_base] is the committed history of each thread. *)

From Stdlib Require Import ZArith Lia.
From stdpp Require Import base list numbers.
From S2P Require Import Prelude Types CondPred TageHist Tage TageInv TageSafe.

Record TageRun := mkTageRun {
  tr_tage : TAGE;
  tr_flights : list (list BranchInfo);
  tr_base : list (list Z)
}.

Inductive TageOp :=
| TSpeculate (tid : ThreadID) (b : SpecBranch)
| TPlaceholder (tid : ThreadID) (younger : nat) (pc : Addr) (uncond : bool)
| TSquash (tid : ThreadID)
| TCorrect (tid : ThreadID) (taken : bool) (target : Addr) (inst : StaticInst)
| TCommit (tid : ThreadID) (taken : bool) (target : Addr) (inst : StaticInst).

Definition opThread (op : TageOp) : ThreadID :=
  match op with
  | TSpeculate tid _ | TPlaceholder tid _ _ _ | TSquash tid | TCorrect tid _ _ _ | TCommit tid _ _ _ => tid
  end.

Section Runs.
Context (p : TageParams) {V : TageVirtual}.

Definition flightsAt (tid : ThreadID) (r : TageRun) : list BranchInfo :=
  default [] (vat (tr_flights r) tid).

Definition baseAt (tid : ThreadID) (r : TageRun) : list Z := default [] (vat (tr_base r) tid).

(** The history of a thread: the bits of the branches in flight in front of the
    committed ones *)
Definition historyOf (tid : ThreadID) (r : TageRun) : list Z :=
  foldr withBits (baseAt tid r) (flightsAt tid r).

Definition finish {A} (r : TageRun) (m : Res (A * TAGE)) (f : A -> Res TageRun) : Res TageRun :=
  x ← m; r' ← f (fst x); Ok (mkTageRun (snd x) (tr_flights r') (tr_base r')).

Definition withFlights (tid : ThreadID) (fl : list BranchInfo) (r : TageRun) : TageRun :=
  mkTageRun (tr_tage r) (<[Z.to_nat tid := fl]> (tr_flights r)) (tr_base r).

(** The placeholder of a branch that is detected late is behind the branches that
    were predicted after it. *)
Definition tage_step (op : TageOp) (r : TageRun) : Res TageRun :=
  let fl := flightsAt (opThread op) r in
  match op with
  | TSpeculate tid b =>
      finish r (@speculate _ _ (Tage.TAGE_cp p) tid b (tr_tage r)) (fun h =>
        match h with
        | Some bi => Ok (withFlights tid (bi :: fl) r)
        | None => Err NullDeref
        end)
  | TPlaceholder tid younger pc uncond =>
      finish r (Tage.branchPlaceholder p tid pc uncond None (tr_tage r)) (fun h =>
        match h with
        | Some bi => Ok (withFlights tid (take younger fl ++ bi :: drop younger fl) r)
        | None => Err NullDeref
        end)
  | TSquash tid =>
      finish r (Tage.squash p tid (head fl) (tr_tage r)) (fun _ => Ok (withFlights tid (tail fl) r))
  | TCorrect tid taken target inst =>
      finish r (Tage.update p tid (default 0 (bi_branchPC <$> head fl)) taken (head fl) true inst
                  target (tr_tage r)) (fun h =>
        match h with
        | Some bi => Ok (withFlights tid (bi :: tail fl) r)
        | None => Err NullDeref
        end)
  | TCommit tid taken target inst =>
      finish r (Tage.update p tid (default 0 (bi_branchPC <$> list.last fl)) taken (list.last fl) false inst
                  target (tr_tage r)) (fun _ =>
        Ok (mkTageRun (tr_tage r) (<[Z.to_nat tid := removelast fl]> (tr_flights r))
              (<[Z.to_nat tid := match list.last fl with
                                 | Some bi => withBits bi (baseAt tid r)
                                 | None => baseAt tid r
                                 end]> (tr_base r))))
  end.

(** The window of the history buffer holds the bits of 666 branches.  A
    placeholder can be committed once it was corrected: before that its path
    history is indeterminate. *)
Definition tage_enabled (op : TageOp) (r : TageRun) : bool :=
  let fl := flightsAt (opThread op) r in
  (0 <=? opThread op) && (opThread op <? tg_numThreads p) &&
  match op with
  | TSpeculate _ _ | TPlaceholder _ _ _ _ => 3 * (Z.of_nat (length fl) + 1) <? rollbackBuffer
  | TCommit _ _ _ _ =>
      match list.last fl with Some bi => bool_decide (is_Some (bi_pathHist bi)) | None => false end
  | _ => match fl with [] => false | _ => true end
  end.

Definition startRun (t : TAGE) : TageRun :=
  mkTageRun t (replicate (Z.to_nat (tg_numThreads p)) []) (replicate (Z.to_nat (tg_numThreads p)) []).

Inductive tage_reach (t0 : TAGE) : TageRun -> Prop :=
| tage_start : tage_reach t0 (startRun t0)
| tage_next r op r' :
    tage_reach t0 r -> tage_enabled op r = true -> tage_step op r = Ok r' -> tage_reach t0 r'.
End Runs.

Section Inv.
Context (p : TageParams) (size : Z -> Z) (Hcfg : tage_cfg p) {V : TageVirtual}
  {VO : VirtualOk p size}.
#[local] Abbreviation hp := (histParams p).

(** A thread with its branches in flight *)
Record thread_ok (h : ThreadHistory) (fl : list BranchInfo) (base : list Z) : Prop := {
  tk_hist : th_repr hp (foldr withBits base fl) h;
  tk_flights : flights p size fl (foldr withBits base fl) base;
  tk_window : bitsOf fl <= window hp h;
  tk_len : 3 * Z.of_nat (length fl) < rollbackBuffer
}.

Record run_ok (r : TageRun) : Prop := {
  rk_tables : tb_ok p size (tage (tr_tage r));
  rk_flen : Z.of_nat (length (tr_flights r)) = tg_numThreads p;
  rk_blen : Z.of_nat (length (tr_base r)) = tg_numThreads p;
  rk_threads : forall tid h, 0 <= tid < tg_numThreads p ->
    vat (threadHistory (tage (tr_tage r))) tid = Some h ->
    thread_ok h (flightsAt tid r) (baseAt tid r)
}.

Lemma flights_foldr fl : forall hist base,
  flights p size fl hist base -> hist = foldr withBits base fl.
Proof.
  induction fl as [|bi fl IH]; intros hist base; cbn; [done|].
  intros (hist' & _ & -> & H). by rewrite (IH _ _ H).
Qed.

(** A step changes one thread. *)
Lemma run_ok_step r tid t' h' fl' base' :
  run_ok r -> 0 <= tid < tg_numThreads p -> tb_ok p size (tage t') ->
  threadHistory (tage t') = <[Z.to_nat tid := h']> (threadHistory (tage (tr_tage r))) ->
  thread_ok h' fl' base' ->
  run_ok (mkTageRun t' (<[Z.to_nat tid := fl']> (tr_flights r)) (<[Z.to_nat tid := base']> (tr_base r))).
Proof.
  intros [Hok Hfl Hbl Hth] Ht Hok' Eth Hk. constructor; cbn; rewrite ?length_insert; [done..|].
  intros tid' h Ht' Hh. rewrite Eth in Hh. unfold flightsAt, baseAt, vat in *. cbn in *.
  destruct (Z.leb_spec 0 tid'); [|lia].
  pose proof (to_threads _ _ _ Hok) as Hlen.
  destruct (Z.eq_dec tid' tid) as [->|].
  - rewrite list_lookup_insert_eq in Hh by lia. injection Hh as <-.
    rewrite !list_lookup_insert_eq by lia. done.
  - rewrite list_lookup_insert_ne in Hh by lia. rewrite !list_lookup_insert_ne by lia.
    specialize (Hth tid' h). destruct (Z.leb_spec 0 tid'); [|lia]. by apply Hth.
Qed.

Lemma run_thread r tid :
  run_ok r -> 0 <= tid < tg_numThreads p ->
  exists h, vat (threadHistory (tage (tr_tage r))) tid = Some h /\
    thread_ok h (flightsAt tid r) (baseAt tid r).
Proof.
  intros Hr Ht. destruct (vat_lt (threadHistory (tage (tr_tage r))) tid) as [h Hh].
  { rewrite (to_threads _ _ _ (rk_tables _ Hr)). lia. }
  exists h. split; [done|]. by apply (rk_threads _ Hr).
Qed.

(** ** The operations of [TAGE] *)

Lemma make_grounded pc c : grounded p size (TB.makeBranchInfo p pc c).
Proof.
  assert (Hn : 0 < nHistoryTables p) by (exact (hs_n _ (tc_sizes _ Hcfg))).
  destruct (tc_log0 _ Hcfg) as (l0 & Hl0 & Hr0).
  constructor; cbn; [|done..]. constructor; cbn; rewrite ?length_replicate; try lia.
  - split; cbn; lia.
  - split; cbn; lia.
  - intros l Hl. change (vat (logTagTableSizes p) 0 = Some l) in Hl. simplify_eq.
    split; [done|]. apply Z.pow_pos_nonneg; lia.
Qed.

Lemma wp_tage_predict t tid pc c (Q : Prediction * option BranchInfo -> TAGE -> Prop) :
  tb_ok p size (tage t) -> 0 <= tid < tg_numThreads p ->
  (forall pr bi s', tb_ok p size s' -> scratch_only (tage t) s' -> grounded p size bi ->
     bi_condBranch bi = c -> Q (pr, Some bi) (t <| tage := s' |>)) ->
  wp (Tage.predict p tid pc c) Q t.
Proof.
  intros Hok Ht HQ. unfold Tage.predict, Tage.staticPrediction. wp_steps.
  pose proof (make_grounded pc c) as [Hbi Hm Hn _ _]. destruct c.
  - eapply wp_tagePredict; [done..|]. intros b bi0 s' [H1 H2 H3 [Hpc Hc Hp Hng Hmd] H5] Hno. wp_steps.
    apply (HQ _ bi0); [done|done| |done]. constructor; [done| congruence|congruence |done|done].
  - unfold TB.tagePredict. cbn [negb]. wp_step. apply wp_massert; [apply Z.eqb_refl|]. wp_steps.
    apply HQ; [done|done|apply make_grounded|done].
Qed.

Lemma updated_thread s s' tid hist ph w ns bi' fl base h :
  updated p size s tid hist ph w ns bi' s' -> 0 <= tid ->
  vat (threadHistory s) tid = Some h -> hist = foldr withBits base fl ->
  flights p size fl hist base -> bitsOf fl <= w -> 3 * (Z.of_nat (length fl) + 1) < rollbackBuffer ->
  exists h', threadHistory s' = <[Z.to_nat tid := h']> (threadHistory s) /\
    thread_ok h' (bi' :: fl) base.
Proof.
  intros [Hfl (h' & s1 & -> & Hso & Hr & _ & Hw) Hok] Ht Hh -> Hfs Hbits Hlen. exists h'.
  split; [unfold setThread; cbn; by rewrite (scratch_only_threads _ _ Hso)|].
  pose proof (bitsOf_bounds p size fl _ _ Hfs). constructor; cbn [foldr length].
  - done.
  - exists (foldr withBits base fl). split; [|done]. left. by exists ph.
  - cbn [bitsOf foldr]. fold (bitsOf fl). lia.
  - lia.
Qed.

Lemma updated_scratch s0 s s' tid hist ph w ns bi' :
  scratch_only s0 s -> updated p size s tid hist ph w ns bi' s' ->
  updated p size s0 tid hist ph w ns bi' s'.
Proof.
  intros Hso [H1 (h' & s1 & E & Hs & H2) H3]. constructor; [done| |done]. exists h', s1.
  split; [done|]. split; [by etrans|done].
Qed.

Lemma wp_speculate t tid b h hist (Q : option BranchInfo -> TAGE -> Prop) :
  tb_ok p size (tage t) -> 0 <= tid < tg_numThreads p ->
  vat (threadHistory (tage t)) tid = Some h -> th_repr hp hist h ->
  (forall bi s', updated p size (tage t) tid hist (pathHist h) (window hp h) (nonSpecPathHist h) bi s' ->
     Q (Some bi) (t <| tage := s' |>)) ->
  wp (@speculate _ _ (Tage.TAGE_cp p) tid b) Q t.
Proof.
  intros Hok Ht Hh Hr HQ. unfold speculate. cbn [cp_lookup cp_updateHistories Tage.TAGE_cp].
  assert (Hupd : forall bi s1, tb_ok p size s1 -> scratch_only (tage t) s1 -> grounded p size bi ->
    wp (bi ← deref (Some bi);
        bi ← zoom tage (TB.updateHistories p tid (sb_pc b) true (sb_taken b) (sb_target b)
               (sb_inst b) bi);
        mret (Some bi)) Q (t <| tage := s1 |>)).
  { intros bi s1 Hok1 Hso Hg. wp_step. eapply wp_deref; [done|]. wp_step. wp_step.
    eapply (wp_updateHistories_first p size Hcfg s1);
      [done|done|by rewrite (scratch_only_threads _ _ Hso)|done|done|].
    intros bi' s' Hup _ _. wp_step. apply HQ. by eapply updated_scratch. }
  wp_step. unfold Tage.updateHistories. destruct (sb_uncond b).
  - apply wp_ret. wp_step. wp_step. apply wp_massert; [done|]. wp_step.
    apply wp_tage_predict; [done..|]. intros pr bi s1 H1 H2 H3 _. wp_step. by apply Hupd.
  - wp_step. unfold Tage.lookup. apply wp_tage_predict; [done..|]. intros pr bi s1 H1 H2 H3 _. wp_step.
    cbn [snd]. wp_step. wp_step. by apply Hupd.
Qed.

Lemma wp_tage_squash t tid bi ph h hist (Q : option BranchInfo -> TAGE -> Prop) :
  tb_ok p size (tage t) -> vat (threadHistory (tage t)) tid = Some h -> flying p size ph bi ->
  th_repr hp (withBits bi hist) h -> bi_nGhist bi <= window hp h ->
  (forall h', th_repr hp hist h' -> pathHist h' = ph -> nonSpecPathHist h' = nonSpecPathHist h ->
     window hp h' = window hp h - bi_nGhist bi ->
     Q None (t <| tage := setThread tid h' (tage t) |>)) ->
  wp (Tage.squash p tid (Some bi)) Q t.
Proof.
  intros Hok Hh Hf Hr Hw HQ. unfold Tage.squash. wp_step. eapply wp_deref; [done|]. wp_step. wp_step.
  eapply wp_restoreHistState; [done..|]. intros bi' h' H1 H2 H3 H4 _. wp_step. by apply HQ.
Qed.

Lemma wp_tage_correct t tid pc taken tgt i bi ph h hist (Q : option BranchInfo -> TAGE -> Prop) :
  tb_ok p size (tage t) -> 0 <= tid < tg_numThreads p ->
  vat (threadHistory (tage t)) tid = Some h -> flying p size ph bi ->
  th_repr hp (withBits bi hist) h -> bi_nGhist bi <= window hp h ->
  (forall bi' s', updated p size (tage t) tid hist ph (window hp h - bi_nGhist bi) (nonSpecPathHist h)
                    bi' s' -> Q (Some bi') (t <| tage := s' |>)) ->
  wp (Tage.update p tid pc taken (Some bi) true i tgt) Q t.
Proof.
  intros Hok Ht Hh Hf Hr Hw HQ. unfold Tage.update. wp_step. apply wp_massert; [done|]. wp_step.
  eapply wp_deref; [done|]. wp_step. unfold TB.squash. wp_step.
  eapply wp_updateHistories_again; [done..|]. intros bi' s' Hup _ _. wp_step. by apply HQ.
Qed.

Lemma set_thread_same (t : TAGE) tid h :
  0 <= tid -> vat (threadHistory (tage t)) tid = Some h -> t <| tage := setThread tid h (tage t) |> = t.
Proof.
  intros Ht Hh. rewrite vat_nat in Hh by done. destruct t as [[] ? ? ?]. unfold setThread, setf. cbn in *.
  by rewrite list_insert_id.
Qed.

(** A branch in flight is squashed: its bits leave the history.  A placeholder
    has none. *)
Lemma wp_squash_any t tid bi h hist (Q : option BranchInfo -> TAGE -> Prop) :
  tb_ok p size (tage t) -> 0 <= tid -> vat (threadHistory (tage t)) tid = Some h -> in_flight p size bi ->
  th_repr hp (withBits bi hist) h -> bi_nGhist bi <= window hp h ->
  (forall h', th_repr hp hist h' -> nonSpecPathHist h' = nonSpecPathHist h ->
     window hp h' = window hp h - bi_nGhist bi ->
     Q None (t <| tage := setThread tid h' (tage t) |>)) ->
  wp (Tage.squash p tid (Some bi)) Q t.
Proof.
  intros Hok Ht Hh [[ph Hf]|Hp] Hr Hw HQ.
  - eapply wp_tage_squash; [done..|]. intros h' H1 _ H2 H3. by apply HQ.
  - pose proof (parked_bits _ _ _ hist Hp) as Eb. rewrite Eb in Hr. destruct Hp as [[_ Hm Hn _ _] _].
    unfold Tage.squash. wp_step. eapply wp_deref; [done|]. wp_step. wp_step.
    unfold TB.restoreHistState. rewrite Hm. cbn [negb]. apply wp_if; intros _; wp_step; wp_step.
    all: rewrite <- (set_thread_same t tid h) by done.
    all: replace (t <| tage := _ |>) with (t <| tage := setThread tid h (tage t) |>)
      by (by rewrite !(set_thread_same t tid h)). 
    all: apply HQ; [done|done|lia].
Qed.

Lemma wp_correct_any t tid pc taken tgt i bi h hist (Q : option BranchInfo -> TAGE -> Prop) :
  tb_ok p size (tage t) -> 0 <= tid < tg_numThreads p ->
  vat (threadHistory (tage t)) tid = Some h -> in_flight p size bi ->
  th_repr hp (withBits bi hist) h -> bi_nGhist bi <= window hp h ->
  (forall ph bi' s', updated p size (tage t) tid hist ph (window hp h - bi_nGhist bi) (nonSpecPathHist h)
                    bi' s' -> Q (Some bi') (t <| tage := s' |>)) ->
  wp (Tage.update p tid pc taken (Some bi) true i tgt) Q t.
Proof.
  intros Hok Ht Hh [[ph Hf]|Hp] Hr Hw HQ.
  - eapply wp_tage_correct; [done..|]. intros bi' s'. apply HQ.
  - rewrite (parked_bits _ _ _ hist Hp) in Hr. destruct Hp as [Hg _].
    unfold Tage.update. wp_step. apply wp_massert; [done|]. wp_step.
    eapply wp_deref; [done|]. wp_step. unfold TB.squash. wp_step.
    eapply wp_updateHistories_first; [done..|]. intros bi' s' Hup _ _. wp_step. apply (HQ (pathHist h)).
    by rewrite (gr_ng _ _ _ Hg), Z.sub_0_r.
Qed.

Lemma wp_updateStats s taken bi (Q : unit -> TAGEBase -> Prop) :
  (forall l, Q tt (s <| tb_stats := l |>)) -> wp (TB.updateStats taken bi) Q s.
Proof. intros HQ. unfold TB.updateStats, TB.stat. destruct (eqb _ _); wp_steps; apply HQ. Qed.

Lemma wp_random t (Q : Z -> TAGE -> Prop) :
  (forall r, Q r (t <| tage_randPos ::= S |>)) -> wp Tage.random Q t.
Proof. intros HQ. unfold Tage.random. wp_steps. apply HQ. Qed.

(** The commit of a branch: the tables change, the history stays. *)
Lemma wp_tage_commit t tid pc taken tgt i bi ph h hist (Q : option BranchInfo -> TAGE -> Prop) :
  tb_ok p size (tage t) -> vat (threadHistory (tage t)) tid = Some h -> flying p size ph bi ->
  th_repr hp hist h ->
  (forall t' h', tb_ok p size (tage t') -> th_repr hp hist h' -> window hp h' = window hp h ->
     threadHistory (tage t') = <[Z.to_nat tid := h']> (threadHistory (tage t)) -> Q None t') ->
  wp (Tage.update p tid pc taken (Some bi) false i tgt) Q t.
Proof.
  intros Hok Hh [Hbi _ Hph Hix Hno] Hr HQ. unfold Tage.update. wp_step.
  apply wp_massert; [done|]. wp_step. eapply wp_deref; [done|]. wp_step. apply wp_random.
  intros r. wp_step. set (t1 := setf tage_randPos _ t).
  apply (wp_mono _ (fun _ t' => tables_kept p size (tage t) (tage t'))).
  - apply wp_when; intros Hc; [|by split]. wp_steps. apply wp_updateStats. intros l. wp_step.
    set (s1 := _ <| tb_stats := l |>).
    assert (Hok1 : tb_ok p size s1) by (by destruct Hok).
    eapply (wp_condBranchUpdate p size Hcfg s1); [done|done|done|by intros _; apply Hix|].
    intros s2 K2. exact K2.
  - intros _ t2 [Hok2 Eth]. wp_step. wp_step.
    eapply (wp_updateHistories_commit p Hcfg); [by rewrite Eth|done|done|].
    intros h' Hr' Hw' _. wp_step. eapply (HQ _ h'); [by eapply tb_ok_thread|done|done|].
    cbn. by rewrite Eth.
Qed.

(** ** Every enabled step succeeds and keeps the invariant *)

Lemma finish_ok {A} r (m : M TAGE A) (f : A -> Res TageRun) (P : TageRun -> Prop) :
  wp m (fun a t' => exists r', f a = Ok r' /\ P (mkTageRun t' (tr_flights r') (tr_base r'))) (tr_tage r) ->
  exists r', finish r (m (tr_tage r)) f = Ok r' /\ P r'.
Proof.
  unfold wp, finish, mbind, Res_bind. destruct (m (tr_tage r)) as [[a t']|]; [|done].
  intros (r' & E & HP). eexists. split; [|exact HP]. cbn [fst snd]. by rewrite E.
Qed.

(** The base of a thread that a step leaves alone *)
Lemma base_same r tid :
  run_ok r -> 0 <= tid < tg_numThreads p ->
  tr_base r = <[Z.to_nat tid := baseAt tid r]> (tr_base r).
Proof.
  intros Hr Ht. symmetry. apply list_insert_id. unfold baseAt. rewrite <- vat_nat by lia.
  destruct (vat_lt (tr_base r) tid) as [b Hb]; [rewrite (rk_blen _ Hr); lia|]. by rewrite Hb.
Qed.

Lemma thread_park h fl base bi k :
  parked p size bi -> 3 * (Z.of_nat (length fl) + 1) < rollbackBuffer -> thread_ok h fl base ->
  thread_ok h (take k fl ++ bi :: drop k fl) base.
Proof.
  intros Hp Hl [Hr Hf Hw _]. pose proof (flights_park p size (take k fl) (drop k fl) bi (foldr withBits base fl) base Hp) as Hfl.
  rewrite take_drop in Hfl. specialize (Hfl Hf). pose proof (flights_foldr _ _ _ Hfl) as Eh.
  constructor; rewrite <- ?Eh; [done|done| |].
  - rewrite <- (take_drop k fl), bitsOf_app in Hw. rewrite bitsOf_app. cbn [bitsOf foldr].
    rewrite (gr_ng _ _ _ (proj1 Hp)). unfold bitsOf in *. lia.
  - rewrite <- (take_drop k fl), length_app in Hl. rewrite length_app. cbn [length]. lia.
Qed.

Lemma tage_step_ok op r :
  run_ok r -> tage_enabled p op r = true ->
  exists r', tage_step p op r = Ok r' /\ run_ok r'.
Proof.
  intros Hr Hen. unfold tage_enabled in Hen. apply andb_true_iff in Hen as [Hen Hop].
  apply andb_true_iff in Hen as [H0%Z.leb_le H1%Z.ltb_lt].
  destruct (run_thread r (opThread op) Hr ltac:(lia)) as (h & Hh & Hk).
  pose proof (rk_tables _ Hr) as Hok. pose proof (tk_window _ _ _ Hk) as Hwin.
  pose proof (tk_len _ _ _ Hk) as Hlen.
  destruct op as [tid b|tid younger pc uncond|tid|tid taken tgt i|tid taken tgt i]; cbn [opThread tage_step] in *;
    apply finish_ok.
  - eapply wp_speculate; [done|lia|exact Hh|apply Hk|]. intros bi s' Hup.
    eexists. split; [reflexivity|]. cbn. apply Z.ltb_lt in Hop.
    destruct (updated_thread _ _ _ _ _ _ _ _ (flightsAt tid r) (baseAt tid r) h Hup)
      as (h' & Eth & Hk'); [lia|done|done|apply Hk|done|done|].
    rewrite (base_same r tid) by (done || lia).
    eapply run_ok_step; [done|lia|apply Hup|exact Eth|done].
  - unfold Tage.branchPlaceholder. wp_step. eexists. split; [reflexivity|]. cbn. apply Z.ltb_lt in Hop.
    rewrite (base_same r tid) by (done || lia).
    eapply run_ok_step; [done|lia|done|by rewrite list_insert_id by (rewrite <- vat_nat by lia; exact Hh)|].
    apply thread_park; [by split; [apply make_grounded|]|done|done].
  - destruct (flightsAt tid r) as [|bi fl] eqn:Efl; [done|].
    destruct Hk as [Hhist (hist' & Hf & E & Hfs) _ _]. cbn [head tail length] in *.
    pose proof (flights_foldr _ _ _ Hfs) as ->. cbn [bitsOf foldr] in *. fold (bitsOf fl) in Hwin.
    pose proof (bitsOf_bounds p size fl _ _ Hfs).
    eapply wp_squash_any; [done|lia|exact Hh|exact Hf|exact Hhist|lia|]. intros h' Hr' _ Hw'.
    eexists. split; [reflexivity|]. cbn. rewrite (base_same r tid) by (done || lia).
    eapply run_ok_step; [done|lia|by eapply tb_ok_thread|reflexivity|].
    constructor; [done|done|lia|lia].
  - destruct (flightsAt tid r) as [|bi fl] eqn:Efl; [done|].
    destruct Hk as [Hhist (hist' & Hf & E & Hfs) _ _]. cbn [head tail length] in *.
    pose proof (flights_foldr _ _ _ Hfs) as ->. cbn [bitsOf foldr] in *. fold (bitsOf fl) in Hwin.
    pose proof (bitsOf_bounds p size fl _ _ Hfs).
    eapply wp_correct_any; [done|lia|exact Hh|exact Hf|exact Hhist|lia|]. intros ph bi' s' Hup.
    eexists. split; [reflexivity|]. cbn. rewrite (base_same r tid) by (done || lia).
    destruct (updated_thread _ _ _ _ _ _ _ _ fl (baseAt tid r) h Hup)
      as (h' & Eth & Hk'); [lia|done|done|done|lia|lia|].
    eapply run_ok_step; [done|lia|apply Hup|exact Eth|done].
  - assert (Hne : flightsAt tid r <> []) by (by destruct (flightsAt tid r)).
    destruct (exists_last Hne) as (fl & bi & Efl). rewrite Efl in *.
    rewrite last_snoc in Hop. apply bool_decide_eq_true in Hop.
    rewrite last_snoc, removelast_last.
    destruct Hk as [Hhist Hfs _ _]. destruct (flights_snoc _ _ _ _ _ _ Hfs) as (Hfly & Hfl).
    destruct (in_flight_flying _ _ _ Hfly Hop) as [ph Hf].
    eapply wp_tage_commit; [done|exact Hh|exact Hf|exact Hhist|]. intros t' h' Hok' Hr' Hw' Eth.
    eexists. split; [reflexivity|]. cbn.
    rewrite bitsOf_app, length_app in *. cbn [length] in *.
    pose proof (bk_ng _ _ _ (fl_ok _ _ _ _ Hf)). cbn [bitsOf foldr] in Hwin.
    eapply run_ok_step; [done|lia|done|exact Eth|].
    pose proof (flights_foldr _ _ _ Hfl) as Eh.
    constructor; rewrite <- ?Eh; [done|done|lia|lia].
Qed.

Lemma start_ok t :
  tb_ok p size (tage t) -> 0 <= tg_numThreads p ->
  (forall h, h ∈ threadHistory (tage t) -> th_repr hp [] h) -> run_ok (startRun p t).
Proof.
  intros Hok Hn Hth. constructor; cbn; rewrite ?length_replicate; [done|lia|lia|].
  intros tid h Ht Hh. unfold flightsAt, baseAt, startRun, vat. cbn.
  destruct (Z.leb_spec 0 tid); [|lia]. rewrite !lookup_replicate_2 by lia.
  specialize (Hth h (vat_elem _ _ _ Hh)). destruct (tr_pt _ _ _ Hth).
  constructor; cbn; [done|done|unfold window; cbn in *; lia|unfold rollbackBuffer; lia].
Qed.

Lemma tage_reach_ok t0 r :
  tb_ok p size (tage t0) -> 0 <= tg_numThreads p ->
  (forall h, h ∈ threadHistory (tage t0) -> th_repr hp [] h) ->
  tage_reach p t0 r -> run_ok r.
Proof.
  intros Hok Hn Hth Hreach. induction Hreach as [|r op r' _ IH Hen E]; [by apply start_ok|].
  destruct (tage_step_ok op r IH Hen) as (r1 & E1 & H1). rewrite E in E1. by injection E1 as ->.
Qed.
End Inv.
