(* ===== verification/TageTags.v ===== *)
(** * TAGE: the tags of the tables

    Every tag that the base predictor stores has the width that
    [tagTableTagWidths] gives to its table: [gtag] masks it, [allocateEntry] is
    the only writer, and each table has an array of its own. *)

From Stdlib Require Import ZArith Lia.
From stdpp Require Import base list numbers.
From S2P Require Import Prelude Types CondPred TageHist Tage TageInv TageBaseOk TageSafe TageRun.

Section Tags.
Context (p : TageParams) (Hcfg : tage_cfg p) (Hbase : base_cfg p).
#[local] Instance tags_V : TageVirtual := TB.TAGEBase_v p.
#[local] Instance tags_VO : VirtualOk p (baseSize p) := TAGEBase_vok p Hcfg Hbase.

(** The tables are those of [buildTageTables], and the tags of table [i] fit it. *)
Record tags_ok (s : TAGEBase) : Prop := {
  tg_own : gtable s = fst (TB.buildTageTables p);
  tg_fit : forall i a t e, 1 <= i <= nHistoryTables p -> vat (gtable s) i = Some (Some a) ->
    gstore s !! a = Some t -> e ∈ t -> tagFits p i (te_tag e)
}.

(** Table [i] has array [i - 1]. *)
Lemma own_array i a : vat (fst (TB.buildTageTables p)) i = Some (Some a) ->
  i = Z.of_nat a + 1 /\ 1 <= i <= nHistoryTables p.
Proof.
  unfold vat. destruct (Z.leb_spec 0 i); [|done]. cbn [fst TB.buildTageTables].
  destruct (Z.to_nat i) as [|k] eqn:E; [done|]. change ((Some <$> seq 0 (Z.to_nat (nHistoryTables p))) !! k =
    Some (Some a) -> i = Z.of_nat a + 1 /\ 1 <= i <= nHistoryTables p). rewrite list_lookup_fmap.
  intros (x & Ex & [= <-])%fmap_Some.
  apply lookup_seq in Ex as [-> Hx]. lia.
Qed.

Lemma tags_setEntry s i a idx f :
  tags_ok s -> vat (gtable s) i = Some (Some a) ->
  (1 <= i <= nHistoryTables p -> forall e, tagFits p i (te_tag e) -> tagFits p i (te_tag (f e))) ->
  tags_ok (s <| gstore ::= alter (alter f idx) a |>).
Proof.
  intros [Ho Hf] Ha Hfe. constructor; cbn; [done|]. intros i' a' t e Hi' Ha' Ht He.
  destruct (decide (a' = a)) as [->|].
  - assert (i' = i) as -> by (rewrite Ho in Ha, Ha'; apply own_array in Ha as [? _], Ha' as [? _]; lia).
    rewrite list_lookup_alter_eq in Ht. apply fmap_Some in Ht as (t0 & Ht0 & ->).
    apply list_elem_of_lookup in He as [k Hk]. destruct (decide (k = idx)) as [->|].
    + rewrite list_lookup_alter_eq in Hk. apply fmap_Some in Hk as (e0 & He0 & ->).
      apply Hfe; [done|]. apply (Hf i a t0); [done..|]. by eapply list_elem_of_lookup_2.
    + rewrite list_lookup_alter_ne in Hk by done.
      apply (Hf i a t0); [done..|]. by eapply list_elem_of_lookup_2.
  - rewrite list_lookup_alter_ne in Ht by done. by apply (Hf i' a' t).
Qed.

#[local] Abbreviation kp := (keeps tags_ok).

Lemma keeps_entryAt bank idx : kp (TB.entryAt bank idx).
Proof. unfold TB.entryAt. keeps_steps. Qed.
#[local] Hint Resolve keeps_entryAt : keeps.

Lemma keeps_setEntry i idx f :
  (1 <= i <= nHistoryTables p -> forall e, tagFits p i (te_tag e) -> tagFits p i (te_tag (f e))) ->
  kp (TB.setEntry i idx f).
Proof.
  intros Hf. unfold TB.setEntry. apply keeps_bind; [apply keeps_entryAt|]. intros _ s Hs. apply wlp_bind.
  intros a s' [= <- <-]. apply wlp_bind. intros o s1 E1. unfold at_index in E1.
  destruct (vat (gtable s) i) as [o'|] eqn:Eo; [|done]. injection E1 as <- <-. apply wlp_bind.
  intros a s2 E2. destruct o' as [a'|]; [|done]. injection E2 as <- <-.
  intros [] s3 [= <-]. by eapply tags_setEntry.
Qed.

(** A write that keeps the tag *)
Lemma keeps_setEntry_same i idx f : (forall e, te_tag (f e) = te_tag e) -> kp (TB.setEntry i idx f).
Proof. intros Hf. apply keeps_setEntry. intros _ e He. by rewrite Hf. Qed.
#[local] Hint Extern 2 (keeps _ (TB.setEntry _ _ _)) => apply keeps_setEntry_same; by intros [] : keeps.

(** A change outside the tagged tables *)
Lemma keeps_other f :
  (forall s, gtable (f s) = gtable s /\ gstore (f s) = gstore s) -> kp (modify f).
Proof.
  intros Hf. apply keeps_modify. intros s [H1 H2]. destruct (Hf s) as [E1 E2].
  constructor; rewrite E1, ?E2; [done|]. exact H2.
Qed.
#[local] Hint Extern 2 (keeps _ (modify _)) => apply keeps_other; by intros [] : keeps.

Lemma keeps_cell {S} (P : S -> Prop) v i : keeps P (TB.cell v i).
Proof. unfold TB.cell. keeps_steps. Qed.
#[local] Hint Resolve keeps_cell : keeps.

Lemma keeps_ctrUpdate {S} (P : S -> Prop) w c b n : keeps P (TB.ctrUpdate w c b n).
Proof. unfold TB.ctrUpdate. keeps_steps. Qed.
Lemma keeps_unsignedCtrUpdate {S} (P : S -> Prop) c b n : keeps P (TB.unsignedCtrUpdate c b n).
Proof. unfold TB.unsignedCtrUpdate. keeps_steps. Qed.
#[local] Hint Resolve keeps_ctrUpdate keeps_unsignedCtrUpdate : keeps.

(** The vectors of a branch hold tags of the right width. *)
Definition tags_of (bi : BranchInfo) : Prop :=
  forall i t, 1 <= i <= nHistoryTables p -> vat (bi_tableTags bi) i = Some (Some t) -> tagFits p i t.

Lemma keeps_allocateEntry i bi taken : tags_of bi -> kp (TB.allocateEntry i bi taken).
Proof.
  intros Hbi. unfold TB.allocateEntry. keeps_step; [keeps_step|]. keeps_step; [keeps_step|].
  destruct (negb _); [keeps_step|]. intros s Hs. apply wlp_bind. intros t s1 E.
  unfold TB.cell in E. rewrite bind_eq in E. destruct (vat (bi_tableTags bi) i) as [[t0|]|] eqn:Et; try done.
  injection E as <- <-. revert s Hs. change (kp (TB.setEntry i a (fun e => e <| te_tag := u16 t0 |>
    <| te_ctr := if taken then 0 else -1 |>) ;; mret true)).
  keeps_step; [|keeps_step]. apply keeps_setEntry. intros Hi e _ w Hw. cbn.
  pose proof (Hbi i t0 Hi Et w Hw). pose proof (Z.mod_pos_bound t0 (2 ^ 16)). unfold u16.
  pose proof (Z.mod_le t0 (2 ^ 16)). lia.
Qed.
#[local] Hint Resolve keeps_allocateEntry : keeps.

Lemma keeps_allocateFrom bi taken n : forall i k, tags_of bi -> kp (TB.allocateFrom p n i bi taken k).
Proof.
  induction n as [|n IH]; intros i k Hbi; cbn [TB.allocateFrom]; [keeps_step|].
  keeps_steps.
Qed.
#[local] Hint Resolve keeps_allocateFrom : keeps.

Lemma keeps_handleAlloc alloc taken bi nrand :
  tags_of bi -> kp (TB.handleAllocAndUReset p alloc taken bi nrand).
Proof.
  intros Hbi. unfold TB.handleAllocAndUReset. keeps_steps.
Qed.
#[local] Hint Resolve keeps_handleAlloc : keeps.

Lemma keeps_baseUpdate pc taken bi : kp (TB.baseUpdate p pc taken bi).
Proof. unfold TB.baseUpdate. keeps_steps. Qed.
#[local] Hint Resolve keeps_baseUpdate : keeps.

Lemma keeps_updateEntryCtr bank idx taken : kp (TB.updateEntryCtr p bank idx taken).
Proof. unfold TB.updateEntryCtr. keeps_steps. Qed.
#[local] Hint Resolve keeps_updateEntryCtr : keeps.

Lemma keeps_handleTAGEUpdate pc taken bi : kp (TB.handleTAGEUpdate p pc taken bi).
Proof. unfold TB.handleTAGEUpdate. keeps_steps. Qed.
#[local] Hint Resolve keeps_handleTAGEUpdate : keeps.

Lemma keeps_condBranchUpdate tid pc taken bi nrand tgt pred pre :
  tags_of bi -> kp (TB.condBranchUpdate p tid pc taken bi nrand tgt pred pre).
Proof.
  intros Hbi. unfold TB.condBranchUpdate. cbn [v_adjustAlloc v_handleAllocAndUReset v_handleTAGEUpdate tags_V TB.TAGEBase_v].
  keeps_steps.
Qed.

(** ** Prediction and histories *)

Lemma keeps_onThread {A} tid (m : M ThreadHistory A) : kp (TB.onThread tid m).
Proof.
  intros s [H1 H2] a s' E. unfold TB.onThread in E. destruct (vat (threadHistory s) tid) as [h|]; [|done].
  destruct (m h) as [[a0 h']|]; [|done]. injection E as <- <-. by constructor.
Qed.
#[local] Hint Resolve keeps_onThread : keeps.

Lemma keeps_calc tid pc bi : kp (TB.calculateIndicesAndTags p tid pc bi).
Proof.
  unfold TB.calculateIndicesAndTags, TB.gindex, TB.gtag, TB.F, TB.logSize, TB.thread, TB.shamt. keeps_steps.
Qed.
#[local] Hint Resolve keeps_calc : keeps.

Lemma keeps_firstMatch n : kp (TB.firstMatch p n).
Proof. induction n; cbn [TB.firstMatch]; unfold TB.matches; keeps_steps. Qed.
#[local] Hint Resolve keeps_firstMatch : keeps.

Lemma keeps_tagePredict tid pc c bi : kp (TB.tagePredict p tid pc c bi).
Proof.
  unfold TB.tagePredict, TB.scratchIndex.
  cbn [v_calculateIndicesAndTags v_getBimodePred v_extraAltCalc v_getUseAltIdx tags_V TB.TAGEBase_v].
  unfold TB.getBimodePred. keeps_steps.
Qed.

Lemma keeps_restoreHistState tid bi : kp (TB.restoreHistState p tid bi).
Proof. unfold TB.restoreHistState. keeps_steps. Qed.
#[local] Hint Resolve keeps_restoreHistState : keeps.

Lemma keeps_updateHistories tid pc sp taken tgt i bi : kp (TB.updateHistories p tid pc sp taken tgt i bi).
Proof.
  unfold TB.updateHistories.
  cbn [v_calculateIndicesAndTags v_updatePathAndGlobalHistory tags_V TB.TAGEBase_v].
  unfold TB.updatePathAndGlobalHistory, TB.updateGHist, TB.recordHistState, TB.thread. keeps_steps.
Qed.

Lemma keeps_updateStats taken bi : kp (TB.updateStats taken bi).
Proof. unfold TB.updateStats, TB.stat. keeps_steps. Qed.
#[local] Hint Resolve keeps_tagePredict keeps_updateHistories keeps_updateStats keeps_condBranchUpdate : keeps.

(** ** The predictor *)

Definition tags_in (t : TAGE) : Prop := tags_ok (tage t).

Lemma keeps_tage {A} (m : M TAGEBase A) : kp m -> keeps tags_in (zoom tage m).
Proof. by apply keeps_zoom. Qed.
#[local] Hint Resolve keeps_tage : keeps.

Lemma keeps_predict tid pc c : keeps tags_in (Tage.predict p tid pc c).
Proof. unfold Tage.predict, Tage.staticPrediction. keeps_steps. Qed.
#[local] Hint Resolve keeps_predict : keeps.

Lemma keeps_speculate tid b : keeps tags_in (@speculate _ _ (Tage.TAGE_cp p) tid b).
Proof.
  unfold speculate. cbn [cp_lookup cp_updateHistories Tage.TAGE_cp]. unfold Tage.lookup, Tage.updateHistories.
  keeps_steps.
Qed.

Lemma keeps_tage_squash tid h : keeps tags_in (Tage.squash p tid h).
Proof. unfold Tage.squash. keeps_steps. Qed.

Lemma keeps_random : keeps tags_in Tage.random.
Proof. unfold Tage.random. keeps_steps. by apply keeps_modify. Qed.

Lemma keeps_correct tid pc taken h i tgt : keeps tags_in (Tage.update p tid pc taken h true i tgt).
Proof. unfold Tage.update, TB.squash. keeps_steps. Qed.

Lemma keeps_commit tid pc taken bi i tgt :
  (bi_condBranch bi = true -> tags_of bi) -> keeps tags_in (Tage.update p tid pc taken (Some bi) false i tgt).
Proof.
  intros Hbi. unfold Tage.update. keeps_step; [keeps_step|].
  intros s Hs. apply wlp_bind. intros b s1 [= <- <-]. revert s Hs.
  change (keeps tags_in (r ← Tage.random;
    when (bi_condBranch bi) (zoom tage (TB.updateStats taken bi) ;;
      zoom tage (TB.condBranchUpdate p tid pc taken bi (Z.land r 3) tgt (tagePred bi) false)) ;;
    zoom tage (TB.updateHistories p tid pc false taken tgt i bi) ;; mret (@None BranchInfo))).
  keeps_step; [apply keeps_random|]. destruct (bi_condBranch bi); cbn [when]; [specialize (Hbi eq_refl)|clear Hbi];
    keeps_steps. by apply keeps_tage, keeps_condBranchUpdate.
Qed.

Lemma flying_tags ph bi : flying p (baseSize p) ph bi -> bi_condBranch bi = true -> tags_of bi.
Proof.
  intros Hf Hc i t Hi Ht. destruct (fl_indexed _ _ _ _ Hf Hc i Hi) as (x & t' & _ & _ & Ht' & Hfit).
  by simplify_eq.
Qed.

Lemma finish_tags {A} (m : M TAGE A) r f r' :
  keeps tags_in m -> tags_in (tr_tage r) -> finish r (m (tr_tage r)) f = Ok r' -> tags_in (tr_tage r').
Proof.
  intros Hm Hr E. unfold finish in E. apply res_bind_ok in E as ([a t'] & Em & E).
  apply res_bind_ok in E as (r1 & _ & [= <-]). exact (Hm _ Hr _ _ Em).
Qed.

Lemma step_tags op r r' :
  run_ok p (baseSize p) r -> tage_enabled p op r = true -> tags_in (tr_tage r) ->
  tage_step p op r = Ok r' -> tags_in (tr_tage r').
Proof.
  intros Hr Hen Ht. unfold tage_enabled in Hen. apply andb_true_iff in Hen as [Hen Hop].
  apply andb_true_iff in Hen as [H0%Z.leb_le H1%Z.ltb_lt].
  destruct op as [tid b|tid younger pc uncond|tid|tid taken tgt i|tid taken tgt i]; cbn [opThread tage_step] in *;
    apply finish_tags; try done.
  - apply keeps_speculate.
  - apply keeps_ret.
  - apply keeps_tage_squash.
  - apply keeps_correct.
  - destruct (run_thread _ _ r tid Hr ltac:(lia)) as (h & _ & [_ Hfs _ _]).
    assert (Hne : flightsAt tid r <> []) by (by destruct (flightsAt tid r)).
    destruct (exists_last Hne) as (fl & bi & Efl). rewrite Efl in *. rewrite last_snoc in *.
    apply bool_decide_eq_true in Hop. destruct (flights_snoc _ _ _ _ _ _ Hfs) as (Hfly & _).
    destruct (in_flight_flying _ _ _ Hfly Hop) as [ph Hf]. apply keeps_commit. by eapply flying_tags.
Qed.

Lemma init_tags t : TB.init p = Ok t -> tags_ok t.
Proof.
  intros E. unfold TB.init, TB.initWith in E. do 8 (apply res_bind_ok in E as (? & _ & E)).
  destruct (vat (logTagTableSizes p) 0) as [l0|]; [|done]. injection E as <-. constructor; [done|].
  intros i a t e Hi Ha Ht He w Hw. cbn in Ht, Ha.
  rewrite list_lookup_fmap in Ht. apply fmap_Some in Ht as (l & _ & ->).
  apply elem_of_replicate in He as [-> _]. cbn.
  destruct (bc_tag _ _ (tc_banks _ Hcfg i Hi)) as (w' & Hw' & Hr). simplify_eq.
  split; [done|]. apply Z.pow_pos_nonneg; lia.
Qed.
End Tags.
