(* ===== verification/TageGen.v ===== *)
(** * TAGE: behaviour under the contract of the virtual functions

    What holds of every implementation that keeps [VirtualOk]: operations
    succeed in the reachable states, the histories are exact, the tables keep
    their bounds, a squash undoes the speculation.  [TageSpec] and [TageSclSpec]
    instantiate it. *)

From Stdlib Require Import ZArith Lia.
From stdpp Require Import base list numbers.
From S2P Require Import Prelude Types CondPred TageHist Tage TageInv TageBaseOk TageSafe TageRun.

Fixpoint tage_run (p : TageParams) {V : TageVirtual} (ops : list TageOp) (r : TageRun) : Res TageRun :=
  match ops with
  | [] => Ok r
  | op :: ops' => r' ← tage_step p op r; tage_run p ops' r'
  end.

(** A run of enabled operations *)
Fixpoint checkedRun (p : TageParams) {V : TageVirtual} (ops : list TageOp) (r : TageRun) : Res TageRun :=
  match ops with
  | [] => Ok r
  | op :: ops' =>
      if tage_enabled p op r then r' ← tage_step p op r; checkedRun p ops' r' else Err AssertFail
  end.

Lemma checkedRun_reach p {V : TageVirtual} t0 ops r r' :
  tage_reach p t0 r -> checkedRun p ops r = Ok r' -> tage_reach p t0 r'.
Proof.
  revert r. induction ops as [|op ops IH]; intros r Hr E; cbn [checkedRun] in E.
  - by injection E as <-.
  - destruct (tage_enabled p op r) eqn:En; [|done]. apply res_bind_ok in E as (r1 & E1 & E).
    apply (IH r1); [|done]. by eapply tage_next.
Qed.

(** The predictor of [r'] answers as that of [r]: the tables, the paths and the
    folded registers are the same, and the same branches are in flight. *)
Record restored (r r' : TageRun) : Prop := {
  rs_flights : tr_flights r' = tr_flights r;
  rs_base : tr_base r' = tr_base r;
  rs_bimodal : btablePrediction (tage (tr_tage r')) = btablePrediction (tage (tr_tage r));
  rs_hyst : btableHysteresis (tage (tr_tage r')) = btableHysteresis (tage (tr_tage r));
  rs_gtable : gtable (tage (tr_tage r')) = gtable (tage (tr_tage r));
  rs_gstore : gstore (tage (tr_tage r')) = gstore (tage (tr_tage r));
  rs_useAlt : useAltPredForNewlyAllocated (tage (tr_tage r')) =
    useAltPredForNewlyAllocated (tage (tr_tage r));
  rs_tCounter : tCounter (tage (tr_tage r')) = tCounter (tage (tr_tage r));
  rs_threads : forall tid h, vat (threadHistory (tage (tr_tage r))) tid = Some h ->
    exists h', vat (threadHistory (tage (tr_tage r'))) tid = Some h' /\
      pathHist h' = pathHist h /\ nonSpecPathHist h' = nonSpecPathHist h /\
      forall j, (1 <= j)%nat -> computeIndices h' !! j = computeIndices h !! j /\
        computeTags0 h' !! j = computeTags0 h !! j /\ computeTags1 h' !! j = computeTags1 h !! j
}.

(** The history of a thread as the registers see it *)
Definition exact_history (p : TageParams) (H : list Z) (h : ThreadHistory) : Prop :=
  (forall i, 0 <= i < maxHist p ->
     vat (globalHist h) (ptGhist h + i) = Some (bitAt H (Z.to_nat i))) /\
  (forall bank o l w0 w1, 1 <= bank <= nHistoryTables p -> vat (histLengths p) bank = Some o ->
     vat (indexFold p) bank = Some l -> vat (tagFold0 p) bank = Some w0 ->
     vat (tagFold1 p) bank = Some w1 ->
     comp <$> vat (computeIndices h) bank = Some (foldRef l (Z.to_nat o) H) /\
     comp <$> vat (computeTags0 h) bank = Some (foldRef w0 (Z.to_nat o) H) /\
     comp <$> vat (computeTags1 h) bank = Some (foldRef w1 (Z.to_nat o) H)).

(** The widths of the counters and the sizes of the tables *)
Definition bounded_tables (p : TageParams) (size : Z -> Z) (s : TAGEBase) : Prop :=
  (forall t e, t ∈ gstore s -> e ∈ t ->
     - 2 ^ (tagTableCounterBits p - 1) <= te_ctr e < 2 ^ (tagTableCounterBits p - 1) /\
     0 <= te_u e < 2 ^ tagTableUBits p /\ 0 <= te_tag e < 2 ^ 16) /\
  (forall c, c ∈ useAltPredForNewlyAllocated s ->
     - 2 ^ (useAltOnNaBits p - 1) <= c < 2 ^ (useAltOnNaBits p - 1)) /\
  (forall i, 1 <= i <= nHistoryTables p ->
     exists a t, vat (gtable s) i = Some (Some a) /\ gstore s !! a = Some t /\
       Z.of_nat (length t) = size i).

Lemma repr_exact p H h : th_repr (histParams p) H h -> exact_history p H h.
Proof.
  intros Hrep. split.
  - intros i Hi. apply (tr_buf _ _ _ Hrep). pose proof (tr_pt _ _ _ Hrep). cbn in *. lia.
  - intros bank o l w0 w1 Hb Ho Hl Hw0 Hw1.
    assert (Hreg : forall shl v x, regs_ok (histParams p) shl H v -> vat shl bank = Some (x, o) ->
      comp <$> vat v bank = Some (foldRef x (Z.to_nat o) H)).
    { intros shl v x Hv Hs. destruct (regs_at p _ _ _ bank Hv Hb) as [f Hvf]. rewrite Hvf. cbn.
      rewrite vat_nat in Hvf by lia. rewrite vat_nat in Hs by lia.
      destruct (proj2 Hv (Z.to_nat bank) _ ltac:(lia) Hvf) as (sh & Hsh & [E _ _ C]).
      rewrite Hs in Hsh. injection Hsh as <-. injection E as EL EO. by rewrite C, EL, EO. }
    destruct Hrep. split_and!; eapply Hreg; try eassumption; by apply vat_zip.
Qed.

Section Generic.
Context (p : TageParams) (size : Z -> Z) (Hcfg : tage_cfg p) {V : TageVirtual}
  {VO : VirtualOk p size}.
#[local] Abbreviation hp := (histParams p).
#[local] Abbreviation inv := (run_ok p size).

Lemma inv_step_ok r op : inv r -> tage_enabled p op r = true -> isOk (tage_step p op r) = true.
Proof.
  intros Hr Hen. destruct (tage_step_ok p size Hcfg op r Hr Hen) as (r' & E & _). by rewrite E.
Qed.

Lemma inv_history_exact r tid :
  inv r -> 0 <= tid < tg_numThreads p ->
  exists h, vat (threadHistory (tage (tr_tage r))) tid = Some h /\ exact_history p (historyOf tid r) h.
Proof.
  intros Hok Ht. destruct (run_thread _ _ r tid Hok Ht) as (h & Hh & [Hrep _ _ _]).
  exists h. split; [done|]. by apply repr_exact.
Qed.

Lemma inv_tables_bounded r : inv r -> bounded_tables p size (tage (tr_tage r)).
Proof.
  intros Hr. pose proof (rk_tables _ _ _ Hr) as Hok. split_and!.
  - intros t e Ht He. pose proof (to_entries _ _ _ Hok) as Hall. rewrite list.Forall_forall in Hall.
    specialize (Hall t Ht). rewrite list.Forall_forall in Hall. by destruct (Hall e He).
  - intros c Hc. pose proof (to_nactr _ _ _ Hok) as Hall. rewrite list.Forall_forall in Hall.
    by apply Hall.
  - intros i Hi. by apply (to_tables _ _ _ Hok).
Qed.

(** ** Recovery *)

Lemma flights_at r tid :
  inv r -> 0 <= tid < tg_numThreads p -> vat (tr_flights r) tid = Some (flightsAt tid r).
Proof.
  intros Hr Ht. unfold flightsAt. destruct (vat_lt (tr_flights r) tid) as [fl E]; [|by rewrite E].
  rewrite (rk_flen _ _ _ Hr). lia.
Qed.

(** What [TSpeculate] leaves *)
Record speculated (tid : ThreadID) (r r1 : TageRun) (bi : BranchInfo) : Prop := {
  sp_flights : tr_flights r1 = <[Z.to_nat tid := bi :: flightsAt tid r]> (tr_flights r);
  sp_base : tr_base r1 = tr_base r;
  sp_state : exists h h1 s1, vat (threadHistory (tage (tr_tage r))) tid = Some h /\
    scratch_only (tage (tr_tage r)) s1 /\ tage (tr_tage r1) = setThread tid h1 s1 /\
    flying p size (pathHist h) bi /\ nonSpecPathHist h1 = nonSpecPathHist h
}.

Lemma step_speculate r tid b :
  inv r -> tage_enabled p (TSpeculate tid b) r = true ->
  exists r1, tage_step p (TSpeculate tid b) r = Ok r1 /\ inv r1 /\ exists bi, speculated tid r r1 bi.
Proof.
  intros Hr Hen. destruct (tage_step_ok p size Hcfg _ r Hr Hen) as (r1 & E & H1).
  exists r1. split; [exact E|]. split; [exact H1|].
  unfold tage_enabled in Hen. apply andb_true_iff in Hen as [Hen _].
  apply andb_true_iff in Hen as [Ht0%Z.leb_le Ht1%Z.ltb_lt]. cbn [opThread] in *.
  destruct (run_thread _ _ r tid Hr ltac:(lia)) as (h & Hh & Hk).
  cbn [tage_step opThread] in E.
  assert (Hex : exists r', finish r (@speculate _ _ (Tage.TAGE_cp p) tid b (tr_tage r)) (fun h =>
      match h with Some bi => Ok (withFlights tid (bi :: flightsAt tid r) r) | None => Err NullDeref end)
      = Ok r' /\ exists bi, speculated tid r r' bi).
  { apply finish_ok. eapply (wp_speculate p size Hcfg);
      [apply Hr|lia|exact Hh|apply Hk|]. intros bi s' [Hf (h1 & s1 & -> & Hso & _ & Hns & _) _].
    eexists. split; [reflexivity|]. exists bi. constructor; [done|done|]. by exists h, h1, s1. }
  destruct Hex as (r' & E' & Hsp). rewrite E in E'. by injection E' as <-.
Qed.

Lemma step_squash r tid bi fl ph :
  inv r -> 0 <= tid < tg_numThreads p -> flightsAt tid r = bi :: fl -> bi_pathHist bi = Some ph ->
  exists r2 h h2, tage_step p (TSquash tid) r = Ok r2 /\ inv r2 /\
    tr_flights r2 = <[Z.to_nat tid := fl]> (tr_flights r) /\ tr_base r2 = tr_base r /\
    vat (threadHistory (tage (tr_tage r))) tid = Some h /\
    tage (tr_tage r2) = setThread tid h2 (tage (tr_tage r)) /\
    pathHist h2 = ph /\ nonSpecPathHist h2 = nonSpecPathHist h.
Proof.
  intros Hr Ht Efl Eph.
  destruct (tage_step_ok p size Hcfg (TSquash tid) r) as (r2 & E & H2); [done| |].
  { unfold tage_enabled. cbn [opThread]. rewrite Efl.
    by destruct (Z.leb_spec 0 tid), (Z.ltb_spec tid (tg_numThreads p)); try lia. }
  destruct (run_thread _ _ r tid Hr Ht) as (h & Hh & [Hhist Hfs Hwin _]).
  rewrite Efl in Hfs, Hhist, Hwin. destruct Hfs as (hist' & Hfly & _ & Hfs).
  destruct (in_flight_flying _ _ _ Hfly) as [ph' Hf]; [by exists ph|].
  pose proof (flights_foldr _ _ _ _ _ Hfs) as ->. pose proof (fl_path _ _ _ _ Hf) as Hp.
  rewrite Eph in Hp. injection Hp as <-.
  pose proof (bitsOf_bounds p size fl _ _ Hfs). cbn [bitsOf foldr] in Hwin.
  fold (bitsOf fl) in Hwin.
  assert (Hex : exists r', finish r (Tage.squash p tid (head (bi :: fl)) (tr_tage r))
      (fun _ => Ok (withFlights tid (tail (bi :: fl)) r)) = Ok r' /\
    exists h2, tr_flights r' = <[Z.to_nat tid := fl]> (tr_flights r) /\ tr_base r' = tr_base r /\
      tage (tr_tage r') = setThread tid h2 (tage (tr_tage r)) /\
      pathHist h2 = ph /\ nonSpecPathHist h2 = nonSpecPathHist h).
  { apply finish_ok. eapply (wp_tage_squash p size Hcfg);
      [apply Hr|exact Hh|exact Hf|exact Hhist|lia|]. intros h2 _ Hp2 Hn2 _.
    eexists. split; [reflexivity|]. by exists h2. }
  destruct Hex as (r' & E' & h2 & ?). cbn [tage_step opThread] in E. rewrite Efl in E.
  rewrite E in E'. injection E' as <-. exists r2, h, h2. split_and!; try done; try by destruct_and!.
  cbn [tage_step opThread]. by rewrite Efl.
Qed.

Lemma registers_same r r' tid h h' :
  inv r -> inv r' -> tr_flights r' = tr_flights r -> tr_base r' = tr_base r ->
  vat (threadHistory (tage (tr_tage r))) tid = Some h ->
  vat (threadHistory (tage (tr_tage r'))) tid = Some h' ->
  forall j, (1 <= j)%nat -> computeIndices h' !! j = computeIndices h !! j /\
    computeTags0 h' !! j = computeTags0 h !! j /\ computeTags1 h' !! j = computeTags1 h !! j.
Proof.
  intros Hr Hr' Ef Eb Hh Hh' j Hj.
  assert (Ht : 0 <= tid < tg_numThreads p).
  { rewrite <- (to_threads _ _ _ (rk_tables _ _ _ Hr)). by eapply vat_some. }
  destruct (rk_threads _ _ _ Hr tid h Ht Hh) as [[] _ _ _].
  destruct (rk_threads _ _ _ Hr' tid h' Ht Hh') as [H' _ _ _].
  unfold flightsAt, baseAt in *. rewrite Ef, Eb in H'. destruct H'.
  split_and!; eapply regs_unique; eauto.
Qed.

(** A squash undoes the last speculation, whatever else has come and gone. *)
Lemma undo r tid r1 bi r1' :
  inv r -> 0 <= tid < tg_numThreads p -> speculated tid r r1 bi -> inv r1' -> restored r1 r1' ->
  exists r2, tage_step p (TSquash tid) r1' = Ok r2 /\ inv r2 /\ restored r r2.
Proof.
  intros Hr Ht [Ef1 Eb1 (h & h1 & s1 & Hh & Hso & Es1 & Hf & Hns1)] Hr1' [].
  rewrite Es1 in *. rewrite Hso in *. cbn in *.
  assert (Hlt : (Z.to_nat tid < length (tr_flights r))%nat).
  { pose proof (rk_flen _ _ _ Hr). lia. }
  assert (Hfl : flightsAt tid r1' = bi :: flightsAt tid r).
  { unfold flightsAt at 1. rewrite rs_flights0, Ef1, vat_nat by lia.
    by rewrite list_lookup_insert_eq. }
  destruct (step_squash r1' tid bi _ _ Hr1' Ht Hfl (fl_path _ _ _ _ Hf))
    as (r2 & h' & h2 & E & Hr2 & Ef2 & Eb2 & Hh' & Es2 & Hp2 & Hns2).
  exists r2. split; [done|]. split; [done|].
  assert (Ef : tr_flights r2 = tr_flights r).
  { rewrite Ef2, rs_flights0, Ef1, list_insert_insert_eq. apply list_insert_id.
    rewrite <- vat_nat by lia. by apply flights_at. }
  assert (Eb : tr_base r2 = tr_base r) by congruence.
  constructor; rewrite ?Es2; cbn; try congruence.
  intros tid' h0 Hh0.
  assert (Ht' : 0 <= tid' < tg_numThreads p).
  { rewrite <- (to_threads _ _ _ (rk_tables _ _ _ Hr)). by eapply vat_some. }
  destruct (run_thread _ _ r2 tid' Hr2 Ht') as (h3 & Hh3 & _). pose proof Hh3 as Hh3'.
  rewrite Es2 in Hh3. cbn in Hh3. exists h3. split; [done|].
  assert (Hpaths : pathHist h3 = pathHist h0 /\ nonSpecPathHist h3 = nonSpecPathHist h0).
  { destruct (Z.eq_dec tid' tid) as [->|].
    - rewrite Hh0 in Hh. injection Hh as <-.
      erewrite vat_insert_eq in Hh3 by exact Hh'. injection Hh3 as <-.
      destruct (rs_threads0 tid h1) as (h4 & Hh4 & _ & Hn4 & _).
      { erewrite vat_insert_eq by exact Hh0. done. }
      rewrite Hh4 in Hh'. injection Hh' as <-. split; [done|congruence].
    - rewrite vat_nat in Hh3 by lia. rewrite list_lookup_insert_ne in Hh3 by lia.
      rewrite <- vat_nat in Hh3 by lia. destruct (rs_threads0 tid' h0) as (h4 & Hh4 & ? & ? & _).
      { rewrite vat_nat by lia. rewrite list_lookup_insert_ne by lia. by rewrite <- vat_nat by lia. }
      rewrite Hh4 in Hh3. by injection Hh3 as <-. }
  destruct Hpaths as [-> ->]. split; [done|]. split; [done|].
  exact (registers_same r r2 tid' h0 h3 Hr Hr2 Ef Eb Hh0 Hh3').
Qed.

Lemma tage_run_app ops1 ops2 r r1 r2 :
  tage_run p ops1 r = Ok r1 -> tage_run p ops2 r1 = Ok r2 -> tage_run p (ops1 ++ ops2) r = Ok r2.
Proof.
  revert r. induction ops1 as [|op ops1 IH]; intros r E1 E2; cbn in *; [by injection E1 as ->|].
  apply res_bind_ok in E1 as (r' & Es & E1). rewrite Es. cbn. by apply IH.
Qed.

Lemma restored_refl r : restored r r.
Proof. constructor; try done. intros tid h Hh. by exists h. Qed.

Lemma speculate_squash tid bs : forall r,
  inv r -> 0 <= tid < tg_numThreads p ->
  3 * Z.of_nat (length (flightsAt tid r) + length bs) < rollbackBuffer ->
  exists r2, tage_run p (map (TSpeculate tid) bs ++ replicate (length bs) (TSquash tid)) r = Ok r2 /\
    inv r2 /\ restored r r2.
Proof.
  induction bs as [|b bs IH]; intros r Hr Ht Hlen.
  { exists r. split; [done|]. split; [done|apply restored_refl]. }
  cbn [length] in Hlen. destruct (step_speculate r tid b Hr) as (r1 & E1 & Hr1 & bi & Hsp).
  { unfold tage_enabled. cbn [opThread].
    destruct (Z.leb_spec 0 tid), (Z.ltb_spec tid (tg_numThreads p)); lia. }
  assert (Hfl : flightsAt tid r1 = bi :: flightsAt tid r).
  { unfold flightsAt at 1. rewrite (sp_flights _ _ _ _ Hsp), vat_nat by lia.
    rewrite list_lookup_insert_eq; [done|]. pose proof (rk_flen _ _ _ Hr). lia. }
  destruct (IH r1 Hr1 Ht) as (r1' & E1' & Hr1' & Hres); [rewrite Hfl; cbn [length]; lia|].
  destruct (undo r tid r1 bi r1' Hr Ht Hsp Hr1' Hres) as (r2 & E2 & Hr2 & Hres2).
  exists r2. split; [|done]. cbn [map length]. rewrite replicate_S_end.
  cbn [app tage_run]. rewrite E1. cbn. rewrite app_assoc. eapply tage_run_app; [exact E1'|].
  cbn [tage_run]. by rewrite E2.
Qed.

End Generic.
