(* ===== verification/TageSpec.v ===== *)
(** * Properties of TAGE

    The base predictor ([TAGEBase_v]) in the states that its clients reach, its
    recovery from wrong paths, and what happens outside the configurations the
    code is written for. *)

From Stdlib Require Import ZArith Lia.
From stdpp Require Import base list numbers.
From S2P Require Import Prelude Types CondPred TageHist Tage TageInv TageBaseOk TageSafe TageRun TageTags TageGen.

(** A predictor just after [init] *)
Definition freshTage (p : TageParams) (t : TAGE) : Prop := TB.init p = Ok (tage t).

(** The operations with the base implementation of the virtual functions *)
Definition baseStep (p : TageParams) : TageOp -> TageRun -> Res TageRun :=
  @tage_step p (TB.TAGEBase_v p).
Definition baseReach (p : TageParams) : TAGE -> TageRun -> Prop :=
  @tage_reach p (TB.TAGEBase_v p).
Definition baseRun (p : TageParams) : list TageOp -> TageRun -> Res TageRun :=
  @tage_run p (TB.TAGEBase_v p).

Section Spec.
Context (p : TageParams) (Hcfg : tage_cfg p) (Hbase : base_cfg p) (Hn : 0 <= tg_numThreads p).
#[local] Instance V : TageVirtual := TB.TAGEBase_v p.
#[local] Instance VO : VirtualOk p (baseSize p) := TAGEBase_vok p Hcfg Hbase.

Lemma fresh_reach_ok t0 r :
  freshTage p t0 -> baseReach p t0 r -> run_ok p (baseSize p) r.
Proof.
  intros Hf Hr. destruct (tage_init_ok p Hcfg _ Hn Hf) as [Hok Hth].
  refine (tage_reach_ok p (baseSize p) Hcfg t0 r Hok Hn _ Hr). intros h Hh. by apply Hth.
Qed.

(** [C21] In every state of the TAGE predictor reached from init by predictions, placeholders of
    undetected branches, squashes, corrections and commits of any threads, with at most 666 branches of
    a thread in flight, the next operation succeeds, for configurations whose shifts are defined
    (tage_cfg, and base_cfg: table i has at least 2^i entries; the shipped L-TAGE tables are outside,
    ltage_shift_undefined), with the exception of the commit of a placeholder that was never corrected,
    which reads an indeterminate path history (tage_placeholder_commit_undefined): no index of a table,
    of the circular history or of a branch record is out of range, no shift is undefined, no
    indeterminate member is read, and the assertions hold. *)
Theorem tage_no_fault t0 r op :
  freshTage p t0 -> baseReach p t0 r -> tage_enabled p op r = true -> isOk (baseStep p op r) = true.
Proof.
  intros Hf Hr. apply (inv_step_ok p (baseSize p) Hcfg). by eapply fresh_reach_ok.
Qed.

(** [C22] The circular buffer and the incrementally folded registers of TAGE are equivalent to the
    reference, in every reachable state of a configuration with tage_cfg and base_cfg: the buffer is the
    list of the bits pushed and not undone (those of the branches in flight before the committed ones),
    each register is the fold of that list computed from scratch, across rollovers and squashes. *)
Theorem tage_history_exact t0 r tid :
  freshTage p t0 -> baseReach p t0 r -> 0 <= tid < tg_numThreads p ->
  exists h, vat (threadHistory (tage (tr_tage r))) tid = Some h /\ exact_history p (historyOf tid r) h.
Proof.
  intros Hf Hr. apply (inv_history_exact p (baseSize p)). by eapply fresh_reach_ok.
Qed.

Lemma fresh_reach_tags t0 r : freshTage p t0 -> baseReach p t0 r -> tags_ok p (tage (tr_tage r)).
Proof.
  intros Hf Hr. induction Hr as [|r op r' Hr IH Hen E]; [by apply (init_tags p Hcfg)|].
  eapply (step_tags p Hcfg Hbase); [by eapply fresh_reach_ok|done|exact IH|done].
Qed.

(** [C30] In every reachable state of a configuration with tage_cfg and base_cfg the tables of TAGE keep
    their types: each entry of table i has a prediction counter of tagTableCounterBits bits, a useful
    counter of tagTableUBits bits and a tag of tagTableTagWidths[i] bits, the
    useAltPredForNewlyAllocated counters have useAltOnNaBits bits, and every table has the size its
    index was masked with. *)
Theorem tage_tables_bounded t0 r :
  freshTage p t0 -> baseReach p t0 r -> bounded_tables p (baseSize p) (tage (tr_tage r)) /\
  forall i a t e w, 1 <= i <= nHistoryTables p -> vat (gtable (tage (tr_tage r))) i = Some (Some a) ->
    gstore (tage (tr_tage r)) !! a = Some t -> e ∈ t -> vat (tagTableTagWidths p) i = Some w ->
    0 <= te_tag e < 2 ^ w.
Proof.
  intros Hf Hr. split; [apply (inv_tables_bounded p (baseSize p) r); by eapply fresh_reach_ok|].
  intros i a t e w Hi Ha Ht He. by eapply (tg_fit _ _ (fresh_reach_tags t0 r Hf Hr)).
Qed.

(** [C23] Squashing the branches of TAGE in flight, the youngest first, restores the path history and
    the logical global history with all folded registers, from every reachable state of a configuration
    with tage_cfg and base_cfg, with at most 666 branches of the thread in flight. *)
Theorem tage_squash_restores t0 r tid bs :
  freshTage p t0 -> baseReach p t0 r -> 0 <= tid < tg_numThreads p ->
  3 * Z.of_nat (length (flightsAt tid r) + length bs) < rollbackBuffer ->
  exists r2, baseRun p (map (TSpeculate tid) bs ++ replicate (length bs) (TSquash tid)) r = Ok r2 /\
    restored r r2.
Proof.
  intros Hf Hr Ht Hlen. pose proof (fresh_reach_ok t0 r Hf Hr) as Hok.
  destruct (speculate_squash p (baseSize p) Hcfg tid bs r Hok Ht Hlen) as (r2 & E & _ & H).
  by exists r2.
Qed.
End Spec.

(** ** Runs *)

(** A small predictor: three tagged tables, histories of 3, 5 and 10 bits *)
Definition demoTageParams : TageParams := TB.configure
  (mkTageParams 1 2 3 3 10 [0; 5; 6; 7] [4; 4; 4; 4] [] [] [] [] 1 3 2 4300 8 4 1 8 4 1 [] true false).

Definition dummyTage : TAGEBase := mkTAGEBase [] [] [] [] [] [] [] [] 0 (fun _ => 0) 0 [].
Definition freshOf (p : TageParams) : TAGE :=
  mkTAGE (okOr dummyTage (TB.init p)) (fun _ => 0) 0 1.

Lemma demoTage_cfg : tage_cfg demoTageParams.
Proof.
  constructor; try (vm_compute; split; congruence); try (vm_compute; congruence).
  - constructor; vm_compute; [done|done|split; congruence].
  - intros i Hi. assert (Hc : i = 1 \/ i = 2 \/ i = 3) by (cbn in Hi; lia).
    destruct Hc as [->|[->| ->]]; constructor; eexists;
      (split; [reflexivity|vm_compute; split; congruence]) || reflexivity.
  - exists 4. split; [reflexivity|vm_compute; split; congruence].
Qed.


Lemma demoTage_base : base_cfg demoTageParams.
Proof.
  intros i Hi. exists 4. assert (Hc : i = 1 \/ i = 2 \/ i = 3) by (cbn in Hi; lia).
  destruct Hc as [->|[->| ->]]; (split; [reflexivity|vm_compute; split; congruence]).
Qed.

Lemma demoTage_fresh : freshTage demoTageParams (freshOf demoTageParams).
Proof. apply (ok_of (TB.init demoTageParams) dummyTage). vm_compute. reflexivity. Qed.

Definition demoBranch (pc : Addr) (uncond taken : bool) : SpecBranch :=
  mkSpec pc uncond taken (pc + 64) demoInst.

(** Three branches and one that was detected late, behind the youngest; a
    misprediction is corrected, the oldest branch committed *)
Definition demoOps : list TageOp :=
  [TSpeculate 0 (demoBranch 0x400 false true); TSpeculate 0 (demoBranch 0x408 false false);
   TSpeculate 0 (demoBranch 0x410 true true); TPlaceholder 0 1 0x40c false; TSquash 0; TSquash 0;
   TCorrect 0 true 0x500 demoInst;
   TCommit 0 true 0x440 demoInst].

Definition demoStart : TageRun := startRun demoTageParams (freshOf demoTageParams).
Definition demoTageRun : TageRun :=
  okOr demoStart (@checkedRun demoTageParams (TB.TAGEBase_v demoTageParams) demoOps demoStart).

(** What the witnesses use of the state after [demoOps]: the mispredicted branch
    can be committed, it is the only one in flight, and the history *)
Definition demoTest (p : TageParams) (history : list Z) (r : TageRun) : bool :=
  tage_enabled p (TCommit 0 true 0x500 demoInst) r && (length (flightsAt 0 r) =? 1)%nat &&
  bool_decide (historyOf 0 r = history).

Lemma demoTest_ok p history r :
  demoTest p history r = true ->
  tage_enabled p (TCommit 0 true 0x500 demoInst) r = true /\ length (flightsAt 0 r) = 1%nat /\
  historyOf 0 r = history.
Proof.
  unfold demoTest. rewrite !andb_true_iff.
  intros [[He Hl%Nat.eqb_eq] Hh%bool_decide_eq_true]. done.
Qed.

Lemma demoTageRun_facts :
  @checkedRun demoTageParams (TB.TAGEBase_v demoTageParams) demoOps demoStart = Ok demoTageRun /\
  demoTest demoTageParams [1; 1] demoTageRun = true.
Proof. unfold demoTageRun. apply ok_facts. vm_compute. reflexivity. Qed.

Lemma demoTageRun_reach : baseReach demoTageParams (freshOf demoTageParams) demoTageRun.
Proof.
  apply (checkedRun_reach demoTageParams (freshOf demoTageParams) demoOps demoStart demoTageRun).
  - apply tage_start.
  - apply demoTageRun_facts.
Qed.

Lemma demoTageRun_state :
  tage_enabled demoTageParams (TCommit 0 true 0x500 demoInst) demoTageRun = true /\
  length (flightsAt 0 demoTageRun) = 1%nat /\ historyOf 0 demoTageRun = [1; 1].
Proof. apply demoTest_ok, demoTageRun_facts. Qed.

Lemma demo_threads : 0 <= tg_numThreads demoTageParams.
Proof. vm_compute. congruence. Qed.

Lemma tage_no_fault_witness :
  isOk (baseStep demoTageParams (TCommit 0 true 0x500 demoInst) demoTageRun) = true.
Proof.
  refine (tage_no_fault demoTageParams demoTage_cfg demoTage_base demo_threads (freshOf demoTageParams) demoTageRun
    _ demoTage_fresh demoTageRun_reach (proj1 demoTageRun_state)).
Defined.

Lemma tage_history_exact_witness :
  historyOf 0 demoTageRun = [1; 1] /\
  exists h, vat (threadHistory (tage (tr_tage demoTageRun))) 0 = Some h /\
    comp <$> vat (computeIndices h) 3 = Some (foldRef 4 10 (historyOf 0 demoTageRun)).
Proof.
  split; [apply demoTageRun_state|].
  destruct (tage_history_exact demoTageParams demoTage_cfg demoTage_base demo_threads (freshOf demoTageParams)
    demoTageRun 0 demoTage_fresh demoTageRun_reach ltac:(vm_compute; split; congruence))
    as (h & Hh & _ & Hreg).
  exists h. split; [exact Hh|].
  refine (proj1 (Hreg 3 10 4 7 6 _ _ _ _ _)); [vm_compute; split; congruence|reflexivity..].
Defined.

Lemma tage_tables_bounded_witness :
  bounded_tables demoTageParams (baseSize demoTageParams) (tage (tr_tage demoTageRun)).
Proof.
  exact (proj1 (tage_tables_bounded demoTageParams demoTage_cfg demoTage_base demo_threads
    (freshOf demoTageParams) demoTageRun demoTage_fresh demoTageRun_reach)).
Defined.

Lemma tage_squash_restores_witness :
  exists r2, baseRun demoTageParams [TSpeculate 0 (demoBranch 0x600 false true);
      TSpeculate 0 (demoBranch 0x700 true true); TSquash 0; TSquash 0] demoTageRun = Ok r2 /\
    restored demoTageRun r2.
Proof.
  refine (tage_squash_restores demoTageParams demoTage_cfg demoTage_base demo_threads (freshOf demoTageParams)
    demoTageRun 0 [demoBranch 0x600 false true; demoBranch 0x700 true true] demoTage_fresh
    demoTageRun_reach _ _).
  - vm_compute. split; congruence.
  - rewrite (proj1 (proj2 demoTageRun_state)). reflexivity.
Defined.

(** ** Outside the expectations of the code *)

(** A branch the front end has not detected gets a placeholder history. *)
Definition placeholderCommit (p : TageParams) (tid : ThreadID) (pc : Addr) (taken : bool)
    (i : StaticInst) (tgt : Addr) : M TAGE (option BranchInfo) :=
  h ← Tage.branchPlaceholder p tid pc false None;
  @Tage.update p (TB.TAGEBase_v p) tid pc taken h false i tgt.

Definition placeholderCorrected (p : TageParams) (tid : ThreadID) (pc : Addr) (taken : bool)
    (i : StaticInst) (tgt : Addr) : M TAGE (option BranchInfo) :=
  h ← Tage.branchPlaceholder p tid pc false None;
  h ← @Tage.update p (TB.TAGEBase_v p) tid pc taken h true i tgt;
  @Tage.update p (TB.TAGEBase_v p) tid pc taken h false i tgt.

(** In every reachable state, committing an undetected conditional branch
    that was not taken, so that nothing corrected it, uses the path history of
    its placeholder, which was never assigned. *)
Theorem tage_placeholder_commit_undefined p t0 r tid pc i tgt :
  tage_cfg p -> base_cfg p -> 0 <= tg_numThreads p -> freshTage p t0 -> baseReach p t0 r ->
  placeholderCommit p tid pc false i tgt (tr_tage r) = Err Undefined.
Proof.
  intros Hcfg Hbase Hn Hf Hr. pose proof (rk_tables _ _ _ (fresh_reach_ok p Hcfg Hbase Hn t0 r Hf Hr)) as Hok.
  set (V := TB.TAGEBase_v p). set (VO := TAGEBase_vok p Hcfg Hbase).
  unfold placeholderCommit, Tage.update. apply wp_then_err, wp_ret. apply wp_then_err.
  apply wp_massert; [done|]. apply wp_then_err. eapply wp_deref; [done|].
  apply wp_then_err, wp_random. intros n. apply wp_then_err. cbn [when bi_condBranch TB.makeBranchInfo negb].
  wp_step. wp_step. apply wp_updateStats. intros l. wp_step.
  eapply (wp_condBranchUpdate p (baseSize p) Hcfg); [by destruct Hok| |done|done|].
  { apply (make_grounded p (baseSize p) Hcfg pc true). }
  intros s' _. unfold mbind, M_bind, zoom, TB.updateHistories. rewrite (tc_spec _ Hcfg). done.
Qed.

Lemma tage_placeholder_commit_undefined_witness :
  placeholderCommit demoTageParams 0 0x404 false demoInst 0x500 (tr_tage demoTageRun) = Err Undefined.
Proof.
  exact (tage_placeholder_commit_undefined demoTageParams (freshOf demoTageParams) demoTageRun 0 0x404
    demoInst 0x500 demoTage_cfg demoTage_base demo_threads demoTage_fresh demoTageRun_reach).
Defined.

Fixpoint repeatM {S A} (n : nat) (m : M S A) : M S unit :=
  match n with O => mret tt | S n' => m ;; repeatM n' m end.

(** An undetected branch trains the wrong entry of the bimodal table: its
    placeholder keeps index 0.  After three taken executions of the branch at
    0x404, whose entry is 1, entry 1 still predicts not taken, and entry 0, which
    belongs to other branches, predicts taken. *)
Theorem tage_placeholder_trains_entry0 :
  TB.bindex demoTageParams 0x404 = 1 /\
  exists t, resMap snd (repeatM 3 (placeholderCorrected demoTageParams 0 0x404 true demoInst 0x500)
                          (freshOf demoTageParams)) = Ok t /\
    btablePrediction (tage t) !! 1%nat = Some false /\ btablePrediction (tage t) !! 0%nat = Some true.
Proof.
  split; [vm_compute; reflexivity|]. set (m := resMap snd _).
  assert (Hm : (match m with Ok t => (btablePrediction (tage t) !! 1%nat, btablePrediction (tage t) !! 0%nat)
     | Err _ => (None, None) end) = (Some false, Some true)).
  { subst m. vm_compute. reflexivity. }
  destruct m as [t|]; [|done]. exists t. injection Hm as -> ->. done.
Qed.

(** A table with fewer than [2^bank] entries is outside the hash function [F],
    which shifts by the difference of the logarithm and the bank. *)
Lemma calc_shift_undefined p bank l tid pc bi s :
  1 <= bank <= nHistoryTables p -> vat (logTagTableSizes p) bank = Some l -> l < bank ->
  isOk (TB.calculateIndicesAndTags p tid pc bi s) = false.
Proof.
  intros Hb Hl Hlt. unfold TB.calculateIndicesAndTags. apply bind_fails. apply (mfold_fails _ _ bank).
  - apply elem_of_seqZ. lia.
  - intros b s'. apply bind_fails. unfold TB.gindex.
    apply bind_fails_r. intros hl s1. apply bind_fails_r. intros log s2.
    apply bind_fails_r. intros th s3. apply bind_fails_r. intros ci s4. apply bind_fails.
    unfold TB.F, TB.logSize. rewrite Hl. unfold mbind at 1, M_bind at 1. cbn [at_index mret M_ret].
    apply bind_fails_r. intros x s5. apply bind_fails_r. intros y s6. apply bind_fails.
    unfold TB.shamt. by destruct (Z.leb_spec 0 (l - bank)); [lia|].
Qed.

(** The configuration of [LTAGE_TAGE] is outside the hash functions: tables 11
    and 12 have [2^9] entries, so [F] shifts by [9 - 11], which is undefined.  No
    conditional branch can be predicted, in any state. *)
Theorem ltage_shift_undefined V tid pc bi s :
  V = TB.TAGEBase_v LTAGE_TAGE_params ->
  vat (logTagTableSizes LTAGE_TAGE_params) 11 = Some 9 /\
  isOk (@TB.tagePredict LTAGE_TAGE_params V tid pc true bi s) = false.
Proof.
  intros ->. split; [reflexivity|].
  unfold TB.tagePredict. cbn [negb v_calculateIndicesAndTags TB.TAGEBase_v]. apply bind_fails.
  apply (calc_shift_undefined _ 11 9); [vm_compute; split; congruence|reflexivity|done].
Qed.

Lemma ltage_shift_undefined_witness :
  isOk (@TB.tagePredict LTAGE_TAGE_params (TB.TAGEBase_v LTAGE_TAGE_params) 0 0x400 true
          (TB.makeBranchInfo LTAGE_TAGE_params 0x400 true) dummyTage) = false.
Proof.
  exact (proj2 (ltage_shift_undefined (TB.TAGEBase_v LTAGE_TAGE_params) 0 0x400
    (TB.makeBranchInfo LTAGE_TAGE_params 0x400 true) dummyTage eq_refl)).
Defined.

Definition smallBuffer : TageParams := demoTageParams <| histBufferSize := 500 |>.

(** [init] asserts that the history buffer is three times as long as the
    longest history, but a rollover copies 2000 bits more.  With a buffer that
    satisfies the assertion and is shorter than that, every history update that
    has to roll over, the first one among them, leaves the buffer. *)
Theorem tage_small_buffer p h bv n :
  0 < maxHist p -> 3 * maxHist p < histBufferSize p < maxHist p + rollbackBuffer ->
  maxHist p < 2 ^ 30 -> Z.of_nat (length (globalHist h)) = histBufferSize p ->
  0 <= ptGhist h < n ->
  TB.rassert (u32 (maxHist p * 3) <? histBufferSize p) = Ok tt /\
  History.updateGHist (histParams p) bv n h = Err OutOfRange.
Proof.
  intros HM HS Hb Hl Hpt. unfold rollbackBuffer in *. split.
  { rewrite u32_small by lia. by destruct (Z.ltb_spec (maxHist p * 3) (histBufferSize p)); [|lia]. }
  unfold History.updateGHist. destruct (Z.eqb_spec n 0); [lia|].
  apply wp_then_err, wp_gets. destruct (Z.ltb_spec (ptGhist h) n); [|lia].
  cbn [when]. unfold History.rollover, rollbackBuffer. cbn [hp_maxHist hp_histBufferSize histParams].
  set (base := u32 _). rewrite (seqZ_cons 0) by lia. cbn [mfor]. unfold mbind, M_bind, gets.
  destruct (vat (globalHist h) (ptGhist h + 0)) as [x|]; cbn; [|done].
  assert (E : vat (globalHist h) (u32 (base + 0)) = None); [|by rewrite E].
  assert (Eb : base = histBufferSize p - maxHist p - 2000 + 2 ^ 32).
  { unfold base, u32. symmetry. apply Z.mod_unique_pos with (q := -1); lia. }
  rewrite u32_small by lia. rewrite vat_nat by lia. apply lookup_ge_None. lia.
Qed.

Lemma tage_small_buffer_witness :
  isOk (TB.init smallBuffer) = true /\
  exists h, threadHistory (tage (freshOf smallBuffer)) = [h] /\
    History.updateGHist (histParams smallBuffer) 1 1 h = Err OutOfRange.
Proof.
  split; [vm_compute; reflexivity|]. eexists. split; [vm_compute; reflexivity|].
  refine (proj2 (tage_small_buffer smallBuffer _ 1 1 _ _ _ _ _)); vm_compute; try split; congruence.
Defined.
