(* ===== verification/TageScl.v ===== *)
(** * The TAGE of TAGE-SC-L: the model

    [cpu/pred/tage_sc_l.hh], [tage_sc_l.cc]: [TAGE_SC_L_TAGE], and its two sizes
    in [tage_sc_l_64KB.cc] and [tage_sc_l_8KB.cc].  It overrides the virtual
    functions of [TAGEBase]: the tables come in pairs with the same history
    length, all tables with short tags share one array of entries and all tables
    with long tags another, a hash of the path selects the part of the array.
    The functions in which the two sizes differ are a class ([SclVirtual]). *)

From Stdlib Require Import ZArith Lia.
From stdpp Require Import base list numbers.
From S2P Require Import Prelude Types CondPred TageHist Tage.

(** The two sizes *)
Inductive SclSize := KB64 | KB8.

(** The members that [TAGE_SC_L_TAGE] adds to [TAGEBase] *)
Record SclParams := mkSclParams {
  firstLongTagTable : Z;
  longTagsSize : Z;
  shortTagsSize : Z;
  logTagTableSize : Z;
  shortTagsTageFactor : Z;
  longTagsTageFactor : Z;
  truncatePathHist : bool
}.

Class SclVirtual := {
  s_gindex_ext : Z -> Z -> M TAGEBase Z;
  s_gtag : ThreadID -> Addr -> Z -> M TAGEBase Z;
  s_handleAllocAndUReset : bool -> bool -> BranchInfo -> Z -> M TAGEBase unit;
  s_handleTAGEUpdate : Addr -> bool -> BranchInfo -> M TAGEBase unit;
}.

Module Scl.

(** ** Construction *)

(** The lengths are first computed for the lower half of [histLengths] and then
    duplicated: 4, 6, 9 become 4, 4, 6, 6, 9, 9.  [nHistoryTables] is even. *)
Definition calculateParameters (sp : SclParams) (p : TageParams) : TageParams :=
  let n := nHistoryTables p in
  let numHistLengths := n / 2 in
  let half i :=
    if i =? 1 then (if numHistLengths =? 1 then maxHist p else minHist p)
    else TB.geometricLength (minHist p) (maxHist p) numHistLengths i in
  p <| histLengths := 0 :: map (fun i => half ((i + 1) / 2)) (seqZ 1 n) |>
    <| tagTableTagWidths ::= fun l => l ++ map (fun i =>
         if i <? firstLongTagTable sp then shortTagsSize sp else longTagsSize sp) (seqZ 1 n) |>
    <| logTagTableSizes ::= fun l => l ++ map (fun _ => logTagTableSize sp) (seqZ 1 n) |>.

Section Operations.
Context (sp : SclParams) (p : TageParams).
#[local] Abbreviation n := (nHistoryTables p).

Definition shortEntries : Z := shortTagsTageFactor sp * 2 ^ logTagTableSize sp.
Definition longEntries : Z := longTagsTageFactor sp * 2 ^ logTagTableSize sp.

(** Tables [1 .. firstLongTagTable - 1] point to one array, the others to
    another. *)
Definition buildTageTables : list (option nat) * list (list TageEntry) :=
  (None :: map (fun i => Some (if i <? firstLongTagTable sp then 0%nat else 1%nat)) (seqZ 1 n),
   [replicate (Z.to_nat shortEntries) (mkTageEntry 0 0 0);
    replicate (Z.to_nat longEntries) (mkTageEntry 0 0 0)]).

Definition random : M TAGEBase Z :=
  r ← gets (fun s => tb_rands s (tb_randPos s));
  modify (fun s => s <| tb_randPos ::= S |>) ;;
  mret r.

(** [(1 << n) - 1] for an [int] *)
Definition lowMask {S} (k : Z) : M S Z :=
  if (0 <=? k) && (k <? 31) then mret (2 ^ k - 1) else fault Undefined.

(** ** Indices and tags *)

Definition F (a size bank : Z) : M TAGEBase Z :=
  log ← TB.logSize p bank;
  let mask := Z.shiftl 1 log - 1 in
  let a := i32 (Z.land (u64 a) (Z.shiftl 1 size - 1)) in
  let a1 := i32 (Z.land (u64 a) mask) in
  l ← TB.shamt log;
  let a2 := Z.shiftr a l in
  let rotate x := i32 (Z.land (u64 (i32 (Z.shiftl x bank))) mask + Z.shiftr x (log - bank)) in
  let a2 := if bank <? log then rotate a2 else a2 in
  let a := Z.lxor a1 a2 in
  mret (if bank <? log then rotate a else a).

Definition bindex (pc : Addr) : Z :=
  let shifted_pc := Z.shiftr pc (tg_instShiftAmt p) in
  Z.land (Z.lxor shifted_pc (Z.shiftr shifted_pc 2))
    (Z.shiftl 1 (default 0 (vat (logTagTableSizes p) 0)) - 1).

Definition getUseAltIdx (bi : BranchInfo) (branch_pc : Addr) : Z :=
  u32 (Z.shiftl (Z.quot (hitBank bi - 1) 8) 1 + (if bi_altConf bi then 1 else 0))
    mod (numUseAltOnNa p - 1).

Context {SV : SclVirtual}.

Definition gindex (tid : ThreadID) (pc : Addr) (bank : Z) : M TAGEBase Z :=
  hl ← at_index (vat (histLengths p) bank);
  let hlen := if pathHistBits p <? hl then pathHistBits p else hl in
  let shifted_pc := u32 (Z.shiftr pc (tg_instShiftAmt p)) in
  log ← TB.logSize p bank;
  th ← TB.thread tid;
  ci ← at_index (vat (computeIndices th) bank);
  f ← F (pathHist th) hlen bank;
  let index := i32 (Z.lxor (Z.lxor (Z.lxor shifted_pc
                 (Z.shiftr shifted_pc (Z.abs (log - bank) + 1))) (comp ci)) (u32 f)) in
  index ← s_gindex_ext index bank;
  mret (Z.land (u64 index) (Z.shiftl 1 log - 1)).

(** A round of the first loop of [calculateIndicesAndTags]: tables [i] and
    [i + 1] *)
Definition indexPair (tid : ThreadID) (pc : Addr) (bi : BranchInfo) (i : Z) : M TAGEBase BranchInfo :=
  idx ← gindex tid pc i;
  modify (fun s => s <| tableIndices ::= TB.setCell i idx |>) ;;
  tag ← s_gtag tid pc i;
  modify (fun s => s <| tableTags ::= TB.setCell i tag |>) ;;
  s ← gets (fun s => s);
  at_index (vat (tableTags s) (i + 1)) ;;
  log ← TB.logSize p i;
  m ← lowMask log;
  modify (fun s => s <| tableTags ::= TB.setCell (i + 1) tag |>
                     <| tableIndices ::= TB.setCell (i + 1) (Z.lxor idx (Z.land tag m)) |>) ;;
  mret (bi <| bi_tableTags ::= TB.setCell i (Some tag) |>
           <| bi_tableTags ::= TB.setCell (i + 1) (Some tag) |>).

(** The two loops that select a part of the shared array: the offset grows by one
    from table to table. *)
Definition spread (factor : Z) (banks : list Z) (t0 : Z) (bi : BranchInfo) : M TAGEBase BranchInfo :=
  r ← mfold banks (fun '(t, bi) i =>
    ns ← at_index (vat (noSkip p) i);
    if (ns : bool) then
      log ← TB.logSize p i;
      s ← gets (fun s => s);
      ti ← at_index (vat (tableIndices s) i);
      let x := i32 (ti + Z.shiftl t log) in
      modify (fun s => s <| tableIndices ::= TB.setCell i x |>) ;;
      mret ((t + 1) mod factor, bi <| bi_tableIndices ::= TB.setCell i (Some x) |>)
    else mret (t, bi)) (t0, bi);
  mret (snd r).

(** [(shifted_pc ^ (pathHist & ((1 << histLengths[bank]) - 1))) % factor] *)
Definition bankOffset (tid : ThreadID) (pc : Addr) (bank factor : Z) : M TAGEBase Z :=
  hl ← at_index (vat (histLengths p) bank);
  m ← lowMask hl;
  th ← TB.thread tid;
  if factor =? 0 then fault DivByZero else
  mret (Z.lxor (Z.shiftr pc (tg_instShiftAmt p)) (Z.land (pathHist th) m) mod factor).

Definition calculateIndicesAndTags (tid : ThreadID) (pc : Addr) (bi : BranchInfo)
  : M TAGEBase BranchInfo :=
  bi ← mfold (map (fun k => 2 * k + 1) (seqZ 0 ((n + 1) / 2))) (indexPair tid pc) bi;
  t ← bankOffset tid pc (firstLongTagTable sp) (longTagsTageFactor sp);
  bi ← spread (longTagsTageFactor sp)
         (seqZ (firstLongTagTable sp) (n + 1 - firstLongTagTable sp)) t bi;
  t ← bankOffset tid pc 1 (shortTagsTageFactor sp);
  spread (shortTagsTageFactor sp) (seqZ 1 (firstLongTagTable sp - 1)) t bi.

(** ** Histories *)

Definition branchTypeExtra (inst : StaticInst) : Z :=
  (if isDirectCtrl inst then 0 else 2) + (if isUncondCtrl inst then 0 else 1).

(** The loop of [calcNewPathHist]: [k] rounds are left *)
Fixpoint shiftPath (k : nat) (path cur_phist : Z) : Z :=
  match k with
  | O => cur_phist
  | S k' =>
      let cur := i32 (Z.lxor (i32 (Z.shiftl cur_phist 1)) (Z.land path 127)) in
      let cur := if truncatePathHist sp
                 then i32 (Z.land (u64 cur) (Z.shiftl 1 (pathHistBits p) - 1)) else cur in
      shiftPath k' (Z.shiftr path 1) cur
  end.

Definition calcNewPathHist (pc : Addr) (cur_phist : Z) (taken : bool) (brtype : Z) (target : Addr)
  : Z :=
  if takenOnlyHistory p && negb taken then cur_phist else
  let shifted_pc := Z.shiftr pc (tg_instShiftAmt p) in
  let shifted_target := Z.shiftr target (tg_instShiftAmt p) in
  let path := i32 (Z.lxor (Z.lxor shifted_pc (Z.shiftr shifted_pc 2)) (Z.shiftr shifted_pc 4)) in
  let path :=
    if (brtype =? 3) && taken
    then i32 (Z.lxor (Z.lxor (u64 path) (Z.shiftr shifted_target 2)) (Z.shiftr shifted_target 4))
    else path in
  shiftPath (if brtype =? 2 then 3 else 2) path cur_phist.

Definition updatePathAndGlobalHistory (tid : ThreadID) (brtype : Z) (taken : bool)
    (branch_pc target : Addr) (bi : BranchInfo) : M TAGEBase BranchInfo :=
  TB.onThread tid (modify (fun h =>
    h <| pathHist := calcNewPathHist branch_pc (pathHist h) taken brtype target |>)) ;;
  let shifted_pc := Z.shiftr branch_pc (tg_instShiftAmt p) in
  let shifted_target := Z.shiftr target (tg_instShiftAmt p) in
  let bi :=
    if takenOnlyHistory p then
      if taken then
        bi <| bi_ghist := Z.lxor (Z.shiftr shifted_pc 2) (Z.shiftr shifted_target 3) |>
           <| bi_nGhist := 2 |>
      else bi
    else
      let g := Z.lxor (Z.lxor shifted_pc (Z.shiftr shifted_pc 2)) (if taken then 1 else 0) in
      let g := if (brtype =? 3) && taken then Z.lxor g (Z.shiftr shifted_target 2) else g in
      bi <| bi_ghist := g |> <| bi_nGhist := if brtype =? 2 then 3 else 2 |> in
  TB.updateGHist p tid (bi_ghist bi) (bi_nGhist bi) ;;
  mret bi.

(** ** Prediction *)

Definition getBimodePred (pc : Addr) (bi : BranchInfo) : M TAGEBase (bool * BranchInfo) :=
  s ← gets (fun s => s);
  bp ← at_index (vat (btablePrediction s) (bimodalIndex bi));
  bh ← at_index (vat (btableHysteresis s) (Z.shiftr (bimodalIndex bi) (logRatioBiModalHystEntries p)));
  let bim := 2 * (if (bp : bool) then 1 else 0) + (if (bh : bool) then 1 else 0) in
  let high := (bim =? 0) || (bim =? 3) in
  TB.getBimodePred pc (bi <| bi_highConf := high |> <| bi_lowConf := negb high |>
                          <| bi_altConf := high |> <| bi_medConf := false |>).

(** [getBimodePred(Addr)], the first-level prediction *)
Definition getBimodePredL1 (pc : Addr) : M TAGEBase bool :=
  o ← gets (fun s => vat (btablePrediction s) (bindex pc)); at_index o.

(** [abs(2 * ctr + 1)] *)
Definition strength (c : Z) : Z := Z.abs (2 * c + 1).

Definition extraAltCalc (bi : BranchInfo) : M TAGEBase BranchInfo :=
  e ← TB.entryAt (altBank bi) (altBankIndex bi);
  mret (bi <| bi_altConf := 1 <? strength (te_ctr e) |>).

(** ** Allocation *)

Definition adjustAlloc (alloc taken pred_taken : bool) : M TAGEBase bool :=
  if eqb taken pred_taken then
    r ← random; mret (if negb (Z.land r 31 =? 0) then false else alloc)
  else mret alloc.

Definition calcDep (bi : BranchInfo) : M TAGEBase Z :=
  r ← random;
  let a := if Z.land r 127 <? 32 then 2 else 1 in
  r' ← random;
  mret (Z.lxor (Z.land (hitBank bi - 1 + 2 * a) 0xffe) (Z.land r' 1)).

(** [handleUReset] with the [resetUctr] of the size *)
Definition handleUReset (resetUctr : Z -> Z) : M TAGEBase unit :=
  modify (fun s => s <| tCounter ::= Z.max 0 |>) ;;
  t ← gets tCounter;
  when (Z.shiftl 1 (logUResetPeriod p) <=? t)
    (mfor (seqZ 0 shortEntries) (fun j =>
       TB.setEntry 1 j (fun e => e <| te_u ::= resetUctr |>)) ;;
     mfor (seqZ 0 longEntries) (fun j =>
       TB.setEntry (firstLongTagTable sp) j (fun e => e <| te_u ::= resetUctr |>)) ;;
     modify (fun s => s <| tCounter := 0 |>)).

(** The end of [handleTAGEUpdate], common to the sizes *)
Definition promoteUseful (taken : bool) (bi : BranchInfo) : M TAGEBase unit :=
  if negb (eqb (longestMatchPred bi) (altTaken bi)) && eqb (longestMatchPred bi) taken then
    e ← TB.entryAt (hitBank bi) (hitBankIndex bi);
    when (te_u e <? 2 ^ tagTableUBits p - 1)
      (TB.setEntry (hitBank bi) (hitBankIndex bi) (fun x => x <| te_u := te_u e + 1 |>))
  else mret tt.

(** The reset of the useful bit of an entry whose alternate is strong *)
Definition demoteRedundant (taken : bool) (bi : BranchInfo) : M TAGEBase unit :=
  when (eqb (altTaken bi) taken && (0 <? altBank bi))
    (a ← TB.entryAt (altBank bi) (altBankIndex bi);
     when (strength (te_ctr a) =? 7)
       (e ← TB.entryAt (hitBank bi) (hitBankIndex bi);
        when ((te_u e =? 1) && eqb (longestMatchPred bi) taken)
          (TB.setEntry (hitBank bi) (hitBankIndex bi) (fun e => e <| te_u := 0 |>)))).

(** [if (abs(2 * ctr + 1) == 1) u = 0] for an entry *)
Definition clearWeak (bank idx : Z) : M TAGEBase unit :=
  e ← TB.entryAt bank idx;
  when (strength (te_ctr e) =? 1) (TB.setEntry bank idx (fun e => e <| te_u := 0 |>)).

(** ** The virtual functions of [TAGEBase] *)
Definition Scl_v : TageVirtual := {|
  v_calculateIndicesAndTags := calculateIndicesAndTags;
  v_bindex := bindex;
  v_getBimodePred := getBimodePred;
  v_extraAltCalc := extraAltCalc;
  v_getUseAltIdx := getUseAltIdx;
  v_adjustAlloc := adjustAlloc;
  v_handleAllocAndUReset := s_handleAllocAndUReset;
  v_handleTAGEUpdate := s_handleTAGEUpdate;
  v_branchTypeExtra := branchTypeExtra;
  v_calcNewPathHist := calcNewPathHist;
  v_updatePathAndGlobalHistory := updatePathAndGlobalHistory
|}.
End Operations.
End Scl.
