(* ===== verification/TageSclSizes.v ===== *)
(** * The two sizes of the TAGE of TAGE-SC-L

    [TAGE_SC_L_TAGE_64KB] ([cpu/pred/tage_sc_l_64KB.cc]) and
    [TAGE_SC_L_TAGE_8KB] ([cpu/pred/tage_sc_l_8KB.cc]), with the configurations of
    [BranchPredictor.py]. *)

From Stdlib Require Import ZArith Lia.
From stdpp Require Import base list numbers.
From S2P Require Import Prelude Types CondPred TageHist Tage TageScl.

(** ** 64 KB *)
Module Scl64.
Section Operations.
Context (sp : SclParams) (p : TageParams).
#[local] Abbreviation n := (nHistoryTables p).

Definition gindex_ext (index bank : Z) : M TAGEBase Z := mret index.

Definition gtag (tid : ThreadID) (pc : Addr) (bank : Z) : M TAGEBase Z :=
  w ← at_index (vat (tagTableTagWidths p) bank);
  th ← TB.thread tid;
  c0 ← at_index (vat (computeTags0 th) bank);
  c1 ← at_index (vat (computeTags1 th) bank);
  let tag := i32 (Z.lxor (Z.lxor (Z.shiftr pc (tg_instShiftAmt p)) (comp c0))
                   (u32 (Z.shiftl (comp c1) 1))) in
  mret (u16 (Z.land (u64 tag) (Z.shiftl 1 w - 1))).

(** One table of the allocation: whether it was allocated, and the penalty *)
Definition tryTable (i : Z) (taken : bool) (bi : BranchInfo) : M TAGEBase (bool * Z) :=
  ns ← at_index (vat (noSkip p) i);
  if negb ns then mret (false, 0) else
  ti ← TB.cell (bi_tableIndices bi) i;
  e ← TB.entryAt i ti;
  if te_u e =? 0 then
    if Scl.strength (te_ctr e) <=? 3 then
      tag ← TB.cell (bi_tableTags bi) i;
      TB.setEntry i ti (fun e => e <| te_tag := u16 tag |> <| te_ctr := if taken then 0 else -1 |>) ;;
      mret (true, 0)
    else
      TB.setEntry i ti (fun x => x <| te_ctr := if 0 <? te_ctr e then te_ctr e - 1 else te_ctr e + 1 |>) ;;
      mret (false, 0)
  else mret (false, 1).

(** The loop over the pairs of tables; an allocation skips the next pair. *)
Fixpoint allocLoop (fuel : nat) (I : Z) (taken : bool) (bi : BranchInfo) (penalty numAllocated : Z)
  : M TAGEBase (Z * Z) :=
  match fuel with
  | O => fault Hang
  | S fuel' =>
      let allocated pen : M TAGEBase (Z * Z) :=
        if numAllocated + 1 =? maxNumAlloc p then mret (pen, numAllocated + 1)
        else allocLoop fuel' (I + 4) taken bi pen (numAllocated + 1) in
      if I <? n then
        a ← tryTable (I + 1) taken bi;
        if fst (a : bool * Z) then allocated (penalty + snd a) else
        b ← tryTable (Z.lxor I 1 + 1) taken bi;
        if fst (b : bool * Z) then allocated (penalty + snd a + snd b) else
        allocLoop fuel' (I + 2) taken bi (penalty + snd a + snd b) numAllocated
      else mret (penalty, numAllocated)
  end.

Definition handleAllocAndUReset (alloc taken : bool) (bi : BranchInfo) (nrand : Z)
  : M TAGEBase unit :=
  if negb alloc then mret tt else
  I ← Scl.calcDep bi;
  r ← allocLoop (S (Z.to_nat n)) I taken bi 0 0;
  modify (fun s => s <| tCounter ::= fun c => c + (fst r - 2 * snd r) |>) ;;
  Scl.handleUReset sp p TB.resetUctr.

Definition handleTAGEUpdate (branch_pc : Addr) (taken : bool) (bi : BranchInfo) : M TAGEBase unit :=
  (if 0 <? hitBank bi then
     e ← TB.entryAt (hitBank bi) (hitBankIndex bi);
     when ((Scl.strength (te_ctr e) =? 1) && negb (eqb (longestMatchPred bi) taken))
       (when (0 <? altBank bi) (TB.updateEntryCtr p (altBank bi) (altBankIndex bi) taken) ;;
        when (altBank bi =? 0) (TB.baseUpdate p branch_pc taken bi)) ;;
     TB.updateEntryCtr p (hitBank bi) (hitBankIndex bi) taken ;;
     Scl.clearWeak (hitBank bi) (hitBankIndex bi) ;;
     Scl.demoteRedundant taken bi
   else TB.baseUpdate p branch_pc taken bi) ;;
  Scl.promoteUseful p taken bi.

Definition Scl64_v : SclVirtual := {|
  s_gindex_ext := gindex_ext;
  s_gtag := gtag;
  s_handleAllocAndUReset := handleAllocAndUReset;
  s_handleTAGEUpdate := handleTAGEUpdate
|}.
End Operations.

Definition init (sp : SclParams) (p : TageParams) (rands : nat -> Z) : Res TAGEBase :=
  TB.initWith p (Scl.buildTageTables sp p) rands.

Definition configure (sp : SclParams) (p : TageParams) : TageParams :=
  TB.initFoldedHistories (Scl.calculateParameters sp (TB.construct p)).
End Scl64.

(** ** 8 KB *)
Module Scl8.

(** The hard-coded lengths of [initFoldedHistories] *)
Definition initFoldedHistories (p : TageParams) : TageParams :=
  let banks := seqZ 1 (nHistoryTables p) in
  p <| indexFold := 0 :: map (fun i => 17 + (2 * ((i - 1) / 2)) mod 4) banks |>
    <| tagFold0 := 0 :: map (fun _ => 13) banks |>
    <| tagFold1 := 0 :: map (fun _ => 11) banks |>.

(** What happens to one table of the allocation *)
Inductive Way := WBreak | WAllocated | WPenalty (truePen : Z).

Section Operations.
Context (sp : SclParams) (p : TageParams).
#[local] Abbreviation n := (nHistoryTables p).

Definition gindex_ext (index bank : Z) : M TAGEBase Z :=
  log ← TB.logSize p bank;
  l1 ← TB.shamt log;
  l2 ← TB.shamt (2 * log);
  mret (Z.lxor (Z.lxor index (Z.shiftr index l1)) (Z.shiftr index l2)).

Definition gtag (tid : ThreadID) (pc : Addr) (bank : Z) : M TAGEBase Z :=
  let shifted_pc := Z.shiftr pc (tg_instShiftAmt p) in
  th ← TB.thread tid;
  cp ← at_index (vat (computeIndices th) (bank - 1));
  ci ← at_index (vat (computeIndices th) bank);
  let tag := i32 (Z.lxor (Z.lxor (Z.lxor (u32 (Z.shiftl (comp cp) 2)) shifted_pc)
                     (Z.shiftr shifted_pc 2)) (comp ci)) in
  hl ← at_index (vat (histLengths p) bank);
  let hlen := if pathHistBits p <? hl then pathHistBits p else hl in
  f ← Scl.F p (pathHist th) hlen bank;
  let tag := Z.lxor (Z.lxor (Z.shiftr tag 1) (Z.shiftl (Z.land tag 1) 10)) f in
  c0 ← at_index (vat (computeTags0 th) bank);
  c1 ← at_index (vat (computeTags1 th) bank);
  let tag := i32 (Z.lxor tag (Z.lxor (comp c0) (u32 (Z.shiftl (comp c1) 1)))) in
  w ← at_index (vat (tagTableTagWidths p) bank);
  l ← TB.shamt w;
  mret (u16 (Z.land (u64 (Z.lxor tag (Z.shiftr tag l))) (Z.shiftl 1 w - 1))).

Definition resetUctr (u : Z) : Z := if 0 <? u then u - 1 else u.

Definition tryTable (i : Z) (taken : bool) (bi : BranchInfo) : M TAGEBase Way :=
  if n <? i then mret WBreak else
  ns ← at_index (vat (noSkip p) i);
  if negb ns then mret WBreak else
  ti ← TB.cell (bi_tableIndices bi) i;
  e ← TB.entryAt i ti;
  if te_u e =? 0 then
    r ← Scl.random;
    tag ← TB.cell (bi_tableTags bi) i;
    TB.setEntry i ti (fun e => e <| te_u := if Z.land r 31 =? 0 then 1 else 0 |>
      <| te_tag := u16 tag |> <| te_ctr := if taken then 0 else -1 |>) ;;
    mret WAllocated
  else if (te_u e =? 1) && (Scl.strength (te_ctr e) =? 1) then
    r ← Scl.random;
    when (Z.land r 7 =? 0) (TB.setEntry i ti (fun e => e <| te_u := 0 |>)) ;;
    mret (WPenalty 0)
  else mret (WPenalty 1).

(** The loop over the pairs of tables: [pens] is [truePen + penalty].  The result is
    the penalty and the number of allocations. *)
Fixpoint allocLoop (fuel : nat) (I : Z) (taken : bool) (bi : BranchInfo) (pens numAllocated : Z)
  : M TAGEBase (Z * Z) :=
  match fuel with
  | O => fault Hang
  | S fuel' =>
      (* the second way of the pair, for the current values of [I] and the counts *)
      let second I pens num : M TAGEBase (Z * Z) :=
        b ← tryTable (Z.lxor I 1 + 1) taken bi;
        match b with
        | WBreak => allocLoop fuel' (I + 2) taken bi pens num
        | WAllocated =>
            if num + 1 =? maxNumAlloc p then mret (pens, num + 1)
            else allocLoop fuel' (I + 4) taken bi pens (num + 1)
        | WPenalty t => allocLoop fuel' (I + 2) taken bi (pens + 1 + t) num
        end in
      if I <? n then
        a ← tryTable (I + 1) taken bi;
        match a with
        | WBreak => allocLoop fuel' (I + 2) taken bi pens numAllocated
        | WAllocated =>
            if numAllocated + 1 =? maxNumAlloc p then mret (pens, numAllocated + 1)
            else second (I + 2) pens (numAllocated + 1)
        | WPenalty t => second I (pens + 1 + t) numAllocated
        end
      else mret (pens, numAllocated)
  end.

Definition handleAllocAndUReset (alloc taken : bool) (bi : BranchInfo) (nrand : Z)
  : M TAGEBase unit :=
  if negb alloc then mret tt else
  I ← Scl.calcDep bi;
  r ← allocLoop (S (Z.to_nat n)) I taken bi 0 0;
  modify (fun s => s <| tCounter ::= fun c => c + (fst r - 5 * snd r) |>) ;;
  Scl.handleUReset sp p resetUctr.

Definition handleTAGEUpdate (branch_pc : Addr) (taken : bool) (bi : BranchInfo) : M TAGEBase unit :=
  (if 0 <? hitBank bi then
     e ← TB.entryAt (hitBank bi) (hitBankIndex bi);
     when ((Scl.strength (te_ctr e) =? 1) && negb (eqb (longestMatchPred bi) taken))
       (when (0 <? altBank bi)
          (Scl.clearWeak (altBank bi) (altBankIndex bi) ;;
           TB.updateEntryCtr p (altBank bi) (altBankIndex bi) taken ;;
           Scl.clearWeak (altBank bi) (altBankIndex bi)) ;;
        when (altBank bi =? 0) (TB.baseUpdate p branch_pc taken bi)) ;;
     Scl.clearWeak (hitBank bi) (hitBankIndex bi) ;;
     TB.updateEntryCtr p (hitBank bi) (hitBankIndex bi) taken ;;
     Scl.clearWeak (hitBank bi) (hitBankIndex bi) ;;
     Scl.demoteRedundant taken bi
   else TB.baseUpdate p branch_pc taken bi) ;;
  Scl.promoteUseful p taken bi.

Definition Scl8_v : SclVirtual := {|
  s_gindex_ext := gindex_ext;
  s_gtag := gtag;
  s_handleAllocAndUReset := handleAllocAndUReset;
  s_handleTAGEUpdate := handleTAGEUpdate
|}.
End Operations.

Definition init (sp : SclParams) (p : TageParams) (rands : nat -> Z) : Res TAGEBase :=
  TB.initWith p (Scl.buildTageTables sp p) rands.

Definition configure (sp : SclParams) (p : TageParams) : TageParams :=
  initFoldedHistories (Scl.calculateParameters sp (TB.construct p)).
End Scl8.

(** ** Configurations *)

Definition TAGE_64KB_scl : SclParams := mkSclParams 13 12 8 10 10 20 true.

Definition TAGE_64KB_params : TageParams := Eval vm_compute in Scl64.configure TAGE_64KB_scl
  (mkTageParams 1 2 36 6 3000 [0] [13] [] [] [] [] 2 3 1 2097152 27 10 16 (2 ^ 9) 5 2
     [false; false; true; false; false; false; true; false; false; true; true; true; true;
      true; true; true; true; true; true; true; true; true; true; false; true; false; true;
      false; true; false; false; false; true; false; false; false; true] true true).

Definition TAGE_8KB_scl : SclParams := mkSclParams 11 12 8 7 9 17 false.

Definition TAGE_8KB_params : TageParams := Eval vm_compute in Scl8.configure TAGE_8KB_scl
  (mkTageParams 1 2 30 4 1000 [0] [12] [] [] [] [] 2 3 2 2097152 27 10 16 (2 ^ 9) 5 2
     [false; false; true; false; true; false; true; true; true; true; true; true; true;
      true; true; true; true; true; true; true; true; false; true; false; true; false; true;
      false; true; false; true] true true).
