(* ===== verification/TageSclOk.v ===== *)
(** * The TAGE of TAGE-SC-L keeps the contract

    [Scl_v] discharges [VirtualOk] for any size that keeps [SclOk]: the indices
    computed in pairs and spread over the shared arrays stay inside them,
    prediction and history updates are as the contract asks. *)

From Stdlib Require Import ZArith Lia.
From stdpp Require Import base list numbers.
From S2P Require Import Prelude Types CondPred TageHist Tage TageInv TageBaseOk TageScl.

(** The configurations in which the code is defined: [1 << histLengths[i]] is
    computed as an [int] for the first table of each array, and the tables come in
    pairs. *)
Record scl_cfg (sp : SclParams) (p : TageParams) : Prop := {
  sc_even : exists k, nHistoryTables p = 2 * k;
  sc_first : 2 <= firstLongTagTable sp <= nHistoryTables p;
  sc_log : 0 <= logTagTableSize sp <= 30;
  sc_logs : forall i, 1 <= i <= nHistoryTables p -> vat (logTagTableSizes p) i = Some (logTagTableSize sp);
  sc_short : 1 <= shortTagsTageFactor sp /\ Scl.shortEntries sp <= 2 ^ 31;
  sc_long : 1 <= longTagsTageFactor sp /\ Scl.longEntries sp <= 2 ^ 31;
  sc_hist1 : exists h, vat (histLengths p) 1 = Some h /\ 0 <= h <= 30;
  sc_histL : exists h, vat (histLengths p) (firstLongTagTable sp) = Some h /\ 0 <= h <= 30;
  sc_na : 2 <= numUseAltOnNa p
}.

(** The number of entries that table [i] can be indexed with *)
Definition sclSize (sp : SclParams) (i : Z) : Z :=
  if i <? firstLongTagTable sp then Scl.shortEntries sp else Scl.longEntries sp.

(** The enabled tables can be used for an allocation. *)
Definition sclIndexed (sp : SclParams) (p : TageParams) (ti tg : list (option Z)) : Prop :=
  forall i, 1 <= i <= nHistoryTables p -> vat (noSkip p) i = Some true -> exists x t,
    vat ti i = Some (Some x) /\ 0 <= x < sclSize sp i /\ vat tg i = Some (Some t).

(** ** The contract of a size *)
Class SclOk (sp : SclParams) (p : TageParams) {SV : SclVirtual} := {
  so_ext s index bank :
    1 <= bank <= nHistoryTables p -> wp (s_gindex_ext index bank) (fun _ s' => s' = s) s;
  so_gtag s tid pc bank :
    tb_ok p (sclSize sp) s -> 0 <= tid < tg_numThreads p -> 1 <= bank <= nHistoryTables p ->
    wp (s_gtag tid pc bank) (fun t s' => s' = s /\ 0 <= t) s;
  so_alloc s (alloc taken : bool) bi nrand :
    tb_ok p (sclSize sp) s -> bi_ok p (sclSize sp) bi ->
    (alloc = true -> hitBank bi < nHistoryTables p /\
       sclIndexed sp p (bi_tableIndices bi) (bi_tableTags bi)) ->
    wp (s_handleAllocAndUReset alloc taken bi nrand) (fun _ s' =>
      tables_kept p (sclSize sp) s s') s;
  so_update s pc taken bi :
    tb_ok p (sclSize sp) s -> bi_ok p (sclSize sp) bi -> no_hit bi ->
    wp (s_handleTAGEUpdate pc taken bi) (fun _ s' => tables_kept p (sclSize sp) s s') s
}.

Lemma wp_lowMask {S} k (s : S) Q : 0 <= k <= 30 -> Q (2 ^ k - 1) s -> wp (Scl.lowMask k) Q s.
Proof.
  intros Hk HQ. unfold Scl.lowMask. destruct (Z.leb_spec 0 k), (Z.ltb_spec k 31); try lia.
  by apply wp_ret.
Qed.

Lemma lxor_pow2_below a b l : 0 <= a < 2 ^ l -> 0 <= b < 2 ^ l -> 0 <= Z.lxor a b < 2 ^ l.
Proof.
  intros Ha Hb. assert (Hl : 0 <= l).
  { destruct (Z.lt_ge_cases l 0); [|done]. rewrite (Z.pow_neg_r 2 l) in Ha by lia. lia. }
  by apply lxor_below.
Qed.

Section Scl.
Context (sp : SclParams) (p : TageParams) (Hcfg : tage_cfg p) (Hs : scl_cfg sp p).
Context {SV : SclVirtual} {SO : SclOk sp p}.
#[local] Abbreviation size := (sclSize sp).
#[local] Abbreviation ok := (tb_ok p size).
#[local] Abbreviation hp := (histParams p).
#[local] Abbreviation log := (logTagTableSize sp).
#[local] Abbreviation n := (nHistoryTables p).

(** ** Indices and tags *)

Lemma wp_logSize {S} i (s : S) Q : 1 <= i <= n -> Q log s -> wp (TB.logSize p i) Q s.
Proof. intros Hi HQ. unfold TB.logSize. eapply wp_at_index; [by apply (sc_logs _ _ Hs)|done]. Qed.

Lemma wp_scl_F s A sz bank (Q : Z -> TAGEBase -> Prop) :
  1 <= bank <= n -> (forall r, Q r s) -> wp (Scl.F p A sz bank) Q s.
Proof.
  intros Hb HQ. destruct (sc_log _ _ Hs). unfold Scl.F. wp_step. apply wp_logSize; [done|]. wp_step.
  apply wp_shamt; [lia|]. wp_steps. apply HQ.
Qed.

Lemma wp_scl_gindex s tid pc bank (Q : Z -> TAGEBase -> Prop) :
  ok s -> 0 <= tid < tg_numThreads p -> 1 <= bank <= n ->
  (forall x, 0 <= x < 2 ^ log -> Q x s) -> wp (Scl.gindex p tid pc bank) Q s.
Proof.
  intros Hok Ht Hb HQ. destruct (thread_at p size s tid Hok Ht) as (h & hist & Hh & Hr).
  destruct (bc_hist _ _ (tc_banks _ Hcfg bank Hb)) as (o & Ho & _). destruct (sc_log _ _ Hs).
  destruct (regs_at p _ hist (computeIndices h) bank (tr_ci _ _ _ Hr) Hb) as [f Hf].
  unfold Scl.gindex. wp_steps. eapply wp_at_index; [exact Ho|]. wp_steps.
  apply wp_logSize; [done|]. wp_steps. eapply wp_tb_thread; [exact Hh|]. wp_steps.
  eapply wp_at_index; [exact Hf|]. wp_steps. apply wp_scl_F; [done|]. intros r. wp_steps.
  eapply wp_mono; [by apply so_ext|]. intros ix s' ->. wp_steps. apply HQ.
  apply masked_below. lia.
Qed.

(** A table with an index before its part of the array is selected *)
Definition paired (s : TAGEBase) (bi : BranchInfo) (i : Z) : Prop :=
  exists x t, vat (tableIndices s) i = Some x /\ 0 <= x < 2 ^ log /\
    vat (tableTags s) i = Some t /\ vat (bi_tableTags bi) i = Some (Some t).

(** A table with its final index *)
Definition placed (s : TAGEBase) (bi : BranchInfo) (i : Z) : Prop :=
  exists x t, vat (tableIndices s) i = Some x /\ 0 <= x < size i /\
    vat (tableTags s) i = Some t /\ vat (bi_tableIndices bi) i = Some (Some x) /\
    vat (bi_tableTags bi) i = Some (Some t).

(** What the loops of [calculateIndicesAndTags] keep *)
Record calculating (s0 : TAGEBase) (bi0 : BranchInfo) (bi : BranchInfo) (s : TAGEBase) : Prop := {
  cl_ok : ok s;
  cl_only : scratch_only s0 s;
  cl_bi : bi_ok p size bi;
  cl_calc : bi_calc bi0 bi
}.

Lemma calculating_step s0 bi0 bi s fi ft gi gt :
  calculating s0 bi0 bi s ->
  (forall l, length (fi l) = length l) -> (forall l, length (ft l) = length l) ->
  (forall l, length (gi l) = length l) -> (forall l, length (gt l) = length l) ->
  calculating s0 bi0 (bi <| bi_tableIndices ::= gi |> <| bi_tableTags ::= gt |>)
    (s <| tableIndices ::= fi |> <| tableTags ::= ft |>).
Proof.
  intros [Hok Honly Hbi Hcalc] Hfi Hft Hgi Hgt. constructor.
  - destruct Hok. constructor; try assumption; cbn; congruence.
  - etrans; [exact Honly|]. by destruct s.
  - destruct Hbi. constructor; try assumption; cbn; congruence.
  - etrans; [exact Hcalc|]. by destruct bi.
Qed.

Lemma wp_indexPair s0 bi0 s tid pc bi i (Q : BranchInfo -> TAGEBase -> Prop) :
  calculating s0 bi0 bi s -> 0 <= tid < tg_numThreads p -> 1 <= i -> i + 1 <= n ->
  (forall bi' s', calculating s0 bi0 bi' s' -> paired s' bi' i -> paired s' bi' (i + 1) ->
     (forall j, j <> i -> j <> i + 1 -> paired s bi j -> paired s' bi' j) -> Q bi' s') ->
  wp (Scl.indexPair p tid pc bi i) Q s.
Proof.
  intros Hc Ht Hi Hn HQ. pose proof Hc as [Hok Honly Hbi _].
  pose proof (to_scratchI _ _ _ Hok) as LI. pose proof (to_scratchT _ _ _ Hok) as LT.
  pose proof (bk_tt _ _ _ Hbi) as BT. destruct (sc_log _ _ Hs).
  unfold Scl.indexPair. wp_step. apply wp_scl_gindex; [done..|lia|]. intros x Hx. wp_steps.
  set (s1 := setf tableIndices _ s).
  assert (Hok1 : ok s1).
  { assert (E : s1 = s <| tableIndices := TB.setCell i x (tableIndices s) |>
      <| tableTags := tableTags s |>) by (by destruct s).
    rewrite E. apply ok_scratch; [done|apply length_setCell|done]. }
  eapply wp_mono; [by apply so_gtag; [| |lia]|]. intros t s' [-> Ht0]. wp_steps.
  destruct (vat_lt (tableTags (setf tableTags (TB.setCell i t) s1)) (i + 1)) as [u Hu].
  { cbn. rewrite length_setCell. lia. }
  eapply wp_at_index; [exact Hu|]. wp_steps. apply wp_logSize; [lia|]. wp_steps.
  apply wp_lowMask; [lia|]. wp_steps.
  set (y := Z.lxor x (Z.land t (2 ^ log - 1))).
  assert (Hy : 0 <= y < 2 ^ log) by (apply lxor_pow2_below; [done|by apply land_mask_bound]).
  match goal with |- Q ?b ?st => set (bi' := b); set (s' := st) end.
  assert (Es : s' = s <| tableIndices ::= fun l => TB.setCell (i + 1) y (TB.setCell i x l) |>
    <| tableTags ::= fun l => TB.setCell (i + 1) t (TB.setCell i t l) |>) by (by destruct s).
  assert (Eb : bi' = bi <| bi_tableIndices ::= fun l => l |>
    <| bi_tableTags ::= fun l => TB.setCell (i + 1) (Some t) (TB.setCell i (Some t) l) |>)
    by (by destruct bi).
  rewrite Es, Eb. apply HQ.
  - apply calculating_step; [done| | |done|]; intros l; by rewrite !length_setCell.
  - exists x, t. cbn. rewrite !(vat_setCell_ne _ (i + 1) i) by lia.
    rewrite !vat_setCell_eq by lia. done.
  - exists y, t. cbn. rewrite !vat_setCell_eq by (rewrite length_setCell; lia). done.
  - intros j Hj Hj' (x' & t' & ?). exists x', t'. cbn. by rewrite !vat_setCell_ne by lia.
Qed.

Lemma wp_pairs s0 bi0 s tid pc bi (Q : BranchInfo -> TAGEBase -> Prop) :
  calculating s0 bi0 bi s -> 0 <= tid < tg_numThreads p ->
  (forall bi' s', calculating s0 bi0 bi' s' ->
     (forall i, 1 <= i <= n -> paired s' bi' i) -> Q bi' s') ->
  wp (mfold (map (fun k => 2 * k + 1) (seqZ 0 ((n + 1) / 2))) (Scl.indexPair p tid pc) bi) Q s.
Proof.
  intros Hc Ht HQ. destruct (sc_even _ _ Hs) as [k Hk].
  assert (Hn : 0 < n) by (exact (hs_n _ (tc_sizes _ Hcfg))).
  assert (Eh : (n + 1) / 2 = k) by (symmetry; apply (Z.div_unique _ _ _ 1); lia).
  eapply wp_mono; [apply (wp_mfold (fun m bi s => calculating s0 bi0 bi s /\
    forall i, 1 <= i <= 2 * Z.of_nat m -> paired s bi i))|].
  - split; [done|]. intros i Hi. lia.
  - intros m x bi1 s1 Hx [Hc1 Hp1]. apply list_lookup_fmap_Some in Hx as (z & -> & Hz).
    apply lookup_seqZ in Hz as [-> Hm]. apply wp_indexPair with s0 bi0; [done|done|lia|lia|].
    intros bi2 s2 Hc2 Hi1 Hi2 Hrest. split; [done|]. intros i Hi.
    destruct (Z.eq_dec i (2 * (0 + Z.of_nat m) + 1)) as [->|]; [done|].
    destruct (Z.eq_dec i (2 * (0 + Z.of_nat m) + 1 + 1)) as [->|]; [done|].
    apply Hrest; [done|done|]. apply Hp1. lia.
  - intros bi1 s1 [Hc1 Hp1]. apply HQ; [done|]. intros i Hi. apply Hp1.
    rewrite length_fmap, length_seqZ. lia.
Qed.

(** A part of the array and an index into it *)
Lemma place_below f t x :
  1 <= f -> f * 2 ^ log <= 2 ^ 31 -> 0 <= t < f -> 0 <= x < 2 ^ log ->
  0 <= i32 (x + Z.shiftl t log) < f * 2 ^ log.
Proof.
  intros Hf Hle Ht Hx. destruct (sc_log _ _ Hs). rewrite Z.shiftl_mul_pow2 by lia.
  assert (t * 2 ^ log + 2 ^ log <= f * 2 ^ log) by nia.
  assert (0 <= t * 2 ^ log) by nia. rewrite i32_small by lia. lia.
Qed.

(** The selection touches the tables from [a] to [a + m - 1]. *)
Lemma wp_spread s0 bi0 f a m t0 s bi (Q : BranchInfo -> TAGEBase -> Prop) :
  calculating s0 bi0 bi s -> 1 <= f -> f * 2 ^ log <= 2 ^ 31 -> 0 <= t0 < f ->
  1 <= a -> a + m <= n + 1 -> (forall i, a <= i < a + m -> size i = f * 2 ^ log) ->
  (forall i, a <= i < a + m -> paired s bi i) ->
  (forall bi' s', calculating s0 bi0 bi' s' ->
     (forall i, a <= i < a + m -> vat (noSkip p) i = Some true -> placed s' bi' i) ->
     (forall i, ~ a <= i < a + m -> (paired s bi i -> paired s' bi' i) /\
        (placed s bi i -> placed s' bi' i)) -> Q bi' s') ->
  wp (Scl.spread p f (seqZ a m) t0 bi) Q s.
Proof.
  intros Hc Hf Hle Ht0 Ha Hm Hsize Hp HQ. unfold Scl.spread. wp_step.
  eapply wp_mono; [apply (wp_mfold (fun k tb s' => calculating s0 bi0 (snd tb) s' /\
    0 <= fst tb < f /\
    (forall i, a <= i < a + Z.of_nat k -> vat (noSkip p) i = Some true -> placed s' (snd tb) i) /\
    (forall i, a + Z.of_nat k <= i < a + m -> paired s' (snd tb) i) /\
    (forall i, ~ a <= i < a + m -> (paired s bi i -> paired s' (snd tb) i) /\
        (placed s bi i -> placed s' (snd tb) i))))|].
  - cbn. split_and!; try done; try lia. intros i Hi. apply Hp. lia.
  - intros k x [t b] s1 Hx (Hc1 & Ht1 & Hd1 & Hp1 & Ho1). cbn [fst snd] in *.
    apply lookup_seqZ in Hx as [-> Hk].
    destruct (bc_skip _ _ (tc_banks _ Hcfg (a + Z.of_nat k) ltac:(lia))) as [ns Hns].
    wp_step. eapply wp_at_index; [exact Hns|]. destruct ns.
    2: { apply wp_ret. cbn [fst snd]. split_and!; try done; try lia.
         - intros i Hi Hen. destruct (Z.eq_dec i (a + Z.of_nat k)) as [->|]; [congruence|].
           apply Hd1; [lia|done].
         - intros i Hi. apply Hp1. lia. }
    wp_step. apply wp_logSize; [lia|]. wp_steps.
    destruct (Hp1 (a + Z.of_nat k)) as (y & u & Hy & Hyr & Hu & Hbu); [lia|].
    eapply wp_at_index; [exact Hy|]. wp_steps.
    pose proof (place_below f t y Hf Hle Ht1 Hyr) as Hz. set (z := i32 _) in *.
    set (j := a + Z.of_nat k) in *.
    pose proof Hc1 as [Hok1 _ Hbi1 _]. pose proof (to_scratchI _ _ _ Hok1) as LI.
    pose proof (bk_ti _ _ _ Hbi1) as BI.
    set (s2 := setf tableIndices _ s1). cbn [fst snd]. set (b2 := setf bi_tableIndices _ b).
    assert (Es : s2 = s1 <| tableIndices ::= TB.setCell j z |> <| tableTags ::= fun l => l |>)
      by (by destruct s1).
    assert (Eb : b2 = b <| bi_tableIndices ::= TB.setCell j (Some z) |> <| bi_tableTags ::= fun l => l |>)
      by (by destruct b).
    assert (Hother : forall i, i <> j -> (paired s1 b i -> paired s2 b2 i) /\
      (placed s1 b i -> placed s2 b2 i)).
    { intros i Hi. split.
      - intros (x' & t' & ?). exists x', t'. unfold s2, b2. cbn. by rewrite !vat_setCell_ne by lia.
      - intros (x' & t' & ?). exists x', t'. unfold s2, b2. cbn. by rewrite !vat_setCell_ne by lia. }
    split_and!.
    + rewrite Es, Eb. apply calculating_step; [done|intros l; apply length_setCell|done|
        intros l; apply length_setCell|done].
    + apply Z.mod_pos_bound. lia.
    + apply Z.mod_pos_bound. lia.
    + intros i Hi Hen. destruct (Z.eq_dec i j) as [->|].
      * exists z, u. unfold s2, b2. cbn. rewrite !vat_setCell_eq by lia.
        rewrite Hsize by lia. done.
      * apply Hother; [done|]. apply Hd1; [lia|done].
    + intros i Hi. apply Hother; [lia|]. apply Hp1. lia.
    + intros i Hi. destruct (Ho1 i Hi) as [H1 H2]. destruct (Hother i) as [H3 H4]; [lia|]. auto.
  - intros [t b] s1 (Hc1 & _ & Hd1 & _ & Ho1). cbn [fst snd] in *. wp_step.
    rewrite length_seqZ in Hd1. apply HQ; [done| |done]. intros i Hi. apply Hd1. lia.
Qed.

Lemma wp_bankOffset s tid pc bank f (Q : Z -> TAGEBase -> Prop) :
  ok s -> 0 <= tid < tg_numThreads p -> 1 <= f ->
  (exists h, vat (histLengths p) bank = Some h /\ 0 <= h <= 30) ->
  (forall t, 0 <= t < f -> Q t s) -> wp (Scl.bankOffset p tid pc bank f) Q s.
Proof.
  intros Hok Ht Hf (o & Ho & Hor) HQ. destruct (thread_at p size s tid Hok Ht) as (h & hist & Hh & _).
  unfold Scl.bankOffset. wp_step. eapply wp_at_index; [exact Ho|]. wp_step. apply wp_lowMask; [lia|].
  wp_step. eapply wp_tb_thread; [exact Hh|]. destruct (Z.eqb_spec f 0); [lia|]. apply wp_ret.
  apply HQ, Z.mod_pos_bound. lia.
Qed.

Lemma size_short i : i < firstLongTagTable sp -> size i = shortTagsTageFactor sp * 2 ^ log.
Proof. intros H. unfold sclSize. by destruct (Z.ltb_spec i (firstLongTagTable sp)); [|lia]. Qed.

Lemma size_long i : firstLongTagTable sp <= i -> size i = longTagsTageFactor sp * 2 ^ log.
Proof. intros H. unfold sclSize. by destruct (Z.ltb_spec i (firstLongTagTable sp)); [lia|]. Qed.

Lemma wp_scl_calc s tid pc bi (Q : BranchInfo -> TAGEBase -> Prop) :
  ok s -> 0 <= tid < tg_numThreads p -> bi_ok p size bi ->
  (forall bi' s', calculating s bi bi' s' ->
     (forall i, 1 <= i <= n -> vat (noSkip p) i = Some true -> placed s' bi' i) -> Q bi' s') ->
  wp (Scl.calculateIndicesAndTags sp p tid pc bi) Q s.
Proof.
  intros Hok Ht Hbi HQ. pose proof (sc_first _ _ Hs) as Hf. destruct (sc_short _ _ Hs), (sc_long _ _ Hs).
  unfold Scl.calculateIndicesAndTags. wp_step. apply wp_pairs with s bi; [by constructor|done|].
  intros bi1 s1 Hc1 Hp1. wp_step. apply wp_bankOffset; [apply Hc1|done|done|apply Hs|].
  intros t Htr. wp_step. eapply wp_spread; [exact Hc1|done|done|done|lia|lia| | |].
  - intros i Hi. apply size_long. lia.
  - intros i Hi. apply Hp1. lia.
  - intros bi2 s2 Hc2 Hpl2 Ho2. wp_step. apply wp_bankOffset; [apply Hc2|done|done|apply Hs|].
    intros t' Htr'. eapply wp_spread; [exact Hc2|done|done|done|lia|lia| | |].
    + intros i Hi. apply size_short. lia.
    + intros i Hi. apply Ho2; [lia|]. apply Hp1. lia.
    + intros bi3 s3 Hc3 Hpl3 Ho3. apply HQ; [done|]. intros i Hi Hen.
      destruct (Z.lt_ge_cases i (firstLongTagTable sp)).
      * apply Hpl3; [lia|done].
      * apply Ho3; [lia|]. apply Hpl2; [lia|done].
Qed.

(** ** Prediction *)

Lemma wp_bimodal {A} s bi (f : bool -> bool -> M TAGEBase A) (Q : A -> TAGEBase -> Prop) :
  ok s -> bi_ok p size bi ->
  (forall bp bh, vat (btablePrediction s) (bimodalIndex bi) = Some bp -> wp (f bp bh) Q s) ->
  wp (bp ← at_index (vat (btablePrediction s) (bimodalIndex bi));
      bh ← at_index (vat (btableHysteresis s)
             (Z.shiftr (bimodalIndex bi) (logRatioBiModalHystEntries p)));
      f bp bh) Q s.
Proof.
  intros Hok Hbi HQ. destruct (tc_log0 _ Hcfg) as (l0 & Hl0 & Hr).
  destruct (to_bimodal _ _ _ Hok l0 Hl0) as [Hp Hh]. pose proof (bk_bim _ _ _ Hbi l0 Hl0) as Hx.
  destruct (vat_lt (btablePrediction s) (bimodalIndex bi)) as [bp Hbp]; [lia|].
  wp_step. eapply wp_at_index; [exact Hbp|].
  destruct (vat_lt (btableHysteresis s) (Z.shiftr (bimodalIndex bi) (logRatioBiModalHystEntries p)))
    as [bh Hbh]; [rewrite Hh; apply shiftr_below; lia|].
  wp_step. eapply wp_at_index; [exact Hbh|]. by apply HQ.
Qed.

Lemma wp_scl_bimode s pc bi (Q : bool * BranchInfo -> TAGEBase -> Prop) :
  ok s -> bi_ok p size bi ->
  (forall b l h a m, vat (btablePrediction s) (bimodalIndex bi) = Some b ->
     Q (b, bi <| bi_highConf := h |> <| bi_lowConf := l |> <| bi_altConf := a |>
              <| bi_medConf := m |>) s) ->
  wp (Scl.getBimodePred p pc bi) Q s.
Proof.
  intros Hok Hbi HQ. unfold Scl.getBimodePred. wp_step. wp_step. apply wp_bimodal; [done..|].
  intros bp bh Hbp. unfold TB.getBimodePred. wp_steps. eapply wp_at_index; [exact Hbp|].
  apply wp_ret. by apply HQ.
Qed.

(** ** Rules for the sizes *)
#[local] Abbreviation kept := (tables_kept p (sclSize sp)).

Lemma ok_randPos s f : ok s -> ok (s <| tb_randPos ::= f |>).
Proof. intros []. by constructor. Qed.

Lemma wp_scl_random s (Q : Z -> TAGEBase -> Prop) :
  ok s -> (forall r s', kept s s' -> Q r s') -> wp Scl.random Q s.
Proof. intros Hok HQ. unfold Scl.random. wp_steps. apply HQ. split; [by apply ok_randPos|done]. Qed.

Lemma wp_calcDep s bi (Q : Z -> TAGEBase -> Prop) :
  ok s -> (forall I s', kept s s' -> 0 <= I -> Q I s') -> wp (Scl.calcDep bi) Q s.
Proof.
  intros Hok HQ. unfold Scl.calcDep. wp_step. apply wp_scl_random; [done|]. intros r s1 K1. wp_step.
  apply wp_scl_random; [apply K1|]. intros r' s2 K2. apply wp_ret.
  apply HQ; [by eapply tables_kept_trans|]. apply Z.lxor_nonneg.
  split; intros _; apply Z.land_nonneg; right; lia.
Qed.

Lemma wp_resetAll s bank f (Q : unit -> TAGEBase -> Prop) :
  ok s -> 1 <= bank <= n -> (forall u, 0 <= u < 2 ^ tagTableUBits p -> 0 <= f u < 2 ^ tagTableUBits p) ->
  (forall s', kept s s' -> Q tt s') ->
  wp (mfor (seqZ 0 (size bank)) (fun j => TB.setEntry bank j (fun e => e <| te_u ::= f |>))) Q s.
Proof.
  intros Hok Hb Hf HQ. eapply wp_mono; [apply (wp_mfor (kept s))|by intros []; apply HQ]; [done|].
  intros j s1 Hj K1. apply elem_of_seqZ in Hj. eapply wp_setEntry; [apply K1|done|lia| |].
  - intros e []. constructor; [done|done|]. by apply Hf.
  - intros s2 K2. by eapply tables_kept_trans.
Qed.

Lemma wp_scl_handleUReset s f (Q : unit -> TAGEBase -> Prop) :
  ok s -> (forall u, 0 <= u < 2 ^ tagTableUBits p -> 0 <= f u < 2 ^ tagTableUBits p) ->
  (forall s', kept s s' -> Q tt s') -> wp (Scl.handleUReset sp p f) Q s.
Proof.
  intros Hok Hf HQ. destruct (sc_first _ _ Hs). unfold Scl.handleUReset. wp_step. wp_step. wp_step. wp_step.
  assert (K0 : kept s (s <| tCounter ::= Z.max 0 |>)) by (split; [by apply ok_tCounter|done]).
  apply wp_when; intros _; [|by apply HQ].
  assert (E1 : Scl.shortEntries sp = size 1) by (by rewrite size_short by lia).
  assert (E2 : Scl.longEntries sp = size (firstLongTagTable sp)) by (by rewrite size_long by lia).
  rewrite E1, E2. wp_step. apply wp_resetAll; [apply K0|lia|done|]. intros s1 K1. wp_step.
  apply wp_resetAll; [apply K1|lia|done|]. intros s2 K2. wp_steps. apply HQ.
  eapply tables_kept_trans; [exact K0|]. eapply tables_kept_trans; [exact K1|].
  destruct K2 as [Hok2 E]. split; [by apply (ok_tCounter _ _ s2 (fun _ => 0))|exact E].
Qed.

(** The entry of a bank that provided a prediction *)
Lemma wp_clearWeak s bank idx (Q : unit -> TAGEBase -> Prop) :
  ok s -> bank_ok p size bank idx -> 0 < bank -> (forall s', kept s s' -> Q tt s') ->
  wp (Scl.clearWeak bank idx) Q s.
Proof.
  intros Hok [Hb Hi] Hpos HQ. unfold Scl.clearWeak. wp_step.
  eapply wp_entryAt; [done|lia|by apply Hi|]. intros e He. apply wp_when; intros _; [|by apply HQ].
  eapply wp_setEntry; [done|lia|by apply Hi| |done]. intros e' []. constructor; [done|done|]. cbn. lia.
Qed.

Lemma wp_demoteRedundant s taken bi (Q : unit -> TAGEBase -> Prop) :
  ok s -> bi_ok p size bi -> 0 < hitBank bi -> (forall s', kept s s' -> Q tt s') ->
  wp (Scl.demoteRedundant taken bi) Q s.
Proof.
  intros Hok Hbi Hpos HQ. destruct (bk_hit _ _ _ Hbi) as [Hh Hhi], (bk_alt _ _ _ Hbi) as [Ha Hai].
  unfold Scl.demoteRedundant. apply wp_when; intros Hc; [|by apply HQ].
  apply andb_true_iff in Hc as [_ Hpa%Z.ltb_lt]. wp_step.
  eapply wp_entryAt; [done|lia|by apply Hai|]. intros a _. apply wp_when; intros _; [|by apply HQ].
  wp_step. eapply wp_entryAt; [done|lia|by apply Hhi|]. intros e _.
  apply wp_when; intros _; [|by apply HQ]. eapply wp_setEntry; [done|lia|by apply Hhi| |done].
  intros e' []. constructor; [done|done|]. cbn. lia.
Qed.

Lemma wp_promoteUseful s taken bi (Q : unit -> TAGEBase -> Prop) :
  ok s -> bi_ok p size bi -> no_hit bi -> (forall s', kept s s' -> Q tt s') ->
  wp (Scl.promoteUseful p taken bi) Q s.
Proof.
  intros Hok Hbi Hno HQ. destruct (bk_hit _ _ _ Hbi) as [Hh Hhi]. unfold Scl.promoteUseful.
  destruct (_ && _) eqn:E; [|apply wp_ret; by apply HQ].
  apply andb_true_iff in E as [E _].
  assert (Hpos : 0 < hitBank bi).
  { destruct (Z.eq_dec (hitBank bi) 0) as [Hz|]; [|lia]. rewrite (Hno Hz), eqb_reflx in E. done. }
  wp_step. eapply wp_entryAt; [done|lia|by apply Hhi|]. intros e He.
  apply wp_when; intros Hu; [|by apply HQ]. apply Z.ltb_lt in Hu.
  eapply wp_setEntry; [done|lia|by apply Hhi| |done]. destruct He.
  intros e' []. constructor; [done|done|]. cbn. lia.
Qed.

(** ** The contract of [TAGEBase] *)

Lemma wp_scl_history s tid brtype taken pc tgt bi h hist (Q : BranchInfo -> TAGEBase -> Prop) :
  vat (threadHistory s) tid = Some h -> th_repr hp hist h -> bi_nGhist bi = 0 ->
  (forall bi' h', pushed_history p h hist bi bi' h' ->
     Q bi' (s <| threadHistory ::= <[Z.to_nat tid := h']> |>)) ->
  wp (Scl.updatePathAndGlobalHistory sp p tid brtype taken pc tgt bi) Q s.
Proof.
  intros Hh Hr Hn HQ. unfold Scl.updatePathAndGlobalHistory.
  apply (wp_pushHistory p Hcfg s tid h hist bi _
    (fun h => Scl.calcNewPathHist sp p pc (pathHist h) taken brtype tgt)); [done..| |done].
  destruct (takenOnlyHistory p); [destruct taken|].
  - by eexists _, _.
  - exists (bi_ghist bi), 0. split; [|lia]. rewrite <- Hn. by destruct bi.
  - eexists _, _. split; [reflexivity|]. destruct (brtype =? 2); lia.
Qed.

#[export] Instance Scl_vok : @VirtualOk p (sclSize sp) (Scl.Scl_v sp p).
Proof.
  refine {| vo_indexed := sclIndexed sp p |}; cbn.
  - intros s tid pc bi Hok Ht Hbi. apply wp_scl_calc; [done..|]. intros bi' s' [] Hpl.
    split_and!; try done.
    + intros i Hi Hen. destruct (Hpl i Hi Hen) as (x & t & ? & ? & ? & _). by exists x, t.
    + intros i Hi Hen. destruct (Hpl i Hi Hen) as (x & t & ? & ? & ? & ? & ?). by exists x, t.
  - intros pc l0 Hl0. change (vat (logTagTableSizes p) 0 = Some l0) in Hl0.
    unfold Scl.bindex. rewrite Hl0. cbn [default].
    destruct (tc_log0 _ Hcfg) as (l & Hl & ?). apply masked_below. simplify_eq. lia.
  - intros s pc bi Hok Hbi. apply wp_scl_bimode; [done..|]. intros b l h a m _.
    split_and!; try done; by destruct Hbi.
  - intros s bi Hok Hbi Hpos. destruct (bk_alt _ _ _ Hbi) as [Ha Hai]. unfold Scl.extraAltCalc.
    wp_step. eapply wp_entryAt; [done|lia|by apply Hai|]. intros e He. apply wp_ret.
    split_and!; try done; by destruct Hbi.
  - intros bi pc Hpos. destruct (tc_numna _ Hcfg). pose proof (sc_na _ _ Hs). unfold Scl.getUseAltIdx.
    pose proof (Z.mod_pos_bound (u32 (Z.shiftl ((hitBank bi - 1) ÷ 8) 1 + (if bi_altConf bi then 1 else 0)))
      (numUseAltOnNa p - 1)). lia.
  - intros s a t pr Hok. unfold Scl.adjustAlloc. destruct (eqb t pr); [|by apply wp_ret].
    wp_step. apply wp_scl_random; [done|]. intros r s' [H1 H2]. apply wp_ret.
    split_and!; [done|done|]. by destruct (negb _).
  - intros s alloc taken bi nrand Hok Hbi Ha. by apply so_alloc.
  - intros s pc taken bi Hok Hbi Hno. by apply so_update.
  - intros s tid brtype taken pc tgt bi h hist Hok Ht Hh Hr Hbi Hn.
    eapply wp_scl_history; [done..|]. intros bi' h' []. by exists h'.
Defined.
End Scl.

(** ** Construction *)
Section Init.
Context (sp : SclParams) (p : TageParams) (Hcfg : tage_cfg p) (Hs : scl_cfg sp p).

Lemma scl_init_ok rands s :
  0 <= tg_numThreads p -> TB.initWith p (Scl.buildTageTables sp p) rands = Ok s ->
  tb_ok p (sclSize sp) s /\
  forall h, h ∈ threadHistory s -> th_repr (histParams p) [] h /\ pathHist h = 0.
Proof.
  intros Hth. pose proof (new_entry_ok p Hcfg) as He. destruct (sc_log _ _ Hs).
  assert (Hpow : 0 < 2 ^ logTagTableSize sp) by (apply Z.pow_pos_nonneg; lia).
  destruct (sc_short _ _ Hs) as [Hsh _], (sc_long _ _ Hs) as [Hlo _].
  apply initWith_ok; [done|done| |].
  - intros _ i Hi. unfold Scl.buildTageTables. cbn [fst snd].
    exists (if i <? firstLongTagTable sp then 0%nat else 1%nat), (replicate (Z.to_nat (sclSize sp i)) (mkTageEntry 0 0 0)).
    split_and!.
    + rewrite vat_nat by lia. replace (Z.to_nat i) with (S (Z.to_nat (i - 1))) by lia.
      rewrite lookup_cons. cbn iota. apply list_lookup_fmap_Some. exists i.
      split; [done|]. apply lookup_seqZ. lia.
    + unfold sclSize. by destruct (i <? firstLongTagTable sp).
    + rewrite length_replicate. rewrite Z2Nat.id; [done|].
      unfold sclSize, Scl.shortEntries, Scl.longEntries. destruct (i <? firstLongTagTable sp); nia.
  - cbn. repeat constructor; by apply list.Forall_replicate.
Qed.
End Init.
