(* ===== verification/TageSclSizesOk.v ===== *)
(** * The sizes of the TAGE of TAGE-SC-L keep their contract

    Tags, allocation and training of [TAGE_SC_L_TAGE_64KB] and
    [TAGE_SC_L_TAGE_8KB] discharge [SclOk].  The allocation loops advance by two or
    four tables and end: [nHistoryTables + 1] rounds are enough. *)

From Stdlib Require Import ZArith Lia.
From stdpp Require Import base list numbers.
From S2P Require Import Prelude Types CondPred TageHist Tage TageInv TageBaseOk TageScl TageSclSizes TageSclOk.

(** The second table of a pair *)
Lemma pair_range I k : 0 <= I < 2 * k -> 0 <= Z.lxor I 1 < 2 * k.
Proof.
  intros HI. assert (E : Z.lxor I 1 / 2 = I / 2).
  { change 2 with (2 ^ 1). rewrite <- !Z.shiftr_div_pow2 by lia.
    rewrite Z.shiftr_lxor. apply Z.lxor_0_r. }
  pose proof (Z.div_mod I 2). pose proof (Z.mod_pos_bound I 2).
  pose proof (Z.div_mod (Z.lxor I 1) 2). pose proof (Z.mod_pos_bound (Z.lxor I 1) 2). lia.
Qed.

Section Common.
Context (sp : SclParams) (p : TageParams) (Hcfg : tage_cfg p) (Hs : scl_cfg sp p).
#[local] Abbreviation size := (sclSize sp).
#[local] Abbreviation ok := (tb_ok p size).
#[local] Abbreviation kept := (tables_kept p size).
#[local] Abbreviation n := (nHistoryTables p).

Lemma pair_tables I : 0 <= I < n -> 1 <= I + 1 <= n /\ 1 <= Z.lxor I 1 + 1 <= n.
Proof.
  intros HI. destruct (sc_even _ _ Hs) as [k Hk]. pose proof (pair_range I k ltac:(lia)). lia.
Qed.

(** The bank of an enabled table in a [BranchInfo] *)
Lemma wp_tableCell s bi i (Q : Z -> TAGEBase -> Prop) :
  sclIndexed sp p (bi_tableIndices bi) (bi_tableTags bi) -> 1 <= i <= n ->
  vat (noSkip p) i = Some true ->
  (forall x, 0 <= x < size i -> Q x s) -> wp (TB.cell (bi_tableIndices bi) i) Q s.
Proof.
  intros Hix Hi Hen HQ. destruct (Hix i Hi Hen) as (x & t & Hx & Hxr & _).
  eapply wp_cell; [exact Hx|]. by apply HQ.
Qed.

Lemma wp_tagCell s bi i (Q : Z -> TAGEBase -> Prop) :
  sclIndexed sp p (bi_tableIndices bi) (bi_tableTags bi) -> 1 <= i <= n ->
  vat (noSkip p) i = Some true -> (forall t, Q t s) -> wp (TB.cell (bi_tableTags bi) i) Q s.
Proof.
  intros Hix Hi Hen HQ. destruct (Hix i Hi Hen) as (x & t & _ & _ & Ht).
  eapply wp_cell; [exact Ht|]. by apply HQ.
Qed.

Lemma entry_allocated e tag taken u :
  0 <= u < 2 ^ tagTableUBits p ->
  entry_ok p (e <| te_u := u |> <| te_tag := u16 tag |> <| te_ctr := if (taken : bool) then 0 else -1 |>).
Proof.
  intros Hu. constructor; [by apply ctr_weak|cbn; apply Z.mod_pos_bound; lia|done].
Qed.

Lemma shift_u_ok u : 0 <= u < 2 ^ tagTableUBits p -> 0 <= TB.resetUctr u < 2 ^ tagTableUBits p.
Proof.
  intros Hu. unfold TB.resetUctr. rewrite Z.shiftr_div_pow2 by lia. change (2 ^ 1) with 2.
  split; [apply Z.div_pos; lia|]. apply Z.div_lt_upper_bound; lia.
Qed.

Lemma decr_u_ok u : 0 <= u < 2 ^ tagTableUBits p -> 0 <= Scl8.resetUctr u < 2 ^ tagTableUBits p.
Proof. intros Hu. unfold Scl8.resetUctr. destruct (Z.ltb_spec 0 u); lia. Qed.

Lemma wp_tCounter s f (Q : unit -> TAGEBase -> Prop) :
  ok s -> (forall s', kept s s' -> Q tt s') ->
  wp (modify (fun s => s <| tCounter ::= f |>)) Q s.
Proof. intros Hok HQ. wp_step. apply HQ. split; [by apply ok_tCounter|done]. Qed.
End Common.

(** ** 64 KB *)
Section Size64.
Context (sp : SclParams) (p : TageParams) (Hcfg : tage_cfg p) (Hs : scl_cfg sp p).
#[local] Abbreviation size := (sclSize sp).
#[local] Abbreviation ok := (tb_ok p size).
#[local] Abbreviation kept := (tables_kept p size).
#[local] Abbreviation n := (nHistoryTables p).

Lemma wp_gtag64 s tid pc bank (Q : Z -> TAGEBase -> Prop) :
  ok s -> 0 <= tid < tg_numThreads p -> 1 <= bank <= n ->
  (forall t, 0 <= t -> Q t s) -> wp (Scl64.gtag p tid pc bank) Q s.
Proof.
  intros Hok Ht Hb HQ. destruct (thread_at p size s tid Hok Ht) as (h & hist & Hh & Hr).
  destruct (bc_tag _ _ (tc_banks _ Hcfg bank Hb)) as (w & Hw & _).
  destruct (regs_at p _ hist (computeTags0 h) bank (tr_ct0 _ _ _ Hr) Hb) as [f0 Hf0].
  destruct (regs_at p _ hist (computeTags1 h) bank (tr_ct1 _ _ _ Hr) Hb) as [f1 Hf1].
  unfold Scl64.gtag. wp_steps. eapply wp_at_index; [exact Hw|]. wp_steps.
  eapply wp_tb_thread; [exact Hh|]. wp_steps. eapply wp_at_index; [exact Hf0|]. wp_steps.
  eapply wp_at_index; [exact Hf1|]. wp_steps. apply HQ. apply Z.mod_pos_bound. lia.
Qed.

Lemma weaken_ok e : entry_ok p e -> 3 < Scl.strength (te_ctr e) ->
  sctr_ok (tagTableCounterBits p) (if 0 <? te_ctr e then te_ctr e - 1 else te_ctr e + 1).
Proof.
  intros [Hc _ _] Hst. unfold Scl.strength, sctr_ok in *.
  destruct (Z.ltb_spec 0 (te_ctr e)); lia.
Qed.

Lemma wp_tryTable64 s i taken bi (Q : bool * Z -> TAGEBase -> Prop) :
  ok s -> 1 <= i <= n -> sclIndexed sp p (bi_tableIndices bi) (bi_tableTags bi) ->
  (forall r s', kept s s' -> Q r s') -> wp (Scl64.tryTable p i taken bi) Q s.
Proof.
  intros Hok Hi Hix HQ. destruct (bc_skip _ _ (tc_banks _ Hcfg i Hi)) as [ns Hns].
  unfold Scl64.tryTable. wp_step. eapply wp_at_index; [exact Hns|].
  destruct ns; cbn [negb]; [|apply wp_ret; by apply HQ].
  wp_step. eapply wp_tableCell; [done..|]. intros x Hx. wp_step. eapply wp_entryAt; [done..|].
  intros e He. destruct (te_u e =? 0); [|apply wp_ret; by apply HQ].
  destruct (Z.leb_spec (Scl.strength (te_ctr e)) 3) as [Hst|Hst].
  - wp_step. eapply wp_tagCell; [done..|]. intros t. wp_step. eapply wp_setEntry; [done..| |].
    + intros e' [? ? Hu]. exact (entry_allocated p Hcfg e' t taken (te_u e') Hu).
    + intros s' K. apply wp_ret. by apply HQ.
  - wp_step. eapply wp_setEntry; [done..| |].
    + intros e' []. constructor; [by apply weaken_ok|done|done].
    + intros s' K. apply wp_ret. by apply HQ.
Qed.

Lemma wp_allocLoop64 fuel : forall s I taken bi pen num (Q : Z * Z -> TAGEBase -> Prop),
  ok s -> sclIndexed sp p (bi_tableIndices bi) (bi_tableTags bi) -> 0 <= I ->
  n - I < Z.of_nat fuel -> (1 <= fuel)%nat -> (forall r s', kept s s' -> Q r s') ->
  wp (Scl64.allocLoop p fuel I taken bi pen num) Q s.
Proof.
  induction fuel as [|fuel IH]; intros s I taken bi pen num Q Hok Hix HI Hf H1 HQ; [lia|].
  cbn [Scl64.allocLoop]. destruct (Z.ltb_spec I n) as [Hlt|]; [|apply wp_ret; by apply HQ].
  destruct (pair_tables sp p Hs I ltac:(lia)) as [Hi1 Hi2].
  assert (Hrec : forall s1 I' pen' num', kept s s1 -> I + 2 <= I' ->
    wp (Scl64.allocLoop p fuel I' taken bi pen' num') Q s1).
  { intros s1 I' pen' num' K1 HI'. apply IH; [apply K1|done|lia|lia|lia|].
    intros r s2 K2. apply HQ. by eapply tables_kept_trans. }
  assert (Halloc : forall s1 pen', kept s s1 ->
    wp (if num + 1 =? maxNumAlloc p then mret (pen', num + 1)
        else Scl64.allocLoop p fuel (I + 4) taken bi pen' (num + 1)) Q s1).
  { intros s1 pen' K1. destruct (_ =? _); [apply wp_ret; by apply HQ|]. apply Hrec; [done|lia]. }
  wp_step. apply wp_tryTable64; [done..|]. intros a s1 K1. destruct (fst a); [by apply Halloc|].
  wp_step. apply wp_tryTable64; [apply K1|done|done|]. intros b s2 K2.
  assert (K : kept s s2) by (by eapply tables_kept_trans).
  destruct (fst b); [by apply Halloc|]. apply Hrec; [done|lia].
Qed.

Lemma wp_handleAlloc64 s (alloc taken : bool) bi nrand :
  ok s -> bi_ok p size bi ->
  (alloc = true -> hitBank bi < n /\ sclIndexed sp p (bi_tableIndices bi) (bi_tableTags bi)) ->
  wp (Scl64.handleAllocAndUReset sp p alloc taken bi nrand) (fun _ s' => kept s s') s.
Proof.
  intros Hok Hbi Ha. unfold Scl64.handleAllocAndUReset.
  destruct alloc; cbn [negb]; [|by apply wp_ret]. destruct (Ha eq_refl) as [_ Hix].
  wp_step. apply (wp_calcDep sp p); [done|]. intros I s1 K1 HI. wp_step.
  apply wp_allocLoop64; [apply K1|done|done|lia|lia|]. intros r s2 K2. wp_step.
  apply (wp_tCounter sp p); [apply K2|]. intros s3 K3.
  eapply (wp_scl_handleUReset sp p Hs); [apply K3|apply shift_u_ok|]. intros s4 K4.
  eapply tables_kept_trans; [exact K1|]. eapply tables_kept_trans; [exact K2|].
  by eapply tables_kept_trans.
Qed.

Lemma wp_handleTAGEUpdate64 s pc taken bi :
  ok s -> bi_ok p size bi -> no_hit bi ->
  wp (Scl64.handleTAGEUpdate p pc taken bi) (fun _ s' => kept s s') s.
Proof.
  intros Hok Hbi Hno. pose proof (bk_hit _ _ _ Hbi) as HH. pose proof (bk_alt _ _ _ Hbi) as HA.
  destruct HH as [Hh Hhi] eqn:E1, HA as [Ha Hai] eqn:E2. clear E1 E2.
  unfold Scl64.handleTAGEUpdate. wp_step. apply (wp_mono _ (fun _ s' => kept s s')).
  2: { intros _ s1 K1. apply (wp_promoteUseful sp p); [apply K1|done|done|]. intros s2 K2.
       by eapply tables_kept_trans. }
  destruct (Z.ltb_spec 0 (hitBank bi)) as [Hpos|]; [|by eapply wp_baseUpdate].
  wp_step. eapply wp_entryAt; [done|lia|by apply Hhi|]. intros e He. wp_step.
  apply (wp_mono _ (fun _ s' => kept s s')).
  { apply wp_when; intros _; [|done]. wp_step. apply (wp_mono _ (fun _ s' => kept s s')).
    - apply wp_when; intros Hpa; [|done]. apply Z.ltb_lt in Hpa.
      by eapply wp_updateEntryCtr; [done|done|lia|by apply Hai|].
    - intros _ s2 K2. apply wp_when; intros _; [|done]. eapply wp_baseUpdate; [done|apply K2|done|].
      intros s3. by apply tables_kept_trans. }
  intros _ s1 K1. wp_step. eapply wp_updateEntryCtr; [done|apply K1|lia|by apply Hhi|].
  intros s2 K2. wp_step. apply (wp_clearWeak sp p); [apply K2|done|done|]. intros s3 K3.
  apply (wp_demoteRedundant sp p); [apply K3|done|done|]. intros s4 K4.
  eapply tables_kept_trans; [exact K1|]. eapply tables_kept_trans; [exact K2|].
  by eapply tables_kept_trans.
Qed.

#[export] Instance Scl64_ok : @SclOk sp p (Scl64.Scl64_v sp p).
Proof.
  constructor; cbn.
  - intros s index bank _. by apply wp_ret.
  - intros s tid pc bank Hok Ht Hb. by apply wp_gtag64.
  - intros s alloc taken bi nrand Hok Hbi Ha. by apply wp_handleAlloc64.
  - intros s pc taken bi Hok Hbi Hno. by apply wp_handleTAGEUpdate64.
Defined.
End Size64.

(** ** 8 KB *)
Section Size8.
Context (sp : SclParams) (p : TageParams) (Hcfg : tage_cfg p) (Hs : scl_cfg sp p).
Context (Hlog : 2 * logTagTableSize sp < 32).
#[local] Abbreviation size := (sclSize sp).
#[local] Abbreviation ok := (tb_ok p size).
#[local] Abbreviation kept := (tables_kept p size).
#[local] Abbreviation n := (nHistoryTables p).

Lemma wp_gindex_ext8 s index bank (Q : Z -> TAGEBase -> Prop) :
  1 <= bank <= n -> (forall x, Q x s) -> wp (Scl8.gindex_ext p index bank) Q s.
Proof.
  intros Hb HQ. destruct (sc_log _ _ Hs). unfold Scl8.gindex_ext. wp_step.
  apply (wp_logSize sp p Hs); [done|]. wp_step. apply wp_shamt; [lia|]. wp_step.
  apply wp_shamt; [lia|]. apply wp_ret. apply HQ.
Qed.

Lemma wp_gtag8 s tid pc bank (Q : Z -> TAGEBase -> Prop) :
  ok s -> 0 <= tid < tg_numThreads p -> 1 <= bank <= n ->
  (forall t, 0 <= t -> Q t s) -> wp (Scl8.gtag p tid pc bank) Q s.
Proof.
  intros Hok Ht Hb HQ. destruct (thread_at p size s tid Hok Ht) as (h & hist & Hh & Hr).
  destruct (tc_banks _ Hcfg bank Hb) as [(o & Ho & _) _ _ _ _ (w & Hw & Hwr) _].
  destruct (regs_at p _ hist (computeIndices h) bank (tr_ci _ _ _ Hr) Hb) as [fi Hfi].
  destruct (vat_lt (computeIndices h) (bank - 1)) as [fp Hfp].
  { destruct (tr_ci _ _ _ Hr) as [Hl _]. cbn in Hl. lia. }
  destruct (regs_at p _ hist (computeTags0 h) bank (tr_ct0 _ _ _ Hr) Hb) as [f0 Hf0].
  destruct (regs_at p _ hist (computeTags1 h) bank (tr_ct1 _ _ _ Hr) Hb) as [f1 Hf1].
  unfold Scl8.gtag. wp_step. eapply wp_tb_thread; [exact Hh|]. wp_step.
  eapply wp_at_index; [exact Hfp|]. wp_step. eapply wp_at_index; [exact Hfi|]. wp_step.
  eapply wp_at_index; [exact Ho|]. wp_step. apply (wp_scl_F sp p Hs); [done|]. intros r. wp_step.
  eapply wp_at_index; [exact Hf0|]. wp_step. eapply wp_at_index; [exact Hf1|]. wp_step.
  eapply wp_at_index; [exact Hw|]. wp_step. apply wp_shamt; [lia|]. apply wp_ret. apply HQ.
  apply Z.mod_pos_bound. lia.
Qed.

Lemma one_u_ok (b : bool) : 0 <= (if b then 1 else 0) < 2 ^ tagTableUBits p.
Proof.
  destruct (tc_u _ Hcfg). assert (2 ^ 1 <= 2 ^ tagTableUBits p) by (apply Z.pow_le_mono_r; lia).
  destruct b; lia.
Qed.

Lemma wp_tryTable8 s i taken bi (Q : Scl8.Way -> TAGEBase -> Prop) :
  ok s -> 1 <= i -> sclIndexed sp p (bi_tableIndices bi) (bi_tableTags bi) ->
  (forall r s', kept s s' -> Q r s') -> wp (Scl8.tryTable p i taken bi) Q s.
Proof.
  intros Hok Hi0 Hix HQ. unfold Scl8.tryTable.
  destruct (Z.ltb_spec n i) as [|Hi]; [apply wp_ret; by apply HQ|].
  destruct (bc_skip _ _ (tc_banks _ Hcfg i ltac:(lia))) as [ns Hns].
  wp_step. eapply wp_at_index; [exact Hns|].
  destruct ns; cbn [negb]; [|apply wp_ret; by apply HQ].
  wp_step. eapply wp_tableCell; [done|lia|done|]. intros x Hx. wp_step.
  eapply wp_entryAt; [done|lia|done|]. intros e He. destruct (te_u e =? 0); [|destruct (_ && _)].
  - wp_step. apply (wp_scl_random sp p); [done|]. intros r s1 K1. wp_step.
    eapply wp_tagCell; [done|lia|done|]. intros t. wp_step.
    eapply wp_setEntry; [apply K1|lia|done| |].
    + intros e' _. apply entry_allocated; [done|]. apply one_u_ok.
    + intros s2 K2. apply wp_ret. apply HQ. by eapply tables_kept_trans.
  - wp_step. apply (wp_scl_random sp p); [done|]. intros r s1 K1. wp_step.
    apply (wp_mono _ (fun _ s' => kept s s')); [|intros _ s2 K2; apply wp_ret; by apply HQ].
    apply wp_when; intros _; [|done]. eapply wp_setEntry; [apply K1|lia|done| |].
    + intros e' []. constructor; [done|done|]. cbn. lia.
    + intros s2. by apply tables_kept_trans.
  - apply wp_ret. by apply HQ.
Qed.

Lemma wp_allocLoop8 fuel : forall s I taken bi pens num (Q : Z * Z -> TAGEBase -> Prop),
  ok s -> sclIndexed sp p (bi_tableIndices bi) (bi_tableTags bi) -> 0 <= I ->
  n - I < Z.of_nat fuel -> (1 <= fuel)%nat -> (forall r s', kept s s' -> Q r s') ->
  wp (Scl8.allocLoop p fuel I taken bi pens num) Q s.
Proof.
  induction fuel as [|fuel IH]; intros s I taken bi pens num Q Hok Hix HI Hf H1 HQ; [lia|].
  cbn [Scl8.allocLoop]. destruct (Z.ltb_spec I n) as [Hlt|]; [|apply wp_ret; by apply HQ].
  assert (Hrec : forall s1 I' pens' num', kept s s1 -> I + 2 <= I' ->
    wp (Scl8.allocLoop p fuel I' taken bi pens' num') Q s1).
  { intros s1 I' pens' num' K1 HI'. apply IH; [apply K1|done|lia|lia|lia|].
    intros r s2 K2. apply HQ. by eapply tables_kept_trans. }
  assert (Hsecond : forall s1 I' pens' num', kept s s1 -> I <= I' ->
    wp (b ← Scl8.tryTable p (Z.lxor I' 1 + 1) taken bi;
        match b with
        | Scl8.WBreak => Scl8.allocLoop p fuel (I' + 2) taken bi pens' num'
        | Scl8.WAllocated =>
            if num' + 1 =? maxNumAlloc p then mret (pens', num' + 1)
            else Scl8.allocLoop p fuel (I' + 4) taken bi pens' (num' + 1)
        | Scl8.WPenalty t => Scl8.allocLoop p fuel (I' + 2) taken bi (pens' + 1 + t) num'
        end) Q s1).
  { intros s1 I' pens' num' K1 HI'.
    assert (0 <= Z.lxor I' 1) by (apply Z.lxor_nonneg; lia).
    wp_step. apply wp_tryTable8; [apply K1|lia|done|]. intros b s2 K2.
    assert (K : kept s s2) by (by eapply tables_kept_trans).
    destruct b; [apply Hrec; [done|lia]| |apply Hrec; [done|lia]].
    destruct (_ =? _); [apply wp_ret; by apply HQ|apply Hrec; [done|lia]]. }
  wp_step. apply wp_tryTable8; [done|lia|done|]. intros a s1 K1. destruct a.
  - apply Hrec; [done|lia].
  - destruct (_ =? _); [apply wp_ret; by apply HQ|]. apply Hsecond; [done|lia].
  - apply Hsecond; [done|lia].
Qed.

Lemma wp_handleAlloc8 s (alloc taken : bool) bi nrand :
  ok s -> bi_ok p size bi ->
  (alloc = true -> hitBank bi < n /\ sclIndexed sp p (bi_tableIndices bi) (bi_tableTags bi)) ->
  wp (Scl8.handleAllocAndUReset sp p alloc taken bi nrand) (fun _ s' => kept s s') s.
Proof.
  intros Hok Hbi Ha. unfold Scl8.handleAllocAndUReset.
  destruct alloc; cbn [negb]; [|by apply wp_ret]. destruct (Ha eq_refl) as [_ Hix].
  wp_step. apply (wp_calcDep sp p); [done|]. intros I s1 K1 HI. wp_step.
  apply wp_allocLoop8; [apply K1|done|done|lia|lia|]. intros r s2 K2. wp_step.
  apply (wp_tCounter sp p); [apply K2|]. intros s3 K3.
  eapply (wp_scl_handleUReset sp p Hs); [apply K3|apply decr_u_ok|]. intros s4 K4.
  eapply tables_kept_trans; [exact K1|]. eapply tables_kept_trans; [exact K2|].
  by eapply tables_kept_trans.
Qed.

(** The protection of the alternate entry *)
Lemma wp_protect8 s pc taken bi :
  ok s -> bi_ok p size bi ->
  wp (when (0 <? altBank bi)
        (Scl.clearWeak (altBank bi) (altBankIndex bi) ;;
         TB.updateEntryCtr p (altBank bi) (altBankIndex bi) taken ;;
         Scl.clearWeak (altBank bi) (altBankIndex bi)) ;;
      when (altBank bi =? 0) (TB.baseUpdate p pc taken bi)) (fun _ s' => kept s s') s.
Proof.
  intros Hok Hbi. pose proof (bk_alt _ _ _ Hbi) as HA. wp_step.
  apply (wp_mono _ (fun _ s' => kept s s')).
  - apply wp_when; intros Hpa; [|done]. apply Z.ltb_lt in Hpa. wp_step.
    apply (wp_clearWeak sp p); [done..|]. intros s1 K1. wp_step.
    destruct HA as [Ha Hai] eqn:E. clear E.
    eapply wp_updateEntryCtr; [done|apply K1|lia|by apply Hai|]. intros s2 K2.
    apply (wp_clearWeak sp p); [apply K2|done|done|]. intros s3 K3.
    eapply tables_kept_trans; [exact K1|]. by eapply tables_kept_trans.
  - intros _ s1 K1. apply wp_when; intros _; [|done]. eapply wp_baseUpdate; [done|apply K1|done|].
    intros s2. by apply tables_kept_trans.
Qed.

Lemma wp_handleTAGEUpdate8 s pc taken bi :
  ok s -> bi_ok p size bi -> no_hit bi ->
  wp (Scl8.handleTAGEUpdate p pc taken bi) (fun _ s' => kept s s') s.
Proof.
  intros Hok Hbi Hno. pose proof (bk_hit _ _ _ Hbi) as HH.
  unfold Scl8.handleTAGEUpdate. wp_step. apply (wp_mono _ (fun _ s' => kept s s')).
  2: { intros _ s1 K1. apply (wp_promoteUseful sp p); [apply K1|done|done|]. intros s2 K2.
       by eapply tables_kept_trans. }
  destruct (Z.ltb_spec 0 (hitBank bi)) as [Hpos|]; [|by eapply wp_baseUpdate].
  destruct HH as [Hh Hhi] eqn:E. clear E.
  wp_step. eapply wp_entryAt; [done|lia|by apply Hhi|]. intros e He. wp_step.
  apply (wp_mono _ (fun _ s' => kept s s')).
  { apply wp_when; intros _; [|done]. by apply wp_protect8. }
  intros _ s1 K1. wp_step. apply (wp_clearWeak sp p); [apply K1|done|done|]. intros s2 K2. wp_step.
  eapply wp_updateEntryCtr; [done|apply K2|lia|by apply Hhi|]. intros s3 K3. wp_step.
  apply (wp_clearWeak sp p); [apply K3|done|done|]. intros s4 K4.
  apply (wp_demoteRedundant sp p); [apply K4|done|done|]. intros s5 K5.
  eapply tables_kept_trans; [exact K1|]. eapply tables_kept_trans; [exact K2|].
  eapply tables_kept_trans; [exact K3|]. by eapply tables_kept_trans.
Qed.

#[export] Instance Scl8_ok : @SclOk sp p (Scl8.Scl8_v sp p).
Proof.
  constructor; cbn.
  - intros s index bank Hb. by apply wp_gindex_ext8.
  - intros s tid pc bank Hok Ht Hb. by apply wp_gtag8.
  - intros s alloc taken bi nrand Hok Hbi Ha. by apply wp_handleAlloc8.
  - intros s pc taken bi Hok Hbi Hno. by apply wp_handleTAGEUpdate8.
Defined.
End Size8.
