(* ===== verification/TageSclSpec.v ===== *)
(** * Properties of the TAGE of TAGE-SC-L

    [TAGE_SC_L_TAGE] in its two sizes is safe and recovers from wrong paths in
    every configuration in which its shifts are defined.  The 8 KB configuration
    of [BranchPredictor.py] is one, the 64 KB configuration is not. *)

From Stdlib Require Import ZArith Lia.
From stdpp Require Import base list numbers.
From S2P Require Import Prelude Types CondPred TageHist Tage TageInv TageBaseOk TageSafe TageRun TageGen TageSpec TageScl TageSclSizes TageSclOk TageSclSizesOk.

Definition sclVirtual (z : SclSize) (sp : SclParams) (p : TageParams) : TageVirtual :=
  match z with
  | KB64 => @Scl.Scl_v sp p (Scl64.Scl64_v sp p)
  | KB8 => @Scl.Scl_v sp p (Scl8.Scl8_v sp p)
  end.

(** The second shift of [gindex_ext] of the 8 KB size *)
Definition size_cfg (z : SclSize) (sp : SclParams) : Prop :=
  match z with KB64 => True | KB8 => 2 * logTagTableSize sp < 32 end.

(** ** The calls of [TAGE_SC_L]

    What [TAGE_SC_L::predict], [update], [squash] and [branchPlaceholder] call on
    their TAGE.  What the loop predictor and the corrector decide is an input: the
    provider they write into the branch and the final prediction the training is
    given.  A placeholder, a squash and a correction are those of [TAGE]. *)
Inductive SclTageOp :=
| SSpeculate (tid : ThreadID) (b : SpecBranch) (provider : option Z)
| SCommit (tid : ThreadID) (pred taken : bool) (target : Addr) (inst : StaticInst)
| STage (op : TageOp).

Definition sclOpThread (op : SclTageOp) : ThreadID :=
  match op with SSpeculate tid _ _ | SCommit tid _ _ _ _ => tid | STage op => opThread op end.

Section Steps.
Context (z : SclSize) (sp : SclParams) (p : TageParams).
#[local] Instance step_V : TageVirtual := sclVirtual z sp p.

(** [predict], with the read of the counter for the corrector, then the speculative
    [updateHistories] *)
Definition sclSpeculate (tid : ThreadID) (b : SpecBranch) (provider : option Z) : M TAGE (option BranchInfo) :=
  let cond := negb (sb_uncond b) in
  r ← zoom tage (TB.tagePredict p tid (sb_pc b) cond (TB.makeBranchInfo p (sb_pc b) cond));
  bim ← zoom tage (v_getBimodePred (sb_pc b) (snd r));
  let bi := snd bim in
  when (0 <? hitBank bi) (zoom tage (TB.entryAt (hitBank bi) (hitBankIndex bi)) ;; mret tt) ;;
  let bi := match provider with Some x => bi <| bi_provider := x |> | None => bi end in
  bi ← zoom tage (TB.updateHistories p tid (sb_pc b) true (sb_taken b) (sb_target b) (sb_inst b) bi);
  mret (Some bi).

(** [update] at the commit of a branch *)
Definition sclCommit (tid : ThreadID) (pred taken : bool) (target : Addr) (inst : StaticInst)
    (bi : BranchInfo) : M TAGE unit :=
  r ← Tage.random;
  when (bi_condBranch bi)
    (zoom tage (TB.updateStats taken bi) ;;
     zoom tage (TB.condBranchUpdate p tid (bi_branchPC bi) taken bi (Z.land r 3) target pred false)) ;;
  zoom tage (TB.updateHistories p tid (bi_branchPC bi) false taken target inst bi) ;;
  mret tt.

Definition sclStep (op : SclTageOp) (r : TageRun) : Res TageRun :=
  let fl := flightsAt (sclOpThread op) r in
  match op with
  | SSpeculate tid b provider =>
      finish r (sclSpeculate tid b provider (tr_tage r)) (fun h =>
        match h with
        | Some bi => Ok (withFlights tid (bi :: fl) r)
        | None => Err NullDeref
        end)
  | SCommit tid pred taken target inst =>
      match list.last fl with
      | None => Err NullDeref
      | Some bi =>
          finish r (sclCommit tid pred taken target inst bi (tr_tage r)) (fun _ =>
            Ok (mkTageRun (tr_tage r) (<[Z.to_nat tid := removelast fl]> (tr_flights r))
                  (<[Z.to_nat tid := withBits bi (baseAt tid r)]> (tr_base r))))
      end
  | STage op => tage_step p op r
  end.

(** As for [TAGE]: at most 666 branches of a thread in flight, and a placeholder is
    committed only after it was corrected. *)
Definition sclEnabled (op : SclTageOp) (r : TageRun) : bool :=
  match op with
  | SSpeculate tid b _ => tage_enabled p (TSpeculate tid b) r
  | SCommit tid _ taken target inst => tage_enabled p (TCommit tid taken target inst) r
  | STage op => match op with
                | TPlaceholder _ _ _ _ | TSquash _ | TCorrect _ _ _ _ => tage_enabled p op r
                | _ => false
                end
  end.

Inductive sclReach (t0 : TAGE) : TageRun -> Prop :=
| scl_start : sclReach t0 (startRun p t0)
| scl_next r op r' : sclReach t0 r -> sclEnabled op r = true -> sclStep op r = Ok r' -> sclReach t0 r'.

Fixpoint sclRun (ops : list SclTageOp) (r : TageRun) : Res TageRun :=
  match ops with
  | [] => Ok r
  | op :: ops' => r' ← sclStep op r; sclRun ops' r'
  end.

(** A run of enabled operations *)
Fixpoint sclChecked (ops : list SclTageOp) (r : TageRun) : Res TageRun :=
  match ops with
  | [] => Ok r
  | op :: ops' => if sclEnabled op r then r' ← sclStep op r; sclChecked ops' r' else Err AssertFail
  end.

Lemma sclChecked_reach t0 ops : forall r r',
  sclReach t0 r -> sclChecked ops r = Ok r' -> sclReach t0 r'.
Proof.
  induction ops as [|op ops IH]; intros r r' Hr E; cbn [sclChecked] in E; [by injection E as <-|].
  destruct (sclEnabled op r) eqn:En; [|done]. apply res_bind_ok in E as (r1 & E1 & E).
  apply (IH r1); [|done]. by eapply scl_next.
Qed.
End Steps.

(** A predictor just after [init] *)
Definition freshScl (sp : SclParams) (p : TageParams) (t : TAGE) : Prop :=
  exists rands, TB.initWith p (Scl.buildTageTables sp p) rands = Ok (tage t).

Section Spec.
Context (z : SclSize) (sp : SclParams) (p : TageParams) (Hcfg : tage_cfg p) (Hs : scl_cfg sp p)
  (Hz : size_cfg z sp) (Hn : 0 <= tg_numThreads p).
#[local] Instance scl_V : TageVirtual := sclVirtual z sp p.

#[local] Instance scl_VO : VirtualOk p (sclSize sp).
Proof.
  unfold scl_V. destruct z; cbn in *.
  - exact (@Scl_vok sp p Hcfg Hs _ (Scl64_ok sp p Hcfg Hs)).
  - exact (@Scl_vok sp p Hcfg Hs _ (Scl8_ok sp p Hcfg Hs Hz)).
Defined.

#[local] Abbreviation inv := (run_ok p (sclSize sp)).
#[local] Abbreviation hp := (histParams p).

(** The branch after the bimodal prediction: only its confidences have changed. *)
Definition sameButConf (bi bi' : BranchInfo) : Prop :=
  exists l h a m, bi' = bi <| bi_highConf := h |> <| bi_lowConf := l |> <| bi_altConf := a |> <| bi_medConf := m |>.

Lemma wp_bimode (s : TAGEBase) pc bi (Q : bool * BranchInfo -> TAGEBase -> Prop) :
  tb_ok p (sclSize sp) s -> bi_ok p (sclSize sp) bi -> (forall b bi', sameButConf bi bi' -> Q (b, bi') s) ->
  wp (v_getBimodePred pc bi) Q s.
Proof.
  intros Hok Hbi HQ. assert (E : v_getBimodePred pc bi = Scl.getBimodePred p pc bi) by (unfold scl_V; by destruct z).
  rewrite E. apply (wp_scl_bimode sp p Hcfg); [done..|]. intros b l h a m _. apply HQ. by exists l, h, a, m.
Qed.

Lemma grounded_conf bi bi' x :
  grounded p (sclSize sp) bi -> sameButConf bi bi' ->
  grounded p (sclSize sp) (match x with Some v => bi' <| bi_provider := v |> | None => bi' end).
Proof.
  intros [[] H2 H3 H4 H5] (l & h & a & m & ->). destruct x; (constructor; [by constructor|done..]).
Qed.

Lemma wp_sclSpeculate t tid b prov h hist (Q : option BranchInfo -> TAGE -> Prop) :
  tb_ok p (sclSize sp) (tage t) -> 0 <= tid < tg_numThreads p ->
  vat (threadHistory (tage t)) tid = Some h -> th_repr hp hist h ->
  (forall bi s', updated p (sclSize sp) (tage t) tid hist (pathHist h) (window hp h) (nonSpecPathHist h) bi s' ->
     Q (Some bi) (t <| tage := s' |>)) ->
  wp (sclSpeculate z sp p tid b prov) Q t.
Proof.
  intros Hok Ht Hh Hr HQ. unfold sclSpeculate. change (step_V z sp p) with scl_V.
  pose proof (make_grounded p (sclSize sp) Hcfg (sb_pc b) (negb (sb_uncond b))) as Hg0. wp_step. wp_step.
  apply (wp_mono _ (fun r s1 => tb_ok p (sclSize sp) s1 /\ scratch_only (tage t) s1 /\ grounded p (sclSize sp) (snd r))).
  { destruct (negb (sb_uncond b)).
    - eapply (wp_tagePredict p (sclSize sp) Hcfg); [done|done|apply Hg0|].
      intros c bi s1 [H1 H2 H3 [Hpc Hc Hp Hng Hmd] H5] Hno. split; [done|]. split; [done|].
      destruct Hg0 as [_ Hm Hn' _ _]. cbn [snd]. constructor; [done|congruence|congruence|done|done].
    - unfold TB.tagePredict. cbn [negb]. wp_step. apply wp_massert; [apply Z.eqb_refl|]. wp_step. by split_and!. }
  intros r s1 (Hok1 & Hso & Hg). wp_step. wp_step. apply wp_bimode; [done|apply Hg|]. intros c bi' Hc. cbn [snd].
  wp_step. apply (wp_mono _ (fun _ t' => t' = t <| tage := s1 |>)).
  { pose proof (gr_ok _ _ _ (grounded_conf (snd r) bi' None Hg Hc)) as Hbi. apply wp_when; intros H0; [|by destruct t].
    apply Z.ltb_lt in H0. destruct (bk_hit _ _ _ Hbi) as [H1 H2]. wp_step. wp_step.
    eapply (wp_entryAt p (sclSize sp)); [done|lia|by apply H2|]. intros e _. wp_step. by destruct t. }
  intros _ t1 ->. wp_step. wp_step.
  eapply (wp_updateHistories_first p (sclSize sp) Hcfg s1);
    [done|done|by rewrite (scratch_only_threads _ _ Hso)|exact Hr|by eapply grounded_conf|].
  intros bi2 s2 Hup _ _. wp_step. apply (HQ bi2 s2). by eapply updated_scratch.
Qed.

Lemma wp_sclCommit t tid pred taken tgt i bi ph h hist (Q : unit -> TAGE -> Prop) :
  tb_ok p (sclSize sp) (tage t) -> vat (threadHistory (tage t)) tid = Some h -> flying p (sclSize sp) ph bi ->
  th_repr hp hist h ->
  (forall t' h', tb_ok p (sclSize sp) (tage t') -> th_repr hp hist h' -> window hp h' = window hp h ->
     threadHistory (tage t') = <[Z.to_nat tid := h']> (threadHistory (tage t)) -> Q tt t') ->
  wp (sclCommit z sp p tid pred taken tgt i bi) Q t.
Proof.
  intros Hok Hh [Hbi _ Hph Hix Hno] Hr HQ. unfold sclCommit. change (step_V z sp p) with scl_V. wp_step.
  apply wp_random. intros r. wp_step.
  apply (wp_mono _ (fun _ t' => tables_kept p (sclSize sp) (tage t) (tage t'))).
  - apply wp_when; intros Hc; [|by split]. wp_steps. apply wp_updateStats. intros l. wp_step.
    set (s1 := _ <| tb_stats := l |>).
    assert (Hok1 : tb_ok p (sclSize sp) s1) by (by destruct Hok).
    eapply (wp_condBranchUpdate p (sclSize sp) Hcfg s1); [done|done|done|by intros _; apply Hix|].
    intros s2 K2. exact K2.
  - intros _ t2 [Hok2 Eth]. wp_step. wp_step.
    eapply (wp_updateHistories_commit p Hcfg); [by rewrite Eth|done|done|].
    intros h' Hr' Hw' _. wp_step. eapply (HQ _ h'); [by eapply tb_ok_thread|done|done|].
    cbn. by rewrite Eth.
Qed.

(** A prediction keeps the invariant and only adds the branch. *)
Lemma sclStep_speculate r tid b prov :
  inv r -> tage_enabled p (TSpeculate tid b) r = true ->
  exists r1, sclStep z sp p (SSpeculate tid b prov) r = Ok r1 /\ inv r1 /\ exists bi, speculated p (sclSize sp) tid r r1 bi.
Proof.
  intros Hr Hen. unfold tage_enabled in Hen. cbn [opThread] in Hen.
  apply andb_true_iff in Hen as [[H0%Z.leb_le H1%Z.ltb_lt]%andb_true_iff Hop%Z.ltb_lt].
  destruct (run_thread _ _ r tid Hr ltac:(lia)) as (h & Hh & Hk). cbn [sclStep sclOpThread]. apply finish_ok.
  eapply wp_sclSpeculate; [apply Hr|lia|exact Hh|apply Hk|]. intros bi s' Hup. eexists. split; [reflexivity|]. cbn. split.
  - destruct (updated_thread p (sclSize sp) _ _ _ _ _ _ _ _ (flightsAt tid r) (baseAt tid r) h Hup)
      as (h' & Eth & Hk'); [lia|done|done|apply Hk|apply Hk|done|].
    rewrite (base_same _ _ r tid Hr) by lia. eapply run_ok_step; [done|lia|apply Hup|exact Eth|done].
  - destruct Hup as [Hf (h1 & s1 & -> & Hso & _ & Hns & _) _]. exists bi. constructor; [done|done|]. by exists h, h1, s1.
Qed.

Lemma sclStep_commit r tid pred taken tgt i :
  inv r -> tage_enabled p (TCommit tid taken tgt i) r = true ->
  exists r1, sclStep z sp p (SCommit tid pred taken tgt i) r = Ok r1 /\ inv r1.
Proof.
  intros Hr Hen. unfold tage_enabled in Hen. cbn [opThread] in Hen.
  apply andb_true_iff in Hen as [[H0%Z.leb_le H1%Z.ltb_lt]%andb_true_iff Hop].
  destruct (run_thread _ _ r tid Hr ltac:(lia)) as (h & Hh & Hk). cbn [sclStep sclOpThread].
  destruct (flightsAt tid r) as [|bi fl _] eqn:Efl using rev_ind; [done|]. rewrite last_snoc in *. rewrite removelast_last.
  apply bool_decide_eq_true in Hop. apply finish_ok. destruct Hk as [Hhist Hfs Hwin Hlen].
  destruct (flights_snoc _ _ _ _ _ _ Hfs) as (Hfly & Hfl). destruct (in_flight_flying _ _ _ Hfly Hop) as [ph Hf].
  eapply wp_sclCommit; [apply Hr|exact Hh|exact Hf|exact Hhist|]. intros t' h' Hok' Hr' Hw' Eth.
  eexists. split; [reflexivity|]. cbn. rewrite bitsOf_app, length_app in *. cbn [length] in *.
  pose proof (bk_ng _ _ _ (fl_ok _ _ _ _ Hf)). cbn [bitsOf foldr] in Hwin.
  eapply run_ok_step; [done|lia|done|exact Eth|]. pose proof (flights_foldr _ _ _ _ _ Hfl) as Eh.
  constructor; rewrite <- ?Eh; [done|done|lia|lia].
Qed.

Lemma sclStep_ok op r : inv r -> sclEnabled p op r = true -> exists r', sclStep z sp p op r = Ok r' /\ inv r'.
Proof.
  intros Hr Hen. destruct op as [tid b prov|tid pred taken tgt i|op]; cbn [sclEnabled] in Hen.
  - destruct (sclStep_speculate r tid b prov Hr Hen) as (r1 & E & H1 & _). by exists r1.
  - by apply sclStep_commit.
  - apply (tage_step_ok p (sclSize sp) Hcfg op r Hr). by destruct op.
Qed.

Lemma scl_reach_ok t0 r : freshScl sp p t0 -> sclReach z sp p t0 r -> inv r.
Proof.
  intros [rands Hf] Hr. destruct (scl_init_ok sp p Hcfg Hs _ _ Hn Hf) as [Hok Hth].
  induction Hr as [|r op r' _ IH Hen E]; [apply start_ok; [done|done|]; intros h Hh; by apply Hth|].
  destruct (sclStep_ok op r IH Hen) as (r1 & E1 & H1). rewrite E in E1. by injection E1 as ->.
Qed.

(** [C25] In every state reached from init by the calls TAGE-SC-L makes on its TAGE (predictions,
    placeholders, squashes, corrections, commits), whatever the loop predictor and the corrector decide,
    with at most 666 branches of a thread in flight, the next call succeeds, in both sizes and in every
    configuration whose shifts are defined (tage_cfg, scl_cfg, size_cfg; the 64 KB one of the scripts is
    not, scl64_predict_undefined), except the commit of a placeholder that was never corrected: no index
    computed for a pair of tables and spread over a shared array leaves it, and the allocation loop
    ends. *)
Theorem scl_tage_no_fault t0 r op :
  freshScl sp p t0 -> sclReach z sp p t0 r -> sclEnabled p op r = true ->
  isOk (sclStep z sp p op r) = true.
Proof.
  intros Hf Hr Hen. destruct (sclStep_ok op r) as (r' & -> & _); [by eapply scl_reach_ok|done|done].
Qed.

(** The histories of TAGE-SC-L are exact: the registers of every table, those of
    the 8 KB size with their fixed widths included, are the folds of the history,
    and the counters and tables keep their bounds. *)
Theorem scl_tage_exact t0 r tid :
  freshScl sp p t0 -> sclReach z sp p t0 r -> 0 <= tid < tg_numThreads p ->
  (exists h, vat (threadHistory (tage (tr_tage r))) tid = Some h /\
     exact_history p (historyOf tid r) h) /\
  bounded_tables p (sclSize sp) (tage (tr_tage r)).
Proof.
  intros Hf Hr Ht. pose proof (scl_reach_ok t0 r Hf Hr) as Hok. split.
  - by apply (inv_history_exact p (sclSize sp)).
  - by apply (inv_tables_bounded p (sclSize sp) r).
Qed.

Lemma sclRun_app ops1 ops2 : forall r r1 r2,
  sclRun z sp p ops1 r = Ok r1 -> sclRun z sp p ops2 r1 = Ok r2 -> sclRun z sp p (ops1 ++ ops2) r = Ok r2.
Proof.
  induction ops1 as [|op ops1 IH]; intros r r1 r2 E1 E2; cbn [sclRun app] in *; [by injection E1 as ->|].
  apply res_bind_ok in E1 as (r' & Es & E1). rewrite Es. cbn. by eapply IH.
Qed.

Definition specOp (tid : ThreadID) (x : SpecBranch * option Z) : SclTageOp := SSpeculate tid (fst x) (snd x).

Lemma scl_speculate_squash tid xs : forall r,
  inv r -> 0 <= tid < tg_numThreads p ->
  3 * Z.of_nat (length (flightsAt tid r) + length xs) < rollbackBuffer ->
  exists r2, sclRun z sp p (map (specOp tid) xs ++ replicate (length xs) (STage (TSquash tid))) r = Ok r2 /\
    inv r2 /\ restored r r2.
Proof.
  induction xs as [|x xs IH]; intros r Hr Ht Hlen.
  { exists r. split; [done|]. split; [done|apply restored_refl]. }
  cbn [length] in Hlen. destruct (sclStep_speculate r tid (fst x) (snd x) Hr) as (r1 & E1 & Hr1 & bi & Hsp).
  { unfold tage_enabled. cbn [opThread].
    destruct (Z.leb_spec 0 tid), (Z.ltb_spec tid (tg_numThreads p)); lia. }
  assert (Hfl : flightsAt tid r1 = bi :: flightsAt tid r).
  { unfold flightsAt at 1. rewrite (sp_flights _ _ _ _ _ _ Hsp), vat_nat by lia.
    rewrite list_lookup_insert_eq; [done|]. pose proof (rk_flen _ _ _ Hr). lia. }
  destruct (IH r1 Hr1 Ht) as (r1' & E1' & Hr1' & Hres); [rewrite Hfl; cbn [length]; lia|].
  destruct (undo p (sclSize sp) Hcfg r tid r1 bi r1' Hr Ht Hsp Hr1' Hres) as (r2 & E2 & Hr2 & Hres2).
  exists r2. split; [|done]. cbn [map length]. rewrite replicate_S_end.
  cbn [app sclRun]. change (specOp tid x) with (SSpeculate tid (fst x) (snd x)). rewrite E1. unfold mbind, Res_bind. rewrite app_assoc.
  eapply sclRun_app; [exact E1'|]. cbn [sclRun sclStep]. change (step_V z sp p) with scl_V. by rewrite E2.
Qed.

(** Squashing any sequence of predicted branches, the youngest first, gives the
    predictor back. *)
Theorem scl_tage_squash_restores t0 r tid xs :
  freshScl sp p t0 -> sclReach z sp p t0 r -> 0 <= tid < tg_numThreads p ->
  3 * Z.of_nat (length (flightsAt tid r) + length xs) < rollbackBuffer ->
  exists r2, sclRun z sp p (map (specOp tid) xs ++ replicate (length xs) (STage (TSquash tid))) r = Ok r2 /\
    restored r r2.
Proof.
  intros Hf Hr Ht Hlen. pose proof (scl_reach_ok t0 r Hf Hr) as Hok.
  destruct (scl_speculate_squash tid xs r Hok Ht Hlen) as (r2 & E & _ & H). by exists r2.
Qed.
End Spec.

(** ** The 8 KB configuration *)

Definition zin (lo x hi : Z) : bool := (lo <=? x) && (x <=? hi).
Definition ozin (lo hi : Z) (o : option Z) : bool := match o with Some x => zin lo x hi | None => false end.

Lemma zin_ok lo x hi : zin lo x hi = true -> lo <= x <= hi.
Proof. intros [H1%Z.leb_le H2%Z.leb_le]%andb_true_iff. lia. Qed.

Lemma ozin_ok lo hi o : ozin lo hi o = true -> exists x, o = Some x /\ lo <= x <= hi.
Proof. destruct o as [x|]; [|done]. intros H%zin_ok. by exists x. Qed.

(** The conditions of [bank_cfg] and [scl_cfg] on a table *)
Definition bank_cfgb (sp : SclParams) (p : TageParams) (i : Z) : bool :=
  ozin 1 (maxHist p) (vat (histLengths p) i) && ozin 0 30 (vat (logTagTableSizes p) i) &&
  ozin 1 31 (vat (indexFold p) i) && ozin 1 31 (vat (tagFold0 p) i) &&
  ozin 1 31 (vat (tagFold1 p) i) && ozin 2 16 (vat (tagTableTagWidths p) i) &&
  bool_decide (vat (noSkip p) i <> None) &&
  bool_decide (vat (logTagTableSizes p) i = Some (logTagTableSize sp)).

Lemma bank_cfgb_ok sp p i :
  bank_cfgb sp p i = true ->
  bank_cfg p i /\ vat (logTagTableSizes p) i = Some (logTagTableSize sp).
Proof.
  unfold bank_cfgb. rewrite !andb_true_iff.
  intros [[[[[[[H1%ozin_ok H2%ozin_ok] H3%ozin_ok] H4%ozin_ok] H5%ozin_ok] H6%ozin_ok] H7] H8].
  apply bool_decide_eq_true in H7, H8. split; [|done]. constructor; try done.
  destruct (vat (noSkip p) i) as [b|]; [by exists b|done].
Qed.

Lemma banks_ok sp p :
  forallb (bank_cfgb sp p) (seqZ 1 (nHistoryTables p)) = true ->
  forall i, 1 <= i <= nHistoryTables p ->
    bank_cfg p i /\ vat (logTagTableSizes p) i = Some (logTagTableSize sp).
Proof.
  intros H i Hi. apply bank_cfgb_ok. rewrite List.forallb_forall in H. apply H.
  apply list_elem_of_In, elem_of_seqZ. lia.
Qed.

(** The 8 KB configuration with a history buffer of [b] bits and [k] threads *)
Definition kb8 (b k : Z) : TageParams :=
  TAGE_8KB_params <| histBufferSize := b |> <| tg_numThreads := k |>.

Lemma kb8_cfg b k : 6256 <= b < 2 ^ 31 -> tage_cfg (kb8 b k) /\ scl_cfg TAGE_8KB_scl (kb8 b k).
Proof.
  intros Hb. assert (Hbanks := banks_ok TAGE_8KB_scl (kb8 b k) ltac:(vm_compute; reflexivity)).
  split.
  - constructor; try (vm_compute; split; congruence); try (vm_compute; congruence).
    + constructor; [vm_compute; done|vm_compute; done|exact Hb].
    + intros i Hi. by apply Hbanks.
    + exists 12. split; [reflexivity|vm_compute; split; congruence].
  - constructor; try (vm_compute; split; congruence); try (vm_compute; congruence).
    + by exists 15.
    + intros i Hi. by apply Hbanks.
    + exists 4. split; [reflexivity|lia].
    + exists 29. split; [reflexivity|lia].
Qed.

Definition demoScl : TageParams := kb8 6400 1.
Definition sclFresh : TAGE :=
  mkTAGE (okOr dummyTage (TB.initWith demoScl (Scl.buildTageTables TAGE_8KB_scl demoScl) Z.of_nat))
    (fun _ => 0) 0 1.

Lemma sclFresh_ok : freshScl TAGE_8KB_scl demoScl sclFresh.
Proof. exists Z.of_nat. unfold sclFresh. cbn [tage]. apply ok_of. vm_compute. reflexivity. Qed.

Definition sclStart : TageRun := startRun demoScl sclFresh.

(** The operations of [demoOps], as TAGE-SC-L calls them *)
Definition sclOp (op : TageOp) : SclTageOp :=
  match op with
  | TSpeculate tid b => SSpeculate tid b None
  | TCommit tid taken target inst => SCommit tid (negb taken) taken target inst
  | _ => STage op
  end.

Definition sclDemoRun : TageRun :=
  okOr sclStart (sclChecked KB8 TAGE_8KB_scl demoScl (map sclOp demoOps) sclStart).

Lemma sclDemoRun_facts :
  sclChecked KB8 TAGE_8KB_scl demoScl (map sclOp demoOps) sclStart = Ok sclDemoRun /\
  demoTest demoScl [0; 0; 1; 0] sclDemoRun = true.
Proof. unfold sclDemoRun. apply ok_facts. vm_compute. reflexivity. Qed.

Lemma sclDemoRun_state :
  tage_enabled demoScl (TCommit 0 true 0x500 demoInst) sclDemoRun = true /\
  length (flightsAt 0 sclDemoRun) = 1%nat /\ historyOf 0 sclDemoRun = [0; 0; 1; 0].
Proof. apply demoTest_ok, sclDemoRun_facts. Qed.

Lemma sclDemoRun_enabled : sclEnabled demoScl (SCommit 0 false true 0x500 demoInst) sclDemoRun = true.
Proof. unfold sclEnabled. exact (proj1 sclDemoRun_state). Qed.

Lemma sclDemoRun_reach : sclReach KB8 TAGE_8KB_scl demoScl sclFresh sclDemoRun.
Proof.
  apply (sclChecked_reach KB8 TAGE_8KB_scl demoScl sclFresh (map sclOp demoOps) sclStart).
  - apply scl_start.
  - apply sclDemoRun_facts.
Qed.

Definition demoScl_cfg : tage_cfg demoScl := proj1 (kb8_cfg 6400 1 ltac:(lia)).
Definition demoScl_scl : scl_cfg TAGE_8KB_scl demoScl := proj2 (kb8_cfg 6400 1 ltac:(lia)).
Lemma demoScl_size : size_cfg KB8 TAGE_8KB_scl.
Proof. vm_compute. reflexivity. Qed.

Lemma scl_tage_no_fault_witness :
  isOk (sclStep KB8 TAGE_8KB_scl demoScl (SCommit 0 false true 0x500 demoInst) sclDemoRun) = true.
Proof.
  refine (scl_tage_no_fault KB8 TAGE_8KB_scl demoScl demoScl_cfg demoScl_scl demoScl_size
    ltac:(vm_compute; congruence) sclFresh sclDemoRun (SCommit 0 false true 0x500 demoInst) sclFresh_ok sclDemoRun_reach
    sclDemoRun_enabled).
Defined.

Lemma scl_tage_exact_witness :
  exists h, vat (threadHistory (tage (tr_tage sclDemoRun))) 0 = Some h /\
    comp <$> vat (computeTags0 h) 30 = Some (foldRef 13 1000 (historyOf 0 sclDemoRun)).
Proof.
  destruct (proj1 (scl_tage_exact KB8 TAGE_8KB_scl demoScl demoScl_cfg demoScl_scl demoScl_size
    ltac:(vm_compute; congruence) sclFresh sclDemoRun 0 sclFresh_ok sclDemoRun_reach
    ltac:(vm_compute; split; congruence))) as (h & Hh & _ & Hreg).
  exists h. split; [exact Hh|].
  refine (proj1 (proj2 (Hreg 30 1000 17 13 11 _ _ _ _ _)));
    [vm_compute; split; congruence|vm_compute; reflexivity..].
Defined.

Lemma scl_tage_squash_restores_witness :
  exists r2, sclRun KB8 TAGE_8KB_scl demoScl [SSpeculate 0 (demoBranch 0x600 false true) None;
      SSpeculate 0 (demoBranch 0x700 true true) None; STage (TSquash 0); STage (TSquash 0)] sclDemoRun = Ok r2 /\
    restored sclDemoRun r2.
Proof.
  refine (scl_tage_squash_restores KB8 TAGE_8KB_scl demoScl demoScl_cfg demoScl_scl demoScl_size
    ltac:(vm_compute; congruence) sclFresh sclDemoRun 0
    [(demoBranch 0x600 false true, None); (demoBranch 0x700 true true, None)] sclFresh_ok sclDemoRun_reach _ _).
  - vm_compute. split; congruence.
  - rewrite (proj1 (proj2 sclDemoRun_state)). reflexivity.
Defined.

(** ** The 64 KB configuration *)

Lemma scl64_length :
  vat (histLengths TAGE_64KB_params) (firstLongTagTable TAGE_64KB_scl) = Some 54.
Proof. vm_compute. reflexivity. Qed.

(** The 64 KB configuration of [BranchPredictor.py] cannot predict: the first
    table with long tags has a history of 54 branches, and the part of the array
    of long entries is selected with [(1 << 54) - 1] in an [int], which is
    undefined.  No conditional branch can be predicted, in any state. *)
Theorem scl64_predict_undefined tid pc bi s :
  vat (histLengths TAGE_64KB_params) (firstLongTagTable TAGE_64KB_scl) = Some 54 /\
  isOk (@TB.tagePredict TAGE_64KB_params (sclVirtual KB64 TAGE_64KB_scl TAGE_64KB_params)
          tid pc true bi s) = false.
Proof.
  split; [exact scl64_length|].
  unfold TB.tagePredict. cbn [negb v_calculateIndicesAndTags sclVirtual Scl.Scl_v]. apply bind_fails.
  unfold Scl.calculateIndicesAndTags. apply bind_fails_r. intros b s'. apply bind_fails.
  unfold Scl.bankOffset. rewrite scl64_length. reflexivity.
Qed.
