(* ===== verification/StatCorr.v ===== *)
(** * The statistical corrector: the model

    [cpu/pred/statistical_corrector.hh], [statistical_corrector.cc]: a set of
    tables of counters (GEHL tables) indexed with the address and with the most
    recent bits of several histories; the sum of the counters decides whether the
    prediction of TAGE is reversed.  The two sizes, [TAGE_SC_L_64KB_Statistical-
    Corrector] and [TAGE_SC_L_8KB_StatisticalCorrector], add tables and histories
    and define the virtual functions ([ScVirtual]).

    The members of a GEHL ([bwnb], [logBwnb], [bwm], the weight's initial value;
    [bwgehl], [wbw]) are grouped in a record for the configuration and one for
    the state.  The members that one of the sizes adds are fields that the other
    leaves empty. *)

From Stdlib Require Import ZArith Lia.
From stdpp Require Import base list numbers.
From S2P Require Import Prelude Types TageHist Tage TageScl.

Definition i64 (z : Z) : Z := (z + 2 ^ 63) mod 2 ^ 64 - 2 ^ 63.

(** The number, the log size, the history lengths and the initial weight of the
    tables of a GEHL *)
Record GehlParams := mkGehlParams {
  g_nb : Z;
  g_log : Z;
  g_lengths : list Z;
  g_weight : Z
}.

Record ScParams := mkScParams {
  logBias : Z;
  logSizeUp : Z;
  numEntriesFirstLocalHistories : Z;
  bwParams : GehlParams;
  lParams : GehlParams;
  iParams : GehlParams;
  chooserConfWidth : Z;
  updateThresholdWidth : Z;
  pUpdateThresholdWidth : Z;
  extraWeightsWidth : Z;
  scCountersWidth : Z;
  sc_instShiftAmt : Z;
  sc_speculative : bool;
  initialUpdateThresholdValue : Z;
  (* 64 KB *)
  numEntriesSecondLocalHistories : Z;
  numEntriesThirdLocalHistories : Z;
  pParams : GehlParams;
  sParams : GehlParams;
  tParams : GehlParams;
  imParams : GehlParams;
  (* 8 KB *)
  gParams : GehlParams
}.

#[export] Instance eta_ScParams : Settable ScParams := fun s =>
  mkScParams (logBias s) (logSizeUp s) (numEntriesFirstLocalHistories s) (bwParams s) (lParams s)
    (iParams s) (chooserConfWidth s) (updateThresholdWidth s) (pUpdateThresholdWidth s)
    (extraWeightsWidth s) (scCountersWidth s) (sc_instShiftAmt s) (sc_speculative s)
    (initialUpdateThresholdValue s) (numEntriesSecondLocalHistories s)
    (numEntriesThirdLocalHistories s) (pParams s) (sParams s) (tParams s) (imParams s) (gParams s).

(** [tab] and [w]: the counters and the weights *)
Record Gehl := mkGehl { gehl : list (list Z); gw : list Z }.

#[export] Instance eta_Gehl : Settable Gehl := fun s => mkGehl (gehl s) (gw s).

(** [SCThreadHistory], with [imHist] of the 64 KB and [globalHist] of the 8 KB
    size *)
Record ScHist := mkScHist {
  bwHist : Z;
  imliCount : Z;
  pHist : Z;
  localHistories : list (list Z);
  shifts : list Z;
  imHist : list Z;
  globalHist : Z
}.

#[export] Instance eta_ScHist : Settable ScHist := fun s =>
  mkScHist (bwHist s) (imliCount s) (pHist s) (localHistories s) (shifts s) (imHist s) (globalHist s).

(** [StatisticalCorrector::BranchInfo].  Cells 1, 2 and 3 of the array
    [localHistories] are fields; cell 0 is not used. *)
Record ScInfo := mkScInfo {
  si_lowConf : bool;
  si_highConf : bool;
  si_altConf : bool;
  si_medConf : bool;
  si_scPred : bool;
  si_lsum : Z;
  si_thres : Z;
  si_predBeforeSC : bool;
  si_usedScPred : bool;
  si_modified : bool;
  si_pc : Addr;
  si_bwHist : Z;
  si_imliCount : Z;
  si_pHist : Z;
  si_local1 : Z;
  si_local2 : Z;
  si_local3 : Z;
  si_globalHist : Z;
  si_imHist : Z
}.

#[export] Instance eta_ScInfo : Settable ScInfo := fun s =>
  mkScInfo (si_lowConf s) (si_highConf s) (si_altConf s) (si_medConf s) (si_scPred s) (si_lsum s)
    (si_thres s) (si_predBeforeSC s) (si_usedScPred s) (si_modified s) (si_pc s) (si_bwHist s)
    (si_imliCount s) (si_pHist s) (si_local1 s) (si_local2 s) (si_local3 s) (si_globalHist s)
    (si_imHist s).

Inductive ScStat := sc_correct | sc_wrong.

Record StatCorr := mkStatCorr {
  scHistory : ScHist;
  bwGehl : Gehl;
  lGehl : Gehl;
  iGehl : Gehl;
  pGehl : Gehl;
  sGehl : Gehl;
  tGehl : Gehl;
  imGehl : Gehl;
  gGehl : Gehl;
  bias : list Z;
  biasSK : list Z;
  biasBank : list Z;
  wb : list Z;
  updateThreshold : Z;
  pUpdateThreshold : list Z;
  firstH : Z;
  secondH : Z;
  sc_stats : list ScStat
}.

#[export] Instance eta_StatCorr : Settable StatCorr := fun s =>
  mkStatCorr (scHistory s) (bwGehl s) (lGehl s) (iGehl s) (pGehl s) (sGehl s) (tGehl s) (imGehl s)
    (gGehl s) (bias s) (biasSK s) (biasBank s) (wb s) (updateThreshold s) (pUpdateThreshold s)
    (firstH s) (secondH s) (sc_stats s).

(** The virtual functions that the sizes define or override; [gPredict] and
    [gUpdate] call the first, and the others call them. *)
Class ScIndexing := { v_gIndexLogsSubstr : Z -> Z -> Z }.

Class ScVirtual := {
  v_getIndBiasBank : Addr -> ScInfo -> Z -> Z -> Z;
  v_gPredictions : ThreadID -> Addr -> ScInfo -> Z -> M StatCorr (Z * Z);
  v_scHistoryUpdate : Addr -> StaticInst -> bool -> Addr -> Z -> M ScHist unit;
  v_scRecordHistState : Addr -> ScInfo -> M ScHist ScInfo;
  v_scRestoreHistState : ScInfo -> M ScHist bool;
  v_gUpdates : ThreadID -> Addr -> bool -> ScInfo -> M StatCorr unit
}.

Definition b2z (b : bool) : Z := if b then 1 else 0.

Module ScHistory.

Definition MaxOrdinalHistories : Z := 4.

Definition setNumOrdinalHistories (num : Z) (h : ScHist) : Res ScHist :=
  TB.rassert (num <? MaxOrdinalHistories) ;;
  TB.rassert (0 <? num) ;;
  Ok (h <| shifts := replicate (Z.to_nat num) 0 |> <| localHistories := replicate (Z.to_nat num) [] |>).

(** [numOrdinalHistories] is the number of local histories. *)
Definition ordinal_ok (ordinal : Z) (h : ScHist) : bool :=
  (1 <=? ordinal) && (ordinal <=? Z.of_nat (length (localHistories h))).

Definition initLocalHistory (ordinal numHistories shift : Z) (h : ScHist) : Res ScHist :=
  TB.rassert (ordinal_ok ordinal h) ;;
  TB.rassert (isPowerOf2 numHistories) ;;
  Ok (h <| shifts ::= TB.setCell (ordinal - 1) shift |>
        <| localHistories ::= TB.setCell (ordinal - 1) (replicate (Z.to_nat numHistories) 0) |>).

(** A shift of a 64-bit number by an amount outside [0, 64) is undefined. *)
Definition shamt64 {S} (k : Z) : M S Z :=
  if (0 <=? k) && (k <? 64) then mret k else fault Undefined.

Section Operations.
Context (instShiftAmt : Z).

Definition getEntry (pc : Addr) (idx : Z) : M ScHist Z :=
  h ← gets (fun h => h);
  k ← at_index (vat (shifts h) idx);
  k ← shamt64 k;
  l ← at_index (vat (localHistories h) idx);
  let shifted_pc := Z.shiftr pc instShiftAmt in
  mret (u32 (Z.land (Z.lxor shifted_pc (Z.shiftr shifted_pc k)) (Z.of_nat (length l) - 1))).

Definition assertOrdinal (ordinal : Z) : M ScHist unit :=
  b ← gets (ordinal_ok ordinal); massert b.

(** [localHistories[idx][entry]] *)
Definition localAt (idx entry : Z) : M ScHist Z :=
  h ← gets (fun h => h);
  l ← at_index (vat (localHistories h) idx);
  at_index (vat l entry).
Definition setLocalAt (idx entry value : Z) : M ScHist unit :=
  localAt idx entry ;;
  modify (fun h => h <| localHistories ::= alter (TB.setCell entry value) (Z.to_nat idx) |>).

Definition getLocalHistory (ordinal : Z) (pc : Addr) : M ScHist Z :=
  assertOrdinal ordinal ;;
  let idx := ordinal - 1 in
  e ← getEntry pc idx; localAt idx e.

Definition setLocalHistory (ordinal : Z) (pc : Addr) (value : Z) : M ScHist unit :=
  assertOrdinal ordinal ;;
  let idx := ordinal - 1 in
  e ← getEntry pc idx; setLocalAt idx e value.

Definition updateLocalHistory (ordinal : Z) (branch_pc : Addr) (taken : bool) (extraXor : Addr)
  : M ScHist unit :=
  assertOrdinal ordinal ;;
  let idx := ordinal - 1 in
  e ← getEntry branch_pc idx;
  x ← localAt idx e;
  let hist := i64 (Z.shiftl x 1) + b2z taken in
  let hist := if negb (extraXor =? 0) then i64 (Z.lxor (u64 hist) extraXor) else hist in
  setLocalAt idx e hist.
End Operations.
End ScHistory.

Module Sc.
Section Operations.
Context (p : ScParams).

(** ** Construction *)

Definition logSizeUps : Z := logSizeUp p / 2.

Definition initGEHLTable (g : GehlParams) : Res Gehl :=
  TB.rassert (Z.of_nat (length (g_lengths g)) =? g_nb g) ;;
  Ok (if g_nb g =? 0 then mkGehl [] []
      else mkGehl (replicate (Z.to_nat (g_nb g))
                     (map (fun j => if (j <? 2 ^ g_log g - 1) && Z.even j then -1 else 0)
                          (seqZ 0 (2 ^ g_log g))))
                  (replicate (Z.to_nat (2 ^ logSizeUps)) (g_weight g))).

(** [initBias]: the values of the entries of [bias], [biasSK] and [biasBank] *)
Definition initBias (v : Z -> Z) : list Z := map (fun j => v (Z.land j 3)) (seqZ 0 (2 ^ logBias p)).
Definition biasValue (k : Z) : Z := if k =? 0 then -32 else if k =? 1 then 31 else if k =? 2 then -1 else 0.
Definition biasSKValue (k : Z) : Z := if k =? 0 then -8 else if k =? 1 then 7 else if k =? 2 then -32 else 31.

(** The constructor and [init], with the history that [makeThreadHistory] makes *)
Definition make (makeThreadHistory : Res ScHist) : Res StatCorr :=
  l ← initGEHLTable (lParams p);
  bw ← initGEHLTable (bwParams p);
  i ← initGEHLTable (iParams p);
  h ← makeThreadHistory;
  let none := mkGehl [] [] in
  Ok (mkStatCorr h bw l i none none none none none
        (initBias biasValue) (initBias biasSKValue) (initBias biasValue)
        (replicate (Z.to_nat (2 ^ logSizeUps)) 4) (Z.shiftl 35 3)
        (replicate (Z.to_nat (2 ^ logSizeUp p)) (initialUpdateThresholdValue p)) 0 0 []).

Definition makeBranchInfo : ScInfo :=
  mkScInfo false false false false false 0 0 false false false 0 0 0 0 0 0 0 0 0.

Definition makeThreadHistory : ScHist := mkScHist 0 0 0 [] [] [] 0.

(** ** Counters and indices *)

(** [ctrUpdate] on a counter type of [width] bits *)
Definition ctrUpdate {S} (width ctr : Z) (taken : bool) (nbits : Z) : M S Z :=
  massert (nbits <=? width) ;;
  if 0 <? nbits then
    m ← Scl.lowMask (nbits - 1);
    mret (if taken then (if ctr <? m then ctr + 1 else ctr)
          else (if - (m + 1) <? ctr then ctr - 1 else ctr))
  else mret ctr.

(** [ctrUpdate] of a cell of a vector of [int8_t] or [int] *)
Definition ctrUpdateAt {S} (width : Z) (v : S -> list Z) `{!Setter v} (idx : Z) (taken : bool)
    (nbits : Z) : M S unit :=
  l ← gets v;
  c ← at_index (vat l idx);
  c ← ctrUpdate width c taken nbits;
  modify (fun s => s <| v ::= TB.setCell idx c |>).

Definition hashPc (branch_pc : Addr) : Z :=
  let shifted_pc := Z.shiftr branch_pc (sc_instShiftAmt p) in
  Z.lxor shifted_pc (Z.shiftr shifted_pc 2).

Definition biasMask : Z := Z.shiftl 1 (logBias p) - 1.

Definition getIndBias (branch_pc : Addr) (bi : ScInfo) (b : bool) : Z :=
  Z.land (u64 (u64 (Z.shiftl (Z.lxor (u64 (Z.shiftl (hashPc branch_pc) 1))
                                     (b2z (si_lowConf bi && b))) 1) + b2z (si_predBeforeSC bi)))
    biasMask.

Definition getIndBiasSK {S} (branch_pc : Addr) (bi : ScInfo) : M S Z :=
  k ← ScHistory.shamt64 (logBias p - 2);
  let shifted_pc := Z.shiftr branch_pc (sc_instShiftAmt p) in
  mret (Z.land (u64 (u64 (Z.shiftl (Z.lxor (u64 (Z.shiftl (Z.lxor shifted_pc (Z.shiftr shifted_pc k)) 1))
                                           (b2z (si_highConf bi))) 1) + b2z (si_predBeforeSC bi)))
          biasMask).

Definition getIndUpd (branch_pc : Addr) : Z :=
  Z.land (hashPc branch_pc) (Z.shiftl 1 (logSizeUp p) - 1).
Definition getIndUpds (branch_pc : Addr) : Z :=
  Z.land (hashPc branch_pc) (Z.shiftl 1 logSizeUps - 1).

Context {I : ScIndexing}.

Definition gIndex {S} (branch_pc : Addr) (bhist logs nbr i : Z) : M S Z :=
  a ← ScHistory.shamt64 (8 - i);
  b ← ScHistory.shamt64 (16 - 2 * i);
  c ← ScHistory.shamt64 (24 - 3 * i);
  d ← ScHistory.shamt64 (32 - 3 * i);
  e ← ScHistory.shamt64 (40 - 4 * i);
  m ← Scl.lowMask (logs - v_gIndexLogsSubstr nbr i);
  mret (Z.land
    (Z.lxor (Z.lxor (Z.lxor (Z.lxor (Z.lxor (Z.lxor
       (Z.shiftr (i64 branch_pc) (sc_instShiftAmt p)) bhist) (Z.shiftr bhist a)) (Z.shiftr bhist b))
       (Z.shiftr bhist c)) (Z.shiftr bhist d)) (Z.shiftr bhist e)) m).

(** The index of table [i]: the first two lines of the loops of [gPredict] and
    [gUpdate] *)
Definition tableIndex {S} (g : GehlParams) (branch_pc : Addr) (hist i : Z) : M S Z :=
  len ← at_index (vat (g_lengths g) i);
  m ← Scl.lowMask len;
  gIndex branch_pc (Z.land hist m) (g_log g) (g_nb g) i.

(** [tab[i][index]] *)
Definition ctrAt (i index : Z) : M Gehl Z :=
  g ← gets (fun g => g);
  t ← at_index (vat (gehl g) i);
  at_index (vat t index).

Definition weightAt (branch_pc : Addr) : M Gehl Z :=
  w ← gets gw; at_index (vat w (getIndUpds branch_pc)).

(** [1 + (w >= 0)] *)
Definition weight (w : Z) : Z := 1 + b2z (0 <=? w).

Definition gPredict (g : GehlParams) (branch_pc : Addr) (hist : Z) : M Gehl Z :=
  percsum ← mfold (seqZ 0 (g_nb g)) (fun percsum i =>
    index ← tableIndex g branch_pc hist i;
    ctr ← ctrAt i index;
    mret (percsum + (2 * ctr + 1))) 0;
  w ← weightAt branch_pc;
  mret (weight w * percsum).

Definition gUpdate (g : GehlParams) (branch_pc : Addr) (taken : bool) (hist : Z) (bi : ScInfo)
  : M Gehl unit :=
  percsum ← mfold (seqZ 0 (g_nb g)) (fun percsum i =>
    index ← tableIndex g branch_pc hist i;
    ctr ← ctrAt i index;
    c ← ctrUpdate 8 ctr taken (scCountersWidth p);
    modify (fun s => s <| gehl ::= alter (TB.setCell index c) (Z.to_nat i) |>) ;;
    mret (percsum + (2 * ctr + 1))) 0;
  w ← weightAt branch_pc;
  let xsum := si_lsum bi - b2z (0 <=? w) * percsum in
  when (negb (eqb (0 <=? xsum + percsum) (0 <=? xsum)))
    (ctrUpdateAt 8 gw (getIndUpds branch_pc) (eqb (0 <=? percsum) taken) (extraWeightsWidth p)).

(** [lsum += gPredict(...)] and [gUpdate(...)] on the tables [t] *)
Definition addPredict (t : StatCorr -> Gehl) `{!Setter t} (g : GehlParams) (branch_pc : Addr)
    (hist lsum : Z) : M StatCorr Z :=
  x ← zoom t (gPredict g branch_pc hist); mret (lsum + x).
Definition updateTables (t : StatCorr -> Gehl) `{!Setter t} (g : GehlParams) (branch_pc : Addr)
    (taken : bool) (hist : Z) (bi : ScInfo) : M StatCorr unit :=
  zoom t (gUpdate g branch_pc taken hist bi).

(** ** Prediction *)

Context {V : ScVirtual}.

(** [v[idx]] for a vector of the corrector *)
Definition cellOf (v : StatCorr -> list Z) (idx : Z) : M StatCorr Z :=
  l ← gets v; at_index (vat l idx).

Definition calcBias (branch_pc : Addr) (bi : ScInfo) (bias_bit use_conf_ctr : bool)
    (conf_ctr conf_bits hitBank altBank : Z) : M StatCorr (Z * ScInfo) :=
  bi ← (if use_conf_ctr then
          let s := Scl.strength conf_ctr in
          m ← Scl.lowMask conf_bits;
          mret (bi <| si_lowConf := s =? 1 |> <| si_medConf := s =? 5 |> <| si_highConf := m <=? s |>)
        else mret bi);
  c1 ← cellOf bias (getIndBias branch_pc bi bias_bit);
  k ← getIndBiasSK branch_pc bi;
  c2 ← cellOf biasSK k;
  c3 ← cellOf biasBank (v_getIndBiasBank branch_pc bi hitBank altBank);
  w ← cellOf wb (getIndUpds branch_pc);
  mret (weight w * ((2 * c1 + 1) + (2 * c2 + 1) + (2 * c3 + 1)), bi).

(** The choice between TAGE and the corrector when they differ *)
Definition useScPred (bi : ScInfo) (firstH secondH : Z) : bool :=
  let l := Z.abs (si_lsum bi) in
  let u :=
    if si_highConf bi then
      if l <? Z.quot (si_thres bi) 4 then false
      else if l <? Z.quot (si_thres bi) 2 then secondH <? 0 else true
    else true in
  if si_medConf bi && (l <? Z.quot (si_thres bi) 4) then firstH <? 0 else u.

Definition scPredict (tid : ThreadID) (branch_pc : Addr) (cond_branch : bool) (bi : ScInfo)
    (prev_pred_taken bias_bit use_conf_ctr : bool) (conf_ctr conf_bits hitBank altBank : Z)
    (init_lsum : Z) : M StatCorr (bool * ScInfo) :=
  if negb cond_branch then mret (prev_pred_taken, bi) else
  let bi := bi <| si_predBeforeSC := prev_pred_taken |> in
  c ← calcBias branch_pc bi bias_bit use_conf_ctr conf_ctr conf_bits hitBank altBank;
  bi ← zoom scHistory (v_scRecordHistState branch_pc (snd c));
  r ← v_gPredictions tid branch_pc bi (init_lsum + fst c);
  let bi := bi <| si_lsum := snd r |> <| si_thres := fst r |> in
  let scPred := 0 <=? si_lsum bi in
  if negb (eqb prev_pred_taken scPred) then
    s ← gets (fun s => s);
    let u := useScPred bi (firstH s) (secondH s) in
    let bi := bi <| si_usedScPred := u |> in
    mret (if u then (scPred, bi <| si_scPred := scPred |>) else (prev_pred_taken, bi))
  else mret (prev_pred_taken, bi).

(** ** Histories *)

Definition scHistoryUpdate (branch_pc : Addr) (inst : StaticInst) (taken : bool) (target : Addr)
    (phist : Z) : M ScHist unit :=
  modify (fun h => h <| pHist := phist |>) ;;
  let brtype := (if isDirectCtrl inst then 0 else 2) + (if isUncondCtrl inst then 0 else 1) in
  when (negb (Z.land brtype 1 =? 0))
    (when (target <? branch_pc)
       (if negb taken then modify (fun h => h <| imliCount := 0 |>)
        else
          len ← at_index (vat (g_lengths (iParams p)) 0);
          m ← Scl.lowMask len;
          c ← gets imliCount;
          when (c <? m) (modify (fun h => h <| imliCount := c + 1 |>))) ;;
     modify (fun h => h <| bwHist ::= fun x =>
       i64 (Z.shiftl x 1) + b2z (taken && (target <? branch_pc)) |>) ;;
     ScHistory.updateLocalHistory (sc_instShiftAmt p) 1 branch_pc taken 0).

Definition scRecordHistState (branch_pc : Addr) (bi : ScInfo) : M ScHist ScInfo :=
  h ← gets (fun h => h);
  l ← ScHistory.getLocalHistory (sc_instShiftAmt p) 1 branch_pc;
  mret (bi <| si_pc := branch_pc |> <| si_bwHist := bwHist h |> <| si_imliCount := imliCount h |>
           <| si_pHist := pHist h |> <| si_local1 := l |>).

Definition scRestoreHistState (bi : ScInfo) : M ScHist bool :=
  if negb (si_modified bi) then mret false else
  modify (fun h => h <| bwHist := si_bwHist bi |> <| imliCount := si_imliCount bi |>) ;;
  ScHistory.setLocalHistory (sc_instShiftAmt p) 1 (si_pc bi) (si_local1 bi) ;;
  mret true.

Definition updateHistories (branch_pc : Addr) (speculative : bool) (inst : StaticInst) (taken : bool)
    (bi : ScInfo) (target : Addr) (phist : Z) : M StatCorr ScInfo :=
  if negb (eqb speculative (sc_speculative p)) then mret bi else
  bi ← (if sc_speculative p && negb (si_modified bi)
        then zoom scHistory (v_scRecordHistState branch_pc bi) else mret bi);
  (if si_modified bi then zoom scHistory (v_scRestoreHistState bi) ;; mret tt else mret tt) ;;
  zoom scHistory (v_scHistoryUpdate branch_pc inst taken target phist) ;;
  mret (bi <| si_modified := true |>).

(** ** Training *)

(** The update of the chooser counters *)
Definition updateChooser (taken : bool) (bi : ScInfo) : M StatCorr unit :=
  let l := Z.abs (si_lsum bi) in
  let scPred := 0 <=? si_lsum bi in
  let right := eqb (si_predBeforeSC bi) taken in
  when (negb (eqb (si_predBeforeSC bi) scPred))
    (when ((l <? si_thres bi) && si_highConf bi && (l <? Z.quot (si_thres bi) 2) &&
           (Z.quot (si_thres bi) 4 <=? l))
       (c ← gets secondH; c ← ctrUpdate 8 c right (chooserConfWidth p);
        modify (fun s => s <| secondH := c |>)) ;;
     when (si_medConf bi && (l <? Z.quot (si_thres bi) 4))
       (c ← gets firstH; c ← ctrUpdate 8 c right (chooserConfWidth p);
        modify (fun s => s <| firstH := c |>))).

Definition condBranchUpdate (tid : ThreadID) (branch_pc : Addr) (taken : bool) (bi : ScInfo)
    (corrTarget : Addr) (b : bool) (hitBank altBank : Z) : M StatCorr ScInfo :=
  bi ← (if sc_speculative p then
          c ← calcBias branch_pc bi b false 0 0 hitBank altBank;
          r ← v_gPredictions tid branch_pc ((snd c) <| si_lsum := fst c |>) (fst c);
          mret ((snd c) <| si_lsum := snd r |> <| si_thres := fst r |>)
        else mret bi);
  let scPred := 0 <=? si_lsum bi in
  updateChooser taken bi ;;
  when (negb (eqb scPred taken) || (Z.abs (si_lsum bi) <? si_thres bi))
    (c ← gets updateThreshold;
     c ← ctrUpdate 32 c (negb (eqb scPred taken)) (updateThresholdWidth p);
     modify (fun s => s <| updateThreshold := c |>) ;;
     ctrUpdateAt 32 pUpdateThreshold (getIndUpd branch_pc) (negb (eqb scPred taken))
       (pUpdateThresholdWidth p) ;;
     let indUpds := getIndUpds branch_pc in
     let indBias := getIndBias branch_pc bi b in
     indBiasSK ← getIndBiasSK branch_pc bi;
     let indBiasBank := v_getIndBiasBank branch_pc bi hitBank altBank in
     w ← cellOf wb indUpds;
     c1 ← cellOf bias indBias;
     c2 ← cellOf biasSK indBiasSK;
     c3 ← cellOf biasBank indBiasBank;
     let sum := (2 * c1 + 1) + (2 * c2 + 1) + (2 * c3 + 1) in
     let xsum := si_lsum bi - b2z (0 <=? w) * sum in
     when (negb (eqb (0 <=? xsum + sum) (0 <=? xsum)))
       (ctrUpdateAt 8 wb indUpds (eqb (0 <=? sum) taken) (extraWeightsWidth p)) ;;
     ctrUpdateAt 8 bias indBias taken (scCountersWidth p) ;;
     ctrUpdateAt 8 biasSK indBiasSK taken (scCountersWidth p) ;;
     ctrUpdateAt 8 biasBank indBiasBank taken (scCountersWidth p) ;;
     v_gUpdates tid branch_pc taken bi) ;;
  mret bi.

Definition updateStats (taken : bool) (bi : ScInfo) : M StatCorr unit :=
  modify (fun s => s <| sc_stats ::= fun l =>
    l ++ [if eqb taken (si_scPred bi) then sc_correct else sc_wrong] |>).
End Operations.
End Sc.

(** ** The 64 KB size *)
Module Sc64.
Section Operations.
Context (p : ScParams).

Definition makeThreadHistory : Res ScHist :=
  h ← ScHistory.setNumOrdinalHistories 3 Sc.makeThreadHistory;
  h ← ScHistory.initLocalHistory 1 (numEntriesFirstLocalHistories p) 2 h;
  h ← ScHistory.initLocalHistory 2 (numEntriesSecondLocalHistories p) 5 h;
  h ← ScHistory.initLocalHistory 3 (numEntriesThirdLocalHistories p) (g_log (tParams p)) h;
  match vat (g_lengths (iParams p)) 0 with
  | None => Err OutOfRange
  | Some len => Ok (h <| imHist := replicate (Z.to_nat (2 ^ len)) 0 |>)
  end.

Definition make : Res StatCorr :=
  s ← Sc.make p makeThreadHistory;
  pg ← Sc.initGEHLTable p (pParams p);
  sg ← Sc.initGEHLTable p (sParams p);
  tg ← Sc.initGEHLTable p (tParams p);
  im ← Sc.initGEHLTable p (imParams p);
  Ok (s <| pGehl := pg |> <| sGehl := sg |> <| tGehl := tg |> <| imGehl := im |>).

Definition getIndBiasBank (branch_pc : Addr) (bi : ScInfo) (hitBank altBank : Z) : Z :=
  Z.land (u64 (b2z (si_predBeforeSC bi) + Z.shiftl (Z.quot (hitBank + 1) 4) 4 +
               Z.shiftl (b2z (si_highConf bi)) 1 + Z.shiftl (b2z (si_lowConf bi)) 2 +
               Z.shiftl (b2z (negb (altBank =? 0))) 3 + Z.shiftl (Sc.hashPc p branch_pc) 7))
    (Sc.biasMask p).

Definition gIndexLogsSubstr (nbr i : Z) : Z := if nbr - 2 <=? i then 1 else 0.
Definition indexing : ScIndexing := {| v_gIndexLogsSubstr := gIndexLogsSubstr |}.
#[local] Existing Instance indexing.

(** [w[getIndUpds(branch_pc)] >= 0], as a number *)
Definition trusted (w : StatCorr -> list Z) (branch_pc : Addr) : M StatCorr Z :=
  x ← Sc.cellOf w (Sc.getIndUpds p branch_pc); mret (b2z (0 <=? x)).

Definition gPredictions (tid : ThreadID) (branch_pc : Addr) (bi : ScInfo) (lsum : Z)
  : M StatCorr (Z * Z) :=
  let pc := u64 (Z.shiftl (Z.shiftr branch_pc (sc_instShiftAmt p)) 1 + b2z (si_predBeforeSC bi)) in
  lsum ← Sc.addPredict p bwGehl (bwParams p) pc (si_bwHist bi) lsum;
  lsum ← Sc.addPredict p pGehl (pParams p) branch_pc (si_pHist bi) lsum;
  lsum ← Sc.addPredict p lGehl (lParams p) branch_pc (si_local1 bi) lsum;
  lsum ← Sc.addPredict p sGehl (sParams p) branch_pc (si_local2 bi) lsum;
  lsum ← Sc.addPredict p tGehl (tParams p) branch_pc (si_local3 bi) lsum;
  lsum ← Sc.addPredict p imGehl (imParams p) branch_pc (si_imHist bi) lsum;
  lsum ← Sc.addPredict p iGehl (iParams p) branch_pc (si_imliCount bi) lsum;
  u ← gets updateThreshold;
  pu ← Sc.cellOf pUpdateThreshold (Sc.getIndUpd p branch_pc);
  b ← trusted wb branch_pc;
  x1 ← trusted (fun s => gw (pGehl s)) branch_pc;
  x2 ← trusted (fun s => gw (sGehl s)) branch_pc;
  x3 ← trusted (fun s => gw (tGehl s)) branch_pc;
  x4 ← trusted (fun s => gw (lGehl s)) branch_pc;
  x5 ← trusted (fun s => gw (bwGehl s)) branch_pc;
  x6 ← trusted (fun s => gw (iGehl s)) branch_pc;
  mret (Z.shiftr u 3 + pu + 12 * (b + x1 + x2 + x3 + x4 + x5 + x6), lsum).

Definition scHistoryUpdate (branch_pc : Addr) (inst : StaticInst) (taken : bool) (target : Addr)
    (phist : Z) : M ScHist unit :=
  let brtype := (if isDirectCtrl inst then 0 else 2) + (if isUncondCtrl inst then 0 else 1) in
  when (negb (Z.land brtype 1 =? 0))
    (h ← gets (fun h => h);
     x ← at_index (vat (imHist h) (imliCount h));
     modify (fun s => s <| imHist ::= TB.setCell (imliCount h) (i64 (Z.shiftl x 1) + b2z taken) |>) ;;
     ScHistory.updateLocalHistory (sc_instShiftAmt p) 2 branch_pc taken (Z.land branch_pc 15) ;;
     ScHistory.updateLocalHistory (sc_instShiftAmt p) 3 branch_pc taken 0) ;;
  Sc.scHistoryUpdate p branch_pc inst taken target phist.

Definition scRecordHistState (branch_pc : Addr) (bi : ScInfo) : M ScHist ScInfo :=
  bi ← Sc.scRecordHistState p branch_pc bi;
  h ← gets (fun h => h);
  x ← at_index (vat (imHist h) (imliCount h));
  l2 ← ScHistory.getLocalHistory (sc_instShiftAmt p) 2 branch_pc;
  l3 ← ScHistory.getLocalHistory (sc_instShiftAmt p) 3 branch_pc;
  mret (bi <| si_imHist := x |> <| si_local2 := l2 |> <| si_local3 := l3 |>).

Definition scRestoreHistState (bi : ScInfo) : M ScHist bool :=
  r ← Sc.scRestoreHistState p bi;
  if negb r then mret false else
  h ← gets (fun h => h);
  at_index (vat (imHist h) (imliCount h)) ;;
  modify (fun s => s <| imHist ::= TB.setCell (imliCount h) (si_imHist bi) |>) ;;
  ScHistory.setLocalHistory (sc_instShiftAmt p) 2 (si_pc bi) (si_local2 bi) ;;
  ScHistory.setLocalHistory (sc_instShiftAmt p) 3 (si_pc bi) (si_local3 bi) ;;
  mret true.

Definition gUpdates (tid : ThreadID) (pc : Addr) (taken : bool) (bi : ScInfo) : M StatCorr unit :=
  let bwpc := u64 (Z.shiftl pc 1 + b2z (si_predBeforeSC bi)) in
  Sc.updateTables p bwGehl (bwParams p) bwpc taken (si_bwHist bi) bi ;;
  Sc.updateTables p pGehl (pParams p) pc taken (si_pHist bi) bi ;;
  Sc.updateTables p lGehl (lParams p) pc taken (si_local1 bi) bi ;;
  Sc.updateTables p sGehl (sParams p) pc taken (si_local2 bi) bi ;;
  Sc.updateTables p tGehl (tParams p) pc taken (si_local3 bi) bi ;;
  Sc.updateTables p imGehl (imParams p) pc taken (si_imHist bi) bi ;;
  Sc.updateTables p iGehl (iParams p) pc taken (si_imliCount bi) bi.

Definition Sc64_v : ScVirtual := {|
  v_getIndBiasBank := getIndBiasBank;
  v_gPredictions := gPredictions;
  v_scHistoryUpdate := scHistoryUpdate;
  v_scRecordHistState := scRecordHistState;
  v_scRestoreHistState := scRestoreHistState;
  v_gUpdates := gUpdates
|}.
End Operations.
End Sc64.

(** ** The 8 KB size *)
Module Sc8.
Section Operations.
Context (p : ScParams).

Definition makeThreadHistory : Res ScHist :=
  h ← ScHistory.setNumOrdinalHistories 1 Sc.makeThreadHistory;
  ScHistory.initLocalHistory 1 (numEntriesFirstLocalHistories p) 2 h.

Definition make : Res StatCorr :=
  s ← Sc.make p makeThreadHistory;
  g ← Sc.initGEHLTable p (gParams p);
  Ok (s <| gGehl := g |>).

Definition getIndBiasBank (branch_pc : Addr) (bi : ScInfo) (hitBank altBank : Z) : Z :=
  Z.land (b2z (si_predBeforeSC bi) + Z.shiftl (Z.quot (hitBank + 1) 4) 4 +
          Z.shiftl (b2z (si_highConf bi)) 1 + Z.shiftl (b2z (si_lowConf bi)) 2 +
          Z.shiftl (b2z (negb (altBank =? 0))) 3)
    (Sc.biasMask p).

Definition gIndexLogsSubstr (nbr i : Z) : Z := 0.
Definition indexing : ScIndexing := {| v_gIndexLogsSubstr := gIndexLogsSubstr |}.
#[local] Existing Instance indexing.

Definition gPredictions (tid : ThreadID) (branch_pc : Addr) (bi : ScInfo) (lsum : Z)
  : M StatCorr (Z * Z) :=
  lsum ← Sc.addPredict p gGehl (gParams p) branch_pc (si_globalHist bi) lsum;
  lsum ← Sc.addPredict p bwGehl (bwParams p) branch_pc (si_bwHist bi) lsum;
  lsum ← Sc.addPredict p lGehl (lParams p) branch_pc (si_local1 bi) lsum;
  lsum ← Sc.addPredict p iGehl (iParams p) branch_pc (si_imliCount bi) lsum;
  u ← gets updateThreshold;
  pu ← Sc.cellOf pUpdateThreshold (Sc.getIndUpd p branch_pc);
  mret (Z.shiftr u 3 + pu, lsum).

Definition scHistoryUpdate (branch_pc : Addr) (inst : StaticInst) (taken : bool) (target : Addr)
    (phist : Z) : M ScHist unit :=
  let brtype := (if isDirectCtrl inst then 0 else 2) + (if isUncondCtrl inst then 0 else 1) in
  when (negb (Z.land brtype 1 =? 0))
    (modify (fun h => h <| globalHist ::= fun x => i64 (Z.shiftl x 1) + b2z taken |>)) ;;
  Sc.scHistoryUpdate p branch_pc inst taken target phist.

Definition scRecordHistState (branch_pc : Addr) (bi : ScInfo) : M ScHist ScInfo :=
  bi ← Sc.scRecordHistState p branch_pc bi;
  g ← gets globalHist;
  mret (bi <| si_globalHist := g |>).

Definition scRestoreHistState (bi : ScInfo) : M ScHist bool :=
  r ← Sc.scRestoreHistState p bi;
  if negb r then mret false else
  modify (fun h => h <| globalHist := si_globalHist bi |>) ;;
  mret true.

Definition gUpdates (tid : ThreadID) (pc : Addr) (taken : bool) (bi : ScInfo) : M StatCorr unit :=
  Sc.updateTables p gGehl (gParams p) pc taken (si_globalHist bi) bi ;;
  Sc.updateTables p bwGehl (bwParams p) pc taken (si_bwHist bi) bi ;;
  Sc.updateTables p lGehl (lParams p) pc taken (si_local1 bi) bi ;;
  Sc.updateTables p iGehl (iParams p) pc taken (si_imliCount bi) bi.

Definition Sc8_v : ScVirtual := {|
  v_getIndBiasBank := getIndBiasBank;
  v_gPredictions := gPredictions;
  v_scHistoryUpdate := scHistoryUpdate;
  v_scRecordHistState := scRecordHistState;
  v_scRestoreHistState := scRestoreHistState;
  v_gUpdates := gUpdates
|}.
End Operations.
End Sc8.

(** ** Configurations of [BranchPredictor.py] *)

Definition noGehl : GehlParams := mkGehlParams 0 0 [] 0.

(** [sp] is [speculativeHistUpdate], a parameter of the predictor. *)
Definition SC_64KB_params (instShiftAmt : Z) (sp : bool) : ScParams :=
  mkScParams 8 6 256 (mkGehlParams 3 10 [40; 24; 10] 7) (mkGehlParams 3 10 [11; 6; 3] 7)
    (mkGehlParams 1 8 [8] 7) 7 12 8 6 6 instShiftAmt sp 0 16 16
    (mkGehlParams 3 9 [25; 16; 9] 7) (mkGehlParams 3 9 [16; 11; 6] 7) (mkGehlParams 2 10 [9; 4] 7)
    (mkGehlParams 2 9 [10; 4] 0) noGehl.

Definition SC_8KB_params (instShiftAmt : Z) (sp : bool) : ScParams :=
  mkScParams 7 6 64 (mkGehlParams 2 7 [16; 8] 7) (mkGehlParams 2 7 [6; 3] 7)
    (mkGehlParams 1 7 [8] 7) 7 12 8 6 6 instShiftAmt sp 0 0 0
    noGehl noGehl noGehl noGehl (mkGehlParams 2 7 [6; 3] 7).
