(* ===== verification/StatCorrHist.v ===== *)
(** * The histories of the statistical corrector

    The update of the histories as one function ([histStep]), the checkpoint a
    branch takes ([holds]) and the law of its recovery, for both sizes.  Two
    histories are the same when they differ at most in [pHist] ([same_hist]),
    which no recovery restores. *)

From Stdlib Require Import ZArith Lia.
From stdpp Require Import base list numbers.
From S2P Require Import Prelude Types CondPred TageHist Tage TageInv TageBaseOk TageScl TageSclOk StatCorr.

Definition scIndexing (z : SclSize) (p : ScParams) : ScIndexing :=
  match z with KB64 => Sc64.indexing | KB8 => Sc8.indexing end.
Definition scVirtual (z : SclSize) (p : ScParams) : ScVirtual :=
  match z with KB64 => Sc64.Sc64_v p | KB8 => Sc8.Sc8_v p end.

(** ** Shape *)

(** The number of entries of a local history *)
Definition entries_cfg (n : Z) : Prop := isPowerOf2 n = true /\ 0 < n <= 2 ^ 32.

Record hist_cfg (z : SclSize) (p : ScParams) : Prop := {
  hc_imli : exists len, vat (g_lengths (iParams p)) 0 = Some len /\ 0 <= len <= 30;
  hc_first : entries_cfg (numEntriesFirstLocalHistories p);
  hc_size : match z with
    | KB8 => True
    | KB64 => entries_cfg (numEntriesSecondLocalHistories p) /\
        entries_cfg (numEntriesThirdLocalHistories p) /\ 0 <= g_log (tParams p) < 64
    end
}.

(** [1 << im[0]] *)
Definition imliSize (p : ScParams) : Z := 2 ^ default 0 (vat (g_lengths (iParams p)) 0).

Definition locals_ok (z : SclSize) (p : ScParams) (h : ScHist) : Prop :=
  match z with
  | KB8 => exists l1, localHistories h = [l1] /\ shifts h = [2] /\
      Z.of_nat (length l1) = numEntriesFirstLocalHistories p
  | KB64 => exists l1 l2 l3, localHistories h = [l1; l2; l3] /\ shifts h = [2; 5; g_log (tParams p)] /\
      Z.of_nat (length l1) = numEntriesFirstLocalHistories p /\
      Z.of_nat (length l2) = numEntriesSecondLocalHistories p /\
      Z.of_nat (length l3) = numEntriesThirdLocalHistories p /\
      Z.of_nat (length (imHist h)) = imliSize p
  end.

Record hist_ok (z : SclSize) (p : ScParams) (h : ScHist) : Prop := {
  ho_imli : 0 <= imliCount h < imliSize p;
  ho_locals : locals_ok z p h
}.

(** ** Same up to the path history *)

Definition same_hist (h g : ScHist) : Prop := g = h <| pHist := pHist g |>.

#[export] Instance same_hist_equiv : Equivalence same_hist.
Proof.
  split.
  - intros h. by destruct h.
  - intros h g. unfold same_hist. destruct h, g. cbv. intros [= -> -> -> -> -> ->]. done.
  - intros h g k. unfold same_hist. destruct h, g, k. cbv.
    intros [= -> -> -> -> -> ->] [= -> -> -> -> -> ->]. done.
Qed.

Lemma same_hist_set h x : same_hist h (h <| pHist := x |>).
Proof. by destruct h. Qed.

(** ** The update as a function *)

(** A branch as the histories see it *)
Record ScBranch := mkScBranch {
  sb_pc : Addr;
  sb_inst : StaticInst;
  sb_taken : bool;
  sb_target : Addr;
  sb_phist : Z
}.

Definition isCond (b : ScBranch) : bool := negb (isUncondCtrl (sb_inst b)).
Definition backward (b : ScBranch) : bool := sb_target b <? sb_pc b.

(** The new bit of a history word *)
Definition push (taken : bool) (x : Z) : Z := i64 (Z.shiftl x 1) + b2z taken.
Definition pushXor (taken : bool) (k : Z) (x : Z) : Z :=
  if negb (k =? 0) then i64 (Z.lxor (u64 (push taken x)) k) else push taken x.

Definition localEntry (p : ScParams) (n shift : Z) (pc : Addr) : Z :=
  let shifted_pc := Z.shiftr pc (sc_instShiftAmt p) in
  Z.land (Z.lxor shifted_pc (Z.shiftr shifted_pc shift)) (n - 1).
#[global] Arguments localEntry : simpl never.
Definition entry1 (p : ScParams) := localEntry p (numEntriesFirstLocalHistories p) 2.
Definition entry2 (p : ScParams) := localEntry p (numEntriesSecondLocalHistories p) 5.
Definition entry3 (p : ScParams) := localEntry p (numEntriesThirdLocalHistories p) (g_log (tParams p)).

Definition nextImli (p : ScParams) (b : ScBranch) (c : Z) : Z :=
  if backward b then
    if sb_taken b then (if c <? imliSize p - 1 then c + 1 else c) else 0
  else c.

(** Apply [f] to cell [e] of list [k]. *)
Definition touch (k : nat) (e : Z) (f : Z -> Z) (l : list (list Z)) : list (list Z) :=
  alter (alter f (Z.to_nat e)) k l.

Definition histStep (z : SclSize) (p : ScParams) (b : ScBranch) (h : ScHist) : ScHist :=
  let t := sb_taken b in
  if isCond b then
    let l := touch 0 (entry1 p (sb_pc b)) (push t) (localHistories h) in
    mkScHist (push (t && backward b) (bwHist h)) (nextImli p b (imliCount h)) (sb_phist b)
      (match z with
       | KB8 => l
       | KB64 => touch 2 (entry3 p (sb_pc b)) (push t)
                   (touch 1 (entry2 p (sb_pc b)) (pushXor t (Z.land (sb_pc b) 15)) l)
       end)
      (shifts h)
      (match z with KB8 => imHist h | KB64 => alter (push t) (Z.to_nat (imliCount h)) (imHist h) end)
      (match z with KB8 => push t (globalHist h) | KB64 => globalHist h end)
  else h <| pHist := sb_phist b |>.

(** The update does not depend on the path history. *)
#[export] Instance histStep_proper z p b : Proper (same_hist ==> eq) (histStep z p b).
Proof.
  intros h g. unfold same_hist, histStep. destruct h, g. unfold setf. cbn.
  intros [= -> -> -> -> -> ->]. by destruct (isCond b).
Qed.

(** ** Rules for the local histories *)

Lemma wp_shamt64 {S} k (s : S) Q : 0 <= k < 64 -> Q k s -> wp (ScHistory.shamt64 k) Q s.
Proof.
  intros Hk HQ. unfold ScHistory.shamt64. destruct (Z.leb_spec 0 k), (Z.ltb_spec k 64); try lia.
  by apply wp_ret.
Qed.

Section Rules.
Context (p : ScParams).
#[local] Abbreviation sh := (sc_instShiftAmt p).

Lemma localEntry_range n k pc : entries_cfg n -> 0 <= localEntry p n k pc < n.
Proof. intros [Hp Hn]. apply mask_index; [done|lia]. Qed.

Lemma wp_getEntry h pc idx l k (Q : Z -> ScHist -> Prop) :
  vat (localHistories h) idx = Some l -> vat (shifts h) idx = Some k -> 0 <= k < 64 ->
  entries_cfg (Z.of_nat (length l)) ->
  Q (localEntry p (Z.of_nat (length l)) k pc) h -> wp (ScHistory.getEntry sh pc idx) Q h.
Proof.
  intros Hl Hk Hr Hc HQ. unfold ScHistory.getEntry. wp_step. wp_step. wp_step.
  eapply wp_at_index; [exact Hk|]. wp_step. apply wp_shamt64; [done|]. wp_step.
  eapply wp_at_index; [exact Hl|]. wp_step. unfold localEntry in HQ.
  rewrite u32_small; [exact HQ|]. pose proof (localEntry_range _ k pc Hc).
  unfold localEntry in *. destruct Hc. lia.
Qed.

Lemma wp_ordinal h k l (Q : unit -> ScHist -> Prop) :
  vat (localHistories h) (k - 1) = Some l -> Q tt h -> wp (ScHistory.assertOrdinal k) Q h.
Proof.
  intros Hl HQ. unfold ScHistory.assertOrdinal. wp_step. wp_step. apply wp_massert; [|done].
  apply vat_some in Hl. unfold ScHistory.ordinal_ok.
  apply andb_true_iff. split; apply Z.leb_le; lia.
Qed.

Lemma wp_getLocal h o l k pc (Q : Z -> ScHist -> Prop) :
  vat (localHistories h) (o - 1) = Some l -> vat (shifts h) (o - 1) = Some k -> 0 <= k < 64 ->
  entries_cfg (Z.of_nat (length l)) ->
  (forall x, vat l (localEntry p (Z.of_nat (length l)) k pc) = Some x -> Q x h) ->
  wp (ScHistory.getLocalHistory sh o pc) Q h.
Proof.
  intros Hl Hk Hr Hc HQ. unfold ScHistory.getLocalHistory. wp_step.
  eapply wp_ordinal; [exact Hl|]. wp_step. eapply wp_getEntry; try eassumption.
  unfold ScHistory.localAt. wp_step. wp_step. wp_step. eapply wp_at_index; [exact Hl|].
  destruct (vat_lt l (localEntry p (Z.of_nat (length l)) k pc) (localEntry_range _ _ _ Hc)) as [x Hx].
  eapply wp_at_index; [exact Hx|]. by apply HQ.
Qed.

(** An assignment to a cell changes it to a function of its value. *)
Lemma setCell_touch h i e x l (f : Z -> Z) :
  vat (localHistories h) i = Some l -> vat l e = Some x ->
  h <| localHistories ::= alter (TB.setCell e (f x)) (Z.to_nat i) |> =
  h <| localHistories ::= touch (Z.to_nat i) e f |>.
Proof.
  intros Hl Hx. pose proof (vat_some _ _ _ Hl). pose proof (vat_some _ _ _ Hx).
  rewrite vat_nat in Hl by lia. rewrite vat_nat in Hx by lia. unfold setf. cbn. f_equal. unfold touch.
  apply list_alter_ext; [|done]. intros l' Hl'. rewrite Hl in Hl'. injection Hl' as <-.
  unfold TB.setCell. rewrite list_insert_alter. apply list_alter_ext; [|done].
  intros y Hy. congruence.
Qed.

Lemma wp_setLocalAt h idx e l x (f : Z -> Z) (Q : unit -> ScHist -> Prop) :
  vat (localHistories h) idx = Some l -> vat l e = Some x ->
  Q tt (h <| localHistories ::= touch (Z.to_nat idx) e f |>) ->
  wp (ScHistory.setLocalAt idx e (f x)) Q h.
Proof.
  intros Hl Hx HQ. unfold ScHistory.setLocalAt, ScHistory.localAt. wp_step. wp_step. wp_step. wp_step.
  eapply wp_at_index; [exact Hl|]. eapply wp_at_index; [exact Hx|]. wp_step.
  rewrite (setCell_touch h idx e x l f Hl Hx). exact HQ.
Qed.

Lemma wp_setLocal h o l k pc v (Q : unit -> ScHist -> Prop) :
  vat (localHistories h) (o - 1) = Some l -> vat (shifts h) (o - 1) = Some k -> 0 <= k < 64 ->
  entries_cfg (Z.of_nat (length l)) ->
  Q tt (h <| localHistories ::=
    touch (Z.to_nat (o - 1)) (localEntry p (Z.of_nat (length l)) k pc) (fun _ => v) |>) ->
  wp (ScHistory.setLocalHistory sh o pc v) Q h.
Proof.
  intros Hl Hk Hr Hc HQ. unfold ScHistory.setLocalHistory. wp_step.
  eapply wp_ordinal; [exact Hl|]. wp_step. eapply wp_getEntry; try eassumption.
  destruct (vat_lt l (localEntry p (Z.of_nat (length l)) k pc) (localEntry_range _ _ _ Hc)) as [x Hx].
  exact (wp_setLocalAt h _ _ l x (fun _ => v) Q Hl Hx HQ).
Qed.

Lemma wp_updateLocal h o l k pc taken ex (Q : unit -> ScHist -> Prop) :
  vat (localHistories h) (o - 1) = Some l -> vat (shifts h) (o - 1) = Some k -> 0 <= k < 64 ->
  entries_cfg (Z.of_nat (length l)) ->
  Q tt (h <| localHistories ::=
    touch (Z.to_nat (o - 1)) (localEntry p (Z.of_nat (length l)) k pc) (pushXor taken ex) |>) ->
  wp (ScHistory.updateLocalHistory sh o pc taken ex) Q h.
Proof.
  intros Hl Hk Hr Hc HQ. unfold ScHistory.updateLocalHistory. wp_step.
  eapply wp_ordinal; [exact Hl|]. wp_step. eapply wp_getEntry; try eassumption.
  destruct (vat_lt l (localEntry p (Z.of_nat (length l)) k pc) (localEntry_range _ _ _ Hc)) as [x Hx].
  unfold ScHistory.localAt. wp_step. wp_step. wp_step. wp_step. eapply wp_at_index; [exact Hl|].
  eapply wp_at_index; [exact Hx|].
  exact (wp_setLocalAt h _ _ l x (pushXor taken ex) Q Hl Hx HQ).
Qed.

(** ** The update of the base class *)

Definition baseStep (b : ScBranch) (h : ScHist) : ScHist :=
  if isCond b then
    h <| pHist := sb_phist b |> <| imliCount ::= nextImli p b |>
      <| bwHist ::= push (sb_taken b && backward b) |>
      <| localHistories ::= touch 0 (entry1 p (sb_pc b)) (push (sb_taken b)) |>
  else h <| pHist := sb_phist b |>.

(** The first local history of both sizes *)
Definition first_local (h : ScHist) : Prop :=
  exists l1, vat (localHistories h) 0 = Some l1 /\ vat (shifts h) 0 = Some 2 /\
    Z.of_nat (length l1) = numEntriesFirstLocalHistories p.

Lemma locals_first z h : locals_ok z p h -> first_local h.
Proof.
  destruct z; cbn.
  - intros (l1 & l2 & l3 & E & Es & H1 & _). exists l1. by rewrite E, Es.
  - intros (l1 & E & Es & H1). exists l1. by rewrite E, Es.
Qed.

Lemma brtype_cond inst :
  negb (Z.land ((if isDirectCtrl inst then 0 else 2) + (if isUncondCtrl inst then 0 else 1)) 1 =? 0) =
  negb (isUncondCtrl inst).
Proof. by destruct (isDirectCtrl inst), (isUncondCtrl inst). Qed.

Lemma wp_base_update z b h (Q : unit -> ScHist -> Prop) :
  hist_cfg z p -> first_local h -> Q tt (baseStep b h) ->
  wp (Sc.scHistoryUpdate p (sb_pc b) (sb_inst b) (sb_taken b) (sb_target b) (sb_phist b)) Q h.
Proof.
  intros Hcfg (l1 & Hl & Hs & Hn) HQ. destruct (hc_imli _ _ Hcfg) as (len & Elen & Hlen).
  unfold Sc.scHistoryUpdate. wp_step. wp_step. rewrite brtype_cond. unfold baseStep, isCond in HQ.
  destruct (negb (isUncondCtrl (sb_inst b))) eqn:Ec; cbn [when]; [|by wp_step].
  wp_step. eapply (wp_mono _ (fun _ h' => h' = h <| pHist := sb_phist b |> <| imliCount ::= nextImli p b |>)).
  - unfold nextImli, backward. destruct (sb_target b <? sb_pc b); cbn [when].
    + destruct (sb_taken b); cbn [negb]; [|by wp_step].
      wp_step. eapply wp_at_index; [exact Elen|]. wp_step. apply wp_lowMask; [done|].
      wp_step. wp_step. unfold imliSize. rewrite Elen. cbn [default].
      apply wp_when; intros Hm; [wp_step|]; destruct h; unfold setf; cbn in *; by rewrite Hm.
    + wp_step. by destruct h.
  - intros _ h' ->. wp_step. wp_step. eapply wp_updateLocal; [exact Hl|exact Hs|lia| |].
    + rewrite Hn. apply Hcfg.
    + rewrite Hn. exact HQ.
Qed.
End Rules.

(** ** The laws of the two sizes *)

Section Laws.
Context (z : SclSize) (p : ScParams) (Hcfg : hist_cfg z p).
#[local] Instance laws_V : ScVirtual := scVirtual z p.

Lemma imliSize_pos : 1 <= imliSize p.
Proof.
  unfold imliSize. destruct (hc_imli _ _ Hcfg) as (len & -> & Hlen). cbn.
  pose proof (Z.pow_pos_nonneg 2 len). lia.
Qed.

Lemma histStep_ok b h : hist_ok z p h -> hist_ok z p (histStep z p b h).
Proof.
  intros [Hi Hl]. unfold histStep. destruct (isCond b); [|by constructor].
  constructor; cbn.
  - pose proof imliSize_pos. unfold nextImli. destruct (backward b), (sb_taken b); try lia.
    destruct (Z.ltb_spec (imliCount h) (imliSize p - 1)); lia.
  - destruct z; cbn in *.
    + destruct Hl as (l1 & l2 & l3 & E & Es & H1 & H2 & H3 & H4). rewrite E. unfold touch. cbn.
      do 3 eexists. split; [reflexivity|]. split; [done|]. rewrite !length_alter. done.
    + destruct Hl as (l1 & E & Es & H1). rewrite E. unfold touch. cbn.
      eexists. split; [reflexivity|]. split; [done|]. by rewrite length_alter.
Qed.

(** [scHistoryUpdate] of either size *)
Lemma wp_hist_update b h (Q : unit -> ScHist -> Prop) :
  hist_ok z p h -> Q tt (histStep z p b h) ->
  wp (v_scHistoryUpdate (sb_pc b) (sb_inst b) (sb_taken b) (sb_target b) (sb_phist b)) Q h.
Proof.
  intros [Hi Hl] HQ. pose proof (hc_size _ _ Hcfg) as Hsz. unfold laws_V. destruct z; cbn in *.
  - unfold Sc64.scHistoryUpdate. destruct Hl as (l1 & l2 & l3 & E & Es & H1 & H2 & H3 & H4).
    destruct Hsz as (Hc2 & Hc3 & Hlog). rewrite brtype_cond. fold (isCond b).
    unfold histStep in HQ. wp_step. destruct (isCond b) eqn:Ec; cbn [when].
    + wp_step. wp_step. wp_step. destruct (vat_lt (imHist h) (imliCount h) ltac:(lia)) as [x Hx].
      eapply wp_at_index; [exact Hx|]. wp_step. wp_step. wp_step.
      eapply (wp_updateLocal p _ 2 l2 5); [cbn; by rewrite E|cbn; by rewrite Es|lia|by rewrite H2|].
      eapply (wp_updateLocal p _ 3 l3); [cbn; by rewrite E|cbn; by rewrite Es|done|by rewrite H3|].
      eapply wp_base_update; [done| |].
      { exists l1. cbn. rewrite E, Es. done. }
      unfold baseStep. rewrite Ec. rewrite H2, H3. fold (entry2 p (sb_pc b)) (entry3 p (sb_pc b)).
      assert (Eim : TB.setCell (imliCount h) (i64 (Z.shiftl x 1) + b2z (sb_taken b)) (imHist h) =
        alter (push (sb_taken b)) (Z.to_nat (imliCount h)) (imHist h)).
      { rewrite vat_nat in Hx by lia. unfold TB.setCell. rewrite list_insert_alter.
        apply list_alter_ext; [|done]. intros y Hy. rewrite Hx in Hy. by injection Hy as <-. }
      unfold setf. cbn in *. rewrite Eim. rewrite E in *. exact HQ.
    + wp_step. eapply wp_base_update; [done| |].
      { exists l1. rewrite E, Es. done. }
      unfold baseStep. by rewrite Ec.
  - unfold Sc8.scHistoryUpdate. rewrite brtype_cond. fold (isCond b). unfold histStep in HQ.
    wp_step. destruct (isCond b) eqn:Ec; cbn [when]; wp_step;
      (eapply wp_base_update; [done| |unfold baseStep; rewrite Ec; exact HQ]).
    + apply (locals_first p KB8). exact Hl.
    + apply (locals_first p KB8). exact Hl.
Qed.

(** ** Checkpoints *)

(** The value of a local history at [e] *)
Definition cellAt (k : nat) (e : Z) (h : ScHist) : option Z := l ← localHistories h !! k; vat l e.

(** [bi] holds the checkpoint of [h] for a branch at [pc]. *)
Record holds (pc : Addr) (h : ScHist) (bi : ScInfo) : Prop := {
  hd_pc : si_pc bi = pc;
  hd_bw : si_bwHist bi = bwHist h;
  hd_imli : si_imliCount bi = imliCount h;
  hd_local1 : cellAt 0 (entry1 p pc) h = Some (si_local1 bi);
  hd_size : match z with
    | KB8 => si_globalHist bi = globalHist h
    | KB64 => vat (imHist h) (imliCount h) = Some (si_imHist bi) /\
        cellAt 1 (entry2 p pc) h = Some (si_local2 bi) /\
        cellAt 2 (entry3 p pc) h = Some (si_local3 bi)
    end
}.

(** The members of a [BranchInfo] that no history operation changes *)
Definition same_info (bi bi' : ScInfo) : Prop :=
  si_lowConf bi' = si_lowConf bi /\ si_highConf bi' = si_highConf bi /\
  si_medConf bi' = si_medConf bi /\ si_predBeforeSC bi' = si_predBeforeSC bi /\
  si_modified bi' = si_modified bi.

Lemma same_cells pc h g bi : same_hist h g -> holds pc h bi -> holds pc g bi.
Proof. unfold same_hist. intros ->. intros [H1 H2 H3 H4 H5]. by constructor. Qed.

Lemma wp_scRecord pc bi h (Q : ScInfo -> ScHist -> Prop) :
  hist_ok z p h -> (forall bi', holds pc h bi' -> same_info bi bi' -> si_pHist bi' = pHist h -> Q bi' h) ->
  wp (v_scRecordHistState pc bi) Q h.
Proof.
  intros [Hi Hl] HQ. pose proof (hc_size _ _ Hcfg) as Hsz. pose proof (hc_first _ _ Hcfg) as Hc1.
  unfold laws_V. destruct z eqn:Ez; cbn in *.
  - unfold Sc64.scRecordHistState. destruct Hl as (l1 & l2 & l3 & E & Es & H1 & H2 & H3 & H4).
    destruct Hsz as (Hc2 & Hc3 & Hlog).
    unfold Sc.scRecordHistState. wp_step. wp_step. wp_step. wp_step.
    eapply (wp_getLocal p _ 1 l1 2); [by rewrite E|by rewrite Es|lia|by rewrite H1|].
    intros x1 Hx1. wp_step. wp_step. wp_step. wp_step.
    destruct (vat_lt (imHist h) (imliCount h) ltac:(lia)) as [x Hx].
    eapply wp_at_index; [exact Hx|]. wp_step.
    eapply (wp_getLocal p _ 2 l2 5); [by rewrite E|by rewrite Es|lia|by rewrite H2|].
    intros x2 Hx2. wp_step.
    eapply (wp_getLocal p _ 3 l3); [by rewrite E|by rewrite Es|done|by rewrite H3|].
    intros x3 Hx3. wp_step. rewrite H1 in Hx1. rewrite H2 in Hx2. rewrite H3 in Hx3.
    apply HQ; [|done|done]. constructor; cbn; unfold cellAt; rewrite ?E; rewrite ?Ez; done.
  - unfold Sc8.scRecordHistState. destruct Hl as (l1 & E & Es & H1).
    unfold Sc.scRecordHistState. wp_step. wp_step. wp_step. wp_step.
    eapply (wp_getLocal p _ 1 l1 2); [by rewrite E|by rewrite Es|lia|by rewrite H1|].
    intros x1 Hx1. wp_step. wp_step. wp_step. wp_step. rewrite H1 in Hx1.
    apply HQ; [|done|done]. constructor; cbn; unfold cellAt; rewrite ?E, ?Ez; done.
Qed.

(** Writing the checkpointed value over a changed cell *)
Lemma alter_undo (f : Z -> Z) e (v : Z) (l : list Z) : vat l e = Some v ->
  alter (fun _ => v) (Z.to_nat e) (alter f (Z.to_nat e) l) = l.
Proof.
  intros Hv. pose proof (vat_some _ _ _ Hv). rewrite vat_nat in Hv by lia.
  apply list_eq. intros j. destruct (decide (Z.to_nat e = j)) as [<-|Hn].
  - rewrite !list_lookup_alter_eq, Hv. done.
  - by rewrite !list_lookup_alter_ne.
Qed.

Lemma alter_ident i (l : list Z) : alter (fun x => x) i l = l.
Proof.
  apply list_eq. intros j. destruct (decide (i = j)) as [<-|Hn].
  - rewrite list_lookup_alter_eq. by destruct (l !! i).
  - by rewrite list_lookup_alter_ne.
Qed.

(** The first local history, written back *)
Lemma wp_base_restore h bi l1 (Q : bool -> ScHist -> Prop) :
  vat (localHistories h) 0 = Some l1 -> vat (shifts h) 0 = Some 2 ->
  Z.of_nat (length l1) = numEntriesFirstLocalHistories p -> si_modified bi = true ->
  Q true (h <| bwHist := si_bwHist bi |> <| imliCount := si_imliCount bi |>
            <| localHistories ::= touch 0 (entry1 p (si_pc bi)) (fun _ => si_local1 bi) |>) ->
  wp (Sc.scRestoreHistState p bi) Q h.
Proof.
  intros Hl Hs Hn Hm HQ. unfold Sc.scRestoreHistState. rewrite Hm. cbn [negb]. wp_step. wp_step. wp_step.
  eapply (wp_setLocal p _ 1 l1 2); [done|done|lia|rewrite Hn; apply Hcfg|]. rewrite Hn. wp_step. exact HQ.
Qed.
End Laws.

(** A history in which the checkpointed cells have been changed *)
Definition changed64 (p : ScParams) (h : ScHist) (pc : Addr) (f1 f2 f3 fi : Z -> Z) (bw im ph : Z) : ScHist :=
  mkScHist bw im ph
    (touch 2 (entry3 p pc) f3 (touch 1 (entry2 p pc) f2 (touch 0 (entry1 p pc) f1 (localHistories h))))
    (shifts h) (alter fi (Z.to_nat (imliCount h)) (imHist h)) (globalHist h).

Lemma wp_restore64 p h pc bi f1 f2 f3 fi bw im ph (Q : bool -> ScHist -> Prop) :
  hist_cfg KB64 p -> hist_ok KB64 p h -> holds KB64 p pc h bi -> si_modified bi = true ->
  Q true (h <| pHist := ph |>) ->
  wp (Sc64.scRestoreHistState p bi) Q (changed64 p h pc f1 f2 f3 fi bw im ph).
Proof.
  intros Hcfg [Hi Hl] [Epc Ebw Eim E1 (Ex & E2 & E3)] Hm HQ.
  destruct (hc_size _ _ Hcfg) as (Hc2 & Hc3 & Hlog).
  destruct Hl as (l1 & l2 & l3 & E & Es & H1 & H2 & H3 & H4).
  unfold cellAt in E1, E2, E3. rewrite E in E1, E2, E3. cbn in E1, E2, E3.
  unfold Sc64.scRestoreHistState, changed64. rewrite E. wp_step.
  eapply wp_base_restore; [done|reflexivity|cbn; by rewrite Es|by rewrite length_alter|done|].
  cbn [negb]. wp_step. wp_step. wp_step. cbn [imHist imliCount setf].
  destruct (vat_lt (alter fi (Z.to_nat (imliCount h)) (imHist h)) (imliCount h)) as [y Hy].
  { rewrite length_alter. lia. }
  unfold setf. cbn. rewrite Eim, Epc. eapply wp_at_index; [exact Hy|]. wp_step. wp_step. wp_step.
  eapply (wp_setLocal p _ 2 _ 5); [reflexivity|cbn; by rewrite Es|lia|by rewrite length_alter, H2|].
  rewrite length_alter, H2. wp_step.
  eapply (wp_setLocal p _ 3 _ (g_log (tParams p))); [reflexivity|cbn; by rewrite Es|done|by rewrite length_alter, H3|].
  rewrite length_alter, H3. wp_step.
  unfold setf. cbn. unfold touch. cbn.
  fold (entry2 p pc) (entry3 p pc).
  change (Z.to_nat (3 - 1)) with 2%nat. change (Z.to_nat (2 - 1)) with 1%nat. cbn [alter list_alter].
  rewrite (alter_undo f1 _ _ _ E1), (alter_undo f2 _ _ _ E2), (alter_undo f3 _ _ _ E3).
  assert (Ey : TB.setCell (imliCount h) (si_imHist bi) (alter fi (Z.to_nat (imliCount h)) (imHist h)) = imHist h).
  { unfold TB.setCell. rewrite list_insert_alter. by apply alter_undo. }
  rewrite Ey, <- E, Ebw. by destruct h.
Qed.

Definition changed8 (p : ScParams) (h : ScHist) (pc : Addr) (f1 : Z -> Z) (bw im ph gl : Z) : ScHist :=
  mkScHist bw im ph (touch 0 (entry1 p pc) f1 (localHistories h)) (shifts h) (imHist h) gl.

Lemma wp_restore8 p h pc bi f1 bw im ph gl (Q : bool -> ScHist -> Prop) :
  hist_cfg KB8 p -> hist_ok KB8 p h -> holds KB8 p pc h bi -> si_modified bi = true ->
  Q true (h <| pHist := ph |>) ->
  wp (Sc8.scRestoreHistState p bi) Q (changed8 p h pc f1 bw im ph gl).
Proof.
  intros Hcfg [Hi Hl] [Epc Ebw Eim E1 Eg] Hm HQ. destruct Hl as (l1 & E & Es & H1).
  unfold cellAt in E1. rewrite E in E1. cbn in E1.
  unfold Sc8.scRestoreHistState, changed8. rewrite E. wp_step.
  eapply wp_base_restore; [done|reflexivity|cbn; by rewrite Es|by rewrite length_alter|done|].
  cbn [negb]. wp_step. wp_step. wp_step. unfold setf. cbn. rewrite Epc.
  rewrite (alter_undo f1 _ _ _ E1), <- E, Ebw, Eim, Eg. by destruct h.
Qed.

(** [scRestoreHistState] takes the histories back to the checkpoint. *)
Lemma wp_scRestore z p b h g bi (Q : bool -> ScHist -> Prop) :
  hist_cfg z p -> hist_ok z p h -> holds z p (sb_pc b) h bi -> si_modified bi = true ->
  same_hist (histStep z p b h) g -> Q true (h <| pHist := pHist g |>) ->
  wp (@v_scRestoreHistState (scVirtual z p) bi) Q g.
Proof.
  intros Hcfg Hok Hh Hm Hg HQ. unfold same_hist in Hg. rewrite Hg. clear Hg.
  destruct z; cbn [scVirtual v_scRestoreHistState Sc64.Sc64_v Sc8.Sc8_v]; unfold histStep;
    destruct (isCond b).
  - eapply (wp_restore64 p h (sb_pc b) bi (push (sb_taken b)) _ (push (sb_taken b)) (push (sb_taken b)));
      done.
  - assert (E : h <| pHist := sb_phist b |> <| pHist := pHist g |> =
      changed64 p h (sb_pc b) (fun x => x) (fun x => x) (fun x => x) (fun x => x) (bwHist h)
        (imliCount h) (pHist g)).
    { destruct Hok as [_ (l1 & l2 & l3 & E & _)]. unfold changed64. rewrite E. unfold touch. cbn.
      rewrite !alter_ident, <- E. by destruct h. }
    rewrite E. by eapply wp_restore64.
  - eapply (wp_restore8 p h (sb_pc b) bi (push (sb_taken b))); done.
  - assert (E : h <| pHist := sb_phist b |> <| pHist := pHist g |> =
      changed8 p h (sb_pc b) (fun x => x) (bwHist h) (imliCount h) (pHist g) (globalHist h)).
    { destruct Hok as [_ (l1 & E & _)]. unfold changed8. rewrite E. unfold touch. cbn.
      rewrite !alter_ident, <- E. by destruct h. }
    rewrite E. by eapply wp_restore8.
Qed.
