(* ===== verification/StatCorrOk.v ===== *)
(** * The tables of the statistical corrector

    The invariant of the tables and counters, and what each operation does to
    them: indices stay inside the tables, counters keep their widths, and the
    sums that decide a prediction stay small. *)

From Stdlib Require Import ZArith Lia.
From stdpp Require Import base list numbers.
From S2P Require Import Prelude Types CondPred TageHist Tage TageInv TageBaseOk TageScl TageSclOk StatCorr StatCorrHist.

(** ** Configurations *)

Definition inCtr (w c : Z) : Prop := - 2 ^ (w - 1) <= c < 2 ^ (w - 1).

Record gehl_cfg (p : ScParams) (g : GehlParams) : Prop := {
  gc_nb : 1 <= g_nb g <= 9;
  gc_lengths : Z.of_nat (length (g_lengths g)) = g_nb g;
  gc_length : forall len, len ∈ g_lengths g -> 0 <= len <= 30;
  gc_log : 1 <= g_log g <= 30;
  gc_weight : inCtr (extraWeightsWidth p) (g_weight g)
}.

Record sc_cfg (z : SclSize) (p : ScParams) : Prop := {
  cc_bias : 2 <= logBias p <= 30;
  cc_sizeUp : 0 <= logSizeUp p <= 30;
  cc_chooser : 1 <= chooserConfWidth p <= 8;
  cc_threshold : 10 <= updateThresholdWidth p <= 31;
  cc_pthreshold : 1 <= pUpdateThresholdWidth p <= 31;
  cc_extra : 4 <= extraWeightsWidth p <= 8;
  cc_counters : 6 <= scCountersWidth p <= 8;
  cc_initial : inCtr (pUpdateThresholdWidth p) (initialUpdateThresholdValue p);
  cc_hist : hist_cfg z p;
  cc_bw : gehl_cfg p (bwParams p);
  cc_l : gehl_cfg p (lParams p);
  cc_i : gehl_cfg p (iParams p);
  cc_size : match z with
    | KB64 => gehl_cfg p (pParams p) /\ gehl_cfg p (sParams p) /\ gehl_cfg p (tParams p) /\
        gehl_cfg p (imParams p)
    | KB8 => gehl_cfg p (gParams p)
    end
}.

(** ** Counters *)

(** A vector of [2^k] counters of [w] bits *)
Definition counters (k w : Z) (l : list Z) : Prop :=
  Z.of_nat (length l) = 2 ^ k /\ forall c, c ∈ l -> inCtr w c.

Lemma counters_at k w l i : counters k w l -> 0 <= i < 2 ^ k -> exists c, vat l i = Some c /\ inCtr w c.
Proof.
  intros [Hl Hc] Hi. destruct (vat_lt l i) as [c Hv]; [lia|]. exists c. split; [done|].
  apply Hc. by eapply vat_elem.
Qed.

Lemma counters_set k w l i c : counters k w l -> inCtr w c -> counters k w (TB.setCell i c l).
Proof.
  intros [Hl Hc] Hw. split; [by rewrite length_setCell|]. intros x Hx. unfold TB.setCell in Hx.
  apply list_elem_of_lookup in Hx as [j Hj].
  destruct (decide (Z.to_nat i = j)) as [<-|Hn].
  - destruct (decide (Z.to_nat i < length l)%nat).
    + rewrite list_lookup_insert_eq in Hj by done. by injection Hj as <-.
    + rewrite list_insert_ge in Hj by lia. apply Hc. by eapply list_elem_of_lookup_2.
  - rewrite list_lookup_insert_ne in Hj by done. apply Hc. by eapply list_elem_of_lookup_2.
Qed.

Lemma counters_replicate k w c : 0 <= k -> inCtr w c -> counters k w (replicate (Z.to_nat (2 ^ k)) c).
Proof.
  intros Hk Hc. pose proof (Z.pow_pos_nonneg 2 k). split; [rewrite length_replicate; lia|].
  intros x Hx. apply elem_of_replicate in Hx as [-> _]. done.
Qed.

Lemma counters_map k w (f : Z -> Z) :
  0 <= k -> (forall j, inCtr w (f j)) -> counters k w (map f (seqZ 0 (2 ^ k))).
Proof.
  intros Hk Hf. pose proof (Z.pow_pos_nonneg 2 k). split.
  - rewrite length_map, length_seqZ. lia.
  - intros x Hx. apply list_elem_of_fmap in Hx as (j & -> & _). apply Hf.
Qed.

Lemma wp_scCtrUpdate {S} width c taken nbits (s : S) (Q : Z -> S -> Prop) :
  1 <= nbits <= width -> nbits <= 31 -> inCtr nbits c ->
  (forall c', inCtr nbits c' -> Q c' s) -> wp (Sc.ctrUpdate width c taken nbits) Q s.
Proof.
  intros Hn Hm Hc HQ. unfold Sc.ctrUpdate. wp_step. apply wp_massert; [apply Z.leb_le; lia|].
  destruct (Z.ltb_spec 0 nbits); [|lia]. wp_step. apply wp_lowMask; [lia|]. apply wp_ret. apply HQ.
  unfold inCtr in *. destruct taken.
  - destruct (Z.ltb_spec c (2 ^ (nbits - 1) - 1)); lia.
  - destruct (Z.ltb_spec (- (2 ^ (nbits - 1) - 1 + 1)) c); lia.
Qed.

(** The width and the range of a cell of a vector *)
Lemma wp_ctrUpdateAt {S} width (v : S -> list Z) `{!Setter v} k i taken nbits (s : S)
    (Q : unit -> S -> Prop) :
  1 <= nbits <= width -> nbits <= 31 -> counters k nbits (v s) -> 0 <= i < 2 ^ k ->
  (forall l, counters k nbits l -> Q tt (setf v (fun _ => l) s)) ->
  (forall f, setf v f s = setf v (fun _ => f (v s)) s) ->
  wp (Sc.ctrUpdateAt width v i taken nbits) Q s.
Proof.
  intros Hn Hm Hc Hi HQ Hset. unfold Sc.ctrUpdateAt. wp_step. wp_step.
  destruct (counters_at _ _ _ _ Hc Hi) as (c & Hv & Hr). wp_step. eapply wp_at_index; [exact Hv|].
  wp_step. apply wp_scCtrUpdate; [done|done|done|]. intros c' Hc'. wp_step. rewrite Hset.
  apply HQ. by apply counters_set.
Qed.

Section Tables.
Context (z : SclSize) (p : ScParams) (Hcfg : sc_cfg z p).
#[local] Instance tables_I : ScIndexing := scIndexing z p.

Lemma sizeUps_range : 0 <= Sc.logSizeUps p <= 15.
Proof.
  pose proof (cc_sizeUp _ _ Hcfg). unfold Sc.logSizeUps.
  split; [apply Z.div_pos; lia|]. apply Z.lt_succ_r, Z.div_lt_upper_bound; lia.
Qed.

Lemma indUpds_range pc : 0 <= Sc.getIndUpds p pc < 2 ^ Sc.logSizeUps p.
Proof. apply masked_below. apply sizeUps_range. Qed.

Lemma indUpd_range pc : 0 <= Sc.getIndUpd p pc < 2 ^ logSizeUp p.
Proof. apply masked_below. apply Hcfg. Qed.

Lemma biasMask_range x : 0 <= Z.land x (Sc.biasMask p) < 2 ^ logBias p.
Proof. apply masked_below. pose proof (cc_bias _ _ Hcfg). lia. Qed.

(** ** A GEHL *)

Record gehl_ok (g : GehlParams) (t : Gehl) : Prop := {
  gk_length : Z.of_nat (length (gehl t)) = g_nb g;
  gk_tables : forall l, l ∈ gehl t -> counters (g_log g) (scCountersWidth p) l;
  gk_weights : counters (Sc.logSizeUps p) (extraWeightsWidth p) (gw t)
}.

Lemma substr_range nbr i : 0 <= v_gIndexLogsSubstr nbr i <= 1.
Proof.
  unfold tables_I, scIndexing. destruct z; cbn; unfold Sc64.gIndexLogsSubstr, Sc8.gIndexLogsSubstr; [|lia].
  destruct (nbr - 2 <=? i); lia.
Qed.

Lemma wp_tableIndex {S} g pc hist i (s : S) (Q : Z -> S -> Prop) :
  gehl_cfg p g -> 0 <= i < g_nb g -> (forall x, 0 <= x < 2 ^ g_log g -> Q x s) ->
  wp (Sc.tableIndex p g pc hist i) Q s.
Proof.
  intros [Hnb Hll Hlen Hlog _] Hi HQ. unfold Sc.tableIndex. wp_step.
  destruct (vat_lt (g_lengths g) i) as [len El]; [lia|]. eapply wp_at_index; [exact El|].
  wp_step. apply wp_lowMask; [apply Hlen; by eapply vat_elem|]. unfold Sc.gIndex.
  do 5 (wp_step; apply wp_shamt64; [lia|]). pose proof (substr_range (g_nb g) i).
  wp_step. apply wp_lowMask; [lia|]. wp_step. apply HQ.
  set (d := g_log g - v_gIndexLogsSubstr (g_nb g) i).
  match goal with |- 0 <= Z.land ?x _ < _ => pose proof (land_mask_bound x d ltac:(unfold d; lia)) end.
  assert (2 ^ d <= 2 ^ g_log g) by (apply Z.pow_le_mono_r; unfold d; lia). lia.
Qed.

Lemma gehl_table g t i : gehl_ok g t -> 0 <= i < g_nb g ->
  exists l, vat (gehl t) i = Some l /\ counters (g_log g) (scCountersWidth p) l.
Proof.
  intros [Hl Ht _] Hi. destruct (vat_lt (gehl t) i) as [l E]; [lia|]. exists l. split; [done|].
  apply Ht. by eapply vat_elem.
Qed.

Lemma wp_weightAt g t pc (Q : Z -> Gehl -> Prop) :
  gehl_ok g t -> (forall w, Q w t) -> wp (Sc.weightAt p pc) Q t.
Proof.
  intros Hok HQ. unfold Sc.weightAt. wp_step. wp_step.
  destruct (counters_at _ _ _ _ (gk_weights _ _ Hok) (indUpds_range pc)) as (w & E & _).
  eapply wp_at_index; [exact E|]. apply HQ.
Qed.

(** [|2 * ctr + 1|] of a counter is below 256. *)
Lemma ctr_small c : inCtr (scCountersWidth p) c -> Z.abs (2 * c + 1) <= 255.
Proof.
  unfold inCtr. pose proof (cc_counters _ _ Hcfg). intros H1.
  assert (2 ^ (scCountersWidth p - 1) <= 2 ^ 7) by (apply Z.pow_le_mono_r; lia). lia.
Qed.

Lemma weight_range w x b : Z.abs x <= b -> Z.abs (Sc.weight w * x) <= 2 * b.
Proof. unfold Sc.weight. destruct (0 <=? w); cbn [b2z]; lia. Qed.

Lemma wp_gPredict g t pc hist (Q : Z -> Gehl -> Prop) :
  gehl_cfg p g -> gehl_ok g t -> (forall x, Z.abs x <= 4590 -> Q x t) ->
  wp (Sc.gPredict p g pc hist) Q t.
Proof.
  intros Hg Hok HQ. unfold Sc.gPredict. wp_step. eapply wp_mono.
  - apply (wp_mfold (fun k sum t' => t' = t /\ Z.abs sum <= 255 * Z.of_nat k)); [done|].
    intros k i sum s Hk [-> Hs]. apply lookup_seqZ in Hk as [-> Hk]. wp_step.
    apply wp_tableIndex; [done|lia|]. intros x Hx. wp_step.
    destruct (gehl_table g t (0 + Z.of_nat k) Hok ltac:(lia)) as (l & El & Hl).
    destruct (counters_at _ _ _ _ Hl Hx) as (c & Ec & Hc). unfold Sc.ctrAt. wp_step. wp_step.
    wp_step. eapply wp_at_index; [exact El|]. eapply wp_at_index; [exact Ec|]. wp_step.
    split; [done|]. pose proof (ctr_small c Hc). lia.
  - cbn beta. intros sum t' [-> Hs]. wp_step. eapply wp_weightAt; [done|]. intros w. wp_step.
    apply HQ. rewrite length_seqZ in Hs. pose proof (gc_nb _ _ Hg).
    pose proof (weight_range w sum (255 * 9) ltac:(lia)). lia.
Qed.

Lemma gehl_set g t i e c :
  gehl_ok g t -> 0 <= i -> inCtr (scCountersWidth p) c ->
  gehl_ok g (t <| gehl ::= alter (TB.setCell e c) (Z.to_nat i) |>).
Proof.
  intros [H1 H2 H3] Hi Hc. constructor; cbn; [by rewrite length_alter| |done].
  intros l Hl. apply list_elem_of_lookup in Hl as [j Hj].
  destruct (decide (Z.to_nat i = j)) as [<-|Hn].
  - rewrite list_lookup_alter_eq in Hj. destruct (gehl t !! Z.to_nat i) as [l0|] eqn:E; [|done].
    injection Hj as <-. apply counters_set; [|done]. apply H2. by eapply list_elem_of_lookup_2.
  - rewrite list_lookup_alter_ne in Hj by done. apply H2. by eapply list_elem_of_lookup_2.
Qed.

Lemma wp_gUpdate g t pc taken hist bi (Q : unit -> Gehl -> Prop) :
  gehl_cfg p g -> gehl_ok g t -> (forall t', gehl_ok g t' -> Q tt t') ->
  wp (Sc.gUpdate p g pc taken hist bi) Q t.
Proof.
  intros Hg Hok HQ. pose proof (cc_counters _ _ Hcfg). pose proof (cc_extra _ _ Hcfg).
  unfold Sc.gUpdate. wp_step. eapply wp_mono.
  - apply (wp_mfold (fun _ _ t' => gehl_ok g t')); [done|].
    intros k i sum s Hk Hs. apply lookup_seqZ in Hk as [-> Hk]. wp_step.
    apply wp_tableIndex; [done|lia|]. intros x Hx. wp_step.
    destruct (gehl_table g s (0 + Z.of_nat k) Hs ltac:(lia)) as (l & El & Hl).
    destruct (counters_at _ _ _ _ Hl Hx) as (c & Ec & Hc). unfold Sc.ctrAt. wp_step. wp_step.
    wp_step. eapply wp_at_index; [exact El|]. eapply wp_at_index; [exact Ec|]. wp_step.
    apply wp_scCtrUpdate; [lia|lia|done|]. intros c' Hc'. wp_step. wp_step. wp_step.
    apply gehl_set; [done|lia|done].
  - cbn beta. intros sum t' Hs. wp_step. eapply wp_weightAt; [done|]. intros w.
    apply wp_when; intros _; [|by apply HQ].
    apply (wp_ctrUpdateAt _ _ (Sc.logSizeUps p)); [lia|lia|apply Hs|apply indUpds_range| |].
    + intros l Hl. apply HQ. destruct Hs. by constructor.
    + by intros f.
Qed.

(** ** The corrector *)

Record tables_ok (s : StatCorr) : Prop := {
  tk_bias : counters (logBias p) (scCountersWidth p) (bias s);
  tk_biasSK : counters (logBias p) (scCountersWidth p) (biasSK s);
  tk_biasBank : counters (logBias p) (scCountersWidth p) (biasBank s);
  tk_wb : counters (Sc.logSizeUps p) (extraWeightsWidth p) (wb s);
  tk_threshold : inCtr (updateThresholdWidth p) (updateThreshold s);
  tk_pthreshold : counters (logSizeUp p) (pUpdateThresholdWidth p) (pUpdateThreshold s);
  tk_first : inCtr (chooserConfWidth p) (firstH s);
  tk_second : inCtr (chooserConfWidth p) (secondH s);
  tk_bw : gehl_ok (bwParams p) (bwGehl s);
  tk_l : gehl_ok (lParams p) (lGehl s);
  tk_i : gehl_ok (iParams p) (iGehl s);
  tk_size : match z with
    | KB64 => gehl_ok (pParams p) (pGehl s) /\ gehl_ok (sParams p) (sGehl s) /\
        gehl_ok (tParams p) (tGehl s) /\ gehl_ok (imParams p) (imGehl s)
    | KB8 => gehl_ok (gParams p) (gGehl s)
    end
}.

Lemma tables_hist s h : tables_ok s -> tables_ok (s <| scHistory := h |>).
Proof. intros []. by constructor. Qed.

Lemma wp_addPredict t `{!Setter t} g pc hist lsum s (Q : Z -> StatCorr -> Prop) :
  gehl_cfg p g -> gehl_ok g (t s) -> setf t (fun _ => t s) s = s ->
  (forall x, Z.abs (x - lsum) <= 4590 -> Q x s) -> wp (Sc.addPredict p t g pc hist lsum) Q s.
Proof.
  intros Hg Hok Hs HQ. unfold Sc.addPredict. wp_step. wp_step. eapply wp_gPredict; [done|done|].
  intros x Hx. rewrite Hs. wp_step. apply HQ. lia.
Qed.

Lemma wp_cellOf v k w i s (Q : Z -> StatCorr -> Prop) :
  counters k w (v s) -> 0 <= i < 2 ^ k -> (forall c, inCtr w c -> Q c s) -> wp (Sc.cellOf v i) Q s.
Proof.
  intros Hc Hi HQ. unfold Sc.cellOf. wp_step. wp_step.
  destruct (counters_at _ _ _ _ Hc Hi) as (c & E & Hr). eapply wp_at_index; [exact E|]. by apply HQ.
Qed.

Lemma wp_trusted v s pc (Q : Z -> StatCorr -> Prop) :
  counters (Sc.logSizeUps p) (extraWeightsWidth p) (v s) -> (forall x, 0 <= x <= 1 -> Q x s) ->
  wp (Sc64.trusted p v pc) Q s.
Proof.
  intros Hv HQ. unfold Sc64.trusted. wp_step. eapply wp_cellOf; [exact Hv|apply indUpds_range|].
  intros c _. wp_step. apply HQ. destruct (0 <=? c); cbn; lia.
Qed.

Lemma thres_parts u pu :
  inCtr (updateThresholdWidth p) u -> inCtr (pUpdateThresholdWidth p) pu ->
  Z.abs (Z.shiftr u 3) <= 2 ^ 27 /\ Z.abs pu <= 2 ^ 30.
Proof.
  unfold inCtr. intros Hu Hp. pose proof (cc_threshold _ _ Hcfg). pose proof (cc_pthreshold _ _ Hcfg).
  assert (2 ^ (updateThresholdWidth p - 1) <= 2 ^ 30) by (apply Z.pow_le_mono_r; lia).
  assert (2 ^ (pUpdateThresholdWidth p - 1) <= 2 ^ 30) by (apply Z.pow_le_mono_r; lia).
  split; [|lia]. rewrite Z.shiftr_div_pow2 by lia. change (2 ^ 3) with 8.
  pose proof (Z.div_mod u 8). pose proof (Z.mod_pos_bound u 8). lia.
Qed.

End Tables.

(** [gPredictions] changes nothing; the sum and the threshold stay small. *)
Lemma wp_predictions z p tid pc bi lsum s (Q : Z * Z -> StatCorr -> Prop) :
  sc_cfg z p -> tables_ok z p s ->
  (forall r, Z.abs (snd r - lsum) <= 32130 -> Z.abs (fst r) < 2 ^ 31 -> Q r s) ->
  wp (@v_gPredictions (scVirtual z p) tid pc bi lsum) Q s.
Proof.
  intros Hcfg [? ? ? Hwb Hu Hpu _ _ Hbw Hl Hi Hz] HQ. pose proof (cc_size _ _ Hcfg) as Hcz.
  pose proof (cc_bw _ _ Hcfg). pose proof (cc_l _ _ Hcfg). pose proof (cc_i _ _ Hcfg).
  destruct z; cbn [scVirtual v_gPredictions Sc64.Sc64_v Sc8.Sc8_v].
  - destruct Hz as (Hp & Hs & Ht & Him), Hcz as (Cp & Cs & Ct & Cim). unfold Sc64.gPredictions.
    do 7 (wp_step; eapply (wp_addPredict KB64 p Hcfg); [done|done|by destruct s|intros ? ?]).
    wp_step. wp_step. wp_step. eapply wp_cellOf; [exact Hpu|by eapply indUpd_range|]. intros pu Hpu'.
    destruct (thres_parts _ _ Hcfg _ _ Hu Hpu').
    wp_step. eapply wp_trusted; [done|done|intros ? ?].
    do 6 (wp_step; eapply wp_trusted; [done|eapply gk_weights; eassumption|intros ? ?]).
    wp_step. apply HQ; cbn [fst snd]; lia.
  - unfold Sc8.gPredictions.
    do 4 (wp_step; eapply (wp_addPredict KB8 p Hcfg); [done|done|by destruct s|intros ? ?]).
    wp_step. wp_step. wp_step. eapply wp_cellOf; [exact Hpu|by eapply indUpd_range|]. intros pu Hpu'.
    destruct (thres_parts _ _ Hcfg _ _ Hu Hpu'). wp_step. apply HQ; cbn [fst snd]; lia.
Qed.

Lemma wp_updateTables z p t `{!Setter t} g pc taken hist bi s (Q : unit -> StatCorr -> Prop) :
  sc_cfg z p -> gehl_cfg p g -> gehl_ok p g (t s) ->
  (forall t', gehl_ok p g t' -> Q tt (setf t (fun _ => t') s)) ->
  wp (@Sc.updateTables p (scIndexing z p) t _ g pc taken hist bi) Q s.
Proof.
  intros Hcfg Hg Hok HQ. unfold Sc.updateTables. wp_step. eapply (wp_gUpdate z p Hcfg); done.
Qed.

(** [gUpdates] keeps the widths and the histories. *)
Lemma wp_updates z p tid pc taken bi s :
  sc_cfg z p -> tables_ok z p s ->
  wp (@v_gUpdates (scVirtual z p) tid pc taken bi) (fun _ s' =>
    tables_ok z p s' /\ scHistory s' = scHistory s) s.
Proof.
  intros Hcfg [H1 H2 H3 Hwb Hu Hpu Hf Hs Hbw Hl Hi Hz]. pose proof (cc_size _ _ Hcfg) as Hcz.
  pose proof (cc_bw _ _ Hcfg). pose proof (cc_l _ _ Hcfg). pose proof (cc_i _ _ Hcfg).
  destruct z; cbn [scVirtual v_gUpdates Sc64.Sc64_v Sc8.Sc8_v].
  - destruct Hz as (Hp & Hs' & Ht & Him), Hcz as (Cp & Cs & Ct & Cim). unfold Sc64.gUpdates.
    do 6 (wp_step; eapply (wp_updateTables KB64 p); [done|done|done|intros ? ?]).
    eapply (wp_updateTables KB64 p); [done|done|done|intros ? ?]. split; [|done]. by constructor.
  - unfold Sc8.gUpdates.
    do 3 (wp_step; eapply (wp_updateTables KB8 p); [done|done|done|intros ? ?]).
    eapply (wp_updateTables KB8 p); [done|done|done|intros ? ?]. split; [|done]. by constructor.
Qed.

(** ** Prediction and training *)

Section Corrector.
Context (z : SclSize) (p : ScParams) (Hcfg : sc_cfg z p).
#[local] Instance corr_I : ScIndexing := scIndexing z p.
#[local] Instance corr_V : ScVirtual := scVirtual z p.

Lemma biasBank_range pc bi hb ab : 0 <= v_getIndBiasBank pc bi hb ab < 2 ^ logBias p.
Proof. unfold corr_V, scVirtual. destruct z; cbn; by eapply biasMask_range. Qed.

Lemma wp_indBiasSK {S} pc bi (s : S) (Q : Z -> S -> Prop) :
  (forall x, 0 <= x < 2 ^ logBias p -> Q x s) -> wp (Sc.getIndBiasSK p pc bi) Q s.
Proof.
  intros HQ. pose proof (cc_bias _ _ Hcfg). unfold Sc.getIndBiasSK. wp_step. apply wp_shamt64; [lia|].
  wp_step. apply HQ. by eapply biasMask_range.
Qed.

Lemma wp_calcBias pc bi b use cc cb hb ab s (Q : Z * ScInfo -> StatCorr -> Prop) :
  tables_ok z p s -> 0 <= cb <= 30 ->
  (forall x bi', Z.abs x <= 1530 -> si_modified bi' = si_modified bi -> Q (x, bi') s) ->
  wp (Sc.calcBias p pc bi b use cc cb hb ab) Q s.
Proof.
  intros Hok Hcb HQ. unfold Sc.calcBias. wp_step.
  eapply (wp_mono _ (fun bi' s' => s' = s /\ si_modified bi' = si_modified bi)).
  - destruct use; [|by wp_step]. wp_step. apply wp_lowMask; [done|]. by wp_step.
  - intros bi' s' [-> Hm]. wp_step. eapply wp_cellOf; [apply Hok|by eapply biasMask_range|]. intros c1 H1.
    wp_step. apply wp_indBiasSK. intros k Hk. wp_step. eapply wp_cellOf; [apply Hok|done|]. intros c2 H2.
    wp_step. eapply wp_cellOf; [apply Hok|by apply biasBank_range|]. intros c3 H3.
    wp_step. eapply wp_cellOf; [apply Hok|by eapply indUpds_range|]. intros w _. wp_step.
    apply HQ; [|done]. apply (ctr_small z p Hcfg) in H1, H2, H3.
    pose proof (weight_range w (2 * c1 + 1 + (2 * c2 + 1) + (2 * c3 + 1)) 765). lia.
Qed.

(** The decision of [scPredict]: the sum decides against TAGE only when the
    chooser lets it. *)
Definition decided (prev : bool) (s : StatCorr) (pred : bool) (bi : ScInfo) : Prop :=
  let scPred := 0 <=? si_lsum bi in
  pred = (if eqb prev scPred then prev
          else if Sc.useScPred bi (firstH s) (secondH s) then scPred else prev).

Lemma wp_scPredict tid pc bi prev b use cc cb hb ab s (Q : bool * ScInfo -> StatCorr -> Prop) :
  tables_ok z p s -> hist_ok z p (scHistory s) -> 0 <= cb <= 30 ->
  (forall pred bi', si_modified bi' = si_modified bi -> Z.abs (si_lsum bi') <= 33660 ->
     Z.abs (si_thres bi') < 2 ^ 31 -> decided prev s pred bi' -> Q (pred, bi') s) ->
  wp (Sc.scPredict p tid pc true bi prev b use cc cb hb ab 0) Q s.
Proof.
  intros Hok Hh Hcb HQ. unfold Sc.scPredict. cbn [negb]. wp_step.
  eapply wp_calcBias; [done|done|]. intros x bi1 Hx Hm1. wp_step. wp_step.
  eapply (wp_scRecord z p (cc_hist _ _ Hcfg)); [done|]. intros bi2 _ (_ & _ & _ & _ & Hm2) _.
  assert (Es : s <| scHistory := scHistory s |> = s) by (by destruct s). rewrite Es. clear Es.
  wp_step. apply wp_predictions; [done|done|]. intros [th ls] Hls Hth. cbn [fst snd] in *.
  set (bi3 := bi2 <| si_lsum := ls |> <| si_thres := th |>).
  assert (HQ' : forall pred u sp, decided prev s pred bi3 ->
    Q (pred, bi3 <| si_usedScPred := u |> <| si_scPred := sp |>) s).
  { intros pred u sp Hd. apply HQ; cbn; [cbn in Hm1; congruence|lia|done|]. done. }
  specialize (HQ' prev) as Hprev. unfold decided in Hprev, HQ'.
  change (si_lsum bi3) with ls in *. destruct (eqb prev (0 <=? ls)) eqn:Ed; cbn [negb].
  - wp_step. apply (Hprev (si_usedScPred bi3) (si_scPred bi3) eq_refl).
  - wp_step. wp_step. wp_step. cbn beta.
    change (Sc.useScPred (bi2 <| si_lsum := ls |> <| si_thres := th |>)) with (Sc.useScPred bi3).
    destruct (Sc.useScPred bi3 (firstH s) (secondH s)) eqn:Eu.
    + apply (HQ' (0 <=? ls) true (0 <=? ls) eq_refl).
    + apply (Hprev false (si_scPred bi3) eq_refl).
Qed.

(** Counters of the chooser *)
Lemma wp_updateChooser taken bi s :
  tables_ok z p s ->
  wp (Sc.updateChooser p taken bi) (fun _ s' => tables_ok z p s' /\ scHistory s' = scHistory s) s.
Proof.
  intros Hok. pose proof (cc_chooser _ _ Hcfg). unfold Sc.updateChooser.
  apply wp_when; intros _; [|done]. wp_step.
  eapply (wp_mono _ (fun _ s' => tables_ok z p s' /\ scHistory s' = scHistory s)).
  - apply wp_when; intros _; [|done]. wp_step. wp_step. wp_step.
    apply wp_scCtrUpdate; [lia|lia|apply Hok|]. intros c' Hc. wp_step. split; [|done].
    destruct Hok. by constructor.
  - intros _ s' [Hok' Eh]. apply wp_when; intros _; [|done]. wp_step. wp_step. wp_step.
    apply wp_scCtrUpdate; [lia|lia|apply Hok'|]. intros c' Hc. wp_step. split; [|done].
    destruct Hok'. by constructor.
Qed.

Lemma wp_scCondBranchUpdate tid pc taken bi tgt b hb ab s (Q : ScInfo -> StatCorr -> Prop) :
  tables_ok z p s ->
  (forall bi' s', tables_ok z p s' -> scHistory s' = scHistory s ->
     si_modified bi' = si_modified bi -> Q bi' s') ->
  wp (Sc.condBranchUpdate p tid pc taken bi tgt b hb ab) Q s.
Proof.
  intros Hok HQ. pose proof (cc_threshold _ _ Hcfg). pose proof (cc_pthreshold _ _ Hcfg).
  pose proof (cc_counters _ _ Hcfg). pose proof (cc_extra _ _ Hcfg).
  unfold Sc.condBranchUpdate. wp_step.
  eapply (wp_mono _ (fun bi' s' => s' = s /\ si_modified bi' = si_modified bi)).
  { destruct (sc_speculative p); [|by wp_step]. wp_step. apply wp_calcBias; [done|lia|].
    intros x bi' _ Hm. wp_step. apply wp_predictions; [done|done|]. intros r _ _. by wp_step. }
  intros bi' s' [-> Hm]. wp_step. eapply wp_mono; [by apply wp_updateChooser|].
  intros _ s1 [Hok1 Eh1]. wp_step.
  eapply (wp_mono _ (fun _ s' => tables_ok z p s' /\ scHistory s' = scHistory s)).
  2: { intros _ s' [Hok' Eh]. wp_step. by apply HQ. }
  apply wp_when; intros _; [|done]. wp_step. wp_step. wp_step.
  apply wp_scCtrUpdate; [lia|lia|apply Hok1|]. intros c Hc. wp_step. wp_step.
  assert (Hok2 : tables_ok z p (s1 <| updateThreshold := c |>)) by (destruct Hok1; by constructor).
  set (s2 := s1 <| updateThreshold := c |>) in *. wp_step.
  eapply wp_ctrUpdateAt; [lia|lia|apply Hok2|by eapply indUpd_range| |done]. intros l Hl.
  assert (Hok3 : tables_ok z p (setf pUpdateThreshold (fun _ => l) s2)) by (destruct Hok2; by constructor).
  set (s3 := setf pUpdateThreshold (fun _ => l) s2) in *. wp_step.
  apply wp_indBiasSK. intros k Hk. wp_step. eapply wp_cellOf; [apply Hok3|by eapply indUpds_range|].
  intros w _. wp_step. eapply wp_cellOf; [apply Hok3|by eapply biasMask_range|]. intros c1 _.
  wp_step. eapply wp_cellOf; [apply Hok3|done|]. intros c2 _.
  wp_step. eapply wp_cellOf; [apply Hok3|by apply biasBank_range|]. intros c3 _. wp_step.
  eapply (wp_mono _ (fun _ s' => tables_ok z p s' /\ scHistory s' = scHistory s)).
  { apply wp_when; intros _; [|done].
    eapply wp_ctrUpdateAt; [lia|lia|apply Hok3|by eapply indUpds_range| |done]. intros l' Hl'.
    split; [|done]. destruct Hok3. by constructor. }
  intros _ s4 [Hok4 Eh4]. wp_step.
  eapply wp_ctrUpdateAt; [lia|lia|apply Hok4|by eapply biasMask_range| |done]. intros l1 Hl1. wp_step.
  eapply wp_ctrUpdateAt; [lia|lia|apply Hok4|done| |done]. intros l2 Hl2. wp_step.
  eapply wp_ctrUpdateAt; [lia|lia|apply Hok4|by apply biasBank_range| |done]. intros l3 Hl3.
  eapply wp_mono; [apply wp_updates; [done|]|].
  - destruct Hok4. by constructor.
  - intros _ s5 [Hok5 Eh5]. split; [done|]. by rewrite Eh5.
Qed.
End Corrector.

(** ** Construction *)

Definition scMake (z : SclSize) (p : ScParams) : Res StatCorr :=
  match z with KB64 => Sc64.make p | KB8 => Sc8.make p end.

Definition noHist (n : Z) : list Z := replicate (Z.to_nat n) 0.

(** The histories after construction *)
Definition histInit (z : SclSize) (p : ScParams) : ScHist :=
  match z with
  | KB64 => mkScHist 0 0 0 [noHist (numEntriesFirstLocalHistories p);
        noHist (numEntriesSecondLocalHistories p); noHist (numEntriesThirdLocalHistories p)]
      [2; 5; g_log (tParams p)] (noHist (imliSize p)) 0
  | KB8 => mkScHist 0 0 0 [noHist (numEntriesFirstLocalHistories p)] [2] [] 0
  end.

Lemma entries_length n : entries_cfg n -> Z.of_nat (length (noHist n)) = n.
Proof. intros [_ Hn]. unfold noHist. rewrite length_replicate. lia. Qed.

Lemma histInit_ok z p : hist_cfg z p -> hist_ok z p (histInit z p).
Proof.
  intros Hcfg. pose proof (imliSize_pos z p Hcfg). pose proof (hc_first _ _ Hcfg).
  pose proof (hc_size _ _ Hcfg) as Hs. destruct z; constructor; cbn; try lia.
  - destruct Hs as (? & ? & ?). do 3 eexists. split; [reflexivity|]. rewrite !entries_length by done.
    split_and!; try done. unfold noHist. rewrite length_replicate. lia.
  - eexists. split; [reflexivity|]. by rewrite entries_length.
Qed.

Lemma makeHist_eq z p : hist_cfg z p ->
  match z with KB64 => Sc64.makeThreadHistory p | KB8 => Sc8.makeThreadHistory p end = Ok (histInit z p).
Proof.
  intros Hcfg. destruct (hc_first _ _ Hcfg) as [E1 _]. pose proof (hc_size _ _ Hcfg) as Hs.
  destruct (hc_imli _ _ Hcfg) as (len & El & _).
  destruct z.
  - destruct Hs as ([E2 _] & [E3 _] & _). unfold Sc64.makeThreadHistory, ScHistory.initLocalHistory.
    rewrite E1, E2, E3, El. cbn. unfold imliSize. by rewrite El.
  - unfold Sc8.makeThreadHistory, ScHistory.initLocalHistory. by rewrite E1.
Qed.

Lemma initGEHL_ok z p g : sc_cfg z p -> gehl_cfg p g ->
  exists t, Sc.initGEHLTable p g = Ok t /\ gehl_ok p g t.
Proof.
  intros Hcfg [Hnb Hll _ Hlog Hw]. pose proof (sizeUps_range z p Hcfg). pose proof (cc_counters _ _ Hcfg).
  unfold Sc.initGEHLTable. rewrite Hll, Z.eqb_refl. cbn.
  destruct (Z.eqb_spec (g_nb g) 0); [lia|]. eexists. split; [reflexivity|]. constructor; cbn.
  - rewrite length_replicate. lia.
  - intros l Hl. apply elem_of_replicate in Hl as [-> _]. apply counters_map; [lia|]. intros j.
    assert (2 ^ 5 <= 2 ^ (scCountersWidth p - 1)) by (apply Z.pow_le_mono_r; lia).
    unfold inCtr. destruct (_ && _); lia.
  - apply counters_replicate; [lia|done].
Qed.

Lemma initBias_ok z p v : sc_cfg z p -> (forall k, -32 <= v k <= 31) ->
  counters (logBias p) (scCountersWidth p) (Sc.initBias p v).
Proof.
  intros Hcfg Hv. pose proof (cc_counters _ _ Hcfg). pose proof (cc_bias _ _ Hcfg).
  apply counters_map; [lia|]. intros j. specialize (Hv (Z.land j 3)).
  assert (2 ^ 5 <= 2 ^ (scCountersWidth p - 1)) by (apply Z.pow_le_mono_r; lia). unfold inCtr. lia.
Qed.

Lemma init_widths z p : sc_cfg z p ->
  inCtr (extraWeightsWidth p) 4 /\ inCtr (updateThresholdWidth p) (Z.shiftl 35 3) /\
  inCtr (chooserConfWidth p) 0.
Proof.
  intros [_ _ H1 H2 _ H3]. change (Z.shiftl 35 3) with 280. unfold inCtr.
  assert (2 ^ 3 <= 2 ^ (extraWeightsWidth p - 1)) by (apply Z.pow_le_mono_r; lia).
  assert (2 ^ 9 <= 2 ^ (updateThresholdWidth p - 1)) by (apply Z.pow_le_mono_r; lia).
  pose proof (Z.pow_pos_nonneg 2 (chooserConfWidth p - 1)). lia.
Qed.

(** Construction succeeds in every configuration of the corrector. *)
Lemma scMake_ok z p : sc_cfg z p ->
  exists s, scMake z p = Ok s /\ tables_ok z p s /\ scHistory s = histInit z p.
Proof.
  intros Hcfg. pose proof (sizeUps_range z p Hcfg) as Hups.
  pose proof (makeHist_eq z p (cc_hist _ _ Hcfg)) as Eh.
  destruct (initGEHL_ok z p _ Hcfg (cc_bw _ _ Hcfg)) as (tb & Eb & Hb).
  destruct (initGEHL_ok z p _ Hcfg (cc_l _ _ Hcfg)) as (tl & El & Hl).
  destruct (initGEHL_ok z p _ Hcfg (cc_i _ _ Hcfg)) as (ti & Ei & Hi).
  pose proof (cc_size _ _ Hcfg) as Hsz.
  assert (Hv1 : forall k, -32 <= Sc.biasValue k <= 31) by
    (intros k; unfold Sc.biasValue; repeat case_match; lia).
  assert (Hv2 : forall k, -32 <= Sc.biasSKValue k <= 31) by
    (intros k; unfold Sc.biasSKValue; repeat case_match; lia).
  destruct (init_widths z p Hcfg) as (Hext & Hthr & Hcho).
  pose proof (cc_sizeUp _ _ Hcfg).
  assert (Hwb : counters (Sc.logSizeUps p) (extraWeightsWidth p)
                  (replicate (Z.to_nat (2 ^ Sc.logSizeUps p)) 4)).
  { apply counters_replicate; [lia|done]. }
  assert (Hpu : counters (logSizeUp p) (pUpdateThresholdWidth p)
                  (replicate (Z.to_nat (2 ^ logSizeUp p)) (initialUpdateThresholdValue p))).
  { apply counters_replicate; [lia|apply Hcfg]. }
  unfold scMake, Sc64.make, Sc8.make, Sc.make. rewrite Eb, El, Ei. destruct z; rewrite Eh; cbn.
  - destruct Hsz as (Cp & Cs & Ct & Cim).
    destruct (initGEHL_ok KB64 p _ Hcfg Cp) as (t1 & -> & ?), (initGEHL_ok KB64 p _ Hcfg Cs) as (t2 & -> & ?),
      (initGEHL_ok KB64 p _ Hcfg Ct) as (t3 & -> & ?), (initGEHL_ok KB64 p _ Hcfg Cim) as (t4 & -> & ?).
    cbn. eexists. split; [reflexivity|]. split; [|done].
    constructor; cbn; try done; by eapply initBias_ok.
  - destruct (initGEHL_ok KB8 p _ Hcfg Hsz) as (t1 & -> & ?). cbn. eexists. split; [reflexivity|].
    split; [|done]. constructor; cbn; try done; by eapply initBias_ok.
Qed.
