(* ===== verification/StatCorrSpec.v ===== *)
(** * Properties of the statistical corrector

    The corrector as its owner uses it: branches are predicted and enter the
    histories speculatively, are squashed youngest first, corrected when they
    are the youngest, and committed oldest first.  [sc_reach] are the states of
    such runs. *)

From Stdlib Require Import ZArith Lia.
From stdpp Require Import base list numbers.
From S2P Require Import Prelude Types CondPred TageHist Tage TageInv TageBaseOk TageScl TageSclOk StatCorr StatCorrHist StatCorrOk.

(** ** Runs *)

(** What TAGE hands to [scPredict], and the branch *)
Record ScIn := mkScIn {
  in_branch : ScBranch;
  in_conf : bool * bool * bool * bool;
  in_prev : bool;
  in_bias : bool;
  in_useCtr : bool;
  in_ctr : Z;
  in_bits : Z;
  in_hitBank : Z;
  in_altBank : Z
}.

Record ScFlight := mkScFlight { fl_branch : ScBranch; fl_in : ScIn; fl_info : ScInfo }.

(** The corrector, the branches in flight and the retired branches, the youngest
    first *)
Record ScRun := mkScRun { run_sc : StatCorr; run_flights : list ScFlight; run_retired : list ScBranch }.

Inductive ScOp :=
| ScSpeculate (tid : ThreadID) (x : ScIn)
| ScSquash
| ScCorrect (taken : bool) (target : Addr) (phist : Z)
| ScCommit (tid : ThreadID) (taken : bool) (target : Addr) (phist : Z).

(** A branch with another outcome *)
Definition redirect (b : ScBranch) (taken : bool) (target : Addr) (phist : Z) : ScBranch :=
  mkScBranch (sb_pc b) (sb_inst b) taken target phist.

Lemma histInit_zero z p :
  bwHist (histInit z p) = 0 /\ imliCount (histInit z p) = 0 /\ globalHist (histInit z p) = 0 /\
  localHistories (histInit z p) !! 0%nat = Some (noHist (numEntriesFirstLocalHistories p)).
Proof. by destruct z. Qed.

Lemma histStep_first z p b h : isCond b = true ->
  localHistories (histStep z p b h) !! 0%nat =
  alter (push (sb_taken b)) (Z.to_nat (entry1 p (sb_pc b))) <$> localHistories h !! 0%nat.
Proof.
  intros Ec. unfold histStep. rewrite Ec. cbn [localHistories]. unfold touch.
  destruct z; rewrite ?list_lookup_alter_ne by done; apply list_lookup_alter_eq.
Qed.

Section Run.
Context (z : SclSize) (p : ScParams).
#[local] Instance run_I : ScIndexing := scIndexing z p.
#[local] Instance run_V : ScVirtual := scVirtual z p.

Definition predictBranch (tid : ThreadID) (x : ScIn) : M StatCorr (bool * ScInfo) :=
  let b := in_branch x in
  let '(low, high, alt, med) := in_conf x in
  let bi := Sc.makeBranchInfo <| si_lowConf := low |> <| si_highConf := high |>
              <| si_altConf := alt |> <| si_medConf := med |> in
  Sc.scPredict p tid (sb_pc b) (isCond b) bi (in_prev x) (in_bias x) (in_useCtr x) (in_ctr x)
    (in_bits x) (in_hitBank x) (in_altBank x) 0.

Definition enterHistories (speculative : bool) (b : ScBranch) (bi : ScInfo) : M StatCorr ScInfo :=
  Sc.updateHistories p (sb_pc b) speculative (sb_inst b) (sb_taken b) bi (sb_target b) (sb_phist b).

Definition sc_step (op : ScOp) (r : ScRun) : Res ScRun :=
  match op with
  | ScSpeculate tid x =>
      let b := in_branch x in
      '(bi, s) ← (a ← predictBranch tid x; enterHistories true b (snd a)) (run_sc r);
      Ok (mkScRun s (mkScFlight b x bi :: run_flights r) (run_retired r))
  | ScSquash =>
      match run_flights r with
      | [] => Err NullDeref
      | f :: fs =>
          '(_, s) ← zoom scHistory (v_scRestoreHistState (fl_info f)) (run_sc r);
          Ok (mkScRun s fs (run_retired r))
      end
  | ScCorrect taken target phist =>
      match run_flights r with
      | [] => Err NullDeref
      | f :: fs =>
          let b := redirect (fl_branch f) taken target phist in
          '(bi, s) ← enterHistories true b (fl_info f) (run_sc r);
          Ok (mkScRun s (mkScFlight b (fl_in f) bi :: fs) (run_retired r))
      end
  | ScCommit tid taken target phist =>
      match list.last (run_flights r) with
      | None => Err NullDeref
      | Some f =>
          let b := redirect (fl_branch f) taken target phist in
          let x := fl_in f in
          '(bi, s) ← (bi ← (if isCond b then
                              Sc.condBranchUpdate p tid (sb_pc b) taken (fl_info f) target (in_bias x)
                                (in_hitBank x) (in_altBank x)
                            else mret (fl_info f));
                      enterHistories false b bi) (run_sc r);
          Ok (mkScRun s (take (length (run_flights r) - 1) (run_flights r))
                ((if sc_speculative p then fl_branch f else b) :: run_retired r))
      end
  end.

Definition sc_enabled (op : ScOp) (r : ScRun) : bool :=
  match op with
  | ScSpeculate _ x => (0 <=? in_bits x) && (in_bits x <=? 30)
  | _ => match run_flights r with [] => false | _ => true end
  end.

Inductive sc_reach (s0 : StatCorr) : ScRun -> Prop :=
| sc_start : sc_reach s0 (mkScRun s0 [] [])
| sc_next op r r' :
    sc_reach s0 r -> sc_enabled op r = true -> sc_step op r = Ok r' -> sc_reach s0 r'.

Fixpoint sc_run (ops : list ScOp) (r : ScRun) : Res ScRun :=
  match ops with
  | [] => Ok r
  | op :: ops' => r' ← sc_step op r; sc_run ops' r'
  end.

(** The branches the histories contain: with speculative updates those in
    flight too *)
Definition retained (r : ScRun) : list ScBranch :=
  if sc_speculative p then map fl_branch (run_flights r) ++ run_retired r else run_retired r.

Definition histAfter (l : list ScBranch) : ScHist := foldr (histStep z p) (histInit z p) l.

(** ** The invariant *)

Fixpoint flights_ok (retired : list ScBranch) (fs : list ScFlight) : Prop :=
  match fs with
  | [] => True
  | f :: fs' =>
      (if sc_speculative p then
         si_modified (fl_info f) = true /\
         holds z p (sb_pc (fl_branch f)) (histAfter (map fl_branch fs' ++ retired)) (fl_info f)
       else si_modified (fl_info f) = false) /\
      flights_ok retired fs'
  end.

Record sc_run_ok (r : ScRun) : Prop := {
  sr_tables : tables_ok z p (run_sc r);
  sr_hist : same_hist (histAfter (retained r)) (scHistory (run_sc r));
  sr_flights : flights_ok (run_retired r) (run_flights r)
}.

Context (Hcfg : sc_cfg z p).

Lemma histAfter_ok l : hist_ok z p (histAfter l).
Proof.
  induction l as [|b l IH]; cbn.
  - apply histInit_ok. apply Hcfg.
  - by apply (histStep_ok z p (cc_hist _ _ Hcfg)).
Qed.

Lemma hist_ok_same h g : same_hist h g -> hist_ok z p h -> hist_ok z p g.
Proof. unfold same_hist. intros -> [H1 H2]. constructor; [exact H1|]. by destruct z. Qed.

Lemma sr_hist_ok r : sc_run_ok r -> hist_ok z p (scHistory (run_sc r)).
Proof. intros [_ Hh _]. eapply hist_ok_same; [exact Hh|apply histAfter_ok]. Qed.

(** A branch enters the histories for the first time. *)
Lemma wp_enter b bi s (Q : ScInfo -> StatCorr -> Prop) :
  sc_speculative p = true -> si_modified bi = false -> hist_ok z p (scHistory s) ->
  (forall bi', si_modified bi' = true -> holds z p (sb_pc b) (scHistory s) bi' ->
     Q bi' (s <| scHistory := histStep z p b (scHistory s) |>)) ->
  wp (enterHistories true b bi) Q s.
Proof.
  intros Hs Hm Hh HQ. unfold enterHistories, Sc.updateHistories. rewrite Hs, Hm. cbn [eqb negb andb].
  wp_step. wp_step. eapply (wp_scRecord z p (cc_hist _ _ Hcfg)); [done|].
  intros bi' Hd (_ & _ & _ & _ & Hm') _. rewrite Hm', Hm. wp_step. wp_step. wp_step. wp_step.
  eapply (wp_hist_update z p (cc_hist _ _ Hcfg)); [done|]. wp_step.
  assert (E : forall h1 h2, s <| scHistory := h1 |> <| scHistory := h2 |> = s <| scHistory := h2 |>)
    by (by destruct s).
  cbn. rewrite E. apply HQ; [done|]. by destruct Hd; constructor.
Qed.

(** A branch enters the histories again, with another outcome. *)
Lemma wp_reenter b0 b bi s h (Q : ScInfo -> StatCorr -> Prop) :
  sc_speculative p = true -> si_modified bi = true -> hist_ok z p h -> sb_pc b = sb_pc b0 ->
  holds z p (sb_pc b0) h bi -> same_hist (histStep z p b0 h) (scHistory s) ->
  Q (bi <| si_modified := true |>) (s <| scHistory := histStep z p b h |>) ->
  wp (enterHistories true b bi) Q s.
Proof.
  intros Hs Hm Hh Epc Hd Hg HQ. unfold enterHistories, Sc.updateHistories. rewrite Hs, Hm.
  cbn [eqb negb andb]. wp_step. wp_step. rewrite Hm. wp_step. wp_step. wp_step.
  eapply wp_scRestore; [apply Hcfg|exact Hh|exact Hd|exact Hm|exact Hg|].
  pose proof (same_hist_set h (pHist (scHistory s))) as Hh'. wp_step. wp_step. wp_step.
  cbn. eapply (wp_hist_update z p (cc_hist _ _ Hcfg)); [by eapply hist_ok_same|]. wp_step.
  assert (E : forall h1 h2, s <| scHistory := h1 |> <| scHistory := h2 |> = s <| scHistory := h2 |>)
    by (by destruct s).
  rewrite E, <- (histStep_proper z p b h _ Hh'). exact HQ.
Qed.

(** ** The operations *)

Lemma wp_restore_unmodified bi h (Q : bool -> ScHist -> Prop) :
  si_modified bi = false -> Q false h -> wp (v_scRestoreHistState bi) Q h.
Proof.
  intros Hm HQ. unfold run_V. destruct z; cbn;
    unfold Sc64.scRestoreHistState, Sc8.scRestoreHistState, Sc.scRestoreHistState; rewrite Hm; cbn [negb];
    wp_step; by repeat wp_step.
Qed.

Lemma wp_scPredictBranch tid x s (Q : bool * ScInfo -> StatCorr -> Prop) :
  tables_ok z p s -> hist_ok z p (scHistory s) -> 0 <= in_bits x <= 30 ->
  (forall a, si_modified (snd a) = false -> Q a s) -> wp (predictBranch tid x) Q s.
Proof.
  intros Hok Hh Hb HQ. unfold predictBranch. destruct (in_conf x) as [[[low high] alt] med].
  destruct (isCond (in_branch x)).
  - eapply (wp_scPredict z p Hcfg); [done|done|done|]. intros pred bi' Hm _ _ _. by apply HQ.
  - unfold Sc.scPredict. cbn [negb]. wp_step. by apply HQ.
Qed.

(** The histories with one more branch at the top *)
Lemma enter_top r b :
  sc_speculative p = true -> same_hist (histAfter (retained r)) (scHistory (run_sc r)) ->
  histStep z p b (scHistory (run_sc r)) = histAfter (b :: map fl_branch (run_flights r) ++ run_retired r).
Proof.
  intros Hs Hh. unfold retained in Hh. rewrite Hs in Hh. cbn. symmetry. by apply histStep_proper.
Qed.

Lemma sc_step_speculate tid x r :
  sc_run_ok r -> 0 <= in_bits x <= 30 ->
  exists bi s', sc_step (ScSpeculate tid x) r =
      Ok (mkScRun s' (mkScFlight (in_branch x) x bi :: run_flights r) (run_retired r)) /\
    sc_run_ok (mkScRun s' (mkScFlight (in_branch x) x bi :: run_flights r) (run_retired r)) /\
    s' = (run_sc r) <| scHistory := if sc_speculative p then histStep z p (in_branch x) (scHistory (run_sc r))
                                  else scHistory (run_sc r) |>.
Proof.
  intros Hok Hb. pose proof (sr_hist_ok _ Hok) as Hh. destruct Hok as [Ht Hs Hf].
  assert (Hwp : wp (a ← predictBranch tid x; enterHistories true (in_branch x) (snd a)) (fun bi s' =>
      s' = (run_sc r) <| scHistory := if sc_speculative p then histStep z p (in_branch x) (scHistory (run_sc r))
                                    else scHistory (run_sc r) |> /\
      if sc_speculative p then si_modified bi = true /\ holds z p (sb_pc (in_branch x)) (scHistory (run_sc r)) bi
      else si_modified bi = false) (run_sc r)).
  { wp_step. apply wp_scPredictBranch; [done|done|done|]. intros a Ha.
    destruct (sc_speculative p) eqn:Esp.
    - by apply wp_enter.
    - unfold enterHistories, Sc.updateHistories. rewrite Esp. cbn [eqb negb]. wp_step. split; [|done].
      by destruct (run_sc r). }
  apply wp_inv in Hwp as (bi & s' & E & -> & Hbi). exists bi. eexists. cbn [sc_step]. rewrite E. cbn.
  split; [reflexivity|]. split; [|done]. constructor; cbn.
  - by apply tables_hist.
  - unfold retained in *. cbn. destruct (sc_speculative p) eqn:Esp; [|exact Hs].
    rewrite (enter_top r (in_branch x) Esp); [done|]. unfold retained. by rewrite Esp.
  - split; [|exact Hf]. destruct (sc_speculative p) eqn:Esp; [|done]. split; [apply Hbi|].
    eapply same_cells; [|apply Hbi]. unfold retained in Hs. rewrite Esp in Hs. by symmetry.
Qed.

Lemma sc_step_squash f fs r :
  sc_run_ok r -> run_flights r = f :: fs ->
  exists h', sc_step ScSquash r = Ok (mkScRun ((run_sc r) <| scHistory := h' |>) fs (run_retired r)) /\
    sc_run_ok (mkScRun ((run_sc r) <| scHistory := h' |>) fs (run_retired r)) /\
    pHist h' = pHist (scHistory (run_sc r)).
Proof.
  intros [Ht Hs Hf] Ef. cbn [sc_step]. rewrite Ef in *. destruct Hf as [Hf Hfs].
  unfold retained in Hs. rewrite Ef in Hs. cbn in Hs.
  set (H := if sc_speculative p then map fl_branch fs ++ run_retired r else run_retired r).
  assert (Hwp : wp (zoom scHistory (v_scRestoreHistState (fl_info f))) (fun _ s' =>
    exists h', s' = (run_sc r) <| scHistory := h' |> /\ pHist h' = pHist (scHistory (run_sc r)) /\
      same_hist (histAfter H) h') (run_sc r)).
  { wp_step. unfold H. destruct (sc_speculative p).
    - destruct Hf as [Hm Hd]. eapply wp_scRestore; [apply Hcfg|apply histAfter_ok|exact Hd|exact Hm|exact Hs|].
      eexists. split; [reflexivity|]. split; [done|apply same_hist_set].
    - apply wp_restore_unmodified; [done|]. eexists. split; [reflexivity|]. done. }
  apply wp_inv in Hwp as (a & s' & E & h' & -> & Hp & Hh). exists h'. rewrite E. cbn.
  split; [reflexivity|]. split; [|done]. constructor; cbn; [by apply tables_hist| |done].
  unfold retained. cbn. exact Hh.
Qed.

Lemma step_correct taken target phist f fs r :
  sc_run_ok r -> run_flights r = f :: fs ->
  exists r', sc_step (ScCorrect taken target phist) r = Ok r' /\ sc_run_ok r' /\
    map fl_branch (run_flights r') = redirect (fl_branch f) taken target phist :: map fl_branch fs /\
    run_retired r' = run_retired r.
Proof.
  intros [Ht Hs Hf] Ef. cbn [sc_step]. rewrite Ef in *. destruct Hf as [Hf Hfs].
  unfold retained in Hs. rewrite Ef in Hs. cbn in Hs.
  set (b := redirect (fl_branch f) taken target phist). destruct (sc_speculative p) eqn:Esp.
  - destruct Hf as [Hm Hd]. set (h := histAfter (map fl_branch fs ++ run_retired r)) in *.
    assert (Hwp : wp (enterHistories true b (fl_info f)) (fun bi s' =>
      bi = (fl_info f) <| si_modified := true |> /\ s' = (run_sc r) <| scHistory := histStep z p b h |>)
      (run_sc r)).
    { eapply (wp_reenter (fl_branch f) b _ _ h); try done. apply histAfter_ok. }
    apply wp_inv in Hwp as (bi & s' & E & -> & ->). rewrite E. cbn. eexists. split; [reflexivity|].
    split; [|done]. constructor; cbn.
    + by apply tables_hist.
    + unfold retained. cbn. rewrite Esp. done.
    + split; [|done]. rewrite Esp. split; [done|]. by destruct Hd; constructor.
  - unfold enterHistories, Sc.updateHistories. rewrite Esp. cbn. eexists. split; [reflexivity|].
    split; [|done]. constructor; cbn; [done| |].
    + unfold retained. cbn. by rewrite Esp.
    + by rewrite Esp.
Qed.

Lemma flights_commit fs f retired :
  sc_speculative p = true -> flights_ok retired (fs ++ [f]) -> flights_ok (fl_branch f :: retired) fs.
Proof.
  intros Hs. induction fs as [|g fs IH]; cbn; [done|]. rewrite Hs. intros [[Hm Hd] Hr].
  split; [|by apply IH]. split; [done|]. rewrite map_app, <- app_assoc in Hd. exact Hd.
Qed.

Lemma flights_last_plain fs f retired retired' :
  sc_speculative p = false -> flights_ok retired (fs ++ [f]) ->
  si_modified (fl_info f) = false /\ flights_ok retired' fs.
Proof.
  intros Hs. induction fs as [|g fs IH]; cbn; rewrite Hs; [by intros [? _]|].
  intros [Hm Hr]. destruct (IH Hr). done.
Qed.

Lemma step_commit tid taken target phist f fs r :
  sc_run_ok r -> run_flights r = fs ++ [f] ->
  exists r', sc_step (ScCommit tid taken target phist) r = Ok r' /\ sc_run_ok r' /\
    run_flights r' = fs /\
    run_retired r' = (if sc_speculative p then fl_branch f
                      else redirect (fl_branch f) taken target phist) :: run_retired r.
Proof.
  intros Hok Ef. pose proof (sr_hist_ok r Hok) as Hh. destruct Hok as [Ht Hs Hf]. cbn [sc_step]. rewrite Ef, last_snoc.
  assert (Etake : take (length (fs ++ [f]) - 1) (fs ++ [f]) = fs).
  { rewrite length_app. cbn. replace (length fs + 1 - 1)%nat with (length fs) by lia.
    by rewrite take_app_length. }
  rewrite Etake. set (b := redirect (fl_branch f) taken target phist). rewrite Ef in Hf.
  assert (Hwp : wp (bi ← (if isCond b then
        Sc.condBranchUpdate p tid (sb_pc b) taken (fl_info f) target (in_bias (fl_in f))
          (in_hitBank (fl_in f)) (in_altBank (fl_in f)) else mret (fl_info f)); enterHistories false b bi)
    (fun _ s' => tables_ok z p s' /\ scHistory s' =
       if sc_speculative p then scHistory (run_sc r) else histStep z p b (scHistory (run_sc r))) (run_sc r)).
  { wp_step. apply (wp_mono _ (fun bi s' => tables_ok z p s' /\ scHistory s' = scHistory (run_sc r) /\
      si_modified bi = si_modified (fl_info f))).
    - destruct (isCond b); [|by wp_step]. eapply (wp_scCondBranchUpdate z p Hcfg); [done|]. done.
    - intros bi s' (Ht' & Eh & Em). unfold enterHistories, Sc.updateHistories.
      destruct (sc_speculative p) eqn:Esp; cbn [eqb negb andb]; [by wp_step|].
      destruct (flights_last_plain _ _ _ [] Esp Hf) as [Hm _].
      wp_step. wp_step. rewrite Em, Hm. wp_step. wp_step. wp_step. wp_step.
      eapply (wp_hist_update z p (cc_hist _ _ Hcfg)).
      + by rewrite Eh.
      + wp_step. rewrite Eh. split; [by apply tables_hist|done]. }
  apply wp_inv in Hwp as (bi & s' & E & Ht' & Eh). rewrite E. cbn. eexists. split; [reflexivity|].
  split; [|done]. unfold retained in Hs. rewrite Ef in Hs.
  constructor; cbn; [done| |]; unfold retained; cbn; destruct (sc_speculative p) eqn:Esp.
  - rewrite Eh. rewrite map_app, <- app_assoc in Hs. exact Hs.
  - rewrite Eh. cbn. by rewrite <- (histStep_proper z p b _ _ Hs).
  - by apply flights_commit.
  - by eapply flights_last_plain.
Qed.

(** Every enabled operation succeeds and keeps the invariant. *)
Lemma step_ok op r : sc_run_ok r -> sc_enabled op r = true ->
  exists r', sc_step op r = Ok r' /\ sc_run_ok r'.
Proof.
  intros Hok Hen. destruct op as [tid x| |t tg ph|tid t tg ph]; cbn in Hen.
  - apply andb_true_iff in Hen as [H1%Z.leb_le H2%Z.leb_le].
    destruct (sc_step_speculate tid x r Hok ltac:(lia)) as (bi & s' & E & Hok' & _). eauto.
  - destruct (run_flights r) as [|f fs] eqn:Ef; [done|].
    destruct (sc_step_squash f fs r Hok Ef) as (h' & E & Hok' & _). eauto.
  - destruct (run_flights r) as [|f fs] eqn:Ef; [done|].
    destruct (step_correct t tg ph f fs r Hok Ef) as (r' & E & Hok' & _). eauto.
  - destruct (run_flights r) as [|f fs _] eqn:Ef using rev_ind; [done|].
    destruct (step_commit tid t tg ph f fs r Hok Ef) as (r' & E & Hok' & _). eauto.
Qed.

Lemma sc_reach_ok s0 r : scMake z p = Ok s0 -> sc_reach s0 r -> sc_run_ok r.
Proof.
  intros Hm Hr. induction Hr as [|op r r' Hr IH Hen Hs].
  - destruct (scMake_ok z p Hcfg) as (s & E & Ht & Eh). rewrite Hm in E. injection E as <-.
    constructor; cbn; [done| |done]. unfold retained. cbn. rewrite Eh. by destruct (sc_speculative p).
  - destruct (step_ok op r IH Hen) as (r2 & E & Hok). rewrite Hs in E. by injection E as <-.
Qed.

(** ** The histories as functions of the executed branches *)

(** The history word of a list of outcomes, the youngest first *)
Definition word (l : list bool) : Z := i64 (foldr (fun b x => b2z b + 2 * x) 0 l).

Lemma i64_eq a b : a mod 2 ^ 64 = b mod 2 ^ 64 -> i64 a = i64 b.
Proof.
  intros H. unfold i64. rewrite (Zplus_mod a), (Zplus_mod b), H. reflexivity.
Qed.

Lemma i64_mod a : (i64 a) mod 2 ^ 64 = a mod 2 ^ 64.
Proof.
  unfold i64. rewrite Zminus_mod_idemp_l. f_equal. lia.
Qed.

Lemma i64_odd a : i64 (2 * a) + 1 = i64 (1 + 2 * a).
Proof.
  unfold i64. replace (1 + 2 * a + 2 ^ 63) with (2 * (a + 2 ^ 62) + 1) by lia.
  replace (2 * a + 2 ^ 63) with (2 * (a + 2 ^ 62)) by lia.
  set (y := a + 2 ^ 62). change (2 ^ 64) with (2 * 2 ^ 63).
  rewrite Zmult_mod_distr_l.
  replace ((2 * y + 1) mod (2 * 2 ^ 63)) with (2 * (y mod 2 ^ 63) + 1); [lia|].
  apply Z.mod_unique_pos with (y / 2 ^ 63).
  - pose proof (Z.mod_pos_bound y (2 ^ 63)). lia.
  - pose proof (Z.div_mod y (2 ^ 63)). lia.
Qed.

Lemma push_i64 t x : push t (i64 x) = i64 (b2z t + 2 * x).
Proof.
  unfold push. assert (E : i64 (Z.shiftl (i64 x) 1) = i64 (2 * x)).
  { apply i64_eq. rewrite Z.shiftl_mul_pow2 by lia. change (2 ^ 1) with 2.
    rewrite (Z.mul_comm 2), Zmult_mod, i64_mod, <- Zmult_mod. reflexivity. }
  rewrite E. destruct t; cbn [b2z]; [apply i64_odd|]. by rewrite Z.add_0_r.
Qed.

Lemma push_word b l : push b (word l) = word (b :: l).
Proof. apply push_i64. Qed.

(** The iteration count of the innermost loop *)
Definition imliRef (l : list ScBranch) : Z := foldr (nextImli p) 0 l.

Lemma vat_alter e e' f (l : list Z) :
  0 <= e -> 0 <= e' -> vat (alter f (Z.to_nat e') l) e = if e =? e' then f <$> vat l e else vat l e.
Proof.
  intros He He'. rewrite !vat_nat by lia. destruct (Z.eqb_spec e e') as [->|Hn].
  - apply list_lookup_alter_eq.
  - apply list_lookup_alter_ne. lia.
Qed.

(** The branches that use entry [e] of a local history *)
Definition usersOf (entry : Addr -> Z) (e : Z) (l : list ScBranch) : list ScBranch :=
  filter (fun b => isCond b = true /\ entry (sb_pc b) = e) l.

Definition condOf (l : list ScBranch) : list ScBranch := filter (fun b => isCond b = true) l.

(** The word of the first and third local history, and that of the second, in which each branch flips
    the low bits of its entry by the low bits of its address *)
Definition localRef (entry : Addr -> Z) (e : Z) (l : list ScBranch) : Z := word (map sb_taken (usersOf entry e l)).
Definition xorRef (e : Z) (l : list ScBranch) : Z :=
  i64 (foldr (fun b x => Z.lxor (b2z (sb_taken b) + 2 * x) (Z.land (sb_pc b) 15)) 0 (usersOf (entry2 p) e l)).

(** The branches that ran while the loop counter was [i] *)
Fixpoint duringIter (i : Z) (l : list ScBranch) : list ScBranch :=
  match l with
  | [] => []
  | b :: older => if imliRef older =? i then b :: duringIter i older else duringIter i older
  end.

Lemma push_words l : foldr (fun b => push (sb_taken b)) 0 l = word (map sb_taken l).
Proof. induction l as [|b l IH]; [done|]. cbn [foldr map]. by rewrite IH, push_word. Qed.

Lemma lxor_mod y k : (Z.lxor (y mod 2 ^ 64) k) mod 2 ^ 64 = (Z.lxor y k) mod 2 ^ 64.
Proof.
  apply Z.bits_inj'. intros n Hn. destruct (Z.lt_ge_cases n 64).
  - by rewrite !Z.mod_pow2_bits_low, !Z.lxor_spec, Z.mod_pow2_bits_low by lia.
  - by rewrite !Z.mod_pow2_bits_high by lia.
Qed.

Lemma pushXor_i64 t k x : pushXor t k (i64 x) = i64 (Z.lxor (b2z t + 2 * x) k).
Proof.
  unfold pushXor. rewrite push_i64. destruct (Z.eqb_spec k 0) as [->|Hk]; cbn [negb]; [by rewrite Z.lxor_0_r|].
  apply i64_eq. unfold u64. rewrite i64_mod. apply lxor_mod.
Qed.

Lemma xor_words l :
  foldr (fun b => pushXor (sb_taken b) (Z.land (sb_pc b) 15)) 0 l =
  i64 (foldr (fun b x => Z.lxor (b2z (sb_taken b) + 2 * x) (Z.land (sb_pc b) 15)) 0 l).
Proof. induction l as [|b l IH]; [done|]. cbn [foldr]. by rewrite IH, pushXor_i64. Qed.

(** A local history whose step changes the entry of the branch by [f] *)
Lemma histAfter_cell k n entry (f : ScBranch -> Z -> Z) l e :
  (forall pc, 0 <= entry pc < n) -> localHistories (histInit z p) !! k = Some (noHist n) ->
  (forall b h, isCond b = true -> localHistories (histStep z p b h) !! k =
     alter (f b) (Z.to_nat (entry (sb_pc b))) <$> localHistories h !! k) ->
  0 <= e < n -> cellAt k e (histAfter l) = Some (foldr f 0 (usersOf entry e l)).
Proof.
  intros Hent Hi Hs He. induction l as [|b l IH].
  - unfold cellAt. cbn [histAfter foldr]. rewrite Hi. change (vat (noHist n) e = Some 0).
    rewrite vat_nat by lia. apply lookup_replicate_2. lia.
  - change (histAfter (b :: l)) with (histStep z p b (histAfter l)).
    assert (Eu : usersOf entry e (b :: l) = if isCond b && (e =? entry (sb_pc b)) then b :: usersOf entry e l else usersOf entry e l).
    { unfold usersOf. rewrite filter_cons. destruct (isCond b) eqn:Ec; [|by rewrite decide_False by (by intros [? _])].
      cbn [andb]. destruct (Z.eqb_spec e (entry (sb_pc b))) as [E|Hn]; [by rewrite decide_True|].
      rewrite decide_False; [done|]. intros [_ E]. by rewrite E in Hn. }
    rewrite Eu. destruct (isCond b) eqn:Ec; cbn [andb]; [|unfold histStep; by rewrite Ec].
    unfold cellAt in *. rewrite Hs by done. destruct (localHistories (histAfter l) !! k) as [l1|]; [|done].
    change (vat l1 e = Some (foldr f 0 (usersOf entry e l))) in IH.
    change (vat (alter (f b) (Z.to_nat (entry (sb_pc b))) l1) e =
      Some (foldr f 0 (if e =? entry (sb_pc b) then b :: usersOf entry e l else usersOf entry e l))).
    specialize (Hent (sb_pc b)). rewrite vat_alter by lia. destruct (e =? entry (sb_pc b)); [|done]. by rewrite IH.
Qed.

(** The histories that are one word *)
Lemma histAfter_scalars l :
  let h := histAfter l in
  bwHist h = word (map (fun b => sb_taken b && backward b) (condOf l)) /\
  imliCount h = imliRef (condOf l) /\
  match z with KB8 => globalHist h = word (map sb_taken (condOf l)) | KB64 => True end.
Proof.
  cbn zeta. induction l as [|b l (Hbw & Him & Hg)].
  - destruct (histInit_zero z p) as (E1 & E2 & E3 & _). cbn [histAfter foldr]. rewrite E1, E2, E3. by destruct z.
  - change (histAfter (b :: l)) with (histStep z p b (histAfter l)). unfold condOf, histStep.
    rewrite filter_cons. destruct (decide (isCond b = true)) as [Ec|Ec].
    2: { apply not_true_is_false in Ec. by rewrite Ec. }
    rewrite Ec. cbn [bwHist imliCount globalHist map]. rewrite Hbw, Him, push_word. split_and!; [done..|].
    destruct z; [done|]. by rewrite Hg, push_word.
Qed.

Lemma histAfter_im l i :
  z = KB64 -> 0 <= i < imliSize p ->
  vat (imHist (histAfter l)) i = Some (word (map sb_taken (duringIter i (condOf l)))).
Proof.
  intros Ez Hi. induction l as [|b l IH].
  - cbn [histAfter foldr]. rewrite Ez. cbn [histInit imHist]. rewrite vat_nat by lia. apply lookup_replicate_2. lia.
  - destruct (histAfter_ok l) as [Hr _]. pose proof (histAfter_scalars l) as (_ & Him & _).
    change (histAfter (b :: l)) with (histStep z p b (histAfter l)). unfold condOf. rewrite filter_cons.
    fold (condOf l). destruct (decide (isCond b = true)) as [Ec|Ec].
    2: { apply not_true_is_false in Ec. unfold histStep. by rewrite Ec. }
    unfold histStep at 1. rewrite Ec, Ez. cbn [imHist duringIter]. rewrite vat_alter by lia. rewrite IH, <- Him, Z.eqb_sym.
    destruct (imliCount (histAfter l) =? i); [|done]. cbn [fmap option_fmap option_map map]. by rewrite push_word.
Qed.

Lemma histAfter_exact l :
  let h := histAfter l in
  bwHist h = word (map (fun b => sb_taken b && backward b) (condOf l)) /\
  imliCount h = imliRef (condOf l) /\
  (forall e, 0 <= e < numEntriesFirstLocalHistories p -> cellAt 0 e h = Some (localRef (entry1 p) e l)) /\
  match z with
  | KB8 => globalHist h = word (map sb_taken (condOf l))
  | KB64 =>
      (forall e, 0 <= e < numEntriesSecondLocalHistories p -> cellAt 1 e h = Some (xorRef e l)) /\
      (forall e, 0 <= e < numEntriesThirdLocalHistories p -> cellAt 2 e h = Some (localRef (entry3 p) e l)) /\
      (forall i, 0 <= i < imliSize p -> vat (imHist h) i = Some (word (map sb_taken (duringIter i (condOf l)))))
  end.
Proof.
  cbn zeta. destruct (histAfter_scalars l) as (Hbw & Him & Hg). split; [done|]. split; [done|]. split.
  - intros e He. unfold localRef. rewrite <- push_words.
    apply (histAfter_cell 0 (numEntriesFirstLocalHistories p) (entry1 p) (fun b => push (sb_taken b))); [|apply histInit_zero|intros b h; apply histStep_first|exact He].
    intros pc. apply localEntry_range, (cc_hist _ _ Hcfg).
  - pose proof (hc_size _ _ (cc_hist _ _ Hcfg)) as Hsz. pose proof (histAfter_im l) as Hi.
    destruct z eqn:Ez; [|exact Hg]. destruct Hsz as (Hc2 & Hc3 & _). split_and!; intros e He; [| |by apply Hi].
    + unfold xorRef. rewrite <- xor_words.
      apply (histAfter_cell 1 (numEntriesSecondLocalHistories p) (entry2 p) (fun b => pushXor (sb_taken b) (Z.land (sb_pc b) 15)));
        [intros pc; by apply localEntry_range|by rewrite Ez| |exact He].
      intros b h Ec. unfold histStep, touch. rewrite Ec, Ez. cbn [localHistories].
      by rewrite list_lookup_alter_ne, list_lookup_alter_eq, list_lookup_alter_ne.
    + unfold localRef. rewrite <- push_words.
      apply (histAfter_cell 2 (numEntriesThirdLocalHistories p) (entry3 p) (fun b => push (sb_taken b)));
        [intros pc; by apply localEntry_range|by rewrite Ez| |exact He].
      intros b h Ec. unfold histStep, touch. rewrite Ec, Ez. cbn [localHistories].
      by rewrite list_lookup_alter_eq, !list_lookup_alter_ne.
Qed.
End Run.

(** ** The theorems *)

Section Theorems.
Context (z : SclSize) (p : ScParams) (Hcfg : sc_cfg z p) (s0 : StatCorr) (Hmk : scMake z p = Ok s0).
#[local] Instance thm_I : ScIndexing := scIndexing z p.
#[local] Instance thm_V : ScVirtual := scVirtual z p.

(** No operation on the statistical corrector fails: in every state reached from
    construction by predictions, squashes, corrections and commits, in either
    size and with or without speculative updates, the next operation succeeds.
    No index leaves a table of counters or of histories. *)
Theorem sc_no_fault r op :
  sc_reach z p s0 r -> sc_enabled op r = true -> isOk (sc_step z p op r) = true.
Proof.
  intros Hr Hen. destruct (step_ok z p Hcfg op r) as (r' & -> & _); [|done|done].
  by eapply sc_reach_ok.
Qed.

(** [C26] In configurations with sc_cfg (the 64 KB one of the scripts cannot predict,
    sc64_predict_undefined), when the branches in flight are one stack, as with one thread (only the
    youngest is squashed or corrected; sc_threads_interfere shows two threads break it), the histories
    of the statistical corrector are those of the branches that were not squashed, with their last
    outcomes: the backward history and the global history of the 8 KB size are the last 64 outcomes, the
    loop counter counts iterations, an entry of the first local history holds the last 64 outcomes of
    the branches that map to it; in the 64 KB size the third local history likewise, the second with the
    low bits of each branch address flipped in, and imHist at i the outcomes of the branches that ran
    while the loop counter was i. pHist, which no recovery restores, is not among them. *)
Theorem sc_history_exact r :
  sc_reach z p s0 r ->
  let h := scHistory (run_sc r) in
  let l := retained p r in
  bwHist h = word (map (fun b => sb_taken b && backward b) (condOf l)) /\
  imliCount h = imliRef p (condOf l) /\
  (forall e, 0 <= e < numEntriesFirstLocalHistories p -> cellAt 0 e h = Some (localRef (entry1 p) e l)) /\
  match z with
  | KB8 => globalHist h = word (map sb_taken (condOf l))
  | KB64 =>
      (forall e, 0 <= e < numEntriesSecondLocalHistories p -> cellAt 1 e h = Some (xorRef p e l)) /\
      (forall e, 0 <= e < numEntriesThirdLocalHistories p -> cellAt 2 e h = Some (localRef (entry3 p) e l)) /\
      (forall i, 0 <= i < imliSize p -> vat (imHist h) i = Some (word (map sb_taken (duringIter p i (condOf l)))))
  end.
Proof.
  intros Hr. destruct (sc_reach_ok z p Hcfg s0 r Hmk Hr) as [_ Hs _]. unfold same_hist in Hs.
  cbn zeta. rewrite Hs. exact (histAfter_exact z p Hcfg (retained p r)).
Qed.

(** A prediction changes nothing, its sums stay far below the range of an [int],
    and it differs from the prediction of TAGE only when the sum has the other
    sign and the chooser trusts it. *)
Theorem sc_predict_decides r tid pc bi prev b use cc cb hb ab :
  sc_reach z p s0 r -> 0 <= cb <= 30 ->
  wp (Sc.scPredict p tid pc true bi prev b use cc cb hb ab 0) (fun a s' =>
    s' = run_sc r /\ Z.abs (si_lsum (snd a)) <= 33660 /\ Z.abs (si_thres (snd a)) < 2 ^ 31 /\
    (fst a <> prev -> fst a = (0 <=? si_lsum (snd a)) /\
       Sc.useScPred (snd a) (firstH (run_sc r)) (secondH (run_sc r)) = true)) (run_sc r).
Proof.
  intros Hr Hcb. pose proof (sc_reach_ok z p Hcfg s0 r Hmk Hr) as Hok.
  eapply (wp_scPredict z p Hcfg); [apply Hok|by eapply sr_hist_ok|done|].
  intros pred bi' _ Hl Ht Hd. cbn [fst snd]. split_and!; [done|done|done|]. unfold decided in Hd.
  intros Hne. rewrite Hd in Hne |- *. destruct (eqb prev _); [done|].
  by destruct (Sc.useScPred bi' _ _).
Qed.

(** The same corrector, up to the path history *)
Definition same_sc (s s' : StatCorr) : Prop :=
  exists h, s' = s <| scHistory := h |> /\ same_hist (scHistory s) h.

Lemma speculate_all tid xs : forall r,
  sc_run_ok z p r -> Forall (fun x => 0 <= in_bits x <= 30) xs ->
  exists r1 fs h, sc_run z p (map (ScSpeculate tid) xs) r = Ok r1 /\ sc_run_ok z p r1 /\
    run_flights r1 = fs ++ run_flights r /\ length fs = length xs /\
    run_retired r1 = run_retired r /\ run_sc r1 = (run_sc r) <| scHistory := h |> /\
    (sc_speculative p = true -> pHist h = default (pHist (scHistory (run_sc r)))
       (sb_phist ∘ in_branch <$> list.last xs)).
Proof.
  induction xs as [|x xs IH]; intros r Hok Hb.
  - exists r, [], (scHistory (run_sc r)). cbn. split_and!; try done. by destruct (run_sc r).
  - apply list.Forall_cons in Hb as [Hx Hb].
    destruct (sc_step_speculate z p Hcfg tid x r Hok Hx) as (bi & s1 & E1 & Hok1 & Es1).
    destruct (IH _ Hok1 Hb) as (r1 & fs & h & E & Hr1 & Ef & El & Er & Es & Hp).
    exists r1, (fs ++ [mkScFlight (in_branch x) x bi]), h. cbn [map sc_run]. rewrite E1.
    split; [exact E|]. split; [done|]. cbn in Ef, Er, Es, Hp. split_and!; try done.
    + by rewrite Ef, <- app_assoc.
    + rewrite length_app, El. cbn. lia.
    + rewrite Es, Es1. by destruct (run_sc r).
    + intros Hs. rewrite (Hp Hs), Es1, Hs. rewrite last_cons. destruct (list.last xs); cbn; [done|].
      unfold histStep. by destruct (isCond (in_branch x)).
Qed.

Lemma squash_all fs : forall r F,
  sc_run_ok z p r -> run_flights r = fs ++ F ->
  exists r2 h, sc_run z p (replicate (length fs) ScSquash) r = Ok r2 /\ sc_run_ok z p r2 /\
    run_flights r2 = F /\ run_retired r2 = run_retired r /\ run_sc r2 = (run_sc r) <| scHistory := h |> /\
    pHist h = pHist (scHistory (run_sc r)).
Proof.
  induction fs as [|f fs IH]; intros r F Hok Ef.
  - exists r, (scHistory (run_sc r)). cbn. split_and!; try done. by destruct (run_sc r).
  - destruct (sc_step_squash z p Hcfg f (fs ++ F) r Hok Ef) as (h1 & E1 & Hok1 & Hp1).
    destruct (IH _ F Hok1 eq_refl) as (r2 & h & E & Hr2 & Ef2 & Er2 & Es2 & Hp2).
    exists r2, h. cbn [length replicate sc_run]. rewrite E1. split; [exact E|]. cbn in *.
    split_and!; try done; by rewrite Hp2.
Qed.

(** A wrong path: branches predicted, entered and squashed, the youngest first *)
Definition wrongPath (tid : ThreadID) (xs : list ScIn) : list ScOp :=
  map (ScSpeculate tid) xs ++ replicate (length xs) ScSquash.

Lemma sc_run_app ops1 ops2 r r1 :
  sc_run z p ops1 r = Ok r1 -> sc_run z p (ops1 ++ ops2) r = sc_run z p ops2 r1.
Proof.
  revert r. induction ops1 as [|op ops1 IH]; intros r; cbn [sc_run app]; [by intros [= ->]|].
  destruct (sc_step z p op r); [|done]. cbn. apply IH.
Qed.

(** Squashing a wrong path gives the corrector back, except for the path
    history: all tables, counters and histories are as before, but [pHist] keeps
    the path history TAGE had after the youngest wrong-path branch.  The next
    prediction on the right path is made with it. *)
Theorem sc_squash_restores r tid xs :
  sc_speculative p = true -> sc_reach z p s0 r -> Forall (fun x => 0 <= in_bits x <= 30) xs ->
  exists r2, sc_run z p (wrongPath tid xs) r = Ok r2 /\ same_sc (run_sc r) (run_sc r2) /\
    run_flights r2 = run_flights r /\ run_retired r2 = run_retired r /\
    pHist (scHistory (run_sc r2)) =
      default (pHist (scHistory (run_sc r))) (sb_phist ∘ in_branch <$> list.last xs).
Proof.
  intros Hs Hr Hb. pose proof (sc_reach_ok z p Hcfg s0 r Hmk Hr) as Hok.
  destruct (speculate_all tid xs r Hok Hb) as (r1 & fs & h1 & E1 & Hok1 & Ef1 & El & Er1 & Es1 & Hp1).
  destruct (squash_all fs r1 (run_flights r) Hok1 Ef1) as (r2 & h & E2 & Hok2 & Ef2 & Er2 & Es2 & Hp2).
  exists r2. unfold wrongPath. rewrite (sc_run_app _ _ _ _ E1), <- El, E2. split; [done|].
  split_and!; [|done|congruence|].
  - exists h. split; [rewrite Es2, Es1; by destruct (run_sc r)|].
    destruct Hok as [_ H1 _], Hok2 as [_ H2 _]. unfold retained in *.
    rewrite Ef2, Er2, Er1 in H2. rewrite Hs in *. rewrite Es2 in H2. cbn in H2.
    etransitivity; [symmetry; exact H1|exact H2].
  - rewrite Es2. cbn. rewrite Hp2, Es1. cbn. by apply Hp1.
Qed.
End Theorems.

(** ** The configurations *)

Definition gehl_cfgb (p : ScParams) (g : GehlParams) : bool :=
  (1 <=? g_nb g) && (g_nb g <=? 9) && (Z.of_nat (length (g_lengths g)) =? g_nb g) &&
  forallb (fun l => (0 <=? l) && (l <=? 30)) (g_lengths g) && (1 <=? g_log g) && (g_log g <=? 30) &&
  (- 2 ^ (extraWeightsWidth p - 1) <=? g_weight g) && (g_weight g <? 2 ^ (extraWeightsWidth p - 1)).

Lemma gehl_cfgb_ok p g : gehl_cfgb p g = true -> gehl_cfg p g.
Proof.
  unfold gehl_cfgb. rewrite !andb_true_iff.
  intros [[[[[[[H1%Z.leb_le H2%Z.leb_le] H3%Z.eqb_eq] H4] H5%Z.leb_le] H6%Z.leb_le] H7%Z.leb_le] H8%Z.ltb_lt].
  constructor; try done. intros len Hl%list_elem_of_In. rewrite List.forallb_forall in H4.
  specialize (H4 len Hl). apply andb_true_iff in H4 as [?%Z.leb_le ?%Z.leb_le]. done.
Qed.

(** The 8 KB configuration satisfies the conditions for every alignment. *)
Lemma sc8_cfg k sp : sc_cfg KB8 (SC_8KB_params k sp).
Proof.
  constructor; try (vm_compute; split; congruence); try (apply gehl_cfgb_ok; reflexivity).
  constructor; [exists 8; split; [reflexivity|lia]|vm_compute; repeat split; congruence|done].
Qed.

(** The 64 KB configuration with a first backward history that an [int] can mask *)
Definition sc64Short (k : Z) : ScParams :=
  (SC_64KB_params k true) <| bwParams := mkGehlParams 3 10 [30; 24; 10] 7 |>.

Lemma sc64Short_cfg k : sc_cfg KB64 (sc64Short k).
Proof.
  constructor; try (vm_compute; split; congruence); try (apply gehl_cfgb_ok; reflexivity).
  - constructor; [exists 8; split; [reflexivity|lia]|vm_compute; repeat split; congruence|].
    vm_compute; repeat split; congruence.
  - split_and!; apply gehl_cfgb_ok; reflexivity.
Qed.

Definition dummySc : StatCorr :=
  let n := mkGehl [] [] in mkStatCorr Sc.makeThreadHistory n n n n n n n n [] [] [] [] 0 [] 0 0 [].
Definition demoSc8 : ScParams := SC_8KB_params 2 true.
Definition freshSc8 : StatCorr := okOr dummySc (scMake KB8 demoSc8).
Definition freshSc64 : StatCorr := okOr dummySc (scMake KB64 (sc64Short 2)).

Lemma freshSc8_ok : scMake KB8 demoSc8 = Ok freshSc8.
Proof. apply ok_of. vm_compute. reflexivity. Qed.
Lemma freshSc64_ok : scMake KB64 (sc64Short 2) = Ok freshSc64.
Proof. apply ok_of. vm_compute. reflexivity. Qed.

(** A loop branch, a forward branch, and their inputs *)
Definition demoScBranch (pc tgt : Addr) (taken : bool) (ph : Z) : ScBranch :=
  mkScBranch pc demoInst taken tgt ph.
Definition demoIn (b : ScBranch) : ScIn :=
  mkScIn b (false, false, false, true) true false true 2 3 5 0.

Definition demoScOps : list ScOp :=
  [ScSpeculate 0 (demoIn (demoScBranch 0x440 0x400 true 3));
   ScSpeculate 0 (demoIn (demoScBranch 0x448 0x500 false 6));
   ScSquash; ScCorrect false 0x444 5; ScCommit 0 false 0x444 5;
   ScSpeculate 0 (demoIn (demoScBranch 0x450 0x400 true 9));
   ScSpeculate 0 (demoIn (demoScBranch 0x440 0x400 true 11))].

(** A run that also checks the conditions *)
Fixpoint checkedSc (z : SclSize) (p : ScParams) (ops : list ScOp) (r : ScRun) : Res ScRun :=
  match ops with
  | [] => Ok r
  | op :: ops' =>
      if sc_enabled op r then r' ← sc_step z p op r; checkedSc z p ops' r' else Err AssertFail
  end.

Lemma checkedSc_reach z p s0 ops : forall r r',
  sc_reach z p s0 r -> checkedSc z p ops r = Ok r' -> sc_reach z p s0 r'.
Proof.
  induction ops as [|op ops IH]; intros r r' Hr E; cbn [checkedSc] in E; [by injection E as <-|].
  destruct (sc_enabled op r) eqn:Ee; [|done].
  apply res_bind_ok in E as (r1 & E1 & E2). eapply IH; [|exact E2]. by eapply sc_next.
Qed.

Definition sc8Run : ScRun := okOr (mkScRun freshSc8 [] []) (checkedSc KB8 demoSc8 demoScOps (mkScRun freshSc8 [] [])).
Definition sc64Run : ScRun :=
  okOr (mkScRun freshSc64 [] []) (checkedSc KB64 (sc64Short 2) demoScOps (mkScRun freshSc64 [] [])).

Lemma sc8Run_reach : sc_reach KB8 demoSc8 freshSc8 sc8Run.
Proof.
  apply (checkedSc_reach _ _ _ demoScOps (mkScRun freshSc8 [] [])); [apply sc_start|].
  unfold sc8Run. apply ok_of. vm_compute. reflexivity.
Qed.
Lemma sc64Run_reach : sc_reach KB64 (sc64Short 2) freshSc64 sc64Run.
Proof.
  apply (checkedSc_reach _ _ _ demoScOps (mkScRun freshSc64 [] [])); [apply sc_start|].
  unfold sc64Run. apply ok_of. vm_compute. reflexivity.
Qed.

Lemma sc_no_fault_witness :
  isOk (sc_step KB64 (sc64Short 2) (ScCommit 0 true 0x400 9) sc64Run) = true.
Proof.
  refine (sc_no_fault KB64 (sc64Short 2) (sc64Short_cfg 2) freshSc64 freshSc64_ok sc64Run _ sc64Run_reach _).
  vm_compute. reflexivity.
Defined.

Lemma sc_history_exact_witness :
  bwHist (scHistory (run_sc sc8Run)) = word [true; true; false] /\ word [true; true; false] = 3 /\
  imliCount (scHistory (run_sc sc8Run)) = 2.
Proof.
  destruct (sc_history_exact KB8 demoSc8 (sc8_cfg 2 true) freshSc8 freshSc8_ok sc8Run sc8Run_reach)
    as (Hb & Hi & _).
  split; [|split; [vm_compute; reflexivity|]].
  - refine (eq_trans Hb _). vm_compute. reflexivity.
  - refine (eq_trans Hi _). vm_compute. reflexivity.
Defined.

Lemma sc_predict_decides_witness :
  exists a s', @Sc.scPredict demoSc8 (scVirtual KB8 demoSc8) 0 0x440 true Sc.makeBranchInfo
      true false true 2 3 5 0 0 (run_sc sc8Run) = Ok (a, s') /\ s' = run_sc sc8Run.
Proof.
  pose proof (sc_predict_decides KB8 demoSc8 (sc8_cfg 2 true) freshSc8 freshSc8_ok sc8Run 0 0x440
    Sc.makeBranchInfo true false true 2 3 5 0 sc8Run_reach ltac:(lia)) as H.
  apply wp_inv in H as (a & s' & E & Hs & _). exists a, s'. split; [exact E|exact Hs].
Defined.

Lemma sc_squash_restores_witness :
  let xs := [demoIn (demoScBranch 0x600 0x500 true 21); demoIn (demoScBranch 0x604 0x900 false 43)] in
  pHist (scHistory (run_sc sc64Run)) = 11 /\
  exists r2, sc_run KB64 (sc64Short 2) (wrongPath 0 xs) sc64Run = Ok r2 /\
    same_sc (run_sc sc64Run) (run_sc r2) /\ pHist (scHistory (run_sc r2)) = 43.
Proof.
  intros xs. split; [vm_compute; reflexivity|].
  destruct (sc_squash_restores KB64 (sc64Short 2) (sc64Short_cfg 2) freshSc64 freshSc64_ok sc64Run 0 xs
    eq_refl sc64Run_reach ltac:(repeat constructor; cbn; lia)) as (r2 & E & Hs & _ & _ & Hp).
  exists r2. split; [exact E|]. split; [exact Hs|exact Hp].
Defined.

(** ** Outside the expectations of the code *)

(** The 64 KB configuration of [BranchPredictor.py] cannot predict: its first
    table of the backward history is indexed with 40 branches, and [gPredict]
    masks the history with [(1 << 40) - 1] in an [int], which is undefined.  No
    conditional branch can be predicted, in any state. *)
Theorem sc64_predict_undefined k sp tid pc bi prev b use cc cb hb ab s :
  g_lengths (bwParams (SC_64KB_params k sp)) = [40; 24; 10] /\
  isOk (@Sc.scPredict (SC_64KB_params k sp) (Sc64.Sc64_v (SC_64KB_params k sp)) tid pc true bi prev
          b use cc cb hb ab 0 s) = false.
Proof.
  split; [reflexivity|]. unfold Sc.scPredict. cbn [negb]. apply bind_fails_r. intros c s1.
  apply bind_fails_r. intros bi1 s2. apply bind_fails. cbn [v_gPredictions Sc64.Sc64_v].
  unfold Sc64.gPredictions. apply bind_fails. unfold Sc.addPredict. apply bind_fails. reflexivity.
Qed.

(** The 64 KB size trains other counters of the backward tables than it
    predicts with: [gPredictions] shifts the address by [instShiftAmt] before
    [gIndex] shifts it again, [gUpdates] does not.  For instructions of four
    bytes the two indices differ, here for every branch of the first kilobyte. *)
Theorem sc64_trains_other pc :
  In pc (map (fun k => 4 * k) (seqZ 2 254)) ->
  @Sc.tableIndex (sc64Short 2) Sc64.indexing unit (bwParams (sc64Short 2))
    (Z.shiftl (Z.shiftr pc 2) 1) 0 0 tt <>
  @Sc.tableIndex (sc64Short 2) Sc64.indexing unit (bwParams (sc64Short 2)) (Z.shiftl pc 1) 0 0 tt.
Proof.
  intros Hin E.
  set (ix := fun pc => match @Sc.tableIndex (sc64Short 2) Sc64.indexing unit (bwParams (sc64Short 2)) pc 0 0 tt
    with Ok (x, _) => x | Err _ => -1 end).
  assert (Hall : forallb (fun pc => negb (ix (Z.shiftl (Z.shiftr pc 2) 1) =? ix (Z.shiftl pc 1)))
    (map (fun k => 4 * k) (seqZ 2 254)) = true) by (vm_compute; reflexivity).
  rewrite List.forallb_forall in Hall. specialize (Hall pc Hin). unfold ix in Hall. rewrite E in Hall.
  rewrite Z.eqb_refl in Hall. done.
Qed.

(** The histories are shared by all threads, and each squash writes back what its
    own thread's branch recorded.  Branch [a] of one thread, then branch [b] of
    another; the first is squashed, then the second. *)
Definition interleaved (a b : ScBranch) : M StatCorr unit :=
  bia ← enterHistories KB8 demoSc8 true a Sc.makeBranchInfo;
  bib ← enterHistories KB8 demoSc8 true b Sc.makeBranchInfo;
  zoom scHistory (Sc8.scRestoreHistState demoSc8 bia) ;;
  zoom scHistory (Sc8.scRestoreHistState demoSc8 bib) ;;
  mret tt.

(** Both branches are squashed, and the wrong-path outcome of [a] stays in the
    global history. *)
Theorem sc_threads_interfere :
  exists s, interleaved (demoScBranch 0x440 0x400 true 3) (demoScBranch 0x800 0x900 false 5) freshSc8 =
      Ok (tt, s) /\
    globalHist (scHistory freshSc8) = 0 /\ globalHist (scHistory s) = 1.
Proof.
  set (m := interleaved _ _ freshSc8).
  assert (H : match m with Ok (_, s) => globalHist (scHistory s) | Err _ => -1 end = 1)
    by (vm_compute; reflexivity).
  destruct m as [[[] s]|]; [|done]. exists s. split; [done|]. split; [vm_compute; reflexivity|done].
Qed.
