(* ===== verification/LoopPred.v ===== *)
(** * The loop predictor

    [cpu/pred/loop_predictor.hh] and [loop_predictor.cc]: a set-associative table
    of loops with their trip counts.  An entry that has seen the same count often
    enough predicts the exit of the loop.  [calcConf] and [optionalAgeInc], which
    derived predictors override, are a class ([LoopVirtual]).

    [loopPredUsed] of a [BranchInfo] is not initialised by the constructor:
    [None] until it is assigned.  The values of [rng->random<int>()] are a sequence
    given to the model. *)

From Stdlib Require Import ZArith Lia.
From stdpp Require Import base list numbers.
From S2P Require Import Prelude Types CondPred TageHist Tage.

Record LoopParams := mkLoopParams {
  logSizeLoopPred : Z;
  withLoopBits : Z;
  loopTableAgeBits : Z;
  loopTableConfidenceBits : Z;
  loopTableTagBits : Z;
  loopTableIterBits : Z;
  logLoopTableAssoc : Z;
  useSpeculation : bool;
  useHashing : bool;
  useDirectionBit : bool;
  restrictAllocation : bool;
  initialLoopIter : Z;
  initialLoopAge : Z;
  optionalAgeReset : bool
}.

Record LoopEntry := mkLoopEntry {
  numIter : Z;
  currentIter : Z;
  currentIterSpec : Z;
  confidence : Z;
  le_tag : Z;
  age : Z;
  dir : bool
}.

#[export] Instance eta_LoopEntry : Settable LoopEntry := fun s =>
  mkLoopEntry (numIter s) (currentIter s) (currentIterSpec s) (confidence s) (le_tag s) (age s) (dir s).

(** [LoopPredictor::BranchInfo] *)
Record LoopInfo := mkLoopInfo {
  loopTag : Z;
  li_currentIter : Z;
  loopPred : bool;
  loopPredValid : bool;
  loopPredUsed : option bool;
  loopIndex : Z;
  loopIndexB : Z;
  loopHit : Z;
  predTaken : bool
}.

#[export] Instance eta_LoopInfo : Settable LoopInfo := fun s =>
  mkLoopInfo (loopTag s) (li_currentIter s) (loopPred s) (loopPredValid s) (loopPredUsed s)
    (loopIndex s) (loopIndexB s) (loopHit s) (predTaken s).

Inductive LoopStat := lp_used | lp_correct | lp_wrong.

Record LoopPredictor := mkLoopPredictor {
  ltable : list LoopEntry;
  loopUseCounter : Z;
  lp_rands : nat -> Z;
  lp_randPos : nat;
  lp_stats : list LoopStat
}.

#[export] Instance eta_LoopPredictor : Settable LoopPredictor := fun s =>
  mkLoopPredictor (ltable s) (loopUseCounter s) (lp_rands s) (lp_randPos s) (lp_stats s).

Class LoopVirtual := {
  v_calcConf : LoopEntry -> bool;
  v_optionalAgeInc : M LoopPredictor bool
}.

Module Loop.
Section Operations.
Context (p : LoopParams).

Definition confidenceThreshold : Z := u8 (2 ^ loopTableConfidenceBits p - 1).
Definition loopTagMask : Z := u16 (2 ^ loopTableTagBits p - 1).
Definition loopNumIterMask : Z := u16 (2 ^ loopTableIterBits p - 1).
Definition loopSetMask : Z := 2 ^ (logSizeLoopPred p - logLoopTableAssoc p) - 1.

(** The constructor and [init] *)
Definition make (rands : nat -> Z) : Res LoopPredictor :=
  TB.rassert (initialLoopAge p <=? 2 ^ loopTableAgeBits p - 1) ;;
  TB.rassert (loopTableTagBits p <=? 16) ;;
  TB.rassert (loopTableIterBits p <=? 16) ;;
  TB.rassert (logLoopTableAssoc p <=? logSizeLoopPred p) ;;
  Ok (mkLoopPredictor (replicate (Z.to_nat (2 ^ logSizeLoopPred p)) (mkLoopEntry 0 0 0 0 0 0 false))
        (-1) rands 0 []).

Definition makeBranchInfo : LoopInfo := mkLoopInfo 0 0 false false None 0 0 0 false.

Definition random : M LoopPredictor Z :=
  r ← gets (fun s => lp_rands s (lp_randPos s));
  modify (fun s => s <| lp_randPos ::= S |>) ;;
  mret r.

(** [ltable[idx]] *)
Definition entry (idx : Z) : M LoopPredictor LoopEntry :=
  o ← gets (fun s => vat (ltable s) idx); at_index o.
Definition setEntry (idx : Z) (f : LoopEntry -> LoopEntry) : M LoopPredictor unit :=
  entry idx ;; modify (fun s => s <| ltable ::= alter f (Z.to_nat idx) |>).

Definition lindex (pc_in : Addr) (instShiftAmt : Z) : Z :=
  let pc := Z.shiftr pc_in instShiftAmt in
  let pc := if useHashing p then Z.lxor pc pc_in else pc in
  Z.shiftl (Z.land pc loopSetMask) (logLoopTableAssoc p).

Definition finallindex {S} (index lowPcBits way : Z) : M S Z :=
  if useHashing p then
    w ← TB.shamt way;
    mret (Z.lxor index (Z.shiftl (Z.shiftr lowPcBits w) (logLoopTableAssoc p)) + way)
  else mret (index + way).

Definition calcConf (e : LoopEntry) : bool := confidence e =? confidenceThreshold.

Definition LoopPredictor_v : LoopVirtual := {|
  v_calcConf := calcConf;
  v_optionalAgeInc := mret false
|}.

Context {V : LoopVirtual}.

(** The search of [getLoop]: [n] ways are left *)
Fixpoint searchWays (n : nat) (i : Z) (speculative : bool) (bi : LoopInfo)
  : M LoopPredictor (bool * LoopInfo) :=
  match n with
  | O => mret (false, bi)
  | S n' =>
      idx ← finallindex (loopIndex bi) (loopIndexB bi) i;
      e ← entry idx;
      if le_tag e =? loopTag bi then
        let bi := bi <| loopHit := i |> <| loopPredValid := v_calcConf e |> in
        let iter := if speculative then currentIterSpec e else currentIter e in
        mret (if iter + 1 =? numIter e
              then (if useDirectionBit p then negb (dir e) else false)
              else (if useDirectionBit p then dir e else true), bi)
      else searchWays n' (i + 1) speculative bi
  end.

Definition getLoop (pc : Addr) (bi : LoopInfo) (speculative : bool) (instShiftAmt : Z)
  : M LoopPredictor (bool * LoopInfo) :=
  let bi := bi <| loopHit := -1 |> <| loopPredValid := false |>
               <| loopIndex := lindex pc instShiftAmt |> in
  let bi :=
    if useHashing p then
      let pcShift := logSizeLoopPred p - logLoopTableAssoc p in
      let tag := u16 (Z.lxor (Z.shiftr pc pcShift) (Z.shiftr pc (pcShift + loopTableTagBits p))) in
      bi <| loopIndexB := Z.land (Z.shiftr pc pcShift) loopSetMask |>
         <| loopTag := Z.land tag loopTagMask |>
    else
      let pcShift := instShiftAmt + logSizeLoopPred p - logLoopTableAssoc p in
      bi <| loopTag := Z.land (Z.shiftr pc pcShift) loopTagMask |> in
  searchWays (Z.to_nat (2 ^ logLoopTableAssoc p)) 0 speculative bi.

Definition specLoopUpdate (taken : bool) (bi : LoopInfo) : M LoopPredictor unit :=
  when (0 <=? loopHit bi)
    (index ← finallindex (loopIndex bi) (loopIndexB bi) (loopHit bi);
     e ← entry index;
     setEntry index (fun e => e <| currentIterSpec :=
       if negb (eqb taken (dir e)) then 0
       else Z.land (currentIterSpec e + 1) loopNumIterMask |>)).

Definition unsignedCtrUp (nbits ctr : Z) : Z := if ctr <? 2 ^ nbits - 1 then ctr + 1 else ctr.

Definition signedCtrUpdate (ctr : Z) (up : bool) (nbits : Z) : Z :=
  if up then (if ctr <? 2 ^ (nbits - 1) - 1 then ctr + 1 else ctr)
  else (if - 2 ^ (nbits - 1) <? ctr then ctr - 1 else ctr).

(** A hit in [loopUpdate], after the check of a confident prediction: the
    iteration count *)
Definition countIteration (e : LoopEntry) : LoopEntry :=
  let e := e <| currentIter := Z.land (currentIter e + 1) loopNumIterMask |> in
  if numIter e <? currentIter e then
    let e := e <| confidence := 0 |> in
    if negb (numIter e =? 0) then
      let e := e <| numIter := 0 |> in
      if optionalAgeReset p then e <| age := 0 |> else e
    else e
  else e.

(** The branch leaves the loop. *)
Definition exits (taken : bool) (e : LoopEntry) : bool :=
  negb (eqb taken (if useDirectionBit p then dir e else true)).

(** The end of the loop: the trip count and the confidence *)
Definition endOfLoop (taken : bool) (e : LoopEntry) : LoopEntry :=
  let e :=
    if currentIter e =? numIter e then
      let e := e <| confidence := unsignedCtrUp (loopTableConfidenceBits p) (confidence e) |> in
      if numIter e <? 3
      then e <| dir := taken |> <| numIter := 0 |> <| age := 0 |> <| confidence := 0 |>
      else e
    else if numIter e =? 0 then e <| confidence := 0 |> <| numIter := currentIter e |>
    else
      let e := e <| numIter := 0 |> in
      let e := if optionalAgeReset p then e <| age := 0 |> else e in
      e <| confidence := 0 |> in
  e <| currentIter := 0 |>.

(** The loop that looks for an entry to replace: [n] candidates are left *)
Fixpoint allocate (n : nat) (i nrand : Z) (taken : bool) (bi : LoopInfo) : M LoopPredictor unit :=
  match n with
  | O => mret tt
  | S n' =>
      let loop_hit := Z.land (nrand + i) (2 ^ logLoopTableAssoc p - 1) in
      idx ← finallindex (loopIndex bi) (loopIndexB bi) loop_hit;
      e ← entry idx;
      if age e =? 0 then
        setEntry idx (fun e => e <| dir := negb taken |> <| le_tag := loopTag bi |> <| numIter := 0 |>
          <| age := u8 (initialLoopAge p) |> <| confidence := 0 |>
          <| currentIter := u16 (initialLoopIter p) |>)
      else
        setEntry idx (fun e => e <| age ::= Z.pred |>) ;;
        if restrictAllocation p then mret tt else allocate n' (i + 1) nrand taken bi
  end.

Definition loopUpdate (pc : Addr) (taken : bool) (bi : LoopInfo) (tage_pred : bool)
  : M LoopPredictor unit :=
  idx ← finallindex (loopIndex bi) (loopIndexB bi) (loopHit bi);
  if 0 <=? loopHit bi then
    if loopPredValid bi && negb (eqb taken (loopPred bi)) then
      setEntry idx (fun e => e <| numIter := 0 |> <| age := 0 |> <| confidence := 0 |>
                               <| currentIter := 0 |>)
    else
    when (loopPredValid bi)
      (b ← (if negb (eqb (loopPred bi) tage_pred) then mret true else v_optionalAgeInc);
       when b (massert (loopTableAgeBits p <=? 8) ;;
               setEntry idx (fun e => e <| age ::= unsignedCtrUp (loopTableAgeBits p) |>))) ;;
    setEntry idx countIteration ;;
    e ← entry idx;
    when (exits taken e)
      (massert (negb (currentIter e =? numIter e) || (loopTableConfidenceBits p <=? 8)) ;;
       setEntry idx (endOfLoop taken))
  else if (if useDirectionBit p then negb (eqb (predTaken bi) taken) else taken) then
    r ← random;
    when ((Z.land r 3 =? 0) || negb (restrictAllocation p))
      (nrand ← random;
       allocate (Z.to_nat (2 ^ logLoopTableAssoc p)) 0 nrand taken bi)
  else mret tt.

Definition loopPredict (tid : ThreadID) (branch_pc : Addr) (cond_branch : bool) (bi : LoopInfo)
    (prev_pred_taken : bool) (instShiftAmt : Z) : M LoopPredictor (bool * LoopInfo) :=
  if negb cond_branch then mret (prev_pred_taken, bi) else
  r ← getLoop branch_pc bi (useSpeculation p) instShiftAmt;
  let bi := (snd r) <| loopPred := fst r |> in
  c ← gets loopUseCounter;
  let '(pred_taken, bi) :=
    if (0 <=? c) && loopPredValid bi then (loopPred bi, bi <| loopPredUsed := Some true |>)
    else (prev_pred_taken, bi) in
  when (useSpeculation p) (specLoopUpdate pred_taken bi) ;;
  mret (pred_taken, bi).

(** [squash] and [squashLoop] *)
Definition squashLoop (bi : LoopInfo) : M LoopPredictor unit :=
  when (0 <=? loopHit bi)
    (idx ← finallindex (loopIndex bi) (loopIndexB bi) (loopHit bi);
     setEntry idx (fun e => e <| currentIterSpec := li_currentIter bi |>)).

Definition squash (tid : ThreadID) (bi : LoopInfo) : M LoopPredictor unit :=
  when (0 <=? loopHit bi)
    (idx ← finallindex (loopIndex bi) (loopIndexB bi) (loopHit bi);
     setEntry idx (fun e => e <| currentIterSpec := li_currentIter bi |>)).

Definition updateStats (taken : bool) (bi : LoopInfo) : M LoopPredictor unit :=
  u ← assigned (loopPredUsed bi);
  when u (modify (fun s => s <| lp_stats ::= fun l =>
    l ++ [lp_used; if eqb taken (loopPred bi) then lp_correct else lp_wrong] |>)).

Definition condBranchUpdate (tid : ThreadID) (branch_pc : Addr) (taken tage_pred : bool)
    (bi : LoopInfo) (instShiftAmt : Z) : M LoopPredictor unit :=
  bi ← (if useSpeculation p then
          r ← getLoop branch_pc bi false instShiftAmt; mret ((snd r) <| loopPred := fst r |>)
        else mret bi);
  when (loopPredValid bi && negb (eqb (predTaken bi) (loopPred bi)))
    (modify (fun s => s <| loopUseCounter ::= fun c =>
       signedCtrUpdate c (eqb (loopPred bi) taken) (withLoopBits p) |>)) ;;
  loopUpdate branch_pc taken bi tage_pred.

Definition getSizeInBits : Z :=
  2 ^ logSizeLoopPred p *
    ((if useSpeculation p then 3 else 2) * loopTableIterBits p + loopTableConfidenceBits p +
     loopTableTagBits p + loopTableAgeBits p + (if useDirectionBit p then 1 else 0)).
End Operations.
End Loop.

(** The configuration of [LoopPredictor] in [BranchPredictor.py] *)
Definition LoopPredictor_params : LoopParams :=
  mkLoopParams 8 7 8 2 14 14 2 false false false false 1 255 true.
