(* ===== verification/LoopSpec.v ===== *)
(** * Properties of the loop predictor

    What one execution of a branch does to its entry, the states of an entry
    while it learns a loop ([learning]) and when it knows it ([trained]), and the
    theorem that a loop with a constant trip count is predicted exactly. *)

From Stdlib Require Import ZArith Lia.
From stdpp Require Import base list numbers.
From S2P Require Import Prelude Types CondPred TageHist Tage TageInv TageBaseOk LoopPred.

Record loop_cfg (p : LoopParams) : Prop := {
  lc_assoc : 0 <= logLoopTableAssoc p <= 5;
  lc_size : logLoopTableAssoc p <= logSizeLoopPred p <= 30;
  lc_conf : 1 <= loopTableConfidenceBits p <= 8;
  lc_age : 1 <= loopTableAgeBits p <= 8;
  lc_iter : 1 <= loopTableIterBits p <= 16
}.

(** A branch is predicted and then committed, before the next one: the result is
    whether the loop predictor was confident, and its prediction. *)
Definition loopExec (p : LoopParams) {V : LoopVirtual} (pc : Addr) (shift : Z) (taken tage_pred : bool)
  : M LoopPredictor (bool * bool) :=
  r ← Loop.loopPredict p 0 pc true Loop.makeBranchInfo tage_pred shift;
  let bi := (snd r) <| predTaken := fst r |> in
  Loop.condBranchUpdate p 0 pc taken tage_pred bi shift ;;
  mret (loopPredValid bi, loopPred bi).

(** A sequence of executions, each with its outcome and the prediction of TAGE *)
Fixpoint loopRun (p : LoopParams) {V : LoopVirtual} (pc : Addr) (shift : Z) (l : list (bool * bool))
  : M LoopPredictor (list (bool * bool)) :=
  match l with
  | [] => mret []
  | (taken, tage_pred) :: l' =>
      r ← loopExec p pc shift taken tage_pred; rs ← loopRun p pc shift l'; mret (r :: rs)
  end.

(** One execution of a loop of [n] iterations: the last one leaves it. *)
Definition loopTrip (d : bool) (n : nat) : list bool := replicate (n - 1) d ++ [negb d].

Section Entry.
Context (p : LoopParams) (Hcfg : loop_cfg p) (Hspec : useSpeculation p = false).
#[local] Instance V : LoopVirtual := Loop.LoopPredictor_v p.

(** The branch as [getLoop] sets it up *)
Definition setup (pc : Addr) (shift : Z) : LoopInfo :=
  let bi := Loop.makeBranchInfo <| loopHit := -1 |> <| loopPredValid := false |>
               <| loopIndex := Loop.lindex p pc shift |> in
  if useHashing p then
    let pcShift := logSizeLoopPred p - logLoopTableAssoc p in
    let tag := u16 (Z.lxor (Z.shiftr pc pcShift) (Z.shiftr pc (pcShift + loopTableTagBits p))) in
    bi <| loopIndexB := Z.land (Z.shiftr pc pcShift) (Loop.loopSetMask p) |>
       <| loopTag := Z.land tag (Loop.loopTagMask p) |>
  else
    let pcShift := shift + logSizeLoopPred p - logLoopTableAssoc p in
    bi <| loopTag := Z.land (Z.shiftr pc pcShift) (Loop.loopTagMask p) |>.

(** The position of a way of the branch's set *)
Definition position (bi : LoopInfo) (way : Z) : Z :=
  (if useHashing p
   then Z.lxor (loopIndex bi) (Z.shiftl (Z.shiftr (loopIndexB bi) way) (logLoopTableAssoc p))
   else loopIndex bi) + way.

Lemma wp_finallindex {S} bi way (s : S) Q :
  0 <= way < 32 -> Q (position bi way) s ->
  wp (Loop.finallindex p (loopIndex bi) (loopIndexB bi) way) Q s.
Proof.
  intros Hw HQ. unfold Loop.finallindex, position in *. destruct (useHashing p); [|by apply wp_ret].
  wp_steps. apply wp_shamt; [lia|]. by wp_steps.
Qed.

(** Way [w] is the first whose tag is that of the branch, [e] is its entry. *)
Record located (pc : Addr) (shift : Z) (w : Z) (e : LoopEntry) (s : LoopPredictor) : Prop := {
  lo_way : 0 <= w < 2 ^ logLoopTableAssoc p;
  lo_entry : vat (ltable s) (position (setup pc shift) w) = Some e;
  lo_tag : le_tag e = loopTag (setup pc shift);
  lo_before : forall w', 0 <= w' < w -> exists e',
    vat (ltable s) (position (setup pc shift) w') = Some e' /\ le_tag e' <> loopTag (setup pc shift)
}.

(** The prediction of an entry *)
Definition predOf (e : LoopEntry) : bool :=
  if currentIter e + 1 =? numIter e then (if useDirectionBit p then negb (dir e) else false)
  else (if useDirectionBit p then dir e else true).

Lemma assoc_small : 2 ^ logLoopTableAssoc p <= 32.
Proof.
  change 32 with (2 ^ 5). apply Z.pow_le_mono_r; [lia|]. pose proof (lc_assoc _ Hcfg). lia.
Qed.

Lemma wp_entry idx e s (Q : LoopEntry -> LoopPredictor -> Prop) :
  vat (ltable s) idx = Some e -> Q e s -> wp (Loop.entry idx) Q s.
Proof. intros He HQ. unfold Loop.entry. wp_steps. by eapply wp_at_index. Qed.

Lemma wp_setLoop idx e f s (Q : unit -> LoopPredictor -> Prop) :
  vat (ltable s) idx = Some e -> Q tt (s <| ltable ::= alter f (Z.to_nat idx) |>) ->
  wp (Loop.setEntry idx f) Q s.
Proof.
  intros He HQ. unfold Loop.setEntry. wp_steps. eapply wp_entry; [exact He|]. by wp_steps.
Qed.

Lemma wp_searchWays pc shift w e s (Q : bool * LoopInfo -> LoopPredictor -> Prop) :
  located pc shift w e s ->
  Q (predOf e, (setup pc shift) <| loopHit := w |> <| loopPredValid := Loop.calcConf p e |>) s ->
  forall n i, 0 <= i <= w -> Z.of_nat n = 2 ^ logLoopTableAssoc p - i ->
    wp (Loop.searchWays p n i false (setup pc shift)) Q s.
Proof.
  intros [Hw He Ht Hb] HQ. pose proof assoc_small. induction n as [|n IH]; intros i Hi Hn; [lia|].
  cbn [Loop.searchWays]. wp_step. apply wp_finallindex; [lia|]. wp_step.
  destruct (Z.eq_dec i w) as [->|].
  - eapply wp_entry; [exact He|]. rewrite Ht, Z.eqb_refl. apply wp_ret. exact HQ.
  - destruct (Hb i) as (e' & He' & Hne); [lia|]. eapply wp_entry; [exact He'|].
    destruct (Z.eqb_spec (le_tag e') (loopTag (setup pc shift))); [done|]. apply IH; lia.
Qed.

(** What the commit of a branch does to the entry it hit *)
Definition entryAfter (taken : bool) (e : LoopEntry) : LoopEntry :=
  if Loop.calcConf p e && negb (eqb taken (predOf e))
  then e <| numIter := 0 |> <| age := 0 |> <| confidence := 0 |> <| currentIter := 0 |>
  else
    let e := Loop.countIteration p e in
    if Loop.exits p taken e then Loop.endOfLoop p taken e else e.

Lemma countIteration_tag e : le_tag (Loop.countIteration p e) = le_tag e.
Proof. unfold Loop.countIteration. by repeat case_match. Qed.

Lemma endOfLoop_tag taken e : le_tag (Loop.endOfLoop p taken e) = le_tag e.
Proof. unfold Loop.endOfLoop. by repeat case_match. Qed.

Lemma entryAfter_tag taken e : le_tag (entryAfter taken e) = le_tag e.
Proof.
  unfold entryAfter. repeat case_match; try done;
    by rewrite ?endOfLoop_tag, ?countIteration_tag.
Qed.

(** An entry is rewritten, its tag stays: the branch still finds it. *)
Lemma located_alter pc shift w e f s s' :
  located pc shift w e s -> le_tag (f e) = le_tag e ->
  ltable s' = alter f (Z.to_nat (position (setup pc shift) w)) (ltable s) ->
  located pc shift w (f e) s'.
Proof.
  intros [Hw He Ht Hb] Hf Es. pose proof (vat_some _ _ _ He) as Hp. constructor; [done| |congruence|].
  - rewrite Es, vat_nat in * by lia. by rewrite list_lookup_alter_eq, He.
  - intros w' Hw'. destruct (Hb w' Hw') as (e' & He' & Hne). pose proof (vat_some _ _ _ He') as Hp'.
    rewrite Es. rewrite vat_nat in He' by lia. rewrite vat_nat by lia.
    destruct (decide (position (setup pc shift) w' = position (setup pc shift) w)) as [E|].
    + rewrite E in He'. rewrite vat_nat in He by lia. rewrite He in He'. by injection He' as <-.
    + exists e'. rewrite list_lookup_alter_ne by lia. done.
Qed.

Lemma wp_hitUpdate pc shift w e taken tp bi s (Q : unit -> LoopPredictor -> Prop) :
  located pc shift w e s -> loopIndex bi = loopIndex (setup pc shift) ->
  loopIndexB bi = loopIndexB (setup pc shift) -> loopHit bi = w ->
  loopPredValid bi = Loop.calcConf p e -> loopPred bi = predOf e ->
  (forall a s', located pc shift w (entryAfter taken (e <| age := a |>)) s' -> Q tt s') ->
  wp (Loop.loopUpdate p pc taken bi tp) Q s.
Proof.
  intros Hl Ei Eb Eh Ev Ep HQ. pose proof assoc_small. pose proof Hl as [Hw He _ _].
  unfold Loop.loopUpdate. wp_step. rewrite Eh. rewrite Ei, Eb. apply wp_finallindex; [lia|].
  destruct (Z.leb_spec 0 w); [|lia]. rewrite Ev, Ep.
  assert (Eage : e = e <| age := age e |>) by (by destruct e).
  destruct (Loop.calcConf p e && negb (eqb taken (predOf e))) eqn:Ef.
  - eapply wp_setLoop; [exact He|]. apply (HQ (age e)). rewrite <- Eage. unfold entryAfter.
    rewrite Ef. eapply (located_alter _ _ _ _ (fun e => e <| numIter := 0 |> <| age := 0 |>
      <| confidence := 0 |> <| currentIter := 0 |>)); [exact Hl|done|done].
  - wp_step. apply (wp_mono _ (fun _ s' => exists a, located pc shift w (e <| age := a |>) s')).
    + apply wp_when; intros _; [|by exists (age e); rewrite <- Eage].
      wp_step. apply (wp_mono _ (fun _ s' => s' = s)); [case_match; reflexivity|].
      intros b s' ->. apply wp_when; intros _; [|by exists (age e); rewrite <- Eage].
      wp_step. apply wp_massert; [apply Z.leb_le; apply Hcfg|]. eapply wp_setLoop; [exact He|].
      eexists. eapply (located_alter _ _ _ _ (fun e => e <| age ::= _ |>)); [exact Hl|done|done].
    + intros _ s1 (a & Hl1). pose proof (lo_entry _ _ _ _ _ Hl1) as He1. wp_step.
      eapply wp_setLoop; [exact He1|]. wp_step.
      set (s2 := s1 <| ltable ::= _ |>).
      assert (Hl2 : located pc shift w (Loop.countIteration p (e <| age := a |>)) s2).
      { eapply located_alter; [exact Hl1|apply countIteration_tag|done]. }
      eapply wp_entry; [apply Hl2|].
      assert (Hafter : entryAfter taken (e <| age := a |>) =
        if Loop.exits p taken (Loop.countIteration p (e <| age := a |>))
        then Loop.endOfLoop p taken (Loop.countIteration p (e <| age := a |>))
        else Loop.countIteration p (e <| age := a |>)).
      { unfold entryAfter. replace (Loop.calcConf p _ && _) with false by (by rewrite <- Ef). done. }
      apply wp_when; intros Ex; rewrite Ex in Hafter.
      * wp_step. apply wp_massert.
        { apply orb_true_iff. right. apply Z.leb_le, Hcfg. }
        eapply wp_setLoop; [apply Hl2|]. apply (HQ a). rewrite Hafter.
        eapply located_alter; [exact Hl2|apply endOfLoop_tag|done].
      * apply (HQ a). by rewrite Hafter.
Qed.

Lemma located_useCounter pc shift w e s f :
  located pc shift w e s -> located pc shift w e (s <| loopUseCounter ::= f |>).
Proof. intros []. by constructor. Qed.

(** One execution of the branch: its entry answers, and then moves on. *)
Lemma wp_loopExec pc shift w e taken tp s (Q : bool * bool -> LoopPredictor -> Prop) :
  located pc shift w e s ->
  (forall a s', located pc shift w (entryAfter taken (e <| age := a |>)) s' ->
     Q (Loop.calcConf p e, predOf e) s') ->
  wp (loopExec p pc shift taken tp) Q s.
Proof.
  intros Hl HQ. pose proof (lo_way _ _ _ _ _ Hl) as Hw. unfold loopExec, Loop.loopPredict. cbn [negb]. wp_step. wp_step. rewrite Hspec.
  unfold Loop.getLoop. fold (setup pc shift).
  eapply wp_searchWays; [exact Hl| |lia|].
  2: { pose proof (Z.pow_pos_nonneg 2 (logLoopTableAssoc p)). destruct (lc_assoc _ Hcfg). lia. }
  wp_step. wp_step. cbn [fst snd when].
  set (bi := (setup pc shift) <| loopHit := w |> <| loopPredValid := _ |> <| loopPred := _ |>).
  assert (Hend : forall c b, wp (Loop.condBranchUpdate p 0 pc taken tp
    (bi <| loopPredUsed := c |> <| predTaken := b |>) shift ;; mret (loopPredValid bi, loopPred bi)) Q s).
  { intros c b. wp_step. unfold Loop.condBranchUpdate. rewrite Hspec. wp_step. apply wp_ret. wp_step.
    apply (wp_mono _ (fun _ s' => located pc shift w e s')).
    - apply wp_when; intros _; [wp_step; by apply located_useCounter|done].
    - intros _ s1 Hl1. eapply wp_hitUpdate; [exact Hl1|unfold bi, setup; by case_match..|done|done|done|].
      intros a s2 Hl2. wp_step. by apply (HQ a). }
  destruct (_ && _); wp_step; apply wp_ret; wp_step; [exact (Hend (Some true) (loopPred bi))|].
  specialize (Hend None tp).
  assert (Hnone : bi <| loopPredUsed := None |> = bi) by (unfold bi, setup; by case_match).
  rewrite Hnone in Hend. exact Hend.
Qed.

(** ** Learning a loop *)

(** The direction of the loop's body *)
Definition bodyDir (e : LoopEntry) : bool := if useDirectionBit p then dir e else true.

(** An entry in the middle of the first trip it sees, after [j] iterations *)
Record learning (d : bool) (j : Z) (e : LoopEntry) : Prop := {
  ln_num : numIter e = 0;
  ln_cur : currentIter e = j;
  ln_conf : confidence e = 0;
  ln_dir : bodyDir e = d
}.

(** An entry that knows the trip count [n], after [j] iterations of a trip *)
Record trained (d : bool) (n j c : Z) (e : LoopEntry) : Prop := {
  tn_num : numIter e = n;
  tn_cur : currentIter e = j;
  tn_conf : confidence e = c;
  tn_dir : bodyDir e = d
}.

Lemma threshold_eq : Loop.confidenceThreshold p = 2 ^ loopTableConfidenceBits p - 1.
Proof.
  destruct (lc_conf _ Hcfg). apply Z.mod_small. split.
  - pose proof (Z.pow_pos_nonneg 2 (loopTableConfidenceBits p)). lia.
  - pose proof (Z.pow_le_mono_r 2 (loopTableConfidenceBits p) 8). lia.
Qed.

Lemma threshold_pos : 0 < Loop.confidenceThreshold p.
Proof.
  rewrite threshold_eq. destruct (lc_conf _ Hcfg).
  pose proof (Z.pow_le_mono_r 2 1 (loopTableConfidenceBits p)). lia.
Qed.

(** The iteration counter does not wrap within a trip. *)
Lemma count_mask j : 0 <= j < 2 ^ loopTableIterBits p -> Z.land j (Loop.loopNumIterMask p) = j.
Proof.
  intros Hj. destruct (lc_iter _ Hcfg). unfold Loop.loopNumIterMask.
  pose proof (Z.pow_le_mono_r 2 (loopTableIterBits p) 16).
  unfold u16. rewrite Z.mod_small by lia.
  replace (2 ^ loopTableIterBits p - 1) with (Z.ones (loopTableIterBits p))
    by (rewrite Z.ones_equiv; lia).
  rewrite Z.land_ones by lia. by apply Z.mod_small.
Qed.

Lemma exits_dir taken e : Loop.exits p taken e = negb (eqb taken (bodyDir e)).
Proof. done. Qed.

Lemma learning_body d j e :
  learning d j e -> 0 <= j -> j + 1 < 2 ^ loopTableIterBits p -> learning d (j + 1) (entryAfter d e).
Proof.
  intros [Hn Hc Hf Hd] Hj Hb. pose proof threshold_pos as Ht. unfold entryAfter.
  replace (Loop.calcConf p e) with false
    by (unfold Loop.calcConf; rewrite Hf; symmetry; apply Z.eqb_neq; lia).
  cbn [andb]. rewrite exits_dir.
  assert (Ee : Loop.countIteration p e = e <| currentIter := j + 1 |> <| confidence := 0 |>).
  { unfold Loop.countIteration. cbn. rewrite Hc, Hn, count_mask by lia.
    destruct (Z.ltb_spec 0 (j + 1)); [|lia]. cbn. by destruct e. }
  rewrite Ee. change (bodyDir (e <| currentIter := j + 1 |> <| confidence := 0 |>)) with (bodyDir e).
  rewrite Hd, eqb_reflx. by constructor.
Qed.

Lemma learning_exit d n e :
  learning d (n - 1) e -> 1 <= n < 2 ^ loopTableIterBits p ->
  trained d n 0 0 (entryAfter (negb d) e).
Proof.
  intros [Hn Hc Hf Hd] Hb. pose proof threshold_pos as Ht. unfold entryAfter.
  replace (Loop.calcConf p e) with false
    by (unfold Loop.calcConf; rewrite Hf; symmetry; apply Z.eqb_neq; lia).
  cbn [andb]. rewrite exits_dir.
  assert (Ee : Loop.countIteration p e = e <| currentIter := n |> <| confidence := 0 |>).
  { unfold Loop.countIteration. cbn. rewrite Hc, Hn, count_mask by lia.
    replace (n - 1 + 1) with n by lia. destruct (Z.ltb_spec 0 n); [|lia]. cbn. by destruct e. }
  rewrite Ee. change (bodyDir (e <| currentIter := n |> <| confidence := 0 |>)) with (bodyDir e).
  rewrite Hd. replace (negb (eqb (negb d) d)) with true by (by destruct d).
  unfold Loop.endOfLoop. cbn. rewrite Hn. destruct (Z.eqb_spec n 0); [lia|]. cbn. by constructor.
Qed.

(** A trained entry predicts the body and the exit. *)
Lemma trained_pred d n j c e :
  trained d n j c e -> predOf e = if j + 1 =? n then negb d else d.
Proof.
  intros [Hn Hc _ Hd]. unfold predOf, bodyDir in *. rewrite Hc, Hn. destruct (j + 1 =? n);
    destruct (useDirectionBit p); by rewrite <- Hd.
Qed.

Lemma trained_body d n j c e :
  trained d n j c e -> 0 <= j -> j + 1 < n -> n < 2 ^ loopTableIterBits p ->
  trained d n (j + 1) c (entryAfter d e).
Proof.
  intros Ht Hj Hb Hn. pose proof (trained_pred _ _ _ _ _ Ht) as Hp.
  destruct (Z.eqb_spec (j + 1) n); [lia|]. destruct Ht as [En Ec Ef Ed]. unfold entryAfter.
  rewrite Hp, eqb_reflx, andb_false_r, exits_dir.
  assert (Ee : Loop.countIteration p e = e <| currentIter := j + 1 |>).
  { unfold Loop.countIteration. cbn. rewrite Ec, En, count_mask by lia.
    destruct (Z.ltb_spec n (j + 1)); [lia|]. by destruct e. }
  rewrite Ee. change (bodyDir (e <| currentIter := j + 1 |>)) with (bodyDir e).
  rewrite Ed, eqb_reflx. by constructor.
Qed.

Lemma trained_exit d n c e :
  trained d n (n - 1) c e -> 3 <= n < 2 ^ loopTableIterBits p ->
  trained d n 0 (Loop.unsignedCtrUp (loopTableConfidenceBits p) c) (entryAfter (negb d) e).
Proof.
  intros Ht Hn. pose proof (trained_pred _ _ _ _ _ Ht) as Hp.
  replace (n - 1 + 1) with n in Hp by lia. rewrite Z.eqb_refl in Hp.
  destruct Ht as [En Ec Ef Ed]. unfold entryAfter.
  rewrite Hp, eqb_reflx, andb_false_r, exits_dir.
  assert (Ee : Loop.countIteration p e = e <| currentIter := n |>).
  { unfold Loop.countIteration. cbn. rewrite Ec, En. replace (n - 1 + 1) with n by lia.
    rewrite count_mask by lia. destruct (Z.ltb_spec n n); [lia|]. by destruct e. }
  rewrite Ee. change (bodyDir (e <| currentIter := n |>)) with (bodyDir e).
  rewrite Ed. replace (negb (eqb (negb d) d)) with true by (by destruct d).
  unfold Loop.endOfLoop. cbn. rewrite En, Z.eqb_refl. destruct (Z.ltb_spec n 3); [lia|]. cbn.
  rewrite Ef. by constructor.
Qed.

(** Both kinds of entry do not depend on the age. *)
Lemma learning_age d j e a : learning d j e -> learning d j (e <| age := a |>).
Proof. intros []. by constructor. Qed.
Lemma trained_age d n j c e a : trained d n j c e -> trained d n j c (e <| age := a |>).
Proof. intros []. by constructor. Qed.

(** ** Trips *)

Lemma wp_loopRun_app pc shift l1 l2 s (Q : list (bool * bool) -> LoopPredictor -> Prop) :
  wp (loopRun p pc shift l1) (fun r1 s' =>
    wp (loopRun p pc shift l2) (fun r2 s'' => Q (r1 ++ r2) s'') s') s ->
  wp (loopRun p pc shift (l1 ++ l2)) Q s.
Proof.
  revert s Q. induction l1 as [|[taken tp] l1 IH]; intros s Q H; cbn [loopRun app] in *; [exact H|].
  wp_step. apply wp_bind_inv in H. eapply wp_mono; [exact H|]. intros r s1 H1. cbn beta in H1.
  apply wp_bind_inv in H1. wp_step. apply IH. eapply wp_mono; [exact H1|]. intros r1 s2 H2.
  eapply wp_mono; [exact H2|]. intros r2 s3 H3. exact H3.
Qed.

Lemma map_fst_replicate {A B} (l : list (A * B)) n x :
  map fst l = replicate n x -> length l = n /\ forall t, t ∈ l -> fst t = x.
Proof.
  revert n. induction l as [|[a b] l IH]; intros [|n] E; try done; cbn in *.
  - split; [done|]. intros t Ht. by apply not_elem_of_nil in Ht.
  - injection E as -> E. destruct (IH n E) as [<- H]. split; [done|].
    intros t [->|Ht]%elem_of_cons; [done|by apply H].
Qed.

(** The body of a trip: [m] iterations *)
Lemma wp_bodies (P : Z -> LoopEntry -> Prop) (r : bool * bool) d pc shift w m : forall j e l s
    (Q : list (bool * bool) -> LoopPredictor -> Prop),
  located pc shift w e s -> P j e -> map fst l = replicate m d ->
  (forall j' e' a, j <= j' < j + Z.of_nat m -> P j' e' ->
     P (j' + 1) (entryAfter d (e' <| age := a |>)) /\ (Loop.calcConf p e', predOf e') = r) ->
  (forall e' s', located pc shift w e' s' -> P (j + Z.of_nat m) e' -> Q (replicate m r) s') ->
  wp (loopRun p pc shift l) Q s.
Proof.
  induction m as [|m IH]; intros j e l s Q Hl HP El Hstep HQ.
  - destruct l; [|done]. apply wp_ret. eapply HQ; [exact Hl|]. by rewrite Z.add_0_r.
  - destruct l as [|[taken tp] l]; [done|]. cbn in El. injection El as -> El. cbn [loopRun].
    wp_step. eapply wp_loopExec; [exact Hl|]. intros a s1 Hl1.
    destruct (Hstep j e a) as [HP1 ->]; [lia|done|]. wp_step.
    eapply (IH (j + 1)); [exact Hl1|exact HP1|exact El| |].
    + intros j' e' a' Hj. apply Hstep. lia.
    + intros e' s' Hl' HP'. wp_step. eapply HQ; [exact Hl'|].
      by replace (j + Z.of_nat (S m)) with (j + 1 + Z.of_nat m) by lia.
Qed.

Lemma trip_split {B} (l : list (bool * B)) d n rest :
  map fst l = loopTrip d n ++ rest ->
  exists l1 t l2, l = l1 ++ t :: l2 /\ map fst l1 = replicate (n - 1) d /\ fst t = negb d /\
    map fst l2 = rest.
Proof.
  unfold loopTrip. rewrite <- app_assoc. intros (l1 & l' & -> & E1 & E)%map_eq_app.
  destruct l' as [|t l2]; [done|]. cbn in E. injection E as E2 E3. by exists l1, t, l2.
Qed.

Lemma wp_first_trip d n j pc shift w e l s (Q : list (bool * bool) -> LoopPredictor -> Prop) :
  located pc shift w e s -> learning d j e -> map fst l = loopTrip d (Z.to_nat (n - j)) ->
  3 <= n < 2 ^ loopTableIterBits p -> 0 <= j < n ->
  (forall rs e' s', located pc shift w e' s' -> trained d n 0 0 e' -> Q rs s') ->
  wp (loopRun p pc shift l) Q s.
Proof.
  intros Hl Hle El Hn Hjn HQ. rewrite <- (app_nil_r (loopTrip _ _)) in El.
  apply trip_split in El as (l1 & [x tp] & l2 & -> & E1 & E2 & E3). cbn in E2. subst x.
  destruct l2; [|done]. apply wp_loopRun_app.
  assert (Hpred : forall j e, learning d j e -> 0 <= j ->
    (Loop.calcConf p e, predOf e) = (false, d)).
  { intros j' e' [Hn' Hc Hf Hd] Hj. pose proof threshold_pos. f_equal.
    - unfold Loop.calcConf. rewrite Hf. apply Z.eqb_neq. lia.
    - unfold predOf, bodyDir in *. rewrite Hn', Hc.
      destruct (Z.eqb_spec (j' + 1) 0); [lia|]. by destruct (useDirectionBit p). }
  eapply (wp_bodies (fun j e => learning d j e /\ 0 <= j) (false, d)); [exact Hl|split; [exact Hle|lia]|exact E1| |].
  - intros j' e' a Hj [Hle' H0]. split; [|by eapply Hpred]. split; [|lia].
    apply learning_body; [by apply learning_age|lia|lia].
  - intros e1 s1 Hl1 [Hle1 _]. cbn [loopRun]. wp_step.
    eapply wp_loopExec; [exact Hl1|]. intros a s2 Hl2. wp_steps.
    eapply HQ; [exact Hl2|]. apply learning_exit; [|lia]. apply learning_age.
    by replace (n - 1) with (j + Z.of_nat (Z.to_nat (n - j) - 1)) by lia.
Qed.

(** A further trip raises the confidence; its predictions are right. *)
Lemma wp_next_trip d n c pc shift w e l s (Q : list (bool * bool) -> LoopPredictor -> Prop) :
  located pc shift w e s -> trained d n 0 c e -> map fst l = loopTrip d (Z.to_nat n) ->
  3 <= n < 2 ^ loopTableIterBits p ->
  (forall e' s', located pc shift w e' s' ->
     trained d n 0 (Loop.unsignedCtrUp (loopTableConfidenceBits p) c) e' ->
     Q (map (fun t => (c =? Loop.confidenceThreshold p, fst t)) l) s') ->
  wp (loopRun p pc shift l) Q s.
Proof.
  intros Hl Htr El Hn HQ. rewrite <- (app_nil_r (loopTrip _ _)) in El.
  apply trip_split in El as (l1 & [x tp] & l2 & -> & E1 & E2 & E3). cbn in E2. subst x.
  destruct l2; [|done]. apply wp_loopRun_app.
  eapply (wp_bodies (fun j e => trained d n j c e /\ 0 <= j) (c =? Loop.confidenceThreshold p, d));
    [exact Hl|done|exact E1| |].
  - intros j e' a Hj [Ht H0]. split; [split; [|lia]|].
    + apply trained_body; [by apply trained_age|lia|lia|lia].
    + f_equal; [unfold Loop.calcConf; by rewrite (tn_conf _ _ _ _ _ Ht)|].
      rewrite (trained_pred _ _ _ _ _ Ht). destruct (Z.eqb_spec (j + 1) n); [lia|done].
  - intros e1 s1 Hl1 [Ht1 _]. replace (0 + Z.of_nat (Z.to_nat n - 1)) with (n - 1) in Ht1 by lia.
    cbn [loopRun]. wp_step. eapply wp_loopExec; [exact Hl1|]. intros a s2 Hl2.
    wp_steps.
    assert (Er : replicate (Z.to_nat n - 1) (c =? Loop.confidenceThreshold p, d) ++
      [(Loop.calcConf p e1, predOf e1)] =
      map (fun t => (c =? Loop.confidenceThreshold p, fst t)) (l1 ++ [(negb d, tp)])).
    { rewrite map_app. cbn. f_equal.
      - destruct (map_fst_replicate _ _ _ E1) as [<- Hall]. clear -Hall.
        induction l1 as [|t l1 IH]; cbn; [done|].
        rewrite (Hall t) by (apply elem_of_cons; by left). f_equal. apply IH.
        intros t' Ht'. apply Hall, elem_of_cons. by right.
      - unfold Loop.calcConf. rewrite (tn_conf _ _ _ _ _ Ht1), (trained_pred _ _ _ _ _ Ht1).
        replace (n - 1 + 1) with n by lia. by rewrite Z.eqb_refl. }
    rewrite Er. eapply HQ; [exact Hl2|]. apply trained_exit; [|lia]. by apply trained_age.
Qed.

Lemma ctr_up c : 0 <= c <= Loop.confidenceThreshold p ->
  Loop.unsignedCtrUp (loopTableConfidenceBits p) c = Z.min (c + 1) (Loop.confidenceThreshold p).
Proof.
  intros Hc. rewrite threshold_eq in *. unfold Loop.unsignedCtrUp.
  destruct (Z.ltb_spec c (2 ^ loopTableConfidenceBits p - 1)); lia.
Qed.

Lemma wp_trips d n pc shift w m : forall c e l s (Q : list (bool * bool) -> LoopPredictor -> Prop),
  located pc shift w e s -> trained d n 0 c e -> 0 <= c <= Loop.confidenceThreshold p ->
  map fst l = concat (replicate m (loopTrip d (Z.to_nat n))) -> 3 <= n < 2 ^ loopTableIterBits p ->
  (forall rs e' s', located pc shift w e' s' ->
     trained d n 0 (Z.min (c + Z.of_nat m) (Loop.confidenceThreshold p)) e' ->
     (c = Loop.confidenceThreshold p -> rs = map (fun t => (true, fst t)) l) -> Q rs s') ->
  wp (loopRun p pc shift l) Q s.
Proof.
  induction m as [|m IH]; intros c e l s Q Hl Ht Hc El Hn HQ.
  - destruct l; [|done]. apply wp_ret. eapply HQ; [exact Hl| |done].
    by replace (Z.min (c + Z.of_nat 0) (Loop.confidenceThreshold p)) with c by lia.
  - cbn [replicate concat] in El. apply map_eq_app in El as (l1 & l2 & -> & E1 & E2).
    apply wp_loopRun_app. eapply wp_next_trip; [exact Hl|exact Ht|exact E1|exact Hn|].
    intros e1 s1 Hl1 Ht1. rewrite ctr_up in Ht1 by done.
    eapply IH; [exact Hl1|exact Ht1|lia|exact E2|exact Hn|]. intros rs e2 s2 Hl2 Ht2 Hrs.
    eapply HQ; [exact Hl2| |].
    + replace (Z.min (c + Z.of_nat (S m)) (Loop.confidenceThreshold p)) with
        (Z.min (Z.min (c + 1) (Loop.confidenceThreshold p) + Z.of_nat m) (Loop.confidenceThreshold p))
        by lia. exact Ht2.
    + intros ->. rewrite map_app, Hrs by lia. f_equal. by rewrite Z.eqb_refl.
Qed.

End Entry.
