(* ===== verification/LTage.v ===== *)
(** * L-TAGE

    [cpu/pred/ltage.hh] and [ltage.cc]: TAGE with a loop predictor that overrides
    it when it is confident and has been right before.  The history of a branch
    holds the [BranchInfo] of both parts.  Several members of the loop
    predictor's part are used before they are assigned, or with the defaults of
    the constructor; the theorems say where. *)

From Stdlib Require Import ZArith Lia.
From stdpp Require Import base list numbers.
From S2P Require Import Prelude Types CondPred TageHist Tage TageInv TageBaseOk TageSafe TageRun TageSpec LoopPred LoopSpec.

Record LTAGE := mkLTAGE {
  lt_tage : TAGE;
  loopPredictor : LoopPredictor;
  lt_instShiftAmt : Z
}.

#[export] Instance eta_LTAGE : Settable LTAGE := fun s =>
  mkLTAGE (lt_tage s) (loopPredictor s) (lt_instShiftAmt s).

(** [LTageBranchInfo] *)
Record LTageInfo := mkLTageInfo {
  tageBranchInfo : BranchInfo;
  lpBranchInfo : LoopInfo
}.

#[export] Instance eta_LTageInfo : Settable LTageInfo := fun s =>
  mkLTageInfo (tageBranchInfo s) (lpBranchInfo s).

Definition LOOP : Z := TAGE_ALT_MATCH + 1.

Module LTage.
Section Operations.
Context (p : TageParams) (lp : LoopParams) {V : TageVirtual} {LV : LoopVirtual}.

Definition makeInfo (pc : Addr) (conditional : bool) : LTageInfo :=
  mkLTageInfo (TB.makeBranchInfo p pc conditional) Loop.makeBranchInfo.

Definition branchPlaceholder (tid : ThreadID) (pc : Addr) (uncond : bool)
    (bp_history : option LTageInfo) : M LTAGE (option LTageInfo) :=
  mret (Some (makeInfo pc (negb uncond))).

Definition predict (tid : ThreadID) (branch_pc : Addr) (cond_branch : bool)
  : M LTAGE (Prediction * option LTageInfo) :=
  let bi := makeInfo branch_pc cond_branch in
  r ← zoom lt_tage (zoom tage (TB.tagePredict p tid branch_pc cond_branch (tageBranchInfo bi)));
  sh ← gets lt_instShiftAmt;
  l ← zoom loopPredictor
        (Loop.loopPredict lp tid branch_pc cond_branch (lpBranchInfo bi) (fst r) sh);
  let bi := mkLTageInfo (snd r) (snd l) in
  bi ← (if cond_branch then
          used ← assigned (loopPredUsed (lpBranchInfo bi));
          mret (if (used : bool) then bi <| tageBranchInfo ::= fun b => b <| bi_provider := LOOP |> |>
                else bi)
        else mret bi);
  let bi := bi <| lpBranchInfo ::= fun b => b <| predTaken := fst l |> |> in
  pr ← zoom lt_tage (Tage.staticPrediction (fst l));
  mret (pr, Some bi).

Definition lookup (tid : ThreadID) (pc : Addr) (bp_history : option LTageInfo)
  : M LTAGE (Prediction * option LTageInfo) :=
  predict tid pc true.

(** [TAGE::updateHistories] with the overridden [predict] *)
Definition updateHistories (tid : ThreadID) (pc : Addr) (uncond taken : bool) (target : Addr)
    (inst : StaticInst) (bp_history : option LTageInfo) : M LTAGE (option LTageInfo) :=
  h ← (match bp_history with
       | None => massert uncond ;; r ← predict tid pc false; mret (snd r)
       | Some _ => mret bp_history
       end);
  bi ← deref h;
  t ← zoom lt_tage (zoom tage
        (TB.updateHistories p tid pc true taken target inst (tageBranchInfo bi)));
  mret (Some (bi <| tageBranchInfo := t |>)).

Definition update (tid : ThreadID) (pc : Addr) (taken : bool) (bp_history : option LTageInfo)
    (squashed : bool) (inst : StaticInst) (target : Addr) : M LTAGE (option LTageInfo) :=
  massert (bool_decide (bp_history <> None)) ;;
  bi ← deref bp_history;
  if squashed then
    if speculativeHistUpdate p then
      t ← zoom lt_tage (zoom tage (TB.squash p tid taken target inst (tageBranchInfo bi)));
      when (bi_condBranch t) (zoom loopPredictor (Loop.squashLoop lp (lpBranchInfo bi))) ;;
      mret (Some (bi <| tageBranchInfo := t |>))
    else mret (Some bi)
  else
  r ← zoom lt_tage Tage.random;
  let nrand := Z.land r 3 in
  sh ← gets lt_instShiftAmt;
  let t := tageBranchInfo bi in
  when (bi_condBranch t)
    (zoom lt_tage (zoom tage (TB.updateStats taken t)) ;;
     zoom loopPredictor (Loop.updateStats taken (lpBranchInfo bi)) ;;
     zoom loopPredictor
       (Loop.condBranchUpdate lp tid pc taken (tagePred t) (lpBranchInfo bi) sh) ;;
     zoom lt_tage (zoom tage (TB.condBranchUpdate p tid pc taken t nrand target
       (predTaken (lpBranchInfo bi)) false))) ;;
  zoom lt_tage (zoom tage (TB.updateHistories p tid pc false taken target inst t)) ;;
  mret None.

Definition squash (tid : ThreadID) (bp_history : option LTageInfo) : M LTAGE (option LTageInfo) :=
  bi ← deref bp_history;
  when (bi_condBranch (tageBranchInfo bi))
    (zoom loopPredictor (Loop.squash lp tid (lpBranchInfo bi))) ;;
  zoom lt_tage (Tage.squash p tid (Some (tageBranchInfo bi))) ;;
  mret None.

Definition LTAGE_cp : ConditionalPredictor LTAGE LTageInfo := {|
  cp_lookup := lookup;
  cp_updateHistories := updateHistories;
  cp_squash := squash;
  cp_update := update;
  cp_branchPlaceholder := branchPlaceholder;
  cp_predictL1NoUpdate := fun _ _ => fault Panic;
  cp_getStaticLatency := fun s => tage_staticLatency (lt_tage s)
|}.
End Operations.
End LTage.

(** ** Members used before they are assigned *)

(** What [getLoop] leaves in the members it does not compute *)
Lemma searchWays_keeps p V n : forall i sp bi,
  forall s r s', @Loop.searchWays p V n i sp bi s = Ok (r, s') ->
    loopPredUsed (snd r) = loopPredUsed bi /\ li_currentIter (snd r) = li_currentIter bi /\ s' = s.
Proof.
  induction n as [|n IH]; intros i sp bi s r s' E; cbn [Loop.searchWays] in E.
  { unfold mret, M_ret in E. injection E as <- <-. done. }
  unfold mbind, M_bind, mret, M_ret in E. destruct (Loop.finallindex p _ _ _ s) as [[idx s1]|] eqn:E1; [|done].
  assert (s1 = s) as ->.
  { unfold Loop.finallindex, TB.shamt, mret, M_ret in E1. destruct (useHashing p); [|by injection E1].
    unfold mbind, M_bind in E1. destruct (_ && _); [by injection E1|done]. }
  unfold Loop.entry, mbind, M_bind, gets, at_index, mret, M_ret in E.
  destruct (vat (ltable s) idx) as [e|]; [|done]. cbn in E.
  destruct (le_tag e =? loopTag bi).
  - injection E as <- <-. done.
  - by apply IH in E.
Qed.

Lemma getLoop_keeps p V pc bi sp sh s r s' :
  @Loop.getLoop p V pc bi sp sh s = Ok (r, s') ->
  loopPredUsed (snd r) = loopPredUsed bi /\ li_currentIter (snd r) = li_currentIter bi /\ s' = s.
Proof.
  unfold Loop.getLoop. intros E. apply searchWays_keeps in E as (E1 & E2 & ->).
  split_and!; [rewrite E1|rewrite E2|done]; by case_match.
Qed.

(** While the loop predictor is not trusted ([loopUseCounter] is negative, as
    it is after construction), no conditional branch can be predicted without
    reading [loopPredUsed], which neither the constructor nor [loopPredict] has
    assigned. *)
Theorem ltage_predict_undefined p lp V LV tid pc s :
  loopUseCounter (loopPredictor s) < 0 ->
  isOk (@LTage.predict p lp V LV tid pc true s) = false.
Proof.
  intros Hc. unfold LTage.predict. unfold mbind at 1, M_bind at 1.
  destruct (zoom lt_tage _ s) as [[r s1]|] eqn:E1; [|done].
  assert (El : loopPredictor s1 = loopPredictor s).
  { unfold zoom in E1. destruct (TB.tagePredict p tid pc true _ _) as [[a t]|]; [|done].
    by injection E1 as <- <-. }
  unfold mbind at 1, M_bind at 1. cbn [gets]. unfold mbind at 1, M_bind at 1.
  destruct (zoom loopPredictor _ s1) as [[l s2]|] eqn:E2; [|done]. cbn beta iota.
  assert (Hu : loopPredUsed (snd l) = None).
  { unfold zoom, Loop.loopPredict in E2. cbn [negb] in E2. unfold mbind, M_bind in E2.
    destruct (Loop.getLoop lp pc _ _ _ _) as [[[b bi] s3]|] eqn:Eg; [|done].
    apply getLoop_keeps in Eg as (Eu & _ & ->). unfold gets in E2. rewrite El in E2.
    destruct (Z.leb_spec 0 (loopUseCounter (loopPredictor s))); [lia|]. cbn [andb] in E2.
    destruct (when _ _ _) as [[u s4]|]; [|done]. injection E2 as <- <-. exact Eu. }
  cbn [lpBranchInfo]. rewrite Hu. done.
Qed.

Definition demoLoopParams : LoopParams :=
  mkLoopParams 4 7 8 2 6 6 2 false false false false 1 255 true.

Definition dummyLoop : LoopPredictor := mkLoopPredictor [] (-1) (fun _ => 0) 0 [].
Definition freshLTage : LTAGE :=
  mkLTAGE (freshOf demoTageParams) (okOr dummyLoop (Loop.make demoLoopParams (fun _ => 0))) 2.

Lemma ltage_predict_undefined_witness :
  isOk (@LTage.predict demoTageParams demoLoopParams (TB.TAGEBase_v demoTageParams)
          (Loop.LoopPredictor_v demoLoopParams) 0 0x400 true freshLTage) = false.
Proof.
  apply (ltage_predict_undefined demoTageParams demoLoopParams). vm_compute. reflexivity.
Defined.

(** A squash does not restore the speculative iteration count: the history of
    a branch never records it, so that every squash of a branch that hit the
    loop table sets the count to zero. *)
Theorem loop_squash_forgets p V tid pc prev sh s b bi s1 s2 idx :
  @Loop.loopPredict p V tid pc true Loop.makeBranchInfo prev sh s = Ok ((b, bi), s1) ->
  0 <= loopHit bi -> Loop.finallindex p (loopIndex bi) (loopIndexB bi) (loopHit bi) s1 = Ok (idx, s1) ->
  Loop.squash p tid bi s1 = Ok (tt, s2) ->
  currentIterSpec <$> vat (ltable s2) idx = Some 0.
Proof.
  intros Ep Hh Ei Es.
  assert (Hz : li_currentIter bi = 0).
  { unfold Loop.loopPredict in Ep. cbn [negb] in Ep. unfold mbind, M_bind in Ep.
    destruct (Loop.getLoop p pc _ _ _ _) as [[[b' bi'] s3]|] eqn:Eg; [|done].
    apply getLoop_keeps in Eg as (_ & Eu & _). unfold gets in Ep.
    destruct ((0 <=? loopUseCounter s3) && _);
      (destruct (when _ _ _) as [[u s4]|]; [|done]; injection Ep as _ <- _; exact Eu). }
  unfold Loop.squash in Es. destruct (Z.leb_spec 0 (loopHit bi)); [|lia]. cbn [when] in Es.
  unfold mbind at 1, M_bind at 1 in Es. rewrite Ei in Es.
  unfold Loop.setEntry, Loop.entry, mbind, M_bind, gets, modify in Es.
  destruct (vat (ltable s1) idx) as [e|] eqn:Ee; [|done]. injection Es as <-. cbn.
  pose proof (vat_some _ _ _ Ee). rewrite vat_nat in Ee by lia. rewrite vat_nat by lia.
  rewrite list_lookup_alter_eq, Ee. cbn. by rewrite Hz.
Qed.

(** A predictor that speculates, with an entry in its eleventh iteration *)
Definition specLoopParams : LoopParams :=
  mkLoopParams 4 7 8 2 6 6 2 true false true false 1 255 true.
Definition specLoop : LoopPredictor :=
  mkLoopPredictor (mkLoopEntry 20 10 10 3 0 255 true :: replicate 15 (mkLoopEntry 0 0 0 0 1 0 false))
    0 (fun _ => 0) 0 [].

Lemma loop_squash_forgets_witness :
  exists b bi s1 s2, @Loop.loopPredict specLoopParams (Loop.LoopPredictor_v specLoopParams) 0 0 true
      Loop.makeBranchInfo true 2 specLoop = Ok ((b, bi), s1) /\
    currentIterSpec <$> vat (ltable s1) 0 = Some 11 /\
    Loop.squash specLoopParams 0 bi s1 = Ok (tt, s2) /\
    currentIterSpec <$> vat (ltable s2) 0 = Some 0.
Proof.
  do 4 eexists. split; [vm_compute; reflexivity|]. split; [reflexivity|].
  split; [vm_compute; reflexivity|].
  eapply (loop_squash_forgets specLoopParams (Loop.LoopPredictor_v specLoopParams) 0 0 true 2 specLoop);
    [vm_compute; reflexivity|vm_compute; congruence|vm_compute; reflexivity|vm_compute; reflexivity].
Defined.

(** The placeholder of an undetected branch counts as a hit of the first entry
    of the loop table ([loopHit] is 0 by default): its commit counts an iteration
    of the loop stored there, whatever the address of the branch. *)
Theorem loop_placeholder_entry0 p V tid pc taken tp sh s e :
  loop_cfg p -> useSpeculation p = false -> vat (ltable s) 0 = Some e ->
  wp (@Loop.condBranchUpdate p V tid pc taken tp Loop.makeBranchInfo sh) (fun _ s' =>
    vat (ltable s') 0 = Some (let e := Loop.countIteration p e in
      if Loop.exits p taken e then Loop.endOfLoop p taken e else e)) s.
Proof.
  intros Hcfg Hs He. unfold Loop.condBranchUpdate. rewrite Hs. wp_step. apply wp_ret. wp_step.
  cbn [loopPredValid Loop.makeBranchInfo andb when]. apply wp_ret. unfold Loop.loopUpdate. wp_step.
  apply (wp_finallindex p Loop.makeBranchInfo 0); [lia|].
  assert (E0 : position p Loop.makeBranchInfo 0 = 0).
  { unfold position. cbn. destruct (useHashing p); [|done]. by rewrite Z.shiftl_0_l. }
  rewrite E0. cbn. wp_steps.
  assert (Hset : forall s f e, vat (ltable s) 0 = Some e ->
    vat (ltable (s <| ltable ::= alter f (Z.to_nat 0) |>)) 0 = Some (f e)).
  { intros s0 f e0 H0. cbn. unfold vat in *. cbn in *. change (Z.to_nat 0) with 0%nat in *.
    destruct (ltable s0); [done|]. cbn in *. congruence. }
  eapply wp_setLoop; [exact He|]. pose proof (Hset s (Loop.countIteration p) e He) as H1.
  wp_step. eapply wp_entry; [exact H1|]. apply wp_when; intros Ex.
  - wp_step. apply wp_massert; [apply orb_true_iff; right; apply Z.leb_le, Hcfg|].
    eapply wp_setLoop; [exact H1|]. rewrite Ex. by apply Hset.
  - by rewrite Ex.
Qed.

Lemma demoLoop_cfg : loop_cfg demoLoopParams.
Proof. constructor; vm_compute; split; congruence. Qed.

Definition otherLoop : LoopPredictor := specLoop.

Lemma loop_placeholder_entry0_witness :
  wp (@Loop.condBranchUpdate demoLoopParams (Loop.LoopPredictor_v demoLoopParams) 0 0x7654 false true
        Loop.makeBranchInfo 2) (fun _ s' => vat (ltable s') 0 =
    Some (mkLoopEntry 0 0 10 0 0 0 true)) otherLoop.
Proof.
  exact (loop_placeholder_entry0 demoLoopParams (Loop.LoopPredictor_v demoLoopParams) 0 0x7654 false
    true 2 otherLoop _ demoLoop_cfg eq_refl eq_refl).
Defined.

(** With hashing, the commit of a branch that missed the loop table computes
    the position of way -1 before it looks at the miss: a shift by -1. *)
Theorem loop_miss_shift_undefined p V pc taken bi tp s :
  useHashing p = true -> loopHit bi = -1 ->
  @Loop.loopUpdate p V pc taken bi tp s = Err Undefined.
Proof.
  intros Hh Hm. unfold Loop.loopUpdate, Loop.finallindex. rewrite Hh, Hm. reflexivity.
Qed.

(** [TAGE_SC_L_64KB_LoopPredictor] of [BranchPredictor.py] *)
Definition TAGE_SC_L_LoopPredictor_params : LoopParams :=
  mkLoopParams 5 7 4 4 10 10 2 false true true true 0 7 false.

Lemma loop_miss_shift_undefined_witness :
  @Loop.loopUpdate TAGE_SC_L_LoopPredictor_params
    (Loop.LoopPredictor_v TAGE_SC_L_LoopPredictor_params) 0x400 true
    (Loop.makeBranchInfo <| loopHit := -1 |>) true specLoop = Err Undefined.
Proof.
  exact (loop_miss_shift_undefined TAGE_SC_L_LoopPredictor_params
    (Loop.LoopPredictor_v TAGE_SC_L_LoopPredictor_params) 0x400 true
    (Loop.makeBranchInfo <| loopHit := -1 |>) true specLoop eq_refl eq_refl).
Defined.

(** ** A loop from the first iteration on *)

(** The first execution of the branch allocates an entry. *)
Definition afterFirst : LoopPredictor :=
  okOr dummyLoop (resMap snd (@loopExec demoLoopParams (Loop.LoopPredictor_v demoLoopParams) 0x1450 2
    true true (loopPredictor freshLTage))).

Definition allocatedEntry : LoopEntry := mkLoopEntry 0 1 0 0 5 255 false.

Lemma afterFirst_located : located demoLoopParams 0x1450 2 0 allocatedEntry afterFirst.
Proof.
  constructor; [vm_compute; split; congruence|vm_compute; reflexivity|vm_compute; reflexivity|].
  intros w Hw. lia.
Qed.

