(* ===== verification/SclPredictor.v ===== *)
(** * TAGE-SC-L: the model

    [cpu/pred/tage_sc_l.cc], [tage_sc_l.hh]: [TAGE_SC_L], the direction predictor
    made of a TAGE, a loop predictor and a statistical corrector, and its
    [TAGE_SC_L_LoopPredictor].  It is the predictor that tells the front end how
    late a prediction is: a prediction that agrees with the first level (the
    bimodal table) has no latency.

    [loopPredUsed] of a new history is not initialised; [junk] is what the memory
    contains, [None] where reading it counts as undefined. *)

From Stdlib Require Import ZArith Lia.
From stdpp Require Import base list numbers.
From S2P Require Import Prelude Types CondPred TageHist Tage TageScl LoopPred LTage StatCorr.

(** ** The loop predictor of TAGE-SC-L *)
Module SclLoop.
Definition calcConf (lp : LoopParams) (e : LoopEntry) : bool :=
  Loop.calcConf lp e || (128 <? confidence e * numIter e).

Definition optionalAgeInc : M LoopPredictor bool :=
  r ← Loop.random; mret (Z.land r 7 =? 0).

Definition SclLoop_v (lp : LoopParams) : LoopVirtual := {|
  v_calcConf := calcConf lp;
  v_optionalAgeInc := optionalAgeInc
|}.
End SclLoop.

(** [statisticalCorrector] is a pointer. *)
Record TAGE_SC_L := mkTAGE_SC_L {
  scl_ltage : LTAGE;
  statisticalCorrector : option StatCorr
}.

#[export] Instance eta_TAGE_SC_L : Settable TAGE_SC_L := fun s =>
  mkTAGE_SC_L (scl_ltage s) (statisticalCorrector s).

(** [TageSCLBranchInfo] *)
Record SclInfo := mkSclInfo { ltInfo : LTageInfo; scBranchInfo : ScInfo }.

#[export] Instance eta_SclInfo : Settable SclInfo := fun s => mkSclInfo (ltInfo s) (scBranchInfo s).

Definition SC : Z := LOOP + 1.

Module SclP.
Section Operations.
Context (p : TageParams) (lp : LoopParams) (scp : ScParams) (junk : option bool)
  {V : TageVirtual} {LV : LoopVirtual} {SI : ScIndexing} {SV : ScVirtual}.

(** ** Access to the parts *)

Definition onTage {A} (m : M TAGEBase A) : M TAGE_SC_L A :=
  zoom scl_ltage (zoom lt_tage (zoom tage m)).
Definition onLoop {A} (m : M LoopPredictor A) : M TAGE_SC_L A := zoom scl_ltage (zoom loopPredictor m).

(** A call of the corrector *)
Definition onSc {A} (m : M StatCorr A) : M TAGE_SC_L A := fun s =>
  match statisticalCorrector s with
  | None => Err NullDeref
  | Some c =>
      match m c with
      | Ok (a, c') => Ok (a, s <| statisticalCorrector := Some c' |>)
      | Err e => Err e
      end
  end.

(** [if (statisticalCorrector)] *)
Definition ifSc {A} (m : M StatCorr A) (a : A) : M TAGE_SC_L A :=
  o ← gets statisticalCorrector;
  match o with Some _ => onSc m | None => mret a end.

Definition getPathHist (tid : ThreadID) (speculative : bool) : M TAGE_SC_L Z :=
  h ← onTage (TB.thread tid);
  mret (if speculative then pathHist h else nonSpecPathHist h).

Definition instShift : M TAGE_SC_L Z := gets (fun s => lt_instShiftAmt (scl_ltage s)).

(** ** Prediction *)

(** The constructor of [TageSCLBranchInfo] calls the corrector. *)
Definition makeInfo (pc : Addr) (cond : bool) : M TAGE_SC_L SclInfo :=
  o ← gets statisticalCorrector;
  deref o ;;
  mret (mkSclInfo (mkLTageInfo (TB.makeBranchInfo p pc cond)
                     (Loop.makeBranchInfo <| loopPredUsed := junk |>)) Sc.makeBranchInfo).

Definition branchPlaceholder (tid : ThreadID) (pc : Addr) (uncond : bool) (bp_history : option SclInfo)
  : M TAGE_SC_L (option SclInfo) :=
  bi ← makeInfo pc (negb uncond); mret (Some bi).

(** The confidences of TAGE, copied for the corrector *)
Definition copyConf (t : BranchInfo) (bi : ScInfo) : ScInfo :=
  bi <| si_lowConf := bi_lowConf t |> <| si_highConf := bi_highConf t |>
     <| si_altConf := bi_altConf t |> <| si_medConf := bi_medConf t |>.

(** From the copy of the confidences to the corrected prediction *)
Definition correct (tid : ThreadID) (pc : Addr) (cond_branch pred_taken : bool) (t : BranchInfo)
    (bi : ScInfo) : M TAGE_SC_L (bool * BranchInfo * ScInfo) :=
  let bi := copyConf t bi in
  o ← gets statisticalCorrector;
  match o with
  | None => mret (pred_taken, t, bi)
  | Some _ =>
      let use_tage_ctr := 0 <? hitBank t in
      tage_ctr ← (if use_tage_ctr then e ← onTage (TB.entryAt (hitBank t) (hitBankIndex t)); mret (te_ctr e)
                  else mret 0);
      let bias := negb (eqb (longestMatchPred t) (altTaken t)) in
      a ← onSc (Sc.scPredict scp tid pc cond_branch bi pred_taken bias use_tage_ctr tage_ctr
                  (tagTableCounterBits p) (hitBank t) (altBank t) 0);
      mret (fst a, if si_usedScPred (snd a) then t <| bi_provider := SC |> else t, snd a)
  end.

Definition loopProvider (used : bool) (t : BranchInfo) : BranchInfo :=
  if used then t <| bi_provider := LOOP |> else t.

Definition predict (tid : ThreadID) (pc : Addr) (cond_branch : bool)
  : M TAGE_SC_L (Prediction * option SclInfo) :=
  bi ← makeInfo pc cond_branch;
  r ← onTage (TB.tagePredict p tid pc cond_branch (tageBranchInfo (ltInfo bi)));
  sh ← instShift;
  l ← onLoop (Loop.loopPredict lp tid pc cond_branch (lpBranchInfo (ltInfo bi)) (fst r) sh);
  bim ← onTage (v_getBimodePred pc (snd r));
  used ← assigned (loopPredUsed (snd l));
  a ← correct tid pc cond_branch (fst l) (loopProvider used (snd bim)) (scBranchInfo bi);
  let '(pred_taken, t, sc) := a in
  static ← gets (fun s => tage_staticLatency (lt_tage (scl_ltage s)));
  let latency := if eqb (fst bim) pred_taken then 0 else static in
  mret (mkPrediction pred_taken latency,
        Some (mkSclInfo (mkLTageInfo t ((snd l) <| predTaken := pred_taken |>)) sc)).

Definition lookup (tid : ThreadID) (pc : Addr) (bp_history : option SclInfo)
  : M TAGE_SC_L (Prediction * option SclInfo) :=
  predict tid pc true.

Definition predictNoUpdate (tid : ThreadID) (pc : Addr) (cond_branch : bool) : M TAGE_SC_L bool :=
  bi ← makeInfo pc cond_branch;
  r ← onTage (TB.tagePredict p tid pc cond_branch (tageBranchInfo (ltInfo bi)));
  sh ← instShift;
  l ← onLoop (Loop.getLoop lp pc (lpBranchInfo (ltInfo bi)) (useSpeculation lp) sh);
  let li := (snd l) <| loopPred := fst l |> in
  c ← gets (fun s => loopUseCounter (loopPredictor (scl_ltage s)));
  let '(pred_taken, li) :=
    if (0 <=? c) && loopPredValid li then (loopPred li, li <| loopPredUsed := Some true |>)
    else (fst r, li) in
  used ← assigned (loopPredUsed li);
  a ← correct tid pc cond_branch pred_taken (loopProvider used (snd r)) (scBranchInfo bi);
  mret (fst (fst a)).

Definition predictL1NoUpdate (tid : ThreadID) (pc : Addr) : M TAGE_SC_L bool :=
  onTage (Scl.getBimodePredL1 p pc).

(** ** Histories and training *)

Definition update (tid : ThreadID) (pc : Addr) (taken : bool) (bp_history : option SclInfo)
    (squashed : bool) (inst : StaticInst) (target : Addr) : M TAGE_SC_L (option SclInfo) :=
  massert (bool_decide (bp_history <> None)) ;;
  bi ← deref bp_history;
  let t := tageBranchInfo (ltInfo bi) in
  let l := lpBranchInfo (ltInfo bi) in
  if squashed then
    if speculativeHistUpdate p then
      t ← onTage (TB.squash p tid taken target inst t);
      when (bi_condBranch t) (onLoop (Loop.squashLoop lp l)) ;;
      ph ← getPathHist tid true;
      sc ← ifSc (Sc.updateHistories scp pc true inst taken (scBranchInfo bi) target ph) (scBranchInfo bi);
      mret (Some (mkSclInfo (mkLTageInfo t l) sc))
    else mret (Some bi)
  else
  r ← zoom scl_ltage (zoom lt_tage Tage.random);
  let nrand := Z.land r 3 in
  sh ← instShift;
  sc ← (if bi_condBranch t then
          onTage (TB.updateStats taken t) ;;
          onLoop (Loop.updateStats taken l) ;;
          let b := negb (eqb (longestMatchPred t) (altTaken t)) in
          sc ← ifSc (Sc.updateStats taken (scBranchInfo bi) ;;
                     Sc.condBranchUpdate scp tid pc taken (scBranchInfo bi) target b (hitBank t) (altBank t))
                    (scBranchInfo bi);
          onLoop (Loop.condBranchUpdate lp tid pc taken (tagePred t) l sh) ;;
          onTage (TB.condBranchUpdate p tid pc taken t nrand target (predTaken l) false) ;;
          mret sc
        else mret (scBranchInfo bi));
  onTage (TB.updateHistories p tid pc false taken target inst t) ;;
  ph ← getPathHist tid false;
  ifSc (Sc.updateHistories scp pc false inst taken sc target ph) sc ;;
  mret None.

(** With [LTAGE::squash] *)
Definition squash (tid : ThreadID) (bp_history : option SclInfo) : M TAGE_SC_L (option SclInfo) :=
  bi ← deref bp_history;
  ifSc (zoom scHistory (v_scRestoreHistState (scBranchInfo bi))) false ;;
  zoom scl_ltage (LTage.squash p lp tid (Some (ltInfo bi))) ;;
  mret None.

(** With [TAGE::updateHistories], which calls the overridden [predict] *)
Definition updateHistories (tid : ThreadID) (pc : Addr) (uncond taken : bool) (target : Addr)
    (inst : StaticInst) (bp_history : option SclInfo) : M TAGE_SC_L (option SclInfo) :=
  h ← (match bp_history with
       | None => massert uncond ;; r ← predict tid pc false; mret (snd r)
       | Some _ => mret bp_history
       end);
  bi ← deref h;
  t ← onTage (TB.updateHistories p tid pc true taken target inst (tageBranchInfo (ltInfo bi)));
  ph ← getPathHist tid true;
  sc ← ifSc (Sc.updateHistories scp pc true inst taken (scBranchInfo bi) target ph) (scBranchInfo bi);
  mret (Some (mkSclInfo ((ltInfo bi) <| tageBranchInfo := t |>) sc)).

Definition TAGE_SC_L_cp : ConditionalPredictor TAGE_SC_L SclInfo := {|
  cp_lookup := lookup;
  cp_updateHistories := updateHistories;
  cp_squash := squash;
  cp_update := update;
  cp_branchPlaceholder := branchPlaceholder;
  cp_predictL1NoUpdate := predictL1NoUpdate;
  cp_getStaticLatency := fun s => tage_staticLatency (lt_tage (scl_ltage s))
|}.
End Operations.
End SclP.
