(* ===== verification/SclSpec.v ===== *)
(** * Properties of TAGE-SC-L

    A prediction is total in every configuration in which the parts are, and it
    is late exactly when it differs from the first level; the prediction without
    side effects agrees with it.  The commit is undefined whenever the loop
    predictor has missed. *)

From Stdlib Require Import ZArith Lia.
From stdpp Require Import base list numbers.
From S2P Require Import Prelude Types CondPred TageHist Tage TageInv TageBaseOk TageSafe TageRun TageGen TageSpec TageScl TageSclSizes TageSclOk TageSclSizesOk TageSclSpec LoopPred LoopSpec LTage StatCorr StatCorrHist StatCorrOk StatCorrSpec SclPredictor.

(** ** The loop predictor *)

(** The table is large enough for every set. *)
Record loop_ok (lp : LoopParams) (s : LoopPredictor) : Prop := {
  lk_cfg : loop_cfg lp;
  lk_table : Z.of_nat (length (ltable s)) = 2 ^ logSizeLoopPred lp
}.

(** A set and its hashed variant, as [getLoop] computes them *)
Record set_ok (lp : LoopParams) (bi : LoopInfo) : Prop := {
  st_index : exists a, loopIndex bi = Z.shiftl a (logLoopTableAssoc lp) /\
    0 <= a < 2 ^ (logSizeLoopPred lp - logLoopTableAssoc lp);
  st_indexB : 0 <= loopIndexB bi < 2 ^ (logSizeLoopPred lp - logLoopTableAssoc lp)
}.

Lemma position_range lp bi way :
  loop_cfg lp -> set_ok lp bi -> 0 <= way < 2 ^ logLoopTableAssoc lp ->
  0 <= position lp bi way < 2 ^ logSizeLoopPred lp.
Proof.
  intros [Ha Hs _ _ _] [(a & Ei & Hr) HB] Hw. unfold position. rewrite Ei.
  set (k := logLoopTableAssoc lp) in *. set (m := logSizeLoopPred lp - k) in *.
  assert (Hpos : forall x, 0 <= x < 2 ^ m -> 0 <= Z.shiftl x k + way < 2 ^ logSizeLoopPred lp).
  { intros x Hx. rewrite Z.shiftl_mul_pow2 by lia.
    replace (logSizeLoopPred lp) with (m + k) by (unfold m; lia).
    rewrite Z.pow_add_r by (unfold m; lia). nia. }
  destruct (useHashing lp); [|by apply Hpos].
  rewrite <- Z.shiftl_lxor. apply Hpos. apply lxor_pow2_below; [done|].
  assert (Hsm : 0 <= Z.shiftr (loopIndexB bi) way <= loopIndexB bi).
  { rewrite Z.shiftr_div_pow2 by lia. pose proof (Z.pow_pos_nonneg 2 way).
    split; [apply Z.div_pos; lia|]. apply Z.div_le_upper_bound; nia. }
  lia.
Qed.

Section LoopReads.
Context (lp : LoopParams) {LV : LoopVirtual}.

Lemma wp_search s n : forall i sp bi (Q : bool * LoopInfo -> LoopPredictor -> Prop),
  loop_ok lp s -> set_ok lp bi -> 0 <= i -> i + Z.of_nat n <= 2 ^ logLoopTableAssoc lp ->
  (forall r, loopPredUsed (snd r) = loopPredUsed bi -> Q r s) ->
  wp (Loop.searchWays lp n i sp bi) Q s.
Proof.
  induction n as [|n IH]; intros i sp bi Q Hok Hset Hi Hn HQ; cbn [Loop.searchWays].
  { apply wp_ret. by apply HQ. }
  destruct Hok as [Hcfg Hlen]. pose proof (assoc_small lp Hcfg).
  wp_step. apply wp_finallindex; [lia|]. wp_step.
  destruct (vat_lt (ltable s) (position lp bi i)) as [e He].
  { rewrite Hlen. apply position_range; [done|done|lia]. }
  eapply wp_entry; [exact He|]. destruct (le_tag e =? loopTag bi).
  - wp_step. by apply HQ.
  - by apply IH; [constructor|done|lia|lia|].
Qed.

Lemma wp_getLoop s pc bi sp sh (Q : bool * LoopInfo -> LoopPredictor -> Prop) :
  loop_ok lp s -> 0 <= loopIndexB bi < 2 ^ (logSizeLoopPred lp - logLoopTableAssoc lp) ->
  (forall r, loopPredUsed (snd r) = loopPredUsed bi -> Q r s) ->
  wp (Loop.getLoop lp pc bi sp sh) Q s.
Proof.
  intros Hok HB HQ. pose proof (lc_size _ (lk_cfg _ _ Hok)). pose proof (lc_assoc _ (lk_cfg _ _ Hok)).
  assert (Hmask : forall x, 0 <= Z.land x (Loop.loopSetMask lp) <
    2 ^ (logSizeLoopPred lp - logLoopTableAssoc lp)) by (intros x; apply land_mask_bound; lia).
  unfold Loop.getLoop. apply wp_search; [done| |lia| |].
  - constructor; cbn.
    + unfold Loop.lindex. destruct (useHashing lp); cbn; (eexists; split; [reflexivity|apply Hmask]).
    + destruct (useHashing lp); cbn; [apply Hmask|done].
  - pose proof (Z.pow_pos_nonneg 2 (logLoopTableAssoc lp)). lia.
  - intros r Hr. apply HQ. rewrite Hr. by destruct (useHashing lp).
Qed.
End LoopReads.

(** ** What TAGE leaves in a branch *)

(** [getBimodePred]: the prediction and the confidences are those of the bimodal
    entry, the rest of the branch is kept. *)
Definition bimStrong (p : TageParams) (s : TAGEBase) (bi : BranchInfo) : bool :=
  let bim := 2 * b2z (default false (vat (btablePrediction s) (bimodalIndex bi))) +
    b2z (default false (vat (btableHysteresis s)
                          (Z.shiftr (bimodalIndex bi) (logRatioBiModalHystEntries p)))) in
  (bim =? 0) || (bim =? 3).

Definition withConf (high : bool) (bi : BranchInfo) : BranchInfo :=
  bi <| bi_highConf := high |> <| bi_lowConf := negb high |> <| bi_altConf := high |>
     <| bi_medConf := false |>.

Lemma withConf_fix h bi :
  bi_highConf bi = h -> bi_lowConf bi = negb h -> bi_altConf bi = h -> bi_medConf bi = false ->
  withConf h bi = bi.
Proof. destruct bi. cbn. intros -> -> -> ->. reflexivity. Qed.

Lemma getBimodePred_eq p pc bi s r s' :
  Scl.getBimodePred p pc bi s = Ok (r, s') ->
  s' = s /\ snd r = withConf (bimStrong p s bi) bi /\
  vat (btablePrediction s) (bimodalIndex bi) = Some (fst r).
Proof.
  unfold Scl.getBimodePred, TB.getBimodePred, mbind, M_bind, gets, at_index, mret, M_ret, bimStrong, withConf, b2z.
  destruct (vat (btablePrediction s) (bimodalIndex bi)) as [bp|] eqn:Ep; [|done].
  destruct (vat (btableHysteresis s) _) as [bh|] eqn:Eh; [|done]. cbn. rewrite Ep.
  intros [= <- <-]. done.
Qed.

Section TageFacts.
Context (sp : SclParams) (p : TageParams) {SV : SclVirtual}.
#[local] Instance facts_V : TageVirtual := @Scl.Scl_v sp p SV.

(** The bimodal index of a predicted branch; without a hit its confidences are
    those of the bimodal entry. *)
Definition branch_facts (pc : Addr) (bi : BranchInfo) (s : TAGEBase) : Prop :=
  bimodalIndex bi = Scl.bindex p pc /\
  (hitBank bi <= 0 -> withConf (bimStrong p s bi) bi = bi).

Lemma tagePredict_facts tid pc bi s :
  wlp (TB.tagePredict p tid pc true bi) (fun r s' => branch_facts pc (snd r) s') s.
Proof.
  unfold TB.tagePredict. cbn [negb]. apply wlp_bind, wlp_true. intros bi1 s1.
  set (bi2 := setf altBank _ _). apply wlp_bind, wlp_true. intros hb s2.
  apply wlp_bind. apply (wlp_mono _ (fun b _ => bimodalIndex b = Scl.bindex p pc)).
  { destruct (hb =? 0); [by apply wlp_ret|]. apply wlp_bind, wlp_true. intros ti s3. by apply wlp_ret. }
  intros bi3 s3 E3. apply wlp_bind, wlp_true. intros ab s4.
  apply wlp_bind. apply (wlp_mono _ (fun b _ => bimodalIndex b = Scl.bindex p pc)).
  { destruct (ab =? 0); [by apply wlp_ret|]. apply wlp_bind, wlp_true. intros ti s5. by apply wlp_ret. }
  intros bi5 s5 E5. destruct (Z.ltb_spec 0 (hitBank bi5)) as [Hh|Hh].
  - apply wlp_bind. apply (wlp_mono _ (fun b _ => bimodalIndex b = Scl.bindex p pc /\ 0 < hitBank b)).
    + destruct (0 <? altBank bi5).
      * apply wlp_bind, wlp_true. intros ti s6. apply wlp_bind, wlp_true. intros e s7.
        cbn [v_extraAltCalc facts_V Scl.Scl_v]. unfold Scl.extraAltCalc.
        apply wlp_bind, wlp_true. intros e' s8. by apply wlp_ret.
      * apply wlp_bind. intros r s6 E. cbn [v_getBimodePred facts_V Scl.Scl_v] in E.
        apply getBimodePred_eq in E as (_ & Er & _). apply wlp_ret. rewrite Er. done.
    + intros bi6 s6 [E6 Hh6]. do 3 (apply wlp_bind, wlp_true; intros ? ?).
      do 2 (apply wlp_bind, wlp_true; intros ? ?). apply wlp_ret. unfold branch_facts.
      destruct (_ || _); cbn; (split; [done|lia]).
  - apply wlp_bind. intros r s6 E. cbn [v_getBimodePred facts_V Scl.Scl_v] in E.
    apply getBimodePred_eq in E as (-> & Er & _). apply wlp_ret. unfold branch_facts.
    rewrite Er. split; [exact E5|]. intros _. cbn [snd].
    apply withConf_fix; reflexivity.
Qed.
End TageFacts.

(** ** What the corrector reads of a branch *)

Definition predOnly (r : Res (bool * ScInfo * StatCorr)) : Res (bool * StatCorr) :=
  resMap (fun a => (fst (fst a), snd a)) r.

Definition setAlt (x : bool) (bi : ScInfo) : ScInfo := bi <| si_altConf := x |>.

Section AltConf.
Context (z : SclSize) (p : ScParams).
#[local] Instance alt_V : ScVirtual := scVirtual z p.

Lemma biasBank_alt pc x bi hb ab : v_getIndBiasBank pc (setAlt x bi) hb ab = v_getIndBiasBank pc bi hb ab.
Proof. unfold alt_V. destruct z; reflexivity. Qed.

Lemma predictions_alt tid pc x bi l : v_gPredictions tid pc (setAlt x bi) l = v_gPredictions tid pc bi l.
Proof. unfold alt_V. destruct z; reflexivity. Qed.

Lemma record_alt pc x bi h :
  v_scRecordHistState pc (setAlt x bi) h =
  resMap (fun a => (setAlt x (fst a), snd a)) (v_scRecordHistState pc bi h).
Proof.
  unfold alt_V. destruct z; cbn; unfold Sc64.scRecordHistState, Sc8.scRecordHistState, Sc.scRecordHistState,
    mbind, M_bind, gets, mret, M_ret, at_index; cbn; repeat (case_match; cbn; simplify_eq; try done).
Qed.

Lemma calcBias_alt pc x bi b use cc cb hb ab s :
  Sc.calcBias p pc (setAlt x bi) b use cc cb hb ab s =
  resMap (fun a => ((fst (fst a), setAlt x (snd (fst a))), snd a)) (Sc.calcBias p pc bi b use cc cb hb ab s).
Proof.
  assert (Hrest : forall bi s,
    (c1 ← Sc.cellOf bias (Sc.getIndBias p pc (setAlt x bi) b);
     k ← Sc.getIndBiasSK p pc (setAlt x bi);
     c2 ← Sc.cellOf biasSK k;
     c3 ← Sc.cellOf biasBank (v_getIndBiasBank pc (setAlt x bi) hb ab);
     w ← Sc.cellOf wb (Sc.getIndUpds p pc);
     mret (Sc.weight w * ((2 * c1 + 1) + (2 * c2 + 1) + (2 * c3 + 1)), setAlt x bi)) s =
    resMap (fun a => ((fst (fst a), setAlt x (snd (fst a))), snd a))
    ((c1 ← Sc.cellOf bias (Sc.getIndBias p pc bi b);
     k ← Sc.getIndBiasSK p pc bi;
     c2 ← Sc.cellOf biasSK k;
     c3 ← Sc.cellOf biasBank (v_getIndBiasBank pc bi hb ab);
     w ← Sc.cellOf wb (Sc.getIndUpds p pc);
     mret (Sc.weight w * ((2 * c1 + 1) + (2 * c2 + 1) + (2 * c3 + 1)), bi)) s)).
  { clear bi s. intros bi s. rewrite biasBank_alt.
    change (Sc.getIndBias p pc (setAlt x bi) b) with (Sc.getIndBias p pc bi b).
    change (@Sc.getIndBiasSK p StatCorr pc (setAlt x bi)) with (@Sc.getIndBiasSK p StatCorr pc bi).
    unfold mbind, M_bind, mret, M_ret. by repeat (case_match; cbn; simplify_eq). }
  unfold Sc.calcBias. destruct use.
  - unfold mbind at 1 2 7 8, M_bind at 1 2 7 8. unfold Scl.lowMask. destruct (_ && _); [|done]. cbn.
    exact (Hrest (bi <| si_lowConf := Scl.strength cc =? 1 |> <| si_medConf := Scl.strength cc =? 5 |>
      <| si_highConf := 2 ^ cb - 1 <=? Scl.strength cc |>) s).
  - exact (Hrest bi s).
Qed.

(** The alternate confidence does not matter. *)
Lemma scPredict_alt tid pc x bi prev b use cc cb hb ab s :
  predOnly (Sc.scPredict p tid pc true (setAlt x bi) prev b use cc cb hb ab 0 s) =
  predOnly (Sc.scPredict p tid pc true bi prev b use cc cb hb ab 0 s).
Proof.
  unfold Sc.scPredict. cbn [negb].
  change ((setAlt x bi) <| si_predBeforeSC := prev |>) with (setAlt x (bi <| si_predBeforeSC := prev |>)).
  rewrite !bind_eq. rewrite calcBias_alt.
  destruct (Sc.calcBias p pc _ b use cc cb hb ab s) as [[[l bi1] s1]|]; [|done]. cbn [resMap fst snd].
  rewrite !bind_eq. unfold zoom at 1 2. rewrite record_alt.
  destruct (v_scRecordHistState pc bi1 (scHistory s1)) as [[bi2 h]|]; [|done]. cbn [resMap fst snd].
  rewrite !bind_eq. rewrite predictions_alt.
  destruct (v_gPredictions tid pc bi2 _ _) as [[[th ls] s3]|]; [|done]. cbn [fst snd].
  change (si_lsum ((setAlt x bi2) <| si_lsum := ls |> <| si_thres := th |>)) with ls.
  change (si_lsum (bi2 <| si_lsum := ls |> <| si_thres := th |>)) with ls.
  destruct (negb (eqb prev (0 <=? ls))); [|done].
  unfold mbind, M_bind, gets, mret, M_ret.
  change (Sc.useScPred ((setAlt x bi2) <| si_lsum := ls |> <| si_thres := th |>))
    with (Sc.useScPred (bi2 <| si_lsum := ls |> <| si_thres := th |>)).
  by destruct (Sc.useScPred _ _ _).
Qed.
End AltConf.

(** With a hit in TAGE the confidences come from the counter. *)
Lemma scPredict_conf z p tid pc bi prev b cc cb hb ab s l h m :
  predOnly (@Sc.scPredict p (scVirtual z p) tid pc true
    (bi <| si_lowConf := l |> <| si_highConf := h |> <| si_medConf := m |>) prev b true cc cb hb ab 0 s) =
  predOnly (@Sc.scPredict p (scVirtual z p) tid pc true bi prev b true cc cb hb ab 0 s).
Proof. reflexivity. Qed.

(** ** Predictions *)

Record scl_ok (z : SclSize) (sp : SclParams) (p : TageParams) (lp : LoopParams) (scp : ScParams)
    (s : TAGE_SC_L) : Prop := {
  so_tage : tb_ok p (sclSize sp) (tage (lt_tage (scl_ltage s)));
  so_loop : loop_ok lp (loopPredictor (scl_ltage s));
  so_corr : exists c, statisticalCorrector s = Some c /\ tables_ok z scp c /\ hist_ok z scp (scHistory c)
}.

(** The parts are configured for predictions. *)
Record scl_config (z : SclSize) (sp : SclParams) (p : TageParams) (lp : LoopParams) (scp : ScParams)
  : Prop := {
  sg_tage : tage_cfg p;
  sg_scl : scl_cfg sp p;
  sg_size : size_cfg z sp;
  sg_loop : useSpeculation lp = false;
  sg_sc : sc_cfg z scp
}.

Section Predict.
Context (z : SclSize) (sp : SclParams) (p : TageParams) (lp : LoopParams) (scp : ScParams)
  (Hcfg : scl_config z sp p lp scp) (j : bool).
#[local] Instance pr_V : TageVirtual := sclVirtual z sp p.
#[local] Instance pr_LV : LoopVirtual := SclLoop.SclLoop_v lp.
#[local] Instance pr_I : ScIndexing := scIndexing z scp.
#[local] Instance pr_SV : ScVirtual := scVirtual z scp.

(** The change of a confidence that [correct] does not see *)
Lemma correct_conf tid pc pred h t u bi s :
  (hitBank t <= 0 -> withConf h t = t) ->
  resMap (fun a => fst (fst (fst a))) (SclP.correct p scp tid pc true pred
    (SclP.loopProvider u (withConf h t)) bi s) =
  resMap (fun a => fst (fst (fst a))) (SclP.correct p scp tid pc true pred (SclP.loopProvider u t) bi s).
Proof.
  intros Hc. destruct (Z.le_gt_cases (hitBank t) 0) as [Hh|Hh]; [by rewrite Hc|].
  set (t1 := SclP.loopProvider u (withConf h t)). set (t2 := SclP.loopProvider u t).
  assert (Eh : hitBank t1 = hitBank t2) by (by destruct u).
  assert (Ei : hitBankIndex t1 = hitBankIndex t2) by (by destruct u).
  assert (Ea : altBank t1 = altBank t2) by (by destruct u).
  assert (El : longestMatchPred t1 = longestMatchPred t2) by (by destruct u).
  assert (Et : altTaken t1 = altTaken t2) by (by destruct u).
  assert (Eu : (0 <? hitBank t2) = true) by (apply Z.ltb_lt; by destruct u).
  unfold SclP.correct. rewrite !bind_eq. cbn [gets]. destruct (statisticalCorrector s) as [c|]; [|done].
  rewrite Eh, Ei, Ea, El, Et, Eu, !bind_eq.
  destruct (SclP.onTage _ s) as [[e s1]|]; [|done]. unfold mret at 1 3, M_ret at 1 3. rewrite !bind_eq.
  unfold SclP.onSc. destruct (statisticalCorrector s1) as [c1|]; [|done].
  assert (E : forall tid pc pred b cc cb hb ab,
    predOnly (Sc.scPredict scp tid pc true (SclP.copyConf t1 bi) pred b true cc cb hb ab 0 c1) =
    predOnly (Sc.scPredict scp tid pc true (SclP.copyConf t2 bi) pred b true cc cb hb ab 0 c1)).
  { intros. rewrite <- (scPredict_alt z scp _ _ (bi_altConf t1) (SclP.copyConf t2 bi)).
    rewrite <- (scPredict_conf z scp _ _ (setAlt (bi_altConf t1) (SclP.copyConf t2 bi)) _ _ _ _ _ _ _
      (bi_lowConf t1) (bi_highConf t1) (bi_medConf t1)). f_equal. }
  match goal with |- resMap _ (match (match Sc.scPredict _ ?a1 ?a2 _ _ ?a4 ?a5 _ ?a6 ?a7 ?a8 ?a9 _ _ with _ => _ end) with _ => _ end) = _ =>
    specialize (E a1 a2 a4 a5 a6 a7 a8 a9) end.
  unfold predOnly in E.
  destruct (Sc.scPredict scp tid pc true (SclP.copyConf t1 bi) _ _ _ _ _ _ _ _ _) as [[[b1 i1] c1']|],
    (Sc.scPredict scp tid pc true (SclP.copyConf t2 bi) _ _ _ _ _ _ _ _ _) as [[[b2 i2] c2']|];
    cbn in E; try done; injection E as ->; done.
Qed.

#[local] Instance pr_VO : VirtualOk p (sclSize sp) :=
  scl_VO z sp p (sg_tage _ _ _ _ _ Hcfg) (sg_scl _ _ _ _ _ Hcfg) (sg_size _ _ _ _ _ Hcfg).

Lemma scl_facts tid pc bi s :
  wlp (TB.tagePredict p tid pc true bi) (fun r s' => branch_facts p pc (snd r) s') s.
Proof. unfold pr_V. destruct z; apply tagePredict_facts. Qed.

(** TAGE predicts, and the bimodal table is read afterwards. *)
Lemma tage_parts tid pc T :
  tb_ok p (sclSize sp) T -> 0 <= tid < tg_numThreads p ->
  exists r t1 bm, TB.tagePredict p tid pc true (TB.makeBranchInfo p pc true) T = Ok (r, t1) /\
    tb_ok p (sclSize sp) t1 /\ scratch_only T t1 /\ bi_ok p (sclSize sp) (snd r) /\
    (hitBank (snd r) <= 0 -> withConf (bimStrong p t1 (snd r)) (snd r) = snd r) /\
    v_getBimodePred pc (snd r) t1 = Ok ((bm, withConf (bimStrong p t1 (snd r)) (snd r)), t1) /\
    Scl.getBimodePredL1 p pc T = Ok (bm, T).
Proof.
  intros Hok Ht. pose proof (sg_tage _ _ _ _ _ Hcfg) as Hc.
  pose proof (gr_ok _ _ _ (make_grounded p (sclSize sp) Hc pc true)) as Hbi.
  assert (Hwp : wp (TB.tagePredict p tid pc true (TB.makeBranchInfo p pc true)) (fun r s' =>
    tb_ok p (sclSize sp) s' /\ scratch_only T s' /\ bi_ok p (sclSize sp) (snd r)) T).
  { eapply (wp_tagePredict p (sclSize sp) Hc); [done|done|done|]. by intros b bi' s' [] _. }
  apply wp_inv in Hwp as (r & t1 & E & Hok1 & Hsc & Hbi1). exists r, t1.
  destruct (scl_facts _ _ _ _ _ _ E) as [Ei Hconf].
  assert (Hwb : wp (v_getBimodePred pc (snd r)) (fun _ s' => s' = t1) t1).
  { eapply wp_mono; [by apply vo_bimode|]. by intros a s' (-> & _). }
  apply wp_inv in Hwb as (a & s' & Eb & ->).
  assert (Eb' : Scl.getBimodePred p pc (snd r) t1 = Ok (a, t1)) by (unfold pr_V in Eb; by destruct z).
  apply getBimodePred_eq in Eb' as (_ & E2 & E3). exists (fst a). destruct a as [bm bi2]. cbn in E2, E3. subst bi2.
  split_and!; try done. unfold Scl.getBimodePredL1. rewrite bind_eq. cbn [gets].
  rewrite <- Ei. unfold scratch_only in Hsc. rewrite Hsc in E3. cbn in E3. rewrite E3. done.
Qed.

(** [correct] returns and changes nothing. *)
Lemma correct_ok tid pc pred t bi s c :
  tb_ok p (sclSize sp) (tage (lt_tage (scl_ltage s))) -> statisticalCorrector s = Some c ->
  tables_ok z scp c -> hist_ok z scp (scHistory c) -> bi_ok p (sclSize sp) t ->
  exists a, SclP.correct p scp tid pc true pred t bi s = Ok (a, s).
Proof.
  intros Hok Ec Htab Hh Hbi. pose proof (sg_tage _ _ _ _ _ Hcfg) as Hc.
  assert (Hwp : wp (SclP.correct p scp tid pc true pred t bi) (fun _ s' => s' = s) s).
  { unfold SclP.correct. wp_step. wp_step. rewrite Ec. wp_step.
    apply (wp_mono _ (fun _ s' => s' = s)).
    - destruct (Z.ltb_spec 0 (hitBank t)) as [Hp|]; [|by wp_step]. wp_step. unfold SclP.onTage. wp_step.
      wp_step. wp_step. destruct (bk_hit _ _ _ Hbi) as [Hr Hi].
      eapply wp_entryAt; [exact Hok|lia|by apply Hi|]. intros e _. wp_step.
      destruct s as [[[T ? ? ?] ? ?] ?]. reflexivity.
    - intros ctr s' ->. wp_step.
      assert (Hsc : wp (Sc.scPredict scp tid pc true (SclP.copyConf t bi) pred
        (negb (eqb (longestMatchPred t) (altTaken t))) (0 <? hitBank t) ctr (tagTableCounterBits p)
        (hitBank t) (altBank t) 0) (fun _ c' => c' = c) c).
      { eapply (wp_scPredict z scp (sg_sc _ _ _ _ _ Hcfg)); [done|done| |done].
        pose proof (tc_ctr _ Hc). lia. }
      apply wp_inv in Hsc as (a & c' & E & ->). unfold wp at 1. unfold SclP.onSc. rewrite Ec, E.
      wp_step. destruct s as [? o]. cbn in *. by rewrite Ec. }
  apply wp_inv in Hwp as (a & s' & E & ->). by exists a.
Qed.

(** The predictor with another state of TAGE *)
Definition setTage (t : TAGEBase) (s : TAGE_SC_L) : TAGE_SC_L :=
  s <| scl_ltage ::= fun l => l <| lt_tage ::= fun x => x <| tage := t |> |> |>.

Lemma onTage_eq {A} (m : M TAGEBase A) s a t :
  m (tage (lt_tage (scl_ltage s))) = Ok (a, t) -> SclP.onTage m s = Ok (a, setTage t s).
Proof. intros E. unfold SclP.onTage, zoom. rewrite E. reflexivity. Qed.

Lemma onLoop_read {A} (m : M LoopPredictor A) s a :
  m (loopPredictor (scl_ltage s)) = Ok (a, loopPredictor (scl_ltage s)) -> SclP.onLoop m s = Ok (a, s).
Proof. intros E. unfold SclP.onLoop, zoom. rewrite E. by destruct s as [[]]. Qed.

(** The loop predictor's part of a prediction *)
Definition loopChoice (c : Z) (prev : bool) (l : bool * LoopInfo) : bool * LoopInfo :=
  let li := (snd l) <| loopPred := fst l |> in
  if (0 <=? c) && loopPredValid li then (loopPred li, li <| loopPredUsed := Some true |>) else (prev, li).

Lemma loopPredict_eval tid pc bi prev sh L l :
  Loop.getLoop lp pc bi (useSpeculation lp) sh L = Ok (l, L) ->
  Loop.loopPredict lp tid pc true bi prev sh L = Ok (loopChoice (loopUseCounter L) prev l, L).
Proof.
  intros E. unfold Loop.loopPredict. cbn [negb]. rewrite bind_eq, E, bind_eq. cbn [gets].
  fold (loopChoice (loopUseCounter L) prev l). destruct (loopChoice _ _ _) as [b li].
  rewrite (sg_loop _ _ _ _ _ Hcfg). reflexivity.
Qed.

Lemma loopChoice_used c prev l : loopPredUsed (snd l) = Some j ->
  exists u, loopPredUsed (snd (loopChoice c prev l)) = Some u.
Proof. intros E. unfold loopChoice. destruct (_ && _); [by exists true|]. by exists j. Qed.

Definition latencyOf (s : TAGE_SC_L) : Cycles := tage_staticLatency (lt_tage (scl_ltage s)).

(** The history of a new branch *)
Definition newLoop : LoopInfo := Loop.makeBranchInfo <| loopPredUsed := Some j |>.

Lemma makeInfo_eq pc s c : statisticalCorrector s = Some c ->
  SclP.makeInfo p (Some j) pc true s =
  Ok (mkSclInfo (mkLTageInfo (TB.makeBranchInfo p pc true) newLoop) Sc.makeBranchInfo, s).
Proof. intros Ec. unfold SclP.makeInfo. rewrite bind_eq. cbn [gets]. rewrite Ec. reflexivity. Qed.

(** The two predictions, from the results of their parts *)
Section Evaluate.
Context (tid : ThreadID) (pc : Addr) (s : TAGE_SC_L) (c : StatCorr) (r : bool * BranchInfo) (t1 : TAGEBase)
  (l : bool * LoopInfo) (u : bool).
#[local] Abbreviation choice := (loopChoice (loopUseCounter (loopPredictor (scl_ltage s))) (fst r) l).
Context (Ec : statisticalCorrector s = Some c)
  (Etage : TB.tagePredict p tid pc true (TB.makeBranchInfo p pc true) (tage (lt_tage (scl_ltage s))) = Ok (r, t1))
  (Eloop : Loop.getLoop lp pc newLoop (useSpeculation lp) (lt_instShiftAmt (scl_ltage s))
             (loopPredictor (scl_ltage s)) = Ok (l, loopPredictor (scl_ltage s)))
  (Eused : loopPredUsed (snd choice) = Some u).

Lemma predict_runs bm w b t' sc' :
  v_getBimodePred pc (snd r) t1 = Ok ((bm, w), t1) ->
  SclP.correct p scp tid pc true (fst choice) (SclP.loopProvider u w) Sc.makeBranchInfo (setTage t1 s) =
    Ok ((b, t', sc'), setTage t1 s) ->
  exists h, SclP.predict p lp scp (Some j) tid pc true s =
    Ok ((mkPrediction b (if eqb bm b then 0 else latencyOf s), Some h), setTage t1 s).
Proof.
  intros E2 Ea. eexists. unfold SclP.predict. rewrite bind_eq, (makeInfo_eq pc s c Ec), bind_eq.
  cbn [ltInfo tageBranchInfo lpBranchInfo]. rewrite (onTage_eq _ s r t1 Etage), bind_eq.
  cbn [gets SclP.instShift]. rewrite bind_eq.
  rewrite (onLoop_read _ (setTage t1 s) choice); [|exact (loopPredict_eval tid pc newLoop (fst r) _ _ l Eloop)].
  rewrite bind_eq, (onTage_eq _ (setTage t1 s) (bm, w) t1 E2), bind_eq.
  change (setTage t1 (setTage t1 s)) with (setTage t1 s). rewrite Eused, assigned_some, bind_eq.
  cbn [snd fst scBranchInfo]. rewrite Ea. reflexivity.
Qed.

Lemma peek_runs a :
  SclP.correct p scp tid pc true (fst choice) (SclP.loopProvider u (snd r)) Sc.makeBranchInfo (setTage t1 s) =
    Ok (a, setTage t1 s) ->
  SclP.predictNoUpdate p lp scp (Some j) tid pc true s = Ok (fst (fst a), setTage t1 s).
Proof.
  intros Ea. unfold SclP.predictNoUpdate. rewrite bind_eq, (makeInfo_eq pc s c Ec), bind_eq.
  cbn [ltInfo tageBranchInfo lpBranchInfo]. rewrite (onTage_eq _ s r t1 Etage), bind_eq.
  cbn [gets SclP.instShift]. rewrite bind_eq, (onLoop_read _ (setTage t1 s) l); [|exact Eloop].
  rewrite bind_eq. cbn [gets].
  change (loopUseCounter (loopPredictor (scl_ltage (setTage t1 s))))
    with (loopUseCounter (loopPredictor (scl_ltage s))).
  fold choice. destruct choice as [b0 li]. cbn [snd fst] in *.
  rewrite bind_eq, Eused, assigned_some, bind_eq. cbn [scBranchInfo]. by rewrite Ea.
Qed.
End Evaluate.

(** Both predictions of a conditional branch, and that of the first level *)
Lemma predict_eval tid pc s :
  scl_ok z sp p lp scp s -> 0 <= tid < tg_numThreads p ->
  exists b bm h t1, scratch_only (tage (lt_tage (scl_ltage s))) t1 /\
    SclP.predict p lp scp (Some j) tid pc true s =
      Ok ((mkPrediction b (if eqb bm b then 0 else latencyOf s), Some h), setTage t1 s) /\
    SclP.predictL1NoUpdate p tid pc s = Ok (bm, s) /\
    SclP.predictNoUpdate p lp scp (Some j) tid pc true s = Ok (b, setTage t1 s).
Proof.
  intros [Htage Hloop (c & Ec & Htab & Hh)] Ht.
  destruct (tage_parts tid pc _ Htage Ht) as (r & t1 & bm & E1 & Hok1 & Hsc & Hbi & Hconf & E2 & E3).
  assert (Hg : wp (Loop.getLoop lp pc newLoop (useSpeculation lp) (lt_instShiftAmt (scl_ltage s)))
    (fun l L => L = loopPredictor (scl_ltage s) /\ loopPredUsed (snd l) = Some j) (loopPredictor (scl_ltage s))).
  { apply wp_getLoop; [done| |done]. cbn. split; [done|]. destruct (lc_size _ (lk_cfg _ _ Hloop)).
    apply Z.pow_pos_nonneg; lia. }
  apply wp_inv in Hg as (l & L & El & -> & Hu).
  set (ch := loopChoice (loopUseCounter (loopPredictor (scl_ltage s))) (fst r) l).
  destruct (loopChoice_used (loopUseCounter (loopPredictor (scl_ltage s))) (fst r) l Hu) as [u Eu].
  assert (Hcor : forall t, bi_ok p (sclSize sp) t -> exists a, SclP.correct p scp tid pc true (fst ch)
    (SclP.loopProvider u t) Sc.makeBranchInfo (setTage t1 s) = Ok (a, setTage t1 s)).
  { intros t Hb. apply (correct_ok tid pc _ _ _ _ c); try done. destruct Hb. by destruct u; constructor. }
  destruct (Hcor (withConf (bimStrong p t1 (snd r)) (snd r))) as [[[b t'] sc'] Ea]; [by destruct Hbi|].
  destruct (Hcor (snd r) Hbi) as [a2 Ea2].
  pose proof (correct_conf tid pc (fst ch) _ (snd r) u Sc.makeBranchInfo (setTage t1 s) Hconf) as Eq.
  rewrite Ea, Ea2 in Eq. injection Eq as Eq. cbn in Eq.
  destruct (predict_runs tid pc s c r t1 l u Ec E1 El Eu bm _ b t' sc' E2 Ea) as [h Ep].
  exists b, bm, h, t1. split_and!; [done|exact Ep| |].
  - unfold SclP.predictL1NoUpdate. rewrite (onTage_eq _ s _ _ E3). by destruct s as [[[]]].
  - rewrite Eq. exact (peek_runs tid pc s c r t1 l u Ec E1 El Eu a2 Ea2).
Qed.

(** [C24] In a configuration with defined shifts and a loop predictor without speculation (scl_config)
    and with a statistical corrector, in every state whose TAGE tables, loop table and corrector have
    their configured sizes and ranges (scl_ok, which holds after construction), and reading the
    uninitialised member loopPredUsed as some boolean j, the prediction of a conditional branch by TAGE-
    SC-L returns, for every j, and is late exactly when it corrects the first level: its latency is zero
    when it agrees with the bimodal prediction predictL1NoUpdate gives in the same state, and the static
    latency otherwise. *)
Theorem scl_late_iff_corrected tid pc s :
  scl_ok z sp p lp scp s -> 0 <= tid < tg_numThreads p ->
  exists pr h s' first, SclP.predict p lp scp (Some j) tid pc true s = Ok ((pr, Some h), s') /\
    SclP.predictL1NoUpdate p tid pc s = Ok (first, s) /\
    pred_latency pr = (if eqb first (pred_taken pr) then 0 else latencyOf s).
Proof.
  intros Hok Ht. destruct (predict_eval tid pc s Hok Ht) as (b & bm & h & t1 & _ & Ep & El & _).
  by exists (mkPrediction b (if eqb bm b then 0 else latencyOf s)), h, (setTage t1 s), bm.
Qed.

(** [predictNoUpdate] gives the direction that [predict] would give, and neither
    changes anything but the scratch vectors of TAGE: the tables, the histories,
    the loop predictor and the corrector are as before. *)
Theorem scl_peek_agrees tid pc s :
  scl_ok z sp p lp scp s -> 0 <= tid < tg_numThreads p ->
  exists b s', SclP.predictNoUpdate p lp scp (Some j) tid pc true s = Ok (b, s') /\
    (exists lat h, SclP.predict p lp scp (Some j) tid pc true s = Ok ((mkPrediction b lat, Some h), s')) /\
    exists t1, scratch_only (tage (lt_tage (scl_ltage s))) t1 /\ s' = setTage t1 s.
Proof.
  intros Hok Ht. destruct (predict_eval tid pc s Hok Ht) as (b & bm & h & t1 & Hsc & Ep & _ & En).
  exists b, (setTage t1 s). split; [done|]. split; [by eexists _, h|]. by exists t1.
Qed.
End Predict.

(** ** The 8 KB predictor *)

Definition TAGE_SC_L_8KB_LoopPredictor_params : LoopParams :=
  mkLoopParams 3 7 4 4 10 10 2 false true true true 0 7 false.

Definition fresh8 : TAGE_SC_L :=
  mkTAGE_SC_L (mkLTAGE sclFresh
    (okOr dummyLoop (Loop.make TAGE_SC_L_8KB_LoopPredictor_params (fun _ => 0))) 2) (Some freshSc8).

Lemma fresh8_config :
  scl_config KB8 TAGE_8KB_scl demoScl TAGE_SC_L_8KB_LoopPredictor_params demoSc8.
Proof.
  constructor; [exact demoScl_cfg|exact demoScl_scl|exact demoScl_size|reflexivity|exact (sc8_cfg 2 true)].
Qed.

Lemma fresh8_ok : scl_ok KB8 TAGE_8KB_scl demoScl TAGE_SC_L_8KB_LoopPredictor_params demoSc8 fresh8.
Proof.
  constructor.
  - destruct sclFresh_ok as [rands E].
    exact (proj1 (scl_init_ok TAGE_8KB_scl demoScl demoScl_cfg demoScl_scl _ _ ltac:(vm_compute; congruence) E)).
  - constructor; [constructor; vm_compute; split; congruence|vm_compute; reflexivity].
  - exists freshSc8. split; [reflexivity|]. destruct (scMake_ok KB8 demoSc8 (sc8_cfg 2 true)) as (s & E & Ht & Eh).
    rewrite freshSc8_ok in E. injection E as <-. split; [done|]. rewrite Eh.
    apply histInit_ok, (sc8_cfg 2 true).
Qed.

Lemma scl_late_iff_corrected_witness :
  exists pr h s' first, @SclP.predict demoScl TAGE_SC_L_8KB_LoopPredictor_params demoSc8 (Some false)
      (sclVirtual KB8 TAGE_8KB_scl demoScl) (SclLoop.SclLoop_v TAGE_SC_L_8KB_LoopPredictor_params)
      (scVirtual KB8 demoSc8) 0 0x440 true fresh8 = Ok ((pr, Some h), s') /\
    pred_latency pr = (if eqb first (pred_taken pr) then 0 else 1).
Proof.
  destruct (scl_late_iff_corrected KB8 TAGE_8KB_scl demoScl TAGE_SC_L_8KB_LoopPredictor_params demoSc8
    fresh8_config false 0 0x440 fresh8 fresh8_ok ltac:(vm_compute; split; congruence))
    as (pr & h & s' & first & E & _ & El).
  exists pr, h, s', first. split; [exact E|exact El].
Defined.

Lemma scl_peek_agrees_witness :
  exists b s', @SclP.predictNoUpdate demoScl TAGE_SC_L_8KB_LoopPredictor_params demoSc8 (Some true)
      (sclVirtual KB8 TAGE_8KB_scl demoScl) (SclLoop.SclLoop_v TAGE_SC_L_8KB_LoopPredictor_params)
      (scVirtual KB8 demoSc8) 0 0x440 true fresh8 = Ok (b, s').
Proof.
  destruct (scl_peek_agrees KB8 TAGE_8KB_scl demoScl TAGE_SC_L_8KB_LoopPredictor_params demoSc8
    fresh8_config true 0 0x440 fresh8 fresh8_ok ltac:(vm_compute; split; congruence))
    as (b & s' & E & _).
  exists b, s'. exact E.
Defined.

(** ** Outside the expectations of the code *)

(** A branch that missed the loop table cannot be committed: [loopUpdate]
    computes the position of way -1, and with hashing, which every loop predictor
    of TAGE-SC-L uses, that is a shift by -1. *)
Theorem scl_commit_undefined p lp scp V LV SV tid pc taken bi inst target s :
  useHashing lp = true -> useSpeculation lp = false -> loopHit (lpBranchInfo (ltInfo bi)) = -1 ->
  bi_condBranch (tageBranchInfo (ltInfo bi)) = true ->
  isOk (@SclP.update p lp scp V LV SV tid pc taken (Some bi) false inst target s) = false.
Proof.
  intros Hh Hs Hm Hc. unfold SclP.update. apply bind_fails_r. intros [] s1. rewrite bind_eq.
  change (deref (Some bi) s1) with (Ok (bi, s1) : Res (SclInfo * TAGE_SC_L)). cbv beta iota zeta.
  apply bind_fails_r. intros r s2. apply bind_fails_r. intros sh s3. apply bind_fails. rewrite Hc.
  do 3 (apply bind_fails_r; intros ? ?). apply bind_fails. unfold SclP.onLoop. do 2 apply zoom_fails.
  unfold Loop.condBranchUpdate. rewrite Hs, bind_eq. unfold mret at 1, M_ret at 1.
  apply bind_fails_r. intros v s9. by rewrite loop_miss_shift_undefined.
Qed.

(** A branch of the fresh predictor *)
Definition missed : SclInfo :=
  mkSclInfo (mkLTageInfo (TB.makeBranchInfo demoScl 0x440 true)
    (Loop.makeBranchInfo <| loopHit := -1 |> <| loopPredUsed := Some false |>)) Sc.makeBranchInfo.

Lemma scl_commit_undefined_witness :
  isOk (@SclP.update demoScl TAGE_SC_L_8KB_LoopPredictor_params demoSc8
    (sclVirtual KB8 TAGE_8KB_scl demoScl) (SclLoop.SclLoop_v TAGE_SC_L_8KB_LoopPredictor_params)
    (scVirtual KB8 demoSc8) 0 0x440 true (Some missed) false demoInst 0x400 fresh8) = false.
Proof. apply scl_commit_undefined; reflexivity. Defined.

(** A null corrector does not disable the correction: no branch can be predicted. *)
Theorem scl_needs_corrector p lp scp junk V LV SV tid pc c s :
  statisticalCorrector s = None -> @SclP.predict p lp scp junk V LV SV tid pc c s = Err NullDeref.
Proof.
  intros E. unfold SclP.predict, SclP.makeInfo, mbind, M_bind, gets. rewrite E. reflexivity.
Qed.
