(* ===== verification/Indirect.v ===== *)
(** * The indirect target predictor

    [cpu/pred/indirect.hh], the abstract class [IndirectPredictor] and its
    contract, and [cpu/pred/simple_indirect.cc], its default implementation: a
    set-associative target cache indexed by a hash of the branch address, the
    global direction history and the path of recent indirect targets.  The
    values of [rand()] are a sequence given to the model. *)

From Stdlib Require Import ZArith Lia.
From stdpp Require Import base list numbers.
From S2P Require Import Prelude Types Btb CondPred BiMode.

Class IndirectPredictor (I H : Type) := {
  ip_lookup : ThreadID -> Z -> Addr -> option H -> M I (option PCStateBase * option H);
  ip_update :
    ThreadID -> Z -> Addr -> bool -> bool -> PCStateBase -> BranchType -> option H -> M I (option H);
  ip_squash : ThreadID -> Z -> option H -> M I (option H);
  ip_commit : ThreadID -> Z -> option H -> M I (option H);
  ip_getStaticLatency : I -> Cycles
}.

(** The contract [BPredUnit] relies on, for a predictor of [n] threads: a lookup
    gets a null history, and [squash] and [commit] delete the history. *)
Class IndirectContract (I H : Type) `{!IndirectPredictor I H} := {
  ip_ok : Z -> I -> Prop;
  ip_lookup_ok n c tid sn pc :
    ip_ok n c -> 0 <= tid < n -> wp (ip_lookup tid sn pc None) (fun _ c' => ip_ok n c') c;
  ip_update_ok n c tid sn pc sq taken tgt ty h :
    ip_ok n c -> 0 <= tid < n ->
    wp (ip_update tid sn pc sq taken tgt ty h) (fun _ c' => ip_ok n c') c;
  ip_squash_ok n c tid sn h :
    ip_ok n c -> 0 <= tid < n ->
    wp (ip_squash tid sn h) (fun h' c' => ip_ok n c' /\ h' = None) c;
  ip_commit_ok n c tid sn h :
    ip_ok n c -> 0 <= tid < n ->
    wp (ip_commit tid sn h) (fun h' c' => ip_ok n c' /\ h' = None) c
}.

(** ** SimpleIndirectPredictor *)
Record SIParams := mkSIParams {
  hashGHR : bool;
  hashTargets : bool;
  numSets : Z;
  numWays : Z;
  si_tagBits : Z;
  pathLength : Z;
  speculativePathLength : Z;
  si_instShift : Z;
  ghrNumBits : Z;
  si_numThreads : Z;
  si_latency : Cycles
}.

Record IPredEntry := mkIPE { ipe_tag : Z; ipe_target : option PCStateBase }.
Record HistoryEntry := mkHE { he_pcAddr : Addr; he_targetAddr : Addr; he_seqNum : Z }.
Record ThreadInfo := mkTI { pathHist : list HistoryEntry; ghr : Z }.

Record IndirectHistory := mkIH {
  ih_pcAddr : Addr;
  ih_set_index : Z;
  ih_tag : Z;
  ih_hit : bool;
  ih_ghr : Z;
  was_indirect : bool
}.

#[export] Instance eta_IndirectHistory : Settable IndirectHistory := fun h =>
  mkIH (ih_pcAddr h) (ih_set_index h) (ih_tag h) (ih_hit h) (ih_ghr h) (was_indirect h).

Inductive IndirectStat :=
| IS_lookups | IS_hits | IS_misses | IS_targetRecords | IS_indirectRecords
| IS_speculativeOverflows.

Record SimpleIndirect := mkSI {
  targetCache : list (list IPredEntry);
  threadInfo : list ThreadInfo;
  rands : nat -> Z;
  randPos : nat;
  si_stats : list IndirectStat
}.

#[export] Instance eta_SimpleIndirect : Settable SimpleIndirect := fun s =>
  mkSI (targetCache s) (threadInfo s) (rands s) (randPos s) (si_stats s).

Module SI.
Section Operations.
Context (p : SIParams).

Definition ghrMask : Z := u32 (Z.shiftl 1 (ghrNumBits p) - 1).

Definition make (rands : nat -> Z) : Res SimpleIndirect :=
  if negb (isPowerOf2 (numSets p)) then Err Panic else
  if 32 <? ghrNumBits p then Err Fatal else
  Ok (mkSI (replicate (Z.to_nat (numSets p)) (replicate (Z.to_nat (numWays p)) (mkIPE 0 None)))
        (replicate (Z.to_nat (si_numThreads p)) (mkTI [] 0)) rands 0 []).

Definition stat (x : IndirectStat) : M SimpleIndirect unit :=
  modify (fun s => s <| si_stats ::= cons x |>).

Definition reset : M SimpleIndirect unit :=
  modify (fun s => s <| threadInfo ::= map (fun _ => mkTI [] 0) |>
    <| targetCache ::= map (map (fun e => mkIPE 0 (ipe_target e))) |>).

(** [threadInfo[tid]] *)
Definition info (tid : ThreadID) : M SimpleIndirect ThreadInfo :=
  o ← gets (fun s => threadInfo s !! Z.to_nat tid); at_index o.
Definition setInfo (tid : ThreadID) (t : ThreadInfo) : M SimpleIndirect unit :=
  info tid ;; modify (fun s => s <| threadInfo ::= <[Z.to_nat tid := t]> |>).

(** The hash loop of [getSetIndex], from the youngest path entry on. *)
Fixpoint hashPath (hash_shift : Z) (k : Z) (path : list HistoryEntry) (hash : Z) : Z :=
  match path with
  | [] => hash
  | e :: path' =>
      if k <? pathLength p then
        hashPath hash_shift (k + 1) path'
          (Z.lxor hash (Z.shiftr (he_targetAddr e) (si_instShift p + k * hash_shift)))
      else hash
  end.

Definition getSetIndex (br_addr : Addr) (t : ThreadInfo) : Res Z :=
  let hash := Z.shiftr br_addr (si_instShift p) in
  let hash := if hashGHR p then Z.lxor hash (ghr t) else hash in
  if hashTargets p then
    l ← floorLog2 4 (numSets p);
    if pathLength p =? 0 then Err DivByZero else
    Ok (Z.land (hashPath (l / pathLength p) 0 (reverse (pathHist t)) hash) (u32 (numSets p - 1)))
  else Ok (Z.land hash (u32 (numSets p - 1))).

Definition getTag (br_addr : Addr) : Z :=
  Z.land (Z.shiftr br_addr (si_instShift p)) (Z.shiftl 1 (si_tagBits p) - 1).

Definition genIndirectInfo (tid : ThreadID) : M SimpleIndirect IndirectHistory :=
  t ← info tid; mret (mkIH MaxAddr 0 0 false (ghr t) false).

Definition updateDirectionInfo (tid : ThreadID) (taken : bool) (pc target : Addr)
  : M SimpleIndirect unit :=
  t ← info tid;
  setInfo tid (mkTI (pathHist t) (Z.land (Z.lor (u32 (Z.shiftl (ghr t) 1)) (bitOf taken)) ghrMask)).

(** The first way with the tag and a target. *)
Definition wayHit (tag : Z) (e : IPredEntry) : bool :=
  (ipe_tag e =? tag) && bool_decide (ipe_target e <> None).

Definition lookupCache (tid : ThreadID) (br_addr : Addr) (history : IndirectHistory)
  : M SimpleIndirect (option PCStateBase * IndirectHistory) :=
  t ← info tid;
  si ← lift (getSetIndex br_addr t);
  let history := history <| ih_set_index := si |> <| ih_tag := getTag br_addr |> in
  massert (si <? numSets p) ;;
  stat IS_lookups ;;
  iset ← (o ← gets (fun s => targetCache s !! Z.to_nat si); at_index o);
  match find_index (wayHit (getTag br_addr)) iset with
  | Some w =>
      e ← at_index (iset !! w);
      stat IS_hits ;;
      mret (ipe_target e, history <| ih_hit := true |>)
  | None =>
      stat IS_misses ;;
      mret (None, history <| ih_hit := false |>)
  end.

Definition lookup (tid : ThreadID) (sn : Z) (pc : Addr) (i_history : option IndirectHistory)
  : M SimpleIndirect (option PCStateBase * option IndirectHistory) :=
  massert (bool_decide (i_history = None)) ;;
  h ← genIndirectInfo tid;
  r ← lookupCache tid pc (h <| ih_pcAddr := pc |> <| was_indirect := true |>);
  mret (fst r, Some (snd r)).

(** [while (pathHist.size() >= cap) pathHist.pop_front();] where popping an
    empty deque is an error. *)
Fixpoint trim (cap : Z) (path : list HistoryEntry) : Res (list HistoryEntry) :=
  if cap <=? Z.of_nat (length path) then
    match path with [] => Err OutOfRange | _ :: path' => trim cap path' end
  else Ok path.

Definition commit (tid : ThreadID) (sn : Z) (i_history : option IndirectHistory)
  : M SimpleIndirect (option IndirectHistory) :=
  match i_history with
  | None => mret None
  | Some _ =>
      t ← info tid;
      path ← lift (trim (u32 (pathLength p + speculativePathLength p)) (pathHist t));
      setInfo tid (mkTI path (ghr t)) ;;
      mret None
  end.

Definition isIndirectNoReturn (type : BranchType) : bool :=
  match type with CallIndirect | IndirectUncond | IndirectCond => true | _ => false end.

Definition recordTarget (tid : ThreadID) (sn : Z) (target : PCStateBase)
    (history : IndirectHistory) : M SimpleIndirect unit :=
  t ← info tid;
  massert (bool_decide (length (pathHist t) <> 0%nat)) ;;
  massert (was_indirect history) ;;
  massert (ih_set_index history <? numSets p) ;;
  stat IS_targetRecords ;;
  let i := Z.to_nat (ih_set_index history) in
  iset ← (o ← gets (fun s => targetCache s !! i); at_index o);
  match find_index (fun e => ipe_tag e =? ih_tag history) iset with
  | Some w =>
      modify (fun s => s <| targetCache ::= alter (alter (fun e =>
        mkIPE (ipe_tag e) (PCS.set (ipe_target e) (Some target))) w) i |>)
  | None =>
      if numWays p =? 0 then fault DivByZero else
      r ← gets (fun s => rands s (randPos s));
      let w := Z.to_nat (r mod numWays p) in
      at_index (iset !! w) ;;
      modify (fun s => s <| randPos ::= S |> <| targetCache ::= alter (alter (fun e =>
        mkIPE (ih_tag history) (PCS.set (ipe_target e) (Some target))) w) i |>)
  end.

(** The part of [update] that a squash repairs before the branch is recorded
    again. *)
Definition repair (tid : ThreadID) (history : IndirectHistory)
  : M SimpleIndirect IndirectHistory :=
  t ← info tid;
  setInfo tid (mkTI (pathHist t) (ih_ghr history)) ;;
  if was_indirect history then
    t ← info tid;
    let t' := mkTI (take (length (pathHist t) - 1) (pathHist t)) (ghr t) in
    setInfo tid t' ;;
    si ← lift (getSetIndex (ih_pcAddr history) t');
    mret (history <| ih_set_index := si |> <| ih_tag := getTag (ih_pcAddr history) |>)
  else mret history.

Definition update (tid : ThreadID) (sn : Z) (pc : Addr) (squash taken : bool)
    (target : PCStateBase) (br_type : BranchType) (i_history : option IndirectHistory)
  : M SimpleIndirect (option IndirectHistory) :=
  history ← match i_history with Some h => mret h | None => genIndirectInfo tid end;
  let history := history <| was_indirect := isIndirectNoReturn br_type |> in
  history ← (if squash then repair tid history else mret history);
  when (was_indirect history)
    (t ← info tid;
     setInfo tid (mkTI (pathHist t ++ [mkHE (ih_pcAddr history) (instAddr target) sn]) (ghr t)) ;;
     stat IS_indirectRecords) ;;
  updateDirectionInfo tid taken (ih_pcAddr history) (instAddr target) ;;
  when (squash && was_indirect history && taken) (recordTarget tid sn target history) ;;
  mret (Some history).

Definition squash (tid : ThreadID) (sn : Z) (i_history : option IndirectHistory)
  : M SimpleIndirect (option IndirectHistory) :=
  match i_history with
  | None => mret None
  | Some history =>
      t ← info tid;
      setInfo tid (mkTI (pathHist t) (ih_ghr history)) ;;
      when (was_indirect history)
        (t ← info tid;
         when (Z.of_nat (length (pathHist t)) <? pathLength p) (stat IS_speculativeOverflows) ;;
         setInfo tid (mkTI (take (length (pathHist t) - 1) (pathHist t)) (ghr t))) ;;
      mret None
  end.
End Operations.
End SI.

(** ** Invariant *)
Record goodSI (p : SIParams) : Prop := {
  gs_pow : isPowerOf2 (numSets p) = true;
  gs_sets : 0 < numSets p < 2 ^ 32;
  gs_ways : 0 < numWays p;
  gs_path : 0 < pathLength p;
  gs_cap : 0 <= speculativePathLength p /\ pathLength p + speculativePathLength p < 2 ^ 32
}.

Section Rules.
Context (p : SIParams) (Hp : goodSI p).

Record si_ok (n : Z) (s : SimpleIndirect) : Prop := {
  so_info : length (threadInfo s) = Z.to_nat n;
  so_sets : length (targetCache s) = Z.to_nat (numSets p);
  so_ways : Forall (fun iset => length iset = Z.to_nat (numWays p)) (targetCache s)
}.

Lemma si_make_ok rs s : SI.make p rs = Ok s -> si_ok (si_numThreads p) s.
Proof.
  unfold SI.make. destruct (negb _); [done|]. destruct (32 <? _); [done|]. intros [= <-].
  constructor; cbn; rewrite ?length_replicate; [done..|].
  apply list.Forall_replicate. by rewrite length_replicate.
Qed.

Lemma si_ok_info n s i t : si_ok n s -> si_ok n (s <| threadInfo ::= <[i := t]> |>).
Proof. intros []. constructor; try assumption. cbn. by rewrite length_insert. Qed.
Lemma si_ok_stat n s x : si_ok n s -> si_ok n (s <| si_stats ::= cons x |>).
Proof. by intros []. Qed.

Lemma getSetIndex_ok a t : exists si, SI.getSetIndex p a t = Ok si /\ 0 <= si < numSets p.
Proof.
  assert (Hm : forall h, 0 <= Z.land h (u32 (numSets p - 1)) < numSets p).
  { intros h. pose proof (gs_sets _ Hp). rewrite u32_small by lia.
    apply mask_index; [apply Hp|lia]. }
  unfold SI.getSetIndex. destruct (hashTargets p); [|by eexists].
  rewrite floorLog2_correct; [|auto|apply Hp]. cbv [mbind Res_bind].
  pose proof (gs_path _ Hp). destruct (Z.eqb_spec (pathLength p) 0); [lia|]. by eexists.
Qed.

Lemma trim_ok path : exists path',
  SI.trim (u32 (pathLength p + speculativePathLength p)) path = Ok path'.
Proof.
  pose proof (gs_path _ Hp). pose proof (gs_cap _ Hp). rewrite u32_small by lia.
  induction path as [|e path IH]; cbn [SI.trim]; case_match; eauto.
  apply Z.leb_le in H1. cbn in H1. lia.
Qed.

Section Thread.
Context (n : Z) (tid : ThreadID) (Ht : 0 <= tid < n).

Lemma wp_info s (Q : ThreadInfo -> SimpleIndirect -> Prop) :
  si_ok n s -> (forall t, threadInfo s !! Z.to_nat tid = Some t -> Q t s) -> wp (SI.info tid) Q s.
Proof.
  intros H HQ. destruct (at_table (threadInfo s) tid n) as [t E]; [apply H|done|].
  unfold SI.info. wp_steps. eapply wp_at_index; [exact E|]. by apply HQ.
Qed.

Lemma wp_setInfo t s (Q : unit -> SimpleIndirect -> Prop) :
  si_ok n s -> Q tt (s <| threadInfo ::= <[Z.to_nat tid := t]> |>) -> wp (SI.setInfo tid t) Q s.
Proof. intros H HQ. unfold SI.setInfo. wp_steps. apply wp_info; [done|]. intros t' _. by wp_steps. Qed.

(** The tables and the thread's registers after a lookup are unchanged; the
    answer is the target of the first way that matches. *)
Definition cached (s : SimpleIndirect) (si tag : Z) : option PCStateBase :=
  iset ← targetCache s !! Z.to_nat si;
  w ← find_index (SI.wayHit tag) iset;
  e ← iset !! w;
  ipe_target e.

Definition same_tables (s s' : SimpleIndirect) : Prop :=
  targetCache s' = targetCache s /\ threadInfo s' = threadInfo s.

Lemma wp_si_lookup sn pc s (Q : option PCStateBase * option IndirectHistory -> SimpleIndirect -> Prop) :
  si_ok n s ->
  (forall t si b s', threadInfo s !! Z.to_nat tid = Some t -> SI.getSetIndex p pc t = Ok si ->
     si_ok n s' -> same_tables s s' ->
     Q (cached s si (SI.getTag p pc), Some (mkIH pc si (SI.getTag p pc) b (ghr t) true)) s') ->
  wp (SI.lookup p tid sn pc None) Q s.
Proof.
  intros H HQ. unfold SI.lookup, SI.genIndirectInfo, SI.lookupCache, SI.stat. wp_steps.
  apply wp_massert; [done|]. wp_steps. apply wp_info; [done|]. intros t E. wp_steps.
  apply wp_info; [done|]. intros t' E'. simplify_eq. wp_steps.
  destruct (getSetIndex_ok pc t) as (si & Esi & Hsi).
  eapply wp_lift; [exact Esi|]. wp_steps. apply wp_massert; [apply Z.ltb_lt; lia|]. wp_steps.
  destruct (at_table (targetCache s) si _ (so_sets _ _ H) Hsi) as [iset Eset].
  eapply wp_at_index; [exact Eset|].
  destruct (find_index _ iset) as [w|] eqn:Ew; wp_steps.
  - destruct (find_index_Some _ _ _ Ew) as (e & Ee & _). eapply wp_at_index; [exact Ee|].
    wp_steps. cbn [fst snd].
    assert (ipe_target e = cached s si (SI.getTag p pc)) as ->.
    { unfold cached. rewrite Eset. cbv [mbind option_bind]. by rewrite Ew, Ee. }
    apply (HQ t si true); [done..|by apply si_ok_stat, si_ok_stat|done].
  - cbn [fst snd].
    assert (None = cached s si (SI.getTag p pc)) as En.
    { unfold cached. rewrite Eset. cbv [mbind option_bind]. by rewrite Ew. }
    rewrite En at 1. apply (HQ t si false); [done..|by apply si_ok_stat, si_ok_stat|done].
Qed.

Lemma find_index_before {A} (f : A -> bool) l w j x :
  find_index f l = Some w -> (j < w)%nat -> l !! j = Some x -> f x = false.
Proof.
  revert w j. induction l as [|y l IH]; intros w j; cbn; [done|].
  destruct (f y) eqn:Ey; [intros [= <-]; lia|].
  destruct (find_index f l) as [w'|] eqn:E; cbn; [|done]. intros [= <-] Hj.
  destruct j as [|j]; cbn; [by intros [= <-]|]. apply (IH w'); [done|lia].
Qed.

Lemma find_index_alter {A} (f : A -> bool) (g : A -> A) l w y :
  (forall j x, (j < w)%nat -> l !! j = Some x -> f x = false) ->
  l !! w = Some y -> f (g y) = true -> find_index f (alter g w l) = Some w.
Proof.
  revert w. induction l as [|x l IH]; intros w Hlt Hw Hf; [done|].
  destruct w as [|w]; cbn in *.
  - injection Hw as ->. by rewrite Hf.
  - rewrite (Hlt 0%nat x) by (done || lia).
    change (S <$> find_index f (alter g w l) = Some (S w)).
    rewrite (IH w); [done| |done|done].
    intros j z Hj Hz. apply (Hlt (S j)); [lia|done].
Qed.

Lemma cached_alter s si tag iset w y g t :
  targetCache s !! Z.to_nat si = Some iset ->
  (forall j x, (j < w)%nat -> iset !! j = Some x -> ipe_tag x <> tag) ->
  iset !! w = Some y -> g y = mkIPE tag (Some t) ->
  cached (s <| targetCache ::= alter (alter g w) (Z.to_nat si) |>) si tag = Some t.
Proof.
  intros Eset Hlt Ey Hg. unfold cached. cbn [targetCache].
  assert (E1 : targetCache (s <| targetCache ::= alter (alter g w) (Z.to_nat si) |>) !! Z.to_nat si
    = Some (alter g w iset)) by (cbn; by rewrite list_lookup_alter_eq, Eset).
  rewrite E1. cbv [mbind option_bind].
  rewrite (find_index_alter _ g iset w y); [|..].
  - by rewrite list_lookup_alter_eq, Ey; cbn; rewrite Hg.
  - intros j x Hj Hx. unfold SI.wayHit. apply andb_false_iff. left. apply Z.eqb_neq. eauto.
  - done.
  - rewrite Hg. unfold SI.wayHit. cbn. by rewrite Z.eqb_refl.
Qed.

Lemma si_ok_cache s i w g :
  si_ok n s -> si_ok n (s <| targetCache ::= alter (alter g w) i |>).
Proof.
  intros []. constructor; try assumption; cbn; [by rewrite length_alter|].
  apply Forall_alter; [done|]. intros iset _ Hl. by rewrite length_alter.
Qed.

(** [recordTarget] makes the target the answer for its set and tag. *)
Lemma wp_recordTarget sn target h s (Q : unit -> SimpleIndirect -> Prop) :
  si_ok n s -> was_indirect h = true -> 0 <= ih_set_index h < numSets p ->
  (exists t, threadInfo s !! Z.to_nat tid = Some t /\ pathHist t <> []) ->
  (forall s', si_ok n s' -> threadInfo s' = threadInfo s ->
     cached s' (ih_set_index h) (ih_tag h) = Some target -> Q tt s') ->
  wp (SI.recordTarget p tid sn target h) Q s.
Proof.
  intros H Hwas Hsi (t & Et & Hpath) HQ. unfold SI.recordTarget, SI.stat. wp_steps.
  apply wp_info; [done|]. intros t' Et'. simplify_eq. wp_steps.
  apply wp_massert; [apply bool_decide_eq_true; by destruct (pathHist t)|]. wp_steps.
  apply wp_massert; [done|]. wp_steps. apply wp_massert; [apply Z.ltb_lt; lia|]. wp_steps.
  destruct (at_table (targetCache s) _ _ (so_sets _ _ H) Hsi) as [iset Eset].
  eapply wp_at_index; [exact Eset|].
  assert (Hlen : length iset = Z.to_nat (numWays p)).
  { apply (proj1 (list.Forall_forall _ _) (so_ways _ _ H)). by eapply list_elem_of_lookup_2. }
  pose proof (gs_ways _ Hp) as Hways.
  destruct (find_index _ iset) as [w|] eqn:Ew; wp_steps.
  - destruct (find_index_Some _ _ _ Ew) as (e & Ee & Htag). apply Z.eqb_eq in Htag.
    apply HQ; [by apply si_ok_cache, si_ok_stat|done|].
    eapply cached_alter; [exact Eset| |exact Ee|].
    + intros j x Hj Hx. apply Z.eqb_neq. by eapply (find_index_before _ _ _ _ _ Ew).
    + rewrite Htag. f_equal. unfold PCS.set. destruct (ipe_target e); [by destruct target|done].
  - apply Z.eqb_eq in H0. lia.
  - destruct (at_table iset (rands s (randPos s) mod numWays p) (numWays p) Hlen) as [e Ee].
    { by apply Z.mod_pos_bound. }
    eapply wp_at_index; [exact Ee|]. wp_steps.
    apply HQ; [|done|].
    + apply si_ok_cache. by destruct H.
    + eapply cached_alter; [exact Eset| |exact Ee|].
      * intros j x _ Hx. apply find_index_None in Ew. apply Z.eqb_neq.
        apply (proj1 (list.Forall_forall _ _) Ew). by eapply list_elem_of_lookup_2.
      * f_equal. unfold PCS.set. destruct (ipe_target e); [by destruct target|done].
Qed.

(** The path of a thread after [update] of a branch: an indirect branch is
    appended, in place of its old entry when the update repairs a
    misprediction. *)
Definition basePath (sq ind : bool) (path : list HistoryEntry) : list HistoryEntry :=
  if sq && ind then take (length path - 1) path else path.

(** The history an [update] works on. *)
Definition workHist (h : option IndirectHistory) (t : ThreadInfo) (ind : bool) : IndirectHistory :=
  (default (mkIH MaxAddr 0 0 false (ghr t) false) h) <| was_indirect := ind |>.

Record updated (s : SimpleIndirect) (t : ThreadInfo) (sn : Z) (sq taken : bool)
    (target : PCStateBase) (ty : BranchType) (h : option IndirectHistory)
    (h' : IndirectHistory) (s' : SimpleIndirect) : Prop := {
  up_ok : si_ok n s';
  up_pc : ih_pcAddr h' = ih_pcAddr (workHist h t (SI.isIndirectNoReturn ty));
  up_ghr : ih_ghr h' = ih_ghr (workHist h t (SI.isIndirectNoReturn ty));
  up_ind : was_indirect h' = SI.isIndirectNoReturn ty;
  up_info : exists g, threadInfo s' = <[Z.to_nat tid :=
    mkTI (basePath sq (SI.isIndirectNoReturn ty) (pathHist t) ++
          if SI.isIndirectNoReturn ty then [mkHE (ih_pcAddr h') (instAddr target) sn] else []) g]>
    (threadInfo s);
  up_cache : if sq && SI.isIndirectNoReturn ty && taken then
      exists si, SI.getSetIndex p (ih_pcAddr h')
                   (mkTI (basePath sq true (pathHist t)) (ih_ghr h')) = Ok si /\
        cached s' si (SI.getTag p (ih_pcAddr h')) = Some target
    else targetCache s' = targetCache s
}.

Lemma wp_updateDirectionInfo taken pc tgt s (Q : unit -> SimpleIndirect -> Prop) :
  si_ok n s ->
  (forall t g, threadInfo s !! Z.to_nat tid = Some t ->
     Q tt (s <| threadInfo ::= <[Z.to_nat tid := mkTI (pathHist t) g]> |>)) ->
  wp (SI.updateDirectionInfo p tid taken pc tgt) Q s.
Proof.
  intros H HQ. unfold SI.updateDirectionInfo. wp_steps. apply wp_info; [done|]. intros t E. wp_steps.
  apply wp_setInfo; [done|]. by apply HQ.
Qed.

Lemma info_set s t :
  is_Some (threadInfo s !! Z.to_nat tid) ->
  threadInfo (s <| threadInfo ::= <[Z.to_nat tid := t]> |>) !! Z.to_nat tid = Some t.
Proof. intros H. cbn. apply list_lookup_insert_eq. by apply lookup_lt_is_Some_1. Qed.

(** The tail of [update], after the repair. *)
Lemma wp_record sn sq taken target (h : IndirectHistory) s t (Q : option IndirectHistory -> SimpleIndirect -> Prop) :
  si_ok n s -> threadInfo s !! Z.to_nat tid = Some t ->
  (sq && was_indirect h && taken = true -> 0 <= ih_set_index h < numSets p) ->
  (forall s' g, si_ok n s' ->
     threadInfo s' = <[Z.to_nat tid := mkTI (pathHist t ++
       if was_indirect h then [mkHE (ih_pcAddr h) (instAddr target) sn] else []) g]> (threadInfo s) ->
     (if sq && was_indirect h && taken then cached s' (ih_set_index h) (ih_tag h) = Some target
      else targetCache s' = targetCache s) -> Q (Some h) s') ->
  wp (when (was_indirect h)
        (t ← SI.info tid;
         SI.setInfo tid (mkTI (pathHist t ++ [mkHE (ih_pcAddr h) (instAddr target) sn]) (ghr t)) ;;
         SI.stat IS_indirectRecords) ;;
      SI.updateDirectionInfo p tid taken (ih_pcAddr h) (instAddr target) ;;
      when (sq && was_indirect h && taken) (SI.recordTarget p tid sn target h) ;;
      mret (Some h)) Q s.
Proof.
  intros H Et Hsi HQ. unfold SI.stat. destruct (was_indirect h) eqn:Ew; unfold when at 1.
  - wp_steps; [|done]. apply wp_info; [done|]. intros t' Et'. simplify_eq. wp_steps.
    apply wp_setInfo; [done|]. wp_steps.
    apply wp_updateDirectionInfo; [by apply si_ok_stat, si_ok_info|].
    intros t1 g E1. cbn in E1.
    rewrite list_lookup_insert_eq in E1 by (by eapply lookup_lt_Some). injection E1 as <-.
    cbn [pathHist]. rewrite andb_true_r in *. wp_steps.
    + apply wp_recordTarget; [by apply si_ok_info, si_ok_stat, si_ok_info|done|auto| |].
      * eexists. split; [apply info_set; cbn; rewrite list_lookup_insert_eq; [done|by eapply lookup_lt_Some]|].
        cbn. by destruct (pathHist t).
      * intros s' Hok Einfo Hc. wp_steps. apply (HQ s' g); [done| |by rewrite H0].
        rewrite Einfo. cbn. by rewrite list_insert_insert_eq.
    + apply (HQ _ g); [by apply si_ok_info, si_ok_stat, si_ok_info| |by rewrite H0].
      cbn. by rewrite list_insert_insert_eq.
  - wp_steps; [done|]. apply wp_updateDirectionInfo; [done|]. intros t1 g E1. simplify_eq.
    rewrite andb_false_r in *. cbn [andb]. unfold when. wp_steps.
    apply (HQ _ g); [by apply si_ok_info| |done]. cbn. by rewrite app_nil_r.
Qed.

Lemma wp_repair h0 s t (Q : IndirectHistory -> SimpleIndirect -> Prop) :
  si_ok n s -> threadInfo s !! Z.to_nat tid = Some t ->
  let base := basePath true (was_indirect h0) (pathHist t) in
  (forall h' s', si_ok n s' -> targetCache s' = targetCache s ->
     threadInfo s' = <[Z.to_nat tid := mkTI base (ih_ghr h0)]> (threadInfo s) ->
     ih_pcAddr h' = ih_pcAddr h0 -> ih_ghr h' = ih_ghr h0 -> was_indirect h' = was_indirect h0 ->
     (was_indirect h0 = true ->
        SI.getSetIndex p (ih_pcAddr h0) (mkTI base (ih_ghr h0)) = Ok (ih_set_index h') /\
        0 <= ih_set_index h' < numSets p /\ ih_tag h' = SI.getTag p (ih_pcAddr h0)) ->
     Q h' s') ->
  wp (SI.repair p tid h0) Q s.
Proof.
  intros H Et base HQ. subst base. unfold basePath in HQ. unfold SI.repair. wp_steps.
  apply wp_info; [done|]. intros t' Et'. simplify_eq. wp_steps.
  apply wp_setInfo; [done|]. wp_steps; rewrite H0 in HQ; cbn [andb] in HQ.
  - apply wp_info; [by apply si_ok_info|]. intros t1 E1. rewrite info_set in E1 by (by rewrite Et).
    injection E1 as <-. cbn [pathHist ghr]. wp_steps. apply wp_setInfo; [by apply si_ok_info|].
    destruct (getSetIndex_ok (ih_pcAddr h0)
      (mkTI (take (length (pathHist t) - 1) (pathHist t)) (ih_ghr h0))) as (si & Esi & Hsi).
    wp_steps. eapply wp_lift; [exact Esi|]. wp_steps.
    apply HQ; [by apply si_ok_info, si_ok_info|done| |done..].
    cbn. by rewrite list_insert_insert_eq.
  - by apply HQ; [apply si_ok_info|..].
Qed.

Lemma wp_si_update sn pc sq taken target ty h s t (Q : option IndirectHistory -> SimpleIndirect -> Prop) :
  si_ok n s -> threadInfo s !! Z.to_nat tid = Some t ->
  (forall h' s', updated s t sn sq taken target ty h h' s' -> Q (Some h') s') ->
  wp (SI.update p tid sn pc sq taken target ty h) Q s.
Proof.
  intros H Et HQ. unfold SI.update. apply wp_bind.
  assert (Hgen : wp (match h with Some h => mret h | None => SI.genIndirectInfo tid end)
    (fun h0 s0 => s0 = s /\ h0 = default (mkIH MaxAddr 0 0 false (ghr t) false) h) s).
  { destruct h as [h|]; [by apply wp_ret|]. unfold SI.genIndirectInfo. wp_steps.
    apply wp_info; [done|]. intros t' Et'. simplify_eq. by wp_steps. }
  eapply wp_mono; [exact Hgen|]. intros h0 s0 [-> ->]. clear Hgen.
  set (ind := SI.isIndirectNoReturn ty). set (h0 := default _ h).
  apply wp_bind. destruct sq; [|apply wp_ret].
  - apply (wp_repair _ _ t); [done..|]. cbn [was_indirect setf].
    intros h' s0 Hok0 Hc0 Hi0 Hpc Hg Hind Hsi. cbn in Hpc, Hg, Hind, Hsi.
    assert (Et0 : threadInfo s0 !! Z.to_nat tid = Some (mkTI (basePath true ind (pathHist t)) (ih_ghr h0))).
    { rewrite Hi0. apply list_lookup_insert_eq. by eapply lookup_lt_Some. }
    eapply wp_record; [done|exact Et0| |].
    { rewrite Hind. intros [[_ E]%andb_true_iff _]%andb_true_iff. by apply Hsi. }
    intros s' g Hok Ei Hc. apply HQ. rewrite Hind in *. constructor; try done.
    + exists g. rewrite Ei, Hi0. by rewrite list_insert_insert_eq.
    + fold ind. cbn [andb] in *. destruct (ind && taken) eqn:E; [|by rewrite Hc].
      apply andb_true_iff in E as [E _]. destruct (Hsi E) as (Esi & _ & Htag).
      exists (ih_set_index h'). rewrite E in Esi. rewrite Hpc, Hg, <- Htag. done.
  - eapply wp_record; [done|exact Et|done|]. intros s' g Hok Ei Hc. apply HQ. constructor; try done.
    by exists g.
Qed.

Lemma wp_si_squash sn h s t (Q : option IndirectHistory -> SimpleIndirect -> Prop) :
  si_ok n s -> threadInfo s !! Z.to_nat tid = Some t ->
  (forall s', si_ok n s' -> targetCache s' = targetCache s ->
     threadInfo s' = match h with
       | None => threadInfo s
       | Some h => <[Z.to_nat tid := mkTI (basePath true (was_indirect h) (pathHist t)) (ih_ghr h)]>
                     (threadInfo s)
       end -> Q None s') ->
  wp (SI.squash p tid sn h) Q s.
Proof.
  intros H Et HQ. unfold SI.squash, SI.stat. destruct h as [h|]; [|apply wp_ret; by apply HQ].
  wp_steps; apply wp_info; try done; intros t' Et'; simplify_eq; wp_steps;
    (apply wp_setInfo; [done|]); wp_steps.
  - apply wp_info; [by apply si_ok_info|]. intros t1 E1. rewrite info_set in E1 by (by rewrite Et).
    injection E1 as <-. cbn [pathHist ghr]. unfold basePath in HQ. rewrite H0 in HQ. cbn [andb] in HQ.
    wp_steps.
    + apply wp_setInfo; [by apply si_ok_stat, si_ok_info|]. wp_steps.
      apply HQ; [by apply si_ok_info, si_ok_stat, si_ok_info|done|]. cbn.
      by rewrite list_insert_insert_eq.
    + apply wp_setInfo; [by apply si_ok_info|]. wp_steps.
      apply HQ; [by apply si_ok_info, si_ok_info|done|]. cbn. by rewrite list_insert_insert_eq.
  - unfold basePath in HQ. rewrite H0 in HQ. apply HQ; [by apply si_ok_info|done|done].
Qed.
End Thread.
End Rules.

(** ** The contract holds *)
#[export] Instance SimpleIndirect_ip (p : SIParams)
  : IndirectPredictor SimpleIndirect IndirectHistory := {|
  ip_lookup := SI.lookup p;
  ip_update := SI.update p;
  ip_squash := SI.squash p;
  ip_commit := SI.commit p;
  ip_getStaticLatency := fun _ => si_latency p
|}.

Lemma si_thread p n tid s :
  si_ok p n s -> 0 <= tid < n -> exists t, threadInfo s !! Z.to_nat tid = Some t.
Proof. intros H Ht. apply (at_table (threadInfo s) tid n); [apply H|done]. Qed.

Definition SimpleIndirect_contract (p : SIParams) (Hp : goodSI p) :
  @IndirectContract SimpleIndirect IndirectHistory (SimpleIndirect_ip p).
Proof.
  refine (@Build_IndirectContract _ _ (SimpleIndirect_ip p) (si_ok p) _ _ _ _).
  - intros n s tid sn pc H Ht. by apply (wp_si_lookup p Hp n tid Ht).
  - intros n s tid sn pc sq taken tgt ty h H Ht. destruct (si_thread p n tid s H Ht) as [t Et].
    apply (wp_si_update p Hp n tid Ht _ _ _ _ _ _ _ _ t); [done..|]. intros h' s' Hu. apply Hu.
  - intros n s tid sn h H Ht. destruct (si_thread p n tid s H Ht) as [t Et].
    by apply (wp_si_squash p n tid Ht _ _ _ t).
  - intros n s tid sn h H Ht. cbn. unfold SI.commit. destruct h as [h|]; [|by apply wp_ret].
    wp_steps. apply (wp_info p n tid Ht); [done|]. intros t Et. wp_steps.
    destruct (trim_ok p Hp (pathHist t)) as [path Epath].
    eapply wp_lift; [exact Epath|]. wp_steps. apply (wp_setInfo p n tid Ht); [done|]. wp_steps.
    split; [by apply si_ok_info|done].
Defined.

(** ** Properties *)

Lemma take_snoc (l : list HistoryEntry) e : take (length (l ++ [e]) - 1) (l ++ [e]) = l.
Proof. rewrite length_app. cbn. rewrite Nat.add_sub. apply take_app_length. Qed.

(** The indirect predictor learns a target: when an indirect branch that
    was looked up turns out mispredicted and taken, the corrected target is
    the answer to the next lookup of the branch under the same path and
    direction history (reached by squashing the branch). *)
Theorem indirect_learns p n tid sn pc taken0 target0 target ty (s : SimpleIndirect) :
  goodSI p -> si_ok p n s -> 0 <= tid < n -> SI.isIndirectNoReturn ty = true ->
  wp (r ← SI.lookup p tid sn pc None;
      h ← SI.update p tid sn pc false taken0 target0 ty (snd r);
      h ← SI.update p tid sn pc true true target ty h;
      SI.squash p tid sn h ;;
      SI.lookup p tid sn pc None)
     (fun r _ => fst r = Some target) s.
Proof.
  intros Hp H Ht Hty. wp_steps. apply (wp_si_lookup p Hp n tid Ht); [done|].
  intros t si b s1 Et Esi H1 [Hc1 Hi1]. wp_steps. cbn [snd].
  apply (wp_si_update p Hp n tid Ht _ _ _ _ _ _ _ _ t); [done|by rewrite Hi1|].
  intros h2 s2 [H2 Hpc2 Hg2 Hw2 (g2 & Hi2) Hc2]. rewrite Hty in *. cbn in Hpc2, Hg2, Hc2.
  assert (Hlen : (Z.to_nat tid < length (threadInfo s))%nat) by (by eapply lookup_lt_Some).
  wp_steps. eapply (wp_si_update p Hp n tid Ht); [done|rewrite Hi2; apply list_lookup_insert_eq; by rewrite Hi1|].
  intros h3 s3 [H3 Hpc3 Hg3 Hw3 (g3 & Hi3) Hc3]. rewrite Hty in *. cbn in Hpc3, Hg3.
  cbn [andb basePath pathHist] in Hi3, Hc3. unfold basePath in Hi3, Hc3. cbn [andb pathHist] in Hi3, Hc3.
  rewrite take_snoc in Hi3, Hc3. rewrite Hpc3, Hpc2, Hg3, Hg2 in *.
  destruct Hc3 as (si' & Esi' & Hcache).
  assert (si' = si) as -> by (destruct t; cbn in *; congruence).
  wp_steps. eapply (wp_si_squash p n tid Ht); [done|rewrite Hi3; apply list_lookup_insert_eq;
    rewrite Hi2, length_insert, Hi1; done|].
  intros s4 H4 Hc4 Hi4. rewrite Hw3, Hg3 in Hi4. unfold basePath in Hi4. cbn [andb pathHist] in Hi4.
  rewrite take_snoc in Hi4.
  wp_steps. apply (wp_si_lookup p Hp n tid Ht); [done|].
  intros t5 si5 b5 s5 Et5 Esi5 _ _. cbn [fst].
  rewrite Hi4, list_lookup_insert_eq in Et5 by (by rewrite Hi3, length_insert, Hi2, length_insert, Hi1).
  injection Et5 as <-. assert (si5 = si) as -> by congruence.
  unfold cached in *. by rewrite Hc4.
Qed.

Definition demoSI : SIParams := mkSIParams true true 16 2 8 3 16 2 13 1 1.
Lemma demoSI_good : goodSI demoSI.
Proof. by constructor. Defined.

Lemma indirect_learns_witness :
  exists s, SI.make demoSI (fun _ => 0) = Ok s /\
    wp (r ← SI.lookup demoSI 0 7 0x400 None;
        h ← SI.update demoSI 0 7 0x400 false true (mkPC 0x404 0) CallIndirect (snd r);
        h ← SI.update demoSI 0 7 0x400 true true (mkPC 0x900 0) CallIndirect h;
        SI.squash demoSI 0 7 h ;;
        SI.lookup demoSI 0 7 0x400 None)
       (fun r _ => fst r = Some (mkPC 0x900 0)) s.
Proof.
  eexists. split; [vm_compute; reflexivity|].
  apply (indirect_learns demoSI 1); [exact demoSI_good| |lia|reflexivity].
  apply (si_make_ok demoSI (fun _ => 0)). vm_compute. reflexivity.
Defined.

(** A predicted branch: whether [BPredUnit] asked for an indirect target, and
    what it then recorded. *)
Record IndBranch := mkInd {
  ib_lookup : bool;
  ib_sn : Z;
  ib_pc : Addr;
  ib_taken : bool;
  ib_target : PCStateBase;
  ib_type : BranchType
}.

Definition indSpeculate (p : SIParams) (tid : ThreadID) (b : IndBranch)
  : M SimpleIndirect (option IndirectHistory) :=
  h ← (if ib_lookup b then r ← SI.lookup p tid (ib_sn b) (ib_pc b) None; mret (snd r)
       else mret None);
  SI.update p tid (ib_sn b) (ib_pc b) false (ib_taken b) (ib_target b) (ib_type b) h.

Fixpoint indSpeculateAll (p : SIParams) (tid : ThreadID) (bs : list IndBranch)
  : M SimpleIndirect (list (Z * option IndirectHistory)) :=
  match bs with
  | [] => mret []
  | b :: bs' => h ← indSpeculate p tid b; hs ← indSpeculateAll p tid bs'; mret (hs ++ [(ib_sn b, h)])
  end.

Definition indRollback (p : SIParams) (tid : ThreadID) (hs : list (Z * option IndirectHistory))
  : M SimpleIndirect unit :=
  mfor hs (fun '(sn, h) => SI.squash p tid sn h ;; mret tt).

Section Rollback.
Context (p : SIParams) (Hp : goodSI p) (n : Z) (tid : ThreadID) (Ht : 0 <= tid < n).

Lemma indSpeculate_undo b s :
  si_ok p n s ->
  wp (indSpeculate p tid b) (fun h s1 => si_ok p n s1 /\
    forall s1', si_ok p n s1' -> same_tables s1 s1' ->
      wp (SI.squash p tid (ib_sn b) h) (fun _ s' => si_ok p n s' /\ same_tables s s') s1') s.
Proof.
  intros H. destruct (si_thread p n tid s H Ht) as [t Et].
  assert (Hlen : (Z.to_nat tid < length (threadInfo s))%nat) by (by eapply lookup_lt_Some).
  assert (Hrest : forall s0 h, si_ok p n s0 -> same_tables s s0 ->
    (h = None \/ exists h0, h = Some h0 /\ ih_ghr h0 = ghr t) ->
    wp (SI.update p tid (ib_sn b) (ib_pc b) false (ib_taken b) (ib_target b) (ib_type b) h)
      (fun h s1 => si_ok p n s1 /\ forall s1', si_ok p n s1' -> same_tables s1 s1' ->
        wp (SI.squash p tid (ib_sn b) h) (fun _ s' => si_ok p n s' /\ same_tables s s') s1') s0).
  { intros s0 h H0 [Hc0 Hi0] Hh.
    apply (wp_si_update p Hp n tid Ht _ _ _ _ _ _ _ _ t); [done|by rewrite Hi0|].
    intros h1 s1 [H1 _ Hg1 Hw1 (g & Hi1) Hc1]. cbn [andb] in Hc1. split; [done|].
    assert (Hghr : ih_ghr h1 = ghr t).
    { rewrite Hg1. by destruct Hh as [->|(h0 & -> & E)]. }
    intros s1' H1' [Hc1' Hi1'].
    eapply (wp_si_squash p n tid Ht); [done| |].
    { rewrite Hi1', Hi1. apply list_lookup_insert_eq. by rewrite Hi0. }
    intros s' H' Hc' Hi'. split; [done|]. split; [congruence|].
    rewrite Hi', Hi1', Hi1, Hi0, list_insert_insert_eq, Hghr, Hw1. unfold basePath. cbn [andb].
    cbn [pathHist].
    replace (if SI.isIndirectNoReturn (ib_type b) then _ else _) with (pathHist t)
      by (destruct (SI.isIndirectNoReturn (ib_type b)); [by rewrite take_snoc|by rewrite app_nil_r]).
    destruct t. cbn. by apply list_insert_id. }
  unfold indSpeculate. apply wp_bind. destruct (ib_lookup b).
  - apply wp_bind. apply (wp_si_lookup p Hp n tid Ht); [done|].
    intros t' si b' s0 Et' _ H0 Hs0. simplify_eq. apply wp_ret. apply Hrest; [done..|].
    right. by eexists.
  - apply wp_ret. apply Hrest; [done|done|by left].
Qed.

Lemma indRollback_restores bs : forall s,
  si_ok p n s ->
  wp (indSpeculateAll p tid bs) (fun hs s1 => si_ok p n s1 /\
    forall s1', si_ok p n s1' -> same_tables s1 s1' ->
      wp (indRollback p tid hs) (fun _ s' => si_ok p n s' /\ same_tables s s') s1') s.
Proof.
  induction bs as [|b bs IH]; intros s H; cbn [indSpeculateAll].
  { apply wp_ret. split; [done|]. intros s1' H1 Hs. by apply wp_ret. }
  wp_steps. eapply wp_mono; [by apply indSpeculate_undo|].
  intros h s1 (H1 & Hundo). wp_steps. eapply wp_mono; [by apply IH|].
  intros hs s2 (H2 & Hroll). wp_steps. split; [done|]. intros s2' H2' Hs2.
  unfold indRollback. apply wp_mfor_app.
  eapply wp_mono; [by apply Hroll|]. intros [] s1' [H1' Hs1']. cbn [mfor]. wp_steps.
  eapply wp_mono; [by apply Hundo|]. intros h' s' Hs'. by wp_steps.
Qed.
End Rollback.

(** The indirect predictor recovers from any wrong path: after any
    sequence of speculative predictions, squashing them, the youngest first,
    gives back the path and direction histories of every thread and the target
    cache. *)
Theorem indirect_squash_restores p n tid bs (s : SimpleIndirect) :
  goodSI p -> si_ok p n s -> 0 <= tid < n ->
  wp (hs ← indSpeculateAll p tid bs; indRollback p tid hs) (fun _ s' => same_tables s s') s.
Proof.
  intros Hp H Ht. wp_steps. eapply wp_mono; [by apply (indRollback_restores p Hp n tid Ht)|].
  intros hs s1 [H1 Hroll]. eapply wp_mono; [by apply Hroll|]. by intros ? s' [_ ?].
Qed.

Lemma indirect_squash_restores_witness :
  exists s, SI.make demoSI (fun _ => 0) = Ok s /\
    wp (hs ← indSpeculateAll demoSI 0
          [mkInd true 1 0x400 true (mkPC 0x900 0) IndirectUncond;
           mkInd false 2 0x900 false (mkPC 0x904 0) DirectCond];
        indRollback demoSI 0 hs) (fun _ s' => same_tables s s') s.
Proof.
  eexists. split; [vm_compute; reflexivity|].
  apply (indirect_squash_restores demoSI 1); [exact demoSI_good| |lia].
  apply (si_make_ok demoSI (fun _ => 0)). vm_compute. reflexivity.
Defined.

(** A branch that was not looked up is not learned: when the BTB missed,
    [BPredUnit] calls [update] without a preceding [lookup], the history that
    [update] creates keeps the address [MaxAddr], and the correction of the
    misprediction trains the entry of [MaxAddr]; the next lookup of the branch
    under the same history misses, while after a lookup the same correction is
    learned. *)
Theorem indirect_unlooked_not_learned :
  let correct h :=
    h ← SI.update demoSI 0 7 0x400 false false (mkPC 0x404 0) IndirectUncond h;
    h ← SI.update demoSI 0 7 0x400 true true (mkPC 0x900 0) IndirectUncond h;
    SI.squash demoSI 0 7 h ;;
    SI.lookup demoSI 0 8 0x400 None in
  match SI.make demoSI (fun _ => 0) with
  | Err _ => False
  | Ok s =>
      resMap (fun x => fst (fst x)) (correct None s) = Ok None /\
      resMap (fun x => fst (fst x)) ((r ← SI.lookup demoSI 0 7 0x400 None; correct (snd r)) s) =
        Ok (Some (mkPC 0x900 0))
  end.
Proof. vm_compute. split; reflexivity. Qed.
