(* ===== verification/Ittage.v ===== *)
(** * ITTAGE: the model

    [cpu/pred/it_tage.hh], [it_tage.cc]: [ITTAGE_TAGE], the tables of a TAGE
    predictor with a target in each entry, and [ITTAGE], the predictor of
    indirect targets built on it.  The counter of an entry is the confidence in
    its target; the target is null until the entry is allocated.  [tgtTable[i]] is
    list [i] of [tgtTable]; position 0 is not allocated.  [ITTAGE_TAGE] overrides
    [allocateEntry], so the functions of [TAGEBase] that call it are defined here
    again over the larger state.  The random numbers are a sequence. *)

From Stdlib Require Import ZArith Lia.
From stdpp Require Import base list numbers.
From S2P Require Import Prelude Types Btb CondPred TageHist Tage TageScl Indirect.

(** The provider of [ITTAGE_TAGE]: [LAST_TAGE_PROVIDER_TYPE + 1] *)
Definition PROVIDER_BTB : Z := TAGE_ALT_MATCH + 1.

(** [ITTAGE_TAGE::ITTAGEBranchInfo] *)
Record ITInfo := mkITInfo {
  ii_base : BranchInfo;
  ii_predTarget : option PCStateBase;
  ii_corrTarget : option PCStateBase;
  longestMatchTarget : Addr;
  altTarget : Addr;
  ii_indirect : bool;
  ii_type : BranchType;
  ii_taken : bool;
  ii_squash : bool
}.

#[export] Instance eta_ITInfo : Settable ITInfo := fun s =>
  mkITInfo (ii_base s) (ii_predTarget s) (ii_corrTarget s) (longestMatchTarget s) (altTarget s)
    (ii_indirect s) (ii_type s) (ii_taken s) (ii_squash s).

(** The increments of [ITTAGE_TAGEStats] and of [ITTAGEStats] *)
Inductive ITStat :=
| btbProviderCorrect | btbProviderWrong | targetReplacements
| IT_lookups | IT_hits | IT_misses | IT_indirectRecords | mispredictIndCall | mispredictIndJump
| mispredictTotal | IT_updates | updateSquashed | updateIndSquashed.

Record ITTAGE_TAGE := mkITTAGE_TAGE {
  it_base : TAGEBase;
  tgtTable : list (list (option PCStateBase));
  istats : list ITStat
}.

#[export] Instance eta_ITTAGE_TAGE : Settable ITTAGE_TAGE := fun s =>
  mkITTAGE_TAGE (it_base s) (tgtTable s) (istats s).

Record ITParams := mkITParams {
  it_tage : TageParams;
  histBitsConditional : Z;
  histBitsIndBranch : Z;
  histBitsIndCall : Z;
  histBitsCall : Z;
  it_latency : Cycles
}.

Record ITTAGE := mkITTAGE {
  itage : ITTAGE_TAGE;
  it_rands : nat -> Z;
  it_randPos : nat;
  it_stats : list ITStat
}.

#[export] Instance eta_ITTAGE : Settable ITTAGE := fun s =>
  mkITTAGE (itage s) (it_rands s) (it_randPos s) (it_stats s).

(** An [int8_t] *)
Definition i8 (z : Z) : Z := (z + 2 ^ 7) mod 2 ^ 8 - 2 ^ 7.

Module IT.
Section Tables.
Context (p : TageParams).

Definition tgtSize (i : Z) : nat := Z.to_nat (2 ^ default 0 (vat (logTagTableSizes p) i)).

(** The constructor of [ITTAGE_TAGE] *)
Definition make (rands : nat -> Z) : Res ITTAGE_TAGE :=
  b ← TB.initWith p (TB.buildTageTables p) rands;
  Ok (mkITTAGE_TAGE b
        ([] :: map (fun i => replicate (tgtSize i) None) (seqZ 1 (nHistoryTables p))) []).

Definition makeBranchInfo (pc : Addr) (type : BranchType) : ITInfo :=
  mkITInfo (TB.makeBranchInfo p pc (bool_decide (type = DirectCond))) None None MaxAddr MaxAddr false
    NoBranch false false.

Definition istat (x : ITStat) : M ITTAGE_TAGE unit := modify (fun s => s <| istats ::= cons x |>).

(** [tgtTable[bank][idx].target] *)
Definition tgtAt (bank idx : Z) : M ITTAGE_TAGE (option PCStateBase) :=
  s ← gets (fun s => s);
  t ← at_index (vat (tgtTable s) bank);
  at_index (vat t idx).

(** [set(tgtTable[bank][idx].target, v)] *)
Definition setTgt (bank idx : Z) (v : option PCStateBase) : M ITTAGE_TAGE unit :=
  old ← tgtAt bank idx;
  modify (fun s => s <| tgtTable ::=
    alter (alter (fun _ => PCS.set old v) (Z.to_nat idx)) (Z.to_nat bank) |>).

(** ** Prediction *)

(** [noSkip[i] && gtable[i][tableIndices[i]].tag == tableTags[i] &&
     tgtTable[i][tableIndices[i]].target != nullptr] *)
Definition matches (i : Z) : M ITTAGE_TAGE bool :=
  b ← zoom it_base (TB.matches p i);
  if negb b then mret false else
  ti ← zoom it_base (TB.scratchIndex i);
  t ← tgtAt i ti;
  mret (bool_decide (t <> None)).

(** The loop over the tables [i, i-1, .., 1]: the first that matches, 0 if none *)
Fixpoint firstMatch (i : nat) : M ITTAGE_TAGE Z :=
  match i with
  | O => mret 0
  | S i' => b ← matches (Z.of_nat i); if (b : bool) then mret (Z.of_nat i) else firstMatch i'
  end.

(** The two searches of [tagePredict] *)
Definition searchBanks (b : BranchInfo) : M ITTAGE_TAGE BranchInfo :=
  hb ← firstMatch (Z.to_nat (nHistoryTables p));
  b ← (if hb =? 0 then mret b
       else ti ← zoom it_base (TB.scratchIndex hb);
            mret (b <| hitBank := hb |> <| hitBankIndex := ti |>));
  ab ← firstMatch (Z.to_nat (hitBank b - 1));
  if ab =? 0 then mret b
  else ti ← zoom it_base (TB.scratchIndex ab);
       mret (b <| altBank := ab |> <| altBankIndex := ti |>).

(** The selection of the provider, with a hit; [getUseAltIdx] is 0 *)
Definition selectProvider (bi : ITInfo) : M ITTAGE_TAGE ITInfo :=
  let b := ii_base bi in
  bi ← (if 0 <? altBank b then
          e ← zoom it_base (TB.entryAt (altBank b) (altBankIndex b));
          t ← tgtAt (altBank b) (altBankIndex b);
          tg ← deref t;
          mret (bi <| ii_base ::= fun b => b <| altTaken := 0 <? te_ctr e |> |>
                   <| altTarget := instAddr tg |>)
        else mret (bi <| ii_base ::= fun b => b <| altTaken := false |> |>));
  e ← zoom it_base (TB.entryAt (hitBank b) (hitBankIndex b));
  t ← tgtAt (hitBank b) (hitBankIndex b);
  tg ← deref t;
  let bi := bi <| ii_base ::= fun b => b <| longestMatchPred := 0 <? te_ctr e |> |>
               <| longestMatchTarget := instAddr tg |> in
  s ← gets (fun s => s);
  ua ← at_index (vat (useAltPredForNewlyAllocated (it_base s)) 0);
  mret (bi <| ii_base ::= fun b =>
    if (ua <? 0) || longestMatchPred b
    then b <| bi_provider := TAGE_LONGEST_MATCH |> <| tagePred := longestMatchPred b |>
    else if 0 <? altBank b
    then b <| bi_provider := TAGE_ALT_MATCH |> <| tagePred := altTaken b |>
    else b |>).

(** The [switch] over the provider *)
Definition readTarget (bi : ITInfo) : M ITTAGE_TAGE ITInfo :=
  let b := ii_base bi in
  if bi_provider b =? TAGE_LONGEST_MATCH then
    t ← tgtAt (hitBank b) (hitBankIndex b);
    mret (bi <| ii_predTarget ::= fun d => PCS.set d t |>)
  else if bi_provider b =? TAGE_ALT_MATCH then
    t ← tgtAt (altBank b) (altBankIndex b);
    mret (bi <| ii_predTarget ::= fun d => PCS.set d t |>)
  else mret bi.

Definition tagePredict (tid : ThreadID) (branch_pc : Addr) (bi : ITInfo) : M ITTAGE_TAGE ITInfo :=
  b ← zoom it_base (TB.calculateIndicesAndTags p tid branch_pc (ii_base bi));
  let b := b <| bimodalIndex := TB.bindex p branch_pc |> <| hitBank := 0 |> <| altBank := 0 |> in
  b ← searchBanks b;
  let b := b <| bi_provider := PROVIDER_BTB |> <| tagePred := false |>
             <| longestMatchPred := false |> in
  let bi := bi <| ii_base := b |> <| ii_predTarget := None |> in
  bi ← (if 0 <? hitBank b then selectProvider bi else mret bi);
  readTarget bi.

(** ** Histories *)

Definition updateHistories (tid : ThreadID) (speculative : bool) (hist nBits : Z) (bi : ITInfo)
  : M ITTAGE_TAGE ITInfo :=
  if negb (eqb speculative (speculativeHistUpdate p)) then mret bi else
  if nBits =? 0 then mret bi else
  b ← (if speculativeHistUpdate p && negb (bi_modified (ii_base bi))
       then zoom it_base (TB.recordHistState tid (ii_base bi)) else mret (ii_base bi));
  b ← (if bi_modified b then zoom it_base (TB.restoreHistState p tid b) else mret b);
  massert (bi_nGhist b =? 0) ;;
  let b := b <| bi_ghist := hist |> <| bi_nGhist := nBits |> in
  zoom it_base (TB.updateGHist p tid (bi_ghist b) (bi_nGhist b)) ;;
  mret (bi <| ii_base := b <| bi_modified := true |> |>).

(** ** Training *)

Definition allocateEntry (idx : Z) (bi : ITInfo) (taken : bool) : M ITTAGE_TAGE bool :=
  ok ← zoom it_base (TB.allocateEntry idx (ii_base bi) taken);
  if negb ok then mret false else
  massert (idx <=? nHistoryTables p) ;;
  ti ← TB.cell (bi_tableIndices (ii_base bi)) idx;
  log ← TB.logSize p idx;
  massert (ti <? 2 ^ log) ;;
  setTgt idx ti (ii_corrTarget bi) ;;
  mret true.

(** The loop of [TAGEBase::handleAllocAndUReset] that allocates from table [i] on:
    [n] tables are left *)
Fixpoint allocateFrom (n : nat) (i : Z) (bi : ITInfo) (taken : bool) (numAllocated : Z)
  : M ITTAGE_TAGE unit :=
  match n with
  | O => mret tt
  | S n' =>
      b ← allocateEntry i bi taken;
      if (b : bool) then
        if numAllocated + 1 =? maxNumAlloc p then mret tt
        else allocateFrom n' (i + 1) bi taken (numAllocated + 1)
      else allocateFrom n' (i + 1) bi taken numAllocated
  end.

(** The smallest usefulness of the entries of the longer tables, at most 1 *)
Definition leastUseful (b : BranchInfo) : M TAGEBase Z :=
  mfold (reverse (seqZ (hitBank b + 1) (nHistoryTables p - hitBank b))) (fun mn i =>
    ti ← TB.cell (bi_tableIndices b) i;
    e ← TB.entryAt i ti;
    mret (if te_u e <? mn then te_u e else mn)) 1.

(** The first table that may allocate *)
Definition firstCandidate (b : BranchInfo) (nrand : Z) : Z :=
  let Y := Z.land nrand (Z.shiftl 1 (nHistoryTables p - hitBank b - 1) - 1) in
  hitBank b + 1 + (if Z.testbit Y 0 then (if Z.testbit Y 1 then 2 else 1) else 0).

(** [TAGEBase::handleAllocAndUReset], which calls the [allocateEntry] above *)
Definition handleAllocAndUReset (alloc taken : bool) (bi : ITInfo) (nrand : Z)
  : M ITTAGE_TAGE unit :=
  let b := ii_base bi in
  when alloc (
    mn ← zoom it_base (leastUseful b);
    let X := firstCandidate b nrand in
    when (0 <? mn)
      (zoom it_base (ti ← TB.cell (bi_tableIndices b) X;
                     TB.setEntry X ti (fun e => e <| te_u := 0 |>))) ;;
    allocateFrom (Z.to_nat (nHistoryTables p - X + 1)) X bi taken 0) ;;
  zoom it_base (modify (fun s => s <| tCounter ::= Z.succ |>) ;; TB.handleUReset p).

(** The confidence is a [uint8_t] view of the signed counter. *)
Definition handleTAGEUpdate (branch_pc : Addr) (bi : ITInfo) : M ITTAGE_TAGE unit :=
  let b := ii_base bi in
  when (0 <? hitBank b)
    (massert (bool_decide (ii_predTarget bi <> None)) ;;
     corr ← deref (ii_corrTarget bi);
     let correct := longestMatchTarget bi =? instAddr corr in
     e ← zoom it_base (TB.entryAt (hitBank b) (hitBankIndex b));
     c ← TB.unsignedCtrUpdate (u8 (te_ctr e)) correct (tagTableCounterBits p);
     zoom it_base (TB.setEntry (hitBank b) (hitBankIndex b) (fun e => e <| te_ctr := i8 c |>)) ;;
     when (c =? 0)
       (setTgt (hitBank b) (hitBankIndex b) (ii_corrTarget bi) ;; istat targetReplacements) ;;
     when (negb (longestMatchTarget bi =? altTarget bi))
       (e ← zoom it_base (TB.entryAt (hitBank b) (hitBankIndex b));
        u ← TB.unsignedCtrUpdate (te_u e) correct (tagTableUBits p);
        zoom it_base (TB.setEntry (hitBank b) (hitBankIndex b) (fun e => e <| te_u := u |>)))).

(** The choice between the longest and the alternate match for new entries *)
Definition trainUseAlt (bi : ITInfo) (target : PCStateBase) : M ITTAGE_TAGE unit :=
  let b := ii_base bi in
  let hits x := x =? instAddr target in
  when ((0 <? hitBank b) && negb (longestMatchPred b) &&
        negb (longestMatchTarget bi =? altTarget bi) &&
        (hits (longestMatchTarget bi) || hits (altTarget bi)))
    (s ← gets (fun s => s);
     ua ← at_index (vat (useAltPredForNewlyAllocated (it_base s)) 0);
     c ← TB.ctrUpdate 8 ua (hits (altTarget bi)) (useAltOnNaBits p);
     zoom it_base (modify (fun s => s <| useAltPredForNewlyAllocated ::= TB.setCell 0 c |>))).

Definition updateIndirect (tid : ThreadID) (bi : ITInfo) (nrand : Z) (target : PCStateBase)
  : M ITTAGE_TAGE unit :=
  let alloc := ii_squash bi && (hitBank (ii_base bi) <? nHistoryTables p) in
  trainUseAlt bi target ;;
  handleAllocAndUReset alloc true bi nrand ;;
  handleTAGEUpdate (bi_branchPC (ii_base bi)) bi.

Definition updateStats (target : PCStateBase) (bi : ITInfo) : M ITTAGE_TAGE unit :=
  let b := ii_base bi in
  let prov x := bi_provider b =? x in
  massert (negb (prov BIMODAL_ONLY || prov BIMODAL_ALT_MATCH)) ;;
  (if negb (ii_squash bi) then
     if prov TAGE_LONGEST_MATCH then zoom it_base (TB.stat [longestMatchProviderCorrect])
     else if prov TAGE_ALT_MATCH then zoom it_base (TB.stat [altMatchProviderCorrect])
     else when (prov PROVIDER_BTB) (istat btbProviderCorrect)
   else
     if prov TAGE_LONGEST_MATCH then
       zoom it_base (TB.stat (longestMatchProviderWrong ::
         (if altTarget bi =? instAddr target then [altMatchProviderWouldHaveHit] else [])))
     else if prov TAGE_ALT_MATCH then
       zoom it_base (TB.stat (altMatchProviderWrong ::
         (if longestMatchTarget bi =? instAddr target then [longestMatchProviderWouldHaveHit] else [])))
     else when (prov PROVIDER_BTB) (istat btbProviderWrong)) ;;
  when (prov TAGE_LONGEST_MATCH || prov TAGE_ALT_MATCH)
    (zoom it_base (TB.stat [longestMatchProvider (hitBank b); altMatchProvider (altBank b)])).
End Tables.

(** ** The predictor *)
Section Predictor.
Context (p : ITParams).
#[local] Abbreviation tp := (it_tage p).

Definition construct (rands : nat -> Z) : Res ITTAGE :=
  t ← make tp (fun _ => 0);
  if 1 <? histBitsConditional p then Err Panic else Ok (mkITTAGE t rands 0 []).

Definition reset : M ITTAGE unit := mret tt.

Definition stat (x : ITStat) : M ITTAGE unit := modify (fun s => s <| it_stats ::= cons x |>).

Definition isIndirectNoReturn (type : BranchType) : bool :=
  match type with CallIndirect | IndirectUncond => true | _ => false end.

(** The bits a branch adds to the history and their number, a [uint8_t] *)
Definition calculateHistUpdate {S} (type : BranchType) (pc : Addr) (taken : bool) (target : Addr)
  : M S (Z * Z) :=
  let hist := Z.lxor (Z.lxor target (Z.shiftr target 3)) pc in
  let '(hist, nBits) :=
    match type with
    | DirectCond => (if taken then 1 else 0, u8 (histBitsConditional p))
    | IndirectUncond => (hist, u8 (histBitsIndBranch p))
    | CallDirect => (hist, u8 (histBitsCall p))
    | CallIndirect => (hist, u8 (histBitsIndCall p))
    | _ => (hist, 0)
    end in
  m ← Scl.lowMask nBits;
  mret (Z.land hist m, nBits).

Definition genIndirectInfo (tid : ThreadID) (sn : Z) (pc : Addr) (brType : BranchType)
  : M ITTAGE ITInfo :=
  let bi := makeBranchInfo tp pc brType in
  let bi := bi <| ii_type := brType |> <| ii_indirect := isIndirectNoReturn brType |>
               <| ii_taken := false |>
               <| ii_base ::= fun b => b <| bi_provider := PROVIDER_BTB |> |> in
  if ii_indirect bi then
    b ← zoom itage (zoom it_base (TB.calculateIndicesAndTags tp tid pc (ii_base bi)));
    mret (bi <| ii_base := b |>)
  else mret bi.

Definition lookup (tid : ThreadID) (sn : Z) (pc : Addr) (indirect_history : option ITInfo)
  : M ITTAGE (option PCStateBase * option ITInfo) :=
  massert (bool_decide (indirect_history = None)) ;;
  stat IT_lookups ;;
  bi ← genIndirectInfo tid sn pc NoBranch;
  bi ← zoom itage (tagePredict tp tid pc bi);
  if bi_provider (ii_base bi) =? PROVIDER_BTB then stat IT_misses ;; mret (None, Some bi)
  else stat IT_hits ;; mret (ii_predTarget bi, Some bi).

Definition update (tid : ThreadID) (sn : Z) (pc : Addr) (squash taken : bool) (target : PCStateBase)
    (brType : BranchType) (indirect_history : option ITInfo) : M ITTAGE (option ITInfo) :=
  hn ← calculateHistUpdate brType pc taken (instAddr target);
  if snd hn =? 0 then mret indirect_history else
  stat IT_updates ;;
  bi ← (match indirect_history with
        | None => genIndirectInfo tid sn pc brType
        | Some bi => mret bi
        end);
  massert (0 <? bi_branchPC (ii_base bi)) ;;
  let bi := if (bi_provider (ii_base bi) =? PROVIDER_BTB) && bool_decide (ii_predTarget bi = None)
            then bi <| ii_predTarget ::= fun d => PCS.set d (Some target) |> else bi in
  let bi := bi <| ii_indirect := isIndirectNoReturn brType |> <| ii_type := brType |>
               <| ii_taken := taken |> <| ii_corrTarget ::= fun d => PCS.set d (Some target) |> in
  bi ← (if squash then
          stat updateSquashed ;; when (ii_indirect bi) (stat updateIndSquashed) ;;
          mret (bi <| ii_squash := true |>)
        else mret bi);
  bi ← zoom itage (updateHistories tp tid true (fst hn) (snd hn) bi);
  mret (Some bi).

Definition squash (tid : ThreadID) (sn : Z) (indirect_history : option ITInfo)
  : M ITTAGE (option ITInfo) :=
  match indirect_history with
  | None => mret None
  | Some bi =>
      zoom itage (zoom it_base (TB.restoreHistState tp tid (ii_base bi))) ;;
      mret None
  end.

Definition random : M ITTAGE Z :=
  r ← gets (fun s => it_rands s (it_randPos s));
  modify (fun s => s <| it_randPos ::= S |>) ;;
  mret r.

(** The part of [commit] that trains the tables *)
Definition commitIndirect (tid : ThreadID) (nrand : Z) (bi : ITInfo) : M ITTAGE unit :=
  stat IT_indirectRecords ;;
  when (ii_squash bi)
    (stat (if bool_decide (ii_type bi = CallIndirect) then mispredictIndCall else mispredictIndJump) ;;
     stat mispredictTotal) ;;
  t ← deref (ii_corrTarget bi);
  zoom itage (updateStats t bi) ;;
  zoom itage (updateIndirect tp tid bi nrand t).

Definition commit (tid : ThreadID) (sn : Z) (indirect_history : option ITInfo)
  : M ITTAGE (option ITInfo) :=
  match indirect_history with
  | None => mret None
  | Some bi =>
      massert (0 <? bi_branchPC (ii_base bi)) ;;
      r ← random;
      let nrand := Z.land r 3 in
      when (ii_indirect bi) (commitIndirect tid nrand bi) ;;
      t ← deref (ii_corrTarget bi);
      hn ← calculateHistUpdate (ii_type bi) (bi_branchPC (ii_base bi)) (ii_taken bi) (instAddr t);
      zoom itage (updateHistories tp tid false (fst hn) (snd hn) bi) ;;
      mret None
  end.

#[export] Instance ITTAGE_ip : IndirectPredictor ITTAGE ITInfo := {|
  ip_lookup := lookup;
  ip_update := update;
  ip_squash := squash;
  ip_commit := commit;
  ip_getStaticLatency := fun _ => it_latency p
|}.
End Predictor.
End IT.

(** The default configuration of [BranchPredictor.py] *)
Definition ITTAGE_TAGE_params : TageParams := Eval vm_compute in TB.configure
  (mkTageParams 1 2 15 10 3881 [0; 9; 9; 13; 13; 13; 13; 13; 13; 13; 13; 15; 15; 15; 15; 15]
     [12; 11; 11; 9; 9; 9; 9; 9; 9; 9; 9; 8; 8; 8; 8; 8] [] [] [] []
     2 3 2 2097152 16 18 1 (2 ^ 17) 4 1 [] true true).

Definition ITTAGE_params : ITParams := mkITParams ITTAGE_TAGE_params 0 10 5 5 2.
