(* ===== verification/IttageOk.v ===== *)
(** * Invariant of ITTAGE

    The tables of ITTAGE under the contract of [TAGEBase]: the confidences are
    unsigned, the target tables have the shape of the tagged tables, and every
    stored target satisfies a predicate [T], the targets that were trained.
    The entries use all values of an unsigned counter of [tagTableCounterBits]
    bits, so the invariant of [TAGEBase] is used for signed counters of one bit
    more ([widen]). *)

From Stdlib Require Import ZArith Lia.
From stdpp Require Import base list numbers.
From S2P Require Import Prelude Types Indirect CondPred TageHist Tage TageInv TageBaseOk TageSafe TageScl Ittage.

Definition widen (p : TageParams) : TageParams := p <| tagTableCounterBits ::= Z.succ |>.

Section Tables.
Context (p : TageParams) (Hcfg : tage_cfg (widen p)) (Hbase : base_cfg p)
  (Hctr : 1 <= tagTableCounterBits p) (T : PCStateBase -> Prop).
#[local] Abbreviation size := (baseSize p).
#[local] Abbreviation n := (nHistoryTables p).
#[local] Abbreviation hp := (histParams p).

Definition conf_ok (e : TageEntry) : Prop := 0 <= te_ctr e < 2 ^ tagTableCounterBits p.

Record base_ok (s : TAGEBase) : Prop := {
  bo_tb : tb_ok (widen p) size s;
  bo_conf : Forall (Forall conf_ok) (gstore s)
}.

Definition base_kept (s s' : TAGEBase) : Prop :=
  base_ok s' /\ threadHistory s' = threadHistory s.

Lemma base_kept_trans s1 s2 s3 : base_kept s1 s2 -> base_kept s2 s3 -> base_kept s1 s3.
Proof. intros [_ E1] [? E2]. split; [done|]. by rewrite E2. Qed.

Lemma ctrBits : 1 <= tagTableCounterBits p + 1 <= 8.
Proof. exact (tc_ctr _ Hcfg). Qed.

Lemma wp_confEntry s bank idx (Q : TageEntry -> TAGEBase -> Prop) :
  base_ok s -> 1 <= bank <= n -> 0 <= idx < size bank ->
  (forall e, entry_ok (widen p) e -> conf_ok e -> Q e s) -> wp (TB.entryAt bank idx) Q s.
Proof.
  intros [Hok Hc] Hb Hi HQ. destruct (to_tables _ _ _ Hok bank Hb) as (a & t & Ha & Ht & Hl).
  destruct (vat_lt t idx) as [e He]; [lia|].
  eapply wp_mono; [apply (wp_and _ (fun e' s' => entry_ok (widen p) e' /\ s' = s)
    (fun e' s' => e' = e))|].
  - by eapply (wp_entryAt (widen p) size).
  - unfold TB.entryAt. wp_steps. eapply wp_at_index; [exact Ha|]. wp_steps.
    eapply wp_deref; [done|]. wp_steps. eapply wp_at_index; [exact Ht|]. by eapply wp_at_index.
  - intros e' s' [[He' ->] ->]. apply HQ; [done|]. rewrite list.Forall_forall in Hc.
    specialize (Hc _ (list_elem_of_lookup_2 _ _ _ Ht)). rewrite list.Forall_forall in Hc.
    by apply Hc, (vat_elem _ idx).
Qed.

Lemma conf_sctr c : 0 <= c < 2 ^ tagTableCounterBits p -> sctr_ok (tagTableCounterBits (widen p)) c.
Proof.
  intros H. unfold sctr_ok. cbn. unfold setf. cbn. pose proof ctrBits.
  replace (Z.succ (tagTableCounterBits p) - 1) with (tagTableCounterBits p) by lia. lia.
Qed.

Lemma wp_confSet s bank idx f (Q : unit -> TAGEBase -> Prop) :
  base_ok s -> 1 <= bank <= n -> 0 <= idx < size bank ->
  (forall e, entry_ok (widen p) e -> entry_ok (widen p) (f e)) ->
  (forall e, conf_ok e -> conf_ok (f e)) ->
  (forall s', base_kept s s' -> Q tt s') -> wp (TB.setEntry bank idx f) Q s.
Proof.
  intros Hok Hb Hi Hf Hc HQ. destruct (to_tables _ _ _ (bo_tb _ Hok) bank Hb) as (a & t & Ha & Ht & Hl).
  unfold TB.setEntry. wp_steps. apply wp_confEntry; [done..|]. intros e He _. wp_steps.
  eapply wp_at_index; [exact Ha|]. wp_steps. eapply wp_deref; [done|]. wp_steps. apply HQ.
  destruct Hok as [Hok Hall]. split; [|done]. constructor; [by apply tb_ok_setEntry|]. cbn.
  apply Forall_alter; [done|]. intros t' _ Ht'. apply Forall_alter; [done|]. intros e' _. apply Hc.
Qed.

Lemma wp_confAllocate s i b (Q : bool -> TAGEBase -> Prop) :
  base_ok s -> baseIndexed p (bi_tableIndices b) (bi_tableTags b) -> 1 <= i <= n ->
  (forall r s', base_kept s s' -> Q r s') -> wp (TB.allocateEntry i b true) Q s.
Proof.
  intros Hok Hix Hi HQ. destruct (Hix i Hi) as (x & t & Hx & Hxr & Ht & _).
  unfold TB.allocateEntry. wp_steps. eapply wp_cell; [exact Hx|]. wp_steps.
  apply wp_confEntry; [done..|]. intros e He _. wp_steps; [by apply HQ|].
  eapply wp_cell; [exact Ht|]. wp_steps. pose proof ctrBits.
  assert (Hz : 0 <= 0 < 2 ^ tagTableCounterBits p) by (split; [lia|apply Z.pow_pos_nonneg; lia]).
  eapply wp_confSet; [done..| | |].
  - intros e' []. constructor; [by apply conf_sctr|cbn; apply Z.mod_pos_bound; lia|done].
  - intros e' _. exact Hz.
  - intros s' K. wp_steps. by apply HQ.
Qed.

Lemma wp_leastUseful s b (Q : Z -> TAGEBase -> Prop) :
  base_ok s -> 0 <= hitBank b -> baseIndexed p (bi_tableIndices b) (bi_tableTags b) ->
  (forall mn, Q mn s) -> wp (IT.leastUseful p b) Q s.
Proof.
  intros Hok Hh Hix HQ. unfold IT.leastUseful.
  eapply wp_mono; [apply (wp_mfold (fun _ _ s' => s' = s))|by intros mn s' ->]; [done|].
  intros k i mn s' Hi ->. apply list_elem_of_lookup_2, elem_of_reverse, elem_of_seqZ in Hi.
  destruct (Hix i) as (x & t & Hx & Hxr & _); [lia|].
  wp_steps. eapply wp_cell; [exact Hx|]. wp_steps. apply wp_confEntry; [done|lia|done|].
  intros e He _. by wp_steps.
Qed.

Lemma wp_confUReset s (Q : unit -> TAGEBase -> Prop) :
  base_ok s -> (forall s', base_kept s s' -> Q tt s') -> wp (TB.handleUReset p) Q s.
Proof.
  intros Hok HQ. unfold TB.handleUReset. wp_step. wp_steps; [|by apply HQ].
  eapply wp_mono; [apply (wp_mfor (base_kept s))|by intros []; apply HQ]; [done|].
  intros i s1 Hi K1. apply elem_of_seqZ in Hi. assert (Hb : 1 <= i <= n) by lia.
  destruct (bc_log _ _ (tc_banks _ Hcfg i Hb)) as (l & Hl & _).
  change (vat (logTagTableSizes p) i = Some l) in Hl.
  unfold TB.logSize. wp_step. eapply wp_at_index; [exact Hl|].
  apply (wp_mfor (base_kept s)); [done|]. intros j s2 Hj K2. apply elem_of_seqZ in Hj.
  eapply wp_confSet; [apply K2|done| |apply (reset_ok (widen p))|done|].
  - unfold baseSize. rewrite Hl. cbn. lia.
  - intros s3 K3. by eapply base_kept_trans.
Qed.

(** ** The tables with their targets *)

Definition known (o : option PCStateBase) : Prop := forall t, o = Some t -> T t.

Record it_ok (s : ITTAGE_TAGE) : Prop := {
  ik_base : base_ok (it_base s);
  ik_tgt : forall i, 1 <= i <= n ->
    exists t, vat (tgtTable s) i = Some t /\ Z.of_nat (length t) = size i;
  ik_known : Forall (Forall known) (tgtTable s)
}.

Definition it_kept (s s' : ITTAGE_TAGE) : Prop :=
  it_ok s' /\ threadHistory (it_base s') = threadHistory (it_base s).

Lemma it_kept_trans s1 s2 s3 : it_kept s1 s2 -> it_kept s2 s3 -> it_kept s1 s3.
Proof. intros [_ E1] [? E2]. split; [done|]. by rewrite E2. Qed.

Lemma it_ok_base s b : it_ok s -> base_ok b -> it_ok (s <| it_base := b |>).
Proof. intros [] Hb. by constructor. Qed.

Lemma it_kept_base s b : it_ok s -> base_kept (it_base s) b -> it_kept s (s <| it_base := b |>).
Proof. intros Hs [Hb E]. split; [by apply it_ok_base|exact E]. Qed.

(** An operation on the tagged tables *)
Lemma wp_onBase {A} s (m : M TAGEBase A) (Q : A -> ITTAGE_TAGE -> Prop) :
  it_ok s -> wp m (fun a b => base_kept (it_base s) b /\
    (it_kept s (s <| it_base := b |>) -> Q a (s <| it_base := b |>))) (it_base s) ->
  wp (zoom it_base m) Q s.
Proof.
  intros Hs Hm. apply wp_zoom. eapply wp_mono; [exact Hm|]. intros a b [K HQ].
  apply HQ. by apply it_kept_base.
Qed.

Lemma wp_tgtAt s bank idx (Q : option PCStateBase -> ITTAGE_TAGE -> Prop) :
  it_ok s -> 1 <= bank <= n -> 0 <= idx < size bank ->
  (forall t o, vat (tgtTable s) bank = Some t -> vat t idx = Some o -> known o -> Q o s) ->
  wp (IT.tgtAt bank idx) Q s.
Proof.
  intros Hs Hb Hi HQ. destruct (ik_tgt _ Hs bank Hb) as (t & Ht & Hl).
  destruct (vat_lt t idx) as [o Ho]; [lia|].
  unfold IT.tgtAt. wp_steps. eapply wp_at_index; [exact Ht|]. eapply wp_at_index; [exact Ho|].
  apply (HQ t); [done|done|]. pose proof (ik_known _ Hs) as Hall. rewrite list.Forall_forall in Hall.
  specialize (Hall t (vat_elem _ _ _ Ht)). rewrite list.Forall_forall in Hall.
  by apply Hall, (vat_elem _ idx).
Qed.

Lemma set_src d v : PCS.set d v = v.
Proof. by destruct d, v as [[]|]. Qed.

Lemma wp_setTgt s bank idx v (Q : unit -> ITTAGE_TAGE -> Prop) :
  it_ok s -> 1 <= bank <= n -> 0 <= idx < size bank -> known v ->
  (forall s', it_kept s s' -> Q tt s') -> wp (IT.setTgt bank idx v) Q s.
Proof.
  intros Hs Hb Hi Hv HQ. unfold IT.setTgt. wp_step. apply wp_tgtAt; [done..|]. intros t o Ht Ho Hk.
  wp_steps. apply HQ. split; [|done]. destruct Hs as [H1 H2 H3]. constructor; [done| |].
  - intros i Hi'. destruct (H2 i Hi') as (t' & Ht' & Hl'). cbn. rewrite vat_nat in * by lia.
    destruct (decide (i = bank)) as [->|].
    + rewrite list_lookup_alter_eq, Ht'. eexists. split; [reflexivity|]. by rewrite length_alter.
    + rewrite list_lookup_alter_ne by lia. by exists t'.
  - cbn. apply Forall_alter; [done|]. intros t' _ Ht'. apply Forall_alter; [done|]. intros o' _ _.
    by rewrite set_src.
Qed.

(** ** Training *)

(** The information of an indirect branch that is committed *)
Record trainable (bi : ITInfo) : Prop := {
  tn_hit : bank_ok p size (hitBank (ii_base bi)) (hitBankIndex (ii_base bi));
  tn_indexed : baseIndexed p (bi_tableIndices (ii_base bi)) (bi_tableTags (ii_base bi));
  tn_pred : ii_predTarget bi <> None;
  tn_corr : exists t, ii_corrTarget bi = Some t /\ T t
}.

Lemma corr_known bi : trainable bi -> known (ii_corrTarget bi).
Proof. intros [_ _ _ (t & -> & Ht)] t' [= <-]. done. Qed.

Lemma wp_it_allocateEntry s i bi (Q : bool -> ITTAGE_TAGE -> Prop) :
  it_ok s -> trainable bi -> 1 <= i <= n ->
  (forall r s', it_kept s s' -> Q r s') -> wp (IT.allocateEntry p i bi true) Q s.
Proof.
  intros Hs Hbi Hi HQ. destruct (tn_indexed _ Hbi i Hi) as (x & tg & Hx & Hxr & _).
  destruct (Hbase i Hi) as (l & Hl & _). unfold IT.allocateEntry. wp_step.
  apply wp_onBase; [done|]. apply wp_confAllocate; [apply Hs|apply Hbi|done|]. intros r b K.
  split; [done|]. intros K1. destruct r; cbn [negb]; [|wp_steps; by apply HQ].
  wp_step. apply wp_massert; [apply Z.leb_le; lia|]. wp_step. eapply wp_cell; [exact Hx|].
  unfold TB.logSize. wp_step. eapply wp_at_index; [exact Hl|]. wp_step. apply wp_massert.
  { apply Z.ltb_lt. unfold baseSize in Hxr. rewrite Hl in Hxr. cbn in Hxr. lia. }
  wp_step. apply wp_setTgt; [apply K1|done|done|by apply corr_known|]. intros s' K2. wp_steps.
  apply HQ. by eapply it_kept_trans.
Qed.

Lemma wp_it_allocateFrom k : forall i s bi c (Q : unit -> ITTAGE_TAGE -> Prop),
  it_ok s -> trainable bi -> 1 <= i -> i + Z.of_nat k <= n + 1 ->
  (forall s', it_kept s s' -> Q tt s') -> wp (IT.allocateFrom p k i bi true c) Q s.
Proof.
  induction k as [|k IH]; intros i s bi c Q Hs Hbi Hi Hn HQ; cbn [IT.allocateFrom].
  - apply wp_ret. by apply HQ.
  - wp_step. apply wp_it_allocateEntry; [done|done|lia|]. intros b s1 K1.
    assert (Hrec : forall c', wp (IT.allocateFrom p k (i + 1) bi true c') Q s1).
    { intros c'. apply IH; [apply K1|done|lia|lia|]. intros s2 K2. apply HQ.
      by eapply it_kept_trans. }
    destruct b; [|done]. destruct (_ =? _); [|done]. apply wp_ret. by apply HQ.
Qed.

Lemma firstCandidate_range b nrand :
  0 <= hitBank b < n -> 1 <= IT.firstCandidate p b nrand <= n.
Proof.
  intros Hh. unfold IT.firstCandidate. set (Y := Z.land nrand _).
  apply (candidate_range p (hitBank b) Y Hh). unfold Y. by rewrite <- Z.land_assoc, Z.land_diag.
Qed.

Lemma wp_it_handleAlloc s (alloc : bool) bi nrand (Q : unit -> ITTAGE_TAGE -> Prop) :
  it_ok s -> trainable bi -> (alloc = true -> hitBank (ii_base bi) < n) ->
  (forall s', it_kept s s' -> Q tt s') -> wp (IT.handleAllocAndUReset p alloc true bi nrand) Q s.
Proof.
  intros Hs Hbi Ha HQ. destruct (tn_hit _ Hbi) as [Hh _]. unfold IT.handleAllocAndUReset. wp_step.
  apply (wp_mono _ (fun _ s' => it_kept s s')).
  2: { intros _ s1 K1. apply wp_onBase; [apply K1|]. wp_steps.
       assert (Hc : base_ok ((it_base s1) <| tCounter ::= Z.succ |>)).
       { destruct (ik_base _ (proj1 K1)) as [H1 H2]. constructor; [|done].
         by apply (ok_tCounter (widen p)). }
       apply wp_confUReset; [done|]. intros b K2. split; [exact K2|]. intros K3. apply HQ.
       by eapply it_kept_trans. }
  apply wp_when; intros Et; [|by split]. pose proof (tn_indexed _ Hbi) as Hix. wp_step.
  apply wp_onBase; [done|]. apply wp_leastUseful; [apply Hs|lia|done|]. intros mn.
  split; [split; [apply Hs|done]|]. intros K1. pose proof (firstCandidate_range (ii_base bi) nrand) as HX.
  set (X := IT.firstCandidate p (ii_base bi) nrand) in *. specialize (HX (conj (proj1 Hh) (Ha Et))).
  wp_step. apply (wp_mono _ (fun _ s' => it_kept s s')).
  - apply wp_when; intros _; [|done]. apply wp_onBase; [apply K1|].
    destruct (Hix X HX) as (x & t & Hx & Hxr & _). wp_step. eapply wp_cell; [exact Hx|].
    eapply wp_confSet; [apply K1|done|done| |done|].
    + intros e He. constructor; [apply He|apply He|]. split; [done|]. apply Z.pow_pos_nonneg; [done|].
      pose proof (tc_u _ Hcfg). lia.
    + intros b K2. split; [done|]. intros K3. exact (it_kept_trans _ _ _ K1 K3).
  - intros _ s1 K2. apply wp_it_allocateFrom; [apply K2|done|lia|lia|]. intros s2 K3.
    by eapply it_kept_trans.
Qed.

Lemma wp_trainUseAlt s bi t (Q : unit -> ITTAGE_TAGE -> Prop) :
  it_ok s -> (forall s', it_kept s s' -> Q tt s') -> wp (IT.trainUseAlt p bi t) Q s.
Proof.
  intros Hs HQ. unfold IT.trainUseAlt. apply wp_when; intros _; [|by apply HQ].
  destruct (ik_base _ Hs) as [Hok Hc]. wp_step. wp_step.
  destruct (vat_lt (useAltPredForNewlyAllocated (it_base s)) 0) as [ua Hua].
  { rewrite (to_na _ _ _ Hok). destruct (tc_numna _ Hcfg). lia. }
  wp_step. eapply wp_at_index; [exact Hua|]. wp_step.
  apply wp_ctrUpdate; [apply (tc_na _ Hcfg)| |].
  { pose proof (to_nactr _ _ _ Hok) as Hall. rewrite list.Forall_forall in Hall.
    by apply Hall, (vat_elem _ _ _ Hua). }
  intros c Hcr. apply wp_onBase; [done|]. wp_steps. split.
  - split; [|done]. constructor; [by apply (tb_ok_useAlt (widen p))|done].
  - intros K. by apply HQ.
Qed.

Lemma i8_small c : 0 <= c < 2 ^ 7 -> i8 c = c.
Proof. intros H. unfold i8. rewrite Z.mod_small by lia. lia. Qed.

Lemma wp_it_handleTAGEUpdate s pc bi (Q : unit -> ITTAGE_TAGE -> Prop) :
  it_ok s -> trainable bi ->
  (forall s', it_kept s s' -> Q tt s') -> wp (IT.handleTAGEUpdate p pc bi) Q s.
Proof.
  intros Hs Hbi HQ. destruct (tn_hit _ Hbi) as [Hh Hi], (tn_corr _ Hbi) as (t & Et & HT).
  unfold IT.handleTAGEUpdate. apply wp_when; intros Hpos; [|by apply HQ]. apply Z.ltb_lt in Hpos.
  assert (Hb : 1 <= hitBank (ii_base bi) <= n) by lia. specialize (Hi Hpos). pose proof ctrBits as Hbits.
  assert (Hp7 : 2 ^ tagTableCounterBits p <= 2 ^ 7) by (apply Z.pow_le_mono_r; lia).
  wp_step. apply wp_massert; [by apply bool_decide_eq_true, Hbi|]. wp_step.
  eapply wp_deref; [exact Et|]. wp_step. apply wp_onBase; [done|].
  apply wp_confEntry; [apply Hs|done|done|]. intros e _ He. split; [split; [apply Hs|done]|].
  intros K1. assert (E8 : u8 (te_ctr e) = te_ctr e) by (apply Z.mod_small; unfold conf_ok in He; lia).
  wp_step. apply wp_unsignedCtrUpdate; [lia|rewrite E8; exact He|]. intros c Hc. wp_step.
  apply wp_onBase; [apply K1|]. eapply wp_confSet; [apply K1|done|done| | |].
  { intros e' []. constructor; [|done|done]. cbn. rewrite i8_small by lia. by apply conf_sctr. }
  { intros e' _. unfold conf_ok. cbn. rewrite i8_small by lia. done. }
  intros b K2. split; [done|]. intros K3. pose proof (it_kept_trans _ _ _ K1 K3) as K4. clear K2 K3.
  set (s1 := _ <| it_base := b |>) in *. clearbody s1. wp_step.
  apply (wp_mono _ (fun _ s' => it_kept s s')).
  - apply wp_when; intros _; [|done]. wp_step.
    apply wp_setTgt; [apply K4|done|done|by apply corr_known|]. intros s2 K5.
    unfold IT.istat. wp_steps. pose proof (it_kept_trans _ _ _ K4 K5) as [[] E]. by split.
  - intros _ s2 K5. apply wp_when; intros _; [|by apply HQ]. wp_step. apply wp_onBase; [apply K5|].
    apply wp_confEntry; [apply K5|done|done|]. intros e2 He2 _. split; [split; [apply K5|done]|].
    intros K6. wp_step. apply wp_unsignedCtrUpdate; [destruct (tc_u _ Hcfg); cbn in *; lia|apply He2|].
    intros u Hu. apply wp_onBase; [apply K6|]. eapply wp_confSet; [apply K6|done|done| |done|].
    + intros e3 []. by constructor.
    + intros b2 K7. split; [done|]. intros K8. apply HQ.
      eapply it_kept_trans; [exact K5|]. exact (it_kept_trans _ _ _ K6 K8).
Qed.

Lemma wp_updateIndirect s tid bi nrand t (Q : unit -> ITTAGE_TAGE -> Prop) :
  it_ok s -> trainable bi -> (forall s', it_kept s s' -> Q tt s') ->
  wp (IT.updateIndirect p tid bi nrand t) Q s.
Proof.
  intros Hs Hbi HQ. unfold IT.updateIndirect. wp_step. apply wp_trainUseAlt; [done|]. intros s1 K1.
  wp_step. apply wp_it_handleAlloc; [apply K1|done| |].
  { intros [_ H]%andb_true_iff. by apply Z.ltb_lt in H. }
  intros s2 K2. apply wp_it_handleTAGEUpdate; [apply K2|done|]. intros s3 K3. apply HQ.
  eapply it_kept_trans; [exact K1|]. by eapply it_kept_trans.
Qed.

Definition provided (b : BranchInfo) : Prop :=
  bi_provider b = TAGE_LONGEST_MATCH \/ bi_provider b = TAGE_ALT_MATCH \/
  bi_provider b = PROVIDER_BTB.

Lemma it_ok_stats s l l' :
  it_ok s -> it_ok (s <| it_base := (it_base s) <| tb_stats := l |> |> <| istats := l' |>).
Proof. intros [[[] ?] ? ?]. by constructor. Qed.

Lemma wp_it_updateStats s t bi (Q : unit -> ITTAGE_TAGE -> Prop) :
  it_ok s -> provided (ii_base bi) -> (forall s', it_kept s s' -> Q tt s') ->
  wp (IT.updateStats t bi) Q s.
Proof.
  intros Hs Hp HQ.
  assert (Hst : forall l l', Q tt (s <| it_base := (it_base s) <| tb_stats := l |> |> <| istats := l' |>)).
  { intros l l'. apply HQ. split; [by apply it_ok_stats|done]. }
  unfold IT.updateStats, IT.istat, TB.stat. wp_step. apply wp_massert.
  { by destruct Hp as [-> |[-> | ->]]. }
  destruct Hp as [-> |[-> | ->]]; destruct (ii_squash bi); cbn [negb]; wp_steps; try discriminate;
    destruct s as [[] tg st]; apply Hst.
Qed.

(** ** Prediction *)

Lemma wp_readBase {A} s (m : M TAGEBase A) (Q : A -> ITTAGE_TAGE -> Prop) :
  wp m (fun a b => b = it_base s /\ Q a s) (it_base s) -> wp (zoom it_base m) Q s.
Proof.
  intros Hm. apply wp_zoom. eapply wp_mono; [exact Hm|]. intros a b [-> HQ].
  by replace (setf it_base _ s) with s by (by destruct s).
Qed.

(** A non-null target *)
Definition hasTgt (s : ITTAGE_TAGE) (bank idx : Z) : Prop :=
  exists t x, vat (tgtTable s) bank = Some t /\ vat t idx = Some (Some x).

(** The bank of a match with its index *)
Definition found (s : ITTAGE_TAGE) (bank : Z) : Prop :=
  exists x, vat (tableIndices (it_base s)) bank = Some x /\ 0 <= x < size bank /\ hasTgt s bank x.

#[local] Abbreviation indexed_ok s := (scratch_ok (widen p) size (it_base s)).

Lemma wp_it_matches s i (Q : bool -> ITTAGE_TAGE -> Prop) :
  it_ok s -> indexed_ok s -> 1 <= i <= n ->
  (forall b, (b = true -> found s i) -> Q b s) -> wp (IT.matches p i) Q s.
Proof.
  intros Hs Hsc Hi HQ. unfold IT.matches. wp_step. apply wp_readBase.
  apply (wp_matches (widen p) size Hcfg); [apply Hs|done|done|]. intros b Hb. split; [done|].
  destruct b; cbn [negb]; [|wp_steps; by apply HQ].
  destruct (Hsc i Hi (Hb eq_refl)) as (x & t & Hx & Hxr & _). wp_step. apply wp_readBase.
  unfold TB.scratchIndex. wp_steps. eapply wp_at_index; [exact Hx|]. split; [done|]. wp_step.
  apply wp_tgtAt; [done..|]. intros tt' o Ht Ho _. wp_steps. apply HQ.
  intros E. apply bool_decide_eq_true in E. destruct o as [y|]; [|done]. exists x. by do 2 (split; [done|]); exists tt', y.
Qed.

Lemma wp_it_firstMatch k : forall s (Q : Z -> ITTAGE_TAGE -> Prop),
  it_ok s -> indexed_ok s -> Z.of_nat k <= n ->
  (forall r, 0 <= r <= Z.of_nat k -> (0 < r -> found s r) -> Q r s) ->
  wp (IT.firstMatch p k) Q s.
Proof.
  induction k as [|k IH]; intros s Q Hs Hsc Hn HQ; cbn [IT.firstMatch].
  - apply wp_ret. apply HQ; lia.
  - wp_step. apply wp_it_matches; [done|done|lia|]. intros b Hb. destruct b.
    + apply wp_ret. apply HQ; [lia|]. intros _. by apply Hb.
    + apply IH; [done|done|lia|]. intros r Hr Hf. apply HQ; [lia|done].
Qed.

(** A bank that was found, with its index in the branch *)
Definition located (s : ITTAGE_TAGE) (bank idx : Z) : Prop :=
  0 <= bank <= n /\ (0 < bank -> 0 <= idx < size bank /\ hasTgt s bank idx).

Lemma wp_it_found s hb b (upd : Z -> BranchInfo -> BranchInfo) (Q : BranchInfo -> ITTAGE_TAGE -> Prop) :
  (0 < hb -> found s hb) -> 0 <= hb ->
  (hb = 0 -> Q b s) -> (forall x, 0 < hb -> 0 <= x < size hb -> hasTgt s hb x -> Q (upd x b) s) ->
  wp (if hb =? 0 then mret b else ti ← zoom it_base (TB.scratchIndex hb); mret (upd ti b)) Q s.
Proof.
  intros Hf Hr H0 HQ. destruct (Z.eqb_spec hb 0); [apply wp_ret; auto|].
  destruct Hf as (x & Hx & Hxr & Ht); [lia|]. wp_step. apply wp_readBase.
  unfold TB.scratchIndex. wp_steps. eapply wp_at_index; [exact Hx|]. split; [done|]. wp_steps.
  apply HQ; [lia|done|done].
Qed.

(** What a search leaves in a branch *)
Record searched (s : ITTAGE_TAGE) (b b' : BranchInfo) : Prop := {
  sd_hit : located s (hitBank b') (hitBankIndex b');
  sd_alt : located s (altBank b') (altBankIndex b');
  sd_same : bi_same b b';
  sd_ix : bi_tableIndices b' = bi_tableIndices b;
  sd_tg : bi_tableTags b' = bi_tableTags b
}.

Lemma wp_searchBanks s b (Q : BranchInfo -> ITTAGE_TAGE -> Prop) :
  it_ok s -> indexed_ok s -> hitBank b = 0 -> altBank b = 0 ->
  (forall b', searched s b b' -> Q b' s) -> wp (IT.searchBanks p b) Q s.
Proof.
  intros Hs Hsc Eh Ea HQ. assert (Hn : 0 < n) by (exact (hs_n _ (tc_sizes _ Hcfg))).
  unfold IT.searchBanks. wp_step. apply wp_it_firstMatch; [done|done|lia|]. intros hb Hhb Hf. wp_step.
  apply (wp_it_found s hb b (fun ti b => b <| hitBank := hb |> <| hitBankIndex := ti |>)); [done|lia| |].
  - intros ->. rewrite Eh. cbn [Z.to_nat Z.sub Z.opp Z.add IT.firstMatch]. wp_steps. apply HQ.
    constructor; [split; lia..|done|done|done].
  - intros x Hpos Hx Htg. wp_step. apply wp_it_firstMatch; [done|done|cbn; lia|]. intros ab Hab Hfa.
    cbn in Hab. assert (Hl : located s hb x) by (split; [lia|done]).
    apply (wp_it_found s ab _ (fun ti b => b <| altBank := ab |> <| altBankIndex := ti |>)); [done|lia| |].
    + intros ->. apply HQ. constructor; cbn; [done| |by destruct b|done|done]. rewrite Ea. split; lia.
    + intros y Hpa Hy Hta. apply HQ. constructor; cbn; [done| |by destruct b|done|done].
      split; [lia|done].
Qed.

(** The banks of a branch with their indices, and the rest a prediction keeps *)
Record same_banks (b b' : BranchInfo) : Prop := {
  sb_same : bi_same b b';
  sb_hit : hitBank b' = hitBank b;
  sb_hitIx : hitBankIndex b' = hitBankIndex b;
  sb_alt : altBank b' = altBank b;
  sb_altIx : altBankIndex b' = altBankIndex b;
  sb_ix : bi_tableIndices b' = bi_tableIndices b;
  sb_tg : bi_tableTags b' = bi_tableTags b
}.

(** The fields of the branch itself, which a prediction does not touch *)
Definition same_info (bi bi' : ITInfo) : Prop :=
  ii_corrTarget bi' = ii_corrTarget bi /\ ii_indirect bi' = ii_indirect bi /\
  ii_type bi' = ii_type bi /\ ii_taken bi' = ii_taken bi /\ ii_squash bi' = ii_squash bi.

Definition hit_provider (b : BranchInfo) : Prop :=
  bi_provider b = TAGE_LONGEST_MATCH /\ 0 < hitBank b \/
  bi_provider b = TAGE_ALT_MATCH /\ 0 < altBank b.

Lemma wp_tgtLocated s bank idx (Q : option PCStateBase -> ITTAGE_TAGE -> Prop) :
  it_ok s -> located s bank idx -> 0 < bank -> (forall t, T t -> Q (Some t) s) ->
  wp (IT.tgtAt bank idx) Q s.
Proof.
  intros Hs [Hb Hl] Hpos HQ. destruct (Hl Hpos) as (Hi & t & x & Ht & Hx).
  apply wp_tgtAt; [done|lia|done|]. intros t' o Ht' Ho Hk. simplify_eq. by apply HQ, Hk.
Qed.

Lemma wp_located s bank idx (Q : TageEntry -> ITTAGE_TAGE -> Prop) :
  it_ok s -> located s bank idx -> 0 < bank -> (forall e, Q e s) ->
  wp (zoom it_base (TB.entryAt bank idx)) Q s.
Proof.
  intros Hs [Hb Hl] Hpos HQ. apply wp_readBase.
  apply wp_confEntry; [apply Hs|lia|by apply Hl|]. by intros e _ _.
Qed.

Lemma wp_selectProvider s bi (Q : ITInfo -> ITTAGE_TAGE -> Prop) :
  it_ok s -> located s (hitBank (ii_base bi)) (hitBankIndex (ii_base bi)) ->
  located s (altBank (ii_base bi)) (altBankIndex (ii_base bi)) -> 0 < hitBank (ii_base bi) ->
  (forall bi', same_banks (ii_base bi) (ii_base bi') -> same_info bi bi' ->
     ii_predTarget bi' = ii_predTarget bi ->
     bi_provider (ii_base bi') = bi_provider (ii_base bi) \/ hit_provider (ii_base bi') -> Q bi' s) ->
  wp (IT.selectProvider bi) Q s.
Proof.
  intros Hs Hh Ha Hpos HQ. unfold IT.selectProvider. wp_step.
  apply (wp_mono _ (fun bi' s' => s' = s /\ same_banks (ii_base bi) (ii_base bi') /\ same_info bi bi' /\
    ii_predTarget bi' = ii_predTarget bi /\ bi_provider (ii_base bi') = bi_provider (ii_base bi))).
  { wp_step.
    - apply Z.ltb_lt in H. wp_step. apply wp_located; [done..|]. intros e. wp_step.
      apply wp_tgtLocated; [done..|]. intros t _. wp_step. eapply wp_deref; [done|]. wp_steps.
      split_and!; try done.
    - wp_steps. split_and!; try done. }
  intros bi1 s1 (-> & Hb1 & Hi1 & Hp1 & Hv1). wp_step. apply wp_located; [done..|]. intros e. wp_step.
  apply wp_tgtLocated; [done..|]. intros t _. wp_step. eapply wp_deref; [done|]. wp_step. wp_step.
  destruct (vat_lt (useAltPredForNewlyAllocated (it_base s)) 0) as [ua Hua].
  { rewrite (to_na _ _ _ (bo_tb _ (ik_base _ Hs))). destruct (tc_numna _ Hcfg). lia. }
  wp_step. eapply wp_at_index; [exact Hua|]. wp_step.
  destruct Hb1 as [Hsame E1 E2 E3 E4 E5 E6].
  set (c := _ <? 0). cbn. unfold setf. cbn.
  destruct (c || (0 <? te_ctr e)); [|destruct (Z.ltb_spec 0 (altBank (ii_base bi1)))];
    apply HQ; try done; try (by destruct Hsame).
  - right; left. split; [done|]. cbn. lia.
  - right; right. by split.
  - by left.
Qed.

(** What a prediction leaves: the tables, a branch that can be trained, and a
    target that was trained before, unless the target is left to the BTB *)
Record it_predicted (s : ITTAGE_TAGE) (bi bi' : ITInfo) (s' : ITTAGE_TAGE) : Prop := {
  pd_ok : it_ok s';
  pd_scratch : scratch_only (it_base s) (it_base s');
  pd_rest : s' = s <| it_base := it_base s' |>;
  pd_hit : bank_ok p size (hitBank (ii_base bi')) (hitBankIndex (ii_base bi'));
  pd_indexed : baseIndexed p (bi_tableIndices (ii_base bi')) (bi_tableTags (ii_base bi'));
  pd_same : bi_same (ii_base bi) (ii_base bi');
  pd_info : same_info bi bi';
  pd_target : bi_provider (ii_base bi') = PROVIDER_BTB /\ ii_predTarget bi' = None \/
    provided (ii_base bi') /\ exists t, ii_predTarget bi' = Some t /\ T t
}.

Lemma wp_readTarget s bi (Q : ITInfo -> ITTAGE_TAGE -> Prop) :
  it_ok s -> located s (hitBank (ii_base bi)) (hitBankIndex (ii_base bi)) ->
  located s (altBank (ii_base bi)) (altBankIndex (ii_base bi)) ->
  bi_provider (ii_base bi) = PROVIDER_BTB \/ hit_provider (ii_base bi) ->
  (bi_provider (ii_base bi) = PROVIDER_BTB -> Q bi s) ->
  (forall t, provided (ii_base bi) -> T t -> Q (bi <| ii_predTarget := Some t |>) s) ->
  wp (IT.readTarget bi) Q s.
Proof.
  intros Hs Hh Ha Hp HB HQ. unfold IT.readTarget.
  destruct Hp as [E|[[E Hpos]|[E Hpos]]]; rewrite E; cbn [Z.eqb Pos.eqb TAGE_LONGEST_MATCH TAGE_ALT_MATCH].
  - apply wp_ret. by apply HB.
  - wp_step. apply wp_tgtLocated; [done..|]. intros t Ht. wp_steps. unfold setf. cbn. rewrite set_src.
    apply HQ; [by left|done].
  - wp_step. apply wp_tgtLocated; [done..|]. intros t Ht. wp_steps. unfold setf. cbn. rewrite set_src.
    apply HQ; [by right; left|done].
Qed.

Lemma base_ok_scratch s s' : base_ok s -> scratch_only s s' -> tb_ok (widen p) size s' -> base_ok s'.
Proof. intros [_ Hc] Hso Hok. constructor; [done|]. by rewrite Hso. Qed.

Lemma wp_it_calc s tid pc b (Q : BranchInfo -> ITTAGE_TAGE -> Prop) :
  it_ok s -> 0 <= tid < tg_numThreads p -> bi_ok (widen p) size b ->
  (forall b' s', it_ok s' -> scratch_only (it_base s) (it_base s') -> s' = s <| it_base := it_base s' |> ->
     indexed_ok s' -> bi_ok (widen p) size b' -> bi_calc b b' ->
     baseIndexed p (bi_tableIndices b') (bi_tableTags b') -> Q b' s') ->
  wp (zoom it_base (TB.calculateIndicesAndTags p tid pc b)) Q s.
Proof.
  intros Hs Ht Hb HQ. apply wp_zoom.
  eapply (wp_calc (widen p) Hcfg Hbase); [apply Hs|done|done|]. intros b' s' H1 H2 H3 H4 H5.
  apply HQ; [|done|done| |done|done|].
  - apply it_ok_base; [done|]. eapply base_ok_scratch; [apply Hs|done|done].
  - intros i Hi _. destruct (H5 i Hi) as (x & t & ? & ? & ? & _). by exists x, t.
  - intros i Hi. destruct (H5 i Hi) as (x & t & ? & ? & ? & ? & ?). by exists x, t.
Qed.

Lemma wp_it_tagePredict s tid pc bi (Q : ITInfo -> ITTAGE_TAGE -> Prop) :
  it_ok s -> 0 <= tid < tg_numThreads p -> bi_ok (widen p) size (ii_base bi) ->
  (forall bi' s', it_predicted s bi bi' s' -> Q bi' s') -> wp (IT.tagePredict p tid pc bi) Q s.
Proof.
  intros Hs Ht Hb HQ. unfold IT.tagePredict. wp_step. apply wp_it_calc; [done..|].
  intros b1 s1 Hs1 Hso Hrest Hsc Hb1 Hcalc Hix. wp_step.
  set (b2 := b1 <| bimodalIndex := _ |> <| hitBank := 0 |> <| altBank := 0 |>).
  apply (wp_searchBanks s1 b2); [done..|]. intros b3 [Hh Ha Hsame Ei Et]. wp_step.
  set (b4 := b3 <| bi_provider := _ |> <| tagePred := _ |> <| longestMatchPred := _ |>).
  set (bi1 := bi <| ii_base := b4 |> <| ii_predTarget := None |>).
  assert (Hsame1 : bi_same (ii_base bi) b4).
  { etrans; [by apply bi_calc_same|]. by destruct Hsame. }
  apply (wp_mono _ (fun bi' s' => s' = s1 /\ same_banks b4 (ii_base bi') /\ same_info bi bi' /\
    ii_predTarget bi' = None /\
    (bi_provider (ii_base bi') = PROVIDER_BTB \/ hit_provider (ii_base bi')))).
  - destruct (Z.ltb_spec 0 (hitBank b4)); [|by apply wp_ret; split_and!; [..|left]].
    apply (wp_selectProvider s1 bi1); [done..|]. intros bi' H1 H2 H3 H4. split_and!; try done.
  - intros bi' s' (-> & [Sb E1 E2 E3 E4 E5 E6] & Hi & Hp & Hprov).
    assert (Hfin : forall bi2, ii_base bi2 = ii_base bi' -> same_info bi bi2 ->
      (bi_provider (ii_base bi2) = PROVIDER_BTB /\ ii_predTarget bi2 = None \/
       provided (ii_base bi2) /\ exists t, ii_predTarget bi2 = Some t /\ T t) -> Q bi2 s1).
    { intros bi2 Eb H2 H3. apply HQ. constructor; try done; rewrite Eb.
      - rewrite E1, E2. destruct Hh as [Hr Hl]. split; [done|]. intros Hp0. by apply Hl.
      - rewrite E5, E6. cbn. rewrite Ei, Et. done.
      - by etrans. }
    apply wp_readTarget; [done|by rewrite E1, E2|by rewrite E3, E4|done| |].
    + intros EB. apply Hfin; [done|done|by left].
    + intros t Hpr Ht'. apply Hfin; [done|done|]. right. split; [done|]. by exists t.
Qed.
End Tables.
