(* ===== verification/IttageRun.v ===== *)
(** * ITTAGE: reachable states

    The operations [BPredUnit] performs on ITTAGE: a branch is speculated (a
    lookup if it is indirect and detected, then [update]), squashed, corrected
    ([update] after a misprediction) and committed.  [ir_flights] are the branches
    of a thread in flight, the youngest first, [ir_base] its committed history,
    [ir_trained] the targets of the indirect branches that were committed. *)

From Stdlib Require Import ZArith Lia.
From stdpp Require Import base list numbers.
From S2P Require Import Prelude Types Indirect CondPred TageHist Tage TageInv TageBaseOk TageSafe TageScl Ittage IttageOk.

(** A branch as the front end presents it; [ib_lookup]: it was detected, and
    predicted taken *)
Record ITBranch := mkITBranch {
  ib_pc : Addr;
  ib_type : BranchType;
  ib_lookup : bool;
  ib_taken : bool;
  ib_target : PCStateBase
}.

Record ITFlight := mkITFlight {
  if_pc : Addr;
  if_type : BranchType;
  if_taken : bool;
  if_target : PCStateBase;
  if_info : option ITInfo
}.

Record ITRun := mkITRun {
  ir_pred : ITTAGE;
  ir_flights : ThreadID -> list ITFlight;
  ir_base : ThreadID -> list Z;
  ir_trained : list PCStateBase
}.

Inductive ITOp :=
| ISpeculate (tid : ThreadID) (b : ITBranch)
| ISquash (tid : ThreadID)
| ICorrect (tid : ThreadID) (taken : bool) (target : PCStateBase)
| ICommit (tid : ThreadID).

Definition itThread (op : ITOp) : ThreadID :=
  match op with ISpeculate tid _ | ISquash tid | ICorrect tid _ _ | ICommit tid => tid end.

(** A map with one thread changed *)
Definition upd {A} (tid : ThreadID) (x : A) (f : ThreadID -> A) : ThreadID -> A :=
  fun t => if t =? tid then x else f t.

Section Runs.
Context (p : ITParams).

(** The number of bits a branch adds to the history, and their value *)
Definition histCount (ty : BranchType) : Z :=
  match ty with
  | DirectCond => histBitsConditional p
  | IndirectUncond => histBitsIndBranch p
  | CallDirect => histBitsCall p
  | CallIndirect => histBitsIndCall p
  | _ => 0
  end.

Definition histValue (ty : BranchType) (pc : Addr) (taken : bool) (target : Addr) : Z :=
  Z.land (match ty with
          | DirectCond => if taken then 1 else 0
          | _ => Z.lxor (Z.lxor target (Z.shiftr target 3)) pc
          end) (2 ^ histCount ty - 1).

Definition flightValue (f : ITFlight) : Z :=
  histValue (if_type f) (if_pc f) (if_taken f) (instAddr (if_target f)).

Definition flightBits (f : ITFlight) (hist : list Z) : list Z :=
  pushed (Z.to_nat (histCount (if_type f))) (flightValue f) hist.

(** The history of a thread: the bits of the branches in flight in front of the
    committed ones *)
Definition itHistory (tid : ThreadID) (r : ITRun) : list Z :=
  foldr flightBits (ir_base r tid) (ir_flights r tid).

Definition flying_bits (fl : list ITFlight) : Z :=
  foldr (fun f acc => histCount (if_type f) + acc) 0 fl.

(** The prediction of a branch in [BPredUnit] *)
Definition it_speculate (tid : ThreadID) (b : ITBranch) : M ITTAGE (option ITInfo) :=
  h ← (if ib_lookup b then r ← IT.lookup p tid 0 (ib_pc b) None; mret (snd r) else mret None);
  IT.update p tid 0 (ib_pc b) false (ib_taken b) (ib_target b) (ib_type b) h.

Definition it_step (op : ITOp) (r : ITRun) : Res ITRun :=
  let fl := ir_flights r (itThread op) in
  match op with
  | ISpeculate tid b =>
      x ← it_speculate tid b (ir_pred r);
      let f := mkITFlight (ib_pc b) (ib_type b) (ib_taken b) (ib_target b) (fst x) in
      Ok (mkITRun (snd x) (upd tid (f :: fl) (ir_flights r)) (ir_base r) (ir_trained r))
  | ISquash tid =>
      match fl with
      | [] => Err NullDeref
      | f :: fl' =>
          x ← IT.squash p tid 0 (if_info f) (ir_pred r);
          Ok (mkITRun (snd x) (upd tid fl' (ir_flights r)) (ir_base r) (ir_trained r))
      end
  | ICorrect tid taken target =>
      match fl with
      | [] => Err NullDeref
      | f :: fl' =>
          x ← IT.update p tid 0 (if_pc f) true taken target (if_type f) (if_info f) (ir_pred r);
          let f' := mkITFlight (if_pc f) (if_type f) taken target (fst x) in
          Ok (mkITRun (snd x) (upd tid (f' :: fl') (ir_flights r)) (ir_base r) (ir_trained r))
      end
  | ICommit tid =>
      match list.last fl with
      | None => Err NullDeref
      | Some f =>
          x ← IT.commit p tid 0 (if_info f) (ir_pred r);
          Ok (mkITRun (snd x) (upd tid (removelast fl) (ir_flights r))
                (upd tid (flightBits f (ir_base r tid)) (ir_base r))
                (if IT.isIndirectNoReturn (if_type f) then if_target f :: ir_trained r
                 else ir_trained r))
      end
  end.

(** The types [BPredUnit] looks up: indirect, and not a return *)
Definition lookedUp (ty : BranchType) : bool :=
  IT.isIndirectNoReturn ty || bool_decide (ty = IndirectCond).

(** The callers look up the detected indirect branches; the window of the history
    buffer holds 1999 bits.  What is left out is the commit of a branch that was
    looked up and adds no history bits: an indirect conditional one. *)
Definition it_enabled (op : ITOp) (r : ITRun) : bool :=
  let fl := ir_flights r (itThread op) in
  (0 <=? itThread op) && (itThread op <? tg_numThreads (it_tage p)) &&
  match op with
  | ISpeculate _ b =>
      (0 <? ib_pc b) && implb (ib_lookup b) (lookedUp (ib_type b)) &&
      (flying_bits fl + histCount (ib_type b) <? rollbackBuffer)
  | ICommit _ =>
      match list.last fl with
      | None => false
      | Some f => match if_info f with None => true | Some _ => 0 <? histCount (if_type f) end
      end
  | _ => match fl with [] => false | _ => true end
  end.

Definition it_start (t : ITTAGE) : ITRun := mkITRun t (fun _ => []) (fun _ => []) [].

Inductive it_reach (t0 : ITTAGE) : ITRun -> Prop :=
| it_reach_start : it_reach t0 (it_start t0)
| it_reach_next r op r' :
    it_reach t0 r -> it_enabled op r = true -> it_step op r = Ok r' -> it_reach t0 r'.
End Runs.

Record it_cfg (p : ITParams) : Prop := {
  ic_tage : tage_cfg (widen (it_tage p));
  ic_base : base_cfg (it_tage p);
  ic_ctr : 1 <= tagTableCounterBits (it_tage p);
  ic_cond : 0 <= histBitsConditional p <= 1;
  ic_branch : 1 <= histBitsIndBranch p <= 30;
  ic_icall : 1 <= histBitsIndCall p <= 30;
  ic_call : 0 <= histBitsCall p <= 30
}.

Section Inv.
Context (p : ITParams) (Hcfg : it_cfg p).
#[local] Abbreviation tp := (it_tage p).
#[local] Abbreviation hp := (histParams (it_tage p)).
#[local] Abbreviation size := (baseSize (it_tage p)).

Lemma histCount_range ty : 0 <= histCount p ty <= 30.
Proof. destruct Hcfg, ty; cbn; lia. Qed.

Lemma indirect_count ty : IT.isIndirectNoReturn ty = true -> 1 <= histCount p ty.
Proof. destruct Hcfg, ty; cbn; try discriminate; lia. Qed.

Lemma wp_calculateHistUpdate {S} ty pc taken tgt (s : S) (Q : Z * Z -> S -> Prop) :
  Q (histValue p ty pc taken tgt, histCount p ty) s ->
  wp (IT.calculateHistUpdate p ty pc taken tgt) Q s.
Proof.
  intros HQ. pose proof (histCount_range ty) as Hr. unfold IT.calculateHistUpdate.
  set (hn := match ty with DirectCond => _ | _ => _ end).
  assert (E : hn = (match ty with DirectCond => if taken then 1 else 0
    | _ => Z.lxor (Z.lxor tgt (Z.shiftr tgt 3)) pc end, histCount p ty)).
  { subst hn. destruct ty; try reflexivity; f_equal; apply Z.mod_small; cbn in *; lia. }
  rewrite E. unfold Scl.lowMask. wp_step.
  destruct (Z.leb_spec 0 (histCount p ty)), (Z.ltb_spec (histCount p ty) 31); try lia. cbn [andb].
  wp_steps. exact HQ.
Qed.

(** ** Branches *)

(** What training and the history update need of a branch *)
Record usable (ty : BranchType) (pc : Addr) (bi : ITInfo) : Prop := {
  us_hit : bank_ok tp size (hitBank (ii_base bi)) (hitBankIndex (ii_base bi));
  us_ix : IT.isIndirectNoReturn ty = true ->
    baseIndexed tp (bi_tableIndices (ii_base bi)) (bi_tableTags (ii_base bi));
  us_pc : bi_branchPC (ii_base bi) = pc;
  us_prov : provided (ii_base bi);
  us_pred : bi_provider (ii_base bi) <> PROVIDER_BTB -> ii_predTarget bi <> None
}.

(** A branch before its first history update *)
Record ground (ty : BranchType) (pc : Addr) (bi : ITInfo) : Prop := {
  gd_usable : usable ty pc bi;
  gd_mod : bi_modified (ii_base bi) = false;
  gd_ng : bi_nGhist (ii_base bi) = 0
}.

(** A branch whose history update is in place *)
Record flying_it (f : ITFlight) (bi : ITInfo) : Prop := {
  fy_hit : bank_ok tp size (hitBank (ii_base bi)) (hitBankIndex (ii_base bi));
  fy_ix : IT.isIndirectNoReturn (if_type f) = true ->
    baseIndexed tp (bi_tableIndices (ii_base bi)) (bi_tableTags (ii_base bi));
  fy_mod : bi_modified (ii_base bi) = true;
  fy_path : bi_pathHist (ii_base bi) = Some 0;
  fy_ng : bi_nGhist (ii_base bi) = histCount p (if_type f);
  fy_bits : 0 < histCount p (if_type f);
  fy_g : bi_ghist (ii_base bi) = flightValue p f;
  fy_pc : bi_branchPC (ii_base bi) = if_pc f;
  fy_pos : 0 < if_pc f;
  fy_prov : provided (ii_base bi);
  fy_pred : ii_predTarget bi <> None;
  fy_corr : ii_corrTarget bi = Some (if_target f);
  fy_ind : ii_indirect bi = IT.isIndirectNoReturn (if_type f);
  fy_type : ii_type bi = if_type f
}.

Definition flight_ok (f : ITFlight) : Prop :=
  match if_info f with
  | None => histCount p (if_type f) = 0
  | Some bi => flying_it f bi \/ histCount p (if_type f) = 0 /\ bi_modified (ii_base bi) = false
  end.

Record it_thread_ok (h : ThreadHistory) (fl : list ITFlight) (base : list Z) : Prop := {
  itk_hist : th_repr hp (foldr (flightBits p) base fl) h;
  itk_path : pathHist h = 0;
  itk_flights : Forall flight_ok fl;
  itk_window : flying_bits p fl <= window hp h;
  itk_len : flying_bits p fl < rollbackBuffer
}.

Record it_run_ok (r : ITRun) : Prop := {
  iro_ok : it_ok tp (fun t => t ∈ ir_trained r) (itage (ir_pred r));
  iro_threads : forall tid h, 0 <= tid < tg_numThreads tp ->
    vat (threadHistory (it_base (itage (ir_pred r)))) tid = Some h ->
    it_thread_ok h (ir_flights r tid) (ir_base r tid)
}.

(** ** Histories *)

Definition putThread (tid : ThreadID) (h : ThreadHistory) (s : ITTAGE_TAGE) : ITTAGE_TAGE :=
  s <| it_base := setThread tid h (it_base s) |>.

Lemma putThread_twice tid h h' s : putThread tid h' (putThread tid h s) = putThread tid h' s.
Proof.
  unfold putThread, setThread. destruct s as [b ? ?]. unfold setf. cbn. f_equal.
  destruct b. unfold setf. cbn. by rewrite list_insert_insert_eq.
Qed.

Lemma wp_pushBits s tid g k h hist (Q : unit -> ITTAGE_TAGE -> Prop) :
  vat (threadHistory (it_base s)) tid = Some h -> th_repr hp hist h -> 0 < k < 256 ->
  (forall h', th_repr hp (pushed (Z.to_nat k) g hist) h' -> pathHist h' = pathHist h ->
     k + Z.min (window hp h) (rollbackBuffer - 1) <= window hp h' -> Q tt (putThread tid h' s)) ->
  wp (zoom it_base (TB.updateGHist tp tid g k)) Q s.
Proof.
  intros Hh Hr Hk HQ. wp_step. unfold TB.updateGHist. destruct (Z.eqb_spec k 0); [lia|].
  eapply wp_onThread; [exact Hh|].
  eapply (wp_updateGHist hp (tc_sizes _ (ic_tage _ Hcfg))); [exact Hr|lia|].
  intros h' Hr' [Hp _] Hw. by apply HQ.
Qed.

(** [b'] is [b] with its history update: [k] bits of value [g] *)
Record rebit (g k : Z) (b b' : BranchInfo) : Prop := {
  rb_hit : hitBank b' = hitBank b;
  rb_hitIx : hitBankIndex b' = hitBankIndex b;
  rb_ix : bi_tableIndices b' = bi_tableIndices b;
  rb_tg : bi_tableTags b' = bi_tableTags b;
  rb_pc : bi_branchPC b' = bi_branchPC b;
  rb_prov : bi_provider b' = bi_provider b;
  rb_mod : bi_modified b' = true;
  rb_path : bi_pathHist b' = Some 0;
  rb_ng : bi_nGhist b' = k;
  rb_g : bi_ghist b' = g
}.

(** The thread before an update: [w] is the window without the bits of the branch *)
Definition before (b : BranchInfo) (h : ThreadHistory) (hist : list Z) (w : Z) : Prop :=
  bi_modified b = false /\ bi_nGhist b = 0 /\ th_repr hp hist h /\ w = window hp h \/
  bi_modified b = true /\ bi_pathHist b = Some 0 /\ 0 <= bi_nGhist b <= window hp h /\
    th_repr hp (withBits b hist) h /\ w = window hp h - bi_nGhist b.

Lemma wp_it_updateHistories s tid g k bi h hist w (Q : ITInfo -> ITTAGE_TAGE -> Prop) :
  vat (threadHistory (it_base s)) tid = Some h -> before (ii_base bi) h hist w -> pathHist h = 0 ->
  0 < k < 256 ->
  (forall b' h', rebit g k (ii_base bi) b' -> th_repr hp (pushed (Z.to_nat k) g hist) h' ->
     pathHist h' = 0 -> k + Z.min w (rollbackBuffer - 1) <= window hp h' ->
     Q (bi <| ii_base := b' |>) (putThread tid h' s)) ->
  wp (IT.updateHistories tp tid true g k bi) Q s.
Proof.
  intros Hh Hb Hp Hk HQ. unfold IT.updateHistories.
  replace (speculativeHistUpdate tp) with true by (symmetry; exact (tc_spec _ (ic_tage _ Hcfg))).
  cbn [eqb negb andb]. destruct (Z.eqb_spec k 0); [lia|]. wp_step.
  destruct Hb as [(Hm & Hn & Hr & ->)|(Hm & Hph & Hn & Hr & ->)]; rewrite Hm; cbn [negb].
  - wp_step. unfold TB.recordHistState. wp_step. eapply wp_tb_thread; [exact Hh|]. wp_steps.
    { cbn in H. unfold setf in H. cbn in H. congruence. }
    apply wp_massert; [apply Z.eqb_eq; exact Hn|]. wp_step. set (b' := _ <| bi_nGhist := k |>).
    replace (setf it_base _ s) with s by (by destruct s).
    eapply (wp_pushBits s); [done..|]. intros h' Hr' Hp' Hw'. wp_steps.
    apply HQ; [|done|congruence|done]. unfold b'. rewrite Hp. by constructor.
  - wp_steps; [|cbn in H; congruence]. eapply (wp_restoreBits (widen tp) (ic_tage _ Hcfg));
      [exact Hh|done|done|lia|exact Hr|exact (proj2 Hn)|].
    intros b1 h1 Hr1 Hp1 _ Hw1 Hb1.
    assert (E1 : bi_nGhist b1 = 0 /\
      rebit g k (ii_base bi) (b1 <| bi_ghist := g |> <| bi_nGhist := k |> <| bi_modified := true |>)).
    { destruct Hb1 as [[-> E]| ->]; by split; [|constructor]. }
    destruct E1 as [En Hre]. wp_step. apply wp_massert; [by apply Z.eqb_eq|]. wp_step.
    change (setf it_base _ s) with (putThread tid h1 s).
    eapply (wp_pushBits (putThread tid h1 s) tid _ _ h1); [by eapply vat_insert_eq|done|done|].
    intros h' Hr' Hp' Hw'. wp_steps. rewrite putThread_twice.
    change (window hp h1 = window hp h - bi_nGhist (ii_base bi)) in Hw1.
    apply HQ; [exact Hre|done|congruence|]. rewrite <- Hw1. exact Hw'.
Qed.

(** ** The operations of [ITTAGE] *)

Lemma it_ok_thread T s tid h hist :
  it_ok tp T s -> th_repr hp hist h -> it_ok tp T (putThread tid h s).
Proof.
  intros Hs Hr. apply it_ok_base; [done|]. destruct (ik_base _ _ _ Hs) as [Hok Hc].
  constructor; [by eapply tb_ok_thread|done].
Qed.

Lemma make_bi_ok pc ty : bi_ok (widen tp) size (ii_base (IT.makeBranchInfo tp pc ty)).
Proof.
  pose proof (ic_tage _ Hcfg) as Ht.
  assert (Hn : 0 < nHistoryTables tp) by (exact (hs_n _ (tc_sizes _ Ht))).
  destruct (tc_log0 _ Ht) as (l0 & Hl0 & Hr0).
  constructor; cbn; rewrite ?length_replicate; try lia.
  - split; cbn; lia.
  - split; cbn; lia.
  - intros l Hl. change (vat (logTagTableSizes tp) 0 = Some l) in Hl.
    change (vat (logTagTableSizes tp) 0 = Some l0) in Hl0. simplify_eq.
    split; [done|]. apply Z.pow_pos_nonneg; cbn in *; lia.
Qed.

(** Only the scratch vectors and the histories have changed. *)
Definition spec_only (t t' : ITTAGE) : Prop :=
  it_base (itage t') = (it_base (itage t)) <| tableIndices := tableIndices (it_base (itage t')) |>
    <| tableTags := tableTags (it_base (itage t')) |>
    <| threadHistory := threadHistory (it_base (itage t')) |> /\
  tgtTable (itage t') = tgtTable (itage t).

#[export] Instance spec_only_preorder : PreOrder spec_only.
Proof.
  split; [intros t; split; [by destruct (it_base (itage t))|done]|].
  intros t1 t2 t3 [E1 F1] [E2 F2]. split; [|congruence]. rewrite E2, E1.
  by destruct (it_base (itage t1)), (it_base (itage t2)), (it_base (itage t3)).
Qed.

Definition threads (t : ITTAGE) : list ThreadHistory := threadHistory (it_base (itage t)).

Lemma spec_scratch t t' :
  scratch_only (it_base (itage t)) (it_base (itage t')) -> tgtTable (itage t') = tgtTable (itage t) ->
  spec_only t t' /\ threads t' = threads t.
Proof.
  intros Hso Ht. split; [|by apply scratch_only_threads]. split; [|done]. rewrite Hso.
  by destruct (it_base (itage t)).
Qed.

(** The branch is not resolved. *)
Definition unresolved (ty : BranchType) (bi : ITInfo) : Prop :=
  ii_corrTarget bi = None /\ ii_indirect bi = IT.isIndirectNoReturn ty.

Lemma wp_genIndirectInfo T t tid sn pc ty (Q : ITInfo -> ITTAGE -> Prop) :
  it_ok tp T (itage t) -> 0 <= tid < tg_numThreads tp ->
  (forall bi t', it_ok tp T (itage t') -> spec_only t t' -> threads t' = threads t -> ground ty pc bi ->
     unresolved ty bi -> bi_ok (widen tp) size (ii_base bi) -> Q bi t') ->
  wp (IT.genIndirectInfo p tid sn pc ty) Q t.
Proof.
  intros Hs Ht HQ. unfold IT.genIndirectInfo. pose proof (make_bi_ok pc ty) as Hb.
  set (bi := _ <| ii_base ::= _ |>). assert (Hbi : bi_ok (widen tp) size (ii_base bi)) by (by destruct Hb).
  assert (Hn : 0 < nHistoryTables tp) by (exact (hs_n _ (tc_sizes _ (ic_tage _ Hcfg)))).
  replace (ii_indirect bi) with (IT.isIndirectNoReturn ty) by done.
  destruct (IT.isIndirectNoReturn ty) eqn:Ei.
  - wp_step. wp_step. eapply (wp_it_calc tp (ic_tage _ Hcfg) (ic_base _ Hcfg) T); [exact Hs|done|exact Hbi|].
    intros b' s' H1 H2 H3 _ H5 H6 H7. wp_steps.
    destruct (spec_scratch t (t <| itage := s' |>)) as [Hso Hth]; [done|by rewrite H3|].
    apply HQ; [done|done|done| |done|done].
    destruct (bi_calc_same _ _ H6) as [Epc _ _ En Em].
    assert (Eh : hitBank b' = 0) by (by rewrite H6).
    assert (Ev : bi_provider b' = PROVIDER_BTB) by (by rewrite H6).
    constructor; [|done|done]. constructor; cbn; try done; [rewrite Eh; split; lia|by right; right].
  - wp_steps. apply HQ; [done|done|done| |done|done]. constructor; [|done|done].
    constructor; try done; [split; cbn; lia|congruence|by right; right].
Qed.

Lemma wp_it_lookup T t tid sn pc (Q : option PCStateBase * option ITInfo -> ITTAGE -> Prop) :
  it_ok tp T (itage t) -> 0 <= tid < tg_numThreads tp ->
  (forall o bi t', it_ok tp T (itage t') -> spec_only t t' -> threads t' = threads t ->
     (forall ty, ground ty pc bi) -> unresolved NoBranch bi -> (forall x, o = Some x -> T x) ->
     Q (o, Some bi) t') ->
  wp (IT.lookup p tid sn pc None) Q t.
Proof.
  intros Hs Ht HQ. unfold IT.lookup, IT.stat. wp_step. apply wp_massert; [done|]. wp_steps.
  apply (wp_genIndirectInfo T); [done..|]. intros bi t1 Hs1 Hso Hth Hg Hun Hbi. wp_step. wp_step.
  apply (wp_it_tagePredict tp (ic_tage _ Hcfg) (ic_base _ Hcfg) T); [done..|].
  intros bi' s' [Hok Hsc Hrest Hhit Hix Hsame Hinfo Htgt].
  destruct (spec_scratch t1 (t1 <| itage := s' |>)) as [Hso' Hth']; [done|by rewrite Hrest|].
  assert (Hg' : forall ty, ground ty pc bi').
  { intros ty. destruct Hg as [[_ _ Hpc _ _] Hm Hn], Hsame as [E1 _ _ E2 E3].
    constructor; [|congruence|congruence]. constructor; [done|done|congruence| |].
    - destruct Htgt as [[E _]|[E _]]; [by right; right|done].
    - destruct Htgt as [[E _]|[_ (x & E & _)]]; [done|]. by rewrite E. }
  assert (Hfin : forall o l, (forall x, o = Some x -> T x) ->
    Q (o, Some bi') ((t1 <| itage := s' |>) <| it_stats ::= l |>)).
  { destruct Hinfo as (Ec & Ei & _), Hun as [Hc Hi].
    intros o l Ho. apply HQ; [done| | |done|split; congruence|done].
    - etrans; [exact Hso|]. exact Hso'.
    - exact (eq_trans Hth' Hth). }
  destruct (Z.eqb_spec (bi_provider (ii_base bi')) PROVIDER_BTB) as [Eb|Eb]; wp_steps; apply Hfin.
  - done.
  - destruct Htgt as [[E _]|[_ (x & E & Hx)]]; [done|]. rewrite E. by intros ? [= <-].
Qed.

(** A branch type without history bits leaves everything alone. *)
Lemma wp_it_update_none t tid sn pc sq taken tgt ty o (Q : option ITInfo -> ITTAGE -> Prop) :
  histCount p ty = 0 -> Q o t -> wp (IT.update p tid sn pc sq taken tgt ty o) Q t.
Proof.
  intros Hc HQ. unfold IT.update. wp_step. apply wp_calculateHistUpdate. cbn [snd]. rewrite Hc.
  by apply wp_ret.
Qed.

(** The history given to [update] *)
Definition updatable (ty : BranchType) (pc : Addr) (o : option ITInfo) (h : ThreadHistory)
    (hist : list Z) (w : Z) : Prop :=
  match o with
  | None => th_repr hp hist h /\ w = window hp h
  | Some bi => usable ty pc bi /\ before (ii_base bi) h hist w
  end.

(** What [update] leaves *)
Record it_updated (T : PCStateBase -> Prop) (t : ITTAGE) (tid : ThreadID) (f : ITFlight) (hist : list Z)
    (w : Z) (t' : ITTAGE) : Prop := {
  iu_ok : it_ok tp T (itage t');
  iu_spec : spec_only t t';
  iu_flight : exists bi, if_info f = Some bi /\ flying_it f bi;
  iu_thread : exists h', threads t' = <[Z.to_nat tid := h']> (threads t) /\
    th_repr hp (flightBits p f hist) h' /\ pathHist h' = 0 /\
    histCount p (if_type f) + Z.min w (rollbackBuffer - 1) <= window hp h'
}.

(** The fields [update] sets in a branch, before the history *)
Definition resolved (taken : bool) (target : PCStateBase) (ty : BranchType) (bi bi' : ITInfo) : Prop :=
  ii_base bi' = ii_base bi /\ ii_predTarget bi' <> None /\ ii_corrTarget bi' = Some target /\
  ii_indirect bi' = IT.isIndirectNoReturn ty /\ ii_type bi' = ty.

Lemma wp_it_apply T t tid pc taken target ty bi bi' h hist w (Q : option ITInfo -> ITTAGE -> Prop) :
  it_ok tp T (itage t) -> 0 <= tid -> 0 < pc -> 0 < histCount p ty ->
  vat (threads t) tid = Some h -> pathHist h = 0 ->
  usable ty pc bi -> before (ii_base bi) h hist w -> resolved taken target ty bi bi' ->
  (forall o t', it_updated T t tid (mkITFlight pc ty taken target o) hist w t' -> Q o t') ->
  wp (bi ← zoom itage (IT.updateHistories tp tid true (histValue p ty pc taken (instAddr target))
             (histCount p ty) bi');
      mret (Some bi)) Q t.
Proof.
  intros Hs Ht Hpc Hk Hh Hp [Uh Ui Up Uv Upr] Hb (Eb & Hpred & Hcorr & Hind & Hty) HQ.
  pose proof (histCount_range ty). wp_step. wp_step. rewrite <- Eb in *.
  eapply wp_it_updateHistories; [exact Hh|exact Hb|exact Hp|lia|].
  intros b' h' [] Hr' Hp' Hw'. wp_steps. apply HQ. constructor; cbn.
  - by eapply it_ok_thread.
  - split; [|done]. cbn. by destruct (it_base (itage t)).
  - eexists. split; [reflexivity|]. constructor; cbn; try congruence; try done.
    + intros Hx. rewrite rb_ix0, rb_tg0. by apply Ui.
    + unfold provided. by rewrite rb_prov0.
  - exists h'. done.
Qed.

Lemma it_updated_from T t0 t tid f hist w t' :
  spec_only t0 t -> threads t = threads t0 -> it_updated T t tid f hist w t' ->
  it_updated T t0 tid f hist w t'.
Proof.
  intros Hso Hth [H1 H2 H3 (h' & Eh & H4)]. constructor; [done|by etrans|done|].
  exists h'. by rewrite Eh, Hth.
Qed.

Lemma wp_it_update T t tid sn pc (sq taken : bool) target ty o h hist w
    (Q : option ITInfo -> ITTAGE -> Prop) :
  it_ok tp T (itage t) -> 0 <= tid < tg_numThreads tp -> 0 < pc -> 0 < histCount p ty ->
  vat (threads t) tid = Some h -> pathHist h = 0 -> updatable ty pc o h hist w ->
  (forall o t', it_updated T t tid (mkITFlight pc ty taken target o) hist w t' -> Q o t') ->
  wp (IT.update p tid sn pc sq taken target ty o) Q t.
Proof.
  intros Hs Ht Hpc Hk Hh Hp Hu HQ. unfold IT.update, IT.stat. wp_step. apply wp_calculateHistUpdate.
  cbn [fst snd]. destruct (Z.eqb_spec (histCount p ty) 0); [lia|]. wp_step. wp_step. wp_step.
  apply (wp_mono _ (fun bi t1 => it_ok tp T (itage t1) /\ spec_only t t1 /\ threads t1 = threads t /\
    usable ty pc bi /\ before (ii_base bi) h hist w)).
  { destruct o as [bi|]; [wp_step; split_and!; [done|change (spec_only t t); reflexivity|done|apply Hu|apply Hu]|]. destruct Hu as [Hr Ew].
    apply (wp_genIndirectInfo T); [done..|]. intros bi t1 H1 H2 H3 [H4 Hm Hn] _ _.
    split_and!; [done|exact H2|exact H3|done|]. by left. }
  intros bi t1 (Hs1 & Hso & Hth & Hus & Hbf). wp_step.
  apply wp_massert; [by rewrite (us_pc _ _ _ Hus); apply Z.ltb_lt|]. wp_step.
  set (bi1 := if (_ =? _) && _ then _ else bi). set (bi2 := bi1 <| ii_indirect := _ |> <| ii_type := _ |>
    <| ii_taken := _ |> <| ii_corrTarget ::= _ |>).
  assert (H1 : ii_base bi1 = ii_base bi /\ ii_predTarget bi1 <> None).
  { unfold bi1. destruct (Z.eqb_spec (bi_provider (ii_base bi)) PROVIDER_BTB) as [E|E].
    - destruct (bool_decide (ii_predTarget bi = None)) eqn:Eb; cbn [andb].
      + split; [done|]. unfold setf. cbn. by rewrite set_src.
      + by apply bool_decide_eq_false in Eb.
    - split; [done|]. by apply (us_pred _ _ _ Hus). }
  assert (Hres : resolved taken target ty bi bi2).
  { destruct H1. split_and!; [done..| |done|done]. unfold bi2, setf. cbn. apply set_src. }
  apply (wp_mono _ (fun bi3 t2 => resolved taken target ty bi bi3 /\ itage t2 = itage t1)).
  { destruct sq; wp_steps; try done; by destruct Hres as (? & ? & ? & ? & ?). }
  intros bi3 t2 [Hres3 Et2]. rewrite <- Hth in Hh. unfold threads in Hh. rewrite <- Et2 in Hh, Hs1.
  eapply (wp_it_apply T t2); [done|lia|done|done|exact Hh|done|done|done|exact Hres3|].
  intros o' t' Hup. apply HQ. eapply (it_updated_from T t t2); [| |exact Hup].
  - destruct Hso as [E1 E2]. split; rewrite Et2; done.
  - unfold threads. rewrite Et2. exact Hth.
Qed.

(** A branch in flight, at its second update *)
Lemma flying_updatable f bi h hist :
  flying_it f bi -> th_repr hp (flightBits p f hist) h -> histCount p (if_type f) <= window hp h ->
  updatable (if_type f) (if_pc f) (Some bi) h hist (window hp h - histCount p (if_type f)).
Proof.
  intros [] Hr Hw. pose proof (histCount_range (if_type f)). split; [by constructor|]. right.
  rewrite fy_ng0. split_and!; try done; try lia. unfold withBits. by rewrite fy_ng0, fy_g0.
Qed.

Lemma wp_it_squash T t tid sn f bi h hist (Q : option ITInfo -> ITTAGE -> Prop) :
  it_ok tp T (itage t) -> vat (threads t) tid = Some h -> flying_it f bi ->
  th_repr hp (flightBits p f hist) h -> histCount p (if_type f) <= window hp h ->
  (forall t' h', it_ok tp T (itage t') -> spec_only t t' ->
     threads t' = <[Z.to_nat tid := h']> (threads t) -> th_repr hp hist h' -> pathHist h' = 0 ->
     window hp h' = window hp h - histCount p (if_type f) -> Q None t') ->
  wp (IT.squash p tid sn (Some bi)) Q t.
Proof.
  intros Hs Hh [] Hr Hw HQ. pose proof (histCount_range (if_type f)). unfold IT.squash.
  wp_step. wp_step. wp_step.
  eapply (wp_restoreBits (widen tp) (ic_tage _ Hcfg));
    [exact Hh|done|done|lia|unfold withBits; rewrite fy_ng0, fy_g0; exact Hr|by rewrite fy_ng0|].
  intros b' h' Hr' Hp' _ Hw' _. wp_steps. rewrite fy_ng0 in Hw'. apply (HQ _ h'); try done.
  by eapply (it_ok_thread T (itage t)).
Qed.

Lemma it_ok_mono (T T' : PCStateBase -> Prop) s :
  (forall x, T x -> T' x) -> it_ok tp T s -> it_ok tp T' s.
Proof.
  intros HT [H1 H2 H3]. constructor; [done|done|]. eapply List.Forall_impl; [|exact H3]. intros l.
  apply List.Forall_impl. intros o Ho x Hx. by apply HT, Ho.
Qed.

Lemma wp_it_commit T (t : ITTAGE) tid sn f bi (Q : option ITInfo -> ITTAGE -> Prop) :
  it_ok tp T (itage t) -> flying_it f bi ->
  (IT.isIndirectNoReturn (if_type f) = true -> T (if_target f)) ->
  (forall t', it_ok tp T (itage t') -> threads t' = threads t -> Q None t') ->
  wp (IT.commit p tid sn (Some bi)) Q t.
Proof.
  intros Hs [] HT HQ. unfold IT.commit, IT.random. wp_step. apply wp_massert.
  { rewrite fy_pc0. by apply Z.ltb_lt. }
  wp_step. wp_step. wp_step. wp_step. wp_step. wp_step. wp_step.
  apply (wp_mono _ (fun _ t' => it_ok tp T (itage t') /\ threads t' = threads t)).
  - apply wp_when; intros Hi; [|done]. rewrite fy_ind0 in Hi. unfold IT.commitIndirect, IT.stat.
    wp_step. wp_step. wp_step. apply (wp_mono _ (fun _ t' => itage t' = itage t)).
    { apply wp_when; intros _; [|done]. by wp_steps. }
    intros _ t1 Et. wp_step. eapply wp_deref; [exact fy_corr0|]. wp_step. wp_step.
    assert (Htn : trainable tp T bi).
    { constructor; [done|by apply fy_ix0|done|]. exists (if_target f). auto. }
    apply (wp_it_updateStats tp T); [by rewrite Et|done|]. intros s1 K1. wp_step.
    apply (wp_updateIndirect tp (ic_tage _ Hcfg) (ic_base _ Hcfg) (ic_ctr _ Hcfg) T); [apply K1|done|].
    intros s2 K2. destruct (it_kept_trans _ _ _ _ _ K1 K2) as [H1 H2]. split; [done|].
    unfold threads. cbn. by rewrite H2, Et.
  - intros _ t1 [Hs1 Hth]. wp_step. eapply wp_deref; [exact fy_corr0|]. wp_step.
    apply wp_calculateHistUpdate. wp_step. wp_step. unfold IT.updateHistories.
    replace (speculativeHistUpdate tp) with true by (symmetry; exact (tc_spec _ (ic_tage _ Hcfg))).
    cbn [eqb negb]. wp_steps. by apply HQ.
Qed.

(** ** Every enabled step succeeds and keeps the invariant *)

Lemma upd_eq {A} tid (x : A) f : upd tid x f tid = x.
Proof. unfold upd. by rewrite Z.eqb_refl. Qed.

Lemma upd_ne {A} tid tid' (x : A) f : tid' <> tid -> upd tid x f tid' = f tid'.
Proof. intros H. unfold upd. by destruct (Z.eqb_spec tid' tid). Qed.

Lemma it_thread_at r tid :
  it_run_ok r -> 0 <= tid < tg_numThreads tp ->
  exists h, vat (threads (ir_pred r)) tid = Some h /\ it_thread_ok h (ir_flights r tid) (ir_base r tid).
Proof.
  intros Hr Ht. destruct (vat_lt (threads (ir_pred r)) tid) as [h Hh].
  { unfold threads. rewrite (to_threads _ _ _ (bo_tb _ _ (ik_base _ _ _ (iro_ok _ Hr)))). exact Ht. }
  exists h. split; [done|]. by apply (iro_threads _ Hr).
Qed.

(** A step changes one thread. *)
Lemma it_run_step r tid t' h' fl' base' trained' :
  it_run_ok r -> 0 <= tid < tg_numThreads tp -> it_ok tp (fun t => t ∈ trained') (itage t') ->
  threads t' = <[Z.to_nat tid := h']> (threads (ir_pred r)) -> it_thread_ok h' fl' base' ->
  it_run_ok (mkITRun t' (upd tid fl' (ir_flights r)) (upd tid base' (ir_base r)) trained').
Proof.
  intros Hr Ht Hs Eth Hk. constructor; cbn [ir_pred ir_trained ir_flights ir_base]; [done|].
  intros tid' h Ht' Hh. change (vat (threads t') tid' = Some h) in Hh. rewrite Eth in Hh.
  destruct (it_thread_at r tid Hr Ht) as (h0 & Hh0 & _).
  destruct (Z.eq_dec tid' tid) as [->|Hne].
  - erewrite vat_insert_eq in Hh by exact Hh0. injection Hh as <-. by rewrite !upd_eq.
  - rewrite !upd_ne by done. rewrite vat_nat in Hh by lia. rewrite list_lookup_insert_ne in Hh by lia.
    rewrite <- vat_nat in Hh by lia. by apply (iro_threads _ Hr).
Qed.

(** A base that a step leaves alone *)
Lemma it_run_same_base r t' fl' tid trained' :
  it_run_ok (mkITRun t' fl' (upd tid (ir_base r tid) (ir_base r)) trained') ->
  it_run_ok (mkITRun t' fl' (ir_base r) trained').
Proof.
  intros [H1 H2]. constructor; cbn in *; [done|]. intros tid' h Ht Hh. specialize (H2 tid' h Ht Hh).
  destruct (Z.eq_dec tid' tid) as [->|]; [by rewrite upd_eq in H2|by rewrite upd_ne in H2].
Qed.

Lemma flying_bits_nonneg fl : 0 <= flying_bits p fl.
Proof.
  induction fl as [|f fl IH]; cbn; [done|]. pose proof (histCount_range (if_type f)).
  fold (flying_bits p fl). lia.
Qed.

Lemma flying_bits_app l1 l2 : flying_bits p (l1 ++ l2) = flying_bits p l1 + flying_bits p l2.
Proof. induction l1 as [|f l1 IH]; cbn; [done|]. fold (flying_bits p). unfold flying_bits in *. lia. Qed.

(** The thread after [update] *)
Lemma updated_thread_ok T t tid f hist w t' fl base :
  it_updated T t tid f hist w t' -> hist = foldr (flightBits p) base fl -> Forall flight_ok fl ->
  flying_bits p fl <= w -> flying_bits p fl + histCount p (if_type f) < rollbackBuffer ->
  exists h', threads t' = <[Z.to_nat tid := h']> (threads t) /\ it_thread_ok h' (f :: fl) base.
Proof.
  intros [_ _ (bi & Eb & Hf) (h' & Eth & Hr & Hp & Hw)] -> Hall Hbits Hlen. exists h'. split; [done|].
  constructor; cbn [foldr flying_bits]; try done; fold (flying_bits p fl).
  - constructor; [|done]. unfold flight_ok. rewrite Eb. by left.
  - pose proof (histCount_range (if_type f)). unfold rollbackBuffer in *. lia.
  - lia.
Qed.

(** A branch without history bits joins the thread. *)
Lemma none_thread_ok h f fl base :
  it_thread_ok h fl base -> (forall bi, if_info f = Some bi -> bi_modified (ii_base bi) = false) ->
  histCount p (if_type f) = 0 -> it_thread_ok h (f :: fl) base.
Proof.
  intros [H1 H2 H3 H4 H5] Ei Ec.
  assert (Ef : foldr (flightBits p) base (f :: fl) = foldr (flightBits p) base fl).
  { cbn [foldr]. unfold flightBits at 1. by rewrite Ec. }
  constructor; rewrite ?Ef; try done; cbn [flying_bits foldr]; fold (flying_bits p fl); try lia.
  constructor; [|done]. unfold flight_ok. destruct (if_info f) as [bi|]; [|done]. right. auto.
Qed.

Definition flightOf (b : ITBranch) (o : option ITInfo) : ITFlight :=
  mkITFlight (ib_pc b) (ib_type b) (ib_taken b) (ib_target b) o.

Lemma wp_it_speculate T t tid b h hist (Q : option ITInfo -> ITTAGE -> Prop) :
  it_ok tp T (itage t) -> 0 <= tid < tg_numThreads tp -> 0 < ib_pc b ->
  vat (threads t) tid = Some h -> pathHist h = 0 -> th_repr hp hist h ->
  (forall o t', histCount p (ib_type b) = 0 -> it_ok tp T (itage t') -> spec_only t t' -> threads t' = threads t ->
     (forall bi, o = Some bi -> bi_modified (ii_base bi) = false) -> Q o t') ->
  (forall o t', it_updated T t tid (flightOf b o) hist (window hp h) t' -> Q o t') ->
  wp (it_speculate p tid b) Q t.
Proof.
  intros Hs Ht Hpc Hh Hp Hr H0 HQ. unfold it_speculate. wp_step.
  pose proof (histCount_range (ib_type b)). destruct (ib_lookup b) eqn:El.
  - wp_step. apply (wp_it_lookup T); [done..|]. intros o bi t1 Hs1 Hso Hth Hg _ _. wp_step. cbn [snd].
    destruct (Hg (ib_type b)) as [Hu Hm Hn]. destruct (Z.eq_dec (histCount p (ib_type b)) 0) as [E|E].
    { apply wp_it_update_none; [done|]. apply H0; try done. by intros ? [= <-]. }
    eapply (wp_it_update T t1 tid 0 (ib_pc b)); [done|done|done|lia|by rewrite Hth|done| |].
    + split; [exact Hu|]. left. split_and!; [done|done|exact Hr|reflexivity].
    + intros o' t' Hup. apply HQ. by eapply it_updated_from.
  - wp_step. destruct (Z.eq_dec (histCount p (ib_type b)) 0) as [E|E].
    + apply wp_it_update_none; [done|]. by apply H0.
    + by eapply (wp_it_update T t tid 0 (ib_pc b)); [done|done|done|lia|exact Hh|done| |].
Qed.

Lemma res_step {A} (m : M ITTAGE A) t (k : A -> ITTAGE -> ITRun) (P : ITRun -> Prop) :
  wp m (fun a t' => P (k a t')) t -> exists r', (x ← m t; Ok (k (fst x) (snd x))) = Ok r' /\ P r'.
Proof. unfold wp, mbind, Res_bind. destruct (m t) as [[a t']|]; [|done]. intros H. by eexists. Qed.

Lemma threads_same t tid h : 0 <= tid -> vat (threads t) tid = Some h ->
  threads t = <[Z.to_nat tid := h]> (threads t).
Proof. intros Ht Hh. symmetry. apply list_insert_id. by rewrite <- vat_nat. Qed.

(** What [ISpeculate] leaves *)
Record it_speculated (tid : ThreadID) (b : ITBranch) (r r' : ITRun) : Prop := {
  isp_flights : exists o, ir_flights r' = upd tid (flightOf b o :: ir_flights r tid) (ir_flights r);
  isp_spec : spec_only (ir_pred r) (ir_pred r');
  isp_base : ir_base r' = ir_base r;
  isp_trained : ir_trained r' = ir_trained r
}.

Lemma it_speculate_ok r tid b :
  it_run_ok r -> it_enabled p (ISpeculate tid b) r = true ->
  exists r', it_step p (ISpeculate tid b) r = Ok r' /\ it_run_ok r' /\ it_speculated tid b r r'.
Proof.
  intros Hr Hen. unfold it_enabled in Hen. cbn [itThread] in Hen. rewrite !andb_true_iff in Hen.
  destruct Hen as [[H0%Z.leb_le H1%Z.ltb_lt] [[Hpc%Z.ltb_lt Hl] Hb%Z.ltb_lt]].
  destruct (it_thread_at r tid Hr ltac:(lia)) as (h & Hh & Hk).
  cbn [it_step itThread]. apply (res_step _ _ (fun o t' => mkITRun t'
    (upd tid (flightOf b o :: ir_flights r tid) (ir_flights r)) (ir_base r) (ir_trained r))).
  eapply (wp_it_speculate _ (ir_pred r)); [apply Hr|lia|done|exact Hh|apply Hk|apply Hk| |].
  - intros o t' Hz Hs' Hso Hth Hm. split; [|by constructor; [eexists|..]]. apply (it_run_same_base r _ _ tid).
    eapply it_run_step; [done|lia|exact Hs'| |].
    + rewrite Hth. apply threads_same; [lia|exact Hh].
    + by apply none_thread_ok.
  - intros o t' Hup. split; [|constructor; [by eexists|apply Hup|done|done]].
    apply (it_run_same_base r _ _ tid).
    destruct (updated_thread_ok _ _ _ _ _ _ _ (ir_flights r tid) (ir_base r tid) Hup)
      as (h' & Eth & Hk'); [done|apply Hk|apply Hk|cbn; lia|].
    eapply it_run_step; [done|lia|apply Hup|exact Eth|done].
Qed.

(** The youngest branch of a thread in flight *)
Lemma head_flight h f fl base :
  it_thread_ok h (f :: fl) base ->
  flight_ok f /\ Forall flight_ok fl /\ th_repr hp (flightBits p f (foldr (flightBits p) base fl)) h /\
  histCount p (if_type f) + flying_bits p fl <= window hp h /\
  histCount p (if_type f) + flying_bits p fl < rollbackBuffer.
Proof. intros [H1 _ H3 H4 H5]. inversion_clear H3. done. Qed.

(** A branch without history bits leaves the thread. *)
Lemma none_thread_drop h f fl base :
  it_thread_ok h (f :: fl) base -> histCount p (if_type f) = 0 -> it_thread_ok h fl base.
Proof.
  intros Hk Ec. destruct (head_flight _ _ _ _ Hk) as (_ & H3 & H1 & H4 & H5).
  unfold flightBits at 1 in H1. rewrite Ec in *. cbn in H1. constructor; try done; [apply Hk|lia..].
Qed.

Lemma it_squash_ok r tid f fl :
  it_run_ok r -> 0 <= tid < tg_numThreads tp -> ir_flights r tid = f :: fl ->
  exists r', it_step p (ISquash tid) r = Ok r' /\ it_run_ok r' /\
    spec_only (ir_pred r) (ir_pred r') /\ ir_flights r' = upd tid fl (ir_flights r) /\
    ir_base r' = ir_base r /\ ir_trained r' = ir_trained r.
Proof.
  intros Hr Ht Efl. destruct (it_thread_at r tid Hr Ht) as (h & Hh & Hk). rewrite Efl in Hk.
  destruct (head_flight _ _ _ _ Hk) as (Hf & Hfl & Hrep & Hw & Hb). pose proof (flying_bits_nonneg fl).
  cbn [it_step itThread]. rewrite Efl. apply (res_step _ _ (fun _ t' => mkITRun t'
    (upd tid fl (ir_flights r)) (ir_base r) (ir_trained r))). cbn [ir_pred ir_flights ir_base ir_trained].
  assert (Hnone : histCount p (if_type f) = 0 -> it_run_ok (mkITRun (ir_pred r) (upd tid fl (ir_flights r)) (ir_base r) (ir_trained r))).
  { intros Ec. apply (it_run_same_base r _ _ tid).
    eapply it_run_step; [done|done|apply Hr|apply threads_same; [lia|exact Hh]|]. by eapply none_thread_drop. }
  unfold flight_ok in Hf. destruct (if_info f) as [bi|].
  - destruct Hf as [Hf|[Ec Hm]]; cycle 1.
    { unfold IT.squash, TB.restoreHistState. rewrite Hm. wp_step. wp_step. wp_step.
      apply (wp_mono _ (fun _ s => s = it_base (itage (ir_pred r)))); [by destruct (negb _); apply wp_ret|].
      intros b s ->. wp_step. replace (setf itage _ (ir_pred r)) with (ir_pred r) by (by destruct (ir_pred r) as [[] ? ? ?]).
      by split; [apply Hnone|]. }
    eapply (wp_it_squash _ (ir_pred r)); [apply Hr|exact Hh|exact Hf|exact Hrep|lia|].
    intros t' h' Hs' Hso Eth Hr' Hp' Hw'. split; [|done]. apply (it_run_same_base r _ _ tid).
    pose proof (histCount_range (if_type f)).
    eapply it_run_step; [done|done|exact Hs'|exact Eth|]. constructor; try done; lia.
  - unfold IT.squash. wp_step. by split; [apply Hnone|].
Qed.

Lemma it_correct_ok r tid taken target :
  it_run_ok r -> 0 <= tid < tg_numThreads tp -> ir_flights r tid <> [] ->
  exists r', it_step p (ICorrect tid taken target) r = Ok r' /\ it_run_ok r'.
Proof.
  intros Hr Ht Hne. destruct (it_thread_at r tid Hr Ht) as (h & Hh & Hk).
  cbn [it_step itThread]. destruct (ir_flights r tid) as [|f fl] eqn:Efl; [done|].
  destruct (head_flight _ _ _ _ Hk) as (Hf & Hfl & Hrep & Hw & Hb). pose proof (flying_bits_nonneg fl).
  pose proof (histCount_range (if_type f)).
  apply (res_step _ _ (fun o t' => mkITRun t'
    (upd tid (mkITFlight (if_pc f) (if_type f) taken target o :: fl) (ir_flights r)) (ir_base r)
    (ir_trained r))).
  assert (Hnone : histCount p (if_type f) = 0 -> (forall bi, if_info f = Some bi -> bi_modified (ii_base bi) = false) ->
    wp (IT.update p tid 0 (if_pc f) true taken target (if_type f) (if_info f)) (fun o t' => it_run_ok (mkITRun t'
      (upd tid (mkITFlight (if_pc f) (if_type f) taken target o :: fl) (ir_flights r)) (ir_base r) (ir_trained r))) (ir_pred r)).
  { intros Ec Hm. apply wp_it_update_none; [done|]. apply (it_run_same_base r _ _ tid).
    eapply it_run_step; [done|done|apply Hr|apply threads_same; [lia|exact Hh]|].
    apply none_thread_ok; [by eapply none_thread_drop|done|done]. }
  unfold flight_ok in Hf. destruct (if_info f) as [bi|].
  - destruct Hf as [Hf|[Ec Hm]]; [|apply Hnone; [done|by intros ? [= <-]]].
    eapply (wp_it_update _ (ir_pred r) tid 0 (if_pc f));
      [apply Hr|done|apply Hf|apply Hf|exact Hh|apply Hk|apply flying_updatable; [done|exact Hrep|lia]|].
    intros o t' Hup. apply (it_run_same_base r _ _ tid).
    destruct (updated_thread_ok _ _ _ _ _ _ _ fl (ir_base r tid) Hup)
      as (h' & Eth & Hk'); [done|done|lia|cbn; lia|].
    eapply it_run_step; [done|done|apply Hup|exact Eth|done].
  - by apply Hnone.
Qed.

(** The oldest branch leaves; its bits become part of the base. *)
Lemma thread_snoc h fl f base :
  it_thread_ok h (fl ++ [f]) base -> flight_ok f /\ it_thread_ok h fl (flightBits p f base).
Proof.
  intros [H1 H2 H3 H4 H5]. rewrite foldr_app in H1. cbn [foldr] in H1.
  apply Forall_app in H3 as [H3 Hf]. rewrite flying_bits_app in H4, H5. cbn [flying_bits foldr] in H4, H5.
  pose proof (histCount_range (if_type f)). inversion_clear Hf. split; [done|]. constructor; try done; lia.
Qed.

Lemma it_commit_ok r tid :
  it_run_ok r -> 0 <= tid < tg_numThreads tp -> it_enabled p (ICommit tid) r = true ->
  exists r', it_step p (ICommit tid) r = Ok r' /\ it_run_ok r'.
Proof.
  intros Hr Ht Hen. destruct (it_thread_at r tid Hr Ht) as (h & Hh & Hk).
  unfold it_enabled in Hen. cbn [itThread] in Hen. apply andb_true_iff in Hen as [_ Hen].
  cbn [it_step itThread]. destruct (ir_flights r tid) as [|f fl _] eqn:Efl using rev_ind; [done|].
  rewrite last_snoc in *. rewrite removelast_last. destruct (thread_snoc _ _ _ _ Hk) as [Hf Hk'].
  set (T' := if IT.isIndirectNoReturn (if_type f) then _ else _).
  assert (HT : forall x, x ∈ ir_trained r -> x ∈ T').
  { intros x Hx. unfold T'. destruct (IT.isIndirectNoReturn _); [by right|done]. }
  apply (res_step _ _ (fun _ t' => mkITRun t' (upd tid fl (ir_flights r))
    (upd tid (flightBits p f (ir_base r tid)) (ir_base r)) T')).
  pose proof (it_ok_mono _ (fun x => x ∈ T') _ HT (iro_ok _ Hr)) as Hs.
  assert (Hfin : forall t', it_ok tp (fun x => x ∈ T') (itage t') -> threads t' = threads (ir_pred r) ->
    it_run_ok (mkITRun t' (upd tid fl (ir_flights r)) (upd tid (flightBits p f (ir_base r tid)) (ir_base r)) T')).
  { intros t' Hs' Eth. eapply it_run_step; [done|done|done| |exact Hk']. rewrite Eth.
    apply threads_same; [lia|exact Hh]. }
  unfold flight_ok in Hf. destruct (if_info f) as [bi|].
  - apply Z.ltb_lt in Hen. destruct Hf as [Hf|[Ec _]]; [|lia].
    eapply (wp_it_commit (fun x => x ∈ T') (ir_pred r)); [done|exact Hf| |done].
    intros Hi. unfold T'. rewrite Hi. by left.
  - unfold IT.commit. wp_step. by apply Hfin.
Qed.

Lemma it_step_ok op r :
  it_run_ok r -> it_enabled p op r = true -> exists r', it_step p op r = Ok r' /\ it_run_ok r'.
Proof.
  intros Hr Hen. destruct op as [tid b|tid|tid taken target|tid];
    [destruct (it_speculate_ok r tid b Hr Hen) as (r' & E & Hr' & _); by exists r'|..];
    pose proof Hen as Hen0; unfold it_enabled in Hen0; cbn [itThread] in Hen0;
    apply andb_true_iff in Hen0 as [[H0%Z.leb_le H1%Z.ltb_lt]%andb_true_iff Hne].
  - destruct (ir_flights r tid) as [|f fl] eqn:Efl; [done|].
    destruct (it_squash_ok r tid f fl Hr ltac:(lia) Efl) as (r' & E & Hr' & _). by exists r'.
  - apply it_correct_ok; [done|done|]. by destruct (ir_flights r tid).
  - by apply it_commit_ok.
Qed.

(** ** Construction *)

Lemma make_ok s rands :
  0 <= tg_numThreads tp -> IT.make tp rands = Ok s ->
  it_ok tp (fun _ => False) s /\
  forall h, h ∈ threadHistory (it_base s) -> th_repr hp [] h /\ pathHist h = 0.
Proof.
  intros Hn (b & Eb & E)%res_bind_ok. injection E as <-. pose proof (ic_tage _ Hcfg) as Ht.
  destruct (initWith_ok (widen tp) Ht size (TB.buildTageTables tp) rands b Hn) as [Hok Hth]; [| |exact Eb|].
  - intros Hl i Hi. by apply (build_tables (widen tp) Ht).
  - apply new_tables, (new_entry_ok (widen tp) Ht).
  - split; [|exact Hth]. constructor; cbn.
    + constructor; [done|]. rewrite (initWith_store _ _ _ _ Eb). apply new_tables. unfold conf_ok. cbn.
      pose proof (ic_ctr _ Hcfg). split; [done|]. apply Z.pow_pos_nonneg; lia.
    + intros i Hi. exists (replicate (IT.tgtSize tp i) None). split.
      * rewrite vat_nat by lia. replace (Z.to_nat i) with (S (Z.to_nat (i - 1))) by lia.
        rewrite lookup_cons. cbn iota. rewrite list_lookup_fmap, lookup_seqZ_lt by lia. cbn.
        by replace (1 + Z.of_nat (Z.to_nat (i - 1))) with i by lia.
      * rewrite length_replicate. unfold IT.tgtSize, baseSize. destruct (ic_base _ Hcfg i Hi) as (l & -> & Hl). cbn.
        pose proof (Z.pow_pos_nonneg 2 l). lia.
    + constructor; [constructor|]. apply list.Forall_forall. intros t (i & -> & _)%list_elem_of_fmap.
      by apply list.Forall_replicate.
Qed.

Lemma it_start_ok t :
  0 <= tg_numThreads tp -> it_ok tp (fun _ => False) (itage t) ->
  (forall h, h ∈ threads t -> th_repr hp [] h /\ pathHist h = 0) -> it_run_ok (it_start t).
Proof.
  intros Hn Hs Hth. constructor; cbn.
  - eapply it_ok_mono; [|exact Hs]. done.
  - intros tid h _ Hh. destruct (Hth h (vat_elem _ _ _ Hh)) as [Hr Hp].
    destruct (tr_pt _ _ _ Hr). constructor; cbn; [done|done|constructor|unfold window; cbn in *; lia|].
    unfold rollbackBuffer. lia.
Qed.

Lemma it_reach_ok t0 rands r :
  0 <= tg_numThreads tp -> IT.construct p rands = Ok t0 -> it_reach p t0 r -> it_run_ok r.
Proof.
  intros Hn (s & Es & E)%res_bind_ok Hreach.
  assert (E0 : itage t0 = s) by (destruct (1 <? histBitsConditional p); [done|by injection E as <-]).
  destruct (make_ok s _ Hn Es) as [Hs Hth].
  induction Hreach as [|r op r' _ IH Hen E1].
  - apply it_start_ok; [done|by rewrite E0|]. unfold threads. by rewrite E0.
  - destruct (it_step_ok op r IH Hen) as (r1 & E2 & H1). rewrite E1 in E2. by injection E2 as ->.
Qed.
End Inv.
