(* ===== verification/IttageSpec.v ===== *)
(** * Correctness of ITTAGE

    No operation of [BPredUnit] on the predictor fails, its history is exact and
    comes back after squashes, and it only predicts targets that it was trained
    with; the configuration in use and indirect conditional branches are outside
    what the code can handle. *)

From Stdlib Require Import ZArith Lia.
From stdpp Require Import base list numbers.
From S2P Require Import Prelude Types Indirect CondPred TageHist Tage TageInv TageBaseOk TageSafe TageRun TageGen TageSpec TageScl Ittage IttageOk IttageRun.

Fixpoint it_run (p : ITParams) (ops : list ITOp) (r : ITRun) : Res ITRun :=
  match ops with
  | [] => Ok r
  | op :: ops' => r' ← it_step p op r; it_run p ops' r'
  end.

Lemma it_run_app p ops1 ops2 r r1 :
  it_run p ops1 r = Ok r1 -> it_run p (ops1 ++ ops2) r = it_run p ops2 r1.
Proof.
  revert r. induction ops1 as [|op ops1 IH]; intros r E; cbn in *; [by injection E as ->|].
  apply res_bind_ok in E as (r' & Es & E). rewrite Es. cbn. by apply IH.
Qed.

(** The predictor of [r'] answers as that of [r]: the same tables, targets and
    folded registers, and the same branches in flight *)
Record it_restored (r r' : ITRun) : Prop := {
  ires_flights : forall tid, ir_flights r' tid = ir_flights r tid;
  ires_base : ir_base r' = ir_base r;
  ires_trained : ir_trained r' = ir_trained r;
  ires_tables : spec_only (ir_pred r) (ir_pred r');
  ires_threads : forall tid h, vat (threads (ir_pred r)) tid = Some h ->
    exists h', vat (threads (ir_pred r')) tid = Some h' /\ pathHist h' = pathHist h /\
      forall j, (1 <= j)%nat -> computeIndices h' !! j = computeIndices h !! j /\
        computeTags0 h' !! j = computeTags0 h !! j /\ computeTags1 h' !! j = computeTags1 h !! j
}.

(** The bits a list of branches adds to the history *)
Definition branch_bits (p : ITParams) (bs : list ITBranch) : Z :=
  foldr (fun b acc => histCount p (ib_type b) + acc) 0 bs.

(** The branches that may be predicted *)
Definition branch_ok (b : ITBranch) : Prop :=
  0 < ib_pc b /\ (ib_lookup b = true -> lookedUp (ib_type b) = true).

Section Recovery.
Context (p : ITParams) (Hcfg : it_cfg p).
#[local] Abbreviation tp := (it_tage p).

Lemma branch_bits_nonneg bs : 0 <= branch_bits p bs.
Proof.
  induction bs as [|b bs IH]; cbn; [done|]. pose proof (histCount_range p Hcfg (ib_type b)).
  fold (branch_bits p bs). lia.
Qed.

Lemma run_restored r r' :
  it_run_ok p r -> it_run_ok p r' -> (forall tid, ir_flights r' tid = ir_flights r tid) ->
  ir_base r' = ir_base r -> ir_trained r' = ir_trained r -> spec_only (ir_pred r) (ir_pred r') ->
  it_restored r r'.
Proof.
  intros Hr Hr' Ef Eb Et Hso. constructor; try done. intros tid h Hh.
  assert (Ht : 0 <= tid < tg_numThreads tp).
  { pose proof (vat_some _ _ _ Hh) as H. unfold threads in H.
    rewrite (to_threads _ _ _ (bo_tb _ _ (ik_base _ _ _ (iro_ok _ _ Hr)))) in H. exact H. }
  destruct (it_thread_at p r' tid Hr' Ht) as (h' & Hh' & Hk').
  pose proof (iro_threads _ _ Hr tid h Ht Hh) as Hk. exists h'. split; [done|].
  split; [by rewrite (itk_path _ _ _ _ Hk'), (itk_path _ _ _ _ Hk)|]. intros j Hj.
  rewrite Ef, Eb in Hk'. destruct (itk_hist _ _ _ _ Hk), (itk_hist _ _ _ _ Hk').
  split_and!; eapply regs_unique; eauto.
Qed.

(** What is kept while branches come and go *)
Definition it_same (r r' : ITRun) : Prop :=
  (forall tid, ir_flights r' tid = ir_flights r tid) /\ ir_base r' = ir_base r /\
  ir_trained r' = ir_trained r /\ spec_only (ir_pred r) (ir_pred r').

Lemma speculate_squash_it tid bs : forall r,
  it_run_ok p r -> 0 <= tid < tg_numThreads tp -> Forall branch_ok bs ->
  flying_bits p (ir_flights r tid) + branch_bits p bs < rollbackBuffer ->
  exists r2, it_run p (map (ISpeculate tid) bs ++ replicate (length bs) (ISquash tid)) r = Ok r2 /\
    it_run_ok p r2 /\ it_same r r2.
Proof.
  induction bs as [|b bs IH]; intros r Hr Ht Hbs Hlen.
  { exists r. split; [done|]. split; [done|]. split_and!; [done..|reflexivity]. }
  apply list.Forall_cons in Hbs as [[Hpc Hl] Hbs]. cbn [branch_bits foldr] in Hlen. fold (branch_bits p bs) in Hlen.
  pose proof (branch_bits_nonneg bs).
  destruct (it_speculate_ok p Hcfg r tid b Hr) as (r1 & E1 & Hr1 & [(o & Ef) Hso Eb Et]).
  { unfold it_enabled. cbn [itThread]. rewrite !andb_true_iff. split_and!.
    - apply Z.leb_le. lia.
    - apply Z.ltb_lt. lia.
    - by apply Z.ltb_lt.
    - destruct (ib_lookup b); [by apply Hl|done].
    - apply Z.ltb_lt. lia. }
  destruct (IH r1 Hr1 Ht Hbs) as (r1' & E1' & Hr1' & Ef' & Eb' & Et' & Hso').
  { rewrite Ef, upd_eq. cbn [flying_bits foldr flightOf if_type]. fold (flying_bits p (ir_flights r tid)). lia. }
  destruct (it_squash_ok p Hcfg r1' tid (flightOf b o) (ir_flights r tid) Hr1' Ht)
    as (r2 & E2 & Hr2 & Hso2 & Ef2 & Eb2 & Et2); [by rewrite Ef', Ef, upd_eq|].
  exists r2. split; [|split; [done|]].
  - cbn [map length]. rewrite replicate_S_end. cbn [app it_run]. rewrite E1.
    unfold mbind, Res_bind. rewrite app_assoc, (it_run_app _ _ _ _ _ E1'). cbn [it_run]. by rewrite E2.
  - split_and!; [|congruence|congruence|by etrans; [|etrans]].
    intros tid'. rewrite Ef2. destruct (Z.eq_dec tid' tid) as [->|]; [by rewrite upd_eq|].
    rewrite upd_ne by done. rewrite Ef', Ef. by rewrite upd_ne.
Qed.
End Recovery.

Section Spec.
Context (p : ITParams) (Hcfg : it_cfg p) (Hn : 0 <= tg_numThreads (it_tage p)).
#[local] Abbreviation tp := (it_tage p).

(** [C27] In every state of ITTAGE reached from construction by predictions, squashes, corrections and
    commits of the branches of any threads, the next operation succeeds, for every configuration whose
    tables the hash functions can index (it_cfg; not the default one, ittage_shift_undefined) and with
    at most 1999 history bits of a thread in flight, except the commit of a looked-up indirect
    conditional branch, which follows a null pointer; such branches are looked up, corrected and
    squashed like the others. No index leaves a table, no target or history is read before it is set, no
    assertion fails. *)
Theorem it_no_fault rands t0 r op :
  IT.construct p rands = Ok t0 -> it_reach p t0 r -> it_enabled p op r = true ->
  isOk (it_step p op r) = true.
Proof.
  intros Hc Hr Hen. pose proof (it_reach_ok p Hcfg t0 rands r Hn Hc Hr) as Hok.
  destruct (it_step_ok p Hcfg op r Hok Hen) as (r' & E & _). by rewrite E.
Qed.

(** [C28] The history ITTAGE hashes is equivalent to the reference, in every reachable state of a
    configuration whose tables the hash functions can index: the path of the indirect branches and calls
    in flight, computed from their latest targets, followed by that of the committed ones, and every
    folded register is the fold of that list. *)
Theorem it_history_exact rands t0 r tid :
  IT.construct p rands = Ok t0 -> it_reach p t0 r -> 0 <= tid < tg_numThreads tp ->
  exists h, vat (threads (ir_pred r)) tid = Some h /\ exact_history tp (itHistory p tid r) h.
Proof.
  intros Hc Hr Ht. pose proof (it_reach_ok p Hcfg t0 rands r Hn Hc Hr) as Hok.
  destruct (it_thread_at p r tid Hok Ht) as (h & Hh & Hk). exists h. split; [done|].
  apply repr_exact, Hk.
Qed.

(** [C29] ITTAGE never makes up a target, in every configuration whose tables the hash functions can
    index (it_cfg; in the default one no lookup is defined, ittage_shift_undefined): in every reachable
    state a lookup of any address succeeds, and a target it returns is one that an indirect branch was
    committed with before. *)
Theorem it_predicts_trained rands t0 r tid sn pc :
  IT.construct p rands = Ok t0 -> it_reach p t0 r -> 0 <= tid < tg_numThreads tp ->
  exists o bi t', IT.lookup p tid sn pc None (ir_pred r) = Ok (o, Some bi, t') /\
    forall x, o = Some x -> x ∈ ir_trained r.
Proof.
  intros Hc Hr Ht. pose proof (it_reach_ok p Hcfg t0 rands r Hn Hc Hr) as Hok.
  assert (Hw : wp (IT.lookup p tid sn pc None) (fun x t' => exists o bi, x = (o, Some bi) /\
    forall x, o = Some x -> x ∈ ir_trained r) (ir_pred r)).
  { eapply (wp_it_lookup p Hcfg _ (ir_pred r)); [apply Hok|done|]. intros o bi t' _ _ _ _ _ Ho. by exists o, bi. }
  unfold wp in Hw. destruct (IT.lookup p tid sn pc None (ir_pred r)) as [[x t']|]; [|done].
  destruct Hw as (o & bi & -> & Ho). by exists o, bi, t'.
Qed.

(** Recovery from a wrong path: in every reachable state, predicting any
    branches of a thread (with at most 1999 history bits in flight) and squashing
    them, the youngest first, succeeds and gives back the predictor: the tables
    and their targets, every folded register and the branches in flight are the
    same, whether or not the history buffer rolled over in between. *)
Theorem it_squash_restores rands t0 r tid bs :
  IT.construct p rands = Ok t0 -> it_reach p t0 r -> 0 <= tid < tg_numThreads tp ->
  Forall branch_ok bs -> flying_bits p (ir_flights r tid) + branch_bits p bs < rollbackBuffer ->
  exists r2, it_run p (map (ISpeculate tid) bs ++ replicate (length bs) (ISquash tid)) r = Ok r2 /\
    it_restored r r2.
Proof.
  intros Hc Hr Ht Hbs Hlen. pose proof (it_reach_ok p Hcfg t0 rands r Hn Hc Hr) as Hok.
  destruct (speculate_squash_it p Hcfg tid bs r Hok Ht Hbs Hlen) as (r2 & E & Hok2 & Ef & Eb & Et & Hso).
  exists r2. split; [done|]. by apply (run_restored p).
Qed.

(** [C40] An indirect conditional branch that was looked up (detected and predicted taken) brings the
    simulation down when it commits, in every reachable state of a configuration whose tables the hash
    functions can index: update ignores this type, so the branch has no target and commit follows the
    null pointer. *)
Theorem it_indirect_cond_null rands t0 r tid sn pc taken target :
  IT.construct p rands = Ok t0 -> it_reach p t0 r -> 0 <= tid < tg_numThreads tp -> 0 < pc ->
  exists o bi t1, IT.lookup p tid sn pc None (ir_pred r) = Ok (o, Some bi, t1) /\
    IT.update p tid sn pc false taken target IndirectCond (Some bi) t1 = Ok (Some bi, t1) /\
    IT.commit p tid sn (Some bi) t1 = Err NullDeref.
Proof.
  intros Hc Hr Ht Hpc. pose proof (it_reach_ok p Hcfg t0 rands r Hn Hc Hr) as Hok.
  assert (Hw : wp (IT.lookup p tid sn pc None) (fun x t' => exists o bi, x = (o, Some bi) /\
    ground p NoBranch pc bi /\ unresolved NoBranch bi) (ir_pred r)).
  { eapply (wp_it_lookup p Hcfg _ (ir_pred r)); [apply Hok|done|]. intros o bi t' _ _ _ Hg Hu _.
    exists o, bi. split; [done|]. by split. }
  unfold wp in Hw. destruct (IT.lookup p tid sn pc None (ir_pred r)) as [[x t1]|]; [|done].
  destruct Hw as (o & bi & -> & [Hu _ _] & Hcorr & Hind). exists o, bi, t1. split; [done|]. split; [done|].
  unfold IT.commit. apply wp_then_err, wp_massert; [by rewrite (us_pc _ _ _ _ Hu); apply Z.ltb_lt|].
  unfold IT.random. apply wp_then_err. wp_steps. rewrite Hind. cbn [IT.isIndirectNoReturn when].
  apply wp_then_err, wp_ret. by rewrite Hcorr.
Qed.
End Spec.

(** The configuration of [ITTAGE_TAGE] in [BranchPredictor.py], which the
    scripts of the repository use, is outside the hash function: table 10 has
    [2^9] entries, so [F] shifts by [9 - 10], which is undefined.  No indirect branch
    can be looked up, in any state. *)
Theorem ittage_shift_undefined tid sn pc s :
  vat (logTagTableSizes (it_tage ITTAGE_params)) 10 = Some 9 /\
  isOk (IT.lookup ITTAGE_params tid sn pc None s) = false.
Proof.
  split; [reflexivity|]. unfold IT.lookup. do 2 (apply bind_fails_r; intros ? ?).
  apply bind_fails_r. intros bi s2. apply bind_fails, zoom_fails. unfold IT.tagePredict.
  apply bind_fails, zoom_fails.
  apply (calc_shift_undefined _ 10 9); [vm_compute; split; congruence|reflexivity|done].
Qed.

(** ** Runs *)

Lemma widen_cfg p : tage_cfg p -> tagTableCounterBits p <= 7 -> tage_cfg (widen p).
Proof.
  intros [Hs Hbanks H0 Hc Hu Hna Hnum Hp Hsh Hsp] Hb. constructor; try assumption.
  - intros i Hi. by destruct (Hbanks i Hi).
  - cbn. unfold setf. cbn. lia.
Qed.

(** The small tables of [demoTageParams], with the history bits of the defaults *)
Definition demoIT : ITParams := mkITParams demoTageParams 0 10 5 5 2.

Lemma demoIT_cfg : it_cfg demoIT.
Proof.
  constructor; cbn; try lia; [|exact demoTage_base].
  apply widen_cfg; [exact demoTage_cfg|vm_compute; congruence].
Qed.

Definition dummyIT : ITTAGE := mkITTAGE (mkITTAGE_TAGE dummyTage [] []) (fun _ => 0) 0 [].
Definition demoITStart : ITTAGE := okOr dummyIT (IT.construct demoIT (fun _ => 0)).

Lemma demoIT_made : IT.construct demoIT (fun _ => 0) = Ok demoITStart.
Proof. apply ok_of. vm_compute. reflexivity. Qed.

(** A run of enabled operations *)
Fixpoint checkedIT (p : ITParams) (ops : list ITOp) (r : ITRun) : Res ITRun :=
  match ops with
  | [] => Ok r
  | op :: ops' => if it_enabled p op r then r' ← it_step p op r; checkedIT p ops' r' else Err AssertFail
  end.

Lemma checkedIT_reach p t0 ops r r' :
  it_reach p t0 r -> checkedIT p ops r = Ok r' -> it_reach p t0 r'.
Proof.
  revert r. induction ops as [|op ops IH]; intros r Hr E; cbn [checkedIT] in E.
  - by injection E as <-.
  - destruct (it_enabled p op r) eqn:En; [|done]. apply res_bind_ok in E as (r1 & E1 & E).
    apply (IH r1); [|done]. by eapply it_reach_next.
Qed.

(** An indirect jump at 0x400 to 0x900, predicted to fall through *)
Definition demoJump : ITBranch := mkITBranch 0x400 IndirectUncond true true (mkPC 0x404 0).
Definition demoExec : list ITOp :=
  [ISpeculate 0 demoJump; ICorrect 0 true (mkPC 0x900 0); ICommit 0].

(** Two executions of the jump, an indirect conditional branch on a wrong path, and two
    branches in flight *)
Definition demoITOps : list ITOp :=
  concat (replicate 2 demoExec) ++
  [ISpeculate 0 (mkITBranch 0x520 IndirectCond true true (mkPC 0x700 0)); ICorrect 0 false (mkPC 0x524 0); ISquash 0;
   ISpeculate 0 demoJump; ISpeculate 0 (mkITBranch 0x500 CallDirect false true (mkPC 0x600 0))].
Definition demoITRun : ITRun :=
  okOr (it_start demoITStart) (checkedIT demoIT demoITOps (it_start demoITStart)).

(** The target that a lookup of the jump returns *)
Definition demoLookup (r : ITRun) : option PCStateBase :=
  match IT.lookup demoIT 0 0 0x400 None (ir_pred r) with Ok (o, _, _) => o | Err _ => None end.

Lemma demoLookup_eq r o bi t' :
  IT.lookup demoIT 0 0 0x400 None (ir_pred r) = Ok (o, bi, t') -> demoLookup r = o.
Proof. unfold demoLookup. by intros ->. Qed.

Definition demoITTest (r : ITRun) : bool :=
  it_enabled demoIT (ICommit 0) r && (flying_bits demoIT (ir_flights r 0) =? 15) &&
  bool_decide (demoLookup r = Some (mkPC 0x900 0)).

Lemma demoIT_facts :
  checkedIT demoIT demoITOps (it_start demoITStart) = Ok demoITRun /\ demoITTest demoITRun = true.
Proof. unfold demoITRun. apply ok_facts. vm_compute. reflexivity. Qed.

Lemma demoITTest_ok r :
  demoITTest r = true -> it_enabled demoIT (ICommit 0) r = true /\
  flying_bits demoIT (ir_flights r 0) = 15 /\ demoLookup r = Some (mkPC 0x900 0).
Proof.
  unfold demoITTest. rewrite !andb_true_iff.
  intros [[H1 H2%Z.eqb_eq] H3%bool_decide_eq_true]. done.
Qed.

Lemma demoIT_state :
  it_enabled demoIT (ICommit 0) demoITRun = true /\ flying_bits demoIT (ir_flights demoITRun 0) = 15 /\
  demoLookup demoITRun = Some (mkPC 0x900 0).
Proof. apply demoITTest_ok, demoIT_facts. Qed.

Lemma demoIT_reach : it_reach demoIT demoITStart demoITRun.
Proof.
  apply (checkedIT_reach demoIT demoITStart demoITOps (it_start demoITStart) demoITRun).
  - apply it_reach_start.
  - apply demoIT_facts.
Qed.

Lemma demoIT_threads : 0 <= tg_numThreads (it_tage demoIT).
Proof. vm_compute. congruence. Qed.

Lemma demoIT_tid : 0 <= 0 < tg_numThreads (it_tage demoIT).
Proof. vm_compute. split; congruence. Qed.

Lemma it_no_fault_witness : isOk (it_step demoIT (ICommit 0) demoITRun) = true.
Proof.
  exact (it_no_fault demoIT demoIT_cfg demoIT_threads (fun _ => 0) demoITStart demoITRun (ICommit 0)
    demoIT_made demoIT_reach (proj1 demoIT_state)).
Defined.

Lemma it_history_exact_witness :
  exists h, vat (threads (ir_pred demoITRun)) 0 = Some h /\
    comp <$> vat (computeIndices h) 3 = Some (foldRef 4 10 (itHistory demoIT 0 demoITRun)).
Proof.
  destruct (it_history_exact demoIT demoIT_cfg demoIT_threads (fun _ => 0) demoITStart demoITRun 0
    demoIT_made demoIT_reach demoIT_tid) as (h & Hh & _ & Hreg).
  exists h. split; [exact Hh|].
  refine (proj1 (Hreg 3 10 4 7 6 _ _ _ _ _)); [vm_compute; split; congruence|reflexivity..].
Defined.

Lemma it_predicts_trained_witness :
  demoLookup demoITRun = Some (mkPC 0x900 0) /\ mkPC 0x900 0 ∈ ir_trained demoITRun.
Proof.
  split; [apply demoIT_state|].
  destruct (it_predicts_trained demoIT demoIT_cfg demoIT_threads (fun _ => 0) demoITStart demoITRun 0 0 0x400
    demoIT_made demoIT_reach demoIT_tid) as (o & bi & t' & E & Ho).
  apply Ho. rewrite <- (demoLookup_eq _ _ _ _ E). apply demoIT_state.
Defined.

Lemma it_squash_restores_witness :
  exists r2, it_run demoIT [ISpeculate 0 demoJump; ISpeculate 0 demoJump; ISquash 0; ISquash 0] demoITRun
      = Ok r2 /\ it_restored demoITRun r2.
Proof.
  refine (it_squash_restores demoIT demoIT_cfg demoIT_threads (fun _ => 0) demoITStart demoITRun 0
    [demoJump; demoJump] demoIT_made demoIT_reach demoIT_tid _ _).
  - repeat constructor.
  - rewrite (proj1 (proj2 demoIT_state)). reflexivity.
Defined.

Lemma it_indirect_cond_null_witness :
  exists o bi t1, IT.lookup demoIT 0 0 0x500 None (ir_pred demoITRun) = Ok (o, Some bi, t1) /\
    IT.commit demoIT 0 0 (Some bi) t1 = Err NullDeref.
Proof.
  destruct (it_indirect_cond_null demoIT demoIT_cfg demoIT_threads (fun _ => 0) demoITStart demoITRun 0 0 0x500
    true (mkPC 0x900 0) demoIT_made demoIT_reach demoIT_tid ltac:(lia)) as (o & bi & t1 & E1 & _ & E3).
  exists o, bi, t1. exact (conj E1 E3).
Defined.
