(* ===== verification/BPredUnit.v ===== *)
(** * The branch prediction unit

    [cpu/pred/bpred_unit.hh] and [bpred_unit.cc]: the unit that combines the
    direction predictors, the BTB, the return address stack and the indirect
    predictor, keeps the histories of the predictions in flight, and repairs or
    trains its parts when branches are squashed, corrected or committed.

    The unit is written against the interfaces [BranchTargetBuffer],
    [ConditionalPredictor] and [IndirectPredictor].  The pointer to the BTB may
    be a [MultiLevelBTB] ([dynamic_cast]): then [hooks] holds the operations of
    that class the unit calls directly.  The block map [bbMap] is shared with
    the multi-level BTB by address; it is published again after every write.
    [PredictorHistory] objects are values: each is owned either by a fetch
    target or by [predHist].  [advancePC] and [buildRetPC] belong to the ISA
    and are parameters; the stack-distance statistic is left out. *)

From Stdlib Require Import ZArith Lia.
From stdpp Require Import base list gmap numbers.
From S2P Require Import Prelude Types Btb Ras CondPred Indirect.

Inductive TargetProvider := NoTarget | ProvBTB | ProvRAS | ProvIndirect.

#[export] Instance TargetProvider_eq_dec : EqDecision TargetProvider.
Proof. solve_decision. Defined.

Inductive BranchClass := Unknown | ClsL1Hit | ClsL2Hit | ClsL2Miss | ClsNoBtbEntry.

#[export] Instance BranchClass_eq_dec : EqDecision BranchClass.
Proof. solve_decision. Defined.

Record PrevL2HitInfo := mkPrevL2 {
  pl_branchPC : Addr; pl_target : Addr; pl_fallThrough : Addr; pl_valid : bool
}.

Record PrevBranchInfo := mkPrevBranch {
  pb_startAddress : Addr; pb_taken : bool; pb_branchClass : BranchClass
}.

Inductive BpStat :=
| BP_lookups (tid : ThreadID) (t : BranchType)
| BP_squashes (tid : ThreadID) (t : BranchType)
| BP_corrected (tid : ThreadID) (t : BranchType)
| BP_earlyResteers (tid : ThreadID) (t : BranchType)
| BP_committed (tid : ThreadID) (t : BranchType)
| BP_mispredicted (tid : ThreadID) (t : BranchType)
| BP_mispredictDueToPredictor (tid : ThreadID) (t : BranchType)
| BP_mispredictDueToBTBMiss (tid : ThreadID) (t : BranchType)
| BP_targetProvider (tid : ThreadID) (p : TargetProvider)
| BP_targetWrong (tid : ThreadID) (p : TargetProvider)
| BP_condPredicted | BP_condPredictedTaken | BP_condIncorrect | BP_predTakenBTBMiss
| BP_condWrongBasePred | BP_condWrongOverridden | BP_condCorrectBasePred | BP_condCorrectOverridden
| BP_BTBLookups | BP_BTBUpdates | BP_BTBHits | BP_condBTBHits | BP_BTBMispredicted
| BP_indirectLookups | BP_indirectHits | BP_indirectMisses
| BP_l1btbHits | BP_l2btbHits | BP_l3btbHits | BP_pBufferHits
| BP_committedPrefetchHits | BP_committedPHBreakdown (t : BranchType)
| BP_l1btbHitBasePred | BP_l2btbHitBasePred | BP_l1btbHitOverridePred | BP_l1btbHitBpLatency
| BP_l2btbHitOverridePred
| BP_l2Hit_NotTaken | BP_l2Hit_Taken | BP_l2Hit_NonContinuous
| BP_l2PrefetchHit_NotTaken | BP_l2PrefetchHit_Taken | BP_l2PrefetchHit_NonContinuous
| BP_NeverTaken | BP_L1Hit | BP_L2Hit | BP_L2Miss | BP_NoBtbEntry
| BP_Succ_L1Hit_Taken | BP_Succ_L1Hit_NotTaken | BP_Succ_L2Hit_Taken | BP_Succ_L2Hit_NotTaken
| BP_Succ_L2Miss | BP_Succ_NoBtbEntry
| BP_ppBranches | BP_ppMisses.

Record BPUParams := mkBPUParams {
  requiresBTBHit : bool;
  updateBTBAtSquash : bool;
  basicBlockBTB : bool;
  useBtbBim : bool
}.

(** The operations of [MultiLevelBTB] that the unit reaches by a cast. *)
Record MLHooks (B : Type) := mkHooks {
  hk_setBBMap : option (gmap Z Z) -> M B unit;
  hk_trainMarkovOnCommit : ThreadID -> Addr -> bool -> M B unit;
  hk_trainPrefetchBitsOnCommit : ThreadID -> Addr -> bool -> BranchType -> M B unit
}.
Arguments hk_setBBMap {B}. Arguments hk_trainMarkovOnCommit {B}.
Arguments hk_trainPrefetchBitsOnCommit {B}.

(** A call through a pointer that may be null. *)
Definition zoomOpt {S T A} (p : S -> option T) `{!Setter p} (m : M T A) : M S (option A) := fun s =>
  match p s with
  | None => Ok (None, s)
  | Some t =>
      match m t with
      | Ok (a, t') => Ok (Some a, setf p (fun _ => Some t') s)
      | Err e => Err e
      end
  end.

Definition isNull {A} (o : option A) : bool := match o with None => true | Some _ => false end.

Section Unit.
Context {B C HC C2 HC2 I HI : Type}.

(** [struct PredictorHistory] *)
Record PredictorHistory := mkHist {
  seqNum : Z;
  h_tid : ThreadID;
  h_pc : Addr;
  start_address : Addr;
  h_inst : StaticInst;
  h_type : BranchType;
  h_call : bool;
  uncond : bool;
  predTaken : bool;
  actuallyTaken : bool;
  condPred : bool;
  overridden : bool;
  btbHit : bool;
  l1btbHit : bool;
  l2btbHit : bool;
  l3btbHit : bool;
  h_pBufferHit : bool;
  prefetchHit : bool;
  prefetchTriggerType : BranchType;
  targetProvider : TargetProvider;
  resteered : bool;
  mispredict : bool;
  h_target : option PCStateBase;
  bpHistory : option HC;
  overridingBpHistory : option HC2;
  indirectHistory : option HI;
  rasHistory : option RASHistory
}.

#[export] Instance eta_PredictorHistory : Settable PredictorHistory := fun h =>
  mkHist (seqNum h) (h_tid h) (h_pc h) (start_address h) (h_inst h) (h_type h) (h_call h)
    (uncond h) (predTaken h) (actuallyTaken h) (condPred h) (overridden h) (btbHit h)
    (l1btbHit h) (l2btbHit h) (l3btbHit h) (h_pBufferHit h) (prefetchHit h)
    (prefetchTriggerType h) (targetProvider h) (resteered h) (mispredict h) (h_target h)
    (bpHistory h) (overridingBpHistory h) (indirectHistory h) (rasHistory h).

Record BPU := mkBPU {
  blockStartAddr_ : list Addr;
  bbMap : gmap Z Z;
  prevL2HitInfo : list PrevL2HitInfo;
  prevBranchInfo : list PrevBranchInfo;
  predHist : list (list PredictorHistory);
  btb : B;
  ras : option ReturnAddrStack;
  cPred : C;
  overridingCPred : option C2;
  iPred : option I;
  uniqueBranches : gset Z;
  bpstats : list BpStat
}.

#[export] Instance eta_BPU : Settable BPU := fun s =>
  mkBPU (blockStartAddr_ s) (bbMap s) (prevL2HitInfo s) (prevBranchInfo s) (predHist s) (btb s)
    (ras s) (cPred s) (overridingCPred s) (iPred s) (uniqueBranches s) (bpstats s).

Context `{!BranchTargetBuffer B} `{!ConditionalPredictor C HC} `{!ConditionalPredictor C2 HC2}
  `{!IndirectPredictor I HI}.
Context (p : BPUParams) (hooks : option (MLHooks B)).
Context (advancePC : StaticInst -> PCStateBase -> PCStateBase)
  (buildRetPC : StaticInst -> PCStateBase -> PCStateBase -> PCStateBase).

Definition isMultiLevelBTB : bool := match hooks with Some _ => true | None => false end.

Definition stat (x : BpStat) : M BPU unit := modify (fun s => s <| bpstats ::= cons x |>).

(** The constructor and the destructor of [PredictorHistory]. *)
Definition newHistory (_tid : ThreadID) (sn : Z) (_pc : Addr) (i : StaticInst) : PredictorHistory :=
  mkHist sn _tid _pc 0 i (getBranchType i) (isCall i) (negb (isCondCtrl i)) false false false false
    false false false false false false NoBranch NoTarget false false None None None None None.

Definition deleteHistory (h : PredictorHistory) : M BPU unit :=
  massert (isNull (bpHistory h)) ;;
  massert (isNull (indirectHistory h)) ;;
  massert (isNull (rasHistory h)).

(** [predHist[tid]] *)
Definition histories (tid : ThreadID) : M BPU (list PredictorHistory) :=
  o ← gets (fun s => predHist s !! Z.to_nat tid); at_index o.
Definition setHistories (tid : ThreadID) (l : list PredictorHistory) : M BPU unit :=
  modify (fun s => s <| predHist ::= <[Z.to_nat tid := l]> |>).

(** ** predict *)

(** Get branch direction. *)
Definition predictDirection (hist : PredictorHistory) : M BPU (PredictorHistory * Cycles) :=
  if uncond hist then mret (hist <| condPred := true |>, 0) else
  stat BP_condPredicted ;;
  r ← zoom cPred (cp_lookup (h_tid hist) (h_pc hist) (bpHistory hist));
  let cond := fst r in
  let hist := hist <| bpHistory := snd r |> <| condPred := pred_taken cond |> in
  o ← zoomOpt overridingCPred (cp_lookup (h_tid hist) (h_pc hist) (overridingBpHistory hist));
  let '(hist, latency) :=
    match o with
    | Some (secondary, h2) =>
        let hist := hist <| overridingBpHistory := h2 |> in
        if negb (eqb (pred_taken secondary) (condPred hist)) then
          (hist <| condPred := pred_taken secondary |> <| overridden := true |>,
           Cyc.add 0 (pred_latency secondary))
        else (hist, Cyc.add 0 (pred_latency cond))
    | None => (hist, Cyc.add 0 (pred_latency cond))
    end in
  when (condPred hist) (stat BP_condPredictedTaken) ;;
  mret (hist, latency).

(** Statistics of a hit in a multi-level BTB. *)
Definition levelStats (i : StaticInst) (btb_latency cbp_latency : Cycles) : M BPU unit :=
  if isCondCtrl i then
    if btb_latency =? 0 then
      if cbp_latency =? 0 then stat BP_l1btbHitBasePred
      else when (cbp_latency =? 2) (stat BP_l1btbHitOverridePred)
    else when (btb_latency =? 3)
      (if cbp_latency =? 0 then stat BP_l2btbHitBasePred
       else when (cbp_latency =? 2) (stat BP_l2btbHitOverridePred))
  else
    if btb_latency =? 0 then stat BP_l1btbHitBasePred
    else when (btb_latency =? 3) (stat BP_l2btbHitBasePred).

(** Branch Target Buffer: the lookup with its latency, and the total latency so
    far. *)
Definition predictBTB (hist : PredictorHistory) (totalLatency : Cycles)
  : M BPU (PredictorHistory * Cycles) :=
  stat BP_BTBLookups ;;
  let basePrediction := if totalLatency =? 2 then negb (predTaken hist) else predTaken hist in
  blk ← (o ← gets (fun s => blockStartAddr_ s !! Z.to_nat (h_tid hist)); at_index o);
  btb_res ← zoom btb (btb_lookupWithLatency (h_tid hist) (h_pc hist) (h_type hist)
                        (predTaken hist) blk basePrediction);
  static ← gets (fun s => cp_getStaticLatency (cPred s));
  let cbp_latency :=
    if useBtbBim p then
      (if eqb (condPred hist) (res_taken btb_res) then res_latency btb_res else static)
    else totalLatency in
  let totalLatency := Z.max cbp_latency (res_latency btb_res) in
  when ((res_latency btb_res =? 0) && (0 <? cbp_latency)) (stat BP_l1btbHitBpLatency) ;;
  when (isMultiLevelBTB && (totalLatency =? 0)) (zoom btb (btb_recordBTBAccess L1 NoReason)) ;;
  match res_target btb_res with
  | None => mret (hist, totalLatency)
  | Some btb_target =>
      stat BP_BTBHits ;;
      let hist := hist <| btbHit := true |> in
      when (isCondCtrl (h_inst hist)) (stat BP_condBTBHits) ;;
      when isMultiLevelBTB (levelStats (h_inst hist) (res_latency btb_res) cbp_latency) ;;
      let hist :=
        if isMultiLevelBTB then
          hist <| l1btbHit := res_l1Hit btb_res |> <| l2btbHit := res_l2Hit btb_res |>
               <| l3btbHit := res_l3Hit btb_res |> <| h_pBufferHit := res_pBufferHit btb_res |>
               <| prefetchHit := res_prefetchHit btb_res |>
               <| prefetchTriggerType := res_prefetchTriggerType btb_res |>
        else hist in
      mret ((if predTaken hist then
               hist <| targetProvider := ProvBTB |>
                    <| h_target ::= fun t => PCS.set t (Some btb_target) |>
             else hist), totalLatency)
  end.

(** Return Address Stack. *)
Definition predictRAS (pc : PCStateBase) (hist : PredictorHistory) : M BPU PredictorHistory :=
  let inst := h_inst hist in
  let branch_detected := btbHit hist || negb (requiresBTBHit p) in
  if negb branch_detected then mret hist else
  if isCall inst then
    o ← zoomOpt ras (RAS.push (h_tid hist) (buildRetPC inst pc pc) (rasHistory hist));
    mret (match o with Some h => hist <| rasHistory := h |> | None => hist end)
  else if isReturn inst then
    o ← zoomOpt ras (RAS.pop (h_tid hist) (rasHistory hist));
    mret (match o with
          | Some (Some return_addr, h) =>
              hist <| rasHistory := h |> <| h_target ::= fun t => PCS.set t (Some return_addr) |>
                   <| targetProvider := ProvRAS |>
          | Some (None, h) => hist <| rasHistory := h |>
          | None => hist
          end)
  else mret hist.

(** Indirect Predictor. *)
Definition predictIndirect (hist : PredictorHistory) (totalLatency : Cycles)
  : M BPU (PredictorHistory * Cycles) :=
  let inst := h_inst hist in
  let branch_detected := btbHit hist || negb (requiresBTBHit p) in
  ip ← gets iPred;
  match ip with
  | None => mret (hist, totalLatency)
  | Some ip0 =>
      if negb (predTaken hist && branch_detected && isIndirectCtrl inst && negb (isReturn inst))
      then mret (hist, totalLatency) else
      stat BP_indirectLookups ;;
      o ← zoomOpt iPred (ip_lookup (h_tid hist) (seqNum hist) (h_pc hist) (indirectHistory hist));
      match o with
      | Some (Some itarget, h) =>
          stat BP_indirectHits ;;
          mret (hist <| indirectHistory := h |> <| targetProvider := ProvIndirect |>
                     <| h_target ::= fun t => PCS.set t (Some itarget) |>,
                Z.max totalLatency (ip_getStaticLatency ip0))
      | Some (None, h) =>
          stat BP_indirectMisses ;;
          mret (hist <| indirectHistory := h |>, totalLatency)
      | None => mret (hist, totalLatency)
      end
  end.

(** Fallthrough when no component gave a target. *)
Definition fallThrough (pc : PCStateBase) (hist : PredictorHistory) : PredictorHistory :=
  if bool_decide (targetProvider hist = NoTarget) then
    hist <| h_target ::= fun t => advancePC (h_inst hist) <$> PCS.set t (Some pc) |>
         <| predTaken := false |>
  else hist.

(** Speculative history update. *)
Definition speculativeUpdate (hist : PredictorHistory) (tgt : PCStateBase)
  : M BPU PredictorHistory :=
  h1 ← zoom cPred (cp_updateHistories (h_tid hist) (h_pc hist) (uncond hist) (predTaken hist)
                     (instAddr tgt) (h_inst hist) (bpHistory hist));
  o2 ← zoomOpt overridingCPred
         (cp_updateHistories (h_tid hist) (h_pc hist) (uncond hist) (predTaken hist)
            (instAddr tgt) (h_inst hist) (overridingBpHistory hist));
  o3 ← zoomOpt iPred (ip_update (h_tid hist) (seqNum hist) (h_pc hist) false (predTaken hist) tgt
                        (h_type hist) (indirectHistory hist));
  mret (hist <| bpHistory := h1 |>
             <| overridingBpHistory := default (overridingBpHistory hist) o2 |>
             <| indirectHistory := default (indirectHistory hist) o3 |>).

(** [predict] with the history passed back; the second component is the
    predicted PC. *)
Definition predictWithHistory (inst : StaticInst) (seq : Z) (pc : PCStateBase) (tid : ThreadID)
  : M BPU (Prediction * PCStateBase * PredictorHistory) :=
  let hist := newHistory tid seq (instAddr pc) inst in
  stat (BP_lookups tid (h_type hist)) ;;
  stat BP_ppBranches ;;
  r ← predictDirection hist;
  let hist := (fst r) <| predTaken := condPred (fst r) |> <| targetProvider := NoTarget |> in
  r ← predictBTB hist (snd r);
  hist ← predictRAS pc (fst r);
  r ← predictIndirect hist (snd r);
  let hist := fallThrough pc (fst r) in
  stat (BP_targetProvider tid (targetProvider hist)) ;;
  let hist := hist <| actuallyTaken := predTaken hist |> in
  tgt ← deref (h_target hist);
  hist ← speculativeUpdate hist tgt;
  mret (mkPrediction (predTaken hist) (snd r), tgt, hist).

Definition insertPredictorHistory (tid : ThreadID) (bpu_history : PredictorHistory) : M BPU unit :=
  l ← histories tid; setHistories tid (bpu_history :: l).

Definition predict (inst : StaticInst) (seq : Z) (pc : PCStateBase) (tid : ThreadID)
  : M BPU (Prediction * PCStateBase) :=
  r ← predictWithHistory inst seq pc tid;
  insertPredictorHistory tid (snd r) ;;
  mret (fst r).

Definition predictL1 (tid : ThreadID) (pc : Addr) : M BPU Addr :=
  target ← zoom btb (btb_lookupL1 tid pc);
  taken ← zoom cPred (cp_predictL1NoUpdate tid pc);
  mret (if negb (target =? MaxAddr) && negb taken then u64 (pc + 4) else target).

(** ** Commit *)

Definition updateStatsOverriding (prediction actually over : bool) : M BPU unit :=
  if negb (eqb prediction actually) then
    (if over then stat BP_condWrongOverridden else stat BP_condWrongBasePred)
  else
    (if over then stat BP_condCorrectOverridden else stat BP_condCorrectBasePred).

Definition updateBTB (tid : ThreadID) (hist : PredictorHistory) : M BPU unit :=
  ip ← gets iPred;
  if negb (requiresBTBHit p) && isReturn (h_inst hist) then mret tt else
  if negb (requiresBTBHit p) && negb (isNull ip) && isIndirectCtrl (h_inst hist) then mret tt else
  when (negb (btbHit hist))
    (stat BP_BTBMispredicted ;; when (condPred hist) (stat BP_predTakenBTBMiss)) ;;
  modify (fun s => s <| uniqueBranches ::= fun u => {[h_pc hist]} ∪ u |>) ;;
  stat BP_BTBUpdates ;;
  tgt ← deref (h_target hist);
  zoom btb (btb_update tid (h_pc hist) tgt (h_type hist) (Some (h_inst hist))) ;;
  zoom btb (btb_incorrectTarget (h_pc hist) (h_type hist)) ;;
  when (basicBlockBTB p)
    (modify (fun s => s <| bbMap ::= <[start_address hist := h_pc hist]> |>) ;;
     m ← gets bbMap;
     match hooks with Some hk => zoom btb (hk_setBBMap hk (Some m)) | None => mret tt end).

(** Which level hit, and the place of the block relative to the previous hit
    below the first level. *)
Definition commitLevelStats (tid : ThreadID) (hist : PredictorHistory) (tgt : PCStateBase)
  : M BPU unit :=
  (if h_pBufferHit hist then stat BP_pBufferHits
   else if l1btbHit hist then stat BP_l1btbHits
   else if l2btbHit hist then stat BP_l2btbHits
   else when (l3btbHit hist) (stat BP_l3btbHits)) ;;
  when (prefetchHit hist)
    (stat BP_committedPrefetchHits ;; stat (BP_committedPHBreakdown (prefetchTriggerType hist))) ;;
  if l1btbHit hist then mret tt else
  prev ← (o ← gets (fun s => prevL2HitInfo s !! Z.to_nat tid); at_index o);
  when (pl_valid prev && negb (start_address hist =? 0))
    (if start_address hist =? pl_fallThrough prev then
       stat BP_l2Hit_NotTaken ;; when (prefetchHit hist) (stat BP_l2PrefetchHit_NotTaken)
     else if start_address hist =? pl_target prev then
       stat BP_l2Hit_Taken ;; when (prefetchHit hist) (stat BP_l2PrefetchHit_Taken)
     else
       stat BP_l2Hit_NonContinuous ;; when (prefetchHit hist) (stat BP_l2PrefetchHit_NonContinuous)) ;;
  modify (fun s => s <| prevL2HitInfo ::=
    <[Z.to_nat tid := mkPrevL2 (h_pc hist) (instAddr tgt) (u64 (h_pc hist + 4)) true]> |>).

Definition classify (hist : PredictorHistory) : BranchClass :=
  if l1btbHit hist then ClsL1Hit
  else if l2btbHit hist || h_pBufferHit hist then ClsL2Hit
  else if actuallyTaken hist then ClsL2Miss else ClsNoBtbEntry.

(** The classification of the branch that ends a known block. *)
Definition commitBlockStats (tid : ThreadID) (hist : PredictorHistory) : M BPU unit :=
  it ← gets (fun s => bbMap s !! start_address hist);
  prev ← (o ← gets (fun s => prevBranchInfo s !! Z.to_nat tid); at_index o);
  if bool_decide (it = Some (h_pc hist)) then
    let currentClass := classify hist in
    match currentClass with
    | ClsL1Hit => stat BP_L1Hit
    | ClsL2Hit => stat BP_L2Hit
    | ClsL2Miss => stat BP_L2Miss
    | ClsNoBtbEntry => stat BP_NoBtbEntry
    | Unknown => mret tt
    end ;;
    when (bool_decide (currentClass = ClsL2Hit))
      match pb_branchClass prev with
      | ClsL1Hit => if pb_taken prev then stat BP_Succ_L1Hit_Taken else stat BP_Succ_L1Hit_NotTaken
      | ClsL2Hit => if pb_taken prev then stat BP_Succ_L2Hit_Taken else stat BP_Succ_L2Hit_NotTaken
      | ClsL2Miss => stat BP_Succ_L2Miss
      | ClsNoBtbEntry => stat BP_Succ_NoBtbEntry
      | Unknown => mret tt
      end ;;
    modify (fun s => s <| prevBranchInfo ::=
      <[Z.to_nat tid := mkPrevBranch (start_address hist) (actuallyTaken hist) currentClass]> |>)
  else
    stat BP_NeverTaken ;;
    when (isNull it) (modify (fun s => s <| prevBranchInfo ::=
      <[Z.to_nat tid := mkPrevBranch (pb_startAddress prev) (pb_taken prev) ClsNoBtbEntry]> |>)).

(** The first part of [commitBranch]: statistics and training of the
    predictors, which delete the histories. *)
Definition commitTrain (tid : ThreadID) (hist : PredictorHistory) (tgt : PCStateBase)
  : M BPU PredictorHistory :=
  h1 ← zoom cPred (cp_update tid (h_pc hist) (actuallyTaken hist) (bpHistory hist) false
                     (h_inst hist) (instAddr tgt));
  when (isCondCtrl (h_inst hist))
    (updateStatsOverriding (condPred hist) (actuallyTaken hist) (overridden hist)) ;;
  o2 ← zoomOpt overridingCPred
         (cp_update tid (h_pc hist) (actuallyTaken hist) (overridingBpHistory hist) false
            (h_inst hist) (instAddr tgt));
  o3 ← zoomOpt iPred (ip_commit tid (seqNum hist) (indirectHistory hist));
  o4 ← zoomOpt ras (RAS.commit tid (mispredict hist) (h_type hist) (rasHistory hist));
  mret (hist <| bpHistory := h1 |>
             <| overridingBpHistory := default (overridingBpHistory hist) o2 |>
             <| indirectHistory := default (indirectHistory hist) o3 |>
             <| rasHistory := default (rasHistory hist) o4 |>).

Definition commitBranch (tid : ThreadID) (hist : PredictorHistory) : M BPU PredictorHistory :=
  stat (BP_committed tid (h_type hist)) ;;
  when (mispredict hist)
    (stat (BP_mispredicted tid (h_type hist)) ;;
     (if actuallyTaken hist && negb (btbHit hist)
      then stat (BP_mispredictDueToBTBMiss tid (h_type hist))
      else stat (BP_mispredictDueToPredictor tid (h_type hist))) ;;
     stat BP_condIncorrect ;;
     stat BP_ppMisses) ;;
  tgt ← deref (h_target hist);
  hist ← commitTrain tid hist tgt;
  when (actuallyTaken hist && negb (updateBTBAtSquash p)) (updateBTB tid hist) ;;
  when (useBtbBim p) (zoom btb (btb_updateDirection tid (h_pc hist) (actuallyTaken hist))) ;;
  when (isMultiLevelBTB && btbHit hist) (commitLevelStats tid hist tgt) ;;
  match hooks with
  | None => mret hist
  | Some hk =>
      commitBlockStats tid hist ;;
      zoom btb (hk_trainMarkovOnCommit hk tid (h_pc hist) (l2btbHit hist)) ;;
      zoom btb (hk_trainPrefetchBitsOnCommit hk tid (h_pc hist) (actuallyTaken hist) (h_type hist)) ;;
      mret hist
  end.

(** The loop of [update]: from the back, the oldest branch, on.  [n] bounds the
    iterations; the size of the history is enough. *)
Fixpoint updateLoop (n : nat) (done_sn : Z) (tid : ThreadID) : M BPU unit :=
  match n with
  | O => mret tt
  | S m =>
      l ← histories tid;
      match list.last l with
      | None => mret tt
      | Some hist =>
          if seqNum hist <=? done_sn then
            hist ← commitBranch tid hist;
            deleteHistory hist ;;
            l ← histories tid;
            setHistories tid (take (length l - 1) l) ;;
            updateLoop m done_sn tid
          else mret tt
      end
  end.

Definition update (done_sn : Z) (tid : ThreadID) : M BPU unit :=
  l ← histories tid; updateLoop (length l) done_sn tid.

(** ** Squash *)

Definition squashHistory (tid : ThreadID) (history : PredictorHistory) : M BPU unit :=
  stat (BP_squashes tid (h_type history)) ;;
  r ← (if isNull (rasHistory history) then mret (rasHistory history) else
       o ← zoomOpt ras (RAS.squash tid (rasHistory history));
       match o with Some h => mret h | None => fault AssertFail end);
  o2 ← zoomOpt iPred (ip_squash tid (seqNum history) (indirectHistory history));
  h1 ← zoom cPred (cp_squash tid (bpHistory history));
  o3 ← zoomOpt overridingCPred (cp_squash tid (overridingBpHistory history));
  match o3 with Some h => massert (isNull h) | None => mret tt end ;;
  deleteHistory (history <| rasHistory := r |> <| bpHistory := h1 |>
                         <| indirectHistory := default (indirectHistory history) o2 |>).

(** The loop of [squash]: from the front, the youngest branch, on. *)
Fixpoint squashLoop (n : nat) (squashed_sn : Z) (tid : ThreadID) : M BPU unit :=
  match n with
  | O => mret tt
  | S m =>
      l ← histories tid;
      match l with
      | [] => mret tt
      | hist :: _ =>
          if squashed_sn <? seqNum hist then
            squashHistory tid hist ;;
            l ← histories tid;
            setHistories tid (tail l) ;;
            squashLoop m squashed_sn tid
          else mret tt
      end
  end.

Definition squash (squashed_sn : Z) (tid : ThreadID) : M BPU unit :=
  l ← histories tid; squashLoop (length l) squashed_sn tid.

(** Correct RAS: the branch was taken and the stack was not updated, or the
    other way round. *)
Definition correctRAS (tid : ThreadID) (corr_target : PCStateBase) (actually_taken : bool)
    (hist : PredictorHistory) : M BPU PredictorHistory :=
  rs ← gets ras;
  if isNull rs then mret hist else
  if actually_taken && isNull (rasHistory hist) then
    hist ← (if bool_decide (h_type hist = Return) then
              o ← zoomOpt ras (RAS.pop tid (rasHistory hist));
              mret (match o with Some (_, h) => hist <| rasHistory := h |> | None => hist end)
            else mret hist);
    if h_call hist then
      let return_addr := buildRetPC (h_inst hist) corr_target corr_target in
      let return_addr := if inst_size (h_inst hist) =? 0 then return_addr
                         else PCS.setAddr (u64 (h_pc hist + inst_size (h_inst hist))) return_addr in
      o ← zoomOpt ras (RAS.push tid return_addr (rasHistory hist));
      mret (match o with Some h => hist <| rasHistory := h |> | None => hist end)
    else mret hist
  else if negb actually_taken && negb (isNull (rasHistory hist)) then
    o ← zoomOpt ras (RAS.squash tid (rasHistory hist));
    mret (match o with Some h => hist <| rasHistory := h |> | None => hist end)
  else mret hist.

(** [squash] with the correct outcome of the branch [squashed_sn]. *)
Definition squashCorrect (squashed_sn : Z) (corr_target : PCStateBase) (actually_taken : bool)
    (tid : ThreadID) (from_commit : bool) : M BPU unit :=
  squash squashed_sn tid ;;
  l ← histories tid;
  match l with
  | [] => mret tt
  | hist :: rest =>
      stat (BP_corrected tid (h_type hist)) ;;
      when (match h_target hist with
            | Some t => negb (instAddr t =? instAddr corr_target)
            | None => false end)
        (stat (BP_targetWrong tid (targetProvider hist))) ;;
      when (negb from_commit) (stat (BP_earlyResteers tid (h_type hist))) ;;
      let hist := hist <| mispredict := true |> <| actuallyTaken := actually_taken |>
                       <| h_target ::= fun t => PCS.set t (Some corr_target) |> in
      h1 ← zoom cPred (cp_update tid (h_pc hist) actually_taken (bpHistory hist) true
                         (h_inst hist) (instAddr corr_target));
      o2 ← zoomOpt overridingCPred
             (cp_update tid (h_pc hist) actually_taken (overridingBpHistory hist) true
                (h_inst hist) (instAddr corr_target));
      o3 ← zoomOpt iPred (ip_update tid squashed_sn (h_pc hist) true actually_taken corr_target
                            (h_type hist) (indirectHistory hist));
      let hist := hist <| bpHistory := h1 |>
                       <| overridingBpHistory := default (overridingBpHistory hist) o2 |>
                       <| indirectHistory := default (indirectHistory hist) o3 |> in
      hist ← correctRAS tid corr_target actually_taken hist;
      setHistories tid (hist :: rest) ;;
      when (actually_taken && updateBTBAtSquash p) (updateBTB tid hist)
  end.

(** ** The rest of the interface *)

Definition branchPlaceholder (tid : ThreadID) (pc : Addr) (unc : bool) (hist : PredictorHistory)
  : M BPU PredictorHistory :=
  h1 ← zoom cPred (cp_branchPlaceholder tid pc unc (bpHistory hist));
  o2 ← zoomOpt overridingCPred (cp_branchPlaceholder tid pc unc (overridingBpHistory hist));
  mret (hist <| bpHistory := h1 |>
             <| overridingBpHistory := default (overridingBpHistory hist) o2 |>).

Definition lookupBBBranch (tid : ThreadID) (bbStartPC : Addr) : M BPU Addr :=
  gets (fun s => default MaxAddr (bbMap s !! bbStartPC)).

Definition setBlockStartAddr (tid : ThreadID) (addr : Addr) : M BPU unit :=
  modify (fun s => s <| blockStartAddr_ ::= <[Z.to_nat tid := addr]> |>).

Definition BTBValid (tid : ThreadID) (pc : Addr) : M BPU bool := zoom btb (btb_valid tid pc).
Definition BTBGetInst (tid : ThreadID) (pc : Addr) : M BPU (option StaticInst) :=
  zoom btb (btb_getInst tid pc).
Definition BTBUpdate (tid : ThreadID) (pc : Addr) (target : PCStateBase) : M BPU unit :=
  stat BP_BTBUpdates ;; zoom btb (btb_update tid pc target NoBranch None).
Definition recordBTBAccess (level : BTBAccessLevel) (reason : BTBAccessReason) : M BPU unit :=
  zoom btb (btb_recordBTBAccess level reason).

Definition drainSanityCheck : M BPU unit :=
  l ← gets predHist;
  mfor l (fun ph => massert (match ph with [] => true | _ => false end)).

(** [bbMapSize], [bbMapSharedExits] and [BTBUniqueBranches]. *)
Definition preDumpStats (s : BPU) : Z * Z * Z :=
  let exits := (map_to_list (bbMap s)).*2 in
  (Z.of_nat (size (bbMap s)),
   Z.of_nat (length (filter (fun e => (1 < length (filter (eq e) exits))%nat)
                       (elements (list_to_set exits : gset Z)))),
   Z.of_nat (size (uniqueBranches s))).

Definition make (numThreads : nat) (b : B) (rs : option ReturnAddrStack) (c : C) (c2 : option C2)
    (i : option I) : Res BPU :=
  let s := mkBPU (replicate numThreads 0) ∅ (replicate numThreads (mkPrevL2 0 0 0 false))
             (replicate numThreads (mkPrevBranch 0 false Unknown)) (replicate numThreads [])
             b rs c c2 i ∅ [] in
  match hooks with
  | None => Ok s
  | Some hk => resMap snd (zoom btb (hk_setBBMap hk (Some ∅)) s)
  end.
End Unit.
