(* ===== verification/BPredUnitInv.v ===== *)
(** * Invariant of the branch prediction unit

    The contract of a BTB, the invariant of [BPredUnit] under the contracts of
    its parts, and the rules of its operations: none fails, the destructor of a
    history never sees a history object that a component still owns, and the
    queue of histories stays ordered by sequence number. *)

From Stdlib Require Import ZArith Lia Sorted.
From stdpp Require Import base list gmap numbers.
From S2P Require Import Prelude Types Btb Ras CondPred Indirect BPredUnit.

(** [bt_ok k] is the invariant of a BTB after at most [k] lookups.  A lookup is
    allowed on a branch that [valid] finds ([bt_found]). *)
Class BtbContract (B : Type) `{!BranchTargetBuffer B} := {
  bt_ok : Z -> B -> Prop;
  bt_threads : Z;
  bt_found : B -> ThreadID -> Addr -> Prop;
  bt_mono k k' b : bt_ok k b -> k <= k' -> bt_ok k' b;
  bt_lookup_ok k b tid pc ty taken start base :
    bt_ok k b -> k + 1 < 2 ^ 64 - 1 -> 0 <= tid < bt_threads -> bt_found b tid pc ->
    wp (btb_lookupWithLatency tid pc ty taken start base) (fun _ b' => bt_ok (k + 1) b') b;
  bt_update_ok k b tid pc tgt ty i :
    bt_ok k b -> wp (btb_update tid pc tgt ty (Some i)) (fun _ b' => bt_ok k b') b;
  bt_incorrectTarget_ok k b pc ty :
    bt_ok k b -> wp (btb_incorrectTarget pc ty) (fun _ b' => bt_ok k b') b;
  bt_updateDirection_ok k b tid pc taken :
    bt_ok k b -> wp (btb_updateDirection tid pc taken) (fun _ b' => bt_ok k b') b;
  bt_recordBTBAccess_ok k b level reason :
    bt_ok k b -> wp (btb_recordBTBAccess level reason) (fun _ b' => bt_ok k b') b
}.

Record hooksContract {B : Type} `{BtbContract B} (hk : MLHooks B) : Prop := {
  hc_setBBMap k b m : bt_ok k b -> wp (hk_setBBMap hk (Some m)) (fun _ b' => bt_ok k b') b;
  hc_trainMarkov k b tid pc l2 :
    bt_ok k b -> wp (hk_trainMarkovOnCommit hk tid pc l2) (fun _ b' => bt_ok k b') b;
  hc_trainBits k b tid pc taken ty :
    bt_ok k b -> wp (hk_trainPrefetchBitsOnCommit hk tid pc taken ty) (fun _ b' => bt_ok k b') b
}.

Lemma wp_zoomOpt {S T A} (p : S -> option T) `{!Setter p} (m : M T A) (Q : option A -> S -> Prop) s :
  (p s = None -> Q None s) ->
  (forall t, p s = Some t -> wp m (fun a t' => Q (Some a) (setf p (fun _ => Some t') s)) t) ->
  wp (zoomOpt p m) Q s.
Proof.
  intros H1 H2. unfold wp, zoomOpt in *. destruct (p s) as [t|]; [|auto].
  specialize (H2 t eq_refl). by destruct (m t) as [[a t']|].
Qed.

Lemma list_filter_all {A} (P : A -> Prop) `{!forall x, Decision (P x)} l : Forall P l -> filter P l = l.
Proof. induction 1; [done|]. rewrite filter_cons_True by done. by f_equal. Qed.

Lemma filter_ok {A} (P R : A -> Prop) `{!forall x, Decision (P x)} l : Forall R l -> Forall R (filter P l).
Proof. induction 1; [done|]. rewrite filter_cons. case_decide; [by constructor|done]. Qed.

Section Inv.
Context {B C HC K1 C2 HC2 K2 I HI : Type}.
Context `{BB : BtbContract B} `{CC : ConditionalContract C HC K1}
  `{CC2 : ConditionalContract C2 HC2 K2} `{II : IndirectContract I HI}.
Context (p : BPUParams) (hooks : option (MLHooks B)).
Context (advancePC : StaticInst -> PCStateBase -> PCStateBase)
  (buildRetPC : StaticInst -> PCStateBase -> PCStateBase -> PCStateBase).
(** Threads, capacity of the RAS, configurations of the predictors, and which
    of the optional parts exist. *)
Context (n cap : Z) (k1 : K1) (k2 : K2) (hasRas hasOvr hasInd : bool).

Abbreviation BPU := (@BPU B C HC C2 HC2 I HI).
Abbreviation Hist := (@PredictorHistory HC HC2 HI).

Record setup : Prop := {
  su_btb : n <= bt_threads;
  su_c1 : cp_threads k1 = n;
  su_c2 : cp_threads k2 = n;
  su_hooks : forall hk, hooks = Some hk -> hooksContract hk
}.

(** The parts of the unit. *)
Record parts_ok (k : Z) (s : BPU) : Prop := {
  po_btb : bt_ok k (btb s);
  po_c : cp_ok k1 (cPred s);
  po_c2 : isNull (overridingCPred s) = negb hasOvr;
  po_c2_ok : forall c, overridingCPred s = Some c -> cp_ok k2 c;
  po_i : isNull (iPred s) = negb hasInd;
  po_i_ok : forall c, iPred s = Some c -> ip_ok n c;
  po_r : isNull (ras s) = negb hasRas;
  po_r_ok : forall r, ras s = Some r -> RasSafe.ok cap n r;
  po_blk : length (blockStartAddr_ s) = Z.to_nat n;
  po_l2 : length (prevL2HitInfo s) = Z.to_nat n;
  po_br : length (prevBranchInfo s) = Z.to_nat n
}.

(** A history of a branch in flight. *)
Record hist_ok (tid : ThreadID) (h : Hist) : Prop := {
  ho_tid : h_tid h = tid;
  ho_live : cp_live k1 (bpHistory h);
  ho_live2 : hasOvr = true -> cp_live k2 (overridingBpHistory h);
  ho_ind : hasInd = false -> indirectHistory h = None;
  ho_ras : rasHistory h <> None -> hasRas = true /\ RasSafe.ras_type (h_type h) = true;
  ho_tos : RasSafe.hist_ok cap (rasHistory h);
  ho_target : is_Some (h_target h);
  ho_type : h_type h = getBranchType (h_inst h) /\ h_call h = isCall (h_inst h)
}.

(** Youngest first. *)
Definition ordered (l : list Hist) : Prop := StronglySorted (fun a b => seqNum b < seqNum a) l.

Record bpu_inv (k : Z) (s : BPU) : Prop := {
  bi_parts : parts_ok k s;
  bi_len : length (predHist s) = Z.to_nat n;
  bi_hist : forall t l, predHist s !! t = Some l -> Forall (hist_ok (Z.of_nat t)) l /\ ordered l
}.

(** *** Frame rules: the parts after one of them changed *)

Definition st (k : Z) (l : list (list Hist)) (s : BPU) : Prop := parts_ok k s /\ predHist s = l.

Lemma st_stat k l x s : st k l s -> st k l (s <| bpstats ::= cons x |>).
Proof. intros [[] ?]. split; [by constructor|done]. Qed.
Lemma st_mono k k' l s : st k l s -> k <= k' -> st k' l s.
Proof. intros [[] ?] Hk. split; [|done]. constructor; try done. by eapply bt_mono. Qed.
Lemma st_unique k l u s : st k l s -> st k l (s <| uniqueBranches ::= u |>).
Proof. intros [[] ?]. split; [by constructor|done]. Qed.
Lemma st_bbMap k l u s : st k l s -> st k l (s <| bbMap ::= u |>).
Proof. intros [[] ?]. split; [by constructor|done]. Qed.
Lemma st_l2 k l i u s : st k l s -> st k l (s <| prevL2HitInfo ::= <[i := u]> |>).
Proof. intros [[] ?]. split; [|done]. constructor; try done. cbn. by rewrite length_insert. Qed.
Lemma st_br k l i u s : st k l s -> st k l (s <| prevBranchInfo ::= <[i := u]> |>).
Proof. intros [[] ?]. split; [|done]. constructor; try done. cbn. by rewrite length_insert. Qed.

Lemma wp_bpu_stat k l x s (Q : unit -> BPU -> Prop) :
  st k l s -> (forall s', st k l s' -> Q tt s') -> wp (stat x) Q s.
Proof. intros H HQ. unfold stat. wp_steps. apply HQ. by apply st_stat. Qed.

Lemma wp_btb {A} k k' l (m : M B A) s (Q : A -> BPU -> Prop) :
  st k l s -> (bt_ok k (btb s) -> wp m (fun _ b' => bt_ok k' b') (btb s)) ->
  (forall a s', st k' l s' -> Q a s') -> wp (zoom btb m) Q s.
Proof.
  intros [[] ?] Hm HQ. apply wp_zoom. eapply wp_mono; [by apply Hm|].
  intros a b' Hb'. apply HQ. split; [by constructor|done].
Qed.

Lemma wp_cPred {A} k l (m : M C A) (P : A -> Prop) s (Q : A -> BPU -> Prop) :
  st k l s -> (cp_ok k1 (cPred s) -> wp m (fun a c' => cp_ok k1 c' /\ P a) (cPred s)) ->
  (forall a s', st k l s' -> P a -> Q a s') -> wp (zoom cPred m) Q s.
Proof.
  intros [[] ?] Hm HQ. apply wp_zoom. eapply wp_mono; [by apply Hm|].
  intros a c' [Hc' HP]. apply HQ; [|done]. split; [by constructor|done].
Qed.

Lemma wp_ovr {A} k l (m : M C2 A) (P : A -> Prop) s (Q : option A -> BPU -> Prop) :
  st k l s -> (hasOvr = true -> forall c, cp_ok k2 c -> wp m (fun a c' => cp_ok k2 c' /\ P a) c) ->
  (forall s', st k l s' -> hasOvr = false -> Q None s') ->
  (forall a s', st k l s' -> hasOvr = true -> P a -> Q (Some a) s') ->
  wp (zoomOpt overridingCPred m) Q s.
Proof.
  intros [[? ? Hn Hc2 ? ? ? ? ? ? ?] ?] Hm HQ1 HQ2. apply wp_zoomOpt.
  - intros E. rewrite E in Hn. apply HQ1; [|by destruct hasOvr].
    split; [|done]. constructor; try done. by rewrite E.
  - intros c Hc. rewrite Hc in Hn. assert (Ho : hasOvr = true) by (by destruct hasOvr).
    eapply wp_mono; [by apply Hm; [|apply Hc2]|].
    intros a c' [Hc' HP]. apply HQ2; [|done..]. split; [|done]. constructor; try done.
    by intros c'' [= <-].
Qed.

Lemma wp_ind {A} k l (m : M I A) (P : A -> Prop) s (Q : option A -> BPU -> Prop) :
  st k l s -> (hasInd = true -> forall c, ip_ok n c -> wp m (fun a c' => ip_ok n c' /\ P a) c) ->
  (forall s', st k l s' -> hasInd = false -> Q None s') ->
  (forall a s', st k l s' -> hasInd = true -> P a -> Q (Some a) s') ->
  wp (zoomOpt iPred m) Q s.
Proof.
  intros [[? ? ? ? Hn Hc2 ? ? ? ? ?] ?] Hm HQ1 HQ2. apply wp_zoomOpt.
  - intros E. rewrite E in Hn. apply HQ1; [|by destruct hasInd].
    split; [|done]. constructor; try done. by rewrite E.
  - intros c Hc. rewrite Hc in Hn. assert (Ho : hasInd = true) by (by destruct hasInd).
    eapply wp_mono; [by apply Hm; [|apply Hc2]|].
    intros a c' [Hc' HP]. apply HQ2; [|done..]. split; [|done]. constructor; try done.
    by intros c'' [= <-].
Qed.

Lemma wp_ras {A} k l (m : M ReturnAddrStack A) (P : A -> Prop) s (Q : option A -> BPU -> Prop) :
  st k l s ->
  (hasRas = true -> forall r, RasSafe.ok cap n r -> wp m (fun a r' => RasSafe.ok cap n r' /\ P a) r) ->
  (forall s', st k l s' -> hasRas = false -> Q None s') ->
  (forall a s', st k l s' -> hasRas = true -> P a -> Q (Some a) s') ->
  wp (zoomOpt ras m) Q s.
Proof.
  intros [[? ? ? ? ? ? Hn Hc2 ? ? ?] ?] Hm HQ1 HQ2. apply wp_zoomOpt.
  - intros E. rewrite E in Hn. apply HQ1; [|by destruct hasRas].
    split; [|done]. constructor; try done. by rewrite E.
  - intros c Hc. rewrite Hc in Hn. assert (Ho : hasRas = true) by (by destruct hasRas).
    eapply wp_mono; [by apply Hm; [|apply Hc2]|].
    intros a c' [Hc' HP]. apply HQ2; [|done..]. split; [|done]. constructor; try done.
    by intros c'' [= <-].
Qed.

(** Code that only counts. *)
Definition counting (m : M BPU unit) : Prop :=
  forall k l s (Q : unit -> BPU -> Prop),
    st k l s -> (forall s', st k l s' -> Q tt s') -> wp m Q s.

Lemma counting_stat x : counting (stat x).
Proof. intros k l s Q. apply wp_bpu_stat. Qed.
Lemma counting_ret : counting (mret tt).
Proof. intros k l s Q Hs HQ. apply wp_ret. auto. Qed.
Lemma counting_if (b : bool) m1 m2 : counting m1 -> counting m2 -> counting (if b then m1 else m2).
Proof. by destruct b. Qed.
Lemma counting_when b m : counting m -> counting (when b m).
Proof. destruct b; [done|]. intros _. apply counting_ret. Qed.
Lemma counting_seq m1 m2 : counting m1 -> counting m2 -> counting (m1 ;; m2).
Proof. intros H1 H2 k l s Q Hs HQ. apply wp_bind, (H1 k l); [done|]. intros s' Hs'. by apply (H2 k l). Qed.

Lemma wp_counting {A} k l (m : M BPU unit) (f : unit -> M BPU A) s (Q : A -> BPU -> Prop) :
  counting m -> st k l s -> (forall s', st k l s' -> wp (f tt) Q s') -> wp (m ≫= f) Q s.
Proof. intros Hm Hs Hf. apply wp_bind, (Hm k l); [done|]. auto. Qed.

Ltac count := repeat first
  [ apply counting_stat | apply counting_ret | apply counting_when | apply counting_if
  | apply counting_seq ].

(** ** predict *)
Context (Hsu : setup).

Section Predict.
Context (inst : StaticInst) (seq : Z) (tid : ThreadID) (a0 : Addr) (Ht : 0 <= tid < n).

Definition detected (h : Hist) : bool := btbHit h || negb (requiresBTBHit p).

(** The component that provided the target, and when it may. *)
Definition provided (h : Hist) : Prop :=
  match targetProvider h with
  | NoTarget => h_target h = None
  | ProvBTB => is_Some (h_target h) /\ predTaken h = true /\ btbHit h = true
  | ProvRAS => is_Some (h_target h) /\ isReturn inst = true /\ isCall inst = false /\
               detected h = true /\ hasRas = true
  | ProvIndirect => is_Some (h_target h) /\ predTaken h = true /\ isIndirectCtrl inst = true /\
                    isReturn inst = false /\ detected h = true /\ hasInd = true
  end.

(** The direction part of a history before the speculative update. *)
Definition directed (h : Hist) : Prop :=
  if negb (isCondCtrl inst) then condPred h = true /\ bpHistory h = None /\ overridingBpHistory h = None
  else cp_looked k1 (bpHistory h) /\ (hasOvr = true -> cp_looked k2 (overridingBpHistory h)).

Record stage (h : Hist) : Prop := {
  sg_seq : seqNum h = seq;
  sg_tid : h_tid h = tid;
  sg_pc : h_pc h = a0;
  sg_inst : h_inst h = inst;
  sg_type : h_type h = getBranchType inst;
  sg_call : h_call h = isCall inst;
  sg_uncond : uncond h = negb (isCondCtrl inst);
  sg_mispredict : mispredict h = false;
  sg_start : start_address h = 0;
  sg_ras : rasHistory h <> None -> hasRas = true /\ isCall inst || isReturn inst = true;
  sg_tos : RasSafe.hist_ok cap (rasHistory h);
  sg_prov : provided h
}.

Lemma wp_predictDirection k l h s (Q : Hist * Cycles -> BPU -> Prop) :
  st k l s -> stage h -> bpHistory h = None -> overridingBpHistory h = None ->
  indirectHistory h = None -> rasHistory h = None -> h_target h = None ->
  (forall h' lat s', st k l s' -> stage h' -> directed h' -> indirectHistory h' = None ->
     rasHistory h' = None -> h_target h' = None -> Q (h', lat) s') ->
  wp (predictDirection h) Q s.
Proof.
  intros Hs Hh Hb Ho Hi Hr Htg HQ. unfold predictDirection.
  pose proof (sg_uncond _ Hh) as Hu. destruct (isCondCtrl inst) eqn:Ec; cbn in Hu; rewrite Hu.
  - apply wp_bind, (wp_bpu_stat k l); [done|]. intros s1 Hs1. apply wp_bind. rewrite Hb.
    apply (wp_cPred k l _ (fun r => cp_looked k1 (snd r))); [done| |].
    { intros Hc. rewrite (sg_tid _ Hh). apply cp_lookup_ok; [done|]. by rewrite (su_c1 Hsu). }
    intros [pr h1] s2 Hs2 Hl1. apply wp_bind. cbn [fst snd] in *.
    change (overridingBpHistory (_ <| condPred := _ |>)) with (overridingBpHistory h). rewrite Ho.
    apply (wp_ovr k l _ (fun r => cp_looked k2 (snd r))); [done| | |].
    { intros _ c Hc. cbn. rewrite (sg_tid _ Hh). apply cp_lookup_ok; [done|]. by rewrite (su_c2 Hsu). }
    + intros s3 Hs3 Hno. apply wp_bind. cbn [condPred].
      assert (Hfin : forall s', st k l s' -> Q (h <| bpHistory := h1 |> <| condPred := pred_taken pr |>,
        Cyc.add 0 (pred_latency pr)) s').
      { intros s' Hs'. apply HQ; try done.
        - by destruct Hh.
        - unfold directed. rewrite Ec. cbn. split; [done|]. by rewrite Hno. }
      wp_step; [apply (wp_bpu_stat k l); [done|]; intros s4 Hs4|]; apply wp_ret; auto.
    + intros [sec h2] s3 Hs3 Hyes Hl2. cbn [snd fst] in *.
      assert (Hfin : forall c o lat s', st k l s' ->
        Q (h <| bpHistory := h1 |> <| condPred := c |> <| overridingBpHistory := h2 |>
             <| overridden := o |>, lat) s').
      { intros c o lat s' Hs'. apply HQ; try done.
        - by destruct Hh.
        - unfold directed. rewrite Ec. cbn. by split. }
      destruct (negb _); apply wp_bind.
      * wp_step; [apply (wp_bpu_stat k l); [done|]; intros s4 Hs4|]; apply wp_ret;
          by refine (Hfin (pred_taken sec) true _ _ _).
      * assert (Eq : forall c, h <| bpHistory := h1 |> <| condPred := c |> <| overridingBpHistory := h2 |> =
          h <| bpHistory := h1 |> <| condPred := c |> <| overridingBpHistory := h2 |>
            <| overridden := overridden h |>) by (intros c; by destruct h).
        wp_step; [apply (wp_bpu_stat k l); [done|]; intros s4 Hs4|]; apply wp_ret; rewrite Eq; by apply Hfin.
  - apply wp_ret. apply HQ; try done.
    + by destruct Hh.
    + unfold directed. rewrite Ec. by split_and!.
Qed.

Lemma counting_levelStats i a b : counting (levelStats i a b).
Proof. unfold levelStats. count. Qed.

Lemma wp_predictBTB k l h lat s (Q : Hist * Cycles -> BPU -> Prop) :
  st k l s -> k + 1 < 2 ^ 64 - 1 -> bt_found (btb s) tid a0 ->
  stage h -> directed h -> indirectHistory h = None -> rasHistory h = None -> h_target h = None ->
  targetProvider h = NoTarget -> predTaken h = condPred h ->
  (forall h' lat' s', st (k + 1) l s' -> stage h' -> directed h' -> indirectHistory h' = None ->
     rasHistory h' = None -> predTaken h' = condPred h' -> Q (h', lat') s') ->
  wp (predictBTB p hooks h lat) Q s.
Proof.
  intros Hs Hk Hf Hh Hd Hi Hr Htg Hp Hdir HQ. unfold predictBTB.
  apply wp_bind. unfold stat at 1. apply wp_modify. apply wp_bind.
  assert (Hs0 := st_stat k l BP_BTBLookups s Hs). set (s0 := s <| bpstats ::= _ |>) in *.
  destruct (at_table (blockStartAddr_ s0) tid n) as [blk Hblk]; [apply Hs0|done|].
  apply wp_bind, wp_gets. rewrite (sg_tid _ Hh).
  eapply wp_at_index; [exact Hblk|]. apply wp_bind.
  apply (wp_btb k (k + 1) l); [done| |].
  { intros Hb. apply bt_lookup_ok; [done|done|pose proof (su_btb Hsu); lia|].
    by rewrite (sg_pc _ Hh). }
  intros r s1 Hs1. apply wp_bind, wp_gets. cbv zeta.
  eapply (wp_counting (k + 1) l); [count|done|]. intros s2 Hs2. apply wp_bind.
  apply (wp_mono _ (fun _ s' => st (k + 1) l s')).
  { wp_step; [|done]. eapply (wp_btb (k + 1) (k + 1) l); [done| |by intros []].
    intros Hb. by apply bt_recordBTBAccess_ok. }
  intros [] s3 Hs3. destruct (res_target r) as [tgt|]; [|apply wp_ret; apply HQ; by try done].
  eapply (wp_counting (k + 1) l); [count|done|]. intros s4 Hs4.
  eapply (wp_counting (k + 1) l); [count|done|]. intros s5 Hs5.
  eapply (wp_counting (k + 1) l); [count; apply counting_levelStats|done|]. intros s6 Hs6.
  apply wp_ret.
  assert (Hfin : forall b1 b2 b3 b4 b5 ty,
    let h' := h <| btbHit := true |> <| l1btbHit := b1 |> <| l2btbHit := b2 |> <| l3btbHit := b3 |>
                <| h_pBufferHit := b4 |> <| prefetchHit := b5 |> <| prefetchTriggerType := ty |> in
    Q ((if predTaken h' then h' <| targetProvider := ProvBTB |>
          <| h_target ::= fun t => PCS.set t (Some tgt) |> else h'), Z.max
          (if useBtbBim p then if eqb (condPred h) (res_taken r) then res_latency r
             else cp_getStaticLatency (cPred s1) else lat) (res_latency r)) s6).
  { intros b1 b2 b3 b4 b5 ty h'. subst h'. cbn [predTaken].
    destruct (predTaken h) eqn:Ep; cbn; rewrite Ep; apply HQ; try (done || cbn; congruence).
    - destruct Hh. constructor; try done. unfold provided. cbn. by rewrite Htg, Ep.
    - destruct Hh. constructor; try done. unfold provided. cbn. by rewrite Hp. }
  destruct (isMultiLevelBTB hooks); [apply Hfin|].
  specialize (Hfin (l1btbHit h) (l2btbHit h) (l3btbHit h) (h_pBufferHit h) (prefetchHit h)
    (prefetchTriggerType h)). by destruct h.
Qed.

Lemma wp_predictRAS k l pc h s (Q : Hist -> BPU -> Prop) :
  st k l s -> stage h -> directed h -> indirectHistory h = None -> rasHistory h = None ->
  predTaken h = condPred h ->
  (forall h' s', st k l s' -> stage h' -> directed h' -> indirectHistory h' = None ->
     predTaken h' = condPred h' -> Q h' s') ->
  wp (predictRAS p buildRetPC pc h) Q s.
Proof.
  intros Hs Hh Hd Hi Hr Hdir HQ. unfold predictRAS. fold (detected h).
  destruct (detected h) eqn:Edet; cbn [negb]; [|apply wp_ret; by apply HQ].
  rewrite (sg_inst _ Hh), (sg_tid _ Hh), Hr. destruct (isCall inst) eqn:Ecall.
  - apply wp_bind. apply (wp_ras k l _ (fun h' => RasSafe.hist_ok cap h' /\ h' <> None)); [done| | |].
    + intros _ r Hrok. by apply (RasSafe.safe_push cap n).
    + intros s1 Hs1 _. apply wp_ret. by apply HQ.
    + intros rh s1 Hs1 Hyes [Hrh _]. apply wp_ret. apply HQ; try done.
      destruct Hh. constructor; try done. cbn. by rewrite Ecall.
  - destruct (isReturn inst) eqn:Eret; [|apply wp_ret; by apply HQ].
    apply wp_bind.
    apply (wp_ras k l _ (fun o => RasSafe.hist_ok cap (snd o) /\ snd o <> None)); [done| | |].
    + intros _ r Hrok. by apply (RasSafe.safe_pop cap n).
    + intros s1 Hs1 _. apply wp_ret. by apply HQ.
    + intros [[ret|] rh] s1 Hs1 Hyes [Hrh _]; apply wp_ret; apply HQ; try done;
        destruct Hh; constructor; try done; cbn; try by rewrite Ecall, Eret.
      unfold provided. cbn. unfold detected in *. cbn. split_and!; try done.
      by destruct (h_target h).
Qed.

Lemma wp_predictIndirect k l h lat s (Q : Hist * Cycles -> BPU -> Prop) :
  st k l s -> stage h -> directed h -> indirectHistory h = None -> predTaken h = condPred h ->
  (forall h' lat' s', st k l s' -> stage h' -> directed h' ->
     (hasInd = false -> indirectHistory h' = None) ->
     predTaken h' = condPred h' -> Q (h', lat') s') ->
  wp (predictIndirect p h lat) Q s.
Proof.
  intros Hs Hh Hd Hi Hdir HQ. unfold predictIndirect. fold (detected h).
  apply wp_bind, wp_gets. destruct (iPred s) as [ip0|]; [|apply wp_ret; by apply HQ].
  rewrite (sg_inst _ Hh), (sg_tid _ Hh), Hi.
  destruct (predTaken h && detected h && isIndirectCtrl inst && negb (isReturn inst)) eqn:E;
    cbn [negb]; [|apply wp_ret; by apply HQ].
  apply andb_true_iff in E as [[[E1 E2]%andb_true_iff E3]%andb_true_iff E4%negb_true_iff].
  eapply (wp_counting k l); [count|done|]. intros s1 Hs1. apply wp_bind.
  apply (wp_ind k l _ (fun _ => True)); [done| | |].
  - intros _ c Hc. eapply wp_mono; [by apply ip_lookup_ok|]. by intros.
  - intros s2 Hs2 Hno. apply wp_ret. by apply HQ.
  - intros [[t|] ih] s2 Hs2 Hyes _; (eapply (wp_counting k l); [count|done|]; intros s3 Hs3);
      apply wp_ret; apply HQ; try (done || cbn; congruence); destruct Hh; constructor; try done.
    unfold provided. cbn. unfold detected in *. cbn. split_and!; try done.
    by destruct (h_target h).
Qed.

Lemma fallThrough_stage pc h :
  stage h -> directed h -> predTaken h = condPred h ->
  let h' := fallThrough advancePC pc h in
  h' = h <| h_target := h_target h' |> <| predTaken := predTaken h' |> /\
  is_Some (h_target h') /\
  if bool_decide (targetProvider h = NoTarget)
  then h_target h' = Some (advancePC inst pc) /\ predTaken h' = false
  else h_target h' = h_target h /\ predTaken h' = condPred h.
Proof.
  intros Hh Hd Hdir. unfold fallThrough.
  assert (Hpv := sg_prov _ Hh). unfold provided in Hpv.
  case_bool_decide as E.
  - rewrite E in Hpv. pose proof (sg_inst _ Hh) as Hin. clear Hh Hd. destruct h.
    unfold setf. cbn in *. subst. split_and!; eauto.
  - split; [by destruct h|]. split; [|done].
    destruct (targetProvider h); try done; by destruct Hpv as [? _].
Qed.

Lemma wp_speculativeUpdate k l h tgt s (Q : Hist -> BPU -> Prop) :
  st k l s -> h_tid h = tid -> uncond h = negb (isCondCtrl inst) -> directed h ->
  (hasInd = false -> indirectHistory h = None) ->
  (forall h1 h2 h3 s', st k l s' -> cp_live k1 h1 -> (hasOvr = true -> cp_live k2 h2) ->
     (hasInd = false -> h3 = None) ->
     Q (h <| bpHistory := h1 |> <| overridingBpHistory := h2 |> <| indirectHistory := h3 |>) s') ->
  wp (speculativeUpdate h tgt) Q s.
Proof.
  intros Hs Htid Hunc Hd Hi HQ. unfold speculativeUpdate.
  rewrite Htid, Hunc. unfold directed in Hd.
  apply wp_bind. apply (wp_cPred k l _ (cp_live k1)); [done| |].
  { intros Hc. apply cp_updateHistories_ok; [done|by rewrite (su_c1 Hsu)|].
    destruct (negb _); [apply Hd|apply Hd]. }
  intros h1 s1 Hs1 Hl1. apply wp_bind. apply (wp_ovr k l _ (cp_live k2)); [done| | |].
  { intros Ho c Hc. apply cp_updateHistories_ok; [done|by rewrite (su_c2 Hsu)|].
    destruct (negb _); [apply Hd|by apply Hd]. }
  - intros s2 Hs2 Hno. apply wp_bind. apply (wp_ind k l _ (fun _ => True)); [done| | |].
    { intros Hy c Hc. eapply wp_mono; [by apply ip_update_ok|]. by intros. }
    + intros s3 Hs3 Hni. apply wp_ret. apply HQ; try done. by rewrite Hno.
    + intros h3 s3 Hs3 Hyi _. apply wp_ret. apply HQ; try done; [by rewrite Hno|congruence].
  - intros h2 s2 Hs2 Ho Hl2. apply wp_bind. apply (wp_ind k l _ (fun _ => True)); [done| | |].
    { intros Hy c Hc. eapply wp_mono; [by apply ip_update_ok|]. by intros. }
    + intros s3 Hs3 Hni. apply wp_ret. by apply HQ.
    + intros h3 s3 Hs3 Hyi _. apply wp_ret. apply HQ; try done. congruence.
Qed.

Lemma predictDirection_btb (h : Hist) (s : BPU) r s' :
  predictDirection h s = Ok (r, s') -> btb s' = btb s.
Proof.
  unfold predictDirection, stat, when, zoom, zoomOpt, modify, mbind, M_bind, mret, M_ret.
  intros E. repeat (case_match; simplify_eq; try done).
Qed.

Lemma ras_type_of i : isCall i || isReturn i = true -> RasSafe.ras_type (getBranchType i) = true.
Proof.
  unfold getBranchType. destruct (isReturn i); [done|]. destruct (isCall i); [|done].
  by destruct (isDirectCtrl i).
Qed.

(** What a prediction says about its target. *)
Record predicted (pc : PCStateBase) (r : Prediction * PCStateBase * Hist) : Prop := {
  pd_seq : seqNum (snd r) = seq;
  pd_inst : h_inst (snd r) = inst;
  pd_taken : pred_taken (fst (fst r)) = predTaken (snd r);
  pd_target : h_target (snd r) = Some (snd (fst r));
  pd_actually : actuallyTaken (snd r) = predTaken (snd r);
  pd_prov : match targetProvider (snd r) with
    | NoTarget => snd (fst r) = advancePC inst pc /\ predTaken (snd r) = false
    | ProvBTB => predTaken (snd r) = true /\ btbHit (snd r) = true
    | ProvRAS => isReturn inst = true /\ isCall inst = false /\ detected (snd r) = true /\
                 predTaken (snd r) = condPred (snd r)
    | ProvIndirect => predTaken (snd r) = true /\ isIndirectCtrl inst = true /\
                      isReturn inst = false /\ detected (snd r) = true
    end
}.

Lemma wp_predictWithHistory k l pc s (Q : Prediction * PCStateBase * Hist -> BPU -> Prop) :
  st k l s -> k + 1 < 2 ^ 64 - 1 -> instAddr pc = a0 -> bt_found (btb s) tid a0 ->
  (forall r s', st (k + 1) l s' -> hist_ok tid (snd r) -> predicted pc r -> Q r s') ->
  wp (predictWithHistory p hooks advancePC buildRetPC inst seq pc tid) Q s.
Proof.
  intros Hs Hk Hpc Hf HQ. unfold predictWithHistory. rewrite Hpc.
  apply wp_bind, wp_modify, wp_bind, wp_modify.
  assert (Hs1 := st_stat k l BP_ppBranches _ (st_stat k l (BP_lookups tid (getBranchType inst)) s Hs)).
  assert (H0 : stage (newHistory tid seq a0 inst)).
  { by constructor. }
  apply wp_bind. set (s0 := setf bpstats _ _) in *.
  apply (wp_mono _ (fun r s' => btb s' = btb s /\ st k l s' /\ stage (fst r) /\ directed (fst r) /\
    indirectHistory (fst r) = None /\ rasHistory (fst r) = None /\ h_target (fst r) = None)).
  { assert (Hw : wp (predictDirection (newHistory tid seq a0 inst)) (fun r s' => st k l s' /\
      stage (fst r) /\ directed (fst r) /\ indirectHistory (fst r) = None /\
      rasHistory (fst r) = None /\ h_target (fst r) = None) s0).
    { apply (wp_predictDirection k l); [exact Hs1|exact H0|done..|]. intros. by split_and!. }
    destruct (wp_inv _ _ _ Hw) as (r & s1 & E & HP). eapply wp_ok; [exact E|].
    split; [|exact HP]. by apply predictDirection_btb in E. }
  intros [h1 lat1] s1 (Eb & Hst1 & Hh1 & Hd1 & Hi1 & Hr1 & Ht1). apply wp_bind. cbn [fst snd] in *.
  set (h1' := h1 <| predTaken := _ |> <| targetProvider := _ |>).
  assert (Hh1' : stage h1') by (destruct Hh1; by constructor).
  eapply (wp_predictBTB k l); [exact Hst1|done|by rewrite Eb|exact Hh1'|exact Hd1|done..|].
  clear s1 Eb Hst1 h1' Hh1'. intros h2 lat2 s2 Hs2 Hh2 Hd2 Hi2 Hr2 Hp2. apply wp_bind. cbn [fst snd].
  eapply (wp_predictRAS (k + 1) l); [done..|]. intros h3 s3 Hs3 Hh3 Hd3 Hi3 Hp3. apply wp_bind.
  eapply (wp_predictIndirect (k + 1) l); [done..|]. intros h4 lat4 s4 Hs4 Hh4 Hd4 Hi4 Hp4.
  cbn [fst snd]. destruct (fallThrough_stage pc h4 Hh4 Hd4 Hp4) as (Eh & [tgt Htgt] & Hft).
  set (h5 := fallThrough advancePC pc h4) in *.
  eapply (wp_counting (k + 1) l); [count|done|]. intros s5 Hs5.
  apply wp_bind. eapply wp_deref; [exact Htgt|]. apply wp_bind.
  assert (Epv : targetProvider h5 = targetProvider h4) by (by rewrite Eh).
  assert (Hid : h_tid h5 = tid /\ uncond h5 = negb (isCondCtrl inst) /\ directed h5 /\
    indirectHistory h5 = indirectHistory h4).
  { rewrite Eh. cbn. destruct Hh4. by split_and!. }
  destruct Hid as (Hid1 & Hid2 & Hid3 & Hid4).
  eapply (wp_speculativeUpdate (k + 1) l); [done|done|done|done|cbn; by rewrite Hid4|].
  intros x1 x2 x3 s6 Hs6 Hl1 Hl2 Hn3. apply wp_ret. apply HQ; [done| |].
  - pose proof (ras_type_of inst) as Hrt. destruct Hh4.
    constructor; cbn; try done; rewrite Eh; cbn; try done.
    + intros Hn. destruct (sg_ras0 Hn) as [? ?]. split; [done|]. rewrite sg_type0. auto.
    + by rewrite sg_type0, sg_call0, sg_inst0.
  - constructor; cbn; try done.
    + rewrite Eh. by destruct Hh4.
    + rewrite Eh. by destruct Hh4.
    + rewrite Epv. pose proof (sg_prov _ Hh4) as Hpv. unfold provided in Hpv.
      destruct (targetProvider h4) eqn:Ep; cbn in Hft |- *.
      * destruct Hft as [E1 E2]. split; [|done]. congruence.
      * destruct Hft as [_ E2], Hpv as (_ & E3 & E4). rewrite E2, <- Hp4. split; [done|].
        rewrite Eh. done.
      * destruct Hft as [_ E2], Hpv as (_ & ? & ? & E3 & _). split_and!; try done.
        -- unfold detected. rewrite Eh. exact E3.
        -- rewrite Eh at 2. exact E2.
      * destruct Hft as [_ E2], Hpv as (_ & E3 & ? & ? & E5 & _). rewrite E2, <- Hp4.
        split_and!; try done. unfold detected. rewrite Eh. exact E5.
Qed.
End Predict.

(** ** Commit *)
Section Thread.
Context (tid : ThreadID) (Ht : 0 <= tid < n).

Lemma counting_btb (m : M B unit) :
  (forall k b, bt_ok k b -> wp m (fun _ b' => bt_ok k b') b) -> counting (zoom btb m).
Proof. intros Hm k l s Q Hs HQ. apply (wp_btb k k l); [done|auto|]. intros [] s' Hs'. auto. Qed.

Lemma counting_updateBTB h : is_Some (h_target h) -> counting (updateBTB p hooks tid h).
Proof.
  intros [tgt Htgt] k l s Q Hs HQ. unfold updateBTB. apply wp_bind, wp_gets.
  destruct (_ && isReturn _); [apply wp_ret; auto|].
  destruct (_ && isIndirectCtrl _); [apply wp_ret; auto|].
  eapply (wp_counting k l); [count|done|]. intros s1 Hs1.
  apply wp_bind, wp_modify. eapply (wp_counting k l); [count|by apply st_unique|]. intros s2 Hs2.
  apply wp_bind. eapply wp_deref; [exact Htgt|].
  eapply (wp_counting k l); [|done|].
  { apply counting_btb. intros k' b Hb. by apply bt_update_ok. }
  intros s3 Hs3. eapply (wp_counting k l); [|done|].
  { apply counting_btb. intros k' b Hb. by apply bt_incorrectTarget_ok. }
  intros s4 Hs4. wp_step; [|auto]. apply wp_bind, wp_modify, wp_bind, wp_gets.
  assert (Hs5 := st_bbMap k l (<[start_address h := h_pc h]>) s4 Hs4).
  destruct hooks as [hk|] eqn:Ehk; [|apply wp_ret; auto].
  eapply counting_btb; [|exact Hs5|done]. intros k' b Hb.
  by apply (hc_setBBMap hk (su_hooks Hsu hk Ehk)).
Qed.

Lemma counting_levels h tgt : counting (commitLevelStats tid h tgt).
Proof.
  intros k l s Q Hs HQ. unfold commitLevelStats.
  eapply (wp_counting k l); [count|done|]. intros s1 Hs1.
  eapply (wp_counting k l); [count|done|]. intros s2 Hs2.
  destruct (l1btbHit h); [apply wp_ret; auto|].
  destruct (at_table (prevL2HitInfo s2) tid n) as [prev Hprev]; [apply Hs2|done|].
  apply wp_bind, wp_bind, wp_gets. eapply wp_at_index; [exact Hprev|].
  eapply (wp_counting k l); [count|done|]. intros s3 Hs3. apply wp_modify, HQ. by apply st_l2.
Qed.

Lemma counting_block h : counting (commitBlockStats tid h).
Proof.
  intros k l s Q Hs HQ. unfold commitBlockStats. apply wp_bind, wp_gets.
  destruct (at_table (prevBranchInfo s) tid n) as [prev Hprev]; [apply Hs|done|].
  apply wp_bind, wp_bind, wp_gets. eapply wp_at_index; [exact Hprev|]. case_bool_decide.
  - eapply (wp_counting k l); [destruct (classify h); count|done|]. intros s1 Hs1.
    eapply (wp_counting k l); [apply counting_when; destruct (pb_branchClass prev); count|done|].
    intros s2 Hs2. apply wp_modify, HQ. by apply st_br.
  - eapply (wp_counting k l); [count|done|]. intros s1 Hs1. wp_step; [|auto].
    apply wp_modify, HQ. by apply st_br.
Qed.

(** A committed history owns nothing any more. *)
Definition released (h : Hist) : Prop :=
  bpHistory h = None /\ indirectHistory h = None /\ rasHistory h = None.

Lemma wp_commitTrain k l h tgt s (Q : Hist -> BPU -> Prop) :
  st k l s -> hist_ok tid h ->
  (forall h1 s', st k l s' ->
     Q (h <| bpHistory := None |> <| overridingBpHistory := h1 |> <| indirectHistory := None |>
          <| rasHistory := None |>) s') ->
  wp (commitTrain tid h tgt) Q s.
Proof.
  intros Hs Hh HQ. unfold commitTrain. apply wp_bind.
  apply (wp_cPred k l _ (fun h' => h' = None)); [done| |].
  { intros Hc. apply (cp_update_ok k1 _ tid _ _ _ false); [done|by rewrite (su_c1 Hsu)|apply Hh]. }
  intros ? s1 Hs1 ->. eapply (wp_counting k l);
    [apply counting_when; unfold updateStatsOverriding; count|done|]. intros s2 Hs2.
  assert (Hras : forall o2 ih s4, st k l s4 -> default (indirectHistory h) ih = None ->
    wp (o4 ← zoomOpt ras (RAS.commit tid (mispredict h) (h_type h) (rasHistory h));
        mret (h <| bpHistory := None |> <| overridingBpHistory := default (overridingBpHistory h) o2 |>
                <| indirectHistory := default (indirectHistory h) ih |>
                <| rasHistory := default (rasHistory h) o4 |>)) Q s4).
  { intros o2 ih s4 Hs4 ->. apply wp_bind. apply (wp_ras k l _ (fun h' => h' = None)); [done| | |].
    - intros _ r Hr. apply (RasSafe.safe_commit cap n tid); [done..|]. intros Hne. by apply Hh.
    - intros s5 Hs5 Hno. apply wp_ret. cbn [default].
      replace (rasHistory h) with (@None RASHistory); [by apply HQ|].
      destruct (rasHistory h) eqn:E; [|done]. destruct (ho_ras _ _ Hh) as [E' _]; [by rewrite E|].
      congruence.
    - intros ? s5 Hs5 _ ->. apply wp_ret. by apply HQ. }
  assert (Hrest : forall o2 s3, st k l s3 ->
    wp (o3 ← zoomOpt iPred (ip_commit tid (seqNum h) (indirectHistory h));
        o4 ← zoomOpt ras (RAS.commit tid (mispredict h) (h_type h) (rasHistory h));
        mret (h <| bpHistory := None |> <| overridingBpHistory := default (overridingBpHistory h) o2 |>
                <| indirectHistory := default (indirectHistory h) o3 |>
                <| rasHistory := default (rasHistory h) o4 |>)) Q s3).
  { intros o2 s3 Hs3. apply wp_bind. apply (wp_ind k l _ (fun h' => h' = None)); [done| | |].
    - intros _ c Hc. by apply ip_commit_ok.
    - intros s4 Hs4 Hno. apply Hras; [done|]. by apply Hh.
    - intros ? s4 Hs4 _ ->. by apply Hras. }
  apply wp_bind. apply (wp_ovr k l _ (fun _ => True)); [done| | |].
  - intros Ho c Hc. eapply wp_mono;
      [apply (cp_update_ok k2 _ tid _ _ _ false); [done|by rewrite (su_c2 Hsu)|by apply Hh]|].
    by intros ? ? [? _].
  - intros s3 Hs3 _. by apply (Hrest None).
  - intros h2 s3 Hs3 _ _. by apply (Hrest (Some h2)).
Qed.

Lemma wp_commitBranch k l h s :
  st k l s -> hist_ok tid h ->
  wp (commitBranch p hooks tid h) (fun h' s' => st k l s' /\ released h') s.
Proof.
  intros Hs Hh. unfold commitBranch.
  eapply (wp_counting k l); [count|done|]. intros s1 Hs1.
  eapply (wp_counting k l); [count|done|]. intros s2 Hs2.
  destruct (ho_target _ _ Hh) as [tgt Htgt]. apply wp_bind. eapply wp_deref; [exact Htgt|].
  apply wp_bind. apply (wp_commitTrain k l); [done..|]. intros h1 s3 Hs3.
  set (h' := _ <| rasHistory := None |>).
  assert (Hrel : released h') by done.
  assert (Htgt' : is_Some (h_target h')) by (by exists tgt). clearbody h'.
  eapply (wp_counting k l); [apply counting_when; by apply counting_updateBTB|done|]. intros s4 Hs4.
  eapply (wp_counting k l); [apply counting_when, counting_btb; intros; by apply bt_updateDirection_ok|done|].
  intros s5 Hs5. eapply (wp_counting k l); [apply counting_when, counting_levels|done|]. intros s6 Hs6.
  destruct hooks as [hk|] eqn:Ehk; [|by apply wp_ret].
  pose proof (su_hooks Hsu hk Ehk) as Hhk.
  eapply (wp_counting k l); [apply counting_block|done|]. intros s7 Hs7.
  eapply (wp_counting k l); [apply counting_btb; intros; by apply (hc_trainMarkov hk Hhk)|done|].
  intros s8 Hs8.
  eapply (wp_counting k l); [apply counting_btb; intros; by apply (hc_trainBits hk Hhk)|done|].
  intros s9 Hs9. by apply wp_ret.
Qed.

Lemma wp_delete k l h s (Q : unit -> BPU -> Prop) :
  st k l s -> released h -> Q tt s -> wp (deleteHistory h) Q s.
Proof.
  intros Hs (E1 & E2 & E3) HQ. unfold deleteHistory. rewrite E1, E2, E3.
  apply wp_bind, wp_massert; [done|]. apply wp_bind, wp_massert; [done|]. by apply wp_massert.
Qed.

(** ** The history queue of a thread *)
Lemma wp_histories k l x s (Q : list Hist -> BPU -> Prop) :
  st k l s -> l !! Z.to_nat tid = Some x -> Q x s -> wp (histories tid) Q s.
Proof.
  intros [_ E] Hx HQ. unfold histories. apply wp_bind, wp_gets. eapply wp_at_index; [|done].
  by rewrite E.
Qed.

Lemma wp_setHistories k l x s (Q : unit -> BPU -> Prop) :
  st k l s -> (forall s', st k (<[Z.to_nat tid := x]> l) s' -> Q tt s') -> wp (setHistories tid x) Q s.
Proof.
  intros [[] <-] HQ. unfold setHistories. apply wp_modify, HQ. split; [by constructor|done].
Qed.

Lemma ordered_tail (h : Hist) l : ordered (h :: l) -> ordered l.
Proof. by intros [? _]%StronglySorted_inv. Qed.
Lemma ordered_head (h : Hist) l x : ordered (h :: l) -> x ∈ l -> seqNum x < seqNum h.
Proof. intros [_ Hf]%StronglySorted_inv. rewrite list.Forall_forall in Hf. auto. Qed.
Lemma ordered_snoc (h : Hist) l x : ordered (l ++ [h]) -> x ∈ l -> seqNum h < seqNum x.
Proof.
  induction l as [|y l IH]; [by intros _ ?%not_elem_of_nil|]. cbn. intros Ho [->|Hx]%elem_of_cons.
  - apply (ordered_head _ _ _ Ho). apply elem_of_app. right. by apply list_elem_of_singleton.
  - apply IH; [by apply ordered_tail in Ho|done].
Qed.
Lemma ordered_init (h : Hist) l : ordered (l ++ [h]) -> ordered l.
Proof.
  induction l as [|y l IH]; cbn; [constructor|]. intros Ho.
  assert (Hy := fun x => ordered_head _ _ x Ho). apply ordered_tail in Ho. constructor; [by apply IH|].
  apply list.Forall_forall. intros x Hx. apply Hy. apply elem_of_app. by left.
Qed.
Lemma ordered_filter (P : Hist -> Prop) `{!forall h, Decision (P h)} l :
  ordered l -> ordered (filter P l).
Proof.
  induction l as [|h l IH]; [done|]. intros Ho. assert (Hh := fun x => ordered_head _ _ x Ho).
  apply ordered_tail in Ho. rewrite filter_cons. case_decide; [|auto].
  constructor; [by apply IH|]. apply list.Forall_forall. intros x [_ Hx]%list_elem_of_filter. auto.
Qed.

(** *** squash *)
Definition older (sn : Z) (l : list Hist) : list Hist := filter (fun h => seqNum h <= sn) l.
Definition younger (sn : Z) (l : list Hist) : list Hist := filter (fun h => sn < seqNum h) l.

Lemma wp_squashHistory k l h s (Q : unit -> BPU -> Prop) :
  st k l s -> hist_ok tid h -> (forall s', st k l s' -> Q tt s') -> wp (squashHistory tid h) Q s.
Proof.
  intros Hs Hh HQ. unfold squashHistory.
  eapply (wp_counting k l); [count|done|]. intros s1 Hs1. apply wp_bind.
  apply (wp_mono _ (fun r s' => st k l s' /\ r = None)).
  { destruct (rasHistory h) as [rh|] eqn:Er; cbn [isNull]; [|by apply wp_ret].
    destruct (ho_ras _ _ Hh) as [Hr _]; [by rewrite Er|].
    apply wp_bind. apply (wp_ras k l _ (fun h' => h' = None)); [done| |congruence|].
    - intros _ r Hok. apply RasSafe.safe_squash; [done..|]. rewrite <- Er. apply Hh.
    - intros ? s2 Hs2 _ ->. by apply wp_ret. }
  intros ? s2 [Hs2 ->].
  assert (Hrest : forall ih s3, st k l s3 -> default (indirectHistory h) ih = None ->
    wp (h1 ← zoom cPred (cp_squash tid (bpHistory h));
        o3 ← zoomOpt overridingCPred (cp_squash tid (overridingBpHistory h));
        match o3 with Some h => massert (isNull h) | None => mret tt end ;;
        deleteHistory (h <| rasHistory := None |> <| bpHistory := h1 |>
                         <| indirectHistory := default (indirectHistory h) ih |>)) Q s3).
  { intros ih s3 Hs3 ->. apply wp_bind. apply (wp_cPred k l _ (fun h' => h' = None)); [done| |].
    { intros Hc. apply cp_squash_ok; [done|by rewrite (su_c1 Hsu)|apply Hh]. }
    intros ? s4 Hs4 ->. apply wp_bind. apply (wp_ovr k l _ (fun h' => h' = None)); [done| | |].
    - intros Ho c Hc. apply cp_squash_ok; [done|by rewrite (su_c2 Hsu)|by apply Hh].
    - intros s5 Hs5 _. apply wp_bind, wp_ret. apply (wp_delete k l); [done| |auto]. by split_and!.
    - intros ? s5 Hs5 _ ->. apply wp_bind, wp_massert; [done|]. apply (wp_delete k l); [done| |auto].
      by split_and!. }
  apply wp_bind. apply (wp_ind k l _ (fun h' => h' = None)); [done| | |].
  - intros _ c Hc. by apply ip_squash_ok.
  - intros s3 Hs3 Hno. apply Hrest; [done|]. by apply Hh.
  - intros ? s3 Hs3 _ ->. by apply Hrest.
Qed.

Lemma older_all sn (h : Hist) l : ordered (h :: l) -> seqNum h <= sn -> older sn (h :: l) = h :: l.
Proof.
  intros Ho Hh. unfold older. apply list_filter_all. apply list.Forall_forall.
  intros x [->|Hx]%elem_of_cons; [done|]. pose proof (ordered_head _ _ _ Ho Hx). lia.
Qed.

Lemma wp_bpu_squashLoop sn m : forall k l hs s (Q : unit -> BPU -> Prop),
  (length hs <= m)%nat -> st k l s -> l !! Z.to_nat tid = Some hs ->
  Forall (hist_ok tid) hs -> ordered hs ->
  (forall s', st k (<[Z.to_nat tid := older sn hs]> l) s' -> Q tt s') ->
  wp (squashLoop m sn tid) Q s.
Proof.
  induction m as [|m IH]; intros k l hs s Q Hm Hs Hl Hhs Ho HQ; cbn [squashLoop].
  { destruct hs; [|cbn in Hm; lia]. apply wp_ret, HQ. by rewrite list_insert_id. }
  apply wp_bind. eapply wp_histories; [done..|]. destruct hs as [|h hs].
  { apply wp_ret, HQ. by rewrite list_insert_id. }
  apply list.Forall_cons in Hhs as [Hh Hhs]. destruct (Z.ltb_spec sn (seqNum h)).
  - apply wp_bind, (wp_squashHistory k l); [done..|]. intros s1 Hs1.
    apply wp_bind. eapply wp_histories; [done..|]. apply wp_bind, (wp_setHistories k l); [done|].
    intros s2 Hs2. cbn [tail] in Hs2. eapply IH; [|exact Hs2| |done|by eapply ordered_tail|].
    + cbn in Hm. lia.
    + rewrite list_lookup_insert_eq; [done|]. by eapply lookup_lt_Some.
    + intros s3. rewrite list_insert_insert_eq. intros Hs3. apply HQ.
      unfold older. rewrite filter_cons_False by lia. done.
  - apply wp_ret, HQ. rewrite older_all by (done || lia). by rewrite list_insert_id.
Qed.

Lemma wp_bpu_squash sn k l hs s (Q : unit -> BPU -> Prop) :
  st k l s -> l !! Z.to_nat tid = Some hs -> Forall (hist_ok tid) hs -> ordered hs ->
  (forall s', st k (<[Z.to_nat tid := older sn hs]> l) s' -> Q tt s') ->
  wp (squash sn tid) Q s.
Proof.
  intros Hs Hl Hhs Ho HQ. unfold squash. apply wp_bind. eapply wp_histories; [done..|].
  by eapply wp_bpu_squashLoop.
Qed.

(** *** update *)
Lemma wp_updateLoop sn m : forall k l hs s (Q : unit -> BPU -> Prop),
  (length hs <= m)%nat -> st k l s -> l !! Z.to_nat tid = Some hs ->
  Forall (hist_ok tid) hs -> ordered hs ->
  (forall s', st k (<[Z.to_nat tid := younger sn hs]> l) s' -> Q tt s') ->
  wp (updateLoop p hooks m sn tid) Q s.
Proof.
  induction m as [|m IH]; intros k l hs s Q Hm Hs Hl Hhs Ho HQ; cbn [updateLoop].
  { destruct hs; [|cbn in Hm; lia]. apply wp_ret, HQ. by rewrite list_insert_id. }
  apply wp_bind. eapply wp_histories; [done..|].
  destruct hs as [|h hs' _] using rev_ind; [apply wp_ret, HQ; by rewrite list_insert_id|].
  rewrite last_snoc. apply Forall_app in Hhs as [Hhs [Hh _]%list.Forall_cons].
  destruct (Z.leb_spec (seqNum h) sn).
  - apply wp_bind. eapply wp_mono; [by apply (wp_commitBranch k l)|]. intros h' s1 [Hs1 Hrel].
    apply wp_bind, (wp_delete k l); [done..|]. apply wp_bind. eapply wp_histories; [done..|].
    apply wp_bind, (wp_setHistories k l); [done|]. intros s2.
    rewrite length_app, Nat.add_sub, take_app_length. intros Hs2.
    eapply IH; [|exact Hs2| |done|by eapply ordered_init|].
    + rewrite length_app in Hm. cbn in Hm. lia.
    + rewrite list_lookup_insert_eq; [done|]. by eapply lookup_lt_Some.
    + intros s3. rewrite list_insert_insert_eq. intros Hs3. apply HQ.
      unfold younger. rewrite list.filter_app, (filter_cons_False _ h) by lia. by rewrite app_nil_r.
  - apply wp_ret, HQ. unfold younger. rewrite list_filter_all; [by rewrite list_insert_id|].
    apply list.Forall_forall. intros x [Hx|Hx%list_elem_of_singleton]%elem_of_app; [|subst; lia].
    pose proof (ordered_snoc _ _ _ Ho Hx). lia.
Qed.

Lemma wp_bpu_update sn k l hs s (Q : unit -> BPU -> Prop) :
  st k l s -> l !! Z.to_nat tid = Some hs -> Forall (hist_ok tid) hs -> ordered hs ->
  (forall s', st k (<[Z.to_nat tid := younger sn hs]> l) s' -> Q tt s') ->
  wp (update p hooks sn tid) Q s.
Proof.
  intros Hs Hl Hhs Ho HQ. unfold update. apply wp_bind. eapply wp_histories; [done..|].
  by eapply wp_updateLoop.
Qed.

(** *** squash with the outcome *)
Lemma wp_correctRAS k l tgt taken h s (Q : Hist -> BPU -> Prop) :
  st k l s -> hist_ok tid h ->
  (forall r s', st k l s' -> hist_ok tid (h <| rasHistory := r |>) ->
     Q (h <| rasHistory := r |>) s') ->
  wp (correctRAS buildRetPC tid tgt taken h) Q s.
Proof.
  intros Hs Hh HQ. unfold correctRAS.
  assert (Hsame : forall s', st k l s' -> Q h s').
  { intros s' Hs'. replace h with (h <| rasHistory := rasHistory h |>) by (by destruct h).
    apply HQ; [done|]. by destruct h. }
  assert (Hset : forall r, (r <> None -> hasRas = true /\ RasSafe.ras_type (h_type h) = true) ->
    RasSafe.hist_ok cap r -> hist_ok tid (h <| rasHistory := r |>)).
  { intros r H1 H2. destruct Hh. by constructor. }
  apply wp_bind, wp_gets. destruct (isNull (ras s)); [by apply wp_ret, Hsame|].
  destruct (taken && isNull (rasHistory h)) eqn:E1.
  - apply andb_true_iff in E1 as [_ E1]. destruct (rasHistory h) eqn:Er; [done|]. apply wp_bind.
    apply (wp_mono _ (fun (h' : Hist) s' => st k l s' /\ exists r, h' = h <| rasHistory := r |> /\
      hist_ok tid (h <| rasHistory := r |>))).
    { case_bool_decide as Ety.
      - apply wp_bind. apply (wp_ras k l _ (fun o => RasSafe.hist_ok cap (snd o))); [done| | |].
        + intros _ r Hr. eapply wp_mono; [apply (RasSafe.safe_pop cap n tid Ht); [done|]|].
          * by intros ?.
          * intros [x o] r' (? & ? & ?). by split.
        + intros s1 Hs1 _. apply wp_ret. split; [done|]. exists None. split.
          * destruct h. cbn in Er. by rewrite Er.
          * apply Hset; [done|]. by intros ?.
        + intros [x o] s1 Hs1 Hy Ho. apply wp_ret. split; [done|]. exists o. split; [done|].
          apply Hset; [|done]. intros _. by rewrite Ety.
      - apply wp_ret. split; [done|]. exists None. split.
        + destruct h. cbn in Er. by rewrite Er.
        + apply Hset; [done|]. by intros ?. }
    intros h' s1 (Hs1 & r & -> & Hr). change (h_call (h <| rasHistory := r |>)) with (h_call h).
    destruct (h_call h) eqn:Ecall; [|apply wp_ret; by apply HQ].
    apply wp_bind. apply (wp_ras k l _ (RasSafe.hist_ok cap)); [done| | |].
    + intros _ r0 Hr0. eapply wp_mono; [apply (RasSafe.safe_push cap n tid Ht); [done|apply Hr]|].
      by intros ? ? (? & ? & _).
    + intros s2 Hs2 _. apply wp_ret. by apply HQ.
    + intros r' s2 Hs2 Hy Hr'. apply wp_ret. refine (HQ r' _ Hs2 _). apply Hset; [|done]. intros _.
      split; [done|]. destruct (ho_type _ _ Hh) as [-> Hc]. apply ras_type_of. by rewrite <- Hc, Ecall.
  - destruct (negb taken && negb (isNull (rasHistory h))); [|by apply wp_ret, Hsame].
    apply wp_bind. apply (wp_ras k l _ (fun h' => h' = None)); [done| | |].
    + intros _ r Hr. apply RasSafe.safe_squash; [done..|apply Hh].
    + intros s1 Hs1 _. by apply wp_ret, Hsame.
    + intros ? s1 Hs1 _ ->. apply wp_ret. apply HQ; [done|]. apply Hset; [done|]. by intros ?.
Qed.

(** The outcome is recorded in the history of the mispredicted branch. *)
Definition corrected (tgt : PCStateBase) (taken : bool) (h h' : Hist) : Prop :=
  seqNum h' = seqNum h /\ h_pc h' = h_pc h /\ h_inst h' = h_inst h /\ mispredict h' = true /\
  actuallyTaken h' = taken /\ option_map instAddr (h_target h') = Some (instAddr tgt).

Definition headCorrected (tgt : PCStateBase) (taken : bool) (l l' : list Hist) : Prop :=
  match l with
  | [] => l' = []
  | h :: rest => exists h', l' = h' :: rest /\ hist_ok tid h' /\ corrected tgt taken h h'
  end.

Lemma wp_squashCorrect sn tgt taken fc k l hs s (Q : unit -> BPU -> Prop) :
  st k l s -> l !! Z.to_nat tid = Some hs -> Forall (hist_ok tid) hs -> ordered hs ->
  (forall hs' s', headCorrected tgt taken (older sn hs) hs' ->
     st k (<[Z.to_nat tid := hs']> l) s' -> Q tt s') ->
  wp (squashCorrect p hooks buildRetPC sn tgt taken tid fc) Q s.
Proof.
  intros Hs Hl Hhs Ho HQ. unfold squashCorrect. apply wp_bind. eapply wp_bpu_squash; [done..|].
  intros s1 Hs1. apply wp_bind.
  assert (Hl1 : <[Z.to_nat tid := older sn hs]> l !! Z.to_nat tid = Some (older sn hs)).
  { apply list_lookup_insert_eq. by eapply lookup_lt_Some. }
  eapply wp_histories; [done..|]. set (l1 := <[_ := _]> l) in *.
  assert (Hf : Forall (hist_ok tid) (older sn hs)) by (by apply filter_ok).
  destruct (older sn hs) as [|h rest] eqn:Eo; [apply wp_ret; by apply (HQ [])|].
  apply list.Forall_cons in Hf as [Hh _].
  eapply (wp_counting k l1); [count|done|]. intros s2 Hs2.
  eapply (wp_counting k l1); [count|done|]. intros s3 Hs3.
  eapply (wp_counting k l1); [count|done|]. intros s4 Hs4.
  set (h0 := _ <| h_target ::= _ |>).
  assert (Hc0 : hist_ok tid h0 /\ corrected tgt taken h h0).
  { destruct Hh as [? ? ? ? ? ? [t Htg] ?]. unfold corrected, h0. cbn. rewrite Htg.
    split; [|done]. constructor; try done. cbn. rewrite Htg. by eexists. }
  clearbody h0. destruct Hc0 as [Hh0 Hc0]. apply wp_bind.
  apply (wp_cPred k l1 _ (cp_live k1)); [done| |].
  { intros Hc. apply (cp_update_ok k1 _ tid _ _ _ true); [done|by rewrite (su_c1 Hsu)|apply Hh0]. }
  intros b1 s5 Hs5 Hb1. apply wp_bind.
  apply (wp_mono _ (fun o s' => st k l1 s' /\
    (hasOvr = true -> cp_live k2 (default (overridingBpHistory h0) o)))).
  { apply (wp_ovr k l1 _ (cp_live k2)); [done| | |].
    - intros Hy c Hc. apply (cp_update_ok k2 _ tid _ _ _ true); [done|by rewrite (su_c2 Hsu)|by apply Hh0].
    - intros s6 Hs6 Hno. split; [done|]. by rewrite Hno.
    - intros b2 s6 Hs6 Hy Hb2. by split. }
  intros o2 s6 [Hs6 Ho2]. apply wp_bind.
  apply (wp_mono _ (fun o s' => st k l1 s' /\
    (hasInd = false -> default (indirectHistory h0) o = None))).
  { apply (wp_ind k l1 _ (fun _ => True)); [done| | |].
    - intros _ c Hc. eapply wp_mono; [by apply ip_update_ok|]. by intros.
    - intros s7 Hs7 Hno. split; [done|]. intros _. by apply Hh0.
    - intros h3 s7 Hs7 Hy _. split; [done|]. congruence. }
  intros o3 s7 [Hs7 Ho3]. cbn [overridingBpHistory indirectHistory]. apply wp_bind.
  set (h1 := _ <| indirectHistory := _ |>).
  assert (Hh1 : hist_ok tid h1 /\ corrected tgt taken h h1) by (split; [destruct Hh0; by constructor|done]).
  clearbody h1. destruct Hh1 as [Hh1 Hc1].
  apply (wp_correctRAS k l1); [done..|]. intros r s8 Hs8 Hh2. apply wp_bind.
  apply (wp_setHistories k l1); [done|]. intros s9. unfold l1. rewrite list_insert_insert_eq. intros Hs9.
  assert (Hfin : forall s', st k (<[Z.to_nat tid := h1 <| rasHistory := r |> :: rest]> l) s' -> Q tt s').
  { intros s' Hs'. eapply HQ; [|exact Hs']. cbn. by eexists. }
  eapply counting_when; [apply counting_updateBTB; apply Hh2|exact Hs9|exact Hfin].
Qed.
End Thread.
End Inv.
