(* ===== verification/BPredUnitSpec.v ===== *)
(** * Properties of the branch prediction unit

    The theorems are stated for any BTB, direction predictor, overriding
    predictor and indirect predictor that keep their contracts; the multi-level
    BTB discharges the BTB contract here, and the witnesses run the unit with
    the BTB-Ferret BTB, the tournament predictor, a local predictor that
    overrides it, the indirect predictor and the return address stack. *)

From Stdlib Require Import ZArith Lia Sorted.
From stdpp Require Import base list gmap numbers.
From S2P Require Import Prelude Types BtbEntry Btb MultiLevelBtb MultiLevelWp MultiLevelHit MultiLevelInv MultiLevelOps MultiLevelSafe MultiLevelSpec Ras CondPred Tournament Indirect BPredUnit BPredUnitInv.

(** ** The multi-level BTB keeps the contract of a BTB *)
Section Ferret.
Context (mp : MLParams) (Hcfg : ferretConfig mp) (nthreads : nat).

Definition ferretHooks : MLHooks MLBTB :=
  mkHooks MLBTB ML.setBBMap (ML.trainMarkovOnCommit mp) (ML.trainPrefetchBitsOnCommit mp).

Definition MultiLevelBTB_contract : @BtbContract MLBTB (MultiLevelBTB_btb mp).
Proof.
  refine (@Build_BtbContract _ (MultiLevelBTB_btb mp) (fun k s => inv mp nthreads k s)
    (Z.of_nat nthreads) (fun s tid pc => resMap fst (ML.valid mp tid pc s) = Ok true) _ _ _ _ _ _).
  - intros k k' b H Hk. by eapply inv_mono.
  - intros k b tid pc ty taken start base Hi Hk Ht Hv.
    assert (Hw : wp (exec mp (OpLookup tid pc ty taken start base)) (fun _ => inv mp nthreads (k + 1)) b).
    { apply wp_exec; [done..|]. split; [lia|done]. }
    cbn [exec] in Hw. unfold ignore, wp, mbind, M_bind, mret, M_ret in Hw. unfold wp. cbn.
    by destruct (ML.lookupWithLatency _ _ _ _ _ _ _ b) as [[r b']|].
  - intros k b tid pc tgt ty i Hi. eapply wp_mono; [by apply (wp_update_inv mp nthreads k)|].
    by intros ? ? [? _].
  - intros k b pc ty Hi. apply wp_neutral; [done|]. intros st Hb. by apply inv_stats.
  - intros k b tid pc taken Hi. by apply (wp_modifyL1 mp nthreads k).
  - intros k b level reason Hi. apply wp_recordBTBAccess. intros st Hb. by apply inv_stats.
Defined.

Lemma ferretHooks_ok : @hooksContract _ _ MultiLevelBTB_contract ferretHooks.
Proof.
  constructor; cbn.
  - intros k b m Hi. apply wp_modify. destruct Hi as [[] ? ? ? ? ? ? ? ? ? ?]. constructor; try done. by right.
  - intros k b tid pc l2 Hi. unfold ML.trainMarkovOnCommit. rewrite (fc_markov _ Hcfg). by apply wp_ret.
  - intros k b tid pc taken ty Hi. unfold ML.trainPrefetchBitsOnCommit. wp_step; [by apply wp_ret|].
    apply (wp_modifyL1 mp nthreads k); [done|]. intros e. by destruct (cleanBitsOnL1Promotion mp), taken.
Qed.
End Ferret.

(** ** Operations of the unit *)
Inductive BpuOp (B : Type) :=
| BpPredict (i : StaticInst) (seq : Z) (pc : PCStateBase) (tid : ThreadID)
| BpUpdate (done_sn : Z) (tid : ThreadID)
| BpSquash (squashed_sn : Z) (tid : ThreadID)
| BpSquashCorrect (squashed_sn : Z) (corr_target : PCStateBase) (actually_taken : bool)
    (tid : ThreadID) (from_commit : bool)
| BpBtb (m : M B unit).
Arguments BpPredict {B}. Arguments BpUpdate {B}. Arguments BpSquash {B}.
Arguments BpSquashCorrect {B}. Arguments BpBtb {B}.

Section Spec.
Context {B C HC K1 C2 HC2 K2 I HI : Type}.
Context `{BB : BtbContract B} `{CC : ConditionalContract C HC K1}
  `{CC2 : ConditionalContract C2 HC2 K2} `{II : IndirectContract I HI}.
Context (p : BPUParams) (hooks : option (MLHooks B)).
Context (advancePC : StaticInst -> PCStateBase -> PCStateBase)
  (buildRetPC : StaticInst -> PCStateBase -> PCStateBase -> PCStateBase).
Context (n cap : Z) (k1 : K1) (k2 : K2) (hasRas hasOvr hasInd : bool).

Abbreviation BPU := (@BPU B C HC C2 HC2 I HI).
Abbreviation Hist := (@PredictorHistory HC HC2 HI).
Abbreviation Inv := (bpu_inv n cap k1 k2 hasRas hasOvr hasInd).
Abbreviation HistOk := (hist_ok cap k1 k2 hasRas hasOvr hasInd).

Definition bpu_exec (o : BpuOp B) : M BPU unit :=
  match o with
  | BpPredict i seq pc tid => predict p hooks advancePC buildRetPC i seq pc tid ≫= fun _ => mret tt
  | BpUpdate sn tid => update p hooks sn tid
  | BpSquash sn tid => squash sn tid
  | BpSquashCorrect sn t taken tid fc => squashCorrect p hooks buildRetPC sn t taken tid fc
  | BpBtb m => zoom BPredUnit.btb m
  end.

(** The branches of [tid] in flight are all older than [seq]. *)
Definition fresh (s : BPU) (tid : ThreadID) (seq : Z) : Prop :=
  forall l h, predHist s !! Z.to_nat tid = Some l -> h ∈ l -> seqNum h < seq.

(** The callers predict the branches of a thread in program order, on a branch
    that the BTB holds; [BpBtb] is anything else that happens to the BTB and
    keeps its contract: the end of a cycle, a query, an invalidation. *)
Definition bpu_enabled (s : BPU) (o : BpuOp B) : Prop :=
  match o with
  | BpPredict i seq pc tid =>
      0 <= tid < n /\ bt_found (BPredUnit.btb s) tid (instAddr pc) /\ fresh s tid seq
  | BpUpdate _ tid | BpSquash _ tid | BpSquashCorrect _ _ _ tid _ => 0 <= tid < n
  | BpBtb m => forall k b, bt_ok k b -> wp m (fun _ b' => bt_ok k b') b
  end.

(** A unit that the constructor makes of parts that are in order. *)
Definition built (s : BPU) : Prop :=
  exists b rs c c2 i,
    bt_ok 0 b /\ cp_ok k1 c /\
    match rs with Some r => hasRas = true /\ RasSafe.ok cap n r | None => hasRas = false end /\
    match c2 with Some c => hasOvr = true /\ cp_ok k2 c | None => hasOvr = false end /\
    match i with Some i => hasInd = true /\ ip_ok n i | None => hasInd = false end /\
    make hooks (Z.to_nat n) b rs c c2 i = Ok s.

(** The states reachable from construction in a number of operations. *)
Inductive bpu_reach : nat -> BPU -> Prop :=
| bpu_reach_0 s : built s -> bpu_reach 0 s
| bpu_reach_step m o s s' :
    bpu_reach m s -> bpu_enabled s o -> bpu_exec o s = Ok (tt, s') -> bpu_reach (S m) s'.

(** ** The invariant, operation by operation *)
Lemma inv_st k s : Inv k s -> st n cap k1 k2 hasRas hasOvr hasInd k (predHist s) s.
Proof. intros []. by split. Qed.

Lemma inv_thread k s tid :
  Inv k s -> 0 <= tid < n ->
  exists l, predHist s !! Z.to_nat tid = Some l /\ Forall (HistOk tid) l /\ ordered l.
Proof.
  intros [_ Hl Hh] Ht. destruct (at_table (predHist s) tid n) as [l El]; [done..|]. exists l.
  specialize (Hh _ _ El). rewrite Z2Nat.id in Hh by lia. tauto.
Qed.

Lemma st_inv k s s' tid l :
  Inv k s -> 0 <= tid < n ->
  (forall k', k <= k' -> st n cap k1 k2 hasRas hasOvr hasInd k' (<[Z.to_nat tid := l]> (predHist s)) s' ->
     Forall (HistOk tid) l -> ordered l -> Inv k' s').
Proof.
  intros [_ Hl Hh] Ht k' Hk [Hp E] Hf Ho. constructor; [done|by rewrite E, length_insert|].
  rewrite E. intros t l' [(<- & <- & _)|[_ Hl']]%list_lookup_insert_Some; [|by apply Hh].
  by rewrite Z2Nat.id by lia.
Qed.

Lemma insert_thread (ls : list (list Hist)) i (l : list Hist) (f : list Hist -> list Hist) t l' :
  ls !! i = Some l -> ls !! t = Some l' ->
  <[i := f l]> ls !! t = Some (if bool_decide (t = i) then f l' else l').
Proof.
  intros Hi Ht. case_bool_decide as E.
  - subst. assert (l' = l) as -> by congruence. apply list_lookup_insert_eq. by eapply lookup_lt_Some.
  - by rewrite list_lookup_insert_ne.
Qed.

Lemma corrected_ordered (h h' : Hist) l : seqNum h' = seqNum h -> ordered (h :: l) -> ordered (h' :: l).
Proof.
  intros E [Ho Hf]%StronglySorted_inv. constructor; [done|].
  eapply list.Forall_impl; [exact Hf|]. intros x. by rewrite E.
Qed.

Context (Hsu : setup hooks n k1 k2).

Lemma wp_predict k s i seq pc tid :
  Inv k s -> k + 1 < 2 ^ 64 - 1 -> 0 <= tid < n -> bt_found (BPredUnit.btb s) tid (instAddr pc) ->
  fresh s tid seq ->
  wp (predict p hooks advancePC buildRetPC i seq pc tid)
     (fun r s' => Inv (k + 1) s' /\ exists h l, predHist s !! Z.to_nat tid = Some l /\
        predHist s' = <[Z.to_nat tid := h :: l]> (predHist s) /\
        predicted p advancePC i seq pc (r, h)) s.
Proof.
  intros Hi Hk Ht Hf Hfr. destruct (inv_thread k s tid Hi Ht) as (l & El & Hl & Ho).
  unfold predict. apply wp_bind.
  eapply (wp_predictWithHistory p hooks advancePC buildRetPC n cap k1 k2 hasRas hasOvr hasInd Hsu
    i seq tid (instAddr pc) Ht k (predHist s)); [by apply inv_st|done..|].
  intros [r h] s1 Hs1 Hh Hp. apply wp_bind. unfold insertPredictorHistory. apply wp_bind.
  eapply wp_histories; [done..|]. eapply wp_setHistories; [done|]. intros s2 Hs2. apply wp_ret.
  split; [|exists h, l; split_and!; [done|apply Hs2|done]].
  eapply (st_inv k s); [done|done| |done| |].
  - lia.
  - by constructor.
  - constructor; [done|]. apply list.Forall_forall. intros x Hx.
    pose proof (pd_seq _ _ _ _ _ _ Hp) as Eq. cbn in Eq |- *. rewrite Eq. by apply (Hfr l).
Qed.

Lemma wp_update_exact k s sn tid :
  Inv k s -> 0 <= tid < n ->
  wp (update p hooks sn tid) (fun _ s' => Inv k s' /\ exists l, predHist s !! Z.to_nat tid = Some l /\
    predHist s' = <[Z.to_nat tid := younger sn l]> (predHist s)) s.
Proof.
  intros Hi Ht. destruct (inv_thread k s tid Hi Ht) as (l & El & Hl & Ho).
  eapply (wp_bpu_update p hooks n cap k1 k2 hasRas hasOvr hasInd Hsu tid Ht sn k (predHist s) l);
    [by apply inv_st|done..|].
  intros s' Hs'. split; [|exists l; split; [done|apply Hs']].
  eapply (st_inv k s); [done|done|lia|exact Hs'|by apply filter_ok|by apply ordered_filter].
Qed.

Lemma wp_squash_exact k s sn tid :
  Inv k s -> 0 <= tid < n ->
  wp (squash sn tid) (fun _ s' => Inv k s' /\ exists l, predHist s !! Z.to_nat tid = Some l /\
    predHist s' = <[Z.to_nat tid := older sn l]> (predHist s)) s.
Proof.
  intros Hi Ht. destruct (inv_thread k s tid Hi Ht) as (l & El & Hl & Ho).
  eapply (wp_bpu_squash hooks n cap k1 k2 hasRas hasOvr hasInd Hsu tid Ht sn k (predHist s) l);
    [by apply inv_st|done..|].
  intros s' Hs'. split; [|exists l; split; [done|apply Hs']].
  eapply (st_inv k s); [done|done|lia|exact Hs'|by apply filter_ok|by apply ordered_filter].
Qed.

Lemma wp_squashCorrect_exact k s sn tgt taken tid fc :
  Inv k s -> 0 <= tid < n ->
  wp (squashCorrect p hooks buildRetPC sn tgt taken tid fc) (fun _ s' => Inv k s' /\
    exists l l', predHist s !! Z.to_nat tid = Some l /\
      predHist s' = <[Z.to_nat tid := l']> (predHist s) /\
      match older sn l with
      | [] => l' = []
      | h :: rest => exists h', l' = h' :: rest /\ corrected tgt taken h h'
      end) s.
Proof.
  intros Hi Ht. destruct (inv_thread k s tid Hi Ht) as (l & El & Hl & Ho).
  eapply (wp_squashCorrect p hooks buildRetPC n cap k1 k2 hasRas hasOvr hasInd Hsu tid Ht sn tgt
    taken fc k (predHist s) l); [by apply inv_st|done..|].
  intros l' s' Hhc Hs'. assert (Hfo : Forall (HistOk tid) (older sn l)) by (by apply filter_ok).
  assert (Hoo : ordered (older sn l)) by (by apply ordered_filter).
  unfold headCorrected in Hhc. destruct (older sn l) as [|h rest] eqn:Eo.
  - subst. split; [|exists l, []; rewrite Eo; split_and!; [done|apply Hs'|done]].
    eapply (st_inv k s); [done|done|lia|exact Hs'|done|done].
  - destruct Hhc as (h' & -> & Hh' & Hc).
    split; [|exists l, (h' :: rest); rewrite Eo; split_and!; [done|apply Hs'|by exists h']].
    apply list.Forall_cons in Hfo as [_ Hrest].
    eapply (st_inv k s); [done|done|lia|exact Hs'|by constructor|].
    eapply corrected_ordered; [apply Hc|done].
Qed.

Lemma wp_bpu_exec k s o :
  Inv k s -> k + 1 < 2 ^ 64 - 1 -> bpu_enabled s o -> wp (bpu_exec o) (fun _ => Inv (k + 1)) s.
Proof.
  intros Hi Hk Hen.
  assert (Hm : forall s', Inv k s' -> Inv (k + 1) s').
  { intros s' [[] ? ?]. constructor; try done. constructor; try done. eapply bt_mono; [done|lia]. }
  destruct o as [i seq pc tid|sn tid|sn tid|sn t taken tid fc|m]; cbn [bpu_exec bpu_enabled] in *.
  - destruct Hen as (? & ? & ?). apply wp_bind. eapply wp_mono; [by apply (wp_predict k)|].
    intros r s' [? _]. by apply wp_ret.
  - eapply wp_mono; [by apply (wp_update_exact k)|]. intros [] s' [? _]. auto.
  - eapply wp_mono; [by apply (wp_squash_exact k)|]. intros [] s' [? _]. auto.
  - eapply wp_mono; [by apply (wp_squashCorrect_exact k)|]. intros [] s' [? _]. auto.
  - apply wp_zoom. destruct Hi as [[] ? ?]. eapply wp_mono; [by apply (Hen k)|].
    intros [] b' Hb'. apply Hm. by constructor; [constructor|..].
Qed.

Lemma built_inv s : built s -> Inv 0 s.
Proof.
  intros (b & rs & c & c2 & i & Hb & Hc & Hr & Hc2 & Hi & Hm).
  assert (H0 : Inv 0 (mkBPU (replicate (Z.to_nat n) 0) ∅
    (replicate (Z.to_nat n) (mkPrevL2 0 0 0 false))
    (replicate (Z.to_nat n) (mkPrevBranch 0 false Unknown)) (replicate (Z.to_nat n) [])
    b rs c c2 i ∅ [])).
  { constructor; [constructor| |]; cbn; try done; rewrite ?length_replicate; try done.
    1, 3, 5: by destruct rs, c2, i; destruct_and?; subst.
    1-3: intros ? ->; by destruct_and!.
    intros t l [-> _]%lookup_replicate. split; constructor. }
  unfold make in Hm. destruct hooks as [hk|] eqn:Ehk; [|by injection Hm as <-].
  destruct H0 as [[] ? ?].
  assert (Hw := hc_setBBMap hk (su_hooks _ _ _ _ Hsu hk eq_refl) 0 b ∅ Hb).
  unfold zoom in Hm. cbn in Hm. unfold wp in Hw.
  destruct (hk_setBBMap hk (Some ∅) b) as [[[] b']|]; [|done]. injection Hm as <-.
  by constructor; [constructor|..].
Qed.

Lemma bpu_reach_inv m s : Z.of_nat m < 2 ^ 64 - 2 -> bpu_reach m s -> Inv (Z.of_nat m) s.
Proof.
  intros Hm Hr. induction Hr as [s Hb|m o s s' Hr IH Hen Hex]; [by apply built_inv|].
  specialize (IH ltac:(lia)).
  assert (Hw := wp_bpu_exec (Z.of_nat m) s o IH ltac:(lia) Hen).
  replace (Z.of_nat (S m)) with (Z.of_nat m + 1) by lia.
  unfold wp in Hw. by rewrite Hex in Hw.
Qed.

(** ** Properties *)
Context (m : nat) (s : BPU) (Hm : Z.of_nat m < 2 ^ 64 - 3) (Hr : bpu_reach m s).

(** [C9] The branch prediction unit never faults: in every reachable state
    each prediction of a branch the BTB holds, each commit, squash and
    correction succeeds.  No assertion of the unit or of its parts fails, no
    null pointer is used, no table is read out of range, and no history is
    destroyed while a predictor, the indirect predictor or the return address
    stack still owns a part of it. *)
Theorem bpu_no_fault o : bpu_enabled s o -> isOk (bpu_exec o s) = true.
Proof.
  intros Hen. eapply wp_isOk. apply (wp_bpu_exec (Z.of_nat m)); [|lia|done].
  apply bpu_reach_inv; [lia|done].
Qed.

(** [predict] pushes one history, and its target is accounted for: the
    returned target and direction are those of the history; a target of the
    BTB or of the indirect predictor comes with a taken prediction and with a
    hit; one of the return address stack belongs to a return (and follows the
    direction predictor); otherwise the prediction is not taken and the target
    is the next instruction. *)
Theorem bpu_predict_target i seq pc tid :
  0 <= tid < n -> bt_found (BPredUnit.btb s) tid (instAddr pc) -> fresh s tid seq ->
  wp (predict p hooks advancePC buildRetPC i seq pc tid)
     (fun r s' => exists h l, predHist s !! Z.to_nat tid = Some l /\
        predHist s' = <[Z.to_nat tid := h :: l]> (predHist s) /\
        seqNum h = seq /\ predTaken h = pred_taken (fst r) /\ h_target h = Some (snd r) /\
        match targetProvider h with
        | NoTarget => snd r = advancePC i pc /\ predTaken h = false
        | ProvBTB => predTaken h = true /\ btbHit h = true
        | ProvRAS => isReturn i = true /\ isCall i = false /\
                     btbHit h || negb (requiresBTBHit p) = true /\ predTaken h = condPred h
        | ProvIndirect => predTaken h = true /\ isIndirectCtrl i = true /\ isReturn i = false /\
                          btbHit h || negb (requiresBTBHit p) = true
        end) s.
Proof.
  intros Ht Hf Hfr. eapply wp_mono.
  - apply (wp_predict (Z.of_nat m) s); [apply bpu_reach_inv; [lia|done]|lia|done..].
  - intros r s' (_ & h & l & E1 & E2 & []). exists h, l. by split_and!.
Qed.

(** [update] commits exactly the branches up to [done_sn] of the thread:
    the histories of the younger branches stay, in order, and no other thread
    is touched. *)
Theorem bpu_update_exact sn tid :
  0 <= tid < n ->
  wp (update p hooks sn tid) (fun _ s' => forall t l, predHist s !! t = Some l ->
    predHist s' !! t =
      Some (if bool_decide (t = Z.to_nat tid) then filter (fun h => sn < seqNum h) l else l)) s.
Proof.
  intros Ht. eapply wp_mono; [apply (wp_update_exact (Z.of_nat m) s); [apply bpu_reach_inv; [lia|done]|done]|].
  intros [] s' (_ & l & El & ->) t l' El'. by apply insert_thread.
Qed.

(** [C34] [squash] removes exactly the branches younger than [squashed_sn] of
    the thread, whatever the number of branches in flight. *)
Theorem bpu_squash_exact sn tid :
  0 <= tid < n ->
  wp (squash sn tid) (fun _ s' => forall t l, predHist s !! t = Some l ->
    predHist s' !! t =
      Some (if bool_decide (t = Z.to_nat tid) then filter (fun h => seqNum h <= sn) l else l)) s.
Proof.
  intros Ht. eapply wp_mono; [apply (wp_squash_exact (Z.of_nat m) s); [apply bpu_reach_inv; [lia|done]|done]|].
  intros [] s' (_ & l & El & ->) t l' El'. by apply insert_thread.
Qed.

(** [squash] with the outcome squashes the younger branches and records
    the outcome in the youngest remaining history: mispredicted, the actual
    direction and the correct target; the other histories are unchanged. *)
Theorem bpu_squash_records_outcome sn tgt taken tid fc :
  0 <= tid < n ->
  wp (squashCorrect p hooks buildRetPC sn tgt taken tid fc) (fun _ s' =>
    exists l l', predHist s !! Z.to_nat tid = Some l /\
      predHist s' = <[Z.to_nat tid := l']> (predHist s) /\
      match filter (fun h => seqNum h <= sn) l with
      | [] => l' = []
      | h :: rest => exists h', l' = h' :: rest /\ seqNum h' = seqNum h /\ h_pc h' = h_pc h /\
          mispredict h' = true /\ actuallyTaken h' = taken /\
          option_map instAddr (h_target h') = Some (instAddr tgt)
      end) s.
Proof.
  intros Ht. eapply wp_mono;
    [apply (wp_squashCorrect_exact (Z.of_nat m) s); [apply bpu_reach_inv; [lia|done]|done]|].
  intros [] s' (_ & l & l' & El & Es & Hc). exists l, l'. split_and!; [done..|].
  unfold older in Hc. destruct (filter _ l); [done|]. destruct Hc as (h' & -> & Hc). exists h'.
  destruct Hc as (? & ? & _ & ? & ? & ?). by split_and!.
Qed.
End Spec.

(** ** A unit with the BTB-Ferret BTB *)

Definition demoUnit : BPUParams := mkBPUParams true true true false.
Definition demoAdvance (i : StaticInst) (pc : PCStateBase) : PCStateBase :=
  mkPC (u64 (instAddr pc + inst_size i)) 0.
Definition demoRetPC (i : StaticInst) (cur call : PCStateBase) : PCStateBase := demoAdvance i call.

Definition DemoBPU : Type :=
  @BPU MLBTB TournamentBP TourHistory LocalBP unit SimpleIndirect IndirectHistory.

Definition demoHooks : option (MLHooks MLBTB) := Some (ferretHooks demoCfg).

#[local] Instance demo_btb : BranchTargetBuffer MLBTB := MultiLevelBTB_btb demoCfg.
#[local] Instance demo_contract : BtbContract MLBTB := MultiLevelBTB_contract demoCfg demoCfg_ok 2.
#[local] Instance demo_ip : IndirectPredictor SimpleIndirect IndirectHistory := SimpleIndirect_ip demoSI.
#[local] Instance demo_ipc : IndirectContract SimpleIndirect IndirectHistory :=
  SimpleIndirect_contract demoSI demoSI_good.

Definition demoMake : Res DemoBPU :=
  match boot demoCfg demoGeo 0 0 (mkPrevBr false false), Tour.make demoTour, LocalPred.make 64 2 2 1,
        SI.make demoSI (fun _ => 0) with
  | Ok b, Ok c, Ok c2, Ok i => make demoHooks 1 b (Some (RAS.make 16 1)) c (Some c2) (Some i)
  | _, _, _, _ => Err Fatal
  end.

Abbreviation demoReach :=
  (bpu_reach demoUnit demoHooks demoAdvance demoRetPC 1 16 ((1, 16) : TourConf) (1 : Z) true true true).
Abbreviation demoExec := (bpu_exec demoUnit demoHooks demoAdvance demoRetPC).

Lemma demo_setup : setup demoHooks 1 ((1, 16) : TourConf) (1 : Z).
Proof. split; [done..|]. intros hk [= <-]. apply ferretHooks_ok. Qed.

Lemma demo_tour c : Tour.make demoTour = Ok c -> Tour.ok 1 c /\ localHistoryTableSize c = 16.
Proof.
  intros Ec. split.
  - apply (Tour.tour_make_ok demoTour c); [clear; by vm_compute..|exact Ec].
  - vm_compute in Ec. by injection Ec as <-.
Qed.

Lemma demo_built (s : DemoBPU) : demoMake = Ok s -> demoReach 0 s.
Proof.
  unfold demoMake. destruct (boot _ _ _ _ _) as [b|] eqn:Eb; [|done].
  destruct (Tour.make demoTour) as [c|] eqn:Ec; [|done].
  destruct (LocalPred.make 64 2 2 1) as [c2|] eqn:Ec2; [|done].
  destruct (SI.make demoSI _) as [i|] eqn:Ei; [|done]. intros Hs.
  apply bpu_reach_0. exists b, (Some (RAS.make 16 1)), c, (Some c2), (Some i).
  refine (conj _ (conj (conj _ _) (conj (conj eq_refl _) (conj (conj eq_refl _)
    (conj (conj eq_refl _) Hs))))).
  - apply (reach_inv demoCfg demoGeo 0); [exact demoGeo_ok|exact demoCfg_ok|clear; lia|].
    exact (boot_reach _ _ _ _ _ _ Eb).
  - exact (proj1 (demo_tour c Ec)).
  - exact (proj2 (demo_tour c Ec)).
  - clear. by apply RasSafe.ras_make_ok.
  - apply (LocalPred.local_make_ok 64 2 2 1); [clear; lia..|exact Ec2].
  - exact (si_make_ok demoSI (fun _ => 0) _ Ei).
Qed.

(** Runs whose operations are checked to be enabled.  [DFill] inserts a branch
    in the BTB. *)
Inductive DemoOp :=
| DFill (pc tgt : Addr) (i : StaticInst)
| DOp (o : BpuOp MLBTB).

Definition demoOp (d : DemoOp) : BpuOp MLBTB :=
  match d with
  | DFill pc tgt i => BpBtb (btb_update 0 pc (mkPC tgt 0) (getBranchType i) (Some i))
  | DOp o => o
  end.

Definition freshb (s : DemoBPU) (tid : ThreadID) (seq : Z) : bool :=
  match predHist s !! Z.to_nat tid with
  | Some l => forallb (fun h => seqNum h <? seq) l
  | None => true
  end.

Definition demoEnabled (d : DemoOp) (s : DemoBPU) : bool :=
  match d with
  | DFill _ _ _ => true
  | DOp (BpPredict i seq pc tid) =>
      (tid =? 0) && freshb s tid seq &&
      match ML.valid demoCfg tid (instAddr pc) (BPredUnit.btb s) with Ok (b, _) => b | Err _ => false end
  | DOp (BpUpdate _ tid) | DOp (BpSquash _ tid) | DOp (BpSquashCorrect _ _ _ tid _) => tid =? 0
  | DOp (BpBtb _) => false
  end.

Lemma freshb_ok s tid seq : freshb s tid seq = true -> fresh s tid seq.
Proof.
  unfold freshb. intros H l h El Hh. rewrite El in H. rewrite forallb_forall in H.
  apply Z.ltb_lt, H. by apply list_elem_of_In.
Qed.

Lemma demoEnabled_ok d s : demoEnabled d s = true -> bpu_enabled 1 s (demoOp d).
Proof.
  destruct d as [pc tgt i|[i seq pc tid|sn tid|sn tid|sn t taken tid fc|m]]; cbn [demoEnabled demoOp bpu_enabled].
  - intros _ k b Hb. by apply bt_update_ok.
  - intros [[Ht Hf]%andb_true_iff Hv]%andb_true_iff. split_and!; [lia|lia| |by apply freshb_ok].
    cbn. destruct (ML.valid _ _ _ _) as [[b s']|]; [|done]. cbn. by rewrite Hv.
  - lia.
  - lia.
  - lia.
  - done.
Qed.

Fixpoint demoSteps (ds : list DemoOp) (s : DemoBPU) : Res DemoBPU :=
  match ds with
  | [] => Ok s
  | d :: ds' =>
      if demoEnabled d s then
        match demoExec (demoOp d) s with
        | Ok (_, s') => demoSteps ds' s'
        | Err e => Err e
        end
      else Err Fatal
  end.
Definition demoRun (ds : list DemoOp) : Res DemoBPU :=
  match demoMake with Ok s => demoSteps ds s | Err e => Err e end.

Lemma demoSteps_reach ds : forall m s s',
  demoReach m s -> demoSteps ds s = Ok s' -> demoReach (length ds + m) s'.
Proof.
  induction ds as [|d ds IH]; intros m s s' Hr; cbn [demoSteps]; [by intros [= <-]|].
  destruct (demoEnabled d s) eqn:Ed; [|done].
  destruct (demoExec (demoOp d) s) as [[[] s1]|] eqn:Ex; [|done]. intros Hs.
  replace (length (d :: ds) + m)%nat with (length ds + S m)%nat by (cbn; lia).
  eapply IH; [|exact Hs]. eapply bpu_reach_step; [exact Hr|by apply demoEnabled_ok|exact Ex].
Qed.

Lemma demoRun_reach ds s : demoRun ds = Ok s -> demoReach (length ds) s.
Proof.
  unfold demoRun. destruct demoMake as [s0|] eqn:E; [|done]. intros Hs.
  rewrite <- (Nat.add_0_r (length ds)). eapply demoSteps_reach; [|exact Hs]. by apply demo_built.
Qed.

(** A call to a function that ends in a loop; three branches are in flight. *)
Definition demoBpuOps : list DemoOp :=
  [DFill 0x1000 0x2000 callInst; DFill 0x2000 0x3000 condInst;
   DOp (BpPredict callInst 1 (mkPC 0x1000 0) 0); DOp (BpPredict condInst 2 (mkPC 0x2000 0) 0);
   DOp (BpPredict condInst 3 (mkPC 0x2000 0) 0)].
Lemma demo_state s : demoRun demoBpuOps = Ok s -> demoReach 5 s.
Proof. exact (demoRun_reach demoBpuOps s). Qed.

Lemma bpu_no_fault_witness :
  exists s, demoRun demoBpuOps = Ok s /\
    isOk (demoExec (BpSquashCorrect 2 (mkPC 0x3000 0) true 0 true) s) = true.
Proof.
  destruct (demoRun demoBpuOps) as [s|] eqn:E; [|exfalso; vm_compute in E; discriminate].
  exists s. split; [reflexivity|].
  apply (bpu_no_fault demoUnit demoHooks demoAdvance demoRetPC 1 16 ((1, 16) : TourConf) (1 : Z)
    true true true demo_setup 5 s).
  - clear. lia.
  - exact (demo_state s E).
  - clear. cbn. lia.
Defined.

Lemma bpu_predict_target_witness :
  exists s, demoRun demoBpuOps = Ok s /\
    wp (predict demoUnit demoHooks demoAdvance demoRetPC callInst 4 (mkPC 0x1000 0) 0)
     (fun r s' => exists h l, predHist s !! 0%nat = Some l /\
        predHist s' = <[0%nat := h :: l]> (predHist s) /\
        seqNum h = 4 /\ predTaken h = pred_taken (fst r) /\ h_target h = Some (snd r) /\
        match targetProvider h with
        | NoTarget => snd r = demoAdvance callInst (mkPC 0x1000 0) /\ predTaken h = false
        | ProvBTB => predTaken h = true /\ btbHit h = true
        | ProvRAS => isReturn callInst = true /\ isCall callInst = false /\
                     btbHit h || negb (requiresBTBHit demoUnit) = true /\ predTaken h = condPred h
        | ProvIndirect => predTaken h = true /\ isIndirectCtrl callInst = true /\
                          isReturn callInst = false /\
                          btbHit h || negb (requiresBTBHit demoUnit) = true
        end) s.
Proof.
  assert (Hd : match demoRun demoBpuOps with
    | Ok s => demoEnabled (DOp (BpPredict callInst 4 (mkPC 0x1000 0) 0)) s
    | Err _ => false end = true) by (vm_compute; reflexivity).
  destruct (demoRun demoBpuOps) as [s|] eqn:E; [|discriminate].
  exists s. split; [reflexivity|]. destruct (demoEnabled_ok _ _ Hd) as (Ht & Hf & Hfr).
  refine (bpu_predict_target demoUnit demoHooks demoAdvance demoRetPC 1 16 ((1, 16) : TourConf) (1 : Z)
    true true true demo_setup 5 s _ (demo_state s E) callInst 4 (mkPC 0x1000 0) 0 Ht Hf Hfr).
  clear. lia.
Defined.

Lemma bpu_update_exact_witness :
  exists s, demoRun demoBpuOps = Ok s /\
    wp (update demoUnit demoHooks 1 0) (fun _ s' => forall t l, predHist s !! t = Some l ->
      predHist s' !! t =
        Some (if bool_decide (t = 0%nat) then filter (fun h => 1 < seqNum h) l else l)) s.
Proof.
  destruct (demoRun demoBpuOps) as [s|] eqn:E; [|exfalso; vm_compute in E; discriminate].
  exists s. split; [reflexivity|].
  refine (bpu_update_exact demoUnit demoHooks demoAdvance demoRetPC 1 16 ((1, 16) : TourConf) (1 : Z)
    true true true demo_setup 5 s _ (demo_state s E) 1 0 _); clear; lia.
Defined.

Lemma bpu_squash_exact_witness :
  exists s, demoRun demoBpuOps = Ok s /\
    wp (squash 1 0) (fun _ s' => forall t l, predHist s !! t = Some l ->
      predHist s' !! t =
        Some (if bool_decide (t = 0%nat) then filter (fun h => seqNum h <= 1) l else l)) s.
Proof.
  destruct (demoRun demoBpuOps) as [s|] eqn:E; [|exfalso; vm_compute in E; discriminate].
  exists s. split; [reflexivity|].
  refine (bpu_squash_exact demoUnit demoHooks demoAdvance demoRetPC 1 16 ((1, 16) : TourConf) (1 : Z)
    true true true demo_setup 5 s _ (demo_state s E) 1 0 _); clear; lia.
Defined.

Lemma bpu_squash_records_outcome_witness :
  exists s, demoRun demoBpuOps = Ok s /\
    wp (squashCorrect demoUnit demoHooks demoRetPC 2 (mkPC 0x3000 0) true 0 true) (fun _ s' =>
    exists l l', predHist s !! 0%nat = Some l /\
      predHist s' = <[0%nat := l']> (predHist s) /\
      match filter (fun h => seqNum h <= 2) l with
      | [] => l' = []
      | h :: rest => exists h', l' = h' :: rest /\ seqNum h' = seqNum h /\ h_pc h' = h_pc h /\
          mispredict h' = true /\ actuallyTaken h' = true /\
          option_map instAddr (h_target h') = Some 0x3000
      end) s.
Proof.
  destruct (demoRun demoBpuOps) as [s|] eqn:E; [|exfalso; vm_compute in E; discriminate].
  exists s. split; [reflexivity|].
  refine (bpu_squash_records_outcome demoUnit demoHooks demoAdvance demoRetPC 1 16 ((1, 16) : TourConf)
    (1 : Z) true true true demo_setup 5 s _ (demo_state s E) 2 (mkPC 0x3000 0) true 0 true _);
    clear; lia.
Defined.

Definition condRetInst : StaticInst := mkInst true false true false true true false false false 4.

(** A conditional return that the direction predictor says falls through
    is predicted not taken and is still redirected to the address on top of the
    return address stack: the histories of a call at 0x1000 and of such a
    return at 0x2000, with provider, direction and target. *)
Theorem bpu_not_taken_return_redirected :
  resMap (fun s => map (map (fun h => (seqNum h, targetProvider h, predTaken h, h_target h))) (predHist s))
    (demoRun [DFill 0x1000 0x2000 callInst; DFill 0x2000 0x3000 condRetInst;
       DOp (BpPredict callInst 1 (mkPC 0x1000 0) 0); DOp (BpPredict condRetInst 2 (mkPC 0x2000 0) 0)]) =
  Ok [[(2, ProvRAS, false, Some (mkPC 0x1004 0)); (1, ProvBTB, true, Some (mkPC 0x2000 0))]].
Proof. vm_compute. reflexivity. Qed.
