(* ===== verification/Bac.v ===== *)
(** * The branch and address calculation stage

    [cpu/o3/bac.hh] and [bac.cc]: the stage that runs ahead of fetch in the
    decoupled front end.  Every cycle it reads the signals of the later stages,
    squashes or trains the branch prediction unit, and fills the fetch target
    queue with fetch targets that it finds by searching the BTB; the fetch stage
    asks it for the next PC of every instruction it decodes.

    The stage owns the unit and the queue here (in the source it holds pointers
    to both).  A [PredictorHistory] that a fetch target points to lives in
    [heap]: the pointer of the target is its key, a deleted object is not in the
    map, and using a key that is not there is a fault.  The calls into the CPU
    that only tell it about activity are a log.  [advancePC] and [buildRetPC]
    belong to the ISA and are parameters, as in [BPredUnit]. *)

From Stdlib Require Import ZArith Lia.
From stdpp Require Import base list gmap numbers.
From S2P Require Import Prelude Types Btb Ras CondPred Indirect Ftq BPredUnit.

Inductive BACStatus := Active | Inactive.

#[export] Instance BACStatus_eq_dec : EqDecision BACStatus.
Proof. solve_decision. Defined.

Inductive ThreadStatus :=
| Idle | Running | Squashing | Blocked | Overriding | FTQFull | FTQLocked.

#[export] Instance ThreadStatus_eq_dec : EqDecision ThreadStatus.
Proof. solve_decision. Defined.

(** [struct Stalls] *)
Record Stalls := mkStalls { st_fetch : bool; st_drain : bool; st_bpu : bool }.

#[export] Instance eta_Stalls : Settable Stalls := fun x =>
  mkStalls (st_fetch x) (st_drain x) (st_bpu x).

Inductive BacStat :=
| BA_status (x : ThreadStatus)
| BA_idleCycles | BA_runCycles | BA_squashCycles | BA_blockedCycles | BA_ftqFullCycles
| BA_fetchTargets | BA_branches | BA_predTakenBranches | BA_branchesNotLastuOp
| BA_branchMisspredict | BA_noBranchMisspredict | BA_squashBranchDecode | BA_squashBranchCommit
| BA_preDecUpdate (t : BranchType) | BA_noHistByType (t : BranchType)
| BA_typeMissmatch | BA_multiBranchInst
| BA_ftSizeDist (n : Z) | BA_ftNumber (n : Z)
| BA_bacBlockCycles (t : BranchType) | BA_fetchBlockCycles (t : BranchType)
| BA_fetchBlocked (t : BranchType)
| BA_l1FallThrough | BA_l1Taken.

(** Calls of [CPU::activateStage], [deactivateStage], [activityThisCycle]. *)
Inductive CpuCall := ActivateStage | DeactivateStage | ActivityThisCycle.

(** The parameters of [BaseO3CPUParams] the stage reads. *)
Record BACParams := mkBACParams {
  decoupledFrontEnd : bool;
  fetchTargetWidth : Z;
  fetchBufferSize : Z;
  minInstSize : Z;
  numThreads : Z;
  maxFTPerCycle : Z;
  maxTakenPredPerCycle : Z;
  blockBTB : bool;
  modelOverrideFalsePath : bool
}.

(** The fields of [TimeStruct] the stage reads; a PC is behind a pointer, and
    of the mispredicted instruction only its static instruction is used. *)
Record CommitComm := mkCommitComm {
  cc_squash : bool;
  cc_pc : option PCStateBase;
  cc_mispredictInst : option StaticInst;
  cc_doneSeqNum : Z;
  cc_branchTaken : bool
}.
Record DecodeComm := mkDecodeComm {
  dc_squash : bool;
  dc_nextPC : option PCStateBase;
  dc_branchMispredict : bool;
  dc_doneSeqNum : Z;
  dc_branchTaken : bool
}.
Record FetchComm := mkFetchComm { fc_squash : bool; fc_nextPC : option PCStateBase }.

Record TimeStruct := mkTimeStruct {
  commitInfo : ThreadID -> CommitComm;
  decodeInfo : ThreadID -> DecodeComm;
  fetchInfo : ThreadID -> FetchComm
}.

(** What [updatePC] reads of a [DynInst]. *)
Record DynInst := mkDynInst {
  di_seqNum : Z;
  di_threadNumber : ThreadID;
  di_pcState : PCStateBase;
  di_staticInst : StaticInst
}.

Module Bac.
Section Stage.
Context {B C HC C2 HC2 I HI : Type}.

Abbreviation BPU := (@BPU B C HC C2 HC2 I HI).
Abbreviation Hist := (@PredictorHistory HC HC2 HI).

Record BAC := mkBAC {
  _status : BACStatus;
  bacStatus : list ThreadStatus;
  bpu : BPU;
  b_ftq : FTQ;
  heap : gmap Z Hist;
  nextPtr : Z;
  bacPC : list PCStateBase;
  wroteToTimeBuffer : bool;
  branchPredictRemaining : list Cycles;
  stalls : list Stalls;
  block_inst : option StaticInst;
  fetch_blocked : bool;
  false_path_cur_addr : Addr;
  globalFTSeqNum : Z;
  cpuCalls : list CpuCall;
  bacstats : list BacStat
}.

#[global] Instance eta_BAC : Settable BAC := fun s =>
  mkBAC (_status s) (bacStatus s) (bpu s) (b_ftq s) (heap s) (nextPtr s) (bacPC s)
    (wroteToTimeBuffer s) (branchPredictRemaining s) (stalls s) (block_inst s) (fetch_blocked s)
    (false_path_cur_addr s) (globalFTSeqNum s) (cpuCalls s) (bacstats s).

Context `{!BranchTargetBuffer B} `{!ConditionalPredictor C HC} `{!ConditionalPredictor C2 HC2}
  `{!IndirectPredictor I HI}.
Context (bp : BPUParams) (hooks : option (MLHooks B)).
Context (advancePC : StaticInst -> PCStateBase -> PCStateBase)
  (buildRetPC : StaticInst -> PCStateBase -> PCStateBase -> PCStateBase).
Context (p : BACParams).

Definition stat (x : BacStat) : M BAC unit := modify (fun s => s <| bacstats ::= cons x |>).
Definition cpuCall (x : CpuCall) : M BAC unit := modify (fun s => s <| cpuCalls ::= cons x |>).

(** Element [tid] of one of the arrays of [MaxThreads] elements. *)
Definition rd {T} (f : BAC -> list T) (tid : ThreadID) : M BAC T :=
  o ← gets (fun s => f s !! Z.to_nat tid); at_index o.
Definition wr {T} (f : BAC -> list T) `{!Setter f} (tid : ThreadID) (v : T) : M BAC unit :=
  rd f tid ;; modify (fun s => s <| f ::= <[Z.to_nat tid := v]> |>).

(** History objects: [new], the dereference and [delete]. *)
Definition alloc (h : Hist) : M BAC Z :=
  a ← gets nextPtr;
  modify (fun s => s <| heap ::= <[a := h]> |> <| nextPtr := a + 1 |>) ;; mret a.
Definition load (a : Z) : M BAC Hist :=
  o ← gets (fun s => heap s !! a); deref o.
Definition free (a : Z) : M BAC unit := modify (fun s => s <| heap ::= delete a |>).

(** ** Construction, reset and drain *)

Definition make (bpu0 : option BPU) (q : FTQ) (status0 : list ThreadStatus) (pc0 : PCStateBase)
    (addr0 : Addr) : Res BAC :=
  if decoupledFrontEnd p && (fetchTargetWidth p <? fetchBufferSize p) then Err Fatal else
  if decoupledFrontEnd p && (1 <? numThreads p) then Err Fatal else
  match bpu0 with
  | None => Err Fatal
  | Some u =>
      Ok (mkBAC Inactive status0 u q ∅ 0 (replicate MaxThreads pc0) false
            (replicate MaxThreads 0) (replicate MaxThreads (mkStalls false false false))
            None false addr0 1 [] [])
  end.

Definition clearStates (pcState : ThreadID -> PCStateBase) (tid : ThreadID) : M BAC unit :=
  wr bacStatus tid Running ;;
  wr bacPC tid (pcState tid) ;;
  wr stalls tid (mkStalls false false false) ;;
  zoom b_ftq (Ftq.resetState tid).

Definition threads : list ThreadID := seqZ 0 (numThreads p).

Definition resetStage (pcState : ThreadID -> PCStateBase) : M BAC unit :=
  mfor threads (clearStates pcState) ;;
  modify (fun s => s <| wroteToTimeBuffer := false |> <| _status := Inactive |>).

Definition switchToActive : M BAC unit :=
  x ← gets _status;
  when (bool_decide (x = Inactive))
    (cpuCall ActivateStage ;; modify (fun s => s <| _status := Active |>)).
Definition switchToInactive : M BAC unit :=
  x ← gets _status;
  when (bool_decide (x = Active))
    (cpuCall DeactivateStage ;; modify (fun s => s <| _status := Inactive |>)).

Definition startupStage (pcState : ThreadID -> PCStateBase) : M BAC unit :=
  resetStage pcState ;; switchToActive.
Definition takeOverFrom (pcState : ThreadID -> PCStateBase) : M BAC unit := resetStage pcState.

Definition drainResume : M BAC unit :=
  mfor threads (fun i => x ← rd stalls i; wr stalls i (x <| st_drain := false |>)).

Fixpoint isDrainedFrom (l : list ThreadID) : M BAC bool :=
  match l with
  | [] => mret true
  | i :: l' =>
      e ← zoom b_ftq (Ftq.isEmpty i);
      if negb e then mret false else
      x ← rd bacStatus i;
      if negb (bool_decide (x = Idle)) then mret false else isDrainedFrom l'
  end.
Definition isDrained : M BAC bool := isDrainedFrom threads.

Definition drainSanityCheck : M BAC unit :=
  d ← isDrained;
  massert d ;;
  mfor threads (fun i =>
    x ← rd bacStatus i; st ← rd stalls i;
    massert (bool_decide (x = Idle) || st_drain st) ;;
    e ← zoom b_ftq (Ftq.isEmpty i); massert e) ;;
  zoom bpu BPredUnit.drainSanityCheck.

Definition drainStall (isDraining : bool) (tid : ThreadID) : M BAC unit :=
  massert isDraining ;;
  x ← rd stalls tid;
  massert (negb (st_drain x)) ;;
  wr stalls tid (x <| st_drain := true |>).

Definition checkStall (tid : ThreadID) : M BAC bool :=
  x ← rd stalls tid; mret (st_fetch x || st_bpu x).

(** [updateBACStatus]: the stage is active while some thread is running or
    squashing. *)
Fixpoint anyRunning (activeThreads : list ThreadID) : M BAC bool :=
  match activeThreads with
  | [] => mret false
  | tid :: l =>
      x ← rd bacStatus tid;
      if bool_decide (x = Running) || bool_decide (x = Squashing) then mret true else anyRunning l
  end.

Definition updateBACStatus (activeThreads : list ThreadID) : M BAC unit :=
  r ← anyRunning activeThreads;
  x ← gets _status;
  if (r : bool) then
    when (bool_decide (x = Inactive)) (cpuCall ActivateStage) ;;
    modify (fun s => s <| _status := Active |>)
  else
    when (bool_decide (x = Active)) (cpuCall DeactivateStage) ;;
    modify (fun s => s <| _status := Inactive |>).

(** ** Squash *)

(** [FTQ::forAllBackward] with a function that acts on the unit: targets
    [j-1] down to [0]. *)
Fixpoint forAllBackward (j : nat) (tid : ThreadID) (f : FetchTarget -> M BAC FetchTarget)
  : M BAC unit :=
  match j with
  | O => mret tt
  | S i =>
      q ← zoom b_ftq (Ftq.queue tid);
      ft ← at_index (q !! i);
      ft ← f ft;
      q ← zoom b_ftq (Ftq.queue tid);
      zoom b_ftq (Ftq.setQueue tid (<[i := ft]> q)) ;;
      forAllBackward i tid f
  end.

Definition squashTarget (tid : ThreadID) (ft : FetchTarget) : M BAC FetchTarget :=
  match bpuHistory ft with
  | None => mret ft
  | Some a =>
      h ← load a;
      zoom bpu (squashHistory tid h) ;;
      free a ;;
      mret (ft <| bpuHistory := None |>)
  end.

Definition squashBpuHistories (tid : ThreadID) : M BAC unit :=
  if negb (decoupledFrontEnd p) then mret tt else
  n_fts ← zoom b_ftq (Ftq.size tid);
  if n_fts =? 0 then mret tt else
  forAllBackward (Z.to_nat n_fts) tid (squashTarget tid).

Definition squash (new_pc : PCStateBase) (tid : ThreadID) : M BAC unit :=
  if negb (decoupledFrontEnd p) then mret tt else
  wr bacStatus tid Squashing ;;
  wr bacPC tid new_pc ;;
  zoom b_ftq (Ftq.squash tid) ;;
  wr branchPredictRemaining tid 0 ;;
  x ← rd stalls tid;
  wr stalls tid (x <| st_bpu := false |>).

(** ** Signals *)

Definition squashFromCommit (c : CommitComm) (tid : ThreadID) : M BAC unit :=
  new_pc ← deref (cc_pc c);
  squashBpuHistories tid ;;
  squash new_pc tid ;;
  match cc_mispredictInst c with
  | Some i =>
      if isControl i then
        zoom bpu (squashCorrect bp hooks buildRetPC (cc_doneSeqNum c) new_pc (cc_branchTaken c) tid true) ;;
        stat BA_branchMisspredict ;;
        stat BA_squashBranchCommit
      else
        zoom bpu (BPredUnit.squash (cc_doneSeqNum c) tid) ;;
        stat BA_noBranchMisspredict
  | None =>
      zoom bpu (BPredUnit.squash (cc_doneSeqNum c) tid) ;;
      stat BA_noBranchMisspredict
  end.

Definition squashFromDecode (d : DecodeComm) (tid : ThreadID) : M BAC unit :=
  new_pc ← deref (dc_nextPC d);
  squashBpuHistories tid ;;
  squash new_pc tid ;;
  if dc_branchMispredict d then
    zoom bpu (squashCorrect bp hooks buildRetPC (dc_doneSeqNum d) new_pc (dc_branchTaken d) tid false) ;;
    stat BA_branchMisspredict ;;
    stat BA_squashBranchDecode
  else
    zoom bpu (BPredUnit.squash (dc_doneSeqNum d) tid) ;;
    stat BA_noBranchMisspredict.

Definition checkAndUpdateBPUSignals (sig : TimeStruct) (tid : ThreadID) : M BAC bool :=
  let c := commitInfo sig tid in
  let d := decodeInfo sig tid in
  let f := fetchInfo sig tid in
  if cc_squash c then squashFromCommit c tid ;; mret true else
  when (negb (cc_doneSeqNum c =? 0)) (zoom bpu (update bp hooks (cc_doneSeqNum c) tid)) ;;
  if dc_squash d then squashFromDecode d tid ;; mret true else
  x ← rd bacStatus tid;
  if fc_squash f && negb (bool_decide (x = Squashing)) then
    new_pc ← deref (fc_nextPC f);
    squashBpuHistories tid ;;
    squash new_pc tid ;;
    mret true
  else mret false.

(** The cycles that the branch predictor still needs. *)
Definition updateBpuStall (tid : ThreadID) : M BAC unit :=
  n ← rd branchPredictRemaining tid;
  x ← rd stalls tid;
  if 0 <? n then
    n' ← lift (Cyc.decr n);
    wr branchPredictRemaining tid n' ;;
    wr stalls tid (x <| st_bpu := true |>)
  else
    fb ← gets fetch_blocked;
    when (st_bpu x && fb)
      (bi ← gets block_inst;
       match bi with
       | Some i => stat (BA_fetchBlocked (getBranchType i))
       | None => fault AssertFail
       end) ;;
    modify (fun s => s <| fetch_blocked := false |>) ;;
    wr stalls tid (x <| st_bpu := false |>).

(** The status changes that depend on the queue only, in the order of the
    tests; [full] and so on are the answers of the queue. *)
Definition nextStatus (x : ThreadStatus) (ready locked full bpuStall : bool)
  : option ThreadStatus :=
  if negb ready && negb (bool_decide (x = Idle)) then Some Idle
  else if bool_decide (x = Running) && locked then Some FTQLocked
  else if bool_decide (x = FTQLocked) && negb locked then Some Running
  else if bool_decide (x = FTQFull) && negb full then Some Running
  else if bool_decide (x = Squashing) then Some Running
  else if full then Some FTQFull
  else if bool_decide (x = Overriding) && negb bpuStall then Some Running
  else if ready && (bool_decide (x = Idle) || bool_decide (x = Blocked)) then Some Running
  else None.

Definition checkSignalsAndUpdate (isDraining : bool) (sig : TimeStruct) (tid : ThreadID) : M BAC bool :=
  sq ← checkAndUpdateBPUSignals sig tid;
  if (sq : bool) then mret true else
  x ← rd stalls tid;
  if st_drain x then
    massert isDraining ;;
    squashBpuHistories tid ;;
    zoom b_ftq (Ftq.squash tid) ;;
    wr bacStatus tid Idle ;;
    mret true
  else
  updateBpuStall tid ;;
  x ← rd stalls tid;
  if st_fetch x then wr bacStatus tid Blocked ;; mret true else
  when (st_bpu x) (wr bacStatus tid Overriding) ;;
  ready ← zoom b_ftq (Ftq.isReady tid);
  locked ← zoom b_ftq (Ftq.isLocked tid);
  full ← zoom b_ftq (Ftq.isFull tid);
  status ← rd bacStatus tid;
  match nextStatus status ready locked full (st_bpu x) with
  | Some status' => wr bacStatus tid status' ;; mret true
  | None => mret false
  end.

(** ** Fetch targets *)

Definition newFetchTarget (tid : ThreadID) (start_pc : PCStateBase) : M BAC FetchTarget :=
  n ← gets globalFTSeqNum;
  modify (fun s => s <| globalFTSeqNum := u64 (n + 1) |>) ;;
  stat BA_fetchTargets ;;
  mret (FT.make tid start_pc n).

Definition newFakeFetchTarget (tid : ThreadID) (start_pc end_pc : Addr) : M BAC FetchTarget :=
  c ← rd bacPC tid;
  stat BA_fetchTargets ;;
  mret (FT.makeOverride tid (PCS.setAddr start_pc c) (PCS.setAddr end_pc c) 0).

Definition predict (tid : ThreadID) (inst : StaticInst) (ft : FetchTarget) (pc : PCStateBase)
  : M BAC (Prediction * PCStateBase * FetchTarget) :=
  massert (isNull (bpuHistory ft)) ;;
  r ← zoom bpu (predictWithHistory bp hooks advancePC buildRetPC inst (ftSeqNum ft) pc tid);
  a ← alloc (snd r);
  mret (fst r, ft <| bpuHistory := Some a |>).

(** The false path: the next address according to the first-level predictors.
    The thread is always 0. *)
Definition advanceL1PredPC : M BAC unit :=
  start_addr ← gets false_path_cur_addr;
  br_addr ← zoom bpu (lookupBBBranch 0 start_addr);
  target ← zoom bpu (predictL1 0 br_addr);
  if target =? MaxAddr then
    modify (fun s => s <| false_path_cur_addr := u64 (start_addr + fetchTargetWidth p) |>) ;;
    stat BA_l1FallThrough
  else
    modify (fun s => s <| false_path_cur_addr := target |>) ;;
    stat BA_l1Taken.

(** The search for the next branch from [start_addr] on: the last address of
    the fetch target and whether a branch was found there.  The address may
    grow [fuel] times. *)
Fixpoint searchBTB (fuel : nat) (tid : ThreadID) (start_addr search_addr : Addr)
  : M BAC (Addr * bool) :=
  branch_found ← zoom bpu (BTBValid tid search_addr);
  if (branch_found : bool) then mret (search_addr, true) else
  if fetchTargetWidth p <=? u64 (search_addr - start_addr) then mret (search_addr, false) else
  match fuel with
  | O => fault Hang
  | S m => searchBTB m tid start_addr (u64 (search_addr + minInstSize p))
  end.

Definition searchBlock (tid : ThreadID) (search_addr : Addr) : M BAC (Addr * bool) :=
  br_addr ← zoom bpu (lookupBBBranch tid search_addr);
  found ← (if (br_addr =? MaxAddr) || (br_addr <? search_addr) then
             zoom bpu (recordBTBAccess L2 NonEntry) ;; mret false
           else
             v ← zoom bpu (BTBValid tid br_addr);
             (if (v : bool) then mret true
              else zoom bpu (recordBTBAccess L2 BTBMiss) ;; mret false));
  mret (if (found : bool) then (br_addr, true)
        else (u64 (search_addr + fetchTargetWidth p), false)).

Definition findBranch (tid : ThreadID) (start_addr : Addr) : M BAC (Addr * bool) :=
  if blockBTB p then searchBlock tid start_addr
  else searchBTB (Z.to_nat (fetchTargetWidth p)) tid start_addr start_addr.

(** The prediction of the branch that ends the fetch target: the prediction,
    the static instruction, the next PC and the target with its history. *)
Definition predictBranch (tid : ThreadID) (start_addr : Addr) (cur_pc : PCStateBase)
    (curFT : FetchTarget) : M BAC (bool * StaticInst * PCStateBase * FetchTarget) :=
  o ← zoom bpu (BTBGetInst tid (instAddr cur_pc));
  match o with
  | None => fault AssertFail
  | Some staticInst =>
      when (blockBTB p) (zoom bpu (setBlockStartAddr tid start_addr)) ;;
      r ← predict tid staticInst curFT cur_pc;
      let '(pred, next_pc, ft) := r in
      wr branchPredictRemaining tid (pred_latency pred) ;;
      stat BA_branches ;;
      when (pred_taken pred) (stat BA_predTakenBranches) ;;
      mret (pred_taken pred, staticInst, next_pc, ft)
  end.

(** The next PC after the target: the prediction, the next address, or, after
    a branch that is not the last micro-op, the next instruction. *)
Definition nextPC (cur_pc pred_pc : PCStateBase) (taken : bool) (oi : option StaticInst) : PCStateBase :=
  let next_pc := if taken then pred_pc
                 else PCS.setAddr (u64 (instAddr cur_pc + minInstSize p)) pred_pc in
  match oi with
  | Some i => if isMicroop i && negb (isLastMicroop i)
              then PCS.setAddr (u64 (instAddr cur_pc + inst_size i)) next_pc else next_pc
  | None => next_pc
  end.

(** One iteration of [generateFetchTargets]; the result says whether the
    branch was predicted taken and whether the loop goes on. *)
Definition generateOne (tid : ThreadID) (status_change : bool) : M BAC (bool * bool * bool) :=
  cur_pc ← rd bacPC tid;
  let start_addr := instAddr cur_pc in
  curFT ← newFetchTarget tid cur_pc;
  r ← findBranch tid start_addr;
  let '(search_addr, branch_found) := r in
  let cur_pc := PCS.setAddr search_addr cur_pc in
  wr bacPC tid cur_pc ;;
  r ← (if branch_found then
         x ← predictBranch tid start_addr cur_pc curFT;
         let '(taken, i, next_pc, ft) := x in mret (taken, Some i, next_pc, ft)
       else mret (false, None, cur_pc, curFT));
  let '(taken, oi, pred_pc, ft) := r in
  let next_pc := nextPC cur_pc pred_pc taken oi in
  when (match oi with Some i => isMicroop i && negb (isLastMicroop i) | None => false end)
    (stat BA_branchesNotLastuOp) ;;
  let ft := FT.finalize cur_pc branch_found taken next_pc ft in
  rem ← rd branchPredictRemaining tid;
  when (negb (rem =? 0))
    (modify (fun s => s <| block_inst := oi |> <| false_path_cur_addr := start_addr |>) ;;
     advanceL1PredPC) ;;
  zoom b_ftq (Ftq.insert tid ft) ;;
  modify (fun s => s <| wroteToTimeBuffer := true |>) ;;
  stat (BA_ftSizeDist (u64 (search_addr - start_addr))) ;;
  wr bacPC tid next_pc ;;
  full ← zoom b_ftq (Ftq.isFull tid);
  if (full : bool) then wr bacStatus tid FTQFull ;; mret (taken, true, false) else
  mret (taken, status_change, rem =? 0).

(** [n] is the number of fetch targets that may still be made. *)
Fixpoint generateLoop (n : nat) (tid : ThreadID) (num_ft num_taken : Z) (status_change : bool)
  : M BAC (Z * bool) :=
  match n with
  | O => mret (num_ft, status_change)
  | S m =>
      if negb (num_taken <? maxTakenPredPerCycle p) then mret (num_ft, status_change) else
      r ← generateOne tid status_change;
      let '(taken, status_change, continue) := r in
      let num_taken := if (taken : bool) then num_taken + 1 else num_taken in
      if (continue : bool) then generateLoop m tid (num_ft + 1) num_taken status_change
      else mret (num_ft + 1, status_change)
  end.

Definition generateFetchTargets (tid : ThreadID) (status_change : bool) : M BAC bool :=
  r ← generateLoop (Z.to_nat (maxFTPerCycle p)) tid 0 0 status_change;
  stat (BA_ftNumber (fst r)) ;;
  mret (snd r).

Definition generateOverrideFetchTargets (tid : ThreadID) : M BAC unit :=
  if negb (modelOverrideFalsePath p) then mret tt else
  start_addr ← gets false_path_cur_addr;
  advanceL1PredPC ;;
  end_addr ← gets false_path_cur_addr;
  ft ← newFakeFetchTarget tid start_addr end_addr;
  zoom b_ftq (Ftq.insert tid ft).

(** ** tick *)

Definition blockType : M BAC BranchType :=
  bi ← gets block_inst;
  mret (match bi with Some i => getBranchType i | None => NoBranch end).

(** One thread of the decoupled front end; the state of the loop is
    [(activity, status_change)]. *)
Definition tickThread (isDraining : bool) (sig : TimeStruct) (tid : ThreadID) (st : bool * bool)
  : M BAC (bool * bool) :=
  let '(activity, status_change) := st in
  status_change ← (if status_change then mret true else checkSignalsAndUpdate isDraining sig tid);
  x ← rd bacStatus tid;
  st ← (if bool_decide (x = Running) then
          sc ← generateFetchTargets tid status_change; mret (true, sc)
        else mret (activity, status_change));
  x ← rd bacStatus tid;
  st ← (if bool_decide (x = Overriding) then
          generateOverrideFetchTargets tid ;; mret (true, snd st)
        else mret st);
  x ← rd bacStatus tid;
  stat (BA_status x) ;;
  when (bool_decide (x = Overriding)) (t ← blockType; stat (BA_bacBlockCycles t)) ;;
  mret st.

(** One thread of the coupled front end. *)
Definition tickCoupled (sig : TimeStruct) (tid : ThreadID) (status_change : bool) : M BAC bool :=
  checkAndUpdateBPUSignals sig tid ;;
  x ← rd bacStatus tid;
  if bool_decide (x = Idle) then mret status_change else
  wr bacStatus tid Idle ;; mret true.

Fixpoint tickLoop (isDraining : bool) (sig : TimeStruct) (l : list ThreadID) (st : bool * bool)
  : M BAC (bool * bool) :=
  match l with
  | [] => mret st
  | tid :: l' =>
      st ← (if decoupledFrontEnd p then tickThread isDraining sig tid st
            else sc ← tickCoupled sig tid (snd st); mret (fst st, sc : bool));
      tickLoop isDraining sig l' st
  end.

Definition tick (activeThreads : list ThreadID) (isDraining : bool) (sig : TimeStruct) : M BAC unit :=
  st ← tickLoop isDraining sig activeThreads (false, false);
  when (snd st) (updateBACStatus activeThreads) ;;
  when (fst st) (cpuCall ActivityThisCycle).

(** ** The next PC for the fetch stage *)

(** The pointer of the target at the head of the queue. *)
Definition setHeadHistory (tid : ThreadID) (x : option Z) : M BAC unit :=
  q ← zoom b_ftq (Ftq.queue tid);
  match q with
  | [] => fault NullDeref
  | ft :: rest => zoom b_ftq (Ftq.setQueue tid (ft <| bpuHistory := x |> :: rest))
  end.

(** The exit branch takes its history from the fetch target. *)
Definition popHistory (tid : ThreadID) (pc : PCStateBase) (ft : FetchTarget) : M BAC (option Z) :=
  if FT.isExitBranch (instAddr pc) ft && negb (isNull (bpuHistory ft)) then
    setHeadHistory tid None ;; mret (bpuHistory ft)
  else mret None.

(** Special case 1: the history belongs to a branch of another type. *)
Definition checkType (tid : ThreadID) (brType : BranchType) (hist : option Z) : M BAC (option Z) :=
  match hist with
  | None => mret None
  | Some a =>
      h ← load a;
      if bool_decide (h_type h = brType) then mret (Some a) else
      stat BA_typeMissmatch ;;
      setHeadHistory tid (Some a) ;;
      squashBpuHistories tid ;;
      zoom b_ftq (Ftq.lock tid) ;;
      mret None
  end.

(** The history of a branch that was not detected: assumed not taken. *)
Definition placeholder (tid : ThreadID) (seq : Z) (inst : StaticInst) (pc : PCStateBase) : M BAC Hist :=
  stat (BA_noHistByType (getBranchType inst)) ;;
  h ← zoom bpu (branchPlaceholder tid (instAddr pc) (isUncondCtrl inst)
                  (newHistory tid seq (instAddr pc) inst));
  mret (h <| condPred := false |> <| predTaken := false |> <| targetProvider := NoTarget |>
          <| h_target ::= fun t => advancePC inst <$> PCS.set t (Some pc) |>).

(** The history of the branch and, when a new prediction was made (special case
    2: another branch of a complex instruction), the PC it sets. *)
Definition resolveHistory (tid : ThreadID) (seq : Z) (inst : StaticInst) (pc : PCStateBase)
    (ft : FetchTarget) (hist : option Z) : M BAC (Hist * option PCStateBase) :=
  match hist with
  | Some a => h ← load a; free a ;; mret (h, None)
  | None =>
      if isMicroop inst && negb (isLastMicroop inst) then
        stat BA_multiBranchInst ;;
        squashBpuHistories tid ;;
        zoom b_ftq (Ftq.lock tid) ;;
        r ← zoom bpu (predictWithHistory bp hooks advancePC buildRetPC inst (ftSeqNum ft) pc tid);
        mret (snd r, Some (snd (fst r)))
      else
        h ← placeholder tid seq inst pc; mret (h, None)
  end.

(** [ft] is the target the fetch stage works on.  After the third assertion it
    is the object at the head of the queue. *)
Definition updatePreDecode (tid : ThreadID) (seq : Z) (inst : StaticInst) (pc : PCStateBase)
    (ft : option FetchTarget) : M BAC (bool * PCStateBase) :=
  match ft with
  | None => fault AssertFail
  | Some ft =>
      massert (FT.inRange (instAddr pc) ft) ;;
      o ← zoom b_ftq (Ftq.readHead tid);
      hd ← deref o;
      massert (ftSeqNum ft =? ftSeqNum hd) ;;
      let brType := getBranchType inst in
      stat (BA_preDecUpdate brType) ;;
      a ← popHistory tid pc hd;
      a ← checkType tid brType a;
      r ← resolveHistory tid seq inst pc hd a;
      let '(hist, target) := r in
      massert (bool_decide (h_type hist = brType)) ;;
      let hist := hist <| start_address := FT.startAddress hd |> <| seqNum := seq |> in
      zoom bpu (insertPredictorHistory tid hist) ;;
      pc ← match target with
           | Some t => mret t
           | None => if predTaken hist then lift (FT.readPredTarg hd) else mret (advancePC inst pc)
           end;
      mret (predTaken hist, pc)
  end.

(** The result: whether a branch was predicted taken, the next fetch PC (also
    the predicted target of the instruction) and the target the fetch stage
    goes on with. *)
Definition updatePC (inst : DynInst) (fetch_pc : PCStateBase) (ft : option FetchTarget)
  : M BAC (bool * PCStateBase * option FetchTarget) :=
  let tid := di_threadNumber inst in
  let i := di_staticInst inst in
  r ← (if isControl i then
         r ← (if decoupledFrontEnd p then updatePreDecode tid (di_seqNum inst) i fetch_pc ft
              else r ← zoom bpu (BPredUnit.predict bp hooks advancePC buildRetPC i (di_seqNum inst)
                                   fetch_pc tid);
                   mret (pred_taken (fst r), snd r));
         stat BA_branches ;;
         when (fst r) (stat BA_predTakenBranches) ;;
         mret r
       else mret (false, advancePC i fetch_pc));
  if negb (decoupledFrontEnd p) then mret (fst r, snd r, ft) else
  f ← deref ft;
  ready ← zoom b_ftq (Ftq.isReady tid);
  mret (fst r, snd r,
        if (FT.isExitInst (instAddr (di_pcState inst)) f &&
            (negb (isMicroop i) || isLastMicroop i)) || negb ready
        then None else ft).

(** ** Profiling *)

Definition profileCycle (tid : ThreadID) : M BAC unit :=
  x ← rd bacStatus tid;
  match x with
  | Idle => stat BA_idleCycles
  | Running => stat BA_runCycles
  | Squashing => stat BA_squashCycles
  | Blocked => stat BA_blockedCycles
  | FTQFull => stat BA_ftqFullCycles
  | _ => mret tt
  end.

Definition fetchBlockCycle : M BAC unit :=
  t ← blockType;
  stat (BA_fetchBlockCycles t) ;;
  modify (fun s => s <| fetch_blocked := true |>).
End Stage.
End Bac.
