(* ===== verification/BacBpu.v ===== *)
(** * What the BAC stage asks of the branch prediction unit

    The decoupled front end uses more of a BTB and of a direction predictor
    than the unit itself does: the search for branches ([valid], [getInst]),
    the first-level lookups of the false path and the placeholders of undetected
    branches.  Two classes add this to the contracts of [BPredUnitInv]; the
    multi-level BTB discharges the first.  The rules below say what each call of
    the stage does to the unit: its invariant stays, and unless the call says
    otherwise the histories in flight do too. *)

From Stdlib Require Import ZArith Lia Sorted.
From stdpp Require Import base list gmap numbers.
From S2P Require Import Prelude Types AssocCache BtbEntry Btb MultiLevelBtb MultiLevelWp MultiLevelHit MultiLevelInv MultiLevelOps MultiLevelSafe MultiLevelSpec Ras CondPred Indirect BPredUnit BPredUnitInv BPredUnitSpec.

(** A BTB that can be searched. *)
Class BtbSearch (B : Type) `{BtbContract B} := {
  bs_valid_ok k b tid pc :
    bt_ok k b -> wp (btb_valid tid pc)
      (fun r b' => bt_ok k b' /\ (r = true -> bt_found b' tid pc)) b;
  bs_getInst_ok k b tid pc :
    bt_ok k b -> bt_found b tid pc ->
    wp (btb_getInst tid pc) (fun r b' => bt_ok k b' /\ (is_Some r /\ bt_found b' tid pc)) b;
  bs_lookupL1_ok k b tid pc :
    bt_ok k b -> wp (btb_lookupL1 tid pc) (fun _ b' => bt_ok k b' /\ True) b
}.

(** A direction predictor that makes placeholders for undetected branches. *)
Class CondPlaceholder (C H K : Type) `{ConditionalContract C H K} := {
  cd_placeholder_ok (k : K) c tid pc unc :
    cp_ok k c -> 0 <= tid < cp_threads k ->
    wp (cp_branchPlaceholder tid pc unc None) (fun h c' => cp_ok k c' /\ cp_live k h) c
}.

(** A direction predictor with a first-level prediction that changes nothing. *)
Class CondFirstLevel (C H K : Type) `{ConditionalContract C H K} := {
  cd_l1_ok (k : K) c tid pc :
    cp_ok k c -> 0 <= tid < cp_threads k ->
    wp (cp_predictL1NoUpdate tid pc) (fun _ c' => cp_ok k c' /\ True) c
}.

(** ** The multi-level BTB can be searched *)
Section Ferret.
Context (mp : MLParams) (Hcfg : ferretConfig mp) (nthreads : nat).

Lemma getInst_found k tid pc s :
  inv mp nthreads k s -> isSome (resolve mp s (mkKey pc tid)) = true ->
  wp (ML.getInst mp tid pc) (fun r s' => s' = s /\ is_Some r) s.
Proof.
  intros Hi Hr. pose proof (i_levels _ _ _ _ Hi) as Hlv. unfold resolve, AC.get in Hr. unfold ML.getInst.
  assert (Hhit : forall c key i (e : BTBEntry), level_ok c -> AC.find c key = Some i ->
    entries c !! i = Some e -> is_Some (inst e)).
  { intros c key i e Hc Hf He. destruct (level_find _ _ _ Hc Hf) as (e' & He' & _ & _ & _ & Hs).
    by simplify_eq. }
  apply wp_bind, wp_zfind; [apply _|apply Hlv|].
  destruct (AC.find (l1btb s) _) as [i|] eqn:E1.
  { destruct (level_find _ _ _ (lo_l1 _ Hlv) E1) as (e & He & _).
    apply wp_bind. eapply wp_zread; [apply _|exact He|]. apply wp_ret. split; [done|].
    by eapply (Hhit (l1btb s)); [apply Hlv|..]. }
  apply wp_bind, wp_zfind; [apply _|apply Hlv|].
  destruct (AC.find (pBuffer s) _) as [i|] eqn:E2.
  { destruct (level_find _ _ _ (lo_pb _ Hlv) E2) as (e & He & _).
    apply wp_bind. eapply wp_zread; [apply _|exact He|]. apply wp_ret. split; [done|].
    by eapply (Hhit (pBuffer s)); [apply Hlv|..]. }
  apply wp_bind, wp_zfind; [apply _|apply Hlv|].
  destruct (AC.find (l2btb s) _) as [i|] eqn:E3.
  { destruct (level_find _ _ _ (lo_l2 _ Hlv) E3) as (e & He & _).
    apply wp_bind. eapply wp_zread; [apply _|exact He|]. apply wp_ret. split; [done|].
    by eapply (Hhit (l2btb s)); [apply Hlv|..]. }
  destruct (enableL3 mp); [|by destruct (ML.usesPrefetchBitPolicy mp)].
  apply wp_bind, wp_zfind; [apply _|apply Hlv|].
  destruct (AC.find (l3btb s) _) as [i|] eqn:E4; [|by destruct (ML.usesPrefetchBitPolicy mp)].
  destruct (level_find _ _ _ (lo_l3 _ Hlv) E4) as (e & He & _).
  apply wp_bind. eapply wp_zread; [apply _|exact He|]. apply wp_ret. split; [done|].
  by eapply (Hhit (l3btb s)); [apply Hlv|..].
Qed.

Lemma found_resolve k tid pc s :
  inv mp nthreads k s ->
  resMap fst (ML.valid mp tid pc s) = Ok true <-> isSome (resolve mp s (mkKey pc tid)) = true.
Proof.
  intros Hi.
  assert (Hw : wp (ML.valid mp tid pc) (fun r _ => r = isSome (resolve mp s (mkKey pc tid))) s)
    by (by eapply wp_valid).
  unfold wp in Hw. destruct (ML.valid mp tid pc s) as [[r s']|]; [|done]. cbn. subst r.
  split; [by intros [=]|by intros ->].
Qed.

Definition MultiLevelBTB_search :
  @BtbSearch MLBTB _ (MultiLevelBTB_contract mp Hcfg nthreads).
Proof.
  constructor; cbn.
  - intros k b tid pc Hi. eapply wp_valid; [exact Hi|]. split; [done|]. intros Hr.
    by apply (found_resolve k).
  - intros k b tid pc Hi Hf. pose proof Hf as Hf'. apply (found_resolve k) in Hf'; [|done].
    eapply wp_mono; [by apply (getInst_found k)|]. by intros r b' [-> ?].
  - intros k b tid pc Hi. eapply wp_mono; [by apply (wp_lookupL1 mp nthreads k)|]. done.
Defined.
End Ferret.

(** ** Calls of the stage *)
Section Calls.
Context {B C HC K1 C2 HC2 K2 I HI : Type}.
Context `{BB : BtbContract B} `{CC : ConditionalContract C HC K1}
  `{CC2 : ConditionalContract C2 HC2 K2} `{II : IndirectContract I HI}.
Context {BS : BtbSearch B} {CP1 : CondPlaceholder C HC K1} {CP2 : CondPlaceholder C2 HC2 K2}
  {CF : CondFirstLevel C HC K1}.
Context (bp : BPUParams) (hooks : option (MLHooks B)).
Context (advancePC : StaticInst -> PCStateBase -> PCStateBase)
  (buildRetPC : StaticInst -> PCStateBase -> PCStateBase -> PCStateBase).
Context (n cap : Z) (k1 : K1) (k2 : K2) (hasRas hasOvr hasInd : bool).

Abbreviation BPU := (@BPU B C HC C2 HC2 I HI).
Abbreviation Hist := (@PredictorHistory HC HC2 HI).
Abbreviation Inv := (bpu_inv n cap k1 k2 hasRas hasOvr hasInd).
Abbreviation HistOk := (hist_ok cap k1 k2 hasRas hasOvr hasInd).

(** The invariant holds again and the histories in flight are the same. *)
Definition quiet (k : Z) (s s' : BPU) : Prop := Inv k s' /\ predHist s' = predHist s.

Lemma quiet_trans k k' s s1 s2 : quiet k s s1 -> quiet k' s1 s2 -> quiet k' s s2.
Proof. intros [_ E1] [Hi E2]. split; [done|congruence]. Qed.

Lemma st_quiet k k' s s' :
  Inv k s -> st n cap k1 k2 hasRas hasOvr hasInd k' (predHist s) s' -> quiet k' s s'.
Proof. intros [_ Hl Hh] [Hp E]. split; [|done]. constructor; [done|by rewrite E..]. Qed.

Lemma quiet_btb {A} k k' (m : M B A) (P : A -> B -> Prop) s :
  Inv k s -> (bt_ok k (BPredUnit.btb s) ->
              wp m (fun a b' => bt_ok k' b' /\ P a b') (BPredUnit.btb s)) ->
  wp (zoom BPredUnit.btb m) (fun a s' => quiet k' s s' /\ P a (BPredUnit.btb s')) s.
Proof.
  intros [[] Hl Hh] Hm. apply wp_zoom. eapply wp_mono; [by apply Hm|].
  intros a b' [Hb' HP]. split; [|done]. split; [|done]. by constructor; [constructor|..].
Qed.

Lemma quiet_valid k tid pc s :
  Inv k s -> wp (BTBValid tid pc)
    (fun r s' => quiet k s s' /\ (r = true -> bt_found (BPredUnit.btb s') tid pc)) s.
Proof.
  intros Hi. eapply (quiet_btb k k _ (fun r b' => r = true -> bt_found b' tid pc)); [done|].
  apply bs_valid_ok.
Qed.

Lemma quiet_getInst k tid pc s :
  Inv k s -> bt_found (BPredUnit.btb s) tid pc -> wp (BTBGetInst tid pc)
    (fun r s' => quiet k s s' /\ (is_Some r /\ bt_found (BPredUnit.btb s') tid pc)) s.
Proof.
  intros Hi Hf. eapply (quiet_btb k k _ (fun r b' => is_Some r /\ bt_found b' tid pc)); [done|].
  intros Hb. by apply bs_getInst_ok.
Qed.

Lemma quiet_record k level reason s :
  Inv k s -> wp (recordBTBAccess level reason) (fun _ s' => quiet k s s' /\ True) s.
Proof.
  intros Hi. eapply (quiet_btb k k _ (fun _ _ => True)); [done|]. intros Hb.
  eapply wp_mono; [by apply bt_recordBTBAccess_ok|]. done.
Qed.

Lemma quiet_setBlock k tid a s :
  Inv k s -> wp (setBlockStartAddr tid a)
    (fun _ s' => quiet k s s' /\ BPredUnit.btb s' = BPredUnit.btb s) s.
Proof.
  intros [[] Hl Hh]. unfold setBlockStartAddr. apply wp_modify. split; [|done]. split; [|done].
  constructor; [constructor|..]; try done. cbn. by rewrite length_insert.
Qed.

Context (Hsu : setup hooks n k1 k2).

(** Squashing a history does not touch the BTB. *)
Lemma squashHistory_btb tid (h : Hist) (s : BPU) r s' :
  squashHistory tid h s = Ok (r, s') -> BPredUnit.btb s' = BPredUnit.btb s.
Proof.
  unfold squashHistory, deleteHistory, massert, stat, when, zoom, zoomOpt, modify, mbind, M_bind, mret,
    M_ret, fault.
  intros E. repeat (case_match; simplify_eq; try done).
Qed.

Lemma quiet_squashHistory k tid h s :
  Inv k s -> 0 <= tid < n -> HistOk tid h ->
  wp (squashHistory tid h) (fun _ s' => quiet k s s' /\ BPredUnit.btb s' = BPredUnit.btb s) s.
Proof.
  intros Hi Ht Hh.
  assert (Hw : wp (squashHistory tid h) (fun _ s' => quiet k s s') s).
  { eapply (wp_squashHistory hooks n cap k1 k2 hasRas hasOvr hasInd Hsu tid Ht k (predHist s));
      [by apply inv_st|done|]. intros s' Hs'. by apply (st_quiet k k). }
  destruct (wp_inv _ _ _ Hw) as (r & s1 & E & HP). eapply wp_ok; [exact E|]. split; [done|].
  by apply squashHistory_btb in E.
Qed.

Lemma quiet_predict k i seq pc tid s :
  Inv k s -> k + 1 < 2 ^ 64 - 1 -> 0 <= tid < n ->
  bt_found (BPredUnit.btb s) tid (instAddr pc) ->
  wp (predictWithHistory bp hooks advancePC buildRetPC i seq pc tid)
    (fun r s' => quiet (k + 1) s s' /\ HistOk tid (snd r) /\ predicted bp advancePC i seq pc r) s.
Proof.
  intros Hi Hk Ht Hf.
  eapply (wp_predictWithHistory bp hooks advancePC buildRetPC n cap k1 k2 hasRas hasOvr hasInd Hsu
    i seq tid (instAddr pc) Ht k (predHist s)); [by apply inv_st|done..|].
  intros r s1 Hs1 Hh Hp. split; [|done]. by apply (st_quiet k (k + 1)).
Qed.

Lemma quiet_cPred {A} k (m : M C A) (P : A -> Prop) s :
  Inv k s -> (cp_ok k1 (cPred s) -> wp m (fun a c' => cp_ok k1 c' /\ P a) (cPred s)) ->
  wp (zoom cPred m) (fun a s' => quiet k s s' /\ P a) s.
Proof.
  intros Hi Hm. eapply (wp_cPred n cap k1 k2 hasRas hasOvr hasInd k (predHist s) m P);
    [by apply inv_st|done|]. intros a s' Hs' HP. split; [|done]. by apply (st_quiet k k).
Qed.

Lemma quiet_predictL1 k tid pc s :
  Inv k s -> 0 <= tid < n -> wp (predictL1 tid pc) (fun _ s' => quiet k s s') s.
Proof.
  intros Hi Ht. unfold predictL1. apply wp_bind.
  eapply wp_mono.
  { eapply (quiet_btb k k _ (fun _ _ => True)); [done|]. apply bs_lookupL1_ok. }
  intros t s1 [Hq1 _]. apply wp_bind. eapply wp_mono.
  { eapply (quiet_cPred k _ (fun _ => True)); [apply Hq1|]. intros Hc.
    apply cd_l1_ok; [done|]. by rewrite (su_c1 _ _ _ _ Hsu). }
  intros taken s2 [Hq2 _]. apply wp_ret. by eapply quiet_trans.
Qed.

(** A history that only lacks its target. *)
Definition needsTarget (tid : ThreadID) (h : Hist) : Prop :=
  forall h', h_tid h' = h_tid h -> bpHistory h' = bpHistory h ->
    overridingBpHistory h' = overridingBpHistory h -> indirectHistory h' = indirectHistory h ->
    rasHistory h' = rasHistory h -> h_type h' = h_type h -> h_call h' = h_call h ->
    h_inst h' = h_inst h -> is_Some (h_target h') -> HistOk tid h'.

(** A placeholder is a history in flight once it has a target. *)
Lemma quiet_placeholder k tid seq i pc unc s :
  Inv k s -> 0 <= tid < n ->
  wp (branchPlaceholder tid (instAddr pc) unc (newHistory tid seq (instAddr pc) i))
    (fun h s' => quiet k s s' /\ h_type h = getBranchType i /\ needsTarget tid h) s.
Proof.
  intros Hi Ht. unfold branchPlaceholder. apply wp_bind. eapply wp_mono.
  { eapply (quiet_cPred k _ (cp_live k1)); [done|]. intros Hc.
    apply cd_placeholder_ok; [done|]. by rewrite (su_c1 _ _ _ _ Hsu). }
  intros h1 s1 [Hq1 Hl1]. apply wp_bind.
  assert (Hs1 := inv_st _ _ _ _ _ _ _ k s1 (proj1 Hq1)).
  assert (Hfin : forall o2 s2, quiet k s1 s2 ->
    (hasOvr = true -> cp_live k2 (default None o2)) ->
    wp (mret ((newHistory tid seq (instAddr pc) i) <| bpHistory := h1 |>
               <| overridingBpHistory := default None o2 |>) : M BPU Hist)
    (fun h s' => quiet k s s' /\ h_type h = getBranchType i /\ needsTarget tid h) s2).
  { intros o2 s2 Hq2 Ho2. apply wp_ret. split; [by eapply quiet_trans|]. split; [done|].
    intros h' E1 E2 E3 E4 E5 E6 E7 E8 Htg. cbn in *.
    by constructor; rewrite ?E1, ?E2, ?E3, ?E4, ?E5, ?E6, ?E7, ?E8. }
  cbn [overridingBpHistory newHistory].
  eapply (wp_ovr n cap k1 k2 hasRas hasOvr hasInd k (predHist s1) _ (cp_live k2)); [exact Hs1| | |].
  - intros _ c Hc. apply cd_placeholder_ok; [done|]. by rewrite (su_c2 _ _ _ _ Hsu).
  - intros s2 Hs2 Hno. apply (Hfin None); [by apply (st_quiet k k); [apply Hq1|]|by rewrite Hno].
  - intros h2 s2 Hs2 Hy Hl2. apply (Hfin (Some h2)); [by apply (st_quiet k k); [apply Hq1|]|done].
Qed.

(** The branch enters the queue of the unit. *)
Lemma insert_history k tid h s :
  Inv k s -> 0 <= tid < n -> HistOk tid h -> fresh s tid (seqNum h) ->
  wp (insertPredictorHistory tid h) (fun _ s' => Inv k s' /\
    exists l, predHist s !! Z.to_nat tid = Some l /\
      predHist s' = <[Z.to_nat tid := h :: l]> (predHist s)) s.
Proof.
  intros Hi Ht Hh Hf. destruct (inv_thread _ _ _ _ _ _ _ k s tid Hi Ht) as (l & El & Hl & Ho).
  unfold insertPredictorHistory. apply wp_bind.
  eapply wp_histories; [by apply inv_st|done|].
  eapply wp_setHistories; [by apply inv_st|]. intros s' Hs'.
  split; [|exists l; split; [done|apply Hs']].
  eapply (st_inv n cap k1 k2 hasRas hasOvr hasInd k s); [done|done| |exact Hs'| |].
  - lia.
  - by constructor.
  - constructor; [done|]. apply list.Forall_forall. intros x Hx. by apply (Hf l).
Qed.
End Calls.
