(* ===== verification/BacInv.v ===== *)
(** * Invariant of the BAC stage in the decoupled front end

    The constructor refuses more than one thread with the decoupled front end,
    so the thread is 0.  [View] is what the stage knows about it; the rules of
    this file say how each operation changes the view, and that it does not
    fail. *)

From Stdlib Require Import ZArith Lia Sorted.
From stdpp Require Import base list gmap numbers.
From S2P Require Import Prelude Types Btb Ras CondPred Indirect Ftq BPredUnit BPredUnitInv BPredUnitSpec Bac BacBpu.

(** ** The queue of thread 0 *)
Section Queue.
Context (ent : Z).

Definition fview (f : FTQ) (q : list FetchTarget) (st : Status) : Prop :=
  ftq_inv ent noReset f /\ ftq f !! 0%nat = Some q /\ ftqStatus f !! 0%nat = Some st.

Lemma thread0 : 0 <= 0 < Z.of_nat MaxThreads.
Proof. unfold MaxThreads. lia. Qed.

Lemma fview_queueOf f q st : fview f q st -> queueOf f 0 = q.
Proof. intros (_ & E & _). unfold queueOf. change (Z.to_nat 0) with 0%nat. by rewrite E. Qed.

Lemma fview_len f q st : fview f q st -> Z.of_nat (length q) <= ent.
Proof. intros ([_ _ _ Ha _ _] & E & _). apply (Ha _ _ E). Qed.

Lemma fview_plain f q st : fview f q st -> Forall (fun ft => ft_tid ft = 0 /\ is_override_ft ft = false) q.
Proof. intros ([_ _ _ Ha _ _] & E & _). apply (Ha _ _ E). Qed.

Lemma fv_queue f q st (Q : list FetchTarget -> FTQ -> Prop) :
  fview f q st -> Q q f -> wp (Ftq.queue 0) Q f.
Proof. intros (_ & E & _). by apply wp_queue. Qed.

Lemma fv_isReady f q st (Q : bool -> FTQ -> Prop) :
  fview f q st -> Q (negb (bool_decide (st = Invalid))) f -> wp (Ftq.isReady 0) Q f.
Proof.
  intros (_ & _ & E) HQ. unfold Ftq.isReady. apply wp_bind. eapply wp_status; [exact E|]. by apply wp_ret.
Qed.
Lemma fv_isLocked f q st (Q : bool -> FTQ -> Prop) :
  fview f q st -> Q (bool_decide (st = Locked)) f -> wp (Ftq.isLocked 0) Q f.
Proof.
  intros (_ & _ & E) HQ. unfold Ftq.isLocked. apply wp_bind. eapply wp_status; [exact E|]. by apply wp_ret.
Qed.
Lemma fv_isFull f q st (Q : bool -> FTQ -> Prop) :
  fview f q st -> Q (ent <=? Z.of_nat (length q)) f -> wp (Ftq.isFull 0) Q f.
Proof.
  intros (Hi & E & _) HQ. unfold Ftq.isFull. apply wp_bind. eapply wp_queue; [exact E|].
  apply wp_bind, wp_gets, wp_ret. by rewrite (fi_entries _ _ _ Hi).
Qed.
Lemma fv_size f q st (Q : Z -> FTQ -> Prop) :
  fview f q st -> Q (Z.of_nat (length q)) f -> wp (Ftq.size 0) Q f.
Proof.
  intros (_ & E & _) HQ. unfold Ftq.size. apply wp_bind. eapply wp_queue; [exact E|]. by apply wp_ret.
Qed.
Lemma fv_isEmpty f q st (Q : bool -> FTQ -> Prop) :
  fview f q st -> Q (bool_decide (length q = 0%nat)) f -> wp (Ftq.isEmpty 0) Q f.
Proof.
  intros (_ & E & _) HQ. unfold Ftq.isEmpty. apply wp_bind. eapply wp_queue; [exact E|]. by apply wp_ret.
Qed.
Lemma fv_readHead f q st (Q : option FetchTarget -> FTQ -> Prop) :
  fview f q st -> Q (if bool_decide (st = Invalid) then None else head q) f -> wp (Ftq.readHead 0) Q f.
Proof.
  intros (_ & E & Es) HQ. unfold Ftq.readHead. apply wp_bind. eapply wp_status; [exact Es|].
  destruct (bool_decide (st = Invalid)); [by apply wp_ret|]. apply wp_bind.
  eapply wp_queue; [exact E|]. by apply wp_ret.
Qed.

(** A pass over the queue changes no identity. *)
Definition same_ids (q q' : list FetchTarget) : Prop :=
  Forall2 (fun a b => ftSeqNum b = ftSeqNum a /\ ft_tid b = ft_tid a /\
                      is_override_ft b = is_override_ft a) q q'.

Lemma same_ids_refl q : same_ids q q.
Proof. unfold same_ids. induction q; by constructor. Qed.

Lemma same_ids_insert q i a b :
  q !! i = Some a -> ftSeqNum b = ftSeqNum a -> ft_tid b = ft_tid a ->
  is_override_ft b = is_override_ft a -> same_ids q (<[i := b]> q).
Proof.
  intros Ha H1 H2 H3. revert i Ha. unfold same_ids.
  induction q as [|c q IH]; intros [|i] Ha; cbn in *; [done|done| |].
  - simplify_eq. constructor; [done|apply same_ids_refl].
  - constructor; [done|by apply IH].
Qed.

Lemma fv_setQueue f q st q' (Q : unit -> FTQ -> Prop) :
  fview f q st -> same_ids q q' ->
  (forall f', fview f' q' st -> Q tt f') -> wp (Ftq.setQueue 0 q') Q f.
Proof.
  intros (Hi & E & Es) Hq HQ. eapply wp_setQueue; [by eexists|]. apply HQ.
  destruct (ftq_inv_queue ent noReset f 0 Hi thread0) as (Eq & _ & Hlen & Hall & Hlog).
  unfold queueOf in *. change (Z.to_nat 0) with 0%nat in *. rewrite E in *. unfold default, id in *.
  assert (Hacc : accounted 0 ent q' (recent noReset 0 f ++ [])).
  { rewrite app_nil_r. split_and!.
    - by rewrite <- (Forall2_length Hq).
    - clear Hlog Hlen HQ E. induction Hq as [|a b q q' (H1 & H2 & H3) Hq IH]; [done|].
      apply list.Forall_cons in Hall as [[Ha1 Ha2] Hall]. constructor; [by rewrite H2, H3|by apply IH].
    - rewrite Hlog. f_equal. clear Hlog Hlen HQ E Hall.
      induction Hq as [|a b q q' (H1 & H2 & H3) Hq IH]; [done|]. cbn. by rewrite H1, IH. }
  split_and!; [|cbn|done].
  - eapply (ftq_inv_update ent noReset f _ 0 q' [] Hi thread0); [constructor|exact Hacc|by intros ? ?%not_elem_of_nil|done..|].
    cbn. by rewrite app_nil_r.
  - apply list_lookup_insert_eq. by eapply lookup_lt_Some.
Qed.

Lemma fv_insert f q st ft (Q : unit -> FTQ -> Prop) :
  fview f q st -> Z.of_nat (length q) < ent -> ft_tid ft = 0 ->
  (forall f', fview f' (if is_override_ft ft then q else q ++ [ft]) st -> Q tt f') ->
  wp (Ftq.insert 0 ft) Q f.
Proof.
  intros Hf Hr Ht HQ. pose proof Hf as (Hi & E & Es).
  apply (wp_mono _ (fun _ f' => ftq_inv ent noReset f' /\
    (ftq f' !! 0%nat = Some (if is_override_ft ft then q else q ++ [ft]) /\ ftqStatus f' !! 0%nat = Some st))).
  2:{ intros [] f' (? & ? & ?). by apply HQ. }
  apply wp_and.
  - apply kept_insert; [done|]. split; [apply thread0|]. rewrite (fview_queueOf _ _ _ Hf).
    by rewrite (fi_entries _ _ _ Hi).
  - unfold Ftq.insert. apply wp_bind. eapply wp_queue; [exact E|]. apply wp_bind, wp_gets, wp_bind, wp_massert.
    { rewrite (fi_entries _ _ _ Hi). by apply Z.ltb_lt. }
    destruct (is_override_ft ft).
    + unfold Ftq.notify. apply wp_modify. done.
    + unfold Ftq.notify, Ftq.stat. apply wp_bind. eapply wp_setQueue; [by eexists|].
      apply wp_bind, wp_modify, wp_bind, wp_modify, wp_modify. split; [|done].
      cbn. apply list_lookup_insert_eq. by eapply lookup_lt_Some.
Qed.

Lemma fv_squash f q st (Q : unit -> FTQ -> Prop) :
  fview f q st -> Forall (fun ft => bpuHistory ft = None) q ->
  (forall f', fview f' [] Valid -> Q tt f') -> wp (Ftq.squash 0) Q f.
Proof.
  intros Hf Hq HQ. pose proof Hf as (Hi & E & Es).
  apply (wp_mono _ (fun _ f' => ftq_inv ent noReset f' /\
    (ftq f' !! 0%nat = Some [] /\ ftqStatus f' !! 0%nat = Some Valid))).
  2:{ intros [] f' (? & ? & ?). by apply HQ. }
  apply wp_and.
  - apply kept_squash; [done|]. split; [apply thread0|]. by rewrite (fview_queueOf _ _ _ Hf).
  - unfold Ftq.squash. apply wp_bind. eapply wp_queue; [exact E|]. apply wp_bind, wp_ftq_squashLoop; [done|].
    apply wp_bind. eapply wp_setQueue; [by eexists|]. apply wp_bind. eapply wp_setStatus; [by eexists|].
    unfold Ftq.stat. apply wp_modify. cbn.
    split; apply list_lookup_insert_eq; by eapply lookup_lt_Some.
Qed.

Lemma fv_setStatus f q st st' (Q : unit -> FTQ -> Prop) :
  fview f q st -> (forall f', fview f' q st' -> Q tt f') -> wp (Ftq.setStatus 0 st') Q f.
Proof.
  intros (Hi & E & Es) HQ. eapply wp_setStatus; [by eexists|]. apply HQ. split_and!; [|done|].
  - eapply ftq_inv_sameQueue; [exact Hi|done| |done|done]. cbn. by rewrite length_insert.
  - cbn. apply list_lookup_insert_eq. by eapply lookup_lt_Some.
Qed.

Lemma fv_resetState f st (Q : unit -> FTQ -> Prop) :
  fview f [] st -> (forall f', fview f' [] Valid -> Q tt f') -> wp (Ftq.resetState 0) Q f.
Proof.
  intros Hf HQ. unfold Ftq.resetState. apply wp_bind.
  eapply fv_setQueue; [exact Hf|apply same_ids_refl|]. intros f1 Hf1. by eapply fv_setStatus.
Qed.

Lemma fv_invalidate f q st (Q : unit -> FTQ -> Prop) :
  fview f q st -> (forall f', fview f' q (if bool_decide (q = []) then st else Invalid) -> Q tt f') ->
  wp (Ftq.invalidate 0) Q f.
Proof.
  intros Hf HQ. unfold Ftq.invalidate. apply wp_bind. eapply fv_queue; [exact Hf|]. destruct q as [|ft q].
  - cbn. apply wp_ret. by apply HQ.
  - cbn. eapply fv_setStatus; [exact Hf|]. done.
Qed.

(** [popHead]: the head leaves the queue unless it still has a history. *)
Lemma fv_popHead f ft q st (Q : bool -> FTQ -> Prop) :
  fview f (ft :: q) st ->
  (forall f', bpuHistory ft <> None -> fview f' (ft :: q) Invalid -> Q false f') ->
  (forall f' b st', bpuHistory ft = None -> (st' = st \/ st' = Invalid) -> (st = Locked -> st' = Invalid) ->
     fview f' q st' -> Q b f') ->
  wp (Ftq.popHead 0) Q f.
Proof.
  intros Hf HQ1 HQ2. pose proof Hf as (Hi & E & Es).
  assert (Hk : wp (Ftq.popHead 0) (fun _ f' => ftq_inv ent noReset f') f).
  { apply kept_popHead; [done|]. split; [apply thread0|]. by rewrite (fview_queueOf _ _ _ Hf). }
  destruct (ftq_popHead_cases f 0 st (ft :: q) E Es) as (b & f' & Ep & Hc).
  eapply wp_ok; [exact Ep|]. unfold wp in Hk. rewrite Ep in Hk.
  destruct (bpuHistory ft) as [a|] eqn:Eh.
  - destruct Hc as (-> & E1 & _ & E3). apply HQ1; [done|]. split_and!; [done|by rewrite E1|].
    rewrite E3. apply list_lookup_insert_eq. by eapply lookup_lt_Some.
  - destruct Hc as (-> & E1 & _ & E3).
    apply (HQ2 _ _ (if bool_decide (st = Locked) then Invalid else st)); [done| | |].
    + case_bool_decide; auto.
    + intros ->. done.
    + split_and!; [done|rewrite E1|rewrite E3]; apply list_lookup_insert_eq; by eapply lookup_lt_Some.
Qed.
End Queue.

(** ** Views *)

(** The pointers of the fetch targets. *)
Definition ptrs (q : list FetchTarget) : list Z := omap bpuHistory q.

(** The targets form one predicted path: each starts where the one before it
    was predicted to go, and the stage continues at [next]. *)
Fixpoint path (q : list FetchTarget) (next : PCStateBase) : Prop :=
  match q with
  | [] => True
  | ft :: r =>
      predPC ft = Some (match r with [] => next | ft' :: _ => startPC ft' end) /\ path r next
  end.

Section Inv.
Context {B C HC K1 C2 HC2 K2 I HI : Type}.
Context `{BB : BtbContract B} `{CC : ConditionalContract C HC K1}
  `{CC2 : ConditionalContract C2 HC2 K2} `{II : IndirectContract I HI}.
Context {BS : BtbSearch B} {CP1 : CondPlaceholder C HC K1} {CP2 : CondPlaceholder C2 HC2 K2}
  {CF : CondFirstLevel C HC K1}.
Context (bp : BPUParams) (hooks : option (MLHooks B)).
Context (advancePC : StaticInst -> PCStateBase -> PCStateBase)
  (buildRetPC : StaticInst -> PCStateBase -> PCStateBase -> PCStateBase).
Context (p : BACParams) (ent : Z).
Context (cap : Z) (k1 : K1) (k2 : K2) (hasRas hasOvr hasInd : bool).

Abbreviation BPU := (@BPU B C HC C2 HC2 I HI).
Abbreviation Hist := (@PredictorHistory HC HC2 HI).
Abbreviation BAC := (@Bac.BAC B C HC C2 HC2 I HI).
Abbreviation UInv := (bpu_inv 1 cap k1 k2 hasRas hasOvr hasInd).
Abbreviation HistOk := (hist_ok cap k1 k2 hasRas hasOvr hasInd).
Abbreviation Quiet := (quiet 1 cap k1 k2 hasRas hasOvr hasInd).

Record View := mkView {
  v_queue : list FetchTarget;
  v_ftq : Status;
  v_status : ThreadStatus;
  v_pc : PCStateBase;
  v_rem : Cycles;
  v_stalls : Stalls;
  v_block : option StaticInst;
  v_hist : list (list Hist);
  v_loose : list Z
}.

#[export] Instance eta_View : Settable View := fun v =>
  mkView (v_queue v) (v_ftq v) (v_status v) (v_pc v) (v_rem v) (v_stalls v) (v_block v) (v_hist v)
    (v_loose v).

(** Every history object is owned by one fetch target, or by the operation that
    has just taken it from one ([loose]). *)
Record owned (loose : list Z) (q : list FetchTarget) (hp : gmap Z Hist) (nx : Z) : Prop := {
  ow_nodup : NoDup (loose ++ ptrs q);
  ow_dom : forall a, is_Some (hp !! a) <-> a ∈ loose ++ ptrs q;
  ow_ok : map_Forall (fun _ h => HistOk 0 h) hp;
  ow_next : map_Forall (fun a _ => a < nx) hp
}.

Definition finalized (ft : FetchTarget) : Prop := is_Some (endPC ft) /\ is_Some (predPC ft).

Record core (k : Z) (v : View) (s : BAC) : Prop := {
  co_bpu : UInv k (Bac.bpu s);
  co_hist : predHist (Bac.bpu s) = v_hist v;
  co_ftq : fview ent (Bac.b_ftq s) (v_queue v) (v_ftq v);
  co_own : owned (v_loose v) (v_queue v) (Bac.heap s) (Bac.nextPtr s);
  co_fin : Forall finalized (v_queue v);
  co_status : Bac.bacStatus s !! 0%nat = Some (v_status v);
  co_pc : Bac.bacPC s !! 0%nat = Some (v_pc v);
  co_rem : Bac.branchPredictRemaining s !! 0%nat = Some (v_rem v);
  co_stalls : Bac.stalls s !! 0%nat = Some (v_stalls v);
  co_block : Bac.block_inst s = v_block v
}.

(** What holds between two operations. *)
Record good (v : View) : Prop := {
  gd_room : v_status v = Running \/ v_status v = Overriding -> Z.of_nat (length (v_queue v)) < ent;
  gd_squash : v_status v = Squashing -> v_queue v = [];
  gd_locked : v_status v = FTQLocked -> v_ftq v = Locked \/ v_ftq v = Invalid;
  gd_block : 0 < v_rem v \/ st_bpu (v_stalls v) = true -> is_Some (v_block v);
  gd_fetch : st_fetch (v_stalls v) = false;
  gd_path : path (v_queue v) (v_pc v);
  gd_loose : v_loose v = []
}.

Definition bac_inv (k : Z) (s : BAC) : Prop := exists v, core k v s /\ good v.

(** *** Frames: parts of the state the view does not name *)
Lemma core_stat k v s x : core k v s -> core k v (s <| Bac.bacstats ::= cons x |>).
Proof. intros []. by constructor. Qed.

Lemma wp_bac_stat k v s x (Q : unit -> BAC -> Prop) :
  core k v s -> (core k v (s <| Bac.bacstats ::= cons x |>) ->
                 Q tt (s <| Bac.bacstats ::= cons x |>)) -> wp (Bac.stat x) Q s.
Proof. intros Hs HQ. unfold Bac.stat. apply wp_modify, HQ. by apply core_stat. Qed.

Lemma core_mono k k' v s : core k v s -> k <= k' -> core k' v s.
Proof.
  intros [Hu] Hk. constructor; try done. destruct Hu as [[] ? ?]. constructor; try done.
  constructor; try done. by eapply bt_mono.
Qed.

Lemma wp_rd {T} (f : BAC -> list T) x (Q : T -> BAC -> Prop) s :
  f s !! 0%nat = Some x -> Q x s -> wp (Bac.rd f 0) Q s.
Proof. intros E HQ. unfold Bac.rd. apply wp_bind, wp_gets. by eapply wp_at_index. Qed.

Lemma wp_wr {T} (f : BAC -> list T) `{!Setter f} x y (Q : unit -> BAC -> Prop) s :
  f s !! 0%nat = Some x -> Q tt (s <| f ::= <[0%nat := y]> |>) -> wp (Bac.wr f 0 y) Q s.
Proof. intros E HQ. unfold Bac.wr. apply wp_bind. by eapply wp_rd. Qed.

Lemma wr_status k v s y (Q : unit -> BAC -> Prop) :
  core k v s ->
  (core k (v <| v_status := y |>) (s <| Bac.bacStatus ::= <[0%nat := y]> |>) ->
   Q tt (s <| Bac.bacStatus ::= <[0%nat := y]> |>)) -> wp (Bac.wr Bac.bacStatus 0 y) Q s.
Proof.
  intros [] HQ. eapply wp_wr; [done|]. apply HQ. constructor; try done.
  apply list_lookup_insert_eq. by eapply lookup_lt_Some.
Qed.
Lemma wr_pc k v s y (Q : unit -> BAC -> Prop) :
  core k v s ->
  (core k (v <| v_pc := y |>) (s <| Bac.bacPC ::= <[0%nat := y]> |>) ->
   Q tt (s <| Bac.bacPC ::= <[0%nat := y]> |>)) -> wp (Bac.wr Bac.bacPC 0 y) Q s.
Proof.
  intros [] HQ. eapply wp_wr; [done|]. apply HQ. constructor; try done.
  apply list_lookup_insert_eq. by eapply lookup_lt_Some.
Qed.
Lemma wr_rem k v s y (Q : unit -> BAC -> Prop) :
  core k v s ->
  (core k (v <| v_rem := y |>) (s <| Bac.branchPredictRemaining ::= <[0%nat := y]> |>) ->
   Q tt (s <| Bac.branchPredictRemaining ::= <[0%nat := y]> |>)) ->
  wp (Bac.wr Bac.branchPredictRemaining 0 y) Q s.
Proof.
  intros [] HQ. eapply wp_wr; [done|]. apply HQ. constructor; try done.
  apply list_lookup_insert_eq. by eapply lookup_lt_Some.
Qed.
Lemma wr_stalls k v s y (Q : unit -> BAC -> Prop) :
  core k v s ->
  (core k (v <| v_stalls := y |>) (s <| Bac.stalls ::= <[0%nat := y]> |>) ->
   Q tt (s <| Bac.stalls ::= <[0%nat := y]> |>)) -> wp (Bac.wr Bac.stalls 0 y) Q s.
Proof.
  intros [] HQ. eapply wp_wr; [done|]. apply HQ. constructor; try done.
  apply list_lookup_insert_eq. by eapply lookup_lt_Some.
Qed.

(** A call of the queue. *)
Lemma wp_bac_ftq {A} k v s (m : M FTQ A) (Q : A -> BAC -> Prop) :
  core k v s -> wp m (fun a f => Q a (s <| Bac.b_ftq := f |>)) (Bac.b_ftq s) -> wp (zoom Bac.b_ftq m) Q s.
Proof. intros _. apply wp_zoom. Qed.

Lemma core_query k v s : core k v s -> core k v (s <| Bac.b_ftq := Bac.b_ftq s |>).
Proof. intros []. by constructor. Qed.

Lemma core_ftqStatus k v s f st :
  core k v s -> fview ent f (v_queue v) st -> core k (v <| v_ftq := st |>) (s <| Bac.b_ftq := f |>).
Proof. intros [] Hf. by constructor. Qed.

(** A call of the unit that leaves the histories in flight alone. *)
Lemma wp_unit {A} k k' v s (m : M BPU A) (P : A -> BPU -> Prop) (Q : A -> BAC -> Prop) :
  core k v s -> (UInv k (Bac.bpu s) -> wp m (fun a u => Quiet k' (Bac.bpu s) u /\ P a u) (Bac.bpu s)) ->
  (forall a u, core k' v (s <| Bac.bpu := u |>) -> P a u -> Q a (s <| Bac.bpu := u |>)) ->
  wp (zoom Bac.bpu m) Q s.
Proof.
  intros [] Hm HQ. apply wp_zoom. eapply wp_mono; [by apply Hm|]. intros a u [[Hu Eh] HP].
  apply HQ; [|done]. constructor; try done. cbn. congruence.
Qed.

Lemma wp_unit_hist {A} k k' v s (m : M BPU A) (P : A -> BPU -> Prop) (Q : A -> BAC -> Prop) :
  core k v s -> (UInv k (Bac.bpu s) -> wp m (fun a u => UInv k' u /\ P a u) (Bac.bpu s)) ->
  (forall a u, core k' (v <| v_hist := predHist u |>) (s <| Bac.bpu := u |>) -> P a u ->
     Q a (s <| Bac.bpu := u |>)) ->
  wp (zoom Bac.bpu m) Q s.
Proof.
  intros [] Hm HQ. apply wp_zoom. eapply wp_mono; [by apply Hm|]. intros a u [Hu HP].
  apply HQ; [|done]. by constructor.
Qed.

(** *** Ownership of the histories *)
Lemma owned_perm L q L' q' hp nx :
  owned L q hp nx -> L ++ ptrs q ≡ₚ L' ++ ptrs q' -> owned L' q' hp nx.
Proof.
  intros [H1 H2 H3 H4] Hp. constructor; [by rewrite <- Hp| |done..].
  intros a. rewrite (H2 a). by rewrite Hp.
Qed.

Lemma owned_free L q L' q' hp nx a :
  owned L q hp nx -> L ++ ptrs q ≡ₚ a :: (L' ++ ptrs q') -> owned L' q' (delete a hp) nx.
Proof.
  intros [H1 H2 H3 H4] Hp. rewrite Hp in H1. apply list.NoDup_cons in H1 as [Hn H1].
  constructor; [done| |by apply map_Forall_delete..].
  intros b. destruct (decide (b = a)) as [->|Hne].
  - rewrite lookup_delete_eq. split; [by intros [? ?]|done].
  - rewrite lookup_delete_ne by done. rewrite (H2 b), Hp, elem_of_cons. tauto.
Qed.

Lemma owned_alloc L q L' q' hp nx h :
  owned L q hp nx -> HistOk 0 h -> L' ++ ptrs q' ≡ₚ nx :: (L ++ ptrs q) ->
  owned L' q' (<[nx := h]> hp) (nx + 1).
Proof.
  intros [H1 H2 H3 H4] Hh Hp.
  assert (Hnx : hp !! nx = None).
  { destruct (hp !! nx) eqn:E; [|done]. specialize (H4 _ _ E). cbn in H4. lia. }
  constructor.
  - rewrite Hp. constructor; [|done]. rewrite <- H2, Hnx. by intros [? ?].
  - intros b. rewrite Hp, elem_of_cons, <- H2. destruct (decide (b = nx)) as [->|Hne].
    + rewrite lookup_insert_eq. split; [by left|by eexists].
    + rewrite lookup_insert_ne by done. tauto.
  - by apply map_Forall_insert_2.
  - apply map_Forall_insert_2; [lia|]. eapply map_Forall_impl; [exact H4|]. cbn. lia.
Qed.

Lemma wp_load k v s a (Q : Hist -> BAC -> Prop) :
  core k v s -> a ∈ v_loose v ++ ptrs (v_queue v) -> (forall h, HistOk 0 h -> Q h s) -> wp (Bac.load a) Q s.
Proof.
  intros [] Ha HQ. apply (ow_dom _ _ _ _ co_own0) in Ha as [h Eh]. unfold Bac.load.
  apply wp_bind, wp_gets. eapply wp_deref; [exact Eh|]. apply HQ. by apply (ow_ok _ _ _ _ co_own0 _ _ Eh).
Qed.

Lemma ptrs_app q1 q2 : ptrs (q1 ++ q2) = ptrs q1 ++ ptrs q2.
Proof. apply omap_app. Qed.

(** The pointer of the target at position [i] set to [x]. *)
Lemma ptrs_insert q i ft x :
  q !! i = Some ft ->
  ptrs q ≡ₚ option_list (bpuHistory ft) ++ ptrs (take i q ++ drop (S i) q) /\
  ptrs (<[i := ft <| bpuHistory := x |>]> q) ≡ₚ option_list x ++ ptrs (take i q ++ drop (S i) q).
Proof.
  intros E. split.
  - rewrite <- (take_drop_middle q i ft E) at 1. rewrite !ptrs_app.
    change (ft :: drop (S i) q) with ([ft] ++ drop (S i) q). rewrite ptrs_app.
    unfold ptrs at 2. cbn. destruct (bpuHistory ft); cbn; [|done]. by rewrite <- Permutation_middle.
  - rewrite insert_take_drop by (by eapply lookup_lt_Some). rewrite !ptrs_app.
    change (?z :: drop (S i) q) with ([z] ++ drop (S i) q). rewrite ptrs_app.
    unfold ptrs at 2. cbn. destruct x; cbn; [|done]. by rewrite <- Permutation_middle.
Qed.

Definition detach (ft : FetchTarget) : FetchTarget := ft <| bpuHistory := None |>.

Lemma detach_id ft : bpuHistory ft = None -> detach ft = ft.
Proof. destruct ft. cbn. by intros ->. Qed.

Lemma ptrs_detached q : Forall (fun ft => bpuHistory ft = None) q -> ptrs q = [].
Proof. induction 1 as [|ft q H _ IH]; [done|]. unfold ptrs in *. cbn. by rewrite H. Qed.

Lemma path_detach q pc : path (detach <$> q) pc <-> path q pc.
Proof.
  induction q as [|ft q IH]; [done|]. cbn. rewrite IH. by destruct q.
Qed.

Lemma path_tail ft q pc : path (ft :: q) pc -> path q pc.
Proof. by intros [_ ?]. Qed.

Lemma path_snoc q ft pc pc' :
  path q pc -> startPC ft = pc -> predPC ft = Some pc' -> path (q ++ [ft]) pc'.
Proof.
  intros Hq Hs Hp. induction q as [|x q IH]; [done|]. destruct Hq as [H1 H2]. cbn.
  split; [|by apply IH]. rewrite H1. destruct q; cbn; [by rewrite Hs|done].
Qed.

(** ** Squash *)
Context (Hsu : setup hooks 1 k1 k2).
Context (Hdec : decoupledFrontEnd p = true).

Lemma wp_squashTarget k v s ft i (Q : FetchTarget -> BAC -> Prop) :
  core k v s -> v_queue v !! i = Some ft ->
  (forall s', Forall finalized (<[i := detach ft]> (v_queue v)) ->
     owned (v_loose v) (<[i := detach ft]> (v_queue v)) (Bac.heap s') (Bac.nextPtr s') ->
     core k v (s' <| Bac.heap := Bac.heap s |>) -> Bac.nextPtr s' = Bac.nextPtr s ->
     btb (Bac.bpu s') = btb (Bac.bpu s) -> Q (detach ft) s') ->
  wp (Bac.squashTarget 0 ft) Q s.
Proof.
  intros Hs Hi HQ. unfold Bac.squashTarget. destruct (ptrs_insert _ _ _ None Hi) as [Hp1 Hp2].
  assert (Hfin : Forall finalized (<[i := detach ft]> (v_queue v))).
  { apply Forall_insert; [apply Hs|]. apply (Forall_lookup_1 _ _ _ _ (co_fin _ _ _ Hs) Hi). }
  destruct (bpuHistory ft) as [a|] eqn:Ea.
  - apply wp_bind. eapply wp_load; [exact Hs| |].
    { apply elem_of_app. right. rewrite Hp1. cbn. apply list_elem_of_here. }
    intros h Hh. apply wp_bind.
    apply (wp_unit k k v s _ (fun _ u => btb u = btb (Bac.bpu s))); [exact Hs| |].
    { intros Hu. by apply (quiet_squashHistory hooks 1 cap k1 k2 hasRas hasOvr hasInd Hsu). }
    intros [] u Hs1 Eb. apply wp_bind. unfold Bac.free. apply wp_modify, wp_ret.
    apply HQ; [done| |by destruct Hs1|done..].
    cbn. eapply owned_free; [apply Hs|]. rewrite Hp1. unfold detach. rewrite Hp2. cbn.
    by rewrite <- Permutation_middle.
  - apply wp_ret. rewrite <- (detach_id ft Ea) at 1. apply HQ; [done| |by destruct Hs|done..].
    rewrite detach_id, list_insert_id by done. apply Hs.
Qed.

(** The pass from the last target to the first. *)
Lemma wp_forAllBackward j : forall k v s (Q : unit -> BAC -> Prop),
  core k v s -> (j <= length (v_queue v))%nat ->
  Forall (fun ft => bpuHistory ft = None) (drop j (v_queue v)) ->
  (forall s', core k (v <| v_queue := detach <$> v_queue v |>) s' ->
     btb (Bac.bpu s') = btb (Bac.bpu s) -> Q tt s') ->
  wp (Bac.forAllBackward j 0 (Bac.squashTarget 0)) Q s.
Proof.
  induction j as [|i IH]; intros k v s Q Hs Hj Hd HQ; cbn [Bac.forAllBackward].
  { apply wp_ret. apply HQ; [|done]. rewrite drop_0 in Hd.
    assert (E : detach <$> v_queue v = v_queue v).
    { clear -Hd. induction Hd as [|ft q H _ IH]; [done|]. cbn. by rewrite detach_id, IH. }
    destruct v. cbn in E |- *. by rewrite E. }
  destruct (lookup_lt_is_Some_2 (v_queue v) i) as [ft Hi]; [lia|].
  apply wp_bind, wp_zoom. eapply fv_queue; [apply Hs|].
  apply wp_bind. eapply wp_at_index; [exact Hi|]. apply wp_bind.
  eapply wp_squashTarget; [by apply core_query|exact Hi|]. intros s1 Hfin1 Ho1 Hs1 En Eb1.
  apply wp_bind, wp_zoom. eapply fv_queue; [apply Hs1|]. cbn [Bac.b_ftq setf].
  apply wp_bind, wp_zoom. eapply fv_setQueue; [apply Hs1|by eapply same_ids_insert|].
  intros f Hf. apply (IH k (v <| v_queue := <[i := detach ft]> (v_queue v) |>)).
  - destruct Hs1. by constructor.
  - cbn. rewrite length_insert. lia.
  - cbn. rewrite drop_insert_ge by lia. rewrite Nat.sub_diag.
    rewrite (drop_S _ _ _ Hi). cbn. by constructor.
  - cbn. intros s2 Hs2 Eb2. apply HQ; [|exact (eq_trans Eb2 Eb1)]. rewrite list_fmap_insert in Hs2.
    rewrite list_insert_id in Hs2; [exact Hs2|]. rewrite list_lookup_fmap, Hi. cbn. by destruct ft.
Qed.

Lemma wp_squashBpuHistories k v s (Q : unit -> BAC -> Prop) :
  core k v s ->
  (forall s', core k (v <| v_queue := detach <$> v_queue v |>) s' ->
     btb (Bac.bpu s') = btb (Bac.bpu s) -> Q tt s') ->
  wp (Bac.squashBpuHistories p 0) Q s.
Proof.
  intros Hs HQ. unfold Bac.squashBpuHistories. rewrite Hdec. cbn [negb].
  apply wp_bind, wp_zoom. eapply fv_size; [apply Hs|].
  destruct (Z.eqb_spec (Z.of_nat (length (v_queue v))) 0) as [E|E].
  - apply wp_ret. apply HQ; [|done]. destruct (v_queue v) eqn:Eq; [|done]. cbn.
    apply core_query in Hs. destruct v. cbn in Eq. by subst.
  - rewrite Nat2Z.id. eapply (wp_forAllBackward _ k v); [by apply core_query|done| |].
    + by rewrite drop_all.
    + intros s' Hs' Eb. by apply HQ.
Qed.

Definition squashedView (v : View) (pc : PCStateBase) : View :=
  v <| v_queue := [] |> <| v_ftq := Valid |> <| v_status := Squashing |> <| v_pc := pc |>
    <| v_rem := 0 |> <| v_stalls ::= fun x => x <| st_bpu := false |> |>.

Lemma core_emptied k v s f st :
  core k v s -> ptrs (v_queue v) = [] -> fview ent f [] st ->
  core k (v <| v_queue := [] |> <| v_ftq := st |>) (s <| Bac.b_ftq := f |>).
Proof.
  intros [] Hp Hf. constructor; try done. eapply owned_perm; [exact co_own0|]. by rewrite Hp.
Qed.

Lemma detached_all q : Forall (fun ft => bpuHistory ft = None) (detach <$> q).
Proof. apply Forall_fmap, list.Forall_forall. by intros []. Qed.

Lemma wp_bac_squash k v s pc (Q : unit -> BAC -> Prop) :
  core k v s -> Forall (fun ft => bpuHistory ft = None) (v_queue v) ->
  (forall s', core k (squashedView v pc) s' -> Q tt s') -> wp (Bac.squash p pc 0) Q s.
Proof.
  intros Hs Hq HQ. unfold Bac.squash. rewrite Hdec. cbn [negb].
  apply wp_bind, (wr_status k v); [done|]. intros H1. apply wp_bind. eapply wr_pc; [exact H1|]. intros H2.
  apply wp_bind, wp_zoom. eapply fv_squash; [apply H2|done|]. intros f Hf.
  pose proof (core_emptied _ _ _ _ _ H2 (ptrs_detached _ Hq) Hf) as H3.
  apply wp_bind. eapply wr_rem; [exact H3|]. intros H4. apply wp_bind.
  eapply wp_rd; [apply H4|]. eapply wr_stalls; [exact H4|]. intros H5. by apply HQ.
Qed.

(** Both together, as every squash signal does. *)
Lemma wp_squashAll {A} k v s pc (f : unit -> M BAC A) (Q : A -> BAC -> Prop) :
  core k v s -> (forall s', core k (squashedView v pc) s' -> wp (f tt) Q s') ->
  wp (Bac.squashBpuHistories p 0 ;; Bac.squash p pc 0 ≫= f) Q s.
Proof.
  intros Hs HQ. apply wp_bind, (wp_squashBpuHistories k v); [done|]. intros s1 H1 _.
  apply wp_bind. eapply wp_bac_squash; [exact H1|apply detached_all|]. intros s2 H2. by apply HQ.
Qed.
End Inv.
