(* ===== verification/BacOps.v ===== *)
(** * The operations of the BAC stage keep its invariant

    The rules of the signals, of the search for fetch targets, of [tick] and of
    [updatePC], on the views of [BacInv]. *)

From Stdlib Require Import ZArith Lia Sorted.
From stdpp Require Import base list gmap numbers.
From S2P Require Import Prelude Types Btb Ras CondPred Indirect Ftq BPredUnit BPredUnitInv BPredUnitSpec Bac BacBpu BacInv.

Section Ops.
Context {B C HC K1 C2 HC2 K2 I HI : Type}.
Context `{BB : BtbContract B} `{CC : ConditionalContract C HC K1}
  `{CC2 : ConditionalContract C2 HC2 K2} `{II : IndirectContract I HI}.
Context {BS : BtbSearch B} {CP1 : CondPlaceholder C HC K1} {CP2 : CondPlaceholder C2 HC2 K2}
  {CF : CondFirstLevel C HC K1}.
Context (bp : BPUParams) (hooks : option (MLHooks B)).
Context (advancePC : StaticInst -> PCStateBase -> PCStateBase)
  (buildRetPC : StaticInst -> PCStateBase -> PCStateBase -> PCStateBase).
Context (p : BACParams) (ent : Z).
Context (cap : Z) (k1 : K1) (k2 : K2) (hasRas hasOvr hasInd : bool).

Abbreviation BPU := (@BPU B C HC C2 HC2 I HI).
Abbreviation Hist := (@PredictorHistory HC HC2 HI).
Abbreviation BAC := (@Bac.BAC B C HC C2 HC2 I HI).
Abbreviation View := (@View HC HC2 HI).
Abbreviation UInv := (bpu_inv 1 cap k1 k2 hasRas hasOvr hasInd).
Abbreviation HistOk := (hist_ok cap k1 k2 hasRas hasOvr hasInd).
Abbreviation Quiet := (quiet 1 cap k1 k2 hasRas hasOvr hasInd).
Abbreviation Core := (core ent cap k1 k2 hasRas hasOvr hasInd).
Abbreviation Good := (@good HC HC2 HI ent).

(** A configuration of the decoupled front end. *)
Record bac_setup : Prop := {
  bs_unit : setup hooks 1 k1 k2;
  bs_dec : decoupledFrontEnd p = true;
  bs_threads : numThreads p = 1;
  bs_min : 0 < minInstSize p < 2 ^ 32;
  bs_width : 0 <= fetchTargetWidth p < 2 ^ 32;
  bs_ent : 0 < ent
}.
Context (Hsu : bac_setup).

(** ** Signals *)

(** What a squash makes of the histories in flight. *)
Definition squashedHist (sn : Z) (corr : option (PCStateBase * bool)) (l l' : list Hist) : Prop :=
  match corr with
  | None => l' = older sn l
  | Some (t, b) =>
      match older sn l with
      | [] => l' = []
      | h :: rest => exists h', l' = h' :: rest /\ corrected t b h h'
      end
  end.
Definition histStep (sn : Z) (corr : option (PCStateBase * bool)) (hs hs' : list (list Hist)) : Prop :=
  exists l l', hs !! 0%nat = Some l /\ hs' = <[0%nat := l']> hs /\ squashedHist sn corr l l'.

Lemma unit_squash k v s sn (Q : unit -> BAC -> Prop) :
  Core k v s ->
  (forall s' hs, Core k (v <| v_hist := hs |>) s' -> histStep sn None (v_hist v) hs -> Q tt s') ->
  wp (zoom Bac.bpu (BPredUnit.squash sn 0)) Q s.
Proof.
  intros Hs HQ.
  apply (wp_unit_hist ent cap k1 k2 hasRas hasOvr hasInd k k v s _
    (fun _ u => histStep sn None (v_hist v) (predHist u))); [done| |].
  - intros Hu. eapply wp_mono.
    { apply (wp_squash_exact hooks 1 cap k1 k2 hasRas hasOvr hasInd (bs_unit Hsu) k); [done|lia]. }
    intros [] u (Hu' & l & El & Eh). split; [done|]. exists l, (older sn l).
    by rewrite <- (co_hist _ _ _ _ _ _ _ _ _ _ Hs).
  - intros [] u Hc HP. by eapply HQ.
Qed.

Lemma unit_squashCorrect k v s sn t b fc (Q : unit -> BAC -> Prop) :
  Core k v s ->
  (forall s' hs, Core k (v <| v_hist := hs |>) s' -> histStep sn (Some (t, b)) (v_hist v) hs -> Q tt s') ->
  wp (zoom Bac.bpu (squashCorrect bp hooks buildRetPC sn t b 0 fc)) Q s.
Proof.
  intros Hs HQ.
  apply (wp_unit_hist ent cap k1 k2 hasRas hasOvr hasInd k k v s _
    (fun _ u => histStep sn (Some (t, b)) (v_hist v) (predHist u))); [done| |].
  - intros Hu. eapply wp_mono.
    { apply (wp_squashCorrect_exact bp hooks buildRetPC 1 cap k1 k2 hasRas hasOvr hasInd (bs_unit Hsu) k);
        [done|lia]. }
    intros [] u (Hu' & l & l' & El & Eh & Hc). split; [done|]. exists l, l'.
    by rewrite <- (co_hist _ _ _ _ _ _ _ _ _ _ Hs).
  - intros [] u Hc HP. by eapply HQ.
Qed.

Definition committedHist (sn : Z) (hs hs' : list (list Hist)) : Prop :=
  if sn =? 0 then hs' = hs
  else exists l, hs !! 0%nat = Some l /\ hs' = <[0%nat := younger sn l]> hs.

Lemma unit_commit k v s sn (Q : unit -> BAC -> Prop) :
  Core k v s ->
  (forall s' hs, Core k (v <| v_hist := hs |>) s' -> committedHist sn (v_hist v) hs -> Q tt s') ->
  wp (when (negb (sn =? 0)) (zoom Bac.bpu (update bp hooks sn 0))) Q s.
Proof.
  intros Hs HQ. unfold committedHist in HQ. destruct (sn =? 0).
  { apply wp_ret. apply (HQ s (v_hist v)); [|done]. by destruct v. }
  apply (wp_unit_hist ent cap k1 k2 hasRas hasOvr hasInd k k v s _
    (fun _ u => exists l, v_hist v !! 0%nat = Some l /\ predHist u = <[0%nat := younger sn l]> (v_hist v)));
    [done| |].
  - intros Hu. eapply wp_mono.
    { apply (wp_update_exact bp hooks 1 cap k1 k2 hasRas hasOvr hasInd (bs_unit Hsu) k); [done|lia]. }
    intros [] u (Hu' & l & El & Eh). split; [done|]. exists l.
    by rewrite <- (co_hist _ _ _ _ _ _ _ _ _ _ Hs).
  - intros [] u Hc HP. by eapply HQ.
Qed.

Definition commitCorrection (c : CommitComm) (pc : PCStateBase) : option (PCStateBase * bool) :=
  match cc_mispredictInst c with
  | Some i => if isControl i then Some (pc, cc_branchTaken c) else None
  | None => None
  end.
Definition decodeCorrection (d : DecodeComm) (pc : PCStateBase) : option (PCStateBase * bool) :=
  if dc_branchMispredict d then Some (pc, dc_branchTaken d) else None.

Abbreviation squashed v pc hs := ((squashedView v pc) <| v_hist := hs |>).

Lemma wp_squashFromCommit k v s c pc (Q : unit -> BAC -> Prop) :
  Core k v s -> cc_pc c = Some pc ->
  (forall s' hs, Core k (squashed v pc hs) s' ->
     histStep (cc_doneSeqNum c) (commitCorrection c pc) (v_hist v) hs -> Q tt s') ->
  wp (Bac.squashFromCommit bp hooks buildRetPC p c 0) Q s.
Proof.
  intros Hs Hpc HQ. unfold Bac.squashFromCommit. apply wp_bind. eapply wp_deref; [exact Hpc|].
  eapply (wp_squashAll hooks p ent cap k1 k2 hasRas hasOvr hasInd (bs_unit Hsu) (bs_dec Hsu)); [exact Hs|].
  intros s1 H1. unfold commitCorrection in HQ.
  assert (Hno : wp (zoom Bac.bpu (BPredUnit.squash (cc_doneSeqNum c) 0) ;; Bac.stat BA_noBranchMisspredict)
    (fun a s' => exists hs, Core k (squashed v pc hs) s' /\ histStep (cc_doneSeqNum c) None (v_hist v) hs) s1).
  { apply wp_bind. eapply unit_squash; [exact H1|]. intros s2 hs H2 Hh.
    eapply wp_bac_stat; [exact H2|]. intros H3. by exists hs. }
  destruct (cc_mispredictInst c) as [i|].
  - destruct (isControl i).
    + apply wp_bind. eapply unit_squashCorrect; [exact H1|]. intros s2 hs H2 Hh.
      apply wp_bind. eapply wp_bac_stat; [exact H2|]. intros H3.
      eapply wp_bac_stat; [exact H3|]. intros H4. by eapply HQ.
    + eapply wp_mono; [exact Hno|]. intros [] s2 (hs & H2 & Hh). by eapply HQ.
  - eapply wp_mono; [exact Hno|]. intros [] s2 (hs & H2 & Hh). by eapply HQ.
Qed.

Lemma wp_squashFromDecode k v s d pc (Q : unit -> BAC -> Prop) :
  Core k v s -> dc_nextPC d = Some pc ->
  (forall s' hs, Core k (squashed v pc hs) s' ->
     histStep (dc_doneSeqNum d) (decodeCorrection d pc) (v_hist v) hs -> Q tt s') ->
  wp (Bac.squashFromDecode bp hooks buildRetPC p d 0) Q s.
Proof.
  intros Hs Hpc HQ. unfold Bac.squashFromDecode. apply wp_bind. eapply wp_deref; [exact Hpc|].
  eapply (wp_squashAll hooks p ent cap k1 k2 hasRas hasOvr hasInd (bs_unit Hsu) (bs_dec Hsu)); [exact Hs|].
  intros s1 H1. unfold decodeCorrection in HQ. destruct (dc_branchMispredict d); apply wp_bind.
  - eapply unit_squashCorrect; [exact H1|]. intros s2 hs H2 Hh.
    apply wp_bind. eapply wp_bac_stat; [exact H2|]. intros H3.
    eapply wp_bac_stat; [exact H3|]. intros H4. by eapply HQ.
  - eapply unit_squash; [exact H1|]. intros s2 hs H2 Hh. eapply wp_bac_stat; [exact H2|]. intros H3. by eapply HQ.
Qed.

(** The stage that redirects the front end, with its PC. *)
Definition resteer (sig : TimeStruct) (x : ThreadStatus) : option (option PCStateBase) :=
  if cc_squash (commitInfo sig 0) then Some (cc_pc (commitInfo sig 0))
  else if dc_squash (decodeInfo sig 0) then Some (dc_nextPC (decodeInfo sig 0))
  else if fc_squash (fetchInfo sig 0) && negb (bool_decide (x = Squashing))
  then Some (fc_nextPC (fetchInfo sig 0))
  else None.

(** A stage that signals a squash sends a PC. *)
Definition sig_ok (sig : TimeStruct) : Prop :=
  (cc_squash (commitInfo sig 0) = true -> is_Some (cc_pc (commitInfo sig 0))) /\
  (dc_squash (decodeInfo sig 0) = true -> is_Some (dc_nextPC (decodeInfo sig 0))) /\
  (fc_squash (fetchInfo sig 0) = true -> is_Some (fc_nextPC (fetchInfo sig 0))).

(** What the signals do to the histories in flight. *)
Definition signalled (sig : TimeStruct) (hs hs' : list (list Hist)) : Prop :=
  let c := commitInfo sig 0 in
  let d := decodeInfo sig 0 in
  if cc_squash c then
    forall pc, cc_pc c = Some pc -> histStep (cc_doneSeqNum c) (commitCorrection c pc) hs hs'
  else exists hs1, committedHist (cc_doneSeqNum c) hs hs1 /\
    if dc_squash d then
      forall pc, dc_nextPC d = Some pc -> histStep (dc_doneSeqNum d) (decodeCorrection d pc) hs1 hs'
    else hs' = hs1.

Lemma wp_signals k v s sig (Q : bool -> BAC -> Prop) :
  Core k v s -> sig_ok sig ->
  (forall s' hs pc, resteer sig (v_status v) = Some (Some pc) -> Core k (squashed v pc hs) s' ->
     signalled sig (v_hist v) hs -> Q true s') ->
  (forall s' hs, resteer sig (v_status v) = None -> Core k (v <| v_hist := hs |>) s' ->
     signalled sig (v_hist v) hs -> Q false s') ->
  wp (Bac.checkAndUpdateBPUSignals bp hooks buildRetPC p sig 0) Q s.
Proof.
  intros Hs (Hc & Hd & Hf) HQ1 HQ2. unfold Bac.checkAndUpdateBPUSignals.
  unfold resteer, signalled in *. destruct (cc_squash (commitInfo sig 0)).
  { destruct (Hc eq_refl) as [pc Epc]. apply wp_bind. eapply wp_squashFromCommit; [exact Hs|exact Epc|].
    intros s1 hs H1 Hh. apply wp_ret. eapply (HQ1 s1 hs pc); [by rewrite Epc|done|].
    intros pc' Epc'. by simplify_eq. }
  apply wp_bind. eapply unit_commit; [exact Hs|]. intros s1 hs1 H1 Hh1.
  destruct (dc_squash (decodeInfo sig 0)).
  { destruct (Hd eq_refl) as [pc Epc]. apply wp_bind. eapply wp_squashFromDecode; [exact H1|exact Epc|].
    intros s2 hs H2 Hh2. apply wp_ret. eapply (HQ1 s2 hs pc); [by rewrite Epc|done|].
    exists hs1. split; [done|]. intros pc' Epc'. by simplify_eq. }
  apply wp_bind. eapply wp_rd; [apply H1|]. cbn [v_status setf].
  destruct (fc_squash (fetchInfo sig 0) && negb (bool_decide (v_status v = Squashing))) eqn:Ef.
  - apply andb_true_iff in Ef as [Ef _]. destruct (Hf Ef) as [pc Epc].
    apply wp_bind. eapply wp_deref; [exact Epc|].
    eapply (wp_squashAll hooks p ent cap k1 k2 hasRas hasOvr hasInd (bs_unit Hsu) (bs_dec Hsu)); [exact H1|].
    intros s2 H2. apply wp_ret. eapply (HQ1 s2 hs1 pc); [by rewrite Epc|done|]. by exists hs1.
  - apply wp_ret. apply (HQ2 s1 hs1); [done..|]. by exists hs1.
Qed.

(** ** The status *)

Definition stallStep (v : View) : View :=
  if 0 <? v_rem v then
    v <| v_rem := u64 (v_rem v - 1) |> <| v_stalls ::= fun x => x <| st_bpu := true |> |>
  else v <| v_stalls ::= fun x => x <| st_bpu := false |> |>.
Definition overrideStep (v : View) : View :=
  if st_bpu (v_stalls v) then v <| v_status := Overriding |> else v.
Definition statusStep (v : View) : View :=
  match Bac.nextStatus (v_status v) (negb (bool_decide (v_ftq v = Invalid)))
          (bool_decide (v_ftq v = Locked)) (ent <=? Z.of_nat (length (v_queue v)))
          (st_bpu (v_stalls v)) with
  | Some x => v <| v_status := x |>
  | None => v
  end.

(** A cycle without signals. *)
Definition quietStep (v : View) : View := statusStep (overrideStep (stallStep v)).

Lemma wp_updateBpuStall k v s (Q : unit -> BAC -> Prop) :
  Core k v s -> (0 < v_rem v \/ st_bpu (v_stalls v) = true -> is_Some (v_block v)) ->
  (forall s', Core k (stallStep v) s' -> Q tt s') -> wp (Bac.updateBpuStall 0) Q s.
Proof.
  intros Hs Hb HQ. unfold Bac.updateBpuStall, stallStep in *.
  apply wp_bind. eapply wp_rd; [apply Hs|]. apply wp_bind. eapply wp_rd; [apply Hs|].
  destruct (Z.ltb_spec 0 (v_rem v)).
  - apply wp_bind. eapply wp_lift.
    { unfold Cyc.decr. destruct (Z.eqb_spec (v_rem v) 0); [lia|]. reflexivity. }
    apply wp_bind. eapply wr_rem; [exact Hs|]. intros H1. eapply wr_stalls; [exact H1|]. intros H2. by apply HQ.
  - apply wp_bind, wp_gets, wp_bind.
    apply (wp_mono _ (fun _ s' => Core k v s')).
    { destruct (st_bpu (v_stalls v) && Bac.fetch_blocked s) eqn:E; cbn [when]; [|by apply wp_ret].
      apply andb_true_iff in E as [E _]. destruct Hb as [i Hi]; [by right|].
      apply wp_bind, wp_gets. rewrite (co_block _ _ _ _ _ _ _ _ _ _ Hs), Hi.
      by eapply wp_bac_stat; [exact Hs|]. }
    intros [] s1 H1. apply wp_bind, wp_modify. eapply (wr_stalls ent cap k1 k2 hasRas hasOvr hasInd k v).
    { destruct H1. by constructor. }
    intros H2. by apply HQ.
Qed.

Lemma wp_query {A} k v s (m : M FTQ A) a (f : A -> M BAC bool) (Q : bool -> BAC -> Prop) :
  Core k v s -> (forall P : A -> FTQ -> Prop, P a (Bac.b_ftq s) -> wp m P (Bac.b_ftq s)) ->
  (forall s', Core k v s' -> wp (f a) Q s') -> wp (zoom Bac.b_ftq m ≫= f) Q s.
Proof. intros Hs Hm HQ. apply wp_bind, wp_zoom, Hm, HQ. by apply core_query. Qed.

(** The stalled thread of a draining CPU. *)
Definition drainedView (v : View) : View :=
  v <| v_queue := [] |> <| v_ftq := Valid |> <| v_status := Idle |>.

Lemma wp_checkSignals k v s isDraining sig (Q : bool -> BAC -> Prop) :
  Core k v s -> Good v -> sig_ok sig -> (st_drain (v_stalls v) = true -> isDraining = true) ->
  (forall s' hs pc, resteer sig (v_status v) = Some (Some pc) -> Core k (squashed v pc hs) s' ->
     signalled sig (v_hist v) hs -> Q true s') ->
  (forall s' hs, resteer sig (v_status v) = None -> st_drain (v_stalls v) = true ->
     Core k ((drainedView v) <| v_hist := hs |>) s' -> signalled sig (v_hist v) hs -> Q true s') ->
  (forall r s' hs, resteer sig (v_status v) = None -> st_drain (v_stalls v) = false ->
     Core k ((quietStep v) <| v_hist := hs |>) s' -> signalled sig (v_hist v) hs -> Q r s') ->
  wp (Bac.checkSignalsAndUpdate bp hooks buildRetPC p isDraining sig 0) Q s.
Proof.
  intros Hs Hg Hsig Hdr HQ1 HQ2 HQ3. unfold Bac.checkSignalsAndUpdate. apply wp_bind.
  eapply wp_signals; [exact Hs|exact Hsig| |].
  { intros s1 hs pc Hr H1 Hh. apply wp_ret. by eapply HQ1. }
  intros s1 hs Hr H1 Hh. apply wp_bind. eapply wp_rd; [apply H1|]. cbn [v_stalls setf].
  destruct (st_drain (v_stalls v)) eqn:Ed.
  { apply wp_bind, wp_massert; [by apply Hdr|]. apply wp_bind.
    eapply (wp_squashBpuHistories hooks p ent cap k1 k2 hasRas hasOvr hasInd (bs_unit Hsu) (bs_dec Hsu)); [exact H1|].
    intros s2 H2 _. apply wp_bind, wp_zoom. eapply fv_squash; [apply H2|apply detached_all|]. intros f Hf.
    pose proof (core_emptied _ _ _ _ _ _ _ _ _ _ _ _ H2 (ptrs_detached _ (detached_all _)) Hf) as H3.
    apply wp_bind. eapply wr_status; [exact H3|]. intros H4. apply wp_ret. by eapply (HQ2 _ hs). }
  apply wp_bind. eapply wp_updateBpuStall; [exact H1|apply Hg|]. intros s2 H2.
  set (w := v <| v_hist := hs |>) in *.
  assert (Ew : (quietStep v) <| v_hist := hs |> = quietStep w).
  { unfold w, quietStep, statusStep, overrideStep, stallStep. cbn. destruct (0 <? v_rem v); cbn;
      (destruct (Bac.nextStatus _ _ _ _ _); reflexivity). }
  apply wp_bind. eapply wp_rd; [apply H2|].
  assert (Hfe : st_fetch (v_stalls (stallStep w)) = false).
  { unfold stallStep. destruct (0 <? v_rem w); apply Hg. }
  rewrite Hfe. apply wp_bind.
  apply (wp_mono _ (fun _ s' => Core k (overrideStep (stallStep w)) s')).
  { unfold overrideStep. destruct (st_bpu (v_stalls (stallStep w))); cbn [when]; [|by apply wp_ret].
    eapply wr_status; [exact H2|done]. }
  intros [] s3 H3.
  assert (Est : v_stalls (overrideStep (stallStep w)) = v_stalls (stallStep w)).
  { unfold overrideStep. by destruct (st_bpu _). }
  rewrite <- Est. clear Est Hfe H2 s2.
  eapply wp_query; [exact H3|intros P; eapply fv_isReady; apply H3|]. intros s4 H4. clear s3 H3.
  eapply wp_query; [exact H4|intros P; eapply fv_isLocked; apply H4|]. intros s5 H5. clear s4 H4.
  eapply wp_query; [exact H5|intros P; eapply fv_isFull; apply H5|]. intros s6 H6. clear s5 H5.
  apply wp_bind. eapply wp_rd; [apply H6|].
  assert (HQ3' : forall r s', Core k (quietStep w) s' -> Q r s').
  { intros r s' H. eapply HQ3; [exact Hr|done|by rewrite Ew|done]. }
  unfold quietStep, statusStep in HQ3'. destruct (Bac.nextStatus _ _ _ _ _) as [x|].
  - apply wp_bind. eapply wr_status; [exact H6|]. intros H7. apply wp_ret. by apply HQ3'.
  - apply wp_ret. by apply HQ3'.
Qed.

(** The invariant after a cycle's signals; a thread that may run is not waiting
    for the predictor. *)
Definition ready (v : View) : Prop :=
  v_status v = Running -> ~ 0 < v_rem v /\ st_bpu (v_stalls v) = false.

Lemma good_hist v hs : Good v -> Good (v <| v_hist := hs |>).
Proof. intros []. by constructor. Qed.

Lemma good_squashed v pc : Good v -> Good (squashedView v pc) /\ ready (squashedView v pc).
Proof.
  intros []. split; [|by intros ?]. constructor; cbn; try done; by intros [?|?].
Qed.

Lemma good_drained v : Good v -> Good (drainedView v) /\ ready (drainedView v).
Proof. intros []. split; [|by intros ?]. constructor; cbn; try done. by intros [?|?]. Qed.

(** What the status tests let through. *)
Lemma nextStatus_facts x r l f b :
  let x' := default x (Bac.nextStatus x r l f b) in
  (x' = Running \/ x' = Overriding -> f = false \/ x = Squashing \/ (x = FTQLocked /\ l = false /\ r = true)) /\
  x' <> Squashing /\
  (x' = FTQLocked -> l = true \/ x = FTQLocked) /\
  (x' = Running -> x = Overriding -> b = false).
Proof. destruct x, r, l, f, b; vm_compute; split_and!; intros; destruct_or?; tauto || done. Qed.

Lemma good_quiet v : Good v -> Good (quietStep v) /\ ready (quietStep v).
Proof.
  intros [Hroom Hsq Hlk Hbl Hfe Hpa Hlo]. pose proof (bs_ent Hsu) as Hent.
  assert (H1 : v_queue (quietStep v) = v_queue v /\ v_ftq (quietStep v) = v_ftq v /\
    v_pc (quietStep v) = v_pc v /\ v_loose (quietStep v) = v_loose v /\ v_block (quietStep v) = v_block v).
  { unfold quietStep, statusStep, overrideStep, stallStep. destruct (0 <? v_rem v); cbn;
      (destruct (Bac.nextStatus _ _ _ _ _); done). }
  destruct H1 as (E1 & E2 & E3 & E4 & E5).
  assert (H2 : st_fetch (v_stalls (quietStep v)) = false /\
    (0 < v_rem (quietStep v) \/ st_bpu (v_stalls (quietStep v)) = true -> 0 < v_rem v) /\
    (0 < v_rem (quietStep v) -> st_bpu (v_stalls (quietStep v)) = true)).
  { unfold quietStep, statusStep, overrideStep, stallStep. destruct (Z.ltb_spec 0 (v_rem v)); cbn;
      (destruct (Bac.nextStatus _ _ _ _ _); cbn; split_and!; try done; try lia; intros [?|?]; (lia || done)). }
  destruct H2 as (F1 & F2 & F3).
  set (u := overrideStep (stallStep v)).
  assert (Es : v_stalls (quietStep v) = v_stalls u).
  { unfold quietStep, statusStep. fold u. by destruct (Bac.nextStatus _ _ _ _ _). }
  assert (Eq : v_status (quietStep v) = default (v_status u) (Bac.nextStatus (v_status u)
    (negb (bool_decide (v_ftq v = Invalid))) (bool_decide (v_ftq v = Locked))
    (ent <=? Z.of_nat (length (v_queue v))) (st_bpu (v_stalls (quietStep v))))).
  { rewrite Es. replace (v_ftq v) with (v_ftq u) by (unfold u, overrideStep, stallStep; by destruct (0 <? v_rem v)).
    replace (v_queue v) with (v_queue u) by (unfold u, overrideStep, stallStep; by destruct (0 <? v_rem v)).
    unfold quietStep, statusStep. fold u. by destruct (Bac.nextStatus _ _ _ _ _). }
  assert (Eu : v_status u = if st_bpu (v_stalls (quietStep v)) then Overriding else v_status v).
  { rewrite Es. unfold u, overrideStep, stallStep. by destruct (0 <? v_rem v). }
  assert (H3 : (v_status (quietStep v) = Running \/ v_status (quietStep v) = Overriding ->
      Z.of_nat (length (v_queue v)) < ent) /\
    v_status (quietStep v) <> Squashing /\
    (v_status (quietStep v) = FTQLocked -> v_ftq v = Locked \/ v_ftq v = Invalid) /\
    (v_status (quietStep v) = Running -> st_bpu (v_stalls (quietStep v)) = false)).
  { destruct (nextStatus_facts (v_status u) (negb (bool_decide (v_ftq v = Invalid)))
      (bool_decide (v_ftq v = Locked)) (ent <=? Z.of_nat (length (v_queue v)))
      (st_bpu (v_stalls (quietStep v)))) as (N1 & N2 & N3 & N4).
    rewrite <- Eq in N1, N2, N3, N4. rewrite Eu in *.
    destruct (st_bpu (v_stalls (quietStep v))) eqn:Eb; split_and!; try done.
    - intros Hx. destruct (N1 Hx) as [Hf|[?|[? _]]]; [|done..]. by apply Z.leb_gt in Hf.
    - intros [Hl|?]%N3; [|done]. left. by apply bool_decide_eq_true in Hl.
    - intros Hx. by specialize (N4 Hx eq_refl).
    - intros Hx. destruct (N1 Hx) as [Hf|[Hf|(Hf & Hl & Hr)]]; [by apply Z.leb_gt in Hf| |].
      + rewrite (Hsq Hf). cbn. lia.
      + destruct (Hlk Hf) as [E|E]; rewrite E in *; done.
    - intros [Hl|?]%N3; [|by apply Hlk]. left. by apply bool_decide_eq_true in Hl. }
  destruct H3 as (G1 & G2 & G3 & G4). split.
  - constructor; rewrite ?E1, ?E2, ?E3, ?E4, ?E5; auto. by intros ?%G2.
  - intros Hr. split; [|by apply G4]. intros Hlt. specialize (F3 Hlt). rewrite (G4 Hr) in F3. done.
Qed.

(** ** Fetch targets *)

Lemma wp_unit_quiet {A} k v s (m : M BPU A) (P : A -> BPU -> Prop) (Q : A -> BAC -> Prop) :
  Core k v s -> (UInv k (Bac.bpu s) -> wp m (fun a u => Quiet k (Bac.bpu s) u /\ P a u) (Bac.bpu s)) ->
  (forall a u, Core k v (s <| Bac.bpu := u |>) -> P a u -> Q a (s <| Bac.bpu := u |>)) ->
  wp (zoom Bac.bpu m) Q s.
Proof. apply wp_unit. Qed.

Lemma wp_newFetchTarget k v s pc (Q : FetchTarget -> BAC -> Prop) :
  Core k v s ->
  (forall n s', Core k v s' -> Q (FT.make 0 pc n) s') -> wp (Bac.newFetchTarget 0 pc) Q s.
Proof.
  intros Hs HQ. unfold Bac.newFetchTarget. apply wp_bind, wp_gets, wp_bind, wp_modify, wp_bind.
  eapply (wp_bac_stat ent cap k1 k2 hasRas hasOvr hasInd k v); [destruct Hs; by constructor|].
  intros H1. apply wp_ret. by apply HQ.
Qed.

(** The search ends: every round moves [minInstSize] further. *)
Lemma search_advance start addr :
  u64 (addr - start) < fetchTargetWidth p ->
  u64 (u64 (addr + minInstSize p) - start) = u64 (addr - start) + minInstSize p.
Proof.
  intros Hlt. pose proof (bs_min Hsu). pose proof (bs_width Hsu). unfold u64 in *.
  pose proof (Z.mod_pos_bound (addr - start) (2 ^ 64) ltac:(lia)).
  rewrite Zminus_mod_idemp_l. replace (addr + minInstSize p - start) with (addr - start + minInstSize p) by lia.
  rewrite <- Zplus_mod_idemp_l. apply Z.mod_small. lia.
Qed.

Lemma wp_searchBTB fuel : forall k v s start addr (Q : Addr * bool -> BAC -> Prop),
  Core k v s -> fetchTargetWidth p - u64 (addr - start) <= Z.of_nat fuel ->
  (forall r u, Core k v (s <| Bac.bpu := u |>) -> (snd r = true -> bt_found (btb u) 0 (fst r)) ->
     Q r (s <| Bac.bpu := u |>)) ->
  wp (Bac.searchBTB p fuel 0 start addr) Q s.
Proof.
  induction fuel as [|m IH]; intros k v s start addr Q Hs Hf HQ; cbn [Bac.searchBTB]; apply wp_bind;
    (eapply (wp_unit_quiet k v); [exact Hs|intros Hu; by apply quiet_valid|]); intros r u H1 Hr; cbn beta;
    (destruct r; [apply wp_ret, HQ; auto|]);
    destruct (Z.leb_spec (fetchTargetWidth p) (u64 (addr - start))).
  - apply wp_ret. by apply HQ.
  - lia.
  - apply wp_ret. by apply HQ.
  - eapply (IH k v); [exact H1| |].
    + rewrite search_advance by done. pose proof (bs_min Hsu). lia.
    + intros r u' H2 Hr'. by apply HQ.
Qed.

Lemma wp_searchBlock k v s addr (Q : Addr * bool -> BAC -> Prop) :
  Core k v s ->
  (forall r u, Core k v (s <| Bac.bpu := u |>) -> (snd r = true -> bt_found (btb u) 0 (fst r)) ->
     Q r (s <| Bac.bpu := u |>)) ->
  wp (Bac.searchBlock p 0 addr) Q s.
Proof.
  intros Hs HQ. unfold Bac.searchBlock. apply wp_bind, wp_zoom. unfold lookupBBBranch. apply wp_gets.
  set (br := default MaxAddr _). set (s0 := s <| Bac.bpu := _ |>).
  assert (H0 : Core k v s0) by (destruct Hs; by constructor). apply wp_bind.
  apply (wp_mono _ (fun (f : bool) s' => exists u, s' = s <| Bac.bpu := u |> /\
    Core k v (s <| Bac.bpu := u |>) /\ (f = true -> bt_found (btb u) 0 br))).
  - destruct (_ || _).
    + apply wp_bind. eapply (wp_unit_quiet k v); [exact H0|intros Hu; by apply quiet_record|].
      intros [] u H1 _. apply wp_ret. by exists u.
    + apply wp_bind. eapply (wp_unit_quiet k v); [exact H0|intros Hu; by apply quiet_valid|].
      intros [] u H1 Hf.
      * apply wp_ret. exists u. by split_and!.
      * apply wp_bind. eapply (wp_unit_quiet k v); [exact H1|intros Hu; by apply quiet_record|].
        intros [] u' H2 _. apply wp_ret. by exists u'.
  - intros f s' (u & -> & H1 & Hf). apply wp_ret. destruct f; (apply HQ; [done|]); [auto|done].
Qed.

Lemma wp_findBranch k v s addr (Q : Addr * bool -> BAC -> Prop) :
  Core k v s ->
  (forall r u, Core k v (s <| Bac.bpu := u |>) -> (snd r = true -> bt_found (btb u) 0 (fst r)) ->
     Q r (s <| Bac.bpu := u |>)) ->
  wp (Bac.findBranch p 0 addr) Q s.
Proof.
  intros Hs HQ. unfold Bac.findBranch. destruct (blockBTB p); [by eapply wp_searchBlock|].
  eapply wp_searchBTB; [exact Hs| |exact HQ]. rewrite Z.sub_diag. pose proof (bs_width Hsu).
  change (u64 0) with 0. lia.
Qed.

Lemma wp_advanceL1 k v s (Q : unit -> BAC -> Prop) :
  Core k v s -> (forall s', Core k v s' -> Q tt s') -> wp (Bac.advanceL1PredPC p) Q s.
Proof.
  intros Hs HQ. unfold Bac.advanceL1PredPC. apply wp_bind, wp_gets, wp_bind, wp_zoom.
  unfold lookupBBBranch. apply wp_gets, wp_bind.
  eapply (wp_unit_quiet k v _ _ (fun _ _ => True)); [destruct Hs; by constructor| |].
  { intros Hu. eapply wp_mono.
    { apply (quiet_predictL1 hooks 1 cap k1 k2 hasRas hasOvr hasInd (bs_unit Hsu) k); [done|lia]. }
    done. }
  intros t u H1 _. destruct (t =? MaxAddr); apply wp_bind, wp_modify;
    (eapply (wp_bac_stat ent cap k1 k2 hasRas hasOvr hasInd k v); [destruct H1; by constructor|]);
    intros H2; by apply HQ.
Qed.

Lemma wp_alloc k v s h (Q : Z -> BAC -> Prop) :
  Core k v s -> v_loose v = [] -> HistOk 0 h ->
  (forall a s', Core k (v <| v_loose := [a] |>) s' -> Q a s') -> wp (Bac.alloc h) Q s.
Proof.
  intros Hs Hl Hh HQ. unfold Bac.alloc. apply wp_bind, wp_gets, wp_bind, wp_modify, wp_ret.
  apply HQ. destruct Hs. constructor; try done. cbn.
  eapply owned_alloc; [exact co_own|done|]. by rewrite Hl.
Qed.

Lemma wp_predictBranch k v s start pc ft (Q : bool * StaticInst * PCStateBase * FetchTarget -> BAC -> Prop) :
  Core k v s -> k + 1 < 2 ^ 64 - 1 -> bt_found (btb (Bac.bpu s)) 0 (instAddr pc) ->
  v_loose v = [] -> bpuHistory ft = None ->
  (forall taken i next n a s', Core (k + 1) (v <| v_loose := [a] |> <| v_rem := n |>) s' ->
     Q (taken, i, next, ft <| bpuHistory := Some a |>) s') ->
  wp (Bac.predictBranch bp hooks advancePC buildRetPC p 0 start pc ft) Q s.
Proof.
  intros Hs Hk Hf Hl Hh HQ. unfold Bac.predictBranch. apply wp_bind.
  eapply (wp_unit_quiet k v); [exact Hs|intros Hu; by apply quiet_getInst|].
  intros o u H1 ([i ->] & Hf1). apply wp_bind.
  apply (wp_mono _ (fun _ s' => Core k v s' /\ bt_found (btb (Bac.bpu s')) 0 (instAddr pc))).
  { destruct (blockBTB p); cbn [when]; [|by apply wp_ret].
    eapply (wp_unit_quiet k v); [exact H1|intros Hu; by apply quiet_setBlock|].
    intros [] u' H2 Eb. split; [done|]. cbn in *. by rewrite Eb. }
  intros [] s2 [H2 Hf2]. unfold Bac.predict. apply wp_bind, wp_bind, wp_massert; [by rewrite Hh|].
  apply wp_bind.
  eapply (wp_unit ent cap k1 k2 hasRas hasOvr hasInd k (k + 1) v s2 _ (fun r _ => HistOk 0 (snd r))); [exact H2| |].
  { intros Hu. eapply wp_mono.
    { apply (quiet_predict bp hooks advancePC buildRetPC 1 cap k1 k2 hasRas hasOvr hasInd (bs_unit Hsu) k);
        [done|done|lia|done]. }
    intros r u' (? & ? & _). done. }
  intros [[pr next] h] u3 H3 Hh3. apply wp_bind. eapply wp_alloc; [exact H3|done|done|].
  intros a s4 H4. apply wp_ret. cbn [fst]. apply wp_bind. eapply wr_rem; [exact H4|]. intros H5.
  apply wp_bind. eapply wp_bac_stat; [exact H5|]. intros H6. apply wp_bind.
  destruct (pred_taken pr); cbn [when].
  - eapply wp_bac_stat; [exact H6|]. intros H7. apply wp_ret. by apply (HQ _ _ _ (pred_latency pr)).
  - apply wp_ret, wp_ret. by apply (HQ _ _ _ (pred_latency pr)).
Qed.

Lemma wp_insert k v s ft (Q : unit -> BAC -> Prop) :
  Core k v s -> v_loose v = option_list (bpuHistory ft) -> ft_tid ft = 0 -> is_override_ft ft = false ->
  finalized ft -> Z.of_nat (length (v_queue v)) < ent ->
  (forall s', Core k (v <| v_queue ::= fun q => q ++ [ft] |> <| v_loose := [] |>) s' -> Q tt s') ->
  wp (zoom Bac.b_ftq (Ftq.insert 0 ft)) Q s.
Proof.
  intros Hs Hl Ht Ho Hfin Hr HQ. apply wp_zoom. eapply fv_insert; [apply Hs|done|done|].
  rewrite Ho. intros f Hf. apply HQ. destruct Hs. constructor; try done; cbn.
  - eapply owned_perm; [exact co_own|]. rewrite Hl, ptrs_app.
    replace (ptrs [ft]) with (option_list (bpuHistory ft)) by (unfold ptrs; cbn; by destruct (bpuHistory ft)).
    by rewrite Permutation_app_comm.
  - apply Forall_app. split; [done|by constructor].
Qed.

(** What [generateFetchTargets] does to a view: it appends targets. *)
Record extended (v v' : View) (new : list FetchTarget) : Prop := {
  ex_queue : v_queue v' = v_queue v ++ new;
  ex_start : match new with [] => v_pc v' = v_pc v | ft :: _ => startPC ft = v_pc v end;
  ex_ftq : v_ftq v' = v_ftq v;
  ex_hist : v_hist v' = v_hist v;
  ex_stalls : v_stalls v' = v_stalls v;
  ex_status : v_status v' = Running \/ v_status v' = FTQFull
}.

(** The branch at the end of a target, or none. *)
Lemma wp_endOfTarget k v s found start pc ft
    (Q : bool * option StaticInst * PCStateBase * FetchTarget -> BAC -> Prop) :
  Core k v s -> k + 1 < 2 ^ 64 - 1 -> (found = true -> bt_found (btb (Bac.bpu s)) 0 (instAddr pc)) ->
  v_loose v = [] -> bpuHistory ft = None ->
  (forall taken oi next x n s',
     Core (k + 1) (v <| v_loose := option_list x |> <| v_rem := n |>) s' -> (oi = None -> n = v_rem v) ->
     Q (taken, oi, next, ft <| bpuHistory := x |>) s') ->
  wp (if found : bool then
        x ← Bac.predictBranch bp hooks advancePC buildRetPC p 0 start pc ft;
        let '(taken, i, next_pc, ft) := x in mret (taken, Some i, next_pc, ft)
      else mret (false, None, pc, ft)) Q s.
Proof.
  intros Hs Hk Hf Hl Hh HQ. destruct found.
  - apply wp_bind. eapply wp_predictBranch; [exact Hs|done|by apply Hf|done..|].
    intros taken i next n a s' H. apply wp_ret. by apply (HQ _ _ _ (Some a) n).
  - apply wp_ret. replace ft with (ft <| bpuHistory := None |>) by (destruct ft; cbn in Hh; by subst).
    apply (HQ _ _ _ None (v_rem v)); [|done]. apply (core_mono _ _ _ _ _ _ _ k); [|lia].
    destruct v. cbn in *. by subst.
Qed.

Lemma core_view k v v' s : Core k v s -> v' = v -> Core k v' s.
Proof. by intros ? ->. Qed.

Lemma wp_generateOne k v s sc (Q : bool * bool * bool -> BAC -> Prop) :
  Core k v s -> Good v -> v_status v = Running -> ready v -> k + 1 < 2 ^ 64 - 1 ->
  (forall taken sc' cont v' ft s', Core (k + 1) v' s' -> Good v' -> extended v v' [ft] ->
     (cont = true -> v_status v' = Running /\ ready v') -> Q (taken, sc', cont) s') ->
  wp (Bac.generateOne bp hooks advancePC buildRetPC p 0 sc) Q s.
Proof.
  intros Hs Hg Hrun Hrdy Hk HQ. destruct (Hrdy Hrun) as [Hrem Hbpu]. pose proof (gd_loose _ _ Hg) as Hlo.
  unfold Bac.generateOne. apply wp_bind. eapply wp_rd; [apply Hs|].
  apply wp_bind. eapply wp_newFetchTarget; [exact Hs|]. intros n s1 H1. clear s Hs.
  apply wp_bind. eapply wp_findBranch; [exact H1|]. intros [addr found] u H2 Hf. cbn [fst snd] in Hf.
  apply wp_bind. eapply wr_pc; [exact H2|]. intros H3.
  apply wp_bind. eapply wp_endOfTarget; [exact H3|done|exact Hf|done|done|].
  intros taken oi next x rem s4 H4 Hoi. clear s1 H1 u H2 H3 Hf. cbn [v_rem setf] in Hoi.
  set (pc1 := PCS.setAddr addr (v_pc v)) in *. set (pc2 := Bac.nextPC p pc1 next taken oi).
  apply wp_bind.
  apply (wp_mono _ (fun _ s' => Core (k + 1)
    (v <| v_pc := pc1 |> <| v_loose := option_list x |> <| v_rem := rem |>) s')).
  { apply wp_when; intros _; [|done]. eapply wp_bac_stat; [exact H4|done]. }
  clear s4 H4. intros [] s4 H4. apply wp_bind. eapply wp_rd; [apply H4|]. cbn [v_rem setf].
  apply wp_bind. set (bl := if rem =? 0 then v_block v else oi).
  apply (wp_mono _ (fun _ s' => Core (k + 1)
    (v <| v_pc := pc1 |> <| v_loose := option_list x |> <| v_rem := rem |> <| v_block := bl |>) s')).
  { unfold bl. destruct (rem =? 0); cbn [negb when].
    - apply wp_ret. by destruct v.
    - apply wp_bind, wp_modify. eapply wp_advanceL1; [|done]. destruct H4. by constructor. }
  clear s4 H4. intros [] s4 H4. set (ft := FT.finalize _ _ _ _ _).
  apply wp_bind. eapply wp_insert; [exact H4|done|done|done|by split; eexists|by apply Hg; left|].
  intros s5 H5. apply wp_bind, wp_modify, wp_bind.
  eapply (wp_bac_stat ent cap k1 k2 hasRas hasOvr hasInd (k + 1)); [destruct H5; by constructor|].
  clear H5. intros H5. apply wp_bind. eapply wr_pc; [exact H5|]. intros H6.
  apply wp_bind, wp_zoom. eapply fv_isFull; [apply H6|]. apply core_query in H6.
  cbn [v_queue setf]. set (q := v_queue v ++ [ft]) in *.
  set (w := v <| v_queue := q |> <| v_pc := pc2 |> <| v_rem := rem |> <| v_block := bl |>).
  apply (core_view _ _ w) in H6; [|unfold w, q; destruct v; cbn in *; by subst].
  assert (Hgw : forall y, (y = Running /\ Z.of_nat (length q) < ent \/ y = FTQFull) -> Good (w <| v_status := y |>)).
  { intros y Hy. destruct Hg. constructor; cbn; try done.
    - intros [->| ->]; by destruct Hy as [[_ ?]|?].
    - intros ->. by destruct Hy as [[? _]|?].
    - intros ->. by destruct Hy as [[? _]|?].
    - intros [Hr|Hr]; [|congruence]. unfold bl. destruct (Z.eqb_spec rem 0); [lia|].
      destruct oi; [by eexists|]. rewrite Hoi in Hr by done. lia.
    - unfold q. eapply path_snoc; [exact gd_path|done|done]. }
  assert (Hex : forall y, y = Running \/ y = FTQFull -> extended v (w <| v_status := y |>) [ft])
    by (intros y Hy; by constructor).
  destruct (Z.leb_spec ent (Z.of_nat (length q))).
  - apply wp_bind. eapply wr_status; [exact H6|]. intros H7. apply wp_ret.
    eapply HQ; [exact H7|apply Hgw; by right|apply Hex; by right|done].
  - apply wp_ret. eapply (HQ _ _ _ (w <| v_status := Running |>)).
    + replace (w <| v_status := Running |>) with w by (unfold w; destruct v; cbn in *; by subst). exact H6.
    + apply Hgw. by left.
    + apply Hex. by left.
    + intros Hr%Z.eqb_eq. split; [done|]. intros _. cbn. split; [lia|done].
Qed.

Lemma extended_trans v v1 v2 ft new : extended v v1 [ft] -> extended v1 v2 new -> extended v v2 (ft :: new).
Proof.
  intros [] []. constructor; try congruence. rewrite ex_queue1, ex_queue0, <- app_assoc. done.
Qed.

Lemma wp_generateLoop m : forall k v s nft nt sc (Q : Z * bool -> BAC -> Prop),
  Core k v s -> Good v -> v_status v = Running -> ready v -> k + Z.of_nat m < 2 ^ 64 - 1 ->
  (forall r v' new s', Core (k + Z.of_nat m) v' s' -> Good v' -> extended v v' new ->
     (0 < Z.of_nat m -> nt < maxTakenPredPerCycle p -> new <> []) -> Q r s') ->
  wp (Bac.generateLoop bp hooks advancePC buildRetPC p m 0 nft nt sc) Q s.
Proof.
  induction m as [|m IH]; intros k v s nft nt sc Q Hs Hg Hrun Hrdy Hk HQ; cbn [Bac.generateLoop].
  { apply wp_ret. eapply (HQ _ v []); [by rewrite Z.add_0_r|done| |lia].
    constructor; try done; [by rewrite app_nil_r|by left]. }
  destruct (Z.ltb_spec nt (maxTakenPredPerCycle p)); cbn [negb].
  2:{ apply wp_ret. eapply (HQ _ v []); [eapply core_mono; [exact Hs|lia]|done| |lia].
      constructor; try done; [by rewrite app_nil_r|by left]. }
  apply wp_bind. eapply wp_generateOne; [exact Hs|done..|lia|].
  intros taken sc' cont v1 ft s1 H1 Hg1 He1 Hc. destruct cont.
  - destruct (Hc eq_refl) as [Hrun1 Hrdy1]. eapply (IH (k + 1)); [exact H1|done..|lia|].
    intros r v2 new s2 H2 Hg2 He2 _. eapply (HQ _ v2 (ft :: new)); [|done|by eapply extended_trans|done].
    by replace (k + Z.of_nat (S m)) with (k + 1 + Z.of_nat m) by lia.
  - apply wp_ret. eapply (HQ _ v1 [ft]); [eapply core_mono; [exact H1|lia]|done..].
Qed.

(** The lookups of a cycle. *)
Definition cost : Z := Z.max 0 (maxFTPerCycle p).

Lemma wp_generateFetchTargets k v s sc (Q : bool -> BAC -> Prop) :
  Core k v s -> Good v -> v_status v = Running -> ready v -> k + cost < 2 ^ 64 - 1 ->
  (forall r v' new s', Core (k + cost) v' s' -> Good v' -> extended v v' new ->
     (0 < maxFTPerCycle p -> 0 < maxTakenPredPerCycle p -> new <> []) -> Q r s') ->
  wp (Bac.generateFetchTargets bp hooks advancePC buildRetPC p 0 sc) Q s.
Proof.
  intros Hs Hg Hrun Hrdy Hk HQ. unfold Bac.generateFetchTargets. apply wp_bind.
  assert (Ec : Z.of_nat (Z.to_nat (maxFTPerCycle p)) = cost) by (unfold cost; lia).
  eapply wp_generateLoop; [exact Hs|done..|by rewrite Ec|]. rewrite Ec.
  intros [nft sc'] v' new s' H1 Hg' He Hne. apply wp_bind. eapply wp_bac_stat; [exact H1|]. intros H2.
  apply wp_ret. eapply HQ; [exact H2|done..|]. intros ? ?. apply Hne; [|done]. unfold cost. lia.
Qed.

Lemma wp_override k v s (Q : unit -> BAC -> Prop) :
  Core k v s -> Z.of_nat (length (v_queue v)) < ent ->
  (forall s', Core k v s' -> Q tt s') -> wp (Bac.generateOverrideFetchTargets p 0) Q s.
Proof.
  intros Hs Hr HQ. unfold Bac.generateOverrideFetchTargets.
  destruct (modelOverrideFalsePath p); cbn [negb]; [|by apply wp_ret, HQ].
  apply wp_bind, wp_gets, wp_bind. eapply wp_advanceL1; [exact Hs|]. intros s1 H1.
  apply wp_bind, wp_gets, wp_bind. unfold Bac.newFakeFetchTarget. apply wp_bind.
  eapply wp_rd; [apply H1|]. apply wp_bind. eapply wp_bac_stat; [exact H1|]. intros H2. apply wp_ret, wp_zoom.
  eapply fv_insert; [apply H2|done|done|]. intros f Hf. apply HQ.
  destruct H2. by constructor.
Qed.

(** ** tick *)

(** The effect of a cycle on the view. *)
Inductive ticked (sig : TimeStruct) (v : View) : View -> Prop :=
| ticked_squash pc hs :
    resteer sig (v_status v) = Some (Some pc) -> signalled sig (v_hist v) hs ->
    ticked sig v (squashed v pc hs)
| ticked_drain hs :
    resteer sig (v_status v) = None -> st_drain (v_stalls v) = true -> signalled sig (v_hist v) hs ->
    ticked sig v ((drainedView v) <| v_hist := hs |>)
| ticked_wait hs :
    resteer sig (v_status v) = None -> st_drain (v_stalls v) = false -> signalled sig (v_hist v) hs ->
    v_status (quietStep v) <> Running ->
    ticked sig v ((quietStep v) <| v_hist := hs |>)
| ticked_run hs v' new :
    resteer sig (v_status v) = None -> st_drain (v_stalls v) = false -> signalled sig (v_hist v) hs ->
    v_status (quietStep v) = Running ->
    extended ((quietStep v) <| v_hist := hs |>) v' new ->
    (0 < maxFTPerCycle p -> 0 < maxTakenPredPerCycle p -> new <> []) ->
    ticked sig v v'.

(** The end of a thread's cycle, when it generates nothing more. *)
Lemma wp_tickEnd k v s st0 (Q : bool * bool -> BAC -> Prop) :
  Core k v s -> v_status v <> Overriding -> (forall s', Core k v s' -> Q st0 s') ->
  wp (x ← Bac.rd Bac.bacStatus 0;
      st ← (if bool_decide (x = Overriding) then
              Bac.generateOverrideFetchTargets p 0 ;; mret (true, snd st0)
            else mret st0);
      x ← Bac.rd Bac.bacStatus 0;
      Bac.stat (BA_status x) ;;
      when (bool_decide (x = Overriding)) (t ← Bac.blockType; Bac.stat (BA_bacBlockCycles t)) ;;
      mret st) Q s.
Proof.
  intros Hs Hx HQ. apply wp_bind. eapply wp_rd; [apply Hs|]. rewrite bool_decide_false by done.
  apply wp_bind, wp_ret, wp_bind. eapply wp_rd; [apply Hs|].
  apply wp_bind. eapply wp_bac_stat; [exact Hs|]. intros H1. apply wp_bind.
  rewrite bool_decide_false by done. apply wp_ret, wp_ret. by apply HQ.
Qed.

(** A thread that neither runs nor overrides does nothing else. *)
Lemma wp_tickWait k v s a b (Q : bool * bool -> BAC -> Prop) :
  Core k v s -> v_status v <> Running ->
  (v_status v = Overriding -> Z.of_nat (length (v_queue v)) < ent) ->
  (forall st' s', Core k v s' -> Q st' s') ->
  wp (x ← Bac.rd Bac.bacStatus 0;
      st ← (if bool_decide (x = Running) then
              sc ← Bac.generateFetchTargets bp hooks advancePC buildRetPC p 0 b; mret (true, sc)
            else mret (a, b));
      x ← Bac.rd Bac.bacStatus 0;
      st ← (if bool_decide (x = Overriding) then
              Bac.generateOverrideFetchTargets p 0 ;; mret (true, snd st)
            else mret st);
      x ← Bac.rd Bac.bacStatus 0;
      Bac.stat (BA_status x) ;;
      when (bool_decide (x = Overriding)) (t ← Bac.blockType; Bac.stat (BA_bacBlockCycles t)) ;;
      mret st) Q s.
Proof.
  intros Hs Hx Hr HQ. apply wp_bind. eapply wp_rd; [apply Hs|]. rewrite bool_decide_false by done.
  apply wp_bind, wp_ret. destruct (decide (v_status v = Overriding)) as [Eo|Eo].
  2:{ eapply wp_tickEnd; [exact Hs|done|]. intros s' H. by apply HQ. }
  apply wp_bind. eapply wp_rd; [apply Hs|]. rewrite bool_decide_true by done. apply wp_bind, wp_bind.
  eapply wp_override; [exact Hs|by apply Hr|]. intros s1 H1. apply wp_ret, wp_bind.
  eapply wp_rd; [apply H1|]. apply wp_bind. eapply wp_bac_stat; [exact H1|]. intros H2. apply wp_bind.
  rewrite bool_decide_true by done. cbn [when]. apply wp_bind. unfold Bac.blockType.
  apply wp_bind, wp_gets, wp_ret. eapply wp_bac_stat; [exact H2|]. intros H3. apply wp_ret. by apply HQ.
Qed.

Lemma wp_tickThread k v s isDraining sig (Q : bool * bool -> BAC -> Prop) :
  Core k v s -> Good v -> sig_ok sig -> (st_drain (v_stalls v) = true -> isDraining = true) ->
  k + cost < 2 ^ 64 - 1 ->
  (forall st' v' s', Core (k + cost) v' s' -> Good v' -> ticked sig v v' -> Q st' s') ->
  wp (Bac.tickThread bp hooks advancePC buildRetPC p isDraining sig 0 (false, false)) Q s.
Proof.
  intros Hs Hg Hsig Hdr Hk HQ. unfold Bac.tickThread.
  assert (Hle : k <= k + cost) by (unfold cost; lia).
  apply wp_bind. eapply wp_checkSignals; [exact Hs|done..| | |].
  - intros s1 hs pc Hr H1 Hh. pose proof (good_squashed v pc Hg) as [Hg1 _].
    eapply wp_tickWait; [exact H1|done|done|]. intros st' s2 H2.
    eapply HQ; [by eapply core_mono|by apply good_hist|by econstructor].
  - intros s1 hs Hr Hd H1 Hh. pose proof (good_drained v Hg) as [Hg1 _].
    eapply wp_tickWait; [exact H1|done|done|]. intros st' s2 H2.
    eapply HQ; [by eapply core_mono|by apply good_hist|by eapply ticked_drain].
  - intros r s1 hs Hr Hd H1 Hh. pose proof (good_quiet v Hg) as [Hg1 Hrd1].
    destruct (decide (v_status (quietStep v) = Running)) as [Er|Er].
    + apply wp_bind. eapply wp_rd; [apply H1|]. rewrite bool_decide_true by done. apply wp_bind, wp_bind.
      eapply wp_generateFetchTargets; [exact H1|by apply good_hist|done|exact Hrd1|done|].
      intros sc v' new s2 H2 Hg2 He Hne. apply wp_ret.
      eapply wp_tickEnd; [exact H2|destruct (ex_status _ _ _ He) as [E|E]; by rewrite E|].
      intros s3 H3. eapply HQ; [exact H3|done|by eapply ticked_run].
    + eapply wp_tickWait; [exact H1|done|intros Eo; apply Hg1; by right|]. intros st' s2 H2.
      eapply HQ; [by eapply core_mono|by apply good_hist|by eapply ticked_wait].
Qed.

Lemma wp_setStage k v s x y (Q : unit -> BAC -> Prop) (b : bool) :
  Core k v s -> (forall s', Core k v s' -> Q tt s') ->
  wp (when b (Bac.cpuCall x) ;; modify (fun s => s <| Bac._status := y |>)) Q s.
Proof.
  intros Hs HQ. apply wp_bind. unfold Bac.cpuCall.
  destruct b; [apply wp_modify|apply wp_ret]; apply wp_modify, HQ; destruct Hs; by constructor.
Qed.

Lemma wp_updateBACStatus k v s l (Q : unit -> BAC -> Prop) :
  Core k v s -> (l = [] \/ l = [0]) -> (forall s', Core k v s' -> Q tt s') ->
  wp (Bac.updateBACStatus l) Q s.
Proof.
  intros Hs Hl HQ. unfold Bac.updateBACStatus. apply wp_bind.
  apply (wp_mono _ (fun _ s' => s' = s)).
  { destruct Hl as [->| ->]; cbn; [by apply wp_ret|]. apply wp_bind. eapply wp_rd; [apply Hs|].
    by destruct (_ || _); apply wp_ret. }
  intros r s' ->. apply wp_bind, wp_gets. by destruct r; eapply wp_setStage.
Qed.

Lemma wp_tick k v s l isDraining sig (Q : unit -> BAC -> Prop) :
  Core k v s -> Good v -> (l = [] \/ l = [0]) -> sig_ok sig ->
  (st_drain (v_stalls v) = true -> isDraining = true) -> k + cost < 2 ^ 64 - 1 ->
  (forall v' s', Core (k + cost) v' s' -> Good v' -> (match l with [] => v' = v | _ => ticked sig v v' end) -> Q tt s') ->
  wp (Bac.tick bp hooks advancePC buildRetPC p l isDraining sig) Q s.
Proof.
  intros Hs Hg Hl Hsig Hdr Hk HQ. unfold Bac.tick. apply wp_bind.
  apply (wp_mono _ (fun _ s' => exists v', Core (k + cost) v' s' /\ Good v' /\
    match l with [] => v' = v | _ => ticked sig v v' end)).
  - destruct Hl as [->| ->]; cbn [Bac.tickLoop].
    + apply wp_ret. exists v. split_and!; [|done..]. eapply core_mono; [exact Hs|unfold cost; lia].
    + rewrite (bs_dec Hsu). apply wp_bind. eapply wp_tickThread; [exact Hs|done..|].
      intros st' v' s' H1 Hg1 Ht. apply wp_ret. by exists v'.
  - intros [act sc] s1 (v' & H1 & Hg1 & Ht). apply wp_bind.
    apply (wp_mono _ (fun _ s' => Core (k + cost) v' s')).
    { apply wp_when; intros _; [|done]. by eapply wp_updateBACStatus. }
    intros [] s2 H2. apply wp_when; intros _; [|by eapply HQ].
    unfold Bac.cpuCall. apply wp_modify. eapply HQ; [|done..]. destruct H2. by constructor.
Qed.
End Ops.
