(* ===== verification/BacFetch.v ===== *)
(** * The fetch stage's calls of the BAC stage

    The rules of [updatePC], of the operations on the head of the queue, and of
    drain and reset, on the views of [BacInv]. *)

From Stdlib Require Import ZArith Lia Sorted.
From stdpp Require Import base list gmap numbers.
From S2P Require Import Prelude Types Btb Ras CondPred Indirect Ftq BPredUnit BPredUnitInv BPredUnitSpec Bac BacBpu BacInv BacOps.

Section Fetch.
Context {B C HC K1 C2 HC2 K2 I HI : Type}.
Context `{BB : BtbContract B} `{CC : ConditionalContract C HC K1}
  `{CC2 : ConditionalContract C2 HC2 K2} `{II : IndirectContract I HI}.
Context {BS : BtbSearch B} {CP1 : CondPlaceholder C HC K1} {CP2 : CondPlaceholder C2 HC2 K2}
  {CF : CondFirstLevel C HC K1}.
Context (bp : BPUParams) (hooks : option (MLHooks B)).
Context (advancePC : StaticInst -> PCStateBase -> PCStateBase)
  (buildRetPC : StaticInst -> PCStateBase -> PCStateBase -> PCStateBase).
Context (p : BACParams) (ent : Z).
Context (cap : Z) (k1 : K1) (k2 : K2) (hasRas hasOvr hasInd : bool).

Abbreviation BPU := (@BPU B C HC C2 HC2 I HI).
Abbreviation Hist := (@PredictorHistory HC HC2 HI).
Abbreviation BAC := (@Bac.BAC B C HC C2 HC2 I HI).
Abbreviation View := (@View HC HC2 HI).
Abbreviation UInv := (bpu_inv 1 cap k1 k2 hasRas hasOvr hasInd).
Abbreviation HistOk := (hist_ok cap k1 k2 hasRas hasOvr hasInd).
Abbreviation Quiet := (quiet 1 cap k1 k2 hasRas hasOvr hasInd).
Abbreviation Core := (core ent cap k1 k2 hasRas hasOvr hasInd).
Abbreviation Good := (@good HC HC2 HI ent).

Context (Hsu : bac_setup hooks p ent k1 k2).

(** ** The head of the queue *)

Lemma wp_setHeadHistory k v s ft rest x L (Q : unit -> BAC -> Prop) :
  Core k v s -> v_queue v = ft :: rest ->
  v_loose v ++ option_list (bpuHistory ft) ≡ₚ L ++ option_list x ->
  (forall f, Core k (v <| v_queue := ft <| bpuHistory := x |> :: rest |> <| v_loose := L |>)
               (s <| Bac.b_ftq := f |>) -> Q tt (s <| Bac.b_ftq := f |>)) ->
  wp (Bac.setHeadHistory 0 x) Q s.
Proof.
  intros Hs Eq Hp HQ. unfold Bac.setHeadHistory. apply wp_bind, wp_zoom.
  eapply fv_queue; [apply Hs|]. rewrite Eq. apply wp_zoom.
  eapply (fv_setQueue ent _ (v_queue v) (v_ftq v)); [apply Hs| |].
  { rewrite Eq. apply (same_ids_insert (ft :: rest) 0 ft); done. }
  intros f Hf. cbn. apply HQ. destruct Hs. constructor; try done; cbn.
  - eapply owned_perm; [exact co_own|]. rewrite Eq. unfold ptrs. cbn.
    rewrite Eq in *. destruct (bpuHistory ft), x; cbn in *.
    + change (?a :: ?l) with ([a] ++ l). rewrite !app_assoc. by rewrite Hp.
    + rewrite app_nil_r in Hp. change (?a :: ?l) with ([a] ++ l). rewrite app_assoc. by rewrite Hp.
    + rewrite app_nil_r in Hp. change (?a :: ?l) with ([a] ++ l). rewrite app_assoc. by rewrite <- Hp.
    + rewrite !app_nil_r in Hp. by rewrite Hp.
  - rewrite Eq in co_fin. apply list.Forall_cons in co_fin as [? ?]. by constructor.
Qed.

(** The exit branch of the head takes its history. *)
Lemma wp_popHistory k v s ft rest pc (Q : option Z -> BAC -> Prop) :
  Core k v s -> v_queue v = ft :: rest -> v_loose v = [] ->
  (forall f, Core k v (s <| Bac.b_ftq := f |>) -> Q None (s <| Bac.b_ftq := f |>)) ->
  (forall a f, bpuHistory ft = Some a ->
     Core k (v <| v_queue := detach ft :: rest |> <| v_loose := [a] |>) (s <| Bac.b_ftq := f |>) ->
     Q (Some a) (s <| Bac.b_ftq := f |>)) ->
  wp (Bac.popHistory 0 pc ft) Q s.
Proof.
  intros Hs Eq Hl HQ1 HQ2. unfold Bac.popHistory.
  destruct (FT.isExitBranch (instAddr pc) ft && negb (isNull (bpuHistory ft))) eqn:E.
  - apply andb_true_iff in E as [_ E]. destruct (bpuHistory ft) as [a|] eqn:Ea; [|done].
    apply wp_bind. eapply (wp_setHeadHistory k v s ft rest None [a]); [exact Hs|done|by rewrite Hl, Ea|].
    intros f H1. apply wp_ret. by apply HQ2.
  - apply wp_ret. apply (core_query ent cap k1 k2 hasRas hasOvr hasInd) in Hs.
    replace s with (s <| Bac.b_ftq := Bac.b_ftq s |>) by (by destruct s). by apply HQ1.
Qed.

(** The queue is squashed and locked. *)
Definition lockedView (v : View) : View := v <| v_queue ::= fmap detach |> <| v_ftq := Locked |>.

Lemma wp_squashLock {A} k v s (f : unit -> M BAC A) (Q : A -> BAC -> Prop) :
  Core k v s ->
  (forall s', Core k (lockedView v) s' -> btb (Bac.bpu s') = btb (Bac.bpu s) -> wp (f tt) Q s') ->
  wp (Bac.squashBpuHistories p 0 ;; zoom Bac.b_ftq (Ftq.lock 0) ≫= f) Q s.
Proof.
  intros Hs HQ. apply wp_bind.
  eapply (wp_squashBpuHistories hooks p ent cap k1 k2 hasRas hasOvr hasInd (bs_unit _ _ _ _ _ Hsu)
    (bs_dec _ _ _ _ _ Hsu)); [exact Hs|].
  intros s1 H1 Eb. apply wp_bind, wp_zoom. unfold Ftq.lock. eapply fv_setStatus; [apply H1|].
  intros g Hg. apply HQ; [|done]. by apply core_ftqStatus.
Qed.

Lemma wp_checkType k v s ft rest t (h : option Z) (Q : option Z -> BAC -> Prop) :
  Core k v s -> v_queue v = ft :: rest -> v_loose v = option_list h ->
  (h <> None -> bpuHistory ft = None) ->
  (h = None -> Q None s) ->
  (forall a, h = Some a -> (forall x, Bac.heap s !! a = Some x -> h_type x = t) -> Q (Some a) s) ->
  (forall a s', h = Some a ->
     Core k (lockedView (v <| v_queue := ft <| bpuHistory := Some a |> :: rest |> <| v_loose := [] |>)) s' ->
     btb (Bac.bpu s') = btb (Bac.bpu s) -> Q None s') ->
  wp (Bac.checkType p 0 t h) Q s.
Proof.
  intros Hs Eq Hl Hft HQ1 HQ2 HQ3. unfold Bac.checkType. destruct h as [a|]; [|apply wp_ret; auto].
  destruct Hs as [Hb Hh Hf Ho Hfin H6 H7 H8 H9 H10] eqn:EHs. clear EHs.
  assert (Ha : is_Some (Bac.heap s !! a)).
  { apply (ow_dom _ _ _ _ _ _ _ _ _ _ Ho). rewrite Hl. apply list_elem_of_here. }
  destruct Ha as [x Hx]. unfold Bac.load. apply wp_bind, wp_bind, wp_gets. eapply wp_deref; [exact Hx|].
  case_bool_decide as Et.
  { apply wp_ret. apply HQ2; [done|]. intros y Hy. by simplify_eq. }
  apply wp_bind. eapply wp_bac_stat; [exact Hs|]. intros H11. apply wp_bind.
  eapply (wp_setHeadHistory k v _ ft rest (Some a) []); [exact H11|done| |].
  { rewrite Hl, Hft by done. done. }
  intros f H12. eapply wp_squashLock; [exact H12|]. intros s3 H13 Eb. apply wp_ret. by eapply HQ3.
Qed.

(** ** updatePreDecode *)

(** The queue keeps its targets; some of them lose their histories. *)
Record handed (v v' : View) : Prop := {
  hd_queue : detach <$> v_queue v' = detach <$> v_queue v;
  hd_ftq : v_ftq v' = v_ftq v \/ v_ftq v' = Locked;
  hd_status : v_status v' = v_status v;
  hd_pc : v_pc v' = v_pc v;
  hd_rem : v_rem v' = v_rem v;
  hd_stalls : v_stalls v' = v_stalls v;
  hd_block : v_block v' = v_block v;
  hd_loose : v_loose v' = []
}.

Lemma handed_good v v' : Good v -> handed v v' -> Good v'.
Proof.
  intros [H1 H2 H3 H4 H5 H6 H7] [E1 E2 E3 E4 E5 E6 E7 E8].
  assert (El : length (v_queue v') = length (v_queue v)).
  { rewrite <- (length_fmap detach), E1. apply length_fmap. }
  constructor; rewrite ?El, ?E3, ?E4, ?E5, ?E6, ?E7; auto.
  - intros Hx. specialize (H2 Hx). rewrite H2 in El. by destruct (v_queue v').
  - intros Hx. destruct E2 as [->| ->]; [by apply H3|by left].
  - apply path_detach. rewrite E1. by apply path_detach.
Qed.

Lemma detach_detach (ft : FetchTarget) : detach (detach ft) = detach ft.
Proof. by destruct ft. Qed.

Lemma handed_locked v : v_loose v = [] -> handed v (lockedView v).
Proof.
  intros Hl. constructor; try done; [|by right]. cbn. rewrite <- list_fmap_compose.
  apply list_fmap_ext. intros i ft _. apply detach_detach.
Qed.

Lemma handed_trans v v1 v2 : handed v v1 -> handed v1 v2 -> handed v v2.
Proof.
  intros [] []. constructor; try congruence. destruct hd_ftq1 as [->|]; [done|by right].
Qed.

(** The history a branch gets. *)
Record given (inst : StaticInst) (h : Hist) : Prop := {
  gv_ok : HistOk 0 h;
  gv_type : h_type h = getBranchType inst
}.

Lemma wp_placeholder k v s seq inst pc (Q : Hist -> BAC -> Prop) :
  Core k v s ->
  (forall h s', Core k v s' -> given inst h -> predTaken h = false -> Q h s') ->
  wp (Bac.placeholder advancePC 0 seq inst pc) Q s.
Proof.
  intros Hs HQ. unfold Bac.placeholder. apply wp_bind. eapply wp_bac_stat; [exact Hs|]. intros H1.
  apply wp_bind.
  eapply (wp_unit_quiet ent cap k1 k2 hasRas hasOvr hasInd k v _ _ (fun h _ => h_type h = getBranchType inst /\
    needsTarget cap k1 k2 hasRas hasOvr hasInd 0 h)); [exact H1| |].
  { intros Hu. eapply wp_mono.
    { apply (quiet_placeholder hooks 1 cap k1 k2 hasRas hasOvr hasInd (bs_unit _ _ _ _ _ Hsu) k); [done|lia]. }
    intros h u (? & ? & ?). done. }
  intros h u H2 [Ht Hn]. apply wp_ret. apply HQ; [done| |done]. constructor; [|done].
  apply Hn; try done. cbn. by destruct (h_target h).
Qed.

Lemma wp_resolveHistory k v s seq inst pc ft (a : option Z) (Q : Hist * option PCStateBase -> BAC -> Prop) :
  Core k v s -> k + 1 < 2 ^ 64 - 1 -> v_loose v = option_list a ->
  (forall b x, a = Some b -> Bac.heap s !! b = Some x -> h_type x = getBranchType inst) ->
  (isMicroop inst && negb (isLastMicroop inst) = true -> bt_found (btb (Bac.bpu s)) 0 (instAddr pc)) ->
  (forall h t v' s', Core (k + 1) v' s' -> handed (v <| v_loose := [] |>) v' -> v_hist v' = v_hist v ->
     given inst h -> Q (h, t) s') ->
  wp (Bac.resolveHistory bp hooks advancePC buildRetPC p 0 seq inst pc ft a) Q s.
Proof.
  intros Hs Hk Hl Ha Hf HQ. unfold Bac.resolveHistory.
  assert (Hself : forall v0, v_loose v0 = [] -> handed v0 v0) by (intros v0 H; constructor; try done; by left).
  destruct a as [b|].
  - destruct (ow_dom _ _ _ _ _ _ _ _ _ _ (co_own _ _ _ _ _ _ _ _ _ _ Hs) b) as [_ Hx].
    destruct Hx as [x Hx]; [rewrite Hl; apply list_elem_of_here|].
    unfold Bac.load. apply wp_bind, wp_bind, wp_gets. eapply wp_deref; [exact Hx|].
    apply wp_bind. unfold Bac.free. apply wp_modify, wp_ret.
    eapply (HQ _ _ (v <| v_loose := [] |>)); [|by apply Hself|done|].
    + eapply core_mono; [|instantiate (1 := k); lia]. destruct Hs. constructor; try done. cbn.
      eapply owned_free; [exact co_own|]. by rewrite Hl.
    + constructor; [|by eapply Ha]. apply (ow_ok _ _ _ _ _ _ _ _ _ _ (co_own _ _ _ _ _ _ _ _ _ _ Hs) _ _ Hx).
  - destruct (isMicroop inst && negb (isLastMicroop inst)).
    + apply wp_bind. eapply wp_bac_stat; [exact Hs|]. intros H1.
      eapply wp_squashLock; [exact H1|]. intros s2 H2 Eb. apply wp_bind.
      eapply (wp_unit ent cap k1 k2 hasRas hasOvr hasInd k (k + 1) _ s2 _
        (fun r _ => given inst (snd r))); [exact H2| |].
      { intros Hu. eapply wp_mono.
        { apply (quiet_predict bp hooks advancePC buildRetPC 1 cap k1 k2 hasRas hasOvr hasInd
            (bs_unit _ _ _ _ _ Hsu) k); [done|done|lia|]. rewrite Eb. by apply Hf. }
        intros [r h] u (Hq & Hh & Hp). split; [done|]. constructor; [done|].
        rewrite (proj1 (ho_type _ _ _ _ _ _ _ _ Hh)). by rewrite (pd_inst _ _ _ _ _ _ Hp). }
      intros [[pr t] h] u H3 Hg. apply wp_ret. eapply HQ; [exact H3| |done|done].
      replace (v <| v_loose := [] |>) with v by (destruct v; cbn in *; by subst).
      by apply handed_locked.
    + apply wp_bind. eapply wp_placeholder; [exact Hs|]. intros h s1 H1 Hg _. apply wp_ret.
      eapply (HQ _ _ v); [eapply core_mono; [exact H1|lia]| |done|done].
      replace (v <| v_loose := [] |>) with v by (destruct v; cbn in *; by subst). by apply Hself.
Qed.

(** What the pre-decoded branch does to a view: it takes or drops histories of
    the queue and becomes the youngest branch in flight. *)
Definition predecoded (seq : Z) (inst : StaticInst) (ft : FetchTarget) (taken : bool) (v v' : View) : Prop :=
  handed v v' /\ exists h l, v_hist v !! 0%nat = Some l /\ v_hist v' = <[0%nat := h :: l]> (v_hist v) /\
    seqNum h = seq /\ h_type h = getBranchType inst /\ start_address h = FT.startAddress ft /\
    predTaken h = taken.

Lemma wp_finishBranch k v s seq inst ft pc h (t : option PCStateBase) (Q : bool * PCStateBase -> BAC -> Prop) :
  Core k v s -> fresh (Bac.bpu s) 0 seq -> given inst h -> is_Some (predPC ft) -> handed v v ->
  (forall v' s' pc', Core k v' s' -> predecoded seq inst ft (predTaken h) v v' -> Q (predTaken h, pc') s') ->
  wp (massert (bool_decide (h_type h = getBranchType inst)) ;;
      let hist := h <| start_address := FT.startAddress ft |> <| seqNum := seq |> in
      zoom Bac.bpu (insertPredictorHistory 0 hist) ;;
      pc ← match t with
           | Some t => mret t
           | None => if predTaken hist then lift (FT.readPredTarg ft) else mret (advancePC inst pc)
           end;
      mret (predTaken hist, pc)) Q s.
Proof.
  intros Hs Hfr [Hok Hty] [tg Htg] Hself HQ. apply wp_bind, wp_massert; [by apply bool_decide_eq_true|].
  set (hist := h <| start_address := _ |> <| seqNum := _ |>). apply wp_bind.
  eapply (wp_unit_hist ent cap k1 k2 hasRas hasOvr hasInd k k v s _ (fun _ u =>
    exists l, v_hist v !! 0%nat = Some l /\ predHist u = <[0%nat := hist :: l]> (v_hist v))); [exact Hs| |].
  { intros Hu. eapply wp_mono.
    { apply (insert_history 1 cap k1 k2 hasRas hasOvr hasInd k 0 hist); [done|lia| |done].
      destruct Hok. by constructor. }
    intros [] u (Hu' & l & El & Eh). split; [done|]. exists l.
    by rewrite <- (co_hist _ _ _ _ _ _ _ _ _ _ Hs). }
  intros [] u H1 (l & El & Eh).
  assert (Hpd : predecoded seq inst ft (predTaken h) v (v <| v_hist := predHist u |>)).
  { split; [destruct Hself; by constructor|]. exists hist, l. by split_and!. }
  apply wp_bind. change (predTaken hist) with (predTaken h). destruct t as [t|].
  { apply wp_ret, wp_ret. by eapply HQ. }
  destruct (predTaken h).
  - eapply wp_lift; [unfold FT.readPredTarg; by rewrite Htg|]. apply wp_ret. by eapply HQ.
  - apply wp_ret, wp_ret. by eapply HQ.
Qed.

Lemma wp_updatePreDecode k v s seq inst pc ft rest (Q : bool * PCStateBase -> BAC -> Prop) :
  Core k v s -> Good v -> k + 1 < 2 ^ 64 - 1 -> v_queue v = ft :: rest -> v_ftq v <> Invalid ->
  FT.inRange (instAddr pc) ft = true -> fresh (Bac.bpu s) 0 seq ->
  (isMicroop inst && negb (isLastMicroop inst) = true -> bt_found (btb (Bac.bpu s)) 0 (instAddr pc)) ->
  (forall v' s' taken pc', Core (k + 1) v' s' -> Good v' -> predecoded seq inst ft taken v v' ->
     Q (taken, pc') s') ->
  wp (Bac.updatePreDecode bp hooks advancePC buildRetPC p 0 seq inst pc (Some ft)) Q s.
Proof.
  intros Hs Hg Hk Eq Hinv Hr Hfr Hf HQ. pose proof (gd_loose _ _ Hg) as Hl.
  assert (Hpp : is_Some (predPC ft)).
  { pose proof (co_fin _ _ _ _ _ _ _ _ _ _ Hs) as Hfin. rewrite Eq in Hfin.
    apply list.Forall_cons in Hfin as [[_ ?] _]. done. }
  unfold Bac.updatePreDecode. apply wp_bind, wp_massert; [done|].
  apply wp_bind, wp_zoom. eapply fv_readHead; [apply Hs|]. rewrite bool_decide_false by done.
  rewrite Eq. cbn [head]. apply wp_bind. eapply wp_deref; [done|].
  apply wp_bind, wp_massert; [apply Z.eqb_refl|]. apply (core_query ent cap k1 k2 hasRas hasOvr hasInd) in Hs.
  apply wp_bind. eapply wp_bac_stat; [exact Hs|]. intros H1.
  (* the invariant pieces kept until the history is inserted *)
  assert (Hrest : forall (a : option Z) w (s1 : BAC), Core k w s1 -> v_loose w = option_list a ->
    handed v (w <| v_loose := [] |>) -> v_hist w = v_hist v ->
    (forall b x, a = Some b -> Bac.heap s1 !! b = Some x -> h_type x = getBranchType inst) ->
    btb (Bac.bpu s1) = btb (Bac.bpu s) ->
    wp (r ← Bac.resolveHistory bp hooks advancePC buildRetPC p 0 seq inst pc ft a;
        let '(hist, target) := r in
        massert (bool_decide (h_type hist = getBranchType inst)) ;;
        let hist := hist <| start_address := FT.startAddress ft |> <| seqNum := seq |> in
        zoom Bac.bpu (insertPredictorHistory 0 hist) ;;
        pc ← match target with
             | Some t => mret t
             | None => if predTaken hist then lift (FT.readPredTarg ft) else mret (advancePC inst pc)
             end;
        mret (predTaken hist, pc)) Q s1).
  { intros a w s1 H2 Hlw Hhw Hv Ht Eb. apply wp_bind.
    eapply wp_resolveHistory; [exact H2|done|done|exact Ht|rewrite Eb; exact Hf|].
    intros h t v' s' H3 Hh' Ev' Hgv. pose proof (handed_trans _ _ _ Hhw Hh') as Hhv.
    eapply wp_finishBranch; [exact H3| |exact Hgv|done| |].
    - intros l x. rewrite (co_hist _ _ _ _ _ _ _ _ _ _ H3), Ev', Hv.
      rewrite <- (co_hist _ _ _ _ _ _ _ _ _ _ Hs). apply Hfr.
    - destruct Hhv. constructor; try done. by left.
    - intros v2 s2 pc' H4 [Hh2 Hx]. pose proof (handed_trans _ _ _ Hhv Hh2) as Hh3.
      eapply HQ; [exact H4|by eapply handed_good|]. split; [done|].
      destruct Hx as (h0 & l & El & Ev2 & Hx). rewrite Ev', Hv in El, Ev2. exists h0, l. exact (conj El (conj Ev2 Hx)). }
  assert (Hself : handed v v) by (constructor; try done; by left).
  apply wp_bind. eapply wp_popHistory; [exact H1|done|done| |].
  - intros f H2. apply wp_bind. eapply (wp_checkType k v _ ft rest _ None); [exact H2|done|done|done| |done|done].
    intros _. apply (Hrest None v); [exact H2|done| |done|done|done].
    replace (v <| v_loose := [] |>) with v by (destruct v; cbn in *; by subst). done.
  - intros a f Ea H2. apply wp_bind.
    set (w := v <| v_queue := detach ft :: rest |> <| v_loose := [a] |>) in *.
    assert (Hw : handed v (w <| v_loose := [] |>)).
    { constructor; try done; [|by left]. cbn. rewrite Eq. cbn. by rewrite detach_detach. }
    eapply (wp_checkType k w _ (detach ft) rest _ (Some a)); [exact H2|done|done|done|done| |].
    + intros b [= <-] Hty. apply (Hrest (Some a) w); [exact H2|done|exact Hw|done| |done].
      intros b' x [= <-] Hx. by apply Hty.
    + intros b s3 [= <-] H3 Eb3. eapply (Hrest None); [exact H3|done| |done|done|exact Eb3].
      eapply handed_trans; [exact Hw|]. constructor; try done; [|by right].
      cbn. f_equal. rewrite <- list_fmap_compose. done.
Qed.

(** ** updatePC *)
Lemma wp_updatePC k v s di pc ft rest (Q : bool * PCStateBase * option FetchTarget -> BAC -> Prop) :
  Core k v s -> Good v -> k + 1 < 2 ^ 64 - 1 -> v_queue v = ft :: rest -> di_threadNumber di = 0 ->
  (isControl (di_staticInst di) = true ->
     v_ftq v <> Invalid /\ FT.inRange (instAddr pc) ft = true /\ fresh (Bac.bpu s) 0 (di_seqNum di) /\
     (isMicroop (di_staticInst di) && negb (isLastMicroop (di_staticInst di)) = true ->
      bt_found (btb (Bac.bpu s)) 0 (instAddr pc))) ->
  (forall v' s' r, Core (k + 1) v' s' -> Good v' ->
     (if isControl (di_staticInst di)
      then predecoded (di_seqNum di) (di_staticInst di) ft (fst (fst r)) v v'
      else v' = v /\ fst r = (false, advancePC (di_staticInst di) pc)) -> Q r s') ->
  wp (Bac.updatePC bp hooks advancePC buildRetPC p di pc (Some ft)) Q s.
Proof.
  intros Hs Hg Hk Eq Ht Hc HQ. unfold Bac.updatePC. rewrite Ht, (bs_dec _ _ _ _ _ Hsu). cbn [negb].
  assert (Hend : forall (r : bool * PCStateBase) v' s', Core (k + 1) v' s' -> Good v' ->
    (if isControl (di_staticInst di)
     then predecoded (di_seqNum di) (di_staticInst di) ft (fst r) v v'
     else v' = v /\ r = (false, advancePC (di_staticInst di) pc)) ->
    wp (f ← deref (Some ft);
        ready ← zoom Bac.b_ftq (Ftq.isReady 0);
        mret (fst r, snd r,
          if (FT.isExitInst (instAddr (di_pcState di)) f &&
              (negb (isMicroop (di_staticInst di)) || isLastMicroop (di_staticInst di))) || negb ready
          then None else Some ft)) Q s').
  { intros [taken pc'] v' s' H1 Hg1 Hx. apply wp_bind. eapply wp_deref; [done|]. apply wp_bind, wp_zoom.
    eapply fv_isReady; [apply H1|]. apply wp_ret. eapply HQ; [by apply core_query|done|].
    by destruct (isControl (di_staticInst di)). }
  apply wp_bind. destruct (isControl (di_staticInst di)) eqn:Ec.
  - destruct (Hc eq_refl) as (H1 & H2 & H3 & H4). apply wp_bind.
    eapply wp_updatePreDecode; [exact Hs|done..|]. intros v' s' taken pc' H5 Hg' Hp.
    apply wp_bind. eapply wp_bac_stat; [exact H5|]. intros H6. apply wp_bind. cbn [fst].
    apply (wp_mono _ (fun _ s2 => Core (k + 1) v' s2)).
    { apply wp_when; intros _; [|done]. eapply wp_bac_stat; [exact H6|done]. }
    intros [] s2 H7. apply wp_ret. by eapply Hend.
  - apply wp_ret. eapply (Hend _ v); [eapply core_mono; [exact Hs|lia]|done|done].
Qed.

(** ** The other calls *)

Lemma wp_bac_popHead k v s (Q : bool -> BAC -> Prop) :
  Core k v s -> Good v -> v_queue v <> [] ->
  (forall b v' s', Core k v' s' -> Good v' -> Q b s') -> wp (zoom Bac.b_ftq (Ftq.popHead 0)) Q s.
Proof.
  intros Hs Hg Hne HQ. apply wp_zoom. destruct (v_queue v) as [|ft q] eqn:Eq; [done|].
  pose proof (co_ftq _ _ _ _ _ _ _ _ _ _ Hs) as Hf. rewrite Eq in Hf.
  eapply fv_popHead; [exact Hf| |].
  - intros f Hp Hf'. eapply (HQ _ (v <| v_ftq := Invalid |>)).
    + apply core_ftqStatus; [exact Hs|by rewrite Eq].
    + destruct Hg. constructor; try done. intros _. by right.
  - intros f b st' Hp Hst Hlk Hf'. eapply (HQ _ (v <| v_queue := q |> <| v_ftq := st' |>)).
    + destruct Hs. rewrite Eq in *. constructor; try done; cbn.
      * eapply owned_perm; [exact co_own|]. unfold ptrs. cbn. by rewrite Hp.
      * by apply list.Forall_cons in co_fin as [_ ?].
    + destruct Hg as [H1 H2 H3 H4 H5 H6 H7]. rewrite Eq in *. constructor; cbn; try done.
      * intros Hx. specialize (H1 Hx). cbn in H1. lia.
      * intros Hx. by specialize (H2 Hx).
      * intros Hx. destruct Hst as [->| ->]; [by apply H3|by right].
      * by apply path_tail in H6.
Qed.

Lemma wp_bac_invalidate k v s (Q : unit -> BAC -> Prop) :
  Core k v s -> Good v -> (forall v' s', Core k v' s' -> Good v' -> Q tt s') ->
  wp (zoom Bac.b_ftq (Ftq.invalidate 0)) Q s.
Proof.
  intros Hs Hg HQ. apply wp_zoom. eapply fv_invalidate; [apply Hs|]. intros f Hf.
  eapply HQ; [by apply core_ftqStatus|]. destruct Hg. constructor; try done; cbn.
  intros Hx. case_bool_decide; [by apply gd_locked|by right].
Qed.

Lemma wp_drainStall k v s isDraining (Q : unit -> BAC -> Prop) :
  Core k v s -> Good v -> isDraining = true -> st_drain (v_stalls v) = false ->
  (forall v' s', Core k v' s' -> Good v' -> Q tt s') -> wp (Bac.drainStall isDraining 0) Q s.
Proof.
  intros Hs Hg Hd Hst HQ. unfold Bac.drainStall. apply wp_bind, wp_massert; [done|].
  apply wp_bind. eapply wp_rd; [apply Hs|]. apply wp_bind, wp_massert; [by rewrite Hst|].
  eapply wr_stalls; [exact Hs|]. intros H1. eapply HQ; [exact H1|]. destruct Hg. by constructor.
Qed.

Lemma threads_one : Bac.threads p = [0].
Proof. unfold Bac.threads. by rewrite (bs_threads _ _ _ _ _ Hsu). Qed.

Lemma wp_drainResume k v s (Q : unit -> BAC -> Prop) :
  Core k v s -> Good v -> (forall v' s', Core k v' s' -> Good v' -> Q tt s') -> wp (Bac.drainResume p) Q s.
Proof.
  intros Hs Hg HQ. unfold Bac.drainResume. rewrite threads_one. cbn [mfor].
  apply wp_bind, wp_bind. eapply wp_rd; [apply Hs|]. eapply wr_stalls; [exact Hs|]. intros H1.
  apply wp_ret. eapply HQ; [exact H1|]. destruct Hg. by constructor.
Qed.

(** The state of the thread is cleared when its queue is empty. *)
Lemma wp_clearStates k v s pcState (Q : unit -> BAC -> Prop) :
  Core k v s -> Good v -> v_queue v = [] ->
  (forall v' s', Core k v' s' -> Good v' -> Q tt s') -> wp (Bac.clearStates pcState 0) Q s.
Proof.
  intros Hs Hg Hq HQ. unfold Bac.clearStates.
  apply wp_bind. eapply wr_status; [exact Hs|]. intros H1. apply wp_bind. eapply wr_pc; [exact H1|]. intros H2.
  apply wp_bind. eapply wr_stalls; [exact H2|]. intros H3. apply wp_zoom.
  pose proof (co_ftq _ _ _ _ _ _ _ _ _ _ H3) as Hf. cbn [v_queue setf] in Hf. rewrite Hq in Hf.
  eapply fv_resetState; [exact Hf|]. intros f Hf'.
  eapply HQ; [eapply (core_emptied ent cap k1 k2 hasRas hasOvr hasInd); [exact H3|cbn; by rewrite Hq|exact Hf']|].
  destruct Hg. constructor; cbn; try done.
  - intros _. apply (bs_ent _ _ _ _ _ Hsu).
  - intros [Hr|Hr]; [|done]. apply gd_block. by left.
Qed.

Lemma wp_resetStage k v s pcState (Q : unit -> BAC -> Prop) :
  Core k v s -> Good v -> v_queue v = [] ->
  (forall v' s', Core k v' s' -> Good v' -> Q tt s') -> wp (Bac.resetStage p pcState) Q s.
Proof.
  intros Hs Hg Hq HQ. unfold Bac.resetStage. rewrite threads_one. cbn [mfor]. apply wp_bind, wp_bind.
  eapply wp_clearStates; [exact Hs|done..|]. intros v' s' H1 Hg1. apply wp_ret, wp_modify.
  eapply HQ; [|exact Hg1]. destruct H1. by constructor.
Qed.

Lemma wp_fetchBlockCycle k v s (Q : unit -> BAC -> Prop) :
  Core k v s -> (forall s', Core k v s' -> Q tt s') -> wp Bac.fetchBlockCycle Q s.
Proof.
  intros Hs HQ. unfold Bac.fetchBlockCycle, Bac.blockType. apply wp_bind, wp_bind, wp_gets, wp_ret, wp_bind.
  eapply wp_bac_stat; [exact Hs|]. intros H1. apply wp_modify, HQ. destruct H1. by constructor.
Qed.

Lemma wp_profileCycle k v s (Q : unit -> BAC -> Prop) :
  Core k v s -> (forall s', Core k v s' -> Q tt s') -> wp (Bac.profileCycle 0) Q s.
Proof.
  intros Hs HQ. unfold Bac.profileCycle. apply wp_bind. eapply wp_rd; [apply Hs|].
  destruct (v_status v); first [apply wp_ret; by apply HQ|eapply wp_bac_stat; [exact Hs|]; intros; by apply HQ].
Qed.
End Fetch.
