(* ===== verification/BacSpec.v ===== *)
(** * Properties of the BAC stage

    The stage with its unit and its queue, driven by the cycles of the CPU and
    the calls of the fetch stage.  The theorems are stated for any BTB,
    predictors and indirect predictor that keep their contracts, in the
    decoupled front end. *)

From Stdlib Require Import ZArith Lia Sorted.
From stdpp Require Import base list gmap numbers.
From S2P Require Import Prelude Types BtbEntry Btb MultiLevelBtb MultiLevelSafe MultiLevelSpec Ras SatCounter CondPred Tournament Indirect Ftq BPredUnit BPredUnitInv BPredUnitSpec Bac BacBpu BacInv BacOps BacFetch.

(** ** Operations *)

(** [BTick] is a cycle; [BUpdatePC], [BPopHead], [BInvalidate] and [BBlockCycle]
    are the calls of the fetch stage, the middle two on the queue; [BClear] and
    [BReset] clear the thread; [BUnit] is anything else that happens to the
    branch prediction unit. *)
Inductive BacOp (U : Type) :=
| BTick (activeThreads : list ThreadID) (isDraining : bool) (sig : TimeStruct)
| BUpdatePC (inst : DynInst) (fetch_pc : PCStateBase) (ft : FetchTarget)
| BPopHead
| BInvalidate
| BBlockCycle
| BProfile
| BDrainStall (isDraining : bool)
| BDrainResume
| BClear (pcState : ThreadID -> PCStateBase)
| BReset (pcState : ThreadID -> PCStateBase)
| BUnit (m : M U unit).
Arguments BTick {U}. Arguments BUpdatePC {U}. Arguments BPopHead {U}. Arguments BInvalidate {U}.
Arguments BBlockCycle {U}. Arguments BProfile {U}. Arguments BDrainStall {U}.
Arguments BDrainResume {U}. Arguments BClear {U}. Arguments BReset {U}. Arguments BUnit {U}.

Section Spec.
Context {B C HC K1 C2 HC2 K2 I HI : Type}.
Context `{BB : BtbContract B} `{CC : ConditionalContract C HC K1}
  `{CC2 : ConditionalContract C2 HC2 K2} `{II : IndirectContract I HI}.
Context {BS : BtbSearch B} {CP1 : CondPlaceholder C HC K1} {CP2 : CondPlaceholder C2 HC2 K2}
  {CF : CondFirstLevel C HC K1}.
Context (bp : BPUParams) (hooks : option (MLHooks B)).
Context (advancePC : StaticInst -> PCStateBase -> PCStateBase)
  (buildRetPC : StaticInst -> PCStateBase -> PCStateBase -> PCStateBase).
Context (p : BACParams) (ent : Z).
Context (cap : Z) (k1 : K1) (k2 : K2) (hasRas hasOvr hasInd : bool).

Abbreviation BPU := (@BPU B C HC C2 HC2 I HI).
Abbreviation Hist := (@PredictorHistory HC HC2 HI).
Abbreviation BAC := (@Bac.BAC B C HC C2 HC2 I HI).
Abbreviation View := (@View HC HC2 HI).
Abbreviation UInv := (bpu_inv 1 cap k1 k2 hasRas hasOvr hasInd).
Abbreviation HistOk := (hist_ok cap k1 k2 hasRas hasOvr hasInd).
Abbreviation Quiet := (quiet 1 cap k1 k2 hasRas hasOvr hasInd).
Abbreviation Core := (core ent cap k1 k2 hasRas hasOvr hasInd).
Abbreviation Good := (@good HC HC2 HI ent).



Definition bac_exec (o : BacOp BPU) : M BAC unit :=
  match o with
  | BTick l dr sig => Bac.tick bp hooks advancePC buildRetPC p l dr sig
  | BUpdatePC di pc ft => Bac.updatePC bp hooks advancePC buildRetPC p di pc (Some ft) ≫= fun _ => mret tt
  | BPopHead => zoom Bac.b_ftq (Ftq.popHead 0) ≫= fun _ => mret tt
  | BInvalidate => zoom Bac.b_ftq (Ftq.invalidate 0)
  | BBlockCycle => Bac.fetchBlockCycle
  | BProfile => Bac.profileCycle 0
  | BDrainStall dr => Bac.drainStall dr 0
  | BDrainResume => Bac.drainResume p
  | BClear pcs => Bac.clearStates pcs 0
  | BReset pcs => Bac.takeOverFrom p pcs
  | BUnit m => zoom Bac.bpu m
  end.

Abbreviation queue0 s := (queueOf (Bac.b_ftq s) 0).
Abbreviation draining s := (exists x, Bac.stalls s !! 0%nat = Some x /\ st_drain x = true).

(** What the callers check.  A stage that signals a squash sends a PC; drain
    stalls happen while the CPU drains, once; the fetch stage works on the head
    of a queue that has one and, for a branch, is ready, with instructions in
    order and inside the target, and a branch in the middle of a micro-coded
    instruction is one the BTB holds; the thread is cleared with an empty
    queue. *)
Definition bac_enabled (s : BAC) (o : BacOp BPU) : Prop :=
  match o with
  | BTick l dr sig => (l = [] \/ l = [0]) /\ sig_ok sig /\ (draining s -> dr = true)
  | BUpdatePC di pc ft =>
      head (queue0 s) = Some ft /\ di_threadNumber di = 0 /\
      (isControl (di_staticInst di) = true ->
         ftqStatus (Bac.b_ftq s) !! 0%nat <> Some Invalid /\ FT.inRange (instAddr pc) ft = true /\
         fresh (Bac.bpu s) 0 (di_seqNum di) /\
         (isMicroop (di_staticInst di) && negb (isLastMicroop (di_staticInst di)) = true ->
          bt_found (btb (Bac.bpu s)) 0 (instAddr pc)))
  | BPopHead => queue0 s <> []
  | BDrainStall dr => dr = true /\ ~ draining s
  | BClear _ | BReset _ => queue0 s = []
  | BUnit m => forall k u, UInv k u -> wp m (fun _ u' => Quiet k u u') u
  | _ => True
  end.

(** The stage after construction and startup. *)
Definition bac_built (s : BAC) : Prop :=
  exists u status0 pc0 addr0 pcState s0,
    built hooks 1 cap k1 k2 hasRas hasOvr hasInd u /\ length status0 = MaxThreads /\
    Bac.make p (Some u) (Ftq.make ent) status0 pc0 addr0 = Ok s0 /\
    Bac.startupStage p pcState s0 = Ok (tt, s).

Inductive bac_reach : nat -> BAC -> Prop :=
| bac_reach_0 s : bac_built s -> bac_reach 0 s
| bac_reach_step m o s s' :
    bac_reach m s -> bac_enabled s o -> bac_exec o s = Ok (tt, s') -> bac_reach (S m) s'.

Context (Hsu : bac_setup hooks p ent k1 k2).

Abbreviation BInv := (bac_inv ent cap k1 k2 hasRas hasOvr hasInd).

Lemma core_queue0 k v s : Core k v s -> queue0 s = v_queue v.
Proof. intros Hs. eapply fview_queueOf. apply Hs. Qed.

Lemma core_draining k v s : Core k v s -> draining s <-> st_drain (v_stalls v) = true.
Proof.
  intros Hs. rewrite (co_stalls _ _ _ _ _ _ _ _ _ _ Hs). split; [by intros (x & [= <-] & ?)|by eexists].
Qed.

(** The lookups an operation may make. *)
Definition opCost : Z := cost p + 1.

Lemma wp_bac_exec k s o :
  BInv k s -> k + opCost < 2 ^ 64 - 1 -> bac_enabled s o -> wp (bac_exec o) (fun _ => BInv (k + opCost)) s.
Proof.
  intros (v & Hs & Hg) Hk Hen. unfold opCost in *.
  assert (Hc : 0 <= cost p) by (unfold cost; lia).
  assert (Hfin : forall j v' s', j <= k + (cost p + 1) -> Core j v' s' -> Good v' -> BInv (k + (cost p + 1)) s').
  { intros j v' s' Hj H1 H2. exists v'. split; [by eapply core_mono|done]. }
  destruct o as [l dr sig|di pc ft| | | | |dr| |pcs|pcs|m]; cbn [bac_exec bac_enabled] in *.
  - destruct Hen as (Hl & Hsig & Hdr). eapply (wp_tick bp hooks advancePC buildRetPC p ent cap k1 k2 hasRas hasOvr
      hasInd Hsu k v); [done..| |lia|].
    + intros Hd. apply Hdr. by apply (core_draining k v).
    + intros v' s' H1 H2 _. eapply (Hfin (k + cost p)); [lia|done..].
  - destruct Hen as (Hh & Ht & Hctl). rewrite (core_queue0 k v) in Hh by done.
    destruct (v_queue v) as [|ft' rest] eqn:Eq; [done|]. injection Hh as ->. apply wp_bind.
    eapply (wp_updatePC bp hooks advancePC buildRetPC p ent cap k1 k2 hasRas hasOvr hasInd Hsu k v);
      [done|done|lia|done|done| |].
    + intros Hi. destruct (Hctl Hi) as (H1 & H2 & H3 & H4). split_and!; try done. intros Hx. apply H1.
      destruct (co_ftq _ _ _ _ _ _ _ _ _ _ Hs) as (_ & _ & ->). by rewrite Hx.
    + intros v' s' r H1 H2 _. apply wp_ret. eapply (Hfin (k + 1)); [lia|done..].
  - rewrite (core_queue0 k v) in Hen by done. apply wp_bind. eapply wp_bac_popHead; [done..|].
    intros b v' s' H1 H2. apply wp_ret. eapply (Hfin k); [lia|done..].
  - eapply wp_bac_invalidate; [done..|]. intros v' s' H1 H2. eapply (Hfin k); [lia|done..].
  - eapply wp_fetchBlockCycle; [done..|]. intros s' H1. eapply (Hfin k); [lia|done..].
  - eapply wp_profileCycle; [done..|]. intros s' H1. eapply (Hfin k); [lia|done..].
  - destruct Hen as [-> Hnd]. eapply wp_drainStall; [done..| |].
    + rewrite (core_draining k v) in Hnd by done. by destruct (st_drain (v_stalls v)).
    + intros v' s' H1 H2. eapply (Hfin k); [lia|done..].
  - eapply (wp_drainResume hooks p ent cap k1 k2 hasRas hasOvr hasInd Hsu k v); [done..|].
    intros v' s' H1 H2. eapply (Hfin k); [lia|done..].
  - rewrite (core_queue0 k v) in Hen by done.
    eapply (wp_clearStates hooks p ent cap k1 k2 hasRas hasOvr hasInd Hsu k v); [done..|].
    intros v' s' H1 H2. eapply (Hfin k); [lia|done..].
  - rewrite (core_queue0 k v) in Hen by done.
    eapply (wp_resetStage hooks p ent cap k1 k2 hasRas hasOvr hasInd Hsu k v); [done..|].
    intros v' s' H1 H2. eapply (Hfin k); [lia|done..].
  - eapply (wp_unit_quiet ent cap k1 k2 hasRas hasOvr hasInd k v _ _ (fun _ _ => True)); [done| |].
    + intros Hu. eapply wp_mono; [by apply (Hen k)|]. done.
    + intros [] u H1 _. eapply (Hfin k); [lia|done..].
Qed.

Lemma bac_built_inv s : bac_built s -> BInv 0 s.
Proof.
  intros (u & st0 & pc0 & a0 & pcs & s0 & Hu & Hl & Hm & Hst). unfold Bac.make in Hm.
  destruct (_ && _); [done|]. destruct (_ && _); [done|]. injection Hm as <-.
  destruct (lookup_lt_is_Some_2 st0 0) as [x0 Hx0]; [rewrite Hl; unfold MaxThreads; lia|].
  set (s0 := Bac.mkBAC _ _ _ _ _ _ _ _ _ _ _ _ _ _ _ _) in Hst.
  set (v0 := mkView [] Valid x0 pc0 0 (mkStalls false false false) None (predHist u) []).
  assert (H0 : Core 0 (v0 <| v_status := Running |>) (s0 <| Bac.bacStatus ::= <[0%nat := Running]> |>)).
  { constructor; cbn; try done.
    - by apply (built_inv hooks 1 cap k1 k2 hasRas hasOvr hasInd (bs_unit _ _ _ _ _ Hsu)).
    - split_and!; [|done..]. apply ftq_make_inv. pose proof (bs_ent _ _ _ _ _ Hsu). lia.
    - constructor; cbn; [constructor| |apply map_Forall_empty..]. intros a. rewrite lookup_empty.
      split; [by intros [? ?]|by intros ?%not_elem_of_nil].
    - apply list_lookup_insert_eq. by eapply lookup_lt_Some. }
  assert (Hg0 : Good (v0 <| v_status := Running |>)).
  { constructor; cbn; try done; [intros _; apply (bs_ent _ _ _ _ _ Hsu)|by intros [?|?]]. }
  assert (Hw : wp (Bac.startupStage p pcs) (fun _ s' => BInv 0 s')
    (s0 <| Bac.bacStatus ::= <[0%nat := Running]> |>)).
  { unfold Bac.startupStage. apply wp_bind.
    eapply (wp_resetStage hooks p ent cap k1 k2 hasRas hasOvr hasInd Hsu 0); [exact H0|done|done|].
    intros v' s' H1 Hg1. unfold Bac.switchToActive. apply wp_bind, wp_gets, wp_when; intros _.
    - unfold Bac.cpuCall. apply wp_bind, wp_modify, wp_modify. exists v'. split; [|done]. destruct H1. by constructor.
    - by exists v'. }
  (* the first step of the reset writes the status that was not initialised *)
  replace (Bac.startupStage p pcs s0) with
    (Bac.startupStage p pcs (s0 <| Bac.bacStatus ::= <[0%nat := Running]> |>)) in Hst.
  { unfold wp in Hw. by rewrite Hst in Hw. }
  unfold Bac.startupStage, Bac.resetStage. rewrite (threads_one hooks p ent k1 k2 Hsu). cbn [mfor].
  unfold Bac.clearStates, Bac.wr, Bac.rd, mbind, M_bind, gets, at_index, modify, mret, M_ret.
  unfold s0. change (Z.to_nat 0) with 0%nat. unfold setf at 1. cbn -[lookup insert]. rewrite Hx0.
  rewrite list_lookup_insert_eq by (by eapply lookup_lt_Some).
  unfold setf. cbn -[lookup insert]. by rewrite list_insert_insert_eq.
Qed.

Lemma bac_reach_inv m s :
  Z.of_nat m * opCost < 2 ^ 64 - 1 -> bac_reach m s -> BInv (Z.of_nat m * opCost) s.
Proof.
  assert (0 < opCost) by (unfold opCost, cost; lia).
  intros Hm Hr. induction Hr as [s Hb|m o s s' Hr IH Hen Hex]; [by apply bac_built_inv|].
  specialize (IH ltac:(lia)). assert (Hw := wp_bac_exec (Z.of_nat m * opCost) s o IH ltac:(lia) Hen).
  replace (Z.of_nat (S m) * opCost) with (Z.of_nat m * opCost + opCost) by lia.
  unfold wp in Hw. by rewrite Hex in Hw.
Qed.

(** ** Properties *)
Context (m : nat) (s : BAC) (Hm : Z.of_nat (2 + m) * opCost < 2 ^ 64 - 1) (Hr : bac_reach m s).

Lemma reached : exists v, Core (Z.of_nat m * opCost) v s /\ Good v /\
  Z.of_nat m * opCost + opCost + opCost < 2 ^ 64 - 1 /\ 0 <= cost p.
Proof.
  assert (0 < opCost) by (unfold opCost, cost; lia).
  destruct (bac_reach_inv m s) as (v & Hs & Hg); [lia|done|]. exists v. split_and!; [done..|lia|unfold cost; lia].
Qed.

(** [C4] The decoupled front end does not fault in the uses its callers make of it: in every reachable
    state of the BAC stage with its branch prediction unit and fetch target queue, for one thread and
    any parts that keep their contracts, every cycle with any signals and every call of the fetch stage
    succeeds, with two exceptions: the pre-decoding of a branch inside a micro-coded instruction that
    the BTB does not hold, which panics (bac_undetected_microop_faults), and clearStates or a reset with
    targets still in the queue (bac_clear_leaks_histories). The queue has room at every insertion, no
    target is removed with a history attached, no deleted history is used, the search for a branch
    terminates, and a BTB hit comes with its instruction. *)
Theorem bac_no_fault o : bac_enabled s o -> isOk (bac_exec o s) = true.
Proof.
  intros Hen. destruct reached as (v & Hs & Hg & Hk & Hc). eapply wp_isOk, wp_bac_exec; [by exists v| |done].
  unfold opCost in *. lia.
Qed.

(** [C5] The fetch target queue always holds one predicted path, in every reachable state (the callers
    as bac_enabled describes): each target starts at the PC predicted for its predecessor and the stage
    continues at the PC predicted for the last. *)
Theorem bac_path_contiguous q pc :
  ftq (Bac.b_ftq s) !! 0%nat = Some q -> Bac.bacPC s !! 0%nat = Some pc -> path q pc.
Proof.
  intros Hq Hpc. destruct reached as (v & Hs & Hg & _). destruct (co_ftq _ _ _ _ _ _ _ _ _ _ Hs) as (_ & Eq & _).
  rewrite (co_pc _ _ _ _ _ _ _ _ _ _ Hs) in Hpc. simplify_eq. apply Hg.
Qed.

(** [C19] In every reachable state (the callers as bac_enabled describes; in particular clearStates and
    a reset come with an empty queue, otherwise histories are leaked, see bac_clear_leaks_histories) the
    branch histories the stage has made and not yet handed over are exactly those the fetch targets in
    the queue point to, each by one target: none is leaked, shared or used after it was deleted. *)
Theorem bac_histories_owned :
  NoDup (ptrs (queue0 s)) /\ forall a, is_Some (Bac.heap s !! a) <-> a ∈ ptrs (queue0 s).
Proof.
  destruct reached as (v & Hs & Hg & _). rewrite (core_queue0 _ v) by done.
  destruct (co_own _ _ _ _ _ _ _ _ _ _ Hs) as [H1 H2 _ _]. rewrite (gd_loose _ _ Hg) in *. by split.
Qed.

(** [C14] A squash of commit, decode or fetch, in this priority, leaves the
    front end empty at the PC it was sent to: no target, no history of an
    undetected branch, a valid queue, no cycles left to wait; and the unit has
    dropped the younger branches, committed the older ones and recorded the
    outcome, as the signal asks. *)
Theorem bac_squash_exact x dr sig pc :
  Bac.bacStatus s !! 0%nat = Some x -> sig_ok sig -> (draining s -> dr = true) ->
  resteer sig x = Some (Some pc) ->
  wp (Bac.tick bp hooks advancePC buildRetPC p [0] dr sig) (fun _ s' =>
    queue0 s' = [] /\ ftqStatus (Bac.b_ftq s') !! 0%nat = Some Valid /\ Bac.heap s' = ∅ /\
    Bac.bacStatus s' !! 0%nat = Some Squashing /\ Bac.bacPC s' !! 0%nat = Some pc /\
    Bac.branchPredictRemaining s' !! 0%nat = Some 0 /\
    signalled sig (predHist (Bac.bpu s)) (predHist (Bac.bpu s'))) s.
Proof.
  intros Hx Hsig Hdr Hre. destruct reached as (v & Hs & Hg & Hk & Hc).
  assert (x = v_status v) as -> by (pose proof (co_status _ _ _ _ _ _ _ _ _ _ Hs); congruence).
  eapply (wp_tick bp hooks advancePC buildRetPC p ent cap k1 k2 hasRas hasOvr hasInd Hsu _ v);
    [exact Hs|done|by right|done| |unfold opCost in *; lia|].
  { intros Hd. apply Hdr. by apply (core_draining _ v) in Hs as ->. }
  intros v' s' H1 Hg1 Ht. destruct Ht as [pc' hs Hr' Hsg|hs Hr'|hs Hr'|hs v' new Hr']; [|congruence..].
  assert (pc' = pc) as -> by congruence. rewrite (core_queue0 _ _ _ H1).
  destruct H1 as [Hb Eh Hf Ho _ E1 E2 E3 E4 _]. destruct Hf as (_ & _ & Ef). cbn in *. split_and!; try done.
  - apply map_eq. intros a. rewrite lookup_empty. destruct (Bac.heap s' !! a) eqn:Ea; [|done].
    assert (Hin : is_Some (Bac.heap s' !! a)) by (by eexists).
    apply (ow_dom _ _ _ _ _ _ _ _ _ _ Ho) in Hin. rewrite (gd_loose _ _ Hg) in Hin. by apply not_elem_of_nil in Hin.
  - rewrite Eh, (co_hist _ _ _ _ _ _ _ _ _ _ Hs). done.
Qed.


(** [C20] A pre-decoded branch becomes the youngest branch in flight of the unit, exactly once, with its
    sequence number, type and the start of its fetch target, detected or not (an undetected branch
    inside a micro-coded instruction is not covered, its call panics); the fetch targets keep everything
    but the histories they give away. *)
Theorem bac_predecode_exact di pc ft :
  bac_enabled s (BUpdatePC di pc ft) -> isControl (di_staticInst di) = true ->
  wp (Bac.updatePC bp hooks advancePC buildRetPC p di pc (Some ft)) (fun r s' =>
    (detach <$> queue0 s') = (detach <$> queue0 s) /\
    exists h l, predHist (Bac.bpu s) !! 0%nat = Some l /\
      predHist (Bac.bpu s') = <[0%nat := h :: l]> (predHist (Bac.bpu s)) /\
      seqNum h = di_seqNum di /\ h_type h = getBranchType (di_staticInst di) /\
      start_address h = FT.startAddress ft /\ predTaken h = fst (fst r)) s.
Proof.
  intros (Hh & Ht & Hctl) Hi. destruct reached as (v & Hs & Hg & Hk & Hc).
  rewrite (core_queue0 _ v) in Hh by done. destruct (v_queue v) as [|ft' rest] eqn:Eq; [done|]. injection Hh as ->.
  unfold opCost in *.
  eapply (wp_updatePC bp hooks advancePC buildRetPC p ent cap k1 k2 hasRas hasOvr hasInd Hsu _ v);
    [exact Hs|done|lia|done|done| |].
  - intros _. destruct (Hctl Hi) as (H1 & H2 & H3 & H4). split_and!; try done. intros Hx. apply H1.
    destruct (co_ftq _ _ _ _ _ _ _ _ _ _ Hs) as (_ & _ & ->). by rewrite Hx.
  - rewrite Hi. intros v' s' r H1 Hg1 (Hhd & h & l & El & Ev & Hx).
    rewrite (core_queue0 _ _ _ H1), (core_queue0 _ _ _ Hs). split; [apply Hhd|]. exists h, l.
    rewrite (co_hist _ _ _ _ _ _ _ _ _ _ H1), (co_hist _ _ _ _ _ _ _ _ _ _ Hs). done.
Qed.
End Spec.

(** ** A front end with the BTB-Ferret BTB *)

(** A local predictor that answers first-level queries from its own table, as
    [TAGE_SC_L], the only predictor with such queries, does from its bimodal
    table. *)
Definition FirstLevelLocal : Type := LocalBP.

Definition firstLevel (tid : ThreadID) (pc : Addr) : M FirstLevelLocal bool :=
  r ← LocalPred.lookup tid pc None; mret (pred_taken (fst r)).

#[local] Instance FirstLevelLocal_cp : ConditionalPredictor FirstLevelLocal unit := {|
  cp_lookup := LocalPred.lookup;
  cp_updateHistories := fun _ _ _ _ _ _ h => mret h;
  cp_squash := LocalPred.squash;
  cp_update := LocalPred.update;
  cp_branchPlaceholder := fun _ _ _ h => mret h;
  cp_predictL1NoUpdate := firstLevel;
  cp_getStaticLatency := lb_staticLatency
|}.

#[local] Instance FirstLevelLocal_contract : ConditionalContract FirstLevelLocal unit Z :=
  @Build_ConditionalContract FirstLevelLocal unit Z FirstLevelLocal_cp cp_threads
    (fun k c => @cp_ok LocalBP unit Z LocalBP_cp LocalBP_contract k c)
    (@cp_looked LocalBP unit Z LocalBP_cp LocalBP_contract)
    (@cp_live LocalBP unit Z LocalBP_cp LocalBP_contract)
    (@cp_lookup_ok LocalBP unit Z LocalBP_cp LocalBP_contract)
    (@cp_updateHistories_ok LocalBP unit Z LocalBP_cp LocalBP_contract)
    (@cp_squash_ok LocalBP unit Z LocalBP_cp LocalBP_contract)
    (@cp_update_ok LocalBP unit Z LocalBP_cp LocalBP_contract).

#[export] Instance LocalBP_placeholder : CondPlaceholder LocalBP unit Z.
Proof. constructor. intros k c tid pc unc Hok _. by apply wp_ret. Qed.
#[local] Instance FirstLevelLocal_placeholder : CondPlaceholder FirstLevelLocal unit Z.
Proof. constructor. intros k c tid pc unc Hok _. by apply wp_ret. Qed.
#[local] Instance FirstLevelLocal_l1 : CondFirstLevel FirstLevelLocal unit Z.
Proof.
  constructor. intros k c tid pc Hok Ht. cbn. unfold firstLevel. apply wp_bind.
  eapply wp_mono; [exact (@cp_lookup_ok LocalBP unit Z _ LocalBP_contract k c tid pc Hok Ht)|].
  intros r c' [? _]. by apply wp_ret.
Qed.

#[local] Instance bdemo_btb : BranchTargetBuffer MLBTB := MultiLevelBTB_btb demoCfg.
#[local] Instance bdemo_contract : BtbContract MLBTB := MultiLevelBTB_contract demoCfg demoCfg_ok 2.
#[local] Instance bdemo_search : BtbSearch MLBTB := MultiLevelBTB_search demoCfg demoCfg_ok 2.
#[local] Instance bdemo_ip : IndirectPredictor SimpleIndirect IndirectHistory := SimpleIndirect_ip demoSI.
#[local] Instance bdemo_ipc : IndirectContract SimpleIndirect IndirectHistory :=
  SimpleIndirect_contract demoSI demoSI_good.

Definition demoBac : BACParams := mkBACParams true 32 32 4 1 4 1 false true.
Definition demoPC (tid : ThreadID) : PCStateBase := mkPC 0x1000 0.

(** A stage on a unit with the direction predictor [c]. *)
Definition bacMake {C HC} `{!ConditionalPredictor C HC} (c : Res C)
  : Res (@Bac.BAC MLBTB C HC LocalBP unit SimpleIndirect IndirectHistory) :=
  match boot demoCfg demoGeo 0 0 (mkPrevBr false false), c, LocalPred.make 64 2 2 1,
        SI.make demoSI (fun _ => 0) with
  | Ok b, Ok c, Ok c2, Ok i =>
      u ← make demoHooks 1 b (Some (RAS.make 16 1)) c (Some c2) (Some i);
      s ← Bac.make demoBac (Some u) (Ftq.make 4) (replicate MaxThreads Idle) (mkPC 0 0) 0;
      resMap snd (Bac.startupStage demoBac demoPC s)
  | _, _, _, _ => Err Fatal
  end.

Section Runs.
Context {C HC : Type} `{!ConditionalPredictor C HC}.
Abbreviation BAC := (@Bac.BAC MLBTB C HC LocalBP unit SimpleIndirect IndirectHistory).
Abbreviation BPU := (@BPU MLBTB C HC LocalBP unit SimpleIndirect IndirectHistory).

(** [UFill] inserts a branch in the BTB. *)
Inductive DemoBacOp :=
| UFill (pc tgt : Addr) (i : StaticInst)
| UTick (sig : TimeStruct)
| UUpdate (seq : Z) (pc : Addr) (i : StaticInst)
| UPop.

Definition fillBtb (pc tgt : Addr) (i : StaticInst) : M BPU unit :=
  zoom BPredUnit.btb (btb_update 0 pc (mkPC tgt 0) (getBranchType i) (Some i)).

Definition bacDemoOp (d : DemoBacOp) (s : BAC) : option (BacOp BPU) :=
  match d with
  | UFill pc tgt i => Some (BUnit (fillBtb pc tgt i))
  | UTick sig => Some (BTick [0] false sig)
  | UUpdate seq pc i =>
      (fun ft => BUpdatePC (mkDynInst seq 0 (mkPC pc 0) i) (mkPC pc 0) ft) <$> head (queueOf (Bac.b_ftq s) 0)
  | UPop => Some BPopHead
  end.

Definition sigOkb (sig : TimeStruct) : bool :=
  implb (cc_squash (commitInfo sig 0)) (negb (isNull (cc_pc (commitInfo sig 0)))) &&
  implb (dc_squash (decodeInfo sig 0)) (negb (isNull (dc_nextPC (decodeInfo sig 0)))) &&
  implb (fc_squash (fetchInfo sig 0)) (negb (isNull (fc_nextPC (fetchInfo sig 0)))).

Definition bacDemoEnabled (d : DemoBacOp) (s : BAC) : bool :=
  match d with
  | UFill _ _ _ => true
  | UTick sig =>
      sigOkb sig && match Bac.stalls s !! 0%nat with Some x => negb (st_drain x) | None => true end
  | UUpdate seq pc i =>
      match head (queueOf (Bac.b_ftq s) 0) with
      | None => false
      | Some ft =>
          negb (bool_decide (ftqStatus (Bac.b_ftq s) !! 0%nat = Some Invalid)) && FT.inRange pc ft &&
          match predHist (Bac.bpu s) !! 0%nat with
          | Some l => forallb (fun h => seqNum h <? seq) l | None => true end &&
          negb (isMicroop i)
      end
  | UPop => negb (bool_decide (queueOf (Bac.b_ftq s) 0 = []))
  end.

Definition bacDemoExec (o : BacOp BPU) : M BAC unit :=
  bac_exec demoUnit demoHooks demoAdvance demoRetPC demoBac o.

Fixpoint bacDemoSteps (ds : list DemoBacOp) (s : BAC) : Res BAC :=
  match ds with
  | [] => Ok s
  | d :: ds' =>
      match bacDemoOp d s with
      | None => Err Fatal
      | Some o =>
          if bacDemoEnabled d s then
            match bacDemoExec o s with Ok (_, s') => bacDemoSteps ds' s' | Err e => Err e end
          else Err Fatal
      end
  end.
End Runs.

(** The stage with the local predictor. *)
Definition DemoBAC : Type := @Bac.BAC MLBTB FirstLevelLocal unit LocalBP unit SimpleIndirect IndirectHistory.
Definition bacDemoMake : Res DemoBAC := bacMake (LocalPred.make 64 2 2 1 : Res FirstLevelLocal).
Definition bacDemoRun (ds : list DemoBacOp) : Res DemoBAC :=
  match bacDemoMake with Ok s => bacDemoSteps ds s | Err e => Err e end.

Abbreviation bacDemoReach :=
  (bac_reach demoUnit demoHooks demoAdvance demoRetPC demoBac 4 16 (1 : Z) (1 : Z) true true true).

Lemma bdemo_setup : bac_setup demoHooks demoBac 4 (1 : Z) (1 : Z).
Proof. split; try done. split; [done..|]. intros hk [= <-]. apply ferretHooks_ok. Qed.

Lemma bdemo_built (s : DemoBAC) : bacDemoMake = Ok s -> bacDemoReach 0 s.
Proof.
  unfold bacDemoMake, bacMake. destruct (boot _ _ _ _ _) as [b|] eqn:Eb; [|done].
  destruct (LocalPred.make 64 2 2 1) as [c|] eqn:Ec; [|done].
  destruct (SI.make demoSI _) as [i|] eqn:Ei; [|done].
  intros (u & Hu & (s0 & Hs0 & Hs)%res_bind_ok)%res_bind_ok.
  apply bac_reach_0. exists u, (replicate MaxThreads Idle), (mkPC 0 0), 0, demoPC, s0.
  refine (conj _ (conj eq_refl (conj Hs0 _))).
  - exists b, (Some (RAS.make 16 1)), c, (Some c), (Some i).
    refine (conj _ (conj _ (conj (conj eq_refl _) (conj (conj eq_refl _) (conj (conj eq_refl _) Hu))))).
    + apply (reach_inv demoCfg demoGeo 0); [exact demoGeo_ok|exact demoCfg_ok|clear; lia|].
      exact (boot_reach _ _ _ _ _ _ Eb).
    + apply (LocalPred.local_make_ok 64 2 2 1); [clear; lia..|exact Ec].
    + clear. by apply RasSafe.ras_make_ok.
    + apply (LocalPred.local_make_ok 64 2 2 1); [clear; lia..|exact Ec].
    + exact (si_make_ok demoSI (fun _ => 0) _ Ei).
  - destruct (Bac.startupStage demoBac demoPC s0) as [[[] s1]|]; [|done]. by injection Hs as <-.
Qed.

Lemma sigOkb_ok sig : sigOkb sig = true -> sig_ok sig.
Proof.
  unfold sigOkb, sig_ok. intros [[H1 H2]%andb_true_iff H3]%andb_true_iff.
  split_and!; intros E; rewrite E in *.
  - by destruct (cc_pc _).
  - by destruct (dc_nextPC _).
  - by destruct (fc_nextPC _).
Qed.

Lemma bacDemoEnabled_ok d (s : DemoBAC) o :
  bacDemoOp d s = Some o -> bacDemoEnabled d s = true ->
  bac_enabled 16 (1 : Z) (1 : Z) true true true s o.
Proof.
  destruct d as [pc tgt i|sig|seq pc i|]; cbn [bacDemoOp bacDemoEnabled].
  - intros [= <-] _ k u Hu. eapply wp_mono.
    { eapply (quiet_btb 1 16 (1 : Z) (1 : Z) true true true k k _ (fun _ _ => True)); [exact Hu|].
      intros Hb. eapply wp_mono; [by apply bt_update_ok|]. done. }
    by intros [] u' [? _].
  - intros [= <-] [H1%sigOkb_ok H2]%andb_true_iff. split_and!; [by right|done|].
    intros (x & Ex & Hx). rewrite Ex, Hx in H2. done.
  - destruct (head _) as [ft|] eqn:Eh; [|done]. intros [= <-] [[[H1 H2]%andb_true_iff H3]%andb_true_iff H4]%andb_true_iff.
    split_and!; [done..|]. intros _. cbn. split_and!; [|done| |].
    + apply negb_true_iff in H1. by apply bool_decide_eq_false in H1.
    + intros l h El Hh. change (Z.to_nat 0) with 0%nat in El. rewrite El in H3. rewrite forallb_forall in H3.
      apply Z.ltb_lt, H3. by apply list_elem_of_In.
    + by destruct (isMicroop i).
  - intros [= <-] H. apply negb_true_iff in H. by apply bool_decide_eq_false in H.
Qed.

Lemma bacDemoSteps_reach ds : forall m (s s' : DemoBAC),
  bacDemoReach m s -> bacDemoSteps ds s = Ok s' -> bacDemoReach (length ds + m) s'.
Proof.
  induction ds as [|d ds IH]; intros m s s' Hr; cbn [bacDemoSteps]; [by intros [= <-]|].
  destruct (bacDemoOp d s) as [o|] eqn:Eo; [|done].
  destruct (bacDemoEnabled d s) eqn:Ed; [|done].
  destruct (bacDemoExec o s) as [[[] s1]|] eqn:Ex; [|done]. intros Hs.
  replace (length (d :: ds) + m)%nat with (length ds + S m)%nat by (cbn; lia).
  eapply IH; [|exact Hs]. eapply bac_reach_step; [exact Hr|by eapply bacDemoEnabled_ok|exact Ex].
Qed.

Lemma bacDemoRun_reach ds s : bacDemoRun ds = Ok s -> bacDemoReach (length ds) s.
Proof.
  unfold bacDemoRun. destruct bacDemoMake as [s0|] eqn:E; [|done]. intros Hs.
  rewrite <- (Nat.add_0_r (length ds)). eapply bacDemoSteps_reach; [|exact Hs]. by apply bdemo_built.
Qed.

Definition quietSig : TimeStruct :=
  mkTimeStruct (fun _ => mkCommitComm false None None 0 false)
    (fun _ => mkDecodeComm false None false 0 false) (fun _ => mkFetchComm false None).
(** A mispredicted call, found at decode, that goes to 0x4000. *)
Definition decodeSig : TimeStruct :=
  mkTimeStruct (fun _ => mkCommitComm false None None 0 false)
    (fun _ => mkDecodeComm true (Some (mkPC 0x4000 0)) true 1 true) (fun _ => mkFetchComm false None).

(** A call at 0x1008 that has left the first-level BTB: the stage finds it,
    predicts it and then follows the false path for some cycles. *)
Definition bacDemoOps : list DemoBacOp :=
  [UFill 0x1008 0x2000 callInst; UFill 0x3000 0x2000 callInst; UFill 0x3010 0x2000 callInst;
   UTick quietSig; UTick quietSig].

Lemma bdemo_state s : bacDemoRun bacDemoOps = Ok s -> bacDemoReach 5 s.
Proof. exact (bacDemoRun_reach bacDemoOps s). Qed.

Lemma bdemo_enabled s d o :
  bacDemoRun bacDemoOps = Ok s -> bacDemoOp d s = Some o ->
  match bacDemoRun bacDemoOps with Ok s => bacDemoEnabled d s | Err _ => false end = true ->
  bac_enabled 16 (1 : Z) (1 : Z) true true true s o.
Proof. intros E Eo H. rewrite E in H. by eapply bacDemoEnabled_ok. Qed.

Lemma bac_no_fault_witness :
  exists s, bacDemoRun bacDemoOps = Ok s /\ isOk (bacDemoExec (BTick [0] false decodeSig) s) = true.
Proof.
  destruct (bacDemoRun bacDemoOps) as [s|] eqn:E; [|exfalso; vm_compute in E; discriminate].
  exists s. split; [reflexivity|].
  apply (bac_no_fault demoUnit demoHooks demoAdvance demoRetPC demoBac 4 16 (1 : Z) (1 : Z) true true true
    bdemo_setup 5 s).
  - clear. vm_compute. reflexivity.
  - exact (bdemo_state s E).
  - apply (bdemo_enabled s (UTick decodeSig)); [exact E|reflexivity|clear; vm_compute; reflexivity].
Defined.

Lemma bac_path_contiguous_witness :
  exists s q pc, bacDemoRun bacDemoOps = Ok s /\ ftq (Bac.b_ftq s) !! 0%nat = Some q /\
    Bac.bacPC s !! 0%nat = Some pc /\ length q = 1%nat /\ path q pc.
Proof.
  assert (H : exists q pc, match bacDemoRun bacDemoOps with
    | Ok s => ftq (Bac.b_ftq s) !! 0%nat = Some q /\ Bac.bacPC s !! 0%nat = Some pc /\ length q = 1%nat
    | Err _ => False end).
  { do 2 eexists. vm_compute. split; [reflexivity|]. split; reflexivity. }
  destruct H as (q & pc & H). destruct (bacDemoRun bacDemoOps) as [s|] eqn:E; [|destruct H].
  destruct H as (Hq & Hpc & Hlen). exists s, q, pc.
  refine (conj eq_refl (conj Hq (conj Hpc (conj Hlen _)))).
  refine (bac_path_contiguous demoUnit demoHooks demoAdvance demoRetPC demoBac 4 16 (1 : Z) (1 : Z) true true true
    bdemo_setup 5 s _ (bdemo_state s E) q pc Hq Hpc). clear. vm_compute. reflexivity.
Defined.

Lemma bac_histories_owned_witness :
  exists s, bacDemoRun bacDemoOps = Ok s /\ NoDup (ptrs (queueOf (Bac.b_ftq s) 0)) /\
    forall a, is_Some (Bac.heap s !! a) <-> a ∈ ptrs (queueOf (Bac.b_ftq s) 0).
Proof.
  destruct (bacDemoRun bacDemoOps) as [s|] eqn:E; [|exfalso; vm_compute in E; discriminate].
  exists s. split; [reflexivity|].
  refine (bac_histories_owned demoUnit demoHooks demoAdvance demoRetPC demoBac 4 16 (1 : Z) (1 : Z) true true true
    bdemo_setup 5 s _ (bdemo_state s E)). clear. vm_compute. reflexivity.
Defined.

(** The facts about the demonstration state that the witnesses below use. *)
Definition bdemoCheck (s : DemoBAC) : bool :=
  bool_decide (Bac.bacStatus s !! 0%nat = Some Overriding) &&
  match Bac.stalls s !! 0%nat with Some x => negb (st_drain x) | None => false end.

Lemma bdemo_facts s :
  bacDemoRun bacDemoOps = Ok s ->
  Bac.bacStatus s !! 0%nat = Some Overriding /\
  ~ (exists x, Bac.stalls s !! 0%nat = Some x /\ st_drain x = true).
Proof.
  intros E.
  assert (H : match bacDemoRun bacDemoOps with Ok s => bdemoCheck s | Err _ => false end = true)
    by (clear; vm_compute; reflexivity).
  rewrite E in H. clear E. unfold bdemoCheck in H. apply andb_true_iff in H as [H1 H2].
  apply bool_decide_eq_true in H1. split; [exact H1|]. intros (x & Ex & Hx). rewrite Ex, Hx in H2. discriminate.
Qed.

Lemma bac_squash_exact_witness :
  exists s, bacDemoRun bacDemoOps = Ok s /\
    wp (Bac.tick demoUnit demoHooks demoAdvance demoRetPC demoBac [0] false decodeSig) (fun _ s' =>
      queueOf (Bac.b_ftq s') 0 = [] /\ ftqStatus (Bac.b_ftq s') !! 0%nat = Some Valid /\ Bac.heap s' = ∅ /\
      Bac.bacStatus s' !! 0%nat = Some Squashing /\ Bac.bacPC s' !! 0%nat = Some (mkPC 0x4000 0) /\
      Bac.branchPredictRemaining s' !! 0%nat = Some 0 /\
      signalled decodeSig (predHist (Bac.bpu s)) (predHist (Bac.bpu s'))) s.
Proof.
  destruct (bacDemoRun bacDemoOps) as [s|] eqn:E; [|exfalso; vm_compute in E; discriminate].
  exists s. split; [reflexivity|]. destruct (bdemo_facts s E) as [Hx Hnd].
  refine (bac_squash_exact demoUnit demoHooks demoAdvance demoRetPC demoBac 4 16 (1 : Z) (1 : Z) true true true
    bdemo_setup 5 s _ (bdemo_state s E) Overriding false decodeSig (mkPC 0x4000 0) Hx _ _ _).
  - clear. vm_compute. reflexivity.
  - clear. by apply sigOkb_ok.
  - intros Hd. exact (match Hnd Hd with end).
  - clear. reflexivity.
Defined.


Definition calledAt (pc : Addr) (seq : Z) : DynInst := mkDynInst seq 0 (mkPC pc 0) callInst.

Lemma bac_predecode_exact_witness :
  exists s ft, bacDemoRun bacDemoOps = Ok s /\
    wp (Bac.updatePC demoUnit demoHooks demoAdvance demoRetPC demoBac (calledAt 0x1008 1) (mkPC 0x1008 0) (Some ft))
      (fun r s' => (detach <$> queueOf (Bac.b_ftq s') 0) = (detach <$> queueOf (Bac.b_ftq s) 0) /\
        exists h l, predHist (Bac.bpu s) !! 0%nat = Some l /\
          predHist (Bac.bpu s') = <[0%nat := h :: l]> (predHist (Bac.bpu s)) /\
          seqNum h = 1 /\ h_type h = CallDirect /\ start_address h = FT.startAddress ft /\
          predTaken h = fst (fst r)) s.
Proof.
  assert (H : exists ft, match bacDemoRun bacDemoOps with
    | Ok s => bacDemoOp (UUpdate 1 0x1008 callInst) s =
                Some (BUpdatePC (calledAt 0x1008 1) (mkPC 0x1008 0) ft)
    | Err _ => False end).
  { eexists. vm_compute. reflexivity. }
  destruct H as (ft & H). destruct (bacDemoRun bacDemoOps) as [s|] eqn:E; [|destruct H].
  exists s, ft. split; [reflexivity|].
  refine (bac_predecode_exact demoUnit demoHooks demoAdvance demoRetPC demoBac 4 16 (1 : Z) (1 : Z) true true true
    bdemo_setup 5 s _ (bdemo_state s E) (calledAt 0x1008 1) (mkPC 0x1008 0) ft _ eq_refl).
  - clear. vm_compute. reflexivity.
  - apply (bdemo_enabled s (UUpdate 1 0x1008 callInst)); [exact E|exact H|clear; vm_compute; reflexivity].
Defined.

(** ** Behaviour at the edges *)

Section FirstLevel.
Context {B C HC C2 HC2 I HI : Type} `{!BranchTargetBuffer B} `{!ConditionalPredictor C HC}
  `{!ConditionalPredictor C2 HC2} `{!IndirectPredictor I HI}.
Context (bp : BPUParams) (hooks : option (MLHooks B)) (advancePC : StaticInst -> PCStateBase -> PCStateBase)
  (buildRetPC : StaticInst -> PCStateBase -> PCStateBase -> PCStateBase) (p : BACParams).
Abbreviation Stage := (@Bac.BAC B C HC C2 HC2 I HI).

(** The direction predictor has no first-level prediction: it inherits the panic
    of [ConditionalPredictor]. *)
Definition no_first_level : Prop :=
  forall tid pc (c : C), cp_predictL1NoUpdate tid pc c = Err Panic.

Lemma advanceL1_fails (s : Stage) : no_first_level -> isOk (Bac.advanceL1PredPC p s) = false.
Proof.
  intros Hno. unfold Bac.advanceL1PredPC. do 2 (apply bind_fails_r; intros ? ?). apply bind_fails, zoom_fails.
  unfold predictL1. apply bind_fails_r. intros t u. apply bind_fails, zoom_fails. by rewrite Hno.
Qed.

(** [C37] The decoupled front end needs a first-level prediction: with any direction predictor that
    inherits the panic of the base class (all but TAGE-SC-L), in any state, the false path cannot be
    advanced (if the lookups in the BTB before it succeed, the simulation stops with that panic), and
    making a fetch target never returns with a prediction that takes more than the cycle still pending. *)
Theorem bac_first_level_required :
  no_first_level ->
  (forall (s : Stage) a u t b, lookupBBBranch 0 (Bac.false_path_cur_addr s) (Bac.bpu s) = Ok (a, u) ->
     btb_lookupL1 0 a (btb u) = Ok (t, b) -> Bac.advanceL1PredPC p s = Err Panic) /\
  (forall tid change (s s' : Stage) r,
     Bac.generateOne bp hooks advancePC buildRetPC p tid change s = Ok (r, s') ->
     Bac.branchPredictRemaining s' !! Z.to_nat tid = Some 0).
Proof.
  intros Hno. split.
  - intros s a u t b E1 E2. unfold Bac.advanceL1PredPC. rewrite bind_eq. cbn [gets]. rewrite bind_eq.
    unfold zoom at 1. rewrite E1, bind_eq. unfold zoom at 1, predictL1. rewrite bind_eq. unfold zoom at 1.
    change (Bac.bpu (setf Bac.bpu (fun _ => u) s)) with u. rewrite E2, bind_eq. unfold zoom at 1. by rewrite Hno.
  - intros tid change s s' r E. revert r s' E. 
    set (Q := fun s' : Stage => Bac.branchPredictRemaining s' !! Z.to_nat tid = Some 0).
    change (wlp (Bac.generateOne bp hooks advancePC buildRetPC p tid change) (fun _ => Q) s).
    unfold Bac.generateOne. do 3 (apply wlp_bind, wlp_true; intros ? ?). destruct a1 as [search found].
    apply wlp_bind, wlp_true. intros [] s3. apply wlp_bind, wlp_true. intros [[[taken oi] pred] ft] s4.
    apply wlp_bind, wlp_true. intros [] s5. apply wlp_bind. intros rem s6 E6.
    assert (H6 : s6 = s5 /\ Bac.branchPredictRemaining s5 !! Z.to_nat tid = Some rem).
    { unfold Bac.rd in E6. rewrite bind_eq in E6. cbn [gets] in E6.
      destruct (Bac.branchPredictRemaining s5 !! Z.to_nat tid); [|done]. by injection E6 as <- <-. }
    destruct H6 as [-> Hrem]. apply wlp_bind. intros [] s7 E7.
    destruct (Z.eqb_spec rem 0) as [->|]; cbn [negb when] in E7.
    + injection E7 as <-. revert s5 E6 Hrem. intros s5 _. revert s5.
      match goal with |- forall s, _ -> wlp ?x _ _ => change (keeps Q x) end.
      unfold Bac.wr, Bac.rd, Bac.stat. keeps_steps; try (by apply keeps_modify; intros []).
      all: apply (keeps_zoom _ (fun _ => True)); [done|by intros []|done].
    + exfalso. rewrite bind_eq in E7. cbn [modify] in E7.
      match type of E7 with ?x = _ => assert (Hf : isOk x = false) by (by apply advanceL1_fails) end.
      by rewrite E7 in Hf.
Qed.
End FirstLevel.

(** A run of that kind, with the tournament predictor and a branch that has left
    the first-level BTB *)
Theorem bac_first_level_run :
  match bacMake (Tour.make demoTour) with
  | Ok s => bacDemoSteps (take 4 bacDemoOps) s
  | Err e => Err e
  end = Err Panic.
Proof. vm_compute. reflexivity. Qed.

Lemma bac_first_level_required_witness :
  exists s, bacMake (Tour.make demoTour) = Ok s /\ Bac.advanceL1PredPC demoBac s = Err Panic.
Proof.
  assert (H : match bacMake (Tour.make demoTour) with
    | Ok s => isOk (btb_lookupL1 0 (default MaxAddr (bbMap (Bac.bpu s) !! Bac.false_path_cur_addr s))
                      (btb (Bac.bpu s)))
    | Err _ => false end = true) by (vm_compute; reflexivity).
  destruct (bacMake (Tour.make demoTour)) as [s|] eqn:E; [|discriminate H].
  exists s. split; [reflexivity|].
  destruct (btb_lookupL1 0 _ _) as [[t b]|] eqn:E2 in H; [|discriminate H].
  refine (proj1 (bac_first_level_required demoUnit demoHooks demoAdvance demoRetPC demoBac _)
    s _ _ t b eq_refl E2). intros tid pc c. reflexivity.
Defined.

(** Clearing the state of a thread ([clearStates]) empties its queue
    without squashing the histories of its fetch targets: they are lost, and
    the speculative updates they stand for are never undone (the return address
    that the call at 0x1008 pushed stays on the stack). *)
Theorem bac_clear_leaks_histories :
  resMap (fun s => (queueOf (Bac.b_ftq s) 0, map fst (map_to_list (Bac.heap s)),
                    option_map (fun r => map tos (addrStacks r)) (ras (Bac.bpu s))))
    (match bacDemoRun bacDemoOps with
     | Ok s => resMap snd (Bac.clearStates demoPC 0 s)
     | Err e => Err e
     end) = Ok ([], [0], Some [1]).
Proof. vm_compute. reflexivity. Qed.

(** A branch that is not the last micro-op of its instruction. *)
Definition microInst : StaticInst := mkInst true false false true false true false true false 4.

(** The fetch stage hands over a branch in the middle of a micro-coded
    instruction that the stage had not detected: the fresh prediction looks it
    up in a BTB that does not hold it, and the multi-level BTB panics. *)
Theorem bac_undetected_microop_faults :
  match bacDemoRun bacDemoOps with
  | Ok s =>
      match head (queueOf (Bac.b_ftq s) 0) with
      | Some ft => resMap fst (Bac.updatePC demoUnit demoHooks demoAdvance demoRetPC demoBac
                     (mkDynInst 1 0 (mkPC 0x1004 0) microInst) (mkPC 0x1004 0) (Some ft) s)
      | None => Err Fatal
      end
  | Err e => Err e
  end = Err Panic.
Proof. vm_compute. reflexivity. Qed.
