(* ===== verification/Fetch.v ===== *)
(** * The fetch stage

    [cpu/o3/fetch.hh] and [fetch.cc]: the stage that reads instruction bytes
    from the instruction cache along the fetch targets of the BAC stage, decodes
    them and queues the instructions for the decode stage.

    [FrontEnd] is what the stage uses of the BAC stage and of the fetch target
    queue, [InstDecoder] the interface of the instruction decoders
    ([arch/generic/decoder.hh]).  The MMU, the instruction cache and the micro-code of
    the instruction set are parameters.  The MMU may answer a translation at
    once or later; a later answer, the answers and retries of the cache and the
    calls of the CPU are operations of their own.  Requests are compared by
    identity in the source (shared pointers), here by number.  The members of the
    arrays of [MaxThreads] elements are gathered in one record per thread.  What the
    stage reads of the CPU object is part of the state, the calls that only tell
    the CPU something are a log.  [fetchTick] and [lastIcacheStall] are written and
    never read, and left out. *)

From Stdlib Require Import ZArith Lia.
From stdpp Require Import base list sorting numbers.
From S2P Require Import Prelude Types Ftq Bac.

(** ** The front end *)

Class FrontEnd (F : Type) := {
  fe_isHeadReady : ThreadID -> M F bool;
  fe_isReady : ThreadID -> M F bool;
  fe_isEmpty : ThreadID -> M F bool;
  fe_readHead : ThreadID -> M F (option FetchTarget);
  fe_popHead : ThreadID -> M F bool;
  fe_invalidate : ThreadID -> M F unit;
  fe_updatePC : DynInst -> PCStateBase -> option FetchTarget ->
    M F (bool * PCStateBase * option FetchTarget);
  fe_fetchBlockCycle : M F unit
}.

(** ** Instructions *)

(** What the stage reads of a [StaticInst]; [si_code] stands for the rest of
    the object. *)
Record SInst := mkSInst {
  si_flags : StaticInst;
  si_isMacroop : bool;
  si_isQuiesce : bool;
  si_isDelayedCommit : bool;
  si_code : Z
}.

(** A dynamic instruction in the fetch queue *)
Record FInst := mkFInst {
  fi_inst : DynInst;
  fi_static : SInst;
  fi_macroop : option SInst;
  fi_predPC : PCStateBase;
  fi_predTaken : bool;
  fi_fault : option Z;
  fi_notAnInst : bool
}.

#[export] Instance eta_FInst : Settable FInst := fun x =>
  mkFInst (fi_inst x) (fi_static x) (fi_macroop x) (fi_predPC x) (fi_predTaken x) (fi_fault x)
    (fi_notAnInst x).

(** [InstDecoder]; [decode] changes only what the instruction set adds to a PC. *)
Class InstDecoder (D : Type) := {
  dec_moreBytesSize : D -> Z;
  dec_pcMask : D -> Addr;
  dec_instReady : D -> bool;
  dec_needMoreBytes : D -> bool;
  dec_moreBytes : list Z -> PCStateBase -> Addr -> D -> D;
  dec_decode : PCStateBase -> D -> SInst * D;
  dec_fetchRomMicroop : Z -> option SInst -> D -> Res SInst;
  dec_reset : D -> D
}.

(** [isRomMicroPC]: the top bit of the 16-bit micro PC *)
Definition isRomMicroPC (upc : Z) : bool := Z.testbit upc 15.

Record Request := mkRequest {
  req_id : Z;
  req_vaddr : Addr;
  req_size : Z;
  req_pc : Addr;
  req_tid : ThreadID
}.

#[export] Instance Request_eq_dec : EqDecision Request.
Proof. solve_decision. Defined.

(** The answer of the MMU: a physical address or a fault *)
Inductive Translation := Translated (paddr : Addr) | TranslationFault (f : Z).

(** A pointer that is not null *)
Definition isSome {A} (o : option A) : bool :=
  match o with Some _ => true | None => false end.

Definition InvalidThreadID : ThreadID := -1.
Definition MaxWidth : Z := 200.

Module Fetch.

Inductive FetchStatus := Active | Inactive.

#[export] Instance FetchStatus_eq_dec : EqDecision FetchStatus.
Proof. solve_decision. Defined.

Inductive ThreadStatus :=
| Running | Idle | Squashing | Blocked | Fetching | TrapPending | QuiescePending | ItlbWait
| IcacheWaitResponse | IcacheWaitRetry | IcacheAccessComplete | FTQEmpty | NoGoodAddr.

#[export] Instance ThreadStatus_eq_dec : EqDecision ThreadStatus.
Proof. solve_decision. Defined.

Inductive SMTFetchPolicy := RoundRobin | BranchCount | IQCount | LSQCount.

Record Stalls := mkStalls { decode : bool; drain : bool }.

#[export] Instance eta_Stalls : Settable Stalls := fun x => mkStalls (decode x) (drain x).

Inductive FetchStat :=
| predictedBranches | cycles | squashCycles | tlbCycles | ftqStallCycles | idleCycles
| blockedCycles | miscStallCycles | pendingDrainCycles | noActiveThreadStallCycles
| pendingTrapStallCycles | pendingQuiesceStallCycles | icacheWaitRetryStallCycles | cacheLines
| icacheSquashes | tlbSquashes | nisnDist (n : Z) | ftNumber (n : Z) | fetchBubbles (n : Z)
| fetchBubblesMax | numInsts (tid : ThreadID) | numBranches (tid : ThreadID)
| icacheStallCycles (tid : ThreadID).

(** Calls of the CPU and notifications of the probes *)
Inductive FetchCall :=
| ActivateStage | DeactivateStage | ActivityThisCycle | WakeCPU
| AddInst (seq : Z) | RemoveInstsUntil (seq : Z) (tid : ThreadID) | RemoveInstsNotInROB (tid : ThreadID)
| TranslateTiming (r : Request) | SendTimingReq (r : Request) | InstAccessComplete (r : Request)
| NotifyFetch (seq : Z) | NotifyRequestSent (r : Request).

(** The parameters of [BaseO3CPUParams] the stage reads; [cacheLineSize] is a
    method of the CPU. *)
Record FetchParams := mkFetchParams {
  fetchPolicy : SMTFetchPolicy;
  decoupledFrontEnd : bool;
  fetchWidth : Z;
  decodeWidth : Z;
  cacheBlkSize : Z;
  fetchBufferSize : Z;
  fetchQueueSize : Z;
  numThreads : Z;
  numFetchingThreads : Z;
  maxFTPerCycle : Z;
  maxTakenPredPerCycle : Z;
  FullSystem : bool
}.

(** The fields of [TimeStruct] the stage reads *)
Record CommitSig := mkCommitSig {
  cs_squash : bool;
  cs_pc : option PCStateBase;
  cs_doneSeqNum : Z;
  cs_squashInst : option FInst;
  cs_trapPending : bool;
  cs_interruptPending : bool;
  cs_clearInterrupt : bool
}.
Record DecodeSig := mkDecodeSig {
  ds_squash : bool;
  ds_nextPC : option PCStateBase;
  ds_squashInst : option FInst;
  ds_doneSeqNum : Z;
  ds_block : bool;
  ds_unblock : bool
}.
Record Signals := mkSignals {
  fromCommit : ThreadID -> CommitSig;
  fromDecode : ThreadID -> DecodeSig;
  iqCounts : ThreadID -> Z;
  ldstqCounts : ThreadID -> Z
}.

Section Stage.
Context {F D : Type}.

(** The members with an element per thread *)
Record Thread := mkThread {
  fetchStatus : ThreadStatus;
  decoder : option D;
  pc : PCStateBase;
  fetchOffset : Addr;
  macroop : option SInst;
  delayedCommit : bool;
  memReq : option Request;
  stalls : Stalls;
  fetchBuffer : list Z;
  fetchBufferPC : Addr;
  fetchBufferValid : bool;
  fetchQueue : list FInst;
  issuePipelinedIfetch : bool;
  toBAC : FetchComm
}.

#[global] Instance eta_Thread : Settable Thread := fun x =>
  mkThread (fetchStatus x) (decoder x) (pc x) (fetchOffset x) (macroop x) (delayedCommit x) (memReq x)
    (stalls x) (fetchBuffer x) (fetchBufferPC x) (fetchBufferValid x) (fetchQueue x)
    (issuePipelinedIfetch x) (toBAC x).

(** [toDecode] is the head of [sent], the slots of the time buffer to decode, the
    newest first; [c_...] are members of the CPU; [sends] counts the requests
    offered to the cache. *)
Record State := mkState {
  _status : FetchStatus;
  threads : list Thread;
  priorityList : list ThreadID;
  wroteToTimeBuffer : bool;
  numInst : Z;
  cacheBlocked : bool;
  retryPkt : option Request;
  retryTid : ThreadID;
  threadFetched : Z;
  interruptPending : bool;
  instSize : Z;
  finishTranslationEvent : option (Z * Request);
  front : F;
  sent : list (list FInst);
  c_activeThreads : list ThreadID;
  c_isDraining : bool;
  c_switchedOut : bool;
  c_instSeq : Z;
  nextRequest : Z;
  sends : nat;
  randPos : nat;
  calls : list FetchCall;
  fstats : list FetchStat
}.

#[global] Instance eta_State : Settable State := fun s =>
  mkState (_status s) (threads s) (priorityList s) (wroteToTimeBuffer s) (numInst s) (cacheBlocked s)
    (retryPkt s) (retryTid s) (threadFetched s) (interruptPending s) (instSize s)
    (finishTranslationEvent s) (front s) (sent s) (c_activeThreads s) (c_isDraining s)
    (c_switchedOut s) (c_instSeq s) (nextRequest s) (sends s) (randPos s) (calls s) (fstats s).

Context `{!FrontEnd F} `{!InstDecoder D}.
Context (p : FetchParams).
(** The instruction set: the nop that carries a fault, the micro-ops of a
    macro-op, and [PCStateBase::branching] at the PC of an instruction (it reads what
    the instruction set adds to a PC; the instruction, whose sequence number is
    unique, stands for that). *)
Context (nopStaticInst : SInst) (fetchMicroop : SInst -> Z -> SInst) (branching : DynInst -> bool).
(** The MMU, the addresses of memory, whether the cache takes the [n]-th request *)
Context (translateTiming : Request -> option Translation) (isMemAddr : Addr -> bool)
  (icacheAccepts : nat -> bool).
Context (pcState : ThreadID -> PCStateBase) (rands : nat -> Z).

Definition stat (x : FetchStat) : M State unit := modify (fun s => s <| fstats ::= cons x |>).
Definition call (x : FetchCall) : M State unit := modify (fun s => s <| calls ::= cons x |>).

(** Element [tid] of the arrays *)
Definition thr (tid : ThreadID) : M State Thread :=
  o ← gets (fun s => threads s !! Z.to_nat tid); at_index o.
Definition upd (tid : ThreadID) (f : Thread -> Thread) : M State unit :=
  thr tid ;; modify (fun s => s <| threads ::= alter f (Z.to_nat tid) |>).
Definition setStatus (tid : ThreadID) (x : ThreadStatus) : M State unit :=
  upd tid (fun t => t <| fetchStatus := x |>).

Definition tids : list ThreadID := seqZ 0 (numThreads p).

(** ** Construction, reset and drain *)

Definition newThread (pc0 : PCStateBase) (d : option D) (buf : list Z) : Thread :=
  mkThread Idle d pc0 0 None false None (mkStalls false false) buf 0 false [] false
    (mkFetchComm false None).

(** The constructor; [numInst], [cacheBlocked] and other members are set by
    [resetStage]. *)
Definition make (pc0 : PCStateBase) (decoders : list D) (slots : nat) (f : F) (s0 : bool * Z * Z) : Res State :=
  if Z.of_nat MaxThreads <? numThreads p then Err Fatal else
  if MaxWidth <? fetchWidth p then Err Fatal else
  if cacheBlkSize p <? fetchBufferSize p then Err Fatal else
  if fetchBufferSize p =? 0 then Err DivByZero else
  if negb (cacheBlkSize p mod fetchBufferSize p =? 0) then Err Fatal else
  if decoupledFrontEnd p && (1 <? numThreads p) then Err Fatal else
  let '(b0, n0, tf0) := s0 in
  let mk i := if Z.of_nat i <? numThreads p
              then newThread pc0 (decoders !! i) (replicate (Z.to_nat (fetchBufferSize p)) 0)
              else newThread pc0 None [] in
  match decoders !! 0%nat with
  | None => Err NullDeref
  | Some d =>
      Ok (mkState Inactive (mk <$> seq 0 MaxThreads) [] b0 n0 b0 None InvalidThreadID tf0 b0
            (dec_moreBytesSize d) None f (replicate slots []) [] false false 1 0 0 0 [] [])
  end.

Definition clearThread (tid : ThreadID) (t : Thread) : Thread :=
  t <| fetchStatus := Running |> <| pc := pcState tid |> <| fetchOffset := 0 |> <| macroop := None |>
    <| delayedCommit := false |> <| memReq := None |> <| stalls := mkStalls false false |>
    <| fetchBufferPC := 0 |> <| fetchBufferValid := false |> <| fetchQueue := [] |>.

(** [removeCommThreadInsts] *)
Definition removeCommThreadInsts (tid : ThreadID) (l : list FInst) : list FInst :=
  List.filter (fun x => negb (di_threadNumber (fi_inst x) =? tid)) l.

Definition clearStates (tid : ThreadID) : M State unit :=
  upd tid (clearThread tid) ;;
  modify (fun s => s <| sent ::= fmap (removeCommThreadInsts tid) |>).

Definition resetStage : M State unit :=
  modify (fun s => s <| numInst := 0 |> <| interruptPending := false |> <| cacheBlocked := false |>
                     <| priorityList := [] |>) ;;
  mfor tids (fun tid =>
    upd tid (clearThread tid) ;;
    modify (fun s => s <| priorityList ::= fun l => l ++ [tid] |>)) ;;
  modify (fun s => s <| wroteToTimeBuffer := false |> <| _status := Inactive |>).

Definition switchToActive : M State unit :=
  x ← gets _status;
  when (bool_decide (x = Inactive))
    (call ActivateStage ;; modify (fun s => s <| _status := Active |>)).
Definition switchToInactive : M State unit :=
  x ← gets _status;
  when (bool_decide (x = Active))
    (call DeactivateStage ;; modify (fun s => s <| _status := Inactive |>)).

Definition startupStage : M State unit :=
  l ← gets priorityList;
  massert (bool_decide (l = [])) ;;
  resetStage ;;
  switchToActive.

Definition takeOverFrom (portConnected : bool) : M State unit :=
  massert portConnected ;; resetStage.

Definition drainResume : M State unit :=
  mfor tids (fun i => upd i (fun t => t <| stalls := mkStalls false false |>)).

Fixpoint isDrainedFrom (l : list ThreadID) : M State bool :=
  match l with
  | [] => e ← gets finishTranslationEvent; mret (bool_decide (e = None))
  | i :: l' =>
      t ← thr i;
      if negb (bool_decide (fetchQueue t = [])) then mret false else
      if bool_decide (fetchStatus t = Idle) ||
         (bool_decide (fetchStatus t = Blocked) && drain (stalls t))
      then isDrainedFrom l' else mret false
  end.
Definition isDrained : M State bool := isDrainedFrom tids.

Definition drainSanityCheck : M State unit :=
  d ← isDrained;
  massert d ;;
  s ← gets (fun s => s);
  massert (bool_decide (retryPkt s = None)) ;;
  massert (retryTid s =? InvalidThreadID) ;;
  massert (negb (cacheBlocked s)) ;;
  massert (negb (interruptPending s)) ;;
  mfor tids (fun i =>
    t ← thr i;
    massert (bool_decide (memReq t = None)) ;;
    massert (bool_decide (fetchStatus t = Idle) || drain (stalls t))).

Definition drainStall (tid : ThreadID) : M State unit :=
  dr ← gets c_isDraining;
  massert dr ;;
  t ← thr tid;
  massert (negb (drain (stalls t))) ;;
  upd tid (fun t => t <| stalls ::= fun x => x <| drain := true |> |>).

Definition wakeFromQuiesce : M State unit := setStatus 0 Running.

Definition deactivateThread (tid : ThreadID) : M State unit :=
  modify (fun s => s <| priorityList ::= fun l =>
    match list_find (eq tid) l with
    | Some (i, _) => take i l ++ drop (S i) l
    | None => l
    end |>).

Definition checkStall (tid : ThreadID) : M State bool :=
  t ← thr tid;
  if drain (stalls t) then dr ← gets c_isDraining; massert dr ;; mret true else mret false.

(** [updateFetchStatus] with the assignment to [_status] *)
Fixpoint anyRunning (activeThreads : list ThreadID) : M State bool :=
  match activeThreads with
  | [] => mret false
  | tid :: l =>
      t ← thr tid;
      if bool_decide (fetchStatus t = Running) || bool_decide (fetchStatus t = Squashing) ||
         bool_decide (fetchStatus t = IcacheAccessComplete)
      then mret true else anyRunning l
  end.

Definition updateFetchStatus : M State unit :=
  l ← gets c_activeThreads;
  r ← anyRunning l;
  x ← gets _status;
  if (r : bool) then
    when (bool_decide (x = Inactive)) (call ActivateStage) ;;
    modify (fun s => s <| _status := Active |>)
  else
    when (bool_decide (x = Active)) (call DeactivateStage) ;;
    modify (fun s => s <| _status := Inactive |>).
(** ** Instructions *)

(** [buildInst]: the instruction enters the fetch queue. *)
Definition buildInst (tid : ThreadID) (staticInst : SInst) (curMacroop : option SInst)
    (this_pc next_pc : PCStateBase) : M State FInst :=
  seq ← gets c_instSeq;
  modify (fun s => s <| c_instSeq := u64 (seq + 1) |>) ;;
  let instruction :=
    mkFInst (mkDynInst seq tid this_pc (si_flags staticInst)) staticInst curMacroop next_pc false None false in
  call (AddInst seq) ;;
  n ← gets numInst;
  massert (n <? fetchWidth p) ;;
  upd tid (fun t => t <| fetchQueue ::= fun q => q ++ [instruction] |>) ;;
  t ← thr tid;
  massert (Z.of_nat (length (fetchQueue t)) <=? fetchQueueSize p) ;;
  upd tid (fun t => t <| delayedCommit := si_isDelayedCommit staticInst |>) ;;
  mret instruction.

(** A change of the instruction just built, the youngest of the queue *)
Definition setInst (tid : ThreadID) (f : FInst -> FInst) : M State unit :=
  upd tid (fun t => t <| fetchQueue ::= fun q => alter f (length q - 1)%nat q |>).

(** ** The instruction cache *)

Definition fetchBufferAlignPC (addr : Addr) : Addr :=
  Z.land addr (u64 (Z.lnot (u64 (fetchBufferSize p - 1)))).

(** [icachePort.sendTimingReq] *)
Definition sendTimingReq (r : Request) : M State bool :=
  n ← gets sends;
  modify (fun s => s <| sends := S n |>) ;;
  call (SendTimingReq r) ;;
  mret (icacheAccepts n).

(** The translated request goes to the cache. *)
Definition accessCache (tid : ThreadID) (r : Request) : M State unit :=
  upd tid (fun t => t <| fetchBufferPC := req_vaddr r |> <| fetchBufferValid := false |>) ;;
  stat cacheLines ;;
  ok ← sendTimingReq r;
  if negb ok then
    s ← gets (fun s => s);
    massert (bool_decide (retryPkt s = None)) ;;
    massert (retryTid s =? InvalidThreadID) ;;
    setStatus tid IcacheWaitRetry ;;
    modify (fun s => s <| retryPkt := Some r |> <| retryTid := tid |> <| cacheBlocked := true |>)
  else
    setStatus tid IcacheWaitResponse ;;
    call (NotifyRequestSent r).

(** The translation faulted: a nop carries the fault, when there is room. *)
Definition faultInst (tid : ThreadID) (fault_ : Z) (r : Request) : M State bool :=
  n ← gets numInst;
  t ← thr tid;
  if negb (n <? fetchWidth p) || negb (Z.of_nat (length (fetchQueue t)) <? fetchQueueSize p) then
    e ← gets finishTranslationEvent;
    massert (bool_decide (e = None)) ;;
    modify (fun s => s <| finishTranslationEvent := Some (fault_, r) |>) ;;
    mret false
  else
    upd tid (fun t => t <| memReq := None |>) ;;
    buildInst tid nopStaticInst None (pc t) (pc t) ;;
    setInst tid (fun i => i <| fi_notAnInst := true |> <| fi_predPC := pc t |>
                            <| fi_fault := Some fault_ |>) ;;
    modify (fun s => s <| wroteToTimeBuffer := true |>) ;;
    call ActivityThisCycle ;;
    setStatus tid TrapPending ;;
    mret true.

Definition finishTranslation (res : Translation) (r : Request) : M State unit :=
  let tid := req_tid r in
  so ← gets c_switchedOut;
  massert (negb so) ;;
  call WakeCPU ;;
  t ← thr tid;
  if negb (bool_decide (fetchStatus t = ItlbWait)) || negb (bool_decide (memReq t = Some r)) then
    stat tlbSquashes
  else
  match res with
  | Translated paddr =>
      if negb (isMemAddr paddr) then
        upd tid (fun t => t <| fetchStatus := NoGoodAddr |> <| memReq := None |>)
      else accessCache tid r ;; updateFetchStatus
  | TranslationFault f =>
      done ← faultInst tid f r;
      when done updateFetchStatus
  end.

(** [FinishTranslationEvent::process]; the event is no longer scheduled. *)
Definition processEvent : M State unit :=
  e ← gets finishTranslationEvent;
  match e with
  | None => mret tt
  | Some (f, r) =>
      modify (fun s => s <| finishTranslationEvent := None |>) ;;
      n ← gets numInst;
      massert (n <? fetchWidth p) ;;
      finishTranslation (TranslationFault f) r
  end.

Definition checkInterrupt : M State bool := gets interruptPending.

Definition fetchCacheLine (vaddr : Addr) (tid : ThreadID) (pc_ : Addr) : M State bool :=
  so ← gets c_switchedOut;
  massert (negb so) ;;
  cb ← gets cacheBlocked;
  if (cb : bool) then mret false else
  ip ← checkInterrupt;
  t ← thr tid;
  if ip && negb (delayedCommit t) then mret false else
  n ← gets nextRequest;
  let mem_req := mkRequest n (fetchBufferAlignPC vaddr) (fetchBufferSize p) pc_ tid in
  modify (fun s => s <| nextRequest := n + 1 |>) ;;
  upd tid (fun t => t <| memReq := Some mem_req |> <| fetchStatus := ItlbWait |>) ;;
  call (TranslateTiming mem_req) ;;
  match translateTiming mem_req with
  | Some res => finishTranslation res mem_req
  | None => mret tt
  end ;;
  mret true.

(** [processCacheCompletion] with the bytes of the packet *)
Definition processCacheCompletion (r : Request) (data : list Z) : M State unit :=
  let tid := req_tid r in
  so ← gets c_switchedOut;
  massert (negb so) ;;
  t ← thr tid;
  if negb (bool_decide (fetchStatus t = IcacheWaitResponse)) || negb (bool_decide (memReq t = Some r)) then
    stat icacheSquashes
  else
    upd tid (fun t => t <| fetchBuffer := take (Z.to_nat (fetchBufferSize p)) data |>
                        <| fetchBufferValid := true |>) ;;
    call WakeCPU ;;
    switchToActive ;;
    st ← checkStall tid;
    setStatus tid (if (st : bool) then Blocked else IcacheAccessComplete) ;;
    call (InstAccessComplete r) ;;
    upd tid (fun t => t <| memReq := None |>).

Definition recvReqRetry : M State unit :=
  s ← gets (fun s => s);
  (match retryPkt s with
   | Some _ =>
       t ← thr (retryTid s);
       when (bool_decide (fetchStatus t = TrapPending))
         (modify (fun s => s <| retryPkt := None |> <| retryTid := InvalidThreadID |>))
   | None => mret tt
   end) ;;
  s ← gets (fun s => s);
  match retryPkt s with
  | Some r =>
      massert (cacheBlocked s) ;;
      massert (negb (retryTid s =? InvalidThreadID)) ;;
      t ← thr (retryTid s);
      massert (bool_decide (fetchStatus t = IcacheWaitRetry)) ;;
      ok ← sendTimingReq r;
      when ok
        (setStatus (retryTid s) IcacheWaitResponse ;;
         call (NotifyRequestSent r) ;;
         modify (fun s => s <| retryPkt := None |> <| retryTid := InvalidThreadID |>
                            <| cacheBlocked := false |>))
  | None =>
      massert (retryTid s =? InvalidThreadID) ;;
      modify (fun s => s <| cacheBlocked := false |>)
  end.

(** ** Squash and signals *)

Definition doSquash (new_pc : PCStateBase) (squashInst : option FInst) (tid : ThreadID) : M State unit :=
  upd tid (fun t => t <| pc := new_pc |> <| fetchOffset := 0 |>
    <| macroop := match squashInst with
                  | Some i => if (instAddr (di_pcState (fi_inst i)) =? instAddr new_pc) &&
                                 negb (isLastMicroop (si_flags (fi_static i)))
                              then fi_macroop i else None
                  | None => None
                  end |>) ;;
  t ← thr tid;
  d ← deref (decoder t);
  upd tid (fun t => t <| decoder := Some (dec_reset d) |>) ;;
  when (bool_decide (fetchStatus t = IcacheWaitResponse) || bool_decide (fetchStatus t = ItlbWait))
    (upd tid (fun t => t <| memReq := None |>)) ;;
  s ← gets (fun s => s);
  when (retryTid s =? tid)
    (massert (cacheBlocked s) ;;
     modify (fun s => s <| retryPkt := None |> <| retryTid := InvalidThreadID |>)) ;;
  upd tid (fun t => t <| fetchStatus := Squashing |> <| fetchQueue := [] |> <| delayedCommit := true |>) ;;
  stat squashCycles.

Definition squashFromDecode (new_pc : PCStateBase) (squashInst : option FInst) (seq_num : Z)
    (tid : ThreadID) : M State unit :=
  doSquash new_pc squashInst tid ;;
  call (RemoveInstsUntil seq_num tid).

Definition squashFromCommit (new_pc : PCStateBase) (seq_num : Z) (squashInst : option FInst)
    (tid : ThreadID) : M State unit :=
  doSquash new_pc squashInst tid ;;
  call (RemoveInstsNotInROB tid).

Definition bacResteer (new_pc : PCStateBase) (tid : ThreadID) : M State unit :=
  upd tid (fun t => t <| toBAC := mkFetchComm true (PCS.set (fc_nextPC (toBAC t)) (Some new_pc)) |>) ;;
  zoom front (fe_invalidate tid).

(** The stall signals of decode *)
Definition updateStalls (d : DecodeSig) (tid : ThreadID) : M State unit :=
  when (ds_block d) (upd tid (fun t => t <| stalls ::= fun x => x <| decode := true |> |>)) ;;
  when (ds_unblock d)
    (t ← thr tid;
     massert (decode (stalls t)) ;;
     massert (negb (ds_block d)) ;;
     upd tid (fun t => t <| stalls ::= fun x => x <| decode := false |> |>)).

(** The statuses a drain stall does not block *)
Definition keepsWaiting (x : ThreadStatus) : bool :=
  match x with
  | IcacheWaitResponse | IcacheWaitRetry | ItlbWait | FTQEmpty | QuiescePending => true
  | _ => false
  end.

Definition checkSignalsAndUpdate (sig : Signals) (tid : ThreadID) : M State bool :=
  let c := fromCommit sig tid in
  let d := fromDecode sig tid in
  updateStalls d tid ;;
  if cs_squash c then
    new_pc ← deref (cs_pc c);
    squashFromCommit new_pc (cs_doneSeqNum c) (cs_squashInst c) tid ;; mret true
  else if cs_trapPending c then setStatus tid TrapPending ;; mret true
  else
  t ← thr tid;
  if ds_squash d && negb (bool_decide (fetchStatus t = Squashing)) then
    new_pc ← deref (ds_nextPC d);
    squashFromDecode new_pc (ds_squashInst d) (ds_doneSeqNum d) tid ;; mret true
  else
  st ← checkStall tid;
  if st && negb (keepsWaiting (fetchStatus t)) then setStatus tid Blocked ;; mret true
  else if bool_decide (fetchStatus t = Blocked) || bool_decide (fetchStatus t = Squashing) then
    e ← (if decoupledFrontEnd p then zoom front (fe_isEmpty tid) else mret false);
    setStatus tid (if (e : bool) then FTQEmpty else Running) ;; mret true
  else if bool_decide (fetchStatus t = FTQEmpty) then
    e ← zoom front (fe_isEmpty tid);
    if (e : bool) then mret false else setStatus tid Running ;; mret true
  else mret false.

(** ** The choice of a thread *)

Definition canFetch (x : ThreadStatus) : bool :=
  match x with Running | IcacheAccessComplete | Idle => true | _ => false end.

(** The position of the first thread of the list that can fetch *)
Fixpoint firstReady (l : list ThreadID) (i : nat) : M State (option (nat * ThreadID)) :=
  match l with
  | [] => mret None
  | tid :: l' =>
      massert (tid <=? numThreads p) ;;
      t ← thr tid;
      if canFetch (fetchStatus t) then mret (Some (i, tid)) else firstReady l' (S i)
  end.

Definition roundRobin : M State ThreadID :=
  l ← gets priorityList;
  o ← firstReady l 0;
  match o with
  | Some (i, tid) =>
      modify (fun s => s <| priorityList := take i l ++ drop (S i) l ++ [tid] |>) ;; mret tid
  | None => mret InvalidThreadID
  end.

(** [iqCount] and [lsqCount]: the counts in increasing order; [threadMap] keeps the
    last thread of each count. *)
Fixpoint byCount (sorted : list Z) (threadMap : Z -> option ThreadID) : M State ThreadID :=
  match sorted with
  | [] => mret InvalidThreadID
  | c :: l =>
      tid ← deref (threadMap c);
      t ← thr tid;
      if canFetch (fetchStatus t) then mret tid else byCount l threadMap
  end.

Definition lastWith (count : ThreadID -> Z) (l : list ThreadID) (c : Z) : option ThreadID :=
  List.find (fun tid => count tid =? c) (reverse l).

Definition leastCount (count : ThreadID -> Z) : M State ThreadID :=
  l ← gets c_activeThreads;
  byCount (merge_sort Z.le (count <$> l)) (lastWith count l).

Definition getFetchingThread (sig : Signals) : M State ThreadID :=
  if 1 <? numThreads p then
    match fetchPolicy p with
    | RoundRobin => roundRobin
    | IQCount => leastCount (iqCounts sig)
    | LSQCount => leastCount (ldstqCounts sig)
    | BranchCount => fault Panic
    end
  else
    l ← gets c_activeThreads;
    match l with
    | [] => mret InvalidThreadID
    | tid :: _ =>
        t ← thr tid;
        mret (if canFetch (fetchStatus t) then tid else InvalidThreadID)
    end.

Definition profileStall (tid : ThreadID) : M State unit :=
  t ← thr tid;
  l ← gets c_activeThreads;
  if drain (stalls t) then stat pendingDrainCycles else
  if bool_decide (l = []) then stat noActiveThreadStallCycles else
  match fetchStatus t with
  | Blocked => stat blockedCycles
  | Squashing => stat squashCycles
  | IcacheWaitResponse => stat (icacheStallCycles tid)
  | ItlbWait => stat tlbCycles
  | FTQEmpty => stat ftqStallCycles ;; zoom front fe_fetchBlockCycle
  | TrapPending => stat pendingTrapStallCycles
  | QuiescePending => stat pendingQuiesceStallCycles
  | IcacheWaitRetry => stat icacheWaitRetryStallCycles
  | _ => mret tt
  end.

(** ** Fetching *)

(** [ftqReady]: the answer and the new value of [status_change] *)
Definition ftqReady (tid : ThreadID) (status_change : bool) : M State (bool * bool) :=
  if negb (decoupledFrontEnd p) then mret (true, status_change) else
  r ← zoom front (fe_isHeadReady tid);
  if (r : bool) then mret (true, status_change)
  else setStatus tid FTQEmpty ;; mret (false, true).

(** The local variables of the loops of [fetch]; [this_pc] is a reference to
    [pc[tid]], [lc_change] is the argument [status_change]. *)
Record Loc := mkLoc {
  next_pc : PCStateBase;
  curMacroop : option SInst;
  predictedBranch : bool;
  mispredict : bool;
  num_ft : Z;
  num_taken : Z;
  quiesce : bool;
  blkOffset : Z;
  pcOffset : Addr;
  inRom : bool;
  curFT : option FetchTarget;
  lc_change : bool
}.

#[global] Instance eta_Loc : Settable Loc := fun l =>
  mkLoc (next_pc l) (curMacroop l) (predictedBranch l) (mispredict l) (num_ft l) (num_taken l)
    (quiesce l) (blkOffset l) (pcOffset l) (inRom l) (curFT l) (lc_change l).

Definition theDecoder (tid : ThreadID) : M State D := t ← thr tid; deref (decoder t).
Definition setDecoder (tid : ThreadID) (d : D) : M State unit :=
  upd tid (fun t => t <| decoder := Some d |>).

(** [(fetchAddr - fetchBufferPC[tid]) / instSize], an [unsigned] *)
Definition blockOffset (tid : ThreadID) (fetchAddr : Addr) : M State Z :=
  t ← thr tid;
  n ← gets instSize;
  if n =? 0 then fault DivByZero else mret (u32 (u64 (fetchAddr - fetchBufferPC t) / n)).

(** The next static instruction, from the decoder, the macro-op or the ROM, and
    whether it ends its macro-op; none when more bytes are needed. *)
Definition nextStatic (tid : ThreadID) (l : Loc) : M State (option (SInst * bool * Loc)) :=
  t ← thr tid;
  d ← theDecoder tid;
  r ← (if isSome (curMacroop l) || inRom l then mret (Some (None, l)) else
       if negb (dec_instReady d) then mret None else
       let '(i, d') := dec_decode (pc t) d in
       setDecoder tid d' ;;
       stat (numInsts tid) ;;
       mret (Some (Some i, if si_isMacroop i then l <| curMacroop := Some i |> else l <| pcOffset := 0 |>)));
  match r with
  | None => mret None
  | Some (oi, l) =>
      if isSome (curMacroop l) || inRom l then
        d ← theDecoder tid;
        i ← (if inRom l then lift (dec_fetchRomMicroop (microPC (pc t)) (curMacroop l) d)
             else m ← deref (curMacroop l); mret (fetchMicroop m (microPC (pc t))));
        mret (Some (i, isLastMicroop (si_flags i), l))
      else
        i ← deref oi;
        mret (Some (i, false, l))
  end.

(** The fetch target is used up: the next one, if the bandwidth allows it. *)
Definition nextTarget (tid : ThreadID) (l : Loc) : M State Loc :=
  let l := l <| num_ft ::= Z.succ |> in
  let l := if predictedBranch l then l <| num_taken ::= Z.succ |> else l in
  b ← zoom front (fe_popHead tid);
  if (b : bool) then
    if (num_ft l <? maxFTPerCycle p) && (num_taken l <? maxTakenPredPerCycle p) then
      ft ← zoom front (fe_readHead tid); mret (l <| curFT := ft |>)
    else mret l
  else mret (l <| mispredict := true |>).

(** The PC moves on to [next]. *)
Definition advance (tid : ThreadID) (this_pc next : PCStateBase) (newMacro : bool) (l : Loc)
  : M State Loc :=
  d ← theDecoder tid;
  upd tid (fun t => t <| pc := next |>) ;;
  let l := l <| inRom := isRomMicroPC (microPC next) |> in
  l ← (if newMacro || negb (instAddr this_pc =? instAddr next) then
         b ← blockOffset tid (Z.land (instAddr next) (dec_pcMask d));
         mret (l <| blkOffset := b |> <| pcOffset := 0 |> <| curMacroop := None |>)
       else mret l);
  mret (match curFT l with
        | Some ft => if FT.inRange (instAddr next) ft then l else l <| curFT := None |>
        | None => l
        end).

(** The body of the inner loop; the second result says whether it goes on. *)
Definition fetchOne (tid : ThreadID) (l : Loc) : M State (Loc * bool) :=
  o ← nextStatic tid l;
  match o with
  | None => mret (l, false)
  | Some (staticInst, newMacro, l) =>
      t ← thr tid;
      let this_pc := pc t in
      instruction ← buildInst tid staticInst (curMacroop l) this_pc (next_pc l);
      call (NotifyFetch (di_seqNum (fi_inst instruction))) ;;
      modify (fun s => s <| numInst ::= Z.succ |>) ;;
      let l := l <| predictedBranch ::= orb (branching (fi_inst instruction)) |> in
      r ← zoom front (fe_updatePC (fi_inst instruction) this_pc (curFT l));
      let '(taken, next, ft) := r in
      setInst tid (fun i => i <| fi_predPC := next |> <| fi_predTaken := taken |>) ;;
      let l := l <| next_pc := next |> <| predictedBranch ::= orb taken |> <| curFT := ft |> in
      when (isControl (si_flags staticInst)) (stat (numBranches tid)) ;;
      when (predictedBranch l) (stat predictedBranches) ;;
      l ← advance tid this_pc next newMacro l;
      if si_isQuiesce staticInst then
        setStatus tid QuiescePending ;;
        mret (l <| lc_change := true |> <| quiesce := true |>, false)
      else if decoupledFrontEnd p && negb (isSome (curFT l)) then
        l ← nextTarget tid l; mret (l, false)
      else
        d ← theDecoder tid;
        t ← thr tid;
        n ← gets numInst;
        mret (l, (isSome (curMacroop l) || dec_instReady d) && (n <? fetchWidth p) &&
                 (Z.of_nat (length (fetchQueue t)) <? fetchQueueSize p))
  end.

Fixpoint fetchInsts (fuel : nat) (tid : ThreadID) (l : Loc) : M State Loc :=
  match fuel with
  | O => fault Hang
  | S n =>
      r ← fetchOne tid l;
      if (snd r : bool) then fetchInsts n tid (fst r) else mret (fst r)
  end.

(** The bytes for the decoder; none when the buffer does not hold them. *)
Definition feedDecoder (tid : ThreadID) (l : Loc) : M State (option Loc) :=
  t ← thr tid;
  d ← theDecoder tid;
  size ← gets instSize;
  if negb (negb (inRom l) && negb (isSome (curMacroop l)) && negb (dec_instReady d)) then mret (Some l) else
  let fetchAddr := Z.land (u64 (instAddr (pc t) + pcOffset l)) (dec_pcMask d) in
  if negb (fetchBufferValid t) || negb (fetchBufferAlignPC fetchAddr =? fetchBufferPC t) then mret None else
  if fetchBufferSize p / size <=? blkOffset l then mret None else
  let bytes := take (Z.to_nat size) (drop (Z.to_nat (blkOffset l * size)) (fetchBuffer t)) in
  at_index (if bool_decide (length bytes = Z.to_nat size) then Some tt else None) ;;
  let d' := dec_moreBytes bytes (pc t) fetchAddr d in
  setDecoder tid d' ;;
  mret (Some (if dec_needMoreBytes d'
              then l <| blkOffset := u32 (blkOffset l + 1) |> <| pcOffset := u64 (pcOffset l + size) |>
              else l)).

(** The loop of [fetch]; it runs at most [fuel] times. *)
Fixpoint fetchLoop (fuel : nat) (tid : ThreadID) (l : Loc) : M State Loc :=
  t ← thr tid;
  n ← gets numInst;
  if negb ((n <? fetchWidth p) && (Z.of_nat (length (fetchQueue t)) <? fetchQueueSize p) &&
           negb (predictedBranch l) && negb (quiesce l)) then mret l else
  stop ← (if decoupledFrontEnd p then
            r ← zoom front (fe_isReady tid); mret (negb r || negb (isSome (curFT l)))
          else mret false);
  if (stop : bool) then mret l else
  massert (match curFT l with Some ft => FT.inRange (instAddr (pc t)) ft | None => true end) ;;
  o ← feedDecoder tid l;
  match o, fuel with
  | None, _ => mret l
  | Some _, O => fault Hang
  | Some l, S m =>
      l ← fetchInsts (Z.to_nat (fetchWidth p)) tid l;
      t ← thr tid;
      fetchLoop m tid (l <| inRom := isRomMicroPC (microPC (pc t)) |>)
  end.

Definition loopFuel (size : Z) : nat :=
  (Z.to_nat (fetchWidth p) + 1) * (Z.to_nat (fetchBufferSize p / size) + 1).

(** The rest of [fetch] after the loop *)
Definition finishFetch (tid : ThreadID) (l : Loc) : M State unit :=
  stat (ftNumber (num_ft l)) ;;
  t ← thr tid;
  when (decoupledFrontEnd p && mispredict l) (bacResteer (pc t) tid) ;;
  upd tid (fun t => t <| macroop := curMacroop l |> <| fetchOffset := pcOffset l |>) ;;
  n ← gets numInst;
  when (0 <? n) (modify (fun s => s <| wroteToTimeBuffer := true |>)) ;;
  d ← theDecoder tid;
  t ← thr tid;
  let fetchAddr := Z.land (u64 (instAddr (pc t) + pcOffset l)) (dec_pcMask d) in
  upd tid (fun t => t <| issuePipelinedIfetch :=
    negb (fetchBufferAlignPC fetchAddr =? fetchBufferPC t) &&
    negb (keepsWaiting (fetchStatus t)) && negb (isSome (curMacroop l)) |>).

Definition fetchBlocked : M State unit := stat ftqStallCycles ;; zoom front fe_fetchBlockCycle.

(** What [fetch] does before the loop: none when the cycle ends there, otherwise
    the new [status_change]. *)
Definition beginFetch (tid : ThreadID) (status_change : bool) : M State (option FetchTarget * bool * bool) :=
  t ← thr tid;
  d ← theDecoder tid;
  let fetchAddr := Z.land (u64 (instAddr (pc t) + fetchOffset t)) (dec_pcMask d) in
  let inRom := isRomMicroPC (microPC (pc t)) in
  curFT ← zoom front (fe_readHead tid);
  inside ← (if decoupledFrontEnd p then
              r ← ftqReady tid status_change;
              massert (fst r) ;;
              ft ← deref curFT;
              mret (FT.inRange (instAddr (pc t)) ft)
            else mret true);
  if negb inside then
    bacResteer (pc t) tid ;; fetchBlocked ;; mret (curFT, status_change, false)
  else
  match fetchStatus t with
  | IcacheAccessComplete => setStatus tid Running ;; mret (curFT, true, true)
  | Running =>
      r ← (if fetchBufferValid t then ftqReady tid status_change else mret (false, status_change));
      let status_change := snd r in
      if negb (fst r && (fetchBufferAlignPC fetchAddr =? fetchBufferPC t)) && negb inRom &&
         negb (isSome (macroop t)) then
        fetchCacheLine fetchAddr tid (instAddr (pc t)) ;;
        t ← thr tid;
        (match fetchStatus t with
         | IcacheWaitResponse => stat (icacheStallCycles tid)
         | ItlbWait => stat tlbCycles
         | FTQEmpty => fetchBlocked
         | _ => stat miscStallCycles
         end) ;;
        mret (curFT, status_change, false)
      else
      ip ← checkInterrupt;
      if ip && negb (delayedCommit t) then stat miscStallCycles ;; mret (curFT, status_change, false)
      else mret (curFT, status_change, true)
  | Idle => stat idleCycles ;; mret (curFT, status_change, false)
  | _ => mret (curFT, status_change, false)
  end.

(** [fetch]; the result is the new [status_change]. *)
Definition fetch (sig : Signals) (status_change : bool) : M State bool :=
  tid ← getFetchingThread sig;
  so ← gets c_switchedOut;
  massert (negb so) ;;
  if tid =? InvalidThreadID then
    modify (fun s => s <| threadFetched := numFetchingThreads p |>) ;;
    when (numThreads p =? 1) (profileStall 0) ;;
    mret status_change
  else
  r ← ftqReady tid status_change;
  let '(ready, status_change) := r in
  if negb ready then fetchBlocked ;; mret status_change else
  r ← beginFetch tid status_change;
  let '(ft, status_change, go) := r in
  if negb go then mret status_change else
  stat cycles ;;
  t ← thr tid;
  d ← theDecoder tid;
  size ← gets instSize;
  b ← blockOffset tid (Z.land (u64 (instAddr (pc t) + fetchOffset t)) (dec_pcMask d));
  l ← fetchLoop (loopFuel size) tid
        (mkLoc (pc t) (macroop t) false false 0 0 false b (fetchOffset t)
           (isRomMicroPC (microPC (pc t))) ft status_change);
  finishFetch tid l ;;
  mret (lc_change l).

Definition pipelineIcacheAccesses (tid : ThreadID) : M State unit :=
  t ← thr tid;
  if negb (issuePipelinedIfetch t) then mret tt else
  if isRomMicroPC (microPC (pc t)) then mret tt else
  d ← theDecoder tid;
  let fetchAddr := Z.land (u64 (instAddr (pc t) + fetchOffset t)) (dec_pcMask d) in
  if fetchBufferValid t && (fetchBufferAlignPC fetchAddr =? fetchBufferPC t) then mret tt else
  fetchCacheLine fetchAddr tid (instAddr (pc t)) ;; mret tt.

(** ** tick *)

Fixpoint checkAll (sig : Signals) (l : list ThreadID) (status_change : bool) : M State bool :=
  match l with
  | [] => mret status_change
  | tid :: l' => u ← checkSignalsAndUpdate sig tid; checkAll sig l' (status_change || u)
  end.

(** The loop over [threadFetched] *)
Fixpoint fetchThreads (fuel : nat) (sig : Signals) (status_change : bool) : M State bool :=
  k ← gets threadFetched;
  if negb (k <? numFetchingThreads p) then mret status_change else
  match fuel with
  | O => fault Hang
  | S n =>
      sc ← fetch sig status_change;
      modify (fun s => s <| threadFetched ::= Z.succ |>) ;;
      fetchThreads n sig sc
  end.

Fixpoint availableInsts (l : list ThreadID) : M State Z :=
  match l with
  | [] => mret 0
  | tid :: l' =>
      t ← thr tid;
      n ← availableInsts l';
      mret ((if decode (stalls t) then 0 else Z.of_nat (length (fetchQueue t))) + n)
  end.

(** [toDecode->insts[toDecode->size++] = inst] *)
Definition toDecode (x : FInst) : M State unit :=
  l ← gets (fun s => head (sent s));
  slot ← deref l;
  at_index (if Z.of_nat (length slot) <? MaxWidth then Some tt else None) ;;
  modify (fun s => s <| sent ::= alter (fun q => q ++ [x]) 0%nat |>).

(** The loop that empties the fetch queues; [rest] are the threads from the
    iterator to the end of the list of active threads. *)
Fixpoint sendInsts (fuel : nat) (active rest : list ThreadID) (available sent_ : Z) : M State Z :=
  if negb (negb (available =? 0) && (sent_ <? decodeWidth p)) then mret sent_ else
  match fuel, rest with
  | O, _ => fault Hang
  | S _, [] => fault Undefined
  | S n, tid :: rest' =>
      t ← thr tid;
      let next := if bool_decide (rest' = []) then active else rest' in
      match fetchQueue t with
      | x :: q =>
          if decode (stalls t) then sendInsts n active next available sent_ else
          toDecode x ;;
          modify (fun s => s <| wroteToTimeBuffer := true |>) ;;
          upd tid (fun t => t <| fetchQueue := q |>) ;;
          sendInsts n active next (available - 1) (sent_ + 1)
      | [] => sendInsts n active next available sent_
      end
  end.

(** [rng->random<uint8_t>(0, n - 1)] *)
Definition random (n : Z) : M State Z :=
  i ← gets randPos;
  modify (fun s => s <| randPos := S i |>) ;;
  if n =? 0 then fault Undefined else mret (rands i mod n).

Definition sendToDecode : M State Z :=
  active ← gets c_activeThreads;
  available ← availableInsts active;
  i ← random (Z.of_nat (length active));
  sendInsts (length active * (Z.to_nat (decodeWidth p) + 1)) active (drop (Z.to_nat i) active) available 0.

Fixpoint backendStall (l : list ThreadID) : M State bool :=
  match l with
  | [] => mret false
  | i :: l' =>
      t ← thr i;
      b ← backendStall l';
      mret (bool_decide (fetchStatus t = Squashing) || decode (stalls t) ||
            bool_decide (fetchStatus t = Blocked) || b)
  end.

(** The interrupt signals of commit *)
Definition updateInterrupt (sig : Signals) : M State unit :=
  let c := fromCommit sig 0 in
  when (FullSystem p)
    (when (cs_interruptPending c) (modify (fun s => s <| interruptPending := true |>)) ;;
     when (cs_clearInterrupt c) (modify (fun s => s <| interruptPending := false |>))).

Definition tick (sig : Signals) : M State unit :=
  modify (fun s => s <| wroteToTimeBuffer := false |>) ;;
  mfor tids (fun i => upd i (fun t => t <| issuePipelinedIfetch := false |>)) ;;
  active ← gets c_activeThreads;
  sc ← checkAll sig active false;
  updateInterrupt sig ;;
  modify (fun s => s <| threadFetched := 0 |>) ;;
  sc ← fetchThreads (Z.to_nat (numFetchingThreads p)) sig sc;
  n ← gets numInst;
  stat (nisnDist n) ;;
  when sc updateFetchStatus ;;
  mfor tids pipelineIcacheAccesses ;;
  n ← sendToDecode;
  b ← backendStall tids;
  when (negb b)
    (stat (fetchBubbles (u32 (fetchWidth p - n))) ;;
     when (n =? 0) (stat fetchBubblesMax)) ;;
  w ← gets wroteToTimeBuffer;
  when w (call ActivityThisCycle) ;;
  modify (fun s => s <| numInst := 0 |>).

(** The time buffers move on at the end of a cycle of the CPU ([CPU::tick]). *)
Definition advanceBuffers : M State unit :=
  modify (fun s => s <| sent ::= fun l => take (length l) ([] :: l) |>
    <| threads ::= fmap (fun t => t <| toBAC := mkFetchComm false None |>) |>).
End Stage.
End Fetch.
