(* ===== verification/FetchInv.v ===== *)
(** * The fetch stage: contracts and invariant

    What the stage relies on: the contract of the front end and of the decoder.
    The invariant of a thread, with the instructions it has added to its queue. *)

From Stdlib Require Import ZArith Lia.
From stdpp Require Import base list sorting numbers.
From S2P Require Import Prelude Types Ftq Bac BacInv Fetch.

(** [ft] is the target at the head of the queue, which may have given its history
    away since the stage read it. *)
Definition at_head (ft : FetchTarget) (q : list FetchTarget) : Prop :=
  exists ft', head q = Some ft' /\ detach ft' = detach ft.

(** A branch in the middle of a micro-coded instruction *)
Definition inner_branch (i : StaticInst) : bool := isControl i && (isMicroop i && negb (isLastMicroop i)).

(** ** The front end

    [fe_ok k] is the invariant of a front end that has made at most [k]
    predictions, [fe_older n] says that every branch it knows is older than
    instruction [n].  [updatePC] is called with the head of a ready queue, a PC
    inside it and instructions in order, none of them an inner branch; it
    returns the target only while the queue is ready. *)
Class FrontEndContract (F : Type) `{!FrontEnd F} := {
  fe_ok : Z -> F -> Prop;
  fe_limit : Z;
  fe_queue : F -> list FetchTarget;
  fe_ready : F -> bool;
  fe_older : Z -> F -> Prop;
  fe_limit_ok : fe_limit <= 2 ^ 64;
  fe_ok_mono k k' f : fe_ok k f -> k <= k' -> fe_ok k' f;
  fe_older_mono n n' f : fe_older n f -> n <= n' -> fe_older n' f;
  fe_isHeadReady_ok k f : fe_ok k f ->
    fe_isHeadReady 0 f = Ok (fe_ready f && negb (bool_decide (fe_queue f = [])), f);
  fe_isReady_ok k f : fe_ok k f -> fe_isReady 0 f = Ok (fe_ready f, f);
  fe_isEmpty_ok k f : fe_ok k f -> fe_isEmpty 0 f = Ok (bool_decide (fe_queue f = []), f);
  fe_readHead_ok k f : fe_ok k f ->
    fe_readHead 0 f = Ok (if fe_ready f then head (fe_queue f) else None, f);
  fe_popHead_ok k n f : fe_ok k f -> fe_older n f -> fe_queue f <> [] ->
    wp (fe_popHead 0) (fun _ f' => fe_ok k f' /\ fe_older n f') f;
  fe_invalidate_ok k n f : fe_ok k f -> fe_older n f ->
    wp (fe_invalidate 0) (fun _ f' => fe_ok k f' /\ fe_older n f') f;
  fe_blockCycle_ok k n f : fe_ok k f -> fe_older n f ->
    wp fe_fetchBlockCycle (fun _ f' => fe_ok k f' /\ fe_older n f') f;
  fe_updatePC_ok k f di pc ft :
    fe_ok k f -> k + 1 < fe_limit -> at_head ft (fe_queue f) -> fe_ready f = true ->
    FT.inRange (instAddr pc) ft = true -> di_threadNumber di = 0 -> fe_older (di_seqNum di) f ->
    inner_branch (di_staticInst di) = false ->
    wp (fe_updatePC di pc (Some ft)) (fun r f' =>
      fe_ok (k + 1) f' /\ fe_older (di_seqNum di + 1) f' /\ at_head ft (fe_queue f') /\
      (snd r = None \/ snd r = Some ft /\ fe_ready f' = true)) f
}.

(** The targets fit the instructions: when an instruction that is not predicted
    taken ends its target, the next target contains the PC that follows it. *)
Definition continuous (F : Type) `{FrontEndContract F} : Prop :=
  forall k f di pc ft next o f1 f2 ft2 f3,
    fe_ok k f -> at_head ft (fe_queue f) -> FT.inRange (instAddr pc) ft = true ->
    fe_updatePC di pc (Some ft) f = Ok (false, next, o, f1) ->
    match o with Some ft => FT.inRange (instAddr next) ft = false | None => True end ->
    fe_popHead 0 f1 = Ok (true, f2) -> fe_readHead 0 f2 = Ok (Some ft2, f3) ->
    FT.inRange (instAddr next) ft2 = true.

(** ** The decoder

    A decoder that was given bytes has an instruction or asks for more. *)
Class DecoderContract (D : Type) `{!InstDecoder D} := {
  dec_progress bytes pc a (d : D) :
    dec_instReady (dec_moreBytes bytes pc a d) || dec_needMoreBytes (dec_moreBytes bytes pc a d) = true;
  dec_decode_plain pc (d : D) : inner_branch (si_flags (fst (dec_decode pc d))) = false;
  dec_rom upc m (d : D) : isRomMicroPC upc = true ->
    exists i, dec_fetchRomMicroop upc m d = Ok i /\ inner_branch (si_flags i) = false
}.

(** The instructions of a path: each is at the PC predicted for its predecessor. *)
Fixpoint chain (a : PCStateBase) (l : list FInst) (b : PCStateBase) : Prop :=
  match l with
  | [] => a = b
  | x :: l' => di_pcState (fi_inst x) = a /\ chain (fi_predPC x) l' b
  end.

Lemma chain_app a l1 l2 c : chain a (l1 ++ l2) c <-> exists b, chain a l1 b /\ chain b l2 c.
Proof.
  revert a. induction l1 as [|x l1 IH]; intros a; cbn.
  - split; [by exists a|by intros (b & -> & ?)].
  - rewrite IH. split; [intros (? & b & ? & ?)|intros (b & [? ?] & ?)]; [by exists b|split; [done|by exists b]].
Qed.

Lemma chain_snoc a l b x : chain a l b -> di_pcState (fi_inst x) = b -> chain a (l ++ [x]) (fi_predPC x).
Proof. intros Hl Hx. apply chain_app. exists b. by split. Qed.

Lemma alter_last {A} (f : A -> A) (l : list A) x : alter f (length (l ++ [x]) - 1)%nat (l ++ [x]) = l ++ [f x].
Proof.
  replace (length (l ++ [x]) - 1)%nat with (length l + 0)%nat by (rewrite length_app; cbn; lia).
  by rewrite alter_app_r.
Qed.

Section Inv.
Context {F D : Type} `{FC : FrontEndContract F} `{DC : DecoderContract D}.
Context (p : Fetch.FetchParams).
Context (nopStaticInst : SInst) (fetchMicroop : SInst -> Z -> SInst) (branching : DynInst -> bool).
Context (translateTiming : Request -> option Translation) (isMemAddr : Addr -> bool)
  (icacheAccepts : nat -> bool).
Import Fetch.

Abbreviation Thread := (@Thread D).
Abbreviation State := (@State F D).

(** The configurations of the theorems: the decoupled front end, which has one
    thread *)
Record fetch_cfg : Prop := {
  cf_threads : numThreads p = 1;
  cf_decoupled : decoupledFrontEnd p = true;
  cf_fetching : numFetchingThreads p = 1;
  cf_width : 0 < fetchWidth p;
  cf_decode : 0 <= decodeWidth p <= MaxWidth;
  cf_buffer : 0 < fetchBufferSize p < 2 ^ 32;
  cf_micro : forall m upc, inner_branch (si_flags (fetchMicroop m upc)) = false;
  cf_targets : maxFTPerCycle p <= 1 \/ continuous F
}.

(** Thread 0 is [t], with at most [k] predictions so far; since the state [s0] the
    thread [t0] has queued the instructions [new], which lead from its PC to [e]. *)
Record trk (k : Z) (s0 : State) (t0 : Thread) (new : list FInst) (e : PCStateBase) (ip : bool)
    (t : Thread) (s : State) : Prop := {
  tk_thr : threads s !! 0%nat = Some t;
  tk_dec : is_Some (decoder t);
  tk_buf : length (fetchBuffer t) = Z.to_nat (fetchBufferSize p);
  tk_size : 0 < instSize s;
  tk_full : Z.of_nat (length (fetchQueue t)) <= fetchQueueSize p;
  tk_num : 0 <= numInst s <= fetchWidth p;
  tk_on : c_switchedOut s = false;
  tk_active : c_activeThreads s = [] \/ c_activeThreads s = [0];
  tk_drain : drain (stalls t) = true -> c_isDraining s = true;
  tk_front : fe_ok k (front s) /\ fe_older (c_instSeq s) (front s);
  tk_seq : 0 <= c_instSeq s0 /\ c_instSeq s = c_instSeq s0 + Z.of_nat (length new) /\ c_instSeq s <= k;
  tk_queue : fetchQueue t = fetchQueue t0 ++ new;
  tk_chain : chain (pc t0) new e;
  tk_new : (fun x => di_seqNum (fi_inst x)) <$> new = seqZ (c_instSeq s0) (Z.of_nat (length new));
  tk_tid : Forall (fun x => di_threadNumber (fi_inst x) = 0) new;
  tk_issue : issuePipelinedIfetch t = ip;
  tk_fetched : 0 <= threadFetched s;
  tk_same : stalls t = stalls t0 /\ sent s = sent s0 /\ c_activeThreads s = c_activeThreads s0 /\
            c_isDraining s = c_isDraining s0
}.

(** The protocol with the cache and the MMU *)
Record proto (t : Thread) (s : State) : Prop := {
  pr_retry : match retryPkt s with
             | Some _ => retryTid s = 0 /\ cacheBlocked s = true /\
                 (fetchStatus t = IcacheWaitRetry \/ fetchStatus t = TrapPending /\ drain (stalls t) = false)
             | None => retryTid s = InvalidThreadID
             end;
  pr_event : forall f r, finishTranslationEvent s = Some (f, r) ->
               fetchStatus t = ItlbWait /\ memReq t = Some r \/ fetchStatus t = Squashing \/
               fetchStatus t = TrapPending;
  pr_tid : forall f r, finishTranslationEvent s = Some (f, r) -> req_tid r = 0
}.

Context (k : Z) (s0 : State) (t0 : Thread).
Abbreviation Trk := (trk k s0 t0).

(** ** Rules of the accesses *)

Lemma lookup_upd (s : State) t f :
  threads s !! 0%nat = Some t -> threads (s <| threads ::= alter f 0%nat |>) !! 0%nat = Some (f t).
Proof. intros H. cbn. by rewrite list_lookup_alter_eq, H. Qed.

Lemma wp_thr new e ip t s (Q : Thread -> State -> Prop) :
  Trk new e ip t s -> Q t s -> wp (thr 0) Q s.
Proof. intros H HQ. unfold thr. wp_steps. eapply wp_at_index; [apply H|done]. Qed.

Lemma wp_theDecoder new e ip t s (Q : D -> State -> Prop) :
  Trk new e ip t s -> (forall d, decoder t = Some d -> Q d s) -> wp (theDecoder 0) Q s.
Proof.
  intros H HQ. unfold theDecoder. apply wp_bind. eapply wp_thr; [done|].
  destruct (tk_dec _ _ _ _ _ _ _ _ H) as [d Hd]. eapply wp_deref; [exact Hd|]. by apply HQ.
Qed.

(** A change of the thread that keeps its queue, its decoder and its buffer *)
Record tame (f : Thread -> Thread) (t : Thread) : Prop := {
  tm_dec : is_Some (decoder (f t));
  tm_buf : length (fetchBuffer (f t)) = length (fetchBuffer t);
  tm_queue : fetchQueue (f t) = fetchQueue t;
  tm_stalls : stalls (f t) = stalls t
}.

Lemma trk_upd new e ip t s f :
  Trk new e ip t s -> tame f t ->
  Trk new e (issuePipelinedIfetch (f t)) (f t) (s <| threads ::= alter f 0%nat |>).
Proof.
  intros [] []. constructor; cbn; try assumption; try congruence; try done.
  - by rewrite list_lookup_alter_eq, tk_thr0.
  - by rewrite tm_stalls0.
Qed.

Lemma wp_upd new e ip t s f (Q : unit -> State -> Prop) :
  Trk new e ip t s -> tame f t ->
  (Trk new e (issuePipelinedIfetch (f t)) (f t) (s <| threads ::= alter f 0%nat |>) ->
   Q tt (s <| threads ::= alter f 0%nat |>)) -> wp (upd 0 f) Q s.
Proof.
  intros H Hf HQ. unfold upd. apply wp_bind. eapply wp_thr; [done|]. apply wp_modify, HQ. by eapply trk_upd.
Qed.

Lemma wp_setFetchStatus new e ip t s x (Q : unit -> State -> Prop) :
  Trk new e ip t s ->
  (Trk new e ip (t <| fetchStatus := x |>)
     (s <| threads ::= alter (fun t => t <| fetchStatus := x |>) 0%nat |>) ->
   Q tt (s <| threads ::= alter (fun t => t <| fetchStatus := x |>) 0%nat |>)) -> wp (setStatus 0 x) Q s.
Proof.
  intros H HQ. unfold setStatus. eapply wp_upd; [exact H|destruct H; by constructor|].
  intros H'. apply HQ. destruct H'; constructor; try assumption. by rewrite <- (tk_issue _ _ _ _ _ _ _ _ H).
Qed.

(** A change of members the record does not mention *)
Definition keeps (s s' : State) : Prop :=
  threads s' = threads s /\ instSize s' = instSize s /\ numInst s' = numInst s /\
  c_switchedOut s' = c_switchedOut s /\ c_activeThreads s' = c_activeThreads s /\
  c_isDraining s' = c_isDraining s /\ front s' = front s /\ c_instSeq s' = c_instSeq s /\ sent s' = sent s /\
  threadFetched s' = threadFetched s.

Lemma trk_keeps new e ip t s s' : Trk new e ip t s -> keeps s s' -> Trk new e ip t s'.
Proof.
  intros [] (E1 & E2 & E3 & E4 & E5 & E6 & E7 & E8 & E9 & E10).
  constructor; rewrite ?E1, ?E2, ?E3, ?E4, ?E5, ?E6, ?E7, ?E8, ?E9, ?E10; done.
Qed.

Lemma wp_keep new e ip t s f (Q : unit -> State -> Prop) :
  Trk new e ip t s -> keeps s (f s) -> (Trk new e ip t (f s) -> Q tt (f s)) -> wp (modify f) Q s.
Proof. intros H Hk HQ. apply wp_modify, HQ. by eapply trk_keeps. Qed.

Lemma wp_fetchStat new e ip t s x (Q : unit -> State -> Prop) :
  Trk new e ip t s -> (Trk new e ip t (s <| fstats ::= cons x |>) -> Q tt (s <| fstats ::= cons x |>)) ->
  wp (stat x) Q s.
Proof. intros H HQ. eapply wp_keep; [exact H|done|exact HQ]. Qed.

Lemma wp_call new e ip t s x (Q : unit -> State -> Prop) :
  Trk new e ip t s -> (Trk new e ip t (s <| calls ::= cons x |>) -> Q tt (s <| calls ::= cons x |>)) ->
  wp (call x) Q s.
Proof. intros H HQ. eapply wp_keep; [exact H|done|exact HQ]. Qed.

(** A call of the front end that keeps its contract *)
Lemma wp_front {A} k' new e ip t s (m : M F A) (P : A -> F -> Prop) (Q : A -> State -> Prop) :
  Trk new e ip t s -> k <= k' ->
  wp m (fun a f => (fe_ok k' f /\ fe_older (c_instSeq s) f) /\ P a f) (front s) ->
  (forall a f, trk k' s0 t0 new e ip t (s <| front := f |>) -> P a f -> Q a (s <| front := f |>)) ->
  wp (zoom front m) Q s.
Proof.
  intros H Hk Hm HQ. apply wp_zoom. eapply wp_mono; [exact Hm|]. intros a f [Hf HP]. apply HQ; [|done].
  destruct H. constructor; try assumption. destruct tk_seq0 as (? & ? & ?). split_and!; [done..|cbn; lia].
Qed.

(** A query *)
Lemma wp_ask {A} new e ip t s (m : M F A) a (Q : A -> State -> Prop) :
  Trk new e ip t s -> m (front s) = Ok (a, front s) -> (forall s', s' = s -> Q a s') -> wp (zoom front m) Q s.
Proof.
  intros H Hm HQ. apply wp_zoom. unfold wp. rewrite Hm. apply HQ. by destruct s.
Qed.

Lemma wp_blockCycle new e ip t s (Q : unit -> State -> Prop) :
  Trk new e ip t s ->
  (forall f, Trk new e ip t (s <| front := f |>) -> Q tt (s <| front := f |>)) ->
  wp (zoom front fe_fetchBlockCycle) Q s.
Proof.
  intros H HQ. eapply (wp_front k _ _ _ _ _ _ (fun _ _ => True)); [exact H|lia| |intros [] f Hf _; by apply HQ].
  destruct (tk_front _ _ _ _ _ _ _ _ H) as [H1 H2]. eapply wp_mono; [by apply (fe_blockCycle_ok k)|]. done.
Qed.

(** ** Building an instruction *)

Lemma seqZ_snoc m n : 0 <= n -> seqZ m (n + 1) = seqZ m n ++ [m + n].
Proof. intros Hn. rewrite seqZ_app by lia. done. Qed.

Lemma wp_buildInst new a ip t s i mo (Q : FInst -> State -> Prop) :
  Trk new a ip t s -> pc t = a -> numInst s < fetchWidth p ->
  Z.of_nat (length (fetchQueue t)) < fetchQueueSize p -> k + 1 < fe_limit ->
  (forall x t' s', trk (k + 1) s0 t0 (new ++ [x]) a ip t' s' ->
     x = mkFInst (mkDynInst (c_instSeq s) 0 a (si_flags i)) i mo a false None false ->
     t' = t <| fetchQueue ::= fun q => q ++ [x] |> <| delayedCommit := si_isDelayedCommit i |> ->
     fe_ok k (front s') -> fe_older (c_instSeq s) (front s') -> front s' = front s ->
     numInst s' = numInst s -> retryPkt s' = retryPkt s -> retryTid s' = retryTid s ->
     cacheBlocked s' = cacheBlocked s -> finishTranslationEvent s' = finishTranslationEvent s ->
     instSize s' = instSize s -> Q x s') ->
  wp (buildInst p 0 i mo a a) Q s.
Proof.
  intros H Ha Hn Hq Hk HQ. unfold buildInst. apply wp_bind, wp_gets, wp_bind, wp_modify.
  unfold call. apply wp_bind, wp_modify, wp_bind, wp_gets, wp_bind, wp_massert; [by apply Z.ltb_lt|].
  set (x := mkFInst _ _ _ _ _ _ _).
  assert (Ht : threads s !! 0%nat = Some t) by apply H.
  unfold upd, thr. apply wp_bind, wp_bind, wp_bind, wp_gets. eapply wp_at_index; [exact Ht|]. apply wp_modify.
  apply wp_bind, wp_bind, wp_gets. eapply wp_at_index; [by apply lookup_upd|].
  apply wp_bind, wp_massert.
  { cbn. rewrite length_app. cbn. apply Z.leb_le. lia. }
  apply wp_bind, wp_bind, wp_bind, wp_gets. eapply wp_at_index; [by apply lookup_upd|].
  apply wp_modify, wp_ret. pose proof fe_limit_ok as Hlim.
  destruct H as [? Hdec Hbuf Hsz Hfl Hnm Hon Hact Hdr [Hf1 Hf2] (Hs1 & Hs2 & Hs3) Hqu Hch Hnew Htid His Htf Hsame].
  eapply HQ; try reflexivity; cbn; try done.
  assert (Eu : u64 (c_instSeq s + 1) = c_instSeq s + 1) by (apply u64_small; lia).
  constructor; [refine (lookup_upd _ _ _ (lookup_upd _ _ _ _)); exact Ht|..]; cbn; try done.
  - rewrite length_app. cbn. lia.
  - rewrite Eu. split; [eapply fe_ok_mono; [exact Hf1|lia]|eapply fe_older_mono; [exact Hf2|lia]].
  - rewrite Eu, length_app. cbn. lia.
  - by rewrite Hqu, app_assoc.
  - apply chain_app. exists a. by split.
  - rewrite fmap_app, Hnew, length_app. cbn. rewrite Nat2Z.inj_add. cbn. rewrite seqZ_snoc by lia.
    by rewrite <- Hs2.
  - apply Forall_app. split; [done|]. by constructor.
Qed.

(** The youngest instruction is changed, and with it the end of the path. *)
Lemma wp_setInst new x e ip t s f (Q : unit -> State -> Prop) :
  Trk (new ++ [x]) e ip t s -> fi_inst (f x) = fi_inst x ->
  (forall t' s', Trk (new ++ [f x]) (fi_predPC (f x)) ip t' s' ->
     t' = t <| fetchQueue := (fetchQueue t0 ++ new) ++ [f x] |> ->
     s' = s <| threads ::= alter (fun t => t <| fetchQueue ::= fun q => alter f (length q - 1)%nat q |>) 0%nat |> ->
     Q tt s') ->
  wp (setInst 0 f) Q s.
Proof.
  intros H Hf HQ. assert (Ht : threads s !! 0%nat = Some t) by apply H.
  unfold setInst, upd, thr. apply wp_bind, wp_bind, wp_gets. eapply wp_at_index; [exact Ht|]. apply wp_modify.
  destruct H as [? Hdec Hbuf Hsz Hfl Hnm Hon Hact Hdr Hfr Hs Hqu Hch Hnew Htid His Htf Hsame].
  assert (Eq : alter f (length (fetchQueue t) - 1)%nat (fetchQueue t) = (fetchQueue t0 ++ new) ++ [f x]).
  { rewrite Hqu, app_assoc. apply alter_last. }
  eapply HQ; [|reflexivity|reflexivity].
  apply chain_app in Hch as (b & Hch & Hx & _).
  constructor.
  1: { erewrite lookup_upd by exact Ht. unfold setf at 1. cbn -[alter]. by rewrite Eq. }
  all: cbn; try done.
  - rewrite <- Eq, length_alter. done.
  - rewrite length_app in *. done.
  - by rewrite app_assoc.
  - eapply chain_snoc; [exact Hch|]. by rewrite Hf.
  - rewrite fmap_app, length_app in *. cbn in *. by rewrite Hf.
  - apply Forall_app in Htid as [? Hx1]. apply list.Forall_cons in Hx1 as [Hx1 _].
    apply Forall_app. split; [done|]. constructor; [by rewrite Hf|done].
Qed.
End Inv.
