(* ===== verification/BacFront.v ===== *)
(** * The BAC stage as the front end of the fetch stage

    The fetch target queue and the BAC stage offer the interface [FrontEnd] of the fetch stage,
    and the invariant of the BAC stage discharges its contract. *)

From Stdlib Require Import ZArith Lia.
From stdpp Require Import base list gmap numbers.
From S2P Require Import Prelude Types Btb Ras CondPred Indirect Ftq BPredUnit BPredUnitInv BPredUnitSpec Bac BacBpu BacInv BacOps BacFetch BacSpec Fetch FetchInv.

Section Front.
Context {B C HC K1 C2 HC2 K2 I HI : Type}.
Context `{BB : BtbContract B} `{CC : ConditionalContract C HC K1}
  `{CC2 : ConditionalContract C2 HC2 K2} `{II : IndirectContract I HI}.
Context {BS : BtbSearch B} {CP1 : CondPlaceholder C HC K1} {CP2 : CondPlaceholder C2 HC2 K2}
  {CF : CondFirstLevel C HC K1}.
Context (bp : BPUParams) (hooks : option (MLHooks B)).
Context (advancePC : StaticInst -> PCStateBase -> PCStateBase)
  (buildRetPC : StaticInst -> PCStateBase -> PCStateBase -> PCStateBase).
Context (p : BACParams) (ent : Z).
Context (cap : Z) (k1 : K1) (k2 : K2) (hasRas hasOvr hasInd : bool).

Abbreviation BAC := (@Bac.BAC B C HC C2 HC2 I HI).
Abbreviation Core := (core ent cap k1 k2 hasRas hasOvr hasInd).
Abbreviation Good := (@good HC HC2 HI ent).
Abbreviation BInv := (bac_inv ent cap k1 k2 hasRas hasOvr hasInd).
Abbreviation UpdatePC := (Bac.updatePC bp hooks advancePC buildRetPC p).

(** What [Fetch] calls: [ftq->...] and [bac->...] *)
Definition bacFrontEnd : FrontEnd BAC := {|
  fe_isHeadReady tid := zoom Bac.b_ftq (Ftq.isHeadReady tid);
  fe_isReady tid := zoom Bac.b_ftq (Ftq.isReady tid);
  fe_isEmpty tid := zoom Bac.b_ftq (Ftq.isEmpty tid);
  fe_readHead tid := zoom Bac.b_ftq (Ftq.readHead tid);
  fe_popHead tid := zoom Bac.b_ftq (Ftq.popHead tid);
  fe_invalidate tid := zoom Bac.b_ftq (Ftq.invalidate tid);
  fe_updatePC := UpdatePC;
  fe_fetchBlockCycle := Bac.fetchBlockCycle
|}.

Definition bac_queue (s : BAC) : list FetchTarget := queueOf (Bac.b_ftq s) 0.
Definition bac_ready (s : BAC) : bool := negb (bool_decide (ftqStatus (Bac.b_ftq s) !! 0%nat = Some Invalid)).

Context (Hsu : bac_setup hooks p ent k1 k2).

Lemma front_queue k v s : Core k v s -> bac_queue s = v_queue v.
Proof. intros Hs. eapply fview_queueOf. apply Hs. Qed.

Lemma front_ready k v s : Core k v s -> bac_ready s = negb (bool_decide (v_ftq v = Invalid)).
Proof.
  intros Hs. unfold bac_ready. destruct (co_ftq _ _ _ _ _ _ _ _ _ _ Hs) as (_ & _ & ->). f_equal.
  apply bool_decide_ext. split; congruence.
Qed.

(** A query of the queue *)
Lemma ask_ftq {A} (m : M FTQ A) a (s : BAC) :
  wp m (fun x f => x = a /\ f = Bac.b_ftq s) (Bac.b_ftq s) -> zoom Bac.b_ftq m s = Ok (a, s).
Proof.
  unfold wp, zoom. destruct (m (Bac.b_ftq s)) as [[x f]|]; [|done]. intros [-> ->]. by destruct s.
Qed.

(** An operation on the queue leaves the unit alone. *)
Lemma wp_ftq_unit {A} k n (s : BAC) (m : M FTQ A) :
  wp (zoom Bac.b_ftq m) (fun _ s' => BInv k s') s -> fresh (Bac.bpu s) 0 n ->
  wp (zoom Bac.b_ftq m) (fun _ s' => BInv k s' /\ fresh (Bac.bpu s') 0 n) s.
Proof. unfold wp, zoom. destruct (m (Bac.b_ftq s)) as [[x f]|]; [|done]. intros H1 H2. by split. Qed.

(** [updatePC] reads of the target only what does not change when it gives its history away. *)
Lemma updatePC_detach di pc ft ft' (s : BAC) (Q : bool * PCStateBase * option FetchTarget -> BAC -> Prop) :
  detach ft' = detach ft ->
  wp (UpdatePC di pc (Some ft')) (fun r s' => Q (fst r, match snd r with Some _ => Some ft | None => None end) s') s ->
  wp (UpdatePC di pc (Some ft)) Q s.
Proof.
  intros Hd.
  assert (E1 : forall a, FT.inRange a ft' = FT.inRange a ft).
  { intros a. change (FT.inRange a (detach ft') = FT.inRange a (detach ft)). by rewrite Hd. }
  assert (E2 : forall a, FT.isExitInst a ft' = FT.isExitInst a ft).
  { intros a. change (FT.isExitInst a (detach ft') = FT.isExitInst a (detach ft)). by rewrite Hd. }
  assert (E3 : ftSeqNum ft' = ftSeqNum ft).
  { change (ftSeqNum (detach ft') = ftSeqNum (detach ft)). by rewrite Hd. }
  unfold Bac.updatePC, Bac.updatePreDecode. rewrite (bs_dec _ _ _ _ _ Hsu). cbn [negb].
  rewrite E1, E3. intros Hw. apply wp_bind. apply wp_bind_inv in Hw. eapply wp_mono; [exact Hw|].
  intros [taken next] s1 Hw1. apply wp_bind. eapply wp_deref; [done|].
  apply wp_bind_inv in Hw1. apply wp_bind. unfold wp at 1, deref, mret, M_ret in Hw1. apply wp_bind_inv in Hw1.
  eapply wp_mono; [exact Hw1|]. intros ready s2 Hw2. apply wp_ret. unfold wp, mret, M_ret in Hw2. cbn in Hw2.
  rewrite E2 in Hw2. by destruct (_ || negb ready).
Qed.

(** The target the fetch stage goes on with *)
Lemma updatePC_target di pc ft (s s' : BAC) r :
  UpdatePC di pc (Some ft) s = Ok (r, s') -> di_threadNumber di = 0 ->
  snd r = None \/ snd r = Some ft /\ Ftq.isReady 0 (Bac.b_ftq s') = Ok (true, Bac.b_ftq s').
Proof.
  intros Hu Ht.
  assert (Hw : wp (UpdatePC di pc (Some ft)) (fun r1 s1 => (r1, s1) = (r, s')) s) by (unfold wp; by rewrite Hu).
  unfold Bac.updatePC in Hw. rewrite (bs_dec _ _ _ _ _ Hsu), Ht in Hw. cbn [negb] in Hw. apply wp_bind_inv in Hw. unfold wp at 1 in Hw.
  destruct (_ s) as [[r1 s1]|] in Hw; [|done]. unfold deref in Hw. apply wp_bind_inv in Hw.
  unfold wp at 1, mret, M_ret in Hw. apply wp_bind_inv in Hw. unfold wp at 1, zoom in Hw.
  destruct (Ftq.isReady 0 (Bac.b_ftq s1)) as [[ready f]|] eqn:Er; [|done]. unfold wp, mret, M_ret in Hw. injection Hw as <- <-.
  assert (f = Bac.b_ftq s1) as ->.
  { unfold Ftq.isReady, Ftq.status, gets, at_index, mbind, M_bind, mret, M_ret in Er. destruct (_ !! _); [|done]. by injection Er. }
  cbn. destruct ready; [|rewrite orb_true_r; by left]. rewrite orb_false_r. destruct (_ && _); [by left|by right].
Qed.

Lemma bac_updatePC k s di pc ft :
  BInv k s -> k + 1 < 2 ^ 64 - 1 -> at_head ft (bac_queue s) -> bac_ready s = true ->
  FT.inRange (instAddr pc) ft = true -> di_threadNumber di = 0 -> fresh (Bac.bpu s) 0 (di_seqNum di) ->
  inner_branch (di_staticInst di) = false ->
  wp (UpdatePC di pc (Some ft)) (fun r s' => BInv (k + 1) s' /\ fresh (Bac.bpu s') 0 (di_seqNum di + 1) /\
    at_head ft (bac_queue s') /\ (snd r = None \/ snd r = Some ft /\ bac_ready s' = true)) s.
Proof.
  intros (v & Hs & Hg) Hk (ft' & Hh & Hd) Hrd Hin Ht Hfr Hib. rewrite (front_queue k v s Hs) in Hh.
  rewrite (front_ready k v s Hs) in Hrd. apply negb_true_iff, bool_decide_eq_false in Hrd.
  destruct (v_queue v) as [|x rest] eqn:Eq; [done|]. injection Hh as ->.
  apply (updatePC_detach di pc ft ft' s); [exact Hd|].
  assert (Hw : wp (UpdatePC di pc (Some ft')) (fun _ s' => BInv (k + 1) s' /\ fresh (Bac.bpu s') 0 (di_seqNum di + 1) /\
    at_head ft (bac_queue s')) s).
  { eapply (wp_updatePC bp hooks advancePC buildRetPC p ent cap k1 k2 hasRas hasOvr hasInd Hsu k v);
      [exact Hs|exact Hg|exact Hk|exact Eq|exact Ht| |].
    - intros Hc. split_and!; [exact Hrd| |exact Hfr|].
      + change (FT.inRange (instAddr pc) (detach ft') = true). by rewrite Hd.
      + intros Hm. unfold inner_branch in Hib. by rewrite Hc, Hm in Hib.
    - intros v' s' r H1 Hg1 Hx. split_and!; [by exists v'| |].
      + intros l h Hl Hel. rewrite (co_hist _ _ _ _ _ _ _ _ _ _ H1) in Hl. destruct (isControl (di_staticInst di)).
        * destruct Hx as (_ & h0 & l0 & El & Ev & Es & _). rewrite Ev in Hl. change (Z.to_nat 0) with 0%nat in Hl.
          rewrite list_lookup_insert_eq in Hl by (by eapply lookup_lt_Some). injection Hl as <-.
          rewrite <- (co_hist _ _ _ _ _ _ _ _ _ _ Hs) in El.
          apply elem_of_cons in Hel as [->|Hel]; [lia|]. pose proof (Hfr l0 h El Hel). lia.
        * destruct Hx as [-> _]. rewrite <- (co_hist _ _ _ _ _ _ _ _ _ _ Hs) in Hl. pose proof (Hfr l h Hl Hel). lia.
      + rewrite (front_queue _ v' s' H1).
        assert (Eh : detach <$> head (v_queue v') = Some (detach ft')).
        { destruct (isControl (di_staticInst di)).
          - destruct Hx as ([Ehd _ _] & _). rewrite Eq in Ehd. apply (f_equal head) in Ehd. by destruct (v_queue v').
          - destruct Hx as [-> _]. by rewrite Eq. }
        destruct (head (v_queue v')) as [y|] eqn:Ey; [|done]. exists y. split; [done|]. cbn in Eh. congruence. }
  unfold wp in Hw |- *. destruct (UpdatePC di pc (Some ft') s) as [[r s']|] eqn:Eu; [|done].
  destruct Hw as (Hi & Hf & Ha). split_and!; [exact Hi|exact Hf|exact Ha|].
  destruct (updatePC_target _ _ _ _ _ _ Eu Ht) as [->|[-> Hrdy]]; [by left|]. right. split; [done|].
  destruct Hi as (v' & H1 & _). rewrite (front_ready _ v' s' H1).
  pose proof (fv_isReady ent _ _ _ (fun b f => b = negb (bool_decide (v_ftq v' = Invalid)) /\ f = f) (co_ftq _ _ _ _ _ _ _ _ _ _ H1)) as Hq.
  unfold wp in Hq. rewrite Hrdy in Hq. by destruct Hq as [<- _].
Qed.

(** The contract of the front end *)
Definition bacFrontContract : @FrontEndContract BAC bacFrontEnd.
Proof.
  refine (@Build_FrontEndContract BAC bacFrontEnd BInv (2 ^ 64 - 1) bac_queue bac_ready (fun n s => fresh (Bac.bpu s) 0 n)
    _ _ _ _ _ _ _ _ _ _ _).
  - lia.
  - intros k k' s (v & Hs & Hg) Hk. exists v. split; [by eapply core_mono|done].
  - intros n n' s Hf Hn l h Hl Hh. pose proof (Hf l h Hl Hh). lia.
  - intros k s (v & Hs & Hg). rewrite (front_queue k v s Hs), (front_ready k v s Hs). apply ask_ftq.
    destruct (co_ftq _ _ _ _ _ _ _ _ _ _ Hs) as (Hf & Eq & Es). unfold Ftq.isHeadReady. apply wp_bind.
    eapply wp_status; [exact Es|]. apply wp_bind. eapply wp_queue; [exact Eq|]. apply wp_ret. split; [|done].
    f_equal. by destruct (v_queue v).
  - intros k s (v & Hs & Hg). rewrite (front_ready k v s Hs). apply ask_ftq. eapply fv_isReady; [apply Hs|done].
  - intros k s (v & Hs & Hg). rewrite (front_queue k v s Hs). apply ask_ftq. eapply fv_isEmpty; [apply Hs|].
    split; [|done]. apply bool_decide_ext. by rewrite length_zero_iff_nil.
  - intros k s (v & Hs & Hg). rewrite (front_queue k v s Hs), (front_ready k v s Hs). apply ask_ftq.
    eapply fv_readHead; [apply Hs|]. split; [|done]. by destruct (bool_decide (v_ftq v = Invalid)).
  - intros k n s (v & Hs & Hg) Hf Hq. rewrite (front_queue k v s Hs) in Hq. apply wp_ftq_unit; [|exact Hf].
    eapply wp_bac_popHead; [exact Hs|exact Hg|exact Hq|]. intros b v' s' H1 Hg1. by exists v'.
  - intros k n s (v & Hs & Hg) Hf. apply wp_ftq_unit; [|exact Hf].
    eapply wp_bac_invalidate; [exact Hs|exact Hg|]. intros v' s' H1 Hg1. by exists v'.
  - intros k n s (v & Hs & Hg) Hf. cbn.
    unfold Bac.fetchBlockCycle, Bac.blockType. apply wp_bind, wp_bind, wp_gets, wp_ret, wp_bind.
    eapply wp_bac_stat; [exact Hs|]. intros H1. apply wp_modify. split; [|exact Hf]. exists v. split; [|exact Hg].
    destruct H1. by constructor.
  - intros k s di pc ft. apply bac_updatePC.
Defined.
End Front.
