(* ===== verification/FetchOps.v ===== *)
(** * The fetch stage: cache, MMU and signals

    The rules of the operations outside the fetch loop, on the invariant of
    [FetchInv]. *)

From Stdlib Require Import ZArith Lia.
From stdpp Require Import base list sorting numbers.
From S2P Require Import Prelude Types Ftq Bac BacInv Fetch FetchInv.

Section Ops.
Context {F D : Type} `{FC : FrontEndContract F} `{DC : DecoderContract D}.
Context (p : Fetch.FetchParams).
Context (nopStaticInst : SInst) (fetchMicroop : SInst -> Z -> SInst) (branching : DynInst -> bool).
Context (translateTiming : Request -> option Translation) (isMemAddr : Addr -> bool)
  (icacheAccepts : nat -> bool).
Import Fetch.

Abbreviation Thread := (@Thread D).
Abbreviation State := (@State F D).
Abbreviation Trk := (trk p).

(** The members the protocol is about *)
Definition calm (s s' : State) : Prop :=
  keeps s s' /\ retryPkt s' = retryPkt s /\ retryTid s' = retryTid s /\ cacheBlocked s' = cacheBlocked s /\
  finishTranslationEvent s' = finishTranslationEvent s.

Lemma proto_calm t (s s' : State) : proto t s -> calm s s' -> proto t s'.
Proof. intros [H1 H2 H3] (_ & E1 & E2 & E3 & E4). constructor; by rewrite ?E1, ?E2, ?E3, ?E4. Qed.

Lemma calm_num (s s' : State) : calm s s' -> numInst s' = numInst s.
Proof. by intros ((_ & _ & E & _) & _). Qed.

Lemma trk_rebase k s0 t0 new e ip t (s : State) : Trk k s0 t0 new e ip t s -> e = pc t -> Trk k s t [] (pc t) ip t s.
Proof.
  intros H ->. destruct (tk_seq _ _ _ _ _ _ _ _ _ H) as (? & ? & ?). destruct H. constructor; try done; cbn.
  - lia.
  - by rewrite app_nil_r.
Qed.

Lemma wp_anyRunning k s0 t0 new e ip t s l (Q : bool -> State -> Prop) :
  Trk k s0 t0 new e ip t s -> l = [] \/ l = [0] -> (forall b, Q b s) -> wp (anyRunning l) Q s.
Proof.
  intros H [->| ->] HQ; cbn [anyRunning]; [by apply wp_ret|]. apply wp_bind. eapply wp_thr; [done|].
  apply wp_if; intros _; by apply wp_ret.
Qed.

Lemma wp_updateFetchStatus k s0 t0 new e ip t s (Q : unit -> State -> Prop) :
  Trk k s0 t0 new e ip t s -> (forall s', Trk k s0 t0 new e ip t s' -> calm s s' -> Q tt s') ->
  wp updateFetchStatus Q s.
Proof.
  intros H HQ. unfold updateFetchStatus. apply wp_bind, wp_gets, wp_bind.
  eapply wp_anyRunning; [done|apply H|]. intros b. apply wp_bind, wp_gets.
  assert (HQ' : forall s', calm s s' -> Q tt s').
  { intros s' Hs'. apply HQ; [|done]. eapply trk_keeps; [done|apply Hs']. }
  destruct b; apply wp_bind, wp_when; intros _; unfold call; try apply wp_modify; apply wp_modify, HQ'; done.
Qed.

(** ** The cache *)

Lemma wp_sendTimingReq k s0 t0 new e ip t s r (Q : bool -> State -> Prop) :
  Trk k s0 t0 new e ip t s -> (forall b s', Trk k s0 t0 new e ip t s' -> calm s s' -> Q b s') ->
  wp (sendTimingReq icacheAccepts r) Q s.
Proof.
  intros H HQ. unfold sendTimingReq, call. apply wp_bind, wp_gets, wp_bind, wp_modify, wp_bind, wp_modify, wp_ret.
  apply HQ; [by eapply trk_keeps|done].
Qed.

(** A thread that waits for nothing *)
Definition unblocked (s : State) : Prop :=
  retryPkt s = None /\ retryTid s = InvalidThreadID /\ finishTranslationEvent s = None.

Lemma proto_unblocked t s : proto t s -> canFetch (fetchStatus t) = true -> unblocked s.
Proof.
  intros [H1 H2 _] Hc. split_and!.
  - destruct (retryPkt s); [|done]. destruct H1 as (_ & _ & [E|[E _]]); rewrite E in Hc; done.
  - destruct (retryPkt s); [|done]. destruct H1 as (_ & _ & [E|[E _]]); rewrite E in Hc; done.
  - destruct (finishTranslationEvent s) as [[f r]|]; [|done].
    destruct (H2 f r eq_refl) as [[E _]|[E|E]]; rewrite E in Hc; done.
Qed.

Lemma proto_idle t s : unblocked s -> proto t s.
Proof. intros (E1 & E2 & E3). constructor; rewrite ?E1, ?E3; done. Qed.

Lemma wp_accessCache k s0 t0 new ip t s r (Q : unit -> State -> Prop) :
  Trk k s0 t0 new (pc t) ip t s -> unblocked s ->
  (forall t' s', Trk k s0 t0 new (pc t) ip t' s' -> proto t' s' -> numInst s' = numInst s -> pc t' = pc t ->
     finishTranslationEvent s' = None -> memReq t' = memReq t ->
     fetchStatus t' = IcacheWaitRetry \/ fetchStatus t' = IcacheWaitResponse -> Q tt s') ->
  wp (accessCache icacheAccepts 0 r) Q s.
Proof.
  intros H (Hu1 & Hu2 & Hu3) HQ. pose proof (tk_issue _ _ _ _ _ _ _ _ _ H) as <-.
  unfold accessCache. apply wp_bind.
  eapply wp_upd; [exact H|destruct H; by constructor|]. intros H1. apply wp_bind.
  eapply wp_fetchStat; [exact H1|]. intros H2. apply wp_bind. eapply wp_sendTimingReq; [exact H2|].
  intros b s3 H3 (Hk3 & E1 & E2 & E3 & E4). cbn in E1, E2, E3, E4.
  assert (En : numInst s3 = numInst s) by apply Hk3.
  destruct b; cbn [negb].
  - apply wp_bind. eapply wp_setFetchStatus; [exact H3|]. intros H4. eapply wp_call; [exact H4|]. intros H5.
    eapply HQ; [exact H5|apply proto_idle|exact En|done| |done|by right].
    + unfold unblocked. cbn. by rewrite E1, E2, E4.
    + cbn. by rewrite E4.
  - apply wp_bind, wp_gets, wp_bind, wp_massert; [rewrite E1, Hu1; done|].
    apply wp_bind, wp_massert; [rewrite E2, Hu2; done|]. apply wp_bind.
    eapply wp_setFetchStatus; [exact H3|]. intros H4. eapply wp_keep; [exact H4|done|]. intros H5.
    eapply HQ; [exact H5|constructor; cbn|exact En|done| |done|by left].
    + split_and!; [done..|by left].
    + intros f' r'. by rewrite E4, Hu3.
    + intros f' r'. by rewrite E4, Hu3.
    + cbn. by rewrite E4.
Qed.

(** ** Translation *)

(** The instructions a translation adds: none, or the nop of a fault *)
Definition faulting (new : list FInst) (s : State) (t' : Thread) : Prop :=
  new = [] \/ (exists x, new = [x]) /\ numInst s < fetchWidth p /\ fetchStatus t' = TrapPending.

Lemma wp_faultInst k s0 t0 new ip t s f r (Q : bool -> State -> Prop) :
  Trk k s0 t0 new (pc t) ip t s -> unblocked s -> k + 1 < fe_limit ->
  (forall x t' s', Trk (k + 1) s0 t0 (new ++ [x]) (pc t) ip t' s' -> unblocked s' -> numInst s' = numInst s ->
     numInst s < fetchWidth p -> fetchStatus t' = TrapPending -> pc t' = pc t -> Q true s') ->
  (Trk k s0 t0 new (pc t) ip t (s <| finishTranslationEvent := Some (f, r) |>) ->
   Q false (s <| finishTranslationEvent := Some (f, r) |>)) ->
  wp (faultInst p nopStaticInst 0 f r) Q s.
Proof.
  intros H (Hu1 & Hu2 & Hu3) Hk Hyes Hno. pose proof (tk_issue _ _ _ _ _ _ _ _ _ H) as <-.
  unfold faultInst. apply wp_bind, wp_gets, wp_bind. eapply wp_thr; [done|].
  apply wp_if; intros Hb.
  - apply wp_bind, wp_gets, wp_bind, wp_massert; [by rewrite Hu3|]. apply wp_bind.
    eapply wp_keep; [exact H|done|]. intros H1. by apply wp_ret, Hno.
  - apply orb_false_iff in Hb as [Hb1%negb_false_iff%Z.ltb_lt Hb2%negb_false_iff%Z.ltb_lt].
    apply wp_bind. eapply wp_upd; [exact H|destruct H; by constructor|]. intros H1. apply wp_bind.
    eapply wp_buildInst; [exact H1|done|exact Hb1|exact Hb2|exact Hk|].
    intros x t2 s2 H2 Ex Et2 _ _ _ En E1 E2 E3 E4 _. apply wp_bind.
    eapply wp_setInst; [exact H2|done|]. intros t3 s3 H3 Et3 Es3. apply wp_bind.
    eapply wp_keep; [exact H3|done|]. intros H4. apply wp_bind. eapply wp_call; [exact H4|]. intros H5.
    apply wp_bind. eapply wp_setFetchStatus; [exact H5|]. intros H6. apply wp_ret.
    assert (Epc : pc t3 = pc t) by (by rewrite Et3, Et2).
    eapply Hyes; [exact H6| |rewrite Es3; exact En|done|done|exact Epc].
    unfold unblocked. rewrite Es3. cbn. by rewrite E1, E2, E4.
Qed.

Lemma trk_mono k k' s0 t0 new e ip t (s : State) : Trk k s0 t0 new e ip t s -> k <= k' -> Trk k' s0 t0 new e ip t s.
Proof.
  intros H Hk. destruct (tk_seq _ _ _ _ _ _ _ _ _ H) as (? & ? & ?), (tk_front _ _ _ _ _ _ _ _ _ H).
  destruct H. constructor; try done.
  - split; [by eapply fe_ok_mono|done].
  - split_and!; [done..|lia].
Qed.

(** The answer of the MMU for request [r]: a stale one changes nothing. *)
Lemma wp_finishTranslation k s0 t0 new a ip t s res r (Q : unit -> State -> Prop) :
  Trk k s0 t0 new a ip t s -> pc t = a -> proto t s -> k + 1 < fe_limit -> req_tid r = 0 ->
  (fetchStatus t = ItlbWait -> memReq t = Some r -> unblocked s) ->
  (forall l t' s', Trk (k + 1) s0 t0 (new ++ l) a ip t' s' -> proto t' s' -> faulting l s t' ->
     numInst s' = numInst s -> pc t' = a -> (fetchStatus t <> ItlbWait \/ memReq t <> Some r -> t' = t) ->
     (forall f r', finishTranslationEvent s' = Some (f, r') -> finishTranslationEvent s = Some (f, r') \/
        r' = r /\ fetchStatus t' = ItlbWait /\ memReq t' = Some r) ->
     (canFetch (fetchStatus t') = true -> canFetch (fetchStatus t) = true) -> Q tt s') ->
  wp (finishTranslation p nopStaticInst isMemAddr icacheAccepts res r) Q s.
Proof.
  intros H <- Hp Hk Hr Hu HQ. unfold finishTranslation. rewrite Hr. apply wp_bind, wp_gets, wp_bind, wp_massert.
  { by rewrite (tk_on _ _ _ _ _ _ _ _ _ H). }
  apply wp_bind. eapply wp_call; [exact H|]. intros H1. apply wp_bind. eapply wp_thr; [exact H1|].
  apply wp_if; intros Hb.
  - eapply wp_fetchStat; [exact H1|]. intros H2.
    eapply (HQ []); [rewrite app_nil_r; eapply trk_mono; [exact H2|lia]| |by left|done|done|done|by left|done].
    by eapply proto_calm.
  - apply orb_false_iff in Hb as [Hb1%negb_false_iff%bool_decide_eq_true Hb2%negb_false_iff%bool_decide_eq_true].
    specialize (Hu Hb1 Hb2). assert (Hst : fetchStatus t <> ItlbWait \/ memReq t <> Some r -> False) by (intros [?|?]; done).
    destruct res as [paddr|f].
    + apply wp_if; intros _.
      * eapply wp_upd; [exact H1|destruct H; by constructor|]. intros H2.
        pose proof (tk_issue _ _ _ _ _ _ _ _ _ H) as <-.
        eapply (HQ []); [rewrite app_nil_r; eapply trk_mono; [exact H2|lia]| |by left|done|done|by intros ?%Hst| |done].
        { apply proto_idle. exact Hu. }
        destruct Hu as (_ & _ & Hu). intros f' r'. cbn. by rewrite Hu.
      * apply wp_bind. eapply wp_accessCache; [exact H1|exact Hu|]. intros t2 s2 H2 Hp2 En Epc Eev Em Hs2.
        eapply wp_updateFetchStatus; [exact H2|]. intros s3 H3 Hc3.
        eapply (HQ [] t2); [rewrite app_nil_r; eapply trk_mono; [exact H3|lia]| |by left| |done|by intros ?%Hst| |].
        { by eapply proto_calm. }
        { etrans; [by apply calm_num|exact En]. }
        { destruct Hc3 as (_ & _ & _ & _ & E). rewrite E, Eev. done. }
        { by destruct Hs2 as [-> | ->]. }
    + apply wp_bind. eapply wp_faultInst; [exact H1|exact Hu|exact Hk| |].
      * intros x t2 s2 H2 Hu2 En Hn Hs2 Epc. cbn [when].
        eapply wp_updateFetchStatus; [exact H2|]. intros s3 H3 Hc3.
        eapply (HQ [x] t2); [exact H3| |right; split_and!; [by exists x|done|done]| |done|by intros ?%Hst| |by rewrite Hs2].
        { eapply proto_calm; [|exact Hc3]. by apply proto_idle. }
        { etrans; [by apply calm_num|exact En]. }
        { destruct Hc3 as (_ & _ & _ & _ & E), Hu2 as (_ & _ & E2). rewrite E, E2. done. }
      * intros H2. cbn [when]. apply wp_ret.
        eapply (HQ [] t); [rewrite app_nil_r; eapply trk_mono; [exact H2|lia]| |by left|done|done|done| |done].
        { destruct Hp as [Hp1 _ _]. constructor; [exact Hp1|intros f' r' [= <- <-]..]; [by left|done]. }
        { intros f' r' [= <- <-]. by right. }
Qed.

(** ** Fetching a line *)

Lemma wp_fetchCacheLine k s0 t0 new e ip t s vaddr a (Q : bool -> State -> Prop) :
  Trk k s0 t0 new e ip t s -> pc t = e -> proto t s -> k + 1 < fe_limit -> canFetch (fetchStatus t) = true ->
  (forall b l t' s', Trk (k + 1) s0 t0 (new ++ l) e ip t' s' -> proto t' s' -> faulting l s t' ->
     numInst s' = numInst s -> pc t' = e -> Q b s') ->
  wp (fetchCacheLine p nopStaticInst translateTiming isMemAddr icacheAccepts vaddr 0 a) Q s.
Proof.
  intros H He Hp Hk Hc HQ. pose proof (proto_unblocked t s Hp Hc) as Hu.
  assert (Hnone : forall b, Q b s).
  { intros b. eapply (HQ b [] t); [rewrite app_nil_r; eapply trk_mono; [exact H|lia]|done|by left|done..]. }
  unfold fetchCacheLine. apply wp_bind, wp_gets, wp_bind, wp_massert.
  { by rewrite (tk_on _ _ _ _ _ _ _ _ _ H). }
  apply wp_bind, wp_gets, wp_if; intros _; [by apply wp_ret|]. unfold checkInterrupt.
  apply wp_bind, wp_gets, wp_bind. eapply wp_thr; [exact H|]. apply wp_if; intros _; [by apply wp_ret|].
  apply wp_bind, wp_gets. set (r := mkRequest _ _ _ _ _). apply wp_bind.
  eapply wp_keep; [exact H|done|]. intros H1. apply wp_bind. eapply wp_upd; [exact H1|destruct H; by constructor|].
  intros H2. apply wp_bind. eapply wp_call; [exact H2|]. intros H3. apply wp_bind.
  pose proof (tk_issue _ _ _ _ _ _ _ _ _ H) as <-.
  destruct (translateTiming r) as [res|] eqn:Er.
  - eapply wp_finishTranslation; [exact H3|exact He|by apply proto_idle|exact Hk|done|by intros _ _|].
    intros l t' s' H4 Hp4 Hf En Epc _ Hev _. apply wp_ret.
    by eapply HQ.
  - apply wp_ret, wp_ret. eapply (HQ true []); [rewrite app_nil_r; eapply trk_mono; [exact H3|lia]|by apply proto_idle|by left|done|done].
Qed.

(** ** Answers of the cache *)

Lemma proto_waiting t s : proto t s -> fetchStatus t = IcacheWaitResponse -> unblocked s.
Proof.
  intros [H1 H2 _] Hs. split_and!.
  - destruct (retryPkt s); [|done]. destruct H1 as (_ & _ & [E|[E _]]); rewrite E in Hs; done.
  - destruct (retryPkt s); [|done]. destruct H1 as (_ & _ & [E|[E _]]); rewrite E in Hs; done.
  - destruct (finishTranslationEvent s) as [[f r]|]; [|done].
    destruct (H2 f r eq_refl) as [[E _]|[E|E]]; rewrite E in Hs; done.
Qed.

Lemma wp_checkStall k s0 t0 new e ip t s (Q : bool -> State -> Prop) :
  Trk k s0 t0 new e ip t s -> Q (drain (stalls t)) s -> wp (checkStall 0) Q s.
Proof.
  intros H HQ. unfold checkStall. apply wp_bind. eapply wp_thr; [exact H|].
  pose proof (tk_drain _ _ _ _ _ _ _ _ _ H) as Hd. destruct (drain (stalls t)).
  - apply wp_bind, wp_gets, wp_bind, wp_massert; [by apply Hd|]. by apply wp_ret.
  - by apply wp_ret.
Qed.

Lemma wp_switchToActive k s0 t0 new e ip t s (Q : unit -> State -> Prop) :
  Trk k s0 t0 new e ip t s -> (forall s', Trk k s0 t0 new e ip t s' -> calm s s' -> Q tt s') -> wp switchToActive Q s.
Proof.
  intros H HQ. unfold switchToActive, call. apply wp_bind, wp_gets, wp_when; intros _.
  - apply wp_bind, wp_modify, wp_modify, HQ; [by eapply trk_keeps|done].
  - by apply HQ.
Qed.

Lemma wp_processCacheCompletion k s0 t0 new a ip t s r data (Q : unit -> State -> Prop) :
  Trk k s0 t0 new a ip t s -> pc t = a -> proto t s -> req_tid r = 0 ->
  length data = Z.to_nat (fetchBufferSize p) ->
  (forall t' s', Trk k s0 t0 new a ip t' s' -> proto t' s' -> pc t' = a -> numInst s' = numInst s ->
     finishTranslationEvent s' = finishTranslationEvent s ->
     (fetchStatus t <> IcacheWaitResponse \/ memReq t <> Some r -> t' = t) -> Q tt s') ->
  wp (processCacheCompletion p r data) Q s.
Proof.
  intros H Ha Hp Hr Hd HQ. pose proof (tk_issue _ _ _ _ _ _ _ _ _ H) as <-.
  unfold processCacheCompletion. rewrite Hr. apply wp_bind, wp_gets, wp_bind, wp_massert.
  { by rewrite (tk_on _ _ _ _ _ _ _ _ _ H). }
  apply wp_bind. eapply wp_thr; [exact H|]. apply wp_if; intros Hb.
  - eapply wp_fetchStat; [exact H|]. intros H1. eapply HQ; [exact H1| |done..]. by eapply proto_calm.
  - apply orb_false_iff in Hb as [Hb1%negb_false_iff%bool_decide_eq_true Hb2%negb_false_iff%bool_decide_eq_true].
    pose proof (proto_waiting t s Hp Hb1) as Hu.
    apply wp_bind. eapply wp_upd; [exact H| |].
    { destruct H. constructor; try done. cbn. rewrite length_take. lia. }
    intros H1. apply wp_bind. eapply wp_call; [exact H1|]. intros H2. apply wp_bind.
    eapply wp_switchToActive; [exact H2|]. intros s3 H3 Hc3. apply wp_bind.
    eapply wp_checkStall; [exact H3|]. apply wp_bind. eapply wp_setFetchStatus; [exact H3|]. intros H4.
    apply wp_bind. eapply wp_call; [exact H4|]. intros H5. eapply wp_upd; [exact H5|destruct H; by constructor|].
    intros H6. destruct Hc3 as ((_ & _ & En & _) & E1 & E2 & E3 & E4). cbn in *.
    eapply HQ; [exact H6| |exact Ha|exact En|exact E4|by intros [?|?]].
    apply proto_idle. unfold unblocked. cbn. by rewrite E1, E2, E4.
Qed.

Lemma wp_recvReqRetry k s0 t0 new a ip t s (Q : unit -> State -> Prop) :
  Trk k s0 t0 new a ip t s -> pc t = a -> proto t s ->
  (forall t' s', Trk k s0 t0 new a ip t' s' -> proto t' s' -> pc t' = a -> numInst s' = numInst s ->
     finishTranslationEvent s' = finishTranslationEvent s ->
     (fetchStatus t <> IcacheWaitRetry -> t' = t) -> Q tt s') ->
  wp (recvReqRetry icacheAccepts) Q s.
Proof.
  intros H Ha Hp HQ. unfold recvReqRetry. apply wp_bind, wp_gets, wp_bind.
  destruct (retryPkt s) as [r|] eqn:Er.
  - pose proof (pr_retry _ _ Hp) as Hr. rewrite Er in Hr. destruct Hr as (Ht & Hcb & Hst). rewrite Ht.
    apply wp_bind. eapply wp_thr; [exact H|]. apply wp_when; intros Htrap.
    + eapply wp_keep; [exact H|done|]. intros H1. apply wp_bind, wp_gets. cbn [retryPkt setf].
      apply wp_bind, wp_massert; [done|]. eapply wp_keep; [exact H1|done|]. intros H2.
      eapply HQ; [exact H2| |done..]. destruct Hp. constructor; cbn; done.
    + apply bool_decide_eq_false in Htrap. destruct Hst as [Hst|[Hst _]]; [|done].
      apply wp_bind, wp_gets. rewrite Er. apply wp_bind, wp_massert; [done|].
      apply wp_bind, wp_massert; [by rewrite Ht|]. rewrite Ht. apply wp_bind. eapply wp_thr; [exact H|].
      apply wp_bind, wp_massert; [by rewrite Hst|]. apply wp_bind. eapply wp_sendTimingReq; [exact H|].
      intros b s2 H2 Hc2. assert (Hp2 : proto t s2) by (by eapply proto_calm).
      destruct Hc2 as ((_ & _ & En & _) & E1 & E2 & E3 & E4). apply wp_when; intros _.
      * apply wp_bind. eapply wp_setFetchStatus; [exact H2|]. intros H3. apply wp_bind.
        eapply wp_call; [exact H3|]. intros H4. eapply wp_keep; [exact H4|done|]. intros H5.
        eapply HQ; [exact H5| |exact Ha|exact En|exact E4|done].
        constructor; cbn; [done| |apply Hp2]. intros f' r' E'. destruct (pr_event _ _ Hp2 f' r' E') as [[E _]|[E|E]]; by rewrite Hst in E.
      * by eapply HQ.
  - apply wp_ret, wp_bind, wp_gets. rewrite Er. pose proof (pr_retry _ _ Hp) as Hr. rewrite Er in Hr.
    apply wp_bind, wp_massert; [by rewrite Hr|]. eapply wp_keep; [exact H|done|]. intros H1.
    eapply HQ; [exact H1| |done..]. destruct Hp as [Hp1 Hp2 Hp3]. constructor; cbn; rewrite ?Er; done.
Qed.

(** ** Squash *)

(** The thread a squash leaves: at the new PC, with nothing queued *)
Definition restart (a : PCStateBase) (t : Thread) : Thread := t <| pc := a |> <| fetchQueue := [] |>.

Lemma trk_restart k s0 t0 new e ip t (s : State) a x :
  Trk k s0 t0 new e ip t s ->
  Trk k s (restart a t) [] a ip (t <| fetchStatus := x |> <| fetchQueue := [] |> <| delayedCommit := true |>)
    (s <| threads ::= alter (fun t => t <| fetchStatus := x |> <| fetchQueue := [] |> <| delayedCommit := true |>) 0%nat |>).
Proof.
  intros H. destruct (tk_seq _ _ _ _ _ _ _ _ _ H) as (? & ? & ?). pose proof (tk_thr _ _ _ _ _ _ _ _ _ H) as Ht.
  pose proof (tk_full _ _ _ _ _ _ _ _ _ H). destruct H. constructor; cbn -[alter]; try done.
  - by rewrite list_lookup_alter_eq, Ht.
  - lia.
  - split_and!; lia.
Qed.

(** What [doSquash] leaves of the request: only one that waits for the cache or the MMU is dropped *)
Definition keptReq (t : Thread) : option Request :=
  if bool_decide (fetchStatus t = IcacheWaitResponse) || bool_decide (fetchStatus t = ItlbWait) then None else memReq t.

Lemma wp_doSquash k s0 t0 new e ip t s a si (Q : unit -> State -> Prop) :
  Trk k s0 t0 new e ip t s -> proto t s ->
  (forall t' s', Trk k s (restart a t) [] a ip t' s' -> proto t' s' -> fetchStatus t' = Squashing -> pc t' = a ->
     numInst s' = numInst s -> finishTranslationEvent s' = finishTranslationEvent s -> front s' = front s ->
     retryPkt s' = None -> memReq t' = keptReq t -> Q tt s') ->
  wp (doSquash a si 0) Q s.
Proof.
  intros H Hp HQ. pose proof (tk_issue _ _ _ _ _ _ _ _ _ H) as <-. unfold doSquash. apply wp_bind.
  eapply wp_upd; [exact H|destruct H; by constructor|]. intros H1. apply wp_bind. eapply wp_thr; [exact H1|].
  apply wp_bind. destruct (tk_dec _ _ _ _ _ _ _ _ _ H) as [d Hd]. eapply wp_deref; [exact Hd|].
  apply wp_bind. eapply wp_upd; [exact H1|destruct H; by constructor|]. intros H2. apply wp_bind.
  set (t2 := (t <| pc := _ |> <| fetchOffset := _ |> <| macroop := _ |>) <| decoder := Some (dec_reset d) |>) in *.
  apply (wp_mono _ (fun _ s3 => exists m, Trk k s0 t0 new e (issuePipelinedIfetch t) (t2 <| memReq := m |>) s3 /\ m = keptReq t /\
    retryPkt s3 = retryPkt s /\ retryTid s3 = retryTid s /\ cacheBlocked s3 = cacheBlocked s /\
    finishTranslationEvent s3 = finishTranslationEvent s /\ front s3 = front s /\ numInst s3 = numInst s /\
    sent s3 = sent s /\ c_instSeq s3 = c_instSeq s /\ c_activeThreads s3 = c_activeThreads s /\
    c_isDraining s3 = c_isDraining s)).
  { unfold keptReq. change (fetchStatus (t <| pc := _ |> <| fetchOffset := _ |> <| macroop := _ |>)) with (fetchStatus t).
    apply wp_when; intros ->.
    - eapply wp_upd; [exact H2|destruct H2; by constructor|]. intros H3. exists None. by split_and!.
    - exists (memReq t2). by split_and!. }
  intros [] s3 (m & H3 & Em & E1 & E2 & E3 & E4 & E5 & E6 & E7 & E8 & E9 & E10).
  apply wp_bind, wp_gets, wp_bind.
  apply (wp_mono _ (fun _ s4 => Trk k s0 t0 new e (issuePipelinedIfetch t) (t2 <| memReq := m |>) s4 /\ keeps s3 s4 /\
    retryPkt s4 = None /\ retryTid s4 = InvalidThreadID /\ finishTranslationEvent s4 = finishTranslationEvent s)).
  { pose proof (pr_retry _ _ Hp) as Hr. rewrite <- E1 in Hr. apply wp_when; intros Hb.
    - apply Z.eqb_eq in Hb. apply wp_bind, wp_massert.
      + destruct (retryPkt s3); [by rewrite E3; destruct Hr as (_ & ? & _)|]. by rewrite E2, Hr in Hb.
      + eapply wp_keep; [exact H3|done|]. intros H4. by split_and!.
    - split_and!; try done.
      + destruct (retryPkt s3); [|done]. destruct Hr as (Hr & _). by rewrite E2, Hr in Hb.
      + destruct (retryPkt s3); [|by rewrite E2]. destruct Hr as (Hr & _). by rewrite E2, Hr in Hb. }
  intros [] s4 (H4 & Hk4 & Er & Et & Ev). apply wp_bind. unfold upd. apply wp_bind. eapply wp_thr; [exact H4|].
  apply wp_modify. pose proof (trk_restart k s0 t0 new e _ _ s4 a Squashing H4) as H5.
  assert (H6 : Trk k s (restart a t) [] a (issuePipelinedIfetch t)
    ((t2 <| memReq := m |>) <| fetchStatus := Squashing |> <| fetchQueue := [] |> <| delayedCommit := true |>)
    (s4 <| threads ::= alter (fun t => t <| fetchStatus := Squashing |> <| fetchQueue := [] |> <| delayedCommit := true |>) 0%nat |>)).
  { destruct Hk4 as (_ & _ & _ & _ & F1 & F2 & _ & F3 & F4 & _).
    destruct (tk_seq _ _ _ _ _ _ _ _ _ H) as (G1 & G2 & G3). destruct H5. constructor; try done; cbn in *.
    - split_and!; [lia|rewrite F3, E8; lia|rewrite F3, E8; lia].
    - rewrite F1, F2, F4, E7, E9, E10. done. }
  eapply wp_fetchStat; [exact H6|]. intros H7. destruct Hk4 as (_ & _ & F0 & _ & _ & _ & Ff & _).
  eapply HQ; [exact H7| |done|done| |exact Ev| |exact Er|exact Em].
  - constructor; cbn; [by rewrite Er|intros f r _; right; by left|]. intros f r E. rewrite Ev in E. by apply (pr_tid _ _ Hp f).
  - cbn. by rewrite F0, E6.
  - cbn. by rewrite Ff, E5.
Qed.

(** ** Signals *)

Definition stallsAfter (d : DecodeSig) (x : Stalls) : Stalls :=
  mkStalls ((decode x || ds_block d) && negb (ds_unblock d)) (drain x).

(** What the later stages promise: a squash comes with a PC, decode unblocks a
    blocked thread, and commit sends no trap for a thread it has drained. *)
Record signals_ok (sig : Signals) (t : Thread) : Prop := {
  sg_unblock : ds_unblock (fromDecode sig 0) = true -> decode (stalls t) = true /\ ds_block (fromDecode sig 0) = false;
  sg_commit : cs_squash (fromCommit sig 0) = true -> is_Some (cs_pc (fromCommit sig 0));
  sg_decode : ds_squash (fromDecode sig 0) = true -> is_Some (ds_nextPC (fromDecode sig 0));
  sg_trap : cs_trapPending (fromCommit sig 0) = true -> drain (stalls t) = false
}.

(** The PC of a squash of commit or, unless commit traps or the thread is squashing
    already, of decode *)
Definition squashPC (sig : Signals) (x : ThreadStatus) : option PCStateBase :=
  if cs_squash (fromCommit sig 0) then cs_pc (fromCommit sig 0)
  else if cs_trapPending (fromCommit sig 0) then None
  else if ds_squash (fromDecode sig 0) && negb (bool_decide (x = Squashing))
  then ds_nextPC (fromDecode sig 0) else None.

(** The status after a cycle's signals without a squash *)
Definition nextStatus (sig : Signals) (empty drained : bool) (x : ThreadStatus) : ThreadStatus :=
  if cs_trapPending (fromCommit sig 0) then TrapPending
  else if drained && negb (keepsWaiting x) then Blocked
  else if bool_decide (x = Blocked) || bool_decide (x = Squashing) then (if empty then FTQEmpty else Running)
  else if bool_decide (x = FTQEmpty) && negb empty then Running else x.

Definition stalled (d : DecodeSig) (t : Thread) : Thread := t <| stalls ::= stallsAfter d |>.

Lemma trk_stalled k ip t (s : State) x :
  Trk k s t [] (pc t) ip t s -> drain x = drain (stalls t) ->
  Trk k s (t <| stalls := x |>) [] (pc t) ip (t <| stalls := x |>) (s <| threads ::= alter (fun t => t <| stalls := x |>) 0%nat |>).
Proof.
  intros H Hx. pose proof (tk_thr _ _ _ _ _ _ _ _ _ H) as Ht. destruct (tk_seq _ _ _ _ _ _ _ _ _ H) as (? & ? & ?).
  destruct H. constructor; cbn -[alter]; try done.
  - by rewrite list_lookup_alter_eq, Ht.
  - by rewrite Hx.
Qed.

Lemma wp_updateStalls k ip t s sig (Q : unit -> State -> Prop) :
  Trk k s t [] (pc t) ip t s -> signals_ok sig t ->
  (forall s', Trk k s (stalled (fromDecode sig 0) t) [] (pc t) ip (stalled (fromDecode sig 0) t) s' ->
     s' = s <| threads := threads s' |> -> Q tt s') ->
  wp (updateStalls (fromDecode sig 0) 0) Q s.
Proof.
  intros H Hsig HQ. set (d := fromDecode sig 0) in *.
  assert (Hst : forall s', threads s' !! 0%nat = Some (stalled d t) -> s' = s <| threads := threads s' |> -> Q tt s').
  { intros s' Ht Es. apply HQ; [|done]. rewrite Es. destruct (trk_stalled k ip t s (stallsAfter d (stalls t)) H eq_refl).
    constructor; try done. }
  assert (Ht : threads s !! 0%nat = Some t) by apply H. clear HQ.
  unfold updateStalls, upd, thr. apply wp_bind. destruct (ds_block d) eqn:Eb; cbn [when].
  - apply wp_bind, wp_bind, wp_gets. eapply wp_at_index; [exact Ht|]. apply wp_modify. apply wp_when; intros Hub.
    { destruct (sg_unblock _ _ Hsig Hub) as [_ E]. by fold d in E; rewrite Eb in E. }
    apply Hst; [|by destruct s]. erewrite lookup_upd by exact Ht. unfold stalled, stallsAfter. rewrite Eb, Hub.
    unfold setf. cbn. destruct (stalls t). cbn. by rewrite orb_true_r.
  - apply wp_ret. apply wp_when; intros Hub.
    + destruct (sg_unblock _ _ Hsig Hub) as [E _]. apply wp_bind, wp_bind, wp_gets.
      eapply wp_at_index; [exact Ht|]. apply wp_bind, wp_massert; [done|]. apply wp_bind, wp_massert; [done|].
      apply wp_bind, wp_bind, wp_gets. eapply wp_at_index; [exact Ht|]. apply wp_modify.
      apply Hst; [|by destruct s]. erewrite lookup_upd by exact Ht. unfold stalled, stallsAfter. rewrite Eb, Hub.
      unfold setf. cbn. destruct (stalls t). cbn. by rewrite andb_false_r.
    + apply Hst; [|by destruct s]. rewrite Ht. unfold stalled, stallsAfter. rewrite Eb, Hub.
      unfold setf. cbn. destruct t as [? ? ? ? ? ? ? [dc dr] ? ? ? ? ? ?]. cbn. by rewrite orb_false_r, andb_true_r.
Qed.

Lemma nextStatus_proto sig t t' (s s' : State) empty :
  proto t s ->
  retryPkt s' = retryPkt s /\ retryTid s' = retryTid s /\ cacheBlocked s' = cacheBlocked s /\
  finishTranslationEvent s' = finishTranslationEvent s -> (cs_trapPending (fromCommit sig 0) = true -> drain (stalls t) = false) ->
  (forall f r, finishTranslationEvent s = Some (f, r) -> fetchStatus t = ItlbWait /\ memReq t = Some r) ->
  drain (stalls t') = drain (stalls t) -> memReq t' = memReq t ->
  fetchStatus t' = nextStatus sig empty (drain (stalls t)) (fetchStatus t) -> proto t' s'.
Proof.
  intros [Hp1 Hp2 Hp3] (E1 & E2 & E3 & E4) Htr Hev Ed Em Es. unfold nextStatus in Es. constructor.
  - rewrite E1, E2, E3. destruct (retryPkt s); [|done]. destruct Hp1 as (? & ? & Hst). split_and!; [done..|].
    rewrite Ed, Es. destruct (cs_trapPending _); [right; split; auto|]. destruct Hst as [->|[-> ->]].
    + cbn. rewrite andb_false_r. by left.
    + by right.
  - intros f r. rewrite E4. intros E. destruct (Hev f r E) as [Hs Hm]. rewrite Es, Hs, Em.
    destruct (cs_trapPending _); [auto|]. cbn. rewrite andb_false_r. by left.
  - intros f r. rewrite E4. apply Hp3.
Qed.

Lemma wp_fetchSignals k ip t s sig (Q : bool -> State -> Prop) :
  Trk k s t [] (pc t) ip t s -> proto t s -> signals_ok sig t -> decoupledFrontEnd p = true ->
  (forall f r, finishTranslationEvent s = Some (f, r) -> fetchStatus t = ItlbWait /\ memReq t = Some r) ->
  let t1 := stalled (fromDecode sig 0) t in
  (forall b t' s', proto t' s' -> numInst s' = numInst s -> finishTranslationEvent s' = finishTranslationEvent s ->
     front s' = front s ->
     match squashPC sig (fetchStatus t) with
     | Some a => Trk k s (restart a t1) [] a ip t' s' /\ fetchStatus t' = Squashing /\ pc t' = a /\ memReq t' = keptReq t
     | None => Trk k s t1 [] (pc t) ip t' s' /\ pc t' = pc t /\ memReq t' = memReq t /\
         fetchStatus t' = nextStatus sig (bool_decide (fe_queue (front s) = [])) (drain (stalls t)) (fetchStatus t)
     end -> Q b s') ->
  wp (checkSignalsAndUpdate p sig 0) Q s.
Proof.
  intros H Hp Hsig Hdec Hev t1 HQ. unfold checkSignalsAndUpdate. apply wp_bind.
  eapply wp_updateStalls; [exact H|done|]. intros s1 H1 Es1. fold t1 in H1.
  assert (Hp1 : proto t1 s1). { rewrite Es1. destruct Hp. by constructor. }
  assert (Hbase : forall u a t' s', Trk k s1 u [] a ip t' s' -> Trk k s u [] a ip t' s').
  { intros u a t' s' Ht'. rewrite Es1 in Ht'. destruct Ht'. by constructor. }
  (* a squash to [a] *)
  assert (Hdo : forall a si c, squashPC sig (fetchStatus t) = Some a ->
    wp ((doSquash a si 0 ;; call c) ;; mret true) Q s1).
  { intros a si c Ea. apply wp_bind, wp_bind. eapply wp_doSquash; [exact H1|exact Hp1|].
    intros t' s' H2 Hp2 Hs2 Hpc En Ev Ef _ Em. eapply wp_call; [exact H2|]. intros H3. apply wp_ret.
    rewrite Ea in HQ. eapply HQ; [|cbn; rewrite En, Es1; done|cbn; rewrite Ev, Es1; done|cbn; rewrite Ef, Es1; done|].
    - eapply proto_calm; [exact Hp2|done].
    - split_and!; [|exact Hs2|exact Hpc|exact Em]. apply Hbase. exact H3. }
  assert (Hgo : forall b x, squashPC sig (fetchStatus t) = None ->
    x = nextStatus sig (bool_decide (fe_queue (front s) = [])) (drain (stalls t)) (fetchStatus t) ->
    wp (setStatus 0 x ;; mret b) Q s1).
  { intros b x Ea Ex. apply wp_bind. eapply wp_setFetchStatus; [exact H1|]. intros H2. apply wp_ret.
    rewrite Ea in HQ. eapply HQ; [|cbn; rewrite Es1; done|cbn; rewrite Es1; done|cbn; rewrite Es1; done|].
    - eapply (nextStatus_proto sig t (t1 <| fetchStatus := x |>) s); [exact Hp| |apply Hsig|exact Hev|done|done|exact Ex].
      rewrite Es1. by split_and!.
    - by split_and!. }
  assert (Hstay : squashPC sig (fetchStatus t) = None ->
    fetchStatus t = nextStatus sig (bool_decide (fe_queue (front s) = [])) (drain (stalls t)) (fetchStatus t) ->
    wp (mret false) Q s1).
  { intros Ea Ex. apply wp_ret. rewrite Ea in HQ. eapply (HQ _ t1); [exact Hp1|by rewrite Es1..|].
    by split_and!. }
  unfold squashPC, nextStatus in *. destruct (cs_squash (fromCommit sig 0)) eqn:Ec.
  { destruct (sg_commit _ _ Hsig Ec) as [a Ea]. rewrite Ea. apply wp_bind. eapply wp_deref; [done|]. by apply Hdo. }
  destruct (cs_trapPending (fromCommit sig 0)) eqn:Et; [by apply Hgo|].
  apply wp_bind. eapply wp_thr; [exact H1|]. change (fetchStatus t1) with (fetchStatus t).
  destruct (ds_squash (fromDecode sig 0) && negb (bool_decide (fetchStatus t = Squashing))) eqn:Ed.
  { apply andb_true_iff in Ed as [Ed _]. destruct (sg_decode _ _ Hsig Ed) as [a Ea]. rewrite Ea.
    apply wp_bind. eapply wp_deref; [done|]. by apply Hdo. }
  apply wp_bind. eapply wp_checkStall; [exact H1|]. change (drain (stalls t1)) with (drain (stalls t)).
  assert (Hask : fe_isEmpty 0 (front s1) = Ok (bool_decide (fe_queue (front s) = []), front s1)).
  { destruct (tk_front _ _ _ _ _ _ _ _ _ H1) as [Hf _]. rewrite (fe_isEmpty_ok _ _ Hf). by rewrite Es1. }
  destruct (drain (stalls t) && negb (keepsWaiting (fetchStatus t))) eqn:Edr; [by apply Hgo|].
  destruct (bool_decide (fetchStatus t = Blocked) || bool_decide (fetchStatus t = Squashing)) eqn:Ebs.
  - rewrite Hdec. apply wp_bind. eapply wp_ask; [exact H1|exact Hask|]. intros s2 ->. by apply Hgo.
  - destruct (bool_decide (fetchStatus t = FTQEmpty)) eqn:Eq; [|by apply Hstay].
    apply wp_bind. eapply wp_ask; [exact H1|exact Hask|]. intros s2 ->.
    destruct (bool_decide (fe_queue (front s) = [])); [by apply Hstay|by apply Hgo].
Qed.
End Ops.
