(* ===== verification/FetchLoop.v ===== *)
(** * The fetch loop

    The rules of the loops of [fetch], on the invariant of [FetchInv]: every
    instruction they build extends the path, the front end is called as its
    contract asks, and they end. *)

From Stdlib Require Import ZArith Lia.
From stdpp Require Import base list sorting numbers.
From S2P Require Import Prelude Types Ftq Bac BacInv Fetch FetchInv FetchOps.

Section Loop.
Context {F D : Type} `{FC : FrontEndContract F} `{DC : DecoderContract D}.
Context (p : Fetch.FetchParams).
Context (fetchMicroop : SInst -> Z -> SInst) (branching : DynInst -> bool).
Import Fetch.

Abbreviation Thread := (@Thread D).
Abbreviation State := (@State F D).
Abbreviation Trk := (trk p).

Context (Hcfg : fetch_cfg (F:=F) p fetchMicroop).

(** What the parts of the loop leave alone *)
Definition mild (s s' : State) : Prop :=
  instSize s' = instSize s /\ retryPkt s' = retryPkt s /\ retryTid s' = retryTid s /\
  finishTranslationEvent s' = finishTranslationEvent s /\ cacheBlocked s' = cacheBlocked s.

Lemma mild_refl s : mild s s.
Proof. done. Qed.

Lemma mild_trans s1 s2 s3 : mild s1 s2 -> mild s2 s3 -> mild s1 s3.
Proof. unfold mild. intros (? & ? & ? & ? & ?) (? & ? & ? & ? & ?). split_and!; congruence. Qed.

Lemma mild_unblocked (s s' : State) : unblocked s -> mild s s' -> unblocked s'.
Proof. intros (H1 & H2 & H3) (_ & E1 & E2 & E3 & _). unfold unblocked. by rewrite E1, E2, E3. Qed.

Lemma mild_proto t (s s' : State) : proto t s -> mild s s' -> proto t s'.
Proof. intros [P1 P2 P3] (_ & E1 & E2 & E3 & E4). constructor; by rewrite ?E1, ?E2, ?E3, ?E4. Qed.

(** ** The next static instruction *)

Definition decoderSet (t : Thread) (d : option D) : Thread := t <| decoder := d |>.

Lemma wp_setDecoder k s0 t0 new e ip t s d (Q : unit -> State -> Prop) :
  Trk k s0 t0 new e ip t s ->
  (forall s', Trk k s0 t0 new e ip (decoderSet t (Some d)) s' -> mild s s' -> front s' = front s ->
     numInst s' = numInst s -> Q tt s') ->
  wp (setDecoder 0 d) Q s.
Proof.
  intros H HQ. pose proof (tk_issue _ _ _ _ _ _ _ _ _ H) as <-. unfold setDecoder.
  eapply wp_upd; [exact H|destruct H; by constructor|]. intros H1. by apply HQ.
Qed.

Lemma wp_nextStatic k s0 t0 new e ip t s l (Q : option (SInst * bool * Loc) -> State -> Prop) :
  Trk k s0 t0 new e ip t s -> inRom l = isRomMicroPC (microPC (pc t)) ->
  (forall d, decoder t = Some d -> dec_instReady d = false -> curMacroop l = None -> inRom l = false -> Q None s) ->
  (forall i b m o d s', Trk k s0 t0 new e ip (decoderSet t d) s' -> inner_branch (si_flags i) = false ->
     mild s s' -> front s' = front s -> numInst s' = numInst s ->
     Q (Some (i, b, l <| curMacroop := m |> <| pcOffset := o |>)) s') ->
  wp (nextStatic fetchMicroop 0 l) Q s.
Proof.
  intros H Hrom Hnone Hsome. unfold nextStatic. apply wp_bind. eapply wp_thr; [exact H|].
  apply wp_bind. eapply wp_theDecoder; [exact H|]. intros d Hd. apply wp_bind.
  assert (Hself : Trk k s0 t0 new e ip (decoderSet t (Some d)) s).
  { assert (decoderSet t (Some d) = t) as ->; [|done]. unfold decoderSet. destruct t. cbn in *. by rewrite Hd. }
  (* the micro-op at the PC *)
  assert (Hmicro : forall oi l' d' s', Trk k s0 t0 new e ip (decoderSet t (Some d')) s' -> mild s s' ->
    front s' = front s -> numInst s' = numInst s -> inRom l' = inRom l ->
    (exists m o, l' = l <| curMacroop := m |> <| pcOffset := o |>) ->
    (isSome (curMacroop l') || inRom l' = false -> exists i, oi = Some i /\ inner_branch (si_flags i) = false) ->
    wp (if isSome (curMacroop l') || inRom l' then
          d ← theDecoder 0;
          i ← (if inRom l' then lift (dec_fetchRomMicroop (microPC (pc t)) (curMacroop l') d)
               else m ← deref (curMacroop l'); mret (fetchMicroop m (microPC (pc t))));
          mret (Some (i, isLastMicroop (si_flags i), l'))
        else i ← deref oi; mret (Some (i, false, l'))) Q s').
  { intros oi l' d' s' H' Hm Hf Hn Hr (m & o & ->) Hoi. destruct (isSome _ || _) eqn:Eb.
    - apply wp_bind. eapply wp_theDecoder; [exact H'|]. intros d2 _. cbn [inRom setf] in *. apply wp_bind.
      change (inRom (l <| curMacroop := m |> <| pcOffset := o |>)) with (inRom l) in *.
      destruct (inRom l) eqn:Er.
      + destruct (dec_rom (microPC (pc t)) m d2) as (i & Ei & Hi); [by rewrite <- Hrom|].
        eapply wp_lift; [exact Ei|]. apply wp_ret. by eapply Hsome.
      + change (curMacroop (l <| curMacroop := m |> <| pcOffset := o |>)) with m in *.
        destruct m as [m|]; [|done]. apply wp_bind. eapply wp_deref; [done|]. apply wp_ret, wp_ret.
        eapply Hsome; [exact H'|apply Hcfg|done..].
    - destruct (Hoi eq_refl) as (i & -> & Hi). apply wp_bind. eapply wp_deref; [done|]. apply wp_ret. by eapply Hsome. }
  apply wp_if; intros Hb.
  - apply wp_ret. eapply Hmicro; [exact Hself|done|done|done|done| |by rewrite Hb].
    exists (curMacroop l), (pcOffset l). by destruct l.
  - apply orb_false_iff in Hb as [Hb1 Hb2]. assert (Em : curMacroop l = None) by (by destruct (curMacroop l)).
    apply wp_if; intros Hrdy.
    + apply wp_ret, wp_ret. apply negb_true_iff in Hrdy. by eapply Hnone.
    + pose proof (dec_decode_plain (pc t) d) as Hpl. destruct (dec_decode (pc t) d) as [i d'].
      apply wp_bind. eapply wp_setDecoder; [exact H|]. intros s1 H1 Hm1 Hf1 Hn1. apply wp_bind.
      eapply wp_fetchStat; [exact H1|]. intros H2. apply wp_ret.
      destruct (si_isMacroop i).
      * eapply Hmicro; [exact H2|exact Hm1|exact Hf1|exact Hn1|done| |done]. exists (Some i), (pcOffset l). by destruct l.
      * eapply Hmicro; [exact H2|exact Hm1|exact Hf1|exact Hn1|done| |].
        { exists (curMacroop l), 0. by destruct l. }
        { intros _. by exists i. }
Qed.

(** ** The next fetch target *)

Lemma wp_eqn {S A} (m : M S A) (Q : A -> S -> Prop) s :
  wp m Q s -> wp m (fun a s' => Q a s' /\ m s = Ok (a, s')) s.
Proof. unfold wp. by destruct (m s) as [[a s']|]. Qed.

(** The target the loop works on is the head of the queue; it contains the PC,
    unless a branch ends the loop. *)
Definition target_ok (l : Loc) (a : PCStateBase) (f : F) : Prop :=
  match curFT l with
  | Some ft => at_head ft (fe_queue f) /\ (predictedBranch l = true \/ FT.inRange (instAddr a) ft = true)
  | None => True
  end.

Definition follows (l : Loc) (a : PCStateBase) (f : F) : Prop :=
  maxFTPerCycle p <= 1 \/ predictedBranch l = true \/
  forall f2 ft2 f3, fe_popHead 0 f = Ok (true, f2) -> fe_readHead 0 f2 = Ok (Some ft2, f3) ->
    FT.inRange (instAddr a) ft2 = true.

Lemma wp_nextTarget k s0 t0 new e ip t s l ft (Q : Loc -> State -> Prop) :
  Trk k s0 t0 new e ip t s -> at_head ft (fe_queue (front s)) -> curFT l = None -> 0 <= num_ft l ->
  follows l (pc t) (front s) ->
  (forall l' s', Trk k s0 t0 new e ip t s' -> mild s s' -> numInst s' = numInst s -> target_ok l' (pc t) (front s') ->
     next_pc l' = next_pc l -> blkOffset l' = blkOffset l -> inRom l' = inRom l -> quiesce l' = quiesce l ->
     0 <= num_ft l' -> Q l' s') ->
  wp (nextTarget p 0 l) Q s.
Proof.
  intros H (ft' & Hh & _) Hc Hn Hfol HQ. unfold nextTarget. set (l2 := if predictedBranch _ then _ else _).
  assert (Hl2 : next_pc l2 = next_pc l /\ blkOffset l2 = blkOffset l /\ inRom l2 = inRom l /\ quiesce l2 = quiesce l /\
    num_ft l2 = num_ft l + 1 /\ predictedBranch l2 = predictedBranch l /\ curFT l2 = curFT l).
  { unfold l2. destruct (predictedBranch _) eqn:Ep; repeat split; exact Ep. }
  destruct Hl2 as (E1 & E2 & E3 & E4 & E5 & E6 & E7). destruct (tk_front _ _ _ _ _ _ _ _ _ H) as [Hf1 Hf2].
  apply wp_bind. eapply (wp_front p k s0 t0 k new e ip t s _ (fun b f => fe_popHead 0 (front s) = Ok (b, f))); [exact H|lia| |].
  { apply wp_eqn. apply (fe_popHead_ok k); [done..|]. by destruct (fe_queue (front s)). }
  intros b f H1 Eb. destruct b.
  - apply wp_if; intros Hlim.
    + apply wp_bind. apply andb_true_iff in Hlim as [Hlim _]. rewrite E5 in Hlim. apply Z.ltb_lt in Hlim.
      destruct (tk_front _ _ _ _ _ _ _ _ _ H1) as [Hg1 _]. pose proof (fe_readHead_ok k f Hg1) as Er.
      eapply wp_ask; [exact H1|exact Er|]. intros s' ->. apply wp_ret.
      eapply HQ; [exact H1|done|done| |done|done|done|done|cbn; lia].
      unfold target_ok. cbn. destruct (fe_ready f); [|done]. destruct (head (fe_queue f)) as [ft2|] eqn:Ef; [|done].
      split; [by exists ft2|]. rewrite E6. destruct Hfol as [?|[?|Hfol]]; [lia|by left|right]. by eapply Hfol.
    + apply wp_ret. eapply HQ; [exact H1|done|done| |done..|lia]. unfold target_ok. by rewrite E7, Hc.
  - apply wp_ret. eapply HQ; [exact H1|done|done| |done..|cbn; lia]. unfold target_ok. cbn. by rewrite E7, Hc.
Qed.

Lemma wp_blockOffset k s0 t0 new e ip t s a (Q : Z -> State -> Prop) :
  Trk k s0 t0 new e ip t s -> (forall b, 0 <= b -> Q b s) -> wp (blockOffset 0 a) Q s.
Proof.
  intros H HQ. unfold blockOffset. apply wp_bind. eapply wp_thr; [exact H|]. apply wp_bind, wp_gets.
  pose proof (tk_size _ _ _ _ _ _ _ _ _ H). destruct (instSize s =? 0) eqn:E; [lia|]. apply wp_ret, HQ.
  apply u32_range.
Qed.

Lemma wp_advance k s0 t0 new next ip t s a nm l (Q : Loc -> State -> Prop) :
  Trk k s0 t0 new next ip t s -> 0 <= blkOffset l ->
  (forall l' s', Trk k s0 t0 new next ip (t <| pc := next |>) s' -> mild s s' -> numInst s' = numInst s ->
     front s' = front s -> next_pc l' = next_pc l -> 0 <= blkOffset l' ->
     inRom l' = isRomMicroPC (microPC next) -> quiesce l' = quiesce l -> num_ft l' = num_ft l ->
     predictedBranch l' = predictedBranch l ->
     curFT l' = (match curFT l with
                 | Some ft => if FT.inRange (instAddr next) ft then Some ft else None
                 | None => None
                 end) -> Q l' s') ->
  wp (advance 0 a next nm l) Q s.
Proof.
  intros H Hb HQ. pose proof (tk_issue _ _ _ _ _ _ _ _ _ H) as <-. unfold advance. apply wp_bind.
  eapply wp_theDecoder; [exact H|]. intros d _. apply wp_bind. eapply wp_upd; [exact H|destruct H; by constructor|].
  intros H1. apply wp_bind. set (l1 := l <| inRom := _ |>).
  assert (Hend : forall l2 s', s' = s <| threads ::= alter (fun t => t <| pc := next |>) 0%nat |> ->
    next_pc l2 = next_pc l -> 0 <= blkOffset l2 -> inRom l2 = isRomMicroPC (microPC next) -> quiesce l2 = quiesce l ->
    num_ft l2 = num_ft l -> predictedBranch l2 = predictedBranch l -> curFT l2 = curFT l ->
    wp (mret (match curFT l2 with
              | Some ft => if FT.inRange (instAddr next) ft then l2 else l2 <| curFT := None |>
              | None => l2
              end)) Q s').
  { intros l2 s' -> E1 E2 E3 E4 E5 E6 E7. apply wp_ret. rewrite E7.
    destruct (curFT l) as [ft|] eqn:Ec; [destruct (FT.inRange (instAddr next) ft)|];
      (eapply HQ; [exact H1|done..|]); [exact E7|done|exact E7]. }
  apply wp_if; intros _.
  - apply wp_bind. eapply wp_blockOffset; [exact H1|]. intros b Hb'. apply wp_ret. by apply Hend.
  - apply wp_ret. by apply Hend.
Qed.

(** ** One instruction *)

(** The local variables agree with the thread. *)
Record loc_ok (l : Loc) (t : Thread) (s : State) : Prop := {
  lo_next : next_pc l = pc t;
  lo_blk : 0 <= blkOffset l;
  lo_rom : inRom l = isRomMicroPC (microPC (pc t));
  lo_ft : target_ok l (pc t) (front s);
  lo_num : 0 <= num_ft l;
  lo_status : fetchStatus t = if quiesce l then QuiescePending else Running
}.

(** The inner loop may build an instruction. *)
Record room (l : Loc) (t : Thread) (s : State) : Prop := {
  rm_quiesce : quiesce l = false;
  rm_ready : fe_ready (front s) = true;
  rm_ft : exists ft, curFT l = Some ft /\ FT.inRange (instAddr (pc t)) ft = true;
  rm_num : numInst s < fetchWidth p;
  rm_queue : Z.of_nat (length (fetchQueue t)) < fetchQueueSize p
}.

(** The result of an instruction: it is on the path, and the loop goes on only
    where there is room. *)
Definition built (k : Z) (s0 : State) (t0 : Thread) (new : list FInst) (ip : bool) (s : State)
    (r : Loc * bool) (s' : State) : Prop :=
  exists x t' e, Trk (k + 1) s0 t0 (new ++ [x]) e ip t' s' /\ pc t' = e /\ mild s s' /\
    numInst s' = numInst s + 1 /\ loc_ok (fst r) t' s' /\ (snd r = true -> room (fst r) t' s').

(** After the PC has moved: quiesce, the next target, or the test of the loop *)
Lemma wp_endOfInst k s0 t0 new x e ip t s ft l i (Q : Loc * bool -> State -> Prop) :
  Trk (k + 1) s0 t0 (new ++ [x]) e ip t s -> pc t = e -> loc_ok l t s -> quiesce l = false ->
  at_head ft (fe_queue (front s)) -> (curFT l = None -> follows l e (front s)) ->
  (forall ft', curFT l = Some ft' -> FT.inRange (instAddr e) ft' = true /\ fe_ready (front s) = true) ->
  (forall r s', (exists t', Trk (k + 1) s0 t0 (new ++ [x]) e ip t' s' /\ pc t' = e /\ mild s s' /\
     numInst s' = numInst s /\ loc_ok (fst r) t' s' /\ (snd r = true -> room (fst r) t' s')) -> Q r s') ->
  wp (if si_isQuiesce i then
        setStatus 0 QuiescePending ;;
        mret (l <| lc_change := true |> <| quiesce := true |>, false)
      else if decoupledFrontEnd p && negb (isSome (curFT l)) then
        l ← nextTarget p 0 l; mret (l, false)
      else
        d ← theDecoder 0;
        t ← thr 0;
        n ← gets numInst;
        mret (l, (isSome (curMacroop l) || dec_instReady d) && (n <? fetchWidth p) &&
                 (Z.of_nat (length (fetchQueue t)) <? fetchQueueSize p))) Q s.
Proof.
  intros H He Hl Hq Hh Hfol Hin HQ. destruct Hl as [L1 L2 L3 L4 L5 L6]. apply wp_if; intros _.
  { apply wp_bind. eapply wp_setFetchStatus; [exact H|]. intros H1. apply wp_ret, HQ.
    exists (t <| fetchStatus := QuiescePending |>). split_and!; [exact H1|exact He|done|done| |done]. by constructor. }
  rewrite (cf_decoupled _ _ Hcfg). cbn [andb]. destruct (curFT l) as [ft'|] eqn:Ec; cbn [isSome negb].
  - apply wp_bind. eapply wp_theDecoder; [exact H|]. intros d _. apply wp_bind. eapply wp_thr; [exact H|].
    apply wp_bind, wp_gets, wp_ret, HQ. exists t. split_and!; [exact H|done|done|done|by constructor|].
    cbn [snd fst]. intros Hb. apply andb_true_iff in Hb as [[_ Hb1%Z.ltb_lt]%andb_true_iff Hb2%Z.ltb_lt].
    destruct (Hin ft' eq_refl). constructor; try done. exists ft'. split; [done|]. by rewrite He.
  - apply wp_bind. eapply wp_nextTarget; [exact H|exact Hh|exact Ec|done|rewrite He; by apply Hfol|].
    intros l' s' H1 Hm En Ht' E1 E2 E3 E4 E5. apply wp_ret, HQ. exists t.
    split_and!; [exact H1|done|done|done| |done]. constructor; cbn [fst]; try congruence. by rewrite E4, Hq, L6, Hq.
Qed.

Lemma wp_whenStat k s0 t0 new e ip t s b x (Q : unit -> State -> Prop) :
  Trk k s0 t0 new e ip t s ->
  (forall s', Trk k s0 t0 new e ip t s' -> mild s s' -> numInst s' = numInst s -> front s' = front s -> Q tt s') ->
  wp (when b (stat x)) Q s.
Proof. intros H HQ. apply wp_when; intros _; [eapply wp_fetchStat; [exact H|]; intros H1|]; by apply HQ. Qed.

(** The front end is asked for the PC after the instruction [x]. *)
Lemma wp_askNextPC k s0 t0 new x e ip t s ft (Q : bool * PCStateBase * option FetchTarget -> State -> Prop) :
  Trk (k + 1) s0 t0 (new ++ [x]) e ip t s -> fe_ok k (front s) -> fe_older (di_seqNum (fi_inst x)) (front s) ->
  di_seqNum (fi_inst x) + 1 <= c_instSeq s -> k + 1 < fe_limit -> at_head ft (fe_queue (front s)) ->
  fe_ready (front s) = true -> FT.inRange (instAddr e) ft = true -> di_threadNumber (fi_inst x) = 0 ->
  inner_branch (di_staticInst (fi_inst x)) = false ->
  (forall r f, Trk (k + 1) s0 t0 (new ++ [x]) e ip t (s <| front := f |>) -> at_head ft (fe_queue f) ->
     (snd r = None \/ snd r = Some ft /\ fe_ready f = true) ->
     fe_updatePC (fi_inst x) e (Some ft) (front s) = Ok (r, f) -> Q r (s <| front := f |>)) ->
  wp (zoom front (fe_updatePC (fi_inst x) e (Some ft))) Q s.
Proof.
  intros H Hok Hold Hseq Hk Hh Hr Hin Ht Hp HQ.
  eapply (wp_front p (k + 1) s0 t0 (k + 1) _ _ _ _ s _ (fun r f => at_head ft (fe_queue f) /\
    (snd r = None \/ snd r = Some ft /\ fe_ready f = true) /\ fe_updatePC (fi_inst x) e (Some ft) (front s) = Ok (r, f)));
    [exact H|lia| |].
  - eapply wp_mono; [by apply wp_eqn, (fe_updatePC_ok k (front s))|].
    intros r f ((Ho1 & Ho2 & Ho3 & Ho4) & Eq). split; [split; [done|by eapply fe_older_mono]|done].
  - intros r f H1 (Hh1 & Hft1 & Eup). by apply HQ.
Qed.

Lemma wp_fetchOne k s0 t0 new e ip t s l (Q : Loc * bool -> State -> Prop) :
  Trk k s0 t0 new e ip t s -> pc t = e -> loc_ok l t s -> room l t s -> k + 1 < fe_limit ->
  (forall d, decoder t = Some d -> dec_instReady d = false -> curMacroop l = None -> inRom l = false ->
     Q (l, false) s) ->
  (forall r s', built k s0 t0 new ip s r s' -> Q r s') ->
  wp (fetchOne p fetchMicroop branching 0 l) Q s.
Proof.
  intros H He [L1 L2 L3 L4 L5 L6] [R1 R2 (ft & R3 & R4) R5 R6] Hk Hnone HQ. unfold fetchOne. apply wp_bind.
  eapply wp_nextStatic; [exact H|exact L3| |].
  { intros d Hd Hr Hm Hrom. apply wp_ret. by eapply Hnone. }
  intros i nm m o d s1 H1 Hplain Hm1 Ef1 En1. set (l1 := l <| curMacroop := m |> <| pcOffset := o |>).
  apply wp_bind. eapply wp_thr; [exact H1|]. change (pc (decoderSet t d)) with (pc t).
  change (next_pc l1) with (next_pc l). rewrite L1, He. apply wp_bind.
  eapply wp_buildInst; [exact H1|exact He|by rewrite En1|exact R6|exact Hk|].
  intros x t2 s2 H2 Ex Et2 Hok2 Hold2 Ef2 En2 E1 E2 E3 E4 E5. apply wp_bind. eapply wp_call; [exact H2|].
  intros H3. apply wp_bind, wp_modify.
  match type of H3 with trk _ _ _ _ _ _ _ _ ?a => set (s3 := a <| numInst ::= Z.succ |>) end.
  assert (H4 : Trk (k + 1) s0 t0 (new ++ [x]) e ip t2 s3).
  { destruct H3. constructor; try done. unfold s3. cbn in *. lia. }
  assert (Hm3 : mild s s3). { eapply mild_trans; [exact Hm1|]. by split_and!. }
  assert (En3 : numInst s3 = numInst s + 1). { unfold s3. cbn. by rewrite En2, En1. }
  assert (Eft : front s3 = front s). { unfold s3. cbn. by rewrite Ef2, Ef1. }
  apply wp_bind. cbn beta. set (l2 := l1 <| predictedBranch ::= _ |>). change (curFT l2) with (curFT l). rewrite R3.
  assert (Hhd : at_head ft (fe_queue (front s))). { unfold target_ok in L4. rewrite R3 in L4. apply L4. }
  eapply (wp_askNextPC k s0 t0 new x e); rewrite ?Eft; [exact H4|by rewrite <- Ef1, <- Ef2| | |exact Hk|exact Hhd|exact R2|by rewrite <- He|by rewrite Ex|by rewrite Ex|].
  { rewrite Ex. cbn. by rewrite <- Ef1, <- Ef2. }
  { rewrite Ex. cbn [fi_inst di_seqNum]. destruct (tk_seq _ _ _ _ _ _ _ _ _ H1) as (_ & Q2 & _).
    destruct (tk_seq _ _ _ _ _ _ _ _ _ H4) as (_ & Q4 & _). rewrite Q4, Q2, length_app. cbn. lia. }
  intros [[taken next] o'] f H5 Hh5 Hft5 Eup. cbn [snd] in Hft5. apply wp_bind.
  eapply wp_setInst; [exact H5|done|]. intros t6 s6 H6 Et6 Es6. cbn [fi_predPC setf] in H6. apply wp_bind.
  set (l3 := l2 <| next_pc := next |> <| predictedBranch ::= orb taken |> <| curFT := o' |>).
  set (x6 := x <| fi_predPC := next |> <| fi_predTaken := taken |>) in *.
  eapply wp_whenStat; [exact H6|]. intros s7 H7 Hm7 En7 Ef7. apply wp_bind.
  eapply wp_whenStat; [exact H7|]. intros s8 H8 Hm8' En8' Ef8'. apply wp_bind.
  assert (Hm8 : mild s s8).
  { eapply mild_trans; [exact Hm3|]. eapply mild_trans; [|exact Hm8']. eapply mild_trans; [|exact Hm7]. by rewrite Es6. }
  assert (En8 : numInst s8 = numInst s + 1) by (rewrite En8', En7, Es6; exact En3).
  assert (Ef8 : front s8 = f) by (by rewrite Ef8', Ef7, Es6).
  eapply wp_advance; [exact H8|exact L2|]. intros l9 s9 H9 Hm9 En9 Ef9 G1 G2 G3 G4 G5 G6 G7.
  change (quiesce l3) with (quiesce l) in G4. change (num_ft l3) with (num_ft l) in G5.
  change (next_pc l3) with next in G1. change (curFT l3) with o' in G7.
  assert (Hhd9 : at_head ft (fe_queue (front s9))) by (by rewrite Ef9, Ef8).
  assert (Hst6 : fetchStatus t6 = fetchStatus t) by (by rewrite Et6, Et2).
  assert (Hft9 : forall ft', curFT l9 = Some ft' -> ft' = ft /\ FT.inRange (instAddr next) ft = true /\ fe_ready (front s9) = true).
  { intros ft' Ec. rewrite Ec in G7. destruct Hft5 as [->|[-> Hr]]; [done|].
    destruct (FT.inRange (instAddr next) ft); [|done]. injection G7 as ->. by rewrite Ef9, Ef8. }
  eapply (wp_endOfInst k s0 t0 new x6 next ip (t6 <| pc := next |>) s9 ft l9); [exact H9|done| |by rewrite G4|exact Hhd9| | |].
  - constructor; [exact G1|exact G2|exact G3| |by rewrite G5|cbn; by rewrite Hst6, L6, G4].
    unfold target_ok. destruct (curFT l9) as [ft'|] eqn:Ec; [|done]. destruct (Hft9 ft' eq_refl) as (-> & ? & _). by split; [|right].
  - intros Ec. unfold follows. destruct (cf_targets _ _ Hcfg) as [?|Hcont]; [by left|right].
    destruct (predictedBranch l9) eqn:Ep; [by left|right]. intros f2 ft2 f3 Hpop Hrd. rewrite Ef9, Ef8 in Hpop.
    assert (Etk : taken = false). { cbn in G6. by destruct taken. }
    rewrite Etk in Eup. eapply (Hcont k (front s) (fi_inst x) e ft next o' f f2 ft2 f3); try done.
    + by rewrite <- Ef1, <- Ef2.
    + by rewrite <- He.
    + rewrite Ec in G7. destruct o' as [fo|]; [|done]. by destruct (FT.inRange (instAddr next) fo).
  - intros ft' Ec. by destruct (Hft9 ft' Ec) as (-> & ? & ?).
  - intros r s' (t' & X1 & X2 & X3 & X4 & X5 & X6). apply HQ. exists x6, t', next.
    split_and!; [exact X1|exact X2| |by rewrite X4, En9|exact X5|exact X6].
    eapply mild_trans; [exact Hm8|]. by eapply mild_trans.
Qed.

(** ** The loops *)

(** Instructions were added from [s] on. *)
Definition ran (k : Z) (s0 : State) (t0 : Thread) (new : list FInst) (ip : bool) (s : State) (n : Z)
    (l : Loc) (s' : State) : Prop :=
  exists more t' e, Trk (k + Z.of_nat (length more)) s0 t0 (new ++ more) e ip t' s' /\ pc t' = e /\ mild s s' /\
    numInst s' = numInst s + Z.of_nat (length more) /\ n <= Z.of_nat (length more) /\ loc_ok l t' s'.

Lemma ran_more k s0 t0 new ip s r s1 n l s2 x t1 e1 :
  Trk (k + 1) s0 t0 (new ++ [x]) e1 ip t1 s1 -> mild s s1 -> numInst s1 = numInst s + 1 -> r = s1 ->
  ran (k + 1) s0 t0 (new ++ [x]) ip s1 n l s2 -> ran k s0 t0 new ip s (n + 1) l s2.
Proof.
  intros H Hm En -> (more & t' & e & H1 & H2 & H3 & H4 & H5 & H6). exists (x :: more), t', e.
  cbn [length]. rewrite Nat2Z.inj_succ.
  replace (k + Z.succ (Z.of_nat (length more))) with (k + 1 + Z.of_nat (length more)) by lia.
  replace (new ++ x :: more) with ((new ++ [x]) ++ more) by (by rewrite <- app_assoc).
  split_and!; [exact H1|exact H2|by eapply mild_trans|lia|lia|exact H6].
Qed.

Lemma wp_fetchInsts fuel : forall k s0 t0 new e ip t s l (Q : Loc -> State -> Prop),
  Trk k s0 t0 new e ip t s -> pc t = e -> loc_ok l t s -> room l t s ->
  fetchWidth p - numInst s <= Z.of_nat fuel -> k + (fetchWidth p - numInst s) < fe_limit ->
  (forall d, decoder t = Some d -> dec_instReady d = false -> curMacroop l = None -> inRom l = false -> Q l s) ->
  (forall l' s', ran k s0 t0 new ip s 1 l' s' -> Q l' s') ->
  wp (fetchInsts p fetchMicroop branching fuel 0 l) Q s.
Proof.
  induction fuel as [|fuel IH]; intros k s0 t0 new e ip t s l Q H He Hl Hr Hf Hk Hnone HQ.
  { pose proof (rm_num _ _ _ Hr). lia. }
  pose proof (rm_num _ _ _ Hr) as Hn. cbn [fetchInsts]. apply wp_bind.
  eapply wp_fetchOne; [exact H|exact He|exact Hl|exact Hr|lia| |].
  { intros d H1 H2 H3 H4. cbn [snd fst]. apply wp_ret. by eapply Hnone. }
  intros [l1 b] s1 (x & t1 & e1 & H1 & He1 & Hm1 & En1 & Hl1 & Hr1). cbn [fst snd] in *.
  assert (Hone : ran k s0 t0 new ip s 1 l1 s1).
  { exists [x], t1, e1. split_and!; [exact H1|done|done|exact En1|done|done]. }
  destruct b; [|by apply wp_ret, HQ].
  eapply IH; [exact H1|exact He1|exact Hl1|by apply Hr1|lia|lia| |].
  - intros d _ _ _ _. by apply HQ.
  - intros l' s' Hran. apply HQ. destruct (ran_more k s0 t0 new ip s s1 s1 1 l' s' x t1 e1 H1 Hm1 En1 eq_refl Hran)
      as (more & t' & e' & X1 & X2 & X3 & X4 & X5 & X6). exists more, t', e'. split_and!; try done. lia.
Qed.

(** The number of chunks of the fetch buffer *)
Definition chunks (s : State) : Z := fetchBufferSize p / instSize s.

Lemma wp_feedDecoder k s0 t0 new e ip t s l (Q : option Loc -> State -> Prop) :
  Trk k s0 t0 new e ip t s -> 0 <= blkOffset l -> Q None s ->
  (forall b o d s', Trk k s0 t0 new e ip (decoderSet t (Some d)) s' -> mild s s' -> front s' = front s ->
     numInst s' = numInst s -> 0 <= b ->
     inRom l = true \/ isSome (curMacroop l) = true \/ dec_instReady d = true \/
       blkOffset l < chunks s /\ b = blkOffset l + 1 ->
     Q (Some (l <| blkOffset := b |> <| pcOffset := o |>)) s') ->
  wp (feedDecoder p 0 l) Q s.
Proof.
  intros H Hb Hnone HQ. unfold feedDecoder. apply wp_bind. eapply wp_thr; [exact H|].
  apply wp_bind. eapply wp_theDecoder; [exact H|]. intros d Hd. apply wp_bind, wp_gets.
  apply wp_if; intros Hneed.
  { apply wp_ret. replace l with (l <| blkOffset := blkOffset l |> <| pcOffset := pcOffset l |>) by (by destruct l).
    eapply (HQ _ _ d); [|done..|].
    - assert (decoderSet t (Some d) = t) as ->; [|done]. unfold decoderSet. destruct t. cbn in *. by rewrite Hd.
    - destruct (inRom l), (isSome (curMacroop l)), (dec_instReady d); cbn in Hneed; auto; done. }
  apply wp_if; intros _; [by apply wp_ret|]. apply wp_if; intros Hblk; [by apply wp_ret|].
  apply Z.leb_gt in Hblk. pose proof (tk_size _ _ _ _ _ _ _ _ _ H) as Hsz.
  pose proof (cf_buffer _ _ Hcfg) as Hbuf.
  set (n := instSize s) in *. pose proof (Z.mul_div_le (fetchBufferSize p) n ltac:(lia)) as Hle.
  assert (Hend : blkOffset l * n + n <= fetchBufferSize p) by nia.
  apply wp_bind. set (bytes := take _ _). eapply wp_at_index.
  { rewrite bool_decide_true; [done|]. unfold bytes. rewrite length_take, length_drop, (tk_buf _ _ _ _ _ _ _ _ _ H). nia. }
  set (d' := dec_moreBytes _ _ _ _). apply wp_bind. eapply wp_setDecoder; [exact H|]. intros s1 H1 Hm1 Ef1 En1.
  apply wp_ret. pose proof (dec_progress bytes (pc t) (Z.land (u64 (instAddr (pc t) + pcOffset l)) (dec_pcMask d)) d) as Hp.
  assert (Hsmall : fetchBufferSize p / n <= fetchBufferSize p) by (apply Z.div_le_upper_bound; nia).
  fold d' in Hp. destruct (dec_needMoreBytes d') eqn:Em.
  - eapply (HQ _ _ d'); [exact H1|exact Hm1|exact Ef1|exact En1|apply u32_range|]. right. right. right.
    split; [exact Hblk|]. apply u32_small. lia.
  - rewrite orb_false_r in Hp.
    replace l with (l <| blkOffset := blkOffset l |> <| pcOffset := pcOffset l |>) by (by destruct l).
    eapply (HQ _ _ d'); [exact H1|exact Hm1|exact Ef1|exact En1|exact Hb|]. by right; right; left.
Qed.

(** What the loop still may do: instructions, then chunks *)
Definition measure (l : Loc) (s : State) : Z :=
  (fetchWidth p - numInst s) * (chunks s + 1) + Z.max 0 (chunks s - blkOffset l).

Lemma wp_fetchLoop fuel : forall k s0 t0 new e ip t s l (Q : Loc -> State -> Prop),
  Trk k s0 t0 new e ip t s -> pc t = e -> loc_ok l t s ->
  measure l s < Z.of_nat fuel -> k + (fetchWidth p - numInst s) < fe_limit ->
  (forall l' s', ran k s0 t0 new ip s 0 l' s' -> Q l' s') ->
  wp (fetchLoop p fetchMicroop branching fuel 0 l) Q s.
Proof.
  induction fuel as [|fuel IH]; intros k s0 t0 new e ip t s l Q H He Hl Hms Hk HQ;
    pose proof (tk_num _ _ _ _ _ _ _ _ _ H) as Hnum; pose proof (tk_size _ _ _ _ _ _ _ _ _ H) as Hsz;
    assert (Hch : 0 <= chunks s) by (apply Z.div_pos; [pose proof (cf_buffer _ _ Hcfg)|]; lia).
  { exfalso. unfold measure in Hms. cbn in Hms. nia. }
  assert (Hstop : Q l s).
  { apply HQ. exists [], t, e. rewrite app_nil_r. cbn. rewrite !Z.add_0_r. by split_and!. }
  cbn [fetchLoop]. apply wp_bind. eapply wp_thr; [exact H|]. apply wp_bind, wp_gets.
  apply wp_if; intros Hc; [by apply wp_ret|].
  apply negb_false_iff, andb_true_iff in Hc as [[[Hc1%Z.ltb_lt Hc2%Z.ltb_lt]%andb_true_iff Hc3%negb_true_iff]%andb_true_iff Hc4%negb_true_iff].
  rewrite (cf_decoupled _ _ Hcfg). destruct (tk_front _ _ _ _ _ _ _ _ _ H) as [Hf1 _]. apply wp_bind, wp_bind.
  eapply wp_ask; [exact H|by apply (fe_isReady_ok k)|]. intros s' ->. apply wp_ret.
  destruct (fe_ready (front s)) eqn:Erd; cbn [negb orb]; [|by apply wp_ret].
  destruct (curFT l) as [ft|] eqn:Eft; cbn [isSome negb]; [|by apply wp_ret].
  pose proof (lo_ft _ _ _ Hl) as Htg. unfold target_ok in Htg. rewrite Eft in Htg. destruct Htg as [Hh [Hx|Hin]]; [by rewrite Hx in Hc3|].
  apply wp_bind, wp_massert; [done|]. apply wp_bind.
  eapply wp_feedDecoder; [exact H|apply Hl|by apply wp_ret|]. intros b o d s1 H1 Hm1 Ef1 En1 Hb Hprog.
  set (l1 := l <| blkOffset := b |> <| pcOffset := o |>) in *.
  assert (Hl1 : loc_ok l1 (decoderSet t (Some d)) s1).
  { destruct Hl. constructor; try done. by rewrite Ef1. }
  assert (Hr1 : room l1 (decoderSet t (Some d)) s1).
  { constructor; [done|by rewrite Ef1|by exists ft|by rewrite En1|done]. }
  assert (Hch1 : chunks s1 = chunks s). { unfold chunks. by destruct Hm1 as (-> & _). }
  (* the next round, from a state with [m] more instructions *)
  assert (Hagain : forall more t2 e2 l2 s2, Trk (k + Z.of_nat (length more)) s0 t0 (new ++ more) e2 ip t2 s2 ->
    pc t2 = e2 -> mild s s2 -> numInst s2 = numInst s + Z.of_nat (length more) -> loc_ok l2 t2 s2 ->
    measure l2 s2 < measure l s ->
    wp (t ← thr 0; fetchLoop p fetchMicroop branching fuel 0 (l2 <| inRom := isRomMicroPC (microPC (pc t)) |>)) Q s2).
  { intros more t2 e2 l2 s2 X1 X2 X3 X4 X5 X6. apply wp_bind. eapply wp_thr; [exact X1|].
    eapply IH; [exact X1|exact X2| | |lia|].
    - destruct X5. by constructor.
    - change (measure (l2 <| inRom := isRomMicroPC (microPC (pc t2)) |>) s2) with (measure l2 s2). lia.
    - intros l' s' (m2 & t' & e' & Y1 & Y2 & Y3 & Y4 & Y5 & Y6). apply HQ. exists (more ++ m2), t', e'.
      rewrite length_app, Nat2Z.inj_add, Z.add_assoc, app_assoc.
      split_and!; [exact Y1|exact Y2|by eapply mild_trans|lia|lia|exact Y6]. }
  apply wp_bind. eapply wp_fetchInsts; [exact H1|exact He|exact Hl1|exact Hr1|lia|lia| |].
  - intros d0 [= <-] Hrdy Hmac Hrom. change (curMacroop l1) with (curMacroop l) in Hmac.
    change (inRom l1) with (inRom l) in Hrom.
    eapply (Hagain [] _ e l1 s1); [by rewrite app_nil_r, Z.add_0_r|exact He|exact Hm1|cbn; lia|exact Hl1|].
    rewrite Hrom, Hmac in Hprog. destruct Hprog as [?|[?|[?|[Hlt ->]]]]; [done|done|congruence|].
    unfold measure. rewrite Hch1, En1. change (blkOffset l1) with (blkOffset l + 1). lia.
  - intros l2 s2 (more & t2 & e2 & X1 & X2 & X3 & X4 & X5 & X6).
    assert (Hm2 : mild s s2) by (by eapply mild_trans).
    eapply (Hagain more t2 e2 l2 s2); [exact X1|exact X2|exact Hm2|lia|exact X6|].
    unfold measure. assert (Hch2 : chunks s2 = chunks s) by (unfold chunks; by destruct Hm2 as (-> & _)).
    rewrite Hch2, X4, En1. pose proof (lo_blk _ _ _ X6). nia.
Qed.
End Loop.
