(* ===== verification/FetchTick.v ===== *)
(** * A cycle of the fetch stage

    The rules of [fetch] and [tick], on the invariant of [FetchInv]. *)

From Stdlib Require Import ZArith Lia.
From stdpp Require Import base list sorting numbers.
From S2P Require Import Prelude Types Ftq Bac BacInv Fetch FetchInv FetchOps FetchLoop.

Section Tick.
Context {F D : Type} `{FC : FrontEndContract F} `{DC : DecoderContract D}.
Context (p : Fetch.FetchParams).
Context (nopStaticInst : SInst) (fetchMicroop : SInst -> Z -> SInst) (branching : DynInst -> bool).
Context (translateTiming : Request -> option Translation) (isMemAddr : Addr -> bool)
  (icacheAccepts : nat -> bool) (rands : nat -> Z).
Import Fetch.

Abbreviation Thread := (@Thread D).
Abbreviation State := (@State F D).
Abbreviation Trk := (trk p).

Context (Hcfg : fetch_cfg (F:=F) p fetchMicroop).

(** ** Before the loop *)

Lemma wp_fetchBlocked k s0 t0 new e ip t s (Q : unit -> State -> Prop) :
  Trk k s0 t0 new e ip t s ->
  (forall s', Trk k s0 t0 new e ip t s' -> mild s s' -> numInst s' = numInst s -> Q tt s') ->
  wp fetchBlocked Q s.
Proof.
  intros H HQ. unfold fetchBlocked. apply wp_bind. eapply wp_fetchStat; [exact H|]. intros H1.
  eapply wp_blockCycle; [exact H1|]. intros f H2. by apply HQ.
Qed.

Lemma wp_ftqReady k s0 t0 new e ip t s sc (Q : bool * bool -> State -> Prop) :
  Trk k s0 t0 new e ip t s ->
  (fe_ready (front s) = true -> fe_queue (front s) <> [] -> Q (true, sc) s) ->
  (forall s', Trk k s0 t0 new e ip (t <| fetchStatus := FTQEmpty |>) s' -> mild s s' -> numInst s' = numInst s ->
     fe_ready (front s) = false \/ fe_queue (front s) = [] -> Q (false, true) s') ->
  wp (ftqReady p 0 sc) Q s.
Proof.
  intros H Hyes Hno. unfold ftqReady. rewrite (cf_decoupled _ _ Hcfg). cbn [negb].
  destruct (tk_front _ _ _ _ _ _ _ _ _ H) as [Hf _]. apply wp_bind.
  eapply wp_ask; [exact H|by apply (fe_isHeadReady_ok k)|]. intros s' ->.
  destruct (fe_ready (front s)) eqn:Er; cbn [andb].
  - case_bool_decide; cbn [negb].
    + apply wp_bind. eapply wp_setFetchStatus; [exact H|]. intros H1. apply wp_ret. eapply Hno; [exact H1|done|done|by right].
    + by apply wp_ret, Hyes.
  - apply wp_bind. eapply wp_setFetchStatus; [exact H|]. intros H1. apply wp_ret. eapply Hno; [exact H1|done|done|by left].
Qed.

Lemma wp_bacResteer k s0 t0 new e ip t s a (Q : unit -> State -> Prop) :
  Trk k s0 t0 new e ip t s ->
  (forall c s', Trk k s0 t0 new e ip (t <| toBAC := c |>) s' -> mild s s' -> numInst s' = numInst s -> Q tt s') ->
  wp (bacResteer a 0) Q s.
Proof.
  intros H HQ. pose proof (tk_issue _ _ _ _ _ _ _ _ _ H) as <-. unfold bacResteer. apply wp_bind.
  eapply wp_upd; [exact H|destruct H; by constructor|]. intros H1.
  destruct (tk_front _ _ _ _ _ _ _ _ _ H1) as [Hf1 Hf2].
  eapply (wp_front p k s0 t0 k _ _ _ _ _ _ (fun _ _ => True)); [exact H1|lia| |].
  { eapply wp_mono; [by apply (fe_invalidate_ok k)|]. done. }
  intros [] f H2 _. by eapply HQ.
Qed.

(** What [beginFetch] gives to the loop, or where it stops *)
Definition begun (k : Z) (s0 : State) (t0 : Thread) (new : list FInst) (e : PCStateBase) (ip : bool) (s : State)
    (ft : option FetchTarget) (go : bool) (s' : State) : Prop :=
  if go then exists t', Trk k s0 t0 new e ip t' s' /\ pc t' = e /\ fetchStatus t' = Running /\ unblocked s' /\
    numInst s' = numInst s /\
    exists f, ft = Some f /\ at_head f (fe_queue (front s')) /\ FT.inRange (instAddr e) f = true
  else exists l t', Trk (k + 1) s0 t0 (new ++ l) e ip t' s' /\ pc t' = e /\ proto t' s' /\ faulting p l s t' /\
    numInst s' = numInst s.

Lemma begun_stop k s0 t0 new e ip t s s' ft :
  Trk k s0 t0 new e ip t s' -> pc t = e -> unblocked s' -> numInst s' = numInst s ->
  begun k s0 t0 new e ip s ft false s'.
Proof.
  intros H He Hu En. exists [], t. rewrite app_nil_r.
  split_and!; [eapply trk_mono; [exact H|lia]|done|by apply proto_idle|by left|done].
Qed.

(** The line of the PC is not in the buffer. *)
Lemma wp_missingLine k s0 t0 new e ip t s a b ft sc (Q : option FetchTarget * bool * bool -> State -> Prop) :
  Trk k s0 t0 new e ip t s -> pc t = e -> proto t s -> canFetch (fetchStatus t) = true -> k + 1 < fe_limit ->
  (forall s', begun k s0 t0 new e ip s ft false s' -> Q (ft, sc, false) s') ->
  wp (fetchCacheLine p nopStaticInst translateTiming isMemAddr icacheAccepts a 0 b ;;
      t ← thr 0;
      (match fetchStatus t with
       | IcacheWaitResponse => stat (icacheStallCycles 0)
       | ItlbWait => stat tlbCycles
       | FTQEmpty => fetchBlocked
       | _ => stat miscStallCycles
       end) ;;
      mret (ft, sc, false)) Q s.
Proof.
  intros H He Hp Hc Hk HQ. apply wp_bind. eapply wp_fetchCacheLine; [exact H|exact He|exact Hp|exact Hk|exact Hc|].
  intros _ l t1 s1 H1 Hp1 Hfl En1 Epc. apply wp_bind. eapply wp_thr; [exact H1|]. apply wp_bind.
  apply (wp_mono _ (fun _ s2 => Trk (k + 1) s0 t0 (new ++ l) e ip t1 s2 /\ mild s1 s2 /\ numInst s2 = numInst s1)).
  { destruct (fetchStatus t1); try (eapply wp_fetchStat; [exact H1|]; intros H2; by split_and!).
    eapply wp_fetchBlocked; [exact H1|]. intros s2 H2 Hm2 En2. by split_and!. }
  intros [] s2 (H2 & Hm2 & En2). apply wp_ret, HQ. exists l, t1.
  split_and!; [exact H2|exact Epc|by eapply mild_proto|exact Hfl|lia].
Qed.

Lemma wp_beginFetch k s0 t0 new e ip t s sc (Q : option FetchTarget * bool * bool -> State -> Prop) :
  Trk k s0 t0 new e ip t s -> pc t = e -> proto t s -> canFetch (fetchStatus t) = true -> k + 1 < fe_limit ->
  fe_ready (front s) = true -> fe_queue (front s) <> [] ->
  (forall ft sc' go s', begun k s0 t0 new e ip s ft go s' -> Q (ft, sc', go) s') ->
  wp (beginFetch p nopStaticInst translateTiming isMemAddr icacheAccepts 0 sc) Q s.
Proof.
  intros H He Hp Hc Hk Hrd Hq HQ. pose proof (proto_unblocked t s Hp Hc) as Hu. unfold beginFetch.
  apply wp_bind. eapply wp_thr; [exact H|]. apply wp_bind. eapply wp_theDecoder; [exact H|]. intros d Hd.
  destruct (tk_front _ _ _ _ _ _ _ _ _ H) as [Hf _]. apply wp_bind.
  eapply wp_ask; [exact H|by apply (fe_readHead_ok k)|]. intros s' ->. rewrite Hrd.
  destruct (fe_queue (front s)) as [|ft rest] eqn:Eq; [done|]. cbn [head]. rewrite (cf_decoupled _ _ Hcfg).
  assert (Hask : forall (Q' : bool * bool -> State -> Prop), Q' (true, sc) s -> wp (ftqReady p 0 sc) Q' s).
  { intros Q' HQ'. eapply wp_ftqReady; [exact H|done|]. intros s' _ _ _ [Hx|Hx]; [congruence|by rewrite Eq in Hx]. }
  apply wp_bind, wp_bind, Hask, wp_bind, wp_massert; [done|]. apply wp_bind. eapply wp_deref; [done|]. apply wp_ret.
  apply wp_if; intros Hin.
  { apply wp_bind. eapply wp_bacResteer; [exact H|]. intros c s1 H1 Hm1 En1. apply wp_bind.
    eapply wp_fetchBlocked; [exact H1|]. intros s2 H2 Hm2 En2. apply wp_ret, HQ. eapply begun_stop; [exact H2|done| |lia].
    eapply mild_unblocked; [exact Hu|]. by eapply mild_trans. }
  apply negb_false_iff in Hin. rewrite He in Hin.
  assert (Hgo : forall s', Trk k s0 t0 new e ip (t <| fetchStatus := Running |>) s' -> mild s s' ->
    numInst s' = numInst s -> front s' = front s -> begun k s0 t0 new e ip s (Some ft) true s').
  { intros s' H' Hm' En' Ef'. exists (t <| fetchStatus := Running |>).
    split_and!; [exact H'|exact He|done|by eapply mild_unblocked|exact En'|]. exists ft. split_and!; [done| |exact Hin].
    exists ft. rewrite Ef', Eq. done. }
  assert (Hstat : forall x, wp (stat x ;; mret (Some ft, sc, false)) Q s).
  { intros x. apply wp_bind. eapply wp_fetchStat; [exact H|]. intros H1. apply wp_ret, HQ. by eapply begun_stop. }
  destruct (fetchStatus t) eqn:Est; try done.
  - assert (Hself : t <| fetchStatus := Running |> = t) by (destruct t; cbn in *; by subst).
    rewrite Hself in Hgo. apply wp_bind.
    apply (wp_mono _ (fun r s' => s' = s /\ snd r = sc)).
    { destruct (fetchBufferValid t); [by apply Hask|by apply wp_ret]. }
    intros r s' [-> ->]. apply wp_if; intros _.
    + eapply wp_missingLine; [exact H|exact He|exact Hp|by rewrite Est|exact Hk|]. intros s' Hb. by apply HQ.
    + apply wp_bind, wp_gets, wp_if; intros _; [apply Hstat|]. apply wp_ret, HQ. by apply Hgo.
  - apply wp_bind. eapply wp_setFetchStatus; [exact H|]. intros H1. apply wp_ret, HQ. by apply Hgo.
Qed.

(** ** After the loop *)

Lemma wp_finishFetch k s0 t0 new e ip t s l (Q : unit -> State -> Prop) :
  Trk k s0 t0 new e ip t s -> pc t = e -> fetchStatus t = Running \/ fetchStatus t = QuiescePending ->
  (forall ip' t' s', Trk k s0 t0 new e ip' t' s' -> pc t' = e -> mild s s' -> numInst s' = numInst s ->
     (ip' = true -> fetchStatus t' = Running) -> Q tt s') ->
  wp (finishFetch p 0 l) Q s.
Proof.
  intros H He Hst HQ. unfold finishFetch. apply wp_bind. eapply wp_fetchStat; [exact H|]. intros H1. apply wp_bind.
  eapply wp_thr; [exact H1|]. apply wp_bind.
  apply (wp_mono _ (fun _ s2 => exists c, Trk k s0 t0 new e ip (t <| toBAC := c |>) s2 /\ mild s s2 /\ numInst s2 = numInst s)).
  { apply wp_when; intros _.
    - eapply wp_bacResteer; [exact H1|]. intros c s2 H2 Hm2 En2. by exists c.
    - exists (toBAC t). assert (t <| toBAC := toBAC t |> = t) as -> by (by destruct t). by split_and!. }
  intros [] s2 (c & H2 & Hm2 & En2). pose proof (tk_issue _ _ _ _ _ _ _ _ _ H2) as <-. apply wp_bind.
  eapply wp_upd; [exact H2|destruct H2; by constructor|]. intros H3. apply wp_bind, wp_gets, wp_bind.
  match type of H3 with trk _ _ _ _ _ _ _ ?t3 ?s3 => set (u := t3) in *; set (w := s3) in * end.
  apply (wp_mono _ (fun _ s4 => Trk k s0 t0 new e (issuePipelinedIfetch t) u s4 /\ mild s s4 /\ numInst s4 = numInst s)).
  { apply wp_when; intros _; [|by split_and!]. eapply wp_keep; [exact H3|done|]. intros H4. by split_and!. }
  intros [] s4 (H4 & Hm4 & En4). apply wp_bind. eapply wp_theDecoder; [exact H4|]. intros d _.
  apply wp_bind. eapply wp_thr; [exact H4|]. eapply wp_upd; [exact H4|destruct H4; by constructor|]. intros H5.
  eapply HQ; [exact H5|exact He|exact Hm4|exact En4|].
  intros Hip. cbn in Hip |- *. destruct Hst as [Hst|Hst]; [exact Hst|]. rewrite Hst in Hip. cbn in Hip.
  by rewrite andb_false_r in Hip.
Qed.

Lemma wp_profileStall k s0 t0 new e ip t s (Q : unit -> State -> Prop) :
  Trk k s0 t0 new e ip t s ->
  (forall s', Trk k s0 t0 new e ip t s' -> mild s s' -> numInst s' = numInst s -> Q tt s') ->
  wp (profileStall 0) Q s.
Proof.
  intros H HQ. unfold profileStall. apply wp_bind. eapply wp_thr; [exact H|]. apply wp_bind, wp_gets.
  assert (Hst : forall x, wp (stat x) Q s). { intros x. eapply wp_fetchStat; [exact H|]. intros H1. by apply HQ. }
  apply wp_if; intros _; [apply Hst|]. apply wp_if; intros _; [apply Hst|].
  destruct (fetchStatus t); try apply Hst; try (apply wp_ret; by apply HQ).
  eapply wp_fetchBlocked; [exact H|]. exact HQ.
Qed.

(** What a call of [fetch] does: at most [fetchWidth] instructions, none unless the
    thread can fetch; a line is requested ahead only for a running thread. *)
Definition fetched (k : Z) (s0 : State) (t0 : Thread) (new : list FInst) (t : Thread) (s s' : State) : Prop :=
  exists more t' e ip, Trk (k + fetchWidth p) s0 t0 (new ++ more) e ip t' s' /\ pc t' = e /\ proto t' s' /\
    Z.of_nat (length more) <= fetchWidth p /\ 0 <= numInst s' /\
    (ip = true -> fetchStatus t' = Running /\ Z.of_nat (length more) = numInst s') /\
    (canFetch (fetchStatus t) = false ->
       more = [] /\ t' = t /\ finishTranslationEvent s' = finishTranslationEvent s).

Lemma fetched_idle k s0 t0 new e t s s' t' :
  Trk k s0 t0 new e false t' s' -> pc t' = e -> proto t' s' ->
  (canFetch (fetchStatus t) = false -> t' = t /\ finishTranslationEvent s' = finishTranslationEvent s) -> fetched k s0 t0 new t s s'.
Proof.
  intros H He Hp Hc. pose proof (cf_width _ _ Hcfg). exists [], t', e, false. rewrite app_nil_r.
  split_and!; [eapply trk_mono; [exact H|lia]|exact He|exact Hp|cbn; lia|apply H|done|].
  intros Hx. by split; [|apply Hc].
Qed.

(** The loop with what follows it *)
Lemma wp_fetchBody k s0 t0 new e t s t1 s1 ft sc (Q : bool -> State -> Prop) :
  Trk k s0 t0 new e false t s -> pc t = e -> fetchStatus t = Running -> unblocked s -> numInst s = 0 ->
  at_head ft (fe_queue (front s)) -> FT.inRange (instAddr e) ft = true -> k + fetchWidth p < fe_limit ->
  canFetch (fetchStatus t1) = true ->
  (forall sc' s', fetched k s0 t0 new t1 s1 s' -> Q sc' s') ->
  wp (stat cycles ;;
      t ← thr 0;
      d ← theDecoder 0;
      size ← gets instSize;
      b ← blockOffset 0 (Z.land (u64 (instAddr (pc t) + fetchOffset t)) (dec_pcMask d));
      l ← fetchLoop p fetchMicroop branching (loopFuel p size) 0
            (mkLoc (pc t) (macroop t) false false 0 0 false b (fetchOffset t)
               (isRomMicroPC (microPC (pc t))) (Some ft) sc);
      finishFetch p 0 l ;;
      mret (lc_change l)) Q s.
Proof.
  intros H He Hst Hu Hn Hh Hin Hk Hc1 HQ. apply wp_bind. eapply wp_fetchStat; [exact H|]. intros H1.
  apply wp_bind. eapply wp_thr; [exact H1|]. apply wp_bind. eapply wp_theDecoder; [exact H1|]. intros d _.
  apply wp_bind, wp_gets, wp_bind. eapply wp_blockOffset; [exact H1|]. intros b Hb. apply wp_bind.
  pose proof (cf_width _ _ Hcfg) as Hw. pose proof (cf_buffer _ _ Hcfg) as Hbuf.
  pose proof (tk_size _ _ _ _ _ _ _ _ _ H) as Hsz.
  assert (Hch : 0 <= fetchBufferSize p / instSize s) by (apply Z.div_pos; lia).
  eapply wp_fetchLoop; [exact Hcfg|exact H1|exact He| | |cbn; lia|].
  - constructor; try done. unfold target_ok. cbn. rewrite He. by split; [|right].
  - unfold measure, loopFuel, chunks. cbn [blkOffset].
    assert (E1 : numInst (s <| fstats ::= cons cycles |>) = 0) by exact Hn.
    assert (E2 : instSize (s <| fstats ::= cons cycles |>) = instSize s) by done. rewrite E1, E2.
    rewrite Nat2Z.inj_mul, !Nat2Z.inj_add, !Z2Nat.id by lia. cbn [Z.of_nat Pos.of_succ_nat]. nia.
  - intros l s2 (more & t2 & e2 & X1 & X2 & X3 & X4 & X5 & X6). apply wp_bind.
    assert (En : numInst s2 = Z.of_nat (length more)) by (rewrite X4; cbn; lia).
    pose proof (tk_num _ _ _ _ _ _ _ _ _ X1) as Hnum.
    eapply wp_finishFetch; [exact X1|exact X2| |].
    { pose proof (lo_status _ _ _ X6) as Hs. destruct (quiesce l); auto. }
    intros ip t3 s3 H3 He3 Hm3 En3 Hip. apply wp_ret, HQ.
    assert (Hu3 : unblocked s3). { eapply mild_unblocked; [|exact Hm3]. eapply mild_unblocked; [exact Hu|exact X3]. }
    exists more, t3, e2, ip. split_and!; [eapply trk_mono; [exact H3|lia]|exact He3|by apply proto_idle|lia|lia| |].
    + intros Hx. split; [by apply Hip|lia].
    + by rewrite Hc1.
Qed.

Lemma wp_fetch k s0 t0 new e t s sig sc (Q : bool -> State -> Prop) :
  Trk k s0 t0 new e false t s -> pc t = e -> proto t s -> numInst s = 0 -> c_activeThreads s = [0] ->
  k + fetchWidth p < fe_limit ->
  (forall sc' s', fetched k s0 t0 new t s s' -> Q sc' s') ->
  wp (fetch p nopStaticInst fetchMicroop branching translateTiming isMemAddr icacheAccepts sig sc) Q s.
Proof.
  intros H He Hp Hn Hact Hk HQ. pose proof (cf_width _ _ Hcfg) as Hw. unfold fetch, getFetchingThread.
  rewrite (cf_threads _ _ Hcfg). cbn [Z.ltb Z.compare Pos.compare Pos.compare_cont]. apply wp_bind, wp_bind, wp_gets. rewrite Hact.
  apply wp_bind. eapply wp_thr; [exact H|]. apply wp_ret, wp_bind, wp_gets, wp_bind, wp_massert.
  { by rewrite (tk_on _ _ _ _ _ _ _ _ _ H). }
  destruct (canFetch (fetchStatus t)) eqn:Ec; cbn [Z.eqb InvalidThreadID].
  - apply wp_bind. eapply wp_ftqReady; [exact H| |].
    + intros Hrd Hq. cbn [negb]. apply wp_bind.
      eapply wp_beginFetch; [exact H|exact He|exact Hp|exact Ec|lia|exact Hrd|exact Hq|].
      intros ft sc' go s1 Hb. destruct go; cbn [negb]; unfold begun in Hb.
      * destruct Hb as (t1 & H1 & He1 & Hs1 & Hu1 & En1 & f & -> & Hh & Hin).
        eapply wp_fetchBody; [exact H1|exact He1|exact Hs1|exact Hu1|lia|exact Hh|exact Hin|exact Hk|exact Ec|exact HQ].
      * destruct Hb as (l & t1 & H1 & He1 & Hp1 & Hfl & En1). apply wp_ret, HQ. exists l, t1, e, false.
        split_and!; [eapply trk_mono; [exact H1|lia]|exact He1|exact Hp1| |lia|done|by rewrite Ec].
        destruct Hfl as [->|((x & ->) & ? & _)]; cbn; lia.
    + intros s1 H1 Hm1 En1 _. cbn [negb]. apply wp_bind. eapply wp_fetchBlocked; [exact H1|]. intros s2 H2 Hm2 En2.
      apply wp_ret, HQ. assert (Hm : mild s s2) by (by eapply mild_trans).
      eapply (fetched_idle k s0 t0 new e t s s2); [exact H2|exact He| |by rewrite Ec].
      apply proto_idle. eapply mild_unblocked; [|exact Hm]. by eapply proto_unblocked.
  - apply wp_bind, wp_modify. rewrite (cf_fetching _ _ Hcfg). cbn [Z.eqb Pos.eqb when].
    apply wp_bind. eapply wp_profileStall.
    { instantiate (1 := t). instantiate (1 := false). instantiate (1 := e). instantiate (1 := new).
      instantiate (1 := t0). instantiate (1 := s0). instantiate (1 := k). destruct H. by constructor. }
    intros s1 H1 Hm1 En1. apply wp_ret, HQ. eapply fetched_idle; [exact H1|exact He| |].
    + eapply mild_proto; [|exact Hm1]. destruct Hp. by constructor.
    + by destruct Hm1 as (_ & _ & _ & ? & _).
Qed.

(** ** The next line *)

Lemma wp_pipeline k s0 t0 new e ip t s (Q : unit -> State -> Prop) :
  Trk k s0 t0 new e ip t s -> pc t = e -> proto t s -> (ip = true -> fetchStatus t = Running) -> k + 1 < fe_limit ->
  (forall l t' s', Trk (k + 1) s0 t0 (new ++ l) e ip t' s' -> pc t' = e -> proto t' s' -> faulting p l s t' ->
     numInst s' = numInst s ->
     (ip = false -> l = [] /\ t' = t /\ finishTranslationEvent s' = finishTranslationEvent s) -> Q tt s') ->
  wp (pipelineIcacheAccesses p nopStaticInst translateTiming isMemAddr icacheAccepts 0) Q s.
Proof.
  intros H He Hp Hip Hk HQ. unfold pipelineIcacheAccesses. apply wp_bind. eapply wp_thr; [exact H|].
  assert (Hnone : Q tt s).
  { eapply (HQ [] t); [rewrite app_nil_r; eapply trk_mono; [exact H|lia]|done|done|by left|done|done]. }
  pose proof (tk_issue _ _ _ _ _ _ _ _ _ H) as Hi. rewrite Hi. destruct ip; cbn [negb]; [|by apply wp_ret].
  apply wp_if; intros _; [by apply wp_ret|]. apply wp_bind. eapply wp_theDecoder; [exact H|]. intros d _.
  apply wp_if; intros _; [by apply wp_ret|]. apply wp_bind.
  eapply wp_fetchCacheLine; [exact H|exact He|exact Hp|exact Hk|by rewrite Hip|].
  intros _ l t' s' H1 Hp1 Hfl En Epc. apply wp_ret. eapply HQ; [exact H1|exact Epc|exact Hp1|exact Hfl|exact En|done].
Qed.

(** ** Sending to decode *)

(** A change of the queue and of the slot to decode *)
Definition resent (s s' : State) : Prop :=
  s' = s <| threads := threads s' |> <| sent := sent s' |> <| wroteToTimeBuffer := wroteToTimeBuffer s' |>.

Lemma resent_refl s : resent s s.
Proof. by destruct s. Qed.

Lemma resent_trans s1 s2 s3 : resent s1 s2 -> resent s2 s3 -> resent s1 s3.
Proof. unfold resent. intros H1 H2. rewrite H2, H1. reflexivity. Qed.

Lemma wp_sendInsts fuel : forall s t slot rest n (Q : Z -> State -> Prop),
  threads s !! 0%nat = Some t -> decode (stalls t) = false -> sent s = slot :: rest ->
  0 <= n <= decodeWidth p -> decodeWidth p - n < Z.of_nat fuel ->
  Z.of_nat (length slot) + (decodeWidth p - n) <= MaxWidth ->
  (forall s', let m := Z.to_nat (decodeWidth p - n) in
     threads s' !! 0%nat = Some (t <| fetchQueue := drop m (fetchQueue t) |>) ->
     sent s' = (slot ++ take m (fetchQueue t)) :: rest -> resent s s' ->
     Q (n + Z.of_nat (length (take m (fetchQueue t)))) s') ->
  wp (sendInsts p fuel [0] [0] (Z.of_nat (length (fetchQueue t))) n) Q s.
Proof.
  induction fuel as [|fuel IH]; intros s t slot rest n Q Ht Hd Hs Hn Hf Hw HQ; cbv zeta in HQ; [cbn in Hf; lia|].
  cbn [sendInsts]. apply wp_if; intros Hc.
  - assert (Hstop : take (Z.to_nat (decodeWidth p - n)) (fetchQueue t) = [] /\
      drop (Z.to_nat (decodeWidth p - n)) (fetchQueue t) = fetchQueue t).
    { apply negb_true_iff, andb_false_iff in Hc as [Hc%negb_false_iff%Z.eqb_eq|Hc%Z.ltb_ge].
      - destruct (fetchQueue t); [|cbn in Hc; lia]. by rewrite take_nil, drop_nil.
      - by replace (Z.to_nat (decodeWidth p - n)) with 0%nat by lia. }
    destruct Hstop as [E1 E2]. apply wp_ret. rewrite E1, E2, app_nil_r in HQ. cbn in HQ. rewrite Z.add_0_r in HQ.
    apply HQ; [|done|apply resent_refl]. rewrite Ht. by destruct t.
  - apply negb_false_iff, andb_true_iff in Hc as [Hc1%negb_true_iff%Z.eqb_neq Hc2%Z.ltb_lt].
    destruct (fetchQueue t) as [|x q] eqn:Eq; [done|].
    unfold thr. apply wp_bind, wp_bind, wp_gets. eapply wp_at_index; [exact Ht|]. rewrite Eq, Hd.
    rewrite bool_decide_true by done. unfold toDecode. apply wp_bind, wp_bind, wp_gets. rewrite Hs. cbn [head].
    apply wp_bind. eapply wp_deref; [done|]. apply wp_bind. eapply wp_at_index.
    { rewrite (proj2 (Z.ltb_lt _ _)); [done|]. lia. }
    apply wp_modify, wp_bind, wp_modify, wp_bind. unfold upd, thr. apply wp_bind, wp_bind, wp_gets.
    eapply wp_at_index; [exact Ht|]. apply wp_modify.
    replace (Z.of_nat (length (x :: q)) - 1) with (Z.of_nat (length (fetchQueue (t <| fetchQueue := q |>)))) by (cbn; lia).
    eapply (IH _ (t <| fetchQueue := q |>) (slot ++ [x]) rest); [by apply lookup_upd|exact Hd|cbn -[alter]; by rewrite Hs|lia|lia| |].
    { rewrite length_app. cbn. lia. }
    intros s' m Ht' Hs' Hr'. cbn [fetchQueue setf] in *. unfold m in *.
    assert (Em : Z.to_nat (decodeWidth p - n) = S (Z.to_nat (decodeWidth p - (n + 1)))) by lia.
    rewrite Em in HQ. cbn [take drop] in HQ.
    replace (n + 1 + Z.of_nat (length (take (Z.to_nat (decodeWidth p - (n + 1))) q))) with
      (n + Z.of_nat (length (x :: take (Z.to_nat (decodeWidth p - (n + 1))) q))) by (cbn [length]; lia).
    apply HQ; [exact Ht'|by rewrite Hs', <- app_assoc|]. eapply resent_trans; [|exact Hr']. reflexivity.
Qed.

Definition delivered (t : Thread) : list FInst :=
  if decode (stalls t) then [] else take (Z.to_nat (decodeWidth p)) (fetchQueue t).

Lemma wp_sendToDecode s t rest (Q : Z -> State -> Prop) :
  threads s !! 0%nat = Some t -> c_activeThreads s = [0] -> sent s = [] :: rest ->
  (forall n s', threads s' !! 0%nat = Some (t <| fetchQueue := drop (length (delivered t)) (fetchQueue t) |>) ->
     sent s' = delivered t :: rest -> resent (s <| randPos := randPos s' |>) s' -> Q n s') ->
  wp (sendToDecode p rands) Q s.
Proof.
  intros Ht Ha Hs HQ. unfold sendToDecode, random. apply wp_bind, wp_gets. rewrite Ha. cbn [availableInsts length].
  unfold thr at 1. apply wp_bind, wp_bind, wp_bind, wp_gets. eapply wp_at_index; [exact Ht|].
  apply wp_bind, wp_ret, wp_ret, wp_bind, wp_bind, wp_gets, wp_bind, wp_modify. cbn [Z.of_nat Pos.of_succ_nat Z.eqb].
  apply wp_ret. rewrite Z.mod_1_r. cbn [Z.to_nat drop]. rewrite Z.add_0_r. pose proof (cf_decode _ _ Hcfg) as Hdw.
  unfold delivered in HQ. destruct (decode (stalls t)) eqn:Ed.
  - rewrite Nat.mul_1_l, Nat.add_1_r. cbn [sendInsts Z.eqb negb andb]. apply wp_ret.
    apply HQ; [|done|apply resent_refl]. cbn. rewrite Ht. by destruct t.
  - set (s1 := s <| randPos := _ |>). eapply (wp_sendInsts _ s1 t [] rest 0); [exact Ht|exact Ed|exact Hs|lia|cbn; lia|cbn; lia|].
    cbv zeta. rewrite Z.sub_0_r. intros s' Ht' Hs' Hr'. apply HQ; [|exact Hs'|].
    + rewrite Ht'. do 2 f_equal. rewrite length_take. unfold setf. f_equal.
      destruct (decide (Z.to_nat (decodeWidth p) <= length (fetchQueue t)))%nat as [?|?].
      * by rewrite Nat.min_l.
      * rewrite Nat.min_r by lia. rewrite !drop_ge by lia. done.
    + unfold s1 in Hr'. rewrite Hr'. reflexivity.
Qed.

(** ** The cycle *)

(** The thread after the signals of a cycle *)
Definition settled (sig : Signals) (t : Thread) : Thread :=
  match squashPC sig (fetchStatus t) with
  | Some a => restart a (stalled (fromDecode sig 0) t)
  | None => stalled (fromDecode sig 0) t
  end.

(** Its status *)
Definition settledStatus (sig : Signals) (t : Thread) (s : State) : ThreadStatus :=
  match squashPC sig (fetchStatus t) with
  | Some _ => Squashing
  | None => nextStatus sig (bool_decide (fe_queue (front s) = [])) (drain (stalls t)) (fetchStatus t)
  end.

(** Its request *)
Definition settledReq (sig : Signals) (t : Thread) : option Request :=
  match squashPC sig (fetchStatus t) with Some _ => keptReq t | None => memReq t end.

Lemma tids_one : tids p = [0].
Proof. unfold tids. by rewrite (cf_threads _ _ Hcfg). Qed.

Lemma wp_updateInterrupt k s0 t0 new e ip t s sig (Q : unit -> State -> Prop) :
  Trk k s0 t0 new e ip t s -> (forall s', Trk k s0 t0 new e ip t s' -> mild s s' -> numInst s' = numInst s -> Q tt s') ->
  wp (updateInterrupt p sig) Q s.
Proof.
  intros H HQ. unfold updateInterrupt. apply wp_when; intros _; [|by apply HQ].
  apply wp_bind, wp_when; intros _; [apply wp_modify|]; apply wp_when; intros _; try apply wp_modify.
  all: apply HQ; [eapply trk_keeps; [exact H|done]|done|done].
Qed.

(** The state the fetch loop of a cycle starts from *)
Definition sampled (k : Z) (sig : Signals) (t : Thread) (s : State) (s' : State) : Prop :=
  exists t' e, Trk k s (settled sig t) [] e false t' s' /\ pc t' = e /\ proto t' s' /\ numInst s' = 0 /\
    fetchStatus t' = settledStatus sig t s /\ threadFetched s' = 0 /\
    finishTranslationEvent s' = finishTranslationEvent s /\ memReq t' = settledReq sig t.

Lemma wp_tickSignals {A} k ip t s sig (m : bool -> M State A) (Q : A -> State -> Prop) :
  Trk k s t [] (pc t) ip t s -> proto t s -> numInst s = 0 -> c_activeThreads s = [0] -> signals_ok sig t ->
  (forall f r, finishTranslationEvent s = Some (f, r) -> fetchStatus t = ItlbWait /\ memReq t = Some r) ->
  (forall sc s', sampled k sig t s s' -> wp (m sc) Q s') ->
  wp (modify (fun s => s <| wroteToTimeBuffer := false |>) ;;
      mfor (tids p) (fun i => upd i (fun t => t <| issuePipelinedIfetch := false |>)) ;;
      active ← gets c_activeThreads;
      sc ← checkAll p sig active false;
      updateInterrupt p sig ;;
      modify (fun s => s <| threadFetched := 0 |>) ;;
      m sc) Q s.
Proof.
  intros H Hp Hn Ha Hsig Hev HQ. rewrite tids_one. cbn [mfor]. apply wp_bind. eapply wp_keep; [exact H|done|].
  intros H1. apply wp_bind, wp_bind. eapply wp_upd; [exact H1|destruct H1; by constructor|]. intros H2. apply wp_ret.
  match type of H2 with trk _ _ _ _ _ _ _ ?t2 ?s2 => set (u := t2) in *; set (w := s2) in * end.
  apply wp_bind, wp_gets. change (c_activeThreads w) with (c_activeThreads s). rewrite Ha. cbn [checkAll]. apply wp_bind, wp_bind.
  eapply (wp_fetchSignals p k false u w).
  { eapply trk_rebase; [exact H2|done]. }
  { destruct Hp. by constructor. }
  { destruct Hsig. by constructor. }
  { apply (cf_decoupled _ _ Hcfg). }
  { exact Hev. }
  cbv zeta. intros b t3 s3 Hp3 En3 Ev3 Ef3 H3. apply wp_ret.
  change (fetchStatus u) with (fetchStatus t) in H3.
  assert (H4 : exists e, Trk k s (settled sig t) [] e false t3 s3 /\ pc t3 = e /\ fetchStatus t3 = settledStatus sig t s /\
    memReq t3 = settledReq sig t).
  { unfold settled, settledStatus, settledReq. destruct (squashPC sig (fetchStatus t)) as [a|].
    - destruct H3 as (H3 & Hs & Hpc & Hm). exists a. split_and!; [|done..]. destruct H3. by constructor.
    - destruct H3 as (H3 & Hpc & Hm & Hs). exists (pc t). split_and!; [|done..]. destruct H3. by constructor. }
  destruct H4 as (e & H4 & Hpc & Hs4 & Hm4). apply wp_bind. eapply wp_updateInterrupt; [exact H4|].
  intros s5 H5 Hm5 En5. apply wp_bind, wp_modify. apply HQ. exists t3, e.
  split_and!; [|exact Hpc| |cbn; rewrite En5, En3; exact Hn|exact Hs4|done| |exact Hm4].
  - destruct H5. by constructor.
  - assert (Hx : proto t3 s5) by (by eapply mild_proto). destruct Hx. by constructor.
  - destruct Hm5 as (_ & _ & _ & E & _). cbn. by rewrite E, Ev3.
Qed.

(** What the thread fetches in a cycle: [more], from the PC the signals left *)
Definition filled (k : Z) (sig : Signals) (t : Thread) (s : State) (s' : State) : Prop :=
  exists more t' e ip, Trk (k + fetchWidth p + 1) s (settled sig t) more e ip t' s' /\ pc t' = e /\ proto t' s' /\
    Z.of_nat (length more) <= fetchWidth p /\
    (canFetch (settledStatus sig t s) = false -> more = [] /\ fetchStatus t' = settledStatus sig t s /\
       finishTranslationEvent s' = finishTranslationEvent s /\ memReq t' = settledReq sig t).

Lemma wp_fetchThreads k sig sc t s s1 (Q : bool -> State -> Prop) :
  sampled k sig t s s1 -> c_activeThreads s = [0] -> k + fetchWidth p + 1 < fe_limit ->
  (forall sc' u s', fetchStatus u = settledStatus sig t s -> memReq u = settledReq sig t -> fetched k s (settled sig t) [] u s s' -> Q sc' s') ->
  wp (fetchThreads p nopStaticInst fetchMicroop branching translateTiming isMemAddr icacheAccepts
        (Z.to_nat (numFetchingThreads p)) sig sc) Q s1.
Proof.
  intros (u & e & H & Hpc & Hp & Hn & Hs & Htf & Hev & Hm) Ha Hk HQ. rewrite (cf_fetching _ _ Hcfg).
  change (Z.to_nat 1) with 1%nat. cbn [fetchThreads]. apply wp_bind, wp_gets. rewrite Htf, (cf_fetching _ _ Hcfg).
  cbn [Z.ltb Z.compare negb]. apply wp_bind.
  eapply wp_fetch; [exact H|exact Hpc|exact Hp|exact Hn| |lia|].
  { destruct (tk_same _ _ _ _ _ _ _ _ _ H) as (_ & _ & -> & _). exact Ha. }
  intros sc' s2 (more & t2 & e2 & ip & H2 & He2 & Hp2 & Hl2 & Hn2 & Hip & Hc2). apply wp_bind, wp_modify, wp_bind, wp_gets.
  pose proof (tk_fetched _ _ _ _ _ _ _ _ _ H2) as Hf2.
  assert (E : (threadFetched (s2 <| threadFetched ::= Z.succ |>) <? 1) = false) by (cbn; apply Z.ltb_ge; lia).
  rewrite E. cbn [negb]. apply wp_ret. apply (HQ _ u); [exact Hs|exact Hm|]. exists more, t2, e2, ip.
  split_and!; [|exact He2| |exact Hl2|exact Hn2|exact Hip|].
  - destruct H2. constructor; try done. cbn. lia.
  - destruct Hp2. by constructor.
  - rewrite <- Hev. exact Hc2.
Qed.

Lemma wp_tickFetch {A} k sig sc t s s1 (m : M State A) (Q : A -> State -> Prop) :
  sampled k sig t s s1 -> c_activeThreads s = [0] -> k + fetchWidth p + 1 < fe_limit ->
  (forall s', filled k sig t s s' -> wp m Q s') ->
  wp (sc ← fetchThreads p nopStaticInst fetchMicroop branching translateTiming isMemAddr icacheAccepts
             (Z.to_nat (numFetchingThreads p)) sig sc;
      n ← gets numInst;
      stat (nisnDist n) ;;
      when sc updateFetchStatus ;;
      mfor (tids p) (pipelineIcacheAccesses p nopStaticInst translateTiming isMemAddr icacheAccepts) ;;
      m) Q s1.
Proof.
  intros H Ha Hk HQ. apply wp_bind. eapply wp_fetchThreads; [exact H|exact Ha|exact Hk|]. clear H.
  intros sc' u s2 Hs Hm (more & t2 & e & ip & H2 & He2 & Hp2 & Hl2 & Hn2 & Hip & Hc2). rewrite app_nil_l in H2.
  apply wp_bind, wp_gets, wp_bind. eapply wp_fetchStat; [exact H2|]. intros H3. apply wp_bind.
  apply (wp_mono _ (fun _ s4 => Trk (k + fetchWidth p) s (settled sig t) more e ip t2 s4 /\ calm s2 s4)).
  { apply wp_when; intros _; [|by split]. eapply wp_updateFetchStatus; [exact H3|]. intros s4 H4 Hc4. by split. }
  intros [] s4 (H4 & Hc4). assert (Hp4 : proto t2 s4) by (by eapply proto_calm).
  assert (En4 : numInst s4 = numInst s2) by (by apply calm_num). destruct Hc4 as (_ & _ & _ & _ & Ev4).
  rewrite tids_one. cbn [mfor]. apply wp_bind, wp_bind.
  eapply wp_pipeline; [exact H4|exact He2|exact Hp4|intros Hx; apply (Hip Hx)|lia|].
  intros l t5 s5 H5 He5 Hp5 Hfl En5 Hno. apply wp_ret, HQ. exists (more ++ l), t5, e, ip.
  split_and!; [exact H5|exact He5|exact Hp5| |].
  - rewrite length_app. destruct Hfl as [->|((x & ->) & ? & _)]; [cbn; lia|]. destruct ip.
    + destruct (Hip eq_refl) as [_ E]. cbn. lia.
    + by destruct (Hno eq_refl) as (? & _).
  - rewrite <- Hs. intros Hx. destruct (Hc2 Hx) as (-> & -> & E2). destruct ip.
    + destruct (Hip eq_refl) as [E _]. by rewrite E in Hx.
    + destruct (Hno eq_refl) as (-> & -> & E3). split_and!; [done..|congruence|exact Hm].
Qed.

(** A cycle: after the signals the thread fetches [more], then decode receives
    the oldest instructions of the queue. *)
Record ticked (k : Z) (sig : Signals) (t : Thread) (s : State) (more : list FInst) (t' : Thread) (s' : State) : Prop := {
  ti_trk : exists ip, Trk (k + fetchWidth p + 1) s' t' [] (pc t') ip t' s';
  ti_proto : proto t' s';
  ti_num : numInst s' = 0;
  ti_more : Z.of_nat (length more) <= fetchWidth p;
  ti_chain : chain (pc (settled sig t)) more (pc t');
  ti_seq : (fun x => di_seqNum (fi_inst x)) <$> more = seqZ (c_instSeq s) (Z.of_nat (length more));
  ti_tid : Forall (fun x => di_threadNumber (fi_inst x) = 0) more;
  ti_instSeq : c_instSeq s' = c_instSeq s + Z.of_nat (length more);
  ti_room : Z.of_nat (length (fetchQueue (settled sig t) ++ more)) <= fetchQueueSize p;
  ti_sent : exists out, sent s' = out :: tail (sent s) /\
    out = (if decode (stalls (settled sig t)) then [] else take (Z.to_nat (decodeWidth p)) (fetchQueue (settled sig t) ++ more)) /\
    fetchQueue (settled sig t) ++ more = out ++ fetchQueue t';
  ti_stalls : stalls t' = stalls (settled sig t);
  ti_same : c_activeThreads s' = c_activeThreads s /\ c_isDraining s' = c_isDraining s;
  ti_status : canFetch (settledStatus sig t s) = false -> more = [] /\ fetchStatus t' = settledStatus sig t s /\
    finishTranslationEvent s' = finishTranslationEvent s /\ memReq t' = settledReq sig t
}.

Lemma drop_length_take {A} n (l : list A) : drop (length (take n l)) l = drop n l.
Proof.
  rewrite length_take. destruct (decide (n <= length l)%nat).
  - by rewrite Nat.min_l.
  - rewrite Nat.min_r by lia. by rewrite !drop_ge by lia.
Qed.

Lemma wp_backendStall s t (Q : bool -> State -> Prop) :
  threads s !! 0%nat = Some t -> (forall b, Q b s) -> wp (backendStall (tids p)) Q s.
Proof.
  intros Ht HQ. rewrite tids_one. cbn [backendStall]. unfold thr. apply wp_bind, wp_bind, wp_gets.
  eapply wp_at_index; [exact Ht|]. apply wp_bind, wp_ret, wp_ret, HQ.
Qed.

(** A thread whose queue was shortened, in a new slot to decode *)
Lemma trk_sent k s0 t0 new e ip t (s s' : State) q :
  Trk k s0 t0 new e ip t s -> e = pc t -> suffix q (fetchQueue t) ->
  threads s' !! 0%nat = Some (t <| fetchQueue := q |>) -> numInst s' = 0 ->
  instSize s' = instSize s -> c_switchedOut s' = c_switchedOut s -> c_activeThreads s' = c_activeThreads s ->
  c_isDraining s' = c_isDraining s -> front s' = front s -> c_instSeq s' = c_instSeq s -> threadFetched s' = threadFetched s ->
  Trk k s' (t <| fetchQueue := q |>) [] (pc t) ip (t <| fetchQueue := q |>) s'.
Proof.
  intros H -> Hq Ht En E1 E2 E3 E4 E5 E6 E7. pose proof (cf_width _ _ Hcfg).
  destruct (tk_seq _ _ _ _ _ _ _ _ _ H) as (? & ? & ?), H.
  constructor; rewrite ?E1, ?E2, ?E3, ?E4, ?E5, ?E6, ?E7; try done; cbn; try lia.
  - apply suffix_length in Hq. lia.
  - by rewrite app_nil_r.
Qed.

(** The tail of [tick], after the queue was emptied into the slot *)
Lemma wp_tickStats s t n (Q : unit -> State -> Prop) :
  threads s !! 0%nat = Some t ->
  (forall s', s' = s <| fstats := fstats s' |> <| calls := calls s' |> <| numInst := 0 |> -> Q tt s') ->
  wp (b ← backendStall (tids p);
      when (negb b)
        (stat (fetchBubbles (u32 (fetchWidth p - n))) ;;
         when (n =? 0) (stat fetchBubblesMax)) ;;
      w ← gets wroteToTimeBuffer;
      when w (call ActivityThisCycle) ;;
      modify (fun s => s <| numInst := 0 |>)) Q s.
Proof.
  intros Ht HQ. apply wp_bind. eapply wp_backendStall; [exact Ht|]. intros b. apply wp_bind.
  apply (wp_mono _ (fun _ s' => s' = s <| fstats := fstats s' |>)).
  { unfold stat. apply wp_when; intros _; [|by destruct s]. apply wp_bind, wp_modify, wp_when; intros _; [apply wp_modify|]; done. }
  intros [] s1 ->. apply wp_bind, wp_gets, wp_bind, wp_when; intros _; [apply wp_modify|]; apply wp_modify, HQ; done.
Qed.

Lemma wp_fetchTick k ip t s sig (Q : unit -> State -> Prop) :
  Trk k s t [] (pc t) ip t s -> proto t s -> numInst s = 0 -> c_activeThreads s = [0] -> signals_ok sig t ->
  (forall f r, finishTranslationEvent s = Some (f, r) -> fetchStatus t = ItlbWait /\ memReq t = Some r) ->
  head (sent s) = Some [] -> k + fetchWidth p + 1 < fe_limit ->
  (forall more t' s', ticked k sig t s more t' s' -> Q tt s') ->
  wp (tick p nopStaticInst fetchMicroop branching translateTiming isMemAddr icacheAccepts rands sig) Q s.
Proof.
  intros H Hp Hn Ha Hsig Hev Hs Hk HQ. unfold tick.
  eapply wp_tickSignals; [exact H|exact Hp|exact Hn|exact Ha|exact Hsig|exact Hev|]. intros sc s1 H1.
  eapply wp_tickFetch; [exact H1|exact Ha|exact Hk|].
  clear H1 s1. intros s1 (more & t1 & e & ip1 & H1 & He1 & Hp1 & Hl1 & Hst1). apply wp_bind.
  destruct (tk_same _ _ _ _ _ _ _ _ _ H1) as (Es & Esent & Eact & Edr).
  pose proof (tk_queue _ _ _ _ _ _ _ _ _ H1) as Eq. pose proof (tk_full _ _ _ _ _ _ _ _ _ H1) as Hfull. rewrite Eq in Hfull.
  destruct (sent s) as [|slot rest] eqn:Eslot; [done|]. injection Hs as ->.
  eapply (wp_sendToDecode s1 t1 rest); [apply H1|by rewrite Eact|exact Esent|].
  intros n s2 Ht2 Hs2 Hr2. eapply wp_tickStats; [exact Ht2|]. intros s3 E3.
  unfold delivered in Ht2, Hs2. rewrite Es, Eq in Hs2.
  set (out := if decode (stalls t1) then [] else take (Z.to_nat (decodeWidth p)) (fetchQueue t1)) in Ht2.
  assert (Hout : fetchQueue t1 = out ++ drop (length out) (fetchQueue t1)).
  { unfold out. destruct (decode (stalls t1)); [done|]. by rewrite drop_length_take, take_drop. }
  unfold resent in Hr2. apply (HQ more (t1 <| fetchQueue := drop (length out) (fetchQueue t1) |>)).
  constructor.
  - exists ip1. refine (trk_sent _ s _ more e ip1 t1 s1 s3 _ H1 _ _ _ _ _ _ _ _ _ _ _); [by rewrite He1|by exists out|..].
    all: rewrite E3; try exact Ht2; try done; by rewrite Hr2.
  - destruct Hp1. constructor; rewrite E3, Hr2; done.
  - by rewrite E3.
  - exact Hl1.
  - rewrite <- He1 in *. apply H1.
  - apply H1.
  - apply H1.
  - rewrite E3, Hr2. cbn. by destruct (tk_seq _ _ _ _ _ _ _ _ _ H1) as (_ & ? & _).
  - exact Hfull.
  - eexists. split_and!; [rewrite E3, Eslot; exact Hs2|reflexivity|]. cbn. rewrite <- Es, <- Eq. exact Hout.
  - exact Es.
  - rewrite E3, Hr2. done.
  - rewrite E3, Hr2. exact Hst1.
Qed.
End Tick.
