(* ===== verification/FetchSpec.v ===== *)
(** * Properties of the fetch stage

    The stage driven by the cycles of the CPU, the answers of the MMU and of the
    instruction cache, and the calls of the CPU.  The theorems are stated for any
    front end and decoder that keep their contracts, in the decoupled front end. *)

From Stdlib Require Import ZArith Lia.
From stdpp Require Import base list sorting numbers.
From S2P Require Import Prelude Types Ftq Bac BacInv Fetch FetchInv FetchOps FetchLoop FetchTick.

(** ** Operations *)

(** [FTick] is a cycle.  [FFinish] is a late answer of the MMU; [late] says that it
    comes between the cycles, when the event it may schedule waits for the cycle
    after the next one.  [FEvent] is that event, [FCache] and [FRetry] come from the
    cache.  [FFront] is what the front end does in its own cycle, with [n]
    predictions.  The rest are calls of the CPU; [FCpu] changes what it shows the
    stage. *)
Inductive FetchOp (F : Type) :=
| FTick (sig : Fetch.Signals)
| FFinish (res : Translation) (r : Request) (late : bool)
| FEvent
| FCache (r : Request) (data : list Z)
| FRetry
| FFront (n : Z) (f : F)
| FDrainStall
| FDrainResume
| FWake
| FClear
| FTakeOver
| FCpu (active draining : bool).
Arguments FTick {F}. Arguments FFinish {F}. Arguments FEvent {F}. Arguments FCache {F}. Arguments FRetry {F}.
Arguments FFront {F}. Arguments FDrainStall {F}. Arguments FDrainResume {F}. Arguments FWake {F}.
Arguments FClear {F}. Arguments FTakeOver {F}. Arguments FCpu {F}.

(** The stage, and whether a scheduled event waits for one more cycle *)
Record FRun (F D : Type) := mkFRun { stage : @Fetch.State F D; due : bool }.
Arguments mkFRun {F D}. Arguments stage {F D}. Arguments due {F D}.

#[export] Instance eta_FRun {F D} : Settable (FRun F D) := fun r => mkFRun (stage r) (due r).

Section Spec.
Context {F D : Type} `{FC : FrontEndContract F} `{DC : DecoderContract D}.
Context (p : Fetch.FetchParams).
Context (nopStaticInst : SInst) (fetchMicroop : SInst -> Z -> SInst) (branching : DynInst -> bool).
Context (translateTiming : Request -> option Translation) (isMemAddr : Addr -> bool)
  (icacheAccepts : nat -> bool) (pcState : ThreadID -> PCStateBase) (rands : nat -> Z).
Import Fetch.

Abbreviation Thread := (@Thread D).
Abbreviation State := (@State F D).
Abbreviation Run := (FRun F D).
Abbreviation Trk := (trk p).
Abbreviation Tick := (tick p nopStaticInst fetchMicroop branching translateTiming isMemAddr icacheAccepts rands).

Definition fetch_exec (o : FetchOp F) : M Run unit :=
  match o with
  | FTick sig => zoom stage (advanceBuffers ;; Tick sig) ;; modify (fun r => r <| due := false |>)
  | FFinish res rq late =>
      e ← gets (fun r => finishTranslationEvent (stage r));
      zoom stage (finishTranslation p nopStaticInst isMemAddr icacheAccepts res rq) ;;
      when (bool_decide (e = None)) (modify (fun r => r <| due := late |>))
  | FEvent => zoom stage (processEvent p nopStaticInst isMemAddr icacheAccepts) ;; modify (fun r => r <| due := true |>)
  | FCache rq data => zoom stage (processCacheCompletion p rq data)
  | FRetry => zoom stage (recvReqRetry icacheAccepts)
  | FFront _ f => modify (fun r => r <| stage ::= fun s => s <| front := f |> |>)
  | FDrainStall => zoom stage (drainStall 0)
  | FDrainResume => zoom stage (drainResume p)
  | FWake => zoom stage wakeFromQuiesce
  | FClear => zoom stage (clearStates pcState 0)
  | FTakeOver => zoom stage (takeOverFrom p pcState true)
  | FCpu a d => modify (fun r => r <| stage ::= fun s =>
      s <| c_activeThreads := if a then [0] else [] |> <| c_isDraining := d |> |>)
  end.

Abbreviation thread0 r t := (threads (stage r) !! 0%nat = Some t).
Abbreviation event0 r := (finishTranslationEvent (stage r)).

(** What the callers promise: the CPU ticks the stage while its thread is active
    and a scheduled event is not overdue; the MMU and the cache answer requests of
    the thread, the MMU not one whose fault waits in the event, the cache with a
    whole line; the thread drains once, while the CPU drains, and not with a
    request the cache refused and a trap pending; it is woken and cleared with no
    request refused and no event scheduled. *)
Definition fetch_enabled (k : Z) (r : Run) (o : FetchOp F) : Prop :=
  match o with
  | FTick sig => c_activeThreads (stage r) = [0] /\ (event0 r = None \/ due r = true) /\
      forall t, thread0 r t -> signals_ok sig t
  | FFinish _ rq _ => req_tid rq = 0 /\ forall f, event0 r <> Some (f, rq)
  | FCache rq data => req_tid rq = 0 /\ length data = Z.to_nat (fetchBufferSize p)
  | FFront n f => 0 <= n /\ fe_ok (k + n) f /\ fe_older (c_instSeq (stage r)) f
  | FDrainStall => c_isDraining (stage r) = true /\ forall t, thread0 r t ->
      drain (stalls t) = false /\ (fetchStatus t = TrapPending -> retryPkt (stage r) = None)
  | FWake | FClear | FTakeOver => retryPkt (stage r) = None /\ event0 r = None
  | FCpu _ d => d = false -> forall t, thread0 r t -> drain (stalls t) = false
  | _ => True
  end.

(** The predictions an operation may make *)
Definition fetch_cost (o : FetchOp F) : Z :=
  match o with
  | FTick _ => fetchWidth p + 1
  | FFinish _ _ _ | FEvent => 1
  | FFront n _ => n
  | _ => 0
  end.

(** The stage after construction and startup, with [k] predictions made *)
Definition fetch_built (k : Z) (r : Run) : Prop :=
  exists pc0 decoders slots f b0 n0 tf0 s0, make p pc0 decoders slots f (b0, n0, tf0) = Ok s0 /\
    Forall (fun d => 0 < dec_moreBytesSize d) decoders /\ (0 < slots)%nat /\ 0 <= tf0 /\
    fe_ok k f /\ fe_older 1 f /\ 1 <= k /\ 0 <= fetchQueueSize p /\
    startupStage p pcState s0 = Ok (tt, stage r).

Inductive fetch_reach : Z -> Run -> Prop :=
| fetch_reach_0 k r : fetch_built k r -> fetch_reach k r
| fetch_reach_step k o r r' :
    fetch_reach k r -> fetch_enabled k r o -> fetch_exec o r = Ok (tt, r') -> fetch_reach (k + fetch_cost o) r'.

(** ** The invariant *)

Abbreviation seqNums l := ((fun x => di_seqNum (fi_inst x)) <$> l).

(** The queue holds one path, which ends at the PC, of consecutive instructions, the
    youngest of the CPU. *)
Definition ordered (t : Thread) (s : State) : Prop :=
  (exists a, chain a (fetchQueue t) (pc t)) /\
  seqNums (fetchQueue t) = seqZ (c_instSeq s - Z.of_nat (length (fetchQueue t))) (Z.of_nat (length (fetchQueue t))).

(** The thread goes on with [l] and hands over [out]. *)
Record grew (t : Thread) (s : State) (l out : list FInst) (t' : Thread) (s' : State) : Prop := {
  gr_queue : fetchQueue t ++ l = out ++ fetchQueue t';
  gr_chain : chain (pc t) l (pc t');
  gr_seq : seqNums l = seqZ (c_instSeq s) (Z.of_nat (length l));
  gr_next : c_instSeq s' = c_instSeq s + Z.of_nat (length l)
}.

Lemma grew_idle t (s : State) t' (s' : State) :
  fetchQueue t' = fetchQueue t -> pc t' = pc t -> c_instSeq s' = c_instSeq s -> grew t s [] [] t' s'.
Proof. intros E1 E2 E3. constructor; cbn; try done; [by rewrite E1, app_nil_r|lia]. Qed.

Lemma grew_trans t1 (s1 : State) l1 o1 t2 s2 l2 o2 t3 s3 :
  grew t1 s1 l1 o1 t2 s2 -> grew t2 s2 l2 o2 t3 s3 -> grew t1 s1 (l1 ++ l2) (o1 ++ o2) t3 s3.
Proof.
  intros [Q1 C1 S1 N1] [Q2 C2 S2 N2]. constructor.
  - by rewrite app_assoc, Q1, <- app_assoc, Q2, app_assoc.
  - apply chain_app. by exists (pc t2).
  - rewrite fmap_app, S1, S2, N1, length_app, Nat2Z.inj_add, seqZ_app by lia. done.
  - rewrite length_app, N2, N1. lia.
Qed.

Lemma seqZ_suffix m (l1 l2 : list FInst) :
  seqNums (l1 ++ l2) = seqZ m (Z.of_nat (length (l1 ++ l2))) ->
  seqNums l2 = seqZ (m + Z.of_nat (length l1)) (Z.of_nat (length l2)).
Proof.
  rewrite fmap_app, length_app, Nat2Z.inj_add, seqZ_app by lia. intros E.
  apply app_inj_1 in E as [_ E]; [exact E|]. rewrite length_fmap, length_seqZ. lia.
Qed.

Lemma ordered_grew t (s : State) l out t' s' : ordered t s -> grew t s l out t' s' -> ordered t' s'.
Proof.
  intros [(a & Hc) Hs] [Eq Hl El En].
  assert (Hall : chain a (out ++ fetchQueue t') (pc t')) by (rewrite <- Eq; apply chain_app; by exists (pc t)).
  split.
  - apply chain_app in Hall as (b & _ & Hb). by exists b.
  - set (n := length (fetchQueue t)) in *.
    assert (H : seqNums (out ++ fetchQueue t') = seqZ (c_instSeq s - Z.of_nat n) (Z.of_nat (length (out ++ fetchQueue t')))).
    { rewrite <- Eq, fmap_app, Hs, El, length_app, Nat2Z.inj_add, seqZ_app by lia. fold n.
      by replace (c_instSeq s - Z.of_nat n + Z.of_nat n) with (c_instSeq s) by lia. }
    apply seqZ_suffix in H. rewrite H. f_equal. rewrite En.
    assert (length (fetchQueue t ++ l) = length (out ++ fetchQueue t'))%nat as Elen by (by rewrite Eq).
    rewrite !length_app in Elen. fold n in Elen. lia.
Qed.

Record fetch_inv (k : Z) (t : Thread) (r : Run) : Prop := {
  iv_trk : exists ip, Trk k (stage r) t [] (pc t) ip t (stage r);
  iv_proto : proto t (stage r);
  iv_num : numInst (stage r) = 0;
  iv_sent : sent (stage r) <> [];
  iv_ordered : ordered t (stage r);
  iv_due : due r = true -> forall f rq, event0 r = Some (f, rq) -> fetchStatus t = ItlbWait /\ memReq t = Some rq
}.

(** A cycle: after the signals the thread goes on with [more] and decode receives [out], the
    oldest instructions of the queue, unless it is stalled. *)
Record cycled (sig : Signals) (t : Thread) (s : State) (more out : list FInst) (t' : Thread) (s' : State) : Prop := {
  cy_grew : grew (settled sig t) s more out t' s';
  cy_out : out = if decode (stalls (settled sig t)) then []
                 else take (Z.to_nat (decodeWidth p)) (fetchQueue (settled sig t) ++ more);
  cy_sent : head (sent s') = Some out;
  cy_width : Z.of_nat (length more) <= fetchWidth p;
  cy_room : Z.of_nat (length (fetchQueue (settled sig t) ++ more)) <= fetchQueueSize p;
  cy_stalls : stalls t' = stalls (settled sig t);
  cy_same : c_activeThreads s' = c_activeThreads s /\ c_isDraining s' = c_isDraining s;
  cy_status : canFetch (settledStatus sig t s) = false -> more = [] /\ fetchStatus t' = settledStatus sig t s /\
    finishTranslationEvent s' = finishTranslationEvent s /\ memReq t' = settledReq sig t
}.

Context (Hcfg : fetch_cfg (F:=F) p fetchMicroop).

Lemma ordered_settled sig t (s : State) : ordered t s -> ordered (settled sig t) s.
Proof.
  intros Ho. unfold settled. destruct (squashPC sig (fetchStatus t)); [|exact Ho].
  split; [by eexists|]. done.
Qed.

Definition newSlots (s : State) : State :=
  s <| sent ::= fun l => take (length l) ([] :: l) |> <| threads ::= fmap (fun t => t <| toBAC := mkFetchComm false None |>) |>.

Lemma trk_newSlots k ip t (s : State) :
  Trk k s t [] (pc t) ip t s ->
  Trk k (newSlots s) (t <| toBAC := mkFetchComm false None |>) [] (pc t) ip (t <| toBAC := mkFetchComm false None |>) (newSlots s).
Proof.
  intros H. pose proof (tk_thr _ _ _ _ _ _ _ _ _ H) as Ht. destruct H. constructor; cbn -[lookup]; try done.
  by rewrite list_lookup_fmap, Ht.
Qed.

Lemma ticked_cycled k sig t (s : State) more t' s' :
  ticked p k sig (t <| toBAC := mkFetchComm false None |>) (newSlots s) more t' s' ->
  exists out, cycled sig t s more out t' s'.
Proof.
  set (u := t <| toBAC := _ |>). intros [_ _ _ Hl Hc Hs _ Hn Hr Hso Hst Hsame Hstat].
  assert (E : fetchQueue (settled sig u) = fetchQueue (settled sig t) /\ pc (settled sig u) = pc (settled sig t) /\
              stalls (settled sig u) = stalls (settled sig t)).
  { unfold settled. change (fetchStatus u) with (fetchStatus t). by destruct (squashPC sig (fetchStatus t)). }
  destruct E as (E1 & E2 & E3), Hso as (out & Es & Eo & Eq). rewrite E1 in *. rewrite E2 in *. rewrite E3 in *.
  exists out. constructor; try done. by rewrite Es.
Qed.

Lemma wp_fetch_tick k t r sig (Q : unit -> Run -> Prop) :
  fetch_inv k t r -> fetch_enabled k r (FTick sig) -> k + fetchWidth p + 1 < fe_limit ->
  (forall more out t' r', fetch_inv (k + fetchWidth p + 1) t' r' -> due r' = false ->
     cycled sig t (stage r) more out t' (stage r') -> Q tt r') ->
  wp (fetch_exec (FTick sig)) Q r.
Proof.
  intros [(ip & H) Hp Hn Hs Ho Hd] (Ha & Hev & Hsig) Hk HQ. cbn [fetch_exec].
  apply wp_bind, wp_zoom, wp_bind. unfold advanceBuffers. apply wp_modify. fold (newSlots (stage r)).
  pose proof (trk_newSlots _ _ _ _ H) as H1.
  refine (wp_fetchTick _ _ _ _ _ _ _ _ Hcfg k ip _ _ sig _ H1 _ _ _ _ _ _ Hk _); [destruct Hp; by constructor|exact Hn|exact Ha|..].
  - destruct (Hsig t) as []; [apply H|]. by constructor.
  - intros f rq E. cbn in E. destruct Hev as [E'|E']; [congruence|]. by apply (Hd E' f).
  - cbn. by destruct (sent (stage r)).
  - intros more t' s' Ht. destruct (ticked_cycled _ _ _ _ _ _ _ Ht) as (out & Hc). apply wp_modify.
    eapply (HQ more out t'); [|done|exact Hc]. destruct Ht as [Htk Htp Htn _ _ _ _ _ _ Hso _ _ _].
    constructor; cbn; [exact Htk|exact Htp|exact Htn| | |done].
    + by destruct Hso as (? & -> & _).
    + eapply ordered_grew; [apply (ordered_settled sig), Ho|apply Hc].
Qed.

(** ** The other operations *)

(** A tracked thread with what it queued since [s] *)
Lemma trk_grew k (s : State) t l e ip t' (s' : State) :
  Trk k s t l e ip t' s' -> pc t' = e -> grew t s l [] t' s'.
Proof. intros H <-. constructor; [by rewrite (tk_queue _ _ _ _ _ _ _ _ _ H)|apply H|apply H|apply H]. Qed.

Lemma inv_tracked k k' t r l ip t' r' :
  fetch_inv k t r -> Trk k' (stage r) t l (pc t') ip t' (stage r') -> proto t' (stage r') -> numInst (stage r') = 0 ->
  (due r' = true -> forall f rq, event0 r' = Some (f, rq) -> fetchStatus t' = ItlbWait /\ memReq t' = Some rq) ->
  fetch_inv k' t' r' /\ grew t (stage r) l [] t' (stage r').
Proof.
  intros [_ _ _ Hs Ho _] H Hp Hn Hd. pose proof (trk_grew _ _ _ _ _ _ _ _ H eq_refl) as Hg. split; [|exact Hg].
  constructor; [exists ip; by eapply trk_rebase|exact Hp|exact Hn| |by eapply ordered_grew|exact Hd].
  destruct (tk_same _ _ _ _ _ _ _ _ _ H) as (_ & -> & _). exact Hs.
Qed.

(** What an operation other than a cycle does: the queue grows by at most the nop of
    a fault; a thread that is cleared is empty at the PC of its context. *)
Definition kept (o : FetchOp F) (t : Thread) (s : State) (t' : Thread) (s' : State) : Prop :=
  match o with
  | FTick _ => False
  | FClear | FTakeOver => fetchQueue t' = [] /\ pc t' = pcState 0 /\ c_instSeq s' = c_instSeq s
  | _ => exists l, grew t s l [] t' s' /\ (length l <= 1)%nat
  end.

Lemma faulting_length l (s : State) (t' : Thread) : faulting p l s t' -> (length l <= 1)%nat.
Proof. intros [->|((x & ->) & _)]; cbn; lia. Qed.

Lemma proto_event_free t (s : State) :
  proto t s -> fetchStatus t = ItlbWait -> (forall f, finishTranslationEvent s <> Some f) -> unblocked s.
Proof.
  intros [H1 H2 _] Hs He. split_and!.
  - destruct (retryPkt s); [|done]. destruct H1 as (_ & _ & [E|[E _]]); by rewrite E in Hs.
  - destruct (retryPkt s); [|done]. destruct H1 as (_ & _ & [E|[E _]]); by rewrite E in Hs.
  - destruct (finishTranslationEvent s) as [x|]; [by destruct (He x)|done].
Qed.

Lemma wp_fetch_finish k t r res rq late (Q : unit -> Run -> Prop) :
  fetch_inv k t r -> fetch_enabled k r (FFinish res rq late) -> k + 1 < fe_limit ->
  (forall t' r', fetch_inv (k + 1) t' r' -> kept (FFinish res rq late) t (stage r) t' (stage r') -> Q tt r') ->
  wp (fetch_exec (FFinish res rq late)) Q r.
Proof.
  intros Hi (Hr & Hev) Hk HQ. destruct Hi as [(ip & H) Hp Hn Hs Ho Hd] eqn:Ei. clear Ei. cbn [fetch_exec].
  apply wp_bind, wp_gets, wp_bind, wp_zoom.
  eapply wp_finishTranslation; [exact H|done|exact Hp|exact Hk|exact Hr| |].
  - intros Hst Hm. apply (proto_event_free t); [done..|]. intros [f r'] E.
    destruct (pr_event _ _ Hp f r' E) as [[_ Hm']|[Hs'|Hs']]; [|congruence..].
    apply (Hev f). congruence.
  - intros l t' s' H1 Hp1 Hf En Epc Hsame Hev1 _. cbn in H1. rewrite <- Epc in H1.
    assert (Hgo : forall d, (d = true -> forall f r', finishTranslationEvent s' = Some (f, r') -> fetchStatus t' = ItlbWait /\ memReq t' = Some r') ->
      Q tt (mkFRun s' d)).
    { intros d Hd'. destruct (inv_tracked k (k + 1) t r l ip t' (mkFRun s' d) Hi H1 Hp1) as [Hi' Hg]; [by cbn; lia|exact Hd'|].
      eapply HQ; [exact Hi'|]. exists l. split; [exact Hg|by eapply faulting_length]. }
    apply wp_when; intros He.
    + apply bool_decide_eq_true in He. apply wp_modify. refine (Hgo late _). intros _ f r' E.
      destruct (Hev1 f r' E) as [E'|(-> & ? & ?)]; [|done]. by rewrite He in E'.
    + refine (Hgo (due r) _). intros Hdue f r' E. destruct (Hev1 f r' E) as [E'|(-> & ? & ?)]; [|done].
      destruct (Hd Hdue f r' E') as [Hst Hm]. rewrite Hsame; [done|]. right. rewrite Hm. intros [= ->].
      by apply (Hev f).
Qed.

Lemma wp_fetch_event k t r (Q : unit -> Run -> Prop) :
  fetch_inv k t r -> k + 1 < fe_limit ->
  (forall t' r', fetch_inv (k + 1) t' r' -> kept FEvent t (stage r) t' (stage r') -> Q tt r') ->
  wp (fetch_exec FEvent) Q r.
Proof.
  intros Hi Hk HQ. destruct Hi as [(ip & H) Hp Hn Hs Ho Hd] eqn:Ei. clear Ei. cbn [fetch_exec].
  assert (Hgo : forall l t' s', Trk (k + 1) (stage r) t l (pc t') ip t' s' -> proto t' s' -> numInst s' = 0 -> (length l <= 1)%nat ->
    (forall f r', finishTranslationEvent s' = Some (f, r') -> fetchStatus t' = ItlbWait /\ memReq t' = Some r') ->
    Q tt (mkFRun s' true)).
  { intros l t' s' H1 Hp1 Hn1 Hl Hd'. destruct (inv_tracked k (k + 1) t r l ip t' (mkFRun s' true) Hi H1 Hp1 Hn1) as [Hi' Hg].
    { intros _. exact Hd'. }
    eapply HQ; [exact Hi'|]. by exists l. }
  apply wp_bind, wp_zoom. unfold processEvent. apply wp_bind, wp_gets.
  destruct (finishTranslationEvent (stage r)) as [[f rq]|] eqn:Ev.
  - apply wp_bind. eapply wp_keep; [exact H|done|]. intros H1. apply wp_bind, wp_gets, wp_bind, wp_massert.
    { apply Z.ltb_lt. cbn. rewrite Hn. apply Hcfg. }
    assert (Hrq : fetchStatus t = ItlbWait /\ memReq t = Some rq \/ fetchStatus t = Squashing \/ fetchStatus t = TrapPending)
      by (by apply (pr_event _ _ Hp f)).
    assert (Hp1 : proto t ((stage r) <| finishTranslationEvent := None |>)) by (destruct Hp; by constructor).
    assert (Hr : req_tid rq = 0) by (by apply (pr_tid _ _ Hp f)).
    eapply wp_finishTranslation; [exact H1|done|exact Hp1|exact Hk|exact Hr| |].
    + intros Hst _. by apply (proto_event_free t).
    + intros l t' s' H2 Hp2 Hf En Epc _ Hev1 _. cbn in H2. rewrite <- Epc in H2. apply wp_modify.
      eapply (Hgo l t'); [exact H2|exact Hp2|by etrans; [exact En|]|by eapply faulting_length|].
      intros f' r' E. destruct (Hev1 f' r' E) as [E'|(-> & ? & ?)]; done.
  - apply wp_ret, wp_modify. eapply (Hgo [] t); [eapply trk_mono; [exact H|lia]|exact Hp|exact Hn|cbn; lia|].
    intros f r' E. cbn in E. congruence.
Qed.

(** A change of the thread outside a cycle *)
Lemma trk_local k ip t (s : State) f :
  Trk k s t [] (pc t) ip t s -> is_Some (decoder (f t)) -> length (fetchBuffer (f t)) = length (fetchBuffer t) ->
  (length (fetchQueue (f t)) <= length (fetchQueue t))%nat -> (drain (stalls (f t)) = true -> c_isDraining s = true) ->
  let s' := s <| threads ::= alter f 0%nat |> in
  Trk k s' (f t) [] (pc (f t)) (issuePipelinedIfetch (f t)) (f t) s'.
Proof.
  intros H H1 H2 H3 H4. pose proof (tk_thr _ _ _ _ _ _ _ _ _ H) as Ht. destruct H. constructor; cbn -[alter]; try done.
  - by rewrite list_lookup_alter_eq, Ht.
  - by rewrite H2.
  - lia.
  - by rewrite app_nil_r.
Qed.

Lemma wp_local k ip t (s : State) f (Q : unit -> State -> Prop) :
  Trk k s t [] (pc t) ip t s -> is_Some (decoder (f t)) -> length (fetchBuffer (f t)) = length (fetchBuffer t) ->
  (length (fetchQueue (f t)) <= length (fetchQueue t))%nat -> (drain (stalls (f t)) = true -> c_isDraining s = true) ->
  (let s' := s <| threads ::= alter f 0%nat |> in
   Trk k s' (f t) [] (pc (f t)) (issuePipelinedIfetch (f t)) (f t) s' -> Q tt s') -> wp (upd 0 f) Q s.
Proof.
  intros H H1 H2 H3 H4 HQ. unfold upd. apply wp_bind. eapply wp_thr; [exact H|]. apply wp_modify, HQ.
  by eapply trk_local.
Qed.

(** A change that keeps the queue and the PC *)
Lemma inv_kept k t r f (Hi : fetch_inv k t r) :
  let s' := (stage r) <| threads ::= alter f 0%nat |> in
  Trk k s' (f t) [] (pc (f t)) (issuePipelinedIfetch (f t)) (f t) s' -> proto (f t) s' ->
  fetchQueue (f t) = fetchQueue t -> pc (f t) = pc t -> memReq (f t) = memReq t ->
  (event0 r <> None -> fetchStatus t = ItlbWait -> fetchStatus (f t) = ItlbWait) ->
  fetch_inv k (f t) (r <| stage := s' |>) /\ grew t (stage r) [] [] (f t) s'.
Proof.
  intros s' H Hp Eq Epc Em Hst. assert (Hg : grew t (stage r) [] [] (f t) s') by (by apply grew_idle).
  split; [|exact Hg]. destruct Hi as [_ _ Hn Hs Ho Hd].
  constructor; [by eexists|exact Hp|exact Hn|exact Hs|by eapply ordered_grew|].
  intros Hdue f' rq E. destruct (Hd Hdue f' rq E). rewrite Em. split; [|done]. apply Hst; [|done]. cbn in E. congruence.
Qed.

Lemma wp_fetch_drainStall k t r (Q : unit -> Run -> Prop) :
  fetch_inv k t r -> fetch_enabled k r FDrainStall ->
  (forall t' r', fetch_inv k t' r' -> kept FDrainStall t (stage r) t' (stage r') -> Q tt r') ->
  wp (fetch_exec FDrainStall) Q r.
Proof.
  intros Hi (Hdr & Hen) HQ. destruct (iv_trk _ _ _ Hi) as (ip & H).
  destruct (Hen t) as [Hd Htrap]; [apply H|]. cbn [fetch_exec]. apply wp_zoom. unfold drainStall.
  apply wp_bind, wp_gets, wp_bind, wp_massert; [done|]. apply wp_bind. eapply wp_thr; [exact H|].
  apply wp_bind, wp_massert; [by rewrite Hd|]. eapply wp_local; [exact H|apply H|done..|].
  intros s' H'. edestruct (inv_kept k t r) as [Hi' Hg]; [exact Hi|exact H'| |done..|].
  - destruct (iv_proto _ _ _ Hi) as [P1 P2 P3]. constructor; cbn -[alter]; try done.
    destruct (retryPkt (stage r)); [|done]. destruct P1 as (? & ? & [?|[? _]]); [auto|by discriminate Htrap].
  - eapply HQ; [exact Hi'|]. exists []. by split; [|cbn; lia].
Qed.

Lemma wp_fetch_drainResume k t r (Q : unit -> Run -> Prop) :
  fetch_inv k t r ->
  (forall t' r', fetch_inv k t' r' -> kept FDrainResume t (stage r) t' (stage r') -> Q tt r') ->
  wp (fetch_exec FDrainResume) Q r.
Proof.
  intros Hi HQ. destruct (iv_trk _ _ _ Hi) as (ip & H). cbn [fetch_exec]. apply wp_zoom. unfold drainResume.
  rewrite (tids_one p _ Hcfg). cbn [mfor]. apply wp_bind. eapply wp_local; [exact H|apply H|done..|].
  intros s' H'. apply wp_ret. edestruct (inv_kept k t r) as [Hi' Hg]; [exact Hi|exact H'| |done..|].
  - destruct (iv_proto _ _ _ Hi) as [P1 P2 P3]. constructor; cbn -[alter]; try done.
    destruct (retryPkt (stage r)); [|done]. destruct P1 as (? & ? & [?|[? _]]); auto.
  - eapply HQ; [exact Hi'|]. exists []. by split; [|cbn; lia].
Qed.

Lemma wp_fetch_wake k t r (Q : unit -> Run -> Prop) :
  fetch_inv k t r -> fetch_enabled k r FWake ->
  (forall t' r', fetch_inv k t' r' -> kept FWake t (stage r) t' (stage r') -> Q tt r') ->
  wp (fetch_exec FWake) Q r.
Proof.
  intros Hi (E1 & E2) HQ. destruct (iv_trk _ _ _ Hi) as (ip & H). cbn [fetch_exec]. apply wp_zoom.
  unfold wakeFromQuiesce, setStatus. eapply wp_local; [exact H|apply H|done|done|apply H|].
  intros s' H'. edestruct (inv_kept k t r) as [Hi' Hg]; [exact Hi|exact H'| |done|done|done|by intros ?|].
  - pose proof (pr_retry _ _ (iv_proto _ _ _ Hi)) as Hr. rewrite E1 in Hr. by apply proto_idle.
  - eapply HQ; [exact Hi'|]. exists []. by split; [|cbn; lia].
Qed.

Lemma wp_fetch_cache k t r rq data (Q : unit -> Run -> Prop) :
  fetch_inv k t r -> fetch_enabled k r (FCache rq data) ->
  (forall t' r', fetch_inv k t' r' -> kept (FCache rq data) t (stage r) t' (stage r') -> Q tt r') ->
  wp (fetch_exec (FCache rq data)) Q r.
Proof.
  intros Hi (Hr & Hl) HQ. destruct (iv_trk _ _ _ Hi) as (ip & H). cbn [fetch_exec]. apply wp_zoom.
  eapply wp_processCacheCompletion; [exact H|done|apply Hi|exact Hr|exact Hl|].
  intros t' s' H1 Hp1 Epc En Ev Hsame. rewrite <- Epc in H1.
  destruct (inv_tracked k k t r [] ip t' (mkFRun s' (due r)) Hi H1 Hp1) as [Hi' Hg].
  - cbn. by rewrite En, (iv_num _ _ _ Hi).
  - intros Hdue f r' E. cbn in E. rewrite Ev in E. destruct (iv_due _ _ _ Hi Hdue f r' E) as [Es Em].
    rewrite Hsame; [done|]. left. by rewrite Es.
  - eapply HQ; [exact Hi'|]. exists []. by split; [|cbn; lia].
Qed.

Lemma wp_fetch_retry k t r (Q : unit -> Run -> Prop) :
  fetch_inv k t r ->
  (forall t' r', fetch_inv k t' r' -> kept FRetry t (stage r) t' (stage r') ->
     event0 r' = event0 r -> c_activeThreads (stage r') = c_activeThreads (stage r) ->
     (fetchStatus t <> IcacheWaitRetry -> t' = t) -> Q tt r') ->
  wp (fetch_exec FRetry) Q r.
Proof.
  intros Hi HQ. destruct (iv_trk _ _ _ Hi) as (ip & H). cbn [fetch_exec]. apply wp_zoom.
  eapply wp_recvReqRetry; [exact H|done|apply Hi|].
  intros t' s' H1 Hp1 Epc En Ev Hsame. rewrite <- Epc in H1.
  destruct (inv_tracked k k t r [] ip t' (mkFRun s' (due r)) Hi H1 Hp1) as [Hi' Hg].
  - cbn. by rewrite En, (iv_num _ _ _ Hi).
  - intros Hdue f r' E. cbn in E. rewrite Ev in E. destruct (iv_due _ _ _ Hi Hdue f r' E) as [Es Em].
    rewrite Hsame; [done|]. by rewrite Es.
  - eapply HQ; [exact Hi'| |exact Ev|apply H1|exact Hsame]. exists []. by split; [|cbn; lia].
Qed.

Lemma wp_fetch_front k t r n f (Q : unit -> Run -> Prop) :
  fetch_inv k t r -> fetch_enabled k r (FFront n f) ->
  (forall t' r', fetch_inv (k + n) t' r' -> kept (FFront n f) t (stage r) t' (stage r') -> Q tt r') ->
  wp (fetch_exec (FFront n f)) Q r.
Proof.
  intros [(ip & H) Hp Hn Hs Ho Hd] (Hn0 & Hf & Hol) HQ. cbn [fetch_exec]. apply wp_modify. apply (HQ t).
  - constructor; cbn; [|destruct Hp; by constructor|done..]. exists ip.
    destruct (tk_seq _ _ _ _ _ _ _ _ _ H) as (? & ? & ?), H. constructor; try done. cbn in *. lia.
  - exists []. split; [by apply grew_idle|cbn; lia].
Qed.

Lemma wp_fetch_cpu k t r a d (Q : unit -> Run -> Prop) :
  fetch_inv k t r -> fetch_enabled k r (FCpu a d) ->
  (forall t' r', fetch_inv k t' r' -> kept (FCpu a d) t (stage r) t' (stage r') -> Q tt r') ->
  wp (fetch_exec (FCpu a d)) Q r.
Proof.
  intros [(ip & H) Hp Hn Hs Ho Hd] Hen HQ. cbn [fetch_exec fetch_enabled] in *. apply wp_modify. apply (HQ t).
  - constructor; cbn; [|destruct Hp; by constructor|done..]. exists ip. pose proof (tk_thr _ _ _ _ _ _ _ _ _ H) as Ht.
    destruct H. constructor; try done; cbn.
    + destruct a; auto.
    + intros Hx. destruct d; [done|]. by rewrite Hen in Hx.
  - exists []. split; [by apply grew_idle|cbn; lia].
Qed.

(** ** Clearing the thread *)

Lemma length_filter_le {A} (f : A -> bool) l : (length (List.filter f l) <= length l)%nat.
Proof. apply List.filter_length_le. Qed.

(** The thread [clearThread] leaves, in a state that may differ in what clearing changes *)
Lemma inv_cleared k t r s' :
  fetch_inv k t r -> unblocked (stage r) ->
  threads s' !! 0%nat = Some (clearThread pcState 0 t) -> numInst s' = 0 -> sent s' <> [] ->
  instSize s' = instSize (stage r) -> c_switchedOut s' = c_switchedOut (stage r) ->
  c_activeThreads s' = c_activeThreads (stage r) -> c_isDraining s' = c_isDraining (stage r) ->
  front s' = front (stage r) -> c_instSeq s' = c_instSeq (stage r) -> threadFetched s' = threadFetched (stage r) ->
  retryPkt s' = retryPkt (stage r) -> retryTid s' = retryTid (stage r) -> event0 r = finishTranslationEvent s' ->
  fetch_inv k (clearThread pcState 0 t) (r <| stage := s' |>) /\ kept FClear t (stage r) (clearThread pcState 0 t) s'.
Proof.
  intros [(ip & H) Hp Hn Hs Ho Hd] (Hu1 & Hu2 & Hu3) Ht En Hse E1 E2 E3 E4 E5 E6 E7 E8 E9 E10. split; [|by split_and!].
  destruct (tk_seq _ _ _ _ _ _ _ _ _ H) as (? & ? & ?). constructor; cbn; try done.
  - exists ip. destruct H. constructor; rewrite ?E1, ?E2, ?E3, ?E4, ?E5, ?E6, ?E7; try done; cbn; lia.
  - apply proto_idle. unfold unblocked. by rewrite E8, E9, <- E10.
  - split; [by eexists|]. done.
  - by rewrite <- E10, Hu3.
Qed.

Lemma inv_unblocked k t r : fetch_inv k t r -> retryPkt (stage r) = None -> event0 r = None -> unblocked (stage r).
Proof. intros Hi E1 E2. pose proof (pr_retry _ _ (iv_proto _ _ _ Hi)) as Hr. rewrite E1 in Hr. by split_and!. Qed.

Lemma wp_fetch_clear k t r (Q : unit -> Run -> Prop) :
  fetch_inv k t r -> fetch_enabled k r FClear ->
  (forall t' r', fetch_inv k t' r' -> kept FClear t (stage r) t' (stage r') -> Q tt r') ->
  wp (fetch_exec FClear) Q r.
Proof.
  intros Hi (E1 & E2) HQ. destruct (iv_trk _ _ _ Hi) as (ip & H). pose proof (tk_thr _ _ _ _ _ _ _ _ _ H) as Ht.
  cbn [fetch_exec]. apply wp_zoom. unfold clearStates, upd. apply wp_bind, wp_bind. eapply wp_thr; [exact H|].
  apply wp_modify, wp_modify.
  match goal with |- Q _ (setf stage (fun _ => ?s) r) => destruct (inv_cleared k t r s Hi) as [Hi' Hk']; try done end.
  - by apply (inv_unblocked k t).
  - exact (lookup_upd (stage r) t (clearThread pcState 0) Ht).
  - apply Hi.
  - pose proof (iv_sent _ _ _ Hi). cbn. by destruct (sent (stage r)).
  - by eapply HQ.
Qed.

Lemma wp_fetch_takeOver k t r (Q : unit -> Run -> Prop) :
  fetch_inv k t r -> fetch_enabled k r FTakeOver ->
  (forall t' r', fetch_inv k t' r' -> kept FTakeOver t (stage r) t' (stage r') -> Q tt r') ->
  wp (fetch_exec FTakeOver) Q r.
Proof.
  intros Hi (E1 & E2) HQ. destruct (iv_trk _ _ _ Hi) as (ip & H). pose proof (tk_thr _ _ _ _ _ _ _ _ _ H) as Ht.
  cbn [fetch_exec]. apply wp_zoom. unfold takeOverFrom, resetStage, upd, thr. rewrite (tids_one p _ Hcfg). cbn [mfor].
  apply wp_bind, wp_massert; [done|]. apply wp_bind, wp_modify, wp_bind, wp_bind, wp_bind, wp_bind, wp_bind, wp_gets.
  eapply wp_at_index; [exact Ht|]. apply wp_modify, wp_modify, wp_ret, wp_modify.
  match goal with |- Q _ (setf stage (fun _ => ?s) r) => destruct (inv_cleared k t r s Hi) as [Hi' Hk']; try done end.
  - by apply (inv_unblocked k t).
  - exact (lookup_upd (stage r) t (clearThread pcState 0) Ht).
  - apply Hi.
  - by eapply HQ.
Qed.

(** ** Every operation *)

(** What an operation does to the thread *)
Definition stepped (o : FetchOp F) (t : Thread) (s : State) (t' : Thread) (s' : State) : Prop :=
  match o with
  | FTick sig => exists more out, cycled sig t s more out t' s'
  | _ => kept o t s t' s'
  end.

Lemma wp_fetch_exec k t r o :
  fetch_inv k t r -> fetch_enabled k r o -> k + fetch_cost o < fe_limit ->
  wp (fetch_exec o) (fun _ r' => exists t', fetch_inv (k + fetch_cost o) t' r' /\ stepped o t (stage r) t' (stage r')) r.
Proof.
  intros Hi Hen Hk. destruct o; cbn [fetch_cost stepped] in *; rewrite ?Z.add_0_r, ?Z.add_assoc in *.
  - eapply wp_fetch_tick; [done..|]. intros more out t' r' H1 _ H2. exists t'. split; [done|by exists more, out].
  - eapply wp_fetch_finish; [done..|]. intros t' r' H1 H2. by exists t'.
  - eapply wp_fetch_event; [done..|]. intros t' r' H1 H2. by exists t'.
  - eapply wp_fetch_cache; [done..|]. intros t' r' H1 H2. by exists t'.
  - eapply wp_fetch_retry; [done..|]. intros t' r' H1 H2 _ _ _. by exists t'.
  - eapply wp_fetch_front; [done..|]. intros t' r' H1 H2. by exists t'.
  - eapply wp_fetch_drainStall; [done..|]. intros t' r' H1 H2. by exists t'.
  - eapply wp_fetch_drainResume; [done..|]. intros t' r' H1 H2. by exists t'.
  - eapply wp_fetch_wake; [done..|]. intros t' r' H1 H2. by exists t'.
  - eapply wp_fetch_clear; [done..|]. intros t' r' H1 H2. by exists t'.
  - eapply wp_fetch_takeOver; [done..|]. intros t' r' H1 H2. by exists t'.
  - eapply wp_fetch_cpu; [done..|]. intros t' r' H1 H2. by exists t'.
Qed.

(** ** Reachable states *)

Lemma fetch_make_ok pc0 decoders slots f b0 n0 tf0 (s0 : State) :
  make p pc0 decoders slots f (b0, n0, tf0) = Ok s0 -> numThreads p = 1 ->
  exists d l, decoders !! 0%nat = Some d /\
    l !! 0%nat = Some (newThread pc0 (Some d) (replicate (Z.to_nat (fetchBufferSize p)) 0)) /\
    s0 = mkState Inactive l [] b0 n0 b0 None InvalidThreadID tf0 b0
            (dec_moreBytesSize d) None f (replicate slots []) [] false false 1 0 0 0 [] [].
Proof.
  unfold make. intros Hm H1. rewrite H1 in Hm. repeat (case_match; [done|]). destruct (decoders !! 0%nat) as [d|] eqn:Ed; [|done].
  injection Hm as <-. exists d. eexists. split_and!; [done| |done]. cbn. by rewrite Ed.
Qed.

Lemma fetch_built_inv k r : fetch_built k r -> exists t, fetch_inv k t r.
Proof.
  intros (pc0 & ds & slots & f & b0 & n0 & tf0 & s0 & Hm & Hd & Hsl & Htf & Hf & Ho & Hk & Hq & Hst).
  destruct (fetch_make_ok _ _ _ _ _ _ _ _ Hm (cf_threads _ _ Hcfg)) as (d & l & Ed & Ht & Es).
  set (s1 := mkState _ _ _ _ _ _ _ _ _ _ _ _ _ _ _ _ _ _ _ _ _ _ _) in Es. subst s0.
  assert (Hw : wp (startupStage p pcState) (fun _ s' => exists t, fetch_inv k t (mkFRun s' (due r))) s1).
  { unfold startupStage, resetStage, upd, thr. rewrite (tids_one p _ Hcfg). cbn [mfor]. apply wp_bind, wp_gets, wp_bind, wp_massert.
    { done. }
    apply wp_bind, wp_bind, wp_modify, wp_bind, wp_bind, wp_bind, wp_bind, wp_bind, wp_gets.
    eapply wp_at_index; [exact Ht|]. apply wp_modify, wp_modify, wp_ret, wp_modify. unfold switchToActive, call.
    set (t := newThread _ _ _) in *.
    pose proof (lookup_upd s1 t (clearThread pcState 0) Ht) as Ht'. pose proof (cf_width _ _ Hcfg).
    assert (Hfin : forall s', threads s' = alter (clearThread pcState 0) 0%nat l -> numInst s' = 0 -> unblocked s' ->
      instSize s' = dec_moreBytesSize d -> front s' = f -> sent s' = replicate slots [] -> c_activeThreads s' = [] ->
      c_switchedOut s' = false -> c_instSeq s' = 1 -> threadFetched s' = tf0 ->
      exists t, fetch_inv k t (mkFRun s' (due r))).
    { intros s' E1 E2 Hu E3 E4 E5 E6 E7 E8 E9. exists (clearThread pcState 0 t). constructor; cbn; try done.
      - exists false. constructor; rewrite ?E1, ?E2, ?E3, ?E4, ?E6, ?E7, ?E8, ?E9; try exact Ht'; try done; cbn; try lia.
        + by rewrite length_replicate.
        + by apply (list.Forall_lookup_1 _ _ _ _ Hd Ed).
        + by left.
      - by apply proto_idle.
      - rewrite E5. destruct slots; [lia|done].
      - split; [by eexists|done].
      - by destruct Hu as (_ & _ & ->). }
    apply wp_bind, wp_gets, wp_when; intros _; [apply wp_bind, wp_modify, wp_modify|]; apply Hfin; reflexivity || (split_and!; reflexivity). }
  unfold wp in Hw. rewrite Hst in Hw. by destruct r.
Qed.

Lemma fetch_reach_inv k r : k < fe_limit -> fetch_reach k r -> exists t, fetch_inv k t r.
Proof.
  intros Hk Hr. induction Hr as [k r Hb|k o r r' Hr IH Hen Hex]; [by apply fetch_built_inv|].
  assert (0 <= fetch_cost o).
  { pose proof (cf_width _ _ Hcfg). destruct o; cbn in *; lia. }
  destruct IH as (t & Hi); [lia|]. pose proof (wp_fetch_exec k t r o Hi Hen Hk) as Hw.
  unfold wp in Hw. rewrite Hex in Hw. destruct Hw as (t' & Hi' & _). by exists t'.
Qed.

Lemma fetch_inv_thread k t r t' : fetch_inv k t r -> thread0 r t' -> t' = t.
Proof. intros [(ip & H) _ _ _ _ _] Ht. pose proof (tk_thr _ _ _ _ _ _ _ _ _ H). congruence. Qed.

Lemma inv_at k t r : fetch_inv k t r -> thread0 r t.
Proof. intros [(ip & H) _ _ _ _ _]. apply H. Qed.

(** ** Runs *)

(** Operations that keep the path: no squash, no clearing *)
Definition smooth (r : Run) (o : FetchOp F) : Prop :=
  match o with
  | FTick sig => forall t, thread0 r t -> squashPC sig (fetchStatus t) = None
  | FClear | FTakeOver => False
  | _ => True
  end.

(** What decode receives *)
Definition received (o : FetchOp F) (r' : Run) : list FInst :=
  match o with FTick _ => default [] (head (sent (stage r'))) | _ => [] end.

Inductive fetch_runs : Z -> Run -> list FInst -> Z -> Run -> Prop :=
| fetch_runs_0 k r : fetch_runs k r [] k r
| fetch_runs_step k r o r1 out k' r' :
    fetch_enabled k r o -> smooth r o -> fetch_exec o r = Ok (tt, r1) ->
    fetch_runs (k + fetch_cost o) r1 out k' r' -> fetch_runs k r (received o r1 ++ out) k' r'.

Lemma fetch_cost_nonneg k r o : fetch_enabled k r o -> 0 <= fetch_cost o.
Proof. pose proof (cf_width _ _ Hcfg). destruct o; cbn; lia. Qed.

Lemma fetch_runs_mono k r out k' r' : fetch_runs k r out k' r' -> k <= k'.
Proof. induction 1 as [|k r o r1 out k' r' Hen _ _ _ IH]; [lia|]. apply fetch_cost_nonneg in Hen. lia. Qed.

(** A step of such a run *)
Lemma smooth_step k t r o t' r' :
  fetch_inv k t r -> smooth r o -> stepped o t (stage r) t' (stage r') ->
  exists l, grew t (stage r) l (received o r') t' (stage r').
Proof.
  intros Hi Hsm Hst. destruct o; cbn [stepped kept smooth received] in *; try done; try (destruct Hst as (l & Hg & _); by exists l).
  destruct Hst as (more & out & [Hg _ Hse _ _ _ _ _]). exists more. rewrite Hse.
  unfold settled in Hg. rewrite (Hsm t (inv_at _ _ _ Hi)) in Hg. destruct Hg. by constructor.
Qed.

Lemma fetch_runs_grew k r out k' r' : fetch_runs k r out k' r' -> forall t, fetch_inv k t r -> k' < fe_limit ->
  exists t' l, fetch_inv k' t' r' /\ grew t (stage r) l out t' (stage r').
Proof.
  induction 1 as [k r|k r o r1 out k' r' Hen Hsm Hex Hrs IH]; intros t Hi Hk.
  - exists t, []. split; [exact Hi|by apply grew_idle].
  - apply fetch_runs_mono in Hrs. pose proof (wp_fetch_exec k t r o Hi Hen ltac:(lia)) as Hw.
    unfold wp in Hw. rewrite Hex in Hw. destruct Hw as (t1 & Hi1 & Hst).
    destruct (smooth_step k t r o t1 r1 Hi Hsm Hst) as (l1 & Hg1).
    destruct (IH t1 Hi1 Hk) as (t' & l2 & Hi' & Hg2). exists t', (l1 ++ l2). split; [exact Hi'|by eapply grew_trans].
Qed.

(** ** Draining *)

Record quiet_signals (sig : Signals) : Prop := {
  qs_commit : cs_squash (fromCommit sig 0) = false /\ cs_trapPending (fromCommit sig 0) = false;
  qs_decode : ds_squash (fromDecode sig 0) = false /\ ds_block (fromDecode sig 0) = false /\ ds_unblock (fromDecode sig 0) = false
}.

Lemma quiet_ok sig (t : Thread) : quiet_signals sig -> signals_ok sig t.
Proof. intros [(E1 & E2) (E3 & E4 & E5)]. constructor; rewrite ?E1, ?E2, ?E3, ?E4, ?E5; done. Qed.

Lemma quiet_settled sig (t : Thread) :
  quiet_signals sig -> squashPC sig (fetchStatus t) = None /\ stalls (settled sig t) = stalls t /\ fetchQueue (settled sig t) = fetchQueue t.
Proof.
  intros [(E1 & E2) (E3 & E4 & E5)]. assert (Es : squashPC sig (fetchStatus t) = None) by (unfold squashPC; by rewrite E1, E2, E3).
  unfold settled. rewrite Es. split_and!; [done| |done]. unfold stalled, stallsAfter, setf. cbn. rewrite E4, E5, orb_false_r, andb_true_r.
  by destruct (stalls t).
Qed.

Definition fetch_ticks (l : list Signals) : M Run unit := mfor l (fun sig => fetch_exec (FTick sig)).

Lemma wp_fetch_ticks l : forall k t r,
  fetch_inv k t r -> c_activeThreads (stage r) = [0] -> event0 r = None -> drain (stalls t) = true -> decode (stalls t) = false ->
  keepsWaiting (fetchStatus t) = false -> Forall quiet_signals l ->
  k + Z.of_nat (length l) * (fetchWidth p + 1) < fe_limit ->
  wp (fetch_ticks l) (fun _ r' => exists t', thread0 r' t' /\ fetchQueue t' = drop (length l * Z.to_nat (decodeWidth p)) (fetchQueue t) /\
    drain (stalls t') = true /\ event0 r' = None /\ fetchStatus t' = (if bool_decide (l = []) then fetchStatus t else Blocked) /\
    memReq t' = memReq t) r.
Proof.
  induction l as [|sig l IH]; intros k t r Hi Ha Hev Hdr Hde Hst Hl Hk; unfold fetch_ticks; cbn [mfor].
  { apply wp_ret. exists t. split_and!; try done. by apply (inv_at k). }
  apply list.Forall_cons in Hl as [Hq Hl]. pose proof (cf_width _ _ Hcfg). cbn [length] in Hk. apply wp_bind.
  eapply wp_fetch_tick; [exact Hi|split_and!; [done|by left|intros t' _; by apply quiet_ok]|lia|].
  intros more out t' r' Hi' _ [Hg Hout _ _ _ Hs' [Ha' _] Hstat]. destruct (quiet_settled sig t Hq) as (Esq & Es & Eq).
  assert (Eb : settledStatus sig t (stage r) = Blocked).
  { unfold settledStatus, nextStatus. rewrite Esq, (proj2 (qs_commit _ Hq)), Hdr, Hst. done. }
  rewrite Eb in Hstat. destruct (Hstat eq_refl) as (-> & Es' & Ev' & Em'). unfold settledReq in Em'. rewrite Esq in Em'. rewrite Es in *.
  destruct Hg as [Hgq _ _ _]. rewrite Eq, app_nil_r in *. rewrite Hde in Hout.
  assert (Eq' : fetchQueue t' = drop (Z.to_nat (decodeWidth p)) (fetchQueue t)).
  { rewrite <- (take_drop (Z.to_nat (decodeWidth p)) (fetchQueue t)) in Hgq at 1. rewrite Hout in Hgq. by apply app_inv_head in Hgq. }
  eapply wp_mono; [eapply (IH _ t' r' Hi'); rewrite ?Hs', ?Es'; try done; [by rewrite Ha'|by rewrite Ev'|lia]|].
  intros [] r2 (t2 & Ht2 & Hq2 & Hd2 & Hev2 & Hst2 & Hm2). exists t2. split_and!; try done.
  - rewrite Hq2, Eq', drop_drop. done.
  - rewrite Hst2, Es'. by case_bool_decide.
  - by rewrite Hm2.
Qed.

Lemma isDrained_blocked t (s : State) :
  threads s !! 0%nat = Some t -> fetchQueue t = [] -> fetchStatus t = Blocked -> drain (stalls t) = true ->
  finishTranslationEvent s = None -> isDrained p s = Ok (true, s).
Proof.
  intros Ht Eq Es Ed Ev. unfold isDrained. rewrite (tids_one p _ Hcfg). cbn [isDrainedFrom].
  unfold thr, gets, at_index, mbind, M_bind, mret, M_ret. change (Z.to_nat 0) with 0%nat. rewrite Ht.
  rewrite Eq, Es, Ed. cbn. rewrite (bool_decide_true (Blocked = Blocked)), orb_true_r by done. by rewrite Ev.
Qed.

Lemma massert_fails {S A} b (m : M S A) (s : S) : m s = Err AssertFail -> (massert b ;; m) s = Err AssertFail.
Proof. by destruct b. Qed.

(** An outstanding request always fails the check of a drained stage. *)
Lemma drainSanityCheck_request t rq (s : State) :
  threads s !! 0%nat = Some t -> memReq t = Some rq -> isDrained p s = Ok (true, s) -> drainSanityCheck p s = Err AssertFail.
Proof.
  intros Ht Em Ed. unfold drainSanityCheck. rewrite (tids_one p _ Hcfg). cbn [mfor]. unfold mbind at 1, M_bind at 1. rewrite Ed.
  apply massert_fails. unfold gets at 1, mbind at 1, M_bind at 1. do 4 apply massert_fails.
  unfold thr, gets, at_index, mbind, M_bind, mret, M_ret. change (Z.to_nat 0) with 0%nat. rewrite Ht. by rewrite Em.
Qed.

(** The cycle of a squash that finds the thread waiting for a retry *)
Lemma wp_squash_waiting k t r sig a (Q : unit -> Run -> Prop) :
  fetch_inv k t r -> fetch_enabled k r (FTick sig) -> k + fetchWidth p + 1 < fe_limit -> squashPC sig (fetchStatus t) = Some a ->
  fetchStatus t = IcacheWaitRetry ->
  (forall t' r', fetch_inv (k + fetchWidth p + 1) t' r' -> fetchStatus t' = Squashing -> fetchQueue t' = [] ->
     memReq t' = memReq t -> stalls t' = stallsAfter (fromDecode sig 0) (stalls t) -> event0 r' = None ->
     c_activeThreads (stage r') = c_activeThreads (stage r) -> Q tt r') ->
  wp (fetch_exec (FTick sig)) Q r.
Proof.
  intros Hi Hen Hk Hsq Hw HQ. eapply wp_fetch_tick; [done..|].
  intros more out t' r' Hi' _ [[Hg _ _ _] Hout _ _ _ Hs' [Ha' _] Hst].
  unfold settledStatus, settledReq, settled, keptReq in *. rewrite Hsq in *. destruct (Hst eq_refl) as (-> & Es & Ev & Em).
  rewrite Hw in Em. cbn in *.
  apply (HQ t'); try done.
  - assert (out = []) as -> by (rewrite Hout, take_nil; by destruct (_ && _)). by cbn in Hg.
  - rewrite Ev. destruct (event0 r) as [[f rq]|] eqn:E; [|done].
    destruct (pr_event _ _ (iv_proto _ _ _ Hi) f rq E) as [[E' _]|[E'|E']]; by rewrite Hw in E'.
Qed.

(** ** Properties *)
Context (k : Z) (r : Run) (Hr : fetch_reach k r).


(** [C8] In every reachable state (in the configurations of fetch_cfg) the fetch queue holds one path of
    consecutive instructions, each at the PC predicted for its predecessor, that ends at the PC the
    stage goes on with; the sequence numbers are consecutive and the youngest of the CPU, and the queue
    is never over its size. *)
Theorem fetch_path_contiguous t :
  k < fe_limit -> thread0 r t ->
  (exists a, chain a (fetchQueue t) (pc t)) /\
  seqNums (fetchQueue t) = seqZ (c_instSeq (stage r) - Z.of_nat (length (fetchQueue t))) (Z.of_nat (length (fetchQueue t))) /\
  Z.of_nat (length (fetchQueue t)) <= fetchQueueSize p.
Proof.
  intros Hk Ht. destruct (fetch_reach_inv k r) as (t' & Hi); [done..|]. apply (fetch_inv_thread k t') in Ht as ->; [|exact Hi].
  destruct Hi as [(ip & H) _ _ _ [Ho1 Ho2] _]. split_and!; [done..|apply H].
Qed.

(** [C7] The fetch stage refines a first-in first-out queue along the predicted path, in the
    configurations of fetch_cfg (one thread, decoupled, at most one fetch target per cycle or continuous
    targets): over any run without a squash decode receives, in order and once, what was queued followed
    by the new instructions, which start at the PC of the thread, follow the predicted PCs and have
    consecutive sequence numbers; what decode has not received is in the queue. *)
Theorem fetch_in_order t out k' r' :
  thread0 r t -> fetch_runs k r out k' r' -> k' < fe_limit ->
  exists t' new, thread0 r' t' /\ fetchQueue t ++ new = out ++ fetchQueue t' /\ chain (pc t) new (pc t') /\
    seqNums new = seqZ (c_instSeq (stage r)) (Z.of_nat (length new)).
Proof.
  intros Ht Hrs Hk. pose proof (fetch_runs_mono _ _ _ _ _ Hrs). destruct (fetch_reach_inv k r) as (t0 & Hi); [lia|done|].
  apply (fetch_inv_thread k t0) in Ht as ->; [|exact Hi]. destruct (fetch_runs_grew _ _ _ _ _ Hrs t0 Hi Hk) as (t' & l & Hi' & []).
  exists t', l. split_and!; try done. by apply (inv_at k').
Qed.

(** A cycle: the thread fetches at most [fetchWidth] instructions and decode
    receives the oldest [decodeWidth] instructions of the queue, or none when it has blocked
    the thread. *)
Theorem fetch_cycle_exact t sig :
  thread0 r t -> fetch_enabled k r (FTick sig) -> k + fetchWidth p + 1 < fe_limit -> squashPC sig (fetchStatus t) = None ->
  wp (fetch_exec (FTick sig)) (fun _ r' => exists t' more, thread0 r' t' /\
    Z.of_nat (length more) <= fetchWidth p /\
    let all := fetchQueue t ++ more in
    let n := if decode (stallsAfter (fromDecode sig 0) (stalls t)) then 0%nat else Z.to_nat (decodeWidth p) in
    head (sent (stage r')) = Some (take n all) /\ fetchQueue t' = drop n all) r.
Proof.
  intros Ht Hen Hk Hsq. pose proof (cf_width _ _ Hcfg). destruct (fetch_reach_inv k r) as (t0 & Hi); [lia|done|].
  apply (fetch_inv_thread k t0) in Ht as ->; [|exact Hi].
  eapply wp_fetch_tick; [done..|]. intros more out t' r' Hi' _ [[Hg _ _ _] Hout Hse Hw _ _ _ _]. exists t', more.
  split_and!; [by apply (inv_at _ _ _ Hi')|done|]. unfold settled in *. rewrite Hsq in *.
  change (stalls (stalled _ t0)) with (stallsAfter (fromDecode sig 0) (stalls t0)) in Hout.
  change (fetchQueue (stalled _ t0)) with (fetchQueue t0) in *. cbv zeta. rewrite Hse.
  destruct (decode (stallsAfter _ _)); subst out; [by rewrite take_0, drop_0|]. split; [done|].
  rewrite <- (take_drop (Z.to_nat (decodeWidth p)) (fetchQueue t0 ++ more)) in Hg at 1. by apply app_inv_head in Hg.
Qed.

(** [C16] A squash of commit or decode empties the queue in the cycle it comes: the
    thread is at the PC it was sent to and squashing, decode receives nothing, and nothing is fetched. *)
Theorem fetch_squash_exact t sig a :
  thread0 r t -> fetch_enabled k r (FTick sig) -> k + fetchWidth p + 1 < fe_limit -> squashPC sig (fetchStatus t) = Some a ->
  wp (fetch_exec (FTick sig)) (fun _ r' => exists t', thread0 r' t' /\ pc t' = a /\ fetchQueue t' = [] /\
    fetchStatus t' = Squashing /\ head (sent (stage r')) = Some [] /\ c_instSeq (stage r') = c_instSeq (stage r)) r.
Proof.
  intros Ht Hen Hk Hsq. pose proof (cf_width _ _ Hcfg). destruct (fetch_reach_inv k r) as (t0 & Hi); [lia|done|].
  apply (fetch_inv_thread k t0) in Ht as ->; [|exact Hi].
  eapply wp_fetch_tick; [done..|]. intros more out t' r' Hi' _ [[Hg Hc _ Hn] Hout Hse Hw _ _ _ Hst]. exists t'.
  unfold settledStatus, settled in *. rewrite Hsq in *. destruct (Hst eq_refl) as (-> & Es & _ & _). cbn in *.
  assert (out = []) as -> by (rewrite Hout, take_nil; by destruct (_ && _)).
  split_and!; [by apply (inv_at _ _ _ Hi')|done..|lia].
Qed.

(** [C18] An answer of the MMU or of the cache for a request that is not the outstanding one of the thread, such as
    one from before a squash, changes nothing of the thread: no stale bytes reach the buffer, no stale fault the queue. *)
Theorem fetch_stale_ignored t o rq :
  thread0 r t -> memReq t <> Some rq -> (exists res late, o = FFinish res rq late) \/ (exists data, o = FCache rq data) ->
  fetch_enabled k r o -> k + 1 < fe_limit ->
  wp (fetch_exec o) (fun _ r' => thread0 r' t /\ event0 r' = event0 r /\ c_instSeq (stage r') = c_instSeq (stage r)) r.
Proof.
  intros Ht Hm Ho Hen Hk. destruct (fetch_reach_inv k r) as (t0 & Hi); [lia|done|].
  apply (fetch_inv_thread k t0) in Ht as ->; [|exact Hi]. destruct (iv_trk _ _ _ Hi) as (ip & H).
  destruct Ho as [(res & late & ->)|(data & ->)]; destruct Hen as [Hrq _]; cbn [fetch_exec].
  - unfold finishTranslation. rewrite Hrq. apply wp_bind, wp_gets, wp_bind, wp_zoom, wp_bind, wp_gets, wp_bind, wp_massert.
    { by rewrite (tk_on _ _ _ _ _ _ _ _ _ H). }
    apply wp_bind. eapply wp_call; [exact H|]. intros H1. apply wp_bind. eapply wp_thr; [exact H1|].
    rewrite (bool_decide_eq_false_2 _ Hm), orb_true_r. eapply wp_fetchStat; [exact H1|]. intros H2.
    apply wp_when; intros _; [apply wp_modify|]; (split_and!; [apply H2|done|done]).
  - unfold processCacheCompletion. rewrite Hrq. apply wp_zoom, wp_bind, wp_gets, wp_bind, wp_massert.
    { by rewrite (tk_on _ _ _ _ _ _ _ _ _ H). }
    apply wp_bind. eapply wp_thr; [exact H|].
    rewrite (bool_decide_eq_false_2 _ Hm), orb_true_r. eapply wp_fetchStat; [exact H|]. intros H2. split_and!; [apply H2|done|done].
Qed.

(** [C17] A drain ends, in every reachable state of the configurations of fetch_cfg in which the only
    active thread is stalled for a drain, decode does not block it, no fault event is scheduled and its
    status is none of those the drain stall leaves alone (IcacheWaitResponse, IcacheWaitRetry, ItlbWait,
    FTQEmpty, QuiescePending): after as many cycles as decode needs to take what is queued, and at least
    one, in which commit and decode send neither squash, trap, block nor unblock, the stage reports that
    it is drained. *)
Theorem fetch_drains t l :
  thread0 r t -> c_activeThreads (stage r) = [0] -> event0 r = None -> drain (stalls t) = true -> decode (stalls t) = false ->
  keepsWaiting (fetchStatus t) = false -> Forall quiet_signals l -> l <> [] ->
  Z.of_nat (length (fetchQueue t)) <= Z.of_nat (length l) * decodeWidth p ->
  k + Z.of_nat (length l) * (fetchWidth p + 1) < fe_limit ->
  wp (fetch_ticks l) (fun _ r' => isDrained p (stage r') = Ok (true, stage r')) r.
Proof.
  intros Ht Ha Hev Hdr Hde Hst Hl Hne Hlen Hk. pose proof (cf_width _ _ Hcfg). pose proof (cf_decode _ _ Hcfg).
  destruct (fetch_reach_inv k r) as (t0 & Hi); [lia|done|]. apply (fetch_inv_thread k t0) in Ht as ->; [|exact Hi].
  eapply wp_mono; [by apply (wp_fetch_ticks l k t0 r)|]. intros [] r' (t' & Ht' & Hq' & Hd' & Hev' & Hst' & _).
  rewrite drop_ge in Hq' by lia. rewrite bool_decide_false in Hst' by done. by apply (isDrained_blocked t').
Qed.

(** [C38] A squash that finds the thread waiting for a retry of the cache leaves its request: in every
    reachable state of the configurations of fetch_cfg in which the thread waits for a retry and is
    stalled for a drain and decode does not block it, after the cycle of the squash, the retry of the
    cache and any positive number of quiet cycles the stage reports that it is drained while memReq is
    still set, and drainSanityCheck, which asserts that it is null, fails. *)
Theorem fetch_drain_leaves_request t sig a l rq :
  thread0 r t -> fetchStatus t = IcacheWaitRetry -> memReq t = Some rq -> drain (stalls t) = true -> decode (stalls t) = false ->
  fetch_enabled k r (FTick sig) -> squashPC sig (fetchStatus t) = Some a -> ds_block (fromDecode sig 0) = false ->
  Forall quiet_signals l -> l <> [] ->
  k + Z.of_nat (S (length l)) * (fetchWidth p + 1) < fe_limit ->
  wp (fetch_exec (FTick sig) ;; fetch_exec FRetry ;; fetch_ticks l) (fun _ r' =>
    isDrained p (stage r') = Ok (true, stage r') /\ (exists t', thread0 r' t' /\ memReq t' = Some rq) /\
    drainSanityCheck p (stage r') = Err AssertFail) r.
Proof.
  intros Ht Hw Hm Hdr Hde Hen Hsq Hb Hl Hne Hk. pose proof (cf_width _ _ Hcfg). pose proof (proj1 Hen) as Ha.
  destruct (fetch_reach_inv k r) as (t0 & Hi); [lia|done|]. apply (fetch_inv_thread k t0) in Ht as ->; [|exact Hi].
  apply wp_bind. eapply wp_squash_waiting; [done|done|lia|done|done|]. intros t1 r1 Hi1 Es1 Eq1 Em1 Est1 Ev1 Ea1.
  apply wp_bind. eapply wp_fetch_retry; [done|]. intros t2 r2 Hi2 _ Ev2 Ea2 Hsame. rewrite Hsame in Hi2 by (by rewrite Es1).
  eapply wp_mono.
  { apply (wp_fetch_ticks l _ t1 r2 Hi2); [by rewrite Ea2, Ea1|by rewrite Ev2|by rewrite Est1| |by rewrite Es1|done|lia].
    rewrite Est1. cbn. by rewrite Hde, Hb. }
  intros [] r3 (t3 & Ht3 & Hq3 & Hd3 & Hev3 & Hst3 & Hm3). rewrite Eq1, drop_nil in Hq3. rewrite bool_decide_false in Hst3 by done.
  assert (Hdrained : isDrained p (stage r3) = Ok (true, stage r3)) by (by apply (isDrained_blocked t3)).
  assert (Hrq : memReq t3 = Some rq) by congruence. split_and!; [done|by exists t3|by apply (drainSanityCheck_request t3 rq)].
Qed.
End Spec.
