(* ===== verification/FetchDemo.v ===== *)
(** * A fetch stage on the BAC stage

    The fetch stage with the BAC stage of [BacSpec] as its front end and a decoder of
    four-byte instructions: runs of it are the witnesses of the properties in [FetchSpec], and show
    what happens at the edges. *)

From Stdlib Require Import ZArith Lia.
From stdpp Require Import base list gmap numbers.
From S2P Require Import Prelude Types BtbEntry Btb MultiLevelBtb MultiLevelSafe MultiLevelSpec Ras SatCounter CondPred Indirect Ftq BPredUnit BPredUnitInv BPredUnitSpec Bac BacBpu BacInv BacOps BacFetch BacSpec BacFront Fetch FetchInv FetchOps FetchTick FetchSpec.
Import Fetch.

(** ** The decoder *)

(** The decoder holds at most one instruction, by its first byte: 1 is a call, 2 a quiesce. *)
Definition WordDecoder : Type := option Z.

Definition plainInst : StaticInst := mkInst false false false false false false false false false 4.
Definition wordInst (w : Z) : SInst :=
  mkSInst (if w =? 1 then callInst else plainInst) false (w =? 2) false w.

#[export] Instance WordDecoder_dec : InstDecoder WordDecoder := {|
  dec_moreBytesSize _ := 4;
  dec_pcMask _ := u64 (-4);
  dec_instReady d := isSome d;
  dec_needMoreBytes _ := false;
  dec_moreBytes bytes _ _ _ := Some (default 0 (head bytes));
  dec_decode _ d := (wordInst (default 0 d), None);
  dec_fetchRomMicroop _ _ _ := Ok (wordInst 0);
  dec_reset _ := None
|}.

Lemma wordInst_plain w : inner_branch (si_flags (wordInst w)) = false.
Proof. unfold wordInst. cbn. by destruct (w =? 1). Qed.

#[export] Instance WordDecoder_contract : DecoderContract WordDecoder.
Proof.
  constructor; [done|intros pc d; apply wordInst_plain|].
  intros upc m d _. exists (wordInst 0). split; [done|apply wordInst_plain].
Qed.

(** ** The front end *)

#[local] Existing Instances FirstLevelLocal_cp FirstLevelLocal_contract FirstLevelLocal_placeholder FirstLevelLocal_l1.
#[local] Existing Instances bdemo_btb bdemo_contract bdemo_search bdemo_ip bdemo_ipc.

#[local] Instance fdemo_front : FrontEnd DemoBAC := bacFrontEnd demoUnit demoHooks demoAdvance demoRetPC demoBac.
#[local] Instance fdemo_contract : FrontEndContract DemoBAC :=
  bacFrontContract demoUnit demoHooks demoAdvance demoRetPC demoBac 4 16 (1 : Z) (1 : Z) true true true bdemo_setup.

(** ** The stage *)

Definition demoFetch : FetchParams := mkFetchParams RoundRobin true 4 2 64 16 8 1 1 1 1 true.
Definition fdemoMicroop (m : SInst) (upc : Z) : SInst := wordInst 0.
Definition fdemoTranslate (r : Request) : option Translation := Some (Translated (req_vaddr r)).

Lemma fdemo_cfg : fetch_cfg (F := DemoBAC) demoFetch fdemoMicroop.
Proof. split; try done. by left. Qed.

Abbreviation DemoFetch := (FRun DemoBAC WordDecoder).

Section Runs.
(** Whether the cache takes the requests *)
Context (accepts : nat -> bool).

Definition fdemoExec (o : FetchOp DemoBAC) : M DemoFetch unit :=
  fetch_exec demoFetch (wordInst 0) fdemoMicroop (fun _ => false) fdemoTranslate (fun _ => true) accepts demoPC (fun _ => 0) o.

Definition fdemoMake : Res DemoFetch :=
  match bacDemoMake with
  | Ok f =>
      s ← make demoFetch (mkPC 0 0) [None : WordDecoder] 2 f (false, 0, 0);
      resMap (fun x => mkFRun (snd x) false) (startupStage demoFetch demoPC s)
  | Err e => Err e
  end.

(** [DBac] is an operation of the BAC stage. *)
Inductive DemoFetchOp := DBac (d : DemoBacOp) | DFetch (o : FetchOp DemoBAC).

Definition fdemoOp (d : DemoFetchOp) (r : DemoFetch) : option (FetchOp DemoBAC) :=
  match d with
  | DBac d =>
      let f := front (stage r) in
      o ← bacDemoOp d f;
      match bacDemoExec o f with Ok (_, f') => Some (FFront (opCost demoBac) f') | Err _ => None end
  | DFetch o => Some o
  end.

Definition sigFetchOkb (sig : Signals) (t : @Thread WordDecoder) : bool :=
  let c := fromCommit sig 0 in let d := fromDecode sig 0 in
  implb (ds_unblock d) (decode (stalls t) && negb (ds_block d)) && implb (cs_squash c) (isSome (cs_pc c)) &&
  implb (ds_squash d) (isSome (ds_nextPC d)) && implb (cs_trapPending c) (negb (drain (stalls t))).

Definition freshAll (f : DemoBAC) (n : Z) : bool :=
  match predHist (Bac.bpu f) !! 0%nat with
  | Some l => forallb (fun h => seqNum h <? n) l
  | None => true
  end.

Definition fdemoEnabled (d : DemoFetchOp) (r : DemoFetch) : bool :=
  match threads (stage r) !! 0%nat with
  | None => false
  | Some t =>
      match d with
      | DBac d =>
          bacDemoEnabled d (front (stage r)) &&
          match fdemoOp (DBac d) r with
          | Some (FFront _ f') =>
              freshAll f' (c_instSeq (stage r))
          | _ => false
          end
      | DFetch (FTick sig) =>
          bool_decide (c_activeThreads (stage r) = [0]) && (negb (isSome (finishTranslationEvent (stage r))) || due r) && sigFetchOkb sig t
      | DFetch (FCache rq data) => (req_tid rq =? 0) && (Z.of_nat (length data) =? fetchBufferSize demoFetch)
      | DFetch FRetry | DFetch (FCpu _ true) => true
      | DFetch FDrainStall => c_isDraining (stage r) && negb (drain (stalls t)) && negb (bool_decide (fetchStatus t = TrapPending))
      | DFetch (FCpu _ false) => negb (drain (stalls t))
      | _ => false
      end
  end.

Fixpoint fdemoSteps (ds : list DemoFetchOp) (r : DemoFetch) : Res DemoFetch :=
  match ds with
  | [] => Ok r
  | d :: ds' =>
      match fdemoOp d r with
      | None => Err Fatal
      | Some o =>
          if fdemoEnabled d r then
            match fdemoExec o r with Ok (_, r') => fdemoSteps ds' r' | Err e => Err e end
          else Err Fatal
      end
  end.

Definition fdemoRun (ds : list DemoFetchOp) : Res DemoFetch :=
  match fdemoMake with Ok r => fdemoSteps ds r | Err e => Err e end.
End Runs.

(** A call at 0x1008 that the BTB knows *)
Definition fdemoData (r : Addr) : list Z := flat_map (fun i => [if r + 4 * Z.of_nat i =? 0x1008 then 1 else 0; 0; 0; 0]) (seq 0 4).
Definition fdemoRequest (n : Z) (a pc : Addr) : Request := mkRequest n a 16 pc 0.
Definition quietFetch : Signals :=
  mkSignals (fun _ => mkCommitSig false None 0 None false false false) (fun _ => mkDecodeSig false None None 0 false false) (fun _ => 0) (fun _ => 0).

Definition fdemoOps : list DemoFetchOp :=
  [DBac (UFill 0x1008 0x2000 callInst); DFetch (FCpu true false); DBac (UTick quietSig); DFetch (FTick quietFetch);
   DFetch (FCache (fdemoRequest 0 0x1000 0x1000) (fdemoData 0x1000)); DBac (UTick quietSig); DFetch (FTick quietFetch)].


Lemma bind_Some_l {A B} (a : A) (f : A -> option B) : Some a ≫= f = f a.
Proof. done. Qed.

Section Reach.
Context (accepts : nat -> bool).

Abbreviation FReach := (fetch_reach demoFetch (wordInst 0) fdemoMicroop (fun _ => false) fdemoTranslate (fun _ => true) accepts demoPC (fun _ => 0)).
Abbreviation FEnabled := (fetch_enabled demoFetch).

Lemma fdemo_older f : bacDemoMake = Ok f -> fresh (Bac.bpu f) 0 1.
Proof.
  intros E. assert (H : match bacDemoMake with Ok f => predHist (Bac.bpu f) !! 0%nat | Err _ => None end = Some [])
    by (clear; vm_compute; reflexivity).
  rewrite E in H. intros l h El Hh. change (Z.to_nat 0) with 0%nat in El. rewrite H in El. injection El as <-.
  exfalso. clear -Hh. by apply not_elem_of_nil in Hh.
Qed.

Lemma fdemo_built r : fdemoMake = Ok r -> FReach 1 r.
Proof.
  unfold fdemoMake. destruct bacDemoMake as [f|] eqn:E; [|done]. intros (s & Hs & Hr)%res_bind_ok.
  destruct (startupStage demoFetch demoPC s) as [[[] s1]|] eqn:Es; [|done]. injection Hr as <-.
  apply fetch_reach_0. exists (mkPC 0 0), [None : WordDecoder], 2%nat, f, false, 0, 0, s.
  split; [exact Hs|]. split; [clear; by repeat constructor|]. split; [clear; lia|]. split; [clear; lia|].
  split; [|split; [exact (fdemo_older f E)|]].
  - apply (fe_ok_mono 0); [|clear; lia]. clear Hs Es s s1.
    exact (bac_reach_inv demoUnit demoHooks demoAdvance demoRetPC demoBac 4 16 (1 : Z) (1 : Z) true true true
      bdemo_setup 0 f eq_refl (bdemo_built f E)).
  - split; [clear; lia|]. split; [clear; cbn; lia|exact Es].
Qed.

Lemma sigFetchOkb_ok sig t : sigFetchOkb sig t = true -> signals_ok sig t.
Proof.
  unfold sigFetchOkb. intros [[[H1 H2]%andb_true_iff H3]%andb_true_iff H4]%andb_true_iff.
  constructor; intros E; rewrite E in *; cbn [implb] in *.
  - apply andb_true_iff in H1 as [H1 H1']. by apply negb_true_iff in H1'.
  - by destruct (cs_pc _).
  - by destruct (ds_nextPC _).
  - by apply negb_true_iff in H4.
Qed.

Lemma fdemo_step k d (f f' : DemoBAC) b :
  fe_ok k f -> k + 10 < 2 ^ 64 - 1 -> bacDemoOp d f = Some b -> bacDemoEnabled d f = true ->
  bacDemoExec b f = Ok (tt, f') -> fe_ok (k + opCost demoBac) f'.
Proof.
  intros Hf Hk Eb He Ex. assert (Hc : opCost demoBac <= 10) by (clear; vm_compute; discriminate).
  pose proof (wp_bac_exec demoUnit demoHooks demoAdvance demoRetPC demoBac 4 16 (1 : Z) (1 : Z) true true true bdemo_setup
    k f b Hf ltac:(lia) (bacDemoEnabled_ok d f b Eb He)) as Hw.
  assert (Hw' : wp (bacDemoExec b) (fun _ => fe_ok (k + opCost demoBac)) f) by exact Hw.
  unfold wp in Hw'. rewrite Ex in Hw'. exact Hw'.
Qed.

Lemma freshAll_ok f n : freshAll f n = true -> fe_older n f.
Proof.
  unfold freshAll. intros H l h El Hh. change (Z.to_nat 0) with 0%nat in El.
  assert (El' : predHist (Bac.bpu (f : DemoBAC)) !! 0%nat = Some l) by exact El. clear El. rewrite El' in H.
  rewrite forallb_forall in H. apply Z.ltb_lt, H. by apply list_elem_of_In.
Qed.

Lemma fdemoEnabled_ok k d (r : DemoFetch) o :
  FReach k r -> k + 10 < 2 ^ 64 - 1 -> fdemoOp d r = Some o -> fdemoEnabled d r = true -> FEnabled k r o.
Proof.
  intros Hr Hk. unfold fdemoEnabled. destruct (threads (stage r) !! 0%nat) as [t|] eqn:Et; [|done].
  destruct d as [d|o']; [|intros [= <-]].
  - intros Eo [H1 H2]%andb_true_iff. rewrite Eo in H2. cbn [fdemoOp] in Eo.
    destruct (bacDemoOp d (front (stage r))) as [b|] eqn:Eb; [|discriminate Eo]. rewrite bind_Some_l in Eo.
    destruct (bacDemoExec b (front (stage r))) as [[[] f']|] eqn:Ex; [|done]. injection Eo as <-.
    split; [by vm_compute|]. split.
    + refine (fdemo_step k d _ _ b _ Hk Eb H1 Ex).
      destruct (fetch_reach_inv _ _ _ _ _ _ _ _ _ fdemo_cfg k r ltac:(cbn; lia) Hr) as (t' & Hi).
      destruct (iv_trk _ _ _ _ Hi) as (ip & H). apply H.
    + exact (freshAll_ok _ _ H2).
  - destruct o' as [sig| | |rq data| | | | | | | |a dr]; cbn [fetch_enabled]; try done.
    + intros [[H1%bool_decide_eq_true H2]%andb_true_iff H3]%andb_true_iff. split_and!; [done| |].
      * apply orb_true_iff in H2 as [H2|H2]; [left|by right]. by destruct (finishTranslationEvent (stage r)).
      * intros t' Ht'. assert (t' = t) as -> by congruence. by apply sigFetchOkb_ok.
    + intros [H1%Z.eqb_eq H2%Z.eqb_eq]%andb_true_iff. split; [done|]. by rewrite <- H2, Nat2Z.id.
    + intros [[H1 H2%negb_true_iff]%andb_true_iff H3%negb_true_iff]%andb_true_iff. split; [done|].
      intros t' Ht'. assert (t' = t) as -> by congruence. split; [done|]. intros E. by rewrite E in H3.
    + destruct dr; [done|]. intros H%negb_true_iff _ t' Ht'. by assert (t' = t) as -> by congruence.
Qed.

Lemma fdemoSteps_reach ds : forall k (r r' : DemoFetch),
  FReach k r -> k + 10 * Z.of_nat (length ds) < 2 ^ 64 - 1 -> fdemoSteps accepts ds r = Ok r' ->
  exists k', FReach k' r' /\ k' <= k + 10 * Z.of_nat (length ds).
Proof.
  induction ds as [|d ds IH]; intros k r r' Hr Hk; cbn [fdemoSteps]; [intros [= <-]; exists k; split; [done|cbn; lia]|].
  destruct (fdemoOp d r) as [o|] eqn:Eo; [|done]. destruct (fdemoEnabled d r) eqn:Ed; [|done].
  destruct (fdemoExec accepts o r) as [[[] r1]|] eqn:Ex; [|done]. intros Hs.
  assert (Hen : FEnabled k r o) by (eapply fdemoEnabled_ok; [exact Hr|cbn in Hk; lia|exact Eo|exact Ed]).
  assert (Hc : fetch_cost demoFetch o <= 10).
  { destruct o; cbn [fetch_cost]; try (clear; cbn; lia). destruct d as [d|o'].
    2: { injection Eo as ->. unfold fdemoEnabled in Ed. by destruct (threads (stage r) !! 0%nat). }
    cbn [fdemoOp] in Eo. destruct (bacDemoOp d _); [|discriminate Eo]. rewrite bind_Some_l in Eo. destruct (bacDemoExec _ _) as [[? ?]|]; [|done].
    injection Eo as <- _. by vm_compute. }
  destruct (IH (k + fetch_cost demoFetch o) r1 r') as (k' & Hr' & Hle); [|cbn in Hk; lia|exact Hs|].
  - by eapply fetch_reach_step.
  - exists k'. split; [done|]. cbn [length]. lia.
Qed.

Lemma fdemoRun_reach ds r :
  fdemoRun accepts ds = Ok r -> (length ds <= 100)%nat -> exists k, FReach k r /\ k <= 1001.
Proof.
  unfold fdemoRun. destruct fdemoMake as [r0|] eqn:E; [|done]. intros Hs Hl.
  destruct (fdemoSteps_reach ds 1 r0 r) as (k & Hr & Hk); [by apply fdemo_built|lia|exact Hs|].
  exists k. split; [done|lia].
Qed.
End Reach.

(** ** Witnesses *)

Definition allAccepted (n : nat) : bool := true.
Abbreviation fdemo := (fdemoRun allAccepted).

Abbreviation FDemo f := (f demoFetch (wordInst 0) fdemoMicroop (fun _ => false) fdemoTranslate (fun _ => true) allAccepted demoPC (fun _ => 0)).

(** A check of the stage a run reaches *)
Definition atRun (ds : list DemoFetchOp) (chk : @Thread WordDecoder -> DemoFetch -> bool) : bool :=
  match fdemo ds with
  | Ok r => match threads (stage r) !! 0%nat with Some t => chk t r | None => false end
  | Err _ => false
  end.

Lemma atRun_ok ds chk : atRun ds chk = true -> (length ds <= 100)%nat ->
  exists r t k, fdemo ds = Ok r /\ threads (stage r) !! 0%nat = Some t /\ chk t r = true /\
    FDemo fetch_reach k r /\ k <= 1001.
Proof.
  unfold atRun. destruct (fdemo ds) as [r|] eqn:E; [|discriminate 1]. destruct (threads (stage r) !! 0%nat) as [t|] eqn:Et; [|discriminate 1].
  intros Hc Hl. destruct (fdemoRun_reach allAccepted ds r E Hl) as (k & Hr & Hk). exists r, t, k.
  exact (conj eq_refl (conj Et (conj Hc (conj Hr Hk)))).
Qed.

(** A mispredicted branch: commit sends the thread to 0x4000. *)
Definition squashFetch : Signals :=
  mkSignals (fun _ => mkCommitSig true (Some (mkPC 0x4000 0)) 0 None false false false) (fun _ => mkDecodeSig false None None 0 false false)
    (fun _ => 0) (fun _ => 0).

Lemma fdemo_enabled k r o :
  FDemo fetch_reach k r -> k <= 1001 -> fdemoEnabled (DFetch o) r = true -> fetch_enabled demoFetch k r o.
Proof. intros Hr Hk He. apply (fdemoEnabled_ok allAccepted k (DFetch o)); [exact Hr|lia|reflexivity|exact He]. Qed.


Lemma fetch_path_contiguous_witness :
  exists r t, fdemo fdemoOps = Ok r /\ threads (stage r) !! 0%nat = Some t /\ length (fetchQueue t) = 1%nat /\
    (exists a, chain a (fetchQueue t) (pc t)).
Proof.
  destruct (atRun_ok fdemoOps (fun t _ => bool_decide (length (fetchQueue t) = 1%nat))) as (r & t & k & E & Et & Hc & Hr & Hk);
    [vm_compute; reflexivity|apply Nat.leb_le; reflexivity|].
  exists r, t. apply bool_decide_eq_true in Hc. refine (conj E (conj Et (conj Hc _))).
  apply (FDemo fetch_path_contiguous fdemo_cfg k r Hr t); [clear -Hk; cbn; lia|exact Et].
Defined.

(** The cycle before the last one of [fdemoOps] *)
Definition fdemoBefore : list DemoFetchOp := take 6 fdemoOps.

Lemma fetch_in_order_witness :
  exists r t r1 out t' new, fdemo fdemoBefore = Ok r /\ threads (stage r) !! 0%nat = Some t /\ fetchQueue t = [] /\
    fdemoExec allAccepted (FTick quietFetch) r = Ok (tt, r1) /\ length out = 2%nat /\
    threads (stage r1) !! 0%nat = Some t' /\ fetchQueue t ++ new = out ++ fetchQueue t' /\ chain (pc t) new (pc t').
Proof.
  destruct (atRun_ok fdemoBefore (fun t r => bool_decide (fetchQueue t = []) && fdemoEnabled (DFetch (FTick quietFetch)) r &&
    match fdemoExec allAccepted (FTick quietFetch) r with
    | Ok (_, r1) => bool_decide (length (received (FTick quietFetch) r1) = 2%nat) | Err _ => false end))
    as (r & t & k & E & Et & Hc & Hr & Hk);
    [vm_compute; reflexivity|apply Nat.leb_le; reflexivity|].
  apply andb_true_iff in Hc as [Hc H2]. apply andb_true_iff in Hc as [H0 H1].
  destruct (fdemoExec allAccepted (FTick quietFetch) r) as [[[] r1]|] eqn:Ex; [|discriminate H2].
  apply bool_decide_eq_true in H0, H2.
  pose proof (FDemo fetch_runs_step k r (FTick quietFetch) r1 [] _ r1 (fdemo_enabled k r _ Hr Hk H1) (fun _ _ => eq_refl) Ex
    (FDemo fetch_runs_0 _ r1)) as Hrun. rewrite app_nil_r in Hrun.
  destruct (FDemo fetch_in_order fdemo_cfg k r Hr t _ _ r1 Et Hrun) as (t' & new & Ht' & Hq & Hch & _); [clear -Hk; cbn; lia|].
  exists r, t, r1, (received (FTick quietFetch) r1), t', new.
  exact (conj E (conj Et (conj H0 (conj Ex (conj H2 (conj Ht' (conj Hq Hch))))))).
Defined.

Lemma fetch_cycle_exact_witness :
  exists r t, fdemo fdemoBefore = Ok r /\ threads (stage r) !! 0%nat = Some t /\
    wp (fdemoExec allAccepted (FTick quietFetch)) (fun _ r' => exists t' more, threads (stage r') !! 0%nat = Some t' /\
      Z.of_nat (length more) <= 4 /\ fetchQueue t' = drop 2 (fetchQueue t ++ more)) r.
Proof.
  destruct (atRun_ok fdemoBefore (fun t r => fdemoEnabled (DFetch (FTick quietFetch)) r && negb (decode (stalls t))))
    as (r & t & k & E & Et & Hc & Hr & Hk);
    [vm_compute; reflexivity|apply Nat.leb_le; reflexivity|].
  apply andb_true_iff in Hc as [H1 H2]. apply negb_true_iff in H2. exists r, t. refine (conj E (conj Et _)).
  eapply wp_mono.
  - apply (FDemo fetch_cycle_exact fdemo_cfg k r Hr t quietFetch Et (fdemo_enabled k r _ Hr Hk H1)); [clear -Hk; cbn; lia|reflexivity].
  - intros [] r' (t' & more & Ht' & Hl & _ & Hq). exists t', more. refine (conj Ht' (conj Hl _)). rewrite Hq. clear -H2.
    unfold stallsAfter. cbn. by rewrite H2.
Defined.

Lemma fetch_squash_exact_witness :
  exists r t, fdemo fdemoOps = Ok r /\ threads (stage r) !! 0%nat = Some t /\ length (fetchQueue t) = 1%nat /\
    wp (fdemoExec allAccepted (FTick squashFetch)) (fun _ r' => exists t', threads (stage r') !! 0%nat = Some t' /\
      pc t' = mkPC 0x4000 0 /\ fetchQueue t' = [] /\ fetchStatus t' = Squashing /\ head (sent (stage r')) = Some [] /\
      c_instSeq (stage r') = c_instSeq (stage r)) r.
Proof.
  destruct (atRun_ok fdemoOps (fun t r => fdemoEnabled (DFetch (FTick squashFetch)) r && bool_decide (length (fetchQueue t) = 1%nat)))
    as (r & t & k & E & Et & Hc & Hr & Hk);
    [vm_compute; reflexivity|apply Nat.leb_le; reflexivity|].
  apply andb_true_iff in Hc as [H1 H2]. apply bool_decide_eq_true in H2. exists r, t. refine (conj E (conj Et (conj H2 _))).
  apply (FDemo fetch_squash_exact fdemo_cfg k r Hr t squashFetch (mkPC 0x4000 0) Et (fdemo_enabled k r _ Hr Hk H1));
    [clear -Hk; cbn; lia|reflexivity].
Defined.

(** The line of the first request comes a second time. *)
Lemma fetch_stale_ignored_witness :
  exists r t, fdemo fdemoOps = Ok r /\ threads (stage r) !! 0%nat = Some t /\ fetchStatus t = IcacheWaitResponse /\
    wp (fdemoExec allAccepted (FCache (fdemoRequest 0 0x1000 0x1000) (fdemoData 0x1000))) (fun _ r' =>
      threads (stage r') !! 0%nat = Some t /\ finishTranslationEvent (stage r') = finishTranslationEvent (stage r) /\
      c_instSeq (stage r') = c_instSeq (stage r)) r.
Proof.
  set (rq := fdemoRequest 0 0x1000 0x1000).
  destruct (atRun_ok fdemoOps (fun t r => fdemoEnabled (DFetch (FCache rq (fdemoData 0x1000))) r && negb (bool_decide (memReq t = Some rq)) &&
    bool_decide (fetchStatus t = IcacheWaitResponse)))
    as (r & t & k & E & Et & Hc & Hr & Hk);
    [vm_compute; reflexivity|apply Nat.leb_le; reflexivity|].
  apply andb_true_iff in Hc as [Hc H3]. apply andb_true_iff in Hc as [H1 H2]. apply negb_true_iff, bool_decide_eq_false in H2.
  apply bool_decide_eq_true in H3. exists r, t. refine (conj E (conj Et (conj H3 _))).
  apply (FDemo fetch_stale_ignored fdemo_cfg k r Hr t (FCache rq (fdemoData 0x1000)) rq Et H2);
    [right; by eexists|exact (fdemo_enabled k r _ Hr Hk H1)|clear -Hk; cbn; lia].
Defined.

(** The line of the call's target arrives and the CPU drains. *)
Definition fdemoDrain : list DemoFetchOp :=
  fdemoOps ++ [DFetch (FCache (fdemoRequest 1 0x2000 0x2000) (fdemoData 0x2000)); DFetch (FCpu true true); DFetch FDrainStall].

Lemma fetch_drains_witness :
  exists r t, fdemo fdemoDrain = Ok r /\ threads (stage r) !! 0%nat = Some t /\ length (fetchQueue t) = 1%nat /\
    wp (FDemo fetch_ticks [quietFetch]) (fun _ r' => isDrained demoFetch (stage r') = Ok (true, stage r')) r.
Proof.
  destruct (atRun_ok fdemoDrain (fun t r => bool_decide (length (fetchQueue t) = 1%nat) && bool_decide (c_activeThreads (stage r) = [0]) &&
    bool_decide (finishTranslationEvent (stage r) = None) && drain (stalls t) && negb (decode (stalls t)) && negb (keepsWaiting (fetchStatus t))))
    as (r & t & k & E & Et & Hc & Hr & Hk);
    [vm_compute; reflexivity|apply Nat.leb_le; reflexivity|].
  repeat match goal with H : _ && _ = true |- _ => apply andb_true_iff in H; destruct H end.
  repeat match goal with H : bool_decide _ = true |- _ => apply bool_decide_eq_true in H end.
  repeat match goal with H : negb _ = true |- _ => apply negb_true_iff in H end.
  exists r, t. refine (conj E (conj Et (conj _ _))); [assumption|].
  apply (FDemo fetch_drains fdemo_cfg k r Hr t [quietFetch] Et); try assumption.
  - clear. by repeat constructor.
  - discriminate.
  - match goal with H : length _ = _ |- _ => rewrite H end. clear. cbn. lia.
  - clear -Hk. cbn. lia.
Defined.

(** ** At the edges *)

(** The cache refuses the first request; the thread waits for the retry and is told to drain. *)
Definition firstRefused (n : nat) : bool := negb (Nat.eqb n 0).
Definition fdemoRefused : list DemoFetchOp :=
  [DFetch (FCpu true true); DBac (UTick quietSig); DFetch (FTick quietFetch); DFetch FDrainStall].

Abbreviation RDemo f := (f demoFetch (wordInst 0) fdemoMicroop (fun _ => false) fdemoTranslate (fun _ => true) firstRefused demoPC (fun _ => 0)).

(** The thread waits for the retry, and the squash may come. *)
Definition waitsForRetry (r : DemoFetch) (t : @Thread WordDecoder) : bool :=
  bool_decide (fetchStatus t = IcacheWaitRetry) && isSome (memReq t) && drain (stalls t) && negb (decode (stalls t)) &&
  fdemoEnabled (DFetch (FTick squashFetch)) r.

Lemma fdemo_refused :
  exists r t rq k, fdemoRun firstRefused fdemoRefused = Ok r /\ threads (stage r) !! 0%nat = Some t /\ memReq t = Some rq /\
    waitsForRetry r t = true /\ RDemo fetch_reach k r /\ k <= 1001.
Proof.
  assert (H : match fdemoRun firstRefused fdemoRefused with
              | Ok r => match threads (stage r) !! 0%nat with Some t => waitsForRetry r t | None => false end
              | Err _ => false end = true) by (vm_compute; reflexivity).
  destruct (fdemoRun firstRefused fdemoRefused) as [r|] eqn:E; [|discriminate H].
  destruct (threads (stage r) !! 0%nat) as [t|] eqn:Et; [|discriminate H].
  destruct (fdemoRun_reach firstRefused fdemoRefused r E) as (k & Hr & Hk); [apply Nat.leb_le; reflexivity|].
  destruct (memReq t) as [rq|] eqn:Em; [|unfold waitsForRetry in H; rewrite Em, andb_false_r in H; discriminate H].
  exists r, t, rq, k. exact (conj eq_refl (conj Et (conj Em (conj H (conj Hr Hk))))).
Qed.

Lemma fetch_drain_leaves_request_witness :
  exists r t rq, fdemoRun firstRefused fdemoRefused = Ok r /\ threads (stage r) !! 0%nat = Some t /\ memReq t = Some rq /\
    wp (fdemoExec firstRefused (FTick squashFetch) ;; fdemoExec firstRefused FRetry ;; RDemo fetch_ticks [quietFetch])
      (fun _ r' => isDrained demoFetch (stage r') = Ok (true, stage r') /\
        (exists t', threads (stage r') !! 0%nat = Some t' /\ memReq t' = Some rq) /\
        drainSanityCheck demoFetch (stage r') = Err AssertFail) r.
Proof.
  destruct fdemo_refused as (r & t & rq & k & E & Et & Em & Hc & Hr & Hk). unfold waitsForRetry in Hc.
  repeat match goal with H : _ && _ = true |- _ => apply andb_true_iff in H; destruct H end.
  exists r, t, rq. refine (conj E (conj Et (conj Em _))).
  apply (RDemo fetch_drain_leaves_request fdemo_cfg k r Hr t squashFetch (mkPC 0x4000 0) [quietFetch] rq Et).
  - by match goal with H : bool_decide _ = true |- _ => apply bool_decide_eq_true in H end.
  - exact Em.
  - assumption.
  - by match goal with H : negb _ = true |- _ => apply negb_true_iff in H end.
  - eapply (fdemoEnabled_ok firstRefused k (DFetch (FTick squashFetch))); [exact Hr|clear -Hk; lia|reflexivity|assumption].
  - reflexivity.
  - reflexivity.
  - clear. by repeat constructor.
  - discriminate.
  - clear -Hk. cbn. lia.
Defined.
